(* ===== verification/_CoqProject ===== *)
-Q . S2P
Prelude.v
Bytes.v
Decimal.v
Stream.v
Socks5.v
Socks5Handshake.v
Socks5Udp.v
NetAddr.v
Connector.v
Socks4.v
Dispatch.v
Uri.v
UriRoundtrip.v
Capability.v
Chain.v
Health.v
Upstream.v
Relay.v
Scheduler.v
Matcher.v
Router.v
CompatRule.v
UdpSecurity.v
UdpRegistry.v
Shadowsocks.v
ShadowsocksStream.v
ShadowsocksTcp.v
UdpHop.v
Tls.v
Trojan.v
HttpText.v
HttpForward.v
HttpBody.v
HttpResponse.v
HttpConnect.v
WebSocket.v
AuthCache.v
Accept.v
AcceptAuth.v
Reply.v
Session.v
ForwardSession.v
UdpUpstream.v
UdpCapability.v
UdpFlow.v
UdpOpen.v
UdpRelay.v
UdpStandalone.v
UdpSession.v
ConfigRules.v
ConfigUpstreams.v
ConfigListeners.v
ConfigService.v
Config.v
Snapshot.v
Reverse.v
ReverseCompat.v
ReverseRuntime.v
Admin.v
AdminClient.v
OutboundHops.v
Outbound.v
Listeners.v
Supervisor.v
