(* ===== verification/Prelude.v ===== *)
(** * Eggress: a verification development

    Eggress is a multi-protocol proxy: a listener detects the protocol of a
    client, runs its handshake, asks the router what to do with the target,
    reaches it directly or through a chain of upstream proxies, and relays bytes
    until both sides are done.  UDP traffic goes through associations and flow
    tables.  A configuration file is validated and compiled into the snapshot all
    of this runs from, and can be reloaded.  This library models the parts of that
    path that carry the program's own logic, file by file after the sources under
    [src/crates], and proves what makes them correct.

    ** Components and files

    Foundations
    - [Prelude.v] (this file): outcomes of fallible code ([Ok], [Err], [Panic]),
      checked indexing and slicing, list lemmas, tactics, the hint databases.
    - [Bytes.v]: bytes and strings, UTF-8, big-endian integers, string searches.
    - [Decimal.v]: decimal and hexadecimal text.
    - [Stream.v]: byte streams and the monad of the handshake handlers.

    Protocols
    - [Socks5.v], [Socks5Handshake.v], [Socks5Udp.v]: [eggress-protocol-socks/src/socks5]:
      parsers ([parse_socks5_request] ..), the server handshake
      ([handle_socks5_handshake]) and the client ([socks5_connect]), the UDP
      datagram codec.
    - [Socks4.v]: [eggress-protocol-socks/src/socks4]: [read_socks4_request],
      [write_socks4_reply], [socks4_connect].
    - [Shadowsocks.v], [ShadowsocksStream.v], [ShadowsocksTcp.v]:
      [eggress-protocol-shadowsocks/src]: addresses, nonces, key derivation, AEAD
      frames and UDP packets; the encrypting stream down to single polls
      ([tcp_stream.rs]); the replay window, connect and accept ([tcp.rs]).
    - [Trojan.v]: [eggress-protocol-trojan/src].
    - [HttpText.v], [HttpConnect.v], [HttpForward.v], [HttpBody.v], [HttpResponse.v]:
      [eggress-protocol-http/src]: message heads, the CONNECT server and client, the
      forward proxy with its requests, bodies and responses.
    - [WebSocket.v]: [eggress-protocol-websocket/src]: the tunnel in binary messages.
    - [Dispatch.v]: [eggress-core/src/{detect,replay,dispatch}.rs] and the SOCKS
      and HTTP detectors: sniffing the protocol of a connection without losing a
      byte of it.

    Reaching a target
    - [NetAddr.v]: [TargetHost] and [TargetAddr] of [eggress-core/src/lib.rs] with
      the address parser and printer of the Rust standard library.
    - [Connector.v]: [eggress-core/src/connector.rs]: the guard against reserved
      and private addresses, resolution and dialling.
    - [Uri.v], [UriRoundtrip.v]: [eggress-uri]: the proxy chain grammar, display
      and redaction.
    - [Capability.v]: [eggress-core/src/capability.rs].
    - [Chain.v]: [eggress-core/src/chain.rs]: tunnelling through the hops.  Uses the
      connector for the first hop and the chain specifications of [Uri.v].
    - [Relay.v]: [eggress-relay]: the future that copies both ways.
    - [Tls.v]: [eggress-transport-tls]: root stores, client and server configurations.
    - [OutboundHops.v], [Outbound.v]: [eggress-outbound]: the handler of each hop with the
      clients of the protocol files, the executor with its TLS policy and HTTP/2 pools,
      the connector with its typed failures, listener-free UDP.  Instantiates [Chain.v].

    Routing ([eggress-routing])
    - [Health.v] ([health.rs]), [Upstream.v] ([upstream.rs], [lease.rs]): the state of
      one upstream: health with hysteresis, connection counters, leases.
    - [Scheduler.v] ([scheduler.rs]): the four schedulers over eligible upstreams;
      the random source is the class [RandomIndex], its promise [RandomIndexOk].
    - [Matcher.v] ([matcher.rs], requests of [model.rs]): match expressions.
    - [Router.v] ([model.rs], [rule.rs], [router.rs], [explain.rs]): rules, selection
      with fallback and lease, explanation, the swappable service.
    - [CompatRule.v] ([compat.rs]): pproxy rules.

    Sessions ([eggress-server], [eggress-outbound])
    - [AuthCache.v]: the authentication reuse cache of [accept/mod.rs].
    - [Accept.v]: [accept/] and [auth.rs]: a connection task as a tree of operations on
      what connections share; [AcceptAuth.v] holds its calculus and the system of
      interleaved connections.
    - [Reply.v]: error classification and the reply each protocol gets.
    - [Session.v], [ForwardSession.v]: [execute/mod.rs]: a tunnel, an echo session and
      an HTTP forward session from the route to the report.

    UDP ([eggress-udp], [eggress-runtime/src/supervisor/udp_runtime.rs])
    - [UdpSecurity.v] ([security.rs], [error.rs], conversions of [flow.rs]).
    - [UdpRegistry.v] ([assoc.rs], [registry.rs], [limits.rs]): associations and
      their limits, as a step relation.
    - [UdpHop.v] ([hop.rs], [codec.rs], [composed.rs]), [UdpUpstream.v]
      ([upstream_socks5.rs]), [UdpCapability.v] ([udp_capability.rs]): UDP through
      chains of proxies.
    - [UdpFlow.v] ([flow.rs], [direct.rs]), [UdpOpen.v]: flows, flow tables, reaping,
      and opening the flow of a routed datagram.
    - [UdpRelay.v] ([relay.rs]), [UdpStandalone.v] ([standalone.rs],
      [standalone_shadowsocks.rs]): the relay tasks as state machines over events.
    - [UdpSession.v]: [execute_udp_associate], the dispatcher [execute], and the UDP
      service of a listener.

    Configuration ([eggress-config]) and process ([eggress-runtime])
    - [ConfigRules.v], [ConfigUpstreams.v], [ConfigListeners.v], [ConfigService.v]: each
      section of the file ([model.rs]) with its validation ([validate/]) and its
      compilation ([compile/]).
    - [Config.v]: the whole file, rules files, warnings, the entry points.
    - [Snapshot.v]: [snapshot.rs], [supervisor/reload.rs], [supervisor/startup.rs] and the
      reload of [supervisor/state.rs]: a configuration becomes a running state, and a
      process is a step relation of leases, routes and reloads.
    - [Listeners.v]: [supervisor/listeners.rs], [supervisor/connection.rs], the system proxy
      of [supervisor/services.rs], [eggress-core/src/listener.rs] and
      [eggress-server/src/listener/unix.rs]: from the compiled listeners to bound sockets
      and to what a connection on each is served with.
    - [Supervisor.v]: the accept loops of [supervisor.rs], [supervisor/accounting.rs],
      [supervisor/signals.rs] and [supervisor/shutdown.rs]: accept loops, connection tasks
      and the supervising task as a system of interleaved steps, started from the
      listeners of [Listeners.v].

    Reverse proxies ([eggress-protocol-reverse], [eggress-runtime/src/reverse.rs]) and
    admin endpoint ([eggress-admin])
    - [Reverse.v]: [lib.rs], [tls.rs], [server.rs], [client.rs]: the handshake of a control
      channel, the server as a step relation over its tasks and counters, the client
      with its back-off.
    - [ReverseCompat.v]: [compat_pproxy.rs]: the pproxy framing, and control channels that
      are reached through proxies.
    - [ReverseRuntime.v]: [reverse.rs] and [supervisor/services.rs]: the policy gate of a
      target, and what a configuration starts.
    - [Admin.v]: [server.rs], [routes.rs], [pac.rs], [static_content.rs], [reverse.rs] and
      [supervisor/operations.rs]: authentication with the failure limiter, every route,
      the proxy auto-configuration file.  [AdminClient.v]: [client.rs].

    ** How the code is modelled

    A struct is a record, an enum an inductive type with the source's
    constructors (prefixed where two enums share a name), a function one
    definition of the same name.  Error texts are constructors that keep what the
    text quotes; a configuration error keeps its path, as a list of segments.  A
    panic of checked indexing, slicing or of a failed conversion is the outcome
    [Panic], so panic-freedom is a theorem.  Bytes are [Byte.byte]; ports, counters
    and durations are [Z] with the width written out where it matters (64-bit
    counters wrap); durations of the configuration are in nanoseconds.
    Asynchronous handlers are functions of what the peer sends before it closes;
    the replay stream, the relay and the Shadowsocks stream, whose code depends on
    how bytes arrive, are modelled down to single polls.  Shared mutable objects
    (upstreams, schedulers, registries, caches) are explicit state that is passed
    on; concurrent uses of them are step relations whose steps are the atomic
    operations of the code.  Coarser steps: a route (decision and selection) works on one
    state of the router and the upstreams, although a scheduler reads their counters one
    by one while other sessions change them, so a choice may rest on counts that were
    never there together; and of a task what lies between two awaits is one step, except
    where another task sees the difference and it is split: the hand-over of a lease
    ([leave_pending], [enter_active]), the count and the check of a control connection
    ([on_control_accept], [on_control_checked]), the end of a UDP relay, which tears down
    before it waits for the registry and can be aborted there ([relay_cleanup],
    [relay_removed], [relay_abort_disarmed]) or leaves the removal to a spawned task
    ([spawned_removal]).  Upstreams live in a heap that only grows: a replaced
    snapshot stays alive while sessions hold its leases.  A hash map is a finite
    map, or the list of its entries in iteration order where the code iterates.

    Code outside the repository is a parameter: name resolution, sockets and the
    clock ([Connector.v], [Chain.v], the worlds of the UDP files), hop handlers and
    TLS ([Chain.v]), certificates and root stores ([TlsLib]), regular expressions and
    CIDR sets ([Matcher.v], [Router.v],
    [CompatRule.v]), randomness ([Scheduler.v]), the streams of a relay ([Relay.v]),
    ciphers and digests (the class [Crypto] with [CryptoLaws]; SHA-224 of Trojan),
    Base64 and request serialization (the class [ConnectLib]), what a WebSocket
    library yields, the iteration order of hash maps ([HashIter]), whether a timeout
    fires first, and for the configuration the TOML parser, the environment, the
    file system and the TLS builders ([config_world]) and the features of the build;
    for the reverse proxies what dialling and TLS answer and how many bytes a read
    gives, for the admin endpoint Base64, the text of JSON and the metrics page
    ([AdminLib]).
    Every theorem holds for all of them, and says so when it needs something of
    them.

    ** What the theorems show

    - Authentication and protocol agreement: a listener with a password admits only
      its holder (with SOCKS4 who knows the user name), or who shares an address with one
      while sessions of that address follow each other within the reuse timeout, in every
      interleaving of connections that share the cache; clients and servers of SOCKS4, SOCKS5, CONNECT, Trojan and
      Shadowsocks understand each other; parsers accept exactly the wire forms and
      never panic; the datagram codec is a bijection.
    - Shadowsocks: what is read is a prefix of what was written under the key, and from an
      honest peer everything is delivered by a bounded number of answered reads, with the
      end of the stream only after it; after any history the replay window refuses exactly
      the last 4096 accepted salts.
    - HTTP: the origin gets exactly the filtered request, bodies and responses are
      copied exactly, and a session forwards its requests in order.
    - Egress safety: the address guard is a list of CIDR blocks seen through the
      IPv4-mapped form; a guarded connect never dials into them and still reaches
      an admissible address; UDP targets without private egress are public.
    - Detection: no byte is lost, the result does not depend on segmentation.
    - Chains: effects happen in order and nothing else happens; only the last hop
      learns the destination; a chain that can be built is built, where a later hop with
      only QUIC or HTTP/3 is passed over.  Run against servers of
      its protocols, a chain asks each proxy for the next one and opens an exact tunnel to
      the destination; certificates are verified as configured; failures name their hop.
    - Relay: byte-exact forwarding, correct half-close and accounting for all
      schedules; termination with everything delivered, or at the drain deadline.
    - Routing: first match, eligible choices, fairness, minimal load, every
      outcome of a route, agreement of explanations with routes; counters equal
      the live leases in every interleaving; health follows the last results.
    - Sessions: every path of a session gives back its lease, reports what was
      relayed, and respects the policy of the listener.
    - URIs and addresses: round trips, well-formed results, redaction.
    - UDP: limits and pinning in every reachable registry state; relays forward only
      validated and routed datagrams, answer only the client, keep clients apart,
      and account for every flow, lease and registered association, up to the aborts
      that leave one behind.
    - Configuration: a file that is accepted names only groups and upstreams that
      exist, its rules decide as they are written where every composite has one part, an
      admin endpoint that is not on loopback has credentials; a running process stays
      consistent with what its accept loops captured, through all reloads, and a reload
      is taken whole or not at all.
    - Process: every listener is served as its file says, with non-empty credentials where
      it has any; in every interleaving connections are counted exactly and within their
      limits; the shutdown is ordered, cancels nothing before the grace period is over, and
      ends.
    - Reverse proxies: both ends of a control channel agree on the credentials; in every
      reachable state of a serving server the counters are exact and within the limits, a
      control channel serves one client and presented the credentials where both are set; a
      configuration starts exactly its native servers on loopback; Base64 as the jumps write it can be read back.
    - Admin endpoint: outside loopback it answers only to its credentials, with a bounded
      limiter that counts and blocks per address; text of the configuration cannot leave its literal in the generated
      script.
    - Flaws the code has, stated exactly: [compat_match_or_panic],
      [mapped_target_bypasses_shape], [socks4_nul_splits_domain],
      [bare_bind_refused], [redact_leaks_open_bracket],
      [preview_moves_least_connections], [tls_modifier_case_sensitive],
      [udp_setup_exhausts], [udp_check_sound], [httponly_split_head],
      [udp_recv_anybody], [empty_password_from_environment],
      [bare_listeners_accepted], [dropped_part], [disarmed_abort_leaks],
      [interval_wraps], [backward_host_name_lost], [reverse_target_has_no_block],
      [admin_port_zero], [explain_refused], [signal_leaves_services],
      [silent_clients_block].

    ** Bounds

    Recursion is structural on the input except in loops that carry a step count:
    the SOCKS4 field loops (a field has at most 255 bytes, 257 turns), the dispatch
    loop (each turn reads at least one byte of at most [max_sniff]) and the sniff
    loop of accept (18 turns), the digit loops (a [u16] has at most five digits), the
    binary search (length of the slice), the loops over a message head (one more
    than the maximal head), over chunks and copied bodies (what the stream still
    delivers plus two), over informational responses (10) and over the requests of
    a forward session (101, the limit of the source plus one), the key derivation
    loop (48 bytes) and the read, write and flush loops of the Shadowsocks stream.
    The
    loop over the head of a jump makes at most 16385 turns, one more than the bytes it
    accepts.  The theorems about them include that the count is not exhausted.  One poll of a
    relay direction makes the 16 steps of the source.  Match expressions are nested
    at most as deep as the source allows.

    ** Not modelled

    Timeouts appear as possible answers, not as time, except for the relay's drain
    deadline, the idle times of UDP flows and the reuse cache.  Not modelled: the
    TLS handshake, QUIC, SSH and HTTP/2-3 transports (third-party stacks), the legacy ciphers and
    ShadowsocksR (features that are off by default), the raw tunnel,
    the QUIC and HTTP/3 accept loops and the echo relays of a process, health probe tasks,
    metrics and logging, serialization and [Debug] output,
    the command line and the pproxy argument translation, bindings, system proxy
    settings and the test kit. *)

From stdpp Require Export base tactics list list_numbers strings gmap.
From Stdlib Require Export ZArith Lia.

(** ** Outcomes of Rust code

    A Rust function that returns [Result<A, E>] either returns [Ok a], returns
    [Err e], or panics (slice index out of range, failed [copy_from_slice],
    arithmetic overflow in a checked build).  Keeping panics as a third
    constructor makes panic-freedom a statement that can be proved. *)

Inductive outcome (E A : Type) : Type :=
| Ok (a : A)
| Err (e : E)
| Panic.
Arguments Ok {E A} a.
Arguments Err {E A} e.
Arguments Panic {E A}.

Definition obind {E A B} (m : outcome E A) (k : A -> outcome E B) : outcome E B :=
  match m with
  | Ok a => k a
  | Err e => Err e
  | Panic => Panic
  end.

(** [map_err]: change of error type at a component boundary. *)
Definition map_err {E F A} (f : E -> F) (m : outcome E A) : outcome F A :=
  match m with
  | Ok a => Ok a
  | Err e => Err (f e)
  | Panic => Panic
  end.

Definition is_ok {E A} (m : outcome E A) : bool :=
  match m with Ok _ => true | _ => false end.

(** [ok_or]: [Option::ok_or] of the standard library. *)
Definition ok_or {E A} (e : E) (o : option A) : outcome E A :=
  match o with Some a => Ok a | None => Err e end.

Declare Scope rust_scope.
Delimit Scope rust_scope with rust.
Notation "'let?' x ':=' m 'in' k" := (obind m (fun x => k))
  (at level 10, x pattern, m at level 100, k at level 200)
  : rust_scope.
Open Scope rust_scope.

Create HintDb egg discriminated.
Create Rewrite HintDb egg.

(** Inversion of a successful bind: the only case split the parser proofs need. *)
Lemma obind_ok {E A B} (m : outcome E A) (k : A -> outcome E B) b :
  obind m k = Ok b <-> exists a, m = Ok a /\ k a = Ok b.
Proof. destruct m; simpl; naive_solver. Qed.

Lemma obind_panic {E A B} (m : outcome E A) (k : A -> outcome E B) :
  obind m k <> Panic <-> m <> Panic /\ (forall a, m = Ok a -> k a <> Panic).
Proof. destruct m; simpl; naive_solver. Qed.

(** ** Durations

    Durations and points of time are in nanoseconds. *)

Definition NANOS : Z := 1000000000.

(** ** Slices *)

(** [buf[i]]: panics out of range. *)
Definition index {E A} (l : list A) (i : nat) : outcome E A :=
  match l !! i with Some x => Ok x | None => Panic end.

(** [&buf[i..j]]: panics when [i > j] or [j > len]. *)
Definition slice {E A} (l : list A) (i j : nat) : outcome E (list A) :=
  if (i <=? j) && (j <=? length l) then Ok (take (j - i) (drop i l)) else Panic.

(** [&buf[i..]]. *)
Definition slice_from {E A} (l : list A) (i : nat) : outcome E (list A) :=
  if i <=? length l then Ok (drop i l) else Panic.

(** [&buf[..j]]. *)
Definition slice_to {E A} (l : list A) (j : nat) : outcome E (list A) :=
  if j <=? length l then Ok (take j l) else Panic.

Notation "l .[ i ]" := (index l i) (at level 1, left associativity, format "l .[ i ]") : rust_scope.

Section slices.
Context {E A : Type}.
Implicit Types l m r : list A.

Lemma index_lt l i : i < length l -> exists x, index (E:=E) l i = Ok x /\ l !! i = Some x.
Proof.
  intros Hi. unfold index. destruct (lookup_lt_is_Some_2 l i Hi) as [x ->]. eauto.
Qed.

Lemma index_ok l i x : index (E:=E) l i = Ok x <-> l !! i = Some x.
Proof. unfold index. destruct (l !! i); naive_solver. Qed.

Lemma slice_ok l i j m :
  slice (E:=E) l i j = Ok m <->
  i <= j /\ j <= length l /\ m = take (j - i) (drop i l).
Proof.
  unfold slice.
  destruct (Nat.leb_spec i j), (Nat.leb_spec j (length l)); simpl; naive_solver lia.
Qed.

Lemma slice_from_ok l i m :
  slice_from (E:=E) l i = Ok m <-> i <= length l /\ m = drop i l.
Proof. unfold slice_from. destruct (Nat.leb_spec i (length l)); naive_solver lia. Qed.

Lemma slice_to_ok l j m : slice_to (E:=E) l j = Ok m <-> j <= length l /\ m = take j l.
Proof. unfold slice_to. destruct (Nat.leb_spec j (length l)); naive_solver lia. Qed.

Lemma index_no_panic l i : i < length l -> index (E:=E) l i <> Panic.
Proof. intros Hi. destruct (index_lt l i Hi) as (x & -> & _). done. Qed.

Lemma slice_no_panic l i j : i <= j -> j <= length l -> slice (E:=E) l i j <> Panic.
Proof.
  intros ??. unfold slice.
  destruct (Nat.leb_spec i j), (Nat.leb_spec j (length l)); simpl; done || lia.
Qed.

Lemma slice_from_no_panic l i : i <= length l -> slice_from (E:=E) l i <> Panic.
Proof. intros ?. unfold slice_from. destruct (Nat.leb_spec i (length l)); done || lia. Qed.

(** Reading back a segment that was appended. *)
Lemma slice_app_mid l m r i j :
  i = length l -> j = length l + length m ->
  slice (E:=E) (l ++ m ++ r) i j = Ok m.
Proof.
  intros -> ->. unfold slice.
  rewrite !length_app, (proj2 (Nat.leb_le _ _)), (proj2 (Nat.leb_le _ _)) by lia.
  simpl. rewrite drop_app_length.
  replace (length l + length m - length l) with (length m) by lia.
  by rewrite take_app_length.
Qed.

Lemma slice_from_app l r i : i = length l -> slice_from (E:=E) (l ++ r) i = Ok r.
Proof.
  intros ->. unfold slice_from.
  rewrite length_app, (proj2 (Nat.leb_le _ _)) by lia. by rewrite drop_app_length.
Qed.

Lemma slice_to_app l r i : i = length l -> slice_to (E:=E) (l ++ r) i = Ok l.
Proof.
  intros ->. apply slice_to_ok. rewrite length_app, take_app_length. split; [lia|done].
Qed.

Lemma index_app_r l r i j : i = length l + j -> index (E:=E) (l ++ r) i = index r j.
Proof. intros ->. unfold index. by rewrite lookup_app_r, Nat.add_sub' by lia. Qed.
End slices.

(** ** Filtered lists *)

Section filtered.
Context {A : Type} (P : A -> Prop) `{Hdec : !forall x, Decision (P x)}.

(** A split of the filtered list comes from a split of the list itself. *)
Lemma filter_split (l l1 l2 : list A) (b : A) :
  filter P l = l1 ++ b :: l2 -> exists m r, l = m ++ b :: r /\ filter P m = l1.
Proof.
  revert l1. induction l as [|x l IH]; intros l1 Hf; [by destruct l1|].
  rewrite filter_cons in Hf. destruct (decide (P x)) as [Hx|Hx].
  - destruct l1 as [|y l1].
    + injection Hf as -> Hf. exists [], l. done.
    + injection Hf as -> Hf. destruct (IH _ Hf) as (m & r & -> & Hm). exists (y :: m), r.
      split; [done|]. rewrite filter_cons_True by done. by rewrite Hm.
  - destruct (IH _ Hf) as (m & r & -> & Hm). exists (x :: m), r.
    split; [done|]. by rewrite filter_cons_False.
Qed.

Lemma filter_all (l : list A) : (forall x, P x) -> filter P l = l.
Proof. intros Ha. induction l; [done|]. rewrite filter_cons_True by done. by f_equal. Qed.
End filtered.

(** ** Development tactics *)

(** Invert every successful bind, index and slice in the context. *)
Ltac inv_ok :=
  repeat match goal with
  | H : obind _ _ = Ok _ |- _ => apply obind_ok in H; destruct H as (? & ? & H)
  | H : index _ _ = Ok _ |- _ => apply index_ok in H
  | H : slice _ _ _ = Ok _ |- _ => apply slice_ok in H; destruct H as (? & ? & ?)
  | H : slice_from _ _ = Ok _ |- _ => apply slice_from_ok in H; destruct H as (? & ?)
  | H : slice_to _ _ = Ok _ |- _ => apply slice_to_ok in H; destruct H as (? & ?)
  | H : Ok _ = Ok _ |- _ => injection H as H; try subst
  | H : (_, _) = (_, _) |- _ => injection H as; try subst
  end.

(** Case split on the next boolean guard of a translated function. *)
Ltac guard_in H :=
  match type of H with
  | context [if ?b then _ else _] => let E := fresh "G" in destruct b eqn:E
  end.

Ltac guard_goal :=
  match goal with
  | |- context [if ?b then _ else _] => let E := fresh "G" in destruct b eqn:E
  end.

(** Turn boolean comparisons into propositions. *)
Ltac bool_to_prop :=
  repeat match goal with
  | H : (_ <? _)%nat = true |- _ => apply Nat.ltb_lt in H
  | H : (_ <? _)%nat = false |- _ => apply Nat.ltb_ge in H
  | H : (_ <=? _)%nat = true |- _ => apply Nat.leb_le in H
  | H : (_ <=? _)%nat = false |- _ => apply Nat.leb_gt in H
  | H : (_ =? _)%nat = true |- _ => apply Nat.eqb_eq in H
  | H : (_ =? _)%nat = false |- _ => apply Nat.eqb_neq in H
  | H : (_ <? _)%Z = true |- _ => apply Z.ltb_lt in H
  | H : (_ <? _)%Z = false |- _ => apply Z.ltb_ge in H
  | H : (_ <=? _)%Z = true |- _ => apply Z.leb_le in H
  | H : (_ <=? _)%Z = false |- _ => apply Z.leb_gt in H
  | H : (_ =? _)%Z = true |- _ => apply Z.eqb_eq in H
  | H : (_ =? _)%Z = false |- _ => apply Z.eqb_neq in H
  | H : negb _ = true |- _ => apply negb_true_iff in H
  | H : negb _ = false |- _ => apply negb_false_iff in H
  | H : _ && _ = true |- _ => apply andb_true_iff in H; destruct H
  | H : _ || _ = false |- _ => apply orb_false_iff in H; destruct H
  end.
