(* ===== verification/Bytes.v ===== *)
(** * Bytes, machine integers and UTF-8 strings

    [u8] is [Byte.byte], so a byte is always in range.  [u16] is [Z] with the
    bound [is_u16].  A Rust [String] or [&str] is the list of its UTF-8 bytes;
    [utf8_valid] is the check of [std::str::from_utf8].  Scans for ASCII
    characters work on bytes: an ASCII byte never occurs inside a multi-byte
    UTF-8 sequence, so byte and character scans find the same positions. *)

From S2P Require Import Prelude.
From Stdlib Require Export Strings.Byte.
Local Open Scope Z_scope.

(** ** Bytes *)

#[export] Instance byte_eq_dec : EqDecision byte := Byte.byte_eq_dec.

#[export] Instance byte_countable : Countable byte := inj_countable Byte.to_N Byte.of_N Byte.of_to_N.

(** [b as u64] and [z as u8] (truncating). *)
Definition b2Z (b : byte) : Z := Z.of_N (Byte.to_N b).
Definition Z2b (z : Z) : byte :=
  match Byte.of_N (Z.to_N (z mod 256)) with Some b => b | None => x00 end.
Definition b2n (b : byte) : nat := Z.to_nat (b2Z b).

Definition byte_eqb (a b : byte) : bool := bool_decide (a = b).
Notation "a =b b" := (byte_eqb a b) (at level 70) : rust_scope.

Lemma byte_eqb_true a b : (a =b b) = true <-> a = b.
Proof. apply bool_decide_eq_true. Qed.

Lemma byte_eqb_false a b : (a =b b) = false <-> a <> b.
Proof. apply bool_decide_eq_false. Qed.

Lemma byte_eqb_refl a : (a =b a) = true.
Proof. by apply byte_eqb_true. Qed.

(** Decide the comparisons of constant bytes in the goal. *)
Ltac byte_if :=
  repeat match goal with
  | |- context [byte_eqb ?a ?b] =>
      let v := eval vm_compute in (byte_eqb a b) in
      match v with true => idtac | false => idtac end;
      change (byte_eqb a b) with v
  end; cbn [negb]; cbv iota.

Lemma b2Z_range b : 0 <= b2Z b < 256.
Proof. unfold b2Z. pose proof (Byte.to_N_bounded b). lia. Qed.

Lemma Z2b_b2Z b : Z2b (b2Z b) = b.
Proof.
  unfold Z2b. rewrite Z.mod_small by apply b2Z_range.
  unfold b2Z. by rewrite N2Z.id, Byte.of_to_N.
Qed.

Lemma b2Z_Z2b z : b2Z (Z2b z) = z mod 256.
Proof.
  unfold Z2b, b2Z. pose proof (Z.mod_pos_bound z 256).
  destruct (Byte.of_N (Z.to_N (z mod 256))) eqn:E.
  - apply Byte.to_of_N in E. rewrite E. lia.
  - apply Byte.of_N_None_iff in E. lia.
Qed.

Lemma b2Z_inj a b : b2Z a = b2Z b -> a = b.
Proof. intros H. by rewrite <- (Z2b_b2Z a), H, Z2b_b2Z. Qed.

Lemma b2n_range b : (b2n b < 256)%nat.
Proof. unfold b2n. pose proof (b2Z_range b). lia. Qed.

(** [n as u8] for a length known to fit. *)
Lemma b2n_Z2b n : (n < 256)%nat -> b2n (Z2b (Z.of_nat n)) = n.
Proof. intros H. unfold b2n. rewrite b2Z_Z2b, Z.mod_small; lia. Qed.

Lemma Z2b_b2n b : Z2b (Z.of_nat (b2n b)) = b.
Proof.
  unfold b2n. rewrite Z2Nat.id by (pose proof (b2Z_range b); lia). apply Z2b_b2Z.
Qed.

#[export] Hint Rewrite byte_eqb_refl Z2b_b2Z b2Z_Z2b Z2b_b2n : egg.
#[export] Hint Resolve b2Z_range b2n_range : egg.

(** ** 16-bit integers in network order *)

Definition is_u16 (z : Z) : Prop := 0 <= z < 65536.
Definition is_u64 (z : Z) : Prop := 0 <= z < 2 ^ 64.

#[export] Instance is_u16_dec z : Decision (is_u16 z).
Proof. unfold is_u16. apply _. Defined.

(** [u16::from_be_bytes([hi, lo])] and [u16::to_be_bytes]. *)
Definition u16_from_be (hi lo : byte) : Z := b2Z hi * 256 + b2Z lo.
Definition u16_to_be (z : Z) : list byte := [Z2b (z / 256); Z2b z].

Lemma u16_from_be_range hi lo : is_u16 (u16_from_be hi lo).
Proof. unfold is_u16, u16_from_be. pose proof (b2Z_range hi). pose proof (b2Z_range lo). lia. Qed.

Lemma u16_from_to z : is_u16 z -> u16_from_be (Z2b (z / 256)) (Z2b z) = z.
Proof.
  intros [??]. unfold u16_from_be. rewrite !b2Z_Z2b.
  rewrite (Z.mod_small (z / 256)) by (split; [apply Z.div_pos | apply Z.div_lt_upper_bound]; lia).
  pose proof (Z.div_mod z 256). lia.
Qed.

Lemma u16_to_from hi lo : u16_to_be (u16_from_be hi lo) = [hi; lo].
Proof.
  unfold u16_to_be, u16_from_be.
  pose proof (b2Z_range hi). pose proof (b2Z_range lo).
  assert ((b2Z hi * 256 + b2Z lo) / 256 = b2Z hi) as ->.
  { rewrite Z.div_add_l by lia. rewrite (Z.div_small (b2Z lo)) by lia. lia. }
  f_equal; [apply Z2b_b2Z|]. f_equal. apply b2Z_inj. rewrite b2Z_Z2b.
  rewrite Z.add_comm, Z.mod_add by lia. by apply Z.mod_small.
Qed.

Lemma u16_to_be_length z : length (u16_to_be z) = 2%nat.
Proof. done. Qed.

#[export] Hint Resolve u16_from_be_range : egg.

(** ** Strings *)

Abbreviation bytes := (list byte).

(** A string literal of the source, as bytes. *)
Definition str (s : string) : bytes := String.list_byte_of_string s.

(** [std::str::from_utf8]: the well-formed byte sequences of the Unicode
    standard (table 3-7), as checked by [core::str::validations]. *)
Definition byte_in (lo hi : Z) (b : byte) : bool := (lo <=? b2Z b) && (b2Z b <=? hi).
Definition utf8_cont (b : byte) : bool := byte_in 0x80 0xBF b.

Fixpoint utf8_valid (l : bytes) : bool :=
  match l with
  | [] => true
  | a :: r1 =>
      if byte_in 0 0x7F a then utf8_valid r1
      else match r1 with
      | [] => false
      | b :: r2 =>
          if byte_in 0xC2 0xDF a then utf8_cont b && utf8_valid r2
          else match r2 with
          | [] => false
          | c :: r3 =>
              let ok2 := utf8_cont c in
              if byte_in 0xE0 0xE0 a then byte_in 0xA0 0xBF b && ok2 && utf8_valid r3
              else if byte_in 0xE1 0xEC a || byte_in 0xEE 0xEF a
              then utf8_cont b && ok2 && utf8_valid r3
              else if byte_in 0xED 0xED a then byte_in 0x80 0x9F b && ok2 && utf8_valid r3
              else match r3 with
              | [] => false
              | d :: r4 =>
                  let ok3 := ok2 && utf8_cont d in
                  if byte_in 0xF0 0xF0 a then byte_in 0x90 0xBF b && ok3 && utf8_valid r4
                  else if byte_in 0xF1 0xF3 a then utf8_cont b && ok3 && utf8_valid r4
                  else if byte_in 0xF4 0xF4 a then byte_in 0x80 0x8F b && ok3 && utf8_valid r4
                  else false
              end
          end
      end
  end.

(** [String::from_utf8(bytes).map_err(..)]. *)
Definition from_utf8 {E} (e : E) (l : bytes) : outcome E bytes :=
  if utf8_valid l then Ok l else Err e.

Lemma from_utf8_ok {E} (e : E) l s : from_utf8 e l = Ok s <-> utf8_valid l = true /\ s = l.
Proof. unfold from_utf8. destruct (utf8_valid l); naive_solver. Qed.

(** [u8::to_ascii_lowercase] and its extension to strings. *)
Definition ascii_lower (b : byte) : byte :=
  if byte_in 0x41 0x5A b then Z2b (b2Z b + 32) else b.
Definition to_ascii_lowercase (s : bytes) : bytes := map ascii_lower s.

(** [str::eq_ignore_ascii_case]. *)
Definition eq_ignore_ascii_case (s t : bytes) : bool :=
  bool_decide (to_ascii_lowercase s = to_ascii_lowercase t).

Lemma ascii_lower_idem b : ascii_lower (ascii_lower b) = ascii_lower b.
Proof. by destruct b. Qed.

Lemma to_ascii_lowercase_idem s :
  to_ascii_lowercase (to_ascii_lowercase s) = to_ascii_lowercase s.
Proof.
  unfold to_ascii_lowercase. induction s as [|b s IH]; [done|].
  simpl. by rewrite ascii_lower_idem, IH.
Qed.

Lemma to_ascii_lowercase_length s : length (to_ascii_lowercase s) = length s.
Proof. apply length_map. Qed.

Lemma to_ascii_lowercase_app s t :
  to_ascii_lowercase (s ++ t) = to_ascii_lowercase s ++ to_ascii_lowercase t.
Proof. apply map_app. Qed.

(** ** Searching in strings *)

(** [s.find(c)] for an ASCII character: offset of the first occurrence. *)
Fixpoint find_byte (c : byte) (s : bytes) : option nat :=
  match s with
  | [] => None
  | b :: r => if b =b c then Some 0%nat else S <$> find_byte c r
  end.

(** [s.rfind(c)]. *)
Fixpoint rfind_byte (c : byte) (s : bytes) : option nat :=
  match s with
  | [] => None
  | b :: r =>
      match rfind_byte c r with
      | Some i => Some (S i)
      | None => if b =b c then Some 0%nat else None
      end
  end.

Definition contains_byte (c : byte) (s : bytes) : bool := bool_decide (c ∈ s).

(** [str::is_empty]. *)
Definition is_empty (s : bytes) : bool := bool_decide (s = []).

(** [s.starts_with(p)], [s.ends_with(p)], [s.find(p)] for a string pattern. *)
Fixpoint starts_with (p s : bytes) : bool :=
  match p, s with
  | [], _ => true
  | _, [] => false
  | a :: p', b :: s' => (a =b b) && starts_with p' s'
  end.
Definition ends_with (p s : bytes) : bool := starts_with (rev p) (rev s).

Fixpoint find_str (p s : bytes) : option nat :=
  if starts_with p s then Some 0%nat
  else match s with
  | [] => None
  | _ :: r => S <$> find_str p r
  end.

(** [s.strip_suffix(c).unwrap_or(s)] and [s.strip_prefix(c)]. *)
Definition strip_suffix_or (c : byte) (s : bytes) : bytes :=
  match last s with
  | Some b => if b =b c then take (length s - 1) s else s
  | None => s
  end.

(** [s.split_once(c)]: around the first occurrence. *)
Definition split_once (c : byte) (s : bytes) : option (bytes * bytes) :=
  (fun i => (take i s, drop (S i) s)) <$> find_byte c s.

(** [s.rsplit_once(c)]: around the last occurrence. *)
Definition rsplit_once (c : byte) (s : bytes) : option (bytes * bytes) :=
  (fun i => (take i s, drop (S i) s)) <$> rfind_byte c s.

(** [s.split(c)]: the pieces between the occurrences of [c], at least one. *)
Fixpoint split_on (c : byte) (s : bytes) : list bytes :=
  match s with
  | [] => [[]]
  | b :: r =>
      if b =b c then [] :: split_on c r
      else match split_on c r with
      | p :: ps => (b :: p) :: ps
      | [] => [[b]]
      end
  end.

(** [s.trim_start_matches(c)]. *)
Fixpoint trim_start_matches (c : byte) (s : bytes) : bytes :=
  match s with
  | b :: r => if b =b c then trim_start_matches c r else s
  | [] => []
  end.

(** [v.join(sep)]. *)
Fixpoint join_str (sep : bytes) (l : list bytes) : bytes :=
  match l with
  | [] => []
  | [x] => x
  | x :: r => x ++ sep ++ join_str sep r
  end.

Lemma find_byte_Some c s i :
  find_byte c s = Some i -> s = take i s ++ c :: drop (S i) s /\ c ∉ take i s.
Proof.
  revert i. induction s as [|b s IH]; intros i; simpl; [done|].
  destruct (b =b c) eqn:E.
  - intros [= <-]. apply byte_eqb_true in E as ->. split; [done|]. simpl. set_solver.
  - apply byte_eqb_false in E. destruct (find_byte c s) as [j|]; simpl; [|done].
    intros [= <-]. destruct (IH j eq_refl) as [H1 H2]. simpl.
    split; [by rewrite <- H1|]. set_solver.
Qed.

Lemma find_byte_None c s : find_byte c s = None <-> c ∉ s.
Proof.
  induction s as [|b s IH]; simpl; [set_solver|].
  destruct (b =b c) eqn:E.
  - apply byte_eqb_true in E as ->. split; [done|]. set_solver.
  - apply byte_eqb_false in E. rewrite fmap_None, IH. set_solver.
Qed.

Lemma find_byte_app c l r : c ∉ l -> find_byte c (l ++ c :: r) = Some (length l).
Proof.
  induction l as [|b l IH]; intros H; simpl; [by rewrite byte_eqb_refl|].
  destruct (b =b c) eqn:E; [apply byte_eqb_true in E; set_solver|].
  rewrite IH by set_solver. done.
Qed.

Lemma rfind_byte_None c s : rfind_byte c s = None <-> c ∉ s.
Proof.
  induction s as [|b s IH]; simpl; [set_solver|].
  destruct (rfind_byte c s) as [j|] eqn:E.
  - split; [done|]. intros H. exfalso. assert (c ∉ s) as Hn by set_solver. naive_solver.
  - destruct (b =b c) eqn:E'; [apply byte_eqb_true in E'|apply byte_eqb_false in E'];
      set_solver.
Qed.

Lemma rfind_byte_Some c s i :
  rfind_byte c s = Some i -> s = take i s ++ c :: drop (S i) s /\ c ∉ drop (S i) s.
Proof.
  revert i. induction s as [|b s IH]; intros i; simpl; [done|].
  destruct (rfind_byte c s) as [j|] eqn:E.
  - intros [= <-]. destruct (IH j eq_refl) as [H1 H2]. simpl. split; [by rewrite <- H1|done].
  - destruct (b =b c) eqn:E'; [|done]. intros [= <-]. apply byte_eqb_true in E' as ->.
    split; [done|]. simpl. rewrite drop_0. by apply rfind_byte_None.
Qed.

Lemma starts_with_spec p s : starts_with p s = true <-> exists r, s = p ++ r.
Proof.
  revert s. induction p as [|a p IH]; intros [|b s]; simpl.
  - naive_solver.
  - naive_solver.
  - split; [done|]. intros [r Hr]. done.
  - rewrite andb_true_iff, byte_eqb_true, IH. naive_solver.
Qed.

Lemma ends_with_spec p s : ends_with p s = true <-> exists r, s = r ++ p.
Proof.
  unfold ends_with. rewrite starts_with_spec. split.
  - intros [r Hr]. exists (rev r).
    rewrite <- (rev_involutive s), Hr, rev_app_distr. by rewrite rev_involutive.
  - intros [r ->]. exists (rev r). by rewrite rev_app_distr.
Qed.
