(* ===== verification/Decimal.v ===== *)
(** * Decimal and hexadecimal numbers in text

    The integer [Display] and [FromStr] of the standard library, as far as the
    sources use them: ports, IPv4 octets, IPv6 groups. *)

From S2P Require Import Prelude Bytes.
Local Open Scope Z_scope.

(** ** Digits *)

(** [char::to_digit(radix)] for radix at most 16. *)
Definition to_digit (radix : Z) (b : byte) : option Z :=
  let d :=
    if byte_in 0x30 0x39 b then Some (b2Z b - 0x30)
    else if byte_in 0x61 0x66 b then Some (b2Z b - 0x61 + 10)
    else if byte_in 0x41 0x46 b then Some (b2Z b - 0x41 + 10)
    else None in
  match d with
  | Some v => if v <? radix then Some v else None
  | None => None
  end.

(** The digit characters [Display] and [LowerHex] produce. *)
Definition digit_char (d : Z) : byte :=
  if d <? 10 then Z2b (0x30 + d) else Z2b (0x61 + d - 10).

(** Case analysis on every range test of the goal. *)
Ltac split_leb :=
  repeat match goal with |- context [?a <=? ?b] => destruct (Z.leb_spec a b); try lia end.

Lemma b2Z_small z : 0 <= z < 256 -> b2Z (Z2b z) = z.
Proof. intros ?. rewrite b2Z_Z2b. by apply Z.mod_small. Qed.

Lemma to_digit_digit_char radix d :
  2 <= radix <= 16 -> 0 <= d < radix -> to_digit radix (digit_char d) = Some d.
Proof.
  intros Hr Hd. unfold digit_char, to_digit, byte_in.
  destruct (Z.ltb_spec d 10); rewrite b2Z_small by lia;
    split_leb; simpl; try lia;
    match goal with |- context [?v <? radix] => destruct (Z.ltb_spec v radix) end;
    try lia; f_equal; lia.
Qed.

(** ** Writing *)

(** Least significant digit first; [fuel] digits at most. *)
Fixpoint digits_rev (radix : Z) (fuel : nat) (z : Z) : bytes :=
  match fuel with
  | O => []
  | S f => digit_char (z mod radix) :: (if z / radix =? 0 then [] else digits_rev radix f (z / radix))
  end.

(** [format!("{}", z)] for [z : u16] (or [u8]) and [format!("{:x}", z)]. *)
Definition to_dec (z : Z) : bytes := rev (digits_rev 10 5 z).
Definition to_hex (z : Z) : bytes := rev (digits_rev 16 4 z).

(** ** Reading *)

(** Value of a digit string, most significant digit first. *)
Fixpoint digits_value (radix acc : Z) (s : bytes) : option Z :=
  match s with
  | [] => Some acc
  | b :: r =>
      match to_digit radix b with
      | Some d => digits_value radix (acc * radix + d) r
      | None => None
      end
  end.

(** [str::parse::<u16>()]: an optional [+], at least one digit, no overflow. *)
Definition parse_u16 (s : bytes) : option Z :=
  let s' := match s with b :: r => if b =b x2b then r else s | [] => s end in
  match s' with
  | [] => None
  | _ =>
      match digits_value 10 0 s' with
      | Some v => if v <? 65536 then Some v else None
      | None => None
      end
  end.

Lemma digits_value_app radix acc s t :
  digits_value radix acc (s ++ t) =
  match digits_value radix acc s with Some v => digits_value radix v t | None => None end.
Proof.
  revert acc. induction s as [|b s IH]; intros acc; simpl; [done|].
  destruct (to_digit radix b); [apply IH|done].
Qed.

(** Reading back what was written, with the digits of the number in front. *)
Lemma digits_value_digits_rev radix fuel z :
  2 <= radix <= 16 -> 0 <= z < radix ^ Z.of_nat fuel -> (0 < fuel)%nat ->
  digits_value radix 0 (rev (digits_rev radix fuel z)) = Some z.
Proof.
  intros Hr. revert z. induction fuel as [|f IH]; intros z Hz Hf; [lia|].
  cbn [digits_rev rev]. rewrite digits_value_app.
  pose proof (Z.mod_pos_bound z radix). pose proof (Z.div_mod z radix).
  rewrite Nat2Z.inj_succ, Z.pow_succ_r in Hz by lia.
  assert (0 <= z / radix < radix ^ Z.of_nat f) as Hq.
  { split; [apply Z.div_pos; lia|]. apply Z.div_lt_upper_bound; lia. }
  destruct (Z.eqb_spec (z / radix) 0) as [E|E].
  - cbn. rewrite to_digit_digit_char by lia. f_equal. lia.
  - destruct f as [|f]; [simpl in Hq; lia|].
    rewrite IH by lia. cbn. rewrite to_digit_digit_char by lia. f_equal. lia.
Qed.

Lemma digits_rev_cons radix f z : exists d r, digits_rev radix (S f) z = d :: r.
Proof. simpl. eauto. Qed.

Lemma to_dec_nonempty z : to_dec z <> [].
Proof.
  unfold to_dec. destruct (digits_rev_cons 10 4 z) as (d & r & ->). simpl. by destruct (rev r).
Qed.

Definition is_digit (radix : Z) (b : byte) : Prop := exists d, to_digit radix b = Some d.

Lemma digits_rev_digits radix fuel z :
  2 <= radix <= 16 -> Forall (is_digit radix) (digits_rev radix fuel z).
Proof.
  intros Hr. revert z. induction fuel as [|f IH]; intros z; simpl; [constructor|].
  constructor.
  - exists (z mod radix). apply to_digit_digit_char; [done|]. apply Z.mod_pos_bound. lia.
  - destruct (_ =? _); [constructor|apply IH].
Qed.

Lemma digits_rev_length radix fuel z : (length (digits_rev radix fuel z) <= fuel)%nat.
Proof.
  revert z. induction fuel as [|f IH]; intros z; simpl; [lia|].
  destruct (_ =? _); simpl; [lia|]. specialize (IH (z / radix)). lia.
Qed.

Lemma to_dec_digits z : Forall (is_digit 10) (to_dec z).
Proof. apply Forall_rev. apply digits_rev_digits. lia. Qed.

Lemma to_dec_value z : is_u16 z -> digits_value 10 0 (to_dec z) = Some z.
Proof. intros [??]. apply digits_value_digits_rev; [lia|simpl; lia|lia]. Qed.

Lemma is_digit_not_sep radix b c :
  is_digit radix b -> to_digit radix c = None -> b <> c.
Proof. intros [d Hd] Hc ->. congruence. Qed.

Lemma parse_u16_to_dec z : is_u16 z -> parse_u16 (to_dec z) = Some z.
Proof.
  intros Hz. pose proof (to_dec_nonempty z). pose proof (to_dec_value z Hz) as Hv.
  pose proof (to_dec_digits z) as Hd. unfold parse_u16.
  destruct (to_dec z) as [|b r]; [done|].
  apply Forall_cons in Hd as [Hb _].
  rewrite (proj2 (byte_eqb_false b x2b)) by (by apply (is_digit_not_sep 10)).
  rewrite Hv. destruct Hz. by rewrite (proj2 (Z.ltb_lt z 65536)).
Qed.

Lemma digits_value_nonneg radix l acc v :
  0 <= radix -> 0 <= acc -> digits_value radix acc l = Some v -> 0 <= v.
Proof.
  intros Hr. revert acc. induction l as [|c l IH]; simpl; intros acc Ha H; [congruence|].
  destruct (to_digit radix c) as [d|] eqn:Hd; [|done].
  apply (IH (acc * radix + d)); [|done]. assert (0 <= d); [|lia].
  revert Hd. unfold to_digit, byte_in.
  split_leb; simpl; try (by intros [=]);
    destruct (_ <? radix); try (by intros [=]); intros [= <-]; lia.
Qed.

(** A parsed port is a [u16]. *)
Lemma parse_u16_range s z : parse_u16 s = Some z -> is_u16 z.
Proof.
  unfold parse_u16. set (s' := match s with b :: r => _ | [] => _ end).
  destruct s' as [|b r] eqn:E; [done|].
  destruct (digits_value 10 0 (b :: r)) as [v|] eqn:Hv; [|done].
  destruct (Z.ltb_spec v 65536); [|done]. intros [= <-]. split; [|lia].
  by apply (digits_value_nonneg 10 (b :: r) 0).
Qed.
