(* ===== verification/Stream.v ===== *)
(** * Byte streams and the handshake monad

    The protocol handlers are [async] functions over a reader and a writer.
    What such a function does is a function of the bytes the peer sends before
    closing (or failing) and of how many bytes the writer accepts: how the
    bytes are chunked and when the task is suspended does not change it.  A
    [conn] holds that information; a handler is a state-and-error computation
    over it, and what it wrote stays visible when it fails. *)

From S2P Require Import Prelude Bytes.

(** [std::io::Error], reduced to what the handlers look at: the error
    [read_exact] makes up at end of stream, and any error of the transport. *)
Inductive IoError := IoUnexpectedEof | IoOther (code : Z).

(** The source's error enums have a [#[from] std::io::Error] variant. *)
Class FromIo (E : Type) := from_io : IoError -> E.

Record conn := Conn {
  c_in : bytes;                       (* bytes still to be read *)
  c_end : option IoError;             (* then: clean EOF, or a read error *)
  c_out : bytes;                      (* bytes written so far *)
  c_quota : option (nat * IoError);   (* the writer fails after that many bytes *)
}.

Definition M (E A : Type) : Type := conn -> outcome E A * conn.

Definition mret {E A} (a : A) : M E A := fun c => (Ok a, c).
Definition mthrow {E A} (e : E) : M E A := fun c => (Err e, c).
Definition mlift {E A} (m : outcome E A) : M E A := fun c => (m, c).
Definition mbind {E A B} (m : M E A) (k : A -> M E B) : M E B := fun c =>
  match m c with
  | (Ok a, c') => k a c'
  | (Err e, c') => (Err e, c')
  | (Panic, c') => (Panic, c')
  end.

(** [if let Err(e) = m { .. }] / [match m { Ok(..) | Err(..) }]. *)
Definition mcatch {E A} (m : M E A) (h : E -> M E A) : M E A := fun c =>
  match m c with
  | (Ok a, c') => (Ok a, c')
  | (Err e, c') => h e c'
  | (Panic, c') => (Panic, c')
  end.

(** [let _ = m;]: run and drop the result. *)
Definition mignore {E A} (m : M E A) : M E unit := fun c =>
  match m c with
  | (Panic, c') => (Panic, c')
  | (_, c') => (Ok tt, c')
  end.

Declare Scope stream_scope.
Delimit Scope stream_scope with stream.
Notation "'let!' x ':=' m 'in' k" := (mbind m (fun x => k))
  (at level 10, x pattern, m at level 100, k at level 200) : stream_scope.
Notation "m ;; k" := (mbind m (fun _ => k))
  (at level 100, k at level 200, right associativity) : stream_scope.
Open Scope stream_scope.

Section io.
Context {E : Type} `{!FromIo E}.

Definition set_in (c : conn) (l : bytes) : conn :=
  Conn l (c_end c) (c_out c) (c_quota c).

Definition read_failure (c : conn) : IoError :=
  match c_end c with Some e => e | None => IoUnexpectedEof end.

(** [read_exact(&mut [0; n])]. *)
Definition read_exact (n : nat) : M E bytes := fun c =>
  if n <=? length (c_in c)
  then (Ok (take n (c_in c)), set_in c (drop n (c_in c)))
  else (Err (from_io (read_failure c)), set_in c []).

(** [read_u8], [read_u16] (big endian) of [AsyncReadExt]. *)
Definition read_u8 : M E byte :=
  let! l := read_exact 1 in
  match l with
  | [b] => mret b
  | _ => fun c => (Panic, c)
  end.

Definition read_u16 : M E Z :=
  let! l := read_exact 2 in
  match l with
  | [hi; lo] => mret (u16_from_be hi lo)
  | _ => fun c => (Panic, c)
  end.

(** [read(&mut [0; 1])]: [None] when it returns 0. *)
Definition read_byte_opt : M E (option byte) := fun c =>
  match c_in c with
  | b :: r => (Ok (Some b), set_in c r)
  | [] =>
      match c_end c with
      | None => (Ok None, c)
      | Some e => (Err (from_io e), c)
      end
  end.

(** [write_all]: accepts the bytes the writer still takes, then fails. *)
Definition write_all (l : bytes) : M E unit := fun c =>
  match c_quota c with
  | None => (Ok tt, Conn (c_in c) (c_end c) (c_out c ++ l) None)
  | Some (n, e) =>
      if length l <=? n
      then (Ok tt, Conn (c_in c) (c_end c) (c_out c ++ l) (Some (n - length l, e)))
      else (Err (from_io e), Conn (c_in c) (c_end c) (c_out c ++ take n l) (Some (0, e)))
  end.

(** [flush]: the bytes were accepted by [write_all]. *)
Definition flush : M E unit := mret tt.

(** ** Reasoning rules *)

Lemma mbind_ok {A B} (m : M E A) (k : A -> M E B) c b c' :
  mbind m k c = (Ok b, c') <-> exists a c1, m c = (Ok a, c1) /\ k a c1 = (Ok b, c').
Proof.
  unfold mbind. split.
  - destruct (m c) as [[a|e|] c1]; intros H; [eauto|done|done].
  - by intros (a & c1 & -> & H).
Qed.

(** A panic of a sequence is a panic of one of its parts. *)
Lemma mbind_no_panic {A B} (m : M E A) (k : A -> M E B) c :
  (m c).1 <> Panic -> (forall a c1, m c = (Ok a, c1) -> (k a c1).1 <> Panic) -> (mbind m k c).1 <> Panic.
Proof. unfold mbind. destruct (m c) as [[a|e|] c1]; intros H1 H2; [by apply H2|done|done]. Qed.

Lemma mcatch_ok {A} (m : M E A) (h : E -> M E A) c a c' :
  mcatch m h c = (Ok a, c') <->
  m c = (Ok a, c') \/ exists e c1, m c = (Err e, c1) /\ h e c1 = (Ok a, c').
Proof.
  unfold mcatch. split.
  - destruct (m c) as [[x|e|] c1]; intros H; [by left|right; eauto|done].
  - intros [->|(e & c1 & -> & H)]; done.
Qed.

(** [io lin lout c c']: going from [c] to [c'] consumed [lin] and wrote [lout]. *)
Definition io (lin lout : bytes) (c c' : conn) : Prop :=
  c_in c = lin ++ c_in c' /\ c_out c' = c_out c ++ lout /\ c_end c' = c_end c.

Lemma io_refl c : io [] [] c c.
Proof. unfold io. by rewrite app_nil_r. Qed.

Lemma io_trans c1 c2 c3 i1 o1 i2 o2 :
  io i1 o1 c1 c2 -> io i2 o2 c2 c3 -> io (i1 ++ i2) (o1 ++ o2) c1 c3.
Proof.
  unfold io. intros (-> & -> & ->) (-> & -> & ->). by rewrite <- !app_assoc.
Qed.

Lemma read_exact_io n c l c' :
  read_exact n c = (Ok l, c') -> length l = n /\ io l [] c c'.
Proof.
  unfold read_exact, io. destruct (Nat.leb_spec n (length (c_in c))) as [H|H]; [|done].
  intros [= <- <-]. simpl. rewrite take_drop, length_take, app_nil_r. repeat split; lia.
Qed.

Lemma read_u8_io c b c' : read_u8 c = (Ok b, c') -> io [b] [] c c'.
Proof.
  unfold read_u8. rewrite mbind_ok. intros (l & c1 & H & H2).
  apply read_exact_io in H as (Hl & Hi).
  destruct l as [|x [|]]; simplify_eq/=. by injection H2 as -> ->.
Qed.

Lemma read_u16_io c z c' : read_u16 c = (Ok z, c') -> is_u16 z /\ io (u16_to_be z) [] c c'.
Proof.
  unfold read_u16. rewrite mbind_ok. intros (l & c1 & H & H2).
  apply read_exact_io in H as (Hl & Hi).
  destruct l as [|x [|y [|]]]; simplify_eq/=. injection H2 as <- ->.
  rewrite u16_to_from. auto with egg.
Qed.

Lemma write_all_io l c c' u : write_all l c = (Ok u, c') -> io [] l c c'.
Proof.
  unfold write_all, io. destruct (c_quota c) as [[n e]|].
  - destruct (length l <=? n)%nat; [|done]. by intros [= _ <-].
  - by intros [= _ <-].
Qed.

(** Forward computation on an explicit connection with a writer that accepts
    everything. *)
Lemma read_exact_fwd n l r e o q :
  length l = n -> read_exact n (Conn (l ++ r) e o q) = (Ok l, Conn r e o q).
Proof.
  intros <-. unfold read_exact. simpl.
  rewrite length_app, (proj2 (Nat.leb_le _ _)) by lia.
  unfold set_in. simpl. by rewrite take_app_length, drop_app_length.
Qed.

Lemma read_u8_fwd b r e o q : read_u8 (Conn (b :: r) e o q) = (Ok b, Conn r e o q).
Proof. done. Qed.

Lemma read_u16_fwd z r e o q :
  is_u16 z -> read_u16 (Conn (u16_to_be z ++ r) e o q) = (Ok z, Conn r e o q).
Proof.
  intros Hz. unfold read_u16, mbind. rewrite read_exact_fwd by done. simpl.
  unfold mret. by rewrite u16_from_to.
Qed.

Lemma write_all_fwd l i e o : write_all l (Conn i e o None) = (Ok tt, Conn i e (o ++ l) None).
Proof. done. Qed.

Lemma mbind_fwd {A B} (m : M E A) (k : A -> M E B) c a c1 :
  m c = (Ok a, c1) -> mbind m k c = k a c1.
Proof. unfold mbind. by intros ->. Qed.

Lemma mbind_fwd_err {A B} (m : M E A) (k : A -> M E B) c e c1 :
  m c = (Err e, c1) -> mbind m k c = (Err e, c1).
Proof. unfold mbind. by intros ->. Qed.

Lemma mcatch_fwd {A} (m : M E A) (h : E -> M E A) c a c1 :
  m c = (Ok a, c1) -> mcatch m h c = (Ok a, c1).
Proof. unfold mcatch. by intros ->. Qed.

Lemma mcatch_fwd_err {A} (m : M E A) (h : E -> M E A) c e c1 :
  m c = (Err e, c1) -> mcatch m h c = h e c1.
Proof. unfold mcatch. by intros ->. Qed.
End io.

(** Lists of bytes up to re-association. *)
Ltac app_norm :=
  repeat first [progress cbn [app] | rewrite <- app_assoc | rewrite app_nil_r]; try done.

(** Invert successful stream computations into their traffic. *)
Ltac inv_io :=
  repeat match goal with
  | H : mbind _ _ _ = (Ok _, _) |- _ => apply mbind_ok in H; destruct H as (? & ? & ? & H)
  | H : read_u8 _ = (Ok _, _) |- _ => apply read_u8_io in H
  | H : read_u16 _ = (Ok _, _) |- _ => apply read_u16_io in H; destruct H as [? H]
  | H : read_exact _ _ = (Ok _, _) |- _ => apply read_exact_io in H; destruct H as [? H]
  | H : write_all _ _ = (Ok _, _) |- _ => apply write_all_io in H
  | H : flush _ = (Ok _, _) |- _ => injection H as ??; subst
  | H : mret _ _ = (Ok _, _) |- _ => injection H as ??; subst
  | H : mthrow _ _ = (Ok _, _) |- _ => discriminate H
  | H : mlift _ _ = (Ok _, _) |- _ => injection H as ??; subst
  end.

(** Compose the traffic of consecutive steps. *)
Ltac io_compose :=
  repeat match goal with
  | H1 : io ?i1 ?o1 ?c1 ?c2, H2 : io ?i2 ?o2 ?c2 ?c3 |- _ =>
      pose proof (io_trans _ _ _ _ _ _ _ H1 H2); clear H1 H2
  end.

(** Close a goal [io lin lout c c'] by the composed traffic. *)
Ltac io_done :=
  io_compose;
  match goal with
  | H : io ?i ?o ?c ?c' |- io ?i' ?o' ?c ?c' =>
      replace i' with i by (app_norm; reflexivity);
      replace o' with o by (app_norm; reflexivity); exact H
  end.

(** [inv_io] across the early returns of a handler. *)
Ltac inv_io_guards :=
  repeat (inv_io; match goal with
  | H : (if ?b then _ else _) ?c = (Ok _, _) |- _ =>
      let G := fresh "G" in destruct b eqn:G; [try discriminate H|try discriminate H]
  end); inv_io.
