(* ===== verification/Socks5.v ===== *)
(** * SOCKS5: addresses and synchronous parsers

    Models the data types, the address encoding and the synchronous parsers of
    [crates/eggress-protocol-socks/src/socks5/server.rs] and the errors of
    [error.rs].  Error payloads that are rendered messages keep their static
    part.  [Socks5Handshake] and [Socks5Udp] build on the wire form of
    addresses characterised here. *)

From S2P Require Import Prelude Bytes Stream.

(** ** Errors and constants *)

Inductive Socks5Error :=
| Io (e : IoError)
| UnsupportedVersion (v : byte)
| UnsupportedCommand (c : byte)
| UnsupportedAddressType (a : byte)
| UnsupportedAuthMethod (m : byte)
| AuthFailed
| CredentialsTooLong
| ConnectionRefused
| ConnectionFailed (rep : byte)
| MalformedMessage (msg : string)
| MethodNegotiationFailed
| UnexpectedEof
| AddressTooLong
| InvalidReservedByte (b : byte)
| DomainTooLong (len : nat).

#[export] Instance socks5_from_io : FromIo Socks5Error := Io.

Definition ATYP_IPV4 : byte := x01.
Definition ATYP_DOMAIN : byte := x03.
Definition ATYP_IPV6 : byte := x04.
Definition CMD_CONNECT : byte := x01.
Definition CMD_BIND : byte := x02.
Definition CMD_UDP_ASSOCIATE : byte := x03.
Definition REP_SUCCESS : byte := x00.
Definition REP_COMMAND_NOT_SUPPORTED : byte := x07.
Definition AUTH_NONE : byte := x00.
Definition AUTH_USERNAME_PASSWORD : byte := x02.
Definition AUTH_NO_ACCEPTABLE : byte := xff.
Definition AUTH_VERSION : byte := x01.
Definition MAX_CRED_LEN : nat := 255.

Inductive Socks5Command := Connect | Bind | UdpAssociate.

#[export] Instance Socks5Command_eq_dec : EqDecision Socks5Command.
Proof. solve_decision. Defined.

Definition parse_command (cmd : byte) : outcome Socks5Error Socks5Command :=
  if cmd =b CMD_CONNECT then Ok Connect
  else if cmd =b CMD_BIND then Ok Bind
  else if cmd =b CMD_UDP_ASSOCIATE then Ok UdpAssociate
  else Err (UnsupportedCommand cmd).

(** The byte a client puts on the wire for a command. *)
Definition command_byte (c : Socks5Command) : byte :=
  match c with
  | Connect => CMD_CONNECT
  | Bind => CMD_BIND
  | UdpAssociate => CMD_UDP_ASSOCIATE
  end.

(** ** Addresses *)

Inductive SocksAddr :=
| IPv4 (addr : bytes) (port : Z)
| Domain (domain : bytes) (port : Z)
| IPv6 (addr : bytes) (port : Z).

#[export] Instance SocksAddr_eq_dec : EqDecision SocksAddr.
Proof. solve_decision. Defined.

(** What the Rust types enforce: array lengths, [u16], UTF-8. *)
Definition SocksAddr_wf (a : SocksAddr) : Prop :=
  match a with
  | IPv4 addr port => length addr = 4 /\ is_u16 port
  | Domain domain port => utf8_valid domain = true /\ is_u16 port
  | IPv6 addr port => length addr = 16 /\ is_u16 port
  end.

(** The addresses that have a wire form. *)
Definition SocksAddr_encodable (a : SocksAddr) : Prop :=
  match a with
  | Domain domain _ => length domain <= 255
  | _ => True
  end.

Definition port (a : SocksAddr) : Z :=
  match a with IPv4 _ p | Domain _ p | IPv6 _ p => p end.

Definition encode_reply (a : SocksAddr) : outcome Socks5Error bytes :=
  match a with
  | IPv4 addr port => Ok ([ATYP_IPV4] ++ addr ++ u16_to_be port)
  | Domain domain port =>
      let byte_len := length domain in
      if 255 <? byte_len then Err (DomainTooLong byte_len)
      else Ok ([ATYP_DOMAIN; Z2b (Z.of_nat byte_len)] ++ domain ++ u16_to_be port)
  | IPv6 addr port => Ok ([ATYP_IPV6] ++ addr ++ u16_to_be port)
  end.

(** ** Synchronous parsers *)

Definition parse_method_negotiation (buf : bytes) : outcome Socks5Error (bytes * bytes) :=
  if length buf =? 0 then Err UnexpectedEof else
  let? version := buf.[0] in
  if negb (version =b x05) then Err (UnsupportedVersion version) else
  if length buf <? 2 then Err UnexpectedEof else
  let? b := buf.[1] in
  let nmethods := b2n b in
  if length buf <? 2 + nmethods then Err UnexpectedEof else
  let? methods := slice buf 2 (2 + nmethods) in
  let? rest := slice_from buf (2 + nmethods) in
  Ok (methods, rest).

(** The [match atyp] that [parse_connect_request] and [parse_socks5_request]
    share: address at offset 4, then the remaining bytes. *)
Definition parse_addr (buf : bytes) (atyp : byte) : outcome Socks5Error (SocksAddr * bytes) :=
  if atyp =b ATYP_IPV4 then
    if length buf <? 4 + 4 + 2 then Err UnexpectedEof else
    let? octets := slice buf 4 8 in
    let? hi := buf.[8] in
    let? lo := buf.[9] in
    let? rest := slice_from buf 10 in
    Ok (IPv4 octets (u16_from_be hi lo), rest)
  else if atyp =b ATYP_DOMAIN then
    if length buf <? 5 then Err UnexpectedEof else
    let? lb := buf.[4] in
    let len := b2n lb in
    if length buf <? 5 + len + 2 then Err UnexpectedEof else
    let? domain_bytes := slice buf 5 (5 + len) in
    let? domain := from_utf8 (MalformedMessage "invalid domain") domain_bytes in
    let? hi := buf.[5 + len] in
    let? lo := buf.[5 + len + 1] in
    let? rest := slice_from buf (5 + len + 2) in
    Ok (Domain domain (u16_from_be hi lo), rest)
  else if atyp =b ATYP_IPV6 then
    if length buf <? 4 + 16 + 2 then Err UnexpectedEof else
    let? octets := slice buf 4 20 in
    let? hi := buf.[20] in
    let? lo := buf.[21] in
    let? rest := slice_from buf 22 in
    Ok (IPv6 octets (u16_from_be hi lo), rest)
  else Err (UnsupportedAddressType atyp).

Definition parse_connect_request (buf : bytes) : outcome Socks5Error (SocksAddr * bytes) :=
  if length buf <? 4 then Err UnexpectedEof else
  let? version := buf.[0] in
  if negb (version =b x05) then Err (UnsupportedVersion version) else
  let? cmd := buf.[1] in
  if negb (cmd =b CMD_CONNECT) then Err (UnsupportedCommand cmd) else
  let? rsv := buf.[2] in
  if negb (rsv =b x00) then Err (InvalidReservedByte rsv) else
  let? atyp := buf.[3] in
  parse_addr buf atyp.

Definition parse_socks5_request (buf : bytes)
    : outcome Socks5Error (Socks5Command * SocksAddr * bytes) :=
  if length buf <? 4 then Err UnexpectedEof else
  let? version := buf.[0] in
  if negb (version =b x05) then Err (UnsupportedVersion version) else
  let? cmd := buf.[1] in
  let? command := parse_command cmd in
  let? rsv := buf.[2] in
  if negb (rsv =b x00) then Err (InvalidReservedByte rsv) else
  let? atyp := buf.[3] in
  let? (addr, rest) := parse_addr buf atyp in
  Ok (command, addr, rest).

(** ** Wire form of addresses

    [addr_wire a atyp enc]: [a] is a well-typed address whose encoding is the
    type byte [atyp] followed by [enc].  Every parser and every reader of this
    component is characterised by it. *)

Definition addr_wire (a : SocksAddr) (atyp : byte) (enc : bytes) : Prop :=
  SocksAddr_wf a /\ encode_reply a = Ok (atyp :: enc).

Lemma drop_take_drop {A} (l : list A) i n : drop i l = take n (drop i l) ++ drop (i + n) l.
Proof. by rewrite <- drop_drop, take_drop. Qed.

Lemma drop_two {A} (l : list A) i x y :
  l !! i = Some x -> l !! (i + 1) = Some y -> drop i l = x :: y :: drop (i + 2) l.
Proof.
  intros Hx Hy. rewrite (drop_S l x i) by done.
  replace (S i) with (i + 1) by lia. rewrite (drop_S l y (i + 1)) by done.
  by replace (S (i + 1)) with (i + 2) by lia.
Qed.

(** A field of [n] bytes at offset [off] followed by a port: the common part of
    every address parser of the component. *)
Lemma fixed_field_ok {E B} (f : bytes -> Z -> B) (buf : bytes) off n b rest :
  (let? o := slice (E:=E) buf off (off + n) in
   let? hi := buf.[off + n] in
   let? lo := buf.[off + n + 1] in
   let? r := slice_from buf (off + n + 2) in
   Ok (f o (u16_from_be hi lo), r)) = Ok (b, rest) <->
  exists addr p, b = f addr p /\ length addr = n /\ is_u16 p /\
    drop off buf = addr ++ u16_to_be p ++ rest.
Proof.
  split.
  - intros H. inv_ok. subst. replace (off + n - off) with n by lia.
    eexists _, _. repeat split; try apply u16_from_be_range.
    + rewrite length_take, length_drop. lia.
    + rewrite u16_to_from, (drop_take_drop buf off n) at 1. f_equal. by apply drop_two.
  - intros (addr & p & -> & Hn & Hp & Hd).
    assert (length (take off buf) = off) as Hh.
    { apply (f_equal length) in Hd. rewrite length_drop, !length_app, u16_to_be_length in Hd.
      rewrite length_take. lia. }
    rewrite <- (take_drop off buf), Hd. generalize dependent (take off buf). intros h Hh.
    rewrite slice_app_mid by lia. cbn [obind].
    rewrite (index_app_r h _ _ n), (index_app_r addr _ _ 0) by lia. cbn [obind index lookup list_lookup u16_to_be app].
    rewrite (index_app_r h _ _ (n + 1)), (index_app_r addr _ _ 1) by lia.
    cbn [obind index lookup list_lookup app].
    change (Z2b (p / 256) :: Z2b p :: rest) with (u16_to_be p ++ rest).
    rewrite (app_assoc addr), (app_assoc h), slice_from_app
      by (rewrite !length_app, u16_to_be_length; lia).
    cbn [obind]. by rewrite u16_from_to.
Qed.

Lemma fixed_field_utf8_ok {E B} (f : bytes -> Z -> B) (e : E) (buf : bytes) off n b rest :
  (let? o := slice buf off (off + n) in
   let? d := from_utf8 e o in
   let? hi := buf.[off + n] in
   let? lo := buf.[off + n + 1] in
   let? r := slice_from buf (off + n + 2) in
   Ok (f d (u16_from_be hi lo), r)) = Ok (b, rest) <->
  exists addr p, b = f addr p /\ length addr = n /\ is_u16 p /\ utf8_valid addr = true /\
    drop off buf = addr ++ u16_to_be p ++ rest.
Proof.
  split.
  - intros H. apply obind_ok in H as (o & Ho & H). apply obind_ok in H as (d & Hd & H).
    apply from_utf8_ok in Hd as [Hu ->].
    pose proof (proj1 (fixed_field_ok (E:=E) (fun a p => (a, f a p)) buf off n (o, b) rest)) as Hf.
    rewrite Ho in Hf. simpl in Hf.
    apply obind_ok in H as (hi & Hhi & H). apply obind_ok in H as (lo & Hlo & H).
    apply obind_ok in H as (r & Hr & H). rewrite Hhi, Hlo, Hr in Hf. simpl in Hf.
    injection H as <- <-. destruct (Hf eq_refl) as (a & p & [= -> ->] & ?).
    exists a, p. naive_solver.
  - intros (addr & p & -> & Hn & Hp & Hu & Hd).
    assert (Hx := proj2 (fixed_field_ok (E:=E) f buf off n _ rest)
      (ex_intro _ addr (ex_intro _ p (conj eq_refl (conj Hn (conj Hp Hd)))))).
    assert (slice (E:=E) buf off (off + n) = Ok addr) as Ho.
    { apply slice_ok. apply (f_equal length) in Hd as Hl.
      rewrite length_drop, !length_app, u16_to_be_length in Hl.
      repeat split; try lia. rewrite Hd. replace (off + n - off) with (length addr) by lia.
      by rewrite take_app_length. }
    rewrite Ho in Hx |- *. simpl in *. unfold from_utf8. by rewrite Hu.
Qed.

Lemma addr_wire_ipv4 addr p :
  length addr = 4 -> is_u16 p -> addr_wire (IPv4 addr p) ATYP_IPV4 (addr ++ u16_to_be p).
Proof. by intros. Qed.

Lemma addr_wire_ipv6 addr p :
  length addr = 16 -> is_u16 p -> addr_wire (IPv6 addr p) ATYP_IPV6 (addr ++ u16_to_be p).
Proof. by intros. Qed.

Lemma addr_wire_domain d p lb :
  utf8_valid d = true -> length d = b2n lb -> is_u16 p ->
  addr_wire (Domain d p) ATYP_DOMAIN (lb :: d ++ u16_to_be p).
Proof.
  intros Hu Hd Hp. split; [done|]. simpl.
  pose proof (b2n_range lb). rewrite (proj2 (Nat.ltb_ge 255 (length d))) by lia.
  by rewrite Hd, Z2b_b2n.
Qed.

(** The three shapes of a wire address. *)
Lemma addr_wire_inv a atyp enc :
  addr_wire a atyp enc ->
  (exists addr p, a = IPv4 addr p /\ atyp = ATYP_IPV4 /\ enc = addr ++ u16_to_be p /\
      length addr = 4 /\ is_u16 p) \/
  (exists d p lb, a = Domain d p /\ atyp = ATYP_DOMAIN /\ enc = lb :: d ++ u16_to_be p /\
      length d = b2n lb /\ utf8_valid d = true /\ is_u16 p) \/
  (exists addr p, a = IPv6 addr p /\ atyp = ATYP_IPV6 /\ enc = addr ++ u16_to_be p /\
      length addr = 16 /\ is_u16 p).
Proof.
  intros [Hwf He]. destruct a as [addr p|d p|addr p]; simpl in *.
  - left. injection He as <- <-. destruct Hwf. eauto 10.
  - right; left. destruct (Nat.ltb_spec 255 (length d)); [done|].
    injection He as <- <-. exists d, p, (Z2b (Z.of_nat (length d))).
    rewrite b2n_Z2b by lia. destruct Hwf. eauto 10.
  - right; right. injection He as <- <-. destruct Hwf. eauto 10.
Qed.

Lemma addr_wire_intro a :
  SocksAddr_wf a -> SocksAddr_encodable a -> exists atyp enc, addr_wire a atyp enc.
Proof.
  destruct a as [addr p|d p|addr p]; simpl; intros [? ?] He.
  - eexists _, _. by apply addr_wire_ipv4.
  - eexists _, _. apply (addr_wire_domain _ _ (Z2b (Z.of_nat (length d)))); [done| |done].
    rewrite b2n_Z2b; lia.
  - eexists _, _. by apply addr_wire_ipv6.
Qed.

Lemma addr_wire_encodable a atyp enc : addr_wire a atyp enc -> SocksAddr_encodable a.
Proof.
  intros [_ He]. destruct a as [| d p |]; simpl in *; [done| |done].
  destruct (Nat.ltb_spec 255 (length d)); [done|lia].
Qed.

(** A wire address is determined by its type byte. *)
Lemma addr_wire_ipv4_iff a enc :
  addr_wire a ATYP_IPV4 enc <->
  exists addr p, a = IPv4 addr p /\ length addr = 4 /\ is_u16 p /\ enc = addr ++ u16_to_be p.
Proof.
  split.
  - intros H. apply addr_wire_inv in H as [H|[H|H]]; naive_solver.
  - intros (addr & p & -> & ? & ? & ->). by apply addr_wire_ipv4.
Qed.

Lemma addr_wire_ipv6_iff a enc :
  addr_wire a ATYP_IPV6 enc <->
  exists addr p, a = IPv6 addr p /\ length addr = 16 /\ is_u16 p /\ enc = addr ++ u16_to_be p.
Proof.
  split.
  - intros H. apply addr_wire_inv in H as [H|[H|H]]; naive_solver.
  - intros (addr & p & -> & ? & ? & ->). by apply addr_wire_ipv6.
Qed.

Lemma addr_wire_domain_iff a enc :
  addr_wire a ATYP_DOMAIN enc <->
  exists lb d p, a = Domain d p /\ length d = b2n lb /\ is_u16 p /\ utf8_valid d = true /\
    enc = lb :: d ++ u16_to_be p.
Proof.
  split.
  - intros H. apply addr_wire_inv in H as [H|[H|H]]; naive_solver.
  - intros (lb & d & p & -> & ? & ? & ? & ->). by apply addr_wire_domain.
Qed.

Lemma addr_wire_unknown a atyp enc :
  addr_wire a atyp enc -> atyp = ATYP_IPV4 \/ atyp = ATYP_DOMAIN \/ atyp = ATYP_IPV6.
Proof. intros H. apply addr_wire_inv in H as [H|[H|H]]; naive_solver. Qed.

(** A length-checked field: the guard of the source never rejects a field that
    is there. *)
Lemma guarded_field_ok {E} (f : bytes -> Z -> SocksAddr) (e : E) (buf : bytes) off n a rest :
  (if length buf <? off + n + 2 then Err e else
   let? o := slice buf off (off + n) in
   let? hi := buf.[off + n] in
   let? lo := buf.[off + n + 1] in
   let? r := slice_from buf (off + n + 2) in
   Ok (f o (u16_from_be hi lo), r)) = Ok (a, rest) <->
  exists enc, (exists addr p, a = f addr p /\ length addr = n /\ is_u16 p /\
                 enc = addr ++ u16_to_be p) /\ drop off buf = enc ++ rest.
Proof.
  destruct (Nat.ltb_spec (length buf) (off + n + 2)) as [Hs|Hs].
  - split; [done|]. intros (? & (? & ? & _ & ? & _ & ->) & Hd).
    apply (f_equal length) in Hd. rewrite length_drop, !length_app in Hd. simpl in *. lia.
  - rewrite (fixed_field_ok f buf off n). split.
    + intros (o & p & ?). exists (o ++ u16_to_be p). rewrite <- app_assoc. naive_solver.
    + intros (? & (o & p & ?) & ?). exists o, p. destruct_and!. subst. by rewrite <- app_assoc in *.
Qed.

(** A length-prefixed UTF-8 field at offset [4]. *)
Lemma domain_field_ok {E} (e1 e2 : E) (buf : bytes) a rest :
  (if length buf <? 5 then Err e1 else
   let? lb := buf.[4] in
   if length buf <? 5 + b2n lb + 2 then Err e1 else
   let? o := slice buf 5 (5 + b2n lb) in
   let? d := from_utf8 e2 o in
   let? hi := buf.[5 + b2n lb] in
   let? lo := buf.[5 + b2n lb + 1] in
   let? r := slice_from buf (5 + b2n lb + 2) in
   Ok (Domain d (u16_from_be hi lo), r)) = Ok (a, rest) <->
  exists enc, addr_wire a ATYP_DOMAIN enc /\ drop 4 buf = enc ++ rest.
Proof.
  setoid_rewrite addr_wire_domain_iff.
  destruct (Nat.ltb_spec (length buf) 5) as [Hs|Hs].
  { split; [done|]. intros (? & (? & ? & ? & _ & _ & _ & _ & ->) & Hd).
    apply (f_equal length) in Hd. rewrite length_drop in Hd. simpl in Hd. lia. }
  destruct (index_lt (E:=E) buf 4) as (lb & Hlb & Hi); [lia|]. rewrite Hlb. cbn [obind].
  rewrite (drop_S _ _ _ Hi).
  destruct (Nat.ltb_spec (length buf) (5 + b2n lb + 2)) as [Hs'|Hs'].
  - split; [done|]. intros (? & (lb' & ? & ? & _ & Hl & _ & _ & ->) & Hd).
    injection Hd as <- Hd. apply (f_equal length) in Hd.
    rewrite length_drop, !length_app in Hd. simpl in *. lia.
  - rewrite (fixed_field_utf8_ok Domain e2 buf 5 (b2n lb)). split.
    + intros (o & p & -> & ? & ? & ? & Hd). exists (lb :: o ++ u16_to_be p). split.
      * by exists lb, o, p.
      * simpl. by rewrite Hd, <- app_assoc.
    + intros (? & (lb' & o & p & ?) & Hd). exists o, p. destruct_and!. subst.
      injection Hd as <- Hd. by rewrite <- app_assoc in Hd.
Qed.

(** The parser of the address part accepts exactly the wire forms. *)
Lemma parse_addr_ok buf atyp a rest :
  parse_addr buf atyp = Ok (a, rest) <->
  exists enc, addr_wire a atyp enc /\ drop 4 buf = enc ++ rest.
Proof.
  unfold parse_addr.
  destruct (byte_eqb atyp ATYP_IPV4) eqn:E1; [apply byte_eqb_true in E1 as ->|].
  { setoid_rewrite addr_wire_ipv4_iff. apply (guarded_field_ok IPv4 _ buf 4 4). }
  destruct (byte_eqb atyp ATYP_DOMAIN) eqn:E2; [apply byte_eqb_true in E2 as ->|].
  { apply domain_field_ok. }
  destruct (byte_eqb atyp ATYP_IPV6) eqn:E3; [apply byte_eqb_true in E3 as ->|].
  { setoid_rewrite addr_wire_ipv6_iff. apply (guarded_field_ok IPv6 _ buf 4 16). }
  apply byte_eqb_false in E1, E2, E3. split; [done|].
  intros (enc & Hw & _). apply addr_wire_unknown in Hw. naive_solver.
Qed.

(** A parse of four header bytes followed by an address. *)
Lemma lookup_header {A} (buf : list A) a b c d :
  buf !! 0 = Some a -> buf !! 1 = Some b -> buf !! 2 = Some c -> buf !! 3 = Some d ->
  buf = a :: b :: c :: d :: drop 4 buf.
Proof. destruct buf as [|? [|? [|? [|? ?]]]]; simpl; naive_solver. Qed.

Lemma parse_command_ok cmd c : parse_command cmd = Ok c <-> cmd = command_byte c.
Proof.
  unfold parse_command. repeat guard_goal; rewrite ?byte_eqb_true, ?byte_eqb_false in *;
    subst; destruct c; naive_solver.
Qed.

(** Exact language of the request parser. *)
Lemma parse_socks5_request_ok buf cmd a rest :
  parse_socks5_request buf = Ok (cmd, a, rest) <->
  exists atyp enc, addr_wire a atyp enc /\
    buf = [x05; command_byte cmd; x00; atyp] ++ enc ++ rest.
Proof.
  unfold parse_socks5_request. split.
  - intros H. guard_in H; [done|]. bool_to_prop.
    apply obind_ok in H as (v & Hv & H). guard_in H; [done|].
    apply obind_ok in H as (c & Hc & H). apply obind_ok in H as (cc & Hcc & H).
    apply obind_ok in H as (r & Hr & H). guard_in H; [done|].
    apply obind_ok in H as (t & Ht & H). apply obind_ok in H as ([a' rest'] & Ha & H).
    injection H as -> -> ->. bool_to_prop. apply byte_eqb_true in G0 as ->, G1 as ->.
    apply parse_addr_ok in Ha as (enc & Hw & Hd). apply parse_command_ok in Hcc as ->.
    exists t, enc. split; [done|]. inv_ok.
    rewrite (lookup_header buf _ _ _ _ Hv Hc Hr Ht). simpl. by rewrite Hd.
  - intros (t & enc & Hw & ->). simpl.
    rewrite (proj2 (parse_command_ok _ cmd) eq_refl). simpl.
    rewrite (proj2 (parse_addr_ok _ t a rest)); [done|]. by exists enc.
Qed.

(** Exact language of the CONNECT-only parser: the [Connect] requests of the
    generic one. *)
Lemma parse_connect_request_ok buf a rest :
  parse_connect_request buf = Ok (a, rest) <->
  exists atyp enc, addr_wire a atyp enc /\
    buf = [x05; CMD_CONNECT; x00; atyp] ++ enc ++ rest.
Proof.
  unfold parse_connect_request. split.
  - intros H. guard_in H; [done|]. bool_to_prop.
    apply obind_ok in H as (v & Hv & H). guard_in H; [done|].
    apply obind_ok in H as (c & Hc & H). guard_in H; [done|].
    apply obind_ok in H as (r & Hr & H). guard_in H; [done|].
    apply obind_ok in H as (t & Ht & H). bool_to_prop.
    apply byte_eqb_true in G0 as ->, G1 as ->, G2 as ->.
    apply parse_addr_ok in H as (enc & Hw & Hd).
    exists t, enc. split; [done|]. inv_ok.
    rewrite (lookup_header buf _ _ _ _ Hv Hc Hr Ht). simpl. by rewrite Hd.
  - intros (t & enc & Hw & ->). simpl.
    rewrite (proj2 (parse_addr_ok _ t a rest)); [done|]. by exists enc.
Qed.

(** ** Panic freedom *)

(** Discharge the bounds of the slices and indices met along a parser. *)
Ltac no_panic :=
  repeat first
    [ done
    | apply index_no_panic; lia
    | apply slice_no_panic; lia
    | apply slice_from_no_panic; lia
    | progress bool_to_prop
    | rewrite obind_panic; split; [|let x := fresh "x" in let H := fresh "H" in intros x H]
    | match goal with |- context [if ?b then _ else _] => destruct b eqn:? end
    | match goal with |- context [match ?b with pair _ _ => _ end] => destruct b end ].

Lemma from_utf8_no_panic {E} (e : E) l : from_utf8 e l <> Panic.
Proof. unfold from_utf8. by destruct (utf8_valid l). Qed.

Lemma parse_addr_no_panic buf atyp : parse_addr buf atyp <> Panic.
Proof. unfold parse_addr. cbv zeta. no_panic; try apply from_utf8_no_panic; no_panic. Qed.

Lemma parse_command_no_panic c : parse_command c <> Panic.
Proof. unfold parse_command. by repeat guard_goal. Qed.

(** ** Properties *)

(** Every encoded address starts with its type byte. *)
Lemma encode_reply_cons a enc :
  encode_reply a = Ok enc -> exists atyp enc', enc = atyp :: enc'.
Proof.
  destruct a as [|d p|]; simpl; intros H; [injection H as <-; eauto| |injection H as <-; eauto].
  destruct (255 <? length d); [done|]. injection H as <-. eauto.
Qed.

(** The request parser accepts exactly version 5, a known command, a zero
    reserved byte and the encoding of a well-typed address, and returns the
    address and what follows it: in particular it inverts the encoder, and no
    buffer has two readings. *)
Theorem socks5_request_exact buf cmd a rest :
  parse_socks5_request buf = Ok (cmd, a, rest) <->
  SocksAddr_wf a /\ exists enc, encode_reply a = Ok enc /\
    buf = [x05; command_byte cmd; x00] ++ enc ++ rest.
Proof.
  rewrite parse_socks5_request_ok. split.
  - intros (atyp & enc & [Hwf He] & ->). split; [done|]. exists (atyp :: enc). done.
  - intros (Hwf & enc & He & ->). destruct (encode_reply_cons a enc He) as (atyp & enc' & ->).
    exists atyp, enc'. done.
Qed.
