(* ===== verification/Socks5Handshake.v ===== *)
(** * SOCKS5: server and client handshakes

    Models the asynchronous handlers of
    [crates/eggress-protocol-socks/src/socks5/server.rs] and [client.rs] as
    computations of the stream monad, whole: every read, every write that
    happens before an error is returned, and every early return. *)

From S2P Require Import Prelude Bytes Stream Socks5.

(** ** Server side of the handshake *)

Definition read_method_negotiation : M Socks5Error bytes :=
  let! version := read_u8 in
  if negb (version =b x05) then mthrow (UnsupportedVersion version) else
  let! nmethods := read_u8 in
  read_exact (b2n nmethods).

Definition select_method (methods : bytes) (password : option bytes) : byte :=
  match password with
  | Some _ =>
      if contains_byte AUTH_USERNAME_PASSWORD methods then AUTH_USERNAME_PASSWORD
      else AUTH_NO_ACCEPTABLE
  | None =>
      if contains_byte AUTH_NONE methods then AUTH_NONE else AUTH_NO_ACCEPTABLE
  end.

Definition send_method_selection (methods : bytes) (password : option bytes)
    : M Socks5Error unit :=
  let method := select_method methods password in
  write_all [x05; method];;
  flush;;
  if method =b AUTH_NO_ACCEPTABLE then mthrow MethodNegotiationFailed else mret tt.

(** The lossy decoding of the returned username is the identity: it was just
    compared equal to a [&str]. *)
Definition read_auth_request (expected_username expected_password : bytes)
    : M Socks5Error bytes :=
  let! version := read_u8 in
  if negb (version =b AUTH_VERSION) then mthrow (UnsupportedVersion version) else
  let! ulen := read_u8 in
  if MAX_CRED_LEN <? b2n ulen then mthrow CredentialsTooLong else
  let! username := read_exact (b2n ulen) in
  let! plen := read_u8 in
  if MAX_CRED_LEN <? b2n plen then mthrow CredentialsTooLong else
  let! password := read_exact (b2n plen) in
  let username_match := bool_decide (username = expected_username) in
  let password_match := bool_decide (password = expected_password) in
  if negb username_match || negb password_match then mthrow AuthFailed
  else mret username.

Definition send_auth_response (success : bool) : M Socks5Error unit :=
  let status := if success then x00 else x01 in
  write_all [AUTH_VERSION; status];;
  flush.

(** The [match atyp] that [read_connect_request] and [read_socks5_request] share. *)
Definition read_addr (atyp : byte) : M Socks5Error SocksAddr :=
  if atyp =b ATYP_IPV4 then
    let! buf := read_exact 4 in
    let! p := read_u16 in
    mret (IPv4 buf p)
  else if atyp =b ATYP_DOMAIN then
    let! len := read_u8 in
    let! domain := read_exact (b2n len) in
    let! domain := mlift (from_utf8 (MalformedMessage "invalid domain") domain) in
    let! p := read_u16 in
    mret (Domain domain p)
  else if atyp =b ATYP_IPV6 then
    let! buf := read_exact 16 in
    let! p := read_u16 in
    mret (IPv6 buf p)
  else mthrow (UnsupportedAddressType atyp).

Definition read_connect_request : M Socks5Error SocksAddr :=
  let! version := read_u8 in
  if negb (version =b x05) then mthrow (UnsupportedVersion version) else
  let! cmd := read_u8 in
  if negb (cmd =b CMD_CONNECT) then mthrow (UnsupportedCommand cmd) else
  let! rsv := read_u8 in
  if negb (rsv =b x00) then mthrow (InvalidReservedByte rsv) else
  let! atyp := read_u8 in
  read_addr atyp.

Definition read_socks5_request : M Socks5Error (Socks5Command * SocksAddr) :=
  let! version := read_u8 in
  if negb (version =b x05) then mthrow (UnsupportedVersion version) else
  let! cmd := read_u8 in
  let! command := mlift (parse_command cmd) in
  let! rsv := read_u8 in
  if negb (rsv =b x00) then mthrow (InvalidReservedByte rsv) else
  let! atyp := read_u8 in
  let! addr := read_addr atyp in
  mret (command, addr).

Definition send_connect_reply (rep : byte) (bind_addr : SocksAddr) : M Socks5Error unit :=
  let! enc := mlift (encode_reply bind_addr) in
  write_all ([x05; rep; x00] ++ enc);;
  flush.

Definition send_udp_associate_reply (bind_addr : SocksAddr) : M Socks5Error unit :=
  send_connect_reply REP_SUCCESS bind_addr.

Definition reject_command (target : SocksAddr) : M Socks5Error unit :=
  send_connect_reply REP_COMMAND_NOT_SUPPORTED target.

Definition handle_socks5_handshake (username password : option bytes)
    : M Socks5Error SocksAddr :=
  (* Step 1: method negotiation *)
  let! methods := read_method_negotiation in
  send_method_selection methods password;;
  (* Step 2: auth, if a password is required *)
  match password with
  | Some pwd =>
      let user := default [] username in
      mcatch (read_auth_request user pwd;; mret tt)
             (fun e => mignore (send_auth_response false);; mthrow e);;
      send_auth_response true
  | None => mret tt
  end;;
  (* Step 3: CONNECT request *)
  mcatch read_connect_request (fun e =>
    match e with
    | UnsupportedCommand cmd =>
        mignore (send_connect_reply REP_COMMAND_NOT_SUPPORTED (IPv4 [x00; x00; x00; x00] 0));;
        mthrow (UnsupportedCommand cmd)
    | e => mthrow e
    end).

(** ** Client side of the handshake *)

Definition send_auth_request (username password : bytes) : M Socks5Error unit :=
  if (MAX_CRED_LEN <? length username) || (MAX_CRED_LEN <? length password)
  then mthrow CredentialsTooLong else
  write_all [AUTH_VERSION; Z2b (Z.of_nat (length username))];;
  write_all username;;
  write_all [Z2b (Z.of_nat (length password))];;
  write_all password;;
  flush.

Definition read_auth_response : M Socks5Error unit :=
  let! version := read_u8 in
  if negb (version =b AUTH_VERSION) then mthrow (UnsupportedVersion version) else
  let! status := read_u8 in
  if negb (status =b x00) then mthrow AuthFailed else mret tt.

Definition send_connect_request (target : SocksAddr) : M Socks5Error unit :=
  write_all [x05; x01; x00];;
  match target with
  | IPv4 addr port =>
      write_all [ATYP_IPV4];; write_all addr;; write_all (u16_to_be port)
  | Domain domain port =>
      if MAX_CRED_LEN <? length domain then mthrow AddressTooLong else
      write_all [ATYP_DOMAIN; Z2b (Z.of_nat (length domain))];;
      write_all domain;;
      write_all (u16_to_be port)
  | IPv6 addr port =>
      write_all [ATYP_IPV6];; write_all addr;; write_all (u16_to_be port)
  end;;
  flush.

Definition connect_failure_for_rep (rep : byte) : Socks5Error :=
  if rep =b x05 then ConnectionRefused else ConnectionFailed rep.

Definition read_connect_reply : M Socks5Error SocksAddr :=
  let! version := read_u8 in
  if negb (version =b x05) then mthrow (UnsupportedVersion version) else
  let! rep := read_u8 in
  let! _rsv := read_u8 in
  let! atyp := read_u8 in
  if atyp =b ATYP_IPV4 then
    let! addr := read_exact 4 in
    let! p := read_u16 in
    if negb (rep =b x00) then mthrow (connect_failure_for_rep rep) else mret (IPv4 addr p)
  else if atyp =b ATYP_DOMAIN then
    let! len := read_u8 in
    let! domain := read_exact (b2n len) in
    let! p := read_u16 in
    if negb (rep =b x00) then mthrow (connect_failure_for_rep rep) else
    let! domain := mlift (from_utf8 (MalformedMessage "invalid domain in reply") domain) in
    mret (Domain domain p)
  else if atyp =b ATYP_IPV6 then
    let! addr := read_exact 16 in
    let! p := read_u16 in
    if negb (rep =b x00) then mthrow (connect_failure_for_rep rep) else mret (IPv6 addr p)
  else mthrow (UnsupportedAddressType atyp).

Definition socks5_connect (target : SocksAddr) (auth : option (bytes * bytes))
    : M Socks5Error unit :=
  let methods :=
    AUTH_NONE :: match auth with Some _ => [AUTH_USERNAME_PASSWORD] | None => [] end in
  write_all [x05; Z2b (Z.of_nat (length methods))];;
  write_all methods;;
  flush;;
  let! version := read_u8 in
  if negb (version =b x05) then mthrow (UnsupportedVersion version) else
  let! selected_method := read_u8 in
  (if selected_method =b AUTH_NONE then mret tt
   else if selected_method =b AUTH_USERNAME_PASSWORD then
     match auth with
     | Some (username, password) =>
         send_auth_request username password;; read_auth_response
     | None => mthrow (UnsupportedAuthMethod selected_method)
     end
   else if selected_method =b xff then mthrow MethodNegotiationFailed
   else mthrow (UnsupportedAuthMethod selected_method));;
  send_connect_request target;;
  let! _bound := read_connect_reply in
  mret tt.

(** ** Traffic of the readers *)

Lemma read_addr_io atyp c a c' :
  read_addr atyp c = (Ok a, c') -> exists enc, addr_wire a atyp enc /\ io enc [] c c'.
Proof.
  unfold read_addr. intros H.
  destruct (byte_eqb atyp ATYP_IPV4) eqn:E1; [apply byte_eqb_true in E1 as ->|].
  { inv_io. eexists. split; [by apply addr_wire_ipv4|]. io_done. }
  destruct (byte_eqb atyp ATYP_DOMAIN) eqn:E2; [apply byte_eqb_true in E2 as ->|].
  { inv_io. match goal with H : from_utf8 _ _ = Ok _ |- _ => apply from_utf8_ok in H as [? ->] end.
    eexists. split; [by eapply addr_wire_domain|]. io_done. }
  destruct (byte_eqb atyp ATYP_IPV6) eqn:E3; [apply byte_eqb_true in E3 as ->|].
  { inv_io. eexists. split; [by apply addr_wire_ipv6|]. io_done. }
  done.
Qed.

Lemma read_addr_fwd a atyp enc r e o q :
  addr_wire a atyp enc -> read_addr atyp (Conn (enc ++ r) e o q) = (Ok a, Conn r e o q).
Proof.
  intros H. unfold read_addr. apply addr_wire_inv in H as [H|[H|H]].
  - destruct H as (o4 & p & -> & -> & -> & Hl & Hp). rewrite <- app_assoc. simpl.
    erewrite mbind_fwd by by apply read_exact_fwd. erewrite mbind_fwd by by apply read_u16_fwd. done.
  - destruct H as (d & p & lb & -> & -> & -> & Hl & Hu & Hp). simpl. rewrite <- app_assoc.
    erewrite mbind_fwd by apply read_u8_fwd. erewrite mbind_fwd by by apply read_exact_fwd.
    unfold from_utf8. rewrite Hu. erewrite mbind_fwd by done.
    erewrite mbind_fwd by by apply read_u16_fwd. done.
  - destruct H as (o4 & p & -> & -> & -> & Hl & Hp). rewrite <- app_assoc. simpl.
    erewrite mbind_fwd by by apply read_exact_fwd. erewrite mbind_fwd by by apply read_u16_fwd. done.
Qed.

Ltac byte_guards :=
  repeat match goal with
  | H : negb (byte_eqb _ _) = false |- _ => apply negb_false_iff, byte_eqb_true in H; try subst
  | H : byte_eqb _ _ = true |- _ => apply byte_eqb_true in H; try subst
  end.

Lemma read_connect_request_io c a c' :
  read_connect_request c = (Ok a, c') ->
  exists atyp enc, addr_wire a atyp enc /\ io ([x05; CMD_CONNECT; x00; atyp] ++ enc) [] c c'.
Proof.
  unfold read_connect_request. intros H. inv_io_guards. byte_guards.
  apply read_addr_io in H as (enc & Hw & ?). eexists _, _. split; [done|]. io_done.
Qed.

Lemma read_connect_request_fwd a atyp enc r e o q :
  addr_wire a atyp enc ->
  read_connect_request (Conn ([x05; CMD_CONNECT; x00; atyp] ++ enc ++ r) e o q) = (Ok a, Conn r e o q).
Proof. intros Hw. simpl. by rewrite <- (read_addr_fwd a atyp enc r e o q Hw). Qed.

Lemma read_socks5_request_io c cmd a c' :
  read_socks5_request c = (Ok (cmd, a), c') ->
  exists atyp enc, addr_wire a atyp enc /\ io ([x05; command_byte cmd; x00; atyp] ++ enc) [] c c'.
Proof.
  unfold read_socks5_request. intros H. inv_io_guards. byte_guards.
  match goal with H : parse_command _ = Ok _ |- _ => apply parse_command_ok in H as -> end.
  match goal with H : read_addr _ _ = _ |- _ => apply read_addr_io in H as (enc & Hw & ?) end.
  simplify_eq. eexists _, _. split; [done|]. io_done.
Qed.

Lemma read_socks5_request_fwd cmd a atyp enc r e o q :
  addr_wire a atyp enc ->
  read_socks5_request (Conn ([x05; command_byte cmd; x00; atyp] ++ enc ++ r) e o q)
    = (Ok (cmd, a), Conn r e o q).
Proof.
  intros Hw. unfold read_socks5_request. cbn [app]. erewrite mbind_fwd by apply read_u8_fwd. simpl.
  erewrite mbind_fwd by apply read_u8_fwd.
  erewrite mbind_fwd by (unfold mlift; by rewrite (proj2 (parse_command_ok _ cmd) eq_refl)).
  erewrite mbind_fwd by apply read_u8_fwd. simpl.
  erewrite mbind_fwd by apply read_u8_fwd.
  by erewrite mbind_fwd by by apply read_addr_fwd.
Qed.

Lemma read_method_negotiation_io c methods c' :
  read_method_negotiation c = (Ok methods, c') ->
  exists n, b2n n = length methods /\ io ([x05; n] ++ methods) [] c c'.
Proof.
  unfold read_method_negotiation. intros H. inv_io_guards. byte_guards.
  eexists. split; [done|]. io_done.
Qed.

Lemma send_method_selection_io methods password c u c' :
  send_method_selection methods password c = (Ok u, c') ->
  select_method methods password <> AUTH_NO_ACCEPTABLE /\
  io [] [x05; select_method methods password] c c'.
Proof.
  unfold send_method_selection. intros H. inv_io_guards.
  rewrite byte_eqb_false in *. done.
Qed.

Lemma read_auth_request_io user pwd c u c' :
  read_auth_request user pwd c = (Ok u, c') ->
  exists ul pl, b2n ul = length user /\ b2n pl = length pwd /\ u = user /\
    io ([AUTH_VERSION; ul] ++ user ++ [pl] ++ pwd) [] c c'.
Proof.
  unfold read_auth_request. intros H. inv_io_guards. byte_guards.
  apply orb_false_iff in G2 as [Gu Gp]. rewrite negb_false_iff, bool_decide_eq_true in Gu, Gp.
  subst. eexists _, _. do 3 (split; [done|]). io_done.
Qed.

Lemma send_auth_response_io b c u c' :
  send_auth_response b c = (Ok u, c') -> io [] [AUTH_VERSION; if b then x00 else x01] c c'.
Proof. unfold send_auth_response. intros H. inv_io. done. Qed.

(** A handler that always rethrows never succeeds. *)
Lemma ignore_throw {A B} (m : M Socks5Error A) e c (b : B) c' :
  (mignore m;; mthrow e) c <> (Ok b, c').
Proof. unfold mbind, mignore. destruct (m c) as [[]]; done. Qed.

(** Without a matching method, with wrong credentials or with another command
    the handshake fails; success gives the whole conversation. *)
Lemma handshake_io username password c target c' :
  handle_socks5_handshake username password c = (Ok target, c') ->
  exists n methods atyp enc auth_in auth_out,
    b2n n = length methods /\ addr_wire target atyp enc /\
    select_method methods password <> AUTH_NO_ACCEPTABLE /\
    match password with
    | None => auth_in = [] /\ auth_out = []
    | Some pwd => exists ul pl, b2n ul = length (default [] username) /\ b2n pl = length pwd /\
        auth_in = [AUTH_VERSION; ul] ++ default [] username ++ [pl] ++ pwd /\
        auth_out = [AUTH_VERSION; x00]
    end /\
    io ([x05; n] ++ methods ++ auth_in ++ [x05; CMD_CONNECT; x00; atyp] ++ enc)
       ([x05; select_method methods password] ++ auth_out) c c'.
Proof.
  unfold handle_socks5_handshake. intros H.
  apply mbind_ok in H as (methods & c1 & H1 & H).
  apply read_method_negotiation_io in H1 as (n & Hn & H1).
  apply mbind_ok in H as (u2 & c2 & H2 & H).
  apply send_method_selection_io in H2 as (Hsel & H2).
  apply mbind_ok in H as (u3 & c3 & H3 & H).
  apply mcatch_ok in H as [H|(e & c4 & _ & H)].
  2: { destruct e; try done. by apply ignore_throw in H. }
  apply read_connect_request_io in H as (atyp & enc & Hw & H4).
  destruct password as [pwd|].
  - apply mbind_ok in H3 as (u4 & c4 & H3 & H5).
    apply mcatch_ok in H3 as [H3|(e & c5 & _ & H3)]; [|by apply ignore_throw in H3].
    apply mbind_ok in H3 as (u5 & c5 & H3 & H6). injection H6 as _ ->.
    apply read_auth_request_io in H3 as (ul & pl & Hul & Hpl & _ & H3).
    apply send_auth_response_io in H5.
    exists n, methods, atyp, enc, ([AUTH_VERSION; ul] ++ default [] username ++ [pl] ++ pwd),
      [AUTH_VERSION; x00].
    do 3 (split; [done|]). split; [eauto 10|]. io_done.
  - injection H3 as _ ->. exists n, methods, atyp, enc, [], [].
    do 4 (split; [done|]). io_done.
Qed.

(** ** Forward computation of the handlers *)

Lemma read_method_negotiation_fwd n methods r e o q :
  b2n n = length methods ->
  read_method_negotiation (Conn ([x05; n] ++ methods ++ r) e o q) = (Ok methods, Conn r e o q).
Proof.
  intros Hn. unfold read_method_negotiation. cbn [app].
  erewrite mbind_fwd by apply read_u8_fwd. simpl.
  erewrite mbind_fwd by apply read_u8_fwd. by apply read_exact_fwd.
Qed.

Lemma send_method_selection_fwd methods password i e o :
  select_method methods password <> AUTH_NO_ACCEPTABLE ->
  send_method_selection methods password (Conn i e o None)
    = (Ok tt, Conn i e (o ++ [x05; select_method methods password]) None).
Proof.
  intros Hs. unfold send_method_selection. cbv zeta.
  erewrite mbind_fwd by apply write_all_fwd. erewrite mbind_fwd by done.
  by rewrite (proj2 (byte_eqb_false _ _) Hs).
Qed.

(** The credential message on the wire, whatever the server expects. *)
Lemma read_auth_request_fwd ul pl user pwd u p r e o q :
  b2n ul = length u -> b2n pl = length p ->
  read_auth_request user pwd (Conn ([AUTH_VERSION; ul] ++ u ++ [pl] ++ p ++ r) e o q)
    = (if bool_decide (u = user) && bool_decide (p = pwd) then Ok u else Err AuthFailed,
       Conn r e o q).
Proof.
  intros Hu Hp. unfold read_auth_request. cbn [app].
  erewrite mbind_fwd by apply read_u8_fwd. simpl.
  erewrite mbind_fwd by apply read_u8_fwd.
  pose proof (b2n_range ul). pose proof (b2n_range pl).
  rewrite (proj2 (Nat.ltb_ge MAX_CRED_LEN (b2n ul))) by (unfold MAX_CRED_LEN; lia).
  erewrite mbind_fwd by by apply read_exact_fwd. cbn [app].
  erewrite mbind_fwd by apply read_u8_fwd.
  rewrite (proj2 (Nat.ltb_ge MAX_CRED_LEN (b2n pl))) by (unfold MAX_CRED_LEN; lia).
  erewrite mbind_fwd by by apply read_exact_fwd. cbv zeta.
  destruct (bool_decide (u = user)), (bool_decide (p = pwd)); done.
Qed.

Lemma send_auth_response_fwd b i e o :
  send_auth_response b (Conn i e o None)
    = (Ok tt, Conn i e (o ++ [AUTH_VERSION; if b then x00 else x01]) None).
Proof. done. Qed.

(** The handshake up to the point where the credentials are read. *)
Lemma handshake_to_auth n methods user pwd r e o :
  b2n n = length methods -> AUTH_USERNAME_PASSWORD ∈ methods ->
  handle_socks5_handshake user (Some pwd) (Conn ([x05; n] ++ methods ++ r) e o None)
    = (((mcatch (read_auth_request (default [] user) pwd;; mret tt)
               (fun e => mignore (send_auth_response false);; mthrow e);;
        send_auth_response true);;
        mcatch read_connect_request (fun e =>
          match e with
          | UnsupportedCommand cmd =>
              mignore (send_connect_reply REP_COMMAND_NOT_SUPPORTED (IPv4 [x00; x00; x00; x00] 0));;
              mthrow (UnsupportedCommand cmd)
          | e => mthrow e
          end)))
      (Conn r e (o ++ [x05; AUTH_USERNAME_PASSWORD]) None).
Proof.
  intros Hn Hin. unfold handle_socks5_handshake.
  erewrite mbind_fwd by by apply read_method_negotiation_fwd.
  assert (select_method methods (Some pwd) = AUTH_USERNAME_PASSWORD) as Hs.
  { simpl. unfold contains_byte. by rewrite bool_decide_eq_true_2. }
  erewrite mbind_fwd by (apply send_method_selection_fwd; by rewrite Hs). by rewrite Hs.
Qed.

Lemma handshake_auth_fwd n methods ul pl user pwd target atyp enc r e o :
  b2n n = length methods -> AUTH_USERNAME_PASSWORD ∈ methods ->
  b2n ul = length (default [] user) -> b2n pl = length pwd -> addr_wire target atyp enc ->
  handle_socks5_handshake user (Some pwd)
    (Conn ([x05; n] ++ methods ++ [AUTH_VERSION; ul] ++ default [] user ++ [pl] ++ pwd ++
           [x05; CMD_CONNECT; x00; atyp] ++ enc ++ r) e o None)
    = (Ok target, Conn r e (o ++ [x05; AUTH_USERNAME_PASSWORD; AUTH_VERSION; x00]) None).
Proof.
  intros Hn Hin Hul Hpl Hw. rewrite handshake_to_auth by done.
  erewrite mbind_fwd.
  2: { erewrite mbind_fwd.
       2: { apply mcatch_fwd. erewrite mbind_fwd; [done|].
            rewrite read_auth_request_fwd by done. by rewrite !bool_decide_eq_true_2. }
       by rewrite send_auth_response_fwd. }
  erewrite mcatch_fwd by by apply read_connect_request_fwd. by rewrite <- app_assoc.
Qed.

Lemma handshake_noauth_fwd n methods user target atyp enc r e o :
  b2n n = length methods -> AUTH_NONE ∈ methods -> addr_wire target atyp enc ->
  handle_socks5_handshake user None
    (Conn ([x05; n] ++ methods ++ [x05; CMD_CONNECT; x00; atyp] ++ enc ++ r) e o None)
    = (Ok target, Conn r e (o ++ [x05; AUTH_NONE]) None).
Proof.
  intros Hn Hin Hw. unfold handle_socks5_handshake.
  erewrite mbind_fwd by by apply read_method_negotiation_fwd.
  assert (select_method methods None = AUTH_NONE) as Hs.
  { simpl. unfold contains_byte. by rewrite bool_decide_eq_true_2. }
  erewrite mbind_fwd by (apply send_method_selection_fwd; by rewrite Hs). rewrite Hs.
  erewrite mbind_fwd by done. by erewrite mcatch_fwd by by apply read_connect_request_fwd.
Qed.

(** ** The client *)

Lemma send_connect_request_fwd target atyp enc i e o :
  addr_wire target atyp enc ->
  send_connect_request target (Conn i e o None)
    = (Ok tt, Conn i e (o ++ [x05; CMD_CONNECT; x00; atyp] ++ enc) None).
Proof.
  intros Hw. apply addr_wire_encodable in Hw as He. destruct Hw as [_ Henc].
  unfold send_connect_request, encode_reply, MAX_CRED_LEN in *.
  destruct target as [a p|d p|a p]; cbn [SocksAddr_encodable] in He; cbv zeta in Henc;
    [| rewrite (proj2 (Nat.ltb_ge 255 (length d))) in * by lia |];
    injection Henc as <- <-; unfold mbind, write_all, flush, mret; cbn [c_quota c_in c_out c_end];
    app_norm.
Qed.

Lemma read_connect_reply_fwd bind atyp enc r e o q :
  addr_wire bind atyp enc ->
  read_connect_reply (Conn ([x05; REP_SUCCESS; x00; atyp] ++ enc ++ r) e o q)
    = (Ok bind, Conn r e o q).
Proof.
  intros H. unfold read_connect_reply. cbn [app].
  erewrite mbind_fwd by apply read_u8_fwd. simpl.
  do 3 (erewrite mbind_fwd by apply read_u8_fwd). apply addr_wire_inv in H as [H|[H|H]].
  - destruct H as (o4 & p & -> & -> & -> & Hl & Hp). rewrite <- app_assoc. simpl.
    erewrite mbind_fwd by by apply read_exact_fwd. by erewrite mbind_fwd by by apply read_u16_fwd.
  - destruct H as (d & p & lb & -> & -> & -> & Hl & Hu & Hp). simpl. rewrite <- app_assoc.
    erewrite mbind_fwd by apply read_u8_fwd. erewrite mbind_fwd by by apply read_exact_fwd.
    erewrite mbind_fwd by by apply read_u16_fwd. simpl.
    unfold from_utf8. rewrite Hu. by erewrite mbind_fwd by done.
  - destruct H as (o4 & p & -> & -> & -> & Hl & Hp). rewrite <- app_assoc. simpl.
    erewrite mbind_fwd by by apply read_exact_fwd. by erewrite mbind_fwd by by apply read_u16_fwd.
Qed.

Lemma send_auth_request_fwd u p i e o :
  length u <= 255 -> length p <= 255 ->
  send_auth_request u p (Conn i e o None)
    = (Ok tt, Conn i e (o ++ [AUTH_VERSION; Z2b (Z.of_nat (length u))] ++ u ++
                         [Z2b (Z.of_nat (length p))] ++ p) None).
Proof.
  intros Hu Hp. unfold send_auth_request, MAX_CRED_LEN.
  rewrite (proj2 (Nat.ltb_ge _ _) Hu), (proj2 (Nat.ltb_ge _ _) Hp).
  unfold mbind, write_all, flush, mret; cbn [c_quota c_in c_out c_end orb]. app_norm.
Qed.

Lemma read_auth_response_fwd i e o q :
  read_auth_response (Conn ([AUTH_VERSION; x00] ++ i) e o q) = (Ok tt, Conn i e o q).
Proof. done. Qed.

Lemma send_connect_reply_fwd bind atyp enc rep i e o :
  addr_wire bind atyp enc ->
  send_connect_reply rep bind (Conn i e o None)
    = (Ok tt, Conn i e (o ++ [x05; rep; x00; atyp] ++ enc) None).
Proof.
  intros [_ He]. unfold send_connect_reply, mbind, mlift. by rewrite He.
Qed.

(** The client's side of a successful conversation. *)
Lemma socks5_connect_auth_fwd target ta te bind ba be u p down e o :
  addr_wire target ta te -> addr_wire bind ba be -> length u <= 255 -> length p <= 255 ->
  socks5_connect target (Some (u, p))
    (Conn (([] ++ [x05; AUTH_USERNAME_PASSWORD; AUTH_VERSION; x00]) ++
           [x05; REP_SUCCESS; x00; ba] ++ be ++ down) e o None)
    = (Ok tt, Conn down e
        (o ++ [x05; x02] ++ [AUTH_NONE; AUTH_USERNAME_PASSWORD] ++
         [AUTH_VERSION; Z2b (Z.of_nat (length u))] ++ u ++ [Z2b (Z.of_nat (length p))] ++ p ++
         [x05; CMD_CONNECT; x00; ta] ++ te) None).
Proof.
  intros Hwt Hwb Hu Hp.
  unfold socks5_connect. cbn [length app]. do 2 (erewrite mbind_fwd by apply write_all_fwd).
  erewrite mbind_fwd by done. erewrite mbind_fwd by apply read_u8_fwd. byte_if.
  erewrite mbind_fwd by apply read_u8_fwd. byte_if.
  erewrite mbind_fwd by (erewrite mbind_fwd; [|by apply send_auth_request_fwd];
                         apply read_auth_response_fwd).
  erewrite mbind_fwd by by apply send_connect_request_fwd.
  erewrite mbind_fwd by by apply (read_connect_reply_fwd bind ba be down). app_norm.
Qed.

Lemma socks5_connect_noauth_fwd target ta te bind ba be down e o :
  addr_wire target ta te -> addr_wire bind ba be ->
  socks5_connect target None
    (Conn (([] ++ [x05; AUTH_NONE]) ++ [x05; REP_SUCCESS; x00; ba] ++ be ++ down) e o None)
    = (Ok tt, Conn down e
        (o ++ [x05; x01] ++ [AUTH_NONE] ++ [x05; CMD_CONNECT; x00; ta] ++ te) None).
Proof.
  intros Hwt Hwb.
  unfold socks5_connect. cbn [length app]. do 2 (erewrite mbind_fwd by apply write_all_fwd).
  erewrite mbind_fwd by done. erewrite mbind_fwd by apply read_u8_fwd. byte_if.
  erewrite mbind_fwd by apply read_u8_fwd. byte_if.
  erewrite mbind_fwd by done.
  erewrite mbind_fwd by by apply send_connect_request_fwd.
  erewrite mbind_fwd by by apply (read_connect_reply_fwd bind ba be down). app_norm.
Qed.

(** ** Properties *)

(** C1. A SOCKS5 listener that requires a password hands out a target only to a
    client that sent exactly the configured username and password (as raw
    bytes) after offering the username/password method; the server's replies
    are then exactly the method selection and the success status, and the
    bytes after the request are left unread. *)
Theorem socks5_auth_sound username pwd c target c' :
  handle_socks5_handshake username (Some pwd) c = (Ok target, c') ->
  exists n methods ul pl atyp enc,
    AUTH_USERNAME_PASSWORD ∈ methods /\ b2n n = length methods /\
    b2n ul = length (default [] username) /\ b2n pl = length pwd /\
    SocksAddr_wf target /\ encode_reply target = Ok (atyp :: enc) /\
    c_in c = [x05; n] ++ methods ++ [AUTH_VERSION; ul] ++ default [] username ++ [pl] ++ pwd ++
             [x05; CMD_CONNECT; x00; atyp] ++ enc ++ c_in c' /\
    c_out c' = c_out c ++ [x05; AUTH_USERNAME_PASSWORD; AUTH_VERSION; x00].
Proof.
  intros H. apply handshake_io in H as
    (n & methods & atyp & enc & ai & ao & Hn & [Hwf He] & Hs & (ul & pl & Hul & Hpl & -> & ->) & Hio).
  assert (AUTH_USERNAME_PASSWORD ∈ methods /\
          select_method methods (Some pwd) = AUTH_USERNAME_PASSWORD) as [Hm Hsel].
  { unfold select_method, contains_byte in *. by case_bool_decide. }
  rewrite Hsel in Hio. destruct Hio as (Hin & Hout & _).
  exists n, methods, ul, pl, atyp, enc. do 6 (split; [done|]).
  split; [rewrite Hin; app_norm|rewrite Hout; app_norm].
Qed.

Definition demo_user : bytes := str "alice".
Definition demo_pwd : bytes := str "s3cret".
Definition demo_target : SocksAddr := Domain (str "example.com") 443.
Definition demo_conn : conn :=
  Conn ([x05; x02; x00; x02] ++ [x01; x05] ++ demo_user ++ [x06] ++ demo_pwd ++
        [x05; x01; x00; x03; x0b] ++ str "example.com" ++ [x01; xbb]) None [] None.

Lemma socks5_auth_sound_witness :
  exists c', handle_socks5_handshake (Some demo_user) (Some demo_pwd) demo_conn
               = (Ok demo_target, c') /\
             exists methods : bytes, AUTH_USERNAME_PASSWORD ∈ methods.
Proof.
  assert (exists c', handle_socks5_handshake (Some demo_user) (Some demo_pwd) demo_conn
               = (Ok demo_target, c')) as [c' H] by (eexists; vm_compute; reflexivity).
  exists c'. split; [exact H|].
  destruct (socks5_auth_sound (Some demo_user) demo_pwd demo_conn demo_target c' H)
    as (n & methods & ul & pl & atyp & enc & Hm & _).
  exists methods. exact Hm.
Defined.

(** Liveness side of authentication: every conversation of the form RFC
    1928/1929 prescribes, with the right credentials, is accepted, yields the
    requested target and leaves the following bytes for the relay. *)
Theorem socks5_auth_complete n methods ul pl user pwd target r e o :
  b2n n = length methods -> AUTH_USERNAME_PASSWORD ∈ methods ->
  b2n ul = length user -> b2n pl = length pwd ->
  SocksAddr_wf target -> SocksAddr_encodable target ->
  exists atyp enc, encode_reply target = Ok (atyp :: enc) /\
  handle_socks5_handshake (Some user) (Some pwd)
    (Conn ([x05; n] ++ methods ++ [AUTH_VERSION; ul] ++ user ++ [pl] ++ pwd ++
           [x05; CMD_CONNECT; x00; atyp] ++ enc ++ r) e o None)
    = (Ok target, Conn r e (o ++ [x05; AUTH_USERNAME_PASSWORD; AUTH_VERSION; x00]) None).
Proof.
  intros Hn Hm Hul Hpl Hwf He. destruct (addr_wire_intro target Hwf He) as (atyp & enc & Hw).
  exists atyp, enc. split; [apply Hw|]. by apply (handshake_auth_fwd n methods ul pl (Some user)).
Qed.

Lemma socks5_auth_complete_witness :
  exists atyp enc, encode_reply demo_target = Ok (atyp :: enc) /\
  handle_socks5_handshake (Some demo_user) (Some demo_pwd)
    (Conn ([x05; x01] ++ [x02] ++ [AUTH_VERSION; x05] ++ demo_user ++ [x06] ++ demo_pwd ++
           [x05; CMD_CONNECT; x00; atyp] ++ enc ++ str "GET") None [] None)
    = (Ok demo_target, Conn (str "GET") None ([] ++ [x05; AUTH_USERNAME_PASSWORD; AUTH_VERSION; x00]) None).
Proof.
  apply (socks5_auth_complete x01 [x02] x05 x06 demo_user demo_pwd demo_target (str "GET") None []).
  - reflexivity.
  - apply list_elem_of_singleton. reflexivity.
  - reflexivity.
  - reflexivity.
  - split; [reflexivity|]. split; vm_compute; [intros ?; discriminate|reflexivity].
  - apply Nat.leb_le. vm_compute. reflexivity.
Defined.

(** No downgrade: a listener with a password answers a client that does not
    offer username/password authentication with 0xFF and fails, whatever else
    the client offered or sent. *)
Theorem socks5_no_downgrade n methods user pwd r e o :
  b2n n = length methods -> AUTH_USERNAME_PASSWORD ∉ methods ->
  handle_socks5_handshake user (Some pwd) (Conn ([x05; n] ++ methods ++ r) e o None)
    = (Err MethodNegotiationFailed, Conn r e (o ++ [x05; AUTH_NO_ACCEPTABLE]) None).
Proof.
  intros Hn Hm. unfold handle_socks5_handshake.
  erewrite mbind_fwd by by apply read_method_negotiation_fwd.
  apply mbind_fwd_err. unfold send_method_selection, select_method, contains_byte.
  by rewrite bool_decide_eq_false_2.
Qed.

Lemma socks5_no_downgrade_witness :
  handle_socks5_handshake None (Some demo_pwd) (Conn ([x05; x01] ++ [x00] ++ str "x") None [] None)
    = (Err MethodNegotiationFailed, Conn (str "x") None ([] ++ [x05; AUTH_NO_ACCEPTABLE]) None).
Proof.
  apply (socks5_no_downgrade x01 [x00] None demo_pwd (str "x") None []).
  - reflexivity.
  - intros H. apply list_elem_of_singleton in H. discriminate H.
Defined.

(** Wrong credentials: when the credential message differs from the expected
    pair in any byte, the client gets the RFC 1929 failure status, the
    handshake returns [AuthFailed], and the request that follows is not read. *)
Theorem socks5_bad_credentials n methods ul pl user pwd u p r e o :
  b2n n = length methods -> AUTH_USERNAME_PASSWORD ∈ methods ->
  b2n ul = length u -> b2n pl = length p -> (u, p) <> (default [] user, pwd) ->
  handle_socks5_handshake user (Some pwd)
    (Conn ([x05; n] ++ methods ++ [AUTH_VERSION; ul] ++ u ++ [pl] ++ p ++ r) e o None)
    = (Err AuthFailed,
       Conn r e (o ++ [x05; AUTH_USERNAME_PASSWORD; AUTH_VERSION; x01]) None).
Proof.
  intros Hn Hm Hul Hpl Hne. rewrite handshake_to_auth by done.
  apply mbind_fwd_err, mbind_fwd_err.
  erewrite mcatch_fwd_err.
  2: { apply mbind_fwd_err. rewrite read_auth_request_fwd by done.
       case_bool_decide; [|done]. case_bool_decide; [congruence|done]. }
  erewrite mbind_fwd; [done|]. unfold mignore. rewrite send_auth_response_fwd. app_norm.
Qed.

Lemma socks5_bad_credentials_witness :
  handle_socks5_handshake (Some demo_user) (Some demo_pwd)
    (Conn ([x05; x01] ++ [x02] ++ [AUTH_VERSION; x05] ++ demo_user ++ [x01] ++ str "x" ++ []) None [] None)
    = (Err AuthFailed,
       Conn [] None ([] ++ [x05; AUTH_USERNAME_PASSWORD; AUTH_VERSION; x01]) None).
Proof.
  apply (socks5_bad_credentials x01 [x02] x05 x01 (Some demo_user) demo_pwd demo_user (str "x") [] None []).
  - reflexivity.
  - apply list_elem_of_singleton. reflexivity.
  - reflexivity.
  - reflexivity.
  - vm_compute. discriminate.
Defined.

(** The eggress SOCKS5 client and server understand each other: for every
    target and bind address that have a wire form, with or without
    authentication, the bytes the client writes make the server return
    exactly that target, and the server's replies make the client succeed;
    nothing is left over on either side. *)
Theorem socks5_client_server target bind auth rest :
  SocksAddr_wf target -> SocksAddr_encodable target ->
  SocksAddr_wf bind -> SocksAddr_encodable bind ->
  match auth with Some (u, p) => length u <= 255 /\ length p <= 255 | None => True end ->
  exists sent replies reply,
    handle_socks5_handshake (fst <$> auth) (snd <$> auth) (Conn (sent ++ rest) None [] None)
      = (Ok target, Conn rest None replies None) /\
    send_connect_reply REP_SUCCESS bind (Conn rest None replies None)
      = (Ok tt, Conn rest None (replies ++ reply) None) /\
    socks5_connect target auth (Conn (replies ++ reply) None [] None)
      = (Ok tt, Conn [] None sent None).
Proof.
  intros Hwt Het Hwb Heb Hauth.
  destruct (addr_wire_intro target Hwt Het) as (ta & te & Hwt').
  destruct (addr_wire_intro bind Hwb Heb) as (ba & be & Hwb').
  destruct auth as [[u p]|]; cbn [fmap option_fmap option_map fst snd].
  - destruct Hauth as [Hu Hp].
    exists ([x05; x02] ++ [AUTH_NONE; AUTH_USERNAME_PASSWORD] ++
            [AUTH_VERSION; Z2b (Z.of_nat (length u))] ++ u ++ [Z2b (Z.of_nat (length p))] ++ p ++
            [x05; CMD_CONNECT; x00; ta] ++ te),
      ([] ++ [x05; AUTH_USERNAME_PASSWORD; AUTH_VERSION; x00]), ([x05; REP_SUCCESS; x00; ba] ++ be).
    split; [|split].
    + rewrite <- (handshake_auth_fwd x02 [AUTH_NONE; AUTH_USERNAME_PASSWORD]
        (Z2b (Z.of_nat (length u))) (Z2b (Z.of_nat (length p))) (Some u) p target ta te rest None []);
        [by app_norm|done|set_solver|simpl; rewrite b2n_Z2b; lia|rewrite b2n_Z2b; lia|done].
    + by apply send_connect_reply_fwd.
    + rewrite <- (app_nil_r be). by apply (socks5_connect_auth_fwd target ta te bind).
  - exists ([x05; x01] ++ [AUTH_NONE] ++ [x05; CMD_CONNECT; x00; ta] ++ te),
      ([] ++ [x05; AUTH_NONE]), ([x05; REP_SUCCESS; x00; ba] ++ be).
    split; [|split].
    + rewrite <- (handshake_noauth_fwd x01 [AUTH_NONE] None target ta te rest None []);
        [by app_norm|done|set_solver|done].
    + by apply send_connect_reply_fwd.
    + rewrite <- (app_nil_r be). by apply (socks5_connect_noauth_fwd target ta te bind).
Qed.

Lemma socks5_client_server_witness :
  exists sent replies reply,
    handle_socks5_handshake (Some demo_user) (Some demo_pwd) (Conn (sent ++ []) None [] None)
      = (Ok demo_target, Conn [] None replies None) /\
    send_connect_reply REP_SUCCESS (IPv4 [x7f; x00; x00; x01] 1080) (Conn [] None replies None)
      = (Ok tt, Conn [] None (replies ++ reply) None) /\
    socks5_connect demo_target (Some (demo_user, demo_pwd)) (Conn (replies ++ reply) None [] None)
      = (Ok tt, Conn [] None sent None).
Proof.
  apply (socks5_client_server demo_target (IPv4 [x7f; x00; x00; x01] 1080)
           (Some (demo_user, demo_pwd)) []).
  - split; [reflexivity|]. split; vm_compute; [intros ?; discriminate|reflexivity].
  - apply Nat.leb_le. vm_compute. reflexivity.
  - split; [reflexivity|]. split; vm_compute; [intros ?; discriminate|reflexivity].
  - exact I.
  - split; apply Nat.leb_le; vm_compute; reflexivity.
Defined.

(** The asynchronous request reader is the synchronous parser: on any
    connection it returns a request exactly when [parse_socks5_request]
    accepts the pending bytes, with the same command and address, and it
    leaves exactly the parser's remainder unread and writes nothing. *)
Theorem socks5_read_is_parse c cmd a c' :
  read_socks5_request c = (Ok (cmd, a), c') <->
  parse_socks5_request (c_in c) = Ok (cmd, a, c_in c') /\ c' = set_in c (c_in c').
Proof.
  rewrite parse_socks5_request_ok. destruct c as [i e o q]. split.
  - intros H. apply read_socks5_request_io in H as Hio.
    destruct Hio as (atyp & enc & Hw & Hin & _). cbn [c_in] in Hin. subst i.
    rewrite <- app_assoc in H. rewrite (read_socks5_request_fwd cmd a) in H by done.
    injection H as <-. split; [|done]. exists atyp, enc. split; [done|]. by rewrite <- app_assoc.
  - intros [(atyp & enc & Hw & Hin) ->]. cbn [c_in] in Hin. subst i.
    by rewrite (read_socks5_request_fwd cmd a).
Qed.
