(* ===== verification/Socks5Udp.v ===== *)
(** * SOCKS5 UDP datagrams

    Models [crates/eggress-protocol-socks/src/socks5/udp_codec.rs]. *)

From S2P Require Import Prelude Bytes Stream Socks5.

(** ** UDP datagrams ([udp_codec.rs]) *)

Definition MAX_UDP_DATAGRAM_SIZE : nat := Z.to_nat 65535.

Inductive UdpCodecError :=
| TooShort
| BadReserved
| FragmentationUnsupported
| UnknownAddressType (a : byte)
| BadDomainLength
| MalformedDomain
| MissingPort
| PacketTooLarge (len max : nat).

Record Socks5UdpRequest := { ur_target : SocksAddr; ur_payload : bytes }.

Definition decode_socks5_udp_datagram (packet : bytes)
    : outcome UdpCodecError Socks5UdpRequest :=
  if length packet <? 4 then Err TooShort else
  if MAX_UDP_DATAGRAM_SIZE <? length packet
  then Err (PacketTooLarge (length packet) MAX_UDP_DATAGRAM_SIZE) else
  let? p0 := packet.[0] in
  let? p1 := packet.[1] in
  if negb (p0 =b x00) || negb (p1 =b x00) then Err BadReserved else
  let? p2 := packet.[2] in
  if negb (p2 =b x00) then Err FragmentationUnsupported else
  let? atyp := packet.[3] in
  let? (target, offset) :=
    (if atyp =b ATYP_IPV4 then
       if length packet <? 4 + 4 + 2 then Err TooShort else
       let? addr := slice packet 4 (4 + 4) in
       let? hi := packet.[8] in
       let? lo := packet.[8 + 1] in
       Ok (IPv4 addr (u16_from_be hi lo), 8 + 2)
     else if atyp =b ATYP_IPV6 then
       if length packet <? 4 + 16 + 2 then Err TooShort else
       let? addr := slice packet 4 (4 + 16) in
       let? hi := packet.[20] in
       let? lo := packet.[20 + 1] in
       Ok (IPv6 addr (u16_from_be hi lo), 20 + 2)
     else if atyp =b ATYP_DOMAIN then
       if length packet <? 4 + 1 then Err TooShort else
       let? lb := packet.[4] in
       let domain_len := b2n lb in
       if domain_len =? 0 then Err BadDomainLength else
       if length packet <? 5 + domain_len + 2 then Err TooShort else
       let? raw := slice packet 5 (5 + domain_len) in
       let? domain := from_utf8 MalformedDomain raw in
       let? hi := packet.[5 + domain_len] in
       let? lo := packet.[5 + domain_len + 1] in
       Ok (Domain domain (u16_from_be hi lo), 5 + domain_len + 2)
     else Err (UnknownAddressType atyp)) in
  let? payload := slice_from packet offset in
  Ok {| ur_target := target; ur_payload := payload |}.

(** The [out] buffer is cleared first, so it is the function's result. *)
Definition encode_socks5_udp_datagram (target : SocksAddr) (payload : bytes)
    : outcome UdpCodecError bytes :=
  let? encoded := map_err (fun _ => MalformedDomain) (encode_reply target) in
  Ok ([x00; x00] ++ [x00] ++ encoded ++ payload).

(** ** Exact language of the decoder *)

Definition nonempty_domain (a : SocksAddr) : Prop :=
  match a with Domain d _ => d <> [] | _ => True end.

(** A failed stage makes both sides of the staging lemmas false. *)
Ltac stage_fails := split; [intros (? & ? & ?); discriminate|intros ?; discriminate].
Ltac stage_fails' := split; [intros (? & ? & ?); discriminate|intros [_ ?]; discriminate].

(** The decoder's two stages (address and end offset, then payload) amount to
    one pass over the field. *)
Lemma staged_field_ok {E B} (f : bytes -> Z -> B) (buf : bytes) off n b pl :
  (exists o',
     (let? o := slice (E:=E) buf off (off + n) in
      let? hi := buf.[off + n] in
      let? lo := buf.[off + n + 1] in
      Ok (f o (u16_from_be hi lo), off + n + 2)) = Ok (b, o') /\
     slice_from (E:=E) buf o' = Ok pl) <->
  exists addr p, b = f addr p /\ length addr = n /\ is_u16 p /\
    drop off buf = addr ++ u16_to_be p ++ pl.
Proof.
  rewrite <- (fixed_field_ok (E:=E) f).
  destruct (slice _ _ _); simpl; [|stage_fails..].
  destruct (index _ (off + n)); simpl; [|stage_fails..].
  destruct (index _ (off + n + 1)); simpl; [|stage_fails..].
  split.
  - intros (o' & [= <- <-] & Hs). by rewrite Hs.
  - intros H. apply obind_ok in H as (r & Hr & [= <- <-]). eauto.
Qed.

Lemma staged_field_utf8_ok {E B} (f : bytes -> Z -> B) (e : E) (buf : bytes) off n b pl :
  (exists o',
     (let? o := slice (E:=E) buf off (off + n) in
      let? d := from_utf8 e o in
      let? hi := buf.[off + n] in
      let? lo := buf.[off + n + 1] in
      Ok (f d (u16_from_be hi lo), off + n + 2)) = Ok (b, o') /\
     slice_from (E:=E) buf o' = Ok pl) <->
  exists addr p, b = f addr p /\ length addr = n /\ is_u16 p /\ utf8_valid addr = true /\
    drop off buf = addr ++ u16_to_be p ++ pl.
Proof.
  rewrite <- (fixed_field_utf8_ok f e).
  destruct (slice _ _ _); simpl; [|stage_fails..].
  destruct (from_utf8 _ _); simpl; [|stage_fails..].
  destruct (index _ (off + n)); simpl; [|stage_fails..].
  destruct (index _ (off + n + 1)); simpl; [|stage_fails..].
  split.
  - intros (o' & [= <- <-] & Hs). by rewrite Hs.
  - intros H. apply obind_ok in H as (r & Hr & [= <- <-]). eauto.
Qed.

Lemma finish_ok {E} (m : outcome E (SocksAddr * nat)) (packet : bytes) r :
  (let? (target, offset) := m in
   let? payload := slice_from packet offset in
   Ok {| ur_target := target; ur_payload := payload |}) = Ok r <->
  exists off, m = Ok (ur_target r, off) /\ slice_from (E:=E) packet off = Ok (ur_payload r).
Proof.
  rewrite obind_ok. split.
  - intros ([t off] & Hm & H). apply obind_ok in H as (pl & Hs & [= <-]). eauto.
  - intros (off & Hm & Hs). exists (ur_target r, off). split; [done|]. rewrite Hs. by destruct r.
Qed.

(** A length-checked fixed-size field, staged. *)
Lemma staged_guarded_ok {E} (f : bytes -> Z -> SocksAddr) (e : E) (buf : bytes) off n a pl :
  (exists o',
     (if length buf <? off + n + 2 then Err e else
      let? o := slice (E:=E) buf off (off + n) in
      let? hi := buf.[off + n] in
      let? lo := buf.[off + n + 1] in
      Ok (f o (u16_from_be hi lo), off + n + 2)) = Ok (a, o') /\
     slice_from (E:=E) buf o' = Ok pl) <->
  exists enc, (exists addr p, a = f addr p /\ length addr = n /\ is_u16 p /\
                 enc = addr ++ u16_to_be p) /\ drop off buf = enc ++ pl.
Proof.
  rewrite <- (guarded_field_ok f e).
  destruct (length buf <? off + n + 2); [stage_fails|].
  by rewrite (staged_field_ok f), (fixed_field_ok f).
Qed.

(** The domain branch: as in a request, but the empty domain is refused. *)
Lemma decode_domain_ok (packet : bytes) t pl :
  (exists off,
    (if length packet <? 4 + 1 then Err TooShort else
     let? lb := packet.[4] in
     let domain_len := b2n lb in
     if domain_len =? 0 then Err BadDomainLength else
     if length packet <? 5 + domain_len + 2 then Err TooShort else
     let? raw := slice packet 5 (5 + domain_len) in
     let? domain := from_utf8 MalformedDomain raw in
     let? hi := packet.[5 + domain_len] in
     let? lo := packet.[5 + domain_len + 1] in
     Ok (Domain domain (u16_from_be hi lo), 5 + domain_len + 2)) = Ok (t, off) /\
    slice_from (E:=UdpCodecError) packet off = Ok pl) <->
  exists enc, addr_wire t ATYP_DOMAIN enc /\ nonempty_domain t /\ drop 4 packet = enc ++ pl.
Proof.
  transitivity (nonempty_domain t /\
    exists enc, addr_wire t ATYP_DOMAIN enc /\ drop 4 packet = enc ++ pl); [|naive_solver].
  rewrite <- (domain_field_ok TooShort MalformedDomain).
  change (4 + 1) with 5. destruct (length packet <? 5); [stage_fails'|].
  destruct (index packet 4) as [lb| |]; cbn [obind]; [|stage_fails'..]. cbv zeta.
  destruct (length packet <? 5 + b2n lb + 2); [destruct (_ =? 0); stage_fails'|].
  rewrite (fixed_field_utf8_ok Domain MalformedDomain packet 5).
  destruct (Nat.eqb_spec (b2n lb) 0) as [Hz|Hz].
  - split; [intros (? & ? & ?); discriminate|].
    intros [Hne (d & p & -> & Hl & _)]. rewrite Hz in Hl. by destruct d.
  - rewrite (staged_field_utf8_ok Domain MalformedDomain packet 5). split; [|by intros []].
    intros (d & p & -> & Hl & ?). split; [|eauto].
    intros ->. by rewrite <- Hl in Hz.
Qed.

Lemma decode_addr_ok (packet : bytes) atyp t pl :
  (exists off,
    (if atyp =b ATYP_IPV4 then
       if length packet <? 4 + 4 + 2 then Err TooShort else
       let? addr := slice packet 4 (4 + 4) in
       let? hi := packet.[8] in
       let? lo := packet.[8 + 1] in
       Ok (IPv4 addr (u16_from_be hi lo), 8 + 2)
     else if atyp =b ATYP_IPV6 then
       if length packet <? 4 + 16 + 2 then Err TooShort else
       let? addr := slice packet 4 (4 + 16) in
       let? hi := packet.[20] in
       let? lo := packet.[20 + 1] in
       Ok (IPv6 addr (u16_from_be hi lo), 20 + 2)
     else if atyp =b ATYP_DOMAIN then
       if length packet <? 4 + 1 then Err TooShort else
       let? lb := packet.[4] in
       let domain_len := b2n lb in
       if domain_len =? 0 then Err BadDomainLength else
       if length packet <? 5 + domain_len + 2 then Err TooShort else
       let? raw := slice packet 5 (5 + domain_len) in
       let? domain := from_utf8 MalformedDomain raw in
       let? hi := packet.[5 + domain_len] in
       let? lo := packet.[5 + domain_len + 1] in
       Ok (Domain domain (u16_from_be hi lo), 5 + domain_len + 2)
     else Err (UnknownAddressType atyp)) = Ok (t, off) /\
    slice_from (E:=UdpCodecError) packet off = Ok pl) <->
  exists enc, addr_wire t atyp enc /\ nonempty_domain t /\ drop 4 packet = enc ++ pl.
Proof.
  destruct (byte_eqb atyp ATYP_IPV4) eqn:E1; [apply byte_eqb_true in E1 as ->|].
  { etransitivity; [apply (staged_guarded_ok IPv4 TooShort packet 4 4)|].
    setoid_rewrite addr_wire_ipv4_iff. naive_solver. }
  destruct (byte_eqb atyp ATYP_IPV6) eqn:E2; [apply byte_eqb_true in E2 as ->|].
  { etransitivity; [apply (staged_guarded_ok IPv6 TooShort packet 4 16)|].
    setoid_rewrite addr_wire_ipv6_iff. naive_solver. }
  destruct (byte_eqb atyp ATYP_DOMAIN) eqn:E3; [apply byte_eqb_true in E3 as ->|].
  - apply decode_domain_ok.
  - rewrite byte_eqb_false in *. split; [intros (? & ? & ?); discriminate|].
    intros (enc & Hw & _). apply addr_wire_unknown in Hw. naive_solver.
Qed.

Lemma decode_ok packet r :
  decode_socks5_udp_datagram packet = Ok r <->
  length packet <= MAX_UDP_DATAGRAM_SIZE /\ nonempty_domain (ur_target r) /\
  exists atyp enc, addr_wire (ur_target r) atyp enc /\
    packet = [x00; x00; x00; atyp] ++ enc ++ ur_payload r.
Proof.
  unfold decode_socks5_udp_datagram. split.
  - intros H. guard_in H; [done|]. guard_in H; [done|]. bool_to_prop.
    apply obind_ok in H as (p0 & H0 & H). apply obind_ok in H as (p1 & H1 & H).
    guard_in H; [done|]. apply obind_ok in H as (p2 & H2 & H). guard_in H; [done|].
    apply obind_ok in H as (t & Ht & H). apply finish_ok, decode_addr_ok in H as (enc & Hw & Hne & Hd).
    bool_to_prop. rewrite byte_eqb_true in *. subst. inv_ok.
    split; [done|]. split; [done|]. exists t, enc. split; [done|].
    rewrite (lookup_header packet _ _ _ _ H0 H1 H2 Ht). simpl. by rewrite Hd.
  - intros (Hmax & Hne & atyp & enc & Hw & ->).
    rewrite (proj2 (Nat.ltb_ge _ 4)) by (simpl; lia).
    rewrite (proj2 (Nat.ltb_ge MAX_UDP_DATAGRAM_SIZE _)) by done.
    cbn [app index lookup list_lookup obind]. byte_if. cbn [orb].
    apply finish_ok, decode_addr_ok. by exists enc.
Qed.

Lemma encode_ok target atyp enc payload :
  addr_wire target atyp enc ->
  encode_socks5_udp_datagram target payload = Ok ([x00; x00; x00; atyp] ++ enc ++ payload).
Proof. intros [_ He]. unfold encode_socks5_udp_datagram. by rewrite He. Qed.

Lemma addr_wire_length target atyp enc : addr_wire target atyp enc -> length enc <= 258.
Proof.
  intros Hw. apply addr_wire_inv in Hw as [H|[H|H]].
  - destruct H as (a & p & -> & -> & -> & Ha & _). rewrite length_app, Ha. simpl. lia.
  - destruct H as (d & p & lb & -> & -> & -> & Ha & _). pose proof (b2n_range lb).
    simpl. rewrite length_app, Ha. simpl. lia.
  - destruct H as (a & p & -> & -> & -> & Ha & _). rewrite length_app, Ha. simpl. lia.
Qed.

(** ** Properties *)

(** C25. The datagram codec is a bijection: what [encode_socks5_udp_datagram]
    produces for a well-typed target with a wire form and a non-empty domain,
    within the datagram limit, decodes to the same target and payload; and a
    packet that decodes is, byte for byte, the encoding of what it decodes to, so
    relaying a decoded datagram re-creates it unchanged. *)
Theorem udp_codec_bijection :
  (forall target payload,
     SocksAddr_wf target -> SocksAddr_encodable target -> nonempty_domain target ->
     length payload <= MAX_UDP_DATAGRAM_SIZE - 262 ->
     exists packet, encode_socks5_udp_datagram target payload = Ok packet /\
       decode_socks5_udp_datagram packet = Ok {| ur_target := target; ur_payload := payload |}) /\
  (forall packet r,
     decode_socks5_udp_datagram packet = Ok r ->
     encode_socks5_udp_datagram (ur_target r) (ur_payload r) = Ok packet).
Proof.
  split.
  - intros target payload Hwf He Hne Hlen. destruct (addr_wire_intro target Hwf He) as (atyp & enc & Hw).
    eexists. split; [by apply encode_ok|]. apply decode_ok. simpl. split; [|eauto 10].
    pose proof (addr_wire_length _ _ _ Hw).
    rewrite length_app. unfold MAX_UDP_DATAGRAM_SIZE in *. lia.
  - intros packet r H. apply decode_ok in H as (_ & _ & atyp & enc & Hw & ->). by apply encode_ok.
Qed.

Definition demo_packet : bytes :=
  [x00; x00; x00; x03; x03] ++ str "a.b" ++ [x00; x35] ++ str "query".

Lemma udp_codec_bijection_witness :
  (exists packet, encode_socks5_udp_datagram (IPv4 [x0a; x00; x00; x01] 53) (str "ping") = Ok packet /\
    decode_socks5_udp_datagram packet
      = Ok {| ur_target := IPv4 [x0a; x00; x00; x01] 53; ur_payload := str "ping" |}) /\
  encode_socks5_udp_datagram (Domain (str "a.b") 53) (str "query") = Ok demo_packet.
Proof.
  split.
  - apply (proj1 udp_codec_bijection (IPv4 [x0a; x00; x00; x01] 53) (str "ping")).
    + split; [reflexivity|]. split; vm_compute; [intros ?; discriminate|reflexivity].
    + exact I.
    + exact I.
    + apply Nat.leb_le. vm_compute. reflexivity.
  - apply (proj2 udp_codec_bijection demo_packet {| ur_target := Domain (str "a.b") 53; ur_payload := str "query" |}).
    vm_compute. reflexivity.
Defined.

(** No input makes a SOCKS5 parser panic: every index and slice of the
    synchronous parsers and of the datagram decoder is in range. *)
Theorem socks5_parsers_no_panic buf :
  parse_method_negotiation buf <> Panic /\
  parse_connect_request buf <> Panic /\
  parse_socks5_request buf <> Panic /\
  decode_socks5_udp_datagram buf <> Panic.
Proof.
  split; [|split; [|split]].
  - unfold parse_method_negotiation. cbv zeta. no_panic.
  - unfold parse_connect_request. no_panic; apply parse_addr_no_panic.
  - unfold parse_socks5_request.
    no_panic; try apply parse_command_no_panic; no_panic; try apply parse_addr_no_panic; no_panic.
  - unfold decode_socks5_udp_datagram. cbv zeta. no_panic; try apply from_utf8_no_panic; no_panic.
    match goal with H : _ = Ok (_, _) |- _ => rename H into Hm end.
    repeat (inv_ok; try discriminate; guard_in Hm; try discriminate);
      inv_ok; bool_to_prop; apply slice_from_no_panic; lia.
Qed.
