(* ===== verification/NetAddr.v ===== *)
(** * IP addresses and targets

    The address values of the whole program: [std::net::IpAddr] with the
    textual syntax and the predicates of the standard library (its parser
    [core::net::parser] and [Display]), and [TargetHost] / [TargetAddr] of
    [eggress-core/src/lib.rs] with their [Display] and [FromStr].

    Addresses are their octets in network order ([ip_wf]: 4 or 16 of them). *)

From S2P Require Import Prelude Bytes Decimal.
Local Open Scope Z_scope.

Inductive IpAddr :=
| V4 (octets : bytes)
| V6 (octets : bytes).

#[export] Instance IpAddr_eq_dec : EqDecision IpAddr.
Proof. solve_decision. Defined.

Definition ip_wf (ip : IpAddr) : Prop :=
  match ip with
  | V4 o => length o = 4%nat
  | V6 o => length o = 16%nat
  end.

(** [Ipv6Addr::segments] and [Ipv6Addr::from([u16; 8])]. *)
Fixpoint segments (o : bytes) : list Z :=
  match o with
  | hi :: lo :: r => u16_from_be hi lo :: segments r
  | _ => []
  end.
Definition from_segments (gs : list Z) : bytes := mjoin (map u16_to_be gs).

(** [Ipv6Addr::to_ipv4_mapped]. *)
Definition to_ipv4_mapped (o : bytes) : option bytes :=
  if bool_decide (take 12 o = replicate 10 x00 ++ [xff; xff]) then Some (drop 12 o) else None.

(** ** The parser of the standard library *)

Module IpParser.

(** The digit loop of [read_number]: value, digits read, rest of the input;
    [None] as soon as more than [max_digits] digits are seen. *)
Fixpoint read_digits (radix : Z) (max_digits count : nat) (acc : Z) (s : bytes)
    : option (Z * nat * bytes) :=
  match s with
  | [] => Some (acc, count, [])
  | b :: r =>
      match to_digit radix b with
      | Some d =>
          if (max_digits <? S count)%nat then None
          else read_digits radix max_digits (S count) (acc * radix + d) r
      | None => Some (acc, count, s)
      end
  end.

Definition read_number (radix : Z) (max_digits : nat) (allow_zero_prefix : bool) (bound : Z)
    (s : bytes) : option (Z * bytes) :=
  let has_leading_zero := match s with b :: _ => b =b x30 | [] => false end in
  match read_digits radix max_digits 0 0 s with
  | Some (v, count, rest) =>
      if (count =? 0)%nat then None
      else if negb allow_zero_prefix && has_leading_zero && (1 <? count)%nat then None
      else if v <? bound then Some (v, rest) else None
  | None => None
  end.

Definition read_given_char (c : byte) (s : bytes) : option bytes :=
  match s with
  | b :: r => if b =b c then Some r else None
  | [] => None
  end.

Definition read_separator {A} (sep : byte) (index : nat) (inner : bytes -> option (A * bytes))
    (s : bytes) : option (A * bytes) :=
  if (0 <? index)%nat then
    match read_given_char sep s with Some r => inner r | None => None end
  else inner s.

(** The loop of [read_ipv4_addr], [n] octets from position [i]. *)
Fixpoint read_octets (n i : nat) (s : bytes) : option (bytes * bytes) :=
  match n with
  | O => Some ([], s)
  | S n' =>
      match read_separator x2e i (read_number 10 3 false 256) s with
      | Some (v, r) =>
          match read_octets n' (S i) r with
          | Some (o, r') => Some (Z2b v :: o, r')
          | None => None
          end
      | None => None
      end
  end.
Definition read_ipv4_addr (s : bytes) : option (bytes * bytes) := read_octets 4 0 s.

(** [read_groups] on a buffer with room for [room] more groups, [i] read. *)
Fixpoint read_groups (room i : nat) (s : bytes) : list Z * bool * bytes :=
  match room with
  | O => ([], false, s)
  | S room' =>
      let group :=
        match read_separator x3a i (read_number 16 4 true 65536) s with
        | Some (g, r) =>
            let '(gs, v4, r') := read_groups room' (S i) r in (g :: gs, v4, r')
        | None => ([], false, s)
        end in
      if (1 <? room)%nat then
        match read_separator x3a i read_ipv4_addr s with
        | Some (o, r) => (segments o, true, r)
        | None => group
        end
      else group
  end.

Definition read_ipv6_addr (s : bytes) : option (bytes * bytes) :=
  let '(head, head_ipv4, r) := read_groups 8 0 s in
  if (length head =? 8)%nat then Some (from_segments head, r)
  else if head_ipv4 then None
  else match read_given_char x3a r with
  | None => None
  | Some r1 =>
      match read_given_char x3a r1 with
      | None => None
      | Some r2 =>
          let limit := (8 - (length head + 1))%nat in
          let '(tail, _, r3) := read_groups limit 0 r2 in
          Some (from_segments (head ++ replicate (8 - length head - length tail) 0 ++ tail), r3)
      end
  end.

Definition read_ip_addr (s : bytes) : option (IpAddr * bytes) :=
  match read_ipv4_addr s with
  | Some (o, r) => Some (V4 o, r)
  | None =>
      match read_ipv6_addr s with
      | Some (o, r) => Some (V6 o, r)
      | None => None
      end
  end.

(** [read_number] without a digit limit: overflow of the [bound] fails. *)
Fixpoint read_unbounded (bound : Z) (count : nat) (acc : Z) (s : bytes) : option (Z * bytes) :=
  let stop := if (count =? 0)%nat then None else Some (acc, s) in
  match s with
  | [] => stop
  | b :: r =>
      match to_digit 10 b with
      | Some d =>
          if acc * 10 + d <? bound then read_unbounded bound (S count) (acc * 10 + d) r else None
      | None => stop
      end
  end.

Definition read_port (s : bytes) : option (Z * bytes) :=
  match read_given_char x3a s with
  | Some r => read_unbounded 65536 0 0 r
  | None => None
  end.

Definition read_socket_addr_v4 (s : bytes) : option (IpAddr * Z * bytes) :=
  match read_ipv4_addr s with
  | Some (o, r) => match read_port r with Some (p, r') => Some (V4 o, p, r') | None => None end
  | None => None
  end.

(** The optional scope [%id] is read and dropped. *)
Definition read_scope_id (s : bytes) : bytes :=
  match read_given_char x25 s with
  | Some r => match read_unbounded (2 ^ 32) 0 0 r with Some (_, r') => r' | None => s end
  | None => s
  end.

Definition read_socket_addr_v6 (s : bytes) : option (IpAddr * Z * bytes) :=
  match read_given_char x5b s with
  | Some r =>
      match read_ipv6_addr r with
      | Some (o, r1) =>
          match read_given_char x5d (read_scope_id r1) with
          | Some r2 => match read_port r2 with Some (p, r3) => Some (V6 o, p, r3) | None => None end
          | None => None
          end
      | None => None
      end
  | None => None
  end.

End IpParser.

(** [s.parse::<SocketAddr>()]. *)
Definition parse_socket_addr (s : bytes) : option (IpAddr * Z) :=
  match IpParser.read_socket_addr_v4 s with
  | Some (ip, p, []) => Some (ip, p)
  | Some _ => None
  | None =>
      match IpParser.read_socket_addr_v6 s with
      | Some (ip, p, []) => Some (ip, p)
      | _ => None
      end
  end.

(** [s.parse::<IpAddr>()]: the whole input is consumed. *)
Definition parse_ip (s : bytes) : option IpAddr :=
  match IpParser.read_ip_addr s with
  | Some (ip, []) => Some ip
  | _ => None
  end.

(** ** Display of the standard library *)

Fixpoint join (sep : byte) (l : list bytes) : bytes :=
  match l with
  | [] => []
  | [x] => x
  | x :: r => x ++ sep :: join sep r
  end.

Definition fmt_ipv4 (o : bytes) : bytes := join x2e (map (fun b => to_dec (b2Z b)) o).

(** The first longest run of zero segments: (start, length), and the run in
    progress. *)
Definition zero_run_step (st : (nat * nat) * (nat * nat)) (ix : nat * Z) : (nat * nat) * (nat * nat) :=
  let '(longest, current) := st in
  let '(i, segment) := ix in
  if segment =? 0 then
    let current' := ((if (current.2 =? 0)%nat then i else current.1), S current.2) in
    (if (longest.2 <? current'.2)%nat then current' else longest, current')
  else (longest, (0%nat, 0%nat)).

Definition longest_zero_run (gs : list Z) : nat * nat :=
  (foldl zero_run_step ((0, 0), (0, 0))%nat (zip (seq 0 (length gs)) gs)).1.

Definition fmt_subslice (gs : list Z) : bytes := join x3a (map to_hex gs).

Definition fmt_ipv6 (o : bytes) : bytes :=
  match to_ipv4_mapped o with
  | Some v4 => str "::ffff:" ++ fmt_ipv4 v4
  | None =>
      let gs := segments o in
      let '(start, len) := longest_zero_run gs in
      if (1 <? len)%nat
      then fmt_subslice (take start gs) ++ str "::" ++ fmt_subslice (drop (start + len) gs)
      else fmt_subslice gs
  end.

Definition fmt_ip (ip : IpAddr) : bytes :=
  match ip with V4 o => fmt_ipv4 o | V6 o => fmt_ipv6 o end.

Example parse_ip_examples :
  parse_ip (str "127.0.0.1") = Some (V4 [x7f; x00; x00; x01]) /\
  parse_ip (str "01.2.3.4") = None /\
  fmt_ip <$> parse_ip (str "2001:DB8:0:0:1::1") = Some (str "2001:db8::1:0:0:1") /\
  fmt_ip <$> parse_ip (str "::FFFF:7f00:1") = Some (str "::ffff:127.0.0.1") /\
  parse_ip (str "1:2:3:4:5:6:7::") = Some (V6 [x00;x01;x00;x02;x00;x03;x00;x04;x00;x05;x00;x06;x00;x07;x00;x00]).
Proof. vm_compute. done. Qed.

(** ** Targets (eggress-core/src/lib.rs) *)

Inductive TargetHost :=
| Ip (ip : IpAddr)
| DomainName (d : bytes).

Record TargetAddr := { host : TargetHost; tport : Z }.

#[export] Instance TargetHost_eq_dec : EqDecision TargetHost.
Proof. solve_decision. Defined.
#[export] Instance TargetAddr_eq_dec : EqDecision TargetAddr.
Proof. solve_decision. Defined.

Definition fmt_host (h : TargetHost) : bytes :=
  match h with Ip ip => fmt_ip ip | DomainName d => d end.

(** [Display for TargetAddr]. *)
Definition fmt_target_addr (t : TargetAddr) : bytes :=
  match host t with
  | Ip (V6 _) => x5b :: fmt_host (host t) ++ x5d :: x3a :: to_dec (tport t)
  | _ => fmt_host (host t) ++ x3a :: to_dec (tport t)
  end.

Inductive TargetParseError :=
| MissingCloseBracket | MissingPortAfterBracket | InvalidPort | InvalidIpv6Address
| UnbracketedIpv6 | InvalidTargetFormat.

Definition count_byte (c : byte) (s : bytes) : nat := length (filter (fun b => b = c) s).

(** [FromStr for TargetAddr]. *)
Definition parse_target_addr (s : bytes) : outcome TargetParseError TargetAddr :=
  match s with
  | b :: rest =>
      if b =b x5b then
        let? close := ok_or MissingCloseBracket (find_byte x5d rest) in
        let host_str := take close rest in
        let after := drop (close + 1) rest in
        let? port_str := ok_or MissingPortAfterBracket (IpParser.read_given_char x3a after) in
        let? port := ok_or InvalidPort (parse_u16 port_str) in
        let? ip := ok_or InvalidIpv6Address (parse_ip host_str) in
        Ok {| host := Ip ip; tport := port |}
      else if (1 <? count_byte x3a s)%nat then Err UnbracketedIpv6
      else match rsplit_once x3a s with
      | Some (host_part, port_part) =>
          let? port := ok_or InvalidPort (parse_u16 port_part) in
          Ok {| host := match parse_ip host_part with
                        | Some ip => Ip ip
                        | None => DomainName host_part
                        end;
                tport := port |}
      | None => Err InvalidTargetFormat
      end
  | [] => Err InvalidTargetFormat
  end.

(** ** Reading numbers back *)

Section read_back.
Import IpParser.

(** No further digit can be read at the front of [s]. *)
Definition stops (radix : Z) (s : bytes) : Prop :=
  match s with b :: _ => to_digit radix b = None | [] => True end.

Lemma read_digits_back radix max count acc l rest v :
  stops radix rest -> (count + length l <= max)%nat ->
  digits_value radix acc l = Some v ->
  read_digits radix max count acc (l ++ rest) = Some (v, (count + length l)%nat, rest).
Proof.
  intros Hs. revert count acc. induction l as [|b l IH]; simpl; intros count acc Hl Hv.
  - injection Hv as ->. rewrite Nat.add_0_r. unfold read_digits, stops in *.
    destruct rest; [done|by rewrite Hs].
  - destruct (to_digit radix b) as [d|]; [|done].
    rewrite (proj2 (Nat.ltb_ge _ _)) by lia. rewrite (IH (S count)) by (done || lia).
    by rewrite Nat.add_succ_r.
Qed.

Lemma read_digits_suffix radix max count acc s v n r :
  read_digits radix max count acc s = Some (v, n, r) -> exists l, s = l ++ r.
Proof.
  revert count acc. induction s as [|b s IH]; simpl; intros count acc H.
  - injection H as <- <- <-. by exists [].
  - destruct (to_digit radix b); [|injection H as <- <- <-; by exists []].
    destruct (_ <? _)%nat; [done|]. destruct (IH _ _ H) as [l ->]. by exists (b :: l).
Qed.

Lemma read_number_suffix radix max az bd s v r :
  read_number radix max az bd s = Some (v, r) -> exists l, s = l ++ r.
Proof.
  unfold read_number. destruct (read_digits radix max 0 0 s) as [[[w n] r']|] eqn:E; [|done].
  apply read_digits_suffix in E. destruct (_ =? _)%nat; [done|].
  destruct (_ && _); [done|]. destruct (_ <? _); [|done]. intros [= <- <-]. done.
Qed.

(** An IPv4 address is never read from a text without a dot. *)
Lemma read_ipv4_dot s x : read_ipv4_addr s = Some x -> x2e ∈ s.
Proof.
  unfold read_ipv4_addr. cbn [read_octets]. unfold read_separator at 1. cbn [Nat.ltb Nat.leb].
  destruct (read_number 10 3 false 256 s) as [[v r]|] eqn:E; [|done].
  apply read_number_suffix in E as [l ->].
  unfold read_separator at 1. cbn [Nat.ltb Nat.leb].
  destruct r as [|b r]; [done|]. cbn [read_given_char].
  destruct (b =b x2e) eqn:Eb; [|done]. apply byte_eqb_true in Eb as ->. set_solver.
Qed.

Lemma read_number_back radix max az bd l rest v :
  stops radix rest -> l <> [] -> (length l <= max)%nat -> digits_value radix 0 l = Some v ->
  v < bd -> (az = true \/ head l <> Some x30 \/ length l = 1%nat) ->
  read_number radix max az bd (l ++ rest) = Some (v, rest).
Proof.
  intros Hs Hne Hl Hv Hb Hz. unfold read_number.
  rewrite (read_digits_back _ _ _ _ _ _ v) by (done || lia).
  destruct l as [|b l]; [done|]. rewrite (proj2 (Z.ltb_lt v bd)) by done.
  cbn [app length Nat.eqb Nat.add].
  destruct az; [done|]. cbn [negb andb].
  destruct Hz as [?|[H|H]]; [done| |].
  - assert ((b =b x30) = false) as -> by (apply byte_eqb_false; simpl in H; congruence). done.
  - simpl in H. destruct l; [|done]. rewrite andb_false_r. done.
Qed.

Lemma to_dec_octet b :
  (length (to_dec (b2Z b)) <= 3)%nat /\
  (head (to_dec (b2Z b)) <> Some x30 \/ length (to_dec (b2Z b)) = 1%nat).
Proof. destruct b; vm_compute; split; (lia || (by left) || by right). Qed.

Lemma read_octet_back b rest :
  stops 10 rest -> read_number 10 3 false 256 (to_dec (b2Z b) ++ rest) = Some (b2Z b, rest).
Proof.
  intros Hs. destruct (to_dec_octet b) as [Hl Hz]. pose proof (b2Z_range b).
  apply read_number_back; [done|apply to_dec_nonempty|done| |lia|by right].
  apply to_dec_value. split; lia.
Qed.

(** The text of an IPv4 address is read back as that address. *)
Lemma read_ipv4_back o rest :
  length o = 4%nat -> stops 10 rest -> read_ipv4_addr (fmt_ipv4 o ++ rest) = Some (o, rest).
Proof.
  intros Ho Hs. destruct o as [|a [|b [|c [|d [|]]]]]; try done.
  unfold fmt_ipv4, read_ipv4_addr. cbn [map join].
  repeat (rewrite <- app_assoc; cbn [app]).
  cbn [read_octets]. unfold read_separator. cbn [Nat.ltb Nat.leb].
  do 3 (rewrite read_octet_back by done; cbn [read_given_char]; rewrite byte_eqb_refl).
  rewrite read_octet_back by done. by rewrite !Z2b_b2Z.
Qed.

Lemma to_hex_nonempty z : to_hex z <> [].
Proof.
  unfold to_hex. destruct (digits_rev_cons 16 3 z) as (d & r & ->). simpl. by destruct (rev r).
Qed.

Lemma read_group_back g rest :
  is_u16 g -> stops 16 rest ->
  read_number 16 4 true 65536 (to_hex g ++ rest) = Some (g, rest).
Proof.
  intros [? ?] Hs. apply read_number_back; [done|apply to_hex_nonempty| | |done|by left].
  - unfold to_hex. rewrite length_rev. apply digits_rev_length.
  - apply digits_value_digits_rev; [lia|simpl; lia|lia].
Qed.

(** What may follow a list of groups: the end, or the [::] of the address. *)
Definition after_groups (rest : bytes) : Prop :=
  rest = [] \/ exists r, rest = x3a :: x3a :: r.

Lemma after_groups_stops rest : after_groups rest -> stops 16 rest.
Proof. by intros [->|[r ->]]. Qed.

Lemma read_groups_stop room i rest :
  after_groups rest -> read_groups room i rest = ([], false, rest).
Proof.
  intros [->|[r ->]]; destruct room as [|[|room]]; try done;
    destruct i; vm_compute; done.
Qed.

Definition sep_if (i : nat) (s : bytes) : bytes := if (0 <? i)%nat then x3a :: s else s.

Lemma read_separator_back {A} i (inner : bytes -> option (A * bytes)) s :
  read_separator x3a i inner (sep_if i s) = inner s.
Proof. unfold read_separator, sep_if. destruct i; [done|]. cbn. by rewrite byte_eqb_refl. Qed.

Lemma to_digit_ne_dot d radix : to_digit radix d = None \/ d <> x2e.
Proof. destruct (byte_eq_dec d x2e) as [->|]; [by left|by right]. Qed.

Lemma to_hex_no_dot g : x2e ∉ to_hex g.
Proof.
  intros H. assert (Forall (is_digit 16) (to_hex g)) as Hd.
  { apply Forall_rev. apply digits_rev_digits. lia. }
  rewrite Forall_forall in Hd. destruct (Hd _ H) as [d Hd']. done.
Qed.

Lemma fmt_subslice_cons g gs :
  fmt_subslice (g :: gs) = to_hex g ++ match gs with [] => [] | _ => x3a :: fmt_subslice gs end.
Proof. unfold fmt_subslice. destruct gs; simpl; [by rewrite app_nil_r|done]. Qed.

Lemma fmt_subslice_no_dot gs : x2e ∉ fmt_subslice gs.
Proof.
  induction gs as [|g gs IH]; [set_solver|]. rewrite fmt_subslice_cons.
  pose proof (to_hex_no_dot g). destruct gs; set_solver.
Qed.

Lemma read_ipv4_no_dot s : x2e ∉ s -> read_ipv4_addr s = None.
Proof. intros H. destruct (read_ipv4_addr s) as [x|] eqn:E; [|done]. by apply read_ipv4_dot in E. Qed.

(** Reading back groups of an address without an embedded IPv4 part. *)
Lemma read_groups_back gs room i rest :
  gs <> [] -> Forall is_u16 gs -> (length gs <= room)%nat -> after_groups rest -> x2e ∉ rest ->
  read_groups room i (sep_if i (fmt_subslice gs ++ rest)) = (gs, false, rest).
Proof.
  intros Hne Hgs Hl Hr Hd. revert room i Hne Hl.
  induction gs as [|g gs IH]; intros room i Hne Hl; [done|].
  apply Forall_cons in Hgs as [Hg Hgs]. destruct room as [|room]; [simpl in Hl; lia|].
  cbn [read_groups]. rewrite !read_separator_back.
  rewrite read_ipv4_no_dot.
  2:{ pose proof (fmt_subslice_no_dot (g :: gs)). set_solver. }
  assert (read_number 16 4 true 65536 (fmt_subslice (g :: gs) ++ rest)
          = Some (g, match gs with [] => rest | _ => x3a :: fmt_subslice gs ++ rest end)) as ->.
  { rewrite fmt_subslice_cons, <- app_assoc. rewrite read_group_back; [by destruct gs|done|].
    destruct gs; [by apply after_groups_stops|done]. }
  assert (read_groups room (S i) match gs with [] => rest | _ => x3a :: fmt_subslice gs ++ rest end
          = (gs, false, rest)) as ->.
  { destruct gs as [|g' gs]; [by apply read_groups_stop|].
    apply (IH Hgs room (S i)); [done|simpl in *; lia]. }
  by destruct (1 <? S room)%nat.
Qed.

Lemma read_groups_back_all gs room rest :
  Forall is_u16 gs -> (length gs <= room)%nat -> after_groups rest -> x2e ∉ rest ->
  read_groups room 0 (fmt_subslice gs ++ rest) = (gs, false, rest).
Proof.
  intros. destruct gs as [|g gs]; [by apply read_groups_stop|].
  by apply (read_groups_back (g :: gs) room 0).
Qed.
End read_back.

(** ** The run of zeros chosen by [Display] *)

Definition zero_run (gs : list Z) (run : nat * nat) : Prop :=
  (run.1 + run.2 <= length gs)%nat /\ take run.2 (drop run.1 gs) = replicate run.2 0.

Lemma zero_run_app gs x run : zero_run gs run -> zero_run (gs ++ [x]) run.
Proof.
  intros [H1 H2]. split; [rewrite length_app; simpl; lia|].
  rewrite drop_app_le by lia. rewrite take_app_le by (rewrite length_drop; lia). done.
Qed.

Lemma zero_run_extend gs run :
  zero_run gs run -> (0 < run.2 -> run.1 + run.2 = length gs)%nat ->
  zero_run (gs ++ [0]) ((if run.2 =? 0 then length gs else run.1)%nat, S run.2).
Proof.
  destruct run as [s l]. unfold zero_run. cbn [fst snd]. intros [H1 H2] H3.
  rewrite length_app. cbn [length]. destruct (Nat.eqb_spec l 0) as [->|Hl].
  - split; [lia|]. by rewrite drop_app_length.
  - specialize (H3 ltac:(lia)). split; [lia|].
    rewrite drop_app_le by lia. rewrite take_ge by (rewrite length_app, length_drop; simpl; lia).
    rewrite take_ge in H2 by (rewrite length_drop; lia). rewrite H2.
    rewrite replicate_S_end. done.
Qed.

Lemma zero_run_foldl r p st :
  zero_run p st.1 -> zero_run p st.2 -> (0 < st.2.2 -> st.2.1 + st.2.2 = length p)%nat ->
  zero_run (p ++ r) (foldl zero_run_step st (zip (seq (length p) (length r)) r)).1.
Proof.
  revert p st. induction r as [|x r IH]; intros p [lg cur] H1 H2 H3.
  - by rewrite app_nil_r.
  - cbn [length seq zip zip_with foldl fst snd] in *. rewrite cons_middle, app_assoc.
    replace (S (length p)) with (length (p ++ [x])) by (rewrite length_app; simpl; lia).
    unfold zero_run_step at 2. destruct (Z.eqb_spec x 0) as [->|Hx].
    + pose proof (zero_run_extend _ _ H2 H3) as He. apply IH; cbn [fst snd].
      * destruct (_ <? _)%nat; [done|by apply zero_run_app].
      * done.
      * intros _. rewrite length_app. cbn [length].
        destruct (Nat.eqb_spec cur.2 0) as [->|?]; [lia|]. specialize (H3 ltac:(lia)). lia.
    + apply IH; cbn [fst snd]; [by apply zero_run_app| |lia].
      split; cbn [fst snd]; [lia|done].
Qed.

Lemma longest_zero_run_spec gs : zero_run gs (longest_zero_run gs).
Proof.
  unfold longest_zero_run. apply (zero_run_foldl gs [] ((0, 0), (0, 0))%nat); simpl; [..|lia];
    by split.
Qed.

(** ** Segments *)

Lemma from_segments_segments n o : length o = (2 * n)%nat -> from_segments (segments o) = o.
Proof.
  revert o. induction n as [|n IH]; intros o Ho; [by destruct o|].
  destruct o as [|hi [|lo o]]; [done|simpl in Ho; lia|].
  cbn [segments]. unfold from_segments in *. cbn [map mjoin list_join].
  rewrite u16_to_from, IH by (simpl in Ho; lia). done.
Qed.

Lemma segments_length n o : length o = (2 * n)%nat -> length (segments o) = n.
Proof.
  revert o. induction n as [|n IH]; intros o Ho; [by destruct o|].
  destruct o as [|hi [|lo o]]; [done|simpl in Ho; lia|]. simpl. rewrite IH; simpl in Ho; lia.
Qed.

Lemma segments_u16 o : Forall is_u16 (segments o).
Proof.
  assert (forall n o, length o <= n -> Forall is_u16 (segments o))%nat as H; [|by eapply (H (length o))].
  clear o. intros n. induction n as [|n IH]; intros [|hi [|lo o]] Ho; simpl in *; try constructor; try lia.
  - apply u16_from_be_range.
  - apply IH. lia.
Qed.

(** ** Round trips *)

Section round_trips.
Import IpParser.

Lemma fmt_ipv6_unmapped_no_dot o : to_ipv4_mapped o = None -> x2e ∉ fmt_ipv6 o.
Proof.
  intros Hm. unfold fmt_ipv6. rewrite Hm. destruct (longest_zero_run (segments o)) as [s l].
  destruct (1 <? l)%nat; [|apply fmt_subslice_no_dot].
  rewrite !not_elem_of_app. split_and!; try apply fmt_subslice_no_dot.
  vm_compute. set_solver.
Qed.

Lemma read_ipv6_unmapped_back o :
  length o = 16%nat -> to_ipv4_mapped o = None -> read_ipv6_addr (fmt_ipv6 o) = Some (o, []).
Proof.
  intros Ho Hm. pose proof (segments_length 8 o Ho) as Hl. pose proof (segments_u16 o) as Hu.
  pose proof (from_segments_segments 8 o Ho) as Hf. pose proof (longest_zero_run_spec (segments o)) as Hz.
  unfold fmt_ipv6. rewrite Hm. destruct (longest_zero_run (segments o)) as [s l].
  destruct Hz as [Hb Hz]. cbn [fst snd] in Hb, Hz. set (gs := segments o) in *.
  destruct (Nat.ltb_spec 1 l) as [Hl1|Hl1]; unfold read_ipv6_addr.
  - rewrite read_groups_back_all.
    + change (str "::") with [x3a; x3a]. cbn [app read_given_char].
      rewrite length_take, Hl, Nat.min_l by lia.
      rewrite (proj2 (Nat.eqb_neq s 8)), byte_eqb_refl by lia.
      cbn [read_given_char]. rewrite byte_eqb_refl.
      rewrite <- (app_nil_r (fmt_subslice (drop (s + l) gs))).
      rewrite read_groups_back_all; [| by apply Forall_drop | rewrite length_drop; lia | by left | set_solver].
      rewrite length_drop, Hl. replace (8 - s - (8 - (s + l)))%nat with l by lia.
      rewrite <- Hz, <- drop_drop, take_drop, take_drop, Hf. done.
    + by apply Forall_take.
    + rewrite length_take. lia.
    + right. by eexists.
    + rewrite not_elem_of_app. split; [vm_compute; set_solver|apply fmt_subslice_no_dot].
  - rewrite <- (app_nil_r (fmt_subslice gs)).
    rewrite read_groups_back_all by (done || lia || (by left) || set_solver).
    rewrite Hl. cbn [Nat.eqb]. by rewrite Hf.
Qed.

Lemma read_ipv6_mapped_back v4 :
  length v4 = 4%nat ->
  read_ipv6_addr (str "::ffff:" ++ fmt_ipv4 v4) =
  Some (replicate 10 x00 ++ [xff; xff] ++ v4, []).
Proof.
  intros Hv. pose proof (read_ipv4_back v4 [] Hv I) as Hb. rewrite app_nil_r in Hb.
  set (t := fmt_ipv4 v4) in *. unfold read_ipv6_addr.
  assert (read_groups 8 0 (str "::ffff:" ++ t) = ([], false, str "::ffff:" ++ t)) as ->
    by (apply read_groups_stop; right; by eexists).
  change (str "::ffff:" ++ t) with (x3a :: x3a :: (str "ffff:" ++ t)).
  cbn [length Nat.eqb read_given_char]. rewrite byte_eqb_refl.
  cbn [read_given_char]. rewrite byte_eqb_refl.
  assert (read_groups (8 - (0 + 1)) 0 (str "ffff:" ++ t) = (65535 :: segments v4, true, [])) as Hg.
  { cbn [Nat.add Nat.sub]. change (read_groups 7 0 (str "ffff:" ++ t))
      with (let '(gs, b, r) := read_groups 6 1 (x3a :: t) in (65535 :: gs, b, r)).
    cbn [read_groups Nat.ltb Nat.leb]. unfold read_separator. cbn [Nat.ltb Nat.leb read_given_char].
    rewrite byte_eqb_refl, Hb. done. }
  rewrite Hg. destruct v4 as [|a [|b [|c [|d [|]]]]]; try done.
  cbn [segments length Nat.sub Nat.add replicate app]. unfold from_segments.
  cbn [map mjoin list_join]. rewrite !u16_to_from. done.
Qed.

Lemma to_ipv4_mapped_Some o v4 :
  to_ipv4_mapped o = Some v4 -> o = replicate 10 x00 ++ [xff; xff] ++ v4.
Proof.
  unfold to_ipv4_mapped. case_bool_decide as H; [|done]. intros [= <-].
  rewrite app_assoc, <- H. by rewrite take_drop.
Qed.

Lemma read_ipv4_colon s : read_ipv4_addr (x3a :: s) = None.
Proof. done. Qed.

Lemma parse_fmt_ip ip : ip_wf ip -> parse_ip (fmt_ip ip) = Some ip.
Proof.
  intros Hw. unfold parse_ip, read_ip_addr. destruct ip as [o|o]; simpl in Hw; cbn [fmt_ip].
  - rewrite <- (app_nil_r (fmt_ipv4 o)). by rewrite read_ipv4_back.
  - destruct (to_ipv4_mapped o) as [v4|] eqn:Hm.
    + pose proof (to_ipv4_mapped_Some _ _ Hm) as E. unfold fmt_ipv6. rewrite Hm.
      assert (length v4 = 4%nat) as Hv by (rewrite E in Hw; simpl in Hw; lia).
      change (str "::ffff:" ++ fmt_ipv4 v4) with (x3a :: str ":ffff:" ++ fmt_ipv4 v4) at 1.
      rewrite read_ipv4_colon, read_ipv6_mapped_back by done. by rewrite <- E.
    + rewrite read_ipv4_no_dot by by apply fmt_ipv6_unmapped_no_dot.
      by rewrite read_ipv6_unmapped_back.
Qed.

End round_trips.

(** ** Parsed addresses are well formed *)

Section parsed.
Import IpParser.

Lemma read_octets_length n i s o r : read_octets n i s = Some (o, r) -> length o = n.
Proof.
  revert i s o. induction n as [|n IH]; simpl; intros i s o H; [by injection H as <- <-|].
  destruct (read_separator _ _ _ _) as [[v r1]|]; [|done].
  destruct (read_octets n (S i) r1) as [[o' r']|] eqn:E; [|done].
  injection H as <- <-. simpl. f_equal. by eapply IH.
Qed.

Lemma read_groups_length room i s : (length (read_groups room i s).1.1 <= room)%nat.
Proof.
  revert i s. induction room as [|room IH]; intros i s; [done|].
  cbn [read_groups].
  set (group := match read_separator x3a i (read_number 16 4 true 65536) s with
                | Some (g, r) =>
                    let '(gs, v4, r') := read_groups room (S i) r in (g :: gs, v4, r')
                | None => ([], false, s)
                end).
  assert (length group.1.1 <= S room)%nat as Hg.
  { unfold group. destruct (read_separator x3a i (read_number 16 4 true 65536) s) as [[g r]|].
    - specialize (IH (S i) r). destruct (read_groups room (S i) r) as [[gs v4] r'].
      simpl in *. lia.
    - simpl. lia. }
  destruct (Nat.ltb_spec 1 (S room)); [|done].
  destruct (read_separator x3a i read_ipv4_addr s) as [[o r]|] eqn:E; [|done].
  assert (length o = 4%nat) as Ho.
  { unfold read_separator in E. destruct (0 <? i)%nat; [destruct (read_given_char x3a s); [|done]|];
      by apply read_octets_length in E. }
  cbn [fst]. rewrite (segments_length 2) by done. lia.
Qed.

Lemma from_segments_length gs : length (from_segments gs) = (2 * length gs)%nat.
Proof. induction gs as [|g gs IH]; [done|]. unfold from_segments in *. simpl in *. lia. Qed.

Lemma read_ipv6_length s o r : read_ipv6_addr s = Some (o, r) -> length o = 16%nat.
Proof.
  unfold read_ipv6_addr. pose proof (read_groups_length 8 0 s) as H1.
  destruct (read_groups 8 0 s) as [[hd v4] r1]. cbn [fst] in H1.
  destruct (Nat.eqb_spec (length hd) 8) as [E|E].
  { intros [= <- <-]. rewrite from_segments_length, E. done. }
  destruct v4; [done|]. destruct (read_given_char x3a r1) as [r2|]; [|done].
  destruct (read_given_char x3a r2) as [r3|]; [|done].
  pose proof (read_groups_length (8 - (length hd + 1)) 0 r3) as H2.
  destruct (read_groups _ 0 r3) as [[tl b] r4]. cbn [fst] in H2. intros [= <- <-].
  rewrite from_segments_length, !length_app, length_replicate. lia.
Qed.

Lemma parse_ip_wf s ip : parse_ip s = Some ip -> ip_wf ip.
Proof.
  unfold parse_ip, read_ip_addr. destruct (read_ipv4_addr s) as [[o r]|] eqn:E4.
  - destruct r; [|done]. intros [= <-]. by apply read_octets_length in E4.
  - destruct (read_ipv6_addr s) as [[o r]|] eqn:E6; [|done].
    destruct r; [|done]. intros [= <-]. by apply read_ipv6_length in E6.
Qed.
End parsed.

(** ** Targets *)

(** The targets that have a textual form of their own: a domain name with a
    colon, a leading bracket or the shape of an IP literal is not one. *)
Definition target_wf (t : TargetAddr) : Prop :=
  is_u16 (tport t) /\
  match host t with
  | Ip ip => ip_wf ip
  | DomainName d => x3a ∉ d /\ head d <> Some x5b /\ parse_ip d = None
  end.

Lemma join_elem sep l c : c ∈ join sep l -> c = sep \/ exists x, x ∈ l /\ c ∈ x.
Proof.
  induction l as [|x l IH]; simpl; [set_solver|].
  destruct l as [|y l]; [intros; right; exists x; set_solver|].
  rewrite elem_of_app, elem_of_cons. intros [H|[->|H]].
  - right. exists x. set_solver.
  - by left.
  - destruct (IH H) as [->|(z & ? & ?)]; [by left|]. right. exists z. set_solver.
Qed.

(** A character that is neither a separator nor a digit is in no address text. *)
Lemma fmt_ipv4_not_in c o : to_digit 10 c = None -> c <> x2e -> c ∉ fmt_ipv4 o.
Proof.
  intros Hd Hc H. apply join_elem in H as [?|(x & Hx & H)]; [done|].
  apply list_elem_of_fmap in Hx as (b & -> & _).
  pose proof (to_dec_digits (b2Z b)) as Hf. rewrite Forall_forall in Hf.
  destruct (Hf _ H). congruence.
Qed.

Lemma fmt_subslice_not_in c gs : to_digit 16 c = None -> c <> x3a -> c ∉ fmt_subslice gs.
Proof.
  intros Hd Hc H. apply join_elem in H as [?|(x & Hx & H)]; [done|].
  apply list_elem_of_fmap in Hx as (g & -> & _).
  assert (Forall (is_digit 16) (to_hex g)) as Hf by (apply Forall_rev, digits_rev_digits; lia).
  rewrite Forall_forall in Hf. destruct (Hf _ H). congruence.
Qed.

Lemma fmt_ipv6_no_bracket o : x5d ∉ fmt_ipv6 o.
Proof.
  unfold fmt_ipv6. destruct (to_ipv4_mapped o).
  - rewrite not_elem_of_app. split; [vm_compute; set_solver|by apply fmt_ipv4_not_in].
  - destruct (longest_zero_run (segments o)) as [s k].
    destruct (1 <? k)%nat; [|by apply fmt_subslice_not_in].
    rewrite !not_elem_of_app. split_and!; try by apply fmt_subslice_not_in.
    vm_compute. set_solver.
Qed.

Lemma to_dec_not_in c z : to_digit 10 c = None -> c ∉ to_dec z.
Proof.
  intros Hd H. pose proof (to_dec_digits z) as Hf. rewrite Forall_forall in Hf.
  destruct (Hf _ H). congruence.
Qed.

Lemma count_byte_app c s t : count_byte c (s ++ t) = (count_byte c s + count_byte c t)%nat.
Proof. unfold count_byte. by rewrite filter_app, length_app. Qed.

Lemma count_byte_0 c s : count_byte c s = 0%nat <-> c ∉ s.
Proof.
  unfold count_byte. split.
  - intros H Hc. apply nil_length_inv in H.
    assert (c ∈ filter (fun b => b = c) s) as Hf by by apply list_elem_of_filter.
    rewrite H in Hf. set_solver.
  - intros H. destruct (filter (fun b => b = c) s) as [|b l] eqn:E; [done|].
    assert (b ∈ filter (fun b => b = c) s) as Hb by (rewrite E; set_solver).
    apply list_elem_of_filter in Hb as [-> ?]. done.
Qed.

Lemma rsplit_once_app c s t : c ∉ t -> rsplit_once c (s ++ c :: t) = Some (s, t).
Proof.
  intros Ht. unfold rsplit_once. assert (rfind_byte c (s ++ c :: t) = Some (length s)) as ->.
  { induction s as [|b s IH]; simpl.
    - rewrite (proj2 (rfind_byte_None c t)) by done. by rewrite byte_eqb_refl.
    - by rewrite IH. }
  simpl. rewrite take_app_length. do 2 f_equal.
  change (c :: t) with ([c] ++ t). rewrite app_assoc.
  replace (S (length s)) with (length (s ++ [c])) by (rewrite length_app; simpl; lia).
  by rewrite drop_app_length.
Qed.

(** Parsing [host:port] when the host text is not bracketed. *)
Lemma parse_plain_target h p :
  x3a ∉ h -> head h <> Some x5b -> is_u16 p ->
  parse_target_addr (h ++ x3a :: to_dec p) =
  Ok {| host := match parse_ip h with Some ip => Ip ip | None => DomainName h end; tport := p |}.
Proof.
  intros Hc Hb Hp. unfold parse_target_addr.
  assert (x3a ∉ to_dec p) as Hd by by apply to_dec_not_in.
  assert ((1 <? count_byte x3a (h ++ x3a :: to_dec p))%nat = false) as Hn.
  { apply Nat.ltb_ge. rewrite count_byte_app, (proj2 (count_byte_0 _ h)) by done.
    change (x3a :: to_dec p) with ([x3a] ++ to_dec p).
    rewrite count_byte_app, (proj2 (count_byte_0 _ (to_dec p))) by done. done. }
  pose proof (rsplit_once_app x3a h (to_dec p) Hd) as Hs.
  destruct (h ++ x3a :: to_dec p) as [|b r] eqn:E; [by destruct h|].
  assert ((b =b x5b) = false) as ->.
  { apply byte_eqb_false. destruct h; simpl in E; [injection E as <- _; done|].
    injection E as <- _. simpl in Hb. congruence. }
  by rewrite Hn, Hs, parse_u16_to_dec.
Qed.

(** ** Texts of addresses are ASCII *)

Lemma ascii_utf8 l : Forall (fun b => b2Z b < 128)%Z l -> utf8_valid l = true.
Proof.
  induction 1 as [|b l Hb _ IH]; [done|]. cbn [utf8_valid]. unfold byte_in at 1.
  pose proof (b2Z_range b). by rewrite (proj2 (Z.leb_le _ _)), (proj2 (Z.leb_le _ _)) by lia.
Qed.

(** An address text has hexadecimal digits, dots and colons. *)
Lemma fmt_ip_not_in c ip :
  to_digit 10 c = None -> to_digit 16 c = None -> c <> x2e -> c <> x3a -> c ∉ fmt_ip ip.
Proof.
  intros Hd Hx Hp Hc. destruct ip as [o|o]; cbn [fmt_ip]; [by apply fmt_ipv4_not_in|].
  unfold fmt_ipv6. destruct (to_ipv4_mapped o).
  - rewrite not_elem_of_app. split; [|by apply fmt_ipv4_not_in].
    change (str "::ffff:") with [x3a; x3a; x66; x66; x66; x66; x3a].
    assert (c <> x66) by (intros ->; done). set_solver.
  - destruct (longest_zero_run (segments o)) as [s k].
    destruct (1 <? k)%nat; [|by apply fmt_subslice_not_in].
    rewrite !not_elem_of_app. split_and!; try by apply fmt_subslice_not_in.
    change (str "::") with [x3a; x3a]. set_solver.
Qed.

Lemma fmt_ip_ascii ip : Forall (fun b => b2Z b < 128)%Z (fmt_ip ip).
Proof.
  apply Forall_forall. intros b Hb. destruct (Z.ltb_spec (b2Z b) 128) as [|Hge]; [done|exfalso].
  revert Hb. apply fmt_ip_not_in; [| |intros ->; by vm_compute in Hge..];
    unfold to_digit, byte_in; rewrite !(proj2 (Z.leb_gt (b2Z b) _)) by lia; by rewrite !andb_false_r.
Qed.

Lemma fmt_ip_no_open_bracket ip : x5b ∉ fmt_ip ip.
Proof. by apply fmt_ip_not_in. Qed.

(** The target a server sees: a domain that is an IP literal becomes that address. *)
Definition normalized (t : TargetAddr) : TargetAddr :=
  match host t with
  | Ip _ => t
  | DomainName d => {| host := match parse_ip d with Some ip => Ip ip | None => DomainName d end; tport := tport t |}
  end.

Lemma fmt_parse_target t : target_wf t -> parse_target_addr (fmt_target_addr t) = Ok t.
Proof.
  destruct t as [h p]. intros [Hp Hh]. cbn [host tport] in *. unfold fmt_target_addr.
  cbn [host tport]. destruct h as [[o|o]|d]; cbn [fmt_host].
  - rewrite parse_plain_target, parse_fmt_ip; [done|done|by apply fmt_ipv4_not_in| |done].
    intros Hb. apply head_Some_elem_of in Hb. revert Hb. by apply fmt_ipv4_not_in.
  - unfold parse_target_addr. rewrite byte_eqb_refl. cbn [fmt_ip].
    rewrite find_byte_app by apply fmt_ipv6_no_bracket. cbn [ok_or obind].
    rewrite take_app_length. rewrite <- drop_drop, drop_app_length. cbn [drop IpParser.read_given_char].
    rewrite byte_eqb_refl. cbn [ok_or obind]. rewrite parse_u16_to_dec by done. cbn [ok_or obind].
    pose proof (parse_fmt_ip (V6 o) Hh) as E. cbn [fmt_ip] in E. by rewrite E.
  - destruct Hh as (H1 & H2 & H3). by rewrite parse_plain_target, H3.
Qed.

Lemma parse_target_wf s t : parse_target_addr s = Ok t -> target_wf t.
Proof.
  unfold parse_target_addr. destruct s as [|b r]; [done|]. destruct (b =b x5b) eqn:Eb.
  - destruct (find_byte x5d r); [|done]. cbn [ok_or obind].
    destruct (IpParser.read_given_char _ _); [|done]. cbn [ok_or obind].
    destruct (parse_u16 _) as [p|] eqn:Ep; [|done]. cbn [ok_or obind].
    destruct (parse_ip _) as [ip|] eqn:Ei; [|done]. intros [= <-].
    split; [by eapply parse_u16_range|by eapply parse_ip_wf].
  - apply byte_eqb_false in Eb. destruct (Nat.ltb_spec 1 (count_byte x3a (b :: r))) as [?|Hn]; [done|].
    destruct (rsplit_once x3a (b :: r)) as [[h ps]|] eqn:Es; [|done].
    destruct (parse_u16 ps) as [p|] eqn:Ep; [|done]. cbn [ok_or obind]. intros [= <-].
    split; [by eapply parse_u16_range|]. cbn [host].
    destruct (parse_ip h) as [ip|] eqn:Ei; [by eapply parse_ip_wf|].
    unfold rsplit_once in Es. destruct (rfind_byte x3a (b :: r)) as [i|] eqn:Er; [|done].
    injection Es as <- <-. apply rfind_byte_Some in Er as [E _].
    split_and!; [| |done].
    + apply count_byte_0. rewrite E, count_byte_app in Hn.
      change (x3a :: drop (S i) (b :: r)) with ([x3a] ++ drop (S i) (b :: r)) in Hn.
      rewrite count_byte_app in Hn. change (count_byte x3a [x3a]) with 1%nat in Hn. lia.
    + destruct i; simpl; [done|]. congruence.
Qed.

(** A target address is read back from its own text, for every IPv4
    address, every IPv6 address (with its compressed and IPv4-mapped forms) and
    every domain name that does not read as something else; and every address
    the parser accepts is one of these, so parsing is idempotent through
    [Display]. *)
Theorem target_addr_roundtrip :
  (forall t, target_wf t -> parse_target_addr (fmt_target_addr t) = Ok t) /\
  (forall s t, parse_target_addr s = Ok t -> target_wf t).
Proof. split; [apply fmt_parse_target|apply parse_target_wf]. Qed.

Lemma target_addr_roundtrip_witness :
  parse_target_addr (fmt_target_addr
    {| host := Ip (V6 ([x20; x01; x0d; xb8] ++ replicate 11 x00 ++ [x01])); tport := 8443 |})
  = Ok {| host := Ip (V6 ([x20; x01; x0d; xb8] ++ replicate 11 x00 ++ [x01])); tport := 8443 |}.
Proof. apply (proj1 target_addr_roundtrip). split; [split; reflexivity || discriminate|reflexivity]. Defined.
