(* ===== verification/Connector.v ===== *)
(** * Direct connector and its reserved-address guard

    [eggress-core/src/connector.rs]: the classification of reserved and private
    addresses, name resolution with the DNS-rebinding guard, and the dial loop.
    The operating system (name lookup, socket creation, bind, connect) is a
    parameter. *)

From S2P Require Import Prelude Bytes Decimal NetAddr.
Local Open Scope Z_scope.

(** ** Address predicates of the standard library *)

Definition v4_is_loopback (o : bytes) : bool :=
  match o with a :: _ => a =b x7f | _ => false end.
Definition v4_is_link_local (o : bytes) : bool :=
  match o with a :: b :: _ => (a =b xa9) && (b =b xfe) | _ => false end.
Definition v4_is_private (o : bytes) : bool :=
  match o with
  | a :: b :: _ =>
      (a =b x0a) || ((a =b xac) && byte_in 16 31 b) || ((a =b xc0) && (b =b xa8))
  | _ => false
  end.
Definition v4_is_unspecified (o : bytes) : bool := bool_decide (o = replicate 4 x00).
Definition v4_is_multicast (o : bytes) : bool :=
  match o with a :: _ => byte_in 224 239 a | _ => false end.
Definition v4_is_broadcast (o : bytes) : bool := bool_decide (o = replicate 4 xff).

Definition v6_is_loopback (o : bytes) : bool := bool_decide (o = replicate 15 x00 ++ [x01]).
Definition v6_is_unspecified (o : bytes) : bool := bool_decide (o = replicate 16 x00).
Definition v6_is_multicast (o : bytes) : bool :=
  match o with a :: _ => a =b xff | _ => false end.

(** ** Ranges of the source *)

Definition bits_and (b : byte) (m : Z) : Z := Z.land (b2Z b) m.

Definition is_unique_local_v6 (o : bytes) : bool :=
  match o with a :: _ => bits_and a 0xfe =? 0xfc | _ => false end.

Definition is_unicast_link_local_v6 (o : bytes) : bool :=
  match o with a :: b :: _ => (a =b xfe) && (bits_and b 0xc0 =? 0x80) | _ => false end.

Definition is_v6_discard_prefix (o : bytes) : bool :=
  match o with a :: r => (a =b x01) && forallb (fun b => b =b x00) (take 7 r) | _ => false end.

Definition is_v4_this_network (o : bytes) : bool :=
  match o with a :: _ => a =b x00 | _ => false end.

Definition is_v4_documentation (o : bytes) : bool :=
  match o with
  | a :: b :: c :: _ =>
      ((a =b xc0) && (b =b x00) && (c =b x02)) || ((a =b xc6) && (b =b x33) && (c =b x64))
      || ((a =b xcb) && (b =b x00) && (c =b x71)) || ((a =b xc0) && (b =b x58) && (c =b x63))
  | _ => false
  end.

Definition is_v4_benchmarking (o : bytes) : bool :=
  match o with a :: b :: _ => (a =b xc6) && ((b =b x12) || (b =b x13)) | _ => false end.

Definition is_v4_reserved (o : bytes) : bool :=
  match o with a :: _ => 240 <=? b2Z a | _ => false end.

Definition is_v6_documentation (o : bytes) : bool :=
  match o with
  | a :: b :: c :: d :: _ => (a =b x20) && (b =b x01) && (c =b x0d) && (d =b xb8)
  | _ => false
  end.

Definition is_reserved_or_private_v4 (o : bytes) : bool :=
  v4_is_loopback o || v4_is_link_local o || v4_is_private o || v4_is_unspecified o
  || v4_is_multicast o || v4_is_broadcast o || is_v4_documentation o
  || is_v4_benchmarking o || is_v4_reserved o || is_v4_this_network o.

Definition is_reserved_or_private_ip (ip : IpAddr) : bool :=
  match ip with
  | V4 o => is_reserved_or_private_v4 o
  | V6 o =>
      match to_ipv4_mapped o with
      | Some v4 => is_reserved_or_private_v4 v4
      | None =>
          v6_is_loopback o || v6_is_unspecified o || v6_is_multicast o
          || is_v6_documentation o || is_unicast_link_local_v6 o || is_unique_local_v6 o
          || is_v6_discard_prefix o
      end
  end.

Definition is_dns_rebinding_risk (ip : IpAddr) : bool := is_reserved_or_private_ip ip.

(** ** Specification by CIDR blocks *)

(** The bits of an octet, most significant first. *)
Definition byte_bits (b : byte) : list bool :=
  map (fun i => Z.testbit (b2Z b) i) [7; 6; 5; 4; 3; 2; 1; 0].
Definition addr_bits (o : bytes) : list bool := mjoin (map byte_bits o).

(** Membership in [net/plen]. *)
Definition in_cidr (c : bytes * nat) (o : bytes) : bool :=
  bool_decide (take c.2 (addr_bits o) = take c.2 (addr_bits c.1)).

Definition reserved_v4_blocks : list (bytes * nat) :=
  [([x7f; x00; x00; x00], 8%nat);    (* 127.0.0.0/8 loopback *)
   ([xa9; xfe; x00; x00], 16%nat);   (* 169.254.0.0/16 link-local *)
   ([x0a; x00; x00; x00], 8%nat);    (* 10.0.0.0/8 private *)
   ([xac; x10; x00; x00], 12%nat);   (* 172.16.0.0/12 private *)
   ([xc0; xa8; x00; x00], 16%nat);   (* 192.168.0.0/16 private *)
   ([x00; x00; x00; x00], 8%nat);    (* 0.0.0.0/8 this network *)
   ([xe0; x00; x00; x00], 4%nat);    (* 224.0.0.0/4 multicast *)
   ([xf0; x00; x00; x00], 4%nat);    (* 240.0.0.0/4 reserved and broadcast *)
   ([xc0; x00; x02; x00], 24%nat);   (* 192.0.2.0/24 documentation *)
   ([xc6; x33; x64; x00], 24%nat);   (* 198.51.100.0/24 documentation *)
   ([xcb; x00; x71; x00], 24%nat);   (* 203.0.113.0/24 documentation *)
   ([xc0; x58; x63; x00], 24%nat);   (* 192.88.99.0/24 *)
   ([xc6; x12; x00; x00], 15%nat)].  (* 198.18.0.0/15 benchmarking *)

Definition v6_net (p : bytes) : bytes := p ++ replicate (16 - length p) x00.

Definition reserved_v6_blocks : list (bytes * nat) :=
  [(replicate 15 x00 ++ [x01], 128%nat);           (* ::1 *)
   (replicate 16 x00, 128%nat);                    (* :: *)
   (v6_net [xff], 8%nat);                          (* ff00::/8 multicast *)
   (v6_net [x20; x01; x0d; xb8], 32%nat);          (* 2001:db8::/32 documentation *)
   (v6_net [xfe; x80], 10%nat);                    (* fe80::/10 link-local *)
   (v6_net [xfc], 7%nat);                          (* fc00::/7 unique-local *)
   (v6_net [x01], 64%nat)].                        (* 100::/64 discard *)

(** ::ffff:0:0/96, the IPv4-mapped addresses. *)
Definition mapped_block : bytes * nat := (replicate 10 x00 ++ [xff; xff] ++ replicate 4 x00, 96%nat).

Definition reserved_spec (ip : IpAddr) : bool :=
  match ip with
  | V4 o => existsb (fun c => in_cidr c o) reserved_v4_blocks
  | V6 o =>
      if in_cidr mapped_block o then existsb (fun c => in_cidr c (drop 12 o)) reserved_v4_blocks
      else existsb (fun c => in_cidr c o) reserved_v6_blocks
  end.

(** ** Classification is membership in the blocks *)

Lemma byte_bits_inj a b : byte_bits a = byte_bits b -> a = b.
Proof.
  intros H. apply b2Z_inj, Z.bits_inj'. intros n Hn.
  destruct (Z.ltb_spec n 8).
  - unfold byte_bits in H. simpl in H. injection H as ????????.
    assert (n = 0 \/ n = 1 \/ n = 2 \/ n = 3 \/ n = 4 \/ n = 5 \/ n = 6 \/ n = 7) as C by lia.
    repeat (destruct C as [->|C]; [done|]). by subst.
  - assert (forall c, Z.testbit (b2Z c) n = false) as Hz; [|by rewrite !Hz].
    intros c. pose proof (b2Z_range c). destruct (Z.eq_dec (b2Z c) 0) as [->|]; [apply Z.bits_0|].
    apply Z.bits_above_log2; [lia|]. assert (Z.log2 (b2Z c) < 8); [|lia].
    apply Z.log2_lt_pow2; lia.
Qed.

Lemma in_cidr_octet n net b o p :
  in_cidr (n :: net, 8 + p)%nat (b :: o) = (b =b n) && in_cidr (net, p) o.
Proof.
  unfold in_cidr, addr_bits. cbn [fst snd map mjoin list_join].
  assert (forall c l, take (8 + p) (byte_bits c ++ l) = byte_bits c ++ take p l) as Ht
    by (intros; done).
  rewrite !Ht. apply eq_true_iff_eq.
  rewrite andb_true_iff, !bool_decide_eq_true, byte_eqb_true. split.
  - intros H. apply app_inj_1 in H as [H1 H2]; [|done]. split; [by apply byte_bits_inj|done].
  - intros [-> H]. f_equal. exact H.
Qed.

Lemma in_cidr_0 net o : in_cidr (net, 0%nat) o = true.
Proof. by apply bool_decide_eq_true. Qed.

(** A block boundary inside an octet: a test on that octet alone. *)
Lemma in_cidr_bits n net b o p :
  (p <= 8)%nat ->
  in_cidr (n :: net, p) (b :: o) = bool_decide (take p (byte_bits b) = take p (byte_bits n)).
Proof.
  intros Hp. unfold in_cidr, addr_bits. cbn [fst snd map mjoin list_join].
  by rewrite !take_app_le by (simpl; lia).
Qed.

Ltac cidr_simpl :=
  repeat first
    [ rewrite in_cidr_0
    | match goal with
      | |- context [in_cidr (?n :: ?net, S (S (S (S (S (S (S (S ?p))))))))%nat (?b :: ?o)] =>
          change (in_cidr (n :: net, S (S (S (S (S (S (S (S p))))))))%nat (b :: o))
            with (in_cidr (n :: net, (8 + p)%nat) (b :: o)); rewrite in_cidr_octet
      end
    | rewrite in_cidr_bits by lia ].

Lemma bits_172_16 b : bool_decide (take 4 (byte_bits b) = take 4 (byte_bits x10)) = byte_in 16 31 b.
Proof. by destruct b. Qed.
Lemma bits_224 b : bool_decide (take 4 (byte_bits b) = take 4 (byte_bits xe0)) = byte_in 224 239 b.
Proof. by destruct b. Qed.
Lemma bits_240 b : bool_decide (take 4 (byte_bits b) = take 4 (byte_bits xf0)) = (240 <=? b2Z b).
Proof. by destruct b. Qed.
Lemma bits_198_18 b :
  bool_decide (take 7 (byte_bits b) = take 7 (byte_bits x12)) = (b =b x12) || (b =b x13).
Proof. by destruct b. Qed.
Lemma bits_fe80 b :
  bool_decide (take 2 (byte_bits b) = take 2 (byte_bits x80)) = (bits_and b 0xc0 =? 0x80).
Proof. by destruct b. Qed.
Lemma bits_fc00 b :
  bool_decide (take 7 (byte_bits b) = take 7 (byte_bits xfc)) = (bits_and b 0xfe =? 0xfc).
Proof. by destruct b. Qed.

Lemma reserved_v4_is_blocks o :
  length o = 4%nat ->
  is_reserved_or_private_v4 o = existsb (fun c => in_cidr c o) reserved_v4_blocks.
Proof.
  intros Ho. destruct o as [|a [|b [|c [|d [|]]]]]; try done.
  unfold reserved_v4_blocks. cbn [existsb]. cidr_simpl.
  rewrite bits_172_16, bits_224, bits_240, bits_198_18.
  assert (v4_is_unspecified [a; b; c; d] = true -> (a =b x00) = true) as Hu.
  { unfold v4_is_unspecified. rewrite bool_decide_eq_true. by intros [= -> -> -> ->]. }
  assert (v4_is_broadcast [a; b; c; d] = true -> (240 <=? b2Z a) = true) as Hb.
  { unfold v4_is_broadcast. rewrite bool_decide_eq_true. by intros [= -> -> -> ->]. }
  apply eq_true_iff_eq.
  unfold is_reserved_or_private_v4, v4_is_loopback, v4_is_link_local, v4_is_private,
    v4_is_multicast, is_v4_documentation, is_v4_benchmarking, is_v4_reserved, is_v4_this_network.
  rewrite !andb_true_r, !orb_false_r.
  rewrite !orb_true_iff, !andb_true_iff, !orb_true_iff. tauto.
Qed.

(** Whole-octet prefixes. *)
Lemma in_cidr_prefix k net o :
  (k <= length net)%nat -> (k <= length o)%nat ->
  in_cidr (net, 8 * k)%nat o = bool_decide (take k o = take k net).
Proof.
  revert net o. induction k as [|k IH]; intros net o Hn Ho; [by rewrite !take_0|].
  destruct net as [|n net]; [simpl in Hn; lia|]. destruct o as [|b o]; [simpl in Ho; lia|].
  replace (8 * S k)%nat with (8 + 8 * k)%nat by lia.
  rewrite in_cidr_octet, IH by (simpl in *; lia).
  apply eq_true_iff_eq. rewrite andb_true_iff, byte_eqb_true, !bool_decide_eq_true. cbn [take firstn].
  split; [by intros [-> ->]|]. by intros [= -> ->].
Qed.

Lemma in_cidr_exact net o :
  length o = length net -> in_cidr (net, 8 * length net)%nat o = bool_decide (o = net).
Proof.
  intros H. rewrite in_cidr_prefix by lia. by rewrite <- H, take_ge, H, take_ge by lia.
Qed.

Lemma mapped_is_block o :
  length o = 16%nat ->
  to_ipv4_mapped o = if in_cidr mapped_block o then Some (drop 12 o) else None.
Proof.
  intros Ho. unfold to_ipv4_mapped, mapped_block. change 96%nat with (8 * 12)%nat.
  rewrite in_cidr_prefix by (rewrite ?Ho; simpl; lia). done.
Qed.

Lemma reserved_v6_is_blocks o :
  length o = 16%nat ->
  v6_is_loopback o || v6_is_unspecified o || v6_is_multicast o || is_v6_documentation o
  || is_unicast_link_local_v6 o || is_unique_local_v6 o || is_v6_discard_prefix o
  = existsb (fun c => in_cidr c o) reserved_v6_blocks.
Proof.
  intros Ho. unfold reserved_v6_blocks, v6_is_loopback, v6_is_unspecified. cbn [existsb].
  assert (in_cidr (replicate 15 x00 ++ [x01], 128%nat) o = bool_decide (o = replicate 15 x00 ++ [x01])) as ->
    by (by apply (in_cidr_exact (replicate 15 x00 ++ [x01]))).
  assert (in_cidr (replicate 16 x00, 128%nat) o = bool_decide (o = replicate 16 x00)) as ->
    by (by apply (in_cidr_exact (replicate 16 x00))).
  rewrite orb_false_r, !orb_assoc. do 3 f_equal.
  all: do 16 (destruct o as [|? o]; [done|]); destruct o; [|done];
    unfold v6_net; cbn [app length Nat.sub replicate]; cidr_simpl;
    rewrite ?bits_fe80, ?bits_fc00, ?andb_true_r; cbn [v6_is_multicast is_v6_documentation
      is_unicast_link_local_v6 is_unique_local_v6 is_v6_discard_prefix take firstn forallb];
    by rewrite ?andb_assoc, ?andb_true_r.
Qed.

Lemma reserved_is_spec ip : ip_wf ip -> is_reserved_or_private_ip ip = reserved_spec ip.
Proof.
  destruct ip as [o|o]; intros Ho; simpl in Ho; cbn [is_reserved_or_private_ip reserved_spec].
  - by apply reserved_v4_is_blocks.
  - rewrite mapped_is_block by done. destruct (in_cidr mapped_block o).
    + apply reserved_v4_is_blocks. rewrite length_drop. lia.
    + by apply reserved_v6_is_blocks.
Qed.

(** C23. The guard rejects exactly the listed CIDR blocks, and an IPv4-mapped
    IPv6 address exactly when the IPv4 address it maps is rejected: writing an
    address in mapped form does not get it past the guard. *)
Theorem reserved_ip_blocks ip :
  ip_wf ip -> is_reserved_or_private_ip ip = reserved_spec ip.
Proof. apply reserved_is_spec. Qed.

Lemma reserved_ip_blocks_witness :
  is_reserved_or_private_ip (V6 (replicate 10 x00 ++ [xff; xff; x7f; x00; x00; x01]))
  = reserved_spec (V6 (replicate 10 x00 ++ [xff; xff; x7f; x00; x00; x01])).
Proof. apply reserved_ip_blocks. reflexivity. Defined.

(** ** Resolution and dialling *)

Record SocketAddr := { sa_ip : IpAddr; sa_port : Z }.

#[export] Instance SocketAddr_eq_dec : EqDecision SocketAddr.
Proof. solve_decision. Defined.

Definition is_ipv4 (a : SocketAddr) : bool := match sa_ip a with V4 _ => true | V6 _ => false end.

Record ConnectionMetadata := { local_addr : option SocketAddr; peer_addr : option SocketAddr }.

Record ConnectOptions := {
  local_bind : option SocketAddr;
  enforce_dns_rebinding_check : bool;
  enforce_literal_ip_check : bool
}.

Definition ConnectOptions_default : ConnectOptions :=
  {| local_bind := None; enforce_dns_rebinding_check := true; enforce_literal_ip_check := false |}.

(** Operating-system errors by code. *)
Inductive ConnectError :=
| CeConnectionRefused
| CeTimeout
| CeDnsNoAddresses                  (* DnsResolution("no addresses found") *)
| CeDnsResolution (code : Z)
| CeTlsHandshake (code : Z)
| CeReservedTarget (ip : IpAddr)
| CeBindIncompatible (bind dest : SocketAddr)   (* Io(InvalidInput, ..) *)
| CeIo (code : Z).

(** What the operating system answers. *)
Inductive timed (A : Type) := TOk (a : A) | TErr (code : Z) | TElapsed.
Arguments TOk {A} a.
Arguments TErr {A} code.
Arguments TElapsed {A}.

Definition v6_unspecified : IpAddr := V6 (replicate 16 x00).

Section connect.

(** The operating system: lookup of [domain:port], creation of a socket of a
    family ([true]: IPv4), binding it, connecting to an address from an optional
    bound socket; a connected socket reports its two addresses. *)
Context (lookup_host : bytes -> timed (list SocketAddr)).
Context (new_socket : bool -> option Z).
Context (bind_socket : bool -> SocketAddr -> option Z).
Context (tcp_connect : option (bool * SocketAddr) -> SocketAddr -> timed ConnectionMetadata).

Definition resolve_target (target : TargetAddr) (dns_check literal_check : bool)
    : outcome ConnectError (list SocketAddr) :=
  match host target with
  | Ip ip =>
      if literal_check && is_dns_rebinding_risk ip then Err (CeReservedTarget ip)
      else Ok [{| sa_ip := ip; sa_port := tport target |}]
  | DomainName domain =>
      match lookup_host (domain ++ x3a :: to_dec (tport target)) with
      | TErr e => Err (CeDnsResolution e)
      | TElapsed => Err CeTimeout
      | TOk [] => Err CeDnsNoAddresses
      | TOk ((first :: _) as addrs) =>
          if dns_check then
            match filter (fun a => is_dns_rebinding_risk (sa_ip a) = false) addrs with
            | [] => Err (CeReservedTarget (sa_ip first))
            | filtered => Ok filtered
            end
          else Ok addrs
      end
  end.

(** The bind address of one attempt, its compatibility, and the socket family. *)
Definition bind_for (local addr : SocketAddr) : SocketAddr :=
  match sa_ip local with
  | V6 o =>
      if is_ipv4 addr && negb (bool_decide (sa_ip local = v6_unspecified)) then
        match to_ipv4_mapped o with
        | Some v4 => {| sa_ip := V4 v4; sa_port := sa_port local |}
        | None => local
        end
      else local
  | V4 _ => local
  end.

Definition dial (local_bind : option SocketAddr) (addr : SocketAddr)
    : outcome ConnectError ConnectionMetadata :=
  let finish r :=
    match r with
    | TOk m => Ok m
    | TErr e => Err (CeIo e)
    | TElapsed => Err CeTimeout
    end in
  match local_bind with
  | Some local =>
      let bind_addr := bind_for local addr in
      let unspec_for_v4 := bool_decide (sa_ip bind_addr = v6_unspecified) && is_ipv4 addr in
      if negb (Bool.eqb (is_ipv4 bind_addr) (is_ipv4 addr)) && negb unspec_for_v4
      then Err (CeBindIncompatible bind_addr addr)
      else
        let want_v4 := if unspec_for_v4 then false else is_ipv4 bind_addr in
        match new_socket want_v4 with
        | Some e => Err (CeIo e)
        | None =>
            match bind_socket want_v4 bind_addr with
            | Some e => Err (CeIo e)
            | None => finish (tcp_connect (Some (want_v4, bind_addr)) addr)
            end
        end
  | None => finish (tcp_connect None addr)
  end.

(** The loop of [connect_to_addrs]; the first connected address wins. *)
Fixpoint connect_loop (local_bind : option SocketAddr) (last_error : option ConnectError)
    (addrs : list SocketAddr) : outcome ConnectError (SocketAddr * ConnectionMetadata) :=
  match addrs with
  | [] => Err (default CeDnsNoAddresses last_error)
  | addr :: rest =>
      match dial local_bind addr with
      | Ok m => Ok (addr, m)
      | Err e => connect_loop local_bind (Some e) rest
      | Panic => Panic
      end
  end.
Definition connect_to_addrs (addrs : list SocketAddr) (local_bind : option SocketAddr)
    : outcome ConnectError (SocketAddr * ConnectionMetadata) :=
  connect_loop local_bind None addrs.

Definition connect_with_options_and_metadata (target : TargetAddr) (options : ConnectOptions)
    : outcome ConnectError (SocketAddr * ConnectionMetadata) :=
  let? addrs := resolve_target target (enforce_dns_rebinding_check options)
                  (enforce_literal_ip_check options) in
  connect_to_addrs addrs (local_bind options).

End connect.

Section connect_proofs.
Context (lookup_host : bytes -> timed (list SocketAddr)).
Context (new_socket : bool -> option Z).
Context (bind_socket : bool -> SocketAddr -> option Z).

(** Only addresses that pass the guard are ever candidates. *)
Lemma resolve_guarded target dns lit addrs a :
  resolve_target lookup_host target dns lit = Ok addrs -> a ∈ addrs ->
  (match host target with Ip _ => lit | DomainName _ => dns end) = true ->
  is_reserved_or_private_ip (sa_ip a) = false.
Proof.
  unfold resolve_target, is_dns_rebinding_risk. destruct (host target) as [ip|d]; intros H Ha ->.
  - cbn [andb] in H. destruct (is_reserved_or_private_ip ip) eqn:E; [done|].
    injection H as <-. apply list_elem_of_singleton in Ha as ->. done.
  - destruct (lookup_host _) as [[|f l]| |]; try done.
    destruct (filter _ (f :: l)) as [|x r] eqn:E; [done|]. injection H as <-.
    rewrite <- E in Ha. by apply list_elem_of_filter in Ha as [? _].
Qed.

Lemma resolve_no_panic target dns lit : resolve_target lookup_host target dns lit <> Panic.
Proof.
  unfold resolve_target. destruct (host target); [by destruct (_ && _)|].
  destruct (lookup_host _) as [[|f l]| |]; try done. destruct dns; [|done].
  by destruct (filter _ _).
Qed.

Lemma dial_no_panic tcp local a : dial new_socket bind_socket tcp local a <> Panic.
Proof.
  unfold dial. destruct local; [|by destruct (tcp _ _)].
  destruct (negb _ && negb _); [done|]. destruct (new_socket _); [done|].
  destruct (bind_socket _ _); [done|]. by destruct (tcp _ _).
Qed.

(** The loop returns the first address that connects. *)
Lemma connect_loop_ok tcp local e addrs a m :
  connect_loop new_socket bind_socket tcp local e addrs = Ok (a, m) ->
  exists l r, addrs = l ++ a :: r /\ dial new_socket bind_socket tcp local a = Ok m /\
    Forall (fun b => is_ok (dial new_socket bind_socket tcp local b) = false) l.
Proof.
  revert e. induction addrs as [|b addrs IH]; intros e; simpl; [done|].
  destruct (dial new_socket bind_socket tcp local b) as [m'|e'|] eqn:E; [| |done].
  - intros [= -> ->]. exists [], addrs. done.
  - intros H. destruct (IH _ H) as (l & r & -> & H1 & H2). exists (b :: l), r.
    split; [done|]. split; [done|]. constructor; [by rewrite E|done].
Qed.

Lemma connect_loop_total tcp local e addrs a :
  a ∈ addrs -> is_ok (dial new_socket bind_socket tcp local a) = true ->
  exists r, connect_loop new_socket bind_socket tcp local e addrs = Ok r.
Proof.
  intros Ha Hok. revert e. induction addrs as [|b addrs IH]; intros e; [set_solver|]. simpl.
  destruct (dial new_socket bind_socket tcp local b) as [m'|e'|] eqn:E.
  - eauto.
  - apply IH. apply elem_of_cons in Ha as [->|?]; [by rewrite E in Hok|done].
  - by apply dial_no_panic in E.
Qed.

Lemma connect_loop_agree tcp1 tcp2 local e addrs :
  (forall a, a ∈ addrs -> forall s, tcp1 s a = tcp2 s a) ->
  connect_loop new_socket bind_socket tcp1 local e addrs =
  connect_loop new_socket bind_socket tcp2 local e addrs.
Proof.
  revert e. induction addrs as [|b addrs IH]; intros e H; [done|]. simpl.
  assert (dial new_socket bind_socket tcp1 local b = dial new_socket bind_socket tcp2 local b) as ->.
  { unfold dial. destruct local; by rewrite ?H by set_solver. }
  destruct (dial new_socket bind_socket tcp2 local b); [done| |done].
  apply IH. intros a Ha. apply H. set_solver.
Qed.

(** C2. With the DNS guard on, no reserved or private address is ever dialled
    for a domain name (with the literal check on, for an IP literal either):
    the outcome does not depend on how the network answers at such addresses,
    and the address a successful connection uses is none of them. *)
Theorem connect_never_dials_reserved target options tcp1 tcp2 :
  (match host target with
   | Ip _ => enforce_literal_ip_check options
   | DomainName _ => enforce_dns_rebinding_check options
   end) = true ->
  (forall a s, is_reserved_or_private_ip (sa_ip a) = false -> tcp1 s a = tcp2 s a) ->
  connect_with_options_and_metadata lookup_host new_socket bind_socket tcp1 target options =
  connect_with_options_and_metadata lookup_host new_socket bind_socket tcp2 target options /\
  (forall a m,
     connect_with_options_and_metadata lookup_host new_socket bind_socket tcp1 target options
       = Ok (a, m) ->
     is_reserved_or_private_ip (sa_ip a) = false).
Proof.
  intros Hg Ht. unfold connect_with_options_and_metadata.
  destruct (resolve_target _ _ _ _) as [addrs|e|] eqn:E; cbn [obind]; [|done|done].
  assert (forall a, a ∈ addrs -> is_reserved_or_private_ip (sa_ip a) = false) as Hr
    by (intros; by eapply resolve_guarded).
  split.
  - apply connect_loop_agree. eauto.
  - intros a m H. apply connect_loop_ok in H as (l & r & -> & _). apply Hr. set_solver.
Qed.

Lemma resolve_domain target dns lit d addrs a :
  host target = DomainName d ->
  lookup_host (d ++ x3a :: to_dec (tport target)) = TOk addrs ->
  a ∈ addrs -> is_reserved_or_private_ip (sa_ip a) = false ->
  resolve_target lookup_host target dns lit =
  Ok (filter (fun a => dns = false \/ is_dns_rebinding_risk (sa_ip a) = false) addrs).
Proof.
  intros Hh Hl Ha Hr. unfold resolve_target. rewrite Hh, Hl.
  destruct addrs as [|f addrs]; [set_solver|]. destruct dns.
  - rewrite (list_filter_iff (fun a => true = false \/ is_dns_rebinding_risk (sa_ip a) = false)
      (fun a => is_dns_rebinding_risk (sa_ip a) = false)) by naive_solver.
    assert (a ∈ filter (fun a => is_dns_rebinding_risk (sa_ip a) = false) (f :: addrs)) as Hf
      by by apply list_elem_of_filter.
    destruct (filter _ (f :: addrs)); [set_solver|done].
  - f_equal. symmetry. apply filter_all. by left.
Qed.

(** A target is reached whenever one of its admissible addresses accepts
    the connection: for a domain name the guard drops the reserved answers and
    keeps the others, so one reachable public answer among reserved ones is
    enough, and the first that connects is used. *)
Theorem connect_reaches_admissible target options tcp a addrs d :
  host target = DomainName d ->
  lookup_host (d ++ x3a :: to_dec (tport target)) = TOk addrs ->
  a ∈ addrs -> is_reserved_or_private_ip (sa_ip a) = false ->
  is_ok (dial new_socket bind_socket tcp (local_bind options) a) = true ->
  exists b m l r,
    connect_with_options_and_metadata lookup_host new_socket bind_socket tcp target options
      = Ok (b, m) /\
    addrs = l ++ b :: r /\
    Forall (fun c =>
      is_ok (dial new_socket bind_socket tcp (local_bind options) c) = false \/
      enforce_dns_rebinding_check options = true /\ is_reserved_or_private_ip (sa_ip c) = true) l.
Proof.
  intros Hh Hl Ha Hr Hok. unfold connect_with_options_and_metadata.
  rewrite (resolve_domain _ _ _ d addrs a) by done. cbn [obind]. unfold connect_to_addrs.
  destruct (connect_loop_total tcp (local_bind options) None
    (filter (fun a => enforce_dns_rebinding_check options = false \/
                      is_dns_rebinding_risk (sa_ip a) = false) addrs) a) as [[b m] Hc];
    [apply list_elem_of_filter; auto|done|].
  rewrite Hc. apply connect_loop_ok in Hc as (l & r & Hf & _ & Hl').
  apply filter_split in Hf as (l0 & r0 & -> & Hl0).
  exists b, m, l0, r0. split; [done|]. split; [done|]. apply Forall_forall. intros c Hc.
  destruct (is_dns_rebinding_risk (sa_ip c)) eqn:Er, (enforce_dns_rebinding_check options) eqn:Eo;
    try (left; rewrite Forall_forall in Hl'; apply Hl'; rewrite <- Hl0;
         apply list_elem_of_filter; tauto).
  by right.
Qed.
End connect_proofs.

(** Name service and network of the witnesses: two answers, the first private. *)
Definition demo_lookup (_ : bytes) : timed (list SocketAddr) :=
  TOk [{| sa_ip := V4 [x0a; x00; x00; x01]; sa_port := 443 |};
       {| sa_ip := V4 [x08; x08; x08; x08]; sa_port := 443 |}].
Definition demo_connect (_ : option (bool * SocketAddr)) (a : SocketAddr) : timed ConnectionMetadata :=
  TOk {| local_addr := None; peer_addr := Some a |}.
Definition demo_domain_target : TargetAddr :=
  {| host := DomainName (str "example.com"); tport := 443 |}.

Lemma connect_never_dials_reserved_witness :
  connect_with_options_and_metadata demo_lookup (fun _ => None) (fun _ _ => None) demo_connect
    demo_domain_target ConnectOptions_default =
  connect_with_options_and_metadata demo_lookup (fun _ => None) (fun _ _ => None)
    (fun s a => if is_reserved_or_private_ip (sa_ip a) then TErr 111 else demo_connect s a)
    demo_domain_target ConnectOptions_default.
Proof.
  refine (proj1 (connect_never_dials_reserved demo_lookup (fun _ => None) (fun _ _ => None)
    demo_domain_target ConnectOptions_default demo_connect
    (fun s a => if is_reserved_or_private_ip (sa_ip a) then TErr 111 else demo_connect s a) _ _)).
  - reflexivity.
  - intros a s H. by rewrite H.
Defined.

Lemma connect_reaches_admissible_witness :
  exists b m l r,
    connect_with_options_and_metadata demo_lookup (fun _ => None) (fun _ _ => None) demo_connect
      demo_domain_target ConnectOptions_default = Ok (b, m) /\
    [{| sa_ip := V4 [x0a; x00; x00; x01]; sa_port := 443 |};
     {| sa_ip := V4 [x08; x08; x08; x08]; sa_port := 443 |}] = l ++ b :: r /\
    Forall (fun c =>
      is_ok (dial (fun _ => None) (fun _ _ => None) demo_connect None c) = false \/
      true = true /\ is_reserved_or_private_ip (sa_ip c) = true) l.
Proof.
  apply (connect_reaches_admissible demo_lookup (fun _ => None) (fun _ _ => None)
    demo_domain_target ConnectOptions_default demo_connect
    {| sa_ip := V4 [x08; x08; x08; x08]; sa_port := 443 |} _ (str "example.com"));
    try reflexivity.
  apply list_elem_of_further, list_elem_of_here.
Defined.
