(* ===== verification/Socks4.v ===== *)
(** * SOCKS4 and SOCKS4a

    [eggress-protocol-socks/src/socks4/{mod,error,server,client}.rs]: the request
    reader and the reply of the server, and the client, on the byte streams of
    [Stream.v]. *)

From S2P Require Import Prelude Bytes Decimal Stream NetAddr Connector.

Definition MAX_USER_ID_LEN : nat := 255.
Definition MAX_DOMAIN_LEN : nat := 255.

Inductive Malformed := EofUserId | Utf8UserId | EofDomain | Utf8Domain | EmptyDomain4a.

Inductive Socks4Error :=
| S4Io (e : IoError)
| S4InvalidVersion (v : byte)
| S4UnsupportedCommand (c : byte)
| S4ConnectionRefused
| S4ConnectionFailed
| S4FailedNoIdent
| S4FailedDifferentUser
| S4UnknownStatus (s : byte)
| S4UserIdTooLong
| S4MalformedRequest (m : Malformed)
| S4DomainTooLong
| S4UnsupportedAddressType.

#[export] Instance Socks4Error_from_io : FromIo Socks4Error := S4Io.

Inductive Socks4Status := Granted | Failed | FailedNoIdent | FailedDifferentUser.

Definition status_u8 (s : Socks4Status) : byte :=
  match s with Granted => x5a | Failed => x5b | FailedNoIdent => x5c | FailedDifferentUser => x5d end.

Definition status_from_u8 (v : byte) : option Socks4Status :=
  if v =b x5a then Some Granted
  else if v =b x5b then Some Failed
  else if v =b x5c then Some FailedNoIdent
  else if v =b x5d then Some FailedDifferentUser
  else None.

Record Socks4Request := {
  s4_command : byte;
  s4_port : Z;
  s4_addr : SocketAddr;
  s4_user_id : bytes;
  s4_domain : option bytes
}.

(** ** Server *)

(** One of the two byte-at-a-time loops, with the field read so far.  A field is
    at most [max] bytes long, so [max + 2] turns are enough. *)
Fixpoint read_nul_loop (fuel max : nat) (too_long eof : Socks4Error) (field : bytes) : M Socks4Error bytes :=
  match fuel with
  | O => fun c => (Panic, c)
  | S fuel' =>
      if max <? length field then mthrow too_long
      else
        let! o := read_byte_opt in
        match o with
        | None => mthrow eof
        | Some b =>
            if b =b x00 then mret field
            else read_nul_loop fuel' max too_long eof (field ++ [b])
        end
  end.
Definition read_nul (max : nat) (too_long eof : Socks4Error) : M Socks4Error bytes :=
  read_nul_loop (max + 2) max too_long eof [].

(** [0.0.0.x] with [x] not zero. *)
Definition is_socks4a (ip : bytes) : bool :=
  match ip with
  | [a; b; c; d] => (a =b x00) && (b =b x00) && (c =b x00) && negb (d =b x00)
  | _ => false
  end.

Definition read_socks4_request : M Socks4Error Socks4Request :=
  let! header := read_exact 8 in
  match header with
  | [version; command; p0; p1; a; b; c; d] =>
      if negb (version =b x04) then mthrow (S4InvalidVersion version)
      else if negb (command =b x01) then mthrow (S4UnsupportedCommand command)
      else
        let port := u16_from_be p0 p1 in
        let ip := [a; b; c; d] in
        let! user_id_bytes := read_nul MAX_USER_ID_LEN S4UserIdTooLong (S4MalformedRequest EofUserId) in
        let! user_id := mlift (from_utf8 (S4MalformedRequest Utf8UserId) user_id_bytes) in
        let! domain :=
          if is_socks4a ip then
            let! domain_bytes := read_nul MAX_DOMAIN_LEN S4DomainTooLong (S4MalformedRequest EofDomain) in
            let! domain := mlift (from_utf8 (S4MalformedRequest Utf8Domain) domain_bytes) in
            if bool_decide (domain = []) then mthrow (S4MalformedRequest EmptyDomain4a)
            else mret (Some domain)
          else mret None in
        mret {| s4_command := command; s4_port := port;
                s4_addr := {| sa_ip := V4 ip; sa_port := port |};
                s4_user_id := user_id; s4_domain := domain |}
  | _ => fun c => (Panic, c)
  end.

Definition write_socks4_reply (status : Socks4Status) (addr : SocketAddr) : M Socks4Error unit :=
  let ip := match sa_ip addr with V4 o => o | V6 _ => [x00; x00; x00; x00] end in
  write_all ([x00; status_u8 status] ++ u16_to_be (sa_port addr) ++ ip) ;; flush.

(** ** Client *)

Definition socks4_connect (target : TargetAddr) (user_id : option bytes) : M Socks4Error unit :=
  if match user_id with Some uid => MAX_USER_ID_LEN <? length uid | None => false end
  then mthrow S4UserIdTooLong
  else if match host target with DomainName domain => MAX_DOMAIN_LEN <? length domain | Ip _ => false end
  then mthrow S4DomainTooLong
  else
    let request := [x04; x01] ++ u16_to_be (tport target) in
    let! request :=
      match host target with
      | Ip (V4 o) => mret (request ++ o)
      | Ip (V6 _) => mthrow S4UnsupportedAddressType
      | DomainName _ => mret (request ++ [x00; x00; x00; x01])
      end in
    let request := request ++ default [] user_id ++ [x00] in
    let request :=
      match host target with
      | DomainName domain => request ++ domain ++ [x00]
      | Ip _ => request
      end in
    write_all request ;;
    let! reply := read_exact 8 in
    match reply with
    | version :: status :: _ =>
        if negb (version =b x00) then mthrow (S4InvalidVersion version)
        else match status_from_u8 status with
        | Some Granted => mret tt
        | Some Failed => mthrow S4ConnectionFailed
        | Some FailedNoIdent => mthrow S4FailedNoIdent
        | Some FailedDifferentUser => mthrow S4FailedDifferentUser
        | None => mthrow (S4UnknownStatus status)
        end
    | _ => fun c => (Panic, c)
    end.

(** ** NUL-terminated fields *)

Definition field_ok (max : nat) (l : bytes) : Prop := x00 ∉ l /\ length l <= max.

Lemma read_nul_loop_io fuel max e1 e2 field c l c' :
  read_nul_loop fuel max e1 e2 field c = (Ok l, c') ->
  exists r, l = field ++ r /\ x00 ∉ r /\ length l <= max /\ io (r ++ [x00]) [] c c' /\ c_quota c' = c_quota c.
Proof.
  revert field c. induction fuel as [|fuel IH]; intros field c; [done|]. cbn [read_nul_loop].
  destruct (Nat.ltb_spec max (length field)) as [Hm|Hm]; [done|].
  intros H. apply mbind_ok in H as (o & c1 & Hr & H). unfold read_byte_opt in Hr.
  destruct (c_in c) as [|b i] eqn:Ei; [destruct (c_end c); [done|]; injection Hr as <- <-; done|].
  injection Hr as <- <-. destruct (b =b x00) eqn:Eb.
  - injection H as <- <-. apply byte_eqb_true in Eb as ->. exists []. rewrite app_nil_r.
    split_and!; [done|set_solver|done| |done]. unfold io. cbn. rewrite Ei, app_nil_r. done.
  - apply IH in H as (r & -> & Hn & Hl & (Hi & Ho & He) & Hq). apply byte_eqb_false in Eb.
    exists (b :: r). rewrite <- app_assoc. cbn in *.
    split_and!; [done|set_solver| | |done].
    + rewrite length_app in Hl |- *. cbn in *. rewrite length_app in Hl. cbn in Hl. lia.
    + unfold io. cbn. rewrite Ei, Hi. done.
Qed.

Lemma read_nul_loop_fwd fuel max e1 e2 field r rest e o q :
  x00 ∉ r -> length (field ++ r) <= max -> length r < fuel ->
  read_nul_loop fuel max e1 e2 field (Conn (r ++ x00 :: rest) e o q) = (Ok (field ++ r), Conn rest e o q).
Proof.
  revert field r. induction fuel as [|fuel IH]; intros field r Hn Hl Hf; [lia|]. cbn [read_nul_loop].
  rewrite length_app in Hl. destruct (Nat.ltb_spec max (length field)) as [Hm|Hm]; [lia|].
  destruct r as [|b r]; unfold mbind, read_byte_opt; cbn [app c_in set_in c_end c_out c_quota].
  - rewrite byte_eqb_refl, app_nil_r. done.
  - assert (b =b x00 = false) as -> by (apply byte_eqb_false; set_solver).
    unfold set_in. cbn [c_end c_out c_quota]. rewrite IH.
    + by rewrite <- app_assoc.
    + set_solver.
    + rewrite !length_app in *. cbn in *. lia.
    + cbn in Hf. lia.
Qed.

Lemma read_nul_fwd max e1 e2 r rest e o q :
  field_ok max r -> read_nul max e1 e2 (Conn (r ++ x00 :: rest) e o q) = (Ok r, Conn rest e o q).
Proof. intros [Hn Hl]. unfold read_nul. rewrite read_nul_loop_fwd by (done || (cbn; lia)). done. Qed.

Lemma read_nul_loop_no_panic fuel max e1 e2 field c :
  max + 2 <= fuel + length field -> length field <= max + 1 ->
  (read_nul_loop fuel max e1 e2 field c).1 <> Panic.
Proof.
  revert field c. induction fuel as [|fuel IH]; intros field c Hf Hl; [cbn in Hf; lia|].
  cbn [read_nul_loop]. destruct (Nat.ltb_spec max (length field)) as [Hm|Hm]; [done|].
  unfold mbind, read_byte_opt. destruct (c_in c) as [|b i]; [by destruct (c_end c)|].
  destruct (b =b x00); [done|]. apply IH; rewrite length_app; cbn; lia.
Qed.

Lemma read_nul_no_panic max e1 e2 c : (read_nul max e1 e2 c).1 <> Panic.
Proof. apply read_nul_loop_no_panic; cbn; lia. Qed.

(** ** Requests on the wire *)

Definition s4_wire (r : Socks4Request) : bytes :=
  [x04; x01] ++ u16_to_be (s4_port r) ++ match sa_ip (s4_addr r) with V4 o => o | V6 o => o end ++
  s4_user_id r ++ [x00] ++ match s4_domain r with Some d => d ++ [x00] | None => [] end.

(** The requests a client can make: a domain exactly with the [0.0.0.x] marker. *)
Definition s4_wf (r : Socks4Request) : Prop :=
  s4_command r = x01 /\ is_u16 (s4_port r) /\ sa_port (s4_addr r) = s4_port r /\
  (exists ip, sa_ip (s4_addr r) = V4 ip /\ length ip = 4 /\
     match s4_domain r with
     | Some d => is_socks4a ip = true /\ d <> [] /\ field_ok MAX_DOMAIN_LEN d /\ utf8_valid d = true
     | None => is_socks4a ip = false
     end) /\
  field_ok MAX_USER_ID_LEN (s4_user_id r) /\ utf8_valid (s4_user_id r) = true.

Lemma read_socks4_fwd r rest e o q :
  s4_wf r -> read_socks4_request (Conn (s4_wire r ++ rest) e o q) = (Ok r, Conn rest e o q).
Proof.
  destruct r as [cmd port [sip sport] uid dom]. unfold s4_wf, s4_wire.
  cbn [s4_command s4_port s4_addr s4_user_id s4_domain sa_ip sa_port].
  intros (-> & Hp & -> & (ip & -> & Hip & Hd) & Hu & Huv).
  destruct ip as [|a [|b [|c [|d [|]]]]]; try done.
  set (dw := match dom with Some d => d ++ [x00] | None => [] end) in *.
  replace (([x04; x01] ++ u16_to_be port ++ [a; b; c; d] ++ uid ++ [x00] ++ dw) ++ rest)
    with ([x04; x01; Z2b (port / 256); Z2b port; a; b; c; d] ++ uid ++ x00 :: dw ++ rest) by app_norm.
  unfold read_socks4_request. erewrite mbind_fwd by by apply read_exact_fwd.
  cbv beta iota. rewrite !byte_eqb_refl. cbn [negb].
  erewrite mbind_fwd by by apply read_nul_fwd.
  erewrite mbind_fwd; [|unfold mlift; rewrite (proj2 (from_utf8_ok _ _ _)) by done; reflexivity].
  change (u16_from_be (Z2b (port / 256)) (Z2b port)) with
    (match u16_to_be port with [h; l] => u16_from_be h l | _ => 0%Z end). cbn [u16_to_be].
  rewrite u16_from_to by done.
  erewrite mbind_fwd; [reflexivity|]. destruct dom as [dm|]; unfold dw.
  - destruct Hd as (-> & Hne & Hf & Hv). rewrite <- app_assoc. cbn [app].
    erewrite mbind_fwd by by apply read_nul_fwd.
    erewrite mbind_fwd; [|unfold mlift; rewrite (proj2 (from_utf8_ok _ _ _)) by done; reflexivity].
    by rewrite bool_decide_eq_false_2.
  - by rewrite Hd.
Qed.

Lemma read_socks4_io c r c' :
  read_socks4_request c = (Ok r, c') -> s4_wf r /\ io (s4_wire r) [] c c' /\ c_quota c' = c_quota c.
Proof.
  unfold read_socks4_request. intros H. apply mbind_ok in H as (hd & c1 & H1 & H).
  assert (c_quota c1 = c_quota c) as Hq1.
  { unfold read_exact in H1. destruct (_ <=? _)%nat; [|done]. by injection H1 as _ <-. }
  apply read_exact_io in H1 as [Hl H1].
  destruct hd as [|v [|cm [|p0 [|p1 [|a [|b [|x [|d [|]]]]]]]]]; try done.
  destruct (v =b x04) eqn:Ev; [|done]. destruct (cm =b x01) eqn:Ec; [|done]. cbn [negb] in H.
  apply byte_eqb_true in Ev as ->. apply byte_eqb_true in Ec as ->.
  apply mbind_ok in H as (uid & c2 & H2 & H). apply read_nul_loop_io in H2 as (? & -> & Hn & Hu & H2 & Hq2).
  apply mbind_ok in H as (uid' & c3 & H3 & H). unfold mlift in H3. injection H3 as H3 <-.
  apply from_utf8_ok in H3 as [Hv ->].
  apply mbind_ok in H as (dom & c4 & H4 & H). injection H as <- <-. unfold s4_wf, s4_wire.
  cbn [s4_command s4_port s4_addr s4_user_id s4_domain sa_ip sa_port app] in *.
  rewrite u16_to_from.
  assert (forall P Q, P /\ Q -> (x01 = x01 /\ is_u16 (u16_from_be p0 p1) /\ u16_from_be p0 p1 = u16_from_be p0 p1 /\
     P /\ field_ok MAX_USER_ID_LEN x0 /\ utf8_valid x0 = true) /\ Q) as Hsplit.
  { intros P Q [??]. split_and!; auto with egg; split; done. }
  apply Hsplit. destruct (is_socks4a [a; b; x; d]) eqn:E4.
  - apply mbind_ok in H4 as (dm & c5 & H5 & H4). apply read_nul_loop_io in H5 as (? & -> & Hn5 & Hu5 & H5 & Hq5).
    apply mbind_ok in H4 as (dm' & c6 & H6 & H4). unfold mlift in H6. injection H6 as H6 <-.
    apply from_utf8_ok in H6 as [Hv6 ->]. case_bool_decide as Hne; [done|]. injection H4 as <- <-.
    split; [exists [a; b; x; d]; do 2 (split; [done|]); rewrite E4; by repeat split|].
    split; [io_done|congruence].
  - injection H4 as <- <-. split; [by exists [a; b; x; d]|]. split; [io_done|congruence].
Qed.

Lemma read_socks4_no_panic c : (read_socks4_request c).1 <> Panic.
Proof.
  unfold read_socks4_request. apply mbind_no_panic; [unfold read_exact; by destruct (_ <=? _)|].
  intros hd c1 H1. apply read_exact_io in H1 as [Hl _].
  destruct hd as [|v [|cm [|p0 [|p1 [|a [|b [|x [|d [|]]]]]]]]]; try done.
  destruct (negb (v =b x04)); [done|]. destruct (negb (cm =b x01)); [done|].
  apply mbind_no_panic; [apply read_nul_no_panic|]. intros uid c2 _.
  apply mbind_no_panic; [cbn; unfold from_utf8; by destruct (utf8_valid uid)|]. intros uid' c3 _.
  apply mbind_no_panic; [|done]. destruct (is_socks4a _); [|done].
  apply mbind_no_panic; [apply read_nul_no_panic|]. intros dm c4 _.
  apply mbind_no_panic; [cbn; unfold from_utf8; by destruct (utf8_valid dm)|]. intros dm' c5 _.
  by case_bool_decide.
Qed.

(** The SOCKS4 request reader never panics, accepts exactly the wire forms
    of well-formed CONNECT requests, returns the request whose wire form it
    read, and leaves the bytes after it for the tunnel. *)
Theorem socks4_request_exact c :
  (read_socks4_request c).1 <> Panic /\
  forall r c', read_socks4_request c = (Ok r, c') <->
    s4_wf r /\ c_in c = s4_wire r ++ c_in c' /\ c' = set_in c (c_in c').
Proof.
  split; [apply read_socks4_no_panic|]. intros r c'. split.
  - intros H. apply read_socks4_io in H as (Hw & (Hi & Ho & He) & Hq). split_and!; [done|done|].
    destruct c', c; cbn in *. rewrite app_nil_r in Ho. by subst.
  - intros (Hw & Hi & ->). destruct c as [i e o q]. cbn in *. rewrite Hi. by apply read_socks4_fwd.
Qed.

(** ** Client and server *)

(** What the server reads from the client's bytes. *)
Definition s4_request_of (target : TargetAddr) (user_id : option bytes) : Socks4Request :=
  {| s4_command := x01; s4_port := tport target;
     s4_addr := {| sa_ip := match host target with
                            | Ip ip => ip
                            | DomainName _ => V4 [x00; x00; x00; x01]
                            end; sa_port := tport target |};
     s4_user_id := default [] user_id;
     s4_domain := match host target with DomainName d => Some d | Ip _ => None end |}.

Definition reply_bytes (status : Socks4Status) (bind : SocketAddr) : bytes :=
  [x00; status_u8 status] ++ u16_to_be (sa_port bind) ++
  match sa_ip bind with V4 o => o | V6 _ => [x00; x00; x00; x00] end.

Lemma status_roundtrip s : status_from_u8 (status_u8 s) = Some s.
Proof. by destruct s. Qed.

Definition client_result (s : Socks4Status) : outcome Socks4Error unit :=
  match s with
  | Granted => Ok tt
  | Failed => Err S4ConnectionFailed
  | FailedNoIdent => Err S4FailedNoIdent
  | FailedDifferentUser => Err S4FailedDifferentUser
  end.

(** What a client writes, whatever it is asked for, and how it takes the reply. *)
Lemma socks4_connect_fwd target uid status bind rest e o :
  length (default [] uid) <= MAX_USER_ID_LEN ->
  match host target with DomainName d => length d <= MAX_DOMAIN_LEN | Ip (V4 _) => True | Ip (V6 _) => False end ->
  ip_wf (sa_ip bind) ->
  socks4_connect target uid (Conn (reply_bytes status bind ++ rest) e o None) =
  (client_result status, Conn rest e (o ++ s4_wire (s4_request_of target uid)) None).
Proof.
  intros Hu Hh Hb. unfold socks4_connect.
  assert (match uid with Some u => MAX_USER_ID_LEN <? length u | None => false end = false) as ->.
  { destruct uid; [|done]. apply Nat.ltb_ge. done. }
  assert (match host target with DomainName d => MAX_DOMAIN_LEN <? length d | Ip _ => false end = false) as ->.
  { destruct (host target); [done|]. by apply Nat.ltb_ge. }
  assert (exists l, reply_bytes status bind = x00 :: status_u8 status :: l /\ length l = 6) as (l & -> & Hl).
  { unfold reply_bytes. eexists. split; [reflexivity|]. rewrite length_app, u16_to_be_length.
    destruct (sa_ip bind); cbn in *; [by rewrite Hb|done]. }
  assert (forall w, (write_all (E:=Socks4Error) w ;; let! reply := read_exact 8 in
    match reply with
    | version :: s :: _ =>
        if negb (version =b x00) then mthrow (S4InvalidVersion version)
        else match status_from_u8 s with
        | Some Granted => mret tt
        | Some Failed => mthrow S4ConnectionFailed
        | Some FailedNoIdent => mthrow S4FailedNoIdent
        | Some FailedDifferentUser => mthrow S4FailedDifferentUser
        | None => mthrow (S4UnknownStatus s)
        end
    | _ => fun c => (Panic, c)
    end) (Conn ((x00 :: status_u8 status :: l) ++ rest) e o None) =
    (client_result status, Conn rest e (o ++ w) None)) as Htail.
  { intros w. erewrite mbind_fwd by apply write_all_fwd.
    erewrite mbind_fwd by (apply read_exact_fwd; cbn; lia). cbv beta iota.
    rewrite byte_eqb_refl, status_roundtrip. by destruct status. }
  unfold s4_wire, s4_request_of. destruct target as [[[a|a]|d] p];
    cbn [host tport s4_port s4_addr s4_user_id s4_domain sa_ip] in Hh |- *; [|done|];
    (erewrite mbind_fwd; [rewrite Htail|reflexivity]); do 2 f_equal; app_norm.
Qed.

(** The SOCKS4 client and server understand each other: the bytes the client
    writes for a request with a SOCKS4 form make the server read that very
    request, and the client's result is the status the server replied with. *)
Theorem socks4_client_server target uid status bind rest :
  s4_wf (s4_request_of target uid) -> ip_wf (sa_ip bind) ->
  exists sent,
    read_socks4_request (Conn (sent ++ rest) None [] None) =
      (Ok (s4_request_of target uid), Conn rest None [] None) /\
    write_socks4_reply status bind (Conn rest None [] None) =
      (Ok tt, Conn rest None (reply_bytes status bind) None) /\
    socks4_connect target uid (Conn (reply_bytes status bind) None [] None) =
      (client_result status, Conn [] None sent None).
Proof.
  intros Hw Hb. exists (s4_wire (s4_request_of target uid)). split; [by apply read_socks4_fwd|].
  split; [done|]. rewrite <- (app_nil_r (reply_bytes status bind)). apply (socks4_connect_fwd _ _ _ _ [] None []); [| |done].
  - by destruct Hw as (_ & _ & _ & _ & [_ ?] & _).
  - destruct Hw as (_ & _ & _ & (ip & Hip & _ & Hd) & _). unfold s4_request_of in *. cbn in *.
    destruct (host target) as [[|]|d]; [done|done|]. by destruct Hd as (_ & _ & [_ ?] & _).
Qed.

(** The client does not look for NUL bytes: asked for a domain with one inside,
    it sends bytes that the server reads as a request for the part before the
    NUL, and the part after it becomes the first bytes of the tunnel. *)
Theorem socks4_nul_splits_domain d1 d2 port uid bind rest :
  is_u16 port -> field_ok MAX_USER_ID_LEN (default [] uid) -> utf8_valid (default [] uid) = true ->
  d1 <> [] -> x00 ∉ d1 -> utf8_valid d1 = true -> length (d1 ++ x00 :: d2) <= MAX_DOMAIN_LEN ->
  ip_wf (sa_ip bind) ->
  exists sent,
    socks4_connect {| host := DomainName (d1 ++ x00 :: d2); tport := port |} uid
      (Conn (reply_bytes Granted bind) None [] None) = (Ok tt, Conn [] None sent None) /\
    read_socks4_request (Conn (sent ++ rest) None [] None) =
      (Ok (s4_request_of {| host := DomainName d1; tport := port |} uid),
       Conn (d2 ++ [x00] ++ rest) None [] None).
Proof.
  intros Hp Hu Huv Hne Hn Hv Hl Hb.
  exists (s4_wire (s4_request_of {| host := DomainName (d1 ++ x00 :: d2); tport := port |} uid)). split.
  - rewrite <- (app_nil_r (reply_bytes Granted bind)). apply (socks4_connect_fwd _ uid Granted bind [] None []); [apply Hu|done|done].
  - rewrite <- (read_socks4_fwd (s4_request_of {| host := DomainName d1; tport := port |} uid)
      (d2 ++ [x00] ++ rest) None [] None).
    + do 2 f_equal. unfold s4_wire, s4_request_of. cbn [s4_port s4_addr s4_user_id s4_domain sa_ip host tport].
      app_norm.
    + unfold s4_wf, s4_request_of. cbn. rewrite length_app in Hl. cbn in Hl.
      do 3 (split; [done|]). split; [|done]. exists [x00; x00; x00; x01].
      split_and!; try done. split; [done|]. unfold MAX_DOMAIN_LEN in *. lia.
Qed.

Definition demo_bind : SocketAddr := {| sa_ip := V4 [x7f; x00; x00; x01]; sa_port := 1080 |}.

Lemma socks4_client_server_witness :
  exists sent,
    read_socks4_request (Conn (sent ++ str "GET") None [] None) =
      (Ok (s4_request_of demo_domain_target (Some (str "me"))), Conn (str "GET") None [] None) /\
    write_socks4_reply Failed demo_bind (Conn (str "GET") None [] None) =
      (Ok tt, Conn (str "GET") None (reply_bytes Failed demo_bind) None) /\
    socks4_connect demo_domain_target (Some (str "me")) (Conn (reply_bytes Failed demo_bind) None [] None) =
      (client_result Failed, Conn [] None sent None).
Proof.
  apply (socks4_client_server demo_domain_target (Some (str "me")) Failed demo_bind (str "GET")).
  - split; [reflexivity|]. split; [split; vm_compute; [intros ?; discriminate|reflexivity]|].
    split; [reflexivity|]. split.
    + exists [x00; x00; x00; x01]. split; [reflexivity|]. split; [reflexivity|]. split; [reflexivity|].
      split; [discriminate|]. split; [|reflexivity]. split; [|apply Nat.leb_le; vm_compute; reflexivity].
      vm_compute. intros H. repeat (apply elem_of_cons in H as [H|H]; [discriminate H|]). inversion H.
    + split; [|reflexivity]. split; [|apply Nat.leb_le; vm_compute; reflexivity].
      vm_compute. intros H. repeat (apply elem_of_cons in H as [H|H]; [discriminate H|]). inversion H.
  - reflexivity.
Defined.

Lemma socks4_nul_splits_domain_witness :
  exists sent,
    socks4_connect {| host := DomainName (str "evil.example" ++ x00 :: str ".trusted.example"); tport := 80 |} None
      (Conn (reply_bytes Granted demo_bind) None [] None) = (Ok tt, Conn [] None sent None) /\
    read_socks4_request (Conn (sent ++ []) None [] None) =
      (Ok (s4_request_of {| host := DomainName (str "evil.example"); tport := 80 |} None),
       Conn (str ".trusted.example" ++ [x00] ++ []) None [] None).
Proof.
  apply (socks4_nul_splits_domain (str "evil.example") (str ".trusted.example") 80 None demo_bind []);
    try reflexivity.
  - split; vm_compute; [intros ?; discriminate|reflexivity].
  - split; [intros H; inversion H|apply Nat.leb_le; reflexivity].
  - discriminate.
  - vm_compute. intros H. repeat (apply elem_of_cons in H as [H|H]; [discriminate H|]). inversion H.
  - apply Nat.leb_le. vm_compute. reflexivity.
Defined.
