(* ===== verification/Dispatch.v ===== *)
(** * Protocol detection and dispatch

    [eggress-core/src/detect.rs], [replay.rs] and [dispatch.rs] with the
    detectors of the HTTP and SOCKS crates: the sniffing stream, the detection
    loop, and the protocol identifiers of [eggress-core/src/lib.rs].

    What arrives on the connection is a list of events: data in arbitrary
    segments, an I/O fault, or the expiry of the handshake deadline; the end of
    the list is the end of the stream. *)

From S2P Require Import Prelude Bytes.

(** ** Protocols (eggress-core/src/lib.rs, eggress-uri) *)

Inductive ProtocolId :=
| PHttp | PSocks4 | PSocks5 | PShadowsocks | PShadowsocksR | PTrojan | PHttp2 | PHttp3
| PQuic | PWebSocket | PRaw | PEcho | PReverse.

#[export] Instance ProtocolId_eq_dec : EqDecision ProtocolId.
Proof. solve_decision. Defined.

(** [Display for ProtocolId]. *)
Definition fmt_protocol_id (p : ProtocolId) : bytes :=
  match p with
  | PHttp => str "http" | PSocks4 => str "socks4" | PSocks5 => str "socks5"
  | PShadowsocks => str "shadowsocks" | PShadowsocksR => str "ssr" | PTrojan => str "trojan"
  | PHttp2 => str "h2" | PHttp3 => str "h3" | PQuic => str "quic"
  | PWebSocket => str "websocket" | PRaw => str "raw" | PEcho => str "echo"
  | PReverse => str "reverse"
  end.

(** ** Detectors *)

Inductive DetectResult :=
| Match (confidence : Z)
| NeedMore (minimum : nat)
| NoMatch.

(** The trait [ProtocolDetector]. *)
Record ProtocolDetector := { det_id : ProtocolId; detect : bytes -> DetectResult }.

Definition PrefixDetector (id : ProtocolId) (prefix : bytes) (min_length : nat) : ProtocolDetector :=
  {| det_id := id;
     detect data :=
       if length data <? min_length then NeedMore min_length
       else if starts_with prefix data then Match 100 else NoMatch |}.

Definition Socks4Detector : ProtocolDetector :=
  {| det_id := PSocks4;
     detect prefix :=
       match prefix with
       | [] => NeedMore 1
       | b :: _ => if b =b x04 then Match 100 else NoMatch
       end |}.

Definition Socks5Detector : ProtocolDetector :=
  {| det_id := PSocks5;
     detect prefix :=
       match prefix with
       | [] => NeedMore 1
       | b :: _ => if b =b x05 then Match 100 else NoMatch
       end |}.

Definition HTTP_METHODS : list bytes :=
  [str "GET "; str "POST "; str "PUT "; str "DELETE "; str "HEAD "; str "OPTIONS ";
   str "PATCH "; str "CONNECT "; str "TRACE "].

Fixpoint detect_methods (methods : list bytes) (prefix : bytes) : DetectResult :=
  match methods with
  | [] => NoMatch
  | m :: ms =>
      if starts_with m prefix then Match 100
      else if starts_with prefix m then NeedMore (length m)
      else detect_methods ms prefix
  end.

Definition HttpDetector : ProtocolDetector :=
  {| det_id := PHttp;
     detect prefix :=
       match prefix with
       | [] => NeedMore 1
       | _ =>
           if starts_with (str "HTTP/") prefix then
             if 5 <=? length prefix then Match 95 else NeedMore 5
           else if starts_with prefix (str "HTTP/") then NeedMore 5
           else detect_methods HTTP_METHODS prefix
       end |}.

(** ** The sniffing stream *)

Inductive arrival := Data (b : bytes) | Fault (code : Z) | Deadline.

Inductive read_error := QuotaExceeded | ReadIo (code : Z) | Elapsed.

(** One read of at most [cap] bytes from the underlying stream. *)
Definition inner_read (cap : nat) (evs : list arrival) : outcome read_error (bytes * list arrival) :=
  match evs with
  | [] => Ok ([], [])
  | Data b :: r =>
      Ok (take cap b, if length b <=? cap then r else Data (drop cap b) :: r)
  | Fault c :: _ => Err (ReadIo c)
  | Deadline :: _ => Err Elapsed
  end.

Record ReplayStream := {
  rs_inner : list arrival;
  rs_buffer : bytes;
  rs_read_pos : nat;
  rs_sniffing : bool;
  rs_max_buffer : nat
}.

Definition SNIFF_READ_CHUNK : nat := Z.to_nat 2048.

Definition with_max_buffer (evs : list arrival) (max_buffer : nat) : ReplayStream :=
  {| rs_inner := evs; rs_buffer := []; rs_read_pos := 0; rs_sniffing := true;
     rs_max_buffer := max_buffer |}.

Definition finish_sniff (s : ReplayStream) : ReplayStream :=
  {| rs_inner := rs_inner s; rs_buffer := rs_buffer s; rs_read_pos := rs_read_pos s;
     rs_sniffing := false; rs_max_buffer := rs_max_buffer s |}.

Definition buffered_remaining (s : ReplayStream) : nat := length (rs_buffer s) - rs_read_pos s.

(** [poll_read] into a buffer with room for [cap] bytes, awaited to readiness. *)
Definition replay_read (cap : nat) (s : ReplayStream) : outcome read_error (bytes * ReplayStream) :=
  let remaining := length (rs_buffer s) - rs_read_pos s in
  if 0 <? remaining then
    let to_copy := Nat.min remaining cap in
    let? out := slice (rs_buffer s) (rs_read_pos s) (rs_read_pos s + to_copy) in
    Ok (out, {| rs_inner := rs_inner s; rs_buffer := rs_buffer s;
                rs_read_pos := rs_read_pos s + to_copy; rs_sniffing := rs_sniffing s;
                rs_max_buffer := rs_max_buffer s |})
  else if rs_sniffing s then
    if rs_max_buffer s <=? length (rs_buffer s) then Err QuotaExceeded
    else
      let space := rs_max_buffer s - length (rs_buffer s) in
      let read_size := Nat.min (Nat.min space cap) SNIFF_READ_CHUNK in
      let? (got, inner) := inner_read read_size (rs_inner s) in
      let filled := length got in
      if filled =? 0 then
        Ok ([], {| rs_inner := inner; rs_buffer := rs_buffer s; rs_read_pos := rs_read_pos s;
                   rs_sniffing := true; rs_max_buffer := rs_max_buffer s |})
      else
        let buffer := rs_buffer s ++ got in
        let to_copy := Nat.min filled cap in
        let? out := slice buffer (rs_read_pos s) (rs_read_pos s + to_copy) in
        Ok (out, {| rs_inner := inner; rs_buffer := buffer;
                    rs_read_pos := rs_read_pos s + to_copy; rs_sniffing := true;
                    rs_max_buffer := rs_max_buffer s |})
  else
    let? (got, inner) := inner_read cap (rs_inner s) in
    Ok (got, {| rs_inner := inner; rs_buffer := rs_buffer s; rs_read_pos := rs_read_pos s;
                rs_sniffing := false; rs_max_buffer := rs_max_buffer s |}).

(** ** The dispatcher *)

Inductive DispatchError :=
| DTimeout | BufferOverflow (n : nat) | DNoMatch | DIo (code : Z).

(** One pass over the detectors: the first match, or the smallest demand. *)
Inductive scan_result := Found (id : ProtocolId) | NotFound (need_more_min : option nat).

Fixpoint scan (detectors : list ProtocolDetector) (prefix : bytes) (need : option nat) : scan_result :=
  match detectors with
  | [] => NotFound need
  | d :: ds =>
      match detect d prefix with
      | Match _ => Found (det_id d)
      | NeedMore minimum =>
          scan ds prefix
            (match need with
             | None => Some minimum
             | Some m => if minimum <? m then Some minimum else need
             end)
      | NoMatch => scan ds prefix need
      end
  end.

Section dispatch.
Context (detectors : list ProtocolDetector) (max_sniff : nat).

Definition READ_BUF : nat := Z.to_nat 4096.

(** The detection loop; [None] when the fuel runs out. *)
Fixpoint dispatch_loop (fuel : nat) (replay : ReplayStream) (total_read : nat)
    : option (outcome DispatchError (ProtocolId * ReplayStream)) :=
  match fuel with
  | O => None
  | S fuel' =>
      if max_sniff <=? total_read then Some (Err (BufferOverflow max_sniff))
      else
        let to_read := Nat.min (max_sniff - total_read) READ_BUF in
        match replay_read to_read replay with
        | Panic => Some Panic
        | Err QuotaExceeded => Some (Err (BufferOverflow max_sniff))
        | Err (ReadIo c) => Some (Err (DIo c))
        | Err Elapsed => Some (Err DTimeout)
        | Ok (got, replay') =>
            if length got =? 0 then Some (Err DNoMatch)
            else
              let total' := total_read + length got in
              match slice_to (E:=DispatchError) (rs_buffer replay') total' with
              | Ok prefix =>
                  match scan detectors prefix None with
                  | Found id => Some (Ok (id, finish_sniff replay'))
                  | NotFound (Some _) =>
                      if total' <? max_sniff then dispatch_loop fuel' replay' total'
                      else Some (Err (BufferOverflow max_sniff))
                  | NotFound None => Some (Err DNoMatch)
                  end
              | _ => Some Panic
              end
        end
  end.

(** Every iteration that continues reads at least one byte. *)
Definition dispatch (stream : list arrival) : option (outcome DispatchError (ProtocolId * ReplayStream)) :=
  dispatch_loop (S max_sniff) (with_max_buffer stream max_sniff) 0.

End dispatch.

(** ** Properties *)

Definition is_match (r : DetectResult) : bool := match r with Match _ => true | _ => false end.

Lemma scan_found ds p need id :
  scan ds p need = Found id ->
  exists l d r, ds = l ++ d :: r /\ id = det_id d /\ is_match (detect d p) = true /\
    Forall (fun e => is_match (detect e p) = false) l.
Proof.
  revert need. induction ds as [|d ds IH]; intros need; simpl; [done|].
  destruct (detect d p) eqn:E.
  - intros [= <-]. exists [], d, ds. by rewrite E.
  - intros H. destruct (IH _ H) as (l & d' & r & -> & -> & H1 & H2).
    exists (d :: l), d', r. do 3 (split; [done|]). constructor; [by rewrite E|done].
  - intros H. destruct (IH _ H) as (l & d' & r & -> & -> & H1 & H2).
    exists (d :: l), d', r. do 3 (split; [done|]). constructor; [by rewrite E|done].
Qed.

Lemma scan_not_found ds p need n :
  scan ds p need = NotFound n ->
  Forall (fun d => is_match (detect d p) = false) ds /\
  (n = None -> need = None /\ Forall (fun d => detect d p = NoMatch) ds).
Proof.
  revert need. induction ds as [|d ds IH]; intros need; simpl; [intros [= ->]; done|].
  destruct (detect d p) eqn:E; [done| |]; intros H; destruct (IH _ H) as [H1 H2]; split.
  - constructor; [by rewrite E|done].
  - intros Hn. destruct (H2 Hn) as [H3 _]. destruct need as [m|]; [|done].
    by destruct (_ <? m).
  - constructor; [by rewrite E|done].
  - intros Hn. destruct (H2 Hn) as [H3 H4]. split; [done|]. by constructor.
Qed.

(** The bytes of a stream; a segment is never empty. *)
Definition ev_data (e : arrival) : bytes := match e with Data b => b | _ => [] end.
Definition stream_data (evs : list arrival) : bytes := mjoin (map ev_data evs).
Definition stream_wf (evs : list arrival) : Prop := Forall (fun e => e <> Data []) evs.

Lemma inner_read_spec cap evs got evs' :
  stream_wf evs -> 0 < cap -> inner_read cap evs = Ok (got, evs') ->
  stream_wf evs' /\ stream_data evs = got ++ stream_data evs' /\ length got <= cap /\
  (got = [] -> evs = []) /\ (forall P, Forall P evs -> (forall b, P (Data b)) -> Forall P evs').
Proof.
  intros Hw Hc. destruct evs as [|[b|c|] evs]; simpl; try done.
  - intros [= <- <-]. do 2 (split; [done|]). split; [simpl; lia|]. done.
  - intros [= <- <-]. apply Forall_cons in Hw as [Hb Hw].
    assert (b <> []) by congruence. destruct (Nat.leb_spec (length b) cap).
    + rewrite take_ge by done. do 2 (split; [done|]). do 2 (split; [done|]).
      intros P HP _. by apply Forall_cons in HP as [_ ?].
    + split_and!.
      * constructor; [|done]. intros [= E]. apply (f_equal length) in E.
        rewrite length_drop in E. simpl in E. lia.
      * unfold stream_data. cbn [map mjoin list_join ev_data]. by rewrite app_assoc, take_drop.
      * rewrite length_take. lia.
      * intros E. apply (f_equal length) in E. rewrite length_take in E. simpl in E. lia.
      * intros P HP Hd. apply Forall_cons in HP as [_ ?]. by constructor.
Qed.

Section proofs.
Context (detectors : list ProtocolDetector) (max_sniff : nat).

(** While sniffing, everything delivered so far is in the buffer and
    everything in the buffer was delivered. *)
Record sniffing (data : bytes) (s : ReplayStream) (total : nat) : Prop := {
  sn_flag : rs_sniffing s = true;
  sn_pos : rs_read_pos s = total;
  sn_len : length (rs_buffer s) = total;
  sn_max : rs_max_buffer s = max_sniff;
  sn_wf : stream_wf (rs_inner s);
  sn_data : data = rs_buffer s ++ stream_data (rs_inner s)
}.

Lemma sniffing_start evs : stream_wf evs ->
  sniffing (stream_data evs) (with_max_buffer evs max_sniff) 0.
Proof. done. Qed.

Lemma replay_read_cases data s total :
  sniffing data s total -> total < max_sniff ->
  let cap := Nat.min (max_sniff - total) READ_BUF in
  (exists got s', replay_read cap s = Ok (got, s') /\ sniffing data s' (total + length got) /\
     rs_buffer s' = rs_buffer s ++ got /\ length got <= cap /\
     (got = [] -> rs_inner s = []) /\
     (forall P, Forall P (rs_inner s) -> (forall b, P (Data b)) -> Forall P (rs_inner s'))) \/
  (exists c, replay_read cap s = Err (ReadIo c) /\ exists r, rs_inner s = Fault c :: r) \/
  (replay_read cap s = Err Elapsed /\ exists r, rs_inner s = Deadline :: r).
Proof.
  intros [Hf Hp Hl Hm Hw Hd] Ht cap. unfold replay_read.
  rewrite Hp, Hl, Nat.sub_diag, Hf, Hm. cbn [Nat.ltb Nat.leb].
  rewrite (proj2 (Nat.leb_gt _ _)) by done.
  assert (0 < READ_BUF /\ 0 < SNIFF_READ_CHUNK) as [Hrb Hch] by (vm_compute; lia).
  set (rd := Nat.min (Nat.min (max_sniff - total) cap) SNIFF_READ_CHUNK).
  assert (0 < rd /\ rd <= cap) as [Hrd Hrc] by (unfold rd, cap; lia).
  destruct (inner_read rd (rs_inner s)) as [[got inner]|e|] eqn:E; cbn [obind].
  - left. destruct (inner_read_spec _ _ _ _ Hw Hrd E) as (H1 & H2 & H3 & H4 & H5).
    destruct (Nat.eqb_spec (length got) 0) as [Hg|Hg].
    + apply nil_length_inv in Hg as ->. do 2 eexists. split; [reflexivity|].
      split; [|split; [by rewrite app_nil_r|split; [simpl; lia|split; [done|done]]]].
      split; cbn; rewrite ?Nat.add_0_r; try done. by rewrite Hd, H2.
    + rewrite Nat.min_l by lia.
      assert (slice (E:=read_error) (rs_buffer s ++ got) total (total + length got) = Ok got) as ->.
      { rewrite <- (app_nil_r got) at 1. apply slice_app_mid; lia. }
      do 2 eexists. split; [reflexivity|].
      split; [|split; [done|split; [lia|split; [by intros ->|done]]]].
      split; cbn; try done; [rewrite length_app; lia|]. by rewrite Hd, H2, app_assoc.
  - right. destruct (rs_inner s) as [|[b|c|] r]; try done; injection E as <-; [left|right]; eauto.
  - exfalso. by destruct (rs_inner s) as [|[b|c|] r].
Qed.

Lemma sniffing_prefix data s total :
  sniffing data s total -> slice_to (E:=DispatchError) (rs_buffer s) total = Ok (rs_buffer s).
Proof.
  intros [_ _ Hl _ _ _]. unfold slice_to. rewrite (proj2 (Nat.leb_le _ _)) by lia.
  by rewrite take_ge by lia.
Qed.

(** What a finished dispatch hands on. *)
Definition dispatched (data : bytes) (id : ProtocolId) (s : ReplayStream) : Prop :=
  rs_sniffing s = false /\ buffered_remaining s = 0 /\
  data = rs_buffer s ++ stream_data (rs_inner s) /\
  rs_buffer s <> [] /\ length (rs_buffer s) <= max_sniff /\
  exists l d r, detectors = l ++ d :: r /\ id = det_id d /\
    is_match (detect d (rs_buffer s)) = true /\
    Forall (fun e => is_match (detect e (rs_buffer s)) = false) l.

(** Outcome of the loop from a sniffing state: a result, whatever arrives. *)
Lemma dispatch_loop_spec fuel data s total :
  sniffing data s total -> max_sniff - total < fuel ->
  match dispatch_loop detectors max_sniff fuel s total with
  | Some (Ok (id, s')) => dispatched data id s'
  | Some (Err _) => True
  | Some Panic | None => False
  end.
Proof.
  revert s total. induction fuel as [|fuel IH]; intros s total Hs Hf; [lia|].
  cbn [dispatch_loop]. destruct (Nat.leb_spec max_sniff total); [done|].
  destruct (replay_read_cases data s total Hs ltac:(done))
    as [(got & s' & -> & Hs' & Hb & Hc & He & _)|[(c & -> & _)|[-> _]]]; [|done|done].
  destruct (Nat.eqb_spec (length got) 0) as [|Hg]; [done|].
  rewrite (sniffing_prefix _ _ _ Hs').
  destruct (scan detectors (rs_buffer s') None) as [id|[n|]] eqn:Es; [| |done].
  - destruct Hs'. split_and!; cbn; try done.
    + unfold buffered_remaining. cbn. lia.
    + intros E. rewrite E in *. simpl in *. lia.
    + lia.
    + by apply scan_found in Es.
  - destruct (Nat.ltb_spec (total + length got) max_sniff); [|done].
    apply IH; [done|lia].
Qed.
End proofs.

(** Dispatch always ends with a protocol or an error, never by a panic,
    for every list of detectors, every sniff limit and every way the stream can
    behave.  When it names a protocol, the first registered detector that
    matches the sniffed bytes is the one chosen, the sniffed bytes (at most
    [max_sniff], at least one) followed by the rest of the stream are exactly
    what the client sent, and no sniffed byte is left to be delivered twice. *)
Theorem dispatch_ok detectors max_sniff evs :
  stream_wf evs ->
  match dispatch detectors max_sniff evs with
  | Some (Ok (id, s)) => dispatched detectors max_sniff (stream_data evs) id s
  | Some (Err _) => True
  | Some Panic | None => False
  end.
Proof.
  intros Hw. apply dispatch_loop_spec; [by apply sniffing_start|lia].
Qed.

(** Detectors whose verdict, once given, does not change as more bytes arrive,
    and of which no two claim the same bytes for different protocols. *)
Record coherent (ds : list ProtocolDetector) : Prop := {
  coh_empty : forall d, d ∈ ds -> is_match (detect d []) = false;
  coh_stable : forall d p q, d ∈ ds -> p <> [] -> (forall n, detect d p <> NeedMore n) ->
    is_match (detect d (p ++ q)) = is_match (detect d p);
  coh_exclusive : forall d e p, d ∈ ds -> e ∈ ds ->
    is_match (detect d p) = true -> is_match (detect e p) = true -> det_id d = det_id e
}.

Definition is_data (e : arrival) : Prop := match e with Data _ => True | _ => False end.

Section segmentation.
Context (ds : list ProtocolDetector) (max_sniff : nat) (Hcoh : coherent ds).

Lemma match_extends d p q :
  d ∈ ds -> p <> [] -> is_match (detect d p) = true -> is_match (detect d (p ++ q)) = true.
Proof.
  intros Hd Hp Hm. rewrite (coh_stable _ Hcoh); [done|done|done|]. intros n E. by rewrite E in Hm.
Qed.

Lemma no_match_extends d p q :
  d ∈ ds -> p <> [] -> detect d p = NoMatch -> is_match (detect d (p ++ q)) = false.
Proof.
  intros Hd Hp Hm. rewrite (coh_stable _ Hcoh); [by rewrite Hm|done|done|]. by rewrite Hm.
Qed.

Lemma sniffed_extends data s total :
  sniffing max_sniff data s total -> total <= max_sniff ->
  exists q, take max_sniff data = rs_buffer s ++ q /\
    (total = max_sniff \/ rs_inner s = [] -> q = []).
Proof.
  intros [_ _ Hl _ _ ->] Ht. rewrite take_app.
  rewrite take_ge by lia. eexists. split; [done|]. intros [->| ->].
  - by rewrite Hl, Nat.sub_diag.
  - apply take_nil.
Qed.

Lemma dispatch_loop_finds data d fuel s total :
  sniffing max_sniff data s total -> Forall is_data (rs_inner s) ->
  total < max_sniff -> max_sniff - total < fuel ->
  Forall (fun e => is_match (detect e (rs_buffer s)) = false) ds ->
  d ∈ ds -> is_match (detect d (take max_sniff data)) = true ->
  exists s', dispatch_loop ds max_sniff fuel s total = Some (Ok (det_id d, s')).
Proof.
  intros Hs Hdat Ht Hf Hn Hd Hm. revert s total Hs Hdat Ht Hf Hn.
  induction fuel as [|fuel IH]; intros s total Hs Hdat Ht Hf Hn; [lia|].
  cbn [dispatch_loop]. rewrite (proj2 (Nat.leb_gt _ _)) by done.
  destruct (replay_read_cases max_sniff data s total Hs Ht)
    as [(got & s' & -> & Hs' & Hb & Hc & He & Hi)|[(c & _ & r & E)|[_ [r E]]]];
    [|rewrite E in Hdat; by apply Forall_cons in Hdat as [[] _]..].
  destruct (Nat.eqb_spec (length got) 0) as [Hg|Hg].
  { exfalso. apply nil_length_inv in Hg.
    destruct (sniffed_extends _ _ _ Hs ltac:(lia)) as (q & E & Hq).
    rewrite (Hq (or_intror (He Hg))), app_nil_r in E. rewrite E in Hm.
    rewrite Forall_forall in Hn. by rewrite (Hn _ Hd) in Hm. }
  rewrite (sniffing_prefix _ _ _ _ Hs').
  destruct (sniffed_extends _ _ _ Hs' ltac:(lia)) as (q & E & Hq).
  assert (rs_buffer s' <> []) as Hne.
  { rewrite Hb. destruct got; [done|]. by destruct (rs_buffer s). }
  rewrite E in Hm.
  destruct (scan ds (rs_buffer s') None) as [id|[n|]] eqn:Es.
  - apply scan_found in Es as (l & e & r & Hl & -> & Hme & _).
    assert (e ∈ ds) as Hein by (rewrite Hl; set_solver).
    pose proof (match_extends e _ q Hein Hne Hme) as Hme'.
    rewrite (coh_exclusive _ Hcoh e d _ Hein Hd Hme' Hm). eauto.
  - apply scan_not_found in Es as [Hn' _].
    destruct (Nat.ltb_spec (total + length got) max_sniff) as [Hlt|Hge].
    + rewrite <- E in Hm. apply IH; try done; [|lia].
      apply Hi; [done|by intros b].
    + exfalso. rewrite Hq, app_nil_r in Hm by (left; lia).
      rewrite Forall_forall in Hn'. by rewrite (Hn' _ Hd) in Hm.
  - exfalso. apply scan_not_found in Es as [_ Hn']. destruct (Hn' eq_refl) as [_ Hnm].
    rewrite Forall_forall in Hnm. by rewrite (no_match_extends _ _ q Hd Hne (Hnm _ Hd)) in Hm.
Qed.

(** The protocol found does not depend on how the network splits the
    client's bytes into segments: for coherent detectors the dispatcher answers
    exactly the protocol whose detector matches the first [max_sniff] bytes of
    the stream, and an error when there is none. *)
Theorem dispatch_segmentation evs id :
  stream_wf evs -> Forall is_data evs ->
  ((exists s, dispatch ds max_sniff evs = Some (Ok (id, s))) <->
   (exists d, d ∈ ds /\ det_id d = id /\
      is_match (detect d (take max_sniff (stream_data evs))) = true)).
Proof.
  intros Hw Hdat. split.
  - intros [s H]. pose proof (dispatch_loop_spec ds max_sniff (S max_sniff) (stream_data evs)
      (with_max_buffer evs max_sniff) 0 (sniffing_start max_sniff evs Hw) ltac:(lia)) as Hd.
    unfold dispatch in H. rewrite H in Hd.
    destruct Hd as (_ & _ & Hdata & Hne & Hlen & l & d & r & Hl & -> & Hm & _).
    assert (d ∈ ds) by (rewrite Hl; set_solver). exists d. do 2 (split; [done|]).
    rewrite Hdata, take_app, take_ge by lia. by apply match_extends.
  - intros (d & Hd & <- & Hm). destruct max_sniff as [|m] eqn:Em.
    { rewrite take_0, (coh_empty _ Hcoh) in Hm; done. }
    rewrite <- Em in *. unfold dispatch.
    apply (dispatch_loop_finds (stream_data evs)); try done; [lia|lia|].
    apply Forall_forall. intros e He. by apply (coh_empty _ Hcoh).
Qed.
End segmentation.

(** The detectors of the HTTP and SOCKS listeners are coherent. *)
Lemma starts_with_app p s q : starts_with p s = true -> starts_with p (s ++ q) = true.
Proof. rewrite !starts_with_spec. intros [r ->]. exists (r ++ q). by rewrite app_assoc. Qed.

(** If neither string is a prefix of the other, extending one changes nothing. *)
Lemma starts_with_apart p s q :
  starts_with p s = false -> starts_with s p = false ->
  starts_with p (s ++ q) = false /\ starts_with (s ++ q) p = false.
Proof.
  revert s. induction p as [|a p IH]; intros [|b s]; simpl; try done.
  destruct (a =b b) eqn:E; simpl.
  - apply byte_eqb_true in E as ->. rewrite byte_eqb_refl. apply IH.
  - apply byte_eqb_false in E. rewrite (proj2 (byte_eqb_false b a)) by congruence. done.
Qed.

Lemma detect_methods_stable ms p q :
  (forall n, detect_methods ms p <> NeedMore n) ->
  is_match (detect_methods ms (p ++ q)) = is_match (detect_methods ms p).
Proof.
  induction ms as [|m ms IH]; simpl; [done|]. destruct (starts_with m p) eqn:E1.
  - by rewrite starts_with_app.
  - destruct (starts_with p m) eqn:E2; [intros H; by destruct (H (length m))|].
    destruct (starts_with_apart _ _ q E1 E2) as [-> ->]. apply IH.
Qed.

Lemma HttpDetector_stable p q :
  p <> [] -> (forall n, detect HttpDetector p <> NeedMore n) ->
  is_match (detect HttpDetector (p ++ q)) = is_match (detect HttpDetector p).
Proof.
  intros Hp. destruct p as [|b p]; [done|]. cbn [detect HttpDetector app].
  change (b :: p ++ q) with ((b :: p) ++ q). set (s := b :: p).
  destruct (starts_with (str "HTTP/") s) eqn:E1.
  - rewrite starts_with_app by done. rewrite length_app.
    destruct (Nat.leb_spec 5 (length s)); [by rewrite (proj2 (Nat.leb_le 5 _)) by lia|].
    intros H0. by destruct (H0 5).
  - destruct (starts_with s (str "HTTP/")) eqn:E2; [intros H; by destruct (H 5)|].
    destruct (starts_with_apart _ _ q E1 E2) as [-> ->]. apply detect_methods_stable.
Qed.

Lemma HttpDetector_first_byte b p :
  is_match (detect HttpDetector (b :: p)) = true -> b <> x04 /\ b <> x05.
Proof. intros H. split; intros ->; vm_compute in H; done. Qed.

Lemma listener_detectors_coherent : coherent [HttpDetector; Socks5Detector; Socks4Detector].
Proof.
  split.
  - intros d Hd. rewrite !elem_of_cons in Hd. by destruct Hd as [->|[->|[->|Hd]]]; [| | |inversion Hd].
  - intros d p q Hd Hp. rewrite !elem_of_cons in Hd.
    destruct Hd as [->|[->|[->|Hd]]]; [by apply HttpDetector_stable| | |inversion Hd];
      by destruct p.
  - intros d e [|b p] Hd He; rewrite !elem_of_cons in Hd, He;
      destruct Hd as [->|[->|[->|Hd]]]; try (by inversion Hd);
      destruct He as [->|[->|[->|He]]]; try (by inversion He); try done.
    + intros H. apply HttpDetector_first_byte in H as [? ?].
      cbn. by destruct (b =b x05) eqn:E; [apply byte_eqb_true in E|].
    + intros H. apply HttpDetector_first_byte in H as [? ?].
      cbn. by destruct (b =b x04) eqn:E; [apply byte_eqb_true in E|].
    + intros H1 H. apply HttpDetector_first_byte in H as [? ?].
      revert H1. cbn. by destruct (b =b x05) eqn:E; [apply byte_eqb_true in E|].
    + cbn. destruct (b =b x05) eqn:E; [apply byte_eqb_true in E as ->|]; done.
    + intros H1 H. apply HttpDetector_first_byte in H as [? ?].
      revert H1. cbn. by destruct (b =b x04) eqn:E; [apply byte_eqb_true in E|].
    + cbn. destruct (b =b x05) eqn:E; [apply byte_eqb_true in E as ->|]; done.
Qed.

(** A request line that arrives in three segments. *)
Definition demo_segments : list arrival :=
  [Data (str "GE"); Data (str "T / HT"); Data (str "TP/1.1")].

Lemma dispatch_segmentation_witness :
  exists s, dispatch [HttpDetector; Socks5Detector; Socks4Detector] 64 demo_segments
            = Some (Ok (PHttp, s)).
Proof.
  apply (dispatch_segmentation _ _ listener_detectors_coherent).
  - repeat constructor; discriminate.
  - repeat constructor.
  - exists HttpDetector. split; [apply list_elem_of_here|]. split; vm_compute; reflexivity.
Defined.

Lemma dispatch_ok_witness :
  match dispatch [HttpDetector; Socks5Detector; Socks4Detector] 16 demo_segments with
  | Some (Ok (id, s)) =>
      dispatched [HttpDetector; Socks5Detector; Socks4Detector] 16 (stream_data demo_segments) id s
  | Some (Err _) => True
  | Some Panic | None => False
  end.
Proof. apply dispatch_ok. repeat constructor; discriminate. Defined.
