(* ===== verification/Uri.v ===== *)
(** * Proxy URIs

    [eggress-uri/src/lib.rs] and [syntax.rs]: the grammar of proxy chains, its
    parser, the redacted display and the redaction of arbitrary URIs.

    Error messages are constructors; a message that quotes its input keeps it. *)

From S2P Require Import Prelude Bytes Decimal NetAddr Dispatch.

(** ** Protocol names *)

Inductive ProtocolSpec :=
| SHttp | SHttpOnly | SSocks4 | SSocks5 | SShadowsocks | SShadowsocksR | STrojan | SHttp2
| SHttp3 | SQuic | SWebSocket | SRaw | SSsh | SUnix.

#[export] Instance ProtocolSpec_eq_dec : EqDecision ProtocolSpec.
Proof. solve_decision. Defined.

Definition canonical_name (p : ProtocolSpec) : bytes :=
  match p with
  | SHttp => str "http" | SHttpOnly => str "httponly" | SSocks4 => str "socks4"
  | SSocks5 => str "socks5" | SShadowsocks => str "shadowsocks" | SShadowsocksR => str "ssr"
  | STrojan => str "trojan" | SHttp2 => str "h2" | SHttp3 => str "h3" | SQuic => str "quic"
  | SWebSocket => str "ws" | SRaw => str "raw" | SSsh => str "ssh" | SUnix => str "unix"
  end.

Definition name_table : list (string * ProtocolSpec) :=
  [("http", SHttp); ("httponly", SHttpOnly); ("socks4", SSocks4); ("socks4a", SSocks4);
   ("socks5", SSocks5); ("shadowsocks", SShadowsocks); ("ss", SShadowsocks);
   ("ssr", SShadowsocksR); ("trojan", STrojan); ("h2", SHttp2); ("h3", SHttp3);
   ("quic", SQuic); ("ws", SWebSocket); ("wss", SWebSocket); ("raw", SRaw); ("tunnel", SRaw);
   ("ssh", SSsh); ("unix", SUnix)]%string.

Fixpoint lookup_name (t : list (string * ProtocolSpec)) (name : bytes) : option ProtocolSpec :=
  match t with
  | [] => None
  | (n, p) :: r => if bool_decide (str n = name) then Some p else lookup_name r name
  end.

Definition parse_name (name : bytes) : option ProtocolSpec :=
  lookup_name name_table (to_ascii_lowercase name).

Definition all_variants : list ProtocolSpec :=
  [SHttp; SHttpOnly; SSocks4; SSocks5; SShadowsocks; SShadowsocksR; STrojan; SHttp2; SHttp3;
   SQuic; SWebSocket; SRaw; SSsh; SUnix].

(** [ProtocolId::from_protocol_spec] (eggress-core/src/lib.rs). *)
Inductive ProtocolConversionError := UpstreamOnlyTransport.

Definition from_protocol_spec (spec : ProtocolSpec) : outcome ProtocolConversionError ProtocolId :=
  match spec with
  | SHttp | SHttpOnly => Ok PHttp
  | SSocks4 => Ok PSocks4
  | SSocks5 => Ok PSocks5
  | SShadowsocks => Ok PShadowsocks
  | SShadowsocksR => Ok PShadowsocksR
  | STrojan => Ok PTrojan
  | SHttp2 => Ok PHttp2
  | SHttp3 => Ok PHttp3
  | SQuic => Ok PQuic
  | SWebSocket => Ok PWebSocket
  | SRaw => Ok PRaw
  | SUnix => Ok PRaw
  | SSsh => Err UpstreamOnlyTransport
  end.

(** ** Chain specifications *)

Record EndpointSpec := { ep_host : bytes; ep_port : Z }.
Record CredentialSpec := { username : bytes; password : bytes }.

Record ProxyHopSpec := {
  protocols : list ProtocolSpec;
  endpoint : EndpointSpec;
  credentials : option CredentialSpec;
  rule : option bytes;
  local_bind_spec : option bytes;
  tls : bool;
  server_name : option bytes;
  insecure : bool;
  plugins : list bytes;
  auth_prefix : option bytes
}.

Record ProxyChainSpec := { hops : list ProxyHopSpec }.

(** ** Errors *)

Inductive SyntaxError :=
| UnmatchedCloseBracket (span : nat)
| UnmatchedCloseBrace (span : nat)
| UnmatchedOpenBracket
| UnmatchedOpenBrace
| UnterminatedIpv6Bracket
| ExpectedColonAfterBracket
| MultipleColons (endpoint : bytes)
| EmptyPort
| InvalidPortText (port_str : bytes).

Inductive FormatMessage :=
| EmptyUri | NoHopsFound | MissingScheme | EmptyProtocolList | NoProtocolSpecified
| MissingPort | MissingColonInCredentials | EmptyCredentials | InvalidUtf8 | NulByte
| FromSyntax (e : SyntaxError).

(** [hop] is the prefix that [add_hop_context] puts before the message. *)
Inductive UriParseError :=
| InvalidFormat (hop : option nat) (message : FormatMessage)
| UnsupportedProtocol (p : bytes)
| MissingHost
| UriInvalidPort (e : option SyntaxError)    (* None: port cannot be 0 *)
| EmptyHost
| DuplicateHopSeparator.

(** ** Shared lexical primitives (syntax.rs) *)

(** [u32] nesting depths. *)
Definition sat_add (d : Z) : Z := Z.min (d + 1) (2 ^ 32 - 1).
Definition sat_sub (d : Z) : Z := Z.max (d - 1) 0.

Definition depth_step (c : byte) (d : Z * Z) : Z * Z :=
  let '(bracket, brace) := d in
  if c =b x5b then (sat_add bracket, brace)
  else if c =b x5d then (sat_sub bracket, brace)
  else if c =b x7b then (bracket, sat_add brace)
  else if c =b x7d then (bracket, sat_sub brace)
  else (bracket, brace).

Definition top_level (d : Z * Z) : bool := (d.1 =? 0)%Z && (d.2 =? 0)%Z.

Fixpoint find_userinfo_loop (i : nat) (d : Z * Z) (last_at : option nat) (s : bytes) : option nat :=
  match s with
  | [] => last_at
  | c :: r =>
      find_userinfo_loop (S i) (depth_step c d)
        (if (c =b x40) && top_level d then Some i else last_at) r
  end.
Definition find_userinfo_separator (s : bytes) : option nat :=
  find_userinfo_loop 0 (0, 0)%Z None s.

Fixpoint split_outside_loop (delim : byte) (d : Z * Z) (seen : bytes) (s : bytes)
    : bytes * option bytes :=
  match s with
  | [] => (seen, None)
  | c :: r =>
      let d' := depth_step c d in
      if (c =b delim) && top_level d' then (seen, Some r)
      else split_outside_loop delim d' (seen ++ [c]) r
  end.
Definition split_once_outside_brackets (s : bytes) (delim : byte) : bytes * option bytes :=
  split_outside_loop delim (0, 0)%Z [] s.

(** [split_chain_hops] from position [i]; [cur] is the current segment. *)
Fixpoint split_hops_loop (i : nat) (bracket brace : Z) (cur : bytes) (s : bytes)
    : outcome SyntaxError (list bytes) :=
  match s with
  | [] =>
      if negb (bracket =? 0)%Z then Err UnmatchedOpenBracket
      else if negb (brace =? 0)%Z then Err UnmatchedOpenBrace
      else Ok [cur]
  | c :: r =>
      if c =b x5b then split_hops_loop (S i) (sat_add bracket) brace (cur ++ [c]) r
      else if c =b x5d then
        if (bracket =? 0)%Z then Err (UnmatchedCloseBracket i)
        else split_hops_loop (S i) (bracket - 1) brace (cur ++ [c]) r
      else if c =b x7b then split_hops_loop (S i) bracket (sat_add brace) (cur ++ [c]) r
      else if c =b x7d then
        if (brace =? 0)%Z then Err (UnmatchedCloseBrace i)
        else split_hops_loop (S i) bracket (brace - 1) (cur ++ [c]) r
      else match r with
      | c' :: r' =>
          if (c =b x5f) && (c' =b x5f) && (bracket =? 0)%Z && (brace =? 0)%Z then
            let? rest := split_hops_loop (S (S i)) bracket brace [] r' in
            Ok (cur :: rest)
          else split_hops_loop (S i) bracket brace (cur ++ [c]) r
      | [] => split_hops_loop (S i) bracket brace (cur ++ [c]) r
      end
  end.
Definition split_chain_hops (s : bytes) : outcome SyntaxError (list bytes) :=
  split_hops_loop 0 0 0 [] s.

Record HostPort := { hp_host : bytes; hp_port : option Z; port_specified : bool }.

Definition parse_port_str (port_str : bytes) : outcome SyntaxError Z :=
  match port_str with
  | [] => Err EmptyPort
  | _ => ok_or (InvalidPortText port_str) (parse_u16 port_str)
  end.

Definition parse_host_port (ep : bytes) : outcome SyntaxError HostPort :=
  match ep with
  | [] => Ok {| hp_host := []; hp_port := None; port_specified := false |}
  | b :: rest =>
      if b =b x5b then
        let? close := ok_or UnterminatedIpv6Bracket (find_byte x5d ep) in
        let? host := slice ep 1 close in
        let? after := slice_from ep (close + 1) in
        match after with
        | c :: port_str =>
            if c =b x3a then
              let? p := parse_port_str port_str in
              Ok {| hp_host := host; hp_port := Some p; port_specified := true |}
            else Err ExpectedColonAfterBracket
        | [] => Err ExpectedColonAfterBracket
        end
      else match rfind_byte x3a ep with
      | None => Ok {| hp_host := ep; hp_port := None; port_specified := false |}
      | Some colon_pos =>
          let host := take colon_pos ep in
          let port_str := drop (colon_pos + 1) ep in
          if contains_byte x3a host then Err (MultipleColons ep)
          else
            let? p := parse_port_str port_str in
            Ok {| hp_host := host; hp_port := Some p; port_specified := true |}
      end
  end.

(** (user, password, has_colon). *)
Definition split_userinfo (userinfo : bytes) : bytes * bytes * bool :=
  match split_once x3a userinfo with
  | Some (u, p) => (u, p, true)
  | None => ([], userinfo, false)
  end.

Definition format_host (host : bytes) : bytes :=
  match host with
  | [] => []
  | _ => if contains_byte x3a host then x5b :: host ++ [x5d] else host
  end.

(** ** The native grammar (lib.rs) *)

Definition hex_val (b : byte) : option Z := to_digit 16 b.

(** The decoding loop; [fuel] bounds the number of iterations. *)
Fixpoint percent_decode_loop (fuel : nat) (s : bytes) : bytes :=
  match fuel with
  | O => []
  | S f =>
      match s with
      | [] => []
      | a :: r =>
          let literal := a :: percent_decode_loop f r in
          match r with
          | b :: c :: r' =>
              if a =b x25 then
                match hex_val b, hex_val c with
                | Some h, Some l => Z2b (Z.lor (Z.shiftl h 4) l) :: percent_decode_loop f r'
                | _, _ => literal
                end
              else literal
          | _ => literal
          end
      end
  end.

Definition percent_decode (input : bytes) : outcome UriParseError bytes :=
  let? decoded := from_utf8 (InvalidFormat None InvalidUtf8) (percent_decode_loop (length input) input) in
  if contains_byte x00 decoded then Err (InvalidFormat None NulByte) else Ok decoded.

Definition parse_query_rule (query : option bytes) : option bytes :=
  match query with
  | None => None
  | Some q =>
      foldr (fun param rest =>
        match split_once x3d param with
        | Some (key, value) =>
            if bool_decide (key = str "rule") && negb (bool_decide (value = [])) then Some value
            else rest
        | None => rest
        end) None (split_on x26 q)
  end.

Definition parse_credentials (userinfo : bytes) (protocols : list ProtocolSpec)
    : outcome UriParseError CredentialSpec :=
  let '(raw_user, raw_pass, has_colon) := split_userinfo userinfo in
  if negb has_colon then
    if bool_decide (STrojan ∈ protocols) && negb (bool_decide (userinfo = [])) then
      let? p := percent_decode userinfo in
      Ok {| username := []; password := p |}
    else Err (InvalidFormat None MissingColonInCredentials)
  else
    let? u := percent_decode raw_user in
    let? p := percent_decode raw_pass in
    if bool_decide (u = []) && bool_decide (p = []) then Err (InvalidFormat None EmptyCredentials)
    else Ok {| username := u; password := p |}.

Definition endpoint_error (e : SyntaxError) : UriParseError :=
  match e with
  | EmptyPort | InvalidPortText _ => UriInvalidPort (Some e)
  | _ => InvalidFormat None (FromSyntax e)
  end.

Definition parse_endpoint (ep : bytes) : outcome UriParseError EndpointSpec :=
  match ep with
  | [] => Err MissingHost
  | _ =>
      let? parsed := map_err endpoint_error (parse_host_port ep) in
      match hp_port parsed with
      | None => Err (InvalidFormat None MissingPort)
      | Some p => Ok {| ep_host := hp_host parsed; ep_port := p |}
      end
  end.

Fixpoint parse_protocols_loop (parts : list bytes) : outcome UriParseError (list ProtocolSpec * bool) :=
  match parts with
  | [] => Ok ([], false)
  | p :: ps =>
      if bool_decide (p = str "tls") then
        let? (protos, _) := parse_protocols_loop ps in Ok (protos, true)
      else match parse_name p with
      | Some spec => let? (protos, t) := parse_protocols_loop ps in Ok (spec :: protos, t)
      | None => Err (UnsupportedProtocol p)
      end
  end.

Definition parse_protocols (scheme : bytes) : outcome UriParseError (list ProtocolSpec * bool) :=
  match scheme with
  | [] => Err (InvalidFormat None EmptyProtocolList)
  | _ =>
      let? (protos, t) := parse_protocols_loop (split_on x2b scheme) in
      match protos with
      | [] => Err (InvalidFormat None NoProtocolSpecified)
      | _ => Ok (protos, t)
      end
  end.

Definition find_last_at_outside_scheme (s : bytes) : option nat :=
  match find_str (str "://") s with
  | Some scheme_end =>
      (fun pos => scheme_end + 3 + pos) <$> find_userinfo_separator (drop (scheme_end + 3) s)
  | None => None
  end.

(** The text before the first [?]. *)
Definition before_query (s : bytes) : bytes :=
  match split_once x3f s with Some (ep, _) => ep | None => s end.

(** The trailing [@bind] modifier of a hop: the bind address and what remains. *)
Definition parse_local_bind (hop_str : bytes) : outcome UriParseError (option bytes * bytes) :=
  match find_last_at_outside_scheme hop_str with
  | None => Ok (None, hop_str)
  | Some at_pos =>
      let after_at := drop (at_pos + 1) hop_str in
      let before_at := take at_pos hop_str in
      match find_str (str "://") before_at with
      | None => Err (InvalidFormat None MissingScheme)
      | Some scheme_pos =>
          let before_endpoint := drop (scheme_pos + 3) before_at in
          let base_is_endpoint := is_ok (parse_endpoint (before_query before_endpoint)) in
          let trailing_bind_has_endpoint :=
            match rsplit_once x40 before_endpoint with
            | Some (_, candidate) => is_ok (parse_endpoint (before_query candidate))
            | None => false
            end in
          let is_trailing_bind :=
            if contains_byte x40 before_endpoint then trailing_bind_has_endpoint
            else base_is_endpoint in
          let bind_is_address :=
            match parse_ip after_at, parse_socket_addr after_at with
            | None, None => false
            | _, _ => true
            end in
          if negb is_trailing_bind || contains_byte x2f after_at || contains_byte x3f after_at
             || negb bind_is_address
          then Ok (None, hop_str)
          else Ok (Some after_at, before_at)
      end
  end.

(** The endpoint of a hop, with the default port of SSH. *)
Definition parse_hop_endpoint (protos : list ProtocolSpec) (endpoint_str : bytes)
    : outcome UriParseError EndpointSpec :=
  let bracketed := match endpoint_str with b :: _ => b =b x5b | [] => false end in
  let ssh := bool_decide (protos = [SSsh]) in
  if ssh && negb bracketed && negb (contains_byte x3a endpoint_str) then
    Ok {| ep_host := endpoint_str; ep_port := 22 |}
  else if ssh && bracketed && ends_with [x5d] endpoint_str then
    Ok {| ep_host := take (length endpoint_str - 2) (drop 1 endpoint_str); ep_port := 22 |}
  else parse_endpoint endpoint_str.

Definition parse_hop (hop_str : bytes) : outcome UriParseError ProxyHopSpec :=
  let? (local_bind, remaining) := parse_local_bind hop_str in
  match find_str (str "://") remaining with
  | None => Err (InvalidFormat None MissingScheme)
  | Some colon_pos =>
      let? (protos, tls) := parse_protocols (take colon_pos remaining) in
      let rest := drop (colon_pos + 3) remaining in
      let '(after_scheme, auth_prefix) :=
        match split_once x23 rest with
        | Some (value, auth) => (value, Some auth)
        | None => (rest, None)
        end in
      match after_scheme with
      | [] => Err MissingHost
      | _ =>
          if bool_decide (protos = [SUnix]) then
            Ok {| protocols := protos; endpoint := {| ep_host := after_scheme; ep_port := 0 |};
                  credentials := None; rule := None; local_bind_spec := local_bind; tls := tls;
                  server_name := None; insecure := false; plugins := [];
                  auth_prefix := auth_prefix |}
          else
            let? (creds, endpoint_and_query) :=
              match find_userinfo_separator after_scheme with
              | Some at_pos =>
                  let? c := parse_credentials (take at_pos after_scheme) protos in
                  Ok (Some c, drop (at_pos + 1) after_scheme)
              | None => Ok (None, after_scheme)
              end in
            let '(endpoint_and_query, plugin_path) :=
              match split_once x2f endpoint_and_query with
              | Some (ep, path) => (ep, path)
              | None => (endpoint_and_query, [])
              end in
            let plugins :=
              filter (fun name => name <> []) (split_on x2c (trim_start_matches x2c plugin_path)) in
            let '(endpoint_str, query_str) :=
              match split_once x3f endpoint_and_query with
              | Some (ep, q) => (ep, Some q)
              | None => (endpoint_and_query, None)
              end in
            let? ep := parse_hop_endpoint protos endpoint_str in
            if bool_decide (ep_host ep = []) then Err EmptyHost
            else if (ep_port ep =? 0)%Z then Err (UriInvalidPort None)
            else
              Ok {| protocols := protos; endpoint := ep; credentials := creds;
                    rule := parse_query_rule query_str; local_bind_spec := local_bind; tls := tls;
                    server_name := None;
                    insecure := match query_str with
                      | Some q => existsb (fun param => bool_decide (param = str "insecure") ||
                                                        bool_decide (param = str "insecure=true"))
                                    (split_on x26 q)
                      | None => false
                      end;
                    plugins := plugins; auth_prefix := auth_prefix |}
      end
  end.

Definition split_hops (uri : bytes) : outcome UriParseError (list bytes) :=
  let? hops := map_err (fun e => InvalidFormat None (FromSyntax e)) (split_chain_hops uri) in
  if existsb (fun h => bool_decide (h = [])) hops then Err DuplicateHopSeparator
  else if starts_with (str "__") uri || ends_with (str "__") uri then Err DuplicateHopSeparator
  else Ok hops.

Definition add_hop_context (hop_index : nat) (e : UriParseError) : UriParseError :=
  match e with
  | InvalidFormat _ m => InvalidFormat (Some hop_index) m
  | e => e
  end.

Fixpoint parse_hops (i : nat) (l : list bytes) : outcome UriParseError (list ProxyHopSpec) :=
  match l with
  | [] => Ok []
  | h :: r =>
      let? hop := map_err (add_hop_context i) (parse_hop h) in
      let? rest := parse_hops (S i) r in
      Ok (hop :: rest)
  end.

Definition parse_proxy_chain (uri : bytes) : outcome UriParseError ProxyChainSpec :=
  match uri with
  | [] => Err (InvalidFormat None EmptyUri)
  | _ =>
      let? hop_strings := split_hops uri in
      match hop_strings with
      | [] => Err (InvalidFormat None NoHopsFound)
      | _ => let? hs := parse_hops 0 hop_strings in Ok {| hops := hs |}
      end
  end.

(** ** Redaction *)

Definition redact_proxy_uri (uri : bytes) : bytes :=
  match find_str (str "://") uri with
  | None =>
      match find_userinfo_separator uri with
      | Some at_pos => str "****@" ++ drop (at_pos + 1) uri
      | None => uri
      end
  | Some scheme_end =>
      let after_scheme := drop (scheme_end + 3) uri in
      match find_userinfo_separator after_scheme with
      | Some at_pos => take (scheme_end + 3) uri ++ str "****@" ++ drop (at_pos + 1) after_scheme
      | None => uri
      end
  end.

Definition fmt_redacted_hop (hop : ProxyHopSpec) : bytes :=
  let proto_parts := map canonical_name (protocols hop) ++ (if tls hop then [str "tls"] else []) in
  join_str (str "+") proto_parts ++ str "://"
  ++ (match credentials hop with Some _ => str "****:****@" | None => [] end)
  ++ format_host (ep_host (endpoint hop)) ++ str ":" ++ to_dec (ep_port (endpoint hop))
  ++ (match rule hop with Some r => str "?rule=" ++ r | None => [] end)
  ++ (match local_bind_spec hop with Some b => str "@" ++ b | None => [] end).

(** [Display for RedactedUri]. *)
Definition fmt_redacted (chain : ProxyChainSpec) : bytes :=
  join_str (str "__") (map fmt_redacted_hop (hops chain)).

Example parse_chain_example :
  (fmt_redacted <$> match parse_proxy_chain (str "socks5+tls://bob:p%40ss@[::1]:1080?rule=x@127.0.0.1__http://h:80")
     with Ok c => Some c | _ => None end)
  = Some (str "socks5+tls://****:****@[::1]:1080?rule=x@127.0.0.1__http://h:80").
Proof. vm_compute. reflexivity. Qed.

Example parse_creds_example :
  match parse_proxy_chain (str "socks5+tls://bob:p%40ss@[::1]:1080?rule=x@127.0.0.1") with
  | Ok {| hops := [h] |} => credentials h = Some {| username := str "bob"; password := str "p@ss" |}
  | _ => False
  end.
Proof. vm_compute. reflexivity. Qed.

(** ** Protocol names *)

(** Protocol names: the canonical name of every protocol parses back to it
    in any letter case, and [all_variants] lists every protocol. *)
Theorem protocol_name_roundtrip p name :
  (to_ascii_lowercase name = canonical_name p -> parse_name name = Some p) /\
  p ∈ all_variants /\
  (parse_name name = Some p -> exists n, (n, p) ∈ name_table /\ to_ascii_lowercase name = str n).
Proof.
  split_and!.
  - intros H. unfold parse_name. rewrite H. by destruct p.
  - by destruct p; vm_compute; repeat (apply list_elem_of_here || apply list_elem_of_further).
  - unfold parse_name. generalize (to_ascii_lowercase name) as l. intros l.
    induction name_table as [|[n q] t IH]; simpl; [done|]. case_bool_decide as E.
    + intros [= ->]. exists n. split; [set_solver|done].
    + intros H. destruct (IH H) as (n' & Hn & ->). exists n'. split; [set_solver|done].
Qed.

(** ** Panic freedom *)

Lemma parse_host_port_no_panic ep : parse_host_port ep <> Panic.
Proof.
  assert (forall s, parse_port_str s <> Panic) as Hp.
  { intros [|b s]; [done|]. unfold parse_port_str. by destruct (parse_u16 (b :: s)). }
  unfold parse_host_port. destruct ep as [|b rest]; [done|]. destruct (b =b x5b) eqn:Eb.
  - apply obind_panic. split; [by destruct (find_byte x5d (b :: rest))|]. intros close Hc.
    destruct (find_byte x5d (b :: rest)) as [i|] eqn:E; [|done]. injection Hc as <-.
    assert (1 <= i) as Hi.
    { simpl in E. apply byte_eqb_true in Eb as ->. simpl in E.
      destruct (find_byte x5d rest); [|done]. injection E as <-. lia. }
    apply find_byte_Some in E as [E _]. apply (f_equal length) in E.
    rewrite length_app, length_take in E. cbn [length] in E.
    rewrite length_drop in E. cbn [length] in E.
    apply obind_panic. split; [apply slice_no_panic; simpl; lia|]. intros host _.
    apply obind_panic. split; [apply slice_from_no_panic; simpl; lia|].
    intros [|c p] _; [done|]. destruct (c =b x3a); [|done].
    apply obind_panic. split; [apply Hp|done].
  - destruct (rfind_byte x3a (b :: rest)); [|done]. destruct (contains_byte _ _); [done|].
    apply obind_panic. split; [apply Hp|done].
Qed.

Lemma parse_endpoint_no_panic ep : parse_endpoint ep <> Panic.
Proof.
  unfold parse_endpoint. destruct ep as [|b ep]; [done|].
  pose proof (parse_host_port_no_panic (b :: ep)) as H.
  destruct (parse_host_port (b :: ep)) as [hp|e|]; simpl; [|done|done]. by destruct (hp_port hp).
Qed.

Lemma percent_decode_no_panic s : percent_decode s <> Panic.
Proof.
  unfold percent_decode, from_utf8. destruct (utf8_valid _); simpl; [|done].
  by destruct (contains_byte _ _).
Qed.

Lemma parse_credentials_no_panic u ps : parse_credentials u ps <> Panic.
Proof.
  unfold parse_credentials. destruct (split_userinfo u) as [[a b] h].
  destruct (negb h).
  - destruct (_ && _); [|done]. apply obind_panic. split; [apply percent_decode_no_panic|done].
  - apply obind_panic. split; [apply percent_decode_no_panic|]. intros ? _.
    apply obind_panic. split; [apply percent_decode_no_panic|]. intros ? _. by destruct (_ && _).
Qed.

Lemma parse_protocols_loop_no_panic l : parse_protocols_loop l <> Panic.
Proof.
  induction l as [|p l IH]; simpl; [done|]. case_bool_decide.
  - apply obind_panic. split; [done|]. by intros [].
  - destruct (parse_name p); [|done]. apply obind_panic. split; [done|]. by intros [].
Qed.

Lemma parse_protocols_no_panic s : parse_protocols s <> Panic.
Proof.
  unfold parse_protocols. destruct s; [done|]. apply obind_panic.
  split; [apply parse_protocols_loop_no_panic|]. by intros [[|] ?].
Qed.

Lemma parse_local_bind_no_panic s : parse_local_bind s <> Panic.
Proof.
  unfold parse_local_bind. destruct (find_last_at_outside_scheme s); [|done].
  destruct (find_str _ _); [|done]. by destruct (_ || _).
Qed.

Lemma parse_hop_endpoint_no_panic ps s : parse_hop_endpoint ps s <> Panic.
Proof.
  unfold parse_hop_endpoint. destruct (_ && _); [done|]. destruct (_ && _); [done|].
  apply parse_endpoint_no_panic.
Qed.

Lemma parse_hop_no_panic s : parse_hop s <> Panic.
Proof.
  unfold parse_hop. apply obind_panic. split; [apply parse_local_bind_no_panic|].
  intros [lb rem] _. destruct (find_str _ _); [|done].
  apply obind_panic. split; [apply parse_protocols_no_panic|]. intros [ps t] _.
  destruct (split_once x23 _) as [[v a]|];
    (match goal with |- match ?x with [] => _ | _ => _ end <> _ => destruct x as [|b l] end; [done|]);
    case_bool_decide; try done;
    (apply obind_panic; split;
      [destruct (find_userinfo_separator _); [|done]; apply obind_panic;
       split; [apply parse_credentials_no_panic|done]|]);
    intros [cr eq] _;
    destruct (split_once x2f eq) as [[? ?]|];
    match goal with |- context [split_once x3f ?x] => destruct (split_once x3f x) as [[? ?]|] end;
    (apply obind_panic; split; [apply parse_hop_endpoint_no_panic|]);
    intros ep _; case_bool_decide; try done; by destruct (_ =? _)%Z.
Qed.

Lemma split_hops_loop_no_panic i k l cur s : split_hops_loop i k l cur s <> Panic.
Proof.
  revert i k l cur. assert (forall n i k l cur s, length s <= n -> split_hops_loop i k l cur s <> Panic) as H;
    [|intros; eapply (H (length s)); done].
  intros n. induction n as [|n IH]; intros i k l cur s' Hl.
  { destruct s'; [|simpl in Hl; lia]. simpl. destruct (negb _); [done|]. by destruct (negb _). }
  destruct s' as [|c r]; [simpl; destruct (negb _); [done|]; by destruct (negb _)|].
  simpl in Hl. cbn [split_hops_loop].
  repeat match goal with
  | |- (if ?b then _ else _) <> _ => destruct b
  | |- split_hops_loop _ _ _ _ _ <> _ => apply IH; simpl in *; lia
  | |- Err _ <> _ => done
  | |- match ?x with [] => _ | _ => _ end <> _ => destruct x
  | |- obind _ _ <> _ => apply obind_panic; split; [|done]
  end.
Qed.

Lemma parse_hops_no_panic i l : parse_hops i l <> Panic.
Proof.
  revert i. induction l as [|h l IH]; intros i; simpl; [done|].
  apply obind_panic. split.
  - pose proof (parse_hop_no_panic h). by destruct (parse_hop h).
  - intros hop _. apply obind_panic. split; [apply IH|done].
Qed.

(** ** Accepted chains are well formed *)

Definition credential_ok (c : CredentialSpec) : Prop :=
  (username c <> [] \/ password c <> []) /\
  x00 ∉ username c /\ x00 ∉ password c /\
  utf8_valid (username c) = true /\ utf8_valid (password c) = true.

Definition hop_wf (h : ProxyHopSpec) : Prop :=
  protocols h <> [] /\ ep_host (endpoint h) <> [] /\ is_u16 (ep_port (endpoint h)) /\
  (ep_port (endpoint h) = 0%Z <-> protocols h = [SUnix]) /\
  (forall c, credentials h = Some c -> credential_ok c).

Lemma percent_decode_ok s d : percent_decode s = Ok d -> utf8_valid d = true /\ x00 ∉ d /\ (s <> [] -> d <> []).
Proof.
  unfold percent_decode. intros H. apply obind_ok in H as (l & H1 & H2).
  apply from_utf8_ok in H1 as [H1 ->]. destruct (contains_byte x00 _) eqn:E; [done|].
  injection H2 as <-. apply bool_decide_eq_false in E. do 2 (split; [done|]).
  destruct s as [|a [|b [|c s]]]; [done|done|done|]. intros _. cbn [length percent_decode_loop].
  destruct (a =b x25); [|done]. by destruct (hex_val b), (hex_val c).
Qed.

Lemma parse_credentials_ok u ps c : parse_credentials u ps = Ok c -> credential_ok c.
Proof.
  unfold parse_credentials. destruct (split_userinfo u) as [[a b] h]. destruct (negb h).
  - destruct (_ && _) eqn:G; [|done]. intros H. apply obind_ok in H as (p & H1 & [= <-]).
    apply percent_decode_ok in H1 as (? & ? & Hne). apply andb_true_iff in G as [_ G].
    apply negb_true_iff, bool_decide_eq_false in G.
    split; cbn; [right; auto|]. split_and!; [set_solver|done|done|done].
  - intros H. apply obind_ok in H as (x & H1 & H). apply obind_ok in H as (y & H2 & H).
    apply percent_decode_ok in H1 as (? & ? & _). apply percent_decode_ok in H2 as (? & ? & _).
    destruct (_ && _) eqn:G; [done|]. injection H as <-. split; cbn; [|done].
    apply andb_false_iff in G as [G|G]; apply bool_decide_eq_false in G; auto.
Qed.

Lemma parse_endpoint_ok s e : parse_endpoint s = Ok e -> is_u16 (ep_port e).
Proof.
  assert (forall t p, parse_port_str t = Ok p -> is_u16 p) as Hp.
  { intros [|b t] p; [done|]. unfold parse_port_str. destruct (parse_u16 (b :: t)) eqn:E; [|done].
    intros [= <-]. by eapply parse_u16_range. }
  unfold parse_endpoint. destruct s as [|b s]; [done|].
  destruct (parse_host_port (b :: s)) as [hp|err|] eqn:E; simpl; [|done|done].
  destruct (hp_port hp) as [p|] eqn:Ep; [|done]. intros [= <-]. cbn.
  revert E. unfold parse_host_port. destruct (b =b x5b).
  - intros H. inv_ok. destruct x1 as [|c r]; [done|]. destruct (c =b x3a); [|done].
    inv_ok. cbn in Ep. injection Ep as <-. eauto.
  - destruct (rfind_byte x3a (b :: s)); [|intros [= <-]; done].
    destruct (contains_byte _ _); [done|]. intros H. inv_ok. cbn in Ep. injection Ep as <-. eauto.
Qed.

Lemma parse_hop_endpoint_ok ps s e : parse_hop_endpoint ps s = Ok e -> is_u16 (ep_port e).
Proof.
  unfold parse_hop_endpoint. destruct (_ && _); [by intros [= <-]|].
  destruct (_ && _); [by intros [= <-]|]. apply parse_endpoint_ok.
Qed.

Lemma parse_protocols_ok s ps t : parse_protocols s = Ok (ps, t) -> ps <> [].
Proof.
  unfold parse_protocols. destruct s; [done|]. intros H. inv_ok. destruct x as [[|p q] u]; [done|].
  by injection H as <- <-.
Qed.

(** The part of [parse_hop] after the scheme and the fragment. *)
Lemma parse_hop_wf s h : parse_hop s = Ok h -> hop_wf h.
Proof.
  unfold parse_hop. intros H. apply obind_ok in H as ([lb rem] & _ & H).
  destruct (find_str _ rem) as [cp|]; [|done].
  apply obind_ok in H as ([ps t] & Hps & H). apply parse_protocols_ok in Hps.
  destruct (match split_once x23 (drop (cp + 3) rem) with
            | Some (v, a) => (v, Some a) | None => (drop (cp + 3) rem, None) end) as [as' ap].
  destruct as' as [|b l]; [done|]. case_bool_decide as Hu.
  { injection H as <-. subst ps. by split_and!. }
  apply obind_ok in H as ([cr eq] & Hcr & H).
  destruct (match split_once x2f eq with
            | Some (e, p) => (e, p) | None => (eq, []) end) as [eq1 pp].
  destruct (match split_once x3f eq1 with
            | Some (e, q) => (e, Some q) | None => (eq1, None) end) as [es qs].
  apply obind_ok in H as (ep & Hep & H). apply parse_hop_endpoint_ok in Hep.
  case_bool_decide as Hh; [done|]. destruct (Z.eqb_spec (ep_port ep) 0) as [|Hz]; [done|].
  injection H as <-. split_and!; cbn; try done.
  intros c ->. destruct (find_userinfo_separator (b :: l)) as [ap'|]; [|done].
  apply obind_ok in Hcr as (c' & Hc & Hcr'). injection Hcr' as -> _. by eapply parse_credentials_ok.
Qed.

Lemma parse_hops_ok i l hs : parse_hops i l = Ok hs -> length hs = length l /\ Forall hop_wf hs.
Proof.
  revert i hs. induction l as [|h l IH]; intros i hs; simpl; [by intros [= <-]|].
  intros H. apply obind_ok in H as (hop & H1 & H). apply obind_ok in H as (rest & H2 & [= <-]).
  destruct (parse_hop h) as [hop'|e|] eqn:E; try done. injection H1 as ->.
  destruct (IH _ _ H2) as [Hlen ?]. split; [cbn; by rewrite Hlen|].
  constructor; [by eapply parse_hop_wf|done].
Qed.

(** C24. Parsing a proxy chain never panics, and a chain it accepts is
    executable: at least one hop, each with a protocol, a non-empty host, a
    [u16] port that is zero only for a Unix socket, and credentials that are
    not empty, are valid UTF-8 and hold no NUL byte. *)
Theorem proxy_chain_wf uri :
  parse_proxy_chain uri <> Panic /\
  (forall c, parse_proxy_chain uri = Ok c -> hops c <> [] /\ Forall hop_wf (hops c)).
Proof.
  split.
  - unfold parse_proxy_chain. destruct uri as [|b u]; [done|]. apply obind_panic. split.
    + unfold split_hops, split_chain_hops.
      pose proof (split_hops_loop_no_panic 0 0 0 [] (b :: u)).
      destruct (split_hops_loop 0 0 0 [] (b :: u)) as [hs|e|]; cbn [map_err obind]; [|done|done].
      destruct (existsb _ _); [done|]. by destruct (_ || _).
    + intros [|h hs] _; [done|]. apply obind_panic. split; [apply parse_hops_no_panic|done].
  - intros c. unfold parse_proxy_chain. destruct uri as [|b u]; [done|]. intros H.
    apply obind_ok in H as (hs & _ & H). destruct hs as [|h hs]; [done|].
    apply obind_ok in H as (l & Hl & [= <-]). apply parse_hops_ok in Hl as [Hl ?]. cbn.
    split; [|done]. by destruct l.
Qed.

(** Protocol names are matched in any letter case, the [tls] modifier only in
    lower case. *)
Example tls_modifier_case_sensitive :
  parse_protocols (str "HTTP+tls") = Ok ([SHttp], true) /\
  parse_protocols (str "http+TLS") = Err (UnsupportedProtocol (str "TLS")).
Proof. vm_compute. done. Qed.

(** The redacted display of a chain carries no credential: it is a function
    of the chain with user names and passwords erased. *)
Theorem redacted_display_hides c1 c2 :
  Forall2 (fun h1 h2 =>
    protocols h1 = protocols h2 /\ tls h1 = tls h2 /\ endpoint h1 = endpoint h2 /\
    rule h1 = rule h2 /\ local_bind_spec h1 = local_bind_spec h2 /\
    (credentials h1 = None <-> credentials h2 = None)) (hops c1) (hops c2) ->
  fmt_redacted c1 = fmt_redacted c2.
Proof.
  intros H. unfold fmt_redacted. f_equal.
  induction H as [|h1 h2 l1 l2 (Hp & Ht & He & Hr & Hb & Hc) _ IH]; simpl; [done|].
  rewrite IH. f_equal. unfold fmt_redacted_hop. rewrite Hp, Ht, He, Hr, Hb. do 3 f_equal.
  destruct (credentials h1), (credentials h2); try done.
  - discriminate (proj2 Hc eq_refl).
  - discriminate (proj1 Hc eq_refl).
Qed.

Definition demo_hop (u p : string) : ProxyHopSpec :=
  {| protocols := [SSocks5]; endpoint := {| ep_host := str "h"; ep_port := 1080 |};
     credentials := Some {| username := str u; password := str p |};
     rule := None; local_bind_spec := None; tls := true; server_name := None; insecure := false;
     plugins := []; auth_prefix := None |}.

Lemma redacted_display_hides_witness :
  fmt_redacted {| hops := [demo_hop "alice" "secret"] |} = fmt_redacted {| hops := [demo_hop "bob" "hunter2"] |}.
Proof. apply redacted_display_hides. repeat constructor; discriminate. Defined.
