(* ===== verification/UriRoundtrip.v ===== *)
(** * Proxy URIs: redaction and round trips

    What the redacted forms hide, what percent-decoding inverts, and that the
    display of a chain without secrets parses back to that chain. *)

From S2P Require Import Prelude Bytes Decimal NetAddr Dispatch Uri.

(** ** Userinfo separator *)

(** Nesting depths after a text. *)
Definition depth_after (d : Z * Z) (s : bytes) : Z * Z := foldl (fun d c => depth_step c d) d s.

(** The next depth after each character stays at the top level on both sides:
    a text whose brackets and braces are closed again. *)
Definition balanced (s : bytes) : Prop := depth_after (0, 0)%Z s = (0, 0)%Z.

Lemma find_userinfo_app i d o s t :
  find_userinfo_loop i d o (s ++ t) =
  find_userinfo_loop (i + length s) (depth_after d s) (find_userinfo_loop i d o s) t.
Proof.
  revert i d o. induction s as [|c s IH]; intros i d o; simpl; [by rewrite Nat.add_0_r|].
  rewrite IH. by rewrite Nat.add_succ_r.
Qed.

Lemma find_userinfo_no_at i d o s : x40 ∉ s -> find_userinfo_loop i d o s = o.
Proof.
  revert i d o. induction s as [|c s IH]; intros i d o Hs; simpl; [done|].
  rewrite (proj2 (byte_eqb_false c x40)) by set_solver. simpl. apply IH. set_solver.
Qed.

Lemma find_userinfo_at u t : balanced u -> x40 ∉ t ->
  find_userinfo_separator (u ++ x40 :: t) = Some (length u).
Proof.
  intros Hu Ht. unfold find_userinfo_separator. rewrite find_userinfo_app, Hu. simpl.
  by rewrite find_userinfo_no_at.
Qed.

(** ** Searching for [://] *)

Lemma starts_with_cons_ne a p b s : a <> b -> starts_with (a :: p) (b :: s) = false.
Proof. intros H. simpl. by rewrite (proj2 (byte_eqb_false a b)). Qed.

Lemma find_scheme s t : x3a ∉ s -> find_str (str "://") (s ++ str "://" ++ t) = Some (length s).
Proof.
  change (str "://") with [x3a; x2f; x2f].
  induction s as [|b s IH]; intros Hs; [done|]. cbn [app find_str]. cbn [app] in IH.
  rewrite (starts_with_cons_ne x3a) by set_solver. rewrite IH by set_solver. done.
Qed.

(** ** Redaction *)

Definition with_userinfo (scheme userinfo rest : bytes) : bytes :=
  scheme ++ str "://" ++ userinfo ++ x40 :: rest.

Lemma redact_with_userinfo scheme u rest :
  x3a ∉ scheme -> balanced u -> x40 ∉ rest ->
  redact_proxy_uri (with_userinfo scheme u rest) = scheme ++ str "://" ++ str "****@" ++ rest.
Proof.
  intros Hs Hu Hr. unfold redact_proxy_uri, with_userinfo. rewrite find_scheme by done.
  rewrite (app_assoc scheme (str "://")).
  assert (length scheme + 3 = length (scheme ++ str "://")) as -> by (by rewrite length_app).
  rewrite drop_app_length, find_userinfo_at by done. rewrite take_app_length.
  rewrite <- app_assoc. do 3 f_equal.
  rewrite cons_middle, app_assoc.
  replace (length u + 1) with (length (u ++ [x40])) by (by rewrite length_app).
  by rewrite drop_app_length.
Qed.

(** Redaction of an arbitrary URI drops the whole userinfo: the result is
    the same for any two userinfo parts whose brackets and braces are closed
    (also when they contain [@] themselves), and it keeps scheme and endpoint. *)
Theorem redact_drops_userinfo scheme u rest :
  x3a ∉ scheme -> balanced u -> x40 ∉ rest ->
  redact_proxy_uri (with_userinfo scheme u rest) = scheme ++ str "://" ++ str "****@" ++ rest.
Proof. apply redact_with_userinfo. Qed.

Lemma redact_drops_userinfo_witness :
  redact_proxy_uri (with_userinfo (str "socks5") (str "bob:p@ss") (str "h:1080"))
  = str "socks5://****@h:1080".
Proof.
  apply (redact_drops_userinfo (str "socks5") (str "bob:p@ss") (str "h:1080"));
    vm_compute; (reflexivity || (intros H; repeat (apply elem_of_cons in H as [H|H]; [discriminate H|]);
      inversion H)).
Defined.

(** Inside an unclosed bracket no separator is found. *)
Lemma find_userinfo_open i d o s :
  (1 <= d.1)%Z -> x5d ∉ s -> find_userinfo_loop i d o s = o.
Proof.
  revert i d o. induction s as [|c s IH]; intros i d o Hd Hs; simpl; [done|].
  assert (top_level d = false) as ->.
  { unfold top_level. by rewrite (proj2 (Z.eqb_neq d.1 0)) by lia. }
  rewrite andb_false_r. apply IH; [|set_solver]. destruct d as [k l]. unfold depth_step.
  rewrite (proj2 (byte_eqb_false c x5d)) by set_solver. simpl in *.
  destruct (c =b x5b); simpl; [unfold sat_add; lia|].
  destruct (c =b x7b); simpl; [done|]. by destruct (c =b x7d).
Qed.

Lemma depth_step_open d : (0 <= d.1)%Z -> (1 <= (depth_step x5b d).1)%Z.
Proof. destruct d as [k l]. simpl. unfold sat_add. lia. Qed.

Lemma depth_after_nonneg d s : (0 <= d.1)%Z -> (0 <= (depth_after d s).1)%Z.
Proof.
  revert d. induction s as [|c s IH]; intros d Hd; simpl; [done|]. apply IH.
  destruct d as [k l]. unfold depth_step, sat_add, sat_sub.
  destruct (c =b x5b), (c =b x5d), (c =b x7b), (c =b x7d); simpl in *; lia.
Qed.

(** An unclosed bracket in the userinfo defeats redaction: the URI comes
    back with its credentials, although the function is the redaction meant for
    URIs that do not parse. *)
Theorem redact_leaks_open_bracket scheme a b rest :
  x3a ∉ scheme -> x40 ∉ a -> x5d ∉ b -> x5d ∉ rest ->
  redact_proxy_uri (with_userinfo scheme (a ++ x5b :: b) rest)
  = with_userinfo scheme (a ++ x5b :: b) rest.
Proof.
  intros Hs Ha Hb Hr.
  assert (find_userinfo_separator ((a ++ x5b :: b) ++ x40 :: rest) = None) as Hn.
  { unfold find_userinfo_separator. rewrite <- app_assoc, find_userinfo_app.
    rewrite (find_userinfo_no_at _ _ _ a) by done.
    change ((x5b :: b) ++ x40 :: rest) with ([x5b] ++ (b ++ x40 :: rest)).
    rewrite find_userinfo_app, find_userinfo_open; [done| |set_solver].
    simpl. apply depth_step_open. by apply depth_after_nonneg. }
  unfold redact_proxy_uri, with_userinfo. rewrite find_scheme by done.
  rewrite (app_assoc scheme (str "://")).
  assert (length scheme + 3 = length (scheme ++ str "://")) as -> by (by rewrite length_app).
  by rewrite drop_app_length, Hn.
Qed.

Lemma redact_leaks_open_bracket_witness :
  redact_proxy_uri (with_userinfo (str "http") (str "bob:p" ++ x5b :: str "ss") (str "h:80"))
  = str "http://bob:p[ss@h:80".
Proof.
  apply (redact_leaks_open_bracket (str "http") (str "bob:p") (str "ss") (str "h:80"));
    vm_compute; intros H; repeat (apply elem_of_cons in H as [H|H]; [discriminate H|]);
      inversion H.
Defined.

(** ** Percent decoding *)

Definition hex_upper (d : Z) : byte := if (d <? 10)%Z then Z2b (0x30 + d) else Z2b (0x41 + d - 10).

(** Percent-encoding of every byte outside [keep]. *)
Definition percent_encode (keep : byte -> bool) (s : bytes) : bytes :=
  mjoin (map (fun b => if keep b then [b]
                       else [x25; hex_upper (b2Z b / 16); hex_upper (b2Z b mod 16)]) s).

Lemma hex_pair b :
  exists h l, hex_val (hex_upper (b2Z b / 16)) = Some h /\
    hex_val (hex_upper (b2Z b mod 16)) = Some l /\ Z2b (Z.lor (Z.shiftl h 4) l) = b.
Proof.
  assert (match hex_val (hex_upper (b2Z b / 16)), hex_val (hex_upper (b2Z b mod 16)) with
          | Some h, Some l => Z2b (Z.lor (Z.shiftl h 4) l) =b b
          | _, _ => false
          end = true) as H by by destruct b.
  destruct (hex_val (hex_upper (b2Z b / 16))) as [h|]; [|done].
  destruct (hex_val (hex_upper (b2Z b mod 16))) as [l|]; [|done].
  exists h, l. by apply byte_eqb_true in H.
Qed.

Lemma percent_decode_literal f a r :
  a <> x25 -> percent_decode_loop (S f) (a :: r) = a :: percent_decode_loop f r.
Proof.
  intros Ha. cbn [percent_decode_loop]. rewrite (proj2 (byte_eqb_false a x25)) by done.
  by destruct r as [|b [|c r]].
Qed.

Lemma percent_decode_loop_encode keep s f :
  keep x25 = false -> length (percent_encode keep s) <= f ->
  percent_decode_loop f (percent_encode keep s) = s.
Proof.
  intros Hk. revert f. induction s as [|b s IH]; intros f Hf; [by destruct f|].
  assert (percent_encode keep (b :: s) = (if keep b then [b]
    else [x25; hex_upper (b2Z b / 16); hex_upper (b2Z b mod 16)]) ++ percent_encode keep s) as Ec by done.
  rewrite Ec in *. destruct (keep b) eqn:E.
  - assert (b <> x25) by (intros ->; congruence). destruct f as [|f]; [simpl in Hf; lia|].
    cbn [app] in *. rewrite percent_decode_literal by done. f_equal. apply IH. cbn [length] in Hf. lia.
  - cbn [app] in *. destruct f as [|f]; [simpl in Hf; lia|].
    destruct (hex_pair b) as (h & l & H1 & H2 & H3).
    cbn [percent_decode_loop]. rewrite byte_eqb_refl, H1, H2, H3. f_equal. apply IH.
    cbn [length] in Hf. lia.
Qed.

(** Credentials round trip: any text without NUL, percent-encoded with any
    set of bytes left literal (the percent sign not among them), decodes to
    itself. *)
Theorem percent_decode_inverts keep s :
  keep x25 = false -> utf8_valid s = true -> x00 ∉ s ->
  percent_decode (percent_encode keep s) = Ok s.
Proof.
  intros Hk Hu Hn. unfold percent_decode. rewrite percent_decode_loop_encode by done.
  unfold from_utf8. rewrite Hu. cbn [obind].
  assert (contains_byte x00 s = false) as -> by by apply bool_decide_eq_false. done.
Qed.

Lemma percent_decode_inverts_witness :
  percent_decode (percent_encode (fun b => byte_in 0x30 0x7A b) (str "p@ss w%rd")) = Ok (str "p@ss w%rd").
Proof.
  apply percent_decode_inverts; [reflexivity|reflexivity|].
  vm_compute. intros H. repeat (apply elem_of_cons in H as [H|H]; [discriminate H|]). inversion H.
Defined.

(** ** Splitting and joining *)

Lemma join_str_cons sep x l :
  join_str sep (x :: l) = x ++ match l with [] => [] | _ => sep ++ join_str sep l end.
Proof. destruct l; simpl; [by rewrite app_nil_r|done]. Qed.

Lemma join_str_elem sep l c : c ∈ join_str sep l -> c ∈ sep \/ exists x, x ∈ l /\ c ∈ x.
Proof.
  induction l as [|x l IH]; [set_solver|]. rewrite join_str_cons, elem_of_app. intros [H|H].
  - right. exists x. set_solver.
  - destruct l as [|y l]; [set_solver|]. apply elem_of_app in H as [H|H]; [by left|].
    destruct (IH H) as [?|(z & ? & ?)]; [by left|]. right. exists z. set_solver.
Qed.

Lemma join_str_last sep l : l <> [] -> exists p x, x ∈ l /\ join_str sep l = p ++ x.
Proof.
  induction l as [|x l IH]; [done|]. intros _. rewrite join_str_cons. destruct l as [|y l].
  - exists [], x. rewrite app_nil_r. set_solver.
  - destruct (IH ltac:(done)) as (p & z & Hz & ->). exists (x ++ sep ++ p), z.
    rewrite <- !app_assoc. set_solver.
Qed.

Lemma split_on_nosep c s : c ∉ s -> split_on c s = [s].
Proof.
  induction s as [|b s IH]; intros Hs; simpl; [done|].
  rewrite (proj2 (byte_eqb_false b c)) by set_solver. by rewrite IH by set_solver.
Qed.

Lemma split_on_app c s t : c ∉ s -> split_on c (s ++ c :: t) = s :: split_on c t.
Proof.
  induction s as [|b s IH]; intros Hs; simpl; [by rewrite byte_eqb_refl|].
  rewrite (proj2 (byte_eqb_false b c)) by set_solver. by rewrite IH by set_solver.
Qed.

Lemma split_on_join c l : l <> [] -> Forall (fun x => c ∉ x) l -> split_on c (join_str [c] l) = l.
Proof.
  induction l as [|x l IH]; [done|]. intros _ Hl. apply Forall_cons in Hl as [Hx Hl].
  rewrite join_str_cons. destruct l as [|y l]; [rewrite app_nil_r; by apply split_on_nosep|].
  change ([c] ++ join_str [c] (y :: l)) with (c :: join_str [c] (y :: l)).
  rewrite split_on_app by done. f_equal. by apply IH.
Qed.

Lemma split_once_None c s : c ∉ s -> split_once c s = None.
Proof. intros H. unfold split_once. by rewrite (proj2 (find_byte_None c s)). Qed.

(** ** Hop separators *)

Definition nesting : list byte := [x5b; x5d; x7b; x7d; x5f].
Definition flat (s : bytes) : Prop := Forall (fun c => c ∉ nesting) s.

Lemma split_hops_flat i k l cur s rest :
  flat s -> split_hops_loop i k l cur (s ++ rest) = split_hops_loop (i + length s) k l (cur ++ s) rest.
Proof.
  intros Hs. revert i cur. induction s as [|c s IH]; intros i cur; [by rewrite Nat.add_0_r, !app_nil_r|].
  apply Forall_cons in Hs as [Hc Hs]. unfold nesting in Hc. rewrite !not_elem_of_cons in Hc.
  destruct Hc as (? & ? & ? & ? & ? & _). cbn [app split_hops_loop].
  rewrite !(proj2 (byte_eqb_false c _)) by done. cbn [andb].
  replace (i + length (c :: s)) with (S i + length s) by (simpl; lia).
  rewrite (cons_middle c cur s), (app_assoc cur [c] s).
  transitivity (split_hops_loop (S i) k l (cur ++ [c]) (s ++ rest)); [by destruct (s ++ rest)|].
  by apply IH.
Qed.

(** A segment that the hop splitter passes over as a whole. *)
Definition segment (t : bytes) : Prop := forall i cur rest,
  split_hops_loop i 0 0 cur (t ++ rest) = split_hops_loop (i + length t) 0 0 (cur ++ t) rest.

Lemma segment_flat s : flat s -> segment s.
Proof. intros Hs i cur rest. by apply split_hops_flat. Qed.

Lemma segment_app s t : segment s -> segment t -> segment (s ++ t).
Proof.
  intros Hs Ht i cur rest. rewrite <- app_assoc, Hs, Ht, length_app.
  by rewrite <- app_assoc, Nat.add_assoc.
Qed.

Lemma segment_bracketed s : flat s -> segment (x5b :: s ++ [x5d]).
Proof.
  intros Hs i cur rest. cbn [app]. rewrite <- app_assoc.
  cbn [split_hops_loop]. rewrite byte_eqb_refl. rewrite split_hops_flat by done.
  cbn [app split_hops_loop]. byte_if. change (sat_add 0 =? 0)%Z with false. cbv iota.
  change (sat_add 0 - 1)%Z with 0%Z. rewrite <- !app_assoc. cbn [app].
  f_equal. cbn [length]. rewrite length_app. cbn [length]. lia.
Qed.

Lemma split_hops_join i ts :
  ts <> [] -> Forall segment ts ->
  split_hops_loop i 0 0 [] (join_str (str "__") ts) = Ok ts.
Proof.
  revert i. induction ts as [|t ts IH]; intros i Hne Hs; [done|].
  apply Forall_cons in Hs as [Ht Hs]. rewrite join_str_cons, Ht. cbn [app].
  destruct ts as [|u ts]; [done|].
  change (str "__" ++ join_str (str "__") (u :: ts)) with (x5f :: x5f :: join_str (str "__") (u :: ts)).
  cbn [split_hops_loop]. byte_if. cbn [andb Z.eqb].
  by rewrite IH.
Qed.

(** ** Round trip of chains without secrets *)

(** Characters with a meaning of their own in a hop. *)
Definition reserved_chars : list byte := [x40; x2f; x3f; x23; x5b; x5d; x7b; x7d; x5f].

Definition plain_hop (h : ProxyHopSpec) : Prop :=
  protocols h <> [] /\ protocols h <> [SUnix] /\
  ep_host (endpoint h) <> [] /\ (forall c, c ∈ reserved_chars -> c ∉ ep_host (endpoint h)) /\
  is_u16 (ep_port (endpoint h)) /\ ep_port (endpoint h) <> 0%Z /\
  credentials h = None /\ rule h = None /\ local_bind_spec h = None /\ server_name h = None /\
  insecure h = false /\ plugins h = [] /\ auth_prefix h = None.

Section plain.
Context (h : ProxyHopSpec) (Hh : plain_hop h).

Definition scheme_text : bytes :=
  join_str (str "+") (map canonical_name (protocols h) ++ (if tls h then [str "tls"] else [])).
Definition authority : bytes :=
  format_host (ep_host (endpoint h)) ++ x3a :: to_dec (ep_port (endpoint h)).

Lemma fmt_plain_hop : fmt_redacted_hop h = scheme_text ++ str "://" ++ authority.
Proof.
  destruct Hh as (_ & _ & _ & _ & _ & _ & Hc & Hr & Hb & _).
  unfold fmt_redacted_hop, scheme_text, authority. rewrite Hc, Hr, Hb.
  rewrite !app_nil_r. done.
Qed.

Lemma scheme_parts_clean x : x ∈ map canonical_name (protocols h) ++ (if tls h then [str "tls"] else []) ->
  Forall (fun c => byte_in 0x30 0x7A c = true /\ c <> x3a /\ c <> x3f /\ c ∉ nesting /\ c <> x40) x.
Proof.
  intros H. apply elem_of_app in H as [H|H].
  - apply list_elem_of_fmap in H as (p & -> & _).
    destruct p; vm_compute; repeat constructor; discriminate || set_solver.
  - destruct (tls h); [|set_solver]. apply list_elem_of_singleton in H as ->.
    vm_compute; repeat constructor; discriminate || set_solver.
Qed.

Lemma scheme_text_chars c : c ∈ scheme_text -> c = x2b \/ (c <> x3a /\ c ∉ nesting /\ c <> x40).
Proof.
  intros H. apply join_str_elem in H as [H|(x & Hx & Hc)].
  - left. by apply list_elem_of_singleton in H.
  - right. apply scheme_parts_clean in Hx. rewrite Forall_forall in Hx.
    destruct (Hx c Hc) as (_ & ? & _ & ? & ?). done.
Qed.

Lemma scheme_no_colon : x3a ∉ scheme_text.
Proof. intros H. by destruct (scheme_text_chars _ H) as [?|[? _]]. Qed.

Lemma scheme_nonempty : scheme_text <> [].
Proof.
  unfold scheme_text. destruct Hh as (Hp & _). destruct (protocols h) as [|p ps]; [done|].
  cbn [map app]. rewrite join_str_cons. by destruct p.
Qed.

Lemma scheme_flat : flat (scheme_text ++ str "://").
Proof.
  apply Forall_app. split.
  - apply Forall_forall. intros c Hc. destruct (scheme_text_chars _ Hc) as [->|(_ & ? & _)]; [|done].
    vm_compute; set_solver.
  - vm_compute; repeat constructor; set_solver.
Qed.

Lemma parse_protocols_loop_parts ps (t : bool) :
  parse_protocols_loop (map canonical_name ps ++ (if t then [str "tls"] else [])) = Ok (ps, t).
Proof.
  induction ps as [|p ps IH]; [by destruct t|]. cbn [map app parse_protocols_loop].
  assert (bool_decide (canonical_name p = str "tls") = false) as -> by by destruct p.
  assert (parse_name (canonical_name p) = Some p) as -> by by destruct p.
  by rewrite IH.
Qed.

Lemma parse_scheme : parse_protocols scheme_text = Ok (protocols h, tls h).
Proof.
  unfold parse_protocols. pose proof scheme_nonempty as Hne.
  assert (split_on x2b scheme_text
          = map canonical_name (protocols h) ++ (if tls h then [str "tls"] else [])) as Hs.
  { apply split_on_join.
    - destruct Hh as (Hp & _). by destruct (protocols h).
    - apply Forall_forall. intros x Hx Hb. apply scheme_parts_clean in Hx.
      rewrite Forall_forall in Hx. destruct (Hx _ Hb) as (Hin & _). vm_compute in Hin. done. }
  destruct scheme_text as [|b s] eqn:E; [done|]. rewrite Hs, parse_protocols_loop_parts. cbn [obind].
  destruct Hh as (Hp & _). by destruct (protocols h).
Qed.

(** No character of the authority, brackets apart, has a meaning of its own. *)
Lemma authority_not_in c : c ∈ [x40; x2f; x3f; x23] -> c ∉ authority.
Proof.
  intros Hc. destruct Hh as (_ & _ & _ & Hr & _). unfold authority.
  assert (c ∉ ep_host (endpoint h)) as Hn by (apply Hr; set_solver).
  rewrite not_elem_of_app, not_elem_of_cons. split_and!.
  - unfold format_host. destruct (ep_host (endpoint h)) as [|b l]; [set_solver|].
    destruct (contains_byte x3a (b :: l)); [|done]. set_solver.
  - set_solver.
  - apply to_dec_not_in. rewrite !elem_of_cons in Hc.
    destruct Hc as [->|[->|[->|[->|Hc]]]]; [done..|inversion Hc].
Qed.

Lemma port_text_flat z : flat (x3a :: to_dec z).
Proof.
  constructor; [vm_compute; set_solver|]. apply Forall_forall. intros c Hc Hn.
  revert Hc. apply to_dec_not_in. unfold nesting in Hn. rewrite !elem_of_cons in Hn.
  destruct Hn as [->|[->|[->|[->|[->|Hn]]]]]; [done..|inversion Hn].
Qed.

Lemma hop_segment : segment (fmt_redacted_hop h).
Proof.
  rewrite fmt_plain_hop, app_assoc. apply segment_app; [apply segment_flat, scheme_flat|].
  unfold authority. apply segment_app; [|apply segment_flat, port_text_flat].
  destruct Hh as (_ & _ & _ & Hr & _).
  assert (flat (ep_host (endpoint h))) as Hf.
  { apply Forall_forall. intros c Hc Hn. revert Hc. apply Hr. set_solver. }
  unfold format_host. destruct (ep_host (endpoint h)) as [|b l]; [by apply segment_flat|].
  destruct (contains_byte x3a (b :: l)); [by apply segment_bracketed|by apply segment_flat].
Qed.

Lemma parse_port_str_dec z : is_u16 z -> parse_port_str (to_dec z) = Ok z.
Proof.
  intros Hz. unfold parse_port_str. pose proof (to_dec_nonempty z). pose proof (parse_u16_to_dec z Hz) as E.
  destruct (to_dec z); [done|]. by rewrite E.
Qed.

Lemma parse_authority_host_port :
  parse_host_port authority =
  Ok {| hp_host := ep_host (endpoint h); hp_port := Some (ep_port (endpoint h)); port_specified := true |}.
Proof.
  destruct Hh as (_ & _ & Hne & Hr & Hp & _). unfold authority, format_host.
  set (p := ep_port (endpoint h)) in *. set (t := ep_host (endpoint h)) in *.
  assert (x3a ∉ to_dec p) as Hd by by apply to_dec_not_in.
  assert (x5d ∉ t) as Hcl by (apply Hr; set_solver).
  assert (x5b ∉ t) as Hop by (apply Hr; set_solver).
  destruct t as [|b l] eqn:Et; [done|]. rewrite <- Et in *.
  destruct (contains_byte x3a t) eqn:Ec.
  - cbn [app parse_host_port]. rewrite byte_eqb_refl. rewrite <- app_assoc. cbn [app].
    assert (find_byte x5d (x5b :: t ++ x5d :: x3a :: to_dec p) = Some (S (length t))) as ->.
    { cbn [find_byte]. byte_if. by rewrite find_byte_app. }
    cbn [ok_or obind].
    assert (slice (E:=SyntaxError) (x5b :: t ++ x5d :: x3a :: to_dec p) 1 (S (length t)) = Ok t) as ->
      by (by apply (slice_app_mid [x5b] t)).
    cbn [obind].
    assert (slice_from (E:=SyntaxError) (x5b :: t ++ x5d :: x3a :: to_dec p) (S (length t) + 1)
            = Ok (x3a :: to_dec p)) as ->.
    { change (x5b :: t ++ x5d :: x3a :: to_dec p) with ([x5b] ++ t ++ [x5d] ++ x3a :: to_dec p).
      rewrite (app_assoc t), (app_assoc [x5b]). apply slice_from_app.
      rewrite !length_app. simpl. lia. }
    cbn [obind]. rewrite byte_eqb_refl. by rewrite parse_port_str_dec.
  - apply bool_decide_eq_false in Ec. unfold parse_host_port.
    pose proof (rsplit_once_app x3a t (to_dec p) Hd) as Hs. unfold rsplit_once in Hs.
    destruct (rfind_byte x3a (t ++ x3a :: to_dec p)) as [i|] eqn:Ei; [|done].
    injection Hs as H1 H2. rewrite Et at 1. cbn [app].
    rewrite (proj2 (byte_eqb_false b x5b)) by (rewrite Et in Hop; set_solver).
    rewrite H1, Nat.add_1_r, H2.
    assert (contains_byte x3a t = false) as -> by by apply bool_decide_eq_false.
    by rewrite parse_port_str_dec.
Qed.

Lemma authority_ends_digit : ends_with [x5d] authority = false.
Proof.
  destruct (ends_with [x5d] authority) eqn:E; [|done]. exfalso.
  apply ends_with_spec in E as [r E]. unfold authority in E.
  assert (last (x3a :: to_dec (ep_port (endpoint h))) = Some x5d) as Hl.
  { pose proof (f_equal last E) as Hl. rewrite last_snoc, last_app in Hl.
    destruct (last (x3a :: to_dec (ep_port (endpoint h)))) eqn:E2; [done|].
    by apply last_None in E2. }
  apply last_Some_elem_of, elem_of_cons in Hl as [?|Hl]; [done|]. revert Hl. by apply to_dec_not_in.
Qed.

Lemma parse_plain_hop : parse_hop (fmt_redacted_hop h) = Ok h.
Proof.
  pose proof Hh as (Hp & Hu & Hne & Hr & Hpt & Hz & Hc & Hru & Hb & Hsn & Hi & Hpl & Ha).
  assert (find_userinfo_separator authority = None) as Hat
    by (apply find_userinfo_no_at, authority_not_in; set_solver).
  assert (length scheme_text + 3 = length (scheme_text ++ str "://")) as Hlen by (by rewrite length_app).
  rewrite fmt_plain_hop. unfold parse_hop, parse_local_bind, find_last_at_outside_scheme.
  rewrite find_scheme by apply scheme_no_colon. rewrite (app_assoc scheme_text), Hlen, drop_app_length, Hat.
  cbn [fmap option_fmap option_map obind]. rewrite <- app_assoc, find_scheme by apply scheme_no_colon.
  rewrite take_app_length, parse_scheme. cbn [obind].
  rewrite (app_assoc scheme_text), Hlen, drop_app_length.
  rewrite split_once_None by (apply authority_not_in; set_solver).
  assert (authority <> []) as Hane by (unfold authority; by destruct (format_host _)).
  destruct authority as [|b a] eqn:E; [done|]. rewrite <- E in *.
  rewrite bool_decide_eq_false_2 by done. rewrite Hat. cbn [obind].
  rewrite split_once_None by (apply authority_not_in; set_solver).
  rewrite split_once_None by (apply authority_not_in; set_solver).
  assert (parse_hop_endpoint (protocols h) authority = Ok (endpoint h)) as ->.
  { unfold parse_hop_endpoint.
    assert (contains_byte x3a authority = true) as ->
      by (apply bool_decide_eq_true; unfold authority; set_solver).
    rewrite authority_ends_digit, !andb_false_r. unfold parse_endpoint.
    rewrite E at 1. rewrite parse_authority_host_port. cbn. by destruct (endpoint h). }
  cbn [obind]. rewrite bool_decide_eq_false_2 by done. rewrite (proj2 (Z.eqb_neq _ _)) by done.
  f_equal. destruct h as [x1 x2 x3 x4 x5 x6 x7 x8 x9 x10]. cbn in *. by subst.
Qed.
End plain.

Lemma plain_text_nonempty h : plain_hop h -> fmt_redacted_hop h <> [].
Proof.
  intros Hh. rewrite fmt_plain_hop by done. pose proof (scheme_nonempty h Hh).
  by destruct (scheme_text h).
Qed.

Lemma join_not_underscore_start ts :
  ts <> [] -> (forall x, x ∈ ts -> exists h, plain_hop h /\ x = fmt_redacted_hop h) ->
  starts_with (str "__") (join_str (str "__") ts) = false.
Proof.
  intros Hne Hts. destruct ts as [|t ts]; [done|].
  destruct (Hts t ltac:(set_solver)) as (h & Hh & ->). rewrite join_str_cons, fmt_plain_hop by done.
  pose proof (scheme_nonempty h Hh) as Hs. destruct (scheme_text h) as [|b s] eqn:E; [done|].
  change (str "__") with [x5f; x5f]. cbn [app].
  apply starts_with_cons_ne. intros <-.
  destruct (scheme_text_chars h Hh x5f) as [?|(_ & Hn & _)]; [rewrite E; set_solver|done|].
  apply Hn. vm_compute. set_solver.
Qed.

Lemma join_not_underscore_end ts :
  ts <> [] -> (forall x, x ∈ ts -> exists h, plain_hop h /\ x = fmt_redacted_hop h) ->
  ends_with (str "__") (join_str (str "__") ts) = false.
Proof.
  intros Hne Hts. apply not_true_iff_false. intros H. apply ends_with_spec in H as [r H].
  destruct (join_str_last (str "__") ts Hne) as (p & x & Hx & E). rewrite E in H.
  destruct (Hts x Hx) as (h & Hh & ->). rewrite fmt_plain_hop in H by done. unfold authority in H.
  change (str "__") with ([x5f] ++ [x5f]) in H. apply (f_equal last) in H.
  rewrite (app_assoc r), last_snoc, !last_app in H.
  destruct (last (x3a :: to_dec (ep_port (endpoint h)))) as [c|] eqn:El; [|by apply last_None in El].
  injection H as ->. apply last_Some_elem_of, elem_of_cons in El as [?|El]; [done|].
  revert El. by apply to_dec_not_in.
Qed.

Lemma parse_plain_hops i hs :
  Forall plain_hop hs -> parse_hops i (map fmt_redacted_hop hs) = Ok hs.
Proof.
  revert i. induction hs as [|h hs IH]; intros i Hs; [done|]. apply Forall_cons in Hs as [Hh Hs].
  cbn [map parse_hops]. rewrite parse_plain_hop by done. cbn [map_err obind]. by rewrite IH.
Qed.

(** A chain of any length without credentials, rules, bind addresses or
    plugins is displayed as a URI that parses back to the same chain: hop
    separators, protocol lists with the [tls] modifier, bracketed IPv6 hosts
    and ports are all inverted by the parser. *)
Theorem plain_chain_roundtrip c :
  hops c <> [] -> Forall plain_hop (hops c) -> parse_proxy_chain (fmt_redacted c) = Ok c.
Proof.
  intros Hne Hp. unfold parse_proxy_chain, fmt_redacted.
  set (ts := map fmt_redacted_hop (hops c)).
  assert (Forall segment ts) as Hseg.
  { apply Forall_fmap. eapply Forall_impl; [exact Hp|]. intros h Hh. by apply hop_segment. }
  assert (ts <> []) as Htne by (unfold ts; by destruct (hops c)).
  assert (forall x, x ∈ ts -> exists h, plain_hop h /\ x = fmt_redacted_hop h) as Hts.
  { intros x Hx. apply list_elem_of_fmap in Hx as (h & -> & Hh). rewrite Forall_forall in Hp. eauto. }
  assert (split_hops (join_str (str "__") ts) = Ok ts) as Hsp.
  { unfold split_hops, split_chain_hops. rewrite split_hops_join by done. cbn [map_err obind].
    assert (existsb (fun h => bool_decide (h = [])) ts = false) as ->.
    { apply not_true_iff_false. intros H. apply existsb_exists in H as (x & Hx & Hn).
      apply bool_decide_eq_true in Hn as ->. apply list_elem_of_In in Hx.
      destruct (Hts _ Hx) as (h & Hh & E). by apply (plain_text_nonempty h Hh). }
    rewrite join_not_underscore_start, join_not_underscore_end by done. done. }
  assert (join_str (str "__") ts <> []) as Hjne.
  { intros E. rewrite E in Hsp. unfold split_hops in Hsp. cbn in Hsp. done. }
  destruct (join_str (str "__") ts) eqn:E; [done|]. rewrite Hsp. cbn [obind].
  destruct ts as [|t ts'] eqn:Ets; [done|]. rewrite <- Ets. unfold ts.
  rewrite parse_plain_hops by done. cbn. by destruct c.
Qed.

Definition demo_chain : ProxyChainSpec :=
  {| hops :=
       [{| protocols := [SSocks5; SHttp]; endpoint := {| ep_host := str "::1"; ep_port := 1080 |};
           credentials := None; rule := None; local_bind_spec := None; tls := true;
           server_name := None; insecure := false; plugins := []; auth_prefix := None |};
        {| protocols := [STrojan]; endpoint := {| ep_host := str "proxy.example"; ep_port := 443 |};
           credentials := None; rule := None; local_bind_spec := None; tls := false;
           server_name := None; insecure := false; plugins := []; auth_prefix := None |}] |}.

Lemma plain_chain_roundtrip_witness : parse_proxy_chain (fmt_redacted demo_chain) = Ok demo_chain.
Proof.
  apply plain_chain_roundtrip; [discriminate|].
  repeat (apply Forall_cons; split); [| |apply Forall_nil; exact I];
    (split_and!; try reflexivity; try discriminate; try (split; [discriminate|reflexivity]);
     apply Forall_forall, (bool_decide_unpack _); vm_compute; exact I).
Defined.
