(* ===== verification/Capability.v ===== *)
(** * Transport capabilities of upstream chains

    [eggress-core/src/capability.rs]: which transports a chain of proxy hops
    can carry.  Configuration validation, the admin endpoints and the UDP relay
    all consult this classification. *)

From S2P Require Import Prelude Bytes NetAddr Dispatch Uri.

Inductive CapabilityResult :=
| Supported
| UnsupportedProtocolCap (protocol : bytes)
| UnsupportedChain (reason : bytes).

#[export] Instance CapabilityResult_eq_dec : EqDecision CapabilityResult.
Proof. solve_decision. Defined.

Record UpstreamCapabilities := { tcp_connect_cap : CapabilityResult; udp_associate : CapabilityResult }.

Definition is_tcp_supported (c : UpstreamCapabilities) : bool := bool_decide (tcp_connect_cap c = Supported).
Definition is_udp_supported (c : UpstreamCapabilities) : bool := bool_decide (udp_associate c = Supported).

Definition tcp_only (protocol : string) : UpstreamCapabilities :=
  {| tcp_connect_cap := Supported; udp_associate := UnsupportedProtocolCap (str protocol) |}.

Definition classify_single_protocol (p : ProtocolSpec) : UpstreamCapabilities :=
  match p with
  | SHttp | SHttpOnly => tcp_only "Http"
  | SSocks4 => tcp_only "Socks4"
  | SSocks5 => {| tcp_connect_cap := Supported; udp_associate := Supported |}
  | SShadowsocks => {| tcp_connect_cap := Supported; udp_associate := Supported |}
  | SShadowsocksR => tcp_only "ShadowsocksR"
  | STrojan => tcp_only "Trojan"
  | SHttp2 => tcp_only "Http2"
  | SHttp3 => tcp_only "Http3"
  | SQuic => {| tcp_connect_cap := UnsupportedChain (str "QUIC requires an application protocol");
                udp_associate := UnsupportedProtocolCap (str "Quic") |}
  | SWebSocket => tcp_only "WebSocket"
  | SRaw => tcp_only "Raw"
  | SSsh => tcp_only "Ssh"
  | SUnix => tcp_only "Unix"
  end.

(** The applications a QUIC hop can carry. *)
Definition quic_application (p : ProtocolSpec) : bool :=
  match p with SHttp | SHttpOnly | SSocks4 | SSocks5 | SRaw => true | _ => false end.

(** A hop with a UDP codec. *)
Definition udp_hop (h : ProxyHopSpec) : bool :=
  match protocols h with
  | [p] => match p with SSocks5 | SShadowsocks => true | _ => false end
  | _ => false
  end.

Definition contains_proto (p : ProtocolSpec) (l : list ProtocolSpec) : bool := bool_decide (p ∈ l).

Definition classify_upstream_chain (chain : ProxyChainSpec) : UpstreamCapabilities :=
  match hops chain with
  | [] => {| tcp_connect_cap := UnsupportedChain (str "direct");
             udp_associate := UnsupportedChain (str "direct") |}
  | [hop] =>
      match protocols hop with
      | [p] => classify_single_protocol p
      | ps =>
          if contains_proto SQuic ps && existsb quic_application ps then
            {| tcp_connect_cap := Supported;
               udp_associate := UnsupportedProtocolCap (str "QUIC UDP stream mapping") |}
          else
            {| tcp_connect_cap := UnsupportedChain (str "multi-protocol");
               udp_associate := UnsupportedChain (str "multi-protocol") |}
      end
  | first :: _ =>
      if contains_proto SQuic (protocols first) then
        {| tcp_connect_cap := Supported;
           udp_associate :=
             UnsupportedChain (str "QUIC UDP stream mapping is only supported at the first hop") |}
      else
        {| tcp_connect_cap := Supported;
           udp_associate :=
             if forallb udp_hop (hops chain) then Supported
             else UnsupportedChain (str "multi-hop contains a non-UDP protocol") |}
  end.

(** ** Properties *)

Lemma udp_hop_spec h :
  udp_hop h = true <-> protocols h = [SSocks5] \/ protocols h = [SShadowsocks].
Proof.
  unfold udp_hop. destruct (protocols h) as [|[] []]; split;
    (intros [?|?] || intros ? || idtac); try done; auto.
Qed.

Lemma udp_hops_forallb l :
  Forall (fun h => protocols h = [SSocks5] \/ protocols h = [SShadowsocks]) l <-> forallb udp_hop l = true.
Proof.
  rewrite forallb_forall, Forall_forall. setoid_rewrite udp_hop_spec.
  split; intros H x Hx; apply H; by apply list_elem_of_In.
Qed.

Lemma udp_supported_iff chain :
  is_udp_supported (classify_upstream_chain chain) = true <->
  hops chain <> [] /\
  Forall (fun h => protocols h = [SSocks5] \/ protocols h = [SShadowsocks]) (hops chain).
Proof.
  rewrite udp_hops_forallb. unfold classify_upstream_chain, is_udp_supported.
  destruct (hops chain) as [|h [|h2 l]].
  - split; [done|by intros [? _]].
  - cbn [forallb]. unfold udp_hop. destruct (protocols h) as [|p [|q ps]].
    + split; [done|by intros [_ ?]].
    + destruct p; try (split; [done|by intros [_ ?]]); (split; [by split|done]).
    + destruct (_ && _); (split; [done|by intros [_ ?]]).
  - destruct (contains_proto SQuic (protocols h)) eqn:Q.
    + split; [done|]. intros [_ Hu]. cbn [forallb] in Hu.
      apply andb_true_iff in Hu as [Hu _]. apply udp_hop_spec in Hu.
      apply bool_decide_eq_true in Q. destruct Hu as [E|E]; rewrite E in Q; set_solver.
    + cbn. destruct (udp_hop h && _) eqn:E; cbn; (split; [|by intros [_ ?]]); done.
Qed.

(** UDP is supported over exactly the non-empty chains every hop of which
    speaks SOCKS5 or Shadowsocks and nothing else; and over every such chain TCP
    is supported too. *)
Theorem udp_capability_exact chain :
  (is_udp_supported (classify_upstream_chain chain) = true <->
   hops chain <> [] /\
   Forall (fun h => protocols h = [SSocks5] \/ protocols h = [SShadowsocks]) (hops chain)) /\
  (is_udp_supported (classify_upstream_chain chain) = true ->
   is_tcp_supported (classify_upstream_chain chain) = true).
Proof.
  split; [apply udp_supported_iff|]. rewrite udp_supported_iff. intros [Hne Hall].
  unfold classify_upstream_chain, is_tcp_supported. destruct (hops chain) as [|h [|h2 l]]; [done| |].
  - apply Forall_cons in Hall as [[E|E] _]; by rewrite E.
  - by destruct (contains_proto SQuic (protocols h)).
Qed.

Lemma udp_capability_exact_witness :
  is_udp_supported (classify_upstream_chain
    {| hops := [demo_hop "u" "p"; demo_hop "v" "q"] |}) = true /\
  is_tcp_supported (classify_upstream_chain {| hops := [demo_hop "u" "p"; demo_hop "v" "q"] |}) = true.
Proof.
  split; [|apply udp_capability_exact; reflexivity].
  apply udp_capability_exact. split; [done|]. repeat constructor.
Defined.
