(* ===== verification/Health.v ===== *)
(** * Upstream health

    [eggress-routing/src/health.rs]: the health state machine of an upstream,
    its published atomic state, and the probe result it is fed with.

    Instants and durations are integers; the clock reading of an observation is
    an argument.  [u32] counters saturate. *)

From S2P Require Import Prelude Bytes.
Local Open Scope Z_scope.

Inductive HealthState := Unknown | Healthy | Suspect | Unhealthy | Recovering | Disabled.

#[export] Instance HealthState_eq_dec : EqDecision HealthState.
Proof. solve_decision. Defined.

Record HealthSnapshot := {
  hs_state : HealthState;
  consecutive_successes : Z;
  consecutive_failures : Z;
  last_checked_at : option Z;
  last_success_at : option Z;
  last_failure_at : option Z;
  last_latency : option Z;
  last_error : option bytes
}.

Record HealthConfig := {
  interval : Z;
  hc_timeout : Z;
  failures_to_unhealthy : Z;
  successes_to_healthy : Z;
  initial_state : HealthState
}.

Definition HealthConfig_default : HealthConfig :=
  {| interval := 30 * NANOS; hc_timeout := 5 * NANOS; failures_to_unhealthy := 3; successes_to_healthy := 2;
     initial_state := Unknown |}.

(** The snapshot behind the lock and the published [AtomicU8]. *)
Record HealthCell := { inner : HealthSnapshot; state_byte : Z }.

Definition encode_state (s : HealthState) : Z :=
  match s with
  | Unknown => 0 | Healthy => 1 | Suspect => 2 | Unhealthy => 3 | Recovering => 4 | Disabled => 5
  end.

Definition decode_state (v : Z) : HealthState :=
  if v =? 0 then Unknown
  else if v =? 1 then Healthy
  else if v =? 2 then Suspect
  else if v =? 3 then Unhealthy
  else if v =? 4 then Recovering
  else if v =? 5 then Disabled
  else Unknown.

Definition cell_new (initial : HealthState) : HealthCell :=
  {| inner := {| hs_state := initial; consecutive_successes := 0; consecutive_failures := 0;
                 last_checked_at := None; last_success_at := None; last_failure_at := None;
                 last_latency := None; last_error := None |};
     state_byte := encode_state initial |}.

(** [HealthCell::state]: the lock-free read. *)
Definition cell_state (c : HealthCell) : HealthState := decode_state (state_byte c).

Definition U32_MAX : Z := 2 ^ 32 - 1.
Definition saturating_add1 (z : Z) : Z := Z.min (z + 1) U32_MAX.

Definition next_on_success (s : HealthState) (succ : Z) (config : HealthConfig) : HealthState :=
  match s with
  | Disabled => Disabled
  | Unhealthy => Recovering
  | Recovering => if successes_to_healthy config <=? succ then Healthy else Recovering
  | Suspect => if successes_to_healthy config <=? succ then Healthy else Suspect
  | Unknown => if successes_to_healthy config <=? succ then Healthy else Unknown
  | Healthy => Healthy
  end.

Definition observe_success (latency now : Z) (config : HealthConfig) (c : HealthCell) : HealthCell :=
  let snap := inner c in
  let succ := saturating_add1 (consecutive_successes snap) in
  let st := next_on_success (hs_state snap) succ config in
  {| inner := {| hs_state := st; consecutive_successes := succ; consecutive_failures := 0;
                 last_checked_at := Some now; last_success_at := Some now;
                 last_failure_at := last_failure_at snap; last_latency := Some latency;
                 last_error := None |};
     state_byte := encode_state st |}.

Definition next_on_failure (s : HealthState) (fail : Z) (config : HealthConfig) : HealthState :=
  match s with
  | Disabled => Disabled
  | Unhealthy => Unhealthy
  | Recovering => if failures_to_unhealthy config <=? fail then Unhealthy else Recovering
  | Healthy => if failures_to_unhealthy config <=? fail then Unhealthy else Suspect
  | Suspect => if failures_to_unhealthy config <=? fail then Unhealthy else Suspect
  | Unknown => if failures_to_unhealthy config <=? fail then Unhealthy else Suspect
  end.

Definition observe_failure (error : option bytes) (now : Z) (config : HealthConfig) (c : HealthCell)
    : HealthCell :=
  let snap := inner c in
  let fail := saturating_add1 (consecutive_failures snap) in
  let st := next_on_failure (hs_state snap) fail config in
  {| inner := {| hs_state := st; consecutive_successes := 0; consecutive_failures := fail;
                 last_checked_at := Some now; last_success_at := last_success_at snap;
                 last_failure_at := Some now; last_latency := None; last_error := error |};
     state_byte := encode_state st |}.

(** ** Probes *)

Record ProbeResult := { success : bool; latency : Z; error : option bytes }.

Inductive connect_result := Connected | ConnectFailed (e : bytes) | ConnectTimedOut.

(** [probe_tcp], given how the connection attempt ended and how long it took. *)
Definition probe_tcp (result : connect_result) (elapsed : Z) : ProbeResult :=
  match result with
  | Connected => {| success := true; latency := elapsed; error := None |}
  | ConnectFailed e => {| success := false; latency := elapsed; error := Some e |}
  | ConnectTimedOut => {| success := false; latency := elapsed; error := Some (str "timeout") |}
  end.

(** One turn of the probe task: the result is recorded in the cell. *)
Definition record_probe (config : HealthConfig) (now : Z) (r : ProbeResult) (c : HealthCell) : HealthCell :=
  if success r then observe_success (latency r) now config c
  else observe_failure (error r) now config c.

(** ** Histories *)

(** A history of probe results, oldest first, with the time of each. *)
Definition history := list (Z * ProbeResult).

Definition run (config : HealthConfig) (h : history) (c : HealthCell) : HealthCell :=
  foldl (fun c '(now, r) => record_probe config now r c) c h.

Fixpoint leading (b : bool) (l : history) : Z :=
  match l with
  | [] => 0
  | (_, r) :: l' => if Bool.eqb (success r) b then 1 + leading b l' else 0
  end.

(** The number of most recent probes that all succeeded ([b = true]) or all
    failed ([b = false]). *)
Definition trailing (b : bool) (h : history) : Z := leading b (rev h).

Lemma leading_nonneg b l : 0 <= leading b l.
Proof. induction l as [|[t r] l IH]; simpl; [lia|]. destruct (Bool.eqb _ _); lia. Qed.

Lemma trailing_nonneg b h : 0 <= trailing b h.
Proof. apply leading_nonneg. Qed.

Lemma trailing_snoc b h t r :
  trailing b (h ++ [(t, r)]) = if Bool.eqb (success r) b then 1 + trailing b h else 0.
Proof. unfold trailing. by rewrite rev_app_distr. Qed.

Lemma run_snoc config h t r c :
  run config (h ++ [(t, r)]) c = record_probe config t r (run config h c).
Proof. unfold run. by rewrite foldl_app. Qed.

Lemma decode_encode s : decode_state (encode_state s) = s.
Proof. by destruct s. Qed.

Section health.
Context (config : HealthConfig) (initial : HealthState).

Abbreviation final h := (run config h (cell_new initial)).

Lemma run_counters h :
  consecutive_successes (inner (final h)) = Z.min (trailing true h) U32_MAX /\
  consecutive_failures (inner (final h)) = Z.min (trailing false h) U32_MAX.
Proof.
  assert (0 < U32_MAX) by done.
  induction h as [|[t r] h [IH1 IH2]] using rev_ind; [vm_compute; done|].
  rewrite run_snoc, !trailing_snoc. pose proof (trailing_nonneg true h). pose proof (trailing_nonneg false h).
  unfold record_probe. destruct (success r); cbn; unfold saturating_add1; rewrite ?IH1, ?IH2; lia.
Qed.

Lemma run_published h : cell_state (final h) = hs_state (inner (final h)).
Proof.
  destruct h as [|[t r] h _] using rev_ind; [apply decode_encode|].
  rewrite run_snoc. unfold record_probe. destruct (success r); apply decode_encode.
Qed.

(** The state machine on the last probe. *)
Lemma run_state_snoc h t r :
  hs_state (inner (final (h ++ [(t, r)]))) =
  if success r
  then next_on_success (hs_state (inner (final h))) (Z.min (1 + trailing true h) U32_MAX) config
  else next_on_failure (hs_state (inner (final h))) (Z.min (1 + trailing false h) U32_MAX) config.
Proof.
  rewrite run_snoc. unfold record_probe. destruct (run_counters h) as [H1 H2].
  destruct (success r); cbn; [rewrite H1|rewrite H2]; f_equal; unfold saturating_add1; lia.
Qed.

Lemma run_disabled h : initial = Disabled <-> hs_state (inner (final h)) = Disabled.
Proof.
  induction h as [|[t r] h IH] using rev_ind; [done|].
  rewrite run_state_snoc, IH. destruct (success r), (hs_state (inner (final h))); simpl;
    try done; destruct (_ <=? _); done.
Qed.

Hypothesis Hthr : failures_to_unhealthy config <= U32_MAX.
Hypothesis Hthr' : successes_to_healthy config <= U32_MAX.

Lemma run_unhealthy h :
  initial <> Disabled -> initial <> Unhealthy ->
  (hs_state (inner (final h)) = Unhealthy <->
   1 <= trailing false h /\ failures_to_unhealthy config <= trailing false h).
Proof.
  assert (0 < U32_MAX) by done.
  intros Hd Hu. induction h as [|[t r] h IH] using rev_ind.
  - split; [done|]. unfold trailing. simpl. lia.
  - assert (hs_state (inner (final h)) <> Disabled) as Hnd by (rewrite <- run_disabled; done).
    rewrite run_state_snoc, trailing_snoc. pose proof (trailing_nonneg false h).
    destruct (success r); cbn [Bool.eqb].
    + destruct (hs_state (inner (final h))); simpl; try (split; [done|lia]);
        destruct (_ <=? _); (split; [done|lia]).
    + destruct (hs_state (inner (final h))) eqn:E; try done; simpl;
        try (destruct (Z.leb_spec (failures_to_unhealthy config) (Z.min (1 + trailing false h) U32_MAX));
             (split; [done || lia|done || lia])).
      assert (Unhealthy = Unhealthy) as Hr by done. apply IH in Hr. split; [lia|done].
Qed.

Lemma run_healthy_sound h :
  initial <> Healthy -> hs_state (inner (final h)) = Healthy ->
  1 <= trailing true h /\ successes_to_healthy config <= trailing true h.
Proof.
  assert (0 < U32_MAX) by done.
  intros Hi. induction h as [|[t r] h IH] using rev_ind; [done|].
  rewrite run_state_snoc, trailing_snoc. pose proof (trailing_nonneg true h).
  destruct (success r); cbn [Bool.eqb].
  - destruct (hs_state (inner (final h))) eqn:E; simpl; try done;
      try (destruct (Z.leb_spec (successes_to_healthy config) (Z.min (1 + trailing true h) U32_MAX));
           intros; (done || lia)).
    intros _. destruct (IH eq_refl). lia.
  - destruct (hs_state (inner (final h))); simpl; try done; by destruct (_ <=? _).
Qed.

Lemma run_healthy_complete h :
  initial <> Disabled -> 2 <= trailing true h -> successes_to_healthy config <= trailing true h ->
  hs_state (inner (final h)) = Healthy.
Proof.
  assert (0 < U32_MAX) by done.
  intros Hd H2 Hs. destruct h as [|[t r] h _] using rev_ind; [by unfold trailing in H2|].
  assert (hs_state (inner (final h)) <> Disabled) as Hnd by (rewrite <- run_disabled; done).
  rewrite run_state_snoc. rewrite trailing_snoc in H2, Hs. destruct (success r); cbn [Bool.eqb] in *; [|lia].
  assert (hs_state (inner (final h)) <> Unhealthy) as Hnu.
  { destruct h as [|[t' r'] h _] using rev_ind; [unfold trailing in H2; simpl in H2; lia|].
    rewrite run_state_snoc. rewrite trailing_snoc in H2. destruct (success r'); cbn [Bool.eqb] in *; [|lia].
    destruct (hs_state (inner (final h))); simpl; try done; by destruct (_ <=? _). }
  destruct (hs_state (inner (final h))); simpl; try done;
    destruct (Z.leb_spec (successes_to_healthy config) (Z.min (1 + trailing true h) U32_MAX)); done || lia.
Qed.
End health.

(** Whatever the probes report, the state routing reads without the lock is
    the state of the snapshot, and the two counters are the lengths of the
    current runs of successes and of failures, saturated at [u32::MAX]. *)
Theorem health_cell_consistent config initial h :
  let c := run config h (cell_new initial) in
  cell_state c = hs_state (inner c) /\
  consecutive_successes (inner c) = Z.min (trailing true h) U32_MAX /\
  consecutive_failures (inner c) = Z.min (trailing false h) U32_MAX.
Proof. split; [apply run_published|apply run_counters]. Qed.

(** Hysteresis.  An upstream that is not disabled is unhealthy exactly when
    the most recent probes failed, at least [failures_to_unhealthy] of them and
    at least one; it is healthy only after [successes_to_healthy] successes in
    a row, and it is healthy as soon as that many (and at least two, the first
    of which may only start the recovery) have succeeded. *)
Theorem health_hysteresis config initial h :
  failures_to_unhealthy config <= U32_MAX -> successes_to_healthy config <= U32_MAX ->
  initial <> Disabled ->
  let s := cell_state (run config h (cell_new initial)) in
  (initial <> Unhealthy ->
     (s = Unhealthy <-> 1 <= trailing false h /\ failures_to_unhealthy config <= trailing false h)) /\
  (initial <> Healthy ->
     s = Healthy -> 1 <= trailing true h /\ successes_to_healthy config <= trailing true h) /\
  (2 <= trailing true h -> successes_to_healthy config <= trailing true h -> s = Healthy).
Proof.
  intros Hf Hs Hd. simpl. rewrite run_published. split; [|split].
  - intros Hu. by apply run_unhealthy.
  - intros Hi. by apply run_healthy_sound.
  - by apply run_healthy_complete.
Qed.

(** Three failures, then three successes, with the default thresholds. *)
Definition probe_ok : ProbeResult := {| success := true; latency := 1; error := None |}.
Definition probe_ko : ProbeResult := probe_tcp ConnectTimedOut 5.
Definition demo_outage : history := [(1, probe_ok); (2, probe_ko); (3, probe_ko); (4, probe_ko)].
Definition demo_recovery : history := demo_outage ++ [(5, probe_ok); (6, probe_ok)].

Lemma health_hysteresis_witness :
  cell_state (run HealthConfig_default demo_outage (cell_new Unknown)) = Unhealthy /\
  cell_state (run HealthConfig_default demo_recovery (cell_new Unknown)) = Healthy.
Proof.
  split.
  - refine (proj2 (proj1 (health_hysteresis HealthConfig_default Unknown demo_outage _ _ _) _) _);
      vm_compute; (split; discriminate) || discriminate.
  - refine (proj2 (proj2 (health_hysteresis HealthConfig_default Unknown demo_recovery _ _ _)) _ _);
      vm_compute; discriminate.
Defined.
