(* ===== verification/Upstream.v ===== *)
(** * Upstreams and leases

    [eggress-routing/src/upstream.rs] and [lease.rs], and [is_eligible] of
    [health.rs].  Upstreams are shared ([Arc]): they live in a heap and the
    program holds their addresses.  Leases count the connections on an upstream
    through its two [AtomicU64] counters; [fetch_add] and [fetch_sub] wrap. *)

From S2P Require Import Prelude Bytes Uri Health.
Local Open Scope Z_scope.

Definition U64 : Z := 2 ^ 64.
Definition wrap64 (z : Z) : Z := z mod U64.

Record UpstreamRuntime := {
  id : bytes;
  chain : ProxyChainSpec;
  enabled : bool;
  active : Z;
  in_flight : Z;
  health : HealthCell;
  health_probe : option (bytes * Z);       (* TcpConnect target, timeout *)
  health_config : HealthConfig
}.

Definition upstream_new (i : bytes) (c : ProxyChainSpec) : UpstreamRuntime :=
  {| id := i; chain := c; enabled := true; active := 0; in_flight := 0;
     health := cell_new (initial_state HealthConfig_default); health_probe := None;
     health_config := HealthConfig_default |}.

Definition new_with_health (i : bytes) (c : ProxyChainSpec) (s : HealthState) : UpstreamRuntime :=
  {| id := i; chain := c; enabled := true; active := 0; in_flight := 0;
     health := cell_new s; health_probe := None; health_config := HealthConfig_default |}.

Definition with_health_probe (u : UpstreamRuntime) (p : bytes * Z) : UpstreamRuntime :=
  {| id := id u; chain := chain u; enabled := enabled u; active := active u;
     in_flight := in_flight u; health := health u; health_probe := Some p;
     health_config := health_config u |}.

Definition with_health_config (u : UpstreamRuntime) (c : HealthConfig) : UpstreamRuntime :=
  {| id := id u; chain := chain u; enabled := enabled u; active := active u;
     in_flight := in_flight u; health := cell_new (initial_state c);
     health_probe := health_probe u; health_config := c |}.

Definition is_enabled (u : UpstreamRuntime) : bool := enabled u.

Definition set_enabled (b : bool) (u : UpstreamRuntime) : UpstreamRuntime :=
  {| id := id u; chain := chain u; enabled := b; active := active u; in_flight := in_flight u;
     health := health u; health_probe := health_probe u; health_config := health_config u |}.

Definition set_counters (a f : Z) (u : UpstreamRuntime) : UpstreamRuntime :=
  {| id := id u; chain := chain u; enabled := enabled u; active := wrap64 a;
     in_flight := wrap64 f; health := health u; health_probe := health_probe u;
     health_config := health_config u |}.

Definition set_health (c : HealthCell) (u : UpstreamRuntime) : UpstreamRuntime :=
  {| id := id u; chain := chain u; enabled := enabled u; active := active u;
     in_flight := in_flight u; health := c; health_probe := health_probe u;
     health_config := health_config u |}.

(** The sum of the two counters, as a [u64]. *)
Definition current_load (u : UpstreamRuntime) : Z := wrap64 (active u + in_flight u).

(** [is_eligible] (health.rs). *)
Definition is_eligible (u : UpstreamRuntime) : bool :=
  if negb (is_enabled u) then false
  else match cell_state (health u) with
  | Unknown | Healthy | Suspect | Recovering => true
  | Unhealthy | Disabled => false
  end.

(** ** Groups *)

Inductive GroupFallback := FbReject | FbDirect | FbUseUnhealthy.

Inductive ValidationError := EmptyGroup | DuplicateUpstreamId.

(** The [HashSet] of identifiers seen, while walking the members. *)
Fixpoint validate_members (seen : gset bytes) (ids : list bytes) : outcome ValidationError unit :=
  match ids with
  | [] => Ok tt
  | i :: r =>
      if bool_decide (i ∈ seen) then Err DuplicateUpstreamId
      else validate_members ({[i]} ∪ seen) r
  end.

Definition validate_group (ids : list bytes) : outcome ValidationError unit :=
  match ids with
  | [] => Err EmptyGroup
  | _ => validate_members ∅ ids
  end.

(** ** Leases (lease.rs) *)

Abbreviation heap := (list UpstreamRuntime).

Inductive LeaseState := Pending | Transferred.
Record PendingLease := { pl_upstream : nat; pl_state : LeaseState }.
Record ActiveLease := { al_upstream : nat }.

Definition fetch_add_in_flight (n : Z) (u : UpstreamRuntime) : UpstreamRuntime :=
  set_counters (active u) (in_flight u + n) u.
Definition fetch_add_active (n : Z) (u : UpstreamRuntime) : UpstreamRuntime :=
  set_counters (active u + n) (in_flight u) u.

(** [PendingLease::new]. *)
Definition pending_new (i : nat) (h : heap) : PendingLease * heap :=
  ({| pl_upstream := i; pl_state := Pending |}, alter (fetch_add_in_flight 1) i h).

(** [Drop for PendingLease]. *)
Definition pending_drop (l : PendingLease) (h : heap) : heap :=
  match pl_state l with
  | Pending => alter (fetch_add_in_flight (-1)) (pl_upstream l) h
  | Transferred => h
  end.

(** [PendingLease::established], up to and with its first atomic access: the
    lease is marked as transferred and the in-flight count given up. *)
Definition leave_pending (l : PendingLease) (h : heap) : PendingLease * heap :=
  let this := {| pl_upstream := pl_upstream l; pl_state := Transferred |} in
  (this, alter (fetch_add_in_flight (-1)) (pl_upstream l) h).

(** Its second atomic access and its end: the active lease is made and the
    consumed lease dropped, in state [Transferred]. *)
Definition enter_active (this : PendingLease) (h : heap) : ActiveLease * heap :=
  ({| al_upstream := pl_upstream this |},
   pending_drop this (alter (fetch_add_active 1) (pl_upstream this) h)).

Definition established (l : PendingLease) (h : heap) : ActiveLease * heap :=
  let '(this, h1) := leave_pending l h in enter_active this h1.

(** [Drop for ActiveLease]. *)
Definition active_drop (l : ActiveLease) (h : heap) : heap :=
  alter (fetch_add_active (-1)) (al_upstream l) h.

(** ** Interleavings

    Each atomic access is a step of its own; any number of tasks hold leases.
    A lease inside [established] has given up its in-flight count and not yet
    taken its active count. *)
Inductive phase := PhPending | PhMoving | PhActive.
#[export] Instance phase_eq_dec : EqDecision phase.
Proof. solve_decision. Defined.

Record system := { heap_of : heap; leases : list (nat * phase) }.

Inductive step : system -> system -> Prop :=
| step_new i h ls :
    (i < length h)%nat ->
    step {| heap_of := h; leases := ls |}
         {| heap_of := (pending_new i h).2; leases := (i, PhPending) :: ls |}
| step_drop_pending i h l r :
    step {| heap_of := h; leases := l ++ (i, PhPending) :: r |}
         {| heap_of := pending_drop {| pl_upstream := i; pl_state := Pending |} h; leases := l ++ r |}
| step_leave_pending i h l r :
    step {| heap_of := h; leases := l ++ (i, PhPending) :: r |}
         {| heap_of := (leave_pending {| pl_upstream := i; pl_state := Pending |} h).2;
            leases := l ++ (i, PhMoving) :: r |}
| step_enter_active i h l r :
    step {| heap_of := h; leases := l ++ (i, PhMoving) :: r |}
         {| heap_of := (enter_active {| pl_upstream := i; pl_state := Transferred |} h).2;
            leases := l ++ (i, PhActive) :: r |}
| step_drop_active i h l r :
    step {| heap_of := h; leases := l ++ (i, PhActive) :: r |}
         {| heap_of := active_drop {| al_upstream := i |} h; leases := l ++ r |}
| step_set_enabled i b h ls :
    step {| heap_of := h; leases := ls |}
         {| heap_of := alter (set_enabled b) i h; leases := ls |}
| step_probe i now r h ls :
    step {| heap_of := h; leases := ls |}
         {| heap_of := alter (fun u => set_health (record_probe (health_config u) now r (health u)) u) i h;
            leases := ls |}.

(** Number of leases of upstream [i] in phase [p]. *)
Definition count (i : nat) (p : phase) (ls : list (nat * phase)) : Z :=
  Z.of_nat (length (filter (fun x => x = (i, p)) ls)).

Definition accounted (s : system) : Prop := forall i u,
  heap_of s !! i = Some u ->
  in_flight u = wrap64 (count i PhPending (leases s)) /\
  active u = wrap64 (count i PhActive (leases s)).

Lemma count_cons i p x ls :
  count i p (x :: ls) = (if decide (x = (i, p)) then 1 else 0) + count i p ls.
Proof. unfold count. rewrite filter_cons. destruct (decide _); cbn [length]; lia. Qed.

Lemma count_app i p l r : count i p (l ++ r) = count i p l + count i p r.
Proof. unfold count. rewrite filter_app, length_app. lia. Qed.

Lemma wrap64_add a b : wrap64 (wrap64 a + b) = wrap64 (a + b).
Proof. unfold wrap64, U64. apply Z.add_mod_idemp_l. done. Qed.

Lemma wrap64_idem a : wrap64 (wrap64 a) = wrap64 a.
Proof. unfold wrap64. by apply Z.mod_mod. Qed.

(** Updating one upstream and the leases, with the change of each counter. *)
Lemma accounted_alter s i f ls' da df :
  accounted s ->
  (forall u, in_flight (f u) = wrap64 (in_flight u + df)) ->
  (forall u, active (f u) = wrap64 (active u + da)) ->
  (forall j, j <> i -> count j PhPending ls' = count j PhPending (leases s) /\
                      count j PhActive ls' = count j PhActive (leases s)) ->
  count i PhPending ls' = count i PhPending (leases s) + df ->
  count i PhActive ls' = count i PhActive (leases s) + da ->
  accounted {| heap_of := alter f i (heap_of s); leases := ls' |}.
Proof.
  intros Ha Hf Hg Hj H1 H2 j u Hu. cbn [heap_of leases] in *. destruct (decide (j = i)) as [->|Hne].
  - rewrite list_lookup_alter_eq in Hu. apply fmap_Some in Hu as (v & Hv & ->).
    destruct (Ha _ _ Hv) as [E1 E2]. by rewrite Hf, Hg, E1, E2, !wrap64_add, H1, H2.
  - rewrite list_lookup_alter_ne in Hu by congruence. destruct (Ha _ _ Hu) as [-> ->].
    destruct (Hj j Hne) as [-> ->]. done.
Qed.

Lemma accounted_same s i f :
  accounted s -> (forall u, in_flight (f u) = in_flight u /\ active (f u) = active u) ->
  accounted {| heap_of := alter f i (heap_of s); leases := leases s |}.
Proof.
  intros Ha Hf j u Hu. cbn [heap_of leases] in *. destruct (decide (j = i)) as [->|Hne].
  - rewrite list_lookup_alter_eq in Hu. apply fmap_Some in Hu as (v & Hv & ->).
    destruct (Hf v) as [-> ->]. by apply Ha.
  - rewrite list_lookup_alter_ne in Hu by congruence. by apply Ha.
Qed.

Ltac count_solve :=
  intros; cbn [leases]; rewrite ?count_app, ?count_cons;
  repeat match goal with |- context [decide ?P] => destruct (decide P); try congruence end; lia.

(** The side conditions of [accounted_alter] at a concrete step. *)
Ltac alter_solve :=
  first [ done
        | by (intros u; cbn; rewrite Z.add_0_r)
        | (intros j Hj; split; count_solve)
        | count_solve ].

Lemma step_accounted s s' : step s s' -> accounted s -> accounted s'.
Proof.
  intros Hst Ha. destruct Hst as [i h ls Hi|i h l r|i h l r|i h l r|i h l r|i b h ls|i now p h ls].
  - apply (accounted_alter {| heap_of := h; leases := ls |} i (fetch_add_in_flight 1) _ 0 1);
      alter_solve.
  - apply (accounted_alter {| heap_of := h; leases := l ++ (i, PhPending) :: r |} i
      (fetch_add_in_flight (-1)) _ 0 (-1)); alter_solve.
  - apply (accounted_alter {| heap_of := h; leases := l ++ (i, PhPending) :: r |} i
      (fetch_add_in_flight (-1)) _ 0 (-1)); alter_solve.
  - apply (accounted_alter {| heap_of := h; leases := l ++ (i, PhMoving) :: r |} i
      (fetch_add_active 1) _ 1 0); alter_solve.
  - apply (accounted_alter {| heap_of := h; leases := l ++ (i, PhActive) :: r |} i
      (fetch_add_active (-1)) _ (-1) 0); alter_solve.
  - by apply (accounted_same {| heap_of := h; leases := ls |}).
  - by apply (accounted_same {| heap_of := h; leases := ls |}).
Qed.

(** A system that starts with fresh upstreams and no lease. *)
Definition fresh (h : heap) : Prop := Forall (fun u => active u = 0 /\ in_flight u = 0) h.

Lemma fresh_accounted h : fresh h -> accounted {| heap_of := h; leases := [] |}.
Proof.
  intros Hf i u Hu. unfold fresh in Hf. rewrite Forall_lookup in Hf.
  by destruct (Hf _ _ Hu) as [-> ->].
Qed.

Lemma reachable_accounted h s :
  fresh h -> rtc step {| heap_of := h; leases := [] |} s -> accounted s.
Proof.
  intros Hf Hr. pose proof (fresh_accounted h Hf) as H0. revert H0.
  induction Hr as [|s1 s2 s3 Hs _ IH]; [done|]. intros H0. by apply IH, (step_accounted s1).
Qed.

(** [established] is the two atomic steps of a hand-over. *)
Lemma established_steps i h l r :
  rtc step {| heap_of := h; leases := l ++ (i, PhPending) :: r |}
    {| heap_of := (established {| pl_upstream := i; pl_state := Pending |} h).2;
       leases := l ++ (i, PhActive) :: r |}.
Proof.
  eapply rtc_l; [apply step_leave_pending|].
  eapply rtc_l; [apply step_enter_active|]. apply rtc_refl.
Qed.

(** C9. Connection accounting never drifts: however acquisitions, hand-overs
    from pending to active (atomic access by atomic access), drops, probes and
    administrative changes interleave, the counters of every upstream are the
    numbers of its pending and of its active leases, so with no lease left both
    are zero again; and a whole [established] call is one such course: it makes an
    active lease on the same upstream of the pending one it consumes. *)
Theorem lease_accounting h s i u :
  fresh h -> rtc step {| heap_of := h; leases := [] |} s -> heap_of s !! i = Some u ->
  count i PhPending (leases s) < U64 -> count i PhActive (leases s) < U64 ->
  in_flight u = count i PhPending (leases s) /\ active u = count i PhActive (leases s) /\
  (forall j l r, leases s = l ++ (j, PhPending) :: r ->
     (established {| pl_upstream := j; pl_state := Pending |} (heap_of s)).1 = {| al_upstream := j |} /\
     rtc step s {| heap_of := (established {| pl_upstream := j; pl_state := Pending |} (heap_of s)).2;
                   leases := l ++ (j, PhActive) :: r |}).
Proof.
  intros Hf Hr Hu H1 H2. destruct (reachable_accounted _ _ Hf Hr _ _ Hu) as [-> ->].
  unfold wrap64. rewrite !Z.mod_small by (split; [apply Nat2Z.is_nonneg|done]). split_and!; [done..|].
  intros j l r Hl. split; [done|]. destruct s as [hs ls]. cbn [leases] in Hl. subst ls. apply established_steps.
Qed.

Definition demo_upstream : UpstreamRuntime :=
  upstream_new (str "up1") {| hops := [] |}.

(** One lease is established, a second one stays pending. *)
Definition demo_system : system :=
  let h0 := [demo_upstream] in
  let h1 := (pending_new 0 h0).2 in
  let h3 := (established {| pl_upstream := 0; pl_state := Pending |} h1).2 in
  {| heap_of := (pending_new 0 h3).2; leases := [(0%nat, PhPending); (0%nat, PhActive)] |}.

Lemma demo_reachable : rtc step {| heap_of := [demo_upstream]; leases := [] |} demo_system.
Proof.
  unfold demo_system.
  eapply rtc_l; [apply (step_new 0); cbn; lia|].
  eapply rtc_l; [apply (step_leave_pending 0 _ [] [])|].
  eapply rtc_l; [apply (step_enter_active 0 _ [] [])|].
  eapply rtc_l; [apply (step_new 0); cbn; lia|]. apply rtc_refl.
Qed.

Lemma lease_accounting_witness :
  exists u, heap_of demo_system !! 0%nat = Some u /\ in_flight u = 1 /\ active u = 1 /\
    rtc step demo_system
      {| heap_of := (established {| pl_upstream := 0; pl_state := Pending |} (heap_of demo_system)).2;
         leases := [(0%nat, PhActive); (0%nat, PhActive)] |}.
Proof.
  destruct (heap_of demo_system !! 0%nat) as [u|] eqn:Hu; [|discriminate Hu].
  exists u. split; [reflexivity|].
  destruct (lease_accounting [demo_upstream] demo_system 0 u) as (H1 & H2 & H3);
    [repeat constructor|apply demo_reachable|exact Hu|vm_compute; reflexivity..|].
  split; [exact H1|]. split; [exact H2|]. exact (proj2 (H3 0%nat [] [(0%nat, PhActive)] eq_refl)).
Defined.

(** What no step changes: the upstreams, their identifiers and their chains. *)
Definition shape (h : heap) : list (bytes * ProxyChainSpec) := map (fun u => (id u, chain u)) h.

Lemma alter_shape f i h : (forall u, (id (f u), chain (f u)) = (id u, chain u)) -> shape (alter f i h) = shape h.
Proof.
  intros Hf. apply list_eq. intros j. unfold shape. rewrite !list_lookup_fmap. destruct (decide (i = j)) as [->|Hne].
  - rewrite list_lookup_alter_eq. destruct (h !! j); cbn; [by rewrite Hf|done].
  - by rewrite list_lookup_alter_ne.
Qed.

Lemma step_shape s s' : step s s' -> shape (heap_of s') = shape (heap_of s).
Proof. destruct 1; cbn [heap_of]; try (apply alter_shape; done). Qed.

Lemma steps_shape s s' : rtc step s s' -> shape (heap_of s') = shape (heap_of s).
Proof. induction 1 as [|s1 s2 s3 H1 _ IH]; [done|]. by rewrite IH, (step_shape s1). Qed.

(** The order in which leases are listed does not matter. *)
Lemma step_perm h l h' m l' :
  step {| heap_of := h; leases := l |} {| heap_of := h'; leases := m |} -> l ≡ₚ l' ->
  exists m', step {| heap_of := h; leases := l' |} {| heap_of := h'; leases := m' |} /\ m ≡ₚ m'.
Proof.
  intros Hs Hp. inversion Hs; subst; clear Hs.
  - eexists. split; [by apply step_new|]. by constructor.
  - symmetry in Hp. destruct (Permutation_vs_elt_inv _ _ _ Hp) as (a & b & ->). eexists. split; [apply step_drop_pending|].
    symmetry. by eapply Permutation_app_inv.
  - symmetry in Hp. destruct (Permutation_vs_elt_inv _ _ _ Hp) as (a & b & ->). eexists. split; [apply step_leave_pending|].
    apply Permutation_app_inv in Hp. by rewrite <- !Permutation_middle, Hp.
  - symmetry in Hp. destruct (Permutation_vs_elt_inv _ _ _ Hp) as (a & b & ->). eexists. split; [apply step_enter_active|].
    apply Permutation_app_inv in Hp. by rewrite <- !Permutation_middle, Hp.
  - symmetry in Hp. destruct (Permutation_vs_elt_inv _ _ _ Hp) as (a & b & ->). eexists. split; [apply step_drop_active|].
    symmetry. by eapply Permutation_app_inv.
  - eexists. split; [apply step_set_enabled|done].
  - eexists. split; [apply step_probe|done].
Qed.

Lemma steps_perm s s' l' : rtc step s s' -> leases s ≡ₚ l' ->
  exists m', rtc step {| heap_of := heap_of s; leases := l' |} {| heap_of := heap_of s'; leases := m' |} /\ leases s' ≡ₚ m'.
Proof.
  intros Hr. revert l'. induction Hr as [s|[h l] [h1 m] s3 H1 _ IH]; intros l' Hp; [exists l'; split; [apply rtc_refl|done]|].
  cbn [heap_of leases] in *. destruct (step_perm _ _ _ _ _ H1 Hp) as (m1 & Hs1 & Hm1). destruct (IH _ Hm1) as (m' & Hs' & Hm').
  exists m'. split; [by eapply rtc_l|done].
Qed.

(** ** Group validation *)

Lemma validate_members_spec seen ids :
  validate_members seen ids = Ok tt <-> NoDup ids /\ (forall i, i ∈ ids -> i ∉ seen).
Proof.
  revert seen. induction ids as [|i ids IH]; intros seen; simpl.
  - split; [intros _; split; [constructor|set_solver]|done].
  - case_bool_decide as Hi.
    + split; [done|]. intros [_ H]. by destruct (H i ltac:(set_solver)).
    + rewrite IH, NoDup_cons. set_solver.
Qed.

Lemma validate_group_spec ids : validate_group ids = Ok tt <-> ids <> [] /\ NoDup ids.
Proof.
  unfold validate_group. destruct ids as [|i ids]; [by split; [|intros []]|].
  rewrite validate_members_spec. set_solver.
Qed.
