(* ===== verification/Relay.v ===== *)
(** * The relay engine

    [eggress-relay/src/lib.rs]: bidirectional copying between two connected
    streams, with half-close, drain deadlines and byte accounting.

    The relay is a hand-written future: one poll runs a bounded number of steps
    of each direction.  A stream is what it answers to its successive polls,
    together with the record of what was exchanged with it so far; [Pending]
    answers are part of it, so every schedule of the two peers is covered.  A
    poll happens at an instant, which drives the drain deadline. *)

From S2P Require Import Prelude Bytes Upstream.

(** ** Streams *)

Inductive IoKind := BrokenPipe | ConnectionReset | WriteZero | OtherIo (code : Z).

(** An empty read is the end of the stream. *)
Inductive read_answer := RData (l : bytes) | RErr (e : IoKind) | RPending.
Inductive write_answer := WAccept (n : nat) | WErr (e : IoKind) | WPending.
Inductive shutdown_answer := ShutOk | ShutErr (e : IoKind) | ShutPending.

Record stream := {
  s_read : nat -> read_answer;
  s_write : nat -> write_answer;
  s_shutdown : nat -> shutdown_answer;
  n_read : nat; n_write : nat; n_shutdown : nat;   (* polls so far *)
  s_taken : bytes;                                 (* bytes read from it *)
  s_given : bytes;                                 (* bytes it accepted *)
  s_closed : bool                                  (* it was shut down *)
}.

(** [poll_read] into a buffer of [cap] bytes, which it cannot overfill. *)
Definition poll_read (cap : nat) (s : stream) : read_answer * stream :=
  let a := match s_read s (n_read s) with RData l => RData (take cap l) | a => a end in
  (a, {| s_read := s_read s; s_write := s_write s; s_shutdown := s_shutdown s;
         n_read := S (n_read s); n_write := n_write s; n_shutdown := n_shutdown s;
         s_taken := s_taken s ++ match a with RData l => l | _ => [] end;
         s_given := s_given s; s_closed := s_closed s |}).

(** [poll_write]: at most the offered bytes are accepted. *)
Definition poll_write (buf : bytes) (s : stream) : write_answer * stream :=
  let a := match s_write s (n_write s) with WAccept n => WAccept (min n (length buf)) | a => a end in
  (a, {| s_read := s_read s; s_write := s_write s; s_shutdown := s_shutdown s;
         n_read := n_read s; n_write := S (n_write s); n_shutdown := n_shutdown s;
         s_taken := s_taken s;
         s_given := s_given s ++ match a with WAccept n => take n buf | _ => [] end;
         s_closed := s_closed s |}).

Definition poll_shutdown (s : stream) : shutdown_answer * stream :=
  let a := s_shutdown s (n_shutdown s) in
  (a, {| s_read := s_read s; s_write := s_write s; s_shutdown := s_shutdown s;
         n_read := n_read s; n_write := n_write s; n_shutdown := S (n_shutdown s);
         s_taken := s_taken s; s_given := s_given s;
         s_closed := match a with ShutOk => true | _ => s_closed s end |}).

(** ** Options and results *)

Inductive HalfClosePolicy := Drain | DrainFor (duration : Z).
Record RelayOptions := { buffer_size : nat; half_close : HalfClosePolicy }.

Definition DEFAULT_BUFFER_SIZE : nat := 64 * 1024.

(** [NonZeroUsize::new] rejects zero. *)
Definition try_new (size : nat) (policy : HalfClosePolicy) : outcome nat RelayOptions :=
  if (size =? 0)%nat then Err size else Ok {| buffer_size := size; half_close := policy |}.

Inductive RelaySide := Client | Server.
Inductive RelayTermination := ClientClosed | ServerClosed | DrainTimedOut (first_closed : RelaySide).
Record RelayReport := { bytes_upstream : Z; bytes_downstream : Z; termination : RelayTermination }.
Inductive RelayDirection := Upstream | Downstream.
Record RelayFailure := {
  direction : RelayDirection; source : IoKind; f_bytes_upstream : Z; f_bytes_downstream : Z
}.

(** ** One direction *)

Record DirectionState := {
  buffer : bytes; read_len : nat; write_pos : nat; dbytes : Z; eof : bool; shutdown_complete : bool
}.

Definition direction_new (size : nat) : DirectionState :=
  {| buffer := replicate size x00; read_len := 0; write_pos := 0; dbytes := 0; eof := false;
     shutdown_complete := false |}.

Inductive DirectionPoll := Progress | Complete | FailedWith (e : IoKind).

(** [None] is [Poll::Pending]. *)
Definition polled : Type := outcome unit (option DirectionPoll) * (stream * stream * DirectionState).

Definition with_pos (st : DirectionState) (rl wp : nat) : DirectionState :=
  {| buffer := buffer st; read_len := rl; write_pos := wp; dbytes := dbytes st; eof := eof st;
     shutdown_complete := shutdown_complete st |}.

Definition wrote (st : DirectionState) (n : nat) : DirectionState :=
  {| buffer := buffer st; read_len := read_len st; write_pos := write_pos st + n;
     dbytes := wrap64 (dbytes st + Z.of_nat n); eof := eof st; shutdown_complete := shutdown_complete st |}.

Definition filled (st : DirectionState) (l : bytes) : DirectionState :=
  {| buffer := l ++ drop (length l) (buffer st); read_len := length l; write_pos := write_pos st;
     dbytes := dbytes st; eof := eof st || bool_decide (l = []);
     shutdown_complete := shutdown_complete st |}.

Definition shut (st : DirectionState) : DirectionState :=
  {| buffer := buffer st; read_len := read_len st; write_pos := write_pos st; dbytes := dbytes st;
     eof := eof st; shutdown_complete := true |}.

(** The loop of [poll_direction], with the steps left. *)
Fixpoint direction_loop (n : nat) (made_progress : bool) (reader writer : stream) (st : DirectionState) : polled :=
  match n with
  | O => (Ok (if made_progress then Some Progress else None), (reader, writer, st))
  | S n' =>
      if write_pos st <? read_len st then
        match slice (buffer st) (write_pos st) (read_len st) with
        | Ok pending =>
            let '(a, writer') := poll_write pending writer in
            match a with
            | WAccept 0 => (Ok (Some (FailedWith WriteZero)), (reader, writer', st))
            | WAccept k => direction_loop n' true reader writer' (wrote st k)
            | WErr e => (Ok (Some (FailedWith e)), (reader, writer', st))
            | WPending => (Ok None, (reader, writer', st))
            end
        | Err e => (Err e, (reader, writer, st))
        | Panic => (Panic, (reader, writer, st))
        end
      else
        let st := if (read_len st =? 0)%nat then st else with_pos st 0 0 in
        if eof st then
          if shutdown_complete st then (Ok (Some Complete), (reader, writer, st))
          else
            let '(a, writer') := poll_shutdown writer in
            match a with
            | ShutOk => (Ok (Some Complete), (reader, writer', shut st))
            | ShutErr BrokenPipe | ShutErr ConnectionReset => (Ok (Some Complete), (reader, writer', shut st))
            | ShutErr e => (Ok (Some (FailedWith e)), (reader, writer', st))
            | ShutPending => (Ok None, (reader, writer', st))
            end
        else
          let '(a, reader') := poll_read (length (buffer st)) reader in
          match a with
          | RData l =>
              direction_loop n' (made_progress || negb (bool_decide (l = []))) reader' writer (filled st l)
          | RErr e => (Ok (Some (FailedWith e)), (reader', writer, st))
          | RPending => (Ok None, (reader', writer, st))
          end
  end.

Definition poll_direction (reader writer : stream) (st : DirectionState) : polled :=
  direction_loop 16 false reader writer st.

(** ** The future *)

Record RelayFuture := {
  client : stream; server : stream;
  upstream : DirectionState; downstream : DirectionState;
  policy : HalfClosePolicy;
  first_closed : option RelaySide;
  drain_deadline : option Z
}.

Definition relay_new (client server : stream) (options : RelayOptions) : RelayFuture :=
  {| client := client; server := server;
     upstream := direction_new (buffer_size options); downstream := direction_new (buffer_size options);
     policy := half_close options; first_closed := None; drain_deadline := None |}.

Definition start_drain (now : Z) (side : RelaySide) (f : RelayFuture) : RelayFuture :=
  {| client := client f; server := server f; upstream := upstream f; downstream := downstream f;
     policy := policy f; first_closed := Some side;
     drain_deadline := match policy f with
                       | DrainFor duration => Some (now + duration)%Z
                       | Drain => drain_deadline f
                       end |}.

(** One direction of the future polled. *)
Definition poll_upstream (f : RelayFuture) : outcome unit (option DirectionPoll) * RelayFuture :=
  let '(r, (c, s, st)) := poll_direction (client f) (server f) (upstream f) in
  (r, {| client := c; server := s; upstream := st; downstream := downstream f; policy := policy f;
         first_closed := first_closed f; drain_deadline := drain_deadline f |}).
Definition poll_downstream (f : RelayFuture) : outcome unit (option DirectionPoll) * RelayFuture :=
  let '(r, (s, c, st)) := poll_direction (server f) (client f) (downstream f) in
  (r, {| client := c; server := s; upstream := upstream f; downstream := st; policy := policy f;
         first_closed := first_closed f; drain_deadline := drain_deadline f |}).

Definition failure (d : RelayDirection) (e : IoKind) (f : RelayFuture) : RelayFailure :=
  {| direction := d; source := e; f_bytes_upstream := dbytes (upstream f);
     f_bytes_downstream := dbytes (downstream f) |}.
Definition report (t : RelayTermination) (f : RelayFuture) : RelayReport :=
  {| bytes_upstream := dbytes (upstream f); bytes_downstream := dbytes (downstream f); termination := t |}.

(** What a poll of the future returns: a result, or [None] for pending. *)
Definition poll_result : Type := outcome RelayFailure (option RelayReport).

(** After the first close: the deadline, then the other direction. *)
Definition poll_drain (now : Z) (side : RelaySide) (f : RelayFuture) : poll_result * RelayFuture :=
  if match drain_deadline f with Some d => (d <=? now)%Z | None => false end
  then (Ok (Some (report (DrainTimedOut side) f)), f)
  else
    let '(r, f') := match side with Client => poll_downstream f | Server => poll_upstream f end in
    (match r with
     | Ok (Some Complete) =>
         Ok (Some (report (match side with Client => ClientClosed | Server => ServerClosed end) f'))
     | Ok (Some (FailedWith e)) =>
         Err (failure (match side with Client => Downstream | Server => Upstream end) e f')
     | Ok (Some Progress) | Ok None => Ok None
     | Err _ | Panic => Panic
     end, f').

Definition poll (now : Z) (f : RelayFuture) : poll_result * RelayFuture :=
  match first_closed f with
  | Some side => poll_drain now side f
  | None =>
      let '(r, f) := poll_upstream f in
      match r with
      | Ok (Some Complete) => poll_drain now Client (start_drain now Client f)
      | Ok (Some (FailedWith e)) => (Err (failure Upstream e f), f)
      | Err _ | Panic => (Panic, f)
      | Ok (Some Progress) | Ok None =>
          let '(r, f) := poll_downstream f in
          match r with
          | Ok (Some Complete) => poll_drain now Server (start_drain now Server f)
          | Ok (Some (FailedWith e)) => (Err (failure Downstream e f), f)
          | Err _ | Panic => (Panic, f)
          | Ok (Some Progress) | Ok None => (Ok None, f)
          end
      end
  end.

(** The future polled at the given instants, until it is ready. *)
Fixpoint run_relay (instants : list Z) (f : RelayFuture) : poll_result * RelayFuture :=
  match instants with
  | [] => (Ok None, f)
  | now :: rest =>
      match poll now f with
      | (Ok None, f') => run_relay rest f'
      | r => r
      end
  end.

(** ** Integrity of one direction *)

(** The bytes read but not yet written. *)
Definition pending (st : DirectionState) : bytes :=
  take (read_len st - write_pos st) (drop (write_pos st) (buffer st)).

(** The reader has announced the end of its stream. *)
Definition at_end (reader : stream) : Prop :=
  exists k, k < n_read reader /\ s_read reader k = RData [].

(** Nothing is lost, repeated or reordered; the count is exact; the writer is
    shut down only after the reader's end of stream and with nothing pending. *)
Record direction_inv (reader writer : stream) (st : DirectionState) : Prop := {
  inv_pos : write_pos st <= read_len st <= length (buffer st);
  inv_cap : 0 < length (buffer st);
  inv_bytes : s_taken reader = s_given writer ++ pending st;
  inv_count : dbytes st = wrap64 (Z.of_nat (length (s_given writer)));
  inv_eof : eof st = true -> read_len st = 0 /\ at_end reader;
  inv_shut : shutdown_complete st = true -> eof st = true;
  inv_closed : s_closed writer = true -> shutdown_complete st = true
}.

(** What a direction leaves alone of its reader and of its writer. *)
Definition reader_frame (r r' : stream) : Prop :=
  s_given r' = s_given r /\ s_closed r' = s_closed r /\ n_write r' = n_write r /\
  n_shutdown r' = n_shutdown r /\ s_read r' = s_read r /\ s_write r' = s_write r /\ s_shutdown r' = s_shutdown r.
Definition writer_frame (w w' : stream) : Prop :=
  s_taken w' = s_taken w /\ n_read w' = n_read w /\
  s_read w' = s_read w /\ s_write w' = s_write w /\ s_shutdown w' = s_shutdown w.

Lemma direction_inv_frame r w r' w' st :
  direction_inv r w st -> writer_frame r r' -> reader_frame w w' -> direction_inv r' w' st.
Proof.
  intros [] (Ht & Hn & Hr & _) (Hg & Hc & _). constructor; rewrite ?Ht, ?Hg, ?Hc; try done.
  intros H. destruct (inv_eof0 H) as [? (k & ? & ?)]. split; [done|]. exists k. by rewrite Hn, Hr.
Qed.

Lemma pending_nil st : read_len st <= write_pos st -> pending st = [].
Proof. intros H. unfold pending. replace (read_len st - write_pos st) with 0 by lia. done. Qed.

Lemma pending_wrote st n :
  n <= read_len st - write_pos st -> take n (pending st) ++ pending (wrote st n) = pending st.
Proof.
  intros H. unfold pending, wrote. cbn. rewrite take_take, Nat.min_l by lia.
  rewrite <- drop_drop. set (d := drop (write_pos st) (buffer st)).
  replace (read_len st - write_pos st) with (n + (read_len st - (write_pos st + n))) by lia.
  rewrite <- take_take_drop. done.
Qed.

(** A direction reports completion only after its end of stream and shutdown. *)
Definition poll_ok (st : DirectionState) (r : outcome unit (option DirectionPoll)) : Prop :=
  match r with
  | Ok (Some Complete) => eof st = true /\ shutdown_complete st = true
  | Ok _ => True
  | _ => False
  end.

(** The writer takes [m] of the pending bytes. *)
Lemma inv_wrote reader writer writer' st m :
  direction_inv reader writer st -> write_pos st < read_len st -> m <= read_len st - write_pos st ->
  s_given writer' = s_given writer ++ take m (pending st) -> s_closed writer' = s_closed writer ->
  direction_inv reader writer' (wrote st m).
Proof.
  intros [Hp Hc Hb Hn He Hs Hcl] Hw Hm Hg Hcl'.
  assert (length (pending st) = read_len st - write_pos st) as Hlen.
  { unfold pending. rewrite length_take, length_drop. lia. }
  constructor; cbn; rewrite ?Hcl'; try done.
  - lia.
  - by rewrite Hb, Hg, <- app_assoc, pending_wrote.
  - rewrite Hn, Hg, wrap64_add, length_app, length_take. f_equal. lia.
Qed.

(** Everything was written: the buffer is empty again. *)
Lemma inv_rewind reader writer st :
  direction_inv reader writer st -> read_len st <= write_pos st ->
  let st0 := if (read_len st =? 0)%nat then st else with_pos st 0 0 in
  direction_inv reader writer st0 /\ read_len st0 = 0 /\ write_pos st0 = 0.
Proof.
  intros Hinv Hw. pose proof Hinv as [Hp Hc Hb Hn He Hs Hcl].
  destruct (Nat.eqb_spec (read_len st) 0) as [Hz|Hz]; cbv zeta; [split; [done|lia]|].
  split; [|done]. constructor; cbn; try done; [lia|by rewrite Hb, (pending_nil st)|].
  intros Hx. split; [done|]. by apply He.
Qed.

(** The reader delivers [x], nothing at its end. *)
Lemma inv_filled reader reader' writer st l :
  let x := take (length (buffer st)) l in
  direction_inv reader writer st -> read_len st = 0 -> write_pos st = 0 -> eof st = false ->
  s_taken reader' = s_taken reader ++ x -> (x = [] -> at_end reader') ->
  direction_inv reader' writer (filled st x).
Proof.
  intros x [Hp Hc Hb Hn He Hs Hcl] Hr0 Hw0 Heof Ht Hend.
  assert (length x <= length (buffer st)) as Hx by (unfold x; rewrite length_take; lia).
  assert (length (x ++ drop (length x) (buffer st)) = length (buffer st)) as Hlen.
  { rewrite length_app, length_drop. lia. }
  constructor; cbn; rewrite ?Hw0, ?Hlen; try done; [lia| | |].
  - rewrite Ht, Hb, (pending_nil st) by lia. rewrite app_nil_r. f_equal.
    unfold pending. cbn. rewrite ?Hw0, Nat.sub_0_r, drop_0. by rewrite take_app_length.
  - rewrite Heof. cbn. intros Hb0. apply bool_decide_eq_true in Hb0. rewrite Hb0 at 1. auto.
  - intros Hy. by rewrite (Hs Hy) in Heof.
Qed.

(** The writer is shut down, or is already gone. *)
Lemma inv_shut_down reader writer writer' st :
  direction_inv reader writer st -> eof st = true -> s_given writer' = s_given writer ->
  direction_inv reader writer' (shut st).
Proof. intros [Hp Hc Hb Hn He Hs Hcl] Heof Hg. constructor; cbn; rewrite ?Hg; done. Qed.

(** A poll that exchanged nothing. *)
Lemma inv_idle reader writer reader' writer' st :
  direction_inv reader writer st -> writer_frame reader reader' \/ n_read reader < n_read reader' /\
    s_taken reader' = s_taken reader ++ [] /\ s_read reader' = s_read reader ->
  s_given writer' = s_given writer ++ [] \/ s_given writer' = s_given writer ->
  s_closed writer' = s_closed writer -> direction_inv reader' writer' st.
Proof.
  rewrite !app_nil_r. intros [Hp Hc Hb Hn He Hs Hcl] Hr Hw Hc'.
  assert (s_given writer' = s_given writer) as Hg by tauto.
  assert (s_taken reader' = s_taken reader /\ s_read reader' = s_read reader /\ n_read reader <= n_read reader')
    as (Ht & Hrd & Hle).
  { destruct Hr as [(-> & -> & -> & _)|(Hlt & -> & ->)]; (split; [done|]); (split; [done|]); lia. }
  constructor; rewrite ?Hg, ?Ht, ?Hc'; try done.
  intros Hx. destruct (He Hx) as [? (k & ? & ?)]. split; [done|]. exists k. rewrite Hrd. split; [lia|done].
Qed.

Lemma direction_loop_inv n mp reader writer st r reader' writer' st' :
  direction_inv reader writer st ->
  direction_loop n mp reader writer st = (r, (reader', writer', st')) ->
  direction_inv reader' writer' st' /\ poll_ok st' r /\
  reader_frame reader reader' /\ writer_frame writer writer'.
Proof.
  revert mp reader writer st. induction n as [|n IH]; intros mp reader writer st Hinv H.
  { injection H as <- <- <- <-. split; [done|]. by destruct mp. }
  pose proof (inv_pos _ _ _ Hinv) as Hp. cbn [direction_loop] in H.
  destruct (Nat.ltb_spec (write_pos st) (read_len st)) as [Hw|Hw].
  - unfold slice in H. rewrite (proj2 (Nat.leb_le _ _)), (proj2 (Nat.leb_le _ _)) in H by lia.
    cbn [andb] in H. fold (pending st) in H. unfold poll_write in H.
    destruct (s_write writer (n_write writer)) as [k|e|].
    2, 3: injection H as <- <- <- <-; split_and!; try done; eapply inv_idle; eauto; by left.
    assert (length (pending st) = read_len st - write_pos st) as Hlen.
    { unfold pending. rewrite length_take, length_drop. lia. }
    destruct (min k (length (pending st))) as [|k'] eqn:Ek.
    { injection H as <- <- <- <-. split_and!; try done. eapply inv_idle; eauto; by left. }
    apply IH in H as (H1 & H2 & H3 & H4); [done|]. eapply inv_wrote; eauto. lia.
  - destruct (inv_rewind _ _ _ Hinv Hw) as (Hi & Hr0 & Hw0).
    set (st0 := if (read_len st =? 0)%nat then st else with_pos st 0 0) in *.
    clearbody st0. clear Hinv Hp Hw st. destruct (eof st0) eqn:Heof.
    + destruct (shutdown_complete st0) eqn:Hsc; [injection H as <- <- <- <-; cbn; rewrite Heof, Hsc; done|].
      unfold poll_shutdown in H. destruct (s_shutdown writer (n_shutdown writer)) as [|[]|];
        injection H as <- <- <- <-; (split; [|by rewrite ?Heof]);
        first [by eapply inv_shut_down | eapply inv_idle; eauto; by left].
    + unfold poll_read in H. destruct (s_read reader (n_read reader)) as [l|e|] eqn:El.
      2, 3: injection H as <- <- <- <-; split_and!; try done;
            (eapply inv_idle; [done|right; cbn; split; [lia|done]|by right|done]).
      apply IH in H as (H1 & H2 & H3 & H4); [done|]. eapply inv_filled; eauto.
      intros Hx. exists (n_read reader). split; [cbn; lia|]. cbn. rewrite El. f_equal.
      pose proof (inv_cap _ _ _ Hi). destruct l; [done|]. destruct (buffer st0); [cbn in *; lia|done].
Qed.

Lemma poll_direction_inv reader writer st r reader' writer' st' :
  direction_inv reader writer st ->
  poll_direction reader writer st = (r, (reader', writer', st')) ->
  direction_inv reader' writer' st' /\ poll_ok st' r /\
  reader_frame reader reader' /\ writer_frame writer writer'.
Proof. unfold poll_direction. apply direction_loop_inv. Qed.

Lemma poll_direction_eq reader writer st :
  poll_direction reader writer st = direction_loop 16 false reader writer st.
Proof. reflexivity. Qed.

#[local] Opaque poll_direction.

(** ** Integrity of the relay *)

(** A direction is over: its stream ended and all of it was forwarded. *)
Definition delivered (reader writer : stream) : Prop := s_taken reader = s_given writer /\ at_end reader.

Record relay_inv (f : RelayFuture) : Prop := {
  inv_up : direction_inv (client f) (server f) (upstream f);
  inv_down : direction_inv (server f) (client f) (downstream f);
  inv_first : match first_closed f with
              | Some Client => eof (upstream f) = true
              | Some Server => eof (downstream f) = true
              | None => True
              end
}.

Lemma delivered_eof reader writer st :
  direction_inv reader writer st -> eof st = true -> delivered reader writer.
Proof.
  intros H He. destruct (inv_eof _ _ _ H He) as [Hr Hend]. split; [|done].
  by rewrite (inv_bytes _ _ _ H), (pending_nil st), app_nil_r by lia.
Qed.

Definition report_ok (f : RelayFuture) (rep : RelayReport) : Prop :=
  bytes_upstream rep = wrap64 (Z.of_nat (length (s_given (server f)))) /\
  bytes_downstream rep = wrap64 (Z.of_nat (length (s_given (client f)))) /\
  match termination rep with
  | ClientClosed | ServerClosed => delivered (client f) (server f) /\ delivered (server f) (client f)
  | DrainTimedOut Client => delivered (client f) (server f)
  | DrainTimedOut Server => delivered (server f) (client f)
  end.

Definition failure_ok (f : RelayFuture) (e : RelayFailure) : Prop :=
  f_bytes_upstream e = wrap64 (Z.of_nat (length (s_given (server f)))) /\
  f_bytes_downstream e = wrap64 (Z.of_nat (length (s_given (client f)))).

Definition result_ok (f : RelayFuture) (r : poll_result) : Prop :=
  match r with
  | Ok (Some rep) => report_ok f rep
  | Ok None => True
  | Err e => failure_ok f e
  | Panic => False
  end.

Lemma failure_is_ok f d e : relay_inv f -> failure_ok f (failure d e f).
Proof. intros [Hu Hd _]. split; [apply (inv_count _ _ _ Hu)|apply (inv_count _ _ _ Hd)]. Qed.

Lemma poll_upstream_inv f r f' :
  relay_inv f -> poll_upstream f = (r, f') ->
  (first_closed f = Some Client -> eof (upstream f') = true) ->
  relay_inv f' /\ poll_ok (upstream f') r /\ first_closed f' = first_closed f /\
  downstream f' = downstream f /\ policy f' = policy f /\ drain_deadline f' = drain_deadline f.
Proof.
  intros [Hu Hd Hf] H Hc. unfold poll_upstream in H.
  destruct (poll_direction (client f) (server f) (upstream f)) as [r0 [[c s] st]] eqn:E.
  apply poll_direction_inv in E as (H1 & H2 & H3 & H4); [|done]. injection H as <- <-. cbn in *.
  split_and!; try done. constructor; cbn; [done|by eapply direction_inv_frame|].
  destruct (first_closed f) as [[]|]; auto.
Qed.

Lemma poll_downstream_inv f r f' :
  relay_inv f -> poll_downstream f = (r, f') ->
  (first_closed f = Some Server -> eof (downstream f') = true) ->
  relay_inv f' /\ poll_ok (downstream f') r /\ first_closed f' = first_closed f /\
  upstream f' = upstream f /\ policy f' = policy f /\ drain_deadline f' = drain_deadline f.
Proof.
  intros [Hu Hd Hf] H Hc. unfold poll_downstream in H.
  destruct (poll_direction (server f) (client f) (downstream f)) as [r0 [[s c] st]] eqn:E.
  apply poll_direction_inv in E as (H1 & H2 & H3 & H4); [|done]. injection H as <- <-. cbn in *.
  split_and!; try done. constructor; cbn; [by eapply direction_inv_frame|done|].
  destruct (first_closed f) as [[]|]; auto.
Qed.

Lemma poll_drain_inv now side f r f' :
  relay_inv f -> first_closed f = Some side -> poll_drain now side f = (r, f') ->
  relay_inv f' /\ result_ok f' r /\ first_closed f' = Some side.
Proof.
  intros Hinv Hfc H. pose proof Hinv as [Hu Hd Hf]. rewrite Hfc in Hf. unfold poll_drain in H.
  destruct (match drain_deadline f with Some d => (d <=? now)%Z | None => false end).
  { injection H as <- <-. split_and!; [done| |done]. split; [apply (inv_count _ _ _ Hu)|].
    split; [apply (inv_count _ _ _ Hd)|]. cbn. destruct side; by eapply delivered_eof. }
  destruct side.
  - destruct (poll_downstream f) as [r1 f1] eqn:E.
    apply poll_downstream_inv in E as (H1 & H2 & H3 & H4 & _); [|done|by rewrite Hfc].
    pose proof H1 as [Hu1 Hd1 _]. injection H as <- <-. rewrite H3, Hfc. split_and!; [done| |done].
    destruct r1 as [[[]|]| |]; try done; [|by apply failure_is_ok]. destruct H2 as [He _].
    split; [apply (inv_count _ _ _ Hu1)|]. split; [apply (inv_count _ _ _ Hd1)|]. cbn.
    split; eapply delivered_eof; try done. by rewrite H4.
  - destruct (poll_upstream f) as [r1 f1] eqn:E.
    apply poll_upstream_inv in E as (H1 & H2 & H3 & H4 & _); [|done|by rewrite Hfc].
    pose proof H1 as [Hu1 Hd1 _]. injection H as <- <-. rewrite H3, Hfc. split_and!; [done| |done].
    destruct r1 as [[[]|]| |]; try done; [|by apply failure_is_ok]. destruct H2 as [He _].
    split; [apply (inv_count _ _ _ Hu1)|]. split; [apply (inv_count _ _ _ Hd1)|]. cbn.
    split; eapply delivered_eof; try done. by rewrite H4.
Qed.

Lemma start_drain_inv now side f :
  relay_inv f -> match side with Client => eof (upstream f) = true | Server => eof (downstream f) = true end ->
  relay_inv (start_drain now side f).
Proof. intros [Hu Hd Hf] He. constructor; cbn; [done|done|]. by destruct side. Qed.

Lemma poll_inv now f r f' : relay_inv f -> poll now f = (r, f') -> relay_inv f' /\ result_ok f' r.
Proof.
  intros Hinv H. unfold poll in H. destruct (first_closed f) as [side|] eqn:Hfc.
  { apply poll_drain_inv in H as (? & ? & _); done. }
  destruct (poll_upstream f) as [r1 f1] eqn:E1.
  apply poll_upstream_inv in E1 as (H1 & H2 & H3 & _); [|done|by rewrite Hfc].
  assert (forall x g, (let '(r, f) := poll_downstream f1 in
          match r with
          | Ok (Some Complete) => poll_drain now Server (start_drain now Server f)
          | Ok (Some (FailedWith e)) => (Err (failure Downstream e f), f)
          | Err _ | Panic => (Panic, f)
          | Ok (Some Progress) | Ok None => (Ok None, f)
          end) = (x, g) -> relay_inv g /\ result_ok g x) as Hdown.
  { intros x g Hx. destruct (poll_downstream f1) as [r2 f2] eqn:E2.
    apply poll_downstream_inv in E2 as (G1 & G2 & _); [|done|by rewrite H3, Hfc].
    destruct r2 as [[[]|]| |]; try done; try (injection Hx as <- <-; split; [done|]; try done; by apply failure_is_ok).
    destruct G2 as [G2 _]. apply poll_drain_inv in Hx as (? & ? & _); [done| |done]. by apply start_drain_inv. }
  destruct r1 as [[[]|]| |]; try done; try (by apply Hdown).
  - destruct H2 as [H2 _]. apply poll_drain_inv in H as (? & ? & _); [done| |done]. by apply start_drain_inv.
  - injection H as <- <-. split; [done|]. by apply failure_is_ok.
Qed.

Lemma run_relay_inv instants f r f' :
  relay_inv f -> run_relay instants f = (r, f') -> relay_inv f' /\ result_ok f' r.
Proof.
  revert f. induction instants as [|now rest IH]; intros f Hinv H; [by injection H as <- <-|].
  cbn [run_relay] in H. destruct (poll now f) as [r1 f1] eqn:E. apply poll_inv in E as [H1 H2]; [|done].
  destruct r1 as [[rep|]| |]; [|by eapply IH| |]; by injection H as <- <-.
Qed.

(** A connected stream nothing was exchanged on yet. *)
Definition fresh_stream (s : stream) : Prop := s_taken s = [] /\ s_given s = [] /\ s_closed s = false.

Lemma relay_new_inv c s o :
  fresh_stream c -> fresh_stream s -> 0 < buffer_size o -> relay_inv (relay_new c s o).
Proof.
  intros (H1 & H2 & H3) (H4 & H5 & H6) Hb.
  constructor; cbn; [| |done]; constructor; cbn;
    rewrite ?H1, ?H2, ?H3, ?H4, ?H5, ?H6, ?length_replicate; try done; lia.
Qed.

(** C7. The relay is faithful, whatever the two streams answer and whenever it
    is polled: it never panics; each side has received an initial part of what
    the other sent, in order; a side is shut down only after the other's end of
    stream, with everything forwarded; byte counts of reports and failures are
    exact (modulo 2^64); and a report of a clean end means that both streams
    ended and were forwarded completely, one of a drain timeout that the stream
    that closed first was. *)
Theorem relay_faithful c s o instants r f :
  fresh_stream c -> fresh_stream s -> 0 < buffer_size o ->
  run_relay instants (relay_new c s o) = (r, f) ->
  s_given (server f) `prefix_of` s_taken (client f) /\
  s_given (client f) `prefix_of` s_taken (server f) /\
  (s_closed (server f) = true -> delivered (client f) (server f)) /\
  (s_closed (client f) = true -> delivered (server f) (client f)) /\
  result_ok f r.
Proof.
  intros Hc Hs Hb H. apply run_relay_inv in H as [[Hu Hd _] Hr]; [|by apply relay_new_inv].
  split; [rewrite (inv_bytes _ _ _ Hu); by eexists|]. split; [rewrite (inv_bytes _ _ _ Hd); by eexists|].
  split_and!; [| |done]; intros Hx.
  - eapply delivered_eof; [done|]. eapply inv_shut; [done|]. by eapply inv_closed.
  - eapply delivered_eof; [done|]. eapply inv_shut; [done|]. by eapply inv_closed.
Qed.

(** ** Termination *)

(** The reader delivers [n] chunks and then its end, without waiting. *)
Definition finite_reader (s : stream) (n : nat) : Prop :=
  (forall k, k < n -> exists l, l <> [] /\ s_read s k = RData l) /\ s_read s n = RData [].

(** The writer always takes something, and can be shut down. *)
Definition eager_writer (s : stream) : Prop :=
  (forall k, exists m, 0 < m /\ s_write s k = WAccept m) /\ (forall k, s_shutdown s k = ShutOk).

(** Chunks still to come, then bytes still to write. *)
Definition work (n : nat) (reader : stream) (st : DirectionState) : nat :=
  (n + 1 - n_read reader) * (length (buffer st) + 1) + (read_len st - write_pos st).

Definition not_past (n : nat) (reader : stream) (st : DirectionState) : Prop :=
  eof st = false -> n_read reader <= n.

(** How [k] steps can leave a direction with a finite reader and an eager writer. *)
Definition live_result (n k : nat) (mp : bool) (reader : stream) (st : DirectionState)
    (r : outcome unit (option DirectionPoll)) (reader' : stream) (st' : DirectionState) : Prop :=
  r = Ok (Some Complete) \/
  (work n reader' st' + k <= work n reader st /\ not_past n reader' st' /\
   (r = Ok (Some Progress) \/ mp = false /\ (k = 0 \/ k = 1 /\ eof st = false))).

Lemma live_wrote n k mp reader st m r reader' st' :
  write_pos st < read_len st -> 0 < m ->
  live_result n k true reader (wrote st m) r reader' st' -> live_result n (S k) mp reader st r reader' st'.
Proof.
  intros Hlt Hm [H|(H1 & H2 & [H3|[? _]])]; [by left| |done]. right. split_and!; [|done|by left].
  unfold work in *. cbn in *. lia.
Qed.

Lemma live_end n k mp reader reader1 st r reader' st' :
  eof st = false -> n_read reader = n -> n_read reader1 = S n -> read_len st = 0 ->
  live_result n k mp reader1 (filled st []) r reader' st' -> live_result n (S k) mp reader st r reader' st'.
Proof.
  intros Heof Hend Hend1 Hr0 [H|(H1 & H2 & H3)]; [by left|]. right. split_and!; [|done|].
  - unfold work in *. cbn in *. rewrite Hend1 in H1. rewrite Hend. cbn in *. lia.
  - destruct H3 as [H3|(? & [->|[_ H3]])]; [by left|right; auto|]. cbn in H3. by rewrite Heof in H3.
Qed.

Lemma live_more n k mp reader reader1 st x r reader' st' :
  length x <= length (buffer st) -> n_read reader < n -> n_read reader1 = S (n_read reader) ->
  read_len st = 0 -> write_pos st = 0 ->
  live_result n k true reader1 (filled st x) r reader' st' -> live_result n (S k) mp reader st r reader' st'.
Proof.
  intros Hlx Hn Hn1 Hr0 Hw0 [H|(H1 & H2 & [H3|[? _]])]; [by left| |done]. right. split_and!; [|done|by left].
  unfold work in *. cbn in *. rewrite Hn1, length_app, length_drop, Hw0 in H1. rewrite Hr0, Hw0.
  replace (length x + (length (buffer st) - length x)) with (length (buffer st)) in H1 by lia. nia.
Qed.

Lemma live_rewind n k mp reader st r reader' st' :
  read_len st <= write_pos st ->
  let st0 := if (read_len st =? 0)%nat then st else with_pos st 0 0 in
  eof st0 = eof st /\
  (live_result n k mp reader st0 r reader' st' -> live_result n k mp reader st r reader' st').
Proof.
  intros Hlt st0. assert (work n reader st0 = work n reader st /\ eof st0 = eof st) as [Hw He].
  { unfold work, st0. destruct (Nat.eqb_spec (read_len st) 0); cbn; split; (done || lia). }
  split; [done|]. unfold live_result. by rewrite Hw, He.
Qed.

Lemma direction_loop_live k n mp reader writer st r reader' writer' st' :
  direction_inv reader writer st -> finite_reader reader n -> eager_writer writer -> not_past n reader st ->
  direction_loop k mp reader writer st = (r, (reader', writer', st')) ->
  live_result n k mp reader st r reader' st'.
Proof.
  revert mp reader writer st. induction k as [|k IH]; intros mp reader writer st Hinv Hr Hw Hn H.
  { injection H as <- <- <- <-. right. split; [lia|]. split; [done|]. destruct mp; auto. }
  pose proof (inv_pos _ _ _ Hinv) as Hp. pose proof Hw as [Hwr Hsh]. cbn [direction_loop] in H.
  destruct (Nat.ltb_spec (write_pos st) (read_len st)) as [Hlt|Hlt].
  - unfold slice in H. rewrite (proj2 (Nat.leb_le _ _)), (proj2 (Nat.leb_le _ _)) in H by lia.
    cbn [andb] in H. fold (pending st) in H. unfold poll_write in H.
    destruct (Hwr (n_write writer)) as (m & Hm & Ha). rewrite Ha in H.
    assert (length (pending st) = read_len st - write_pos st) as Hlen.
    { unfold pending. rewrite length_take, length_drop. lia. }
    destruct (min m (length (pending st))) as [|m'] eqn:Em; [lia|].
    apply IH in H; [|eapply inv_wrote; eauto; lia|done|done|done].
    eapply live_wrote; [done| |done]. lia.
  - destruct (inv_rewind _ _ _ Hinv Hlt) as (Hi & Hr0 & Hw0).
    destruct (live_rewind n (S k) mp reader st r reader' st' Hlt) as [He Hback]. apply Hback.
    unfold not_past in Hn. rewrite <- He in Hn. clear Hback He Hinv Hp Hlt.
    set (st0 := if (read_len st =? 0)%nat then st else with_pos st 0 0) in *. clearbody st0. clear st.
    destruct (eof st0) eqn:Heof.
    + left. destruct (shutdown_complete st0); [by injection H as <- <- <- <-|].
      unfold poll_shutdown in H. rewrite Hsh in H. by injection H as <- <- <- <-.
    + specialize (Hn eq_refl). unfold poll_read in H. destruct (decide (n_read reader = n)) as [Hend|Hmore].
      * rewrite Hend, (proj2 Hr), take_nil in H. rewrite bool_decide_eq_true_2 in H by done.
        cbn [negb] in H. rewrite orb_false_r in H. apply IH in H; [eapply live_end; [done|done| |done|exact H]; done| |done|done|].
        -- rewrite <- (take_nil (length (buffer st0))). eapply inv_filled; try done.
           intros _. exists n. cbn. split; [lia|apply Hr].
        -- unfold not_past. cbn. by rewrite Heof.
      * destruct (proj1 Hr (n_read reader) ltac:(lia)) as (l & Hl & Ha). rewrite Ha in H.
        assert (take (length (buffer st0)) l <> []) as Hx.
        { pose proof (inv_cap _ _ _ Hi). destruct l; [done|]. destruct (buffer st0); [cbn in *; lia|done]. }
        rewrite bool_decide_eq_false_2 in H by done. cbn [negb] in H. rewrite orb_true_r in H.
        apply IH in H; [|by eapply inv_filled|done|done|unfold not_past; cbn; lia].
        eapply live_more; [| | |done|done|exact H]; [rewrite length_take; lia|lia|done].
Qed.

(** ** The relay ends *)

Section ends.
(** The instants at which it is polled, and its policy. *)
Context (T : Z -> Prop) (pol : HalfClosePolicy).

(** The deadline is set exactly when one side has closed under a policy with a
    duration, and counts from the instant of a poll. *)
Definition deadline_inv (f : RelayFuture) : Prop :=
  policy f = pol /\
  match first_closed f, pol with
  | Some _, DrainFor d => exists t0, T t0 /\ drain_deadline f = Some (t0 + d)%Z
  | _, _ => drain_deadline f = None
  end.

Lemma start_drain_deadline now side f :
  T now -> first_closed f = None -> deadline_inv f -> deadline_inv (start_drain now side f).
Proof using Type.
  intros Ht Hf [Hp Hd]. rewrite Hf in Hd. split; [done|]. cbn. rewrite Hp. destruct pol; [done|by exists now].
Qed.

Lemma poll_direction_deadline f g :
  policy g = policy f -> first_closed g = first_closed f -> drain_deadline g = drain_deadline f ->
  deadline_inv f -> deadline_inv g.
Proof using Type. intros H1 H2 H3. unfold deadline_inv. by rewrite H1, H2, H3. Qed.

Lemma poll_drain_deadline now side f r f' :
  deadline_inv f -> poll_drain now side f = (r, f') -> deadline_inv f'.
Proof using Type.
  intros Hd H. unfold poll_drain in H.
  destruct (match drain_deadline f with Some d => (d <=? now)%Z | None => false end); [by injection H as _ <-|].
  destruct side; unfold poll_downstream, poll_upstream in H;
    destruct (poll_direction _ _ _) as [r0 [[? ?] ?]]; injection H as _ <-; by eapply poll_direction_deadline.
Qed.

Lemma poll_deadline now f r f' : T now -> deadline_inv f -> poll now f = (r, f') -> deadline_inv f'.
Proof using Type.
  intros Ht Hd H. unfold poll in H. destruct (first_closed f) as [side|] eqn:Hf; [by eapply poll_drain_deadline|].
  unfold poll_upstream in H. destruct (poll_direction (client f) _ _) as [r0 [[c s] st]].
  set (f1 := Build_RelayFuture _ _ _ _ _ _ _) in H.
  assert (deadline_inv f1) as Hd1 by by eapply poll_direction_deadline.
  assert (first_closed f1 = None) as Hf1 by done. clearbody f1.
  assert (forall g, (let '(r, f) := poll_downstream f1 in
          match r with
          | Ok (Some Complete) => poll_drain now Server (start_drain now Server f)
          | Ok (Some (FailedWith e)) => (Err (failure Downstream e f), f)
          | Err _ | Panic => (Panic, f)
          | Ok (Some Progress) | Ok None => (Ok None, f)
          end) = (r, g) -> deadline_inv g) as Hdown.
  { intros g Hg. unfold poll_downstream in Hg. destruct (poll_direction _ _ _) as [r1 [[s1 c1] st1]].
    set (f2 := Build_RelayFuture _ _ _ _ _ _ _) in Hg.
    assert (deadline_inv f2) as Hd2 by by eapply poll_direction_deadline.
    destruct r1 as [[[]|]| |]; try (by injection Hg as _ <-).
    eapply poll_drain_deadline; [|exact Hg]. by apply start_drain_deadline. }
  destruct r0 as [[[]|]| |]; try (by injection H as _ <-); try (by apply Hdown).
  eapply poll_drain_deadline; [|exact H]. by apply start_drain_deadline.
Qed.

Lemma run_relay_deadline instants : forall f r f',
  (forall t, t ∈ instants -> T t) -> deadline_inv f -> run_relay instants f = (r, f') -> deadline_inv f'.
Proof using Type.
  induction instants as [|now rest IH]; intros f r f' Ht Hd H; [by injection H as _ <-|].
  cbn [run_relay] in H. destruct (poll now f) as [r1 f1] eqn:E.
  apply poll_deadline in E; [|apply Ht; set_solver|done].
  destruct r1 as [[rep|]| |]; try (by injection H as _ <-). eapply IH; [|exact E|exact H]. set_solver.
Qed.

Record live (nc ns : nat) (f : RelayFuture) : Prop := {
  live_client : finite_reader (client f) nc /\ eager_writer (client f);
  live_server : finite_reader (server f) ns /\ eager_writer (server f);
  live_up : not_past nc (client f) (upstream f);
  live_down : not_past ns (server f) (downstream f);
  live_policy : deadline_inv f
}.

Lemma frame_live s s' n : reader_frame s s' \/ writer_frame s s' ->
  finite_reader s n /\ eager_writer s -> finite_reader s' n /\ eager_writer s'.
Proof.
  unfold reader_frame, writer_frame, finite_reader, eager_writer.
  intros [(_ & _ & _ & _ & -> & -> & ->)|(_ & _ & -> & -> & ->)]; done.
Qed.

(** One direction of a live relay: it is complete, or did some of its work and
    asked to be polled again. *)
Definition advanced (r : outcome unit (option DirectionPoll)) (before after : nat) : Prop :=
  r = Ok (Some Complete) \/ r = Ok (Some Progress) /\ after < before.

Lemma poll_direction_live n reader writer st r reader' writer' st' :
  direction_inv reader writer st -> finite_reader reader n -> eager_writer writer -> not_past n reader st ->
  poll_direction reader writer st = (r, (reader', writer', st')) ->
  advanced r (work n reader st) (work n reader' st') /\ not_past n reader' st'.
Proof.
  intros Hi Hr Hw Hn H. pose proof H as H'. apply poll_direction_inv in H' as (_ & Hok & _); [|done].
  rewrite poll_direction_eq in H. apply (direction_loop_live 16 n) in H; [|done|done|done|done].
  destruct H as [->|(H1 & H2 & [->|(_ & [?|[? _]])])]; [|by split; [right; split; [done|lia]|]|done|done].
  split; [by left|]. intros He. destruct Hok as [Hok _]. congruence.
Qed.

Lemma poll_upstream_live nc ns f r f' :
  relay_inv f -> live nc ns f -> poll_upstream f = (r, f') ->
  advanced r (work nc (client f) (upstream f)) (work nc (client f') (upstream f')) /\ live nc ns f' /\
  work ns (server f') (downstream f') = work ns (server f) (downstream f).
Proof.
  intros [Hu Hd Hf] [[Hcr Hcw] [Hsr Hsw] Hlu Hld Hp] H. unfold poll_upstream in H.
  destruct (poll_direction (client f) (server f) (upstream f)) as [r0 [[c s] st]] eqn:E.
  pose proof E as E'. apply poll_direction_inv in E' as (_ & _ & F1 & F2); [|done].
  apply (poll_direction_live nc) in E as [E1 E2]; [|done..]. injection H as <- <-. cbn.
  pose proof F2 as (_ & Fn & _). split_and!; [done| |unfold work; by rewrite Fn].
  constructor; cbn; [apply (frame_live (client f)); auto|apply (frame_live (server f)); auto|done| |done].
  unfold not_past. by rewrite Fn.
Qed.

Lemma poll_downstream_live nc ns f r f' :
  relay_inv f -> live nc ns f -> poll_downstream f = (r, f') ->
  advanced r (work ns (server f) (downstream f)) (work ns (server f') (downstream f')) /\ live nc ns f' /\
  work nc (client f') (upstream f') = work nc (client f) (upstream f).
Proof.
  intros [Hu Hd Hf] [[Hcr Hcw] [Hsr Hsw] Hlu Hld Hp] H. unfold poll_downstream in H.
  destruct (poll_direction (server f) (client f) (downstream f)) as [r0 [[s c] st]] eqn:E.
  pose proof E as E'. apply poll_direction_inv in E' as (_ & _ & F1 & F2); [|done].
  apply (poll_direction_live ns) in E as [E1 E2]; [|done..]. injection H as <- <-. cbn.
  pose proof F2 as (_ & Fn & _). split_and!; [done| |unfold work; by rewrite Fn].
  constructor; cbn; [apply (frame_live (client f)); auto|apply (frame_live (server f)); auto| |done|done].
  unfold not_past. by rewrite Fn.
Qed.

(** The work left, of the directions that are still polled. *)
Definition remaining (nc ns : nat) (f : RelayFuture) : nat :=
  match first_closed f with
  | None => work nc (client f) (upstream f) + work ns (server f) (downstream f)
  | Some Client => work ns (server f) (downstream f)
  | Some Server => work nc (client f) (upstream f)
  end.

(** The drain ran out: the policy's duration passed between two polls. *)
Definition ran_out : Prop := exists d t0 t, pol = DrainFor d /\ T t0 /\ T t /\ (t0 + d <= t)%Z.

(** A poll ends the relay, cleanly unless the drain ran out, or leaves less to do. *)
Definition poll_advanced (nc ns : nat) (before : nat) (r : poll_result) (f' : RelayFuture) : Prop :=
  (exists rep, r = Ok (Some rep) /\
     (termination rep = ClientClosed \/ termination rep = ServerClosed \/ ran_out)) \/
  (r = Ok None /\ relay_inv f' /\ live nc ns f' /\ remaining nc ns f' < before).

Lemma poll_drain_live nc ns now side f r f' :
  T now -> relay_inv f -> first_closed f = Some side -> live nc ns f -> poll_drain now side f = (r, f') ->
  poll_advanced nc ns (remaining nc ns f) r f'.
Proof.
  intros Hnow Hi Hfc Hl H. pose proof H as H'. apply poll_drain_inv in H' as (Hi' & _ & Hfc'); [|done|done].
  unfold poll_drain in H. unfold poll_advanced, remaining. rewrite Hfc.
  destruct (match drain_deadline f with Some d => (d <=? now)%Z | None => false end) eqn:Hdl.
  { injection H as <- <-. left. eexists. split; [done|]. right. right.
    destruct (live_policy _ _ _ Hl) as [_ Hpol]. rewrite Hfc in Hpol. destruct pol as [|d] eqn:Epol; [by rewrite Hpol in Hdl|].
    destruct Hpol as (t0 & Ht0 & Hdd). rewrite Hdd in Hdl. apply Z.leb_le in Hdl. by exists d, t0, now. }
  destruct side.
  - destruct (poll_downstream f) as [r1 f1] eqn:E.
    eapply poll_downstream_live in E as ([->|[-> Hlt]] & Hl1 & _); [| |done|done]; injection H as <- <-.
    + left. eexists. split; [done|by left].
    + right. by rewrite Hfc'.
  - destruct (poll_upstream f) as [r1 f1] eqn:E.
    eapply poll_upstream_live in E as ([->|[-> Hlt]] & Hl1 & _); [| |done|done]; injection H as <- <-.
    + left. eexists. split; [done|by right; left].
    + right. by rewrite Hfc'.
Qed.

Lemma start_drain_live nc ns now side f :
  T now -> first_closed f = None -> live nc ns f -> live nc ns (start_drain now side f).
Proof. intros Ht Hf [? ? ? ? Hp]. constructor; cbn; try done. by apply start_drain_deadline. Qed.

Lemma poll_live nc ns now f r f' :
  T now -> relay_inv f -> live nc ns f -> poll now f = (r, f') -> poll_advanced nc ns (remaining nc ns f) r f'.
Proof.
  intros Hnow Hi Hl H. pose proof H as H0. apply poll_inv in H0 as [Hi' _]; [|done]. unfold poll in H.
  assert (forall n m x g, poll_advanced nc ns n x g -> n <= m -> poll_advanced nc ns m x g) as Hmono.
  { intros n m x g [?|(? & ? & ? & ?)] Hnm; [by left|right; split_and!; try done; lia]. }
  destruct (first_closed f) as [side|] eqn:Hfc.
  { exact (poll_drain_live _ _ _ _ _ _ _ Hnow Hi Hfc Hl H). }
  assert (remaining nc ns f = work nc (client f) (upstream f) + work ns (server f) (downstream f)) as ->
    by by (unfold remaining; rewrite Hfc).
  destruct (poll_upstream f) as [r1 f1] eqn:E1. pose proof E1 as E1'.
  apply poll_upstream_inv in E1' as (Hi1 & Hok1 & Hfc1 & _); [|done|by rewrite Hfc].
  eapply poll_upstream_live in E1 as (Ha1 & Hl1 & Hw1); [|done|done]. destruct Ha1 as [->|[-> Hlt1]].
  - destruct Hok1 as [He1 _]. eapply poll_drain_live in H; [|done| |done|by apply start_drain_live; [|rewrite Hfc1|]].
    + eapply Hmono; [done|]. unfold remaining, start_drain. cbn. lia.
    + by apply start_drain_inv.
  - destruct (poll_downstream f1) as [r2 f2] eqn:E2. pose proof E2 as E2'.
    apply poll_downstream_inv in E2' as (Hi2 & Hok2 & Hfc2 & _); [|done|by rewrite Hfc1, Hfc].
    eapply poll_downstream_live in E2 as (Ha2 & Hl2 & Hw2); [|done|done]. destruct Ha2 as [->|[-> Hlt2]].
    + destruct Hok2 as [He2 _].
      eapply poll_drain_live in H; [|done| |done|by apply start_drain_live; [|rewrite Hfc2, Hfc1|]].
      * eapply Hmono; [done|]. unfold remaining, start_drain. cbn. lia.
      * by apply start_drain_inv.
    + injection H as <- <-. right. split_and!; try done. unfold remaining. rewrite Hfc2, Hfc1, Hfc. lia.
Qed.

Lemma run_relay_live nc ns instants f :
  (forall t, t ∈ instants -> T t) -> relay_inv f -> live nc ns f -> remaining nc ns f < length instants ->
  exists rep, (run_relay instants f).1 = Ok (Some rep) /\
    (termination rep = ClientClosed \/ termination rep = ServerClosed \/ ran_out).
Proof.
  revert f. induction instants as [|now rest IH]; intros f Ht Hi Hl Hlen; [cbn in Hlen; lia|].
  cbn [run_relay length] in *. destruct (poll now f) as [r f'] eqn:E.
  eapply poll_live in E as [(rep & -> & Hend)|(-> & Hi' & Hl' & Hlt)]; [by eauto| |apply Ht; set_solver|done|done].
  apply IH; [set_solver|done|done|lia].
Qed.
End ends.

(** C21. The relay ends.  Between streams that deliver their data and their end,
    take what is written and can be shut down, without waiting, it is over after a
    bounded number of polls, at whatever instants and under either policy, and
    until then every poll asks to be polled again: with everything forwarded both
    ways, unless the policy gives the other side a time after the first close and
    that time passed between two polls, and then what the first side sent was
    forwarded.  Under a policy with a time it also ends between streams that make
    it wait for ever: once a side has closed, at the first poll from the deadline
    on. *)
Theorem relay_terminates c s o nc ns instants :
  fresh_stream c -> fresh_stream s -> 0 < buffer_size o ->
  n_read c = 0 -> n_read s = 0 ->
  finite_reader c nc -> eager_writer c -> finite_reader s ns -> eager_writer s ->
  (nc + ns + 2) * (buffer_size o + 1) < length instants ->
  (exists rep f, run_relay instants (relay_new c s o) = (Ok (Some rep), f) /\
    match termination rep with
    | ClientClosed | ServerClosed => delivered (client f) (server f) /\ delivered (server f) (client f)
    | DrainTimedOut side =>
        match side with Client => delivered (client f) (server f) | Server => delivered (server f) (client f) end /\
        exists d t0 t, half_close o = DrainFor d /\ t0 ∈ instants /\ t ∈ instants /\ (t0 + d <= t)%Z
    end) /\
  (forall c' s' d polls f side, half_close o = DrainFor d ->
     run_relay polls (relay_new c' s' o) = (Ok None, f) -> first_closed f = Some side ->
     exists t0, t0 ∈ polls /\ forall now, (t0 + d <= now)%Z ->
       exists rep, (poll now f).1 = Ok (Some rep) /\ termination rep = DrainTimedOut side).
Proof.
  intros Hc Hs Hb Hc0 Hs0 Hcr Hcw Hsr Hsw Hlen. split.
  - assert (relay_inv (relay_new c s o)) as Hi by by apply relay_new_inv.
    destruct (run_relay_live (fun t => t ∈ instants) (half_close o) nc ns instants (relay_new c s o)) as (rep & Hr & Ht).
    + done.
    + done.
    + constructor; cbn; try done; unfold not_past; cbn; lia.
    + unfold remaining, work. cbn. rewrite Hc0, Hs0, !length_replicate. nia.
    + destruct (run_relay instants (relay_new c s o)) as [r f] eqn:E. cbn in Hr. subst r.
      apply run_relay_inv in E as [_ (_ & _ & Hd)]; [|done]. exists rep, f. split; [done|].
      destruct (termination rep) as [| |side]; [done|done|]. destruct Ht as [?|[?|Ht]]; [done|done|].
      split; [by destruct side|done].
  - intros c' s' d polls f side Hp Hr Hf.
    eapply (run_relay_deadline (fun t => t ∈ polls) (half_close o)) in Hr as [_ Hdl]; [|done|done].
    rewrite Hf, Hp in Hdl. destruct Hdl as (t0 & Ht0 & Hdd). exists t0. split; [done|]. intros now Hnow.
    unfold poll. rewrite Hf. unfold poll_drain. rewrite Hdd, (proj2 (Z.leb_le _ _) Hnow). by eexists.
Qed.

(** ** Witnesses *)

Definition demo_stream (l : list bytes) : stream :=
  {| s_read := fun k => RData (default [] (l !! k)); s_write := fun _ => WAccept 3;
     s_shutdown := fun _ => ShutOk; n_read := 0; n_write := 0; n_shutdown := 0;
     s_taken := []; s_given := []; s_closed := false |}.

(** The options of sessions: a second for the other side. *)
Definition demo_drain_for : RelayOptions := {| buffer_size := 4; half_close := DrainFor 1000000000 |}.

Lemma relay_terminates_witness :
  exists rep f, run_relay (replicate 31 0%Z) (relay_new (demo_stream [str "ping"; str "!"]) (demo_stream [str "pong"; str "?"]) demo_drain_for)
    = (Ok (Some rep), f) /\ delivered (client f) (server f) /\ delivered (server f) (client f).
Proof.
  destruct (relay_terminates (demo_stream [str "ping"; str "!"]) (demo_stream [str "pong"; str "?"]) demo_drain_for 2 2
    (replicate 31 0%Z)) as [(rep & f & Hr & Hd) _];
    try reflexivity; try (repeat split; reflexivity); try (apply Nat.ltb_lt; reflexivity);
    try (split; try reflexivity; intros k; try reflexivity).
  - intros Hk. destruct k as [|[|k]]; [eexists; split; [|reflexivity]; discriminate..|].
    exfalso. apply Nat.ltb_lt in Hk. discriminate Hk.
  - exists 3. split; [apply Nat.ltb_lt|]; reflexivity.
  - intros Hk. destruct k as [|[|k]]; [eexists; split; [|reflexivity]; discriminate..|].
    exfalso. apply Nat.ltb_lt in Hk. discriminate Hk.
  - exists 3. split; [apply Nat.ltb_lt|]; reflexivity.
  - exists rep, f. split; [exact Hr|]. destruct (termination rep) as [| |side]; [exact Hd|exact Hd|].
    destruct Hd as (_ & d & t0 & t & [= <-] & H0%elem_of_replicate_inv & H1%elem_of_replicate_inv & Hle). lia.
Defined.

(** A server that answers but never closes, against a drain deadline. *)
Definition slow_server : stream :=
  {| s_read := fun k => match k with 1 => RData (str "hi") | _ => RPending end; s_write := fun _ => WAccept 100;
     s_shutdown := fun _ => ShutOk; n_read := 0; n_write := 0; n_shutdown := 0;
     s_taken := []; s_given := []; s_closed := false |}.

Lemma relay_faithful_witness :
  exists f, run_relay [0; 1; 2; 50]%Z (relay_new (demo_stream [str "ping"]) slow_server
      {| buffer_size := 16; half_close := DrainFor 10 |}) =
    (Ok (Some {| bytes_upstream := 4; bytes_downstream := 2; termination := DrainTimedOut Client |}), f) /\
    delivered (client f) (server f).
Proof.
  eexists. split; [vm_compute; reflexivity|].
  match goal with |- delivered (client ?f) _ =>
    destruct (relay_faithful (demo_stream [str "ping"]) slow_server {| buffer_size := 16; half_close := DrainFor 10 |}
      [0; 1; 2; 50]%Z (Ok (Some {| bytes_upstream := 4; bytes_downstream := 2; termination := DrainTimedOut Client |})) f)
      as (_ & _ & Hd & _)
  end.
  - repeat split; reflexivity.
  - repeat split; reflexivity.
  - apply Nat.ltb_lt. reflexivity.
  - vm_compute. reflexivity.
  - apply Hd. reflexivity.
Defined.
