(* ===== verification/Scheduler.v ===== *)
(** * Schedulers

    [eggress-routing/src/scheduler.rs]: the choice of an upstream among the
    members of a group.  A scheduler holds a shared cursor (an [AtomicU64] that
    wraps) or a source of random indices; the trait [RandomIndex] is a type
    class, with its promise in a class of its own. *)

From S2P Require Import Prelude Bytes Uri Health Upstream.
Local Open Scope Z_scope.

(** ** Random indices *)

(** [RandomIndex::index]; the generator changes state at each call. *)
Class RandomIndex (R : Type) := rindex : nat -> R -> option nat * R.

(** What callers rely on: an index below a positive bound. *)
Class RandomIndexOk (R : Type) `{RandomIndex R} := {
  ri_wf : R -> Prop;
  ri_step : forall upper r, ri_wf r -> ri_wf (rindex upper r).2;
  ri_range : forall upper r, ri_wf r -> (0 < upper)%nat ->
    exists i, (rindex upper r).1 = Some i /\ (i < upper)%nat
}.

(** [DeterministicRandom]: recorded values, consumed in turn. *)
Record DeterministicRandom := { dr_values : list nat; dr_counter : Z }.

#[export] Instance DeterministicRandom_index : RandomIndex DeterministicRandom := fun upper r =>
  let idx := dr_counter r in
  let r' := {| dr_values := dr_values r; dr_counter := wrap64 (idx + 1) |} in
  if (length (dr_values r) =? 0)%nat || (upper =? 0)%nat then (None, r')
  else
    match dr_values r !! Z.to_nat (idx mod Z.of_nat (length (dr_values r))) with
    | Some v => (Some (v mod upper)%nat, r')
    | None => (None, r')
    end.

#[export] Program Instance DeterministicRandom_ok : RandomIndexOk DeterministicRandom :=
  {| ri_wf r := dr_values r <> [] |}.
Next Obligation.
  intros upper r Hr. unfold rindex, DeterministicRandom_index.
  destruct (_ || _); [done|]. by destruct (_ !! _).
Qed.
Next Obligation.
  intros upper r Hr Hu. unfold rindex, DeterministicRandom_index.
  destruct (length (dr_values r) =? 0)%nat eqn:E1; [bool_to_prop; by apply nil_length_inv in E1|].
  bool_to_prop. rewrite (proj2 (Nat.eqb_neq _ _)) by lia. cbn [orb].
  destruct (lookup_lt_is_Some_2 (dr_values r)
    (Z.to_nat (dr_counter r mod Z.of_nat (length (dr_values r))))) as [v Hv].
  { pose proof (Z.mod_pos_bound (dr_counter r) (Z.of_nat (length (dr_values r)))). lia. }
  rewrite Hv. eexists. split; [reflexivity|]. apply Nat.mod_upper_bound. lia.
Qed.

(** ** Selection *)

(** The loop [for member in iter { if pick == 0 { return .. } pick -= 1 }]. *)
Fixpoint pick_loop {A} (pick : nat) (l : list A) {struct l} : option A :=
  match l with
  | [] => None
  | x :: r => match pick with O => Some x | S p => pick_loop p r end
  end.

Lemma pick_loop_lookup {A} pick (l : list A) : pick_loop pick l = l !! pick.
Proof. revert pick. induction l as [|x l IH]; intros [|p]; [done..|]. apply IH. Qed.

Section select.
Context {A : Type} (eligible : A -> bool) (load : A -> Z).

Definition eligibles (candidates : list A) : list A := filter (fun m => eligible m = true) candidates.

(** [cursor.fetch_add(1) as usize % n]. *)
Definition cursor_pick (cursor : Z) (n : nat) : nat := Z.to_nat (cursor mod Z.of_nat n).

Definition select_round_robin (cursor : Z) (candidates : list A) : option A * Z :=
  if (length candidates =? 0)%nat then (None, cursor)
  else
    let eligible_count := length (eligibles candidates) in
    if (eligible_count =? 0)%nat then (None, cursor)
    else (pick_loop (cursor_pick cursor eligible_count) (eligibles candidates), wrap64 (cursor + 1)).

(** The snapshot of loads: eligible positions with their loads, and the minimum. *)
Fixpoint loads_from (idx : nat) (candidates : list A) : list (nat * Z) :=
  match candidates with
  | [] => []
  | m :: r =>
      if eligible m then (idx, load m) :: loads_from (S idx) r else loads_from (S idx) r
  end.

Definition min_load (loads : list (nat * Z)) : option Z :=
  foldl (fun acc '(_, l) => Some (match acc with None => l | Some m => Z.min m l end)) None loads.

(** The second loop, over the snapshot; [candidates[idx]] panics out of range. *)
Fixpoint pick_tied (min : Z) (pick : nat) (loads : list (nat * Z)) : option nat :=
  match loads with
  | [] => None
  | (idx, l) :: r =>
      if l =? min then match pick with O => Some idx | S p => pick_tied min p r end
      else pick_tied min pick r
  end.

Definition select_least_connections (cursor : Z) (candidates : list A)
    : outcome Empty_set (option A) * Z :=
  let loads := loads_from 0 candidates in
  match min_load loads with
  | None => (Ok None, cursor)
  | Some m =>
      let tied_count := length (filter (fun x => x.2 = m) loads) in
      if (tied_count =? 0)%nat then (Ok None, cursor)
      else
        (match pick_tied m (cursor_pick cursor tied_count) loads with
         | Some idx => let? c := index candidates idx in Ok (Some c)
         | None => Ok None
         end, wrap64 (cursor + 1))
  end.

Definition select_random {R} `{RandomIndex R} (rng : R) (candidates : list A) : option A * R :=
  if (length candidates =? 0)%nat then (None, rng)
  else
    match rindex (length (eligibles candidates)) rng with
    | (Some pick, rng') => (pick_loop pick (eligibles candidates), rng')
    | (None, rng') => (None, rng')
    end.

(** [candidates.iter().find(eligible)]. *)
Definition select_first (candidates : list A) : option A := head (eligibles candidates).

(** The non-mutating [preview] of the round-robin scheduler. *)
Fixpoint preview_loop (start : Z) (candidates : list A) (n i : nat) : option A :=
  match n with
  | O => None
  | S n' =>
      match candidates !! Z.to_nat (wrap64 (start + Z.of_nat i) mod Z.of_nat (length candidates)) with
      | Some c => if eligible c then Some c else preview_loop start candidates n' (S i)
      | None => None
      end
  end.

Definition preview_round_robin (cursor : Z) (candidates : list A) : option A :=
  if (length candidates =? 0)%nat then None
  else preview_loop cursor candidates (length candidates) 0.

End select.

(** ** The trait [Scheduler] *)

Inductive SchedulerKind := KFirstAvailable | KRoundRobin | KRandom | KLeastConnections.

Inductive Scheduler (R : Type) :=
| FirstAvailableScheduler
| RoundRobinScheduler (cursor : Z)
| RandomScheduler (rng : R)
| LeastConnectionsScheduler (cursor : Z).
Arguments FirstAvailableScheduler {R}.
Arguments RoundRobinScheduler {R} cursor.
Arguments RandomScheduler {R} rng.
Arguments LeastConnectionsScheduler {R} cursor.

(** The members a scheduler sees are addresses of the heap. *)
Definition eligible_at (h : heap) (i : nat) : bool :=
  match h !! i with Some u => is_eligible u | None => false end.
Definition enabled_at (h : heap) (i : nat) : bool :=
  match h !! i with Some u => is_enabled u | None => false end.
Definition load_at (h : heap) (i : nat) : Z :=
  match h !! i with Some u => current_load u | None => 0 end.

Section scheduler.
Context {R : Type} `{RandomIndex R}.

Definition resolve_scheduler (rng : R) (kind : SchedulerKind) : Scheduler R :=
  match kind with
  | KFirstAvailable => FirstAvailableScheduler
  | KRoundRobin => RoundRobinScheduler 0
  | KRandom => RandomScheduler rng
  | KLeastConnections => LeastConnectionsScheduler 0
  end.

(** One selection under a predicate on members; [None] covers the panic of an
    out-of-range index, shown impossible below. *)
Definition select_where (p : nat -> bool) (load : nat -> Z) (s : Scheduler R) (candidates : list nat)
    : option nat * Scheduler R :=
  match s with
  | FirstAvailableScheduler => (select_first p candidates, s)
  | RoundRobinScheduler cursor =>
      let '(r, c) := select_round_robin p cursor candidates in (r, RoundRobinScheduler c)
  | RandomScheduler rng =>
      let '(r, g) := select_random p rng candidates in (r, RandomScheduler g)
  | LeastConnectionsScheduler cursor =>
      let '(r, c) := select_least_connections p load cursor candidates in
      (match r with Ok o => o | _ => None end, LeastConnectionsScheduler c)
  end.

Definition select (h : heap) : Scheduler R -> list nat -> option nat * Scheduler R :=
  select_where (eligible_at h) (load_at h).
Definition select_enabled (h : heap) : Scheduler R -> list nat -> option nat * Scheduler R :=
  select_where (enabled_at h) (load_at h).

(** [preview]: overridden by the round-robin scheduler only. *)
Definition preview (h : heap) (s : Scheduler R) (candidates : list nat) : option nat * Scheduler R :=
  match s with
  | RoundRobinScheduler cursor => (preview_round_robin (eligible_at h) cursor candidates, s)
  | _ => select h s candidates
  end.

End scheduler.

(** ** Properties of the selection functions *)

Section select_proofs.
Context {A : Type} (eligible : A -> bool).

Lemma eligibles_elem x l : x ∈ eligibles eligible l <-> x ∈ l /\ eligible x = true.
Proof. unfold eligibles. rewrite list_elem_of_filter. tauto. Qed.

Lemma eligibles_all l : Forall (fun x => eligible x = true) l -> eligibles eligible l = l.
Proof.
  induction 1 as [|x l Hx _ IH]; [done|]. unfold eligibles in *.
  rewrite filter_cons_True by done. by rewrite IH.
Qed.

Lemma eligibles_nonempty l x : x ∈ l -> eligible x = true -> (0 < length (eligibles eligible l))%nat.
Proof.
  intros Hx He. assert (x ∈ eligibles eligible l) as Hin by by apply eligibles_elem.
  destruct (eligibles eligible l); [set_solver|simpl; lia].
Qed.

Lemma cursor_pick_lt cursor n : (0 < n)%nat -> (cursor_pick cursor n < n)%nat.
Proof.
  intros Hn. unfold cursor_pick. pose proof (Z.mod_pos_bound cursor (Z.of_nat n)). lia.
Qed.

Lemma round_robin_spec cursor l :
  select_round_robin eligible cursor l =
  if decide (eligibles eligible l = []) then (None, cursor)
  else (eligibles eligible l !! cursor_pick cursor (length (eligibles eligible l)), wrap64 (cursor + 1)).
Proof.
  unfold select_round_robin. destruct l as [|x l]; [done|]. cbn [length Nat.eqb].
  destruct (decide (eligibles eligible (x :: l) = [])) as [->|Hn]; [done|].
  destruct (Nat.eqb_spec (length (eligibles eligible (x :: l))) 0) as [E|E];
    [by apply nil_length_inv in E|].
  by rewrite pick_loop_lookup.
Qed.

Section loads.
Context (load : A -> Z).

Lemma loads_from_elem idx l k v :
  (k, v) ∈ loads_from eligible load idx l <->
  exists m, (idx <= k)%nat /\ l !! (k - idx)%nat = Some m /\ eligible m = true /\ v = load m.
Proof.
  revert idx. induction l as [|x l IH]; intros idx; simpl.
  - split; [set_solver|]. by intros (m & _ & ? & _).
  - assert (forall m, (S idx <= k)%nat /\ l !! (k - S idx)%nat = Some m <->
                      (S idx <= k)%nat /\ (x :: l) !! (k - idx)%nat = Some m) as Hs.
    { intros m. split; intros [Hk Hm]; (split; [done|]); revert Hm;
        replace (k - idx)%nat with (S (k - S idx)) by lia; done. }
    destruct (eligible x) eqn:Ex; [rewrite elem_of_cons|]; rewrite IH.
    + split.
      * intros [[= -> ->]|(m & H1 & H2 & H3)]; [exists x; rewrite Nat.sub_diag; done|].
        exists m. split; [lia|]. split; [by apply Hs|done].
      * intros (m & Hk & Hm & He & ->). destruct (decide (k = idx)) as [->|Hne].
        { rewrite Nat.sub_diag in Hm. injection Hm as ->. by left. }
        right. exists m. destruct (proj2 (Hs m)) as [? ?]; [split; [lia|done]|]. done.
    + split.
      * intros (m & H1 & H2 & H3). exists m. split; [lia|]. split; [by apply Hs|done].
      * intros (m & Hk & Hm & He & ->). destruct (decide (k = idx)) as [->|Hne].
        { rewrite Nat.sub_diag in Hm. injection Hm as ->. congruence. }
        exists m. destruct (proj2 (Hs m)) as [? ?]; [split; [lia|done]|]. done.
Qed.

Lemma min_load_spec loads :
  match min_load loads with
  | None => loads = []
  | Some m => (exists k, (k, m) ∈ loads) /\ forall k v, (k, v) ∈ loads -> m <= v
  end.
Proof.
  unfold min_load. induction loads as [|[k v] loads IH] using rev_ind; [done|].
  rewrite foldl_app. cbn [foldl].
  destruct (foldl _ None loads) as [m|]; cbn in IH |- *.
  - destruct IH as [[j Hj] Hm]. split.
    + destruct (Z.min_spec m v) as [[_ ->]|[_ ->]]; [exists j|exists k]; set_solver.
    + intros k' v' H. apply elem_of_app in H as [H|H]; [specialize (Hm _ _ H); lia|].
      apply list_elem_of_singleton in H. injection H as _ <-. lia.
  - subst loads. split; [exists k; set_solver|]. intros k' v' H.
    apply list_elem_of_singleton in H. injection H as _ <-. lia.
Qed.

Lemma pick_tied_spec m p loads :
  (p < length (filter (fun x => x.2 = m) loads))%nat ->
  exists idx, pick_tied m p loads = Some idx /\ (idx, m) ∈ loads.
Proof.
  revert p. induction loads as [|[k v] loads IH]; intros p Hp; [simpl in Hp; lia|].
  rewrite filter_cons in Hp. cbn [snd] in Hp. cbn [pick_tied].
  destruct (decide (v = m)) as [->|Hne].
  - rewrite Z.eqb_refl. destruct p as [|p]; [exists k; set_solver|].
    destruct (IH p) as (i & -> & Hi); [simpl in Hp; lia|]. exists i. set_solver.
  - rewrite (proj2 (Z.eqb_neq v m)) by done.
    destruct (IH p Hp) as (i & -> & Hi). exists i. set_solver.
Qed.

(** Least connections: a member of minimal load, whenever one is eligible. *)
Lemma least_connections_spec cursor l :
  match select_least_connections eligible load cursor l with
  | (Ok None, c) => c = cursor /\ Forall (fun x => eligible x = false) l
  | (Ok (Some x), c) => c = wrap64 (cursor + 1) /\ x ∈ l /\ eligible x = true /\
      forall y, y ∈ l -> eligible y = true -> load x <= load y
  | _ => False
  end.
Proof.
  unfold select_least_connections. pose proof (min_load_spec (loads_from eligible load 0 l)) as Hm.
  destruct (min_load _) as [m|].
  - destruct Hm as [[k Hk] Hmin].
    assert (0 < length (filter (fun x => x.2 = m) (loads_from eligible load 0 l)))%nat as Hlen.
    { assert ((k, m) ∈ filter (fun x => x.2 = m) (loads_from eligible load 0 l)) as Hf
        by by apply list_elem_of_filter.
      destruct (filter _ _); [set_solver|simpl; lia]. }
    rewrite (proj2 (Nat.eqb_neq _ _)) by lia.
    destruct (pick_tied_spec m (cursor_pick cursor _) _ (cursor_pick_lt cursor _ Hlen))
      as (idx & -> & Hidx).
    apply loads_from_elem in Hidx as (x & _ & Hx & Hex & ->). rewrite Nat.sub_0_r in Hx.
    assert (index (E:=Empty_set) l idx = Ok x) as -> by by apply index_ok. cbn [obind].
    split; [done|]. split; [by eapply list_elem_of_lookup_2|]. split; [done|].
    intros y Hy Hey. apply list_elem_of_lookup in Hy as [j Hj].
    apply (Hmin j). apply loads_from_elem. exists y. rewrite Nat.sub_0_r. split; [lia|done].
  - split; [done|]. apply Forall_forall. intros x Hx. destruct (eligible x) eqn:E; [|done].
    apply list_elem_of_lookup in Hx as [j Hj].
    assert ((j, load x) ∈ loads_from eligible load 0 l) as Hin.
    { apply loads_from_elem. exists x. rewrite Nat.sub_0_r. split; [lia|done]. }
    rewrite Hm in Hin. set_solver.
Qed.

End loads.

(** [n] selections in a row by the round-robin cursor. *)
Fixpoint round_robin_run (n : nat) (cursor : Z) (l : list A) : list (option A) :=
  match n with
  | O => []
  | S n' =>
      let '(r, c) := select_round_robin eligible cursor l in r :: round_robin_run n' c l
  end.

Lemma round_robin_run_lookup n cursor l j :
  eligibles eligible l <> [] -> 0 <= cursor -> cursor + Z.of_nat n <= U64 -> (j < n)%nat ->
  round_robin_run n cursor l !! j =
  Some (eligibles eligible l !! cursor_pick (cursor + Z.of_nat j) (length (eligibles eligible l))).
Proof.
  intros Hne. revert cursor j. induction n as [|n IH]; intros cursor j Hc Hn Hj; [lia|].
  cbn [round_robin_run]. rewrite round_robin_spec. rewrite decide_False by done.
  destruct j as [|j]; [by rewrite Z.add_0_r|]. cbn.
  destruct n as [|n]; [lia|]. unfold wrap64. rewrite Z.mod_small by lia.
  rewrite IH by lia. do 3 f_equal. lia.
Qed.

Lemma round_robin_run_length n cursor l : length (round_robin_run n cursor l) = n.
Proof.
  revert cursor. induction n as [|n IH]; intros cursor; [done|]. cbn [round_robin_run].
  destruct (select_round_robin eligible cursor l) as [r c]. cbn. by rewrite IH.
Qed.
End select_proofs.

Definition rotation {A} (k : nat) (l : list A) : list A := drop k l ++ take k l.

Lemma rotation_perm {A} k (l : list A) : rotation k l ≡ₚ l.
Proof. unfold rotation. rewrite Permutation_app_comm. by rewrite take_drop. Qed.

Lemma rotation_lookup {A} k (l : list A) j :
  (k < length l)%nat -> (j < length l)%nat ->
  rotation k l !! j = l !! ((k + j) mod length l)%nat.
Proof.
  intros Hk Hj. unfold rotation. destruct (decide (k + j < length l)%nat) as [Hlt|Hge].
  - rewrite lookup_app_l by (rewrite length_drop; lia). rewrite lookup_drop.
    by rewrite Nat.mod_small.
  - rewrite lookup_app_r by (rewrite length_drop; lia). rewrite length_drop.
    rewrite lookup_take_lt by lia. f_equal.
    apply (Nat.mod_unique (k + j) (length l) 1); lia.
Qed.

Lemma cursor_pick_add cursor n j :
  (0 < n)%nat -> cursor_pick (cursor + Z.of_nat j) n = ((cursor_pick cursor n + j) mod n)%nat.
Proof.
  intros Hn. unfold cursor_pick. apply Nat2Z.inj. rewrite Nat2Z.inj_mod, Nat2Z.inj_add.
  pose proof (Z.mod_pos_bound cursor (Z.of_nat n)).
  pose proof (Z.mod_pos_bound (cursor + Z.of_nat j) (Z.of_nat n)).
  rewrite !Z2Nat.id by lia. symmetry. apply Z.add_mod_idemp_l. lia.
Qed.

Lemma round_robin_round {A} (eligible : A -> bool) cursor l :
  0 <= cursor -> cursor + Z.of_nat (length (eligibles eligible l)) <= U64 ->
  round_robin_run eligible (length (eligibles eligible l)) cursor l =
  map Some (rotation (cursor_pick cursor (length (eligibles eligible l))) (eligibles eligible l)).
Proof.
  intros Hc Hw. set (E := eligibles eligible l) in *.
  destruct (decide (E = [])) as [HE|HE]; [rewrite HE; unfold rotation; by rewrite drop_nil, take_nil|].
  assert (0 < length E)%nat as Hn by (destruct E; [done|simpl; lia]).
  apply list_eq_same_length with (n := length E).
  - rewrite length_map. unfold rotation. rewrite length_app, length_drop, length_take. lia.
  - apply round_robin_run_length.
  - intros j x y Hj Hx Hy.
    rewrite round_robin_run_lookup in Hx by done. rewrite list_lookup_fmap in Hy.
    rewrite rotation_lookup in Hy by (try done; by apply cursor_pick_lt).
    fold E in Hx. rewrite cursor_pick_add in Hx by done.
    destruct (E !! ((cursor_pick cursor (length E) + j) mod length E)%nat) as [e|] eqn:Ee; [|done].
    cbn in Hy. congruence.
Qed.

(** Round robin is fair: in any round of as many selections as there are
    eligible members, starting anywhere and as long as the 64-bit cursor does
    not wrap, every eligible member is chosen exactly once, in rotation order. *)
Theorem round_robin_fair {A} (eligible : A -> bool) cursor l :
  0 <= cursor -> cursor + Z.of_nat (length (eligibles eligible l)) <= U64 ->
  let n := length (eligibles eligible l) in
  round_robin_run eligible n cursor l
    = map Some (rotation (cursor_pick cursor n) (eligibles eligible l)) /\
  round_robin_run eligible n cursor l ≡ₚ map Some (eligibles eligible l).
Proof.
  intros Hc Hw n. unfold n. rewrite round_robin_round by done. split; [done|].
  apply fmap_Permutation, rotation_perm.
Qed.

Lemma round_robin_fair_witness :
  round_robin_run (fun i => negb (i =? 2)%nat) 3 7 [1; 2; 3; 4]%nat = map Some [3; 4; 1]%nat.
Proof.
  exact (proj1 (round_robin_fair (fun i => negb (i =? 2)%nat) 7 [1; 2; 3; 4]%nat
    ltac:(discriminate) ltac:(vm_compute; discriminate))).
Defined.

(** Least connections returns an eligible member of minimal load whenever
    there is an eligible member, never indexes out of range, and advances its
    cursor by one. *)
Theorem least_connections_min {A} (eligible : A -> bool) (load : A -> Z) cursor l x :
  x ∈ l -> eligible x = true ->
  exists y, select_least_connections eligible load cursor l = (Ok (Some y), wrap64 (cursor + 1)) /\
    y ∈ l /\ eligible y = true /\ forall z, z ∈ l -> eligible z = true -> load y <= load z.
Proof.
  intros Hx He. pose proof (least_connections_spec eligible load cursor l) as H.
  destruct (select_least_connections eligible load cursor l) as [[[y|]| |] c]; try done.
  - destruct H as (-> & H). by exists y.
  - destruct H as [_ H]. rewrite Forall_forall in H. by rewrite (H x Hx) in He.
Qed.

Lemma least_connections_min_witness :
  exists y, select_least_connections (fun _ => true) (fun i : nat => Z.of_nat (Nat.sub 9 i)) 0 [3; 8; 5]%nat
    = (Ok (Some y), 1) /\ y ∈ [3; 8; 5]%nat /\ true = true /\
    forall z, z ∈ [3; 8; 5]%nat -> true = true -> Z.of_nat (9 - y) <= Z.of_nat (9 - z).
Proof.
  apply (least_connections_min (fun _ => true) (fun i : nat => Z.of_nat (Nat.sub 9 i)) 0
    [3; 8; 5]%nat 3%nat); [apply list_elem_of_here|reflexivity].
Defined.

(** ** Properties of schedulers *)

Definition scheduler_wf {R} `{RandomIndexOk R} (s : Scheduler R) : Prop :=
  match s with RandomScheduler rng => ri_wf rng | _ => True end.

Section scheduler_proofs.
Context {R : Type} `{Hok : RandomIndexOk R}.

Lemma select_where_spec p load (s : Scheduler R) l :
  scheduler_wf s ->
  let '(r, s') := select_where p load s l in
  scheduler_wf s' /\
  match r with
  | Some i => i ∈ l /\ p i = true
  | None => Forall (fun i => p i = false) l
  end.
Proof.
  intros Hw. assert (forall e : list nat, e = eligibles p l -> e = [] -> Forall (fun i => p i = false) l) as Hn.
  { intros e -> He. apply Forall_forall. intros i Hi. destruct (p i) eqn:E; [|done].
    assert (i ∈ eligibles p l) as Hin by by apply eligibles_elem. rewrite He in Hin. set_solver. }
  destruct s as [|cursor|rng|cursor]; cbn [select_where].
  - split; [done|]. unfold select_first. destruct (eligibles p l) as [|i e] eqn:E; cbn.
    + by eapply Hn.
    + apply (eligibles_elem p). rewrite E. set_solver.
  - rewrite round_robin_spec. destruct (decide (eligibles p l = [])) as [He|He]; cbn.
    { split; [done|]. by eapply Hn. }
    split; [done|]. destruct (eligibles p l !! _) as [i|] eqn:E.
    + apply list_elem_of_lookup_2, eligibles_elem in E. done.
    + apply lookup_ge_None in E. assert (0 < length (eligibles p l))%nat as Hl
        by (destruct (eligibles p l); [done|simpl; lia]).
      pose proof (cursor_pick_lt cursor _ Hl). lia.
  - unfold select_random. destruct l as [|x l]; cbn [length Nat.eqb].
    { split; [done|constructor]. }
    pose proof (ri_step (length (eligibles p (x :: l))) rng Hw) as Hstep.
    destruct (decide (eligibles p (x :: l) = [])) as [He|He].
    + pose proof (Hn _ eq_refl He) as Hnone. rewrite He in Hstep |- *. cbn [length] in *.
      destruct (rindex 0 rng) as [[k|] g]; done.
    + assert (0 < length (eligibles p (x :: l)))%nat as Hl
        by (destruct (eligibles p (x :: l)); [done|simpl; lia]).
      destruct (ri_range _ _ Hw Hl) as (k & Hk & Hlt).
      destruct (rindex (length (eligibles p (x :: l))) rng) as [o g]. cbn in Hk, Hstep. subst o.
      split; [done|]. rewrite pick_loop_lookup.
      destruct (lookup_lt_is_Some_2 _ _ Hlt) as [i Hi]. rewrite Hi.
      apply list_elem_of_lookup_2, eligibles_elem in Hi. done.
  - pose proof (least_connections_spec p load cursor l) as Hs.
    destruct (select_least_connections p load cursor l) as [[[i|]| |] c]; try done; cbn.
    + destruct Hs as (_ & ? & ? & _). done.
    + by destruct Hs as [_ ?].
Qed.

(** Every scheduler chooses only eligible members of the group it is given,
    and one of them whenever there is one. *)
Theorem select_eligible (s : Scheduler R) h l :
  scheduler_wf s ->
  let '(r, s') := select h s l in
  scheduler_wf s' /\
  match r with
  | Some i => i ∈ l /\ eligible_at h i = true
  | None => Forall (fun i => eligible_at h i = false) l
  end.
Proof. apply select_where_spec. Qed.

Lemma preview_loop_first (p : nat -> bool) cursor l :
  0 <= cursor < U64 -> l <> [] -> Forall (fun i => p i = true) l ->
  preview_round_robin p cursor l = (select_round_robin p cursor l).1.
Proof.
  intros Hc Hl Hp. rewrite round_robin_spec, eligibles_all by done.
  rewrite decide_False by done. unfold preview_round_robin.
  destruct l as [|x l]; [done|]. cbn [length Nat.eqb preview_loop].
  rewrite Z.add_0_r. unfold wrap64 at 1. rewrite (Z.mod_small cursor U64) by done. cbn [fst].
  unfold cursor_pick. change (S (length l)) with (length (x :: l)).
  destruct (lookup_lt_is_Some_2 (x :: l) (Z.to_nat (cursor mod Z.of_nat (length (x :: l))))) as [i Hi].
  { pose proof (Z.mod_pos_bound cursor (Z.of_nat (length (x :: l)))). simpl in *. lia. }
  rewrite Hi. rewrite Forall_lookup in Hp. by rewrite (Hp _ _ Hi).
Qed.

(** The preview of the first-available and of the round-robin scheduler
    leaves the scheduler as it is and names the member the next selection will
    take, when all candidates are eligible as the router arranges. *)
Theorem preview_predicts (s : Scheduler R) h l :
  (match s with
   | FirstAvailableScheduler => True
   | RoundRobinScheduler cursor => 0 <= cursor < U64
   | _ => False
   end) ->
  l <> [] -> Forall (fun i => eligible_at h i = true) l ->
  preview h s l = ((select h s l).1, s).
Proof.
  intros Hs Hl Hp. destruct s as [|cursor|rng|cursor]; try done; cbn [preview].
  unfold select. cbn [select_where]. rewrite preview_loop_first by done.
  by destruct (select_round_robin _ _ _).
Qed.

(** The least-connections scheduler has no preview of its own: explaining a
    route moves its cursor, so an explanation changes which member the next
    connection gets. *)
Theorem preview_moves_least_connections h cursor i l :
  0 <= cursor < U64 - 1 -> i ∈ l -> eligible_at h i = true ->
  (preview h (LeastConnectionsScheduler (R:=R) cursor) l).2 =
  LeastConnectionsScheduler (cursor + 1).
Proof.
  intros Hc Hi He. cbn [preview select select_where]. unfold select. cbn [select_where].
  pose proof (least_connections_spec (eligible_at h) (load_at h) cursor l) as Hs.
  destruct (select_least_connections _ _ _ _) as [[[j|]| |] c]; try done.
  - destruct Hs as (-> & _). cbn. unfold wrap64. by rewrite Z.mod_small by lia.
  - destruct Hs as [_ Hs]. rewrite Forall_forall in Hs. by rewrite (Hs i Hi) in He.
Qed.
End scheduler_proofs.

Definition demo_heap : heap := [demo_upstream; set_enabled false demo_upstream; demo_upstream].
Definition demo_rng : DeterministicRandom := {| dr_values := [7; 4]%nat; dr_counter := 0 |}.

Lemma select_eligible_witness :
  let '(r, s') := select demo_heap (RandomScheduler demo_rng) [0; 1; 2]%nat in
  scheduler_wf s' /\
  match r with
  | Some i => i ∈ [0; 1; 2]%nat /\ eligible_at demo_heap i = true
  | None => Forall (fun i => eligible_at demo_heap i = false) [0; 1; 2]%nat
  end.
Proof. apply (select_eligible (RandomScheduler demo_rng) demo_heap). discriminate. Defined.

Lemma preview_predicts_witness :
  preview (R:=DeterministicRandom) demo_heap (RoundRobinScheduler 1) [0; 2]%nat
  = (Some 2%nat, RoundRobinScheduler 1).
Proof.
  apply (preview_predicts (R:=DeterministicRandom) (RoundRobinScheduler 1) demo_heap);
    [split; [discriminate|reflexivity]|discriminate|].
  repeat constructor.
Defined.

Lemma preview_moves_least_connections_witness :
  (preview (R:=DeterministicRandom) demo_heap (LeastConnectionsScheduler 4) [0; 2]%nat).2
  = LeastConnectionsScheduler 5.
Proof.
  apply (preview_moves_least_connections (R:=DeterministicRandom) demo_heap 4 0);
    [split; [discriminate|reflexivity]|apply list_elem_of_here|reflexivity].
Defined.
