(* ===== verification/Matcher.v ===== *)
(** * Route matching

    [eggress-routing/src/matcher.rs] and the request types of [model.rs]:
    port sets, host normalisation, suffix rules and match expressions.  The
    regular-expression engine and the CIDR type come from other crates and are
    parameters of the section. *)

From S2P Require Import Prelude Bytes Decimal NetAddr Connector Dispatch.
From stdpp Require Import sorting.
Local Open Scope Z_scope.

(** ** Port matchers *)

Inductive PortMatcher :=
| PmExact (p : Z)
| PmRange (start end_ : Z)
| PmSet (ports : list Z).

(** [slice::binary_search]: the range [base, base + size) is halved until one
    element is left; [fuel] bounds the iterations by the size. *)
Fixpoint bs_loop (l : list Z) (target : Z) (fuel base size : nat) : nat :=
  match fuel with
  | O => base
  | S f =>
      if (1 <? size)%nat then
        let half := (size / 2)%nat in
        let mid := (base + half)%nat in
        let base' := match l !! mid with
                     | Some v => if target <? v then base else mid
                     | None => base
                     end in
        bs_loop l target f base' (size - half)
      else base
  end.
Definition binary_search (l : list Z) (target : Z) : bool :=
  match length l with
  | O => false
  | n => match l !! bs_loop l target n 0 n with Some v => v =? target | None => false end
  end.

Definition port_matches (m : PortMatcher) (port : Z) : bool :=
  match m with
  | PmExact p => port =? p
  | PmRange start end_ =>
      if end_ <? start then false else (start <=? port) && (port <=? end_)
  | PmSet ports => binary_search ports port
  end.

Definition new_range (start end_ : Z) : outcome unit PortMatcher :=
  if end_ <? start then Err tt else Ok (PmRange start end_).

(** [Vec::dedup]: consecutive duplicates removed. *)
Fixpoint dedup (l : list Z) : list Z :=
  match l with
  | x :: r =>
      match r with
      | y :: _ => if x =? y then dedup r else x :: dedup r
      | [] => [x]
      end
  | [] => []
  end.

Definition new_set (ports : list Z) : PortMatcher := PmSet (dedup (merge_sort Z.le ports)).

(** ** Hosts *)

Definition normalize_host_for_exact (host : bytes) : bytes :=
  let h := strip_suffix_or x2e host in
  match parse_ip h with
  | Some (V6 o) =>
      match to_ipv4_mapped o with
      | Some v4 => fmt_ip (V4 v4)
      | None => fmt_ip (V6 o)
      end
  | Some (V4 o) => fmt_ip (V4 o)
  | None => to_ascii_lowercase h
  end.

Definition target_host_str (h : TargetHost) : bytes :=
  match h with DomainName d => d | Ip ip => fmt_ip ip end.

(** [s.get(..i)] and [s.get(i..)]: [None] off a character boundary. *)
Definition is_char_boundary (s : bytes) (i : nat) : bool :=
  if (i =? 0)%nat || (i =? length s)%nat then true
  else match s !! i with Some b => negb (utf8_cont b) | None => false end.
Definition get_to (s : bytes) (i : nat) : option bytes :=
  if is_char_boundary s i then Some (take i s) else None.
Definition get_from (s : bytes) (i : nat) : option bytes :=
  if is_char_boundary s i then Some (drop i s) else None.

Definition host_matches_suffix (host suffix : bytes) : bool :=
  let host := strip_suffix_or x2e host in
  let suffix := strip_suffix_or x2e suffix in
  if eq_ignore_ascii_case host suffix || (length host <=? length suffix)%nat
  then eq_ignore_ascii_case host suffix
  else
    let suffix_start := (length host - length suffix)%nat in
    match get_to host suffix_start, get_from host suffix_start with
    | Some prefix, Some host_suffix =>
        ends_with [x2e] prefix && eq_ignore_ascii_case host_suffix suffix
    | _, _ => false
    end.

(** The digit loop of [fmt_port], least significant digit first. *)
Fixpoint port_digits (fuel : nat) (remaining : Z) : bytes :=
  match fuel with
  | O => []
  | S f =>
      Z2b (0x30 + remaining mod 10)
      :: (if remaining / 10 =? 0 then [] else port_digits f (remaining / 10))
  end.
Definition fmt_port (port : Z) : option bytes :=
  let text := rev (port_digits 5 port) in
  if utf8_valid text then Some text else None.

(** ** Requests (model.rs) *)

Inductive TransportKind := Tcp | Udp | ReverseTcp.
#[export] Instance TransportKind_eq_dec : EqDecision TransportKind.
Proof. solve_decision. Defined.

Definition fmt_transport (t : TransportKind) : bytes :=
  match t with Tcp => str "tcp" | Udp => str "udp" | ReverseTcp => str "reverse_tcp" end.

Inductive ClientIdentity := Anonymous | Username (u : bytes) | Opaque (o : bytes).

Record RouteRequest := {
  rq_target : TargetAddr;
  rq_source : option SocketAddr;
  rq_listener : bytes;
  rq_protocol : ProtocolId;
  rq_identity : ClientIdentity;
  rq_transport : TransportKind
}.

(** ** Match expressions *)

Section matcher.
Context {Regex IpNet : Type}.
Context (is_match : Regex -> bytes -> bool) (cidr_contains : IpNet -> IpAddr -> bool).

Inductive MatchExpr :=
| MAny
| MAll (exprs : list MatchExpr)
| MAnyOf (exprs : list MatchExpr)
| MNot (inner : MatchExpr)
| MHostExact (expected : bytes)
| MHostSuffix (suffix : bytes)
| MHostRegex (re : Regex)
| MDestinationCidr (cidr : IpNet)
| MDestinationPort (m : PortMatcher)
| MDestinationPortRegex (re : Regex)
| MSourceCidr (cidr : IpNet)
| MSourcePort (m : PortMatcher)
| MListener (name : bytes)
| MProtocol (proto : ProtocolId)
| MIdentity (name : bytes)
| MTransport (kind : TransportKind)
| MReverseListener (expected : bytes).

Fixpoint matches (e : MatchExpr) (r : RouteRequest) : bool :=
  match e with
  | MAny => true
  | MAll exprs => forallb (fun e => matches e r) exprs
  | MAnyOf exprs => existsb (fun e => matches e r) exprs
  | MNot inner => negb (matches inner r)
  | MHostExact expected =>
      match host (rq_target r) with
      | DomainName domain => eq_ignore_ascii_case (strip_suffix_or x2e domain) expected
      | Ip _ =>
          bool_decide (normalize_host_for_exact (target_host_str (host (rq_target r))) = expected)
      end
  | MHostSuffix suffix =>
      match host (rq_target r) with
      | DomainName domain => host_matches_suffix domain suffix
      | Ip _ =>
          host_matches_suffix (normalize_host_for_exact (target_host_str (host (rq_target r)))) suffix
      end
  | MHostRegex re => is_match re (target_host_str (host (rq_target r)))
  | MDestinationCidr cidr =>
      match host (rq_target r) with
      | Ip ip => cidr_contains cidr ip
      | DomainName _ => false
      end
  | MDestinationPort m => port_matches m (tport (rq_target r))
  | MDestinationPortRegex re =>
      match fmt_port (tport (rq_target r)) with Some p => is_match re p | None => false end
  | MSourceCidr cidr =>
      match rq_source r with Some a => cidr_contains cidr (sa_ip a) | None => false end
  | MSourcePort m =>
      match rq_source r with Some a => port_matches m (sa_port a) | None => false end
  | MListener name => bool_decide (rq_listener r = name)
  | MProtocol proto => bool_decide (rq_protocol r = proto)
  | MIdentity name =>
      match rq_identity r with
      | Anonymous => false
      | Username u => bool_decide (u = name)
      | Opaque o => bool_decide (o = name)
      end
  | MTransport kind => bool_decide (rq_transport r = kind)
  | MReverseListener expected =>
      bool_decide (rq_transport r = ReverseTcp) && bool_decide (rq_listener r = expected)
  end.

End matcher.

Arguments MatchExpr Regex IpNet : clear implicits.

(** ** Port sets *)

Lemma sorted_lookup (l : list Z) i j x y :
  StronglySorted Z.le l -> (i <= j)%nat -> l !! i = Some x -> l !! j = Some y -> x <= y.
Proof.
  intros Hs. revert i j. induction Hs as [|z l Hs IH Hz]; intros i j Hij Hx Hy; [done|].
  destruct i as [|i], j as [|j]; try lia.
  - simpl in *. injection Hx as <-. injection Hy as <-. lia.
  - simpl in *. injection Hx as <-. rewrite Forall_lookup in Hz. by eapply Hz.
  - by eapply (IH i j); [lia|..].
Qed.

Lemma bs_loop_finds l t fuel base size j :
  StronglySorted Z.le l -> (1 <= size)%nat -> (size <= fuel)%nat -> (base + size <= length l)%nat ->
  (base <= j < base + size)%nat -> l !! j = Some t -> l !! bs_loop l t fuel base size = Some t.
Proof.
  intros Hs. revert base size j. induction fuel as [|fuel IH]; intros base size j H1 Hf Hb Hj Ht; [lia|].
  cbn [bs_loop]. destruct (Nat.ltb_spec 1 size) as [Hlt|Hge].
  2:{ replace base with j by lia. done. }
  assert (1 <= size / 2 /\ size / 2 <= size - size / 2)%nat as [Hh Hh'].
  { pose proof (Nat.div_mod size 2 ltac:(lia)). pose proof (Nat.mod_upper_bound size 2 ltac:(lia)). lia. }
  destruct (lookup_lt_is_Some_2 l (base + size / 2)%nat) as [v Hv]; [lia|]. rewrite Hv.
  destruct (Z.ltb_spec t v).
  - apply (IH base _ j); try lia; [|done]. split; [lia|].
    destruct (decide (j < base + size / 2)%nat) as [?|Hn]; [lia|].
    pose proof (sorted_lookup l (base + size / 2) j v t Hs ltac:(lia) Hv Ht). lia.
  - destruct (decide (j < base + size / 2)%nat) as [Hlt'|Hn].
    + pose proof (sorted_lookup l j (base + size / 2) t v Hs ltac:(lia) Ht Hv).
      assert (v = t) as -> by lia.
      apply (IH _ _ (base + size / 2)%nat); try lia; done.
    + apply (IH _ _ j); try lia; done.
Qed.

Lemma binary_search_spec l t : StronglySorted Z.le l -> binary_search l t = true <-> t ∈ l.
Proof.
  intros Hs. unfold binary_search. destruct (length l) as [|n] eqn:En.
  - apply nil_length_inv in En as ->. split; [done|set_solver].
  - split.
    + destruct (l !! bs_loop l t (S n) 0 (S n)) as [v|] eqn:E; [|done].
      intros Hv. apply Z.eqb_eq in Hv as ->. by eapply list_elem_of_lookup_2.
    + intros Ht. apply list_elem_of_lookup in Ht as [j Hj].
      pose proof (lookup_lt_Some _ _ _ Hj).
      rewrite (bs_loop_finds l t (S n) 0 (S n) j) by (done || lia). apply Z.eqb_refl.
Qed.

Lemma dedup_elem l x : x ∈ dedup l <-> x ∈ l.
Proof.
  induction l as [|y l IH]; [done|]. cbn [dedup]. destruct l as [|z l]; [done|].
  destruct (Z.eqb_spec y z) as [->|Hne]; [rewrite IH; set_solver|].
  rewrite !elem_of_cons, IH. set_solver.
Qed.

Lemma dedup_sorted l : StronglySorted Z.le l -> StronglySorted Z.lt (dedup l).
Proof.
  induction 1 as [|y l Hs IH Hy]; [constructor|]. cbn [dedup]. destruct l as [|z l]; [repeat constructor|].
  destruct (Z.eqb_spec y z) as [->|Hne]; [done|]. constructor; [done|].
  apply Forall_forall. intros x Hx. rewrite dedup_elem in Hx.
  rewrite Forall_forall in Hy. assert (y <= z) by (apply Hy; set_solver).
  assert (z <= x); [|lia]. apply elem_of_cons in Hx as [->|Hx]; [lia|].
  inversion Hs as [|? ? _ Hz]; subst. rewrite Forall_forall in Hz. by apply Hz.
Qed.

Lemma lt_le_sorted l : StronglySorted Z.lt l -> StronglySorted Z.le l.
Proof.
  induction 1 as [|x l Hs IH Hx]; constructor; [done|].
  eapply Forall_impl; [exact Hx|]. intros; lia.
Qed.

#[local] Instance Zle_total : Total Z.le.
Proof. intros x y. lia. Qed.

(** A port set matches exactly the ports it was built from, whatever their
    order and repetitions, and its slice is strictly ascending, which is what
    the binary search of [matches] relies on. *)
Theorem port_set_exact ports p :
  (port_matches (new_set ports) p = true <-> p ∈ ports) /\
  (match new_set ports with PmSet l => StronglySorted Z.lt l | _ => False end).
Proof.
  assert (StronglySorted Z.lt (dedup (merge_sort Z.le ports))) as Hs
    by (apply dedup_sorted, StronglySorted_merge_sort; apply _).
  split; [|done]. cbn [new_set port_matches].
  rewrite binary_search_spec by by apply lt_le_sorted.
  by rewrite dedup_elem, merge_sort_Permutation.
Qed.

(** ** Host suffixes *)

Lemma ascii_lower_dot b : ascii_lower b = x2e <-> b = x2e.
Proof. split; [by destruct b|by intros ->]. Qed.

Lemma utf8_cont_lower b : utf8_cont (ascii_lower b) = utf8_cont b.
Proof. by destruct b. Qed.

Lemma utf8_valid_head b s : utf8_valid (b :: s) = true -> utf8_cont b = false.
Proof.
  destruct (utf8_cont b) eqn:E; [|done].
  destruct b; try discriminate; by destruct s as [|? [|? [|? ?]]].
Qed.

Lemma strip_suffix_or_spec c s :
  (exists p, s = p ++ [c] /\ strip_suffix_or c s = p) \/
  (strip_suffix_or c s = s /\ ends_with [c] s = false).
Proof.
  unfold strip_suffix_or. destruct s as [|x s _] using rev_ind; [by right|].
  rewrite last_snoc. destruct (x =b c) eqn:E.
  - apply byte_eqb_true in E as ->. left. exists s. split; [done|].
    rewrite length_app. cbn [length]. replace (length s + 1 - 1)%nat with (length s) by lia.
    by rewrite take_app_length.
  - right. split; [done|]. apply not_true_iff_false. intros H.
    apply ends_with_spec in H as [r H]. apply app_inj_tail in H as [_ ->].
    by rewrite byte_eqb_refl in E.
Qed.

Lemma strip_suffix_or_head s b t : strip_suffix_or x2e s = b :: t -> utf8_valid s = true -> utf8_cont b = false.
Proof.
  intros H Hv. destruct (strip_suffix_or_spec x2e s) as [(p & -> & Hp)|[Hp _]]; rewrite Hp in H; subst.
  - by eapply utf8_valid_head.
  - by eapply utf8_valid_head.
Qed.

Lemma eq_ignore_case_spec s t :
  eq_ignore_ascii_case s t = true <-> to_ascii_lowercase s = to_ascii_lowercase t.
Proof. apply bool_decide_eq_true. Qed.

(** Where the suffix can start: a boundary, because a valid suffix does. *)
Lemma suffix_boundary (h s : bytes) :
  (length s < length h)%nat ->
  (forall b t, s = b :: t -> utf8_cont b = false) ->
  to_ascii_lowercase (drop (length h - length s) h) = to_ascii_lowercase s ->
  is_char_boundary h (length h - length s) = true.
Proof.
  intros Hl Hs E. unfold is_char_boundary. rewrite (proj2 (Nat.eqb_neq _ 0)) by lia. cbn [orb].
  destruct s as [|b t]; [rewrite Nat.sub_0_r, Nat.eqb_refl; done|].
  destruct (_ =? length h)%nat; [done|].
  destruct (drop (length h - length (b :: t)) h) as [|c d] eqn:Ed; [done|].
  assert (h !! (length h - length (b :: t))%nat = Some c) as ->.
  { rewrite <- (Nat.add_0_r (_ - _)), <- lookup_drop, Ed. done. }
  cbn in E. injection E as E _. by rewrite <- utf8_cont_lower, E, utf8_cont_lower, (Hs b t).
Qed.

Lemma host_suffix_spec host suffix :
  utf8_valid suffix = true ->
  host_matches_suffix host suffix = true <->
  to_ascii_lowercase (strip_suffix_or x2e host) = to_ascii_lowercase (strip_suffix_or x2e suffix) \/
  exists p, to_ascii_lowercase (strip_suffix_or x2e host)
            = p ++ x2e :: to_ascii_lowercase (strip_suffix_or x2e suffix).
Proof.
  intros Hv. pose proof (fun b t E => strip_suffix_or_head suffix b t E Hv) as Hs.
  unfold host_matches_suffix. set (h := strip_suffix_or x2e host). set (s := strip_suffix_or x2e suffix) in *.
  clearbody h s. clear host suffix Hv.
  assert (forall p, to_ascii_lowercase h = p ++ x2e :: to_ascii_lowercase s -> (length s < length h)%nat) as Hlen.
  { intros p E. apply (f_equal length) in E. rewrite length_app in E. cbn [length] in E.
    rewrite !to_ascii_lowercase_length in E. lia. }
  destruct (eq_ignore_ascii_case h s) eqn:Eeq; cbn [orb].
  { split; [|done]. intros _. left. by apply eq_ignore_case_spec. }
  assert (to_ascii_lowercase h <> to_ascii_lowercase s) as Hne.
  { intros E. apply eq_ignore_case_spec in E. congruence. }
  destruct (Nat.leb_spec (length h) (length s)) as [Hle|Hgt].
  { split; [done|]. intros [?|[p E]]; [done|]. specialize (Hlen p E). lia. }
  unfold get_to, get_from.
  set (k := (length h - length s)%nat).
  assert (to_ascii_lowercase h = to_ascii_lowercase (take k h) ++ to_ascii_lowercase (drop k h)) as Hsplit
    by by rewrite <- to_ascii_lowercase_app, take_drop.
  split.
  - destruct (is_char_boundary h k); [|done]. rewrite andb_true_iff, eq_ignore_case_spec.
    intros [Hd Hx]. right. apply ends_with_spec in Hd as [r Hr].
    exists (to_ascii_lowercase r). by rewrite Hsplit, Hr, Hx, to_ascii_lowercase_app, <- app_assoc.
  - intros [?|[p E]]; [done|]. rewrite Hsplit in E.
    change (x2e :: to_ascii_lowercase s) with ([x2e] ++ to_ascii_lowercase s) in E.
    rewrite app_assoc in E. apply app_inj_2 in E as [E1 E2].
    2:{ rewrite !to_ascii_lowercase_length, length_drop. unfold k. lia. }
    assert (is_char_boundary h k = true) as -> by by apply suffix_boundary.
    rewrite andb_true_iff, eq_ignore_case_spec. split; [|done].
    apply ends_with_spec. destruct (take k h) as [|x l _] using rev_ind.
    { by destruct p. }
    rewrite to_ascii_lowercase_app in E1. apply app_inj_tail in E1 as [_ E1].
    apply ascii_lower_dot in E1 as ->. by exists l.
Qed.

(** A suffix rule matches a host exactly when, after dropping one trailing
    dot and ignoring ASCII case, the host is the suffix itself or ends with a
    dot and the suffix: a rule for [example.com] never matches [badexample.com]. *)
Theorem host_suffix_exact host suffix :
  utf8_valid suffix = true ->
  host_matches_suffix host suffix = true <->
  to_ascii_lowercase (strip_suffix_or x2e host) = to_ascii_lowercase (strip_suffix_or x2e suffix) \/
  exists p, to_ascii_lowercase (strip_suffix_or x2e host)
            = p ++ x2e :: to_ascii_lowercase (strip_suffix_or x2e suffix).
Proof. apply host_suffix_spec. Qed.

Lemma host_suffix_exact_witness :
  host_matches_suffix (str "WWW.Example.com.") (str "example.com") = true.
Proof.
  apply (host_suffix_exact (str "WWW.Example.com.") (str "example.com") eq_refl).
  right. exists (str "www"). reflexivity.
Defined.

(** ** Exact hosts *)

(** IPv4-mapped IPv6 addresses stand for the IPv4 address. *)
Definition canonical_ip (ip : IpAddr) : IpAddr :=
  match ip with
  | V6 o => match to_ipv4_mapped o with Some v4 => V4 v4 | None => V6 o end
  | V4 o => V4 o
  end.

Lemma canonical_ip_wf ip : ip_wf ip -> ip_wf (canonical_ip ip).
Proof.
  destruct ip as [o|o]; [done|]. cbn. destruct (to_ipv4_mapped o) as [v4|] eqn:E; [|done].
  apply to_ipv4_mapped_Some in E as ->. simpl. intros. cbn. lia.
Qed.

Lemma strip_suffix_or_same c s : last s <> Some c -> strip_suffix_or c s = s.
Proof.
  intros H. unfold strip_suffix_or. destruct (last s) as [b|]; [|done].
  by rewrite (proj2 (byte_eqb_false b c)) by congruence.
Qed.

Lemma fmt_ipv4_last p o : length o = 4%nat -> last (p ++ fmt_ipv4 o) <> Some x2e.
Proof.
  intros Ho. destruct o as [|a [|b [|c [|d [|]]]]]; try done.
  assert (exists q, p ++ fmt_ipv4 [a; b; c; d] = q ++ to_dec (b2Z d)) as [q ->].
  { unfold fmt_ipv4. cbn [map join].
    exists (p ++ to_dec (b2Z a) ++ x2e :: to_dec (b2Z b) ++ x2e :: to_dec (b2Z c) ++ [x2e]).
    repeat (rewrite <- app_assoc; cbn [app]). done. }
  rewrite last_app. destruct (last (to_dec (b2Z d))) as [x|] eqn:E.
  - intros [= ->]. apply last_Some_elem_of in E. revert E. by apply to_dec_not_in.
  - apply last_None in E. by destruct (to_dec_nonempty (b2Z d)).
Qed.

Lemma fmt_ip_no_trailing_dot ip : ip_wf ip -> strip_suffix_or x2e (fmt_ip ip) = fmt_ip ip.
Proof.
  intros Hw. apply strip_suffix_or_same. destruct ip as [o|o]; cbn [fmt_ip].
  - by apply (fmt_ipv4_last []).
  - destruct (to_ipv4_mapped o) as [v4|] eqn:E.
    + unfold fmt_ipv6. rewrite E. apply fmt_ipv4_last.
      by apply (canonical_ip_wf (V6 o)) in Hw; cbn in Hw; rewrite E in Hw.
    + intros H. apply last_Some_elem_of in H. revert H. by apply fmt_ipv6_unmapped_no_dot.
Qed.

Lemma normalize_ip ip : ip_wf ip -> normalize_host_for_exact (fmt_ip ip) = fmt_ip (canonical_ip ip).
Proof.
  intros Hw. unfold normalize_host_for_exact. rewrite fmt_ip_no_trailing_dot, parse_fmt_ip by done.
  destruct ip as [o|o]; [done|]. cbn [canonical_ip]. by destruct (to_ipv4_mapped o).
Qed.

Lemma fmt_ip_inj a b : ip_wf a -> ip_wf b -> fmt_ip a = fmt_ip b -> a = b.
Proof.
  intros Ha Hb E. pose proof (parse_fmt_ip a Ha) as H1. rewrite E, parse_fmt_ip in H1 by done. congruence.
Qed.

(** An exact-host rule compiled from an address matches an address target
    exactly when both are the same address, an IPv4-mapped IPv6 address counting
    as the IPv4 address it maps; and a rule compiled from a name matches a
    domain target exactly when the names agree up to ASCII case and one trailing
    dot. *)
Theorem host_exact_rule {Regex IpNet} (is_match : Regex -> bytes -> bool)
    (contains : IpNet -> IpAddr -> bool) (r : RouteRequest) :
  (forall rule_ip ip, ip_wf rule_ip -> ip_wf ip -> host (rq_target r) = Ip ip ->
     (matches is_match contains (MHostExact (normalize_host_for_exact (fmt_ip rule_ip))) r = true
      <-> canonical_ip rule_ip = canonical_ip ip)) /\
  (forall name d, parse_ip (strip_suffix_or x2e name) = None -> host (rq_target r) = DomainName d ->
     (matches is_match contains (MHostExact (normalize_host_for_exact name)) r = true
      <-> to_ascii_lowercase (strip_suffix_or x2e d) = to_ascii_lowercase (strip_suffix_or x2e name))).
Proof.
  split.
  - intros rip ip Hr Hi Hh. cbn [matches]. rewrite Hh. cbn [target_host_str].
    rewrite bool_decide_eq_true, !normalize_ip by done. split.
    + intros E. symmetry. by apply fmt_ip_inj; [apply canonical_ip_wf..|].
    + by intros ->.
  - intros name d Hp Hh. cbn [matches]. rewrite Hh, eq_ignore_case_spec.
    unfold normalize_host_for_exact. rewrite Hp. by rewrite to_ascii_lowercase_idem.
Qed.

Definition demo_request : RouteRequest :=
  {| rq_target := {| host := Ip (V6 (replicate 10 x00 ++ [xff; xff; x0a; x00; x00; x01])); tport := 80 |};
     rq_source := None; rq_listener := str "main"; rq_protocol := PSocks5;
     rq_identity := Anonymous; rq_transport := Tcp |}.

Lemma host_exact_rule_witness :
  matches (Regex:=unit) (IpNet:=unit) (fun _ _ => false) (fun _ _ => false)
    (MHostExact (normalize_host_for_exact (fmt_ip (V4 [x0a; x00; x00; x01])))) demo_request = true.
Proof.
  apply (proj1 (host_exact_rule (fun _ _ => false) (fun _ _ => false) demo_request)
    (V4 [x0a; x00; x00; x01]) (V6 (replicate 10 x00 ++ [xff; xff; x0a; x00; x00; x01])));
    reflexivity.
Defined.

(** ** Ports as text *)

Lemma port_digits_rev fuel z : 0 <= z -> port_digits fuel z = digits_rev 10 fuel z.
Proof.
  revert z. induction fuel as [|f IH]; intros z Hz; [done|]. cbn [port_digits digits_rev].
  rewrite IH by (apply Z.div_pos; lia). f_equal. unfold digit_char.
  pose proof (Z.mod_pos_bound z 10). by rewrite (proj2 (Z.ltb_lt _ _)) by lia.
Qed.

Lemma digits_utf8 s : Forall (is_digit 10) s -> utf8_valid s = true.
Proof.
  induction 1 as [|b s [d Hd] _ IH]; [done|]. cbn [utf8_valid].
  assert (byte_in 0 127 b = true) as ->; [|done].
  destruct b; try done.
Qed.

Lemma fmt_port_dec z : 0 <= z -> fmt_port z = Some (to_dec z).
Proof.
  intros Hz. unfold fmt_port. rewrite port_digits_rev by done.
  change (rev (digits_rev 10 5 z)) with (to_dec z). by rewrite (digits_utf8 _ (to_dec_digits z)).
Qed.
