(* ===== verification/Router.v ===== *)
(** * Routing decisions

    [eggress-routing/src/model.rs], [rule.rs], [router.rs] and [explain.rs]:
    the ordered rules, the choice of an upstream with its fallbacks and its
    lease, the explanation of a route, and the swappable routing service.

    The schedulers of the groups and the upstreams are shared mutable state: a
    selection returns the router with the advanced scheduler and the heap with
    the new lease. *)

From S2P Require Import Prelude Bytes Decimal NetAddr Connector Dispatch Uri Health Upstream Scheduler Matcher.
Local Open Scope Z_scope.

Inductive RejectReason :=
| RrUnsupportedProtocol | RrAuthRequired | RrAccessDenied | RrBlocked | RrInternalError.

(** [Display for RejectReason] (eggress-core/src/lib.rs). *)
Definition fmt_reject_reason (r : RejectReason) : bytes :=
  match r with
  | RrUnsupportedProtocol => str "unsupported protocol"
  | RrAuthRequired => str "authentication required"
  | RrAccessDenied => str "access denied"
  | RrBlocked => str "target address blocked"
  | RrInternalError => str "internal error"
  end.

Inductive RouteActionSpec :=
| ActDirect
| ActUpstreamGroup (group : bytes)
| ActReject (reason : RejectReason).

Inductive RouteDecision :=
| DecDirect (rule : bytes)
| DecUpstreamGroup (rule group : bytes)
| DecReject (rule : bytes) (reason : RejectReason).

Inductive SelectionReason := Normal | DirectFallback | UnhealthyFallback.

Definition fmt_selection_reason (s : SelectionReason) : bytes :=
  match s with
  | Normal => str "normal"
  | DirectFallback => str "direct-fallback"
  | UnhealthyFallback => str "unhealthy-fallback"
  end.

Inductive SelectedRoute :=
| SelDirect (decision : RouteDecision) (reason : SelectionReason)
| SelUpstream (decision : RouteDecision) (group upstream : bytes) (chain : ProxyChainSpec)
    (pending_lease : PendingLease) (reason : SelectionReason).

Inductive RouteError :=
| Rejected (rule : bytes) (reason : RejectReason)
| NoEligibleUpstream (group : bytes)
| UnknownGroup (group : bytes).

Definition DEFAULT_RULE_ID : bytes := str "default".

Section router.
Context {Regex IpNet R : Type} `{RandomIndex R}.
Context (is_match : Regex -> bytes -> bool) (cidr_contains : IpNet -> IpAddr -> bool).

Record CompiledRule := {
  rule_id : bytes;
  matcher : MatchExpr Regex IpNet;
  action : RouteActionSpec
}.

Record UpstreamGroup := {
  group_id : bytes;
  scheduler : Scheduler R;
  scheduler_kind : SchedulerKind;
  members : list nat;
  fallback : GroupFallback
}.

(** [UpstreamGroup::new]; the generator of a random scheduler is given. *)
Definition group_new (rng : R) (i : bytes) (kind : SchedulerKind) (ms : list nat) (fb : GroupFallback)
    : UpstreamGroup :=
  {| group_id := i; scheduler := resolve_scheduler rng kind; scheduler_kind := kind;
     members := ms; fallback := fb |}.

Record Router := {
  rules : list CompiledRule;
  default_action : RouteActionSpec;
  groups : gmap bytes UpstreamGroup
}.

(** [Router::with_groups]: collecting into a map, the last entry of an id wins. *)
Definition with_groups (rs : list CompiledRule) (d : RouteActionSpec)
    (gs : list (bytes * UpstreamGroup)) : Router :=
  {| rules := rs; default_action := d;
     groups := foldl (fun m '(i, g) => <[i := g]> m) ∅ gs |}.

Definition decision_of (rid : bytes) (a : RouteActionSpec) : RouteDecision :=
  match a with
  | ActDirect => DecDirect rid
  | ActUpstreamGroup group => DecUpstreamGroup rid group
  | ActReject reason => DecReject rid reason
  end.

Fixpoint decide_rules (rs : list CompiledRule) (request : RouteRequest) : option RouteDecision :=
  match rs with
  | [] => None
  | rule :: rest =>
      if matches is_match cidr_contains (matcher rule) request
      then Some (decision_of (rule_id rule) (action rule))
      else decide_rules rest request
  end.

Definition router_decide (r : Router) (request : RouteRequest) : RouteDecision :=
  match decide_rules (rules r) request with
  | Some d => d
  | None => decision_of DEFAULT_RULE_ID (default_action r)
  end.

Definition set_scheduler (r : Router) (group : bytes) (g : UpstreamGroup) (s : Scheduler R) : Router :=
  {| rules := rules r; default_action := default_action r;
     groups := <[group := {| group_id := group_id g; scheduler := s;
                             scheduler_kind := scheduler_kind g; members := members g;
                             fallback := fallback g |}]> (groups r) |}.

(** The end of [Router::select]: lease the chosen upstream. *)
Definition lease_selected (r : Router) (h : heap) (decision : RouteDecision) (group : bytes)
    (selected : nat) (reason : SelectionReason)
    : outcome RouteError SelectedRoute * Router * heap :=
  let '(lease, h') := pending_new selected h in
  match h !! selected with
  | Some u => (Ok (SelUpstream decision group (id u) (chain u) lease reason), r, h')
  | None => (Panic, r, h)                        (* dangling address: not a Rust state *)
  end.

Definition router_select (r : Router) (h : heap) (decision : RouteDecision)
    : outcome RouteError SelectedRoute * Router * heap :=
  match decision with
  | DecDirect _ => (Ok (SelDirect decision Normal), r, h)
  | DecReject rule reason => (Err (Rejected rule reason), r, h)
  | DecUpstreamGroup _ group =>
      match groups r !! group with
      | None => (Err (UnknownGroup group), r, h)
      | Some g =>
          let candidates := eligibles (eligible_at h) (members g) in
          match candidates with
          | _ :: _ =>
              let '(sel, s) := select h (scheduler g) candidates in
              let r' := set_scheduler r group g s in
              match sel with
              | Some i => lease_selected r' h decision group i Normal
              | None => (Err (NoEligibleUpstream group), r', h)
              end
          | [] =>
              match fallback g with
              | FbReject => (Err (NoEligibleUpstream group), r, h)
              | FbDirect => (Ok (SelDirect decision DirectFallback), r, h)
              | FbUseUnhealthy =>
                  let enabled_members := eligibles (enabled_at h) (members g) in
                  let '(sel, s) := select_enabled h (scheduler g) enabled_members in
                  let r' := set_scheduler r group g s in
                  match match sel with Some i => Some i | None => head enabled_members end with
                  | Some i => lease_selected r' h decision group i UnhealthyFallback
                  | None => (Err (NoEligibleUpstream group), r', h)
                  end
              end
          end
      end
  end.

(** [RouteService::route]. *)
Definition route (r : Router) (h : heap) (request : RouteRequest)
    : outcome RouteError SelectedRoute * Router * heap :=
  router_select r h (router_decide r request).

(** ** The shared service *)

(** An [ArcSwap] of the current router; a request works on one snapshot. *)
Record SharedRoutingService := { current : Router }.

Definition swap (svc : SharedRoutingService) (r : Router) : SharedRoutingService := {| current := r |}.
Definition policy_decision (svc : SharedRoutingService) (request : RouteRequest) : RouteDecision :=
  router_decide (current svc) request.

(** ** Explanations (explain.rs) *)

Record UpstreamExplanation := {
  ue_id : bytes; ue_health : HealthState; ue_eligible : bool; ue_active : Z; ue_in_flight : Z
}.

Record RouteExplanation := {
  re_target : bytes;
  re_listener : bytes;
  re_protocol : bytes;
  re_transport : bytes;
  re_matched_rule : option bytes;
  re_action : bytes;
  re_upstream_group : option bytes;
  re_scheduler : option bytes;
  re_eligible_upstreams : list UpstreamExplanation;
  re_selected_upstream : option bytes;
  re_chain : option bytes;
  re_generation : Z
}.

Definition scheduler_name (k : SchedulerKind) : bytes :=
  match k with
  | KFirstAvailable => str "first-available"
  | KRoundRobin => str "round-robin"
  | KRandom => str "random"
  | KLeastConnections => str "least-connections"
  end.

Definition explain_upstream (u : UpstreamRuntime) : UpstreamExplanation :=
  {| ue_id := id u; ue_health := cell_state (health u); ue_eligible := is_eligible u;
     ue_active := active u; ue_in_flight := in_flight u |}.

(** The member an explanation names, and the scheduler after the preview. *)
Definition explain_choice (h : heap) (g : UpstreamGroup) : option nat * Scheduler R :=
  let candidates := eligibles (eligible_at h) (members g) in
  match candidates with
  | _ :: _ => preview h (scheduler g) candidates
  | [] =>
      match fallback g with
      | FbDirect | FbReject => (None, scheduler g)
      | FbUseUnhealthy =>
          let enabled_members := eligibles (enabled_at h) (members g) in
          match enabled_members with
          | [] => (None, scheduler g)
          | first :: _ =>
              let '(sel, s) := preview h (scheduler g) enabled_members in
              (match sel with Some i => Some i | None => Some first end, s)
          end
      end
  end.

Definition explain (r : Router) (h : heap) (request : RouteRequest) (generation : Z)
    : RouteExplanation * Router :=
  let base rule action group sched elig sel ch :=
    {| re_target := fmt_target_addr (rq_target request);
       re_listener := rq_listener request;
       re_protocol := fmt_protocol_id (rq_protocol request);
       re_transport := fmt_transport (rq_transport request);
       re_matched_rule := Some rule; re_action := action; re_upstream_group := group;
       re_scheduler := sched; re_eligible_upstreams := elig; re_selected_upstream := sel;
       re_chain := ch; re_generation := generation |} in
  match router_decide r request with
  | DecDirect rule => (base rule (str "direct") None None [] None None, r)
  | DecReject rule reason =>
      (base rule (str "reject(" ++ fmt_reject_reason reason ++ str ")") None None [] None None, r)
  | DecUpstreamGroup rule group =>
      let act := str "upstream group " ++ group in
      match groups r !! group with
      | None => (base rule act (Some group) None [] None None, r)
      | Some g =>
          let '(sel, s) := explain_choice h g in
          let u := sel ≫= (fun i => h !! i) in
          (base rule act (Some group) (Some (scheduler_name (scheduler_kind g)))
             (omap (fun i => explain_upstream <$> h !! i) (members g))
             (id <$> u) ((fun u => fmt_redacted (chain u)) <$> u),
           set_scheduler r group g s)
      end
  end.

End router.

(** ** Properties *)

Arguments CompiledRule Regex IpNet : clear implicits.
Arguments UpstreamGroup R : clear implicits.
Arguments Router Regex IpNet R : clear implicits.

Section router_proofs.
Context {Regex IpNet R : Type} `{Hok : RandomIndexOk R}.
Context (is_match : Regex -> bytes -> bool) (cidr_contains : IpNet -> IpAddr -> bool).

Abbreviation rule_matches c q := (matches is_match cidr_contains (matcher c) q).

Lemma decide_rules_spec (rs : list (CompiledRule Regex IpNet)) q :
  match decide_rules is_match cidr_contains rs q with
  | Some d => exists l c r, rs = l ++ c :: r /\ rule_matches c q = true /\
      Forall (fun c' => rule_matches c' q = false) l /\ d = decision_of (rule_id c) (action c)
  | None => Forall (fun c => rule_matches c q = false) rs
  end.
Proof.
  induction rs as [|c rs IH]; [constructor|]. cbn [decide_rules].
  destruct (matches is_match cidr_contains (matcher c) q) eqn:E.
  - exists [], c, rs. done.
  - destruct (decide_rules is_match cidr_contains rs q) as [d|].
    + destruct IH as (l & c' & r & -> & H1 & H2 & H3). exists (c :: l), c', r.
      do 2 (split; [done|]). split; [by constructor|done].
    + by constructor.
Qed.

(** Rules are tried in order: the decision is the action of the first rule
    that matches the request, under that rule's id, and the default action
    under the id [default] when none matches. *)
Theorem router_first_match (r : Router Regex IpNet R) q :
  (exists l c rest, rules r = l ++ c :: rest /\ rule_matches c q = true /\
     Forall (fun c' => rule_matches c' q = false) l /\
     router_decide is_match cidr_contains r q = decision_of (rule_id c) (action c)) \/
  (Forall (fun c => rule_matches c q = false) (rules r) /\
   router_decide is_match cidr_contains r q = decision_of DEFAULT_RULE_ID (default_action r)).
Proof.
  unfold router_decide. pose proof (decide_rules_spec (rules r) q) as Hs.
  destruct (decide_rules is_match cidr_contains (rules r) q) as [d|].
  - left. destruct Hs as (l & c & rest & H1 & H2 & H3 & ->). by exists l, c, rest.
  - by right.
Qed.

(** Groups refer to existing upstreams and hold usable schedulers. *)
Definition group_wf (h : heap) (g : UpstreamGroup R) : Prop :=
  scheduler_wf (scheduler g) /\ Forall (fun i => (i < length h)%nat) (members g).
Definition router_wf (h : heap) (r : Router Regex IpNet R) : Prop :=
  map_Forall (fun _ g => group_wf h g) (groups r).

Definition none_eligible (h : heap) (g : UpstreamGroup R) : Prop :=
  Forall (fun i => eligible_at h i = false) (members g).

(** What may be returned for a decision on group [g]. *)
Definition group_outcome (h h' : heap) (d : RouteDecision) (group : bytes) (g : UpstreamGroup R)
    (res : outcome RouteError SelectedRoute) : Prop :=
  match res with
  | Ok (SelUpstream d' group' uid ch lease reason) =>
      d' = d /\ group' = group /\
      exists i u, h !! i = Some u /\ i ∈ members g /\ uid = id u /\ ch = chain u /\
        lease = {| pl_upstream := i; pl_state := Pending |} /\
        h' = alter (fetch_add_in_flight 1) i h /\
        (reason = Normal /\ is_eligible u = true \/
         reason = UnhealthyFallback /\ fallback g = FbUseUnhealthy /\ none_eligible h g /\
         is_enabled u = true)
  | Ok (SelDirect d' reason) =>
      d' = d /\ reason = DirectFallback /\ fallback g = FbDirect /\ none_eligible h g /\ h' = h
  | Err e =>
      e = NoEligibleUpstream group /\ none_eligible h g /\ h' = h /\
      (fallback g = FbReject \/
       fallback g = FbUseUnhealthy /\ Forall (fun i => enabled_at h i = false) (members g))
  | Panic => False
  end.

Lemma eligibles_nil (p : nat -> bool) l : eligibles p l = [] -> Forall (fun i => p i = false) l.
Proof.
  intros He. apply Forall_forall. intros i Hi. destruct (p i) eqn:E; [|done].
  assert (i ∈ eligibles p l) as Hin by by apply eligibles_elem. rewrite He in Hin. set_solver.
Qed.

Lemma set_scheduler_wf h (r : Router Regex IpNet R) group g s :
  router_wf h r -> groups r !! group = Some g -> scheduler_wf s ->
  router_wf h (set_scheduler r group g s).
Proof.
  intros Hr Hg Hs. unfold router_wf, set_scheduler. cbn. apply map_Forall_insert_2; [|done].
  split; [done|]. by destruct (Hr _ _ Hg).
Qed.

Lemma router_wf_alter h f i (r : Router Regex IpNet R) :
  router_wf h r -> router_wf (alter f i h) r.
Proof.
  intros Hr group g Hg. destruct (Hr _ _ Hg) as [H1 H2]. split; [done|].
  by rewrite length_alter.
Qed.

Lemma lease_selected_spec (r : Router Regex IpNet R) h d group g i reason :
  group_wf h g -> router_wf h r -> i ∈ members g ->
  (forall u, h !! i = Some u ->
     reason = Normal /\ is_eligible u = true \/
     reason = UnhealthyFallback /\ fallback g = FbUseUnhealthy /\ none_eligible h g /\
     is_enabled u = true) ->
  let '(res, r', h') := lease_selected r h d group i reason in
  group_outcome h h' d group g res /\ router_wf h' r'.
Proof.
  intros [_ Hm] Hr Hi Hreason. rewrite Forall_forall in Hm.
  destruct (lookup_lt_is_Some_2 h i (Hm i Hi)) as [u Hu].
  unfold lease_selected. cbn [pending_new]. rewrite Hu. split; [|by apply router_wf_alter].
  do 2 (split; [done|]). exists i, u. do 6 (split; [done|]). by apply Hreason.
Qed.

Lemma group_select_spec (r : Router Regex IpNet R) h rule group g :
  router_wf h r -> groups r !! group = Some g ->
  let '(res, r', h') := router_select r h (DecUpstreamGroup rule group) in
  group_outcome h h' (DecUpstreamGroup rule group) group g res /\ router_wf h' r'.
Proof.
  intros Hr Hg. pose proof (Hr _ _ Hg) as Hgw. cbn [router_select]. rewrite Hg.
  pose proof Hgw as [Hs Hm].
  destruct (eligibles (eligible_at h) (members g)) as [|c cs] eqn:Ec.
  - apply eligibles_nil in Ec. destruct (fallback g) eqn:Ef; cbn.
    + split; [|done]. rewrite Ef. split_and!; [done|done|done|by left].
    + split; [|done]. by split_and!.
    + pose proof (select_where_spec (enabled_at h) (load_at h) (scheduler g)
        (eligibles (enabled_at h) (members g)) Hs) as Hsel. unfold select_enabled.
      destruct (select_where _ _ _ _) as [sel s]. destruct Hsel as [Hs' Hsel].
      destruct sel as [i|].
      * destruct Hsel as [Hi He]. rewrite eligibles_elem in Hi. destruct Hi as [Hi _].
        apply lease_selected_spec; [done|by apply set_scheduler_wf|done|].
        intros u Hu. right. unfold enabled_at in He. rewrite Hu in He. done.
      * assert (eligibles (enabled_at h) (members g) = []) as He.
        { destruct (eligibles (enabled_at h) (members g)) as [|x l] eqn:El; [done|].
          apply Forall_cons in Hsel as [Hx _].
          assert (x ∈ eligibles (enabled_at h) (members g)) as Hin by (rewrite El; set_solver).
          rewrite eligibles_elem in Hin. destruct Hin. congruence. }
        rewrite He. cbn. split; [|by apply set_scheduler_wf]. split_and!; [done|done|done|].
        right. split; [done|]. by apply eligibles_nil.
  - pose proof (select_where_spec (eligible_at h) (load_at h) (scheduler g) (c :: cs) Hs) as Hsel.
    unfold select. destruct (select_where _ _ _ _) as [sel s]. destruct Hsel as [Hs' Hsel].
    assert (forall i, i ∈ c :: cs -> i ∈ members g /\ eligible_at h i = true) as Hin.
    { intros i Hi. rewrite <- Ec in Hi. by apply eligibles_elem in Hi. }
    destruct sel as [i|].
    + destruct Hsel as [Hi He]. apply Hin in Hi as [Hi _].
      apply lease_selected_spec; [done|by apply set_scheduler_wf|done|].
      intros u Hu. left. unfold eligible_at in He. by rewrite Hu in He.
    + exfalso. apply Forall_cons in Hsel as [Hx _]. destruct (Hin c) as [_ ?]; [set_solver|].
      congruence.
Qed.

Lemma route_cases (r : Router Regex IpNet R) h q :
  router_wf h r ->
  let d := router_decide is_match cidr_contains r q in
  let '(res, r', h') := route is_match cidr_contains r h q in
  router_wf h' r' /\
  match d with
  | DecDirect _ => res = Ok (SelDirect d Normal) /\ h' = h
  | DecReject rule reason => res = Err (Rejected rule reason) /\ h' = h
  | DecUpstreamGroup _ group =>
      match groups r !! group with
      | None => res = Err (UnknownGroup group) /\ h' = h
      | Some g => group_outcome h h' d group g res
      end
  end.
Proof.
  intros Hr. unfold route. destruct (router_decide is_match cidr_contains r q) as [rule|rule group|rule reason].
  - done.
  - destruct (groups r !! group) as [g|] eqn:Hg.
    + pose proof (group_select_spec r h rule group g Hr Hg) as Hsp.
      destruct (router_select r h (DecUpstreamGroup rule group)) as [[res r'] h'].
      by destruct Hsp.
    + cbn. by rewrite Hg.
  - done.
Qed.

(** C5. What a route can be.  A reject decision is never routed; an unknown
    group is an error; a group with an eligible member yields one of its
    eligible members; only when none is eligible does the group's fallback
    apply, and an unhealthy member is used only if the group says so and the
    member is enabled.  A returned upstream carries a pending lease and exactly
    its in-flight counter is incremented; in every other case the upstreams are
    untouched. *)
Theorem route_outcome (r : Router Regex IpNet R) h q :
  router_wf h r ->
  let d := router_decide is_match cidr_contains r q in
  let '(res, r', h') := route is_match cidr_contains r h q in
  router_wf h' r' /\
  match d with
  | DecDirect _ => res = Ok (SelDirect d Normal) /\ h' = h
  | DecReject rule reason => res = Err (Rejected rule reason) /\ h' = h
  | DecUpstreamGroup _ group =>
      match groups r !! group with
      | None => res = Err (UnknownGroup group) /\ h' = h
      | Some g => group_outcome h h' d group g res
      end
  end.
Proof. apply route_cases. Qed.

(** What routing does to the upstreams: a selected upstream has one pending lease more. *)
Lemma route_lease (r : Router Regex IpNet R) h q :
  router_wf h r ->
  let '(res, r', h') := route is_match cidr_contains r h q in
  router_wf h' r' /\ res <> Panic /\
  match res with
  | Ok (SelUpstream _ _ up ch lease _) =>
      exists i u, h !! i = Some u /\ lease = {| pl_upstream := i; pl_state := Pending |} /\ up = id u /\ ch = chain u /\
        h' = alter (fetch_add_in_flight 1) i h
  | _ => h' = h
  end.
Proof.
  intros Hr. unfold route. destruct (router_decide is_match cidr_contains r q) as [rule|rule group|rule reason]; [done| |done].
  destruct (groups r !! group) as [g|] eqn:Hg; [|by cbn; rewrite Hg].
  pose proof (group_select_spec r h rule group g Hr Hg) as Hsp.
  destruct (router_select r h (DecUpstreamGroup rule group)) as [[res r'] h']. destruct Hsp as [Ho Hwf]. split; [done|].
  destruct res as [[d reason|d gr up ch lease reason]|e|]; [| | |done].
  - destruct Ho as (_ & _ & _ & _ & ->). done.
  - destruct Ho as (_ & _ & i & u & Hi & _ & -> & -> & -> & -> & _). split; [done|]. by exists i, u.
  - destruct Ho as (_ & _ & -> & _). done.
Qed.

(** Well-formedness only depends on the number of upstreams. *)
Lemma router_wf_length h h' (r : Router Regex IpNet R) : length h' = length h -> router_wf h r -> router_wf h' r.
Proof. intros Hl Hr group g Hg. destruct (Hr _ _ Hg) as [H1 H2]. split; [done|]. by rewrite Hl. Qed.

Lemma set_scheduler_same (r : Router Regex IpNet R) group g :
  groups r !! group = Some g -> set_scheduler r group g (scheduler g) = r.
Proof.
  intros Hg. unfold set_scheduler. destruct r as [rs d gs]. cbn in *. f_equal.
  apply insert_id. rewrite Hg. by destruct g.
Qed.

(** With a first-available or round-robin scheduler and an eligible member,
    an explanation leaves the router as it is and names exactly the upstream
    that routing the same request selects. *)
Theorem explain_predicts_route (r : Router Regex IpNet R) h q gen rule group g i :
  router_wf h r ->
  router_decide is_match cidr_contains r q = DecUpstreamGroup rule group ->
  groups r !! group = Some g ->
  (match scheduler g with
   | FirstAvailableScheduler => True
   | RoundRobinScheduler cursor => 0 <= cursor < U64
   | _ => False
   end) ->
  i ∈ members g -> eligible_at h i = true ->
  exists uid ch lease r' h',
    route is_match cidr_contains r h q =
      (Ok (SelUpstream (DecUpstreamGroup rule group) group uid ch lease Normal), r', h') /\
    re_selected_upstream (explain is_match cidr_contains r h q gen).1 = Some uid /\
    (explain is_match cidr_contains r h q gen).2 = r.
Proof.
  intros Hr Hd Hg Hs Hi He. pose proof (Hr _ _ Hg) as [Hsw Hm].
  assert (i ∈ eligibles (eligible_at h) (members g)) as Hin by by apply eligibles_elem.
  unfold route, explain. rewrite Hd. cbn [router_select]. rewrite Hg. unfold explain_choice.
  destruct (eligibles (eligible_at h) (members g)) as [|c cs] eqn:Ec; [set_solver|].
  assert (Forall (fun j => eligible_at h j = true) (c :: cs)) as Hall.
  { apply Forall_forall. intros j Hj. rewrite <- Ec, eligibles_elem in Hj. tauto. }
  assert (preview h (scheduler g) (c :: cs) = ((select h (scheduler g) (c :: cs)).1, scheduler g)) as ->.
  { destruct (scheduler g) as [|cursor|rng|cursor]; try done; cbn [preview].
    unfold select. cbn [select_where]. rewrite preview_loop_first by done.
    by destruct (select_round_robin _ _ _). }
  pose proof (select_where_spec (eligible_at h) (load_at h) (scheduler g) (c :: cs) Hsw) as Hsel.
  unfold select. destruct (select_where _ _ _ _) as [[j|] s]; destruct Hsel as [_ Hsel].
  - destruct Hsel as [Hj _]. rewrite <- Ec, eligibles_elem in Hj. destruct Hj as [Hj _].
    rewrite Forall_forall in Hm. destruct (lookup_lt_is_Some_2 h j (Hm j Hj)) as [u Hu].
    unfold lease_selected. cbn [pending_new fst]. rewrite Hu.
    eexists _, _, _, _, _. split; [reflexivity|]. cbn. rewrite Hu. split; [done|].
    by apply set_scheduler_same.
  - apply Forall_cons in Hsel as [Hx _]. apply Forall_cons in Hall as [Hy _]. congruence.
Qed.
End router_proofs.

(** A router with one group of three upstreams, the second disabled. *)
Definition demo_group : UpstreamGroup DeterministicRandom :=
  group_new demo_rng (str "g") KRoundRobin [0; 1; 2]%nat FbReject.
Definition demo_router : Router unit unit DeterministicRandom :=
  with_groups [{| rule_id := str "r1"; matcher := MDestinationPort (PmExact 80);
                  action := ActUpstreamGroup (str "g") |}] (ActReject RrBlocked)
    [(str "g", demo_group)].
Definition no_regex (_ : unit) (_ : bytes) : bool := false.
Definition no_cidr (_ : unit) (_ : IpAddr) : bool := false.

Lemma demo_router_wf : router_wf demo_heap demo_router.
Proof.
  intros k g Hg. cbn in Hg. apply lookup_singleton_Some in Hg as [_ <-].
  split; [done|]. repeat constructor; cbn; lia.
Qed.

Lemma route_outcome_witness :
  let d := router_decide no_regex no_cidr demo_router demo_request in
  let '(res, r', h') := route no_regex no_cidr demo_router demo_heap demo_request in
  router_wf h' r' /\
  match d with
  | DecDirect _ => res = Ok (SelDirect d Normal) /\ h' = demo_heap
  | DecReject rule reason => res = Err (Rejected rule reason) /\ h' = demo_heap
  | DecUpstreamGroup _ group =>
      match groups demo_router !! group with
      | None => res = Err (UnknownGroup group) /\ h' = demo_heap
      | Some g => group_outcome demo_heap h' d group g res
      end
  end.
Proof. apply (route_outcome no_regex no_cidr demo_router demo_heap demo_request demo_router_wf). Defined.

Lemma explain_predicts_route_witness :
  exists uid ch lease r' h',
    route no_regex no_cidr demo_router demo_heap demo_request =
      (Ok (SelUpstream (DecUpstreamGroup (str "r1") (str "g")) (str "g") uid ch lease Normal), r', h') /\
    re_selected_upstream (explain no_regex no_cidr demo_router demo_heap demo_request 7).1 = Some uid /\
    (explain no_regex no_cidr demo_router demo_heap demo_request 7).2 = demo_router.
Proof.
  apply (explain_predicts_route no_regex no_cidr demo_router demo_heap demo_request 7
    (str "r1") (str "g") demo_group 0%nat);
    [apply demo_router_wf|reflexivity|reflexivity|split; [discriminate|reflexivity]
    |apply list_elem_of_here|reflexivity].
Defined.
