(* ===== verification/CompatRule.v ===== *)
(** * Compatibility rules

    [eggress-routing/src/compat.rs]: pproxy-style rules that match the text
    [host:port].  The text is formatted into a 320-byte stack buffer; a write
    past its end is a panic. *)

From S2P Require Import Prelude Bytes Decimal NetAddr Matcher.
Local Open Scope Z_scope.

(** [buf[pos] = b]. *)
Definition write_at (pos : nat) (b : byte) (buf : bytes) : outcome Empty_set bytes :=
  if (pos <? length buf)%nat then Ok (<[pos := b]> buf) else Panic.

(** The loop that writes the digits, most significant first. *)
Fixpoint write_digits (digits : bytes) (pos : nat) (buf : bytes) : outcome Empty_set (bytes * nat) :=
  match digits with
  | [] => Ok (buf, pos)
  | d :: r => let? buf' := write_at pos d buf in write_digits r (S pos) buf'
  end.

(** The digits of a port, least significant first: [while remaining > 0]. *)
Fixpoint target_digits (fuel : nat) (remaining : Z) : bytes :=
  match fuel with
  | O => []
  | S f =>
      if 0 <? remaining then Z2b (0x30 + remaining mod 10) :: target_digits f (remaining / 10)
      else []
  end.

Definition fmt_target (hostname : bytes) (port : Z) (buf : bytes) : outcome Empty_set (option bytes) :=
  if (length buf <? length hostname + 5)%nat then Ok None
  else
    let buf1 := hostname ++ drop (length hostname) buf in
    let? buf2 := write_at (length hostname) x3a buf1 in
    let pos := S (length hostname) in
    let? (buf3, pos') :=
      if port =? 0 then let? b := write_at pos x30 buf2 in Ok (b, S pos)
      else write_digits (rev (target_digits 5 port)) pos buf2 in
    let? text := slice_to buf3 pos' in
    Ok (if utf8_valid text then Some text else None).

Section compat.
Context {Regex : Type} (is_match : Regex -> bytes -> bool).

Definition compat_matches (pattern : Regex) (hostname : bytes) (port : Z) : outcome Empty_set bool :=
  let? t := fmt_target hostname port (replicate 320 x00) in
  Ok (match t with
      | Some target => is_match pattern target
      | None => is_match pattern (hostname ++ x3a :: to_dec port)
      end).
End compat.

(** ** Properties *)

Lemma write_at_ok p b x r : write_at (length p) b (p ++ x :: r) = Ok (p ++ b :: r).
Proof.
  unfold write_at. rewrite length_app. cbn [length].
  rewrite (proj2 (Nat.ltb_lt _ _)) by lia. by rewrite insert_app_r_alt, Nat.sub_diag by lia.
Qed.

Lemma write_digits_ok ds p r :
  (length ds <= length r)%nat ->
  write_digits ds (length p) (p ++ r) = Ok (p ++ ds ++ drop (length ds) r, (length p + length ds)%nat).
Proof.
  revert p r. induction ds as [|d ds IH]; intros p r Hl.
  - cbn. by rewrite Nat.add_0_r.
  - destruct r as [|x r]; [simpl in Hl; lia|]. cbn [write_digits]. rewrite write_at_ok. cbn [obind].
    specialize (IH (p ++ [d]) r ltac:(simpl in Hl; lia)). rewrite length_app in IH. cbn [length] in IH.
    rewrite <- !app_assoc in IH. cbn [app] in IH. rewrite Nat.add_1_r in IH. rewrite IH.
    cbn. do 2 f_equal. lia.
Qed.

Lemma write_digits_overflow ds p r :
  (length r < length ds)%nat -> write_digits ds (length p) (p ++ r) = Panic.
Proof.
  revert p r. induction ds as [|d ds IH]; intros p r Hl; [simpl in Hl; lia|]. cbn [write_digits].
  destruct r as [|x r].
  - rewrite app_nil_r. unfold write_at. by rewrite Nat.ltb_irrefl.
  - rewrite write_at_ok. cbn [obind]. specialize (IH (p ++ [d]) r ltac:(simpl in Hl; lia)).
    rewrite length_app, <- app_assoc in IH. cbn [length app] in IH. by rewrite Nat.add_1_r in IH.
Qed.

Lemma target_digits_dec fuel z : 0 < z -> target_digits fuel z = digits_rev 10 fuel z.
Proof.
  revert z. induction fuel as [|f IH]; intros z Hz; [done|]. cbn [target_digits digits_rev].
  rewrite (proj2 (Z.ltb_lt 0 z)) by done. f_equal.
  - unfold digit_char. pose proof (Z.mod_pos_bound z 10). by rewrite (proj2 (Z.ltb_lt _ _)) by lia.
  - destruct (Z.eqb_spec (z / 10) 0) as [->|Hn]; [by destruct f|].
    apply IH. pose proof (Z.div_pos z 10). lia.
Qed.

Lemma fmt_target_spec hostname port buf :
  is_u16 port -> utf8_valid (hostname ++ x3a :: to_dec port) = true ->
  fmt_target hostname port buf =
  if (length buf <? length hostname + 5)%nat then Ok None
  else if (length buf <? length hostname + 1 + length (to_dec port))%nat then Panic
  else Ok (Some (hostname ++ x3a :: to_dec port)).
Proof.
  intros Hp Hu. unfold fmt_target. destruct (Nat.ltb_spec (length buf) (length hostname + 5)); [done|].
  assert (exists x r, drop (length hostname) buf = x :: r) as (x & r & Ed).
  { destruct (drop (length hostname) buf) as [|x r] eqn:E; [|eauto].
    apply (f_equal length) in E. rewrite length_drop in E. simpl in E. lia. }
  assert (S (length r) = length buf - length hostname)%nat as Hr
    by (rewrite <- length_drop, Ed; done).
  rewrite Ed, write_at_ok. cbn [obind].
  assert ((if port =? 0 then let? b := write_at (S (length hostname)) x30 (hostname ++ x3a :: r) in
                             Ok (b, S (S (length hostname)))
           else write_digits (rev (target_digits 5 port)) (S (length hostname)) (hostname ++ x3a :: r))
          = write_digits (to_dec port) (length (hostname ++ [x3a])) ((hostname ++ [x3a]) ++ r)) as ->.
  { rewrite length_app, <- app_assoc. cbn [length app]. rewrite Nat.add_1_r.
    destruct Hp. destruct (Z.eqb_spec port 0) as [->|Hn]; [done|].
    rewrite target_digits_dec by lia. done. }
  destruct (Nat.ltb_spec (length buf) (length hostname + 1 + length (to_dec port))).
  - rewrite write_digits_overflow by lia. done.
  - rewrite write_digits_ok by lia. cbn [obind]. unfold slice_to.
    rewrite !length_app. cbn [length]. rewrite (proj2 (Nat.leb_le _ _)) by lia. cbn [obind].
    rewrite app_assoc, take_app_le, take_ge by (rewrite !length_app; simpl; lia).
    rewrite <- app_assoc. cbn [app]. by rewrite Hu.
Qed.

Lemma to_dec_length z : (length (to_dec z) <= 5)%nat.
Proof. unfold to_dec. rewrite length_rev. apply digits_rev_length. Qed.

(** A compatibility rule is matched against [host:port], for every host
    that is not exactly 315 bytes long with a five-digit port; for those, the
    buffer check allows five bytes where six are written and the match panics. *)
Theorem compat_match_or_panic {Regex} (is_match : Regex -> bytes -> bool) pattern hostname port :
  is_u16 port -> utf8_valid (hostname ++ x3a :: to_dec port) = true ->
  compat_matches is_match pattern hostname port =
  if (length hostname =? 315)%nat && (length (to_dec port) =? 5)%nat then Panic
  else Ok (is_match pattern (hostname ++ x3a :: to_dec port)).
Proof.
  intros Hp Hu. unfold compat_matches. rewrite fmt_target_spec by done.
  change (length (replicate 320 x00)) with 320%nat. pose proof (to_dec_length port).
  destruct (Nat.ltb_spec 320 (length hostname + 5)); cbn [obind].
  { rewrite (proj2 (Nat.eqb_neq _ 315)) by lia. done. }
  destruct (Nat.ltb_spec 320 (length hostname + 1 + length (to_dec port))); cbn [obind].
  - rewrite (proj2 (Nat.eqb_eq _ 315)), (proj2 (Nat.eqb_eq _ 5)) by lia. done.
  - destruct (Nat.eqb_spec (length hostname) 315) as [E|]; [|done].
    destruct (Nat.eqb_spec (length (to_dec port)) 5) as [E'|]; [lia|done].
Qed.

Lemma compat_match_or_panic_witness :
  compat_matches (fun (_ : unit) _ => true) tt (replicate 315 x61) 65535 = Panic /\
  compat_matches (fun (_ : unit) _ => true) tt (str "example.com") 65535 = Ok true.
Proof.
  split.
  - apply (compat_match_or_panic (fun (_ : unit) _ => true) tt (replicate 315 x61) 65535);
      [split; [discriminate|reflexivity]|vm_compute; reflexivity].
  - apply (compat_match_or_panic (fun (_ : unit) _ => true) tt (str "example.com") 65535);
      [split; [discriminate|reflexivity]|vm_compute; reflexivity].
Defined.
