(* ===== verification/UdpSecurity.v ===== *)
(** * UDP targets: validation and equivalence

    [eggress-udp/src/security.rs], [error.rs] and the address conversions and
    comparisons of [flow.rs]. *)

From S2P Require Import Prelude Bytes Stream Socks5 Socks5Udp Decimal NetAddr Connector Matcher.
Local Open Scope Z_scope.

Inductive UdpError :=
| AssociationLimitExceeded
| ListenerAssociationLimitExceeded
| TargetFlowLimitExceeded
| DatagramTooLarge (size max : nat)
| UdpCodec (e : UdpCodecError)
| UdpIo (e : IoError)
| AssociationClosed
| ClientAddressMismatch
| UnresolvedTarget
| MulticastTarget
| BroadcastTarget
| UnspecifiedTarget
| PortZero
| LoopbackNotAllowed             (* Other("loopback target not allowed") *)
| PrivateEgressNotAllowed        (* Other("private network egress not allowed") *)
| InvalidShadowsocksUpstream     (* Other("invalid shadowsocks upstream address") *)
| AdvertiseRequired              (* Other("UDP relay requires explicit advertise address ...") *)
| UdpOtherIo (e : IoError).      (* Other(e.to_string()) of an I/O error *)

(** ** Validation (security.rs) *)

Definition validate_target_shape (target : SocksAddr) (reject_loopback : bool) : outcome UdpError unit :=
  match target with
  | IPv4 addr port =>
      if port =? 0 then Err PortZero
      else if v4_is_multicast addr then Err MulticastTarget
      else if v4_is_broadcast addr then Err BroadcastTarget
      else if v4_is_unspecified addr then Err UnspecifiedTarget
      else if reject_loopback && v4_is_loopback addr then Err LoopbackNotAllowed
      else Ok tt
  | IPv6 addr port =>
      if port =? 0 then Err PortZero
      else if v6_is_multicast addr then Err MulticastTarget
      else if v6_is_unspecified addr then Err UnspecifiedTarget
      else if reject_loopback && v6_is_loopback addr then Err LoopbackNotAllowed
      else Ok tt
  | Domain _ port => if port =? 0 then Err PortZero else Ok tt
  end.

Definition validate_target (target : SocksAddr) : outcome UdpError unit :=
  validate_target_shape target true.

Definition is_private_ipv4 (ip : bytes) : bool :=
  v4_is_private ip || v4_is_loopback ip || v4_is_link_local ip.

Definition is_private_ipv6 (ip : bytes) : bool :=
  match to_ipv4_mapped ip with
  | Some v4 => is_private_ipv4 v4
  | None =>
      if v6_is_loopback ip || is_unicast_link_local_v6 ip then true
      else is_unique_local_v6 ip
  end.

Definition validate_standalone_target (target : SocksAddr) (allow_private_egress : bool)
    : outcome UdpError unit :=
  let? _ := validate_target_shape target (negb allow_private_egress) in
  if negb allow_private_egress then
    match target with
    | IPv4 addr _ => if is_private_ipv4 addr then Err PrivateEgressNotAllowed else Ok tt
    | IPv6 addr _ => if is_private_ipv6 addr then Err PrivateEgressNotAllowed else Ok tt
    | Domain _ _ => Ok tt
    end
  else Ok tt.

Definition validate_datagram_size (size max_size : nat) : outcome UdpError unit :=
  if (max_size <? size)%nat then Err (DatagramTooLarge size max_size) else Ok tt.

(** ** Conversions and equivalence (flow.rs) *)

Definition socks_to_target_addr (a : SocksAddr) : TargetAddr :=
  match a with
  | IPv4 o p => {| host := Ip (V4 o); tport := p |}
  | IPv6 o p => {| host := Ip (V6 o); tport := p |}
  | Domain d p => {| host := DomainName d; tport := p |}
  end.

Definition target_to_socks_addr (t : TargetAddr) : SocksAddr :=
  match host t with
  | Ip (V4 o) => IPv4 o (tport t)
  | Ip (V6 o) => IPv6 o (tport t)
  | DomainName d => Domain d (tport t)
  end.

Definition ip_addr_equivalent (a b : IpAddr) : bool :=
  match a, b with
  | V4 a, V4 b => bool_decide (a = b)
  | V6 a, V6 b => bool_decide (a = b)
  | V4 a, V6 b | V6 b, V4 a => bool_decide (to_ipv4_mapped b = Some a)
  end.

(** The arms with a domain on the left and an address on the right. *)
Definition domain_equivalent (d : bytes) (p : Z) (ip : IpAddr) (q : Z) : bool :=
  (p =? q) && match parse_ip d with Some x => ip_addr_equivalent x ip | None => false end.

Definition socks_addr_equivalent (a b : SocksAddr) : bool :=
  match a, b with
  | IPv4 x p, IPv4 y q => bool_decide (x = y) && (p =? q)
  | IPv6 x p, IPv6 y q => bool_decide (x = y) && (p =? q)
  | IPv4 x p, IPv6 y q => (p =? q) && ip_addr_equivalent (V4 x) (V6 y)
  | IPv6 x p, IPv4 y q => (p =? q) && ip_addr_equivalent (V6 x) (V4 y)
  | Domain x p, Domain y q => bool_decide (x = y) && (p =? q)
  | Domain d p, IPv4 y q => domain_equivalent d p (V4 y) q
  | Domain d p, IPv6 y q => domain_equivalent d p (V6 y) q
  | IPv4 y q, Domain d p => domain_equivalent d p (V4 y) q
  | IPv6 y q, Domain d p => domain_equivalent d p (V6 y) q
  end.

(** ** Properties *)

(** Without private egress, a literal target that validates is safe: its
    port is not zero and it lies outside the private, loopback and link-local
    ranges, also when it is written in IPv4-mapped form. *)
Theorem standalone_target_public target :
  validate_standalone_target target false = Ok tt ->
  port target <> 0 /\
  match target with
  | IPv4 o _ => v4_is_multicast o = false /\ v4_is_broadcast o = false /\
      v4_is_unspecified o = false /\ is_private_ipv4 o = false
  | IPv6 o _ =>
      match to_ipv4_mapped o with
      | Some v4 => is_private_ipv4 v4 = false
      | None => v6_is_loopback o = false /\ is_unicast_link_local_v6 o = false /\
          is_unique_local_v6 o = false
      end /\ v6_is_multicast o = false /\ v6_is_unspecified o = false
  | Domain _ _ => True
  end.
Proof.
  unfold validate_standalone_target, validate_target_shape, is_private_ipv6. cbn [negb andb].
  destruct target as [o p|d p|o p]; cbn [port]; destruct (Z.eqb_spec p 0); try done; cbn [obind].
  - destruct (v4_is_multicast o); [done|]. destruct (v4_is_broadcast o); [done|].
    destruct (v4_is_unspecified o); [done|]. destruct (v4_is_loopback o); [done|]. cbn [obind].
    by destruct (is_private_ipv4 o).
  - destruct (v6_is_multicast o); [done|]. destruct (v6_is_unspecified o); [done|].
    destruct (v6_is_loopback o) eqn:El; [done|]. cbn [obind orb].
    destruct (to_ipv4_mapped o) as [v4|]; [by destruct (is_private_ipv4 v4)|].
    destruct (is_unicast_link_local_v6 o); [done|]. by destruct (is_unique_local_v6 o).
Qed.

Lemma standalone_target_public_witness :
  port (IPv4 [x08; x08; x08; x08] 53) <> 0 /\
  (v4_is_multicast [x08; x08; x08; x08] = false /\ v4_is_broadcast [x08; x08; x08; x08] = false /\
   v4_is_unspecified [x08; x08; x08; x08] = false /\ is_private_ipv4 [x08; x08; x08; x08] = false).
Proof. apply (standalone_target_public (IPv4 [x08; x08; x08; x08] 53)). reflexivity. Defined.

Definition v4_mapped (o : bytes) : bytes := replicate 10 x00 ++ [xff; xff] ++ o.

Lemma to_ipv4_mapped_v4_mapped o : to_ipv4_mapped (v4_mapped o) = Some o.
Proof. done. Qed.

(** The shape check looks through the IPv4-mapped form nowhere: every
    IPv4 address, the loopback, multicast, broadcast and unspecified ones
    included, is accepted by [validate_target] when it is sent as [::ffff:a.b.c.d]
    with a port other than zero. *)
Theorem mapped_target_bypasses_shape o p b :
  length o = 4%nat -> p <> 0 -> validate_target_shape (IPv6 (v4_mapped o) p) b = Ok tt.
Proof.
  intros Ho Hp. unfold validate_target_shape. rewrite (proj2 (Z.eqb_neq p 0)) by done.
  destruct o as [|x [|y [|z [|w [|]]]]]; try done.
  change (v6_is_multicast (v4_mapped [x; y; z; w])) with false.
  assert (v6_is_unspecified (v4_mapped [x; y; z; w]) = false) as ->
    by (apply bool_decide_eq_false; discriminate).
  assert (v6_is_loopback (v4_mapped [x; y; z; w]) = false) as ->
    by (apply bool_decide_eq_false; discriminate).
  by rewrite andb_false_r.
Qed.

Lemma mapped_target_bypasses_shape_witness :
  validate_target_shape (IPv6 (v4_mapped [x7f; x00; x00; x01]) 53) true = Ok tt.
Proof. apply mapped_target_bypasses_shape; [reflexivity|discriminate]. Defined.

(** Conversions are inverse to each other. *)
Lemma target_socks_roundtrip a : target_to_socks_addr (socks_to_target_addr a) = a.
Proof. by destruct a. Qed.
Lemma socks_target_roundtrip t : socks_to_target_addr (target_to_socks_addr t) = t.
Proof. by destruct t as [[[o|o]|d] p]. Qed.

Lemma ip_equivalent_canonical a b :
  ip_wf a -> ip_wf b -> ip_addr_equivalent a b = bool_decide (canonical_ip a = canonical_ip b).
Proof.
  intros Ha Hb. apply eq_true_iff_eq.
  destruct a as [x|x], b as [y|y]; cbn [ip_addr_equivalent canonical_ip];
    rewrite !bool_decide_eq_true.
  - naive_solver.
  - destruct (to_ipv4_mapped y); naive_solver.
  - destruct (to_ipv4_mapped x); naive_solver.
  - split; [by intros ->|].
    destruct (to_ipv4_mapped x) as [v|] eqn:Ex, (to_ipv4_mapped y) as [w|] eqn:Ey; try done.
    + intros [= ->]. apply to_ipv4_mapped_Some in Ex as ->. by apply to_ipv4_mapped_Some in Ey as ->.
    + by intros [= ->].
Qed.

(** The address a SOCKS address denotes without name resolution. *)
Definition denoted (a : SocksAddr) : option IpAddr :=
  match a with
  | IPv4 o _ => Some (V4 o)
  | IPv6 o _ => Some (V6 o)
  | Domain d _ => parse_ip d
  end.
Definition is_domain (a : SocksAddr) : bool := match a with Domain _ _ => true | _ => false end.

Lemma bool_decide_sym {A} (a b : A) `{!Decision (a = b), !Decision (b = a)} :
  bool_decide (a = b) = bool_decide (b = a).
Proof. apply bool_decide_ext. naive_solver. Qed.

(** Replies are matched with requests by this relation: symmetric, and unless
    both sides are names it holds exactly when the ports agree and both sides
    denote the same address up to IPv4 mapping. *)
Lemma socks_equivalent_sym a b : socks_addr_equivalent a b = socks_addr_equivalent b a.
Proof.
  destruct a as [x p|x p|x p], b as [y q|y q|y q]; cbn [socks_addr_equivalent ip_addr_equivalent];
    try done; rewrite (Z.eqb_sym p q); try done; by rewrite (bool_decide_sym x y).
Qed.

Lemma socks_equivalent_denoted a b :
  SocksAddr_wf a -> SocksAddr_wf b -> is_domain a && is_domain b = false ->
  socks_addr_equivalent a b = true <->
  port a = port b /\ exists x y, denoted a = Some x /\ denoted b = Some y /\
    canonical_ip x = canonical_ip y.
Proof.
  assert (forall d p ip q, ip_wf ip -> domain_equivalent d p ip q = true <->
    p = q /\ exists x y, parse_ip d = Some x /\ Some ip = Some y /\ canonical_ip x = canonical_ip y) as Hd.
  { intros d p ip q Hip. unfold domain_equivalent. rewrite andb_true_iff, Z.eqb_eq.
    destruct (parse_ip d) as [x|] eqn:E.
    - rewrite ip_equivalent_canonical, bool_decide_eq_true by (done || by eapply parse_ip_wf).
      naive_solver.
    - naive_solver. }
  assert (forall x y p q, ip_wf x -> ip_wf y ->
    (p =? q) && ip_addr_equivalent x y = true <->
    p = q /\ exists x' y', Some x = Some x' /\ Some y = Some y' /\ canonical_ip x' = canonical_ip y') as Hi.
  { intros x y p q Hx Hy. rewrite andb_true_iff, Z.eqb_eq, ip_equivalent_canonical, bool_decide_eq_true by done.
    naive_solver. }
  destruct a as [x p|x p|x p], b as [y q|y q|y q]; cbn [SocksAddr_wf]; intros [Ha _] [Hb _] Hdom; try done;
    cbn [socks_addr_equivalent port denoted].
  - rewrite andb_comm. by apply (Hi (V4 x) (V4 y)).
  - rewrite Hd by done. naive_solver.
  - by apply Hi.
  - by apply Hd.
  - by apply Hd.
  - by apply Hi.
  - rewrite Hd by done. naive_solver.
  - rewrite andb_comm. by apply (Hi (V6 x) (V6 y)).
Qed.
