(* ===== verification/UdpRegistry.v ===== *)
(** * UDP associations

    [eggress-udp/src/limits.rs], [assoc.rs], [registry.rs] and the flow tables of
    [flow.rs].  Associations are shared objects ([Arc]): they live in a store,
    the registry holds the identifiers of those it knows, and other tasks keep
    using an association after the registry has dropped it. *)

From S2P Require Import Prelude Bytes NetAddr Connector Matcher Upstream UdpSecurity Socks5.
Local Open Scope Z_scope.

(** ** Limits (limits.rs) *)

Record UdpLimits := {
  max_associations_global : nat;
  max_associations_per_listener : nat;
  max_targets_per_association : nat;
  max_datagram_size : nat;
  idle_timeout : Z;
  client_pin : bool;
  target_idle_timeout : Z;
  max_standalone_flows_cfg : nat
}.

Definition UdpLimits_default : UdpLimits :=
  {| max_associations_global := 1024; max_associations_per_listener := 256;
     max_targets_per_association := 64; max_datagram_size := Z.to_nat 65535; idle_timeout := 60 * NANOS;
     client_pin := true; target_idle_timeout := 30 * NANOS; max_standalone_flows_cfg := 0 |}.

Definition from_listener_config (g l t d : nat) (idle : Z) (pin : bool) (tidle : Z) : UdpLimits :=
  {| max_associations_global := g; max_associations_per_listener := l;
     max_targets_per_association := t; max_datagram_size := d; idle_timeout := idle;
     client_pin := pin; target_idle_timeout := tidle; max_standalone_flows_cfg := 0 |}.

(** ** Associations (assoc.rs) *)

Record UdpAssociation := {
  listener : bytes;
  client_tcp_peer : option SocketAddr;
  client_udp_addr : option SocketAddr;
  identity : ClientIdentity;
  created_at : Z;
  last_activity : Z;
  generation : Z;
  open : bool;
  cancelled : bool;
  notified : nat                 (* times the waiters were woken *)
}.

Definition assoc_new (l : bytes) (peer : option SocketAddr) (who : ClientIdentity) (gen now : Z)
    : UdpAssociation :=
  {| listener := l; client_tcp_peer := peer; client_udp_addr := None; identity := who;
     created_at := now; last_activity := now; generation := gen; open := true;
     cancelled := false; notified := 0 |}.

Definition is_open (a : UdpAssociation) : bool := open a.

(** [close]: the first call cancels and wakes, the others do nothing. *)
Definition close (a : UdpAssociation) : UdpAssociation :=
  if open a then
    {| listener := listener a; client_tcp_peer := client_tcp_peer a;
       client_udp_addr := client_udp_addr a; identity := identity a; created_at := created_at a;
       last_activity := last_activity a; generation := generation a; open := false;
       cancelled := true; notified := S (notified a) |}
  else a.

Definition touch (now : Z) (a : UdpAssociation) : UdpAssociation :=
  {| listener := listener a; client_tcp_peer := client_tcp_peer a;
     client_udp_addr := client_udp_addr a; identity := identity a; created_at := created_at a;
     last_activity := now; generation := generation a; open := open a;
     cancelled := cancelled a; notified := notified a |}.

Definition pin_client_addr (addr : SocketAddr) (a : UdpAssociation)
    : outcome UdpError unit * UdpAssociation :=
  match client_udp_addr a with
  | Some existing =>
      if negb (bool_decide (existing = addr)) then (Err ClientAddressMismatch, a) else (Ok tt, a)
  | None =>
      (Ok tt,
       {| listener := listener a; client_tcp_peer := client_tcp_peer a;
          client_udp_addr := Some addr; identity := identity a; created_at := created_at a;
          last_activity := last_activity a; generation := generation a; open := open a;
          cancelled := cancelled a; notified := notified a |})
  end.

(** ** The registry (registry.rs) *)

Record Registry := {
  next_id : Z;
  store : gmap Z UdpAssociation;      (* every association that still has a handle *)
  registered : gset Z;                (* keys of the map behind the lock *)
  limits : UdpLimits
}.

Definition registry_new (l : UdpLimits) : Registry :=
  {| next_id := 1; store := ∅; registered := ∅; limits := l |}.

Definition listener_is (r : Registry) (l : bytes) (i : Z) : Prop :=
  listener <$> store r !! i = Some l.
#[export] Instance listener_is_dec r l i : Decision (listener_is r l i).
Proof. unfold listener_is. apply _. Defined.

Definition active_count (r : Registry) : nat := size (registered r).
Definition active_count_for_listener (r : Registry) (l : bytes) : nat :=
  size (filter (listener_is r l) (registered r)).

Definition create_association (l : bytes) (peer : option SocketAddr) (who : ClientIdentity)
    (gen now : Z) (r : Registry) : outcome UdpError Z * Registry :=
  if (max_associations_global (limits r) <=? active_count r)%nat
  then (Err AssociationLimitExceeded, r)
  else if (max_associations_per_listener (limits r) <=? active_count_for_listener r l)%nat
  then (Err ListenerAssociationLimitExceeded, r)
  else
    let i := next_id r in
    (Ok i, {| next_id := wrap64 (i + 1); store := <[i := assoc_new l peer who gen now]> (store r);
              registered := {[i]} ∪ registered r; limits := limits r |}).

Definition remove (i : Z) (r : Registry) : Registry :=
  {| next_id := next_id r; store := store r; registered := registered r ∖ {[i]}; limits := limits r |}.

(** [contended]: the lock is held elsewhere at that moment. *)
Definition try_remove_now (contended : bool) (i : Z) (r : Registry) : bool * Registry :=
  if contended then (false, r) else (bool_decide (i ∈ registered r), remove i r).

Definition get (i : Z) (r : Registry) : option UdpAssociation :=
  if bool_decide (i ∈ registered r) then store r !! i else None.

(** Drain the map, then close every association that was in it. *)
Definition close_all (r : Registry) : Registry :=
  {| next_id := next_id r;
     store := map_imap (fun i a => Some (if bool_decide (i ∈ registered r) then close a else a)) (store r);
     registered := ∅; limits := limits r |}.

Definition update (i : Z) (f : UdpAssociation -> UdpAssociation) (r : Registry) : Registry :=
  {| next_id := next_id r; store := alter f i (store r); registered := registered r; limits := limits r |}.

(** ** Steps of the system *)

Inductive reg_step : Registry -> Registry -> Prop :=
| rs_create l peer who gen now r :
    next_id r + 1 < U64 -> reg_step r (create_association l peer who gen now r).2
| rs_remove i r : reg_step r (remove i r)
| rs_try_remove c i r : reg_step r (try_remove_now c i r).2
| rs_close_all r : reg_step r (close_all r)
| rs_close i r : reg_step r (update i close r)
| rs_touch i now r : reg_step r (update i (touch now) r)
| rs_pin i addr r : reg_step r (update i (fun a => (pin_client_addr addr a).2) r).

(** Limits hold, identifiers are fresh, and what is registered exists. *)
Record reg_inv (r : Registry) : Prop := {
  ri_global : (active_count r <= max_associations_global (limits r))%nat;
  ri_listener : forall l, (active_count_for_listener r l <= max_associations_per_listener (limits r))%nat;
  ri_fresh : forall i, is_Some (store r !! i) -> i < next_id r;
  ri_known : forall i, i ∈ registered r -> is_Some (store r !! i);
  ri_next : 0 <= next_id r
}.

Lemma reg_inv_new l : reg_inv (registry_new l).
Proof.
  split; cbn.
  - unfold active_count. cbn. rewrite size_empty. lia.
  - intros x. unfold active_count_for_listener. cbn.
    rewrite filter_empty_L, size_empty; [lia|apply _].
  - intros i H. rewrite lookup_empty in H. by destruct H.
  - set_solver.
  - lia.
Qed.

(** A change of the store that keeps listeners, with fewer registrations. *)
Lemma reg_inv_shrink r r' :
  reg_inv r -> limits r' = limits r -> next_id r' = next_id r -> registered r' ⊆ registered r ->
  (forall i, listener <$> store r' !! i = listener <$> store r !! i) -> reg_inv r'.
Proof.
  intros [H1 H2 H3 H4 H5] Hl Hn Hs Hst.
  assert (forall i, is_Some (store r' !! i) <-> is_Some (store r !! i)) as Hsome.
  { intros i. rewrite <- (fmap_is_Some listener), Hst. apply fmap_is_Some. }
  split; rewrite ?Hl, ?Hn.
  - unfold active_count in *. pose proof (subseteq_size _ _ Hs). lia.
  - intros l. specialize (H2 l). unfold active_count_for_listener in *.
    assert (filter (listener_is r' l) (registered r') ⊆ filter (listener_is r l) (registered r)) as Hf.
    { intros i. rewrite !elem_of_filter. unfold listener_is. rewrite Hst. set_solver. }
    pose proof (subseteq_size _ _ Hf). lia.
  - intros i Hi. apply H3. by apply Hsome.
  - intros i Hi. apply Hsome. apply H4. set_solver.
  - done.
Qed.

Lemma listener_close a : listener (close a) = listener a.
Proof. unfold close. by destruct (open a). Qed.
Lemma listener_pin addr a : listener (pin_client_addr addr a).2 = listener a.
Proof. unfold pin_client_addr. destruct (client_udp_addr a); [by destruct (negb _)|done]. Qed.

Lemma reg_inv_update i f r :
  (forall a, listener (f a) = listener a) -> reg_inv r -> reg_inv (update i f r).
Proof.
  intros Hf Hr. apply (reg_inv_shrink r); try done. intros j. cbn.
  destruct (decide (i = j)) as [->|Hne].
  - rewrite lookup_alter_eq. destruct (store r !! j); cbn; [by rewrite Hf|done].
  - by rewrite lookup_alter_ne.
Qed.

Lemma active_count_union i r s :
  i ∉ registered r -> registered s = {[i]} ∪ registered r -> active_count s = S (active_count r).
Proof. intros Hi Hs. unfold active_count. rewrite Hs, size_union by set_solver. by rewrite size_singleton. Qed.

Lemma reg_inv_create l peer who gen now r :
  next_id r + 1 < U64 -> reg_inv r ->
  reg_inv (create_association l peer who gen now r).2.
Proof.
  intros Hw Hr. pose proof Hr as [H1 H2 H3 H4 Hp]. unfold create_association.
  destruct (Nat.leb_spec (max_associations_global (limits r)) (active_count r)); [done|].
  destruct (Nat.leb_spec (max_associations_per_listener (limits r)) (active_count_for_listener r l)); [done|].
  assert (store r !! next_id r = None) as Hfresh.
  { destruct (store r !! next_id r) as [a|] eqn:E; [|done]. specialize (H3 (next_id r) ltac:(eauto)). lia. }
  assert (next_id r ∉ registered r) as Hnreg.
  { intros Hi. apply H4 in Hi. rewrite Hfresh in Hi. by destruct Hi. }
  cbn [snd]. match goal with |- reg_inv ?x => set (s := x) end.
  split; change (limits s) with (limits r).
  - rewrite (active_count_union (next_id r) r) by done. lia.
  - intros l'. unfold active_count_for_listener.
    change (registered s) with ({[next_id r]} ∪ registered r).
    destruct (decide (l' = l)) as [->|Hne].
    + assert (filter (listener_is s l) ({[next_id r]} ∪ registered r)
              ⊆ {[next_id r]} ∪ filter (listener_is r l) (registered r)) as Hf.
      { intros j. rewrite elem_of_union, !elem_of_filter, elem_of_union, elem_of_singleton.
        intros [Hl [->|Hj]]; [by left|]. right. split; [|done]. unfold listener_is in *. cbn in Hl.
        by rewrite lookup_insert_ne in Hl by set_solver. }
      apply subseteq_size in Hf. pose proof (size_union_alt {[next_id r]} (filter (listener_is r l) (registered r))).
      unfold active_count_for_listener in *.
      assert (size (filter (listener_is r l) (registered r) ∖ {[next_id r]})
              <= size (filter (listener_is r l) (registered r)))%nat by (apply subseteq_size; set_solver).
      rewrite size_singleton in *. lia.
    + assert (filter (listener_is s l') ({[next_id r]} ∪ registered r)
              ⊆ filter (listener_is r l') (registered r)) as Hf.
      { intros j. rewrite !elem_of_filter, elem_of_union, elem_of_singleton. unfold listener_is. cbn.
        intros [Hl [->|Hj]].
        - rewrite lookup_insert_eq in Hl. cbn in Hl. congruence.
        - by rewrite lookup_insert_ne in Hl by set_solver. }
      apply subseteq_size in Hf. specialize (H2 l'). unfold active_count_for_listener in H2. lia.
  - intros i. cbn. unfold wrap64. rewrite Z.mod_small by lia.
    destruct (decide (i = next_id r)) as [->|Hne]; [lia|].
    rewrite lookup_insert_ne by done. intros Hi. specialize (H3 _ Hi). lia.
  - intros i. cbn. rewrite elem_of_union, elem_of_singleton. intros [->|Hi].
    + rewrite lookup_insert_eq. eauto.
    + destruct (decide (i = next_id r)) as [->|Hne]; [by rewrite lookup_insert_eq; eauto|].
      rewrite lookup_insert_ne by done. by apply H4.
  - cbn. unfold wrap64. rewrite Z.mod_small by lia. lia.
Qed.

Lemma close_all_lookup i r :
  store (close_all r) !! i =
  (fun a => if bool_decide (i ∈ registered r) then close a else a) <$> store r !! i.
Proof. cbn. rewrite map_lookup_imap. by destruct (store r !! i). Qed.

Lemma reg_step_inv r r' : reg_step r r' -> reg_inv r -> reg_inv r'.
Proof.
  intros Hst Hr.
  destruct Hst as [l peer who gen now r Hn|i r|c i r|r|i r|i now r|i addr r].
  - by apply reg_inv_create.
  - apply (reg_inv_shrink r); [done|done|done|cbn; set_solver|done].
  - destruct c; [done|]. apply (reg_inv_shrink r); [done|done|done|cbn; set_solver|done].
  - apply (reg_inv_shrink r); [done|done|done|cbn; set_solver|]. intros i.
    rewrite close_all_lookup. destruct (store r !! i) as [a|]; [|done]. cbn.
    case_bool_decide; by rewrite ?listener_close.
  - apply reg_inv_update; [apply listener_close|done].
  - by apply reg_inv_update.
  - apply reg_inv_update; [apply listener_pin|done].
Qed.

Lemma reg_steps_inv r r' : rtc reg_step r r' -> reg_inv r -> reg_inv r'.
Proof. induction 1 as [|r1 r2 r3 Hs _ IH]; [done|]. intros H. by apply IH, (reg_step_inv r1). Qed.

Lemma reg_step_limits r r' : reg_step r r' -> limits r' = limits r.
Proof.
  destruct 1 as [l peer who gen now r Hn|i r|c i r|r|i r|i now r|i addr r]; try done.
  - unfold create_association. destruct (_ <=? _)%nat; [done|]. by destruct (_ <=? _)%nat.
  - by destruct c.
Qed.

(** What no step can undo: a pinned client address and a closed state. *)
Definition settled (a : UdpAssociation) (b : UdpAssociation) : Prop :=
  (forall addr, client_udp_addr a = Some addr -> client_udp_addr b = Some addr) /\
  (open a = false -> open b = false) /\ listener b = listener a.

Lemma settled_refl a : settled a a.
Proof. done. Qed.
Lemma settled_trans a b c : settled a b -> settled b c -> settled a c.
Proof.
  intros (H1 & H2 & H3) (H4 & H5 & H6). split_and!; [by eauto|by eauto|by rewrite H6].
Qed.
Lemma settled_close a : settled a (close a).
Proof. unfold close. destruct (open a) eqn:E; [|done]. split_and!; cbn; auto. Qed.
Lemma settled_pin addr a : settled a (pin_client_addr addr a).2.
Proof.
  unfold pin_client_addr. destruct (client_udp_addr a) eqn:E; [by destruct (negb _)|].
  split_and!; cbn; auto. congruence.
Qed.

Lemma update_settled i f r j a :
  (forall a, settled a (f a)) -> store r !! j = Some a ->
  exists b, store (update i f r) !! j = Some b /\ settled a b.
Proof.
  intros Hf Ha. cbn. destruct (decide (i = j)) as [->|Hne].
  - rewrite lookup_alter_eq, Ha. cbn. eauto.
  - rewrite lookup_alter_ne by done. eauto using settled_refl.
Qed.

Lemma reg_step_settled r r' j a :
  reg_inv r -> reg_step r r' -> store r !! j = Some a ->
  exists b, store r' !! j = Some b /\ settled a b.
Proof.
  intros Hr Hst Ha.
  destruct Hst as [l peer who gen now r Hn|i r|c i r|r|i r|i now r|i addr r].
  - unfold create_association. destruct (_ <=? _)%nat; [eauto using settled_refl|].
    destruct (_ <=? _)%nat; [eauto using settled_refl|]. cbn.
    rewrite lookup_insert_ne; [eauto using settled_refl|]. intros E.
    assert (j < next_id r) by (apply (ri_fresh r Hr); eauto). lia.
  - eauto using settled_refl.
  - destruct c; eauto using settled_refl.
  - rewrite close_all_lookup, Ha. cbn. eexists. split; [done|].
    case_bool_decide; [apply settled_close|apply settled_refl].
  - apply update_settled; [apply settled_close|done].
  - by apply update_settled.
  - apply update_settled; [apply settled_pin|done].
Qed.

Lemma reg_steps_settled r r' j a :
  reg_inv r -> rtc reg_step r r' -> store r !! j = Some a ->
  exists b, store r' !! j = Some b /\ settled a b.
Proof.
  intros Hr Hst. revert a. induction Hst as [|r1 r2 r3 Hs _ IH]; intros a Ha; [eauto using settled_refl|].
  destruct (reg_step_settled r1 r2 j a Hr Hs Ha) as (b & Hb & Hab).
  destruct (IH (reg_step_inv _ _ Hs Hr) b Hb) as (c & Hc & Hbc). eauto using settled_trans.
Qed.

(** The association limits hold in every reachable state of a registry, in
    total and for each listener, whatever creations, removals, closings and
    datagrams interleave. *)
Theorem udp_limits_hold lim r :
  rtc reg_step (registry_new lim) r ->
  limits r = lim /\
  (active_count r <= max_associations_global lim)%nat /\
  forall l, (active_count_for_listener r l <= max_associations_per_listener lim)%nat.
Proof.
  intros Hst. pose proof (reg_steps_inv _ _ Hst (reg_inv_new lim)) as [H1 H2 _ _ _].
  assert (limits r = lim) as Hl.
  { clear H1 H2. remember (registry_new lim) as r0 eqn:E0.
    assert (limits r0 = lim) as Hlim by by rewrite E0. clear E0.
    induction Hst as [|r1 r2 r3 Hs _ IH]; [done|]. apply IH. by rewrite (reg_step_limits _ _ Hs). }
  rewrite Hl in *. done.
Qed.

(** Client pinning is permanent: once an association has accepted a client
    address, every later datagram from another address is refused, whatever
    happened to the registry in between, and a closed association stays closed. *)
Theorem udp_pin_permanent lim r r' i a addr other :
  rtc reg_step (registry_new lim) r -> rtc reg_step r r' ->
  store r !! i = Some a -> client_udp_addr a = Some addr -> other <> addr ->
  exists b, store r' !! i = Some b /\
    pin_client_addr other b = (Err ClientAddressMismatch, b) /\
    pin_client_addr addr b = (Ok tt, b) /\
    (is_open a = false -> is_open b = false).
Proof.
  intros H1 H2 Ha Hp Hne. pose proof (reg_steps_inv _ _ H1 (reg_inv_new lim)) as Hr.
  destruct (reg_steps_settled r r' i a Hr H2 Ha) as (b & Hb & Hs1 & Hs2 & _).
  exists b. split; [done|]. specialize (Hs1 _ Hp). unfold pin_client_addr. rewrite Hs1.
  rewrite bool_decide_eq_false_2 by congruence. rewrite bool_decide_eq_true_2 by done. done.
Qed.

(** Draining closes everything that was registered. *)
Lemma close_all_closes r i a :
  get i r = Some a -> registered (close_all r) = ∅ /\
  exists b, store (close_all r) !! i = Some b /\ is_open b = false.
Proof.
  unfold get. case_bool_decide as Hi; [|done]. intros Ha. split; [done|].
  rewrite close_all_lookup, Ha. cbn. rewrite bool_decide_eq_true_2 by done.
  eexists. split; [done|]. unfold close, is_open. by destruct (open a) eqn:E.
Qed.

Definition demo_client : SocketAddr := {| sa_ip := V4 [x0a; x00; x00; x05]; sa_port := 4000 |}.
Definition demo_registry : Registry :=
  update 1 (fun a => (pin_client_addr demo_client a).2)
    (create_association (str "main") None Anonymous 0 10 (registry_new UdpLimits_default)).2.

Lemma demo_registry_reachable : rtc reg_step (registry_new UdpLimits_default) demo_registry.
Proof.
  eapply rtc_l; [apply (rs_create (str "main") None Anonymous 0 10); cbn; reflexivity|].
  eapply rtc_l; [apply (rs_pin 1 demo_client)|]. apply rtc_refl.
Qed.

Lemma udp_limits_hold_witness :
  limits demo_registry = UdpLimits_default /\
  (active_count demo_registry <= max_associations_global UdpLimits_default)%nat /\
  forall l, (active_count_for_listener demo_registry l
             <= max_associations_per_listener UdpLimits_default)%nat.
Proof. apply (udp_limits_hold UdpLimits_default demo_registry demo_registry_reachable). Defined.

Lemma udp_pin_permanent_witness :
  exists b, store (close_all demo_registry) !! 1 = Some b /\
    pin_client_addr {| sa_ip := V4 [x0a; x00; x00; x06]; sa_port := 4000 |} b
      = (Err ClientAddressMismatch, b) /\
    pin_client_addr demo_client b = (Ok tt, b) /\ (true = false -> is_open b = false).
Proof.
  destruct (store demo_registry !! 1) as [a|] eqn:Ha; [|discriminate Ha].
  assert (is_open a = true) as Ho by (vm_compute in Ha; injection Ha as <-; reflexivity).
  rewrite <- Ho.
  apply (udp_pin_permanent UdpLimits_default demo_registry (close_all demo_registry) 1 a);
    [apply demo_registry_reachable|apply rtc_once, rs_close_all|exact Ha
    |vm_compute in Ha; injection Ha as <-; reflexivity|discriminate].
Defined.
