(* ===== verification/Shadowsocks.v ===== *)
(** * Shadowsocks: methods, addresses, nonces, AEAD frames, UDP packets

    Models [crates/eggress-protocol-shadowsocks/src/]: [address.rs], [nonce.rs],
    [method.rs], [aead.rs], [udp.rs] (the AEAD methods; the feature-gated legacy
    ciphers are outside).  The primitives (AES-GCM, ChaCha20-Poly1305, HKDF-SHA1,
    MD5) come from third-party crates: they are the operations of the class
    [Crypto], and what the code relies on is [CryptoLaws]. *)

From S2P Require Import Prelude Bytes Stream NetAddr Socks5 Socks5Udp.

(** ** Errors ([error.rs]) *)

Inductive ShadowsocksError :=
| SSIo (e : IoError)
| UnsupportedMethod (m : bytes)
| LegacyMethodUnsupported (m : bytes)
| DecryptionFailed (why : string)
| EncryptionFailed
| InvalidAddress (why : string)
| SSOther (why : string).

#[export] Instance ss_from_io : FromIo ShadowsocksError := SSIo.

(** ** Methods ([method.rs]) *)

Inductive CipherMethod := Aes128Gcm | Aes192Gcm | Aes256Gcm | ChaCha20IetfPoly1305.

#[export] Instance CipherMethod_eq_dec : EqDecision CipherMethod.
Proof. solve_decision. Defined.

Definition key_size (m : CipherMethod) : nat :=
  match m with
  | Aes128Gcm => 16
  | Aes192Gcm => 24
  | Aes256Gcm => 32
  | ChaCha20IetfPoly1305 => 32
  end.
Definition salt_size (m : CipherMethod) : nat := key_size m.
Definition nonce_size (m : CipherMethod) : nat := 12.
Definition tag_size (m : CipherMethod) : nat := 16.

(** [s.strip_suffix(p).unwrap_or(s)] for a string pattern. *)
Definition strip_suffix_str (p s : bytes) : bytes :=
  if ends_with p s then take (length s - length p) s else s.

Definition legacy_methods : list bytes := map str
  ["table"; "aes-128-ctr"; "aes-192-ctr"; "aes-256-ctr"; "aes-128-cfb"; "aes-192-cfb";
   "aes-256-cfb"; "aes-128-cfb1"; "aes-192-cfb1"; "aes-256-cfb1"; "aes-128-cfb8";
   "aes-192-cfb8"; "aes-256-cfb8"; "aes-128-ofb"; "aes-192-ofb"; "aes-256-ofb"; "rc4";
   "rc4-md5"; "chacha20"; "chacha20-ietf"; "xchacha20"; "xchacha20-ietf"; "salsa20";
   "xsalsa20"; "bf-cfb"; "cast5-cfb"; "des-cfb"; "camellia-128-cfb"; "camellia-192-cfb";
   "camellia-256-cfb"; "idea-cfb"; "rc2-cfb"; "seed-cfb"].

Definition is_legacy_method (name : bytes) : bool :=
  let lower := to_ascii_lowercase name in
  let without_ota := strip_suffix_str (str "!") lower in
  let normalized := strip_suffix_str (str "-py") without_ota in
  bool_decide (normalized ∈ legacy_methods).

(** [Display for CipherMethod]. *)
Definition method_name (m : CipherMethod) : bytes :=
  match m with
  | Aes128Gcm => str "aes-128-gcm"
  | Aes192Gcm => str "aes-192-gcm"
  | Aes256Gcm => str "aes-256-gcm"
  | ChaCha20IetfPoly1305 => str "chacha20-ietf-poly1305"
  end.

(** [s.to_lowercase()] differs from the ASCII version only on names with
    non-ASCII characters, and no such name lowercases to one of the four. *)
Definition parse_method (s : bytes) : outcome ShadowsocksError CipherMethod :=
  let l := to_ascii_lowercase s in
  if bool_decide (l = str "aes-128-gcm") then Ok Aes128Gcm
  else if bool_decide (l = str "aes-192-gcm") then Ok Aes192Gcm
  else if bool_decide (l = str "aes-256-gcm") then Ok Aes256Gcm
  else if bool_decide (l = str "chacha20-ietf-poly1305") then Ok ChaCha20IetfPoly1305
  else if is_legacy_method s then Err (LegacyMethodUnsupported s)
  else Err (UnsupportedMethod s).

(** ** Primitives *)

(** [seal]/[open]: the [Aead] trait (ciphertext with the tag appended);
    [hkdf_sha1 salt ikm info len]: extract and expand; [md5]: the digest. *)
Class Crypto := {
  seal : CipherMethod -> bytes -> bytes -> bytes -> option bytes;
  open : CipherMethod -> bytes -> bytes -> bytes -> option bytes;
  hkdf_sha1 : bytes -> bytes -> bytes -> nat -> option bytes;
  md5 : bytes -> bytes
}.

(** The largest plaintext the laws speak about: AES-GCM takes up to [2^36 - 32]
    bytes, ChaCha20-Poly1305 up to [2^38 - 64]. *)
Definition AEAD_P_MAX : Z := 2 ^ 36 - 32.

(** Documented behaviour of the primitives: decryption inverts encryption, a
    ciphertext is sixteen bytes longer than its plaintext, encryption of data
    within the limit succeeds; the digest has sixteen bytes; HKDF-SHA1 gives the
    requested length when it is at most [255 * 20]. *)
Class CryptoLaws `{!Crypto} : Prop := {
  open_seal m k n p c : seal m k n p = Some c -> open m k n c = Some p;
  open_length m k n c p : open m k n c = Some p -> length c = length p + 16;
  seal_total m k n p : length k = key_size m -> length n = 12 ->
    (Z.of_nat (length p) <= AEAD_P_MAX)%Z -> is_Some (seal m k n p);
  md5_length p : length (md5 p) = 16;
  hkdf_total s i f n : n <= 255 * 20 -> exists k, hkdf_sha1 s i f n = Some k /\ length k = n
}.

(** Both AEADs are deterministic for a given nonce and [open] recomputes the
    tag: what [open] accepts is exactly what [seal] produces. *)
Class TightAead `{!Crypto} : Prop := {
  seal_open m k n p c : open m k n c = Some p -> seal m k n p = Some c
}.

Section keys.
Context `{!Crypto}.

(** The loop of [evp_bytes_to_key]; a digest has sixteen bytes, so 48 turns are
    more than enough. *)
Fixpoint evp_loop (fuel : nat) (password key prev : bytes) : bytes :=
  match fuel with
  | O => key
  | S f =>
      if length key <? 48 then
        let prev := md5 (prev ++ password) in evp_loop f password (key ++ prev) prev
      else key
  end.
Definition evp_bytes_to_key (password : bytes) : bytes := evp_loop 48 password [] [].

Definition password_key_material (password : bytes) : bytes := evp_bytes_to_key password.

Definition derive_key_from_ikm (m : CipherMethod) (full_ikm salt : bytes)
    : outcome ShadowsocksError bytes :=
  let? ikm := slice_to full_ikm (key_size m) in
  ok_or (SSOther "HKDF expand failed") (hkdf_sha1 salt ikm (str "ss-subkey") (key_size m)).

Definition derive_key (m : CipherMethod) (password salt : bytes) : outcome ShadowsocksError bytes :=
  derive_key_from_ikm m (evp_bytes_to_key password) salt.
End keys.

(** ** Addresses ([address.rs]) *)

Definition encode_address (target : TargetAddr) : outcome ShadowsocksError bytes :=
  let? buf :=
    match host target with
    | Ip (V4 ip) => Ok ([ATYP_IPV4] ++ ip)
    | Ip (V6 ip) => Ok ([ATYP_IPV6] ++ ip)
    | DomainName domain =>
        if 255 <? length domain then Err (InvalidAddress "domain too long")
        else Ok ([ATYP_DOMAIN; Z2b (Z.of_nat (length domain))] ++ domain)
    end in
  Ok (buf ++ u16_to_be (tport target)).

Definition decode_address (data : bytes) : outcome ShadowsocksError (TargetAddr * nat) :=
  if length data =? 0 then Err (InvalidAddress "empty data") else
  let? atyp := data.[0] in
  let? (h, pos) :=
    (if atyp =b ATYP_IPV4 then
       if length data <? 5 then Err (InvalidAddress "truncated IPv4 address") else
       let? ip := slice data 1 5 in
       Ok (Ip (V4 ip), 5)
     else if atyp =b ATYP_IPV6 then
       if length data <? 17 then Err (InvalidAddress "truncated IPv6 address") else
       let? octets := slice data 1 17 in
       Ok (Ip (V6 octets), 17)
     else if atyp =b ATYP_DOMAIN then
       if length data <? 2 then Err (InvalidAddress "truncated domain length") else
       let? lb := data.[1] in
       let len := b2n lb in
       if length data <? 2 + len then Err (InvalidAddress "truncated domain") else
       let? raw := slice data 2 (2 + len) in
       let? domain := from_utf8 (InvalidAddress "invalid UTF-8") raw in
       Ok (DomainName domain, 2 + len)
     else Err (InvalidAddress "unknown ATYP")) in
  if length data <? pos + 2 then Err (InvalidAddress "truncated port") else
  let? hi := data.[pos] in
  let? lo := data.[pos + 1] in
  Ok ({| host := h; tport := u16_from_be hi lo |}, pos + 2).

(** ** Nonces ([nonce.rs] and [nonce_increment] of [aead.rs]) *)

(** [to_le_bytes] of an unsigned integer of [n] bytes, and its inverse. *)
Fixpoint le_bytes (n : nat) (z : Z) : bytes :=
  match n with
  | O => []
  | S n' => Z2b z :: le_bytes n' (z / 256)
  end.
Fixpoint le_value (l : bytes) : Z :=
  match l with
  | [] => 0
  | b :: r => b2Z b + 256 * le_value r
  end.

Record NonceCounter := { nc_size : nat; counter : Z }.

Definition starting_at (size : nat) (c : Z) : NonceCounter := {| nc_size := size; counter := c |}.
Definition nonce_new (size : nat) : NonceCounter := starting_at size 0.

(** [current(&mut buf)] with [buf] of [buf_len] bytes. *)
Definition current (n : NonceCounter) (buf_len : nat) : outcome ShadowsocksError bytes :=
  if negb (buf_len =? nc_size n)%nat then Err (SSOther "nonce size mismatch") else
  let e := min (nc_size n) 8 in
  Ok (take e (le_bytes 8 (counter n)) ++ replicate (buf_len - e) x00).

Definition advance (n : NonceCounter) : outcome ShadowsocksError NonceCounter :=
  if (counter n + 1 <? 2 ^ 64)%Z
  then Ok {| nc_size := nc_size n; counter := counter n + 1 |}
  else Err (SSOther "nonce counter overflow").

(** The carry loop: [overflowing_add(1)] on each byte until there is no carry. *)
Fixpoint incr_loop (l : bytes) : bytes * bool :=
  match l with
  | [] => ([], true)
  | b :: r =>
      let v := Z2b (b2Z b + 1) in
      if (b2Z b + 1 <? 256)%Z then (v :: r, false)
      else let '(r', carry) := incr_loop r in (v :: r', carry)
  end.

(** [nonce_increment(nonce, &mut [0; n])]. *)
Definition nonce_increment (nonce : bytes) (n : nat) : outcome ShadowsocksError bytes :=
  if negb (length nonce =? n)%nat then Err (SSOther "nonce size mismatch") else
  let '(r, carry) := incr_loop nonce in
  if carry then Err (SSOther "nonce increment overflow") else Ok r.

(** ** AEAD frames ([aead.rs]) *)

Definition MAX_CHUNK_PAYLOAD : nat := Z.to_nat 16383.
Definition AEAD_TAG_SIZE : nat := 16.

(** A keyed cipher of one of the four methods. *)
Record AeadCipher := { ac_method : CipherMethod; ac_key : bytes }.

(** [slice::chunks(n)]: pieces of [n] elements, the last one possibly shorter. *)
Fixpoint chunks_loop {A} (fuel n : nat) (l : list A) : list (list A) :=
  match fuel, l with
  | S f, _ :: _ => take n l :: chunks_loop f n (drop n l)
  | _, _ => []
  end.
Definition chunks {A} (n : nat) (l : list A) : list (list A) := chunks_loop (length l) n l.

Section aead.
Context `{!Crypto}.

(** [new_from_slice] checks the key length. *)
Definition cipher_new (m : CipherMethod) (key : bytes) : outcome ShadowsocksError AeadCipher :=
  if (length key =? key_size m)%nat then Ok {| ac_method := m; ac_key := key |}
  else Err (SSOther "invalid length").

(** [Nonce::from_slice] panics unless the nonce has twelve bytes. *)
Definition cipher_encrypt (c : AeadCipher) (nonce plaintext : bytes) : outcome ShadowsocksError bytes :=
  if negb (length nonce =? 12)%nat then Panic else
  ok_or EncryptionFailed (seal (ac_method c) (ac_key c) nonce plaintext).

Definition cipher_decrypt (c : AeadCipher) (nonce ciphertext : bytes) : outcome ShadowsocksError bytes :=
  if negb (length nonce =? 12)%nat then Panic else
  ok_or (DecryptionFailed "aead error") (open (ac_method c) (ac_key c) nonce ciphertext).

Definition aead_encrypt_raw (m : CipherMethod) (key nonce plaintext : bytes)
    : outcome ShadowsocksError bytes :=
  let? c := cipher_new m key in cipher_encrypt c nonce plaintext.

Definition aead_decrypt_raw (m : CipherMethod) (key nonce ciphertext : bytes)
    : outcome ShadowsocksError bytes :=
  let? c := cipher_new m key in cipher_decrypt c nonce ciphertext.

Definition zero_nonce : bytes := replicate 12 x00.

(** [salt] is what the random generator returned. *)
Definition encrypt_frame (m : CipherMethod) (key plaintext salt : bytes)
    : outcome ShadowsocksError bytes :=
  let? subkey := derive_key m key salt in
  let? nonce := slice_to zero_nonce (nonce_size m) in
  let? ciphertext := aead_encrypt_raw m subkey nonce plaintext in
  Ok (salt ++ ciphertext).

Definition decrypt_frame (m : CipherMethod) (key data : bytes) : outcome ShadowsocksError bytes :=
  if length data <? salt_size m then Err (DecryptionFailed "data too short for salt") else
  let? salt := slice_to data (salt_size m) in
  let? ciphertext := slice_from data (salt_size m) in
  let? subkey := derive_key m key salt in
  let? nonce := slice_to zero_nonce (nonce_size m) in
  aead_decrypt_raw m subkey nonce ciphertext.

(** [(len as u16).to_be_bytes()]. *)
Definition len_bytes (n : nat) : bytes := u16_to_be (Z.of_nat n mod 65536).

Definition encrypt_chunk (m : CipherMethod) (key nonce plaintext : bytes)
    : outcome ShadowsocksError bytes :=
  if MAX_CHUNK_PAYLOAD <? length plaintext
  then Err (SSOther "plaintext too large for AEAD chunk") else
  aead_encrypt_raw m key nonce (len_bytes (length plaintext) ++ plaintext).

Definition decrypt_chunk (m : CipherMethod) (key nonce data : bytes)
    : outcome ShadowsocksError bytes :=
  let? plaintext := aead_decrypt_raw m key nonce data in
  if length plaintext <? 2 then Err (DecryptionFailed "chunk too short") else
  let? hi := plaintext.[0] in
  let? lo := plaintext.[1] in
  let len := Z.to_nat (u16_from_be hi lo) in
  if length plaintext <? 2 + len then Err (DecryptionFailed "chunk length mismatch") else
  slice plaintext 2 (2 + len).

Definition encrypt_chunk_with (c : AeadCipher) (nonce payload : bytes)
    : outcome ShadowsocksError bytes :=
  let? len_ct := cipher_encrypt c nonce (len_bytes (length payload)) in
  let? payload_nonce := nonce_increment nonce 12 in
  let? payload_ct := cipher_encrypt c payload_nonce payload in
  Ok (len_ct ++ payload_ct).

Definition encrypt_chunk_standard (m : CipherMethod) (key nonce payload : bytes)
    : outcome ShadowsocksError bytes :=
  if MAX_CHUNK_PAYLOAD <? length payload
  then Err (SSOther "payload too large for standard AEAD chunk") else
  let? c := cipher_new m key in encrypt_chunk_with c nonce payload.

Definition decrypt_chunk_with (c : AeadCipher) (nonce data : bytes)
    : outcome ShadowsocksError bytes :=
  let len_block_size := 2 + AEAD_TAG_SIZE in
  if length data <? len_block_size
  then Err (DecryptionFailed "data too short for length block") else
  let? len_block := slice_to data len_block_size in
  let? len_plaintext := cipher_decrypt c nonce len_block in
  if negb (length len_plaintext =? 2)%nat
  then Err (DecryptionFailed "length block plaintext invalid") else
  let? hi := len_plaintext.[0] in
  let? lo := len_plaintext.[1] in
  let payload_len := Z.to_nat (u16_from_be hi lo) in
  if MAX_CHUNK_PAYLOAD <? payload_len
  then Err (DecryptionFailed "payload length exceeds maximum") else
  let expected_total := len_block_size + payload_len + AEAD_TAG_SIZE in
  if length data <? expected_total then Err (DecryptionFailed "insufficient data") else
  let? payload_nonce := nonce_increment nonce 12 in
  let? block := slice data len_block_size (len_block_size + payload_len + AEAD_TAG_SIZE) in
  cipher_decrypt c payload_nonce block.

Definition decrypt_chunk_standard (m : CipherMethod) (key nonce data : bytes)
    : outcome ShadowsocksError bytes :=
  let? c := cipher_new m key in decrypt_chunk_with c nonce data.

(** The [for] loop of [encrypt_standard_chunks]. *)
Fixpoint encrypt_chunks_loop (c : AeadCipher) (current_nonce : bytes) (l : list bytes) (output : bytes)
    : outcome ShadowsocksError bytes :=
  match l with
  | [] => Ok output
  | chunk :: r =>
      let? ct := encrypt_chunk_with c current_nonce chunk in
      let? length_nonce := nonce_increment current_nonce 12 in
      let? next := nonce_increment length_nonce 12 in
      encrypt_chunks_loop c next r (output ++ ct)
  end.

(** [current_nonce.copy_from_slice(nonce)] panics on a nonce of another size. *)
Definition encrypt_standard_chunks (m : CipherMethod) (key nonce plaintext : bytes)
    : outcome ShadowsocksError bytes :=
  let? c := cipher_new m key in
  if negb (length nonce =? 12)%nat then Panic else
  encrypt_chunks_loop c nonce (chunks MAX_CHUNK_PAYLOAD plaintext) [].

(** The [while] loop of [decrypt_standard_chunks]: every turn moves [offset] on by
    at least 34 bytes, so a turn per byte is enough. *)
Fixpoint decrypt_chunks_loop (fuel : nat) (c : AeadCipher) (current_nonce data : bytes) (offset : nat)
    (plaintext : bytes) : outcome ShadowsocksError bytes :=
  if negb (offset <? length data) then Ok plaintext else
  match fuel with
  | O => Panic
  | S f =>
      if length data - offset <? 2 + AEAD_TAG_SIZE
      then Err (DecryptionFailed "data too short for pproxy length block") else
      let? len_block := slice data offset (offset + 2 + AEAD_TAG_SIZE) in
      let? length_plaintext := cipher_decrypt c current_nonce len_block in
      let? hi := length_plaintext.[0] in
      let? lo := length_plaintext.[1] in
      let payload_len := Z.to_nat (u16_from_be hi lo) in
      if MAX_CHUNK_PAYLOAD <? payload_len
      then Err (DecryptionFailed "payload length exceeds maximum") else
      let offset := offset + (2 + AEAD_TAG_SIZE) in
      let payload_wire_len := payload_len + AEAD_TAG_SIZE in
      if length data - offset <? payload_wire_len
      then Err (DecryptionFailed "data too short for pproxy payload block") else
      let? length_nonce := nonce_increment current_nonce 12 in
      let? block := slice data offset (offset + payload_wire_len) in
      let? payload := cipher_decrypt c length_nonce block in
      let? next := nonce_increment length_nonce 12 in
      decrypt_chunks_loop f c next data (offset + payload_wire_len) (plaintext ++ payload)
  end.

Definition decrypt_standard_chunks (m : CipherMethod) (key nonce data : bytes)
    : outcome ShadowsocksError bytes :=
  let? c := cipher_new m key in
  if negb (length nonce =? 12)%nat then Panic else
  decrypt_chunks_loop (length data) c nonce data 0 [].

(** ** UDP packets ([udp.rs]) *)

Definition MAX_DOMAIN_LEN : nat := 255.
Definition MAX_UDP_PACKET_SIZE : nat := Z.to_nat 65535.

(** [if let TargetHost::Domain(ref domain) = target.host { .. }]. *)
Definition check_domain_len (t : TargetAddr) : outcome ShadowsocksError unit :=
  match host t with
  | DomainName domain =>
      if MAX_DOMAIN_LEN <? length domain then Err (InvalidAddress "domain too long") else Ok tt
  | _ => Ok tt
  end.

Definition udp_plaintext (target : TargetAddr) (payload : bytes) : outcome ShadowsocksError bytes :=
  let? _ := check_domain_len target in
  let? address := encode_address target in
  Ok (address ++ payload).

Definition encode_udp_packet_with_ikm (m : CipherMethod) (full_ikm : bytes) (target : TargetAddr)
    (payload salt : bytes) : outcome ShadowsocksError bytes :=
  if negb (length salt =? salt_size m)%nat then Err (DecryptionFailed "salt size") else
  let? subkey := derive_key_from_ikm m full_ikm salt in
  let? _ := check_domain_len target in
  let? address := encode_address target in
  let nonce := replicate (nonce_size m) x00 in
  let? ciphertext := aead_encrypt_raw m subkey nonce (address ++ payload) in
  Ok (salt ++ ciphertext).

Definition encode_udp_packet (m : CipherMethod) (password : bytes) (target : TargetAddr)
    (payload salt : bytes) : outcome ShadowsocksError bytes :=
  encode_udp_packet_with_ikm m (password_key_material password) target payload salt.

Definition decode_udp_packet_with_ikm (m : CipherMethod) (full_ikm packet : bytes)
    : outcome ShadowsocksError (TargetAddr * bytes) :=
  let min_size := salt_size m + tag_size m in
  if length packet <? min_size then Err (DecryptionFailed "packet too short") else
  if MAX_UDP_PACKET_SIZE <? length packet then Err (DecryptionFailed "packet too large") else
  let? salt := slice_to packet (salt_size m) in
  let? subkey := derive_key_from_ikm m full_ikm salt in
  let? ciphertext := slice_from packet (salt_size m) in
  let nonce := replicate (nonce_size m) x00 in
  let? plaintext := aead_decrypt_raw m subkey nonce ciphertext in
  let? (target, addr_len) := decode_address plaintext in
  let? _ := check_domain_len target in
  let? payload := slice_from plaintext addr_len in
  Ok (target, payload).

Definition decode_udp_packet (m : CipherMethod) (password packet : bytes)
    : outcome ShadowsocksError (TargetAddr * bytes) :=
  decode_udp_packet_with_ikm m (password_key_material password) packet.

Definition encode_pproxy_udp_packet_with_ikm (m : CipherMethod) (full_ikm : bytes)
    (target : TargetAddr) (payload salt : bytes) : outcome ShadowsocksError bytes :=
  let? plaintext := udp_plaintext target payload in
  if negb (length salt =? salt_size m)%nat then Err (DecryptionFailed "salt size") else
  let? subkey := derive_key_from_ikm m full_ikm salt in
  let nonce := replicate (nonce_size m) x00 in
  let? ciphertext := encrypt_standard_chunks m subkey nonce plaintext in
  Ok (salt ++ ciphertext).

Definition encode_pproxy_udp_packet (m : CipherMethod) (password : bytes) (target : TargetAddr)
    (payload salt : bytes) : outcome ShadowsocksError bytes :=
  encode_pproxy_udp_packet_with_ikm m (password_key_material password) target payload salt.

Definition decode_pproxy_udp_packet_with_ikm (m : CipherMethod) (full_ikm packet : bytes)
    : outcome ShadowsocksError (TargetAddr * bytes) :=
  let min_size := salt_size m + 2 + tag_size m + tag_size m in
  if length packet <? min_size then Err (DecryptionFailed "packet too short") else
  let? salt := slice_to packet (salt_size m) in
  let? subkey := derive_key_from_ikm m full_ikm salt in
  let nonce := replicate (nonce_size m) x00 in
  let? body := slice_from packet (salt_size m) in
  let? plaintext := decrypt_standard_chunks m subkey nonce body in
  let? (target, addr_len) := decode_address plaintext in
  let? payload := slice_from plaintext addr_len in
  Ok (target, payload).

Definition decode_pproxy_udp_packet (m : CipherMethod) (password packet : bytes)
    : outcome ShadowsocksError (TargetAddr * bytes) :=
  decode_pproxy_udp_packet_with_ikm m (password_key_material password) packet.
End aead.

(** ** Lemmas: little-endian numbers and nonces *)

Lemma le_bytes_length n z : length (le_bytes n z) = n.
Proof. revert z. induction n; intros; simpl; [done|by rewrite IHn]. Qed.

Lemma le_value_range l : (0 <= le_value l < 256 ^ Z.of_nat (length l))%Z.
Proof.
  induction l as [|b l IH]; [done|]. cbn [le_value length]. pose proof (b2Z_range b).
  rewrite Nat2Z.inj_succ, Z.pow_succ_r by lia. lia.
Qed.

Lemma le_value_bytes n z : (0 <= z < 256 ^ Z.of_nat n)%Z -> le_value (le_bytes n z) = z.
Proof.
  revert z. induction n as [|n IH]; intros z Hz; [simpl in *; lia|].
  rewrite Nat2Z.inj_succ, Z.pow_succ_r in Hz by lia.
  cbn [le_bytes le_value]. rewrite b2Z_Z2b, IH.
  - pose proof (Z.div_mod z 256). lia.
  - split; [apply Z.div_pos|apply Z.div_lt_upper_bound]; lia.
Qed.

Lemma le_bytes_value l : le_bytes (length l) (le_value l) = l.
Proof.
  induction l as [|b l IH]; [done|]. cbn [le_bytes le_value length].
  pose proof (b2Z_range b). f_equal.
  - apply b2Z_inj. rewrite b2Z_Z2b, Z.mul_comm, Z.mod_add, Z.mod_small; lia.
  - rewrite Z.mul_comm, Z.div_add, Z.div_small by lia. exact IH.
Qed.

Lemma le_value_app l r :
  le_value (l ++ r) = (le_value l + 256 ^ Z.of_nat (length l) * le_value r)%Z.
Proof.
  induction l as [|b l IH]; [simpl; lia|].
  cbn [app le_value length]. rewrite IH, Nat2Z.inj_succ, Z.pow_succ_r by lia. lia.
Qed.

Lemma le_value_zeros n : le_value (replicate n x00) = 0%Z.
Proof. induction n as [|n IH]; [done|]. cbn [replicate le_value]. rewrite IH. done. Qed.

Lemma incr_loop_spec l r carry :
  incr_loop l = (r, carry) ->
  length r = length l /\
  (le_value l + 1 = le_value r + (if carry then 256 ^ Z.of_nat (length l) else 0))%Z.
Proof.
  revert r. induction l as [|b l IH]; intros r H; cbn [incr_loop] in H.
  { by injection H as <- <-. }
  pose proof (b2Z_range b). destruct (Z.ltb_spec (b2Z b + 1) 256).
  - injection H as <- <-. split; [done|]. cbn [le_value]. rewrite b2Z_Z2b, Z.mod_small; lia.
  - destruct (incr_loop l) as [r' c'] eqn:E. injection H as <- <-.
    destruct (IH _ eq_refl) as [Hl Hv]. split; [simpl; by rewrite Hl|].
    cbn [le_value length]. rewrite b2Z_Z2b. replace (b2Z b + 1)%Z with 256%Z by lia.
    rewrite Nat2Z.inj_succ, Z.pow_succ_r by lia. change (256 mod 256)%Z with 0%Z.
    destruct c'; lia.
Qed.

(** [nonce_increment] adds one to the little-endian number, and fails exactly
    when all bytes are [0xff]. *)
Lemma nonce_increment_ok nonce r :
  nonce_increment nonce 12 = Ok r <->
  length nonce = 12 /\ length r = 12 /\ le_value r = (le_value nonce + 1)%Z.
Proof.
  unfold nonce_increment. destruct (Nat.eqb_spec (length nonce) 12) as [Hn|Hn]; simpl; [|naive_solver].
  destruct (incr_loop nonce) as [l c] eqn:E. apply incr_loop_spec in E as [Hl Hv].
  pose proof (le_value_range r) as Hr. pose proof (le_value_range l) as Hr'. rewrite Hl, Hn in *. destruct c.
  - split; [done|]. intros (_ & H12 & Hx). rewrite H12 in Hr. lia.
  - split; [intros [= <-]; lia|]. intros (_ & H12 & Hx). f_equal.
    rewrite <- (le_bytes_value l), <- (le_bytes_value r), H12, Hl. f_equal. lia.
Qed.

(** The nonce that stands for the number [z]. *)
Definition nonce_at (z : Z) : bytes := le_bytes 12 z.

Lemma nonce_at_length z : length (nonce_at z) = 12.
Proof. apply le_bytes_length. Qed.

Lemma nonce_increment_at z :
  (0 <= z)%Z -> (z + 1 < 256 ^ 12)%Z -> nonce_increment (nonce_at z) 12 = Ok (nonce_at (z + 1)).
Proof.
  intros Hz Hb. apply nonce_increment_ok. rewrite !nonce_at_length. split_and!; [done..|].
  unfold nonce_at. rewrite !le_value_bytes; [done|change (Z.of_nat 12) with 12%Z; lia..].
Qed.

Lemma nonce_at_inj z1 z2 :
  (0 <= z1 < 256 ^ 12)%Z -> (0 <= z2 < 256 ^ 12)%Z -> nonce_at z1 = nonce_at z2 -> z1 = z2.
Proof.
  intros H1 H2 E. rewrite <- (le_value_bytes 12 z1), <- (le_value_bytes 12 z2) by done.
  by f_equal.
Qed.

(** The counter of the stream yields the same nonces. *)
Lemma current_nonce_at n :
  nc_size n = 12 -> (0 <= counter n < 2 ^ 64)%Z -> current n 12 = Ok (nonce_at (counter n)).
Proof.
  intros Hs Hc. unfold current. rewrite Hs. cbn [Nat.eqb negb]. f_equal.
  change (Nat.min 12 8) with 8. rewrite take_ge by (rewrite le_bytes_length; lia).
  rewrite <- (le_bytes_value (_ ++ _)), length_app, le_bytes_length, length_replicate.
  unfold nonce_at. change (8 + (12 - 8)) with 12. f_equal.
  rewrite le_value_app, le_value_zeros, le_value_bytes by (change (256 ^ Z.of_nat 8)%Z with (2 ^ 64)%Z; done).
  lia.
Qed.

(** ** Addresses: the decoder inverts the encoder and accepts nothing else *)

(** What the Rust types enforce. *)
Definition target_typed (t : TargetAddr) : Prop :=
  is_u16 (tport t) /\
  match host t with Ip ip => ip_wf ip | DomainName d => utf8_valid d = true end.

Lemma take_port (data : bytes) pos hi lo :
  data !! pos = Some hi -> data !! (pos + 1) = Some lo ->
  take (pos + 2) data = take pos data ++ [hi; lo].
Proof.
  intros Hh Hl. replace (pos + 2) with (S (pos + 1)) by lia.
  rewrite (take_S_r _ _ lo), Nat.add_1_r, (take_S_r _ _ hi), <- app_assoc by done. done.
Qed.

Lemma decode_encode_address t enc rest :
  target_typed t -> encode_address t = Ok enc -> decode_address (enc ++ rest) = Ok (t, length enc).
Proof.
  destruct t as [h p]. intros [Hp Hh] He. cbn [host tport] in *. unfold encode_address in He. cbn [host tport] in He.
  assert (forall pre : bytes, index (E:=ShadowsocksError) (pre ++ u16_to_be p ++ rest) (length pre) = Ok (Z2b (p / 256)) /\
    index (E:=ShadowsocksError) (pre ++ u16_to_be p ++ rest) (length pre + 1) = Ok (Z2b p)) as Hport.
  { intros pre. rewrite (index_app_r pre _ _ 0), (index_app_r pre _ _ 1) by lia. done. }
  destruct h as [[o|o]|d].
  - injection He as <-. cbn [ip_wf] in Hh. specialize (Hport (ATYP_IPV4 :: o)) as [H1 H2].
    cbn [length] in H1, H2. rewrite Hh in H1, H2.
    unfold decode_address. cbn [app]. rewrite <- app_assoc.
    cbn [length Nat.eqb plus index lookup list_lookup obind].
    rewrite byte_eqb_refl, !length_app, Hh, u16_to_be_length. cbn [Nat.ltb Nat.leb plus].
    change (ATYP_IPV4 :: o ++ u16_to_be p ++ rest) with ([ATYP_IPV4] ++ o ++ (u16_to_be p ++ rest)).
    rewrite (slice_app_mid [ATYP_IPV4]) by (simpl; lia). cbn [obind app] in *.
    rewrite H1, H2. cbn [obind]. by rewrite u16_from_to.
  - injection He as <-. cbn [ip_wf] in Hh. specialize (Hport (ATYP_IPV6 :: o)) as [H1 H2].
    cbn [length] in H1, H2. rewrite Hh in H1, H2.
    unfold decode_address. cbn [app]. rewrite <- app_assoc.
    cbn [length Nat.eqb plus index lookup list_lookup obind]. byte_if.
    rewrite !length_app, Hh, u16_to_be_length. cbn [Nat.ltb Nat.leb plus].
    change (ATYP_IPV6 :: o ++ u16_to_be p ++ rest) with ([ATYP_IPV6] ++ o ++ (u16_to_be p ++ rest)).
    rewrite (slice_app_mid [ATYP_IPV6]) by (simpl; lia). cbn [obind app] in *.
    rewrite H1, H2. cbn [obind]. by rewrite u16_from_to.
  - destruct (Nat.ltb_spec 255 (length d)) as [|Hd]; [done|]. injection He as <-.
    set (lb := Z2b (Z.of_nat (length d))). assert (b2n lb = length d) as Hlb by (apply b2n_Z2b; lia).
    specialize (Hport (ATYP_DOMAIN :: lb :: d)) as [H1 H2].
    unfold decode_address. cbn [app]. rewrite <- !app_assoc. cbn [length Nat.eqb index lookup list_lookup obind].
    byte_if. rewrite !length_app, u16_to_be_length, (proj2 (Nat.ltb_ge _ 2)), Hlb by lia.
    rewrite (proj2 (Nat.ltb_ge _ (2 + length d))) by lia.
    change (ATYP_DOMAIN :: lb :: d ++ u16_to_be p ++ rest) with ([ATYP_DOMAIN; lb] ++ d ++ (u16_to_be p ++ rest)).
    rewrite (slice_app_mid [ATYP_DOMAIN; lb]) by (simpl; lia).
    cbn [obind]. rewrite (proj2 (from_utf8_ok _ _ d) (conj Hh eq_refl)). cbn [obind app length] in *.
    rewrite (proj2 (Nat.ltb_ge _ (_ + 2))) by lia.
    replace (S (S (length d)) + 1) with (S (S (length d + 1))) in H2 by lia.
    cbn [plus] in H1, H2 |- *. rewrite H1, H2. cbn [obind]. rewrite u16_from_to by done.
    done.
Qed.

(** What a successful decoding consumed is the encoding of its result. *)
Lemma decode_address_sound data t n :
  decode_address data = Ok (t, n) ->
  target_typed t /\ n <= length data /\ encode_address t = Ok (take n data).
Proof.
  unfold decode_address. intros H. guard_in H; [done|]. apply obind_ok in H as (atyp & Ha & H).
  apply obind_ok in H as ([h pos] & Hs & H). cbv beta iota in H. guard_in H; [done|].
  apply obind_ok in H as (hi & Hhi & H). apply obind_ok in H as (lo & Hlo & [= <- <-]).
  rewrite index_ok in *. bool_to_prop. unfold target_typed, encode_address. cbn [host tport].
  enough (pos <= length data /\ match h with Ip ip => ip_wf ip | DomainName d => utf8_valid d = true end /\
    match h with
    | Ip (V4 ip) => Ok (E:=ShadowsocksError) ([ATYP_IPV4] ++ ip)
    | Ip (V6 ip) => Ok ([ATYP_IPV6] ++ ip)
    | DomainName domain => if 255 <? length domain then Err (InvalidAddress "domain too long")
        else Ok ([ATYP_DOMAIN; Z2b (Z.of_nat (length domain))] ++ domain)
    end = Ok (take pos data)) as (Hpos & Hwf & ->).
  { cbn [obind]. rewrite u16_to_from, (take_port data pos hi lo) by done.
    split_and!; [apply u16_from_be_range|done|lia|done]. }
  destruct data as [|x data]; [done|]. injection Ha as ->.
  repeat (guard_in Hs; [try done|try done]); bool_to_prop; rewrite ?byte_eqb_true in *; subst;
    apply obind_ok in Hs as (o & Ho & Hs).
  1,2: injection Hs as <- <-; apply slice_ok in Ho as (_ & Hl & ->); cbn [length] in *;
    cbn [ip_wf]; split_and!; [lia|rewrite length_take, length_drop; cbn [length]; lia|done].
  destruct data as [|lb data]; [done|]. injection Ho as <-. guard_in Hs; [done|].
  apply obind_ok in Hs as (raw & Hr & Hs). apply obind_ok in Hs as (d & Hd & Hs).
  injection Hs as <- <-. apply from_utf8_ok in Hd as [Hu ->].
  apply slice_ok in Hr as (_ & Hl & ->). cbn [length drop] in *.
  replace (2 + b2n lb - 2) with (b2n lb) in * by lia. pose proof (b2n_range lb).
  rewrite drop_0 in *. rewrite length_take, Nat.min_l by lia.
  rewrite (proj2 (Nat.ltb_ge _ _)), Z2b_b2n by lia.
  split_and!; [lia|done|done].
Qed.

(** The Shadowsocks address decoder accepts exactly the encodings: it returns
    [(t, n)] iff [t] is a well-typed target and the first [n] bytes are what the
    encoder produces for it. *)
Theorem ss_address_exact data t n :
  decode_address data = Ok (t, n) <->
  target_typed t /\ n <= length data /\ encode_address t = Ok (take n data).
Proof.
  split; [apply decode_address_sound|]. intros (Ht & Hn & He).
  rewrite <- (take_drop n data), (decode_encode_address t (take n data)) by done.
  rewrite length_take. do 2 f_equal. lia.
Qed.

(** ** AEAD: shared facts *)

Lemma max_chunk_lt : MAX_CHUNK_PAYLOAD < Z.to_nat 65536.
Proof. unfold MAX_CHUNK_PAYLOAD. lia. Qed.

Lemma chunks_loop_concat {A} fuel n (l : list A) :
  length l <= fuel -> 0 < n -> mjoin (chunks_loop fuel n l) = l.
Proof.
  intros Hf Hn. revert l Hf. induction fuel as [|f IH]; intros [|x l] Hf; try done; [simpl in Hf; lia|].
  cbn [chunks_loop]. change (mjoin (?a :: ?b)) with (a ++ mjoin b). rewrite IH; [apply take_drop|].
  rewrite length_drop. simpl in *. lia.
Qed.

Lemma chunks_loop_bound {A} fuel n (l : list A) :
  0 < n -> Forall (fun c => 0 < length c <= n) (chunks_loop fuel n l).
Proof.
  intros Hn. revert l. induction fuel as [|f IH]; intros [|x l]; try by constructor.
  cbn [chunks_loop]. constructor; [|apply IH]. rewrite length_take. simpl. lia.
Qed.

Lemma chunks_loop_length {A} fuel n (l : list A) : 0 < n -> length (chunks_loop fuel n l) <= length l.
Proof.
  intros Hn. revert l. induction fuel as [|f IH]; intros [|x l]; simpl; try lia.
  specialize (IH (drop n (x :: l))). rewrite length_drop in IH. simpl in IH. lia.
Qed.

(** A list is the concatenation of its chunks, which are non-empty and bounded. *)
Lemma chunks_concat {A} n (l : list A) : 0 < n -> mjoin (chunks n l) = l.
Proof. intros. by apply chunks_loop_concat. Qed.

Lemma len_bytes_length n : length (len_bytes n) = 2.
Proof. done. Qed.

Lemma len_bytes_value n :
  n < Z.to_nat 65536 ->
  exists hi lo, len_bytes n = [hi; lo] /\ Z.to_nat (u16_from_be hi lo) = n.
Proof.
  intros Hn. unfold len_bytes. eexists _, _. split; [done|].
  rewrite u16_from_to by (unfold is_u16; apply Z.mod_pos_bound; lia).
  rewrite Z.mod_small; lia.
Qed.

Lemma len_bytes_inv hi lo : [hi; lo] = len_bytes (Z.to_nat (u16_from_be hi lo)).
Proof.
  unfold len_bytes. pose proof (u16_from_be_range hi lo) as Hr. unfold is_u16 in Hr.
  rewrite Z2Nat.id, Z.mod_small, u16_to_from by lia. done.
Qed.

Section laws.
Context `{HCr : !Crypto, HLaws : !CryptoLaws}.

Definition cipher_wf (c : AeadCipher) : Prop := length (ac_key c) = key_size (ac_method c).

Lemma cipher_new_ok m k c :
  cipher_new m k = Ok c <-> c = {| ac_method := m; ac_key := k |} /\ length k = key_size m.
Proof. unfold cipher_new. destruct (Nat.eqb_spec (length k) (key_size m)); naive_solver. Qed.

Lemma cipher_encrypt_ok c n p ct :
  cipher_encrypt c n p = Ok ct <-> length n = 12 /\ seal (ac_method c) (ac_key c) n p = Some ct.
Proof.
  unfold cipher_encrypt. destruct (Nat.eqb_spec (length n) 12); simpl; [|naive_solver].
  destruct (seal _ _ _ _); naive_solver.
Qed.

Lemma cipher_decrypt_ok c n p ct :
  cipher_decrypt c n ct = Ok p <-> length n = 12 /\ open (ac_method c) (ac_key c) n ct = Some p.
Proof.
  unfold cipher_decrypt. destruct (Nat.eqb_spec (length n) 12); simpl; [|naive_solver].
  destruct (open _ _ _ _); naive_solver.
Qed.

Lemma cipher_decrypt_no_panic c n ct : length n = 12 -> cipher_decrypt c n ct <> Panic.
Proof. unfold cipher_decrypt. intros ->. simpl. by destruct (open _ _ _ _). Qed.

Lemma cipher_encrypt_total c n p :
  cipher_wf c -> length n = 12 -> (Z.of_nat (length p) <= AEAD_P_MAX)%Z ->
  exists ct, cipher_encrypt c n p = Ok ct.
Proof.
  intros Hc Hn Hp. destruct (seal_total (ac_method c) (ac_key c) n p) as [ct Hct]; [done..|].
  exists ct. by apply cipher_encrypt_ok.
Qed.

(** Decryption inverts encryption, and the tag costs sixteen bytes. *)
Lemma cipher_roundtrip c n p ct :
  cipher_encrypt c n p = Ok ct -> cipher_decrypt c n ct = Ok p /\ length ct = length p + 16.
Proof.
  intros (Hn & Hs)%cipher_encrypt_ok. apply open_seal in Hs.
  split; [by apply cipher_decrypt_ok|]. by eapply open_length.
Qed.

Lemma cipher_decrypt_length c n p ct :
  cipher_decrypt c n ct = Ok p -> length ct = length p + 16.
Proof. intros (Hn & Ho)%cipher_decrypt_ok. by eapply open_length. Qed.

Lemma evp_loop_length f password key prev :
  length key <= 48 -> length key `mod` 16 = 0 -> 48 - length key <= f ->
  length (evp_loop f password key prev) = 48.
Proof.
  revert key prev. induction f as [|f IH]; intros key prev H1 H2 H3; cbn [evp_loop]; [lia|].
  destruct (Nat.ltb_spec (length key) 48) as [Hlt|Hge]; [|lia].
  assert (length key + 16 <= 48) as Hb.
  { pose proof (Nat.div_mod_eq (length key) 16). lia. }
  apply IH; rewrite length_app, md5_length; [done| |lia].
  by rewrite <- (Nat.mul_1_l 16) at 1; rewrite Nat.Div0.mod_add.
Qed.

Lemma evp_length password : length (evp_bytes_to_key password) = 48.
Proof. apply evp_loop_length; simpl; lia || done. Qed.

(** Key derivation succeeds and yields a key of the method's size. *)
Lemma derive_key_from_ikm_ok m ikm salt :
  key_size m <= length ikm -> exists k, derive_key_from_ikm m ikm salt = Ok k /\ length k = key_size m.
Proof.
  intros Hi. unfold derive_key_from_ikm.
  rewrite (proj2 (slice_to_ok _ _ _) (conj Hi eq_refl)). cbn [obind].
  destruct (hkdf_total salt (take (key_size m) ikm) (str "ss-subkey") (key_size m)) as (k & -> & Hk).
  { destruct m; simpl; lia. }
  eauto.
Qed.

Lemma derive_key_from_ikm_len m ikm salt k :
  derive_key_from_ikm m ikm salt = Ok k -> length k = key_size m.
Proof.
  intros H. assert (Hi := H). unfold derive_key_from_ikm in Hi.
  apply obind_ok in Hi as (i & Hi & _). apply slice_to_ok in Hi as [Hi _].
  destruct (derive_key_from_ikm_ok m ikm salt Hi) as (k' & Hk & Hl). congruence.
Qed.

Lemma derive_key_ok m password salt :
  exists k, derive_key m password salt = Ok k /\ length k = key_size m.
Proof.
  apply derive_key_from_ikm_ok. rewrite evp_length. destruct m; simpl; lia.
Qed.
End laws.

(** ** The AEAD chunk format (SIP003)

    [frames c z l]: the wire form of the payloads [l], each sealed as a length
    block and a payload block under the consecutive nonces [z], [z + 1], ...
    Reference definition for the chunk functions and for the stream. *)
Section frames.
Context `{HCr : !Crypto}.

Definition seal_at (c : AeadCipher) (z : Z) (p : bytes) : option bytes :=
  seal (ac_method c) (ac_key c) (nonce_at z) p.

Definition frame (c : AeadCipher) (z : Z) (p : bytes) : option bytes :=
  a ← seal_at c z (len_bytes (length p)); b ← seal_at c (z + 1) p; Some (a ++ b).

Fixpoint frames (c : AeadCipher) (z : Z) (l : list bytes) : option bytes :=
  match l with
  | [] => Some []
  | p :: r => f ← frame c z p; fs ← frames c (z + 2) r; Some (f ++ fs)
  end.

Lemma frames_app c z l1 l2 w1 w2 :
  frames c z l1 = Some w1 -> frames c (z + 2 * Z.of_nat (length l1)) l2 = Some w2 ->
  frames c z (l1 ++ l2) = Some (w1 ++ w2).
Proof.
  revert z w1. induction l1 as [|p l1 IH]; intros z w1 H1 H2; cbn [frames app length] in *.
  - injection H1 as <-. by rewrite Z.add_0_r in H2.
  - destruct (frame c z p) as [f|]; [|done]. cbn [mbind option_bind] in *.
    destruct (frames c (z + 2) l1) as [fs|] eqn:E; [|done]. cbn [mbind option_bind] in *.
    injection H1 as <-. rewrite (IH (z + 2)%Z fs E); [cbn; by rewrite <- app_assoc|].
    rewrite <- H2. f_equal. lia.
Qed.

Context `{HLaws : !CryptoLaws}.

Lemma frame_inv c z p f :
  frame c z p = Some f ->
  exists a b, f = a ++ b /\ length a = 18 /\ length b = length p + 16 /\
    cipher_decrypt c (nonce_at z) a = Ok (len_bytes (length p)) /\
    cipher_decrypt c (nonce_at (z + 1)) b = Ok p.
Proof.
  unfold frame, seal_at. intros H.
  destruct (seal _ _ _ (len_bytes _)) as [a|] eqn:Ha; [|done]. cbn [mbind option_bind] in H.
  destruct (seal _ _ _ p) as [b|] eqn:Hb; [|done]. injection H as <-.
  apply open_seal in Ha, Hb. exists a, b. split; [done|].
  rewrite (open_length _ _ _ _ _ Ha), (open_length _ _ _ _ _ Hb), !cipher_decrypt_ok, !nonce_at_length.
  done.
Qed.

Lemma frame_total c z p :
  cipher_wf c -> length p <= MAX_CHUNK_PAYLOAD -> exists f, frame c z p = Some f.
Proof.
  intros Hc Hp. unfold MAX_CHUNK_PAYLOAD in Hp. unfold frame, seal_at.
  destruct (seal_total (ac_method c) (ac_key c) (nonce_at z) (len_bytes (length p))) as [a ->];
    [done|apply nonce_at_length|rewrite len_bytes_length; done|].
  destruct (seal_total (ac_method c) (ac_key c) (nonce_at (z + 1)) p) as [b Hb];
    [done|apply nonce_at_length|unfold AEAD_P_MAX; lia|]. cbn [mbind option_bind]. rewrite Hb. eauto.
Qed.

Lemma frames_total c z l :
  cipher_wf c -> Forall (fun p => length p <= MAX_CHUNK_PAYLOAD) l -> exists w, frames c z l = Some w.
Proof.
  intros Hc Hl. revert z. induction Hl as [|p l Hp Hl IH]; intros z; [by exists []|]. cbn [frames].
  destruct (frame_total c z p Hc Hp) as [f ->]. destruct (IH (z + 2)%Z) as [w Hw].
  cbn [mbind option_bind]. rewrite Hw. eauto.
Qed.

Lemma frames_length c z l w :
  frames c z l = Some w -> length w = length (mjoin l) + 34 * length l.
Proof.
  revert z w. induction l as [|p l IH]; intros z w H; cbn [frames] in H; [by injection H as <-|].
  destruct (frame c z p) as [f|] eqn:Hf; [|done]. cbn [mbind option_bind] in H.
  destruct (frames c (z + 2) l) as [fs|] eqn:E; [|done]. injection H as <-.
  apply frame_inv in Hf as (a & b & -> & Ha & Hb & _). apply IH in E.
  change (mjoin (p :: l)) with (p ++ mjoin l). rewrite !length_app. cbn [length]. lia.
Qed.

(** The encryption of one chunk is one frame. *)
Lemma encrypt_chunk_with_frame c z p f :
  (0 <= z)%Z -> (z + 1 < 256 ^ 12)%Z ->
  encrypt_chunk_with c (nonce_at z) p = Ok f <-> frame c z p = Some f.
Proof.
  intros Hz Hb. unfold encrypt_chunk_with, frame, seal_at. rewrite nonce_increment_at by done.
  cbn [obind]. unfold cipher_encrypt. rewrite !nonce_at_length. cbn [Nat.eqb negb].
  destruct (seal _ _ _ (len_bytes _)); cbn; [|naive_solver].
  destruct (seal _ _ _ p); cbn; naive_solver.
Qed.

Lemma encrypt_chunks_loop_frames c z l out w :
  (0 <= z)%Z -> (z + 2 * Z.of_nat (length l) < 256 ^ 12)%Z ->
  frames c z l = Some w -> encrypt_chunks_loop c (nonce_at z) l out = Ok (out ++ w).
Proof.
  revert z out w. induction l as [|p l IH]; intros z out w Hz Hb H; cbn [frames encrypt_chunks_loop length] in *.
  { injection H as <-. by rewrite app_nil_r. }
  destruct (frame c z p) as [f|] eqn:Hf; [|done]. cbn [mbind option_bind] in H.
  destruct (frames c (z + 2) l) as [fs|] eqn:E; [|done]. injection H as <-.
  rewrite (proj2 (encrypt_chunk_with_frame c z p f Hz ltac:(lia)) Hf). cbn [obind].
  rewrite nonce_increment_at by lia. cbn [obind]. rewrite nonce_increment_at by lia. cbn [obind].
  replace (z + 1 + 1)%Z with (z + 2)%Z by lia.
  rewrite (IH (z + 2)%Z (out ++ f) fs) by (done || lia). by rewrite <- app_assoc.
Qed.

(** One turn of the decryption loop consumes one frame. *)
Lemma decrypt_chunks_loop_step fuel c z pre p f rest out :
  (0 <= z)%Z -> (z + 2 < 256 ^ 12)%Z -> length p <= MAX_CHUNK_PAYLOAD -> frame c z p = Some f ->
  decrypt_chunks_loop (S fuel) c (nonce_at z) (pre ++ f ++ rest) (length pre) out =
  decrypt_chunks_loop fuel c (nonce_at (z + 2)) ((pre ++ f) ++ rest) (length (pre ++ f)) (out ++ p).
Proof.
  intros Hz Hb Hp Hf. apply frame_inv in Hf as (a & b & -> & Ha & Hb' & Hda & Hdb).
  destruct (len_bytes_value (length p)) as (hi & lo & Hl & Hv).
  { unfold MAX_CHUNK_PAYLOAD in Hp. lia. }
  cbn [decrypt_chunks_loop]. unfold AEAD_TAG_SIZE. rewrite !length_app, Ha, Hb'.
  rewrite (proj2 (Nat.ltb_lt _ _)), (proj2 (Nat.ltb_ge _ _)) by lia. cbn [negb].
  rewrite <- (app_assoc a), (slice_app_mid pre a) by lia. cbn [obind].
  rewrite Hda, Hl. cbn [obind index lookup list_lookup]. rewrite Hv.
  rewrite (proj2 (Nat.ltb_ge _ (length p))), (proj2 (Nat.ltb_ge _ (length p + 16))) by lia.
  rewrite nonce_increment_at by lia. cbn [obind].
  rewrite (app_assoc pre a), (slice_app_mid (pre ++ a) b) by (rewrite ?length_app; lia). cbn [obind].
  rewrite Hdb. cbn [obind]. rewrite nonce_increment_at by lia. cbn [obind].
  rewrite <- !app_assoc. replace (z + 1 + 1)%Z with (z + 2)%Z by lia. f_equal. lia.
Qed.

Lemma decrypt_chunks_loop_frames c l : forall fuel z pre w out,
  (0 <= z)%Z -> (z + 2 * Z.of_nat (length l) < 256 ^ 12)%Z -> length l <= fuel ->
  Forall (fun p => length p <= MAX_CHUNK_PAYLOAD) l -> frames c z l = Some w ->
  decrypt_chunks_loop fuel c (nonce_at z) (pre ++ w) (length pre) out = Ok (out ++ mjoin l).
Proof.
  induction l as [|p l IH]; intros fuel z pre w out Hz Hb Hf Hl H; cbn [frames] in H.
  { injection H as <-. destruct fuel; cbn [decrypt_chunks_loop];
      by rewrite !app_nil_r, (proj2 (Nat.ltb_ge _ _)). }
  inversion_clear Hl as [|?? Hp Hl']. cbn [length] in *.
  destruct (frame c z p) as [f|] eqn:Hf'; [|done]. cbn [mbind option_bind] in H.
  destruct (frames c (z + 2) l) as [fs|] eqn:E; [|done]. injection H as <-.
  destruct fuel as [|fuel]; [lia|].
  rewrite (decrypt_chunks_loop_step fuel c z pre p f fs out) by (done || lia).
  rewrite (IH fuel (z + 2)%Z (pre ++ f) fs (out ++ p)) by (done || lia).
  by rewrite <- app_assoc.
Qed.

(** Any plaintext survives the AEAD chunk format: for a key of the method's
    size and a starting nonce with enough room, encryption succeeds, its output
    is the SIP003 frames of the chunks of at most 16383 bytes under consecutive
    nonces, 34 bytes longer per chunk, and decryption with the same key and
    nonce returns the plaintext. *)
Lemma standard_chunks_ok m key z plaintext :
  length key = key_size m -> (0 <= z)%Z ->
  (z + 2 * Z.of_nat (length (chunks MAX_CHUNK_PAYLOAD plaintext)) < 256 ^ 12)%Z ->
  exists w, encrypt_standard_chunks m key (nonce_at z) plaintext = Ok w /\
    frames {| ac_method := m; ac_key := key |} z (chunks MAX_CHUNK_PAYLOAD plaintext) = Some w /\
    length w = length plaintext + 34 * length (chunks MAX_CHUNK_PAYLOAD plaintext) /\
    decrypt_standard_chunks m key (nonce_at z) w = Ok plaintext.
Proof.
  intros Hk Hz Hb. set (c := {| ac_method := m; ac_key := key |}).
  assert (0 < MAX_CHUNK_PAYLOAD) as Hm by (unfold MAX_CHUNK_PAYLOAD; lia).
  assert (Forall (fun p => length p <= MAX_CHUNK_PAYLOAD) (chunks MAX_CHUNK_PAYLOAD plaintext)) as Hc.
  { eapply Forall_impl; [by apply chunks_loop_bound|]. simpl. lia. }
  destruct (frames_total c z _ ltac:(done) Hc) as [w Hw]. exists w.
  pose proof (frames_length _ _ _ _ Hw) as Hlen. rewrite chunks_concat in Hlen by done.
  assert (cipher_new m key = Ok c) as Hn by (by apply cipher_new_ok).
  unfold encrypt_standard_chunks, decrypt_standard_chunks. rewrite Hn. cbn [obind].
  rewrite nonce_at_length. cbn [Nat.eqb negb].
  split_and!; [by rewrite (encrypt_chunks_loop_frames c z _ [] w)|done|done|].
  etransitivity; [apply (decrypt_chunks_loop_frames c _ (length w) z [] w [] Hz Hb); done || lia|].
  cbn [app]. by rewrite chunks_concat.
Qed.

(** Neither loop panics: the turn count suffices and the indexing of the
    decrypted length block stays in range. *)
Lemma decrypt_chunks_loop_no_panic fuel : forall c nonce data off out,
  length nonce = 12 -> length data - off <= fuel ->
  decrypt_chunks_loop fuel c nonce data off out <> Panic.
Proof.
  induction fuel as [|f IH]; intros c nonce data off out Hn Hf; cbn [decrypt_chunks_loop];
    destruct (Nat.ltb_spec off (length data)) as [Ho|Ho]; cbn [negb]; try done; [lia|].
  destruct (Nat.ltb_spec (length data - off) (2 + AEAD_TAG_SIZE)) as [|Hl]; [done|]. unfold AEAD_TAG_SIZE in *.
  apply obind_panic. split; [apply slice_no_panic; lia|]. intros lb Hlb.
  apply obind_panic. split; [by apply cipher_decrypt_no_panic|]. intros pt Hpt.
  apply cipher_decrypt_length in Hpt. apply slice_ok in Hlb as (_ & _ & ->).
  rewrite length_take, length_drop in Hpt.
  apply obind_panic. split; [apply index_no_panic; lia|]. intros hi _.
  apply obind_panic. split; [apply index_no_panic; lia|]. intros lo _.
  guard_goal; [done|]. guard_goal; [done|]. bool_to_prop.
  apply obind_panic. split; [unfold nonce_increment; repeat (case_match; try done)|].
  intros ln Hln. apply nonce_increment_ok in Hln as (_ & Hln & _).
  apply obind_panic. split; [apply slice_no_panic; lia|]. intros blk _.
  apply obind_panic. split; [by apply cipher_decrypt_no_panic|]. intros p _.
  apply obind_panic. split; [unfold nonce_increment; repeat (case_match; try done)|].
  intros nx Hnx. apply nonce_increment_ok in Hnx as (_ & Hnx & _). apply IH; [done|lia].
Qed.
End frames.

(** ** UDP packets *)

Section udp.
Context `{HCr : !Crypto, HLaws : !CryptoLaws}.

Lemma check_domain_len_ok t enc : encode_address t = Ok enc -> check_domain_len t = Ok tt.
Proof.
  unfold encode_address, check_domain_len, MAX_DOMAIN_LEN. destruct (host t) as [|d]; [done|].
  by destruct (255 <? length d).
Qed.

Lemma encode_address_length t enc : encode_address t = Ok enc -> target_typed t -> 4 <= length enc <= 259.
Proof.
  unfold encode_address, target_typed. intros H [_ Ht].
  destruct (host t) as [[o|o]|d]; cbn [ip_wf] in Ht;
    [| |destruct (Nat.ltb_spec 255 (length d)); [done|]];
    injection H as <-; cbn [app length]; rewrite length_app, u16_to_be_length; lia.
Qed.

(** A target has an encoding unless it is a domain of more than 255 bytes. *)
Definition addr_encodable (t : TargetAddr) : Prop :=
  match host t with DomainName d => length d <= 255 | _ => True end.

Lemma encode_address_total t : addr_encodable t -> exists enc, encode_address t = Ok enc.
Proof.
  unfold addr_encodable, encode_address. destruct (host t) as [[o|o]|d]; intros He; [eauto..|].
  rewrite (proj2 (Nat.ltb_ge _ _)) by done. eauto.
Qed.

Lemma aead_encrypt_raw_ok m k n p ct :
  aead_encrypt_raw m k n p = Ok ct <-> length k = key_size m /\ length n = 12 /\ seal m k n p = Some ct.
Proof.
  unfold aead_encrypt_raw. rewrite obind_ok. setoid_rewrite cipher_new_ok.
  setoid_rewrite cipher_encrypt_ok. naive_solver.
Qed.

Lemma aead_decrypt_raw_ok m k n p ct :
  aead_decrypt_raw m k n ct = Ok p <-> length k = key_size m /\ length n = 12 /\ open m k n ct = Some p.
Proof.
  unfold aead_decrypt_raw. rewrite obind_ok. setoid_rewrite cipher_new_ok.
  setoid_rewrite cipher_decrypt_ok. naive_solver.
Qed.

Lemma udp_key m password salt k :
  derive_key_from_ikm m (password_key_material password) salt = Ok k -> length k = key_size m.
Proof. apply derive_key_from_ikm_len. Qed.

(** The encoder's output, field by field. *)
Lemma encode_udp_packet_ok m password t payload salt packet :
  encode_udp_packet m password t payload salt = Ok packet <->
  length salt = salt_size m /\ exists k addr ct,
    derive_key_from_ikm m (password_key_material password) salt = Ok k /\
    encode_address t = Ok addr /\ seal m k zero_nonce (addr ++ payload) = Some ct /\ packet = salt ++ ct.
Proof.
  unfold encode_udp_packet, encode_udp_packet_with_ikm.
  destruct (Nat.eqb_spec (length salt) (salt_size m)) as [Hs|Hs]; cbn [negb]; [|naive_solver].
  change (replicate (nonce_size m) x00) with zero_nonce. split.
  - intros H. inv_ok. rename select (aead_encrypt_raw _ _ _ _ = _) into Ha.
    apply aead_encrypt_raw_ok in Ha as (_ & _ & Ha). eauto 10.
  - intros (_ & k & addr & ct & Hk & Haddr & Hct & ->). rewrite Hk. cbn [obind].
    rewrite (check_domain_len_ok _ _ Haddr). cbn [obind]. rewrite Haddr. cbn [obind].
    rewrite (proj2 (aead_encrypt_raw_ok m k zero_nonce (addr ++ payload) ct)); [done|].
    split_and!; [by eapply udp_key|done|done].
Qed.

Lemma decode_udp_packet_ok m password t payload packet :
  decode_udp_packet m password packet = Ok (t, payload) <->
  salt_size m + 16 <= length packet <= MAX_UDP_PACKET_SIZE /\ target_typed t /\
  exists k addr, derive_key_from_ikm m (password_key_material password) (take (salt_size m) packet) = Ok k /\
    encode_address t = Ok addr /\
    open m k zero_nonce (drop (salt_size m) packet) = Some (addr ++ payload).
Proof.
  unfold decode_udp_packet, decode_udp_packet_with_ikm, tag_size.
  change (replicate (nonce_size m) x00) with zero_nonce. split.
  - intros H. guard_in H; [done|]. guard_in H; [done|]. bool_to_prop. inv_ok.
    repeat match goal with H : slice_to _ _ = Ok _ |- _ => apply slice_to_ok in H as [_ ->] end.
    match goal with p : (TargetAddr * nat)%type |- _ => destruct p as [t' n] end. inv_ok. subst.
    rename select (decode_address _ = _) into Hd. apply decode_address_sound in Hd as (Ht & Hn & He).
    rename select (aead_decrypt_raw _ _ _ _ = _) into Ha.
    apply aead_decrypt_raw_ok in Ha as (_ & _ & Ha). split; [done|]. split; [done|].
    eexists _, _. split_and!; [eassumption|exact He|]. by rewrite take_drop.
  - intros ([H1 H2] & Ht & k & addr & Hk & He & Ho).
    assert (salt_size m <= length packet) as Hsz by lia.
    cbv zeta. rewrite (proj2 (Nat.ltb_ge (length packet) _)) by done.
    rewrite (proj2 (Nat.ltb_ge _ (length packet))) by done.
    rewrite (proj2 (slice_to_ok packet (salt_size m) _) (conj Hsz eq_refl)). cbn [obind]. rewrite Hk. cbn [obind].
    rewrite (proj2 (slice_from_ok packet (salt_size m) _) (conj Hsz eq_refl)). cbn [obind].
    rewrite (proj2 (aead_decrypt_raw_ok _ _ _ _ _)) by (split_and!; [by eapply udp_key|done|done]).
    cbn [obind]. rewrite (decode_encode_address t addr) by done. cbn [obind].
    rewrite (check_domain_len_ok _ _ He). cbn [obind]. by rewrite slice_from_app.
Qed.

(** Decoding inverts encoding, for packets that fit a datagram. *)
Lemma ss_udp_decode_encode m password t payload salt packet :
  target_typed t -> encode_udp_packet m password t payload salt = Ok packet ->
  length packet <= MAX_UDP_PACKET_SIZE -> decode_udp_packet m password packet = Ok (t, payload).
Proof.
  intros Ht (Hs & k & addr & ct & Hk & He & Hc & ->)%encode_udp_packet_ok Hlen. apply decode_udp_packet_ok.
  apply open_seal in Hc. pose proof (open_length _ _ _ _ _ Hc) as Hl.
  rewrite take_app_le, drop_app_ge, Hs, Nat.sub_diag, drop_0, take_ge by lia.
  rewrite length_app in *. split_and!; [lia|lia|done|eauto].
Qed.

Lemma encode_udp_packet_total m password t payload salt :
  target_typed t -> addr_encodable t -> length salt = salt_size m -> length payload <= MAX_UDP_PACKET_SIZE ->
  exists packet addr, encode_udp_packet m password t payload salt = Ok packet /\
    encode_address t = Ok addr /\ length packet = salt_size m + length addr + length payload + 16.
Proof.
  intros Ht He Hs Hp. destruct (encode_address_total t He) as [addr Ha].
  pose proof (encode_address_length _ _ Ha Ht) as Hal.
  destruct (derive_key_ok m password salt) as (k & Hk & Hkl).
  destruct (seal_total m k zero_nonce (addr ++ payload)) as [ct Hct]; [done|done| |].
  { rewrite length_app. unfold MAX_UDP_PACKET_SIZE, AEAD_P_MAX in *. lia. }
  exists (salt ++ ct), addr. split_and!; [apply encode_udp_packet_ok; eauto 10|done|].
  apply open_seal in Hct. apply open_length in Hct. rewrite length_app in *. lia.
Qed.

(** The Shadowsocks UDP decoder accepts a packet exactly when it is a packet
    the encoder produces, under the same password, for the decoded target and
    payload and some salt, and is at most 65535 bytes long: nothing forged or
    malformed is accepted and nothing encoded is refused. *)
Theorem ss_udp_packet_exact `{!TightAead} m password packet t payload :
  decode_udp_packet m password packet = Ok (t, payload) <->
  target_typed t /\ length packet <= MAX_UDP_PACKET_SIZE /\
  exists salt, encode_udp_packet m password t payload salt = Ok packet.
Proof.
  rewrite decode_udp_packet_ok. setoid_rewrite encode_udp_packet_ok. split.
  - intros ([H1 H2] & Ht & k & addr & Hk & He & Ho). split_and!; [done|lia|].
    exists (take (salt_size m) packet). split; [rewrite length_take; lia|].
    exists k, addr, (drop (salt_size m) packet). split_and!; [done|done|by apply seal_open|].
    by rewrite take_drop.
  - intros (Ht & Hlen & salt & Henc). apply decode_udp_packet_ok.
    eapply ss_udp_decode_encode; [done|by apply encode_udp_packet_ok|done].
Qed.

(** A pproxy-style UDP packet round trip: for every encodable target, payload
    of at most 65535 bytes and salt of the method's size, encoding succeeds and
    decoding the packet with the same password returns target and payload. *)
Theorem pproxy_udp_roundtrip m password t payload salt :
  target_typed t -> addr_encodable t -> length payload <= MAX_UDP_PACKET_SIZE ->
  length salt = salt_size m ->
  exists packet, encode_pproxy_udp_packet m password t payload salt = Ok packet /\
    decode_pproxy_udp_packet m password packet = Ok (t, payload).
Proof.
  intros Ht He Hp Hs. unfold encode_pproxy_udp_packet, encode_pproxy_udp_packet_with_ikm,
    decode_pproxy_udp_packet, decode_pproxy_udp_packet_with_ikm, udp_plaintext.
  destruct (encode_address_total t He) as [addr Ha]. pose proof (encode_address_length t addr Ha Ht) as Hal.
  destruct (derive_key_ok m password salt) as (k & Hk & Hkl). unfold derive_key in Hk.
  change (replicate (nonce_size m) x00) with (nonce_at 0). unfold password_key_material.
  set (pt := addr ++ payload). assert (length pt = length addr + length payload) as Hpt by apply length_app.
  assert (length (chunks MAX_CHUNK_PAYLOAD pt) <= length pt) as Hch.
  { apply chunks_loop_length. unfold MAX_CHUNK_PAYLOAD. lia. }
  destruct (standard_chunks_ok m k 0 pt) as (w & Hw & Hfr & Hwl & Hd); [done|lia| |].
  { unfold MAX_UDP_PACKET_SIZE in Hp. lia. }
  assert (0 < length (chunks MAX_CHUNK_PAYLOAD pt)) as Hpos.
  { unfold chunks. destruct pt; [simpl in *; lia|simpl; lia]. }
  exists (salt ++ w). rewrite (check_domain_len_ok _ _ Ha). cbn [obind]. rewrite Ha. cbn [obind].
  fold pt. rewrite Hs, Nat.eqb_refl. cbn [negb]. rewrite Hk. cbn [obind]. rewrite Hw. split; [done|].
  cbv zeta. rewrite (proj2 (Nat.ltb_ge _ _)) by (rewrite length_app; unfold tag_size; lia).
  rewrite slice_to_app by done. cbn [obind]. rewrite Hk. cbn [obind].
  rewrite slice_from_app by done. cbn [obind]. rewrite Hd. cbn [obind]. unfold pt.
  rewrite (decode_encode_address t addr) by done. cbn [obind]. by rewrite slice_from_app.
Qed.
End udp.

(** ** A concrete instance of the primitives

    No cryptography: it shows that the laws can hold and lets the definitions be
    evaluated. *)
Module SampleCrypto.
Definition tag (k n : bytes) : bytes := take 16 (n ++ k ++ replicate 16 x00).

Definition sample_open (k n c : bytes) : option bytes :=
  let i := length c - 16 in
  if bool_decide (16 <= length c /\ drop i c = tag k n) then Some (take i c) else None.

#[export] Instance sample : Crypto := {
  seal _ k n p := Some (p ++ tag k n);
  open _ k n c := sample_open k n c;
  hkdf_sha1 s i f n := Some (take n (s ++ i ++ replicate n x00));
  md5 p := take 16 (p ++ replicate 16 x00)
}.

Lemma tag_length k n : length (tag k n) = 16.
Proof. unfold tag. rewrite length_take, !length_app, length_replicate. lia. Qed.

#[export] Instance sample_laws : CryptoLaws.
Proof.
  split; cbn.
  - intros _ k n p c [= <-]. unfold sample_open. rewrite length_app, tag_length, Nat.add_sub.
    rewrite bool_decide_true, take_app_length; [done|]. rewrite drop_app_length. split; [lia|done].
  - intros _ k n c p. unfold sample_open. case_bool_decide as H; [|done]. intros [= <-].
    rewrite length_take. lia.
  - eauto.
  - intros p. apply length_take_le. rewrite length_app. simpl. lia.
  - intros s i _ n _. eexists. split; [done|]. rewrite length_take, !length_app, length_replicate. lia.
Qed.

#[export] Instance sample_tight : TightAead.
Proof.
  split. cbn. intros _ k n p c. unfold sample_open. case_bool_decide as H; [|done]. intros [= <-].
  destruct H as [_ <-]. by rewrite take_drop.
Qed.
End SampleCrypto.

Import SampleCrypto.

Definition sample_target : TargetAddr := {| host := DomainName (str "example.com"); tport := 443 |}.
Definition sample_salt : bytes := map (fun n => Z2b (Z.of_nat n)) (seq 1 16).

Lemma ss_udp_packet_exact_witness :
  decode_udp_packet Aes128Gcm (str "pw")
    (match encode_udp_packet Aes128Gcm (str "pw") sample_target (str "hi") sample_salt with
     | Ok p => p | _ => [] end) = Ok (sample_target, str "hi").
Proof.
  apply ss_udp_packet_exact. split_and!; [by vm_compute| |].
  - apply Nat.leb_le. vm_compute. done.
  - exists sample_salt. vm_compute. done.
Defined.

Lemma pproxy_udp_roundtrip_witness :
  exists packet,
    encode_pproxy_udp_packet Aes128Gcm (str "pw") sample_target (str "hi") sample_salt = Ok packet /\
    decode_pproxy_udp_packet Aes128Gcm (str "pw") packet = Ok (sample_target, str "hi").
Proof.
  apply pproxy_udp_roundtrip; [by vm_compute|..]; apply Nat.leb_le || idtac; vm_compute; done || reflexivity.
Defined.

(** A damaged tag, a wrong password and a truncated packet are refused. *)
Example udp_packet_refusals :
  let p := match encode_udp_packet Aes128Gcm (str "pw") sample_target (str "hi") sample_salt with
           | Ok p => p | _ => [] end in
  decode_udp_packet Aes128Gcm (str "pw") (take (length p - 1) p ++ [x55]) = Err (DecryptionFailed "aead error") /\
  decode_udp_packet Aes256Gcm (str "pw") (take 20 p) = Err (DecryptionFailed "packet too short") /\
  parse_method (str "AES-256-GCM") = Ok Aes256Gcm /\
  parse_method (str "RC4-MD5-py!") = Err (LegacyMethodUnsupported (str "RC4-MD5-py!")).
Proof. vm_compute. done. Qed.

(** Every method is recovered from its printed name. *)
Lemma parse_method_name m : parse_method (method_name m) = Ok m.
Proof. by destruct m; vm_compute. Qed.
