(* ===== verification/ShadowsocksStream.v ===== *)
(** * The Shadowsocks AEAD stream

    Models [crates/eggress-protocol-shadowsocks/src/tcp_stream.rs]: the adapter
    that encrypts what is written and decrypts what is read, down to single polls
    of the inner stream ([Relay.stream]: what it answers to its successive polls).
    Random salts are arguments.

    A method takes the whole state and returns the new one with its result;
    [Ok None] is [Poll::Pending]. *)

From S2P Require Import Prelude Bytes Stream NetAddr Relay Shadowsocks.

(** [io::Error] as the adapter builds it or passes it on. *)
Inductive SsIoError :=
| SsInner (e : IoKind)
| SsInvalidData (e : ShadowsocksError)
| SsUnexpectedEof
| SsWriteZero
| SsOtherError (why : string).

Inductive ReadState := PeerSalt | LengthBlock | Payload (len : nat) | Closed.

Record ss_stream := {
  inner : stream;
  method : CipherMethod;
  write_subkey : bytes;
  write_cipher : option AeadCipher;
  read_subkey : option bytes;
  read_cipher : option AeadCipher;
  password_ikm : option bytes;
  send_write_salt : bool;
  write_nonce : NonceCounter;
  read_nonce : NonceCounter;
  read_plain : bytes;
  read_buf : bytes;
  read_state : ReadState;
  write_buf : bytes
}.

(** Updates of the fields the read side and the write side touch. *)
Definition upd_read (s : ss_stream) (i : stream) (nc : NonceCounter) (plain buf : bytes) (st : ReadState)
    : ss_stream :=
  {| inner := i; method := method s; write_subkey := write_subkey s; write_cipher := write_cipher s;
     read_subkey := read_subkey s; read_cipher := read_cipher s; password_ikm := password_ikm s;
     send_write_salt := send_write_salt s; write_nonce := write_nonce s; read_nonce := nc;
     read_plain := plain; read_buf := buf; read_state := st; write_buf := write_buf s |}.

Definition upd_keys (s : ss_stream) (k : bytes) (c : AeadCipher) : ss_stream :=
  {| inner := inner s; method := method s; write_subkey := write_subkey s; write_cipher := write_cipher s;
     read_subkey := Some k; read_cipher := Some c; password_ikm := password_ikm s;
     send_write_salt := send_write_salt s; write_nonce := write_nonce s; read_nonce := read_nonce s;
     read_plain := read_plain s; read_buf := []; read_state := LengthBlock; write_buf := write_buf s |}.

Definition upd_write (s : ss_stream) (i : stream) (nc : NonceCounter) (buf : bytes) : ss_stream :=
  {| inner := i; method := method s; write_subkey := write_subkey s; write_cipher := write_cipher s;
     read_subkey := read_subkey s; read_cipher := read_cipher s; password_ikm := password_ikm s;
     send_write_salt := send_write_salt s; write_nonce := nc; read_nonce := read_nonce s;
     read_plain := read_plain s; read_buf := read_buf s; read_state := read_state s; write_buf := buf |}.

Definition upd_salt (s : ss_stream) (k : bytes) (c : AeadCipher) (buf : bytes) : ss_stream :=
  {| inner := inner s; method := method s; write_subkey := k; write_cipher := Some c;
     read_subkey := read_subkey s; read_cipher := read_cipher s; password_ikm := password_ikm s;
     send_write_salt := false; write_nonce := write_nonce s; read_nonce := read_nonce s;
     read_plain := read_plain s; read_buf := read_buf s; read_state := read_state s; write_buf := buf |}.

Section stream.
Context `{HCr : !Crypto}.

(** ** Constructors *)

Definition new_with_nonces (i : stream) (m : CipherMethod) (subkey : bytes) (write_start read_start : Z)
    : outcome ShadowsocksError ss_stream :=
  let? wc := cipher_new m subkey in
  let? rc := cipher_new m subkey in
  Ok {| inner := i; method := m; write_subkey := subkey; write_cipher := Some wc;
        read_subkey := Some subkey; read_cipher := Some rc; password_ikm := None;
        send_write_salt := false; write_nonce := starting_at (nonce_size m) write_start;
        read_nonce := starting_at (nonce_size m) read_start; read_plain := []; read_buf := [];
        read_state := LengthBlock; write_buf := [] |}.

Definition new (i : stream) (m : CipherMethod) (subkey : bytes) : outcome ShadowsocksError ss_stream :=
  new_with_nonces i m subkey 0 0.

Definition new_client (i : stream) (m : CipherMethod) (wsubkey password : bytes)
    : outcome ShadowsocksError ss_stream :=
  let? wc := cipher_new m wsubkey in
  Ok {| inner := i; method := m; write_subkey := wsubkey; write_cipher := Some wc;
        read_subkey := None; read_cipher := None;
        password_ikm := Some (password_key_material password);
        send_write_salt := false; write_nonce := starting_at (nonce_size m) 2;
        read_nonce := starting_at (nonce_size m) 0; read_plain := []; read_buf := [];
        read_state := PeerSalt; write_buf := [] |}.

Definition new_server (i : stream) (m : CipherMethod) (rsubkey : bytes) (send_salt : bool) (password : bytes)
    : outcome ShadowsocksError ss_stream :=
  if negb send_salt then Err (SSOther "server streams must send a write salt") else
  let? rc := cipher_new m rsubkey in
  Ok {| inner := i; method := m; write_subkey := []; write_cipher := None;
        read_subkey := Some rsubkey; read_cipher := Some rc;
        password_ikm := Some (password_key_material password);
        send_write_salt := send_salt; write_nonce := starting_at (nonce_size m) 0;
        read_nonce := starting_at (nonce_size m) 2; read_plain := []; read_buf := [];
        read_state := LengthBlock; write_buf := [] |}.

Definition prepend_read_plaintext (s : ss_stream) (plaintext : bytes) : ss_stream :=
  if bool_decide (plaintext = []) then s
  else upd_read s (inner s) (read_nonce s) (read_plain s ++ plaintext) (read_buf s) (read_state s).

(** ** Reading *)

Inductive read_until_result := RuFull | RuEof | RuErr (e : IoKind) | RuPending.

(** [read_until]: every turn that goes on adds at least one byte, so the number of
    missing bytes bounds the turns. *)
Fixpoint read_until_loop (fuel : nat) (i : stream) (buf : bytes) (target : nat)
    : read_until_result * stream * bytes :=
  if negb (length buf <? target) then (RuFull, i, buf) else
  match fuel with
  | O => (RuPending, i, buf)
  | S f =>
      let '(a, i') := poll_read (target - length buf) i in
      match a with
      | RData [] => (RuEof, i', buf)
      | RData l => read_until_loop f i' (buf ++ l) target
      | RErr e => (RuErr e, i', buf)
      | RPending => (RuPending, i', buf)
      end
  end.
Definition read_until (i : stream) (buf : bytes) (target : nat) : read_until_result * stream * bytes :=
  read_until_loop (target - length buf) i buf target.

(** How a turn of the loop of [poll_read] ends: it goes on, or returns. *)
Inductive turn := Continue | Return (r : outcome SsIoError (option bytes)).

(** [map_err(..)?]: an error or panic of a step returns. *)
Definition step_ok {A} (f : ShadowsocksError -> SsIoError) (s : ss_stream) (m : outcome ShadowsocksError A)
    (k : A -> turn * ss_stream) : turn * ss_stream :=
  match m with
  | Ok a => k a
  | Err e => (Return (Err (f e)), s)
  | Panic => (Return Panic, s)
  end.

Definition other_error (e : ShadowsocksError) : SsIoError := SsOtherError "nonce".

Definition peer_salt_turn (s : ss_stream) : turn * ss_stream :=
  let n := salt_size (method s) in
  let '(r, i, buf) := read_until (inner s) (read_buf s) n in
  let put b := upd_read s i (read_nonce s) (read_plain s) b (read_state s) in
  match r with
  | RuEof => (Return (Ok (Some [])), put [])
  | RuErr e => (Return (Err (SsInner e)), put [])
  | RuPending => (Return (Ok None), put buf)
  | RuFull =>
      let salt := take n buf in
      let s := put (drop n buf) in
      match password_ikm s with
      | None => (Return (Err (SsOtherError "no password for subkey derivation")), s)
      | Some ikm =>
          step_ok SsInvalidData s (derive_key_from_ikm (method s) ikm salt) (fun k =>
          step_ok SsInvalidData s (cipher_new (method s) k) (fun c =>
          (Continue, upd_keys s k c)))
      end
  end.

Definition length_block_turn (s : ss_stream) : turn * ss_stream :=
  let n := 2 + tag_size (method s) in
  let '(r, i, buf) := read_until (inner s) (read_buf s) n in
  let put nc b st := upd_read s i nc (read_plain s) b st in
  match r with
  | RuEof => (Return (Ok (Some [])), put (read_nonce s) [] (read_state s))
  | RuErr e => (Return (Err (SsInner e)), put (read_nonce s) [] (read_state s))
  | RuPending => (Return (Ok None), put (read_nonce s) buf (read_state s))
  | RuFull =>
      let s1 := put (read_nonce s) buf (read_state s) in
      match read_cipher s with
      | None => (Return (Err (SsOtherError "read cipher not yet derived")), s1)
      | Some c =>
          step_ok other_error s1 (current (read_nonce s) 12) (fun nonce =>
          step_ok SsInvalidData s1
            (let? block := slice_to buf n in cipher_decrypt c nonce block) (fun pt =>
          step_ok other_error s1 (advance (read_nonce s)) (fun nc =>
          match pt with
          | [hi; lo] =>
              let payload_len := Z.to_nat (u16_from_be hi lo) in
              if MAX_CHUNK_PAYLOAD <? payload_len
              then (Return (Err (SsInvalidData (DecryptionFailed "payload length exceeds maximum"))),
                    put nc [] (read_state s))
              else if (payload_len =? 0)%nat then (Return (Ok (Some [])), put nc [] Closed)
              else (Continue, put nc [] (Payload payload_len))
          | _ => (Return (Err (SsInvalidData (DecryptionFailed "invalid length block plaintext"))),
                  put nc [] (read_state s))
          end)))
      end
  end.

Definition payload_turn (cap len : nat) (s : ss_stream) : turn * ss_stream :=
  let n := len + tag_size (method s) in
  let '(r, i, buf) := read_until (inner s) (read_buf s) n in
  let put nc plain b st := upd_read s i nc plain b st in
  match r with
  | RuEof | RuErr _ =>
      (Return (Err SsUnexpectedEof), put (read_nonce s) (read_plain s) [] LengthBlock)
  | RuPending => (Return (Ok None), put (read_nonce s) (read_plain s) buf (read_state s))
  | RuFull =>
      let s1 := put (read_nonce s) (read_plain s) buf (read_state s) in
      match read_cipher s with
      | None => (Return (Err (SsOtherError "read cipher not yet derived")), s1)
      | Some c =>
          step_ok other_error s1 (current (read_nonce s) 12) (fun nonce =>
          step_ok SsInvalidData s1 (cipher_decrypt c nonce buf) (fun pt =>
          step_ok other_error s1 (advance (read_nonce s)) (fun nc =>
          if length pt <=? cap
          then (Return (Ok (Some pt)), put nc (read_plain s) [] LengthBlock)
          else
            let plain := read_plain s ++ pt in
            let k := min (length plain) cap in
            (Return (Ok (Some (take k plain))), put nc (drop k plain) [] LengthBlock))))
      end
  end.

(** [poll_read] into a buffer with [cap] bytes left.  The states only move
    forward within a call, so three turns are enough. *)
Fixpoint read_loop (fuel cap : nat) (s : ss_stream) : outcome SsIoError (option bytes) * ss_stream :=
  match fuel with
  | O => (Panic, s)
  | S f =>
      let '(t, s') :=
        match read_state s with
        | Closed => (Return (Ok (Some [])), s)
        | PeerSalt => peer_salt_turn s
        | LengthBlock => length_block_turn s
        | Payload len => payload_turn cap len s
        end in
      match t with
      | Return r => (r, s')
      | Continue => read_loop f cap s'
      end
  end.

Definition ss_poll_read (cap : nat) (s : ss_stream) : outcome SsIoError (option bytes) * ss_stream :=
  if bool_decide (read_plain s = []) then read_loop 3 cap s
  else
    let n := min (length (read_plain s)) cap in
    (Ok (Some (take n (read_plain s))),
     upd_read s (inner s) (read_nonce s) (drop n (read_plain s)) (read_buf s) (read_state s)).

(** ** Writing *)

Inductive flush_result := FlDone | FlZero | FlErr (e : IoKind) | FlPending.

(** [while !this.write_buf.is_empty() { .. }]: every turn that goes on sends at
    least one byte. *)
Fixpoint flush_loop (fuel : nat) (i : stream) (buf : bytes) : flush_result * stream * bytes :=
  if bool_decide (buf = []) then (FlDone, i, buf) else
  match fuel with
  | O => (FlPending, i, buf)
  | S f =>
      let '(a, i') := poll_write buf i in
      match a with
      | WAccept 0 => (FlZero, i', buf)
      | WAccept n => flush_loop f i' (drop n buf)
      | WErr e => (FlErr e, i', buf)
      | WPending => (FlPending, i', buf)
      end
  end.
Definition flush_buf (s : ss_stream) : flush_result * ss_stream :=
  let '(r, i, buf) := flush_loop (length (write_buf s)) (inner s) (write_buf s) in
  (r, upd_write s i (write_nonce s) buf).

(** The first block of [poll_write]: generate and queue the salt. *)
Definition send_salt_block (rng : bytes) (s : ss_stream) : outcome SsIoError unit * ss_stream :=
  if send_write_salt s then
    match password_ikm s with
    | None => (Err (SsOtherError "no password for subkey derivation"), s)
    | Some ikm =>
        match derive_key_from_ikm (method s) ikm rng with
        | Ok k =>
            match cipher_new (method s) k with
            | Ok c => (Ok tt, upd_salt s k c (write_buf s ++ rng))
            | Err e => (Err (SsInvalidData e), s)
            | Panic => (Panic, s)
            end
        | Err e => (Err (SsInvalidData e), s)
        | Panic => (Panic, s)
        end
    end
  else (Ok tt, s).

(** Encrypt one chunk and queue it; the nonce has moved on when a later step fails. *)
Definition queue_chunk (chunk : bytes) (s : ss_stream) : outcome SsIoError unit * ss_stream :=
  match write_cipher s with
  | None => (Err (SsOtherError "write cipher not yet derived"), s)
  | Some c =>
      match current (write_nonce s) 12 with
      | Ok len_nonce =>
          match cipher_encrypt c len_nonce (len_bytes (length chunk)) with
          | Ok len_ct =>
              match advance (write_nonce s) with
              | Ok nc1 =>
                  let s1 := upd_write s (inner s) nc1 (write_buf s) in
                  match current nc1 12 with
                  | Ok payload_nonce =>
                      match cipher_encrypt c payload_nonce chunk with
                      | Ok payload_ct =>
                          match advance nc1 with
                          | Ok nc2 =>
                              (Ok tt, upd_write s (inner s) nc2 (write_buf s ++ len_ct ++ payload_ct))
                          | Err e => (Err (other_error e), s1)
                          | Panic => (Panic, s1)
                          end
                      | Err e => (Err (SsInvalidData e), s1)
                      | Panic => (Panic, s1)
                      end
                  | Err e => (Err (other_error e), s1)
                  | Panic => (Panic, s1)
                  end
              | Err e => (Err (other_error e), s)
              | Panic => (Panic, s)
              end
          | Err e => (Err (SsInvalidData e), s)
          | Panic => (Panic, s)
          end
      | Err e => (Err (other_error e), s)
      | Panic => (Panic, s)
      end
  end.

(** [poll_write(buf)]; [rng] is the salt the generator would return. *)
Definition ss_poll_write (rng buf : bytes) (s : ss_stream) : outcome SsIoError (option nat) * ss_stream :=
  match send_salt_block rng s with
  | (Ok _, s) =>
      match flush_buf s with
      | (FlZero, s) => (Err SsWriteZero, s)
      | (FlErr e, s) => (Err (SsInner e), s)
      | (FlPending, s) => (Ok None, s)
      | (FlDone, s) =>
          let chunk_size := min (length buf) MAX_CHUNK_PAYLOAD in
          if (chunk_size =? 0)%nat then (Ok (Some 0), s)
          else match queue_chunk (take chunk_size buf) s with
          | (Ok _, s) =>
              match flush_buf s with
              | (FlZero, s) => (Err SsWriteZero, s)
              | (FlErr e, s) => (Err (SsInner e), s)
              | (FlDone, s) | (FlPending, s) => (Ok (Some chunk_size), s)
              end
          | (Err e, s) => (Err e, s)
          | (Panic, s) => (Panic, s)
          end
      end
  | (Err e, s) => (Err e, s)
  | (Panic, s) => (Panic, s)
  end.

(** [poll_flush]; [a] is what the inner stream answers to its own flush. *)
Definition ss_poll_flush (a : shutdown_answer) (s : ss_stream) : outcome SsIoError (option unit) * ss_stream :=
  match flush_buf s with
  | (FlZero, s) => (Err SsWriteZero, s)
  | (FlErr e, s) => (Err (SsInner e), s)
  | (FlPending, s) => (Ok None, s)
  | (FlDone, s) =>
      match a with
      | ShutOk => (Ok (Some tt), s)
      | ShutErr e => (Err (SsInner e), s)
      | ShutPending => (Ok None, s)
      end
  end.

Definition ss_poll_shutdown (s : ss_stream) : outcome SsIoError (option unit) * ss_stream :=
  match flush_buf s with
  | (FlZero, s) => (Err SsWriteZero, s)
  | (FlErr e, s) => (Err (SsInner e), s)
  | (FlPending, s) => (Ok None, s)
  | (FlDone, s) =>
      let '(a, i) := poll_shutdown (inner s) in
      let s := upd_write s i (write_nonce s) (write_buf s) in
      match a with
      | ShutOk => (Ok (Some tt), s)
      | ShutErr e => (Err (SsInner e), s)
      | ShutPending => (Ok None, s)
      end
  end.
End stream.

(** ** The inner stream *)

(** What reading and writing leave of the inner stream's record. *)
Lemma poll_read_io cap i a i' :
  poll_read cap i = (a, i') ->
  s_taken i' = s_taken i ++ match a with RData l => l | _ => [] end /\
  s_given i' = s_given i /\ match a with RData l => length l <= cap | _ => True end.
Proof.
  unfold poll_read. intros [= <- <-]. cbn [s_taken s_given].
  destruct (s_read i (n_read i)); cbn; split_and!; try done. rewrite length_take. lia.
Qed.

Lemma poll_write_io buf i a i' :
  poll_write buf i = (a, i') ->
  s_taken i' = s_taken i /\
  s_given i' = s_given i ++ match a with WAccept n => take n buf | _ => [] end.
Proof. unfold poll_write. by intros [= <- <-]. Qed.

Lemma poll_shutdown_io i a i' :
  poll_shutdown i = (a, i') -> s_taken i' = s_taken i /\ s_given i' = s_given i.
Proof. unfold poll_shutdown. by intros [= <- <-]. Qed.

Lemma read_until_loop_io fuel : forall i buf target r i' buf',
  target - length buf <= fuel -> length buf <= target ->
  read_until_loop fuel i buf target = (r, i', buf') ->
  exists l, buf' = buf ++ l /\ s_taken i' = s_taken i ++ l /\ s_given i' = s_given i /\
    (r = RuFull /\ length buf' = target \/ r <> RuFull /\ length buf' < target).
Proof.
  induction fuel as [|f IH]; intros i buf target r i' buf' Hf Hb H; cbn [read_until_loop] in H;
    destruct (Nat.ltb_spec (length buf) target) as [Hlt|Hge]; cbn [negb] in H; try lia;
    try (injection H as <- <- <-; exists []; rewrite !app_nil_r; split_and!; try done; left; split; [done|lia]).
  destruct (poll_read (target - length buf) i) as [a i1] eqn:Hp.
  apply poll_read_io in Hp as (Ht & Hg & Hl).
  assert (forall r0, r0 <> RuFull -> (r0, i1, buf) = (r, i', buf') -> s_taken i1 = s_taken i ++ [] ->
    exists l, buf' = buf ++ l /\ s_taken i' = s_taken i ++ l /\ s_given i' = s_given i /\
    (r = RuFull /\ length buf' = target \/ r <> RuFull /\ length buf' < target)) as Hstop.
  { intros r0 Hr [= <- <- <-] Ht0. exists []. rewrite app_nil_r. split_and!; try done. by right. }
  destruct a as [[|b l]|e|]; try (eapply Hstop; [|exact H|exact Ht]; done).
  apply IH in H as (l' & -> & Ht' & Hg' & Hr); [|rewrite length_app; cbn [length] in *; lia..].
  exists ((b :: l) ++ l'). rewrite Ht', Ht, Hg', Hg, !app_assoc. done.
Qed.

(** [read_until] appends what it takes, and says [RuFull] exactly when it has
    enough; it never takes too much. *)
Lemma read_until_io i buf target r i' buf' :
  length buf <= target -> read_until i buf target = (r, i', buf') ->
  exists l, buf' = buf ++ l /\ s_taken i' = s_taken i ++ l /\ s_given i' = s_given i /\
    (r = RuFull /\ length buf' = target \/ r <> RuFull /\ length buf' < target).
Proof. intros Hb. by apply read_until_loop_io. Qed.

Lemma flush_loop_io fuel : forall i buf r i' buf',
  length buf <= fuel -> flush_loop fuel i buf = (r, i', buf') ->
  s_taken i' = s_taken i /\ s_given i' ++ buf' = s_given i ++ buf /\ (r = FlDone -> buf' = []).
Proof.
  induction fuel as [|f IH]; intros i buf r i' buf' Hf H; cbn [flush_loop] in H;
    (case_bool_decide as Hb; [injection H as <- <- <-; by split_and!|]).
  { destruct buf; cbn [length] in *; [done|lia]. }
  destruct (poll_write buf i) as [a i1] eqn:Hp. apply poll_write_io in Hp as (Ht & Hg).
  destruct a as [[|n]|e|]; try (injection H as <- <- <-; rewrite Hg, ?take_0, app_nil_r; by split_and!).
  apply IH in H as (Ht' & Hg' & Hd); [|rewrite length_drop; destruct buf; cbn [length] in *; [done|lia]].
  split_and!; [congruence| |done]. by rewrite Hg', Hg, <- app_assoc, take_drop.
Qed.

Lemma flush_buf_io s r s' :
  flush_buf s = (r, s') ->
  exists i buf, s' = upd_write s i (write_nonce s) buf /\ s_taken i = s_taken (inner s) /\
    s_given i ++ buf = s_given (inner s) ++ write_buf s /\ (r = FlDone -> buf = []).
Proof.
  unfold flush_buf. destruct (flush_loop _ _ _) as [[r0 i] buf] eqn:E. intros [= <- <-].
  apply flush_loop_io in E as (? & ? & ?); [|done]. eauto 10.
Qed.

(** ** The read side *)

Section reader.
Context `{HCr : !Crypto, HLaws : !CryptoLaws, HTight : !TightAead}.

Lemma advance_ok n n' :
  advance n = Ok n' <-> n' = {| nc_size := nc_size n; counter := counter n + 1 |} /\ (counter n + 1 < 2 ^ 64)%Z.
Proof. unfold advance. destruct (Z.ltb_spec (counter n + 1) (2 ^ 64)); naive_solver lia. Qed.

Lemma advance_fwd n :
  (counter n + 1 < 2 ^ 64)%Z -> advance n = Ok {| nc_size := nc_size n; counter := counter n + 1 |}.
Proof. intros H. by apply advance_ok. Qed.

Lemma advance_no_panic n : advance n <> Panic.
Proof. unfold advance. by destruct (_ <? _)%Z. Qed.

Lemma cipher_decrypt_seal_at c z p b :
  seal_at c z p = Some b -> cipher_decrypt c (nonce_at z) b = Ok p.
Proof.
  intros H. apply cipher_decrypt_ok. split; [apply nonce_at_length|]. by apply open_seal.
Qed.

Abbreviation taken s := (s_taken (inner s)).
Abbreviation next_nonce start chunks := (start + 2 * Z.of_nat (length chunks))%Z.

(** Projections of an updated state. *)
Ltac proj :=
  cbn [upd_read upd_keys upd_write upd_salt inner method write_subkey write_cipher read_subkey read_cipher
       password_ikm send_write_salt write_nonce read_nonce read_plain read_buf read_state write_buf
       nc_size counter length].

(** A payload the writer sends. *)
Definition chunk_ok (p : bytes) : Prop := 0 < length p <= MAX_CHUNK_PAYLOAD.

(** [keyed_inv c start base s chunks w]: the reader, keyed with [c], has consumed
    the preamble [base] and the frames [w] of the payloads [chunks] under the
    nonces from [start] on, and is somewhere in the next frame. *)
Definition keyed_inv (c : AeadCipher) (start : Z) (base : bytes) (s : ss_stream) (chunks : list bytes)
    (w : bytes) : Prop :=
  read_cipher s = Some c /\ nc_size (read_nonce s) = 12 /\
  (0 <= counter (read_nonce s) < 2 ^ 64)%Z /\ frames c start chunks = Some w /\
  Forall chunk_ok chunks /\
  match read_state s with
  | LengthBlock =>
      counter (read_nonce s) = next_nonce start chunks /\ taken s = base ++ w ++ read_buf s /\
      length (read_buf s) <= 18
  | Payload n =>
      counter (read_nonce s) = (next_nonce start chunks + 1)%Z /\ 0 < n <= MAX_CHUNK_PAYLOAD /\
      length (read_buf s) <= n + 16 /\
      exists a, seal_at c (next_nonce start chunks) (len_bytes n) = Some a /\
        taken s = base ++ w ++ a ++ read_buf s
  | _ => False
  end.

(** How a turn that returns leaves the stream. *)
Definition turn_post c start base (s s' : ss_stream) chunks w (t : turn) : Prop :=
  match t with
  | Continue => keyed_inv c start base s' chunks w /\ read_plain s' = read_plain s
  | Return (Ok None) => keyed_inv c start base s' chunks w /\ read_plain s' = read_plain s
  | Return (Ok (Some [])) =>
      read_plain s' = read_plain s /\ exists part, taken s' = base ++ w ++ part /\ length part <= 18
  | Return (Ok (Some _)) => False
  | Return (Err (SsInvalidData _)) =>
      exists block, length block = 18 /\ taken s' = base ++ w ++ block /\
        forall n, 0 < n <= MAX_CHUNK_PAYLOAD -> seal_at c (next_nonce start chunks) (len_bytes n) <> Some block
  | Return (Err _) => True
  | Return Panic => False
  end.

Lemma length_block_turn_post c start base s chunks w t s' :
  keyed_inv c start base s chunks w -> read_state s = LengthBlock -> length_block_turn s = (t, s') ->
  turn_post c start base s s' chunks w t /\ (t = Continue -> exists n, read_state s' = Payload n).
Proof.
  intros (Hc & Hsz & Hcnt & Hf & Hok & Hst) Hs. rewrite Hs in Hst. destruct Hst as (Hn & Ht & Hb).
  unfold length_block_turn. change (2 + tag_size (method s)) with 18.
  destruct (read_until (inner s) (read_buf s) 18) as [[r i] buf] eqn:E.
  apply read_until_io in E as (l & -> & Hti & _ & Hr); [|done].
  rewrite Ht, <- !app_assoc in Hti. destruct r; intros H; cycle 1.
  { injection H as <- <-. split; [|done]. split; [done|]. exists (read_buf s ++ l). split; [done|].
    destruct Hr as [[??]|[_ ?]]; [done|lia]. }
  { by injection H as <- <-. }
  { injection H as <- <-. split; [|done]. split; [|done].
    destruct Hr as [[??]|[_ ?]]; [done|]. repeat split; try done; proj; [lia..|].
    rewrite Hs. split_and!; [done|done|lia]. }
  destruct Hr as [[_ Hlen]|[? _]]; [|done].
  rewrite Hc, (current_nonce_at _ Hsz Hcnt) in H. cbn [step_ok] in H.
  rewrite (proj2 (slice_to_ok (read_buf s ++ l) 18 (read_buf s ++ l))) in H
    by (split; [lia|by rewrite take_ge by lia]). cbn [obind] in H.
  destruct (cipher_decrypt c _ (read_buf s ++ l)) as [pt|e|] eqn:Hd; cbn [step_ok] in H.
  - pose proof (cipher_decrypt_length _ _ _ _ Hd) as Hpl.
    apply cipher_decrypt_ok in Hd as [_ Hd]. apply seal_open in Hd. rewrite Hn in Hd.
    destruct (advance (read_nonce s)) as [nc|e|] eqn:Ha; cbn [step_ok] in H;
      [|by injection H as <- <-|by apply advance_no_panic in Ha].
    apply advance_ok in Ha as [-> Hov].
    destruct pt as [|hi [|lo [|]]]; cbn [length] in Hpl; try lia.
    rewrite (len_bytes_inv hi lo) in Hd. guard_in H; bool_to_prop.
    + injection H as <- <-. split; [|done]. exists (read_buf s ++ l). split_and!; [done|done|].
      intros n Hn' Hx. unfold seal_at in Hx. apply open_seal in Hx, Hd.
      assert (len_bytes n = [hi; lo]) as Hlb by (rewrite (len_bytes_inv hi lo); congruence).
      destruct (len_bytes_value n) as (hi' & lo' & E1 & E2).
      { unfold MAX_CHUNK_PAYLOAD in Hn'. lia. }
      rewrite E1 in Hlb. injection Hlb as -> ->. lia.
    + guard_in H; bool_to_prop; injection H as <- <-.
      * split; [|done]. split; [done|]. exists (read_buf s ++ l). split; [done|lia].
      * split; [|intros _; by eexists]. split; [|done]. repeat split; proj; try done; [lia..|].
        exists (read_buf s ++ l). split; [done|]. by rewrite app_nil_r.
  - injection H as <- <-. split; [|done]. destruct (SsInvalidData e) eqn:Ee; try done.
    exists (read_buf s ++ l). split_and!; [done|done|]. intros n _ Hx. 
    apply cipher_decrypt_seal_at in Hx. by rewrite Hn, Hx in Hd.
  - by apply cipher_decrypt_no_panic in Hd; [|apply nonce_at_length].
Qed.

Definition payload_post c start base cap (s s' : ss_stream) chunks w (t : turn) : Prop :=
  match t with
  | Continue => False
  | Return (Ok None) => keyed_inv c start base s' chunks w /\ read_plain s' = read_plain s
  | Return (Ok (Some l)) =>
      (0 < cap -> l <> []) /\
      exists p w', keyed_inv c start base s' (chunks ++ [p]) w' /\
        read_plain s ++ p = l ++ read_plain s'
  | Return (Err (SsInvalidData _)) =>
      exists n a block, seal_at c (next_nonce start chunks) (len_bytes n) = Some a /\
        0 < n <= MAX_CHUNK_PAYLOAD /\
        length block = n + 16 /\ taken s' = base ++ w ++ a ++ block /\
        forall p, seal_at c (next_nonce start chunks + 1) p <> Some block
  | Return (Err _) => True
  | Return Panic => False
  end.

Lemma payload_turn_post c start base cap s chunks w n t s' :
  keyed_inv c start base s chunks w -> read_state s = Payload n -> read_plain s = [] ->
  payload_turn cap n s = (t, s') -> payload_post c start base cap s s' chunks w t.
Proof.
  intros (Hc & Hsz & Hcnt & Hf & Hok & Hst) Hs Hpl. rewrite Hs in Hst.
  destruct Hst as (Hn & Hn' & Hb & a & Ha & Ht).
  unfold payload_turn. change (n + tag_size (method s)) with (n + 16).
  destruct (read_until (inner s) (read_buf s) (n + 16)) as [[r i] buf] eqn:E.
  apply read_until_io in E as (l & -> & Hti & _ & Hr); [|done].
  rewrite Ht, <- !app_assoc in Hti. destruct r; intros H; cycle 1.
  1,2: by injection H as <- <-.
  { injection H as <- <-. split; [|done]. destruct Hr as [[??]|[_ ?]]; [done|].
    repeat split; try done; proj; [lia..|]. rewrite Hs. split_and!; [done|lia..|]. by exists a. }
  destruct Hr as [[_ Hlen]|[? _]]; [|done].
  rewrite Hc, (current_nonce_at _ Hsz Hcnt) in H. cbn [step_ok] in H.
  destruct (cipher_decrypt c _ (read_buf s ++ l)) as [pt|e|] eqn:Hd; cbn [step_ok] in H.
  - pose proof (cipher_decrypt_length _ _ _ _ Hd) as Hptl.
    apply cipher_decrypt_ok in Hd as [_ Hd]. apply seal_open in Hd. rewrite Hn in Hd.
    destruct (advance (read_nonce s)) as [nc|e|] eqn:Hadv; cbn [step_ok] in H;
      [|by injection H as <- <-|by apply advance_no_panic in Hadv].
    apply advance_ok in Hadv as [-> Hov].
    assert (frames c start (chunks ++ [pt]) = Some (w ++ a ++ (read_buf s ++ l))) as Hfr.
    { apply (frames_app c start chunks [pt]); [done|]. cbn [frames]. unfold frame.
      replace (length pt) with n by lia. rewrite Ha. cbn [mbind option_bind].
      unfold seal_at at 1. rewrite Hd. cbn. by rewrite app_nil_r. }
    assert (forall plain, keyed_inv c start base
      (upd_read s i {| nc_size := nc_size (read_nonce s); counter := counter (read_nonce s) + 1 |}
         plain [] LengthBlock) (chunks ++ [pt]) (w ++ a ++ (read_buf s ++ l))) as Hinv.
    { intros plain. repeat split; proj; try done; [lia..| | |by rewrite app_nil_r|lia];
        [apply Forall_app_2; [done|]; constructor; [unfold chunk_ok; lia|constructor]|].
      rewrite length_app. cbn [length]. lia. }
    rewrite Hpl in *. cbn [app] in H. guard_in H; bool_to_prop; injection H as <- <-.
    + split; [intros _ ->; simpl in *; lia|]. eexists pt, _. split_and!; [apply Hinv|].
      cbn [read_plain upd_read]. by rewrite ?Hpl, app_nil_r.
    + split; [|eexists pt, _; split_and!; [apply Hinv|]].
      * intros Hcap Hx. apply (f_equal length) in Hx. rewrite length_take in Hx. simpl in Hx. lia.
      * cbn [read_plain upd_read]. by rewrite ?Hpl, take_drop.
  - injection H as <- <-. exists n, a, (read_buf s ++ l). split_and!; [done|lia..|done|].
    intros p Hx. apply cipher_decrypt_seal_at in Hx. by rewrite Hn, Hx in Hd.
  - by apply cipher_decrypt_no_panic in Hd; [|apply nonce_at_length].
Qed.

(** [forged c z x]: no honest continuation under the nonces from [z] on starts with [x]. *)
Definition forged (c : AeadCipher) (z : Z) (x : bytes) : Prop :=
  forall rest wr, Forall chunk_ok rest -> frames c z rest = Some wr -> ~ x `prefix_of` wr.

(** The frames of a non-empty list start with a length block and a payload block. *)
Lemma frames_cons_inv c z p rest wr :
  frames c z (p :: rest) = Some wr ->
  exists a b wr', seal_at c z (len_bytes (length p)) = Some a /\ seal_at c (z + 1) p = Some b /\
    frames c (z + 2) rest = Some wr' /\ wr = a ++ b ++ wr' /\ length a = 18 /\ length b = length p + 16.
Proof.
  cbn [frames]. unfold frame. intros H.
  destruct (seal_at c z _) as [a|] eqn:Ha; [|done]. cbn [mbind option_bind] in H.
  destruct (seal_at c (z + 1) p) as [b|] eqn:Hb; [|done]. cbn [mbind option_bind] in H.
  destruct (frames c (z + 2) rest) as [wr'|] eqn:Hr; [|done]. injection H as <-.
  pose proof (open_length _ _ _ _ _ (open_seal _ _ _ _ _ Ha)).
  pose proof (open_length _ _ _ _ _ (open_seal _ _ _ _ _ Hb)).
  exists a, b, wr'. rewrite <- app_assoc. split_and!; done.
Qed.

Lemma seal_at_len_inj c z n1 n2 a :
  n1 < Z.to_nat 65536 -> n2 < Z.to_nat 65536 ->
  seal_at c z (len_bytes n1) = Some a -> seal_at c z (len_bytes n2) = Some a -> n1 = n2.
Proof.
  intros H1 H2 Ha Hb. apply open_seal in Ha, Hb.
  destruct (len_bytes_value n1 H1) as (h1 & l1 & E1 & <-).
  destruct (len_bytes_value n2 H2) as (h2 & l2 & E2 & <-). congruence.
Qed.

Lemma forged_length_block c z block :
  length block = 18 ->
  (forall n, 0 < n <= MAX_CHUNK_PAYLOAD -> seal_at c z (len_bytes n) <> Some block) -> forged c z block.
Proof.
  intros Hl Hb [|p rest] wr Hok Hf [x Hx].
  { injection Hf as <-. by destruct block. }
  apply frames_cons_inv in Hf as (a & b & wr' & Ha & _ & _ & -> & Hla & _).
  inversion_clear Hok as [|?? Hp _]. apply app_inj_1 in Hx as [<- _]; [|lia]. by apply (Hb (length p)).
Qed.

Lemma forged_payload_block c z n a block :
  seal_at c z (len_bytes n) = Some a -> 0 < n <= MAX_CHUNK_PAYLOAD -> length block = n + 16 ->
  (forall p, seal_at c (z + 1) p <> Some block) -> forged c z (a ++ block).
Proof.
  intros Ha Hn Hl Hb [|p rest] wr Hok Hf [x Hx]; pose proof (open_length _ _ _ _ _ (open_seal _ _ _ _ _ Ha)) as Hla.
  { injection Hf as <-. by destruct a. }
  apply frames_cons_inv in Hf as (a' & b & wr' & Ha' & Hb' & _ & -> & Hla' & Hlb).
  inversion_clear Hok as [|?? Hp _]. rewrite <- app_assoc in Hx.
  apply app_inj_1 in Hx as [-> Hx]; [|by rewrite Hla, Hla'].
  assert (length p = n) as Hpn.
  { unfold chunk_ok, MAX_CHUNK_PAYLOAD in *. eapply (seal_at_len_inj c z); [lia..|done|done]. }
  apply app_inj_1 in Hx as [-> _]; [|lia]. by apply (Hb p).
Qed.

(** One [poll_read] of a keyed reader. *)
Definition read_post c start base (s s' : ss_stream) chunks w (cap : nat)
    (r : outcome SsIoError (option bytes)) : Prop :=
  match r with
  | Ok None => keyed_inv c start base s' chunks w /\ read_plain s' = read_plain s
  | Ok (Some l) =>
      (exists chunks' w', keyed_inv c start base s' (chunks ++ chunks') w' /\
         read_plain s ++ mjoin chunks' = l ++ read_plain s' /\ (0 < cap -> l <> [])) \/
      (l = [] /\ read_plain s = [] /\ read_plain s' = [] /\
       exists part, taken s' = base ++ w ++ part /\ length part <= 18)
  | Err (SsInvalidData _) => exists x, taken s' = base ++ w ++ x /\ forged c (next_nonce start chunks) x
  | Err _ => True
  | Panic => False
  end.

Lemma payload_loop_post c start base cap s chunks w n fuel r s' :
  keyed_inv c start base s chunks w -> read_state s = Payload n -> read_plain s = [] ->
  read_loop (S fuel) cap s = (r, s') -> read_post c start base s s' chunks w cap r.
Proof.
  intros Hk Hs Hp H. cbn [read_loop] in H. rewrite Hs in H.
  destruct (payload_turn cap n s) as [t s1] eqn:E.
  eapply payload_turn_post in E; [|done..]. unfold payload_post, read_post in *.
  destruct t as [|r']; [done|]. injection H as <- <-.
  destruct r' as [[l|]|[| | | |]|]; try done.
  - destruct E as (Hne & p & w' & Hk' & Hpl). left. exists [p], w'.
    change (mjoin [p]) with (p ++ []). rewrite app_nil_r. by split_and!.
  - destruct E as (m & a & block & Ha & Hm & Hb & Ht & Hf). exists (a ++ block).
    split; [done|]. by eapply forged_payload_block.
Qed.

Lemma length_loop_post c start base cap s chunks w fuel r s' :
  keyed_inv c start base s chunks w -> read_state s = LengthBlock -> read_plain s = [] ->
  read_loop (S (S fuel)) cap s = (r, s') -> read_post c start base s s' chunks w cap r.
Proof.
  intros Hk Hs Hp H. cbn [read_loop] in H. rewrite Hs in H.
  destruct (length_block_turn s) as [t s1] eqn:E.
  eapply length_block_turn_post in E as [E Hc]; [|done..]. unfold turn_post in E.
  destruct t as [|r'].
  - destruct E as [Hk1 Hp1], (Hc eq_refl) as [n Hn]. rewrite Hp in Hp1.
    eapply (payload_loop_post c start base cap s1 chunks w n fuel r s') in H; [|done..].
    unfold read_post in *. rewrite Hp1 in H. by rewrite Hp.
  - injection H as <- <-. unfold read_post. destruct r' as [[[|]|]|[| | | |]|]; try done.
    + right. destruct E as [Hp1 He]. rewrite Hp in Hp1. by split_and!.
    + destruct E as (block & Hl & Ht & Hf). exists block. split; [done|]. by apply forged_length_block.
Qed.

Lemma poll_read_keyed c start base cap s chunks w r s' :
  keyed_inv c start base s chunks w -> ss_poll_read cap s = (r, s') ->
  read_post c start base s s' chunks w cap r.
Proof.
  intros Hk. unfold ss_poll_read. case_bool_decide as Hp.
  - assert (Hk' := Hk). destruct Hk' as (_ & _ & _ & _ & _ & Hst).
    destruct (read_state s) eqn:Hs; try done; clear Hst; intros H;
      [by eapply length_loop_post|by eapply payload_loop_post].
  - intros [= <- <-]. left. exists [], w. rewrite !app_nil_r. split_and!; [exact Hk| |].
    + cbn. by rewrite take_drop.
    + intros Hcap Hx. apply (f_equal length) in Hx. rewrite length_take in Hx.
      destruct (read_plain s); [done|]. cbn [length] in Hx. lia.
Qed.
(** Two lists of frames under the same nonces, one a prefix of the other. *)
Lemma frames_prefix c l1 : forall z l2 w1 w2,
  Forall chunk_ok l1 -> Forall chunk_ok l2 -> frames c z l1 = Some w1 -> frames c z l2 = Some w2 ->
  w1 `prefix_of` w2 ->
  exists rest wr, l2 = l1 ++ rest /\ frames c (next_nonce z l1) rest = Some wr /\ w2 = w1 ++ wr.
Proof.
  induction l1 as [|p l1 IH]; intros z l2 w1 w2 H1 H2 Hf1 Hf2 [x ->].
  { injection Hf1 as <-. exists l2, x. split_and!; [done| |done]. cbn [length]. by rewrite Z.mul_0_r, Z.add_0_r. }
  apply frames_cons_inv in Hf1 as (a & b & w & Ha & Hb & Hw & -> & Hla & Hlb).
  destruct l2 as [|q l2]; [injection Hf2 as Hf2; by destruct a|].
  apply frames_cons_inv in Hf2 as (a' & b' & w' & Ha' & Hb' & Hw' & E & Hla' & Hlb').
  inversion_clear H1 as [|?? Hp Hl1]. inversion_clear H2 as [|?? Hq Hl2].
  rewrite <- !app_assoc in E. apply app_inj_1 in E as [<- E]; [|lia].
  assert (length p = length q) as Hpq.
  { unfold chunk_ok, MAX_CHUNK_PAYLOAD in *. eapply (seal_at_len_inj c z); [lia..|done|done]. }
  apply app_inj_1 in E as [<- E]; [|lia].
  assert (p = q) as <-. { apply open_seal in Hb, Hb'. congruence. }
  destruct (IH (z + 2)%Z l2 w w' Hl1 Hl2 Hw Hw') as (rest & wr & -> & Hr & ->); [by exists x|].
  exists rest, wr. split_and!; [done| |by rewrite <- !app_assoc, E].
  rewrite <- Hr. f_equal. cbn [length]. lia.
Qed.

(** ** Where a direction's key comes from

    [Keyed c z base]: the key was fixed when [base] had gone over the wire and the
    first frame uses nonce [z]; [FromSalt m ikm base]: a salt follows [base] and
    the key is derived from it. *)
Inductive key_source :=
| Keyed (c : AeadCipher) (z : Z) (base : bytes)
| FromSalt (m : CipherMethod) (ikm base : bytes).

Inductive keyed_by : key_source -> AeadCipher -> Z -> bytes -> Prop :=
| keyed_direct c z base : keyed_by (Keyed c z base) c z base
| keyed_salt m ikm base salt k :
    length salt = salt_size m -> derive_key_from_ikm m ikm salt = Ok k ->
    keyed_by (FromSalt m ikm base) {| ac_method := m; ac_key := k |} 0 (base ++ salt).

(** The source determines the key from what goes over the wire. *)
Lemma keyed_by_det src c1 z1 b1 c2 z2 b2 x y :
  keyed_by src c1 z1 b1 -> keyed_by src c2 z2 b2 -> b1 ++ x = b2 ++ y ->
  c1 = c2 /\ z1 = z2 /\ b1 = b2.
Proof.
  intros H1 H2 E. inversion H1 as [|m ikm b s1 k1 L1 D1]; subst; inversion H2 as [|? ? ? s2 k2 L2 D2]; subst; [done|].
  rewrite <- !app_assoc in E. apply app_inv_head in E. apply app_inj_1 in E as [-> _]; [|lia].
  rewrite D1 in D2. by injection D2 as ->.
Qed.

(** Waiting for the peer's salt. *)
Definition unkeyed_inv (src : key_source) (s : ss_stream) : Prop :=
  match src with
  | FromSalt m ikm base =>
      read_state s = PeerSalt /\ method s = m /\ password_ikm s = Some ikm /\ key_size m <= length ikm /\
      read_nonce s = {| nc_size := 12; counter := 0 |} /\
      taken s = base ++ read_buf s /\ length (read_buf s) <= salt_size m
  | _ => False
  end.

Definition reader_inv (src : key_source) (pre : bytes) (s : ss_stream) (out : bytes) : Prop :=
  (unkeyed_inv src s /\ out ++ read_plain s = pre) \/
  (exists c z base chunks w, keyed_by src c z base /\ keyed_inv c z base s chunks w /\
     out ++ read_plain s = pre ++ mjoin chunks).

(** The initial state of a reader, with [pre] already decrypted. *)
Definition start_reader (src : key_source) (pre : bytes) (s : ss_stream) : Prop :=
  read_plain s = pre /\ read_buf s = [] /\
  match src with
  | Keyed c z base =>
      read_cipher s = Some c /\ read_state s = LengthBlock /\ (0 <= z < 2 ^ 64)%Z /\
      read_nonce s = {| nc_size := 12; counter := z |} /\ taken s = base
  | FromSalt m ikm base => unkeyed_inv src s
  end.

Lemma start_reader_inv src pre s : start_reader src pre s -> reader_inv src pre s [].
Proof.
  intros (Hp & Hb & Hs). destruct src as [c z base|m ikm base].
  - right. destruct Hs as (Hc & Hst & Hz & Hn & Ht). exists c, z, base, [], [].
    split; [constructor|]. split; [|by rewrite Hp, app_nil_r].
    unfold keyed_inv. rewrite Hst, Hn, Hb, Ht, !app_nil_r. proj. split_and!; try done; lia || constructor.
  - left. by rewrite Hp.
Qed.

Lemma peer_salt_turn_post m ikm base s t s' :
  unkeyed_inv (FromSalt m ikm base) s -> peer_salt_turn s = (t, s') ->
  match t with
  | Continue => exists c z b, keyed_by (FromSalt m ikm base) c z b /\ keyed_inv c z b s' [] [] /\
      read_state s' = LengthBlock /\ read_plain s' = read_plain s
  | Return (Ok None) => unkeyed_inv (FromSalt m ikm base) s' /\ read_plain s' = read_plain s
  | Return (Ok (Some l)) => l = [] /\ read_plain s' = read_plain s /\
      exists part, taken s' = base ++ part /\ length part < salt_size m
  | Return (Err (SsInvalidData _)) | Return Panic => False
  | Return (Err _) => True
  end.
Proof.
  intros (Hst & Hm & Hi & Hlen & Hn & Ht & Hb). unfold peer_salt_turn. rewrite Hm.
  destruct (read_until _ _ _) as [[r i] buf] eqn:E.
  apply read_until_io in E as (l & -> & Hti & _ & Hr); [|done]. rewrite Ht, <- app_assoc in Hti.
  destruct r; intros H; cycle 1.
  { injection H as <- <-. split_and!; [done..|]. exists (read_buf s ++ l). split; [done|].
    destruct Hr as [[??]|[_ ?]]; done. }
  { by injection H as <- <-. }
  { injection H as <- <-. destruct Hr as [[??]|[_ ?]]; [done|].
    split; [|done]. unfold unkeyed_inv. proj. split_and!; try done. lia. }
  destruct Hr as [[_ Hl]|[? _]]; [|done]. proj. cbn [upd_read password_ikm method] in H.
  rewrite Hi, Hm, take_ge, drop_ge in H by lia.
  destruct (derive_key_from_ikm_ok m ikm (read_buf s ++ l) Hlen) as (k & Hk & Hkl).
  rewrite Hk in H. cbn [step_ok] in H.
  rewrite (proj2 (cipher_new_ok m k _) (conj eq_refl Hkl)) in H. cbn [step_ok] in H. injection H as <- <-.
  eexists _, _, _. split; [by apply (keyed_salt m ikm base (read_buf s ++ l) k)|].
  split; [|done]. unfold keyed_inv. proj. rewrite Hn. proj.
  split_and!; try done; try lia; try constructor. cbn [app]. by rewrite Hti, app_nil_r.
Qed.

Lemma mjoin_app_bytes (l1 l2 : list bytes) : mjoin (l1 ++ l2) = mjoin l1 ++ mjoin l2.
Proof. induction l1 as [|p l IH]; [done|]. cbn. rewrite <- app_assoc. f_equal. exact IH. Qed.

(** Where the decrypted stream stands when nothing more is returned. *)
Definition ended (src : key_source) (pre : bytes) (s' : ss_stream) (out : bytes) : Prop :=
  (exists m ikm base part, src = FromSalt m ikm base /\ out = pre /\
     taken s' = base ++ part /\ length part < salt_size m) \/
  (exists c z base chunks w part, keyed_by src c z base /\ frames c z chunks = Some w /\
     Forall chunk_ok chunks /\ out = pre ++ mjoin chunks /\
     taken s' = base ++ w ++ part /\ length part <= 18).

(** One [poll_read] of any reader. *)
Definition any_post (src : key_source) (pre : bytes) (s' : ss_stream) (out : bytes) (cap : nat)
    (r : outcome SsIoError (option bytes)) : Prop :=
  match r with
  | Ok None => reader_inv src pre s' out
  | Ok (Some l) =>
      (reader_inv src pre s' (out ++ l) /\ (0 < cap -> l <> [])) \/ (l = [] /\ ended src pre s' out)
  | Err (SsInvalidData _) =>
      exists c z base chunks w x, keyed_by src c z base /\ frames c z chunks = Some w /\
        Forall chunk_ok chunks /\ taken s' = base ++ w ++ x /\ forged c (next_nonce z chunks) x
  | Err _ => True
  | Panic => False
  end.

Lemma any_post_keyed src pre c z base s s' chunks w out cap r :
  keyed_by src c z base -> frames c z chunks = Some w -> Forall chunk_ok chunks ->
  out ++ read_plain s = pre ++ mjoin chunks ->
  read_post c z base s s' chunks w cap r -> any_post src pre s' out cap r.
Proof.
  intros Hb Hf Hok Ho H. unfold read_post, any_post in *. destruct r as [[l|]|[| | | |]|]; try done.
  - destruct H as [(ch & w' & Hk & Hp & Hc)|(-> & Hp & _ & part & Ht & Hl)].
    + left. split; [|done]. right. exists c, z, base, (chunks ++ ch), w'. split_and!; [done|done|].
      by rewrite <- app_assoc, <- Hp, app_assoc, Ho, mjoin_app_bytes, <- app_assoc.
    + right. split; [done|]. right. rewrite Hp, app_nil_r in Ho. by exists c, z, base, chunks, w, part.
  - destruct H as [Hk Hp]. right. exists c, z, base, chunks, w. by rewrite Hp.
  - destruct H as (x & Ht & Hx). by exists c, z, base, chunks, w, x.
Qed.

Lemma poll_read_any src pre s out cap r s' :
  reader_inv src pre s out -> ss_poll_read cap s = (r, s') -> any_post src pre s' out cap r.
Proof.
  intros [[Hu Ho]|(c & z & base & chunks & w & Hb & Hk & Ho)] H; cycle 1.
  { assert (Hk' := Hk). destruct Hk' as (_ & _ & _ & Hf & Hok & _).
    eapply poll_read_keyed in H; [|done]. by eapply any_post_keyed. }
  unfold ss_poll_read in H. case_bool_decide as Hp; cycle 1.
  { injection H as <- <-. left. split.
    - left. split; [by destruct src|]. proj. by rewrite <- app_assoc, take_drop.
    - intros Hcap Hx. apply (f_equal length) in Hx. rewrite length_take in Hx.
      destruct (read_plain s); [done|]. cbn [length] in Hx. lia. }
  destruct src as [|m ikm base]; [done|]. assert (read_state s = PeerSalt) as Hst by apply Hu.
  cbn [read_loop] in H. rewrite Hst in H. destruct (peer_salt_turn s) as [t s1] eqn:E.
  eapply peer_salt_turn_post in E; [|done]. rewrite Hp, app_nil_r in *. destruct t as [|r'].
  - destruct E as (c & z & b & Hb & Hk & Hs1 & Hp1).
    assert (read_loop 2 cap s1 = (r, s')) as H2 by exact H. clear H.
    eapply length_loop_post in H2; [|done..]. assert (Hk' := Hk). destruct Hk' as (_ & _ & _ & Hf & Hok & _).
    eapply any_post_keyed; [done..| |exact H2]. by rewrite Hp1, Ho.
  - injection H as <- <-. unfold any_post. destruct r' as [[l|]|[| | | |]|]; try done.
    + destruct E as (-> & Hp1 & part & Ht & Hl). right. split; [done|]. left. by exists m, ikm, base, part.
    + destruct E as [Hu' Hp1]. left. by rewrite Hp1, app_nil_r.
Qed.

(** ** The two sides do not disturb each other *)

Definition read_side (s : ss_stream) :=
  (method s, read_cipher s, password_ikm s, read_nonce s, read_plain s, read_buf s, read_state s, taken s).
Definition write_side (s : ss_stream) :=
  (method s, write_cipher s, password_ikm s, send_write_salt s, write_nonce s, write_buf s, s_given (inner s)).

Lemma reader_inv_side src pre s s' out :
  read_side s' = read_side s -> reader_inv src pre s out -> reader_inv src pre s' out.
Proof.
  unfold read_side, reader_inv, unkeyed_inv, keyed_inv. intros [= -> -> -> -> -> -> -> ->]. done.
Qed.

Lemma read_until_given fuel : forall i buf n r i' buf',
  read_until_loop fuel i buf n = (r, i', buf') -> s_given i' = s_given i.
Proof.
  induction fuel as [|f IH]; intros i buf n r i' buf' H; cbn [read_until_loop] in H;
    destruct (negb _); try by injection H as <- <- <-.
  destruct (poll_read _ i) as [a i1] eqn:Hp. apply poll_read_io in Hp as (_ & Hg & _).
  destruct a as [[|b l]|e|]; try by injection H as <- <- <-.
  apply IH in H. congruence.
Qed.

(** Every branch of a turn keeps the write side. *)
Ltac same_side :=
  repeat (case_match || (unfold step_ok)); intros [= <- <-]; unfold write_side; proj; congruence.

Lemma peer_salt_turn_side s t s' : peer_salt_turn s = (t, s') -> write_side s' = write_side s.
Proof.
  unfold peer_salt_turn. destruct (read_until _ _ _) as [[r i] buf] eqn:E. apply read_until_given in E. same_side.
Qed.

Lemma length_block_turn_side s t s' : length_block_turn s = (t, s') -> write_side s' = write_side s.
Proof.
  unfold length_block_turn. destruct (read_until _ _ _) as [[r i] buf] eqn:E. apply read_until_given in E. same_side.
Qed.

Lemma payload_turn_side cap n s t s' : payload_turn cap n s = (t, s') -> write_side s' = write_side s.
Proof.
  unfold payload_turn. destruct (read_until _ _ _) as [[r i] buf] eqn:E. apply read_until_given in E. same_side.
Qed.

Lemma read_loop_side fuel : forall cap s r s', read_loop fuel cap s = (r, s') -> write_side s' = write_side s.
Proof.
  induction fuel as [|f IH]; intros cap s r s' H; cbn [read_loop] in H; [by injection H as <- <-|].
  match type of H with (let '(_, _) := ?x in _) = _ => destruct x as [t s1] eqn:E end.
  assert (write_side s1 = write_side s) as Hs.
  { destruct (read_state s); [by eapply peer_salt_turn_side|by eapply length_block_turn_side|
      by eapply payload_turn_side|by injection E as <- <-]. }
  destruct t; [apply IH in H; congruence|by injection H as <- <-].
Qed.

Lemma poll_read_side cap s r s' : ss_poll_read cap s = (r, s') -> write_side s' = write_side s.
Proof.
  unfold ss_poll_read. case_bool_decide; [apply read_loop_side|]. by intros [= <- <-].
Qed.

(** ** The write side *)

(** [writer_inv src s acc]: everything given to the inner stream or still queued
    is the preamble of the source and the frames of [acc], cut into chunks, under
    consecutive nonces. *)
Definition unsent_salt (src : key_source) (s : ss_stream) (acc : bytes) : Prop :=
  match src with
  | FromSalt m ikm base =>
      send_write_salt s = true /\ method s = m /\ password_ikm s = Some ikm /\ key_size m <= length ikm /\
      write_nonce s = {| nc_size := 12; counter := 0 |} /\
      s_given (inner s) ++ write_buf s = base /\ acc = []
  | _ => False
  end.

Definition sent_frames (src : key_source) (s : ss_stream) (acc : bytes) : Prop :=
  exists c z base chunks w, keyed_by src c z base /\ send_write_salt s = false /\
    write_cipher s = Some c /\ cipher_wf c /\ nc_size (write_nonce s) = 12 /\ (0 <= z)%Z /\
    (0 <= counter (write_nonce s) < 2 ^ 64)%Z /\
    counter (write_nonce s) = next_nonce z chunks /\
    frames c z chunks = Some w /\ Forall chunk_ok chunks /\ mjoin chunks = acc /\
    s_given (inner s) ++ write_buf s = base ++ w.

Definition writer_inv (src : key_source) (s : ss_stream) (acc : bytes) : Prop :=
  unsent_salt src s acc \/ sent_frames src s acc.

Definition start_writer (src : key_source) (s : ss_stream) : Prop :=
  match src with
  | Keyed c z base =>
      send_write_salt s = false /\ write_cipher s = Some c /\ cipher_wf c /\ (0 <= z < 2 ^ 64)%Z /\
      write_nonce s = {| nc_size := 12; counter := z |} /\ s_given (inner s) ++ write_buf s = base
  | FromSalt m ikm base => unsent_salt src s []
  end.

Lemma start_writer_inv src s : start_writer src s -> writer_inv src s [].
Proof.
  destruct src as [c z base|m ikm base]; [|by left].
  intros (Hs & Hc & Hwf & Hz & Hn & Hb). right. exists c, z, base, [], []. rewrite Hn. proj.
  cbn [length]. split_and!; try done; try lia; try by constructor. by rewrite app_nil_r.
Qed.

(** An invariant of the write side is one of the write side only, up to moving
    bytes from the queue to the inner stream. *)
Lemma writer_inv_flush src s i buf acc :
  s_given i ++ buf = s_given (inner s) ++ write_buf s ->
  writer_inv src s acc -> writer_inv src (upd_write s i (write_nonce s) buf) acc.
Proof.
  intros Hg [Hu|Hs]; [left|right].
  - destruct src; [done|]. unfold unsent_salt in *. proj. by rewrite Hg.
  - unfold sent_frames in *. proj. by rewrite Hg.
Qed.

Lemma writer_inv_side src s s' acc :
  write_side s' = write_side s -> writer_inv src s acc -> writer_inv src s' acc.
Proof.
  unfold write_side, writer_inv, unsent_salt, sent_frames. intros [= -> -> -> -> -> -> ->]. done.
Qed.

(** Flushing moves queued bytes and touches nothing else. *)
Lemma flush_buf_inv src s r s' acc :
  flush_buf s = (r, s') -> writer_inv src s acc ->
  writer_inv src s' acc /\ read_side s' = read_side s /\ send_write_salt s' = send_write_salt s.
Proof.
  intros H Hi. apply flush_buf_io in H as (i & buf & -> & Ht & Hg & _).
  split; [by apply writer_inv_flush|]. unfold read_side. proj. by rewrite Ht.
Qed.

Lemma send_salt_block_inv src s rng r s' acc :
  length rng = salt_size (method s) -> send_salt_block rng s = (r, s') -> writer_inv src s acc ->
  r = Ok tt /\ sent_frames src s' acc /\ read_side s' = read_side s.
Proof.
  intros Hrng. unfold send_salt_block. intros H [Hu|Hs]; cycle 1.
  { assert (send_write_salt s = false) as Hf by (destruct Hs as (? & ? & ? & ? & ? & ? & ? & _); done).
    rewrite Hf in H. injection H as <- <-. by split_and!. }
  destruct src as [|m ikm base]; [done|]. destruct Hu as (Hs & Hm & Hi & Hlen & Hn & Hg & ->).
  rewrite Hm in *. destruct (derive_key_from_ikm_ok m ikm rng Hlen) as (k & Hk & Hkl).
  rewrite Hs, Hi, Hk, (proj2 (cipher_new_ok m k _) (conj eq_refl Hkl)) in H. injection H as <- <-.
  split_and!; [done| |done]. eexists _, _, _, [], [].
  split; [by apply (keyed_salt m ikm base rng k)|]. proj. rewrite Hn. proj.
  cbn [length]. split_and!; try done; try lia; try by constructor. by rewrite app_assoc, Hg, app_nil_r.
Qed.

Lemma queue_chunk_inv src s chunk r s' acc :
  chunk_ok chunk -> sent_frames src s acc -> queue_chunk chunk s = (r, s') ->
  r <> Panic /\ read_side s' = read_side s /\ (r = Ok tt -> sent_frames src s' (acc ++ chunk)).
Proof.
  intros Hok (c & z & base & chunks & w & Hb & Hs & Hc & Hwf & Hsz & Hz & Hcnt & Hn & Hf & Hoks & Hj & Hg).
  unfold queue_chunk. rewrite Hc, (current_nonce_at _ Hsz Hcnt).
  destruct (cipher_encrypt_total c (nonce_at (counter (write_nonce s))) (len_bytes (length chunk)) Hwf)
    as [ct1 H1]; [apply nonce_at_length|rewrite len_bytes_length; done|]. rewrite H1.
  destruct (advance (write_nonce s)) as [nc1|e|] eqn:Ha; [|by intros [= <- <-]|by apply advance_no_panic in Ha].
  apply advance_ok in Ha as [-> Hov]. rewrite current_nonce_at by (proj; done || lia). proj.
  destruct (cipher_encrypt_total c (nonce_at (counter (write_nonce s) + 1)) chunk Hwf) as [ct2 H2];
    [apply nonce_at_length|unfold chunk_ok, MAX_CHUNK_PAYLOAD, AEAD_P_MAX in *; lia|]. rewrite H2.
  destruct (advance _) as [nc2|e|] eqn:Ha; [|by intros [= <- <-]|by apply advance_no_panic in Ha].
  apply advance_ok in Ha as [-> Hov2]. cbn [counter nc_size] in *. intros [= <- <-].
  split_and!; [done|done|]. intros _.
  apply cipher_encrypt_ok in H1 as [_ H1], H2 as [_ H2]. rewrite Hn in H1, H2.
  exists c, z, base, (chunks ++ [chunk]), (w ++ ct1 ++ ct2). proj.
  split_and!; try done; try lia.
  - rewrite length_app. cbn [length]. lia.
  - apply (frames_app c z chunks [chunk]); [done|]. cbn [frames]. unfold frame, seal_at. rewrite H1.
    cbn [mbind option_bind]. rewrite H2. cbn. by rewrite app_nil_r.
  - apply Forall_app_2; [done|]. by constructor.
  - rewrite mjoin_app_bytes, Hj. cbn. by rewrite app_nil_r.
  - by rewrite app_assoc, Hg, <- app_assoc.
Qed.

Lemma sent_frames_writer src s acc : writer_inv src s acc -> send_write_salt s = false -> sent_frames src s acc.
Proof.
  intros [Hu|Hs] Hf; [|done]. destruct src; [done|]. destruct Hu as (Hx & _). congruence.
Qed.

(** One [poll_write]: the accepted bytes, and only they, are framed. *)
Lemma poll_write_inv src s rng buf r s' acc :
  length rng = salt_size (method s) -> writer_inv src s acc -> ss_poll_write rng buf s = (r, s') ->
  read_side s' = read_side s /\
  match r with
  | Ok None => writer_inv src s' acc
  | Ok (Some n) => writer_inv src s' (acc ++ take n buf) /\ n = min (length buf) MAX_CHUNK_PAYLOAD
  | Err _ => True
  | Panic => False
  end.
Proof.
  intros Hrng Hi. unfold ss_poll_write. destruct (send_salt_block rng s) as [r0 s0] eqn:E0.
  eapply send_salt_block_inv in E0 as (-> & Hs0 & Hr0); [|done..].
  destruct (flush_buf s0) as [fr s1] eqn:E1.
  assert (send_write_salt s0 = false) as Hf0 by (destruct Hs0 as (? & ? & ? & ? & ? & ? & ? & _); done).
  eapply flush_buf_inv in E1 as (Hs1 & Hr1 & Hf1); [|by right]. rewrite Hr0 in Hr1. rewrite Hf0 in Hf1.
  destruct fr; [|by intros [= <- <-]..].
  destruct (Nat.eqb_spec (min (length buf) MAX_CHUNK_PAYLOAD) 0) as [Hz|Hnz].
  { intros [= <- <-]. rewrite take_0, app_nil_r. by split_and!. }
  set (n := min _ _) in *. destruct (queue_chunk (take n buf) s1) as [qr s2] eqn:E2.
  eapply queue_chunk_inv in E2 as (Hnp & Hr2 & Hq); [| |by apply sent_frames_writer]; cycle 1.
  { unfold chunk_ok. rewrite length_take. lia. }
  rewrite Hr1 in Hr2. destruct qr as [[]|e|]; [|by intros [= <- <-]|done].
  destruct (flush_buf s2) as [fr2 s3] eqn:E3.
  eapply (flush_buf_inv src s2 fr2 s3 (acc ++ take n buf)) in E3 as (Hs3 & Hr3 & _); [|right; by apply Hq].
  rewrite Hr2 in Hr3. destruct fr2; intros [= <- <-]; done.
Qed.

(** ** Runs

    Any sequence of polls, in any order, whose results are not errors (after an
    error the adapter's users drop the stream); [out] is what was read, [acc] what
    was accepted for writing. *)
Inductive run : ss_stream -> bytes -> bytes -> ss_stream -> Prop :=
| run_start s : run s [] [] s
| run_read_pending s out acc s1 cap s2 :
    run s out acc s1 -> ss_poll_read cap s1 = (Ok None, s2) -> run s out acc s2
| run_read s out acc s1 cap l s2 :
    run s out acc s1 -> ss_poll_read cap s1 = (Ok (Some l), s2) -> l <> [] -> run s (out ++ l) acc s2
| run_write_pending s out acc s1 rng buf s2 :
    run s out acc s1 -> length rng = salt_size (method s1) ->
    ss_poll_write rng buf s1 = (Ok None, s2) -> run s out acc s2
| run_write s out acc s1 rng buf n s2 :
    run s out acc s1 -> length rng = salt_size (method s1) ->
    ss_poll_write rng buf s1 = (Ok (Some n), s2) -> run s out (acc ++ take n buf) s2
| run_flush s out acc s1 a r s2 :
    run s out acc s1 -> ss_poll_flush a s1 = (Ok r, s2) -> run s out acc s2
| run_shutdown s out acc s1 r s2 :
    run s out acc s1 -> ss_poll_shutdown s1 = (Ok r, s2) -> run s out acc s2.

Lemma poll_flush_sides src a s r s' acc :
  ss_poll_flush a s = (Ok r, s') -> writer_inv src s acc ->
  writer_inv src s' acc /\ read_side s' = read_side s.
Proof.
  unfold ss_poll_flush. destruct (flush_buf s) as [fr s1] eqn:E. intros H Hi.
  eapply flush_buf_inv in E as (Hi1 & Hr1 & _); [|done].
  destruct fr; try destruct a; inversion H; subst; by split.
Qed.

Lemma poll_shutdown_sides src s r s' acc :
  ss_poll_shutdown s = (Ok r, s') -> writer_inv src s acc ->
  writer_inv src s' acc /\ read_side s' = read_side s.
Proof.
  unfold ss_poll_shutdown. destruct (flush_buf s) as [fr s1] eqn:E. intros H Hi.
  eapply flush_buf_inv in E as (Hi1 & Hr1 & _); [|done].
  destruct fr; try done; try (inversion H; subst; by split).
  destruct (poll_shutdown (inner s1)) as [a i] eqn:Ep. apply poll_shutdown_io in Ep as [Ht Hg].
  assert (writer_inv src (upd_write s1 i (write_nonce s1) (write_buf s1)) acc) as Hw
    by (apply writer_inv_flush; [by rewrite Hg|done]).
  assert (read_side (upd_write s1 i (write_nonce s1) (write_buf s1)) = read_side s) as Hrd
    by (rewrite <- Hr1; unfold read_side; proj; by rewrite Ht).
  destruct a; inversion H; subst; by split.
Qed.

(** Both invariants hold throughout a run. *)
Lemma run_inv rsrc wsrc pre s0 out acc s :
  run s0 out acc s -> start_reader rsrc pre s0 -> start_writer wsrc s0 ->
  reader_inv rsrc pre s out /\ writer_inv wsrc s acc.
Proof.
  intros Hrun Hr0 Hw0. induction Hrun as [s|s out acc s1 cap s2 _ IH H|s out acc s1 cap l s2 _ IH H Hne|
    s out acc s1 rng buf s2 _ IH Hl H|s out acc s1 rng buf n s2 _ IH Hl H|s out acc s1 a r s2 _ IH H|
    s out acc s1 r s2 _ IH H].
  - split; [by apply start_reader_inv|by apply start_writer_inv].
  - destruct (IH Hr0 Hw0) as [Hi Hw]. split; [by eapply poll_read_any in H|].
    eapply writer_inv_side; [by eapply poll_read_side|done].
  - destruct (IH Hr0 Hw0) as [Hi Hw]. split.
    + by eapply poll_read_any in H as [[? _]|[-> _]].
    + eapply writer_inv_side; [by eapply poll_read_side|done].
  - destruct (IH Hr0 Hw0) as [Hi Hw]. eapply poll_write_inv in H as [Hs Hw2]; [|done..].
    split; [by eapply reader_inv_side|done].
  - destruct (IH Hr0 Hw0) as [Hi Hw]. eapply poll_write_inv in H as [Hs [Hw2 _]]; [|done..].
    split; [by eapply reader_inv_side|done].
  - destruct (IH Hr0 Hw0) as [Hi Hw]. eapply poll_flush_sides in H as [Hw2 Hs]; [|done].
    split; [by eapply reader_inv_side|done].
  - destruct (IH Hr0 Hw0) as [Hi Hw]. eapply poll_shutdown_sides in H as [Hw2 Hs]; [|done].
    split; [by eapply reader_inv_side|done].
Qed.

(** C8. Authenticity of the decrypted stream: whatever bytes the network delivers
    and however the polls interleave, what the reader has returned is the
    plaintext that came with the request followed by (a prefix of) payloads whose
    SIP003 frames, sealed under the session key with consecutive nonces, are the
    bytes taken from the network; nothing is injected, dropped or reordered. *)
Theorem ss_stream_authentic rsrc wsrc pre s0 out acc s :
  run s0 out acc s -> start_reader rsrc pre s0 -> start_writer wsrc s0 ->
  out `prefix_of` pre \/
  exists c z base chunks w, keyed_by rsrc c z base /\ frames c z chunks = Some w /\
    Forall chunk_ok chunks /\ (base ++ w) `prefix_of` taken s /\ out `prefix_of` pre ++ mjoin chunks.
Proof.
  intros Hrun Hr Hw. destruct (run_inv rsrc wsrc pre s0 out acc s Hrun Hr Hw) as
    [[[_ <-]|(c & z & base & chunks & w & Hb & Hk & Ho)] _]; [left; by eexists|right].
  destruct Hk as (_ & _ & _ & Hf & Hok & Hst). exists c, z, base, chunks, w.
  split_and!; [done..| |rewrite <- Ho; by eexists].
  destruct (read_state s); try done; [destruct Hst as (_ & -> & _)|destruct Hst as (_ & _ & _ & a & _ & ->)];
    rewrite app_assoc; by eexists.
Qed.

(** What the encrypting side puts on the wire: after any run, the bytes handed
    to the network followed by those still queued are the preamble (with the
    fresh salt where one is due) and the SIP003 frames of exactly the accepted
    plaintext, in chunks of at most 16383 bytes, each sealed under two nonces of
    its own: no nonce is used twice. *)
Theorem ss_stream_sends_frames rsrc wsrc pre s0 out acc s :
  run s0 out acc s -> start_reader rsrc pre s0 -> start_writer wsrc s0 ->
  unsent_salt wsrc s acc \/
  exists c z base chunks w, keyed_by wsrc c z base /\ frames c z chunks = Some w /\
    Forall chunk_ok chunks /\ mjoin chunks = acc /\ s_given (inner s) ++ write_buf s = base ++ w.
Proof.
  intros Hrun Hr Hw. destruct (run_inv rsrc wsrc pre s0 out acc s Hrun Hr Hw) as [_ [Hu|Hs]]; [by left|right].
  destruct Hs as (c & z & base & chunks & w & Hb & _ & _ & _ & _ & _ & _ & _ & Hf & Hok & Hj & Hg).
  by exists c, z, base, chunks, w.
Qed.

(** Frames that fit an honest transcript: the source's key is the transcript's,
    and the chunks begin the transcript's. *)
Lemma honest_chunks src c z base sent wire c' z' base' chunks w x :
  keyed_by src c z base -> Forall chunk_ok sent -> frames c z sent = Some wire ->
  keyed_by src c' z' base' -> Forall chunk_ok chunks -> frames c' z' chunks = Some w ->
  (base' ++ w ++ x) `prefix_of` (base ++ wire) ->
  c' = c /\ z' = z /\ base' = base /\ exists rest wr, sent = chunks ++ rest /\
    frames c (next_nonce z chunks) rest = Some wr /\ wire = w ++ wr /\ x `prefix_of` wr.
Proof.
  intros Hb Hok Hf Hb' Hok' Hf' [y Hy]. rewrite <- app_assoc in Hy.
  destruct (keyed_by_det _ _ _ _ _ _ _ _ _ Hb Hb' Hy) as (-> & -> & ->).
  split_and!; [done..|]. apply app_inv_head in Hy. rewrite <- app_assoc in Hy.
  destruct (frames_prefix c' chunks z' sent w wire) as (rest & wr & -> & Hr & ->); [done..|by eexists|].
  exists rest, wr. split_and!; [done..|]. exists y. by apply app_inv_head in Hy.
Qed.

(** Reading from an honest peer, from the invariant. *)
Lemma deliver_honest rsrc pre s out cap r s' c z base sent wire :
  reader_inv rsrc pre s out -> keyed_by rsrc c z base -> Forall chunk_ok sent ->
  frames c z sent = Some wire -> 0 < cap -> ss_poll_read cap s = (r, s') ->
  taken s' `prefix_of` base ++ wire ->
  match r with
  | Ok None => True
  | Ok (Some l) => (out ++ l) `prefix_of` pre ++ mjoin sent /\
      (l = [] -> taken s' = base ++ wire -> out = pre ++ mjoin sent)
  | Err (SsInvalidData _) => False
  | Err _ => True
  | Panic => False
  end.
Proof.
  intros Hi Hb Hok Hf Hcap H Hpre.
  eapply poll_read_any in H; [|exact Hi]. unfold any_post in H.
  destruct r as [[l|]|[| | | |]|]; try done.
  - destruct H as [[[[_ Hl]|(c' & z' & b' & ch & w & Hb' & Hk & Ho)] Hne]|[-> He]].
    + split; [rewrite <- Hl, <- app_assoc; by eexists|]. intros ->. by destruct Hne.
    + split; [|intros ->; by destruct Hne]. destruct Hk as (_ & _ & _ & Hf' & Hok' & Hst).
      assert (exists x, taken s' = b' ++ w ++ x) as [x Hx]
        by (destruct (read_state s'); try done; [destruct Hst as (_ & -> & _)|destruct Hst as (_ & _ & _ & a & _ & ->)]; by eexists).
      rewrite Hx in Hpre. eapply (honest_chunks rsrc c z base sent wire c' z' b' ch w) in Hpre as (_ & _ & _ & rest & wr & -> & _); [|done..].
      rewrite mjoin_app_bytes, app_assoc, <- Ho, <- (app_assoc (out ++ l)). by eexists.
    + rewrite app_nil_r. destruct He as [(m & ikm & b0 & part & -> & -> & Ht & Hl)|(c' & z' & b' & ch & w & part & Hb' & Hf' & Hok' & -> & Ht & Hl)].
      * split; [by eexists|]. intros _ Hall. exfalso. rewrite Ht in Hall. inversion Hb as [|? ? ? salt k Hs Hk]; subst.
        apply (f_equal length) in Hall. rewrite !length_app in Hall. lia.
      * rewrite Ht in Hpre. eapply (honest_chunks rsrc c z base sent wire c' z' b' ch w) in Hpre as (-> & -> & -> & rest & wr & -> & Hr' & -> & _); [|done..].
        rewrite mjoin_app_bytes. split; [rewrite app_assoc; by eexists|]. intros _ Hall. rewrite Ht in Hall.
        apply app_inv_head, app_inv_head in Hall. subst wr. destruct rest as [|p rest]; [by rewrite app_nil_r|].
        apply frames_length in Hr'. cbn [length] in Hr'. lia.
  - destruct H as (c' & z' & b' & ch & w & x & Hb' & Hf' & Hok' & Ht & Hx). rewrite Ht in Hpre.
    eapply (honest_chunks rsrc c z base sent wire c' z' b' ch w) in Hpre as (-> & -> & -> & rest & wr & -> & Hr' & -> & Hp); [|done..].
    apply Forall_app in Hok as [_ Hok]. exact (Hx rest wr Hok Hr' Hp).
Qed.
(** ** Delivery

    [reads i i']: reading from [i] any number of times leaves [i']. *)
Inductive reads : stream -> stream -> Prop :=
| reads_refl i : reads i i
| reads_step i cap a i1 i' : poll_read cap i = (a, i1) -> reads i1 i' -> reads i i'.

Lemma reads_trans i1 i2 i3 : reads i1 i2 -> reads i2 i3 -> reads i1 i3.
Proof using Type. induction 1 as [|i cap a i1 i' Hp _ IH]; [done|]. intros H. eapply reads_step; [exact Hp|by apply IH]. Qed.

Lemma reads_mono i i' :
  reads i i' -> s_read i' = s_read i /\ n_read i <= n_read i' /\ s_taken i `prefix_of` s_taken i'.
Proof using Type.
  induction 1 as [i|i cap a i1 i' Hp _ (IH1 & IH2 & IH3)]; [done|].
  injection Hp as <- <-. cbn [s_read n_read s_taken] in *. split_and!; [done|lia|].
  etransitivity; [|exact IH3]. by eexists.
Qed.

(** Empty answers leave what was taken as it is. *)
Lemma reads_end i i' :
  reads i i' -> (forall k, n_read i <= k < n_read i' -> s_read i k = RData []) -> s_taken i' = s_taken i.
Proof using Type.
  induction 1 as [i|i cap a i1 i' Hp Hr IH]; [done|]. intros He.
  pose proof (reads_mono _ _ Hr) as (Hs & Hn & _). injection Hp as <- <-. cbn [s_read n_read s_taken] in *.
  rewrite IH by (intros k Hk; apply He; lia). rewrite He by lia. by rewrite take_nil, app_nil_r.
Qed.

(** [hands_over all i i']: between the two states the transport did not fail,
    what it handed over is a prefix of [all], and it reported its end only when
    that is all of it, and for good. *)
Definition hands_over (all : bytes) (i i' : stream) : Prop :=
  s_taken i' `prefix_of` all /\
  forall k, n_read i <= k < n_read i' ->
    match s_read i k with
    | RErr _ => False
    | RData [] => s_taken i' = all /\ forall j, k <= j < n_read i' -> s_read i j = RData []
    | _ => True
    end.

Lemma hands_over_split all i i1 i' :
  reads i i1 -> reads i1 i' -> hands_over all i i' -> hands_over all i i1 /\ hands_over all i1 i'.
Proof using Type.
  intros H1 H2 [Hp Hk]. pose proof (reads_mono _ _ H1) as (Hs1 & Hn1 & _).
  pose proof (reads_mono _ _ H2) as (Hs2 & Hn2 & Hp2). split; split.
  - by etransitivity.
  - intros k Hkr. specialize (Hk k). destruct (s_read i k) as [[|]|e|] eqn:E; try done; [|by apply Hk; lia].
    destruct Hk as [Ha He]; [lia|]. split; [|intros j Hj; apply He; lia].
    rewrite <- Ha. symmetry. apply reads_end; [done|]. intros j Hj. rewrite Hs1. apply He. lia.
  - done.
  - intros k Hkr. rewrite Hs1. apply Hk. lia.
Qed.

Definition is_pending (a : read_answer) : bool := match a with RPending => true | _ => false end.

(** How often the transport made its reader wait. *)
Definition pendings (i i' : stream) : nat :=
  length (filter (fun k => is_pending (s_read i k) = true) (seq (n_read i) (n_read i' - n_read i))).

Lemma pendings_split i i1 i' : reads i i1 -> reads i1 i' -> pendings i i' = pendings i i1 + pendings i1 i'.
Proof using Type.
  intros H1 H2. pose proof (reads_mono _ _ H1) as (Hs1 & Hn1 & _). pose proof (reads_mono _ _ H2) as (_ & Hn2 & _).
  unfold pendings. rewrite Hs1, <- length_app, <- filter_app. f_equal. f_equal.
  replace (n_read i' - n_read i) with ((n_read i1 - n_read i) + (n_read i' - n_read i1)) by lia.
  rewrite seq_app. do 2 f_equal. lia.
Qed.

Lemma pendings_pos i i' k : n_read i <= k < n_read i' -> s_read i k = RPending -> 1 <= pendings i i'.
Proof using Type.
  intros Hk Hp. unfold pendings.
  assert (k ∈ filter (fun k => is_pending (s_read i k) = true) (seq (n_read i) (n_read i' - n_read i))) as Hin.
  { apply list_elem_of_filter. split; [by rewrite Hp|]. apply elem_of_seq. lia. }
  destruct (filter _ _); [by apply not_elem_of_nil in Hin|cbn [length]; lia].
Qed.

(** Why [read_until] stopped. *)
Lemma read_until_loop_answer fuel : forall i buf target r i' buf',
  target - length buf <= fuel -> read_until_loop fuel i buf target = (r, i', buf') ->
  reads i i' /\
  match r with
  | RuFull => True
  | RuEof => exists k, n_read i <= k < n_read i' /\ s_read i k = RData []
  | RuErr e => exists k, n_read i <= k < n_read i' /\ s_read i k = RErr e
  | RuPending => exists k, n_read i <= k < n_read i' /\ s_read i k = RPending
  end.
Proof using Type.
  induction fuel as [|f IH]; intros i buf target r i' buf' Hf H; cbn [read_until_loop] in H;
    destruct (Nat.ltb_spec (length buf) target) as [Hlt|Hge]; cbn [negb] in H; try lia;
    try (injection H as <- <- <-; split; [constructor|done]).
  destruct (poll_read (target - length buf) i) as [a i1] eqn:Hp.
  assert (reads i i1) as Hr1 by (eapply reads_step; [exact Hp|constructor]).
  assert (n_read i1 = S (n_read i) /\ s_read i1 = s_read i) as [Hn Hs] by (by injection Hp as _ <-).
  assert (a = match s_read i (n_read i) with RData l => RData (take (target - length buf) l) | a => a end) as Ha
    by (by injection Hp as <- _).
  destruct a as [[|b l]|e|].
  - injection H as <- <- <-. split; [done|]. exists (n_read i). split; [lia|].
    destruct (s_read i (n_read i)) as [[|b l]| |]; try done.
    destruct (target - length buf) eqn:E; [lia|by injection Ha].
  - destruct (poll_read_io _ _ _ _ Hp) as (_ & _ & Hl).
    apply IH in H as [Hr H]; [|rewrite length_app; cbn [length] in *; lia].
    split; [by eapply reads_trans|]. rewrite Hs, Hn in H. destruct r; [done|..];
      destruct H as (k & Hk & H); exists k; (split; [lia|done]).
  - injection H as <- <- <-. split; [done|]. exists (n_read i). split; [lia|].
    destruct (s_read i (n_read i)); congruence.
  - injection H as <- <- <-. split; [done|]. exists (n_read i). split; [lia|].
    destruct (s_read i (n_read i)); congruence.
Qed.

Lemma read_until_handed all i buf target r i' buf' :
  read_until i buf target = (r, i', buf') -> hands_over all i i' ->
  match r with
  | RuFull => True
  | RuEof => s_taken i' = all
  | RuErr _ => False
  | RuPending => 1 <= pendings i i'
  end.
Proof using Type.
  intros H [_ Hh]. apply read_until_loop_answer in H as [_ H]; [|done].
  destruct r; try done; destruct H as (k & Hk & E); specialize (Hh k Hk); rewrite E in Hh; [tauto|done|].
  by eapply pendings_pos.
Qed.

Lemma read_until_reads i buf target r i' buf' : read_until i buf target = (r, i', buf') -> reads i i'.
Proof using Type. intros H. by apply read_until_loop_answer in H as [H _]. Qed.

(** A turn reads the inner stream with one [read_until]. *)
Lemma step_ok_inner {A} f s (m : outcome ShadowsocksError A) k t s' i :
  step_ok f s m k = (t, s') -> inner s = i -> (forall a t s', k a = (t, s') -> inner s' = i) -> inner s' = i.
Proof using Type. destruct m; cbn; intros H Hs Hk; [by eapply Hk|by injection H as _ <-..]. Qed.

(** What each turn asked of the inner stream, and what its outcome says of the
    answer. *)
Lemma length_block_turn_cause c s t s' :
  read_cipher s = Some c -> nc_size (read_nonce s) = 12 -> (0 <= counter (read_nonce s) < 2 ^ 64)%Z ->
  length_block_turn s = (t, s') ->
  exists r buf, read_until (inner s) (read_buf s) 18 = (r, inner s', buf) /\
    match r with
    | RuEof => t = Return (Ok (Some [])) /\
        s' = upd_read s (inner s') (read_nonce s) (read_plain s) [] (read_state s)
    | RuErr _ => True
    | RuPending => t = Return (Ok None)
    | RuFull =>
        match t with
        | Continue | Return (Err (SsInvalidData _)) | Return Panic => True
        | Return (Ok None) => False
        | Return (Ok (Some _)) => length buf <= 18 ->
            seal_at c (counter (read_nonce s)) (len_bytes 0) = Some buf
        | Return (Err _) => (2 ^ 64 <= counter (read_nonce s) + 1)%Z
        end
    end.
Proof.
  intros Hc Hsz Hcnt. unfold length_block_turn. change (2 + tag_size (method s)) with 18.
  destruct (read_until (inner s) (read_buf s) 18) as [[r i] buf] eqn:E. intros H. exists r, buf.
  destruct r; try (injection H as <- <-; done).
  rewrite Hc, (current_nonce_at _ Hsz Hcnt) in H. cbn [step_ok] in H.
  destruct (slice_to buf 18) as [block|e|] eqn:Hb; cbn [obind step_ok] in H;
    [|by injection H as <- <-|by injection H as <- <-].
  apply slice_to_ok in Hb as [Hbl ->].
  destruct (cipher_decrypt c _ (take 18 buf)) as [pt|e|] eqn:Hd; cbn [step_ok] in H;
    [|by injection H as <- <-|by injection H as <- <-].
  apply cipher_decrypt_ok in Hd as [_ Hd]. apply seal_open in Hd.
  destruct (advance (read_nonce s)) as [nc|e|] eqn:Ha; cbn [step_ok] in H.
  - destruct pt as [|hi [|lo [|]]]; try (injection H as <- <-; done).
    guard_in H; [injection H as <- <-; done|]. guard_in H; bool_to_prop; injection H as <- <-; [|done].
    split; [done|]. intros Hl. rewrite (len_bytes_inv hi lo) in Hd. rewrite take_ge in Hd by lia.
    rewrite <- Hd. unfold seal_at. do 3 f_equal. lia.
  - injection H as <- <-. split; [done|]. unfold other_error. unfold advance in Ha.
    destruct (Z.ltb_spec (counter (read_nonce s) + 1) (2 ^ 64)); [done|lia].
  - by apply advance_no_panic in Ha.
Qed.

Lemma payload_turn_cause c cap n s t s' :
  read_cipher s = Some c -> nc_size (read_nonce s) = 12 -> (0 <= counter (read_nonce s) < 2 ^ 64)%Z ->
  payload_turn cap n s = (t, s') ->
  exists r buf, read_until (inner s) (read_buf s) (n + 16) = (r, inner s', buf) /\
    match r with
    | RuEof | RuErr _ => True
    | RuPending => t = Return (Ok None)
    | RuFull =>
        match t with
        | Return (Ok None) => False
        | Return (Err (SsInvalidData _)) => True
        | Return (Err _) => (2 ^ 64 <= counter (read_nonce s) + 1)%Z
        | _ => True
        end
    end.
Proof.
  intros Hc Hsz Hcnt. unfold payload_turn. change (n + tag_size (method s)) with (n + 16).
  destruct (read_until (inner s) (read_buf s) (n + 16)) as [[r i] buf] eqn:E. intros H. exists r, buf.
  destruct r; try (injection H as <- <-; done).
  rewrite Hc, (current_nonce_at _ Hsz Hcnt) in H. cbn [step_ok] in H.
  destruct (cipher_decrypt c _ buf) as [pt|e|]; cbn [step_ok] in H;
    [|by injection H as <- <-|by injection H as <- <-].
  destruct (advance (read_nonce s)) as [nc|e|] eqn:Ha; cbn [step_ok] in H.
  - guard_in H; by injection H as <- <-.
  - injection H as <- <-. split; [done|]. unfold other_error. unfold advance in Ha.
    destruct (Z.ltb_spec (counter (read_nonce s) + 1) (2 ^ 64)); [done|lia].
  - by apply advance_no_panic in Ha.
Qed.

(** One turn of a keyed reader that has read the frames [w] of [chunks], when the
    transport hands over the frames [wr] of [rest] after them. *)
Lemma length_turn_honest c z base s chunks w rest wr t s' :
  keyed_inv c z base s chunks w -> read_state s = LengthBlock ->
  Forall chunk_ok rest -> frames c (next_nonce z chunks) rest = Some wr ->
  (next_nonce z (chunks ++ rest) < 2 ^ 64)%Z ->
  length_block_turn s = (t, s') -> hands_over (base ++ w ++ wr) (inner s) (inner s') ->
  reads (inner s) (inner s') /\ read_plain s' = read_plain s /\ keyed_inv c z base s' chunks w /\
  match t with
  | Continue => exists n, read_state s' = Payload n
  | Return (Ok None) => 1 <= pendings (inner s) (inner s')
  | Return (Ok (Some l)) => l = [] /\ rest = []
  | _ => False
  end.
Proof.
  intros Hk Hs Hok Hf Hz H Hh. assert (Hk' := Hk). destruct Hk' as (Hc & Hsz & Hcnt & _ & _ & Hst).
  rewrite Hs in Hst. destruct Hst as (Hn & Ht & Hb).
  pose proof (length_block_turn_post _ _ _ _ _ _ _ _ Hk Hs H) as [Hpost Hcont].
  destruct (length_block_turn_cause c s t s' Hc Hsz Hcnt H) as (r & buf & Hru & Hcause).
  pose proof (read_until_handed _ _ _ _ _ _ _ Hru Hh) as Hans. pose proof (read_until_reads _ _ _ _ _ _ Hru) as Hrd.
  apply read_until_io in Hru as (l & -> & Hti & _ & Hr); [|done]. rewrite Ht, <- !app_assoc in Hti.
  destruct Hh as [Hpre _]. rewrite Hti in Hpre. apply prefix_app_inv, prefix_app_inv in Hpre.
  split; [done|]. destruct r; [|destruct Hcause as [-> Hs']|done|subst t; cbn in Hpost; tauto].
  - destruct Hr as [[_ Hl]|[? _]]; [|done].
    destruct rest as [|p rest]; [injection Hf as <-; destruct Hpre as [y Hy]; by destruct (read_buf s ++ l)|].
    apply frames_cons_inv in Hf as (a & b & wr' & Ha & _ & _ & -> & Hla & _).
    destruct Hpre as [y Hy]. apply app_inj_1 in Hy as [-> _]; [|lia]. inversion_clear Hok as [|?? Hp _].
    rewrite length_app in Hz. cbn [length] in Hz.
    unfold turn_post in Hpost. destruct t as [|[[[|]|]|[]|]]; try done; try lia.
    + destruct Hpost as [Hk1 Hp1]. split_and!; [done..|by apply Hcont].
    + rewrite Hn in Hcause. specialize (Hcause ltac:(lia)). exfalso.
      assert (length p = 0) by (unfold chunk_ok, MAX_CHUNK_PAYLOAD in *; eapply (seal_at_len_inj c); [lia|lia|done|done]).
      unfold chunk_ok in Hp. lia.
    + destruct Hpost as (block & _ & Htb & Hno). exfalso. rewrite Hti in Htb.
      apply app_inv_head, app_inv_head in Htb. rewrite Htb in Ha. by apply (Hno (length p)).
  - destruct Hr as [[? _]|[_ Hl]]; [done|]. rewrite Hans in Hti. apply app_inv_head, app_inv_head in Hti.
    destruct rest as [|p rest]; cycle 1.
    { apply frames_length in Hf. rewrite Hti in Hf. cbn [length] in Hf. lia. }
    injection Hf as <-. symmetry in Hti. apply app_eq_nil in Hti as [Hbuf _].
    destruct Hk as (Hk1 & Hk2 & Hk3 & Hk4 & Hk5 & _). clear Hpost Hcont H Hrd.
    remember (inner s') as i eqn:Hi. clear Hi. subst s'. proj. split_and!; try done.
    unfold keyed_inv. proj. rewrite Hs, Hans. split_and!; try done; lia.
Qed.

Lemma payload_turn_honest c z base cap s chunks w rest wr n t s' :
  keyed_inv c z base s chunks w -> read_state s = Payload n -> read_plain s = [] ->
  Forall chunk_ok rest -> frames c (next_nonce z chunks) rest = Some wr ->
  (next_nonce z (chunks ++ rest) < 2 ^ 64)%Z ->
  payload_turn cap n s = (t, s') -> hands_over (base ++ w ++ wr) (inner s) (inner s') ->
  reads (inner s) (inner s') /\ payload_post c z base cap s s' chunks w t /\
  match t with
  | Return (Ok None) => 1 <= pendings (inner s) (inner s')
  | Return (Ok (Some l)) => True
  | _ => False
  end.
Proof.
  intros Hk Hs Hp Hok Hf Hz H Hh. assert (Hk' := Hk). destruct Hk' as (Hc & Hsz & Hcnt & _ & _ & Hst).
  rewrite Hs in Hst. destruct Hst as (Hn & Hn' & Hb & a & Ha & Ht).
  pose proof (payload_turn_post _ _ _ _ _ _ _ _ _ _ Hk Hs Hp H) as Hpost.
  destruct (payload_turn_cause c cap n s t s' Hc Hsz Hcnt H) as (r & buf & Hru & Hcause).
  pose proof (read_until_handed _ _ _ _ _ _ _ Hru Hh) as Hans. pose proof (read_until_reads _ _ _ _ _ _ Hru) as Hrd.
  apply read_until_io in Hru as (l & -> & Hti & _ & Hr); [|done]. rewrite Ht, <- !app_assoc in Hti.
  destruct Hh as [Hpre _]. rewrite Hti in Hpre. apply prefix_app_inv, prefix_app_inv in Hpre.
  split; [done|]. split; [done|].
  pose proof (open_length _ _ _ _ _ (open_seal _ _ _ _ _ Ha)) as Hla. rewrite len_bytes_length in Hla.
  destruct rest as [|p rest]; [injection Hf as <-; destruct Hpre as [y Hy]; by destruct a|].
  assert (Hfr := Hf).
  apply frames_cons_inv in Hf as (a' & b & wr' & Ha' & Hb' & _ & -> & Hla' & Hlb).
  destruct Hpre as [y Hy]. rewrite <- app_assoc in Hy. apply app_inj_1 in Hy as [<- Hy]; [|lia].
  inversion_clear Hok as [|?? Hpc Hrest].
  assert (length p = n) as Hpn by (unfold chunk_ok, MAX_CHUNK_PAYLOAD in *; eapply (seal_at_len_inj c); [lia|lia|done|done]).
  rewrite length_app in Hz. cbn [length] in Hz.
  destruct r; [| |done|by subst t].
  - unfold payload_post in Hpost. destruct t as [|[[|]|[]|]]; try done; try lia.
    destruct Hpost as (m & a2 & block & Ha2 & Hm & Hbl & Htb & Hno). rewrite Hti in Htb.
    apply app_inv_head, app_inv_head in Htb.
    pose proof (open_length _ _ _ _ _ (open_seal _ _ _ _ _ Ha2)) as Hla2. rewrite len_bytes_length in Hla2.
    apply app_inj_1 in Htb as [<- Htb]; [|lia]. destruct Hr as [[_ Hl]|[? _]]; [|done].
    rewrite Htb in *. apply app_inj_1 in Hy as [<- _]; [|lia]. by apply (Hno p).
  - exfalso. destruct Hr as [[? _]|[_ Hl]]; [done|]. rewrite Hans in Hti.
    do 3 apply app_inv_head in Hti. apply (f_equal length) in Hti. rewrite length_app in Hti. lia.
Qed.

(** What a reader makes of a poll while an honest peer's bytes are handed over. *)
Definition read_good c z base (s s' : ss_stream) chunks w (rest : list bytes) (cap : nat)
    (r : outcome SsIoError (option bytes)) : Prop :=
  reads (inner s) (inner s') /\
  match r with
  | Ok None => keyed_inv c z base s' chunks w /\ read_plain s' = read_plain s /\ 1 <= pendings (inner s) (inner s')
  | Ok (Some l) =>
      (exists chunks' w', keyed_inv c z base s' (chunks ++ chunks') w' /\
         read_plain s ++ mjoin chunks' = l ++ read_plain s' /\ (0 < cap -> l <> [])) \/
      (l = [] /\ rest = [] /\ keyed_inv c z base s' chunks w /\ read_plain s = [] /\ read_plain s' = [])
  | _ => False
  end.

Lemma payload_loop_good c z base cap s chunks w rest wr n fuel r s' :
  keyed_inv c z base s chunks w -> read_state s = Payload n -> read_plain s = [] ->
  Forall chunk_ok rest -> frames c (next_nonce z chunks) rest = Some wr ->
  (next_nonce z (chunks ++ rest) < 2 ^ 64)%Z ->
  read_loop (S fuel) cap s = (r, s') -> hands_over (base ++ w ++ wr) (inner s) (inner s') ->
  read_good c z base s s' chunks w rest cap r.
Proof.
  intros Hk Hs Hp Hok Hf Hz H Hh. cbn [read_loop] in H. rewrite Hs in H.
  destruct (payload_turn cap n s) as [t s1] eqn:E.
  assert (s1 = s') as <-.
  { destruct t; [|by injection H]. by eapply payload_turn_post in E. }
  eapply payload_turn_honest in E as (Hrd & Hpost & Ht); [|done..].
  split; [done|]. unfold payload_post in Hpost. destruct t as [|r']; [done|]. injection H as <-.
  destruct r' as [[l|]|[]|]; try done.
  - destruct Hpost as (Hne & p & w' & Hk' & Hpl). left. exists [p], w'.
    change (mjoin [p]) with (p ++ []). rewrite app_nil_r. by split_and!.
  - destruct Hpost. by split_and!.
Qed.

Lemma length_block_turn_reads s t s' : length_block_turn s = (t, s') -> reads (inner s) (inner s').
Proof.
  unfold length_block_turn. destruct (read_until _ _ _) as [[r i] buf] eqn:E. apply read_until_reads in E.
  intros H. assert (inner s' = i) as ->; [|done].
  destruct r; try (by injection H as _ <-). destruct (read_cipher s); [|by injection H as _ <-].
  eapply step_ok_inner in H; [exact H|done|]. intros nonce t1 s1 H1.
  eapply step_ok_inner in H1; [exact H1|done|]. intros pt t2 s2 H2.
  eapply step_ok_inner in H2; [exact H2|done|]. intros nc t3 s3 H3.
  destruct pt as [|hi [|lo [|]]]; try (by injection H3 as _ <-).
  repeat (guard_in H3; [by injection H3 as _ <-|]). by injection H3 as _ <-.
Qed.

Lemma payload_turn_reads cap n s t s' : payload_turn cap n s = (t, s') -> reads (inner s) (inner s').
Proof.
  unfold payload_turn. destruct (read_until _ _ _) as [[r i] buf] eqn:E. apply read_until_reads in E.
  intros H. assert (inner s' = i) as ->; [|done].
  destruct r; try (by injection H as _ <-). destruct (read_cipher s); [|by injection H as _ <-].
  eapply step_ok_inner in H; [exact H|done|]. intros nonce t1 s1 H1.
  eapply step_ok_inner in H1; [exact H1|done|]. intros pt t2 s2 H2.
  eapply step_ok_inner in H2; [exact H2|done|]. intros nc t3 s3 H3.
  guard_in H3; by injection H3 as _ <-.
Qed.

Lemma peer_salt_turn_reads s t s' : peer_salt_turn s = (t, s') -> reads (inner s) (inner s').
Proof.
  unfold peer_salt_turn. destruct (read_until _ _ _) as [[r i] buf] eqn:E. apply read_until_reads in E.
  intros H. assert (inner s' = i) as ->; [|done].
  destruct r; try (by injection H as _ <-). cbn [upd_read password_ikm] in H.
  destruct (password_ikm s); [|by injection H as _ <-].
  eapply step_ok_inner in H; [exact H|done|]. intros k t1 s1 H1.
  eapply step_ok_inner in H1; [exact H1|done|]. intros c t2 s2 H2. by injection H2 as _ <-.
Qed.

Lemma read_loop_reads fuel : forall cap s r s', read_loop fuel cap s = (r, s') -> reads (inner s) (inner s').
Proof.
  induction fuel as [|f IH]; intros cap s r s' H; cbn [read_loop] in H; [injection H as _ <-; constructor|].
  destruct (match read_state s with PeerSalt => _ | LengthBlock => _ | Payload _ => _ | Closed => _ end) as [t s1] eqn:E.
  assert (reads (inner s) (inner s1)) as H1.
  { destruct (read_state s); [by eapply peer_salt_turn_reads|by eapply length_block_turn_reads|
      by eapply payload_turn_reads|injection E as _ <-; constructor]. }
  destruct t; [eapply reads_trans; [exact H1|by eapply IH]|by injection H as _ <-].
Qed.

Lemma poll_read_reads cap s r s' : ss_poll_read cap s = (r, s') -> reads (inner s) (inner s').
Proof.
  unfold ss_poll_read. case_bool_decide; [apply read_loop_reads|]. intros [= _ <-]. constructor.
Qed.

Lemma length_loop_good c z base cap s chunks w rest wr fuel r s' :
  keyed_inv c z base s chunks w -> read_state s = LengthBlock -> read_plain s = [] ->
  Forall chunk_ok rest -> frames c (next_nonce z chunks) rest = Some wr ->
  (next_nonce z (chunks ++ rest) < 2 ^ 64)%Z ->
  read_loop (S (S fuel)) cap s = (r, s') -> hands_over (base ++ w ++ wr) (inner s) (inner s') ->
  read_good c z base s s' chunks w rest cap r.
Proof.
  intros Hk Hs Hp Hok Hf Hz H Hh. cbn [read_loop] in H. rewrite Hs in H.
  destruct (length_block_turn s) as [t s1] eqn:E. pose proof (length_block_turn_reads _ _ _ E) as Hr1.
  destruct t as [|r'].
  - assert (read_loop (S fuel) cap s1 = (r, s')) as H2 by exact H. clear H.
    pose proof (read_loop_reads _ _ _ _ _ H2) as Hr2.
    destruct (hands_over_split _ _ _ _ Hr1 Hr2 Hh) as [Hh1 Hh2].
    eapply length_turn_honest in E as (_ & Hp1 & Hk1 & n & Hn); [|done..]. rewrite Hp in Hp1.
    eapply payload_loop_good in H2 as [_ H2]; [|done..]. split; [by eapply reads_trans|].
    rewrite Hp1 in H2. rewrite Hp. destruct r as [[l|]| |]; try done.
    destruct H2 as (? & ? & Hpd). split_and!; [done..|]. rewrite (pendings_split _ _ _ Hr1 Hr2). lia.
  - injection H as <- <-. eapply length_turn_honest in E as (_ & Hp1 & Hk1 & Ht); [|done..].
    split; [done|]. destruct r' as [[l|]| |]; try done. destruct Ht as [-> ->]. right.
    rewrite Hp in Hp1. by split_and!.
Qed.

Lemma poll_read_good c z base cap s chunks w rest wr r s' :
  keyed_inv c z base s chunks w ->
  Forall chunk_ok rest -> frames c (next_nonce z chunks) rest = Some wr ->
  (next_nonce z (chunks ++ rest) < 2 ^ 64)%Z ->
  ss_poll_read cap s = (r, s') -> hands_over (base ++ w ++ wr) (inner s) (inner s') ->
  read_good c z base s s' chunks w rest cap r.
Proof.
  intros Hk Hok Hf Hz H Hh. unfold ss_poll_read in H. case_bool_decide as Hp.
  - assert (Hk' := Hk). destruct Hk' as (_ & _ & _ & _ & _ & Hst).
    destruct (read_state s) eqn:Hs; try done; clear Hst; [by eapply length_loop_good|by eapply payload_loop_good].
  - injection H as <- <-. split; [constructor|]. left. exists [], w. rewrite !app_nil_r. split_and!; [exact Hk| |].
    + cbn. by rewrite take_drop.
    + intros Hcap Hx. apply (f_equal length) in Hx. rewrite length_take in Hx.
      destruct (read_plain s); [done|]. cbn [length] in Hx. lia.
Qed.

(** What an honest peer whose key comes from [src] puts on the wire for a
    plaintext: nothing yet, or its salt where one is due and the frames. *)
Inductive honest_wire : key_source -> bytes -> bytes -> Prop :=
| honest_unsent m ikm base : honest_wire (FromSalt m ikm base) base []
| honest_frames src c z base sent wire :
    keyed_by src c z base -> Forall chunk_ok sent -> frames c z sent = Some wire ->
    (next_nonce z sent < 2 ^ 64)%Z -> honest_wire src (base ++ wire) (mjoin sent).

Definition poll_good (src : key_source) (pre : bytes) (s s' : ss_stream) (out plain : bytes)
    (r : outcome SsIoError (option bytes)) : Prop :=
  exists o, r = Ok o /\ reader_inv src pre s' (out ++ default [] o) /\
    match o with
    | None => 1 <= pendings (inner s) (inner s')
    | Some [] => out = pre ++ plain
    | Some _ => True
    end.

Lemma read_good_poll src pre c z base s s' chunks w rest cap r out :
  keyed_by src c z base -> 0 < cap -> out ++ read_plain s = pre ++ mjoin chunks ->
  read_good c z base s s' chunks w rest cap r ->
  poll_good src pre s s' out (mjoin (chunks ++ rest)) r.
Proof.
  intros Hb Hcap Ho [_ H]. destruct r as [[l|]| |]; try done.
  - exists (Some l). split; [done|]. cbn [default from_option id].
    destruct H as [(ch & w' & Hk & Hp & Hne)|(-> & -> & Hk & Hp & Hp')].
    + split; [|destruct l; [by destruct Hne|done]]. right. exists c, z, base, (chunks ++ ch), w'.
      split_and!; [done|done|]. by rewrite <- app_assoc, <- Hp, app_assoc, Ho, mjoin_app_bytes, <- app_assoc.
    + rewrite Hp, app_nil_r in Ho. rewrite !app_nil_r. split; [|done]. right.
      exists c, z, base, chunks, w. by rewrite Hp', app_nil_r.
  - destruct H as (Hk & Hp & Hpd). exists None. cbn [default from_option id]. rewrite app_nil_r. split_and!; [done| |done].
    right. exists c, z, base, chunks, w. by rewrite Hp.
Qed.

(** What was taken goes no further than what the turns account for. *)
Lemma keyed_taken c z base s chunks w : keyed_inv c z base s chunks w -> exists x, taken s = base ++ w ++ x.
Proof.
  intros (_ & _ & _ & _ & _ & Hst).
  destruct (read_state s); try done; [destruct Hst as (_ & -> & _)|destruct Hst as (_ & _ & _ & a & _ & ->)]; by eexists.
Qed.

Lemma salt_turn_cause m ikm base s t s' :
  unkeyed_inv (FromSalt m ikm base) s -> peer_salt_turn s = (t, s') ->
  exists r buf, read_until (inner s) (read_buf s) (salt_size m) = (r, inner s', buf) /\
    match r with
    | RuEof => t = Return (Ok (Some [])) /\
        s' = upd_read s (inner s') (read_nonce s) (read_plain s) [] (read_state s)
    | RuErr _ => True
    | RuPending => t = Return (Ok None)
    | RuFull => t = Continue
    end.
Proof.
  intros (Hst & Hm & Hi & Hlen & Hn & Ht & Hb). unfold peer_salt_turn. rewrite Hm.
  destruct (read_until _ _ _) as [[r i] buf] eqn:E. intros H. exists r, buf.
  destruct r; try (injection H as <- <-; done).
  cbn [upd_read password_ikm method] in H. rewrite Hi, Hm in H.
  destruct (derive_key_from_ikm_ok m ikm (take (salt_size m) buf) Hlen) as (k & Hk & Hkl).
  rewrite Hk in H. cbn [step_ok] in H.
  rewrite (proj2 (cipher_new_ok m k _) (conj eq_refl Hkl)) in H. cbn [step_ok] in H. by injection H as <- <-.
Qed.

Lemma honest_wire_salt m ikm base all plain :
  honest_wire (FromSalt m ikm base) all plain ->
  all = base /\ plain = [] \/ length base + salt_size m <= length all.
Proof.
  inversion 1 as [|src c z b sent wire Hb]; subst; [by left|right].
  inversion Hb; subst. rewrite !length_app. lia.
Qed.

Lemma poll_read_honest src pre s out cap r s' all plain :
  reader_inv src pre s out -> honest_wire src all plain -> 0 < cap -> ss_poll_read cap s = (r, s') ->
  hands_over all (inner s) (inner s') -> poll_good src pre s s' out plain r.
Proof.
  intros Hi Hw Hcap H Hh. pose proof (poll_read_reads _ _ _ _ H) as Hrd.
  pose proof (reads_mono _ _ Hrd) as (_ & _ & Htp).
  destruct Hi as [[Hu Ho]|(c & z & base & chunks & w & Hb & Hk & Ho)]; cycle 1.
  { assert (taken s `prefix_of` all) as Hpre by (etransitivity; [exact Htp|apply Hh]).
    destruct (keyed_taken _ _ _ _ _ _ Hk) as [x Hx]. rewrite Hx in Hpre.
    assert (Hk' := Hk). destruct Hk' as (_ & _ & _ & Hf & Hok & _).
    destruct Hw as [m ikm b0|src c' z' b' sent wire Hb' Hok' Hf' Hz].
    { inversion Hb as [|? ? ? salt k Hs Hkd]; subst. exfalso. destruct Hpre as [y Hy].
      apply (f_equal length) in Hy. rewrite !length_app in Hy.
      assert (0 < salt_size m) by (destruct m; simpl; lia). lia. }
    eapply (honest_chunks src c' z' b' sent wire c z base chunks w) in Hpre
      as (-> & -> & -> & rest & wr & -> & Hr' & -> & _); [|done..].
    apply Forall_app in Hok' as [_ Hok']. eapply read_good_poll; [done..|].
    by eapply poll_read_good. }
  unfold ss_poll_read in H. case_bool_decide as Hp; cycle 1.
  { injection H as <- <-. exists (Some (take (min (length (read_plain s)) cap) (read_plain s))).
    cbn [default from_option id]. split; [done|]. split.
    - left. split; [by destruct src|]. proj. by rewrite <- app_assoc, take_drop.
    - destruct (read_plain s); [done|]. destruct cap; [lia|done]. }
  destruct src as [|m ikm base]; [done|]. assert (read_state s = PeerSalt) as Hst by apply Hu.
  cbn [read_loop] in H. rewrite Hst in H. destruct (peer_salt_turn s) as [t s1] eqn:E.
  pose proof (peer_salt_turn_reads _ _ _ E) as Hr1.
  assert (exists all', hands_over all (inner s) (inner s1) /\ all' = all) as (_ & Hh1 & _).
  { exists all. split; [|done]. destruct t as [|r']; [|by injection H as _ <-].
    assert (read_loop 2 cap s1 = (r, s')) as H2 by exact H.
    by destruct (hands_over_split _ _ _ _ Hr1 (read_loop_reads _ _ _ _ _ H2) Hh). }
  pose proof (peer_salt_turn_post _ _ _ _ _ _ Hu E) as Hpost.
  destruct (salt_turn_cause _ _ _ _ _ _ Hu E) as (ru & buf & Hru & Hcause).
  pose proof (read_until_handed _ _ _ _ _ _ _ Hru Hh1) as Hans.
  rewrite Hp, app_nil_r in Ho. destruct ru; [subst t|destruct Hcause as [-> Hs1]|done|subst t].
  - assert (read_loop 2 cap s1 = (r, s')) as H2 by exact H. clear H.
    destruct (hands_over_split _ _ _ _ Hr1 (read_loop_reads _ _ _ _ _ H2) Hh) as [_ Hh2].
    destruct Hpost as (c & z & b & Hb & Hk & Hs1 & Hp1). rewrite Hp in Hp1.
    assert (taken s1 `prefix_of` all) as Hpre by apply Hh1.
    destruct (keyed_taken _ _ _ _ _ _ Hk) as [x Hx]. rewrite Hx in Hpre.
    inversion Hw as [|src c' z' b' sent wire Hb' Hok' Hf' Hz]; subst.
    { inversion Hb as [|? ? ? salt k Hs Hkd]; subst. exfalso. destruct Hpre as [y Hy].
      apply (f_equal length) in Hy. rewrite !length_app in Hy.
      assert (0 < salt_size m) by (destruct m; simpl; lia). lia. }
    assert (Hk' := Hk). destruct Hk' as (_ & _ & _ & Hf & Hok & _).
    eapply (honest_chunks _ c' z' b' sent wire c z b [] []) in Hpre
      as (-> & -> & -> & rest & wr & -> & Hr' & -> & _); [|done..].
    eapply (length_loop_good c' z' b' cap s1 [] [] rest wr) in H2; [|done..].
    assert (poll_good (FromSalt m ikm base) pre s1 s' pre (mjoin ([] ++ rest)) r) as (o & -> & Hi & Hm)
      by (eapply read_good_poll; [exact Hb|done| |exact H2]; by rewrite Hp1).
    exists o. split; [done|]. split; [done|]. destruct o as [[|]|]; try done.
    rewrite (pendings_split _ (inner s1) _); [lia|done|by destruct H2].
  - injection H as <- <-. exists (Some []). cbn [default from_option id]. rewrite app_nil_r. split; [done|].
    destruct Hpost as (_ & _ & part & Hpt & Hpl).
    destruct Hu as (Hu1 & Hu2 & Hu3 & Hu4 & Hu5 & Hu6 & Hu7).
    destruct (honest_wire_salt _ _ _ _ _ Hw) as [[-> ->]|Hlen]; cycle 1.
    { exfalso. rewrite <- Hans, Hpt, length_app in Hlen. lia. }
    split; [|by rewrite app_nil_r]. left. clear E Hru Hr1 Hrd Htp Hh Hh1 Hpt.
    remember (inner s1) as i eqn:Hie. clear Hie. subst s1.
    split; [|proj; by rewrite Hp, app_nil_r]. unfold unkeyed_inv. proj. rewrite Hans, app_nil_r.
    split_and!; try done. lia.
  - injection H as <- <-. exists None. cbn [default from_option id]. rewrite app_nil_r. destruct Hpost as [Hu' Hp'].
    split; [done|]. split; [|done]. left. split; [done|]. by rewrite Hp', Hp, app_nil_r.
Qed.

(** Successive reads into buffers of the given sizes. *)
Fixpoint read_polls (caps : list nat) (s : ss_stream) : list (outcome SsIoError (option bytes)) * ss_stream :=
  match caps with
  | [] => ([], s)
  | cap :: caps =>
      let '(r, s1) := ss_poll_read cap s in
      let '(rs, s') := read_polls caps s1 in (r :: rs, s')
  end.

Definition read_data (r : outcome SsIoError (option bytes)) : bytes :=
  match r with Ok (Some l) => l | _ => [] end.
Definition is_wait (r : outcome SsIoError (option bytes)) : bool :=
  match r with Ok None => true | _ => false end.

(** [delivers all plain out s]: from [s], where [out] was returned already, reads
    of a transport that hands over [all] never fail and wait at most as often as
    the transport does; what they return continues [out] within [plain]; an end
    of stream comes only when all of [plain] was returned; and once there were
    more answers than bytes to return, all of [plain] was returned. *)
Definition delivers (all plain out : bytes) (s : ss_stream) : Prop :=
  forall caps rs s', Forall (lt 0) caps -> read_polls caps s = (rs, s') -> hands_over all (inner s) (inner s') ->
    Forall (fun r => exists o, r = Ok o) rs /\
    (out ++ mjoin (map read_data rs)) `prefix_of` plain /\
    length (filter (fun r => is_wait r = true) rs) <= pendings (inner s) (inner s') /\
    (Ok (Some []) ∈ rs -> out ++ mjoin (map read_data rs) = plain) /\
    (length plain < length out + length (filter (fun r => is_wait r = false) rs) ->
     out ++ mjoin (map read_data rs) = plain).

Lemma read_polls_reads caps : forall s rs s', read_polls caps s = (rs, s') -> reads (inner s) (inner s').
Proof.
  induction caps as [|cap caps IH]; intros s rs s' H; cbn [read_polls] in H; [injection H as _ <-; constructor|].
  destruct (ss_poll_read cap s) as [r s1] eqn:E1, (read_polls caps s1) as [rs1 s2] eqn:E2. injection H as _ <-.
  eapply reads_trans; [by eapply poll_read_reads|by eapply IH].
Qed.

(** What has been returned is a prefix of what the honest peer sent. *)
Lemma honest_prefix src pre s out all plain :
  reader_inv src pre s out -> honest_wire src all plain -> taken s `prefix_of` all ->
  out `prefix_of` pre ++ plain.
Proof.
  intros [[_ <-]|(c & z & base & chunks & w & Hb & Hk & Ho)] Hw Hpre; [rewrite <- app_assoc; by eexists|].
  destruct (keyed_taken _ _ _ _ _ _ Hk) as [x Hx]. rewrite Hx in Hpre.
  destruct Hk as (_ & _ & _ & Hf & Hok & _).
  destruct Hw as [m ikm b0|src c' z' b' sent wire Hb' Hok' Hf' Hz].
  { inversion Hb as [|? ? ? salt k Hs Hkd]; subst. exfalso. destruct Hpre as [y Hy].
    apply (f_equal length) in Hy. rewrite !length_app in Hy.
    assert (0 < salt_size m) by (destruct m; simpl; lia). lia. }
  eapply (honest_chunks src c' z' b' sent wire c z base chunks w) in Hpre
    as (-> & -> & -> & rest & wr & -> & _); [|done..].
  rewrite mjoin_app_bytes, app_assoc, <- Ho, <- app_assoc. by eexists.
Qed.

Lemma delivers_honest src pre s out all plain :
  reader_inv src pre s out -> honest_wire src all plain -> delivers all (pre ++ plain) out s.
Proof.
  intros Hi Hw caps. revert s out Hi. induction caps as [|cap caps IH]; intros s out Hi rs s' Hcap H Hh.
  { injection H as <- <-. change (mjoin (map read_data [])) with (@nil byte). rewrite app_nil_r.
    assert (out `prefix_of` pre ++ plain) as Hp by (eapply honest_prefix; [done..|apply Hh]).
    split_and!; [constructor|done|cbn; lia|by intros ?%not_elem_of_nil|]. intros Hl. cbn in Hl.
    apply prefix_length in Hp. lia. }
  apply Forall_cons in Hcap as [Hc0 Hcap]. cbn [read_polls] in H.
  destruct (ss_poll_read cap s) as [r s1] eqn:E1, (read_polls caps s1) as [rs1 s2] eqn:E2. injection H as <- <-.
  pose proof (poll_read_reads _ _ _ _ E1) as Hr1. pose proof (read_polls_reads _ _ _ _ E2) as Hr2.
  destruct (hands_over_split _ _ _ _ Hr1 Hr2 Hh) as [Hh1 Hh2].
  destruct (poll_read_honest _ _ _ _ _ _ _ _ _ Hi Hw Hc0 E1 Hh1) as (o & -> & Hi1 & Ho).
  destruct (IH s1 _ Hi1 rs1 s2 Hcap E2 Hh2) as (Hok & Hp & Hwt & Hend & Hall).
  rewrite (pendings_split _ _ _ Hr1 Hr2). cbn [map]. change (mjoin (?a :: ?l)) with (a ++ mjoin l).
  assert (read_data (Ok o) = default [] o) as -> by by destruct o. rewrite app_assoc.
  split_and!; [constructor; [by eexists|done]|done| | |].
  - destruct o as [l|]; rewrite ?filter_cons_False, ?filter_cons_True by done; cbn [length]; lia.
  - intros [Heq|Hin]%elem_of_cons; [|by apply Hend]. injection Heq as <-. cbn in Ho. subst out.
    cbn [default from_option id] in *. rewrite app_nil_r in *. destruct Hp as [y Hy]. rewrite <- app_assoc in Hy.
    rewrite <- (app_nil_r (pre ++ plain)) in Hy at 1. apply app_inv_head in Hy. symmetry in Hy.
    apply app_eq_nil in Hy as [-> _]. by rewrite app_nil_r.
  - intros Hl. destruct o as [[|b l]|].
    + cbn in Ho. subst out. cbn [default from_option id] in *. rewrite app_nil_r in *. destruct Hp as [y Hy].
      rewrite <- app_assoc in Hy. rewrite <- (app_nil_r (pre ++ plain)) in Hy at 1.
      apply app_inv_head in Hy. symmetry in Hy. apply app_eq_nil in Hy as [-> _]. by rewrite app_nil_r.
    + apply Hall. rewrite filter_cons_True in Hl by done. cbn [length default from_option id] in *.
      rewrite (length_app out). cbn [length]. lia.
    + apply Hall. rewrite filter_cons_False in Hl by done. cbn [default from_option id]. by rewrite app_nil_r.
Qed.

(** C26. Delivery from an honest peer: whatever reads, writes, flushes and
    shutdowns went before, once the transport hands over the frames of the payloads
    [sent] in pieces of any size, with any number of waits in between, and ends
    only after them, repeated reads into buffers of any sizes never fail, wait at
    most as often as the transport did, return exactly the payloads in order, and
    report the end of the stream only after all of them; a bounded number of
    answered reads is enough. *)
Theorem ss_stream_delivers rsrc wsrc pre s0 out acc s c z base sent wire :
  run s0 out acc s -> start_reader rsrc pre s0 -> start_writer wsrc s0 ->
  keyed_by rsrc c z base -> Forall chunk_ok sent -> frames c z sent = Some wire ->
  (next_nonce z sent < 2 ^ 64)%Z ->
  delivers (base ++ wire) (pre ++ mjoin sent) out s.
Proof.
  intros Hrun Hr Hw Hb Hok Hf Hz.
  destruct (run_inv rsrc wsrc pre s0 out acc s Hrun Hr Hw) as [Hi _].
  eapply delivers_honest; [exact Hi|by econstructor].
Qed.

(** ** Progress of the writer *)

(** The inner stream takes at least a byte of every write from now on. *)
Definition accepts (i : stream) : Prop := forall k, n_write i <= k -> exists n, s_write i k = WAccept (S n).

Lemma flush_loop_accepts fuel : forall i buf,
  accepts i -> length buf <= fuel -> exists i', flush_loop fuel i buf = (FlDone, i', []) /\ accepts i'.
Proof using Type.
  induction fuel as [|f IH]; intros i buf Ha Hl; cbn [flush_loop].
  { destruct buf; [|cbn [length] in Hl; lia]. rewrite bool_decide_true by done. by eexists. }
  case_bool_decide as Hb; [subst; by eexists|]. unfold poll_write.
  destruct (Ha (n_write i) (le_n _)) as [n Hn]. rewrite Hn. cbv zeta iota beta.
  destruct (S n `min` length buf) as [|m] eqn:Em; [destruct buf; [done|cbn [length] in Em; lia]|].
  apply IH; [intros k Hk; cbn [n_write s_write] in *; apply Ha; lia|]. rewrite length_drop. lia.
Qed.

Lemma flush_buf_accepts s :
  accepts (inner s) -> exists i', flush_buf s = (FlDone, upd_write s i' (write_nonce s) []) /\ accepts i'.
Proof using Type.
  intros Ha. unfold flush_buf.
  destruct (flush_loop_accepts (length (write_buf s)) (inner s) (write_buf s) Ha (le_n _)) as (i & -> & Hi). by eexists.
Qed.

Lemma chunks_bound (chunks : list bytes) : Forall chunk_ok chunks -> length chunks <= length (mjoin chunks).
Proof using Type.
  induction 1 as [|p l [Hp _] _ IH]; [done|]. change (mjoin (p :: l)) with (p ++ mjoin l).
  rewrite length_app. cbn [length]. lia.
Qed.

Lemma queue_chunk_ok src s chunk acc :
  chunk_ok chunk -> sent_frames src s acc -> (forall c z base, keyed_by src c z base -> (z <= 2)%Z) ->
  (Z.of_nat (length acc) < 2 ^ 62)%Z -> exists nc buf, queue_chunk chunk s = (Ok tt, upd_write s (inner s) nc buf).
Proof.
  intros Hok (c & z & base & chunks & w & Hb & Hs & Hc & Hwf & Hsz & Hz & Hcnt & Hn & Hf & Hoks & Hj & Hg) H2 Hacc.
  apply H2 in Hb. apply chunks_bound in Hoks. rewrite Hj in Hoks.
  assert (counter (write_nonce s) + 2 < 2 ^ 64)%Z as Hlt.
  { rewrite Hn. change (2 ^ 64)%Z with (4 * 2 ^ 62)%Z. lia. }
  unfold queue_chunk. rewrite Hc, (current_nonce_at _ Hsz Hcnt).
  destruct (cipher_encrypt_total c (nonce_at (counter (write_nonce s))) (len_bytes (length chunk)) Hwf)
    as [ct1 H1]; [apply nonce_at_length|rewrite len_bytes_length; done|]. rewrite H1.
  rewrite advance_fwd by lia.
  rewrite current_nonce_at by (proj; done || lia). proj.
  destruct (cipher_encrypt_total c (nonce_at (counter (write_nonce s) + 1)) chunk Hwf) as [ct2 Hct2];
    [apply nonce_at_length|unfold chunk_ok, MAX_CHUNK_PAYLOAD, AEAD_P_MAX in *; lia|]. rewrite Hct2.
  rewrite advance_fwd by (proj; lia). by eexists _, _.
Qed.

(** Into an inner stream that takes something of every write, a write accepts as
    much as fits in a chunk and leaves nothing queued. *)
Lemma poll_write_accepts src s rng buf acc :
  length rng = salt_size (method s) -> writer_inv src s acc -> accepts (inner s) ->
  (forall c z base, keyed_by src c z base -> (z <= 2)%Z) -> (Z.of_nat (length acc) < 2 ^ 62)%Z ->
  exists s', ss_poll_write rng buf s = (Ok (Some (min (length buf) MAX_CHUNK_PAYLOAD)), s') /\ write_buf s' = [].
Proof.
  intros Hrng Hi Ha Hz Hacc. unfold ss_poll_write. destruct (send_salt_block rng s) as [r0 s0] eqn:E0.
  assert (inner s0 = inner s) as Hin.
  { unfold send_salt_block in E0. repeat case_match; by injection E0 as _ <-. }
  eapply send_salt_block_inv in E0 as (-> & Hs0 & _); [|done..]. rewrite <- Hin in Ha.
  destruct (flush_buf_accepts s0 Ha) as (i1 & E1 & Ha1). rewrite E1.
  assert (send_write_salt s0 = false) as Hf0 by (destruct Hs0 as (? & ? & ? & ? & ? & ? & ? & _); done).
  eapply flush_buf_inv in E1 as (Hs1 & _ & Hf1); [|by right]. rewrite Hf0 in Hf1.
  destruct (Nat.eqb_spec (min (length buf) MAX_CHUNK_PAYLOAD) 0) as [->|Hnz]; [by eexists|].
  destruct (queue_chunk_ok src (upd_write s0 i1 (write_nonce s0) []) (take (min (length buf) MAX_CHUNK_PAYLOAD) buf) acc)
    as (nc & b & ->); [unfold chunk_ok; rewrite length_take; lia|by apply sent_frames_writer|done|done|].
  edestruct (flush_buf_accepts (upd_write (upd_write s0 i1 (write_nonce s0) []) i1 nc b)) as (i2 & E2 & Ha2); [done|].
  proj. cbn [inner upd_write] in *. rewrite E2. by eexists.
Qed.
End reader.

(** ** Concrete runs *)

Import SampleCrypto.

(** An inner stream with the given answers to reads, then end of stream; it
    accepts up to 50 bytes per write. *)
Definition demo_inner (answers : list read_answer) : stream :=
  {| s_read := fun n => default (RData []) (answers !! n); s_write := fun _ => WAccept 50;
     s_shutdown := fun _ => ShutOk; n_read := 0; n_write := 0; n_shutdown := 0;
     s_taken := []; s_given := []; s_closed := false |}.

Definition demo_cipher : AeadCipher := {| ac_method := Aes128Gcm; ac_key := sample_salt |}.
Definition demo_sent : list bytes := [str "hello"; str "bye"].
Definition demo_wire : bytes := default [] (frames demo_cipher 2 demo_sent).

(** A server stream whose peer sends [demo_sent] in the given pieces. *)
Definition demo_server (answers : list read_answer) : ss_stream :=
  match new_server (demo_inner answers) Aes128Gcm sample_salt true (str "pw") with
  | Ok s => s
  | _ => {| inner := demo_inner []; method := Aes128Gcm; write_subkey := []; write_cipher := None;
            read_subkey := None; read_cipher := None; password_ikm := None; send_write_salt := false;
            write_nonce := nonce_new 12; read_nonce := nonce_new 12; read_plain := []; read_buf := [];
            read_state := Closed; write_buf := [] |}
  end.
Definition demo_pieces : list read_answer :=
  [RData (take 10 demo_wire); RPending; RData (take 8 (drop 10 demo_wire)); RData (take 21 (drop 18 demo_wire));
   RData (take 18 (drop 39 demo_wire)); RData (drop 57 demo_wire)].

Definition demo_rsrc : key_source := Keyed demo_cipher 2 [].
Definition demo_wsrc : key_source := FromSalt Aes128Gcm (password_key_material (str "pw")) [].

Lemma demo_start_reader answers : start_reader demo_rsrc [] (demo_server answers).
Proof. repeat split; done. Qed.

Lemma demo_start_writer answers : start_writer demo_wsrc (demo_server answers).
Proof.
  unfold start_writer, demo_wsrc, unsent_salt, demo_server. cbn [new_server negb cipher_new].
  change (length sample_salt =? key_size Aes128Gcm)%nat with true. cbn [obind].
  split_and!; try done. unfold password_key_material. rewrite evp_length. simpl. lia.
Qed.

(** A pending read, two reads of data, an accepted write and a shutdown. *)
Definition demo_s1 : ss_stream := Eval vm_compute in (ss_poll_read 100 (demo_server demo_pieces)).2.
Definition demo_s2 : ss_stream := Eval vm_compute in (ss_poll_read 3 demo_s1).2.
Definition demo_s3 : ss_stream := Eval vm_compute in (ss_poll_write sample_salt (str "ok") demo_s2).2.
Definition demo_s4 : ss_stream := Eval vm_compute in (ss_poll_shutdown demo_s3).2.
Definition demo_s5 : ss_stream := Eval vm_compute in (ss_poll_read 100 demo_s4).2.
Definition demo_s6 : ss_stream := Eval vm_compute in (ss_poll_read 100 demo_s5).2.

Lemma demo_run : run (demo_server demo_pieces) (str "hellobye") (str "ok") demo_s6.
Proof.
  apply (run_read _ (str "hello") _ demo_s5 100 (str "bye")); [|vm_compute; reflexivity|done].
  apply (run_read _ (str "hel") _ demo_s4 100 (str "lo")); [|vm_compute; reflexivity|done].
  apply (run_shutdown _ _ _ demo_s3 (Some tt)); [|vm_compute; reflexivity].
  apply (run_write _ _ [] demo_s2 sample_salt (str "ok") 2); [|done|vm_compute; reflexivity].
  apply (run_read _ [] _ demo_s1 3 (str "hel")); [|vm_compute; reflexivity|done].
  apply (run_read_pending _ _ _ (demo_server demo_pieces) 100); [apply run_start|vm_compute; reflexivity].
Qed.

Lemma ss_stream_authentic_witness :
  str "hellobye" `prefix_of` [] \/
  exists c z base chunks w, keyed_by demo_rsrc c z base /\ frames c z chunks = Some w /\
    Forall chunk_ok chunks /\ (base ++ w) `prefix_of` s_taken (inner demo_s6) /\
    str "hellobye" `prefix_of` [] ++ mjoin chunks.
Proof.
  exact (ss_stream_authentic demo_rsrc demo_wsrc [] _ _ _ _ demo_run (demo_start_reader _) (demo_start_writer _)).
Defined.

Lemma ss_stream_sends_frames_witness :
  unsent_salt demo_wsrc demo_s6 (str "ok") \/
  exists c z base chunks w, keyed_by demo_wsrc c z base /\ frames c z chunks = Some w /\
    Forall chunk_ok chunks /\ mjoin chunks = str "ok" /\
    s_given (inner demo_s6) ++ write_buf demo_s6 = base ++ w.
Proof.
  exact (ss_stream_sends_frames demo_rsrc demo_wsrc [] _ _ _ _ demo_run (demo_start_reader _) (demo_start_writer _)).
Defined.

Lemma demo_chunks_ok : Forall chunk_ok demo_sent.
Proof. constructor; [|constructor; [|constructor]]; split; apply Nat.leb_le; vm_compute; done. Qed.

(** From the start, with a wait and pieces of several sizes: five reads, one of
    them waiting, return both payloads and the end. *)
Lemma ss_stream_delivers_witness :
  delivers ([] ++ demo_wire) ([] ++ mjoin demo_sent) [] (demo_server demo_pieces) /\
  let '(rs, s') := read_polls [100; 3; 100; 100; 100] (demo_server demo_pieces) in
  hands_over demo_wire (inner (demo_server demo_pieces)) (inner s') /\
  rs = [Ok None; Ok (Some (str "hel")); Ok (Some (str "lo")); Ok (Some (str "bye")); Ok (Some [])].
Proof.
  split.
  - apply (ss_stream_delivers demo_rsrc demo_wsrc [] (demo_server demo_pieces) [] [] (demo_server demo_pieces)
      demo_cipher 2 [] demo_sent demo_wire).
    + apply run_start.
    + apply demo_start_reader.
    + apply demo_start_writer.
    + constructor.
    + exact demo_chunks_ok.
    + vm_compute; reflexivity.
    + done.
  - vm_compute. split; [|reflexivity]. split; [by exists []|]. intros k Hk.
    do 7 (destruct k as [|k]; [try done|]); [|lia].
    split; [done|]. intros j Hj. by replace j with 6 by lia.
Defined.

(** A stream cut inside a length block looks like a clean end: ten bytes of the
    block arrived, then the peer's connection closed, and the read reports the
    end of the stream. *)
Example truncated_length_block_is_eof :
  (ss_poll_read 100 (demo_server [RData (take 10 demo_wire)])).1 = Ok (Some []) /\
  (ss_poll_read 100 (demo_server [RData (take 18 demo_wire); RData [x00]])).1 = Err SsUnexpectedEof.
Proof. vm_compute. done. Qed.
