(* ===== verification/ShadowsocksTcp.v ===== *)
(** * Shadowsocks over TCP: the replay window, connect and accept

    Models [crates/eggress-protocol-shadowsocks/src/tcp.rs].  The handshakes use
    the transport as a byte stream ([Stream.conn]); the transport they hand to the
    AEAD adapter is the argument [i], as later polls see it.  The process-wide
    replay window is a state that [shadowsocks_accept] passes on.  Metrics calls
    do not change the results and are left out. *)

From S2P Require Import Prelude Bytes Stream NetAddr Relay Shadowsocks ShadowsocksStream.

(** ** The salt replay window *)

Definition MAX_SEEN_TCP_SALTS : nat := Z.to_nat 4096.

Record SaltReplayWindow := { seen : gset bytes; order : list bytes }.

Definition window_init : SaltReplayWindow := {| seen := ∅; order := [] |}.

(** [true]: the salt was already seen.  The lock makes a call atomic. *)
Definition check_tcp_salt_replay (w : SaltReplayWindow) (salt : bytes) : bool * SaltReplayWindow :=
  if bool_decide (salt ∈ seen w) then (true, w) else
  let w1 :=
    if MAX_SEEN_TCP_SALTS <=? length (order w) then
      match order w with
      | oldest :: rest => {| seen := seen w ∖ {[oldest]}; order := rest |}
      | [] => w
      end
    else w in
  (false, {| seen := seen w1 ∪ {[salt]}; order := order w1 ++ [salt] |}).

(** The window after a sequence of handshakes. *)
Definition window_after (w : SaltReplayWindow) (l : list bytes) : SaltReplayWindow :=
  foldl (fun w salt => (check_tcp_salt_replay w salt).2) w l.

(** ** Handshakes *)

Section tcp.
Context `{HCr : !Crypto}.

(** [salt]: what the random generator returned. *)
Definition shadowsocks_connect (i : stream) (target : TargetAddr) (m : CipherMethod) (password salt : bytes)
    : M ShadowsocksError ss_stream :=
  let! subkey := mlift (derive_key m password salt) in
  let! address := mlift (encode_address target) in
  let addr_nonce := replicate (nonce_size m) x00 in
  let! addr_wire := mlift (encrypt_chunk_standard m subkey addr_nonce address) in
  write_all (salt ++ addr_wire) ;;
  flush ;;
  mlift (new_client i m subkey password).

(** [n[0] = 1]: the nonce of the address payload. *)
Definition nonce_one (m : CipherMethod) : bytes := <[0 := x01]> (replicate (nonce_size m) x00).

Definition decrypt_err (e : ShadowsocksError) : ShadowsocksError := DecryptionFailed "decryption failed".

(** [shadowsocks_accept] after the replay check. *)
Definition accept_body (i : stream) (password : bytes) (m : CipherMethod) (salt : bytes)
    : M ShadowsocksError (ss_stream * TargetAddr) :=
  let! subkey := mlift (derive_key m password salt) in
  let len_block_size := 2 + tag_size m in
  let! len_block := read_exact len_block_size in
  let len_nonce := replicate (nonce_size m) x00 in
  let! len_plaintext := mlift (map_err decrypt_err (aead_decrypt_raw m subkey len_nonce len_block)) in
  if negb (length len_plaintext =? 2)%nat
  then mthrow (DecryptionFailed "invalid length block plaintext") else
  let! hi := mlift (index len_plaintext 0) in
  let! lo := mlift (index len_plaintext 1) in
  let addr_len := Z.to_nat (u16_from_be hi lo) in
  if MAX_CHUNK_PAYLOAD <? addr_len
  then mthrow (DecryptionFailed "address length exceeds maximum") else
  let! addr_block := read_exact (addr_len + tag_size m) in
  let! address_plaintext :=
    mlift (map_err decrypt_err (aead_decrypt_raw m subkey (nonce_one m) addr_block)) in
  let! (target_addr, consumed) := mlift (decode_address address_plaintext) in
  let! ss := mlift (new_server i m subkey true password) in
  let! rest := mlift (slice_from address_plaintext consumed) in
  mret (prepend_read_plaintext ss rest, target_addr).

Definition shadowsocks_accept (w : SaltReplayWindow) (i : stream) (password : bytes) (m : CipherMethod)
    (c : conn) : outcome ShadowsocksError (ss_stream * TargetAddr) * conn * SaltReplayWindow :=
  match read_exact (E:=ShadowsocksError) (salt_size m) c with
  | (Ok salt, c) =>
      let '(replayed, w') := check_tcp_salt_replay w salt in
      if replayed then (Err (DecryptionFailed "replayed salt"), c, w')
      else let '(r, c) := accept_body i password m salt c in (r, c, w')
  | (Err e, c) => (Err e, c, w)
  | (Panic, c) => (Panic, c, w)
  end.
End tcp.

(** ** The window is a FIFO of the most recent salts *)

Definition window_inv (w : SaltReplayWindow) : Prop :=
  seen w = list_to_set (order w) /\ NoDup (order w) /\ length (order w) <= MAX_SEEN_TCP_SALTS.

Lemma window_init_inv : window_inv window_init.
Proof. split_and!; [done|constructor|simpl; lia]. Qed.

Lemma window_replayed w salt :
  window_inv w -> (check_tcp_salt_replay w salt).1 = bool_decide (salt ∈ order w).
Proof.
  intros (Hs & _). unfold check_tcp_salt_replay. rewrite Hs.
  repeat case_bool_decide; set_solver.
Qed.

(** The last [k] elements. *)
Definition lastn {A} (k : nat) (l : list A) : list A := drop (length l - k) l.

Lemma lastn_all {A} k (l : list A) : length l <= k -> lastn k l = l.
Proof. intros H. unfold lastn. replace (length l - k) with 0 by lia. apply drop_0. Qed.

Lemma lastn_app {A} k (a b : list A) : lastn k (lastn k a ++ b) = lastn k (a ++ b).
Proof.
  unfold lastn. rewrite !length_app, length_drop.
  destruct (decide (length a <= k)) as [Ha|Ha].
  - replace (length a - k) with 0 by lia. by rewrite drop_0, Nat.sub_0_r.
  - replace (length a + length b - k) with ((length a - k) + length b) by lia.
    rewrite <- drop_drop, (drop_app_le a) by lia. f_equal. lia.
Qed.

(** Recording a new salt: the oldest one leaves a full window. *)
Lemma window_record w salt :
  window_inv w -> salt ∉ order w ->
  exists w', check_tcp_salt_replay w salt = (false, w') /\ window_inv w' /\
    order w' = lastn MAX_SEEN_TCP_SALTS (order w ++ [salt]).
Proof.
  intros (Hs & Hnd & Hl) Hnew. unfold check_tcp_salt_replay. rewrite bool_decide_false by (rewrite Hs; set_solver).
  assert (0 < MAX_SEEN_TCP_SALTS) as Hpos by (unfold MAX_SEEN_TCP_SALTS; lia).
  eexists. split; [done|]. destruct (Nat.leb_spec MAX_SEEN_TCP_SALTS (length (order w))) as [Hf|Hf].
  - destruct (order w) as [|x rest] eqn:Ho; [cbn [length] in Hf; lia|].
    apply NoDup_cons in Hnd as [Hx Hnd]. unfold window_inv. cbn [seen order length] in *. rewrite Hs.
    split; [split_and!; [|apply NoDup_app; split_and!; [done|set_solver|apply NoDup_singleton]|]|].
    + rewrite list_to_set_app_L. cbn. set_solver.
    + rewrite length_app. cbn [length]. lia.
    + unfold lastn. rewrite length_app. cbn [length app].
      replace (S (length rest) + 1 - MAX_SEEN_TCP_SALTS) with 1 by lia. done.
  - unfold window_inv. cbn [seen order]. rewrite Hs, length_app. cbn [length].
    split; [split_and!; [|apply NoDup_app; split_and!; [done|set_solver|apply NoDup_singleton]|lia]|].
    + rewrite list_to_set_app_L. cbn. set_solver.
    + rewrite lastn_all; [done|]. rewrite length_app. cbn [length]. lia.
Qed.

Lemma window_step_inv w salt : window_inv w -> window_inv (check_tcp_salt_replay w salt).2.
Proof.
  intros Hi. destruct (decide (salt ∈ order w)) as [Hin|Hnew].
  - unfold check_tcp_salt_replay. rewrite bool_decide_true; [done|]. destruct Hi as [-> _]. set_solver.
  - destruct (window_record w salt Hi Hnew) as (w' & -> & Hi' & _). exact Hi'.
Qed.

Lemma window_after_inv w l : window_inv w -> window_inv (window_after w l).
Proof.
  unfold window_after. revert w. induction l as [|x l IH]; intros w Hi; [done|].
  cbn. apply IH. by apply window_step_inv.
Qed.

(** Fresh salts push the window on: it holds the most recent ones. *)
Lemma window_after_fresh l : forall w,
  window_inv w -> NoDup l -> (forall x, x ∈ l -> x ∉ order w) ->
  order (window_after w l) = lastn MAX_SEEN_TCP_SALTS (order w ++ l).
Proof.
  unfold window_after. induction l as [|x l IH]; intros w Hi Hnd Hd.
  { cbn [foldl]. rewrite app_nil_r, lastn_all; [done|]. apply Hi. }
  cbn [foldl]. apply NoDup_cons in Hnd as [Hx Hnd].
  destruct (window_record w x Hi) as (w' & Hc & Hi' & Ho); [set_solver|]. rewrite Hc. cbn [snd].
  rewrite IH; [|done|done|].
  - by rewrite Ho, lastn_app, <- app_assoc.
  - intros y Hy. rewrite Ho. unfold lastn. intros Hin.
    assert (y ∈ order w ++ [x]) as Hy'; [|set_solver].
    rewrite <- (take_drop (length (order w ++ [x]) - MAX_SEEN_TCP_SALTS) (order w ++ [x])).
    apply elem_of_app. by right.
Qed.

(** A recorded salt stays in the window while fewer than 4096 handshakes follow. *)
Lemma window_keeps salt l : forall w pre post,
  window_inv w -> order w = pre ++ salt :: post -> length post + length l < MAX_SEEN_TCP_SALTS ->
  salt ∈ order (window_after w l).
Proof.
  unfold window_after. induction l as [|x l IH]; intros w pre post Hi Ho Hl; cbn [foldl length] in *.
  { rewrite Ho. set_solver. }
  destruct (decide (x ∈ order w)) as [Hin|Hnew].
  - assert ((check_tcp_salt_replay w x).2 = w) as ->.
    { unfold check_tcp_salt_replay. rewrite bool_decide_true; [done|]. destruct Hi as [-> _]. set_solver. }
    apply (IH w pre post); [done|done|lia].
  - destruct (window_record w x Hi Hnew) as (w' & -> & Hi' & Ho'). cbn [snd].
    set (k := length (order w ++ [x]) - MAX_SEEN_TCP_SALTS).
    apply (IH w' (drop k pre) (post ++ [x])); [done| |rewrite length_app; cbn [length]; lia].
    rewrite Ho'. unfold lastn. fold k. rewrite Ho, <- app_assoc. cbn [app]. rewrite drop_app_le; [done|].
    subst k. rewrite Ho, !length_app. cbn [length]. lia.
Qed.

(** The reference: a handshake is a replay when its salt is among the last 4096
    salts that were accepted; an accepted salt joins the history. *)
Fixpoint accepted_salts (acc past : list bytes) : list bytes :=
  match past with
  | [] => acc
  | x :: l => accepted_salts (if decide (x ∈ lastn MAX_SEEN_TCP_SALTS acc) then acc else acc ++ [x]) l
  end.

Lemma window_accepted past : forall w acc,
  window_inv w -> order w = lastn MAX_SEEN_TCP_SALTS acc ->
  order (window_after w past) = lastn MAX_SEEN_TCP_SALTS (accepted_salts acc past).
Proof.
  unfold window_after. induction past as [|x l IH]; intros w acc Hi Ho; [done|]. cbn [foldl accepted_salts].
  rewrite <- Ho. case_decide as Hx.
  - assert ((check_tcp_salt_replay w x).2 = w) as ->; [|by apply IH].
    unfold check_tcp_salt_replay. rewrite bool_decide_true; [done|]. destruct Hi as [-> _]. set_solver.
  - destruct (window_record w x Hi Hx) as (w' & -> & Hi' & Ho'). apply IH; [done|].
    cbn [snd]. by rewrite Ho', Ho, lastn_app.
Qed.

Lemma accepted_salts_past past : forall acc x, x ∈ accepted_salts acc past -> x ∈ acc \/ x ∈ past.
Proof.
  induction past as [|y l IH]; intros acc x Hx; cbn [accepted_salts] in Hx; [by left|].
  apply IH in Hx. case_decide; set_solver.
Qed.

Lemma lastn_elem {A} k (l : list A) x : x ∈ lastn k l -> x ∈ l.
Proof. unfold lastn. intros H. rewrite <- (take_drop (length l - k) l). apply elem_of_app. by right. Qed.

(** C22. The replay window, after any history of handshakes: a salt is refused
    exactly when it is among the last 4096 accepted ones, which are pairwise
    different; so a salt that was never presented is accepted, and one that was
    just accepted is refused in each of the next 4096 handshakes, of any kind; the
    window never holds more than 4096 salts. *)
Theorem replay_window_exact past salt :
  (check_tcp_salt_replay (window_after window_init past) salt).1 =
    bool_decide (salt ∈ lastn MAX_SEEN_TCP_SALTS (accepted_salts [] past)) /\
  NoDup (lastn MAX_SEEN_TCP_SALTS (accepted_salts [] past)) /\
  (salt ∉ past -> (check_tcp_salt_replay (window_after window_init past) salt).1 = false) /\
  (forall l w1, check_tcp_salt_replay (window_after window_init past) salt = (false, w1) ->
     length l < MAX_SEEN_TCP_SALTS -> (check_tcp_salt_replay (window_after w1 l) salt).1 = true) /\
  length (order (window_after window_init past)) <= MAX_SEEN_TCP_SALTS /\
  size (seen (window_after window_init past)) <= MAX_SEEN_TCP_SALTS.
Proof.
  set (w := window_after window_init past).
  assert (window_inv w) as Hi by apply window_after_inv, window_init_inv.
  assert (order w = lastn MAX_SEEN_TCP_SALTS (accepted_salts [] past)) as Ho
    by (apply window_accepted; [apply window_init_inv|done]).
  assert (Hi' := Hi). destruct Hi' as (Hs & Hnd & Hl). rewrite <- Ho. split_and!; try done.
  - by apply window_replayed.
  - intros Hnew. rewrite window_replayed by done. apply bool_decide_eq_false. rewrite Ho.
    intros [Hin|Hin]%lastn_elem%accepted_salts_past; [by apply not_elem_of_nil in Hin|done].
  - intros l w1 Hc Hlen.
    assert (salt ∉ order w) as Hnew.
    { pose proof (window_replayed w salt Hi) as Hr. rewrite Hc in Hr. by case_bool_decide. }
    destruct (window_record w salt Hi Hnew) as (w' & Hc' & Hi' & Ho').
    rewrite Hc in Hc'. injection Hc' as <-.
    rewrite window_replayed by (by apply window_after_inv). apply bool_decide_eq_true.
    apply (window_keeps salt l w1 (drop (length (order w ++ [salt]) - MAX_SEEN_TCP_SALTS) (order w)) []); [done| |done].
    rewrite Ho'. unfold lastn. rewrite drop_app_le; [done|].
    rewrite length_app. unfold MAX_SEEN_TCP_SALTS. cbn [length]. lia.
  - rewrite Hs, size_list_to_set by done. done.
Qed.

(** The reference on a short history with a repetition. *)
Example accepted_salts_demo :
  accepted_salts [] [[x01]; [x02]; [x01]; [x03]] = [[x01]; [x02]; [x03]] /\
  (check_tcp_salt_replay (window_after window_init [[x01]; [x02]; [x01]; [x03]]) [x02]).1 = true /\
  (check_tcp_salt_replay (window_after window_init [[x01]; [x02]; [x01]; [x03]]) [x04]).1 = false.
Proof. vm_compute. done. Qed.

(** ** The handshakes *)

Section handshake.
Context `{HCr : !Crypto, HLaws : !CryptoLaws}.

Lemma zero_nonce_at m : replicate (nonce_size m) x00 = nonce_at 0.
Proof. done. Qed.

Lemma nonce_one_at m : nonce_one m = nonce_at 1.
Proof. done. Qed.

(** The first nonces are consecutive, so the header is an ordinary frame. *)
Lemma encrypt_chunk_standard_frame m k p f :
  length k = key_size m -> length p <= MAX_CHUNK_PAYLOAD ->
  encrypt_chunk_standard m k (nonce_at 0) p = Ok f <->
  frame {| ac_method := m; ac_key := k |} 0 p = Some f.
Proof.
  intros Hk Hp. unfold encrypt_chunk_standard. rewrite (proj2 (Nat.ltb_ge _ _)) by done.
  rewrite (proj2 (cipher_new_ok m k _) (conj eq_refl Hk)). cbn [obind].
  apply encrypt_chunk_with_frame; done.
Qed.

(** The client's half: header on the wire, stream keyed for the rest. *)
Lemma connect_ok i target m password salt c :
  target_typed target -> addr_encodable target -> length salt = salt_size m -> c_quota c = None ->
  exists k addr f s, derive_key m password salt = Ok k /\ length k = key_size m /\
    encode_address target = Ok addr /\ frame {| ac_method := m; ac_key := k |} 0 addr = Some f /\
    new_client i m k password = Ok s /\
    shadowsocks_connect i target m password salt c =
      (Ok s, Conn (c_in c) (c_end c) (c_out c ++ salt ++ f) None).
Proof.
  intros Ht He Hs Hq. destruct (derive_key_ok m password salt) as (k & Hk & Hkl).
  destruct (encode_address_total target He) as [addr Ha].
  pose proof (encode_address_length _ _ Ha Ht) as Hal.
  assert (length addr <= MAX_CHUNK_PAYLOAD) as Hmax by (unfold MAX_CHUNK_PAYLOAD; lia).
  destruct (frame_total {| ac_method := m; ac_key := k |} 0 addr Hkl Hmax) as [f Hf].
  assert (exists s, new_client i m k password = Ok s) as [s Hns].
  { unfold new_client. rewrite (proj2 (cipher_new_ok m k _) (conj eq_refl Hkl)). by eexists. }
  exists k, addr, f, s. split_and!; [done..|]. unfold shadowsocks_connect.
  erewrite mbind_fwd by (unfold mlift; by rewrite Hk). erewrite mbind_fwd by (unfold mlift; by rewrite Ha).
  rewrite zero_nonce_at.
  erewrite mbind_fwd by (unfold mlift; by rewrite (proj2 (encrypt_chunk_standard_frame m k addr f Hkl Hmax) Hf)).
  destruct c as [cin ce co q]. cbn [c_in c_end c_out c_quota] in *. subst q.
  erewrite mbind_fwd by apply write_all_fwd. erewrite mbind_fwd by done. unfold mlift. by rewrite Hns.
Qed.

Lemma aead_decrypt_raw_sealed m k z p ct :
  length k = key_size m -> seal_at {| ac_method := m; ac_key := k |} z p = Some ct ->
  aead_decrypt_raw m k (nonce_at z) ct = Ok p.
Proof.
  intros Hk Hs. apply aead_decrypt_raw_ok. split_and!; [done|apply nonce_at_length|]. by apply open_seal in Hs.
Qed.

(** The server's half, on a header that is an honest frame. *)
Lemma accept_body_complete i password m salt k t addr rest f s r e o q :
  derive_key m password salt = Ok k -> length k = key_size m -> target_typed t -> encode_address t = Ok addr ->
  length (addr ++ rest) <= MAX_CHUNK_PAYLOAD ->
  frame {| ac_method := m; ac_key := k |} 0 (addr ++ rest) = Some f -> new_server i m k true password = Ok s ->
  accept_body i password m salt (Conn (f ++ r) e o q) =
    (Ok (prepend_read_plaintext s rest, t), Conn r e o q).
Proof.
  intros Hk Hkl Ht Ha Hl Hf Hs. unfold frame in Hf.
  destruct (seal_at _ 0 _) as [a|] eqn:Ea; [|done]. cbn [mbind option_bind] in Hf.
  destruct (seal_at _ (0 + 1) _) as [b|] eqn:Eb; [|done]. injection Hf as <-.
  pose proof (open_length _ _ _ _ _ (open_seal _ _ _ _ _ Ea)) as Hla. rewrite len_bytes_length in Hla.
  pose proof (open_length _ _ _ _ _ (open_seal _ _ _ _ _ Eb)) as Hlb.
  destruct (len_bytes_value (length (addr ++ rest))) as (hi & lo & Hhl & Hv); [unfold MAX_CHUNK_PAYLOAD in Hl; lia|].
  unfold accept_body, tag_size. erewrite mbind_fwd by (unfold mlift; by rewrite Hk). cbv zeta.
  rewrite <- app_assoc, zero_nonce_at, nonce_one_at. erewrite mbind_fwd by (by apply read_exact_fwd).
  erewrite mbind_fwd by (unfold mlift; by rewrite (aead_decrypt_raw_sealed m k 0 _ a Hkl Ea)).
  rewrite Hhl. cbn [length Nat.eqb negb]. erewrite mbind_fwd by done. erewrite mbind_fwd by done. rewrite Hv.
  rewrite (proj2 (Nat.ltb_ge _ _)) by done. erewrite mbind_fwd by (by apply read_exact_fwd).
  erewrite mbind_fwd by (unfold mlift; by rewrite (aead_decrypt_raw_sealed m k 1 _ b Hkl Eb)).
  erewrite mbind_fwd by (unfold mlift; by rewrite (decode_encode_address t addr rest)). cbv beta iota.
  erewrite mbind_fwd by (unfold mlift; by rewrite Hs).
  erewrite mbind_fwd by (unfold mlift; by rewrite slice_from_app). done.
Qed.

(** What an accepted handshake consumed. *)
Lemma accept_body_sound `{HT : !TightAead} i password m salt c ss t c' :
  accept_body i password m salt c = (Ok (ss, t), c') ->
  exists k addr rest f s, derive_key m password salt = Ok k /\ length k = key_size m /\
    target_typed t /\ encode_address t = Ok addr /\ length (addr ++ rest) <= MAX_CHUNK_PAYLOAD /\
    frame {| ac_method := m; ac_key := k |} 0 (addr ++ rest) = Some f /\
    new_server i m k true password = Ok s /\ ss = prepend_read_plaintext s rest /\ io f [] c c'.
Proof.
  unfold accept_body, tag_size. rewrite zero_nonce_at, nonce_one_at. cbv zeta. intros H.
  apply mbind_ok in H as (k & c0 & Hk & H). injection Hk as Hk <-.
  apply mbind_ok in H as (a & c1 & Hra & H). apply read_exact_io in Hra as [Hla Hia].
  apply mbind_ok in H as (lp & c1' & Hd & H). injection Hd as Hd <-.
  destruct (Nat.eqb_spec (length lp) 2) as [Hlp|]; cbn [negb] in H; [|done].
  destruct lp as [|hi [|lo [|]]]; try done. apply mbind_ok in H as (? & ? & [= <- <-] & H).
  apply mbind_ok in H as (? & ? & [= <- <-] & H).
  destruct (Nat.ltb_spec MAX_CHUNK_PAYLOAD (Z.to_nat (u16_from_be hi lo))) as [|Hmax]; [done|].
  apply mbind_ok in H as (b & c2 & Hrb & H). apply read_exact_io in Hrb as [Hlb Hib].
  apply mbind_ok in H as (ap & ? & Hd2 & H). injection Hd2 as Hd2 <-.
  apply mbind_ok in H as ([t' n] & ? & Hdec & H). injection Hdec as Hdec <-. cbv beta iota in H.
  apply mbind_ok in H as (s & ? & Hns & H). injection Hns as Hns <-.
  apply mbind_ok in H as (rest & ? & Hsl & H). injection Hsl as Hsl <-.
  injection H as <- <- <-. apply slice_from_ok in Hsl as [Hn ->].
  apply decode_address_sound in Hdec as (Ht & _ & Ha).
  destruct (aead_decrypt_raw m k (nonce_at 0) a) as [p1| |] eqn:E1; [|done..]. injection Hd as ->.
  destruct (aead_decrypt_raw m k (nonce_at 1) b) as [p2| |] eqn:E2; [|done..]. injection Hd2 as ->.
  apply aead_decrypt_raw_ok in E1 as (Hkl & _ & E1), E2 as (_ & _ & E2).
  pose proof (open_length _ _ _ _ _ E2) as Hap.
  exists k, (take n ap), (drop n ap), (a ++ b), s. rewrite take_drop.
  assert (length ap = Z.to_nat (u16_from_be hi lo)) as Hapl by lia.
  split_and!; try done; [lia| |].
  - unfold frame, seal_at. cbn [ac_method ac_key]. rewrite Hapl, <- len_bytes_inv, (seal_open _ _ _ _ _ E1). cbn [mbind option_bind].
    change (0 + 1)%Z with 1%Z. by rewrite (seal_open _ _ _ _ _ E2).
  - pose proof (io_trans _ _ _ _ _ _ _ Hia Hib) as Hio. exact Hio.
Qed.
End handshake.

(** ** Sessions *)

Section session.
Context `{HCr : !Crypto, HLaws : !CryptoLaws, HT : !TightAead}.

Lemma ikm_long m password : key_size m <= length (password_key_material password).
Proof. unfold password_key_material. rewrite evp_length. destruct m; simpl; lia. Qed.

#[local] Opaque password_key_material evp_bytes_to_key.

(** The streams the handshakes return start both directions where the other end
    expects them. *)
Lemma new_server_start i m k password s rest :
  new_server i m k true password = Ok s ->
  start_reader (Keyed {| ac_method := m; ac_key := k |} 2 (s_taken i)) rest (prepend_read_plaintext s rest) /\
  start_writer (FromSalt m (password_key_material password) (s_given i)) (prepend_read_plaintext s rest).
Proof.
  unfold new_server. cbn [negb]. intros H. apply obind_ok in H as (c & Hc & [= <-]).
  apply cipher_new_ok in Hc as [-> _]. pose proof (ikm_long m password).
  unfold prepend_read_plaintext. case_bool_decide as Hr; [subst rest|];
    (split; [split_and!; done|]; unfold start_writer, unsent_salt; cbn; split_and!; try done; apply app_nil_r).
Qed.

Lemma new_client_start i m k password s :
  new_client i m k password = Ok s ->
  start_reader (FromSalt m (password_key_material password) (s_taken i)) [] s /\
  start_writer (Keyed {| ac_method := m; ac_key := k |} 2 (s_given i)) s.
Proof.
  unfold new_client. intros H. apply obind_ok in H as (c & Hc & [= <-]).
  apply cipher_new_ok in Hc as [-> Hk]. pose proof (ikm_long m password).
  split; [split_and!; try done|split_and!; try done; by rewrite app_nil_r].
  unfold unkeyed_inv. cbn. split_and!; try done; [by rewrite app_nil_r|lia].
Qed.

(** A Shadowsocks server accepts a connection only from a holder of the
    password with a fresh salt: the bytes it consumed are a salt that is not in
    the replay window and the frame, sealed under the key derived from password
    and salt with the first two nonces, of the encoding of the returned target
    and possibly first data; that data is what the stream returns first, the
    following frames are read from nonce 2 on, and the salt is now in the window. *)
Theorem ss_accept_authentic w i password m c ss t c' w' :
  window_inv w -> shadowsocks_accept w i password m c = (Ok (ss, t), c', w') ->
  exists salt k addr rest f,
    length salt = salt_size m /\ salt ∉ order w /\ salt ∈ order w' /\ window_inv w' /\
    derive_key m password salt = Ok k /\ target_typed t /\ encode_address t = Ok addr /\
    frame {| ac_method := m; ac_key := k |} 0 (addr ++ rest) = Some f /\ io (salt ++ f) [] c c' /\
    start_reader (Keyed {| ac_method := m; ac_key := k |} 2 (s_taken i)) rest ss /\
    start_writer (FromSalt m (password_key_material password) (s_given i)) ss.
Proof.
  intros Hi. unfold shadowsocks_accept.
  destruct (read_exact (salt_size m) c) as [[salt|e|] c1] eqn:Hr; [|done..].
  apply read_exact_io in Hr as [Hl Hio]. pose proof (window_replayed w salt Hi) as Hrep.
  destruct (decide (salt ∈ order w)) as [Hin|Hnew].
  { destruct (check_tcp_salt_replay w salt) as [b w1]. cbn [fst] in Hrep.
    rewrite bool_decide_true in Hrep by done. by subst b. }
  destruct (window_record w salt Hi Hnew) as (w1 & -> & Hi1 & Ho).
  destruct (accept_body i password m salt c1) as [r c2] eqn:Hb. intros [= -> <- <-].
  apply accept_body_sound in Hb as (k & addr & rest & f & s & Hk & Hkl & Ht & Ha & _ & Hf & Hs & -> & Hio2).
  destruct (new_server_start i m k password s rest Hs) as [Hsr Hsw].
  exists salt, k, addr, rest, f. split_and!; try done.
  - rewrite Ho. unfold lastn. rewrite drop_app_le; [set_solver|].
    rewrite length_app. unfold MAX_SEEN_TCP_SALTS. cbn [length]. lia.
  - pose proof (io_trans _ _ _ _ _ _ _ Hio Hio2) as H. exact H.
Qed.

(** What one end has returned is a prefix of what the other end accepted. *)
Lemma prefix_delivered src s out s2 acc :
  reader_inv src [] s out -> writer_inv src s2 acc ->
  s_taken (inner s) `prefix_of` s_given (inner s2) -> out `prefix_of` acc.
Proof.
  intros [[_ Ho]|(c & z & base & chunks & w & Hb & Hk & Ho)] Hw Hp.
  { apply app_eq_nil in Ho as [-> _]. apply prefix_nil. }
  destruct Hk as (_ & _ & _ & Hf & Hok & Hst).
  assert (exists x, s_taken (inner s) = base ++ w ++ x) as [x Hx]
    by (destruct (read_state s); try done; [destruct Hst as (_ & -> & _)|destruct Hst as (_ & _ & _ & a & _ & ->)]; by eexists).
  destruct Hw as [Hu|(c' & z' & b' & ch & w' & Hb' & _ & _ & _ & _ & _ & _ & _ & Hf' & Hok' & <- & Hg)].
  - destruct src as [|m ikm b0]; [done|]. destruct Hu as (_ & _ & _ & _ & _ & Hg & _).
    inversion Hb as [|? ? ? salt k Hs Hk]; subst. destruct Hp as [y Hy]. exfalso.
    apply (f_equal length) in Hy. rewrite Hx, !length_app in Hy.
    assert (0 < salt_size m) by (destruct m; simpl; lia). lia.
  - assert ((base ++ w ++ x) `prefix_of` (b' ++ w')) as Hpre.
    { rewrite <- Hx, <- Hg. etransitivity; [exact Hp|]. by eexists. }
    eapply (honest_chunks src c' z' b' ch w' c z base chunks w) in Hpre as (_ & _ & _ & rest & wr & -> & _); [|done..].
    rewrite mjoin_app_bytes. cbn [app] in Ho. rewrite <- Ho, <- app_assoc. by eexists.
Qed.

(** What a writer with nothing queued has sent is what an honest peer sends for
    the plaintext it accepted. *)
Lemma writer_honest src s acc :
  writer_inv src s acc -> write_buf s = [] -> (forall c z base, keyed_by src c z base -> (z <= 2)%Z) ->
  (Z.of_nat (length acc) < 2 ^ 62)%Z -> honest_wire src (s_given (inner s)) acc.
Proof.
  intros Hw Hb Hz Hl.
  destruct Hw as [Hu|(c & z & b & ch & w & Hk & _ & _ & _ & _ & _ & _ & _ & Hf & Hok & <- & Hg)].
  - destruct src as [|m ikm b0]; [done|]. destruct Hu as (_ & _ & _ & _ & _ & Hg & ->).
    rewrite Hb, app_nil_r in Hg. rewrite Hg. constructor.
  - rewrite Hb, app_nil_r in Hg. rewrite Hg. econstructor; [done..|].
    apply chunks_bound in Hok. apply Hz in Hk. change (2 ^ 64)%Z with (4 * 2 ^ 62)%Z. lia.
Qed.

(** One direction of a session, from the writing end [s2], which has accepted
    [acc], to the reading end [s], which has returned [out]: what was returned is a
    prefix of what was accepted; when nothing is queued at the writing end and the
    transport hands over what it was given, reads deliver all of it; and a
    transport that takes something of every write makes the writer accept whole
    chunks and queue nothing. *)
Definition one_way (s s2 : ss_stream) (out acc : bytes) : Prop :=
  (s_taken (inner s) `prefix_of` s_given (inner s2) -> out `prefix_of` acc) /\
  ((Z.of_nat (length acc) < 2 ^ 62)%Z ->
   (write_buf s2 = [] -> delivers (s_given (inner s2)) acc out s) /\
   (forall rng buf, length rng = salt_size (method s2) -> accepts (inner s2) ->
      exists s2', ss_poll_write rng buf s2 = (Ok (Some (min (length buf) MAX_CHUNK_PAYLOAD)), s2') /\
        write_buf s2' = [])).

Lemma one_way_inv src s s2 out acc :
  reader_inv src [] s out -> writer_inv src s2 acc ->
  (forall c z base, keyed_by src c z base -> (z <= 2)%Z) -> one_way s s2 out acc.
Proof.
  intros Hr Hw Hz. split; [by eapply prefix_delivered|]. intros Hl. split.
  - intros Hb. by apply (delivers_honest src [] s out _ acc), writer_honest.
  - intros rng buf Hrng Ha. by eapply poll_write_accepts.
Qed.

(** C4. A Shadowsocks session end to end: a client that connects to a server with
    the same method and password, under a salt the server has not seen, is
    accepted with exactly the target it asked for; from then on, in both
    directions and after every interleaving of polls on both ends: what one end
    has read is a prefix of what the other end accepted for writing as long as the
    network hands over a prefix of what was sent; once everything accepted was
    sent and the network hands it over, repeated reads return all of it, and the
    end of the stream only then; and a network that takes something of every
    write makes the writer accept a chunk per write (up to 2^62 bytes, far below
    the nonce limit). *)
Theorem ss_end_to_end ic is_ w target m password salt c0 :
  target_typed target -> addr_encodable target -> length salt = salt_size m ->
  window_inv w -> salt ∉ order w -> c_quota c0 = None ->
  s_taken ic = [] -> s_given ic = [] -> s_taken is_ = [] -> s_given is_ = [] ->
  exists cs ss w' hdr,
    shadowsocks_connect ic target m password salt c0 =
      (Ok cs, Conn (c_in c0) (c_end c0) (c_out c0 ++ hdr) None) /\
    (forall r e o q, shadowsocks_accept w is_ password m (Conn (hdr ++ r) e o q) =
      (Ok (ss, target), Conn r e o q, w')) /\
    forall outc accc cs' outs accs ss', run cs outc accc cs' -> run ss outs accs ss' ->
      one_way ss' cs' outs accc /\ one_way cs' ss' outc accs.
Proof.
  intros Ht He Hs Hi Hnew Hq Hct Hcg Hst Hsg.
  destruct (connect_ok ic target m password salt c0 Ht He Hs Hq) as (k & addr & f & cs & Hk & Hkl & Ha & Hf & Hcs & Hcon).
  assert (exists s, new_server is_ m k true password = Ok s) as [ss Hss].
  { unfold new_server. rewrite (proj2 (cipher_new_ok m k _) (conj eq_refl Hkl)). by eexists. }
  destruct (window_record w salt Hi Hnew) as (w' & Hw' & _).
  destruct (new_server_start is_ m k password ss [] Hss) as [Hsr Hsw].
  destruct (new_client_start ic m k password cs Hcs) as [Hcr Hcw].
  rewrite Hct in Hcr. rewrite Hcg in Hcw. rewrite Hst in Hsr. rewrite Hsg in Hsw.
  pose proof (encode_address_length _ _ Ha Ht) as Hal.
  exists cs, (prepend_read_plaintext ss []), w', (salt ++ f). split; [exact Hcon|]. split.
  - intros r e o q. unfold shadowsocks_accept. rewrite <- app_assoc, read_exact_fwd by done. rewrite Hw'.
    rewrite (accept_body_complete is_ password m salt k target addr [] f ss); [done|done..| |by rewrite app_nil_r|done].
    rewrite app_nil_r. unfold MAX_CHUNK_PAYLOAD. lia.
  - intros outc accc cs' outs accs ss' Hrc Hrs.
    destruct (run_inv _ _ _ _ _ _ _ Hrc Hcr Hcw) as [Hcr' Hcw'].
    destruct (run_inv _ _ _ _ _ _ _ Hrs Hsr Hsw) as [Hsr' Hsw'].
    split; eapply one_way_inv; try done; inversion 1; subst; lia.
Qed.
End session.

(** ** A concrete session *)

Import SampleCrypto.

(** What a client of [sample_target] writes. *)
Definition demo_header : bytes :=
  c_out (shadowsocks_connect (demo_inner []) sample_target Aes128Gcm (str "pw") sample_salt (Conn [] None [] None)).2.
Definition demo_accepted : ss_stream :=
  match (shadowsocks_accept window_init (demo_inner []) (str "pw") Aes128Gcm (Conn demo_header None [] None)).1.1 with
  | Ok (s, _) => s
  | _ => demo_server []
  end.

Lemma ss_accept_authentic_witness :
  exists salt k addr rest f,
    length salt = salt_size Aes128Gcm /\ salt ∉ order window_init /\ salt ∈ order (window_after window_init [sample_salt]) /\
    window_inv (window_after window_init [sample_salt]) /\
    derive_key Aes128Gcm (str "pw") salt = Ok k /\ target_typed sample_target /\
    encode_address sample_target = Ok addr /\
    frame {| ac_method := Aes128Gcm; ac_key := k |} 0 (addr ++ rest) = Some f /\
    io (salt ++ f) [] (Conn demo_header None [] None) (Conn [] None [] None) /\
    start_reader (Keyed {| ac_method := Aes128Gcm; ac_key := k |} 2 (s_taken (demo_inner []))) rest demo_accepted /\
    start_writer (FromSalt Aes128Gcm (password_key_material (str "pw")) (s_given (demo_inner []))) demo_accepted.
Proof.
  apply (ss_accept_authentic window_init (demo_inner []) (str "pw") Aes128Gcm (Conn demo_header None [] None)).
  - exact window_init_inv.
  - vm_compute. reflexivity.
Defined.

Lemma ss_end_to_end_witness :
  exists cs ss w' hdr,
    shadowsocks_connect (demo_inner []) sample_target Aes128Gcm (str "pw") sample_salt (Conn [] None [] None) =
      (Ok cs, Conn [] None ([] ++ hdr) None) /\
    (forall r e o q, shadowsocks_accept window_init (demo_inner []) (str "pw") Aes128Gcm (Conn (hdr ++ r) e o q) =
      (Ok (ss, sample_target), Conn r e o q, w')) /\
    forall outc accc cs' outs accs ss', run cs outc accc cs' -> run ss outs accs ss' ->
      one_way ss' cs' outs accc /\ one_way cs' ss' outc accs.
Proof.
  apply (ss_end_to_end (demo_inner []) (demo_inner []) window_init sample_target Aes128Gcm (str "pw") sample_salt
    (Conn [] None [] None)); try reflexivity.
  - by vm_compute.
  - apply Nat.leb_le. vm_compute. reflexivity.
  - exact window_init_inv.
  - apply not_elem_of_nil.
Defined.

(** A replayed header is refused, and so is one under another password. *)
Example accept_refusals :
  (shadowsocks_accept (window_after window_init [sample_salt]) (demo_inner []) (str "pw") Aes128Gcm
     (Conn demo_header None [] None)).1.1 = Err (DecryptionFailed "replayed salt") /\
  (shadowsocks_accept window_init (demo_inner []) (str "pw") Aes256Gcm
     (Conn demo_header None [] None)).1.1 = Err (DecryptionFailed "decryption failed") /\
  (shadowsocks_accept window_init (demo_inner []) (str "pw") Aes128Gcm
     (Conn (take 20 demo_header) None [] None)).1.1 = Err (SSIo IoUnexpectedEof).
Proof. vm_compute. done. Qed.
