(* ===== verification/UdpHop.v ===== *)
(** * UDP through chains of proxies

    Models [crates/eggress-udp/src/hop.rs] (the codecs of a hop and of a stack of
    hops), [codec.rs] and [composed.rs] (setting up a composed flow).  A stack is
    encoded from the destination inward and decoded from the outside inward.
    Random salts are a function of the hop index. *)

From S2P Require Import Prelude Bytes Stream Socks5 Socks5Udp Decimal NetAddr Connector Matcher UdpSecurity Dispatch Uri Capability UdpRegistry Shadowsocks.

(** ** [codec.rs] *)

Definition decode_packet (packet : bytes) (limits : UdpLimits) : outcome UdpError Socks5UdpRequest :=
  if max_datagram_size limits <? length packet
  then Err (DatagramTooLarge (length packet) (max_datagram_size limits))
  else map_err UdpCodec (decode_socks5_udp_datagram packet).

(** ** Hops ([hop.rs]) *)

Inductive UdpHopError :=
| MultipleProtocols
| UnsupportedHopProtocol (p : ProtocolSpec)
| InvalidShadowsocksCredentials
| HopSocksCodec (e : UdpCodecError)
| HopSsCodec (e : ShadowsocksError)
| EmptyHopStack.

Inductive UdpHop :=
| HopSocks5 (ep : TargetAddr)
| HopShadowsocks (ep : TargetAddr) (m : CipherMethod) (hop_password hop_ikm : bytes).

Definition hop_endpoint (h : UdpHop) : TargetAddr :=
  match h with HopSocks5 ep | HopShadowsocks ep _ _ _ => ep end.

Section hops.
Context `{HCr : !Crypto}.

Definition hop_encode (h : UdpHop) (salt : bytes) (target : TargetAddr) (payload : bytes)
    : outcome UdpHopError bytes :=
  match h with
  | HopSocks5 _ =>
      map_err HopSocksCodec (encode_socks5_udp_datagram (target_to_socks_addr target) payload)
  | HopShadowsocks _ m _ ikm =>
      map_err HopSsCodec (encode_udp_packet_with_ikm m ikm target payload salt)
  end.

Definition hop_decode (h : UdpHop) (packet : bytes) : outcome UdpHopError (TargetAddr * bytes) :=
  match h with
  | HopSocks5 _ =>
      let? r := map_err HopSocksCodec (decode_socks5_udp_datagram packet) in
      Ok (socks_to_target_addr (ur_target r), ur_payload r)
  | HopShadowsocks _ m _ ikm => map_err HopSsCodec (decode_udp_packet_with_ikm m ikm packet)
  end.

(** [host.parse().map(Ip).unwrap_or(Domain)]. *)
Definition endpoint_target (h : bytes) (p : Z) : TargetAddr :=
  {| host := match parse_ip h with Some ip => Ip ip | None => DomainName h end; tport := p |}.

Definition from_spec (hop : ProxyHopSpec) : outcome UdpHopError UdpHop :=
  match protocols hop with
  | [p] =>
      let ep := endpoint_target (ep_host (endpoint hop)) (ep_port (endpoint hop)) in
      match p with
      | SSocks5 => Ok (HopSocks5 ep)
      | SShadowsocks =>
          let? cr := ok_or InvalidShadowsocksCredentials (credentials hop) in
          let? m := map_err (fun _ => InvalidShadowsocksCredentials) (parse_method (username cr)) in
          Ok (HopShadowsocks ep m (password cr) (password_key_material (password cr)))
      | p => Err (UnsupportedHopProtocol p)
      end
  | _ => Err MultipleProtocols
  end.

(** ** Stacks *)

Record UdpHopStack := { stack_hops : list UdpHop }.

Fixpoint from_chain_loop (l : list ProxyHopSpec) (acc : list UdpHop) : outcome UdpHopError (list UdpHop) :=
  match l with
  | [] => Ok acc
  | hop :: r => let? h := from_spec hop in from_chain_loop r (acc ++ [h])
  end.
Definition from_chain (chain : ProxyChainSpec) : outcome UdpHopError UdpHopStack :=
  let? l := from_chain_loop (hops chain) [] in Ok {| stack_hops := l |}.

Definition from_hops (l : list UdpHop) : outcome UdpHopError UdpHopStack :=
  if (length l =? 0)%nat then Err EmptyHopStack else Ok {| stack_hops := l |}.

(** The address the datagram of hop [index] is for. *)
Definition next_target (hs : list UdpHop) (target : TargetAddr) (next_targets : list TargetAddr)
    (index : nat) : outcome UdpHopError TargetAddr :=
  if (index + 1 =? length hs)%nat then Ok target
  else match next_targets !! index with
  | Some t => Ok t
  | None => let? h := hs.[index + 1] in Ok (hop_endpoint h)
  end.

(** [for index in (0..n).rev()]. *)
Fixpoint encode_loop (n : nat) (hs : list UdpHop) (salts : nat -> bytes) (target : TargetAddr)
    (next_targets : list TargetAddr) (packet : bytes) : outcome UdpHopError bytes :=
  match n with
  | O => Ok packet
  | S index =>
      let? nt := next_target hs target next_targets index in
      let? h := hs.[index] in
      let? packet := hop_encode h (salts index) nt packet in
      encode_loop index hs salts target next_targets packet
  end.

Definition encode_request_with_next_targets (st : UdpHopStack) (salts : nat -> bytes) (target : TargetAddr)
    (payload : bytes) (next_targets : list TargetAddr) : outcome UdpHopError bytes :=
  encode_loop (length (stack_hops st)) (stack_hops st) salts target next_targets payload.

Definition encode_request (st : UdpHopStack) (salts : nat -> bytes) (target : TargetAddr) (payload : bytes)
    : outcome UdpHopError bytes :=
  encode_request_with_next_targets st salts target payload [].

Fixpoint decode_loop (hs : list UdpHop) (target : option TargetAddr) (packet : bytes)
    : outcome UdpHopError (option TargetAddr * bytes) :=
  match hs with
  | [] => Ok (target, packet)
  | h :: r => let? (t, p) := hop_decode h packet in decode_loop r (Some t) p
  end.

Definition decode_response (st : UdpHopStack) (packet : bytes) : outcome UdpHopError (TargetAddr * bytes) :=
  let? (target, p) := decode_loop (stack_hops st) None packet in
  let? t := ok_or EmptyHopStack target in
  Ok (t, p).

(** ** Round trip of one hop *)

Context `{HLaws : !CryptoLaws}.

(** What [from_spec] builds. *)
Definition hop_wf (h : UdpHop) : Prop :=
  match h with
  | HopSocks5 _ => True
  | HopShadowsocks _ _ pw ikm => ikm = password_key_material pw
  end.

(** A target that a hop can name: well typed, and not the empty domain. *)
Definition hop_target (t : TargetAddr) : Prop :=
  target_typed t /\ match host t with DomainName d => d <> [] | _ => True end.

Lemma socks_target_wf t :
  target_typed t -> SocksAddr_wf (target_to_socks_addr t).
Proof.
  unfold target_typed, target_to_socks_addr. destruct t as [[[o|o]|d] p]; cbn; tauto.
Qed.

Lemma hop_decode_encode h salt t payload packet :
  hop_wf h -> hop_target t -> hop_encode h salt t payload = Ok packet ->
  length packet <= MAX_UDP_PACKET_SIZE ->
  hop_decode h packet = Ok (t, payload) /\ length payload <= length packet.
Proof.
  intros Hwf [Ht Hne] He Hlen. destruct h as [ep|ep m pw ikm]; cbn [hop_encode hop_decode] in *.
  - destruct (encode_socks5_udp_datagram _ _) as [pk| |] eqn:E; [|done..]. injection He as ->.
    unfold encode_socks5_udp_datagram in E. apply obind_ok in E as (enc & Henc & [= <-]).
    destruct (encode_reply (target_to_socks_addr t)) as [enc'| |] eqn:Hr; [|done..]. injection Henc as ->.
    assert (exists atyp e', enc = atyp :: e') as (atyp & e' & ->).
    { destruct (target_to_socks_addr t); cbn [encode_reply] in Hr; [|case_match|]; naive_solver. }
    assert (addr_wire (target_to_socks_addr t) atyp e') as Hw by (split; [by apply socks_target_wf|done]).
    rewrite (proj2 (decode_ok _ {| ur_target := target_to_socks_addr t; ur_payload := payload |})).
    + cbn. rewrite socks_target_roundtrip. split; [done|]. rewrite length_app. lia.
    + cbn [ur_target ur_payload]. split_and!; [done| |by exists atyp, e'].
      unfold nonempty_domain, target_to_socks_addr. by destruct t as [[[o|o]|d] p].
  - rewrite Hwf in *. destruct (encode_udp_packet_with_ikm _ _ _ _ _) as [pk| |] eqn:E; [|done..].
    injection He as ->. pose proof (ss_udp_decode_encode m pw t payload salt packet Ht E Hlen) as Hd.
    unfold decode_udp_packet in Hd. rewrite Hd. split; [done|].
    apply (encode_udp_packet_ok m pw t payload salt packet) in E as (Hs & k & addr & ct & _ & _ & Hc & ->).
    apply open_seal, open_length in Hc. rewrite length_app in *. lia.
Qed.

(** ** Stacks: what each relay sees *)

(** The address the datagram of the first hop of [h :: hs] is for. *)
Definition first_target (hs : list UdpHop) (target : TargetAddr) (next_targets : list TargetAddr) : TargetAddr :=
  match hs with
  | [] => target
  | h2 :: _ => default (hop_endpoint h2) (head next_targets)
  end.

Lemma next_target_cons h hs target nts index :
  next_target (h :: hs) target nts (S index) = next_target hs target (tail nts) index.
Proof.
  unfold next_target. cbn [length plus]. rewrite Nat.add_1_r. cbn [Nat.eqb].
  destruct nts as [|t nts]; cbn [tail]; [done|].
  by destruct nts.
Qed.

Lemma next_target_zero h hs target nts :
  next_target (h :: hs) target nts 0 = Ok (first_target hs target nts).
Proof.
  unfold next_target, first_target. destruct hs as [|h2 hs]; [done|]. cbn [length plus Nat.eqb].
  destruct nts; done.
Qed.

(** The loop over [h :: hs] encodes the inner hops first. *)
Lemma encode_loop_cons n : forall h hs salts target nts packet,
  encode_loop (S n) (h :: hs) salts target nts packet =
  (let? inner := encode_loop n hs (fun i => salts (S i)) target (tail nts) packet in
   hop_encode h (salts 0) (first_target hs target nts) inner).
Proof.
  induction n as [|n IH]; intros h hs salts target nts packet.
  - cbn [encode_loop]. rewrite next_target_zero. cbn [obind index lookup list_lookup].
    by destruct (hop_encode _ _ _ _).
  - cbn [encode_loop] in IH |- *. rewrite next_target_cons.
    destruct (next_target hs target (tail nts) n) as [nt| |]; cbn [obind]; [|done..].
    change (index (E:=UdpHopError) (h :: hs) (S n)) with (index (E:=UdpHopError) hs n).
    destruct (index hs n) as [h'| |]; cbn [obind]; [|done..].
    destruct (hop_encode h' _ nt packet) as [pk| |]; cbn [obind]; [|done..].
    by rewrite IH.
Qed.

(** All addresses that appear in the nested datagrams can be named. *)
Fixpoint stack_targets (hs : list UdpHop) (target : TargetAddr) (nts : list TargetAddr) : Prop :=
  match hs with
  | [] => True
  | h :: r => hop_target (first_target r target nts) /\ stack_targets r target (tail nts)
  end.

Lemma decode_encode_loop hs : forall salts target nts payload packet t0,
  Forall hop_wf hs -> stack_targets hs target nts ->
  encode_loop (length hs) hs salts target nts payload = Ok packet ->
  length packet <= MAX_UDP_PACKET_SIZE ->
  decode_loop hs t0 packet = Ok (match hs with [] => t0 | _ => Some target end, payload).
Proof.
  induction hs as [|h hs IH]; intros salts target nts payload packet t0 Hwf Hts He Hlen.
  { by injection He as <-. }
  inversion_clear Hwf as [|?? Hh Hhs]. destruct Hts as [Ht Hts]. cbn [length] in He.
  rewrite encode_loop_cons in He. apply obind_ok in He as (inner & Hi & He).
  destruct (hop_decode_encode h _ _ _ _ Hh Ht He Hlen) as [Hd Hl].
  cbn [decode_loop]. rewrite Hd. cbn [obind].
  rewrite (IH _ _ _ _ inner (Some (first_target hs target nts)) Hhs Hts Hi) by lia.
  by destruct hs.
Qed.

(** A nested UDP datagram opens layer by layer: the relay of the first hop,
    decoding what the stack encoded, finds the address of the next relay (the
    resolved one where given, the configured endpoint otherwise, the destination
    at the last hop) and the datagram for the rest of the chain; and decoding
    through all hops returns destination and payload. *)
Theorem hop_stack_peels h hs salts target nts payload packet :
  Forall hop_wf (h :: hs) -> stack_targets (h :: hs) target nts ->
  encode_request_with_next_targets {| stack_hops := h :: hs |} salts target payload nts = Ok packet ->
  length packet <= MAX_UDP_PACKET_SIZE ->
  (exists inner, hop_decode h packet = Ok (first_target hs target nts, inner) /\
     encode_request_with_next_targets {| stack_hops := hs |} (fun i => salts (S i)) target payload (tail nts)
       = Ok inner) /\
  decode_response {| stack_hops := h :: hs |} packet = Ok (target, payload).
Proof.
  intros Hwf Hts He Hlen. unfold encode_request_with_next_targets in *. cbn [stack_hops] in *. split.
  - cbn [length] in He. rewrite encode_loop_cons in He. apply obind_ok in He as (inner & Hi & He).
    exists inner. split; [|done]. inversion_clear Hwf as [|?? Hh _].
    by apply (hop_decode_encode h (salts 0)) in He as [Hd _]; [|done|apply Hts|done].
  - unfold decode_response. cbn [stack_hops]. by rewrite (decode_encode_loop _ salts target nts payload packet None).
Qed.

(** ** Stacks and capabilities *)

#[local] Opaque password_key_material parse_method.

(** Credentials a Shadowsocks hop can be built from. *)
Definition ss_credentials_ok (hop : ProxyHopSpec) : bool :=
  match credentials hop with
  | Some cr => is_ok (parse_method (username cr))
  | None => false
  end.

Lemma from_spec_ok hop :
  is_ok (from_spec hop) = true <->
  protocols hop = [SSocks5] \/ (protocols hop = [SShadowsocks] /\ ss_credentials_ok hop = true).
Proof.
  unfold from_spec, ss_credentials_ok. destruct (protocols hop) as [|p [|]]; [naive_solver| |naive_solver].
  destruct p; cbn [is_ok]; try (split; [done|intros [?|[? _]]; done]); [split; [by left|done]|].
  destruct (credentials hop) as [cr|]; cbn [ok_or obind is_ok];
    [|split; [done|by intros [?|[_ ?]]]].
  destruct (parse_method (username cr)); cbn [map_err obind is_ok];
    (split; [try done; by right|try done; by intros [?|[_ ?]]]).
Qed.

Lemma from_chain_loop_ok l : forall acc,
  is_ok (from_chain_loop l acc) = true <-> Forall (fun hop => is_ok (from_spec hop) = true) l.
Proof.
  induction l as [|hop l IH]; intros acc; cbn [from_chain_loop]; [by split|].
  rewrite Forall_cons. destruct (from_spec hop); cbn; [rewrite IH; naive_solver|naive_solver..].
Qed.

(** A hop stack can be built from a non-empty chain exactly when the chain is
    classified as carrying UDP and every Shadowsocks hop has credentials with a
    known AEAD method. *)
Theorem from_chain_matches_capability chain :
  hops chain <> [] ->
  is_ok (from_chain chain) = true <->
  is_udp_supported (classify_upstream_chain chain) = true /\
  Forall (fun hop => protocols hop = [SShadowsocks] -> ss_credentials_ok hop = true) (hops chain).
Proof.
  intros Hne. rewrite udp_supported_iff. unfold from_chain.
  assert (is_ok (let? l := from_chain_loop (hops chain) [] in Ok {| stack_hops := l |}) =
    is_ok (from_chain_loop (hops chain) [])) as -> by (by destruct (from_chain_loop _ _)).
  rewrite from_chain_loop_ok, !Forall_forall. setoid_rewrite from_spec_ok. split.
  - intros H. split; [split; [done|]; intros x Hx; destruct (H x Hx) as [?|[? _]]; auto|].
    intros x Hx Hp. destruct (H x Hx) as [E|[_ ?]]; [congruence|done].
  - intros [[_ H1] H2] x Hx. destruct (H1 x Hx) as [?|E]; [by left|right]. split; [done|by apply H2].
Qed.
End hops.

(** ** Setting up a composed flow ([composed.rs])

    Opening the SOCKS5 association of a hop, resolving a name and binding a socket
    are parameters; tokens, tasks and sockets are identified by numbers. *)

Definition SockAddr : Type := IpAddr * Z.

Record Association := { relay_addr : SockAddr; as_socket : nat; as_cancel : nat; as_task : nat }.

Inductive ComposedError :=
| InvalidStack (e : UdpHopError)
| OpenFailed (index : nat)
| ResolveFailed
| ComposedUnresolvedTarget
| BindFailed
| ComposedEmptyStack
| MissingOuterRelay.

Inductive cleanup := CancelControl (token : nat) | AbortControl (task : nat).

Record ComposedFlow := {
  cf_socket : nat; cf_outer_relay : SockAddr; cf_stack : UdpHopStack; cf_relay_targets : list TargetAddr;
  cf_control_cancels : list nat; cf_control_tasks : list nat
}.

Record setup := {
  transport_targets : list SockAddr; control_cancels : list nat; control_tasks : list nat;
  outer_socket : option nat; outer_relay_addr : option SockAddr
}.

Definition discard_partial_control_channels (st : setup) : list cleanup :=
  map CancelControl (control_cancels st) ++ map AbortControl (control_tasks st).

Definition socket_target (a : SockAddr) : TargetAddr := {| host := Ip a.1; tport := a.2 |}.

Section composed.
Context `{HCr : !Crypto}.
Variable open_socks5_udp_upstream : nat -> ProxyHopSpec -> option Association.
Variable lookup_host : bytes -> Z -> option (list SockAddr).
Variable bind_socket : option nat.

Definition resolve_target (t : TargetAddr) : outcome ComposedError SockAddr :=
  match host t with
  | Ip ip => Ok (ip, tport t)
  | DomainName d =>
      let? l := ok_or ResolveFailed (lookup_host d (tport t)) in
      ok_or ComposedUnresolvedTarget (head l)
  end.

(** One turn of the loop; on failure the channels opened so far are discarded. *)
Definition setup_hop (index : nat) (hop : UdpHop) (spec : ProxyHopSpec) (st : setup)
    : outcome (ComposedError * list cleanup) setup :=
  match hop with
  | HopSocks5 _ =>
      match open_socks5_udp_upstream index spec with
      | None => Err (OpenFailed index, discard_partial_control_channels st)
      | Some a =>
          Ok {| transport_targets := transport_targets st ++ [relay_addr a];
                control_cancels := control_cancels st ++ [as_cancel a];
                control_tasks := control_tasks st ++ [as_task a];
                outer_socket := if (index =? 0)%nat then Some (as_socket a) else outer_socket st;
                outer_relay_addr := if (index =? 0)%nat then Some (relay_addr a) else outer_relay_addr st |}
      end
  | HopShadowsocks _ _ _ _ =>
      match resolve_target (hop_endpoint hop) with
      | Ok ep =>
          if (index =? 0)%nat then
            match bind_socket with
            | None => Err (BindFailed, discard_partial_control_channels st)
            | Some s =>
                Ok {| transport_targets := transport_targets st ++ [ep]; control_cancels := control_cancels st;
                      control_tasks := control_tasks st; outer_socket := Some s; outer_relay_addr := Some ep |}
            end
          else
            Ok {| transport_targets := transport_targets st ++ [ep]; control_cancels := control_cancels st;
                  control_tasks := control_tasks st; outer_socket := outer_socket st;
                  outer_relay_addr := outer_relay_addr st |}
      | Err e => Err (e, discard_partial_control_channels st)
      | Panic => Panic
      end
  end.

Fixpoint setup_loop (index : nat) (l : list (UdpHop * ProxyHopSpec)) (st : setup)
    : outcome (ComposedError * list cleanup) setup :=
  match l with
  | [] => Ok st
  | (hop, spec) :: r => let? st := setup_hop index hop spec st in setup_loop (S index) r st
  end.

(** The error carries the clean-up that was run before returning it. *)
Definition open_composed_udp_upstream (chain : ProxyChainSpec)
    : outcome (ComposedError * list cleanup) ComposedFlow :=
  let? stack := map_err (fun e => (InvalidStack e, [])) (from_chain chain) in
  let? st := setup_loop 0 (zip (stack_hops stack) (hops chain))
    {| transport_targets := []; control_cancels := []; control_tasks := []; outer_socket := None;
       outer_relay_addr := None |} in
  let? socket := ok_or (ComposedEmptyStack, []) (outer_socket st) in
  let? relay := ok_or (MissingOuterRelay, []) (outer_relay_addr st) in
  Ok {| cf_socket := socket; cf_outer_relay := relay; cf_stack := stack;
        cf_relay_targets := map socket_target (drop 1 (transport_targets st));
        cf_control_cancels := control_cancels st; cf_control_tasks := control_tasks st |}.

(** ** No control channel leaks *)

(** The associations of the SOCKS5 hops of a part of the chain, in order. *)
Fixpoint opened (index : nat) (l : list (UdpHop * ProxyHopSpec)) : list Association :=
  match l with
  | [] => []
  | (HopSocks5 _, spec) :: r =>
      match open_socks5_udp_upstream index spec with
      | Some a => a :: opened (S index) r
      | None => opened (S index) r
      end
  | _ :: r => opened (S index) r
  end.

(** The transport address of a hop. *)
Definition hop_address (index : nat) (x : UdpHop * ProxyHopSpec) : option SockAddr :=
  match x.1 with
  | HopSocks5 _ => relay_addr <$> open_socks5_udp_upstream index x.2
  | HopShadowsocks ep _ _ _ => match resolve_target ep with Ok a => Some a | _ => None end
  end.

(** The state extended by what the hops of [l] contributed. *)
Definition extends (st st' : setup) (index : nat) (l : list (UdpHop * ProxyHopSpec)) : Prop :=
  control_cancels st' = control_cancels st ++ map as_cancel (opened index l) /\
  control_tasks st' = control_tasks st ++ map as_task (opened index l) /\
  exists addrs, transport_targets st' = transport_targets st ++ addrs /\
    length addrs = length l /\
    forall i x, l !! i = Some x -> hop_address (index + i) x = addrs !! i.

Lemma setup_hop_ok index hop spec st st' :
  setup_hop index hop spec st = Ok st' -> extends st st' index [(hop, spec)].
Proof.
  unfold setup_hop, extends. destruct hop as [ep|ep m pw ikm]; cbn [opened hop_endpoint].
  - destruct (open_socks5_udp_upstream index spec) as [a|] eqn:E; [|done]. intros [= <-]. cbn.
    split_and!; [done..|]. exists [relay_addr a]. split_and!; [done..|].
    intros [|i] x Hx; [|done]. injection Hx as <-. cbn. by rewrite Nat.add_0_r, E.
  - destruct (resolve_target ep) as [a|e|] eqn:E; [|done..]. intros H.
    assert (transport_targets st' = transport_targets st ++ [a] /\ control_cancels st' = control_cancels st /\
      control_tasks st' = control_tasks st) as (-> & -> & ->).
    { destruct (index =? 0)%nat; [destruct bind_socket; [|done]|]; by injection H as <-. }
    rewrite !app_nil_r. split_and!; [done..|]. exists [a]. split_and!; [done..|].
    intros [|i] x Hx; [|done]. injection Hx as <-. cbn. by rewrite E.
Qed.

Lemma setup_hop_err index hop spec st e ev :
  setup_hop index hop spec st = Err (e, ev) -> ev = discard_partial_control_channels st.
Proof.
  unfold setup_hop. destruct hop as [ep|ep m pw ikm].
  - destruct (open_socks5_udp_upstream index spec); [done|]. by intros [= _ <-].
  - destruct (resolve_target _) as [a|e'|]; [|by intros [= _ <-]|done].
    destruct (index =? 0)%nat; [|done]. destruct bind_socket; [done|]. by intros [= _ <-].
Qed.

Lemma extends_nil st index : extends st st index [].
Proof. unfold extends. cbn. rewrite !app_nil_r. split_and!; [done..|]. exists []. by rewrite app_nil_r. Qed.

Lemma extends_cons st st1 st2 index x l :
  extends st st1 index [x] -> extends st1 st2 (S index) l -> extends st st2 index (x :: l).
Proof.
  intros (Hc1 & Ht1 & a1 & Ha1 & Hl1 & Hi1) (Hc2 & Ht2 & a2 & Ha2 & Hl2 & Hi2).
  assert (opened index (x :: l) = opened index [x] ++ opened (S index) l) as Ho.
  { cbn. destruct x as [[|] spec]; [|done]. by destruct (open_socks5_udp_upstream _ _). }
  unfold extends. rewrite Ho, !map_app, Hc2, Hc1, Ht2, Ht1, !app_assoc. split_and!; [done..|].
  destruct a1 as [|a1 [|]]; try done. exists (a1 :: a2). rewrite Ha2, Ha1, <- app_assoc.
  split_and!; [done|cbn; by rewrite Hl2|].
  intros [|i] y Hy; [by apply (Hi1 0)|]. rewrite Nat.add_succ_r. exact (Hi2 i y Hy).
Qed.

(** The loop either handles all hops, or fails at one of them and discards the
    channels of the hops before it. *)
Lemma setup_loop_spec l : forall index st,
  match setup_loop index l st with
  | Ok st' => extends st st' index l
  | Err (e, ev) => exists pre x suf st', l = pre ++ x :: suf /\ extends st st' index pre /\
      ev = discard_partial_control_channels st'
  | Panic => True
  end.
Proof.
  induction l as [|[hop spec] l IH]; intros index st; cbn [setup_loop]; [apply extends_nil|].
  destruct (setup_hop index hop spec st) as [st1|[e ev]|] eqn:E; cbn [obind]; [|..|done].
  - apply setup_hop_ok in E. specialize (IH (S index) st1).
    destruct (setup_loop (S index) l st1) as [st2|[e ev]|]; [by eapply extends_cons| |done].
    destruct IH as (pre & x & suf & st' & -> & He & ->).
    exists ((hop, spec) :: pre), x, suf, st'. split_and!; [done|by eapply extends_cons|done].
  - apply setup_hop_err in E as ->. exists [], (hop, spec), l, st. split_and!; [done|apply extends_nil|done].
Qed.

(** Setting up a composed UDP flow leaks nothing: when it succeeds, the flow
    holds the control channels of all SOCKS5 hops and the transport addresses of
    hops 1, 2, ... as relay targets; when it fails at some hop, exactly the
    channels of the SOCKS5 hops before it are cancelled and their tasks aborted. *)
Theorem composed_setup_no_leak chain stack :
  from_chain chain = Ok stack ->
  let l := zip (stack_hops stack) (hops chain) in
  match open_composed_udp_upstream chain with
  | Ok f =>
      cf_stack f = stack /\ cf_control_cancels f = map as_cancel (opened 0 l) /\
      cf_control_tasks f = map as_task (opened 0 l) /\
      length (cf_relay_targets f) = length l - 1 /\
      forall i x, l !! S i = Some x -> socket_target <$> hop_address (S i) x = cf_relay_targets f !! i
  | Err (_, ev) =>
      exists pre, pre `prefix_of` l /\
        ev = map CancelControl (map as_cancel (opened 0 pre)) ++ map AbortControl (map as_task (opened 0 pre))
  | Panic => True
  end.
Proof.
  intros Hc l. unfold open_composed_udp_upstream. rewrite Hc. cbn [map_err obind]. fold l.
  set (st0 := {| transport_targets := []; control_cancels := []; control_tasks := []; outer_socket := None;
                 outer_relay_addr := None |}).
  pose proof (setup_loop_spec l 0 st0) as Hs. destruct (setup_loop 0 l st0) as [st|[e ev]|] eqn:El; cbn [obind].
  - destruct Hs as (Hcc & Hct & addrs & Ha & Hl & Hi). cbn in Hcc, Hct, Ha.
    destruct (outer_socket st) as [sk|]; cbn [ok_or obind]; [|exists []; split; [apply prefix_nil|done]].
    destruct (outer_relay_addr st) as [ra|]; cbn [ok_or obind]; [|exists []; split; [apply prefix_nil|done]].
    cbn. rewrite Ha. split_and!; [done..| |].
    + rewrite length_map, length_drop. lia.
    + intros i x Hx. rewrite list_lookup_fmap, lookup_drop. specialize (Hi (S i) x Hx). cbn [plus] in *. by rewrite Hi.
  - destruct Hs as (pre & x & suf & st' & -> & (Hcc & Hct & _) & ->). exists pre. split; [by eexists|].
    unfold discard_partial_control_channels. by rewrite Hcc, Hct.
  - done.
Qed.
End composed.

(** ** Concrete stacks *)

Import SampleCrypto.

Definition demo_socks_hop : UdpHop := HopSocks5 {| host := Ip (V4 [xc0; x00; x02; x01]); tport := 1080 |}.
Definition demo_ss_hop : UdpHop :=
  HopShadowsocks {| host := DomainName (str "ss.example"); tport := 8388 |} Aes128Gcm (str "pw")
    (password_key_material (str "pw")).

Lemma hop_stack_peels_witness :
  (exists inner,
     hop_decode demo_socks_hop
       (match encode_request {| stack_hops := [demo_socks_hop; demo_ss_hop] |} (fun _ => sample_salt)
          sample_target (str "ping") with Ok p => p | _ => [] end)
       = Ok (hop_endpoint demo_ss_hop, inner) /\
     encode_request_with_next_targets {| stack_hops := [demo_ss_hop] |} (fun _ => sample_salt) sample_target
       (str "ping") (tail []) = Ok inner) /\
  decode_response {| stack_hops := [demo_socks_hop; demo_ss_hop] |}
    (match encode_request {| stack_hops := [demo_socks_hop; demo_ss_hop] |} (fun _ => sample_salt)
       sample_target (str "ping") with Ok p => p | _ => [] end) = Ok (sample_target, str "ping").
Proof.
  apply (hop_stack_peels demo_socks_hop [demo_ss_hop] (fun _ => sample_salt) sample_target [] (str "ping")).
  - repeat constructor.
  - vm_compute. repeat split; intros ?; discriminate.
  - vm_compute. reflexivity.
  - apply Nat.leb_le. vm_compute. reflexivity.
Defined.

Definition ss_hop_spec : ProxyHopSpec :=
  {| protocols := [SShadowsocks]; endpoint := {| ep_host := str "192.0.2.9"; ep_port := 8388 |};
     credentials := Some {| username := str "aes-256-gcm"; password := str "pw" |}; rule := None;
     local_bind_spec := None; tls := false; server_name := None; insecure := false; plugins := [];
     auth_prefix := None |}.

Lemma from_chain_matches_capability_witness :
  is_udp_supported (classify_upstream_chain {| hops := [demo_hop "u" "p"; ss_hop_spec] |}) = true /\
  Forall (fun hop => protocols hop = [SShadowsocks] -> ss_credentials_ok hop = true)
    (hops {| hops := [demo_hop "u" "p"; ss_hop_spec] |}).
Proof.
  apply from_chain_matches_capability; [discriminate|]. vm_compute. reflexivity.
Defined.

Definition demo_composed_stack : UdpHopStack :=
  match from_chain {| hops := [demo_hop "u" "p"; ss_hop_spec] |} with Ok s => s | _ => {| stack_hops := [] |} end.

(** Every association opens, with tokens numbered by hop. *)
Definition demo_open (index : nat) (_ : ProxyHopSpec) : option Association :=
  Some {| relay_addr := (V4 [xc0; x00; x02; x07], 4000%Z); as_socket := 1; as_cancel := 10 + index; as_task := 20 + index |}.

Lemma composed_setup_no_leak_witness :
  let l := zip (stack_hops demo_composed_stack) [demo_hop "u" "p"; ss_hop_spec] in
  match open_composed_udp_upstream demo_open (fun _ _ => None) None {| hops := [demo_hop "u" "p"; ss_hop_spec] |} with
  | Ok f =>
      cf_stack f = demo_composed_stack /\ cf_control_cancels f = map as_cancel (opened demo_open 0 l) /\
      cf_control_tasks f = map as_task (opened demo_open 0 l) /\
      length (cf_relay_targets f) = length l - 1 /\
      forall i x, l !! S i = Some x ->
        socket_target <$> hop_address demo_open (fun _ _ => None) (S i) x = cf_relay_targets f !! i
  | Err (_, ev) =>
      exists pre, pre `prefix_of` l /\
        ev = map CancelControl (map as_cancel (opened demo_open 0 pre)) ++
             map AbortControl (map as_task (opened demo_open 0 pre))
  | Panic => True
  end.
Proof.
  apply (composed_setup_no_leak demo_open (fun _ _ => None) None
    {| hops := [demo_hop "u" "p"; ss_hop_spec] |} demo_composed_stack).
  vm_compute. reflexivity.
Defined.

Definition domain_ss_spec : ProxyHopSpec :=
  {| protocols := [SShadowsocks]; endpoint := {| ep_host := str "ss.example"; ep_port := 8388 |};
     credentials := credentials ss_hop_spec; rule := None; local_bind_spec := None; tls := false;
     server_name := None; insecure := false; plugins := []; auth_prefix := None |}.

(** The second hop cannot be resolved: the channel of the first one is discarded. *)
Example composed_failure_cleans_up :
  open_composed_udp_upstream demo_open (fun _ _ => None) None {| hops := [demo_hop "u" "p"; domain_ss_spec] |} =
    Err (ResolveFailed, [CancelControl 10; AbortControl 20]).
Proof. vm_compute. reflexivity. Qed.
