(* ===== verification/Tls.v ===== *)
(** * TLS configurations

    Models [crates/eggress-transport-tls/src/]: [roots.rs], the builders of
    [client.rs] and [server.rs], the shared configurations of the process and the
    ALPN adaptation.  Certificates, keys, root stores and their checks belong to
    rustls ([TlsLib]); a configuration is what it trusts, whom it presents and the
    protocols it offers.  The handshake itself is not modelled. *)

From S2P Require Import Prelude Bytes.

Inductive TlsError :=
| TlsHandshake (why : string)
| TlsPemParse (why : string)
| TlsNoCertificatesFound
| TlsNoPrivateKeyFound
| TlsMissingPrivateKey
| TlsMissingCertificateChain
| TlsRootStore
| TlsInvalidServerName (name : bytes).

(** Why a key is not read from PEM text. *)
Inductive PemKeyError := PemNoItems | PemMalformed.

(** [pem_certs]: the items of [pem_slice_iter], [None] where one does not parse. *)
Class TlsLib := {
  Cert : Type;
  Key : Type;
  RootStore : Type;
  no_roots : RootStore;
  extend_system : RootStore -> RootStore;
  add_root : RootStore -> Cert -> option RootStore;
  roots_empty : RootStore -> bool;
  pem_certs : bytes -> list (option Cert);
  pem_key : bytes -> outcome PemKeyError Key;
  identity_ok : list Cert -> Key -> bool;
  verifier_ok : RootStore -> bool
}.

(** How the certificate of the peer is judged.  [TrustOther]: a verifier or a
    store that somebody else configured. *)
Inductive Trust {TL : TlsLib} := TrustRoots (roots : RootStore) | TrustAny | TrustOther (policy : Z).

Record ClientConfig {TL : TlsLib} := {
  cc_trust : Trust;
  cc_identity : option (list Cert * Key);
  cc_alpn : list bytes
}.

(** [WebPkiClientVerifier] asks for a certificate unless it is told not to. *)
Inductive ClientAuth {TL : TlsLib} := NoClientAuth | ClientCertRequired (roots : RootStore).

Record ServerConfig {TL : TlsLib} := {
  sc_client_auth : ClientAuth;
  sc_chain : list Cert;
  sc_key : Key;
  sc_alpn : list bytes
}.

Definition H2_ALPN : list bytes := [str "h2"; str "http/1.1"].

Section tls.
Context {TL : TlsLib}.

(** ** Roots (roots.rs) *)

Definition load_system_roots : outcome TlsError RootStore := Ok (extend_system no_roots).

Fixpoint add_roots (store : RootStore) (certs : list (option Cert)) : outcome TlsError RootStore :=
  match certs with
  | [] => Ok store
  | None :: _ => Err (TlsPemParse "certificate")
  | Some cert :: rest =>
      let? store := ok_or TlsRootStore (add_root store cert) in
      add_roots store rest
  end.

Definition load_pem_roots (pem : bytes) : outcome TlsError RootStore :=
  let? store := add_roots no_roots (pem_certs pem) in
  if roots_empty store then Err (TlsPemParse "no certificates found in PEM root material") else Ok store.

Fixpoint collect_certs (certs : list (option Cert)) : outcome TlsError (list Cert) :=
  match certs with
  | [] => Ok []
  | None :: _ => Err (TlsPemParse "certificate")
  | Some cert :: rest => let? l := collect_certs rest in Ok (cert :: l)
  end.

Definition load_pem_certs (pem : bytes) : outcome TlsError (list Cert) := collect_certs (pem_certs pem).

(** ** The client builder (client.rs) *)

Record TlsClientConfigBuilder := {
  root_store : RootStore;
  alpn_protocols : list bytes;
  server_name_override : option bytes;
  b_insecure : bool;
  client_cert_pem : option bytes;
  client_key_pem : option bytes
}.

Definition client_builder_new : TlsClientConfigBuilder :=
  {| root_store := no_roots; alpn_protocols := []; server_name_override := None; b_insecure := false;
     client_cert_pem := None; client_key_pem := None |}.

Definition with_roots (b : TlsClientConfigBuilder) (r : RootStore) : TlsClientConfigBuilder :=
  {| root_store := r; alpn_protocols := alpn_protocols b; server_name_override := server_name_override b;
     b_insecure := b_insecure b; client_cert_pem := client_cert_pem b; client_key_pem := client_key_pem b |}.

Definition with_system_roots (b : TlsClientConfigBuilder) : outcome TlsError TlsClientConfigBuilder :=
  Ok (with_roots b (extend_system (root_store b))).

Definition with_custom_ca_pem (b : TlsClientConfigBuilder) (pem_bytes : bytes) : outcome TlsError TlsClientConfigBuilder :=
  let? roots := load_pem_roots pem_bytes in
  Ok (with_roots b roots).

Definition with_client_cert_pem (b : TlsClientConfigBuilder) (cert_pem key_pem : bytes) : TlsClientConfigBuilder :=
  {| root_store := root_store b; alpn_protocols := alpn_protocols b; server_name_override := server_name_override b;
     b_insecure := b_insecure b; client_cert_pem := Some cert_pem; client_key_pem := Some key_pem |}.

Definition with_alpn (b : TlsClientConfigBuilder) (protocols : list bytes) : TlsClientConfigBuilder :=
  {| root_store := root_store b; alpn_protocols := protocols; server_name_override := server_name_override b;
     b_insecure := b_insecure b; client_cert_pem := client_cert_pem b; client_key_pem := client_key_pem b |}.

Definition with_h2_alpn (b : TlsClientConfigBuilder) : TlsClientConfigBuilder := with_alpn b H2_ALPN.

Definition with_insecure (b : TlsClientConfigBuilder) : TlsClientConfigBuilder :=
  {| root_store := root_store b; alpn_protocols := alpn_protocols b; server_name_override := server_name_override b;
     b_insecure := true; client_cert_pem := client_cert_pem b; client_key_pem := client_key_pem b |}.

Definition with_server_name_override (b : TlsClientConfigBuilder) (name : bytes) : TlsClientConfigBuilder :=
  {| root_store := root_store b; alpn_protocols := alpn_protocols b; server_name_override := Some name;
     b_insecure := b_insecure b; client_cert_pem := client_cert_pem b; client_key_pem := client_key_pem b |}.

Definition client_identity (cert_pem key_pem : bytes) : outcome TlsError (list Cert * Key) :=
  let? certs := load_pem_certs cert_pem in
  match certs with
  | [] => Err TlsNoCertificatesFound
  | _ =>
      let? key := map_err (fun _ => TlsPemParse "key") (pem_key key_pem) in
      Ok (certs, key)
  end.

(** [insecure_tls]: the feature of that name. *)
Definition client_build (insecure_tls : bool) (b : TlsClientConfigBuilder) : outcome TlsError ClientConfig :=
  let? identity :=
    match client_cert_pem b, client_key_pem b with
    | Some cert_pem, Some key_pem => let? i := client_identity cert_pem key_pem in Ok (Some i)
    | None, None => Ok None
    | _, _ => Err (TlsHandshake "mTLS client config requires both client certificate and key")
    end in
  let? trust :=
    if b_insecure b then
      if insecure_tls then Ok TrustAny else Err (TlsHandshake "insecure TLS requires the insecure-tls feature")
    else Ok (TrustRoots (root_store b)) in
  match identity with
  | Some (certs, key) =>
      if identity_ok certs key
      then Ok {| cc_trust := trust; cc_identity := Some (certs, key); cc_alpn := alpn_protocols b |}
      else Err (TlsHandshake "client certificate")
  | None => Ok {| cc_trust := trust; cc_identity := None; cc_alpn := alpn_protocols b |}
  end.

(** ** Shared configurations (client.rs) *)

(** A [OnceLock] that keeps successful builds: [found] is what the cache holds when it
    is read, [raced] what another caller stored meanwhile. *)
Definition once_cell (found raced : option ClientConfig) (build : outcome TlsError ClientConfig)
    : outcome TlsError ClientConfig * option ClientConfig :=
  match found with
  | Some config => (Ok config, Some config)
  | None =>
      match build with
      | Ok config =>
          match raced with
          | None => (Ok config, Some config)
          | Some winner => (Ok winner, Some winner)
          end
      | Err e => (Err e, raced)
      | Panic => (Panic, raced)
      end
  end.

Definition build_default : outcome TlsError ClientConfig :=
  let? b := with_system_roots client_builder_new in client_build false b.

Definition default_client_config (found raced : option ClientConfig) := once_cell found raced build_default.

Definition build_default_h2 : outcome TlsError ClientConfig :=
  let? b := with_system_roots client_builder_new in client_build false (with_h2_alpn b).

Definition default_h2_client_config (found raced : option ClientConfig) := once_cell found raced build_default_h2.

Definition build_default_insecure : outcome TlsError ClientConfig :=
  let? b := with_system_roots client_builder_new in client_build true (with_insecure b).

Definition default_insecure_client_config (found raced : option ClientConfig) := once_cell found raced build_default_insecure.

Definition build_default_insecure_h2 : outcome TlsError ClientConfig :=
  let? b := with_system_roots client_builder_new in client_build true (with_h2_alpn (with_insecure b)).

Definition default_insecure_h2_client_config (found raced : option ClientConfig) := once_cell found raced build_default_insecure_h2.

Definition client_config_with_alpn (config : ClientConfig) (alpn : option (list bytes)) : ClientConfig :=
  match alpn with
  | None => config
  | Some protocols =>
      if bool_decide (cc_alpn config = protocols) then config
      else {| cc_trust := cc_trust config; cc_identity := cc_identity config; cc_alpn := protocols |}
  end.

(** ** The server builder (server.rs) *)

Record TlsServerConfigBuilder := {
  cert_chain : list Cert;
  key_der : option Key;
  s_alpn_protocols : list bytes;
  client_ca_pem : option bytes;
  require_client_cert : bool
}.

Definition server_builder_new : TlsServerConfigBuilder :=
  {| cert_chain := []; key_der := None; s_alpn_protocols := []; client_ca_pem := None; require_client_cert := false |}.

Definition load_cert_chain_pem (pem : bytes) : outcome TlsError (list Cert) :=
  let? certs := load_pem_certs pem in
  match certs with [] => Err TlsNoCertificatesFound | _ => Ok certs end.

Definition with_certificate_pem (b : TlsServerConfigBuilder) (pem : bytes) : outcome TlsError TlsServerConfigBuilder :=
  let? certs := load_cert_chain_pem pem in
  Ok {| cert_chain := certs; key_der := key_der b; s_alpn_protocols := s_alpn_protocols b; client_ca_pem := client_ca_pem b;
        require_client_cert := require_client_cert b |}.

Definition load_private_key_pem (pem : bytes) : outcome TlsError Key :=
  map_err (fun e => match e with PemNoItems => TlsNoPrivateKeyFound | PemMalformed => TlsPemParse "key" end) (pem_key pem).

Definition with_key_pem (b : TlsServerConfigBuilder) (pem : bytes) : outcome TlsError TlsServerConfigBuilder :=
  let? key := load_private_key_pem pem in
  Ok {| cert_chain := cert_chain b; key_der := Some key; s_alpn_protocols := s_alpn_protocols b; client_ca_pem := client_ca_pem b;
        require_client_cert := require_client_cert b |}.

Definition with_client_ca_pem (b : TlsServerConfigBuilder) (pem : bytes) : outcome TlsError TlsServerConfigBuilder :=
  let? _ := load_pem_roots pem in
  Ok {| cert_chain := cert_chain b; key_der := key_der b; s_alpn_protocols := s_alpn_protocols b; client_ca_pem := Some pem;
        require_client_cert := require_client_cert b |}.

Definition with_require_client_cert (b : TlsServerConfigBuilder) (require : bool) : TlsServerConfigBuilder :=
  {| cert_chain := cert_chain b; key_der := key_der b; s_alpn_protocols := s_alpn_protocols b; client_ca_pem := client_ca_pem b;
     require_client_cert := require |}.

Definition server_with_alpn (b : TlsServerConfigBuilder) (protocols : list bytes) : TlsServerConfigBuilder :=
  {| cert_chain := cert_chain b; key_der := key_der b; s_alpn_protocols := protocols; client_ca_pem := client_ca_pem b;
     require_client_cert := require_client_cert b |}.

Definition server_with_h2_alpn (b : TlsServerConfigBuilder) : TlsServerConfigBuilder := server_with_alpn b H2_ALPN.

Definition server_build (b : TlsServerConfigBuilder) : outcome TlsError ServerConfig :=
  let? key := ok_or TlsMissingPrivateKey (key_der b) in
  if bool_decide (length (cert_chain b) = 0) then Err TlsMissingCertificateChain
  else if require_client_cert b && negb (bool_decide (is_Some (client_ca_pem b)))
  then Err (TlsHandshake "mTLS requires client CA roots when require_client_cert is set")
  else
    let? auth :=
      match client_ca_pem b with
      | Some ca_pem =>
          let? roots := load_pem_roots ca_pem in
          if verifier_ok roots
          then if require_client_cert b then Ok (ClientCertRequired roots) else Ok (ClientCertRequired roots)
          else Err (TlsHandshake "invalid client CA verifier")
      | None => Ok NoClientAuth
      end in
    if identity_ok (cert_chain b) key
    then Ok {| sc_client_auth := auth; sc_chain := cert_chain b; sc_key := key; sc_alpn := s_alpn_protocols b |}
    else Err (TlsHandshake "certificate").

(** ** What the configurations promise *)

(** A client configuration is what its builder says: it verifies against the roots of
    the builder unless verification was switched off in a build that allows it, and it
    presents a certificate exactly when one was given, with a key that fits. *)
Theorem client_build_policy insecure_tls b c : client_build insecure_tls b = Ok c ->
  cc_alpn c = alpn_protocols b /\
  (cc_trust c = TrustRoots (root_store b) /\ b_insecure b = false \/ cc_trust c = TrustAny /\ b_insecure b = true /\ insecure_tls = true) /\
  match cc_identity c with
  | Some (certs, key) => exists cert_pem key_pem, client_cert_pem b = Some cert_pem /\ client_key_pem b = Some key_pem /\
      load_pem_certs cert_pem = Ok certs /\ certs <> [] /\ pem_key key_pem = Ok key /\ identity_ok certs key = true
  | None => client_cert_pem b = None /\ client_key_pem b = None
  end.
Proof using Type.
  unfold client_build. intros H.
  assert (forall trust, (if b_insecure b then if insecure_tls then Ok TrustAny else Err (TlsHandshake "insecure TLS requires the insecure-tls feature")
      else Ok (TrustRoots (root_store b))) = Ok trust ->
    trust = TrustRoots (root_store b) /\ b_insecure b = false \/ trust = TrustAny /\ b_insecure b = true /\ insecure_tls = true) as Ht.
  { intros trust. destruct (b_insecure b); [destruct insecure_tls; [|done]|]; intros [= <-]; auto. }
  apply obind_ok in H as (identity & Hi & H). apply obind_ok in H as (trust & Htr & H). apply Ht in Htr.
  destruct (client_cert_pem b) as [cp|] eqn:Ec, (client_key_pem b) as [kp|] eqn:Ek; try done.
  - apply obind_ok in Hi as ([certs key] & Hi & [= <-]). destruct (identity_ok certs key) eqn:Eo; [|done]. injection H as <-. cbn.
    split; [done|]. split; [done|]. exists cp, kp. unfold client_identity in Hi. apply obind_ok in Hi as (l & Hl & Hi).
    destruct l as [|x l]; [done|]. apply obind_ok in Hi as (k & Hk & [= <- <-]). destruct (pem_key kp); [|done|done]. by injection Hk as ->.
  - injection Hi as <-. by injection H as <-.
Qed.

(** A configuration handed out by the process-wide cache is one that was built for it. *)
Lemma once_cell_ok found raced build c cache :
  (forall c, found = Some c -> build = Ok c) -> (forall c, raced = Some c -> build = Ok c) ->
  once_cell found raced build = (Ok c, cache) -> build = Ok c /\ cache = Some c.
Proof using Type.
  intros Hf Hr. unfold once_cell. destruct found as [f|]; [intros [= <- <-]; auto|].
  destruct build as [b| |]; [|done|done]. destruct raced as [r|]; intros [= <- <-]; auto.
Qed.

(** Adapting the protocols keeps everything else. *)
Lemma with_alpn_policy config alpn :
  cc_trust (client_config_with_alpn config alpn) = cc_trust config /\ cc_identity (client_config_with_alpn config alpn) = cc_identity config /\
  cc_alpn (client_config_with_alpn config alpn) = default (cc_alpn config) alpn.
Proof using Type. destruct alpn as [l|]; [|done]. cbn. by case_bool_decide. Qed.

(** A server that was built has a key and a certificate that fit.  Client certificates
    are demanded exactly when roots for them were given, whatever
    [require_client_cert] says. *)
Theorem server_build_auth b c : server_build b = Ok c ->
  key_der b = Some (sc_key c) /\ sc_chain c = cert_chain b /\ cert_chain b <> [] /\ identity_ok (sc_chain c) (sc_key c) = true /\
  match client_ca_pem b with
  | Some pem => exists roots, load_pem_roots pem = Ok roots /\ sc_client_auth c = ClientCertRequired roots /\
      forall require, server_build (with_require_client_cert b require) = Ok c
  | None => sc_client_auth c = NoClientAuth /\ require_client_cert b = false
  end.
Proof using Type.
  unfold server_build. intros H. apply obind_ok in H as (key & Hk & H). destruct (key_der b) as [k|] eqn:Ek; [|done]. injection Hk as ->.
  case_bool_decide as Hc; [done|]. destruct (require_client_cert b && _) eqn:Er; [done|]. apply obind_ok in H as (auth & Ha & H).
  destruct (identity_ok (cert_chain b) key) eqn:Eo; [|done]. injection H as <-. cbn.
  split; [done|]. split; [done|]. split; [by destruct (cert_chain b)|]. split; [done|].
  destruct (client_ca_pem b) as [pem|] eqn:Ep.
  - apply obind_ok in Ha as (roots & Hr & Ha). exists roots. destruct (verifier_ok roots) eqn:Ev; [|done].
    assert (auth = ClientCertRequired roots) as -> by (destruct (require_client_cert b); congruence). split; [done|]. split; [done|].
    intros require. rewrite Ek. cbn. rewrite bool_decide_eq_false_2 by done. rewrite Eo.
    rewrite Hr. cbn. rewrite Ev. by destruct require.
  - injection Ha as <-. split; [done|]. rewrite bool_decide_eq_false_2 in Er by (by intros [? ?]). by rewrite andb_true_r in Er.
Qed.
End tls.
