(* ===== verification/Trojan.v ===== *)
(** * Trojan

    Models [crates/eggress-protocol-trojan/src/]: [hash.rs], [tcp.rs], [error.rs].
    SHA-224 is a parameter.  The handlers run on the stream inside TLS; the TLS
    handshake and its configuration are parameters of the client. *)

From S2P Require Import Prelude Bytes Decimal Stream NetAddr.

Inductive TrojanError :=
| TrojanIo (e : IoError)
| TrojanTls (why : string)
| TrojanAuthFailed
| TrojanConnectionRefused
| TrojanProtocol (why : string).

#[export] Instance trojan_from_io : FromIo TrojanError := TrojanIo.

Inductive TrojanDiagnosticCode :=
| TdIoError | TdTlsError | TdAuthenticationFailed | TdConnectionRefused | TdProtocolViolation | TdInvalidTarget.

Definition diagnostic_code (e : TrojanError) : TrojanDiagnosticCode :=
  match e with
  | TrojanIo _ => TdIoError
  | TrojanTls _ => TdTlsError
  | TrojanAuthFailed => TdAuthenticationFailed
  | TrojanConnectionRefused => TdConnectionRefused
  | TrojanProtocol _ => TdProtocolViolation
  end.

Definition CRLF : bytes := [x0d; x0a].
Definition MAX_TROJAN_DOMAIN_LEN : nat := 255.

(** [{byte:02x}]. *)
Definition hex02 (b : byte) : bytes := [digit_char (b2Z b / 16); digit_char (b2Z b mod 16)].

Section trojan.
Variable sha224 : bytes -> bytes.

Definition password_hash (password : bytes) : bytes :=
  foldl (fun output b => output ++ hex02 b) [] (sha224 password).

(** [ct_eq] of slices: equal lengths and equal bytes. *)
Definition ct_eq (a b : bytes) : bool := bool_decide (a = b).

Definition trojan_check_password (received_hash password : bytes) : bool :=
  ct_eq received_hash (password_hash password).

Definition encode_trojan_request (target : TargetAddr) (password : bytes) : outcome TrojanError bytes :=
  let request := password_hash password ++ CRLF ++ [x01] ++ [x03] in
  let domain_str := match host target with Ip ip => fmt_ip ip | DomainName d => d end in
  if (length domain_str =? 0)%nat || (255 <? length domain_str)
  then Err (TrojanProtocol "invalid domain length") else
  Ok (request ++ [Z2b (Z.of_nat (length domain_str))] ++ domain_str ++ u16_to_be (tport target) ++ CRLF).

(** The [match atyp_buf[0]] of [trojan_accept]. *)
Definition read_target (atyp : byte) : M TrojanError TargetAddr :=
  if atyp =b x01 then
    let! addr_buf := read_exact (4 + 2) in
    let! ip := mlift (slice addr_buf 0 4) in
    let! hi := mlift (index addr_buf 4) in
    let! lo := mlift (index addr_buf 5) in
    mret {| host := Ip (V4 ip); tport := u16_from_be hi lo |}
  else if atyp =b x03 then
    let! len_buf := read_u8 in
    let domain_len := b2n len_buf in
    if (domain_len =? 0)%nat then mthrow (TrojanProtocol "empty domain") else
    if MAX_TROJAN_DOMAIN_LEN <? domain_len then mthrow (TrojanProtocol "domain length exceeds maximum") else
    let! domain_buf := read_exact (domain_len + 2) in
    let! raw := mlift (slice_to domain_buf domain_len) in
    let! domain := mlift (from_utf8 (TrojanProtocol "invalid domain UTF-8") raw) in
    let! hi := mlift (index domain_buf domain_len) in
    let! lo := mlift (index domain_buf (domain_len + 1)) in
    mret {| host := match parse_ip domain with Some ip => Ip ip | None => DomainName domain end;
            tport := u16_from_be hi lo |}
  else if atyp =b x04 then
    let! addr_buf := read_exact (16 + 2) in
    let! octets := mlift (slice_to addr_buf 16) in
    let! hi := mlift (index addr_buf 16) in
    let! lo := mlift (index addr_buf 17) in
    mret {| host := Ip (V6 octets); tport := u16_from_be hi lo |}
  else mthrow (TrojanProtocol "unsupported ATYP").

Definition trojan_accept (password : bytes) : M TrojanError TargetAddr :=
  let expected_hash := password_hash password in
  let! hash_buf := read_exact 58 in
  let! received := mlift (slice_to hash_buf 56) in
  let! received_hash := mlift (from_utf8 TrojanAuthFailed received) in
  let hash_matches := ct_eq received_hash expected_hash in
  let! delimiter := mlift (slice hash_buf 56 58) in
  let delimiter_matches := ct_eq delimiter CRLF in
  if negb (hash_matches && delimiter_matches) then mthrow TrojanAuthFailed else
  let! cmd := read_u8 in
  if negb (cmd =b x01) then mthrow (TrojanProtocol "unsupported command") else
  let! atyp := read_u8 in
  let! target := read_target atyp in
  let! crlf_buf := read_exact 2 in
  if negb (bool_decide (crlf_buf = CRLF)) then mthrow (TrojanProtocol "missing trailing CRLF")
  else mret target.

(** ** The client *)

Section client.
Context {Config : Type}.
(** Building the default configuration, the server-name check and the handshake. *)
Variable build_default : outcome TrojanError Config.
Variable server_name_ok : bytes -> bool.
Variable tls_connect : Config -> bytes -> option string.

(** Only successful builds are memoized. *)
Definition tls_config_for (cache given : option Config) : outcome TrojanError Config * option Config :=
  match given with
  | Some c => (Ok c, cache)
  | None =>
      match cache with
      | Some c => (Ok c, cache)
      | None =>
          match build_default with
          | Ok c => (Ok c, Some c)
          | Err e => (Err e, None)
          | Panic => (Panic, None)
          end
      end
  end.

(** The connection is the one inside TLS. *)
Definition trojan_connect (cache given : option Config) (target : TargetAddr) (password server_name : bytes)
    (c : conn) : outcome TrojanError unit * conn * option Config :=
  let '(config, cache') := tls_config_for cache given in
  let '(r, c') :=
    (let! cfg := mlift config in
     if negb (server_name_ok server_name) then mthrow (TrojanTls "invalid server name") else
     match tls_connect cfg server_name with
     | Some e => mthrow (TrojanTls e)
     | None =>
         let! request := mlift (encode_trojan_request target password) in
         write_all request ;;
         flush
     end) c in
  (r, c', cache').
End client.

(** ** Lemmas *)

(** The address part of a request: type byte, then the address and port. *)
Inductive trojan_addr : TargetAddr -> bytes -> Prop :=
| ta_v4 o p : length o = 4 -> is_u16 p ->
    trojan_addr {| host := Ip (V4 o); tport := p |} (x01 :: o ++ u16_to_be p)
| ta_v6 o p : length o = 16 -> is_u16 p ->
    trojan_addr {| host := Ip (V6 o); tport := p |} (x04 :: o ++ u16_to_be p)
| ta_domain d p lb : utf8_valid d = true -> length d = b2n lb -> d <> [] -> is_u16 p ->
    trojan_addr {| host := match parse_ip d with Some ip => Ip ip | None => DomainName d end; tport := p |}
      (x03 :: lb :: d ++ u16_to_be p).

Lemma two_at (l : bytes) n hi lo :
  length l = n + 2 -> l !! n = Some hi -> l !! (n + 1) = Some lo -> l = take n l ++ [hi; lo].
Proof.
  intros Hl H1 H2. rewrite <- (take_drop n l) at 1. f_equal.
  rewrite (drop_S l hi n), <- Nat.add_1_r, (drop_S l lo (n + 1)), drop_ge by (done || lia). done.
Qed.

(** Invert the slices and indexings of a fixed buffer. *)
Ltac inv_buf :=
  repeat match goal with
  | H : slice _ _ _ = Ok _ |- _ => apply slice_ok in H as (_ & _ & ->)
  | H : slice_to _ _ = Ok _ |- _ => apply slice_to_ok in H as [_ ->]
  | H : index _ _ = Ok _ |- _ => apply index_ok in H
  | H : from_utf8 _ _ = Ok _ |- _ => apply from_utf8_ok in H as [? ->]
  end.

Lemma trojan_addr_port t (f : bytes -> bytes) buf n hi lo :
  length buf = n + 2 -> buf !! n = Some hi -> buf !! (n + 1) = Some lo ->
  trojan_addr t (f (take n buf ++ u16_to_be (u16_from_be hi lo))) -> trojan_addr t (f buf).
Proof. intros Hl H1 H2. by rewrite u16_to_from, <- two_at. Qed.

Lemma read_target_ok atyp c t c' :
  read_target atyp c = (Ok t, c') -> exists rest, trojan_addr t (atyp :: rest) /\ io rest [] c c'.
Proof.
  unfold read_target.
  destruct (atyp =b x01) eqn:E1; [apply byte_eqb_true in E1 as ->|].
  { intros H. inv_io. inv_buf. rename select bytes into buf. exists buf. split; [|done]. cbn [drop Nat.sub].
    eapply (trojan_addr_port _ (cons x01) buf 4); [done..|].
    constructor; [rewrite length_take; lia|apply u16_from_be_range]. }
  destruct (atyp =b x03) eqn:E3; [apply byte_eqb_true in E3 as ->|].
  { intros H. apply mbind_ok in H as (lb & c1 & Hlb & H). apply read_u8_io in Hlb.
    guard_in H; [done|]. guard_in H; [done|]. inv_io. inv_buf. bool_to_prop.
    match goal with H : io ?b _ c1 _ |- _ => exists (lb :: b); rename b into buf end.
    split; [|io_done]. eapply (trojan_addr_port _ (fun l => x03 :: lb :: l) buf (b2n lb)); [done..|].
    constructor; [done|rewrite length_take; lia| |apply u16_from_be_range].
    intros Hz. apply (f_equal length) in Hz. rewrite length_take in Hz. simpl in Hz. lia. }
  destruct (atyp =b x04) eqn:E4; [apply byte_eqb_true in E4 as ->|done].
  intros H. inv_io. inv_buf. rename select bytes into buf. exists buf. split; [|done].
  eapply (trojan_addr_port _ (cons x04) buf 16); [done..|].
  constructor; [rewrite length_take; lia|apply u16_from_be_range].
Qed.

(** A Trojan server yields a target only to a client that sent the password's
    hash: what it consumed is exactly the 56 hash characters, CRLF, the CONNECT
    command, a well-formed address of the returned target, and CRLF. *)
Theorem trojan_accept_exact password c t c' :
  trojan_accept password c = (Ok t, c') ->
  exists addr, trojan_addr t addr /\ length (password_hash password) = 56 /\
    io (password_hash password ++ CRLF ++ [x01] ++ addr ++ CRLF) [] c c'.
Proof.
  unfold trojan_accept. intros H. apply mbind_ok in H as (hb & c1 & Hhb & H).
  apply read_exact_io in Hhb as [Hl Hio]. inv_io. inv_buf. cbv zeta in H.
  destruct (ct_eq (take 56 hb) (password_hash password)) eqn:Eh; [|done].
  destruct (ct_eq (take (58 - 56) (drop 56 hb)) CRLF) eqn:Ed; [|done]. cbn [andb negb] in H.
  apply bool_decide_eq_true in Eh, Ed. change (58 - 56) with 2 in Ed.
  apply mbind_ok in H as (cmd & c2 & Hcmd & H). apply read_u8_io in Hcmd.
  destruct (cmd =b x01) eqn:Ec; [apply byte_eqb_true in Ec as ->|done]. cbn [negb] in H.
  apply mbind_ok in H as (atyp & c3 & Hat & H). apply read_u8_io in Hat.
  apply mbind_ok in H as (t' & c4 & Ht & H). apply read_target_ok in Ht as (rest & Haddr & Hrest).
  apply mbind_ok in H as (cr & c5 & Hcr & H). apply read_exact_io in Hcr as [_ Hcr].
  case_bool_decide as Ecr; [|done]. cbn [negb] in H. injection H as <- <-. subst cr.
  exists (atyp :: rest). split; [done|].
  assert (hb = password_hash password ++ CRLF) as ->.
  { rewrite <- Eh, <- Ed, (take_ge (drop 56 hb)) by (rewrite length_drop; lia). by rewrite take_drop. }
  split; [rewrite length_app in Hl; cbn in Hl; lia|]. io_done.
Qed.

Hypothesis sha224_length : forall p, length (sha224 p) = 28.

Lemma password_hash_hex l acc :
  length (foldl (fun o b => o ++ hex02 b) acc l) = length acc + 2 * length l /\
  (Forall (fun b => b2Z b < 128)%Z acc -> Forall (fun b => b2Z b < 128)%Z (foldl (fun o b => o ++ hex02 b) acc l)).
Proof.
  revert acc. induction l as [|b l IH]; intros acc; cbn [foldl length]; [split; [lia|done]|].
  destruct (IH (acc ++ hex02 b)) as [Hl Hf]. rewrite Hl, length_app. cbn [length hex02]. split; [lia|].
  intros Ha. apply Hf. apply Forall_app_2; [done|]. clear. unfold hex02.
  repeat constructor; by destruct b; vm_compute.
Qed.

Lemma password_hash_length password : length (password_hash password) = 56.
Proof. unfold password_hash. rewrite (proj1 (password_hash_hex _ _)), sha224_length. done. Qed.

Lemma password_hash_utf8 password : utf8_valid (password_hash password) = true.
Proof. apply ascii_utf8. apply password_hash_hex. constructor. Qed.

(** Client and server of Trojan agree: the request a client writes for a target
    with a name or address of 1 to 255 bytes is accepted by a server with the
    same password, which returns that target (a domain that is an IP literal
    comes out as the address) and leaves the bytes behind the request unread. *)
Theorem trojan_client_server target password request rest e o q :
  is_u16 (tport target) ->
  match host target with Ip ip => ip_wf ip | DomainName d => utf8_valid d = true end ->
  encode_trojan_request target password = Ok request ->
  trojan_accept password (Conn (request ++ rest) e o q) = (Ok (normalized target), Conn rest e o q).
Proof.
  intros Hp Hh. unfold encode_trojan_request. cbv zeta.
  set (d := match host target with Ip ip => fmt_ip ip | DomainName d => d end).
  destruct (Nat.eqb_spec (length d) 0) as [|Hne]; cbn [orb]; [done|].
  destruct (Nat.ltb_spec 255 (length d)) as [|Hle]; [done|].
  intros Hreq. match type of Hreq with Ok ?a = _ => assert (request = a) as -> by congruence end. clear Hreq.
  assert (utf8_valid d = true) as Hu.
  { subst d. destruct (host target); [apply ascii_utf8, fmt_ip_ascii|done]. }
  assert (normalized target =
    {| host := match parse_ip d with Some ip => Ip ip | None => DomainName d end; tport := tport target |}) as ->.
  { subst d. unfold normalized. destruct target as [[ip|dn] p]; cbn [host tport] in *; [|done]. by rewrite parse_fmt_ip. }
  set (lb := Z2b (Z.of_nat (length d))). assert (b2n lb = length d) as Hlb by (apply b2n_Z2b; lia).
  unfold trojan_accept. cbv zeta.
  replace (((password_hash password ++ CRLF ++ [x01] ++ [x03]) ++ [lb] ++ d ++ u16_to_be (tport target) ++ CRLF) ++ rest)
    with ((password_hash password ++ CRLF) ++ x01 :: x03 :: lb :: (d ++ u16_to_be (tport target)) ++ CRLF ++ rest)
    by (rewrite <- !app_assoc; done).
  pose proof (password_hash_length password) as Hhl.
  erewrite mbind_fwd by (apply read_exact_fwd; rewrite length_app, Hhl; done).
  erewrite mbind_fwd by (unfold mlift; by rewrite slice_to_app).
  erewrite mbind_fwd by (unfold mlift; by rewrite (proj2 (from_utf8_ok _ _ _) (conj (password_hash_utf8 password) eq_refl))).
  erewrite mbind_fwd.
  2:{ unfold mlift. rewrite <- (app_nil_r CRLF), (slice_app_mid (password_hash password) CRLF []); [done|done|by rewrite Hhl]. }
  unfold ct_eq. rewrite !bool_decide_true by done. cbn [andb negb].
  erewrite mbind_fwd by apply read_u8_fwd. cbn [negb]. rewrite byte_eqb_refl. cbn [negb].
  erewrite mbind_fwd by apply read_u8_fwd.
  erewrite mbind_fwd.
  2:{ unfold read_target. byte_if. erewrite mbind_fwd by apply read_u8_fwd. cbv zeta. rewrite Hlb.
      rewrite (proj2 (Nat.eqb_neq _ _)) by done. rewrite (proj2 (Nat.ltb_ge _ _)) by done.
      erewrite mbind_fwd by (apply read_exact_fwd; by rewrite length_app).
      erewrite mbind_fwd by (unfold mlift; by rewrite slice_to_app).
      erewrite mbind_fwd by (unfold mlift; by rewrite (proj2 (from_utf8_ok _ _ _) (conj Hu eq_refl))).
      erewrite mbind_fwd by (unfold mlift; by rewrite (index_app_r d _ _ 0) by lia).
      erewrite mbind_fwd by (unfold mlift; by rewrite (index_app_r d _ _ 1) by lia).
      rewrite u16_from_to by done. done. }
  erewrite mbind_fwd by (by apply read_exact_fwd). by rewrite bool_decide_true.
Qed.
End trojan.

(** ** A concrete exchange *)

(** Any function to 28 bytes can stand for the digest. *)
Definition sample_digest (p : bytes) : bytes := take 28 (p ++ replicate 28 x00).

Lemma sample_digest_length p : length (sample_digest p) = 28.
Proof. unfold sample_digest. rewrite length_take, length_app, length_replicate. lia. Qed.

Definition demo_request (t : TargetAddr) : bytes :=
  match encode_trojan_request sample_digest t (str "pw") with Ok r => r | _ => [] end.
Definition demo_target : TargetAddr := {| host := Ip (V4 [x5d; xb8; xd8; x22]); tport := 443 |}.

Lemma trojan_client_server_witness :
  trojan_accept sample_digest (str "pw") (Conn (demo_request demo_target ++ str "GET") None [] None) =
    (Ok (normalized demo_target), Conn (str "GET") None [] None).
Proof.
  apply (trojan_client_server sample_digest sample_digest_length demo_target (str "pw")).
  - split; vm_compute; [intros ?; discriminate|reflexivity].
  - reflexivity.
  - vm_compute. reflexivity.
Defined.

Lemma trojan_accept_exact_witness :
  exists addr, trojan_addr demo_target addr /\ length (password_hash sample_digest (str "pw")) = 56 /\
    io (password_hash sample_digest (str "pw") ++ CRLF ++ [x01] ++ addr ++ CRLF) []
      (Conn (demo_request demo_target) None [] None) (Conn [] None [] None).
Proof. apply trojan_accept_exact. vm_compute. reflexivity. Defined.

(** A wrong password and a wrong delimiter give the same error; the configuration
    is built again after a failed build. *)
Example trojan_uniform_failure :
  (trojan_accept sample_digest (str "other") (Conn (demo_request demo_target) None [] None)).1 = Err TrojanAuthFailed /\
  (trojan_accept sample_digest (str "pw")
     (Conn (<[56 := x00]> (demo_request demo_target)) None [] None)).1 = Err TrojanAuthFailed /\
  tls_config_for (Config:=nat) (Err (TrojanTls "roots")) None None = (Err (TrojanTls "roots"), None).
Proof. vm_compute. done. Qed.
