(* ===== verification/HttpText.v ===== *)
(** * Text of HTTP messages

    What the HTTP code uses of the standard library's strings ([trim],
    [split_whitespace], [from_utf8_lossy], integer parsing), the errors of
    [crates/eggress-protocol-http/src/error.rs], and the loop that reads a message
    head byte by byte, which the CONNECT server, the CONNECT client and the
    forward proxy each spell out.

    Strings are their UTF-8 bytes.  The characters with the Unicode property
    White_Space start with a byte that never continues another character, so they
    are found by looking at bytes. *)

From S2P Require Import Prelude Bytes Decimal Stream NetAddr.

(** ** White space *)

(** The characters with the property White_Space, in UTF-8. *)
Definition ws_chars : list bytes :=
  [[x09]; [x0a]; [x0b]; [x0c]; [x0d]; [x20]; [xc2; x85]; [xc2; xa0]; [xe1; x9a; x80];
   [xe2; x80; x80]; [xe2; x80; x81]; [xe2; x80; x82]; [xe2; x80; x83]; [xe2; x80; x84]; [xe2; x80; x85];
   [xe2; x80; x86]; [xe2; x80; x87]; [xe2; x80; x88]; [xe2; x80; x89]; [xe2; x80; x8a];
   [xe2; x80; xa8]; [xe2; x80; xa9]; [xe2; x80; xaf]; [xe2; x81; x9f]; [xe3; x80; x80]].

(** Length of the white space character the string starts with; the same at its
    end, on the reversed string. *)
Definition ws_len (s : bytes) : option nat :=
  match List.find (fun w => starts_with w s) ws_chars with Some w => Some (length w) | None => None end.
Definition ws_len_rev (s : bytes) : option nat :=
  match List.find (fun w => starts_with (rev w) s) ws_chars with Some w => Some (length w) | None => None end.

(** Drop the characters [len] finds; a character has at least one byte. *)
Fixpoint trim_with (fuel : nat) (len : bytes -> option nat) (s : bytes) : bytes :=
  match fuel with
  | O => s
  | S f => match len s with Some n => trim_with f len (drop n s) | None => s end
  end.

(** [str::trim_start], [str::trim_end], [str::trim]. *)
Definition trim_start (s : bytes) : bytes := trim_with (length s) ws_len s.
Definition trim_end (s : bytes) : bytes := rev (trim_with (length s) ws_len_rev (rev s)).
Definition trim (s : bytes) : bytes := trim_end (trim_start s).

(** [str::split_whitespace]: [skip] bytes of a separator are still to be dropped,
    [cur] is the current word, reversed. *)
Fixpoint split_ws (s : bytes) (skip : nat) (cur : bytes) : list bytes :=
  let word := match cur with [] => [] | _ => [rev cur] end in
  match s with
  | [] => word
  | b :: r =>
      match skip with
      | S k => split_ws r k cur
      | O =>
          match ws_len s with
          | Some n => word ++ split_ws r (n - 1) []
          | None => split_ws r 0 (b :: cur)
          end
      end
  end.
Definition split_whitespace (s : bytes) : list bytes := split_ws s 0 [].

(** ** Lossy decoding *)

(** Bytes of the first character, or of the maximal prefix of one that is not
    valid: [core::str::Utf8Chunks]. *)
Definition utf8_step (s : bytes) : bool * nat :=
  match s with
  | [] => (true, 0)
  | a :: r =>
      let cont i := match r !! i with Some b => utf8_cont b | None => false end in
      let second lo hi := match r !! 0 with Some b => byte_in lo hi b | None => false end in
      let three lo hi := if second lo hi then (if cont 1 then (true, 3) else (false, 2)) else (false, 1) in
      let four lo hi :=
        if second lo hi then
          (if cont 1 then (if cont 2 then (true, 4) else (false, 3)) else (false, 2))
        else (false, 1) in
      if byte_in 0 0x7F a then (true, 1)
      else if byte_in 0xC2 0xDF a then (if cont 0 then (true, 2) else (false, 1))
      else if byte_in 0xE0 0xE0 a then three 0xA0%Z 0xBF%Z
      else if byte_in 0xE1 0xEC a || byte_in 0xEE 0xEF a then three 0x80%Z 0xBF%Z
      else if byte_in 0xED 0xED a then three 0x80%Z 0x9F%Z
      else if byte_in 0xF0 0xF0 a then four 0x90%Z 0xBF%Z
      else if byte_in 0xF1 0xF3 a then four 0x80%Z 0xBF%Z
      else if byte_in 0xF4 0xF4 a then four 0x80%Z 0x8F%Z
      else (false, 1)
  end.

(** [U+FFFD] for every invalid piece. *)
Fixpoint lossy_loop (fuel : nat) (s : bytes) : bytes :=
  match fuel, s with
  | S f, _ :: _ =>
      let '(ok, n) := utf8_step s in
      (if ok then take n s else [xef; xbf; xbd]) ++ lossy_loop f (drop n s)
  | _, _ => []
  end.
Definition from_utf8_lossy (s : bytes) : bytes := lossy_loop (length s) s.

(** ** Numbers *)

(** [uN::from_str_radix(s, radix)]: an optional [+], at least one digit, no overflow. *)
Definition parse_uint (radix bound : Z) (s : bytes) : option Z :=
  let s' := match s with b :: r => if b =b x2b then r else s | [] => s end in
  match s' with
  | [] => None
  | _ =>
      match digits_value radix 0 s' with
      | Some v => if (v <? bound)%Z then Some v else None
      | None => None
      end
  end.
Definition parse_u64 (s : bytes) : option Z := parse_uint 10 (2 ^ 64) s.
Definition parse_hex_u64 (s : bytes) : option Z := parse_uint 16 (2 ^ 64) s.

(** ** Lines *)

Definition CRLF : bytes := [x0d; x0a].
Definition CRLF2 : bytes := [x0d; x0a; x0d; x0a].

(** [s.split("\r\n")]. *)
Fixpoint split_crlf (s : bytes) : list bytes :=
  match s with
  | [] => [[]]
  | a :: r =>
      match r with
      | b :: r' =>
          if (a =b x0d) && (b =b x0a) then [] :: split_crlf r'
          else match split_crlf r with
          | p :: ps => (a :: p) :: ps
          | [] => [[a]]
          end
      | [] => [[a]]
      end
  end.

(** [s.strip_prefix(p)]. *)
Definition strip_prefix (p s : bytes) : option bytes :=
  if starts_with p s then Some (drop (length p) s) else None.

(** ** Errors *)

Inductive HttpError :=
| HttpIo (e : IoError)
| MalformedRequest (why : string)
| MalformedResponse (why : string)
| UnsupportedVersion (v : bytes)
| MissingHeader (name : string)
| InvalidHeaderValue (why : string)
| HeaderTooLarge
| TooManyHeaders
| TargetParseError (why : string)
| AuthRequired
| AuthFailed
| ConnectionRefused
| GatewayTimeout
| BadGateway
| UnexpectedStatus (code : Z)
| UpstreamError (why : string)
| InvalidContentLength
| ConflictingContentLength
| TransferEncodingWithContentLength
| UnsupportedTransferEncoding (coding : bytes)
| ChunkedNotFinal
| InvalidCredentials
| ExpectationFailed
| UpgradeUnsupported
| TooManyInformationalResponses.

#[export] Instance http_from_io : FromIo HttpError := HttpIo.

Definition status_code (e : HttpError) : Z :=
  match e with
  | MalformedRequest _ => 400
  | AuthRequired => 407
  | AuthFailed => 403
  | ConnectionRefused => 502
  | BadGateway => 502
  | GatewayTimeout => 504
  | HeaderTooLarge => 431
  | TooManyHeaders => 431
  | InvalidContentLength => 400
  | ConflictingContentLength => 400
  | TransferEncodingWithContentLength => 400
  | UnsupportedTransferEncoding _ => 400
  | ChunkedNotFinal => 400
  | InvalidCredentials => 400
  | ExpectationFailed => 417
  | UpgradeUnsupported => 501
  | TooManyInformationalResponses => 502
  | _ => 500
  end.

(** ** Reading a head *)

(** The loop of the head and line readers: a byte at a time, at most [max] bytes
    ([long] beyond); [step] looks at the bytes so far and stops the loop ([None]),
    goes on with a new counter, or fails. *)
Section head.
Context {S : Type}.
Variables (max : nat) (long : HttpError) (eof : bytes -> HttpError).
Variable (step : bytes -> S -> outcome HttpError (option S)).

Fixpoint head_loop (fuel : nat) (head : bytes) (st : S) : M HttpError bytes :=
  match fuel with
  | O => fun c => (Panic, c)
  | Datatypes.S f =>
      if max <=? length head then mthrow long else
      let! b := read_byte_opt in
      match b with
      | None => mthrow (eof head)
      | Some b =>
          let head := head ++ [b] in
          let! next := mlift (step head st) in
          match next with
          | None => mret head
          | Some st => head_loop f head st
          end
      end
  end.

(** Every turn adds a byte, so [max + 1] turns are enough. *)
Definition read_head (st : S) : M HttpError bytes := head_loop (max + 1) [] st.
End head.

(** ** What the head loop returns *)

Section head_ok.
Context {S : Type}.
Variables (max : nat) (long : HttpError) (eof : bytes -> HttpError).
Variable (step : bytes -> S -> outcome HttpError (option S)).
(** [stop]: when the loop ends, whatever the counters. *)
Variable stop : bytes -> bool.
Hypothesis step_stop : forall h st o, step h st = Ok o -> (o = None <-> stop h = true).

Lemma read_byte_opt_some {E} `{!FromIo E} c b c' :
  read_byte_opt (E:=E) c = (Ok (Some b), c') -> io [b] [] c c'.
Proof.
  unfold read_byte_opt, io. destruct (c_in c) as [|x l] eqn:Hin; [by destruct (c_end c)|].
  intros [= <- <-]. cbn. by rewrite app_nil_r.
Qed.

(** The head is the shortest extension at which the loop stops; it is at most
    [max] bytes long, and nothing behind it was consumed. *)
Lemma head_loop_ok fuel : forall head st c h c',
  head_loop max long eof step fuel head st c = (Ok h, c') ->
  exists l, h = head ++ l /\ l <> [] /\ io l [] c c' /\ length h <= max /\ stop h = true /\
    forall k, length head < k < length h -> stop (take k h) = false.
Proof.
  induction fuel as [|f IH]; intros head st c h c' H; cbn [head_loop] in H; [done|].
  guard_in H; [done|]. bool_to_prop. apply mbind_ok in H as (b & c1 & Hb & H).
  destruct b as [b|]; [|done]. apply read_byte_opt_some in Hb. cbv zeta in H.
  apply mbind_ok in H as (next & c2 & Hn & H). injection Hn as Hn <-. destruct next as [st'|].
  - assert (stop (head ++ [b]) = false) as Hns.
    { apply not_true_is_false. intros E. by apply (step_stop _ _ _ Hn) in E. }
    apply IH in H as (l & -> & Hne & Hio & Hl & Hs & Hmin). exists (b :: l).
    rewrite <- app_assoc in *. cbn [app] in *. split_and!; [done|done| |done|done|].
    + pose proof (io_trans _ _ _ _ _ _ _ Hb Hio) as Ht. exact Ht.
    + intros k Hk. destruct (decide (k = length head + 1)) as [->|Hne'].
      * rewrite take_app_add. exact Hns.
      * apply Hmin. rewrite length_app. cbn [length]. lia.
  - injection H as <- <-. exists [b]. split_and!; [done|done|done| | |].
    + rewrite length_app. cbn [length]. lia.
    + by apply (step_stop _ _ _ Hn).
    + intros k. rewrite length_app. cbn [length]. lia.
Qed.

(** Reading forward to the first stopping point, when the counters allow it: [inv]
    relates them to the bytes read. *)
Lemma head_loop_fwd (inv : bytes -> S -> Prop) l : forall fuel head st rest e o q,
  length l < fuel -> length (head ++ l) <= max -> l <> [] -> inv head st ->
  (forall l1 b l2 st', l = l1 ++ b :: l2 -> l2 <> [] -> inv (head ++ l1) st' ->
     exists st'', step (head ++ l1 ++ [b]) st' = Ok (Some st'') /\ inv (head ++ l1 ++ [b]) st'') ->
  (forall st', step (head ++ l) st' = Ok None) ->
  head_loop max long eof step fuel head st (Conn (l ++ rest) e o q) = (Ok (head ++ l), Conn rest e o q).
Proof using Type.
  clear step_stop. induction l as [|b l IH]; intros fuel head st rest e o q Hf Hmax Hne Hinv Hgo Hs; [done|].
  destruct fuel as [|f]; [cbn in Hf; lia|]. cbn [head_loop app]. rewrite length_app in Hmax. cbn [length] in *.
  rewrite (proj2 (Nat.leb_gt _ _)) by lia. erewrite mbind_fwd by done. cbv beta iota zeta.
  destruct l as [|b' l].
  - rewrite Hs. by erewrite mbind_fwd by done.
  - destruct (Hgo [] b (b' :: l) st eq_refl) as (st'' & Hst & Hinv'); [done|by rewrite app_nil_r|].
    cbn [app] in Hst, Hinv'. rewrite Hst. erewrite mbind_fwd by done. cbv beta iota.
    etransitivity; [apply (IH f (head ++ [b]) st'' rest e o q)|].
    + cbn [length] in *. lia.
    + rewrite !length_app. cbn [length] in *. lia.
    + done.
    + done.
    + intros l1 x l2 st' E Hl2 Hi. rewrite <- !app_assoc in *.
      destruct (Hgo (b :: l1) x l2 st') as (s & Hs' & Hi'); [by rewrite E|done|done|]. by exists s.
    + intros st'. rewrite <- app_assoc. apply Hs.
    + by rewrite <- app_assoc.
Qed.

(** The turns provided are enough. *)
Lemma head_loop_no_panic fuel : forall head st c,
  (forall h st, step h st <> Panic) -> 0 < fuel -> max < fuel + length head ->
  (head_loop max long eof step fuel head st c).1 <> Panic.
Proof using Type.
  clear step_stop. induction fuel as [|f IH]; intros head st c Hs Hp Hf; [lia|]. cbn [head_loop].
  guard_goal; [done|]. bool_to_prop. apply mbind_no_panic.
  { unfold read_byte_opt. destruct (c_in c); [destruct (c_end c)|]; done. }
  intros [b|] c1 _; [|done]. cbv zeta. apply mbind_no_panic; [apply Hs|].
  intros [st'|] c2 _; [|done]. apply IH; [done|lia|]. rewrite length_app. cbn [length]. lia.
Qed.
End head_ok.

(** ** White space characters *)

Lemma ws_chars_nonempty : Forall (fun w : bytes => 1 <= length w) ws_chars.
Proof. repeat (apply List.Forall_cons; [cbn [length]; lia|]). apply List.Forall_nil. Qed.

Lemma ws_chars_ascii : Forall (fun w : bytes => length w = 1 \/ Forall (fun b => 128 <= b2Z b)%Z w) ws_chars.
Proof.
  repeat (apply List.Forall_cons; [first [left; reflexivity|right; repeat constructor; by vm_compute]|]). apply List.Forall_nil.
Qed.

Lemma ws_len_None s : ws_len s = None <-> forall w, w ∈ ws_chars -> starts_with w s = false.
Proof.
  unfold ws_len. destruct (List.find _ ws_chars) as [w|] eqn:E.
  - apply List.find_some in E as [Hin Hw]. split; [done|]. intros H.
    rewrite H in Hw by (by apply list_elem_of_In). done.
  - split; [|done]. intros _ w Hin. eapply List.find_none in E; [exact E|]. by apply list_elem_of_In.
Qed.

Lemma ws_len_range s n : ws_len s = Some n -> 1 <= n <= length s.
Proof.
  unfold ws_len. destruct (List.find _ ws_chars) as [w|] eqn:E; [|done]. intros [= <-].
  apply List.find_some in E as [Hin [r ->]%starts_with_spec]. apply list_elem_of_In in Hin.
  pose proof (proj1 (Forall_forall _ _) ws_chars_nonempty w Hin). rewrite length_app. cbn beta in *. lia.
Qed.

Lemma ws_len_rev_range s n : ws_len_rev s = Some n -> 1 <= n <= length s.
Proof.
  unfold ws_len_rev. destruct (List.find _ ws_chars) as [w|] eqn:E; [|done]. intros [= <-].
  apply List.find_some in E as [Hin [r ->]%starts_with_spec]. apply list_elem_of_In in Hin.
  pose proof (proj1 (Forall_forall _ _) ws_chars_nonempty w Hin).
  rewrite length_app, length_rev. cbn beta in *. lia.
Qed.

Lemma ws_len_app s r : ws_len (s ++ r) = None -> ws_len s = None.
Proof.
  rewrite !ws_len_None. intros H w Hw. specialize (H w Hw).
  destruct (starts_with w s) eqn:E; [|done]. apply starts_with_spec in E as [q ->].
  rewrite <- H. apply eq_sym, starts_with_spec. exists (q ++ r). by rewrite app_assoc.
Qed.

(** An ASCII byte does not complete a character. *)
Lemma ws_len_ascii s b r : (b2Z b < 128)%Z -> s <> [] -> ws_len s = None -> ws_len (s ++ b :: r) = None.
Proof.
  intros Hb Hne. rewrite !ws_len_None. intros H w Hw. specialize (H w Hw).
  destruct (starts_with w (s ++ b :: r)) eqn:E; [|done]. apply starts_with_spec in E as [q E].
  apply app_eq_inv in E as [(k & -> & E2)|(k & -> & E2)].
  - rewrite <- H. apply eq_sym, starts_with_spec. by exists k.
  - destruct k as [|x k].
    + rewrite app_nil_r in H. rewrite <- H. apply eq_sym, starts_with_spec. exists []. by rewrite app_nil_r.
    + injection E2 as <- _. destruct (proj1 (Forall_forall _ _) ws_chars_ascii _ Hw) as [Hl|Hf].
      * rewrite length_app in Hl. destruct s; [done|]. cbn [length] in Hl. lia.
      * apply Forall_app in Hf as [_ [Hf _]%Forall_cons]. lia.
Qed.

(** An ASCII byte that is not white space starts no character of white space. *)
Definition plain (b : byte) : Prop := (b2Z b < 128)%Z /\ [b] ∉ ws_chars.

Lemma ws_chars_low : Forall (fun w : bytes => Forall (fun b => b2Z b <= 32 \/ 128 <= b2Z b)%Z w) ws_chars.
Proof.
  repeat (apply List.Forall_cons;
    [repeat (apply List.Forall_cons; [first [left; by vm_compute|right; by vm_compute]|]); apply List.Forall_nil|]).
  apply List.Forall_nil.
Qed.

Lemma plain_printable b : byte_in 0x21 0x7e b = true -> plain b.
Proof.
  unfold byte_in. intros Hb. bool_to_prop. split; [lia|]. intros Hw.
  apply (proj1 (Forall_forall _ _) ws_chars_low), Forall_cons in Hw as [[?|?] _]; lia.
Qed.

Lemma ws_len_plain b r : plain b -> ws_len (b :: r) = None.
Proof.
  intros [Hb Hn]. apply ws_len_None. intros w Hw. destruct w as [|x w].
  - pose proof (proj1 (Forall_forall _ _) ws_chars_nonempty _ Hw) as Hl. cbn in Hl. lia.
  - cbn [starts_with]. destruct (x =b b) eqn:E; [|done]. apply byte_eqb_true in E as ->.
    destruct (proj1 (Forall_forall _ _) ws_chars_ascii _ Hw) as [Hl|[Hf _]%Forall_cons]; [|lia].
    destruct w; [done|]. cbn in Hl. lia.
Qed.

Lemma trim_space t : trim (x20 :: t) = trim t.
Proof. reflexivity. Qed.

Lemma split_ws_space r cur : cur <> [] -> split_ws (x20 :: r) 0 cur = rev cur :: split_ws r 0 [].
Proof. by destruct cur. Qed.

#[local] Opaque ws_chars.

(** ** Trimming *)

Section trimming.
Variable len : bytes -> option nat.
Hypothesis len_range : forall s n, len s = Some n -> 1 <= n <= length s.

Lemma trim_with_fix fuel : forall s, length s <= fuel -> len (trim_with fuel len s) = None.
Proof using len_range.
  induction fuel as [|f IH]; intros s Hs; cbn [trim_with]; destruct (len s) as [n|] eqn:E; try done.
  - pose proof (len_range _ _ E). lia.
  - pose proof (len_range _ _ E). apply IH. rewrite length_drop. lia.
Qed.

Lemma trim_with_suffix fuel : forall s, exists p, s = p ++ trim_with fuel len s.
Proof using Type.
  clear len_range. induction fuel as [|f IH]; intros s; cbn [trim_with]; [by exists []|].
  destruct (len s) as [n|]; [|by exists []]. destruct (IH (drop n s)) as [p Hp].
  exists (take n s ++ p). by rewrite <- app_assoc, <- Hp, take_drop.
Qed.

Lemma trim_with_id fuel s : len s = None -> trim_with fuel len s = s.
Proof using Type. destruct fuel; cbn [trim_with]; [done|]. by intros ->. Qed.
End trimming.

(** [t] is already trimmed. *)
Definition trimmed (t : bytes) : Prop := ws_len t = None /\ ws_len_rev (rev t) = None.

Lemma trim_trimmed s : trimmed (trim s).
Proof.
  unfold trim, trim_end. set (u := trim_start s). split.
  - destruct (trim_with_suffix ws_len_rev (length u) (rev u)) as [p Hp].
    apply (ws_len_app _ (rev p)). rewrite <- rev_app_distr, <- Hp, rev_involutive.
    apply trim_with_fix; [apply ws_len_range|done].
  - rewrite rev_involutive. apply trim_with_fix; [apply ws_len_rev_range|by rewrite length_rev].
Qed.

Lemma trim_infix s : exists p q, s = p ++ trim s ++ q.
Proof.
  unfold trim, trim_end. destruct (trim_with_suffix ws_len (length s) s) as [p Hp].
  fold (trim_start s) in Hp. set (u := trim_start s) in *.
  destruct (trim_with_suffix ws_len_rev (length u) (rev u)) as [q Hq]. exists p, (rev q).
  rewrite <- rev_app_distr, <- Hq, rev_involutive. exact Hp.
Qed.

Lemma trim_id t : trimmed t -> trim t = t.
Proof.
  intros [H1 H2]. unfold trim, trim_start, trim_end. rewrite (trim_with_id ws_len (length t) t H1).
  rewrite (trim_with_id ws_len_rev (length t) (rev t) H2). apply rev_involutive.
Qed.

Lemma ws_len_rev_plain b r : plain b -> ws_len_rev (b :: r) = None.
Proof.
  intros [Hb Hn]. unfold ws_len_rev. destruct (List.find _ ws_chars) as [w|] eqn:E; [exfalso|done].
  apply List.find_some in E as [Hw [q Hq]%starts_with_spec]. apply list_elem_of_In in Hw.
  destruct (rev w) as [|x k] eqn:Er.
  - apply (f_equal (@rev byte)) in Er. rewrite rev_involutive in Er. subst w.
    pose proof (proj1 (Forall_forall _ _) ws_chars_nonempty _ Hw) as Hl. cbn in Hl. lia.
  - injection Hq as <- _. apply (f_equal (@rev byte)) in Er. rewrite rev_involutive in Er. cbn [rev] in Er. subst w.
    destruct (proj1 (Forall_forall _ _) ws_chars_ascii _ Hw) as [Hl|[_ [Hf _]%Forall_cons]%Forall_app]; [|lia].
    rewrite length_app in Hl. cbn [length] in Hl. destruct (rev k); [done|cbn [length] in Hl; lia].
Qed.

(** A text that starts and ends with a plain byte is trimmed. *)
Lemma trimmed_ends b m c : plain b -> plain c -> trimmed (b :: m ++ [c]).
Proof.
  intros Hb Hc. split; [by apply ws_len_plain|]. cbn [rev]. rewrite rev_app_distr. by apply ws_len_rev_plain.
Qed.

(** ** Words *)

(** No white space character starts in [w]. *)
Definition solid (w : bytes) : Prop := forall i, i < length w -> ws_len (drop i w) = None.

Lemma solid_clean w b : solid w -> [b] ∈ ws_chars -> b ∉ w.
Proof.
  intros Hs Hb (i & Hi)%list_elem_of_lookup. pose proof (lookup_lt_Some _ _ _ Hi) as Hl.
  specialize (Hs i Hl). rewrite (drop_S _ _ _ Hi), ws_len_None in Hs. specialize (Hs _ Hb).
  cbn in Hs. by rewrite byte_eqb_refl in Hs.
Qed.

Lemma solid_plain w t : solid w -> Forall plain t -> solid (w ++ t).
Proof.
  intros Hs Ht i Hi. destruct (decide (i < length w)) as [Hlt|Hge].
  - rewrite drop_app_le by lia. destruct Ht as [|b t [Hb _] _]; [rewrite app_nil_r; by apply Hs|].
    apply ws_len_ascii; [done| |by apply Hs]. intros E%(f_equal length). rewrite length_drop in E. cbn in E. lia.
  - rewrite drop_app_ge by lia. rewrite length_app in Hi.
    destruct (drop (i - length w) t) as [|b r] eqn:E; [apply (f_equal length) in E; rewrite length_drop in E; cbn in E; lia|].
    apply ws_len_plain. eapply (Forall_drop _ (i - length w)) in Ht. rewrite E in Ht. by apply Forall_cons in Ht as [? _].
Qed.

Lemma solid_cons b w : plain b -> solid w -> solid (b :: w).
Proof. intros Hb Hw [|i] Hi; [by apply ws_len_plain|]. apply Hw. cbn [length] in Hi. lia. Qed.

Lemma solid_of_plain s : Forall plain s -> solid s.
Proof. induction 1; [intros i Hi; cbn in Hi; lia|by apply solid_cons]. Qed.

Lemma solid_drop w i : solid w -> solid (drop i w).
Proof. intros Hs j Hj. rewrite drop_drop. apply Hs. rewrite length_drop in Hj. lia. Qed.

Lemma split_ws_solid s : forall skip cur,
  (0 < skip -> cur = []) ->
  (forall i, i < length cur -> ws_len (drop i (rev cur) ++ s) = None) ->
  Forall (fun w => solid w /\ w <> []) (split_ws s skip cur).
Proof.
  assert (forall s cur, (forall i, i < length cur -> ws_len (drop i (rev cur) ++ s) = None) ->
    Forall (fun w => solid w /\ w <> []) (match cur with [] => [] | _ => [rev cur] end)) as Hw.
  { intros r [|x cur] Hc; [constructor|]. constructor; [|constructor]. split.
    - intros i Hi. rewrite length_rev in Hi. by eapply ws_len_app, Hc.
    - intros E%(f_equal length). rewrite length_rev in E. done. }
  induction s as [|b s IH]; intros skip cur Hk Hc; cbn [split_ws]; [by eapply Hw|].
  destruct skip as [|k].
  - destruct (ws_len (b :: s)) as [n|] eqn:E.
    + apply Forall_app_2; [by eapply Hw|]. apply IH; [done|]. cbn. lia.
    + apply IH; [lia|]. intros i Hi. cbn [length rev] in *. destruct (decide (i = length cur)) as [->|Hne].
      * by rewrite drop_app_length' by (by rewrite length_rev).
      * rewrite drop_app_le, <- app_assoc by (rewrite length_rev; lia). apply Hc. lia.
  - rewrite Hk in * by lia. apply IH; [done|]. cbn. lia.
Qed.

Lemma split_whitespace_solid s : Forall (fun w => solid w /\ w <> []) (split_whitespace s).
Proof. apply split_ws_solid; [done|]. cbn. lia. Qed.

Lemma split_ws_word w r cur : solid w -> cur ++ w <> [] ->
  split_ws (w ++ x20 :: r) 0 cur = (rev cur ++ w) :: split_ws r 0 [].
Proof.
  revert cur. induction w as [|b w IH]; intros cur Hs Hne.
  - rewrite app_nil_r in *. by apply split_ws_space.
  - assert (ws_len (b :: w ++ x20 :: r) = None) as Hb.
    { apply (ws_len_ascii (b :: w)); [by vm_compute|done|]. apply (Hs 0). cbn. lia. }
    cbn [app split_ws]. rewrite Hb, IH.
    + cbn [rev]. by rewrite <- app_assoc.
    + apply (solid_drop _ 1 Hs).
    + done.
Qed.

Lemma split_ws_last w cur : solid w -> cur ++ w <> [] -> split_ws w 0 cur = [rev cur ++ w].
Proof.
  revert cur. induction w as [|b w IH]; intros cur Hs Hne.
  - rewrite app_nil_r in *. destruct cur; [done|]. done.
  - cbn [split_ws]. pose proof (Hs 0) as H0. cbn [drop length] in H0. rewrite H0 by lia.
    rewrite IH; [|apply (solid_drop _ 1 Hs)|done]. cbn [rev]. by rewrite <- app_assoc.
Qed.

(** Three words joined by spaces are read back. *)
Lemma split_whitespace_3 a b c :
  solid a -> a <> [] -> solid b -> b <> [] -> solid c -> c <> [] ->
  split_whitespace (a ++ [x20] ++ b ++ [x20] ++ c) = [a; b; c].
Proof.
  intros. cbn [app]. unfold split_whitespace. rewrite split_ws_word, split_ws_word, split_ws_last by done. done.
Qed.

(** ** Lines *)

(** A piece without CR is one line. *)
Lemma split_crlf_app p s : x0d ∉ p -> split_crlf (p ++ CRLF ++ s) = p :: split_crlf s.
Proof.
  induction p as [|b p IH]; intros Hp; [done|].
  assert (b <> x0d) as Hb by set_solver. specialize (IH ltac:(set_solver)).
  cbn [app]. destruct p as [|b' p].
  - cbn [app] in *. cbn [split_crlf CRLF app]. rewrite (proj2 (byte_eqb_false b x0d)) by done. cbn [andb].
    cbn [split_crlf CRLF app] in IH. by rewrite IH.
  - cbn [app] in *. cbn [split_crlf]. cbn [split_crlf] in IH.
    rewrite (proj2 (byte_eqb_false b x0d)) by done. cbn [andb]. by rewrite IH.
Qed.

(** A message head made of lines. *)
Definition head_text (ls : list bytes) : bytes := mjoin (map (fun l => l ++ CRLF) ls) ++ CRLF.

Lemma head_text_cons l ls : head_text (l :: ls) = l ++ CRLF ++ head_text ls.
Proof. unfold head_text. cbn [map mjoin list_join]. by rewrite <- !app_assoc. Qed.

Lemma split_crlf_lines ls : Forall (fun l => x0d ∉ l) ls -> split_crlf (head_text ls) = ls ++ [[]; []].
Proof.
  induction 1 as [|l ls Hl Hls IH]; [done|]. rewrite head_text_cons, split_crlf_app by done. by rewrite IH.
Qed.

(** The empty line comes at the end of the head and nowhere before. *)
Lemma head_text_no_gap ls p q : Forall (fun l => x0d ∉ l /\ l <> []) ls ->
  head_text ls = p ++ CRLF2 ++ q -> q = [].
Proof.
  intros Hls. revert p. induction Hls as [|l ls [Hl Hne] Hls IH]; intros p E.
  - apply (f_equal length) in E. rewrite !length_app in E. cbn [CRLF2 length head_text map mjoin list_join] in E.
    cbn in E. lia.
  - rewrite head_text_cons in E. apply app_eq_inv in E as [(k & -> & E)|(k & -> & E)].
    + destruct k as [|x k].
      * cbn [app CRLF CRLF2] in E. injection E as E. destruct ls as [|l' ls].
        { cbn in E. injection E as E. done. }
        rewrite head_text_cons in E. apply Forall_cons in Hls as [[Hl' Hne'] _]. destruct l' as [|y l']; [done|].
        cbn [app] in E. exfalso. apply Hl'. assert (y = x0d) as -> by congruence. set_solver.
      * cbn [app CRLF2] in E. exfalso. apply Hl. assert (x = x0d) as -> by congruence. set_solver.
    + destruct k as [|x k]; [|destruct k as [|y k]].
      * cbn [app CRLF CRLF2] in E. injection E as E. destruct ls as [|l' ls].
        { cbn in E. injection E as E. done. }
        rewrite head_text_cons in E. apply Forall_cons in Hls as [[Hl' Hne'] _]. destruct l' as [|y l']; [done|].
        cbn [app] in E. exfalso. apply Hl'. assert (y = x0d) as -> by congruence. set_solver.
      * cbn [app CRLF CRLF2] in E. done.
      * cbn [app CRLF] in E. injection E as E1 E2 E. by apply (IH k).
Qed.

(** ** Numbers *)

Lemma parse_uint_range radix bound s z : (0 <= radix)%Z -> parse_uint radix bound s = Some z -> (0 <= z < bound)%Z.
Proof.
  unfold parse_uint. intros Hr. set (s' := match s with b :: r => _ | [] => _ end). destruct s' as [|b r]; [done|].
  destruct (digits_value radix 0 (b :: r)) as [v|] eqn:Hv; [|done]. destruct (Z.ltb_spec v bound); [|done].
  intros [= <-]. split; [|done]. by apply (digits_value_nonneg radix (b :: r) 0).
Qed.

(** ** UTF-8 *)

(** One character of a valid string. *)
Lemma utf8_step_valid s : s <> [] -> utf8_valid s = true ->
  exists n, utf8_step s = (true, S n) /\ S n <= length s /\
    forall t, utf8_valid (s ++ t) = utf8_valid (drop (S n) s ++ t).
Proof.
  destruct s as [|a r]; [done|]. intros _. cbn [utf8_valid utf8_step app].
  destruct (byte_in 0 127 a); [exists 0; cbn; split_and!; [done|lia|done]|].
  destruct r as [|b r]; [done|]. cbn [lookup list_lookup app].
  destruct (byte_in 194 223 a).
  { destruct (utf8_cont b); [|done]. intros _. exists 1. cbn. split_and!; [done|lia|done]. }
  destruct r as [|c r]; [done|]. cbn [lookup list_lookup app].
  destruct (byte_in 224 224 a).
  { destruct (byte_in 160 191 b), (utf8_cont c); try done. intros _. exists 2. cbn. split_and!; [done|lia|done]. }
  change (utf8_cont b) with (byte_in 128 191 b).
  destruct (byte_in 225 236 a || byte_in 238 239 a).
  { destruct (byte_in 128 191 b), (utf8_cont c); try done. intros _. exists 2. cbn. split_and!; [done|lia|done]. }
  destruct (byte_in 237 237 a).
  { destruct (byte_in 128 159 b), (utf8_cont c); try done. intros _. exists 2. cbn. split_and!; [done|lia|done]. }
  destruct r as [|d r]; [done|]. cbn [lookup list_lookup app].
  destruct (byte_in 240 240 a).
  { destruct (byte_in 144 191 b), (utf8_cont c), (utf8_cont d); try done. intros _. exists 3. cbn. split_and!; [done|lia|done]. }
  destruct (byte_in 241 243 a).
  { destruct (byte_in 128 191 b), (utf8_cont c), (utf8_cont d); try done. intros _. exists 3. cbn. split_and!; [done|lia|done]. }
  destruct (byte_in 244 244 a); [|done].
  destruct (byte_in 128 143 b), (utf8_cont c), (utf8_cont d); try done. intros _. exists 3. cbn. split_and!; [done|lia|done].
Qed.

Lemma utf8_valid_app s t : utf8_valid s = true -> utf8_valid t = true -> utf8_valid (s ++ t) = true.
Proof.
  intros Hs Ht. remember (length s) as n eqn:Hn. revert s Hs Hn.
  induction (lt_wf n) as [n _ IH]. intros s Hs ->. destruct (decide (s = [])) as [->|Hne]; [done|].
  destruct (utf8_step_valid s Hne Hs) as (k & _ & Hk & Hv). rewrite Hv.
  apply (IH (length (drop (S k) s))); [rewrite length_drop; lia| |done].
  specialize (Hv []). rewrite !app_nil_r in Hv. congruence.
Qed.

(** Decoding a valid string changes nothing. *)
Lemma lossy_loop_valid fuel : forall s, length s <= fuel -> utf8_valid s = true -> lossy_loop fuel s = s.
Proof.
  induction fuel as [|f IH]; intros s Hf Hs; [by destruct s; [|cbn in Hf; lia]|].
  destruct s as [|b s]; [done|]. cbn [lossy_loop].
  destruct (utf8_step_valid (b :: s) ltac:(done) Hs) as (k & -> & Hk & Hv). specialize (Hv []).
  rewrite !app_nil_r in Hv. rewrite IH; [by rewrite take_drop| |congruence].
  rewrite length_drop. cbn [length] in *. lia.
Qed.

Lemma from_utf8_lossy_valid s : utf8_valid s = true -> from_utf8_lossy s = s.
Proof. intros Hs. by apply lossy_loop_valid. Qed.
