(* ===== verification/HttpForward.v ===== *)
(** * The HTTP forward proxy: requests

    Models the request half of
    [crates/eggress-protocol-http/src/forward/server.rs]: reading an absolute-form
    request, body framing, hop-by-hop filtering and the origin-form request. *)

From S2P Require Import Prelude Bytes Decimal Stream NetAddr HttpText.

Abbreviation headers_t := (list (bytes * bytes)).

Definition name_is (s : string) (name : bytes) : bool := eq_ignore_ascii_case name (str s).

(** ** Request lines and headers *)

(** [s.get(i..)]: in range and on a character boundary. *)
Definition get_from (s : bytes) (i : nat) : option bytes :=
  if i <=? length s then
    match s !! i with
    | Some b => if utf8_cont b then None else Some (drop i s)
    | None => Some []
    end
  else None.

Definition parse_header_line (line : bytes) : option (bytes * bytes) :=
  colon_pos ← find_byte x3a line;
  let name := trim (take colon_pos line) in
  let value := trim (drop (colon_pos + 1) line) in
  if bool_decide (name = []) then None
  else if existsb (fun b => (b =b x00) || (b =b x0d) || (b =b x0a)) name then None
  else if existsb (fun b => (b =b x00) || (b =b x0d) || (b =b x0a)) value then None
  else Some (name, value).

Definition parse_port (s : bytes) : outcome HttpError Z :=
  ok_or (TargetParseError "invalid port") (parse_u16 s).

Definition parse_authority_with_default (authority : bytes) (default_port : Z)
    : outcome HttpError TargetAddr :=
  match authority with
  | x5b :: _ =>
      let? bracket_end := ok_or (TargetParseError "unclosed bracket in IPv6 address") (find_byte x5d authority) in
      let? ip_str := slice authority 1 bracket_end in
      let? ip := ok_or (TargetParseError "invalid IPv6 address") (parse_ip ip_str) in
      let? port :=
        match authority !! (bracket_end + 1) with
        | Some b =>
            if b =b x3a then
              let? port_str := ok_or (TargetParseError "missing port after IPv6 address")
                (get_from authority (bracket_end + 2)) in
              parse_port port_str
            else Ok default_port
        | None => Ok default_port
        end in
      Ok {| host := Ip ip; tport := port |}
  | _ =>
      let? (host_str, port) :=
        match rfind_byte x3a authority with
        | Some colon_pos =>
            let? port := parse_port (drop (colon_pos + 1) authority) in
            Ok (take colon_pos authority, port)
        | None => Ok (authority, default_port)
        end in
      match parse_ip host_str with
      | Some ip => Ok {| host := Ip ip; tport := port |}
      | None =>
          if bool_decide (host_str = []) then Err (TargetParseError "empty host")
          else Ok {| host := DomainName host_str; tport := port |}
      end
  end.

Definition parse_absolute_uri (uri : bytes) : outcome HttpError (TargetAddr * bytes) :=
  let? (rest, default_port) :=
    match strip_prefix (str "http://") uri with
    | Some r => Ok (r, 80%Z)
    | None =>
        match strip_prefix (str "https://") uri with
        | Some r => Ok (r, 443%Z)
        | None => Err (MalformedRequest "absolute URI required")
        end
    end in
  let path_start := default (length rest) (find_byte x2f rest) in
  let authority := take path_start rest in
  let path := if path_start <? length rest then drop path_start rest else [x2f] in
  let? target := parse_authority_with_default authority default_port in
  Ok (target, path).

(** ** Body framing *)

Inductive RequestBodyKind := BodyNone | ContentLength (len : Z) | Chunked.

(** The loop over the headers collects lengths and transfer codings. *)
Fixpoint collect_framing (headers : headers_t) (lens : list Z) (codings : list bytes)
    : outcome HttpError (list Z * list bytes) :=
  match headers with
  | [] => Ok (lens, codings)
  | (name, value) :: r =>
      if name_is "Content-Length" name then
        let? len := ok_or InvalidContentLength (parse_u64 (trim value)) in
        collect_framing r (lens ++ [len]) codings
      else if name_is "Transfer-Encoding" name then
        collect_framing r lens (codings ++ filter (fun c => c <> []) (map trim (split_on x2c value)))
      else collect_framing r lens codings
  end.

Definition is_chunked_coding (c : bytes) : bool := name_is "chunked" c.

Definition determine_request_body_kind (headers : headers_t) : outcome HttpError RequestBodyKind :=
  let? (lens, codings) := collect_framing headers [] [] in
  let? _ :=
    match lens with
    | first :: _ => if existsb (fun cl => negb (cl =? first)%Z) lens then Err ConflictingContentLength else Ok tt
    | [] => Ok tt
    end in
  match codings with
  | [] => match lens with len :: _ => Ok (ContentLength len) | [] => Ok BodyNone end
  | _ =>
      if negb (bool_decide (lens = [])) then Err TransferEncodingWithContentLength else
      if existsb is_chunked_coding codings &&
         match last codings with Some l => negb (is_chunked_coding l) | None => false end
      then Err ChunkedNotFinal else
      match List.find (fun c => negb (is_chunked_coding c)) codings with
      | Some c => Err (UnsupportedTransferEncoding c)
      | None => Ok Chunked
      end
  end.

(** ** Reading the request *)

Definition MAX_HEAD_SIZE : nat := Z.to_nat 32768.
Definition MAX_HEADER_LINES : nat := 128.

(** The counters of the head loop: request line seen, header lines so far. *)
Definition request_step (limit : nat -> bool) (head : bytes) (st : bool * nat)
    : outcome HttpError (option (bool * nat)) :=
  if 4 <=? length head then
    if ends_with CRLF2 head then Ok None
    else if ends_with CRLF head then
      let '(saw, count) := st in
      let st := if saw then (true, count + 1) else (true, count) in
      if limit st.2 then Err TooManyHeaders else Ok (Some st)
    else Ok (Some st)
  else Ok (Some st).

Record ForwardRequest := {
  fr_method : bytes; fr_path : bytes; fr_version : bytes; fr_headers : headers_t; fr_target : TargetAddr;
  fr_has_body : bool; fr_content_length : option Z; fr_is_chunked : bool; fr_connection_close : bool
}.

Definition body_kind (r : ForwardRequest) : RequestBodyKind :=
  if fr_is_chunked r then Chunked
  else match fr_content_length r with Some len => ContentLength len | None => BodyNone end.

(** The header loop stops at the first empty line. *)
Fixpoint parse_headers (lines : list bytes) (acc : headers_t) : headers_t :=
  match lines with
  | [] => acc
  | line :: r =>
      if bool_decide (line = []) then acc
      else match parse_header_line line with
      | Some (name, value) =>
          if name_is "Proxy-Authorization" name then parse_headers r acc
          else parse_headers r (acc ++ [(name, value)])
      | None => parse_headers r acc
      end
  end.

Definition has_close_token (value : bytes) : bool :=
  existsb (fun t => name_is "close" (trim t)) (split_on x2c value).

(** What [read_forward_request] does with a complete head. *)
Definition parse_forward_head (head : bytes) : outcome HttpError ForwardRequest :=
  match split_crlf (from_utf8_lossy head) with
  | [] => Err (MalformedRequest "empty request")
  | request_line :: lines =>
      match split_whitespace request_line with
      | [method; raw_target; version] =>
          if negb (bool_decide (version = str "HTTP/1.0")) && negb (bool_decide (version = str "HTTP/1.1"))
          then Err (MalformedRequest "unsupported HTTP version") else
          let? (target, path) := parse_absolute_uri raw_target in
          let headers := parse_headers lines [] in
          let? kind := determine_request_body_kind headers in
          let '(has_body, content_length, is_chunked) :=
            match kind with
            | BodyNone => (false, None, false)
            | ContentLength len => ((0 <? len)%Z, Some len, false)
            | Chunked => (true, None, true)
            end in
          Ok {| fr_method := method; fr_path := path; fr_version := version; fr_headers := headers;
                fr_target := target; fr_has_body := has_body; fr_content_length := content_length;
                fr_is_chunked := is_chunked;
                fr_connection_close :=
                  existsb (fun h => name_is "Connection" h.1 && has_close_token h.2) headers |}
      | _ => Err (MalformedRequest "expected 3 parts in request line")
      end
  end.

Definition read_forward_request : M HttpError ForwardRequest :=
  let! head := read_head MAX_HEAD_SIZE HeaderTooLarge (fun _ => MalformedRequest "unexpected EOF reading request")
    (request_step (fun n => MAX_HEADER_LINES <? n)) (false, 0) in
  mlift (parse_forward_head head).

(** ** Hop-by-hop headers and the origin request *)

Definition hop_by_hop_names : list string :=
  ["connection"; "keep-alive"; "proxy-authenticate"; "proxy-authorization"; "te"; "trailers"; "upgrade";
   "proxy-connection"].

Definition is_hop_by_hop_header (name value : bytes) : bool :=
  let lower := to_ascii_lowercase name in
  if bool_decide (lower = str "transfer-encoding") then negb (is_chunked_coding value)
  else bool_decide (lower ∈ map str hop_by_hop_names).

(** The set of nominated names, as a list. *)
Definition connection_tokens (headers : headers_t) : list bytes :=
  filter (fun t => t <> [])
    (map (fun t => to_ascii_lowercase (trim t))
       (mjoin (map (fun h => split_on x2c h.2) (filter (fun h => name_is "connection" h.1 = true) headers)))).

Definition forwardable (nominated : list bytes) (h : bytes * bytes) : bool :=
  let lower := to_ascii_lowercase h.1 in
  negb (is_hop_by_hop_header lower h.2) && negb (bool_decide (lower ∈ nominated)).

Definition filter_hop_by_hop (headers : headers_t) : headers_t :=
  filter (fun h => forwardable (connection_tokens headers) h = true) headers.

Definition has_unsupported_expectation (headers : headers_t) : bool :=
  existsb (fun h => name_is "Expect" h.1 &&
    existsb (fun e => negb (bool_decide (trim e = []))) (split_on x2c h.2)) headers.

Definition header_line (h : bytes * bytes) : bytes := h.1 ++ str ": " ++ h.2 ++ CRLF.

Definition build_origin_request (r : ForwardRequest) : bytes :=
  let filtered := filter_hop_by_hop (fr_headers r) in
  fr_method r ++ [x20] ++ fr_path r ++ [x20] ++ fr_version r ++ CRLF ++
  mjoin (map header_line filtered) ++
  (if existsb (fun h => name_is "Connection" h.1) filtered then [] else str "Connection: close" ++ CRLF) ++
  CRLF.


(** ** Well-formed headers *)

(** What a parsed header looks like: no NUL, CR or LF, trimmed, no colon in a
    non-empty name. *)
Definition no_breaks (s : bytes) : Prop := x00 ∉ s /\ x0d ∉ s /\ x0a ∉ s.

Record header_ok (h : bytes * bytes) : Prop := {
  ho_name : h.1 <> [];
  ho_colon : x3a ∉ h.1;
  ho_clean : no_breaks h.1 /\ no_breaks h.2;
  ho_trimmed : trimmed h.1 /\ trimmed h.2
}.

Lemma no_breaks_existsb s :
  existsb (fun b => (b =b x00) || (b =b x0d) || (b =b x0a)) s = false <-> no_breaks s.
Proof.
  unfold no_breaks. induction s as [|b s IH]; cbn [existsb]; [set_solver|].
  rewrite orb_false_iff, IH, !orb_false_iff, !byte_eqb_false. set_solver.
Qed.

Lemma parse_header_line_ok line h : parse_header_line line = Some h -> header_ok h.
Proof.
  unfold parse_header_line. destruct (find_byte x3a line) as [i|] eqn:Ef; cbn; [|done].
  case_bool_decide as Hn; [done|]. destruct (existsb _ (trim (take i line))) eqn:E1; [done|].
  destruct (existsb _ (trim (drop (i + 1) line))) eqn:E2; [done|]. intros [= <-].
  apply no_breaks_existsb in E1, E2. apply find_byte_Some in Ef as [_ Hc].
  split; cbn [fst snd]; [done| |done|split; apply trim_trimmed].
  destruct (trim_infix (take i line)) as (p & q & E). rewrite E in Hc. set_solver.
Qed.

Definition header_text (h : bytes * bytes) : bytes := h.1 ++ str ": " ++ h.2.

Lemma parse_header_line_text h : header_ok h -> parse_header_line (header_text h) = Some h.
Proof.
  intros [Hn Hc [H1 H2] [T1 T2]]. destruct h as [name value]. cbn [fst snd] in *.
  unfold parse_header_line, header_text. cbn [fst snd].
  change (str ": " ++ value) with (x3a :: x20 :: value). rewrite find_byte_app by done. cbn [base.mbind option_bind].
  rewrite take_app_length, (trim_id name) by done.
  replace (drop (length name + 1) (name ++ x3a :: x20 :: value)) with (x20 :: value).
  2: { rewrite drop_app_ge by lia. by replace (length name + 1 - length name) with 1 by lia. }
  rewrite trim_space, trim_id by done. rewrite bool_decide_false by done.
  by rewrite (proj2 (no_breaks_existsb name)), (proj2 (no_breaks_existsb value)).
Qed.

Definition kept_header (h : bytes * bytes) : Prop :=
  header_ok h /\ name_is "Proxy-Authorization" h.1 = false.

Lemma parse_headers_ok lines : forall acc, Forall kept_header acc -> Forall kept_header (parse_headers lines acc).
Proof.
  induction lines as [|l lines IH]; intros acc Ha; cbn [parse_headers]; [done|].
  case_bool_decide; [done|]. destruct (parse_header_line l) as [[name value]|] eqn:E; [|by apply IH].
  destruct (name_is _ name) eqn:Ep; [by apply IH|]. apply IH, Forall_app_2; [done|].
  constructor; [|constructor]. split; [by apply parse_header_line_ok in E|done].
Qed.

Lemma header_text_nonempty h : header_text h <> [].
Proof. unfold header_text. destruct h as [[|? ?] ?]; done. Qed.

(** A reader of the written lines gets the headers back. *)
Lemma parse_headers_text hs rest : forall acc, Forall kept_header hs ->
  parse_headers (map header_text hs ++ [] :: rest) acc = acc ++ hs.
Proof.
  induction hs as [|h hs IH]; intros acc Hh; cbn [map app parse_headers].
  - by rewrite bool_decide_true, app_nil_r.
  - inversion Hh as [|?? [Hok Hp] Hr]; subst. rewrite bool_decide_false by apply header_text_nonempty.
    rewrite parse_header_line_text by done. destruct h as [name value]. cbn [fst] in Hp. rewrite Hp, IH by done.
    by rewrite <- app_assoc.
Qed.

Lemma header_text_clean h : header_ok h -> x0d ∉ header_text h /\ x0a ∉ header_text h.
Proof.
  intros [_ _ [(_ & ? & ?) (_ & ? & ?)] _]. unfold header_text. change (str ": ") with [x3a; x20]. set_solver.
Qed.

(** ** What a parsed request guarantees *)

Lemma name_is_lower s name : name_is s name = true <-> to_ascii_lowercase name = to_ascii_lowercase (str s).
Proof. unfold name_is, eq_ignore_ascii_case. apply bool_decide_eq_true. Qed.

Lemma parse_absolute_uri_path uri target path :
  parse_absolute_uri uri = Ok (target, path) -> path = [x2f] \/ exists i, path = drop i uri /\ path <> [].
Proof.
  unfold parse_absolute_uri, strip_prefix. intros H. inv_ok. destruct x as [rest port]. inv_ok.
  assert (exists k, rest = drop k uri) as [k ->].
  { destruct (starts_with (str "http://") uri); [inv_ok; eauto|].
    destruct (starts_with (str "https://") uri); [inv_ok; eauto|done]. }
  destruct (default _ _ <? _) eqn:G; [right|by left]. apply Nat.ltb_lt in G.
  exists (k + default (length (drop k uri)) (find_byte x2f (drop k uri))). rewrite drop_drop. split; [done|].
  rewrite <- drop_drop. intros E%(f_equal length). rewrite length_drop in E. cbn [length] in E. lia.
Qed.

Record request_ok (r : ForwardRequest) : Prop := {
  ro_method : solid (fr_method r) /\ fr_method r <> [];
  ro_path : solid (fr_path r) /\ fr_path r <> [];
  ro_version : solid (fr_version r) /\ fr_version r <> [];
  ro_headers : Forall kept_header (fr_headers r);
  ro_kind : determine_request_body_kind (fr_headers r) = Ok (body_kind r)
}.

Lemma solid_slash : solid [x2f].
Proof. intros [|i] Hi; [by vm_compute|cbn in Hi; lia]. Qed.

Lemma parse_forward_head_ok head r : parse_forward_head head = Ok r -> request_ok r.
Proof.
  unfold parse_forward_head. destruct (split_crlf _) as [|line lines]; [done|].
  pose proof (split_whitespace_solid line) as Hw.
  destruct (split_whitespace line) as [|m [|t [|v [|? ?]]]]; try done.
  apply Forall_cons in Hw as [Hm [Ht [Hv _]%Forall_cons]%Forall_cons].
  intros H. guard_in H; [done|]. apply obind_ok in H as ([target path] & Hu & H).
  apply obind_ok in H as (kind & Hk & H).
  assert (solid path /\ path <> []) as Hp.
  { apply parse_absolute_uri_path in Hu as [->|(i & -> & ?)]; [split; [apply solid_slash|done]|].
    split; [by apply solid_drop, Ht|done]. }
  destruct kind as [|len|]; cbv beta iota zeta in H; injection H as <-; split; cbn; try done;
    apply parse_headers_ok; constructor.
Qed.

(** ** The origin request *)

(** A header that reaches the origin is neither hop-by-hop nor nominated by a
    Connection token. *)
Lemma forwardable_spec nominated h : forwardable nominated h = true ->
  to_ascii_lowercase h.1 ∉ nominated /\ to_ascii_lowercase h.1 ∉ map str hop_by_hop_names.
Proof.
  unfold forwardable, is_hop_by_hop_header. rewrite to_ascii_lowercase_idem. intros [H1 H2]%andb_prop.
  apply negb_true_iff, bool_decide_eq_false in H2. split; [done|].
  case_bool_decide as Ht; [rewrite Ht; by apply (bool_decide_unpack _)|].
  by apply negb_true_iff, bool_decide_eq_false in H1.
Qed.

Lemma hop_by_hop_filtered hs s h : h ∈ filter_hop_by_hop hs ->
  to_ascii_lowercase (str s) ∈ map str hop_by_hop_names -> name_is s h.1 = false.
Proof.
  intros [Hf _]%list_elem_of_filter Hs. apply not_true_is_false. intros Hn%name_is_lower.
  apply forwardable_spec in Hf as [_ Hf]. by rewrite Hn in Hf.
Qed.

Lemma filter_kept hs : Forall kept_header hs -> Forall kept_header (filter_hop_by_hop hs).
Proof. rewrite !Forall_forall. intros H h [_ Hin]%list_elem_of_filter. by apply H. Qed.

(** [Connection] itself is hop-by-hop, so the close line is always added. *)
Definition origin_headers (r : ForwardRequest) : headers_t :=
  filter_hop_by_hop (fr_headers r) ++ [(str "Connection", str "close")].

Lemma no_connection_forwarded hs : existsb (fun h => name_is "Connection" h.1) (filter_hop_by_hop hs) = false.
Proof.
  apply not_true_is_false. intros (h & Hin & Hn)%existsb_exists. apply list_elem_of_In in Hin.
  rewrite (hop_by_hop_filtered hs "Connection" h Hin) in Hn; [done|]. by apply (bool_decide_unpack _).
Qed.

Lemma origin_headers_kept r : request_ok r -> Forall kept_header (origin_headers r).
Proof.
  intros Hr. apply Forall_app_2; [apply filter_kept, ro_headers, Hr|]. constructor; [|constructor]. split; [|done].
  apply parse_header_line_ok with (line := str "Connection: close"). by vm_compute.
Qed.

Definition request_line (r : ForwardRequest) : bytes :=
  fr_method r ++ [x20] ++ fr_path r ++ [x20] ++ fr_version r.

Lemma header_lines hs : mjoin (map header_line hs) = mjoin (map (fun l => l ++ CRLF) (map header_text hs)).
Proof.
  rewrite map_map. apply (f_equal mjoin), map_ext. intros h. unfold header_line, header_text. by rewrite <- !app_assoc.
Qed.

Lemma build_origin_request_lines r :
  build_origin_request r = head_text (request_line r :: map header_text (origin_headers r)).
Proof.
  unfold build_origin_request, request_line, origin_headers, head_text. rewrite no_connection_forwarded.
  cbn [map mjoin list_join]. rewrite map_app, map_app, join_app, <- header_lines. cbn [map mjoin list_join].
  change (header_text (str "Connection", str "close")) with (str "Connection: close").
  by rewrite app_nil_r, <- !app_assoc.
Qed.

Lemma request_line_words r : request_ok r ->
  split_whitespace (request_line r) = [fr_method r; fr_path r; fr_version r].
Proof. intros [[] [] [] _ _]. by apply split_whitespace_3. Qed.

Lemma request_line_clean r : request_ok r -> x0d ∉ request_line r /\ x0a ∉ request_line r.
Proof.
  intros [[Hm _] [Hp _] [Hv _] _ _]. unfold request_line.
  assert (forall w, solid w -> x0d ∉ w /\ x0a ∉ w) as Hc.
  { intros w Hw. split; apply (solid_clean w); try done; by apply (bool_decide_unpack _). }
  apply Hc in Hm, Hp, Hv. set_solver.
Qed.

Lemma origin_lines_clean r : request_ok r ->
  Forall (fun l => x0d ∉ l /\ x0a ∉ l) (request_line r :: map header_text (origin_headers r)).
Proof.
  intros Hr. constructor; [by apply request_line_clean|]. apply Forall_map.
  eapply Forall_impl; [by apply origin_headers_kept|]. intros h [Hok _]. by apply header_text_clean.
Qed.

Lemma origin_split r : request_ok r ->
  split_crlf (build_origin_request r) = request_line r :: map header_text (origin_headers r) ++ [[]; []].
Proof.
  intros Hr. rewrite build_origin_request_lines, split_crlf_lines; [done|].
  eapply Forall_impl; [by apply origin_lines_clean|]. by intros l [].
Qed.

(** What the origin reads: the header list of the written request. *)
Definition origin_view (r : ForwardRequest) : headers_t :=
  parse_headers (tail (split_crlf (build_origin_request r))) [].

Lemma origin_view_eq r : request_ok r -> origin_view r = origin_headers r.
Proof.
  intros Hr. unfold origin_view. rewrite origin_split by done. cbn [tail].
  apply (parse_headers_text _ [[]] []), origin_headers_kept, Hr.
Qed.

(** ** Framing across the proxy *)

Definition codings_of (value : bytes) : list bytes := filter (fun c => c <> []) (map trim (split_on x2c value)).

Lemma collect_framing_close hs : forall lens codings,
  collect_framing (hs ++ [(str "Connection", str "close")]) lens codings = collect_framing hs lens codings.
Proof.
  induction hs as [|[name value] hs IH]; intros lens codings; [done|]. cbn [app collect_framing].
  destruct (name_is "Content-Length" name).
  - destruct (ok_or _ (parse_u64 (trim value))); cbn [obind]; [apply IH|done|done].
  - destruct (name_is "Transfer-Encoding" name); apply IH.
Qed.

Section framing.
Variable nominated : list bytes.
Hypothesis length_kept : str "content-length" ∉ nominated.
Hypothesis coding_kept : str "transfer-encoding" ∉ nominated.

Lemma forwardable_length h : name_is "Content-Length" h.1 = true -> forwardable nominated h = true.
Proof using length_kept.
  intros Hn%name_is_lower. unfold forwardable. rewrite Hn. change (to_ascii_lowercase (str "Content-Length")) with (str "content-length").
  by rewrite (bool_decide_false (str "content-length" ∈ nominated)).
Qed.

Lemma forwardable_coding h : name_is "Transfer-Encoding" h.1 = true ->
  forwardable nominated h = is_chunked_coding h.2.
Proof using coding_kept.
  intros Hn%name_is_lower. unfold forwardable. rewrite Hn. change (to_ascii_lowercase (str "Transfer-Encoding")) with (str "transfer-encoding").
  rewrite (bool_decide_false (str "transfer-encoding" ∈ nominated)) by done.
  change (is_hop_by_hop_header (str "transfer-encoding") h.2) with (negb (is_chunked_coding h.2)).
  by rewrite negb_involutive, andb_true_r.
Qed.

(** Dropping the other headers does not change the framing. *)
Lemma collect_framing_filter hs :
  (forall h, h ∈ hs -> name_is "Transfer-Encoding" h.1 = true -> is_chunked_coding h.2 = true \/ codings_of h.2 = []) ->
  forall lens codings,
  collect_framing (filter (fun h => forwardable nominated h = true) hs) lens codings =
  collect_framing hs lens codings.
Proof using length_kept coding_kept.
  induction hs as [|[name value] hs IH]; intros Hte lens codings; [done|].
  specialize (IH (fun h Hh => Hte h (list_elem_of_further _ _ _ Hh))). specialize (Hte (name, value) (list_elem_of_here _ _)).
  pose proof (forwardable_length (name, value)) as Hl. pose proof (forwardable_coding (name, value)) as Hc.
  cbn [fst snd] in *. rewrite filter_cons. cbn [collect_framing].
  destruct (name_is "Content-Length" name) eqn:El.
  - rewrite decide_True by auto. cbn [collect_framing]. rewrite El.
    destruct (ok_or _ (parse_u64 (trim value))); cbn [obind]; [apply IH|done|done].
  - destruct (name_is "Transfer-Encoding" name) eqn:Et.
    + case_decide as Hf; [cbn [collect_framing]; rewrite El, Et; apply IH|].
      destruct (Hte eq_refl) as [H|H]; [by rewrite Hc in Hf|]. unfold codings_of in H.
      by rewrite H, app_nil_r, IH.
    + case_decide; [cbn [collect_framing]; rewrite El, Et|]; apply IH.
Qed.
End framing.

(** ** Reading the head *)

Definition head_end (h : bytes) : bool := (4 <=? length h) && ends_with CRLF2 h.

Lemma request_step_stop limit h st o : request_step limit h st = Ok o -> (o = None <-> head_end h = true).
Proof.
  unfold request_step, head_end. destruct (4 <=? length h); cbn [andb]; [|by intros [= <-]].
  destruct (ends_with CRLF2 h); [by intros [= <-]|]. destruct (ends_with CRLF h); [|by intros [= <-]].
  destruct st as [saw count]. destruct (limit _); [done|]. by intros [= <-].
Qed.

(** The head is everything up to the first empty line, of at most 32768 bytes. *)
Lemma read_forward_request_ok c r c' : read_forward_request c = (Ok r, c') ->
  exists head, io head [] c c' /\ parse_forward_head head = Ok r /\ length head <= MAX_HEAD_SIZE /\
    head_end head = true /\ forall k, k < length head -> head_end (take k head) = false.
Proof.
  unfold read_forward_request, read_head. intros (head & c1 & H & Hp)%mbind_ok. injection Hp as Hp ->.
  apply (head_loop_ok _ _ _ _ head_end (request_step_stop _)) in H as (l & -> & _ & Hio & Hl & Hs & Hmin).
  exists l. cbn [app] in *. split_and!; try done. intros [|k] Hk; [done|]. apply Hmin. cbn. lia.
Qed.

(** ** Properties *)

(** Reading a request consumes the stream up to and including the first empty
    line, at most 32768 bytes, and nothing behind it.
    The request written to the origin, read line by line, is the request line
    with the parsed method, path and version, one line per end-to-end header,
    [Connection: close] and the empty line: nothing the client put into a header or
    a target starts a line of its own (no line holds a CR or an LF).  Reading the
    lines back gives the three words and exactly the forwarded headers, and none of
    these is hop-by-hop (in particular Proxy-Authorization) or named by a
    Connection token of the client. *)
Theorem origin_request_exact c r c' :
  read_forward_request c = (Ok r, c') ->
  (exists head, io head [] c c' /\ length head <= MAX_HEAD_SIZE /\ head_end head = true /\
     forall k, k < length head -> head_end (take k head) = false) /\
  split_crlf (build_origin_request r) = request_line r :: map header_text (origin_headers r) ++ [[]; []] /\
  Forall (fun l => x0d ∉ l /\ x0a ∉ l) (request_line r :: map header_text (origin_headers r)) /\
  split_whitespace (request_line r) = [fr_method r; fr_path r; fr_version r] /\
  origin_view r = origin_headers r /\
  Forall (fun h => to_ascii_lowercase h.1 ∉ connection_tokens (fr_headers r) /\
                   to_ascii_lowercase h.1 ∉ map str hop_by_hop_names) (filter_hop_by_hop (fr_headers r)).
Proof.
  intros (head & Hio & Hr%parse_forward_head_ok & Hl & He & Hmin)%read_forward_request_ok. split_and!.
  - by exists head.
  - by apply origin_split.
  - by apply origin_lines_clean.
  - by apply request_line_words.
  - by apply origin_view_eq.
  - apply Forall_forall. intros h [Hf _]%list_elem_of_filter. by apply forwardable_spec.
Qed.

(** When no Connection token nominates a framing header and every
    Transfer-Encoding value is the single coding [chunked] (or names none), the
    origin derives from the lines it receives the body framing the proxy uses to
    copy the body. *)
Theorem origin_framing_preserved c r c' :
  read_forward_request c = (Ok r, c') ->
  str "content-length" ∉ connection_tokens (fr_headers r) ->
  str "transfer-encoding" ∉ connection_tokens (fr_headers r) ->
  (forall h, h ∈ fr_headers r -> name_is "Transfer-Encoding" h.1 = true ->
     is_chunked_coding h.2 = true \/ codings_of h.2 = []) ->
  determine_request_body_kind (origin_view r) = Ok (body_kind r).
Proof.
  intros (head & _ & Hr%parse_forward_head_ok & _)%read_forward_request_ok Hl Hc Hte. rewrite origin_view_eq, <- (ro_kind r Hr) by done.
  unfold determine_request_body_kind, origin_headers, filter_hop_by_hop.
  by rewrite collect_framing_close, collect_framing_filter.
Qed.

Definition demo_head : bytes :=
  str "POST http://a.test/p?q HTTP/1.1" ++ CRLF ++ str "Host: a.test" ++ CRLF ++ str "X-Hop: 1" ++ CRLF ++
  str "Proxy-Authorization: Basic eDp5" ++ CRLF ++ str "Connection: close, x-hop" ++ CRLF ++
  str "Content-Length: 5" ++ CRLF ++ CRLF.

Definition demo_forward : conn := Conn (demo_head ++ str "hello") None [] None.

Lemma origin_request_exact_witness : exists r,
  read_forward_request demo_forward = (Ok r, Conn (str "hello") None [] None) /\
  map fst (origin_headers r) = [str "Host"; str "Content-Length"; str "Connection"] /\
  origin_view r = origin_headers r.
Proof.
  destruct (read_forward_request demo_forward) as [[r| |] c'] eqn:E; [|by vm_compute in E|by vm_compute in E].
  exists r. split; [|split].
  - clear -E. vm_compute in E |- *. by injection E as <- <-.
  - clear -E. vm_compute in E. injection E as <- <-. by vm_compute.
  - apply (origin_request_exact demo_forward r c' E).
Defined.

Lemma origin_framing_preserved_witness : exists r,
  (read_forward_request demo_forward).1 = Ok r /\ determine_request_body_kind (origin_view r) = Ok (ContentLength 5).
Proof.
  destruct (read_forward_request demo_forward) as [[r| |] c'] eqn:E; [|by vm_compute in E|by vm_compute in E].
  exists r. split; [done|].
  rewrite (origin_framing_preserved demo_forward r c' E); vm_compute in E; injection E as <- <-.
  - by vm_compute.
  - by apply (bool_decide_unpack _).
  - by apply (bool_decide_unpack _).
  - intros h Hh Ht. exfalso. revert Ht. apply not_true_iff_false. revert h Hh. apply Forall_forall.
    by apply (bool_decide_unpack _).
Defined.

(** A client that names a framing header in [Connection] makes the proxy drop
    it from the head while it still copies the body: the origin sees a request
    without a body, and the body's bytes are read as the next request. *)
Theorem nominated_framing_lost : exists head r,
  parse_forward_head head = Ok r /\ body_kind r = ContentLength 5 /\
  determine_request_body_kind (origin_view r) = Ok BodyNone.
Proof.
  exists (str "POST http://a.test/ HTTP/1.1" ++ CRLF ++ str "Connection: content-length" ++ CRLF ++
    str "Content-Length: 5" ++ CRLF ++ CRLF).
  eexists. split; [by vm_compute|]. split; by vm_compute.
Qed.
