(* ===== verification/HttpBody.v ===== *)
(** * The HTTP forward proxy: request bodies

    Models [copy_request_body] and what it calls in
    [crates/eggress-protocol-http/src/forward/server.rs].  A copy reads from one
    stream and writes to another: in a [conn], [c_in] is what the reader still
    delivers and [c_out] what the writer took. *)

From S2P Require Import Prelude Bytes Decimal Stream NetAddr HttpText HttpForward.

(** ** Limits and reports *)

Record BodyCopyLimits := {
  max_chunk_size_line : nat;
  max_chunk_size : Z;
  max_decoded_body : Z;
  max_trailer_line : nat;
  max_trailer_bytes : Z
}.

Definition default_limits : BodyCopyLimits := {|
  max_chunk_size_line := 1024;
  max_chunk_size := 64 * 1024 * 1024;
  max_decoded_body := 64 * 1024 * 1024;
  max_trailer_line := Z.to_nat 8192;
  max_trailer_bytes := 32 * 1024
|}.

Record BodyCopyReport := { wire_bytes : Z; decoded_bytes : Z }.

(** ** Lines *)

Definition line_end (h : bytes) : bool := (2 <=? length h) && ends_with CRLF h.

Definition line_step (h : bytes) (_ : unit) : outcome HttpError (option unit) :=
  Ok (if line_end h then None else Some tt).

(** The two readers differ in the error they make. *)
Definition bounded_line (err : string -> HttpError) (max_len : nat) : M HttpError bytes :=
  read_head max_len (err "line too long")
    (fun line => if bool_decide (line = []) then err "unexpected EOF" else err "incomplete line")
    line_step tt.

Definition read_bounded_line (max_len : nat) : M HttpError bytes := bounded_line MalformedRequest max_len.
Definition read_bounded_line_into (max_len : nat) : M HttpError bytes := bounded_line MalformedResponse max_len.

Definition parse_chunk_size (line : bytes) : outcome HttpError Z :=
  let? size_field := ok_or (MalformedRequest "empty chunk size") (head (split_on x3b line)) in
  if bool_decide (size_field = []) then Err (MalformedRequest "empty chunk size") else
  let? size_str := from_utf8 (MalformedRequest "invalid chunk size encoding") size_field in
  ok_or (MalformedRequest "invalid chunk size") (parse_hex_u64 (trim size_str)).

(** ** Copying *)

Section copy.
(** How many bytes a [read] finds ready when so many are still to come: at least
    one, at most what the buffer takes. *)
Variable ready : nat -> nat.

Definition read_some (n : nat) : M HttpError bytes := fun c =>
  match c_in c with
  | [] => match c_end c with None => (Ok [], c) | Some e => (Err (from_io e), c) end
  | _ :: _ =>
      let k := Nat.min n (Nat.max 1 (ready (length (c_in c)))) in
      (Ok (take k (c_in c)), set_in c (drop k (c_in c)))
  end.

(** The loop that passes [remaining] bytes on, through a buffer of 8192 bytes;
    what is still missing when the reader is at its end. *)
Fixpoint copy_loop (fuel : nat) (remaining : Z) : M HttpError Z :=
  match fuel with
  | O => fun c => (Panic, c)
  | S f =>
      if (remaining <=? 0)%Z then mret 0%Z else
      let! buf := read_some (Z.to_nat (Z.min remaining 8192)) in
      if bool_decide (buf = []) then mret remaining else
      write_all buf ;;
      copy_loop f (remaining - Z.of_nat (length buf))
  end.

(** Every turn but the last consumes a byte. *)
Definition copy_bytes (remaining : Z) : M HttpError Z := fun c =>
  copy_loop (length (c_in c) + 2) remaining c.

Definition copy_content_length_body (len : Z) : M HttpError BodyCopyReport :=
  let! missing := copy_bytes len in
  if (0 <? missing)%Z then mthrow (MalformedRequest "unexpected EOF in body")
  else mret {| wire_bytes := len; decoded_bytes := len |}.

Variable limits : BodyCopyLimits.

(** The trailer loop; the bytes of trailers so far. *)
Fixpoint copy_trailers (fuel : nat) (trailer_bytes : Z) : M HttpError Z :=
  match fuel with
  | O => fun c => (Panic, c)
  | S f =>
      let! trailer := read_bounded_line (max_trailer_line limits) in
      let trailer_bytes := (trailer_bytes + Z.of_nat (length trailer))%Z in
      if (max_trailer_bytes limits <? trailer_bytes)%Z then mthrow (MalformedRequest "trailers too large") else
      write_all trailer ;;
      if bool_decide (trailer = CRLF) then mret trailer_bytes else copy_trailers f trailer_bytes
  end.

Fixpoint copy_chunks (fuel : nat) (wire decoded : Z) : M HttpError BodyCopyReport :=
  match fuel with
  | O => fun c => (Panic, c)
  | S f =>
      let! size_line := read_bounded_line (max_chunk_size_line limits) in
      let wire := (wire + Z.of_nat (length size_line))%Z in
      let! chunk_size := mlift (parse_chunk_size size_line) in
      write_all size_line ;;
      if (chunk_size =? 0)%Z then
        let! trailers := (fun c => copy_trailers (length (c_in c) + 1) 0 c) in
        mret {| wire_bytes := wire + trailers; decoded_bytes := decoded |}
      else if (max_chunk_size limits <? chunk_size)%Z then mthrow (MalformedRequest "chunk too large")
      else if (2 ^ 64 <=? decoded + chunk_size)%Z then mthrow (MalformedRequest "decoded body too large")
      else if (max_decoded_body limits <? decoded + chunk_size)%Z then
        mthrow (MalformedRequest "decoded body too large")
      else
        let! missing := copy_bytes chunk_size in
        if (0 <? missing)%Z then mthrow (MalformedRequest "unexpected EOF in chunk data") else
        let! crlf := read_exact 2 in
        if negb (bool_decide (crlf = CRLF)) then mthrow (MalformedRequest "missing CRLF after chunk data") else
        write_all crlf ;;
        copy_chunks f (wire + chunk_size + 2) (decoded + chunk_size)
  end.

Definition copy_chunked_body : M HttpError BodyCopyReport := fun c =>
  copy_chunks (length (c_in c) + 1) 0 0 c.

Definition copy_request_body (kind : RequestBodyKind) : M HttpError BodyCopyReport :=
  match kind with
  | BodyNone => mret {| wire_bytes := 0; decoded_bytes := 0 |}
  | ContentLength len =>
      if (max_decoded_body limits <? len)%Z then mthrow (MalformedRequest "decoded body too large")
      else copy_content_length_body len
  | Chunked => copy_chunked_body
  end.
End copy.

(** ** Lines *)

(** A line of at most [max] bytes: CRLF at its end and nowhere before. *)
Definition crlf_line (max : nat) (l : bytes) : Prop :=
  length l <= max /\ line_end l = true /\ forall k, k < length l -> line_end (take k l) = false.

Lemma line_step_stop h st o : line_step h st = Ok o -> (o = None <-> line_end h = true).
Proof. unfold line_step. destruct (line_end h); by intros [= <-]. Qed.

Lemma bounded_line_ok err max c l c' : bounded_line err max c = (Ok l, c') -> crlf_line max l /\ l <> [] /\ io l [] c c'.
Proof.
  intros (q & -> & Hne & Hio & Hl & Hs & Hmin)%(head_loop_ok _ _ _ _ line_end line_step_stop).
  cbn [app] in *. split; [|done]. split; [done|]. split; [done|].
  intros [|k] Hk; [done|]. apply Hmin. cbn. lia.
Qed.

Lemma bounded_line_fwd err max l rest e o q : crlf_line max l ->
  bounded_line err max (Conn (l ++ rest) e o q) = (Ok l, Conn rest e o q).
Proof.
  intros (Hl & Hs & Hmin). unfold bounded_line, read_head.
  apply (head_loop_fwd _ _ _ _ (fun _ _ => True) l); [lia|done|by destruct l|done| |by intros st; cbn [app]; unfold line_step; rewrite Hs].
  intros l1 b l2 st -> Hl2 _. exists tt. split; [|done]. unfold line_step. cbn [app].
  specialize (Hmin (length (l1 ++ [b]))). rewrite (cons_middle b l1 l2), app_assoc in Hmin.
  rewrite take_app_length in Hmin. rewrite Hmin; [done|]. rewrite !length_app. destruct l2; [done|]. cbn [length]. lia.
Qed.

Lemma bounded_line_no_panic err max c : (bounded_line err max c).1 <> Panic.
Proof. apply head_loop_no_panic; [done|lia|cbn; lia]. Qed.

Lemma parse_chunk_size_no_panic l : parse_chunk_size l <> Panic.
Proof.
  unfold parse_chunk_size. apply obind_panic. split; [by destruct (head _)|]. intros f _. guard_goal; [done|].
  apply obind_panic. split; [unfold from_utf8; by destruct (utf8_valid f)|]. intros s _. by destruct (parse_hex_u64 _).
Qed.

(** ** The copy loop *)

Section copying.
Variable ready : nat -> nat.

Lemma read_some_ok n c l c' : 0 < n -> read_some ready n c = (Ok l, c') ->
  io l [] c c' /\ length l <= n /\ (l = [] -> c_in c = [] /\ c' = c).
Proof.
  unfold read_some, io. intros Hn. destruct (c_in c) as [|b r] eqn:E.
  - destruct (c_end c) eqn:Ee; [done|]. intros [= <- <-]. rewrite E. cbn. rewrite app_nil_r, Ee. split_and!; try done. lia.
  - intros [= <- <-]. cbn [set_in c_in c_out c_end]. rewrite take_drop, app_nil_r. split_and!; try done.
    + rewrite length_take. lia.
    + intros H%(f_equal length). rewrite length_take in H. cbn [length] in H. lia.
Qed.

Lemma io_length lin lout c c' : io lin lout c c' -> length (c_in c) = length lin + length (c_in c').
Proof. intros (-> & _ & _). by rewrite length_app. Qed.

(** Whatever the reader's pace, what was written is what was read; the loop ends
    early only at the end of the input. *)
Lemma copy_loop_ok fuel : forall rem c m c',
  (0 <= rem)%Z -> copy_loop ready fuel rem c = (Ok m, c') ->
  exists l, io l l c c' /\ (Z.of_nat (length l) + m = rem)%Z /\ (0 <= m)%Z.
Proof.
  induction fuel as [|f IH]; intros rem c m c' Hr H; cbn [copy_loop] in H; [done|].
  guard_in H; bool_to_prop.
  { injection H as <- <-. exists []. split; [apply io_refl|]. cbn. lia. }
  apply mbind_ok in H as (buf & c1 & Hb & H). apply read_some_ok in Hb as (Hio & Hl & He); [|lia].
  case_bool_decide as Hn.
  { injection H as <- <-. destruct (He Hn) as [_ ->]. exists []. split; [apply io_refl|]. cbn. lia. }
  apply mbind_ok in H as (u & c2 & Hw & H). apply write_all_io in Hw. apply IH in H as (l & Hio' & Hl' & Hm); [|lia].
  exists (buf ++ l). split; [|rewrite length_app; lia].
  pose proof (io_trans _ _ _ _ _ _ _ (io_trans _ _ _ _ _ _ _ Hio Hw) Hio') as Ht.
  by rewrite app_nil_r in Ht.
Qed.

Lemma copy_loop_no_panic fuel : forall rem c, length (c_in c) + 1 < fuel -> (copy_loop ready fuel rem c).1 <> Panic.
Proof.
  induction fuel as [|f IH]; intros rem c Hf; [lia|]. cbn [copy_loop]. guard_goal; bool_to_prop; [done|].
  apply mbind_no_panic.
  { unfold read_some. destruct (c_in c); [by destruct (c_end c)|done]. }
  intros buf c1 Hb. apply read_some_ok in Hb as (Hio & _ & _); [|lia]. case_bool_decide as Hn; [done|].
  apply mbind_no_panic.
  { unfold write_all. destruct (c_quota c1) as [[n e]|]; [by destruct (length buf <=? n)|done]. }
  intros u c2 Hw. apply write_all_io in Hw. apply IH. apply io_length in Hio, Hw. cbn [length] in Hw.
  destruct buf; [done|]. cbn [length] in Hio. lia.
Qed.

Lemma read_some_fwd n data rest e o q : 0 < n <= length data ->
  exists k, 1 <= k <= length data /\
    read_some ready n (Conn (data ++ rest) e o q) = (Ok (take k data), Conn (drop k data ++ rest) e o q).
Proof.
  intros Hn. destruct data as [|b data]; [cbn in Hn; lia|].
  exists (Nat.min n (Nat.max 1 (ready (length (b :: data ++ rest))))). split; [lia|].
  unfold read_some. cbn [c_in app]. change (b :: data ++ rest) with ((b :: data) ++ rest).
  by rewrite take_app_le, drop_app_le by lia.
Qed.

Lemma copy_loop_fwd fuel : forall data rest e o, length data < fuel ->
  copy_loop ready fuel (Z.of_nat (length data)) (Conn (data ++ rest) e o None) =
  (Ok 0%Z, Conn rest e (o ++ data) None).
Proof.
  induction fuel as [|f IH]; intros data rest e o Hf; [lia|]. cbn [copy_loop].
  destruct (decide (data = [])) as [->|Hne]; [by rewrite app_nil_r|].
  assert (0 < length data) as Hp by (destruct data; [done|cbn; lia]).
  rewrite (proj2 (Z.leb_gt _ _)) by lia.
  destruct (read_some_fwd (Z.to_nat (Z.min (Z.of_nat (length data)) 8192)) data rest e o None) as (k & Hk & Hrd); [lia|].
  erewrite mbind_fwd by exact Hrd. assert (length (take k data) = k) as Hlk by (rewrite length_take; lia).
  rewrite bool_decide_false by (intros E; rewrite E in Hlk; cbn in Hlk; lia).
  erewrite mbind_fwd by reflexivity. rewrite Hlk.
  replace (Z.of_nat (length data) - Z.of_nat k)%Z with (Z.of_nat (length (drop k data))) by (rewrite length_drop; lia).
  etransitivity; [apply IH; rewrite length_drop; lia|]. by rewrite <- app_assoc, take_drop.
Qed.

Lemma copy_bytes_fwd data rest e o :
  copy_bytes ready (Z.of_nat (length data)) (Conn (data ++ rest) e o None) = (Ok 0%Z, Conn rest e (o ++ data) None).
Proof. apply copy_loop_fwd. cbn [c_in]. rewrite length_app. lia. Qed.

Lemma copy_bytes_ok len c c' m : (0 <= len)%Z -> copy_bytes ready len c = (Ok m, c') -> (m <= 0)%Z ->
  exists l, io l l c c' /\ Z.of_nat (length l) = len.
Proof. intros Hl H Hm. apply copy_loop_ok in H as (l & Hio & Hs & ?); [|done]. exists l. split; [done|lia]. Qed.

Lemma copy_bytes_no_panic len c : (copy_bytes ready len c).1 <> Panic.
Proof. apply copy_loop_no_panic. lia. Qed.

Lemma write_all_no_panic {E} `{!FromIo E} l c : (write_all (E:=E) l c).1 <> Panic.
Proof. unfold write_all. destruct (c_quota c) as [[n e]|]; [by destruct (length l <=? n)|done]. Qed.

(** ** The grammar of chunked bodies *)

Variable limits : BodyCopyLimits.

(** Trailer lines up to the empty one; [n] bytes of them went before. *)
Inductive trailer_part : Z -> bytes -> Prop :=
| tr_end n :
    crlf_line (max_trailer_line limits) CRLF -> (n + 2 <= max_trailer_bytes limits)%Z -> trailer_part n CRLF
| tr_line n line rest :
    crlf_line (max_trailer_line limits) line -> line <> CRLF ->
    (n + Z.of_nat (length line) <= max_trailer_bytes limits)%Z ->
    trailer_part (n + Z.of_nat (length line)) rest -> trailer_part n (line ++ rest).

(** [chunked n wire data]: the bytes [wire] encode [data] within the limits, when
    [n] bytes were decoded before. *)
Inductive chunked : Z -> bytes -> bytes -> Prop :=
| chunked_last n line trailers :
    crlf_line (max_chunk_size_line limits) line -> parse_chunk_size line = Ok 0%Z -> trailer_part 0 trailers ->
    chunked n (line ++ trailers) []
| chunked_more n line data wire rest :
    crlf_line (max_chunk_size_line limits) line -> parse_chunk_size line = Ok (Z.of_nat (length data)) ->
    data <> [] -> (Z.of_nat (length data) <= max_chunk_size limits)%Z ->
    (n + Z.of_nat (length data) < 2 ^ 64)%Z -> (n + Z.of_nat (length data) <= max_decoded_body limits)%Z ->
    chunked (n + Z.of_nat (length data)) wire rest -> chunked n (line ++ data ++ CRLF ++ wire) (data ++ rest).

Lemma copy_trailers_ok fuel : forall n c m c', copy_trailers limits fuel n c = (Ok m, c') ->
  exists l, io l l c c' /\ trailer_part n l /\ m = (n + Z.of_nat (length l))%Z.
Proof.
  induction fuel as [|f IH]; intros n c m c' H; cbn [copy_trailers] in H; [done|].
  apply mbind_ok in H as (l & c1 & Hl & H). apply bounded_line_ok in Hl as (Hline & _ & Hio). cbv zeta in H.
  guard_in H; [done|]. bool_to_prop. apply mbind_ok in H as (u & c2 & Hw & H). apply write_all_io in Hw.
  pose proof (io_trans _ _ _ _ _ _ _ Hio Hw) as Ht. rewrite app_nil_r in Ht. cbn [app] in Ht.
  case_bool_decide as Hc.
  - injection H as <- <-. subst l. exists CRLF. split; [done|]. split; [by constructor|done].
  - apply IH in H as (r & Hr & Hp & ->). exists (l ++ r). split; [by eapply io_trans|].
    split; [by constructor|]. rewrite length_app. lia.
Qed.

Lemma copy_trailers_fwd n l : trailer_part n l -> forall fuel rest e o, length l < fuel ->
  copy_trailers limits fuel n (Conn (l ++ rest) e o None) =
  (Ok (n + Z.of_nat (length l))%Z, Conn rest e (o ++ l) None).
Proof.
  induction 1 as [n Hc Hb|n line r Hl Hne Hb Hr IH]; intros fuel rest e o Hf; (destruct fuel as [|f]; [cbn in Hf; lia|]);
    cbn [copy_trailers].
  - erewrite mbind_fwd by (by apply bounded_line_fwd). cbv zeta.
    rewrite (proj2 (Z.ltb_ge _ _)) by (cbn [CRLF length]; lia). by erewrite mbind_fwd by reflexivity.
  - rewrite <- app_assoc. erewrite mbind_fwd by (by apply bounded_line_fwd). cbv zeta.
    rewrite (proj2 (Z.ltb_ge _ _)) by lia. erewrite mbind_fwd by reflexivity. rewrite bool_decide_false by done.
    assert (line <> []) by (destruct Hl as (_ & He & _); by destruct line).
    etransitivity; [apply IH; rewrite length_app in Hf; destruct line; [done|cbn [length] in Hf; lia]|].
    rewrite <- app_assoc, length_app. do 2 f_equal. lia.
Qed.

Lemma copy_trailers_no_panic fuel : forall n c, length (c_in c) < fuel -> (copy_trailers limits fuel n c).1 <> Panic.
Proof.
  induction fuel as [|f IH]; intros n c Hf; [lia|]. cbn [copy_trailers].
  apply mbind_no_panic; [apply bounded_line_no_panic|]. intros l c1 Hl. cbv zeta.
  apply bounded_line_ok in Hl as (_ & Hne & Hio). guard_goal; [done|].
  apply mbind_no_panic; [apply write_all_no_panic|]. intros u c2 Hw%write_all_io. case_bool_decide; [done|].
  apply IH. apply io_length in Hio, Hw. destruct l; [done|]. cbn [length] in *. lia.
Qed.

Lemma parse_chunk_size_range l z : parse_chunk_size l = Ok z -> (0 <= z < 2 ^ 64)%Z.
Proof.
  unfold parse_chunk_size. intros H. apply obind_ok in H as (f & _ & H). guard_in H; [done|].
  apply obind_ok in H as (s & _ & H). unfold parse_hex_u64 in H.
  destruct (parse_uint 16 _ (trim s)) eqn:E; [|done]. injection H as <-. by apply parse_uint_range in E.
Qed.

Lemma copy_chunks_ok fuel : forall w d c rep c', copy_chunks ready limits fuel w d c = (Ok rep, c') ->
  exists wire data, chunked d wire data /\ io wire wire c c' /\
    rep = {| wire_bytes := w + Z.of_nat (length wire); decoded_bytes := d + Z.of_nat (length data) |}.
Proof.
  induction fuel as [|f IH]; intros w d c rep c' H; cbn [copy_chunks] in H; [done|].
  apply mbind_ok in H as (l & c1 & Hl & H). apply bounded_line_ok in Hl as (Hline & _ & Hio). cbv zeta in H.
  apply mbind_ok in H as (size & c2 & Hs & H). injection Hs as Hs <-. pose proof (parse_chunk_size_range _ _ Hs) as Hz.
  apply mbind_ok in H as (u & c2 & Hw & H). apply write_all_io in Hw.
  pose proof (io_trans _ _ _ _ _ _ _ Hio Hw) as Ht. rewrite app_nil_r in Ht. cbn [app] in Ht. clear Hio Hw.
  guard_in H; bool_to_prop.
  - subst size. apply mbind_ok in H as (m & c3 & Hm & H). injection H as <- <-.
    apply copy_trailers_ok in Hm as (tr & Hio & Hp & ->). exists (l ++ tr), [].
    split; [by constructor|]. split; [by eapply io_trans|]. rewrite length_app. f_equal; cbn [length]; lia.
  - do 3 (guard_in H; [done|]). bool_to_prop. apply mbind_ok in H as (miss & c3 & Hm & H). guard_in H; [done|].
    bool_to_prop. apply copy_bytes_ok in Hm as (data & Hd & Hlen); [|lia|done].
    apply mbind_ok in H as (crlf & c4 & Hc & H). apply read_exact_io in Hc as [_ Hc]. guard_in H; [done|].
    apply negb_false_iff, bool_decide_eq_true in G4 as ->. apply mbind_ok in H as (u' & c5 & Hw & H).
    apply write_all_io in Hw. pose proof (io_trans _ _ _ _ _ _ _ Hc Hw) as Hcw. rewrite app_nil_r in Hcw. cbn [app] in Hcw.
    subst size. apply IH in H as (wire & rest & Hch & Hio & ->). exists (l ++ data ++ CRLF ++ wire), (data ++ rest).
    split; [|split].
    + constructor; try done. intros ->. done.
    + eapply io_trans; [exact Ht|]. eapply io_trans; [exact Hd|]. eapply io_trans; [exact Hcw|exact Hio].
    + rewrite !length_app. f_equal; cbn [CRLF length]; lia.
Qed.

Lemma copy_chunks_fwd d wire data : chunked d wire data -> forall fuel w rest e o, length wire < fuel ->
  copy_chunks ready limits fuel w d (Conn (wire ++ rest) e o None) =
  (Ok {| wire_bytes := w + Z.of_nat (length wire); decoded_bytes := d + Z.of_nat (length data) |},
   Conn rest e (o ++ wire) None).
Proof.
  induction 1 as [d line tr Hl Hs Htr|d line data wire rdata Hl Hs Hne Hm H64 Hd Hch IH]; intros fuel w rest e o Hf;
    (destruct fuel as [|f]; [cbn in Hf; lia|]); cbn [copy_chunks]; rewrite <- !app_assoc;
    (erewrite mbind_fwd by (by apply bounded_line_fwd)); cbv zeta; rewrite Hs;
    (erewrite mbind_fwd by reflexivity); (erewrite mbind_fwd by reflexivity).
  - rewrite Z.eqb_refl. erewrite mbind_fwd.
    2: { cbn [c_in]. apply copy_trailers_fwd; [done|]. rewrite length_app. lia. }
    rewrite <- app_assoc, length_app. unfold mret. do 2 f_equal. f_equal; cbn [length]; lia.
  - assert (0 < length data) by (destruct data; [done|cbn; lia]).
    rewrite (proj2 (Z.eqb_neq _ _)), (proj2 (Z.ltb_ge _ _)), (proj2 (Z.leb_gt _ _)), (proj2 (Z.ltb_ge _ _)) by lia.
    erewrite mbind_fwd by apply copy_bytes_fwd. cbn [Z.ltb Z.compare].
    erewrite mbind_fwd by (by apply (read_exact_fwd 2 CRLF)). rewrite bool_decide_true by done. cbn [negb].
    erewrite mbind_fwd by reflexivity. etransitivity.
    { apply IH. rewrite !length_app in Hf. lia. }
    cbn [c_in c_end c_out c_quota]. rewrite <- !app_assoc, !length_app. do 2 f_equal. f_equal; cbn [CRLF length]; lia.
Qed.

Lemma copy_chunks_no_panic fuel : forall w d c, length (c_in c) < fuel -> (copy_chunks ready limits fuel w d c).1 <> Panic.
Proof.
  induction fuel as [|f IH]; intros w d c Hf; [lia|]. cbn [copy_chunks].
  apply mbind_no_panic; [apply bounded_line_no_panic|]. intros l c1 Hl. apply bounded_line_ok in Hl as (_ & Hne & Hio). cbv zeta.
  apply mbind_no_panic; [apply parse_chunk_size_no_panic|]. intros z c2 Hz. injection Hz as Hz <-.
  apply parse_chunk_size_range in Hz. apply mbind_no_panic; [apply write_all_no_panic|]. intros u c2 Hw%write_all_io.
  guard_goal; [apply mbind_no_panic; [apply copy_trailers_no_panic; lia|done]|]. do 3 (guard_goal; [done|]).
  apply mbind_no_panic; [apply copy_bytes_no_panic|]. intros m c3 Hm. apply copy_loop_ok in Hm as (q & Hm & _); [|lia].
  guard_goal; [done|]. apply mbind_no_panic; [unfold read_exact; by destruct (2 <=? _)|].
  intros crlf c4 Hc. apply read_exact_io in Hc as [_ Hc]. guard_goal; [done|].
  apply mbind_no_panic; [apply write_all_no_panic|]. intros u' c5 Hw'%write_all_io. apply IH.
  apply io_length in Hio, Hw, Hm, Hc, Hw'. destruct l; [done|]. cbn [length] in *. lia.
Qed.
End copying.

(** ** Properties *)

(** The wire form of a body of the given kind, within the limits. *)
Definition body_wire (limits : BodyCopyLimits) (kind : RequestBodyKind) (wire data : bytes) : Prop :=
  match kind with
  | BodyNone => wire = [] /\ data = []
  | ContentLength len => wire = data /\ Z.of_nat (length data) = len /\ (len <= max_decoded_body limits)%Z
  | Chunked => chunked limits 0 wire data
  end.

Definition body_report (wire data : bytes) : BodyCopyReport :=
  {| wire_bytes := Z.of_nat (length wire); decoded_bytes := Z.of_nat (length data) |}.

Lemma copy_request_body_ok ready limits kind c rep c' :
  (forall len, kind = ContentLength len -> (0 <= len)%Z) -> copy_request_body ready limits kind c = (Ok rep, c') ->
  exists wire data, body_wire limits kind wire data /\ io wire wire c c' /\ rep = body_report wire data.
Proof.
  intros Hk H. destruct kind as [|len|]; cbn [copy_request_body body_wire] in *.
  - injection H as <- <-. exists [], []. split; [done|]. split; [apply io_refl|done].
  - guard_in H; [done|]. apply mbind_ok in H as (m & c1 & Hm & H). guard_in H; [done|]. bool_to_prop.
    injection H as <- <-. apply copy_bytes_ok in Hm as (l & Hio & <-); [|by apply Hk|done]. by exists l, l.
  - apply copy_chunks_ok in H as (wire & data & Hch & Hio & ->). by exists wire, data.
Qed.

Lemma copy_request_body_no_panic ready limits kind c : (copy_request_body ready limits kind c).1 <> Panic.
Proof.
  destruct kind as [|len|]; cbn [copy_request_body]; [done| |apply copy_chunks_no_panic; lia].
  guard_goal; [done|]. apply mbind_no_panic; [apply copy_bytes_no_panic|]. intros m c1 _. by guard_goal.
Qed.

(** Copying a request body passes on, byte for byte and whatever the sizes of
    the reads, exactly one body of the announced framing and stops right behind it;
    the report counts its bytes on the wire and decoded.  Conversely every body
    that keeps the limits is copied.  The copy always ends with a result. *)
Theorem copy_body_exact ready limits kind :
  (forall len, kind = ContentLength len -> (0 <= len)%Z) ->
  (forall c rep c', copy_request_body ready limits kind c = (Ok rep, c') ->
     exists wire data, body_wire limits kind wire data /\ io wire wire c c' /\ rep = body_report wire data) /\
  (forall wire data rest e o, body_wire limits kind wire data ->
     copy_request_body ready limits kind (Conn (wire ++ rest) e o None) =
     (Ok (body_report wire data), Conn rest e (o ++ wire) None)) /\
  (forall c, (copy_request_body ready limits kind c).1 <> Panic).
Proof.
  intros Hk. split_and!; [intros; by eapply copy_request_body_ok| |apply copy_request_body_no_panic].
  intros wire data rest e o H. destruct kind as [|len|]; cbn [copy_request_body body_wire] in *.
  - destruct H as [-> ->]. by rewrite app_nil_r.
  - destruct H as (-> & <- & Hl). rewrite (proj2 (Z.ltb_ge _ _)) by done. unfold copy_content_length_body.
    by erewrite mbind_fwd by apply copy_bytes_fwd.
  - apply (copy_chunks_fwd ready limits 0 wire data H). cbn [c_in]. rewrite length_app. lia.
Qed.

Lemma copy_body_exact_witness :
  (forall len, Chunked = ContentLength len -> (0 <= len)%Z) /\
  exists rep c', copy_request_body (fun _ => 2) default_limits Chunked
    (Conn (str "3;x" ++ CRLF ++ str "abc" ++ CRLF ++ str "0" ++ CRLF ++ CRLF ++ str "NEXT") None [] None) = (Ok rep, c') /\
    decoded_bytes rep = 3%Z /\
    exists wire data, body_wire default_limits Chunked wire data /\ rep = body_report wire data.
Proof.
  split; [done|]. eexists _, _. split; [by vm_compute|]. split; [by vm_compute|].
  edestruct (proj1 (copy_body_exact (fun _ => 2) default_limits Chunked ltac:(done))
    (Conn (str "3;x" ++ CRLF ++ str "abc" ++ CRLF ++ str "0" ++ CRLF ++ CRLF ++ str "NEXT") None [] None))
    as (wire & data & Hw & _ & Hr); [by vm_compute|]. exists wire, data. by split.
Defined.
