(* ===== verification/HttpResponse.v ===== *)
(** * The HTTP forward proxy: responses

    Models [read_response_head], [format_response_head] and [forward_response] of
    [crates/eggress-protocol-http/src/forward/server.rs].  In a [conn], [c_in] is
    what the upstream still sends and [c_out] what the client was sent. *)

From S2P Require Import Prelude Bytes Decimal Stream NetAddr HttpText HttpForward HttpBody.

(** ** Response heads *)

Record ForwardResponse := {
  rs_version : bytes;
  rs_status : Z;
  rs_reason : bytes;
  rs_headers : headers_t;
  rs_content_length : option Z;
  rs_is_chunked : bool;
  rs_connection_close : bool
}.

Definition MAX_RESPONSE_HEAD_SIZE : nat := Z.to_nat 32768.
Definition MAX_INFORMATIONAL_RESPONSES : nat := 8.
Definition MAX_RESPONSE_CHUNK_SIZE : Z := 64 * 1024 * 1024.
Definition COPY_BUFFER : nat := Z.to_nat 8192.
Definition RESPONSE_TRAILER_LINE : nat := Z.to_nat 8192.
Definition MAX_TRAILER_BYTES : Z := 64 * 1024.

(** The head loop counts CRLFs. *)
Definition response_step (head : bytes) (crlf_count : nat) : outcome HttpError (option nat) :=
  let? crlf_count :=
    if line_end head then
      if MAX_HEADER_LINES + 2 <? crlf_count + 1 then Err TooManyHeaders else Ok (crlf_count + 1)
    else Ok crlf_count in
  if head_end head then Ok None else Ok (Some crlf_count).

(** Is one of the codings of a Transfer-Encoding value [chunked], parameters aside? *)
Definition names_chunked (value : bytes) : bool :=
  existsb (fun coding => is_chunked_coding (trim (default [] (head (split_on x3b (trim coding))))))
    (split_on x2c value).

(** What the header loop collects: headers, length, chunked, close. *)
Record head_acc := HeadAcc { ha_headers : headers_t; ha_length : option Z; ha_chunked : bool; ha_close : bool }.

Definition response_header (name value : bytes) (a : head_acc) : outcome HttpError head_acc :=
  let? a :=
    if name_is "Content-Length" name then
      let? parsed := ok_or InvalidContentLength (parse_u64 value) in
      match ha_length a with
      | Some previous =>
          if (previous =? parsed)%Z then Ok (HeadAcc (ha_headers a) (Some parsed) (ha_chunked a) (ha_close a))
          else Err ConflictingContentLength
      | None => Ok (HeadAcc (ha_headers a) (Some parsed) (ha_chunked a) (ha_close a))
      end
    else if name_is "Transfer-Encoding" name then
      Ok (HeadAcc (ha_headers a) (ha_length a) (ha_chunked a || names_chunked value) (ha_close a))
    else if name_is "Connection" name then
      Ok (HeadAcc (ha_headers a) (ha_length a) (ha_chunked a) (has_close_token value))
    else Ok a in
  Ok (HeadAcc (ha_headers a ++ [(name, value)]) (ha_length a) (ha_chunked a) (ha_close a)).

Fixpoint response_headers (lines : list bytes) (header_count : nat) (a : head_acc) : outcome HttpError head_acc :=
  match lines with
  | [] => Ok a
  | line :: r =>
      if bool_decide (line = []) then Ok a else
      let header_count := header_count + 1 in
      if MAX_HEADER_LINES <? header_count then Err TooManyHeaders else
      match parse_header_line line with
      | Some (name, value) =>
          let? a := response_header name value a in
          response_headers r header_count a
      | None => response_headers r header_count a
      end
  end.

(** What [read_response_head] does with a complete head. *)
Definition parse_response_head (head : bytes) : outcome HttpError ForwardResponse :=
  match split_crlf (from_utf8_lossy head) with
  | [] => Err (MalformedResponse "empty response")
  | status_line :: lines =>
      match split_whitespace status_line with
      | version :: code :: parts =>
          let? status := ok_or (MalformedResponse "invalid status code") (parse_u16 code) in
          let reason := default [] (parts !! 0) in
          let? a := response_headers lines 0 (HeadAcc [] None false false) in
          Ok {| rs_version := version; rs_status := status; rs_reason := reason; rs_headers := ha_headers a;
                rs_content_length := if ha_chunked a then None else ha_length a;
                rs_is_chunked := ha_chunked a; rs_connection_close := ha_close a |}
      | _ => Err (MalformedResponse "invalid status line")
      end
  end.

Definition read_response_head : M HttpError ForwardResponse :=
  let! head := read_head MAX_RESPONSE_HEAD_SIZE HeaderTooLarge
    (fun _ => MalformedResponse "unexpected EOF reading response") response_step 0 in
  mlift (parse_response_head head).

Definition has_break (s : bytes) : bool := existsb (fun b => (b =b x0d) || (b =b x0a)) s.

Definition format_response_head (r : ForwardResponse) (force_close : bool) : outcome HttpError bytes :=
  let filtered := filter_hop_by_hop (rs_headers r) in
  if negb (forallb (byte_in 0x20 0x7e) (rs_reason r)) then
    Err (MalformedResponse "response reason contains non-printable bytes")
  else if existsb (fun h => has_break h.1 || has_break h.2) filtered then
    Err (MalformedResponse "response header contains a line break")
  else
    Ok (str "HTTP/1.1 " ++ to_dec (rs_status r) ++ [x20] ++ rs_reason r ++ CRLF ++
        mjoin (map header_line filtered) ++
        (if force_close && negb (existsb (fun h => name_is "Connection" h.1) filtered)
         then str "Connection: close" ++ CRLF else []) ++
        CRLF).

(** ** Bodies *)

(** [s.trim_end_matches("\r\n")]. *)
Fixpoint trim_crlf (fuel : nat) (s : bytes) : bytes :=
  match fuel with
  | O => s
  | S f => if line_end s then trim_crlf f (take (length s - 2) s) else s
  end.

Definition response_chunk_size (line : bytes) : outcome HttpError Z :=
  let size_str := from_utf8_lossy line in
  let size_str := trim_crlf (length size_str) size_str in
  let size_str := trim (default [] (head (split_on x3b size_str))) in
  ok_or (MalformedResponse "invalid chunk size") (parse_hex_u64 size_str).

Section forward.
Variable ready : nat -> nat.

(** The trailer loop.  A line that was read always ends in CRLF, so the second
    [break] is never taken. *)
Fixpoint response_trailers (max_line fuel : nat) (trailer_total : Z) : M HttpError Z :=
  match fuel with
  | O => fun c => (Panic, c)
  | S f =>
      let! trailer := read_bounded_line_into max_line in
      let trailer_total := (trailer_total + Z.of_nat (length trailer))%Z in
      if (MAX_TRAILER_BYTES <? trailer_total)%Z
      then mthrow (MalformedResponse "response trailers exceed maximum total size") else
      write_all trailer ;;
      if bool_decide (trailer = CRLF) then mret trailer_total
      else if negb (line_end trailer) then mret trailer_total
      else response_trailers max_line f trailer_total
  end.

(** The chunk loop: [false] when the upstream closed inside a chunk. *)
Fixpoint response_chunks (fuel : nat) (forwarded : Z) : M HttpError (bool * Z) :=
  match fuel with
  | O => fun c => (Panic, c)
  | S f =>
      let! line := read_bounded_line_into 1024 in
      let! chunk_size := mlift (response_chunk_size line) in
      if (MAX_RESPONSE_CHUNK_SIZE <? chunk_size)%Z then mthrow (MalformedResponse "response chunk too large") else
      write_all line ;;
      let forwarded := (forwarded + Z.of_nat (length line))%Z in
      if (chunk_size =? 0)%Z then
        let! trailers := (fun c => response_trailers RESPONSE_TRAILER_LINE (length (c_in c) + 1) 0 c) in
        mret (true, forwarded + trailers)%Z
      else
        let! missing := copy_bytes ready (chunk_size + 2) in
        let forwarded := (forwarded + (chunk_size + 2 - missing))%Z in
        if (0 <? missing)%Z then mret (false, forwarded) else response_chunks f forwarded
  end.

(** No framing: everything up to the end of the stream. *)
Fixpoint copy_to_end (buffer fuel : nat) (forwarded : Z) : M HttpError Z :=
  match fuel with
  | O => fun c => (Panic, c)
  | S f =>
      let! buf := read_some ready buffer in
      if bool_decide (buf = []) then mret forwarded else
      write_all buf ;;
      copy_to_end buffer f (forwarded + Z.of_nat (length buf))%Z
  end.

Record ForwardResult := {
  bytes_forwarded : Z;
  fw_status : Z;
  upstream_alive : bool;
  client_should_close : bool
}.

(** The loop over informational responses; the final response and the bytes
    written so far. *)
Fixpoint final_response (fuel informational : nat) (forwarded : Z) : M HttpError (ForwardResponse * Z) :=
  match fuel with
  | O => fun c => (Panic, c)
  | S f =>
      let! response := read_response_head in
      if (rs_status response =? 101)%Z then mthrow UpgradeUnsupported else
      if (100 <=? rs_status response)%Z && (rs_status response <? 200)%Z then
        let informational := informational + 1 in
        if MAX_INFORMATIONAL_RESPONSES <? informational then mthrow TooManyInformationalResponses else
        let! head := mlift (format_response_head response false) in
        write_all head ;;
        final_response f informational (forwarded + Z.of_nat (length head))
      else mret (response, forwarded)
  end.

Definition keeps_alive (r : ForwardResponse) : bool :=
  if rs_connection_close r then false
  else if bool_decide (is_Some (find_str (str "1.1") (rs_version r))) then true
  else existsb (fun h => name_is "Keep-Alive" h.1 && negb (bool_decide (h.2 = []))) (rs_headers r).

Definition forward_response : M HttpError ForwardResult :=
  let! (response, forwarded) := final_response (MAX_INFORMATIONAL_RESPONSES + 2) 0 0 in
  let! head := mlift (format_response_head response true) in
  write_all head ;;
  let forwarded := (forwarded + Z.of_nat (length head))%Z in
  let done (forwarded : Z) (alive close : bool) :=
    mret {| bytes_forwarded := forwarded; fw_status := rs_status response;
            upstream_alive := alive; client_should_close := close |} in
  match rs_content_length response, rs_is_chunked response with
  | Some len, _ =>
      let! missing := copy_bytes ready len in
      if (0 <? missing)%Z then mthrow (MalformedResponse "unexpected EOF in response body")
      else done (forwarded + len)%Z (keeps_alive response) (rs_connection_close response)
  | None, true =>
      let! (complete, forwarded) := (fun c => response_chunks (length (c_in c) + 1) forwarded c) in
      if (complete : bool) then done forwarded (keeps_alive response) (rs_connection_close response)
      else done forwarded false true
  | None, false =>
      let! forwarded := (fun c => copy_to_end COPY_BUFFER (length (c_in c) + 2) forwarded c) in
      done forwarded false (rs_connection_close response)
  end.
End forward.

(** ** Heads *)

Definition client_headers (r : ForwardResponse) (force_close : bool) : headers_t :=
  filter_hop_by_hop (rs_headers r) ++ (if force_close then [(str "Connection", str "close")] else []).

Definition status_line (r : ForwardResponse) : bytes :=
  str "HTTP/1.1 " ++ to_dec (rs_status r) ++ [x20] ++ rs_reason r.

Lemma response_headers_ok lines : forall n a a', response_headers lines n a = Ok a' ->
  Forall header_ok (ha_headers a) -> (forall z, ha_length a = Some z -> (0 <= z)%Z) ->
  Forall header_ok (ha_headers a') /\ (forall z, ha_length a' = Some z -> (0 <= z)%Z).
Proof.
  induction lines as [|l lines IH]; intros n a a' H Hh Hz; cbn [response_headers] in H; [by injection H as <-|].
  case_bool_decide; [by injection H as <-|]. guard_in H; [done|].
  destruct (parse_header_line l) as [[name value]|] eqn:El; [|by eapply IH].
  apply parse_header_line_ok in El. apply obind_ok in H as (a1 & H1 & H).
  unfold response_header in H1. apply obind_ok in H1 as (a2 & H2 & H1). injection H1 as <-.
  assert (ha_headers a2 = ha_headers a /\ (forall z, ha_length a2 = Some z -> (0 <= z)%Z)) as [Hh2 Hz2].
  { guard_in H2; [|destruct (name_is "Transfer-Encoding" name); [by injection H2 as <-|];
      destruct (name_is "Connection" name); by injection H2 as <-].
    apply obind_ok in H2 as (z & Hp & H2). destruct (parse_u64 value) as [z'|] eqn:Ez; [|done]. injection Hp as ->.
    apply parse_uint_range in Ez; [|done]. destruct (ha_length a); [destruct (_ =? _)%Z; [|done]|];
      injection H2 as <-; (split; [done|]); cbn; intros ? [= <-]; lia. }
  eapply IH; [exact H| |]; cbn [ha_headers ha_length]; [|done].
  rewrite Hh2. apply Forall_app_2; [done|]. by constructor.
Qed.

(** What a parsed response guarantees. *)
Lemma parse_response_head_ok raw r : parse_response_head raw = Ok r ->
  Forall header_ok (rs_headers r) /\ (forall z, rs_content_length r = Some z -> (0 <= z)%Z).
Proof.
  unfold parse_response_head. destruct (split_crlf _) as [|line lines]; [done|].
  destruct (split_whitespace line) as [|v [|code parts]]; [done|done|]. intros H.
  apply obind_ok in H as (st & _ & H). apply obind_ok in H as (a & Ha & H). injection H as <-.
  apply response_headers_ok in Ha as [H1 H2]; [|constructor|done]. cbn. split; [done|].
  destruct (ha_chunked a); [done|]. done.
Qed.

Lemma response_step_stop h n o : response_step h n = Ok o -> (o = None <-> head_end h = true).
Proof.
  unfold response_step. intros (n' & _ & H)%obind_ok. destruct (head_end h); by injection H as <-.
Qed.

(** A head on the wire: everything up to the first empty line. *)
Definition wire_head (raw : bytes) : Prop :=
  length raw <= MAX_RESPONSE_HEAD_SIZE /\ head_end raw = true /\
  forall k, k < length raw -> head_end (take k raw) = false.

Lemma read_response_head_ok c r c' : read_response_head c = (Ok r, c') ->
  exists raw, io raw [] c c' /\ wire_head raw /\ parse_response_head raw = Ok r.
Proof.
  unfold read_response_head, read_head. intros (head & c1 & H & Hp)%mbind_ok. injection Hp as Hp ->.
  apply (head_loop_ok _ _ _ _ head_end response_step_stop) in H as (l & -> & _ & Hio & Hl & Hs & Hmin).
  exists l. cbn [app] in *. split; [done|]. split; [|done]. split; [done|]. split; [done|].
  intros [|k] Hk; [done|]. apply Hmin. cbn. lia.
Qed.

Lemma response_headers_no_panic lines : forall n a, response_headers lines n a <> Panic.
Proof.
  induction lines as [|l lines IH]; intros n a; cbn [response_headers]; [done|]. guard_goal; [done|].
  guard_goal; [done|]. destruct (parse_header_line l) as [[name value]|]; [|apply IH].
  apply obind_panic. split; [|intros; apply IH]. unfold response_header. apply obind_panic. split; [|done].
  guard_goal; [|by repeat guard_goal]. apply obind_panic. split; [by destruct (parse_u64 value)|]. intros z _.
  destruct (ha_length a); [by guard_goal|done].
Qed.

Lemma parse_response_head_no_panic raw : parse_response_head raw <> Panic.
Proof.
  unfold parse_response_head. destruct (split_crlf _) as [|line lines]; [done|].
  destruct (split_whitespace line) as [|v [|code parts]]; [done|done|].
  apply obind_panic. split; [by destruct (parse_u16 code)|]. intros st _.
  apply obind_panic. split; [apply response_headers_no_panic|done].
Qed.

Lemma read_response_head_no_panic c : (read_response_head c).1 <> Panic.
Proof.
  apply mbind_no_panic; [|intros; apply parse_response_head_no_panic]. apply head_loop_no_panic; [|lia|lia].
  intros h n. unfold response_step. apply obind_panic. split; [by repeat guard_goal|]. intros; by guard_goal.
Qed.

Lemma format_response_head_no_panic r b : format_response_head r b <> Panic.
Proof. unfold format_response_head. by repeat guard_goal. Qed.

(** The head the client gets, line by line. *)
Lemma format_response_head_lines r force h :
  format_response_head r force = Ok h -> Forall header_ok (rs_headers r) ->
  split_crlf h = status_line r :: map header_text (client_headers r force) ++ [[]; []] /\
  Forall (fun l => x0d ∉ l /\ x0a ∉ l) (status_line r :: map header_text (client_headers r force)).
Proof.
  unfold format_response_head. intros H Hok. guard_in H; [done|]. guard_in H; [done|].
  match type of H with Ok ?t = _ => assert (h = t) as -> by congruence end. clear H.
  apply negb_false_iff in G. clear G0.
  assert (Forall (fun l => x0d ∉ l /\ x0a ∉ l) (status_line r :: map header_text (client_headers r force))) as Hc.
  { constructor.
    - assert (forall b, byte_in 0x20 0x7e b = false -> b ∉ rs_reason r) as Hr.
      { intros b Hb Hin. rewrite forallb_forall in G. apply list_elem_of_In, G in Hin. congruence. }
      pose proof (Hr x0d eq_refl). pose proof (Hr x0a eq_refl).
      pose proof (to_dec_not_in x0d (rs_status r) eq_refl). pose proof (to_dec_not_in x0a (rs_status r) eq_refl).
      unfold status_line. change (str "HTTP/1.1 ") with [x48; x54; x54; x50; x2f; x31; x2e; x31; x20]. set_solver.
    - apply Forall_map, Forall_app_2.
      + apply Forall_forall. intros h [_ Hin]%list_elem_of_filter. apply header_text_clean.
        by apply (proj1 (Forall_forall _ _) Hok).
      + destruct force; [|constructor]. constructor; [|constructor]. cbn. split; by apply (bool_decide_unpack _). }
  split; [|done]. rewrite app_comm_cons, <- (split_crlf_lines (status_line r :: _));
    [|eapply Forall_impl; [exact Hc|]; by intros l []].
  f_equal. rewrite no_connection_forwarded, andb_true_r. unfold status_line, client_headers, head_text.
  cbn [map mjoin list_join]. rewrite map_app, map_app, join_app, <- header_lines, <- !app_assoc. do 6 f_equal.
  by destruct force.
Qed.

(** ** Bodies *)

Definition response_limits (max_line : nat) : BodyCopyLimits := {|
  max_chunk_size_line := 1024;
  max_chunk_size := MAX_RESPONSE_CHUNK_SIZE;
  max_decoded_body := 0;
  max_trailer_line := max_line;
  max_trailer_bytes := MAX_TRAILER_BYTES
|}.

(** A complete chunked body; the two bytes behind the data are passed on unread. *)
Inductive response_chunked : bytes -> Prop :=
| rc_last line trailers :
    crlf_line 1024 line -> response_chunk_size line = Ok 0%Z -> trailer_part (response_limits RESPONSE_TRAILER_LINE) 0 trailers ->
    response_chunked (line ++ trailers)
| rc_more line data wire size :
    crlf_line 1024 line -> response_chunk_size line = Ok size -> (0 < size <= MAX_RESPONSE_CHUNK_SIZE)%Z ->
    Z.of_nat (length data) = (size + 2)%Z -> response_chunked wire -> response_chunked (line ++ data ++ wire).

Lemma response_chunk_size_range l z : response_chunk_size l = Ok z -> (0 <= z < 2 ^ 64)%Z.
Proof.
  unfold response_chunk_size, parse_hex_u64. intros H. destruct (parse_uint 16 _ _) as [v|] eqn:E; [|done].
  injection H as <-. by apply parse_uint_range in E.
Qed.

Lemma response_trailers_ok max_line fuel : forall n c m c', response_trailers max_line fuel n c = (Ok m, c') ->
  exists l, io l l c c' /\ trailer_part (response_limits max_line) n l /\ m = (n + Z.of_nat (length l))%Z.
Proof.
  induction fuel as [|f IH]; intros n c m c' H; cbn [response_trailers] in H; [done|].
  apply mbind_ok in H as (l & c1 & Hl & H). apply bounded_line_ok in Hl as (Hline & _ & Hio). cbv zeta in H.
  guard_in H; [done|]. bool_to_prop. apply mbind_ok in H as (u & c2 & Hw & H). apply write_all_io in Hw.
  pose proof (io_trans _ _ _ _ _ _ _ Hio Hw) as Ht. rewrite app_nil_r in Ht. cbn [app] in Ht.
  case_bool_decide as Hc.
  - injection H as <- <-. subst l. exists CRLF. split; [done|]. split; [by constructor|done].
  - rewrite (proj1 (proj2 Hline)) in H. cbn [negb] in H. apply IH in H as (r & Hr & Hp & ->).
    exists (l ++ r). split; [by eapply io_trans|]. split; [by constructor|]. rewrite length_app. lia.
Qed.

Lemma response_trailers_no_panic max_line fuel : forall n c, length (c_in c) < fuel -> (response_trailers max_line fuel n c).1 <> Panic.
Proof.
  induction fuel as [|f IH]; intros n c Hf; [lia|]. cbn [response_trailers].
  apply mbind_no_panic; [apply bounded_line_no_panic|]. intros l c1 Hl. cbv zeta.
  apply bounded_line_ok in Hl as (_ & Hne & Hio). guard_goal; [done|].
  apply mbind_no_panic; [apply write_all_no_panic|]. intros u c2 Hw%write_all_io. do 2 (guard_goal; [done|]).
  apply IH. apply io_length in Hio, Hw. destruct l; [done|]. cbn [length] in *. lia.
Qed.

Section bodies.
Variable ready : nat -> nat.

Lemma copy_buffer_pos : 0 < COPY_BUFFER.
Proof. unfold COPY_BUFFER. lia. Qed.

Lemma response_chunks_ok fuel : forall n c b m c', response_chunks ready fuel n c = (Ok (b, m), c') ->
  exists wire, io wire wire c c' /\ m = (n + Z.of_nat (length wire))%Z /\ (b = true -> response_chunked wire).
Proof.
  induction fuel as [|f IH]; intros n c b m c' H; cbn [response_chunks] in H; [done|].
  apply mbind_ok in H as (l & c1 & Hl & H). apply bounded_line_ok in Hl as (Hline & _ & Hio).
  apply mbind_ok in H as (size & c2 & Hs & H). injection Hs as Hs <-. pose proof (response_chunk_size_range _ _ Hs) as Hz.
  guard_in H; [done|]. apply mbind_ok in H as (u & c2 & Hw & H). apply write_all_io in Hw.
  pose proof (io_trans _ _ _ _ _ _ _ Hio Hw) as Ht. rewrite app_nil_r in Ht. cbn [app] in Ht. clear Hio Hw. cbv zeta in H.
  guard_in H; bool_to_prop.
  - subst size. apply mbind_ok in H as (t & c3 & Htr & H). injection H as <- <- <-.
    apply response_trailers_ok in Htr as (tr & Hio & Hp & ->). exists (l ++ tr). split; [by eapply io_trans|].
    split; [rewrite length_app; lia|]. intros _. by constructor.
  - apply mbind_ok in H as (miss & c3 & Hm & H). apply copy_loop_ok in Hm as (d & Hd & Hlen & Hm0); [|lia].
    guard_in H; bool_to_prop.
    + injection H as <- <- <-. exists (l ++ d). split; [by eapply io_trans|]. split; [rewrite length_app; lia|done].
    + apply IH in H as (wire & Hw & -> & Hc). exists (l ++ d ++ wire).
      split; [eapply io_trans; [exact Ht|]; by eapply io_trans|]. rewrite !length_app. split; [lia|].
      intros Hb. eapply rc_more; [done|exact Hs|lia|lia|by apply Hc].
Qed.

Lemma response_chunks_no_panic fuel : forall n c, length (c_in c) < fuel -> (response_chunks ready fuel n c).1 <> Panic.
Proof.
  induction fuel as [|f IH]; intros n c Hf; [lia|]. cbn [response_chunks].
  apply mbind_no_panic; [apply bounded_line_no_panic|]. intros l c1 Hl. apply bounded_line_ok in Hl as (_ & Hne & Hio).
  apply mbind_no_panic; [cbn; unfold response_chunk_size; by destruct (parse_hex_u64 _)|]. intros z c2 Hz. injection Hz as Hz <-.
  apply response_chunk_size_range in Hz. guard_goal; [done|].
  apply mbind_no_panic; [apply write_all_no_panic|]. intros u c2 Hw%write_all_io. cbv zeta.
  guard_goal; [apply mbind_no_panic; [apply response_trailers_no_panic; lia|done]|].
  apply mbind_no_panic; [apply copy_bytes_no_panic|]. intros m c3 Hm. apply copy_loop_ok in Hm as (q & Hm & _); [|lia].
  guard_goal; [done|]. apply IH. apply io_length in Hio, Hw, Hm. destruct l; [done|]. cbn [length] in *. lia.
Qed.

Lemma copy_to_end_ok buffer fuel : forall n c m c', 0 < buffer -> copy_to_end ready buffer fuel n c = (Ok m, c') ->
  io (c_in c) (c_in c) c c' /\ c_in c' = [] /\ m = (n + Z.of_nat (length (c_in c)))%Z.
Proof.
  induction fuel as [|f IH]; intros n c m c' Hb0 H; cbn [copy_to_end] in H; [done|].
  apply mbind_ok in H as (buf & c1 & Hb & H). apply read_some_ok in Hb as (Hio & _ & He); [|done].
  case_bool_decide as Hn.
  - injection H as <- <-. destruct (He Hn) as [E ->]. rewrite E. split; [apply io_refl|]. split; [done|cbn; lia].
  - apply mbind_ok in H as (u & c2 & Hw & H). apply write_all_io in Hw. apply IH in H as (Hio' & Hnil & ->); [|done].
    pose proof (io_trans _ _ _ _ _ _ _ Hio Hw) as Ht. rewrite app_nil_r in Ht. cbn [app] in Ht.
    pose proof (proj1 Ht) as Hin. split; [rewrite Hin; by eapply io_trans|]. split; [done|].
    rewrite Hin, length_app. lia.
Qed.

Lemma copy_to_end_no_panic buffer fuel : forall n c, 0 < buffer -> length (c_in c) + 1 < fuel ->
  (copy_to_end ready buffer fuel n c).1 <> Panic.
Proof.
  induction fuel as [|f IH]; intros n c Hb0 Hf; [lia|]. cbn [copy_to_end]. apply mbind_no_panic.
  { unfold read_some. destruct (c_in c); [by destruct (c_end c)|done]. }
  intros buf c1 Hb. apply read_some_ok in Hb as (Hio & _ & _); [|done]. guard_goal; [done|].
  apply bool_decide_eq_false in G. apply mbind_no_panic; [apply write_all_no_panic|]. intros u c2 Hw%write_all_io.
  apply IH; [done|]. apply io_length in Hio, Hw. destruct buf; [done|]. cbn [length] in *. lia.
Qed.
End bodies.

(** ** Informational responses *)

Definition informational (r : ForwardResponse) : Prop := (100 <= rs_status r < 200)%Z /\ rs_status r <> 101%Z.

(** An informational head as it came and as it went out. *)
Definition passed_on (raw head : bytes) : Prop :=
  wire_head raw /\ exists r, parse_response_head raw = Ok r /\ informational r /\ format_response_head r false = Ok head.

(** Unfold the loop rather than the reads inside it when terms are compared. *)
#[local] Strategy expand [final_response].

Lemma final_response_ok fuel : forall k n c r m c',
  k <= MAX_INFORMATIONAL_RESPONSES -> final_response fuel k n c = (Ok (r, m), c') ->
  exists raws heads raw, Forall2 passed_on raws heads /\ k + length heads <= MAX_INFORMATIONAL_RESPONSES /\
    io (mjoin raws ++ raw) (mjoin heads) c c' /\ wire_head raw /\ parse_response_head raw = Ok r /\
    ~ (100 <= rs_status r < 200)%Z /\ m = (n + Z.of_nat (length (mjoin heads)))%Z.
Proof.
  induction fuel as [|f IH]; intros k n c r m c' Hk H; cbn [final_response] in H; [done|].
  apply mbind_ok in H as (rsp & c1 & Hr & H). apply read_response_head_ok in Hr as (raw & Hio & Hw & Hp).
  guard_in H; [done|]. guard_in H.
  - guard_in H; [done|]. bool_to_prop. apply mbind_ok in H as (head & c2 & Hf & H). injection Hf as Hf <-.
    apply mbind_ok in H as (u & c2 & Hwr & H). apply write_all_io in Hwr.
    apply IH in H as (raws & heads & raw' & Hall & Hl & Hio' & Hw' & Hp' & Hn & ->); [|done].
    exists (raw :: raws), (head :: heads), raw'. cbn [mjoin list_join]. split_and!; try done.
    + constructor; [|done]. split; [done|]. exists rsp. split; [done|]. split; [|done]. split; [lia|done].
    + cbn [length]. lia.
    + pose proof (io_trans _ _ _ _ _ _ _ (io_trans _ _ _ _ _ _ _ Hio Hwr) Hio') as Ht.
      rewrite app_nil_r, app_assoc in Ht. exact Ht.
    + rewrite length_app, Nat2Z.inj_add. apply eq_sym, Z.add_assoc.
  - injection H as <- <- <-. exists [], [], raw. split_and!; try done; [cbn; lia| |cbn; lia].
    intros [H1 H2]. apply andb_false_iff in G0 as [G0|G0]; bool_to_prop; lia.
Qed.

Lemma final_response_no_panic fuel : forall k n c,
  MAX_INFORMATIONAL_RESPONSES + 1 < fuel + k -> 0 < fuel -> (final_response fuel k n c).1 <> Panic.
Proof.
  induction fuel as [|f IH]; intros k n c Hf Hp; [lia|]. cbn [final_response].
  apply mbind_no_panic; [apply read_response_head_no_panic|]. intros r c1 _. guard_goal; [done|].
  guard_goal; [|done]. guard_goal; [done|]. bool_to_prop.
  apply mbind_no_panic; [apply format_response_head_no_panic|]. intros h c2 _.
  apply mbind_no_panic; [apply write_all_no_panic|]. intros u c3 _. apply IH; lia.
Qed.

(** ** Properties *)

(** What the body of a final response is on the wire, when the proxy calls the
    upstream connection reusable or not. *)
Definition framed (r : ForwardResponse) (body : bytes) (drained alive : bool) : Prop :=
  match rs_content_length r, rs_is_chunked r with
  | Some len, _ => Z.of_nat (length body) = len
  | None, true => alive = true -> response_chunked body
  | None, false => drained = true /\ alive = false
  end.

(** [taken] is a complete response (with the informational ones before it) and
    [given] its form for the client. *)
Definition response_passed (taken given : bytes) (drained : bool) (res : ForwardResult) : Prop :=
  exists raws heads raw r head body,
    taken = (mjoin raws ++ raw) ++ body /\ given = (mjoin heads ++ head) ++ body /\
    Forall2 passed_on raws heads /\ length heads <= MAX_INFORMATIONAL_RESPONSES /\
    wire_head raw /\ parse_response_head raw = Ok r /\ ~ (100 <= rs_status r < 200)%Z /\
    format_response_head r true = Ok head /\ fw_status res = rs_status r /\
    framed r body drained (upstream_alive res) /\ (upstream_alive res = true -> rs_connection_close r = false).

Lemma forward_response_ok ready c res c' :
  forward_response ready c = (Ok res, c') ->
  exists taken given, response_passed taken given (bool_decide (c_in c' = [])) res /\
    io taken given c c' /\ bytes_forwarded res = Z.of_nat (length given).
Proof.
  unfold forward_response. intros ([r m] & c1 & Hf & H)%mbind_ok.
  apply final_response_ok in Hf as (raws & heads & raw & Hall & Hlen & Hio & Hw & Hp & Hn & ->); [|lia].
  apply mbind_ok in H as (head & c2 & Hh & H). injection Hh as Hh <-.
  apply mbind_ok in H as (u & c2 & Hwr & H). apply write_all_io in Hwr.
  pose proof (io_trans _ _ _ _ _ _ _ Hio Hwr) as Ht. rewrite app_nil_r in Ht. clear Hio Hwr. cbv zeta in H.
  assert (keeps_alive r = true -> rs_connection_close r = false) as Hka.
  { unfold keeps_alive. by destruct (rs_connection_close r). }
  pose proof (parse_response_head_ok _ _ Hp) as [_ Hcl].
  enough (exists body, io body body c2 c' /\
    bytes_forwarded res = (Z.of_nat (length (mjoin heads)) + Z.of_nat (length head) + Z.of_nat (length body))%Z /\
    fw_status res = rs_status r /\ framed r body (bool_decide (c_in c' = [])) (upstream_alive res) /\
    (upstream_alive res = true -> rs_connection_close r = false)) as (body & Hb & Hc & Hst & Hfr & Hal).
  { eexists _, _. split; [by exists raws, heads, raw, r, head, body|]. split; [by eapply io_trans|]. rewrite Hc, !length_app. lia. }
  unfold framed. destruct (rs_content_length r) as [len|] eqn:El.
  - apply mbind_ok in H as (miss & c3 & Hm & H). guard_in H; [done|]. bool_to_prop. injection H as <- <-.
    apply copy_bytes_ok in Hm as (body & Hb & Hlb); [|by apply Hcl|done]. exists body. split_and!; try done. cbn. lia.
  - destruct (rs_is_chunked r).
    + apply mbind_ok in H as ([b n] & c3 & Hm & H). apply response_chunks_ok in Hm as (body & Hb & -> & Hch).
      exists body. destruct b; injection H as <- <-; (split_and!; [done|cbn; lia|done| |done]); cbn; auto.
    + apply mbind_ok in H as (n & c3 & Hm & H). injection H as <- <-.
      apply copy_to_end_ok in Hm as (Hb & Hnil & ->); [|apply copy_buffer_pos]. exists (c_in c2).
      split; [done|]. split; [cbn; lia|]. split; [done|]. split; [by rewrite Hnil|done].
Qed.

(** A response is passed on without loss or addition: up to eight informational
    heads, the final head, then the body byte for byte as it came; each head the
    client gets is the formatted form of the head that was read, and the byte count
    of the result is what was written.  The body has the length Content-Length
    announces; without framing it is everything the upstream sent; and the upstream
    connection is reported reusable only behind a complete body. *)
Theorem forward_response_faithful ready c res c' :
  forward_response ready c = (Ok res, c') ->
  exists raws heads raw r head body,
    Forall2 passed_on raws heads /\ length heads <= MAX_INFORMATIONAL_RESPONSES /\
    wire_head raw /\ parse_response_head raw = Ok r /\ ~ (100 <= rs_status r < 200)%Z /\
    format_response_head r true = Ok head /\
    io ((mjoin raws ++ raw) ++ body) ((mjoin heads ++ head) ++ body) c c' /\
    bytes_forwarded res = Z.of_nat (length ((mjoin heads ++ head) ++ body)) /\ fw_status res = rs_status r /\
    framed r body (bool_decide (c_in c' = [])) (upstream_alive res) /\
    (upstream_alive res = true -> rs_connection_close r = false).
Proof.
  intros (taken & given & (raws & heads & raw & r & head & body & -> & -> & ? & ? & ? & ? & ? & ? & ? & ? & ?) & ? & ?)%forward_response_ok.
  by exists raws, heads, raw, r, head, body.
Qed.

Lemma forward_response_no_panic ready c : (forward_response ready c).1 <> Panic.
Proof.
  unfold forward_response. apply mbind_no_panic; [apply final_response_no_panic; lia|]. intros [r m] c1 _.
  apply mbind_no_panic; [apply format_response_head_no_panic|]. intros h c2 _.
  apply mbind_no_panic; [apply write_all_no_panic|]. intros u c3 _. cbv zeta.
  destruct (rs_content_length r) as [len|].
  - apply mbind_no_panic; [apply copy_bytes_no_panic|]. intros; by guard_goal.
  - destruct (rs_is_chunked r).
    + apply mbind_no_panic; [apply response_chunks_no_panic; lia|]. intros [b n] c4 _. by guard_goal.
    + apply mbind_no_panic; [apply copy_to_end_no_panic; [apply copy_buffer_pos|lia]|done].
Qed.

(** The head the client gets for any upstream response is, line by line, one
    status line and one line per end-to-end header (and [Connection: close] on the
    final response): nothing the upstream put into a header or into the reason
    phrase starts a line of its own. *)
Theorem response_head_exact raw r force h :
  parse_response_head raw = Ok r -> format_response_head r force = Ok h ->
  split_crlf h = status_line r :: map header_text (client_headers r force) ++ [[]; []] /\
  Forall (fun l => x0d ∉ l /\ x0a ∉ l) (status_line r :: map header_text (client_headers r force)) /\
  parse_headers (tail (split_crlf h)) [] = client_headers r force.
Proof.
  intros [Hok _]%parse_response_head_ok Hf.
  destruct (format_response_head_lines r force h Hf Hok) as [Hs Hc]. split; [done|]. split; [done|].
  rewrite Hs. cbn [tail]. apply (parse_headers_text _ [[]] []).
  apply Forall_app_2.
  - apply Forall_forall. intros x Hx. split.
    + apply list_elem_of_filter in Hx as [_ Hx]. by apply (proj1 (Forall_forall _ _) Hok).
    + apply (hop_by_hop_filtered _ _ _ Hx). by apply (bool_decide_unpack _).
  - destruct force; [|constructor]. constructor; [|constructor]. split; [|done].
    apply parse_header_line_ok with (line := str "Connection: close"). by vm_compute.
Qed.

Definition demo_upstream : bytes :=
  str "HTTP/1.1 100 Continue" ++ CRLF ++ CRLF ++
  str "HTTP/1.1 200 OK" ++ CRLF ++ str "Content-Length: 5" ++ CRLF ++ str "Keep-Alive: 3" ++ CRLF ++ CRLF ++ str "hello".

Lemma forward_response_faithful_witness : exists res,
  (forward_response (fun _ => 2) (Conn demo_upstream None [] None)).1 = Ok res /\ fw_status res = 200%Z /\
  exists raws heads, Forall2 passed_on raws heads /\ length heads <= MAX_INFORMATIONAL_RESPONSES.
Proof.
  destruct (forward_response (fun _ => 2) (Conn demo_upstream None [] None)) as [[res| |] c'] eqn:E;
    [|by vm_compute in E|by vm_compute in E].
  exists res. split; [done|]. split; [clear -E; vm_compute in E; by injection E as <- <-|].
  destruct (forward_response_faithful (fun _ => 2) _ res c' E) as (raws & heads & _ & _ & _ & _ & H1 & H2 & _).
  exists raws, heads. split; [exact H1|exact H2].
Defined.

Definition demo_raw : bytes := str "HTTP/1.1 200 OK" ++ CRLF ++ str "X-A: 1" ++ CRLF ++ str "Connection: x-b" ++ CRLF ++ CRLF.

Lemma response_head_exact_witness : exists r h,
  parse_response_head demo_raw = Ok r /\ format_response_head r true = Ok h /\
  parse_headers (tail (split_crlf h)) [] = [(str "X-A", str "1"); (str "Connection", str "close")].
Proof.
  destruct (parse_response_head demo_raw) as [r| |] eqn:E; [|by vm_compute in E|by vm_compute in E].
  destruct (format_response_head r true) as [h| |] eqn:Eh;
    [|exfalso; vm_compute in E; injection E as <-; by vm_compute in Eh..].
  exists r, h. split; [done|]. split; [done|].
  destruct (response_head_exact demo_raw r true h E Eh) as (_ & _ & ->). vm_compute in E. injection E as <-. by vm_compute.
Defined.

(** ** Where the client's view differs *)

(** The reason phrase is cut at its first word. *)
Example reason_is_cut : exists r,
  parse_response_head (str "HTTP/1.1 404 Not Found" ++ CRLF ++ CRLF) = Ok r /\ rs_reason r = str "Not".
Proof. eexists. split; by vm_compute. Qed.

(** A coding list that ends in chunked is read as chunked, but the client is not
    told so: the body goes out in chunked form under a head without a coding. *)
Example coding_list_dropped : exists r h,
  parse_response_head (str "HTTP/1.1 200 OK" ++ CRLF ++ str "Transfer-Encoding: gzip, chunked" ++ CRLF ++ CRLF) = Ok r /\
  rs_is_chunked r = true /\ format_response_head r true = Ok h /\
  parse_headers (tail (split_crlf h)) [] = [(str "Connection", str "close")].
Proof. eexists _, _. split; [by vm_compute|]. split; [done|]. split; [by vm_compute|]. by vm_compute. Qed.
