(* ===== verification/HttpConnect.v ===== *)
(** * The HTTP CONNECT proxy and client

    Models [crates/eggress-protocol-http/src/connect/server.rs] and
    [connect/client.rs].  Base64 and the serializer of the outgoing request
    ([eggfetch-http-connect]) are third-party code behind the interface
    [ConnectLib].  The buffering of reads does not change what is read. *)

From S2P Require Import Prelude Bytes Decimal Stream NetAddr HttpText.

(** ** Third-party code *)

(** The errors of the serializer the client tells apart. *)
Inductive ConnectError := CeInvalidTarget | CeInvalidCredentials | CeRequestHeadTooLarge | CeOther.

Class ConnectLib := {
  b64_encode : bytes -> bytes;
  b64_decode : bytes -> option bytes;
  ConnectTarget : Type;
  ct_new : bytes -> Z -> option ConnectTarget;
  ct_authority : ConnectTarget -> bytes;
  encode_connect_request : ConnectTarget -> option bytes -> nat -> outcome ConnectError bytes
}.

(** ** Server *)

Definition CONNECT_MAX_HEAD_SIZE : nat := Z.to_nat 32768.
Definition CONNECT_MAX_HEADER_LINES : nat := 128.

Record ConnectRequest := { target : TargetAddr; proxy_auth : option (bytes * bytes) }.

(** [s.get(i..)]: in range and on a character boundary. *)
Definition str_from (s : bytes) (i : nat) : option bytes :=
  if i <=? length s then
    match s !! i with
    | Some b => if utf8_cont b then None else Some (drop i s)
    | None => Some []
    end
  else None.

Definition authority_port (s : bytes) : outcome HttpError Z :=
  ok_or (TargetParseError "invalid port") (parse_u16 s).

Definition DEFAULT_CONNECT_PORT : Z := 443.

Definition parse_authority (authority : bytes) : outcome HttpError TargetAddr :=
  if starts_with [x5b] authority then
    let? bracket_end := ok_or (TargetParseError "unclosed bracket in IPv6 address") (find_byte x5d authority) in
    let? ip_str := slice authority 1 bracket_end in
    let? ip := ok_or (TargetParseError "invalid IPv6 address") (parse_ip ip_str) in
    let? port_str := ok_or (TargetParseError "missing port after IPv6 address") (str_from authority (bracket_end + 2)) in
    if match authority !! (bracket_end + 1) with Some b => negb (b =b x3a) | None => true end
    then Err (TargetParseError "expected ':' between IPv6 address and port") else
    let? port := authority_port port_str in
    Ok {| host := Ip ip; tport := port |}
  else
    let? (host_str, port) :=
      match rfind_byte x3a authority with
      | Some colon_pos =>
          let? port := authority_port (drop (colon_pos + 1) authority) in
          Ok (take colon_pos authority, port)
      | None => Ok (authority, DEFAULT_CONNECT_PORT)
      end in
    match parse_ip host_str with
    | Some ip => Ok {| host := Ip ip; tport := port |}
    | None =>
        if bool_decide (host_str = []) then Err (TargetParseError "empty host")
        else Ok {| host := DomainName host_str; tport := port |}
    end.

Definition connect_header_line (line : bytes) : option (bytes * bytes) :=
  (fun colon_pos => (trim (take colon_pos line), trim (drop (colon_pos + 1) line))) <$> find_byte x3a line.

(** The counters of the head loop: request line seen, header lines so far. *)
Definition connect_step (head : bytes) (st : bool * nat) : outcome HttpError (option (bool * nat)) :=
  if 4 <=? length head then
    if ends_with CRLF2 head then Ok None
    else if ends_with CRLF head then
      let '(saw, count) := st in
      let st := if saw then (true, count + 1) else (true, count) in
      if CONNECT_MAX_HEADER_LINES <=? st.2 then Err TooManyHeaders else Ok (Some st)
    else Ok (Some st)
  else Ok (Some st).

Section connect.
Context {HL : ConnectLib}.

Definition parse_basic_auth (value : bytes) : option (bytes * bytes) :=
  let value := trim value in
  if negb (starts_with (str "Basic ") value) then None else
  let encoded := drop 6 value in
  match b64_decode encoded with
  | None => None
  | Some decoded =>
      if negb (utf8_valid decoded) then None else
      (fun colon_pos => (take colon_pos decoded, drop (colon_pos + 1) decoded)) <$> find_byte x3a decoded
  end.

(** The header loop; the last Proxy-Authorization counts. *)
Fixpoint connect_auth (lines : list bytes) (auth : option (bytes * bytes)) : option (bytes * bytes) :=
  match lines with
  | [] => auth
  | line :: r =>
      if bool_decide (line = []) then auth
      else match connect_header_line line with
      | Some (name, value) =>
          if eq_ignore_ascii_case name (str "Proxy-Authorization") then connect_auth r (parse_basic_auth value)
          else connect_auth r auth
      | None => connect_auth r auth
      end
  end.

(** What [read_connect_request] does with a complete head. *)
Definition parse_connect_head (head : bytes) : outcome HttpError ConnectRequest :=
  match split_crlf (from_utf8_lossy head) with
  | [] => Err (MalformedRequest "empty request")
  | request_line :: lines =>
      match split_whitespace request_line with
      | [method; authority; version] =>
          if negb (bool_decide (method = str "CONNECT")) then Err (MalformedRequest "expected CONNECT method") else
          if negb (bool_decide (version = str "HTTP/1.1")) && negb (bool_decide (version = str "HTTP/1.0"))
          then Err (UnsupportedVersion version) else
          let? target := parse_authority authority in
          Ok {| target := target; proxy_auth := connect_auth lines None |}
      | _ => Err (MalformedRequest "expected 3 parts in request line")
      end
  end.

Definition read_connect_request : M HttpError ConnectRequest :=
  let! head := read_head CONNECT_MAX_HEAD_SIZE HeaderTooLarge
    (fun _ => MalformedRequest "unexpected EOF reading request") connect_step (false, 0) in
  mlift (parse_connect_head head).

Definition write_error_response (status : Z) (reason : string) : M HttpError unit :=
  write_all (str "HTTP/1.1 " ++ to_dec status ++ [x20] ++ str reason ++ CRLF ++
             str "Content-Length: 0" ++ CRLF ++ str "Connection: close" ++ CRLF2) ;;
  flush.

(** Both comparisons are constant-time; only their result matters here. *)
Definition credentials_match (given valid : bytes * bytes) : bool :=
  let user_ok := bool_decide (given.1 = valid.1) in
  let pass_ok := bool_decide (given.2 = valid.2) in
  negb (negb user_ok || negb pass_ok).

Definition refuse_connect : M HttpError unit :=
  write_error_response 407 "Proxy Authentication Required" ;; mthrow AuthRequired.

Definition ESTABLISHED : bytes := str "HTTP/1.1 200 Connection Established" ++ CRLF2.

Definition handle_connect (require_auth : bool) (valid_credentials : option (bytes * bytes))
    : M HttpError ConnectRequest :=
  let! request := read_connect_request in
  (if require_auth then
     match proxy_auth request with
     | Some given =>
         match valid_credentials with
         | Some valid => if negb (credentials_match given valid) then refuse_connect else mret tt
         | None => refuse_connect
         end
     | None => refuse_connect
     end
   else mret tt) ;;
  write_all ESTABLISHED ;;
  flush ;;
  mret request.

(** ** Client *)

Record HttpConnectLimits := { max_status_line : nat; max_headers_bytes : nat; max_header_count : nat }.

Definition HttpConnectLimits_default : HttpConnectLimits :=
  {| max_status_line := 1024; max_headers_bytes := Z.to_nat 32768; max_header_count := 100 |}.

Definition control_byte (b : byte) : bool := (b2Z b <? 0x20)%Z || (b =b x7f).

Definition validate_credentials (value : bytes) : outcome HttpError unit :=
  if existsb control_byte value then Err InvalidCredentials else Ok tt.

Definition MAX_OUTBOUND_CONNECT_HEAD : nat := Z.to_nat 65536.
Definition CONNECT_HEAD_FRAMING_OVERHEAD : nat := 512.

Definition connect_target (t : TargetAddr) : outcome HttpError ConnectTarget :=
  let new h := ok_or (TargetParseError "invalid CONNECT target host") (ct_new h (tport t)) in
  match host t with
  | Ip ip => new (fmt_ip ip)
  | DomainName domain =>
      if bool_decide (domain = []) then Err (TargetParseError "empty CONNECT target host") else
      if existsb (fun b => (b2Z b <=? 0x20)%Z || (b =b x7f)) domain
      then Err (TargetParseError "invalid CONNECT target host") else
      if contains_byte x3a domain || contains_byte x40 domain || contains_byte x2f domain
      then Err (TargetParseError "invalid CONNECT target host") else
      new domain
  end.

Definition map_connect_error (e : ConnectError) : HttpError :=
  match e with
  | CeInvalidTarget => TargetParseError "invalid CONNECT target host"
  | CeInvalidCredentials => InvalidCredentials
  | CeRequestHeadTooLarge => HeaderTooLarge
  | CeOther => MalformedRequest "invalid CONNECT request"
  end.

(** The lengths are far below the width of [usize], so the saturating sums are
    plain ones. *)
Definition build_connect_request (t : ConnectTarget) (auth : option (bytes * bytes)) : outcome HttpError bytes :=
  let? _ :=
    match auth with
    | Some (user, pass) =>
        let? _ := validate_credentials user in
        let? _ := validate_credentials pass in
        let raw_cred_len := length user + 1 + length pass in
        let b64_len := (raw_cred_len + 2) / 3 * 4 in
        let estimated := b64_len + length (ct_authority t) * 2 + CONNECT_HEAD_FRAMING_OVERHEAD in
        if MAX_OUTBOUND_CONNECT_HEAD <? estimated then Err HeaderTooLarge else Ok tt
    | None =>
        if MAX_OUTBOUND_CONNECT_HEAD <? length (ct_authority t) * 2 + CONNECT_HEAD_FRAMING_OVERHEAD
        then Err HeaderTooLarge else Ok tt
    end in
  let auth_value := (fun c => str "Basic " ++ b64_encode (c.1 ++ [x3a] ++ c.2)) <$> auth in
  map_err map_connect_error (encode_connect_request t auth_value MAX_OUTBOUND_CONNECT_HEAD).

Definition status_of_words (words : list bytes) : outcome HttpError Z :=
  match words with
  | _ :: code :: _ => ok_or (MalformedResponse "invalid status code") (parse_u16 code)
  | _ => Err (MalformedResponse "invalid status line")
  end.

Definition parse_status_from_bytes (status_line : bytes) (limits : HttpConnectLimits) : outcome HttpError Z :=
  if max_status_line limits <? length status_line then Err HeaderTooLarge else
  let? line := from_utf8 (MalformedResponse "invalid UTF-8") status_line in
  status_of_words (split_whitespace line).

(** The loop that counts header fields, from [line_start] on. *)
Fixpoint count_fields (fuel : nat) (limits : HttpConnectLimits) (rest : bytes) (header_count : nat)
    : outcome HttpError unit :=
  match fuel with
  | O => Panic
  | S f =>
      match rest with
      | [] => Ok tt
      | _ =>
          let? next := ok_or (MalformedResponse "truncated header section") (find_str CRLF rest) in
          if next =? 0 then Ok tt else
          if max_header_count limits <? header_count + 1 then Err TooManyHeaders else
          count_fields f limits (drop (next + 2) rest) (header_count + 1)
      end
  end.

Definition parse_response_status (limits : HttpConnectLimits) (head : bytes) : outcome HttpError Z :=
  let? status_end := ok_or (MalformedResponse "empty response") (find_str CRLF head) in
  let status_line := take status_end head in
  if bool_decide (status_line = []) then Err (MalformedResponse "empty response") else
  let? status := parse_status_from_bytes status_line limits in
  let? _ := count_fields (length head + 1) limits (drop (status_end + 2) head) 0 in
  Ok status.

Definition status_step (head : bytes) (_ : unit) : outcome HttpError (option unit) :=
  Ok (if (4 <=? length head) && ends_with CRLF2 head then None else Some tt).

Definition read_response_status (limits : HttpConnectLimits) : M HttpError Z :=
  let! head := read_head (max_headers_bytes limits) HeaderTooLarge
    (fun _ => MalformedResponse "unexpected EOF reading response") status_step tt in
  mlift (parse_response_status limits head).

Definition connect_outcome (status : Z) : outcome HttpError unit :=
  if (200 <=? status)%Z && (status <=? 299)%Z then Ok tt
  else if (status =? 407)%Z then Err AuthRequired
  else if (status =? 403)%Z then Err AuthFailed
  else if (status =? 502)%Z then Err BadGateway
  else if (status =? 504)%Z then Err GatewayTimeout
  else Err (UnexpectedStatus status).

Definition http_connect (t : TargetAddr) (auth : option (bytes * bytes)) (limits : HttpConnectLimits)
    : M HttpError unit :=
  let! ct := mlift (connect_target t) in
  let! request := mlift (build_connect_request ct auth) in
  write_all request ;;
  flush ;;
  let! status := read_response_status limits in
  mlift (connect_outcome status).

(** [response.lines().next()]. *)
Definition first_line (s : bytes) : option bytes :=
  match s with
  | [] => None
  | _ =>
      match find_byte x0a s with
      | Some i => let l := take i s in Some (if ends_with [x0d] l then take (length l - 1) l else l)
      | None => Some s
      end
  end.

Definition parse_status_code (response : bytes) (limits : HttpConnectLimits) : outcome HttpError Z :=
  let? first_line := ok_or (MalformedResponse "empty response") (first_line response) in
  if max_status_line limits <? length first_line then Err (MalformedResponse "status line too long") else
  status_of_words (split_whitespace first_line).
End connect.

(** ** The server alone *)

Definition connect_head_end (h : bytes) : bool := (4 <=? length h) && ends_with CRLF2 h.

Lemma connect_step_stop h st o : connect_step h st = Ok o -> (o = None <-> connect_head_end h = true).
Proof.
  unfold connect_step, connect_head_end. destruct (4 <=? length h); cbn [andb]; [|by intros [= <-]].
  destruct (ends_with CRLF2 h); [by intros [= <-]|]. destruct (ends_with CRLF h); [|by intros [= <-]].
  destruct st as [saw count]. destruct (_ <=? _); [done|]. by intros [= <-].
Qed.

(** The bytes up to the first empty line. *)
Definition first_head (h : bytes) : Prop :=
  connect_head_end h = true /\ forall k, k < length h -> connect_head_end (take k h) = false.

Section server.
Context {HL : ConnectLib}.

Lemma read_connect_request_ok c r c' : read_connect_request c = (Ok r, c') ->
  exists head, io head [] c c' /\ first_head head /\ length head <= CONNECT_MAX_HEAD_SIZE /\ parse_connect_head head = Ok r.
Proof.
  unfold read_connect_request, read_head. intros (head & c1 & H & Hp)%mbind_ok. injection Hp as Hp ->.
  apply (head_loop_ok _ _ _ _ connect_head_end connect_step_stop) in H as (l & -> & _ & Hio & Hl & Hs & Hmin).
  exists l. cbn [app] in *. split; [done|]. split; [|done]. split; [done|]. intros [|k] Hk; [done|]. apply Hmin. cbn. lia.
Qed.

Lemma credentials_match_spec given valid : credentials_match given valid = true <-> given = valid.
Proof.
  unfold credentials_match. destruct given as [u p], valid as [u' p']. cbn [fst snd].
  do 2 case_bool_decide; cbn; naive_solver.
Qed.

Lemma refuse_connect_not_ok c u c' : refuse_connect c = (Ok u, c') -> False.
Proof. unfold refuse_connect. by intros (? & ? & _ & H)%mbind_ok. Qed.

(** A CONNECT proxy that requires authentication opens a tunnel only for a
    request that carries exactly the configured credentials; then it has read the
    request head and nothing behind it (what follows belongs to the tunnel), and
    answered with exactly the success line. *)
Theorem connect_auth_sound valid c r c' :
  handle_connect true valid c = (Ok r, c') ->
  exists head creds, valid = Some creds /\ proxy_auth r = Some creds /\ io head ESTABLISHED c c' /\
    first_head head /\ length head <= CONNECT_MAX_HEAD_SIZE /\ parse_connect_head head = Ok r.
Proof.
  unfold handle_connect. intros (r1 & c1 & Hr & H)%mbind_ok.
  apply read_connect_request_ok in Hr as (head & Hio & Hh & Hl & Hp).
  apply mbind_ok in H as (u & c2 & Ha & H).
  assert (exists creds, valid = Some creds /\ proxy_auth r1 = Some creds /\ c2 = c1) as (creds & Hv & Hpa & ->).
  { destruct (proxy_auth r1) as [given|]; [|by apply refuse_connect_not_ok in Ha].
    destruct valid as [v|]; [|by apply refuse_connect_not_ok in Ha].
    destruct (credentials_match given v) eqn:Hm; cbn [negb] in Ha; [|by apply refuse_connect_not_ok in Ha].
    apply credentials_match_spec in Hm as ->. injection Ha as _ <-. by exists v. }
  apply mbind_ok in H as (u2 & c3 & Hw & H). apply write_all_io in Hw.
  apply mbind_ok in H as (u3 & c4 & Hf & H). injection Hf as _ <-. injection H as <- <-.
  exists head, creds. split_and!; try done. pose proof (io_trans _ _ _ _ _ _ _ Hio Hw) as Ht.
  by rewrite app_nil_r in Ht.
Qed.

(** ** What a serialized request looks like *)

(** Documented behaviour of the third-party code: base64 is inverted by its decoder
    and uses its standard alphabet; an authority is [host:port] with brackets around
    a host that has a colon; the serialized request has the request line, [Host] and,
    when given, [Proxy-Authorization]. *)
Definition connect_lines (authority : bytes) (auth : option bytes) : list bytes :=
  [str "CONNECT" ++ [x20] ++ authority ++ [x20] ++ str "HTTP/1.1"; str "Host: " ++ authority] ++
  match auth with Some v => [str "Proxy-Authorization: " ++ v] | None => [] end.

Definition render_authority (h : bytes) (p : Z) : bytes :=
  (if contains_byte x3a h then [x5b] ++ h ++ [x5d] else h) ++ x3a :: to_dec p.
End server.

Class ConnectLaws {HL : ConnectLib} : Prop := {
  b64_roundtrip : forall s, b64_decode (b64_encode s) = Some s;
  b64_nonempty : forall s, s <> [] -> b64_encode s <> [];
  b64_alphabet : forall s, Forall (fun b => byte_in 0x2b 0x7a b = true) (b64_encode s);
  ct_new_authority : forall h p t, ct_new h p = Some t -> ct_authority t = render_authority h p;
  encode_form : forall t auth max req, encode_connect_request t auth max = Ok req ->
    req = head_text (connect_lines (ct_authority t) auth)
}.

(** ** The authority is read back *)

(** A target that can be named in a request line. *)
Definition connect_host (h : TargetHost) : Prop :=
  match h with
  | Ip ip => ip_wf ip
  | DomainName d => utf8_valid d = true /\ solid d /\ head d <> Some x5b
  end.

Lemma str_from_end l i s : i = length l -> Forall (fun b => b2Z b < 128)%Z s -> str_from (l ++ s) i = Some s.
Proof.
  intros -> Hs. unfold str_from. rewrite length_app, (proj2 (Nat.leb_le _ _)) by lia.
  rewrite lookup_app_r, Nat.sub_diag, drop_app_length by lia. destruct Hs as [|b s Hb _]; [done|]. cbn [lookup list_lookup].
  unfold utf8_cont, byte_in. by rewrite (proj2 (Z.leb_gt _ (b2Z b))) by lia.
Qed.

Lemma to_dec_ascii p : Forall (fun b => b2Z b < 128)%Z (to_dec p).
Proof.
  eapply Forall_impl; [apply to_dec_digits|]. intros b [d Hd]. revert Hd. unfold to_digit, byte_in.
  split_leb; simpl; try (by intros [=]); lia.
Qed.

(** Any host text without a closing bracket, port and all. *)
Lemma parse_rendered h p : head h <> Some x5b -> h <> [] -> is_u16 p ->
  (contains_byte x3a h = true -> x5d ∉ h /\ is_Some (parse_ip h)) ->
  parse_authority (render_authority h p) =
  Ok {| host := match parse_ip h with Some ip => Ip ip | None => DomainName h end; tport := p |}.
Proof.
  intros Hh Hne Hp Hip. unfold parse_authority, render_authority, authority_port.
  assert (x3a ∉ to_dec p) as Hd by by apply to_dec_not_in.
  destruct (contains_byte x3a h) eqn:Hc.
  - destruct (Hip eq_refl) as [Hb [ip Eip]]. rewrite Eip. cbn [app starts_with]. rewrite byte_eqb_refl. cbn [andb].
    rewrite <- app_assoc. cbn [app]. cbn [find_byte]. change (x5b =b x5d) with false. cbv iota.
    rewrite find_byte_app by done. cbn [fmap option_fmap option_map ok_or obind].
    rewrite (slice_app_mid [x5b] h (x5d :: x3a :: to_dec p)) by (cbn [length]; lia). cbn [obind ok_or].
    replace (x5b :: h ++ x5d :: x3a :: to_dec p) with ((x5b :: h ++ [x5d; x3a]) ++ to_dec p)
      by (cbn [app]; by rewrite <- app_assoc).
    rewrite str_from_end; [|cbn [length]; rewrite length_app; cbn [length]; lia|apply to_dec_ascii]. cbn [obind ok_or].
    rewrite lookup_app_l by (cbn [length]; rewrite length_app; cbn [length]; lia).
    replace (x5b :: h ++ [x5d; x3a]) with ((x5b :: h ++ [x5d]) ++ [x3a]) by (cbn [app]; by rewrite <- app_assoc).
    rewrite list_lookup_middle by (cbn [length]; rewrite length_app; cbn [length]; lia).
    rewrite byte_eqb_refl, Eip. cbn [negb ok_or obind]. by rewrite parse_u16_to_dec.
  - assert (starts_with [x5b] (h ++ x3a :: to_dec p) = false) as ->.
    { destruct h as [|b h]; [done|]. cbn [app starts_with]. rewrite (proj2 (byte_eqb_false x5b b)); [done|].
      intros <-. by apply Hh. }
    assert (rfind_byte x3a (h ++ x3a :: to_dec p) = Some (length h)) as ->.
    { pose proof (rsplit_once_app x3a h (to_dec p) Hd) as Hs. unfold rsplit_once in Hs.
      destruct (rfind_byte x3a (h ++ x3a :: to_dec p)) as [i|] eqn:Ei; [|done]. injection Hs as Ht _.
      apply (f_equal length) in Ht. rewrite length_take, length_app in Ht. cbn [length] in Ht.
      f_equal. apply rfind_byte_Some in Ei as [E _]. apply (f_equal length) in E.
      rewrite !length_app, length_take, !length_app in E. cbn [length] in E. lia. }
    rewrite take_app_length. replace (drop (length h + 1) (h ++ x3a :: to_dec p)) with (to_dec p).
    2: { rewrite <- drop_drop, drop_app_length. done. }
    rewrite parse_u16_to_dec by done. cbn [ok_or obind]. destruct (parse_ip h); [done|]. by rewrite bool_decide_false.
Qed.

(** ** The request is read back *)

Lemma fmt_ip_plain ip : Forall plain (fmt_ip ip).
Proof.
  apply Forall_forall. intros b Hb. apply plain_printable. destruct (byte_in 0x21 0x7e b) eqn:E; [done|exfalso].
  revert Hb. apply fmt_ip_not_in; destruct b; by vm_compute in E |- *.
Qed.

Lemma to_dec_plain p : Forall plain (to_dec p).
Proof.
  eapply Forall_impl; [apply to_dec_digits|]. intros b [d Hd]. apply plain_printable. by destruct b.
Qed.

Section roundtrip.
Context {HL : ConnectLib} {HLaws : ConnectLaws}.

Definition host_text (h : TargetHost) : bytes := match h with Ip ip => fmt_ip ip | DomainName d => d end.

Lemma host_text_ok h : connect_host h -> solid (host_text h) /\ utf8_valid (host_text h) = true /\ head (host_text h) <> Some x5b.
Proof using Type.
  destruct h as [ip|d]; [|by intros (? & ? & ?)]. intros _. cbn [host_text]. split_and!.
  - apply solid_of_plain, fmt_ip_plain.
  - apply ascii_utf8, fmt_ip_ascii.
  - intros H%head_Some_elem_of. by apply fmt_ip_no_open_bracket in H.
Qed.

(** What the client accepts as a target: the authority it writes. *)
Lemma connect_target_ok t ct : connect_target t = Ok ct -> connect_host (host t) ->
  ct_authority ct = render_authority (host_text (host t)) (tport t) /\ host_text (host t) <> [] /\
  (contains_byte x3a (host_text (host t)) = true -> x5d ∉ host_text (host t) /\ is_Some (parse_ip (host_text (host t)))).
Proof.
  unfold connect_target. destruct (host t) as [ip|d]; cbn [host_text connect_host].
  - intros H Hw. destruct (ct_new _ _) eqn:E; [|done]. injection H as <-. split_and!.
    + by apply ct_new_authority.
    + intros E0. pose proof (parse_fmt_ip ip Hw) as Hp. by rewrite E0 in Hp.
    + intros _. split; [by apply fmt_ip_not_in|]. rewrite parse_fmt_ip by done. by eexists.
  - intros H _. case_bool_decide; [done|]. guard_in H; [done|]. guard_in H; [done|]. bool_to_prop.
    destruct (ct_new _ _) eqn:E; [|done]. injection H as <-. split; [by apply ct_new_authority|]. split; [done|congruence].
Qed.

Lemma authority_ok h p : connect_host h -> 
  solid (render_authority (host_text h) p) /\ utf8_valid (render_authority (host_text h) p) = true.
Proof using Type.
  intros (Hs & Hu & Hb)%host_text_ok. unfold render_authority. rewrite cons_middle.
  assert (Forall plain ([x3a] ++ to_dec p)) as Hp.
  { apply Forall_app_2; [|apply to_dec_plain]. by repeat constructor; apply plain_printable. }
  assert (utf8_valid ([x3a] ++ to_dec p) = true) as Hpu.
  { apply ascii_utf8. eapply Forall_impl; [exact Hp|]. by intros b []. }
  destruct (contains_byte x3a (host_text h)); [|split; [by apply solid_plain|by apply utf8_valid_app]].
  rewrite <- !app_assoc. split.
  - apply solid_cons; [by apply plain_printable|]. apply solid_plain; [done|].
    apply Forall_app_2; [|done]. by repeat constructor; apply plain_printable.
  - apply utf8_valid_app; [done|]. apply utf8_valid_app; [done|]. by apply utf8_valid_app.
Qed.

Definition basic_value (user pass : bytes) : bytes := str "Basic " ++ b64_encode (user ++ [x3a] ++ pass).

Lemma basic_value_plain user pass : exists m c, basic_value user pass = x42 :: m ++ [c] /\ plain c.
Proof.
  unfold basic_value. pose proof (b64_nonempty (user ++ [x3a] ++ pass)) as Hne.
  pose proof (b64_alphabet (user ++ [x3a] ++ pass)) as Ha.
  destruct (b64_encode (user ++ [x3a] ++ pass)) as [|c l _] using rev_ind; [exfalso; apply Hne; [by destruct user|done]|].
  exists (str "asic " ++ l), c. split; [by rewrite <- app_assoc|]. apply Forall_app in Ha as [_ [Ha _]%Forall_cons].
  apply plain_printable. revert Ha. unfold byte_in. intros Ha. bool_to_prop. by rewrite !(proj2 (Z.leb_le _ _)) by lia.
Qed.

Lemma trim_basic_value user pass : trim (basic_value user pass) = basic_value user pass.
Proof.
  destruct (basic_value_plain user pass) as (m & c & -> & Hc). apply trim_id, trimmed_ends; [|done].
  by apply plain_printable.
Qed.

Lemma parse_basic_value user pass : utf8_valid user = true -> utf8_valid pass = true -> x3a ∉ user ->
  parse_basic_auth (basic_value user pass) = Some (user, pass).
Proof.
  intros Hu Hp Hc. unfold parse_basic_auth. rewrite trim_basic_value. unfold basic_value.
  rewrite (proj2 (starts_with_spec _ _)) by (by eexists). cbn [negb].
  change (drop 6 (str "Basic " ++ b64_encode (user ++ [x3a] ++ pass))) with (b64_encode (user ++ [x3a] ++ pass)).
  rewrite b64_roundtrip.
  rewrite utf8_valid_app by (done || by apply utf8_valid_app). cbn [negb app]. rewrite find_byte_app by done. cbn [fmap option_fmap option_map].
  rewrite take_app_length, <- drop_drop, drop_app_length. done.
Qed.

Lemma auth_line user pass : utf8_valid user = true -> utf8_valid pass = true -> x3a ∉ user ->
  connect_header_line (str "Proxy-Authorization: " ++ basic_value user pass) =
  Some (str "Proxy-Authorization", basic_value user pass).
Proof.
  intros Hu Hp Hc. unfold connect_header_line.
  change (str "Proxy-Authorization: " ++ basic_value user pass)
    with (str "Proxy-Authorization" ++ x3a :: x20 :: basic_value user pass).
  rewrite find_byte_app by (by apply (bool_decide_unpack _)). cbn [fmap option_fmap option_map].
  rewrite take_app_length, <- drop_drop, drop_app_length. cbn [drop]. by rewrite trim_space, trim_basic_value.
Qed.

Lemma host_line a : exists v, connect_header_line (str "Host: " ++ a) = Some (str "Host", v).
Proof using Type.
  unfold connect_header_line. change (str "Host: " ++ a) with (str "Host" ++ x3a :: x20 :: a).
  rewrite find_byte_app by (by apply (bool_decide_unpack _)). cbn [fmap option_fmap option_map].
  rewrite take_app_length. by eexists.
Qed.
End roundtrip.

(** ** Reading a head made of lines *)

Lemma head_text_ends ls : ls <> [] -> exists p, head_text ls = p ++ CRLF2.
Proof.
  induction ls as [|l [|l' ls] IH]; intros Hne; [done| |].
  - exists l. by rewrite head_text_cons.
  - destruct IH as [p Hp]; [done|]. exists (l ++ CRLF ++ p). by rewrite head_text_cons, Hp, <- !app_assoc.
Qed.

Lemma head_text_first ls : Forall (fun l => x0d ∉ l /\ l <> []) ls -> ls <> [] -> first_head (head_text ls).
Proof.
  intros Hls Hne. split; unfold connect_head_end.
  - destruct (head_text_ends ls Hne) as [p ->]. rewrite length_app, (proj2 (Nat.leb_le _ _)) by (cbn; lia).
    apply ends_with_spec. by exists p.
  - intros k Hk. destruct (4 <=? _); [|done]. cbn [andb]. apply not_true_is_false. intros [p Hp]%ends_with_spec.
    assert (drop k (head_text ls) = []) as Hd.
    { apply (head_text_no_gap ls p _ Hls). by rewrite app_assoc, <- Hp, take_drop. }
    apply (f_equal length) in Hd. rewrite length_drop in Hd. cbn in Hd. lia.
Qed.

(** The header count never exceeds the line feeds read. *)
Lemma connect_step_go h b st : connect_head_end (h ++ [b]) = false ->
  count_byte x0a (h ++ [b]) < CONNECT_MAX_HEADER_LINES -> st.2 <= count_byte x0a h ->
  exists st', connect_step (h ++ [b]) st = Ok (Some st') /\ st'.2 <= count_byte x0a (h ++ [b]).
Proof.
  unfold connect_head_end, connect_step. intros Hend Hc Hst. rewrite count_byte_app in *.
  destruct (4 <=? length (h ++ [b])); cbn [andb] in Hend; [|exists st; split; [done|lia]]. rewrite Hend.
  destruct (ends_with CRLF (h ++ [b])) eqn:Ee; [|exists st; split; [done|lia]].
  apply ends_with_spec in Ee as [p Ep]. change CRLF with ([x0d] ++ [x0a]) in Ep. rewrite app_assoc in Ep.
  apply app_inj_tail in Ep as [_ ->]. change (count_byte x0a [x0a]) with 1 in *. destruct st as [saw n]. cbn [snd] in Hst.
  assert (forall m, m <= S n -> (CONNECT_MAX_HEADER_LINES <=? m) = false) as Hm.
  { intros m Hm. apply Nat.leb_gt. lia. }
  destruct saw; cbn [snd]; rewrite Hm by lia; eexists; (split; [done|]); cbn [snd]; lia.
Qed.

Section exchange.
Context {HL : ConnectLib} {HLaws : ConnectLaws}.

Lemma read_connect_lines ls rest e o q :
  Forall (fun l => x0d ∉ l /\ l <> []) ls -> ls <> [] -> length (head_text ls) <= CONNECT_MAX_HEAD_SIZE ->
  count_byte x0a (head_text ls) < CONNECT_MAX_HEADER_LINES ->
  read_connect_request (Conn (head_text ls ++ rest) e o q) = (parse_connect_head (head_text ls), Conn rest e o q).
Proof using Type.
  intros Hls Hne Hl Hc. destruct (head_text_first ls Hls Hne) as [He Hmin]. unfold read_connect_request, read_head.
  erewrite mbind_fwd; [done|].
  apply (head_loop_fwd _ _ _ _ (fun h st => st.2 <= count_byte x0a h) (head_text ls)).
  - lia.
  - done.
  - intros E. rewrite E in He. done.
  - done.
  - intros l1 b l2 st E Hl2 Hi. cbn [app] in *. apply connect_step_go; [| |done].
    + specialize (Hmin (length (l1 ++ [b]))). rewrite E, (cons_middle b l1 l2), app_assoc in Hmin.
      rewrite take_app_length in Hmin. apply Hmin. rewrite !length_app. destruct l2; [done|]. cbn [length]. lia.
    + rewrite E, (cons_middle b l1 l2), app_assoc, count_byte_app in Hc. lia.
  - intros st. cbn [app]. unfold connect_step. unfold connect_head_end in He. apply andb_prop in He as [-> ->]. done.
Qed.

Lemma read_status_lines ls limits status rest e o q :
  Forall (fun l => x0d ∉ l /\ l <> []) ls -> ls <> [] -> length (head_text ls) <= max_headers_bytes limits ->
  parse_response_status limits (head_text ls) = Ok status ->
  read_response_status limits (Conn (head_text ls ++ rest) e o q) = (Ok status, Conn rest e o q).
Proof using Type.
  intros Hls Hne Hl Hp. destruct (head_text_first ls Hls Hne) as [He Hmin]. unfold read_response_status, read_head.
  erewrite mbind_fwd; [unfold mlift; by rewrite Hp|].
  apply (head_loop_fwd _ _ _ _ (fun _ _ => True) (head_text ls)).
  - lia.
  - done.
  - intros E. rewrite E in He. done.
  - done.
  - intros l1 b l2 st E Hl2 _. cbn [app] in *. exists tt. split; [|done]. unfold status_step.
    specialize (Hmin (length (l1 ++ [b]))). rewrite E, (cons_middle b l1 l2), app_assoc in Hmin.
    rewrite take_app_length in Hmin. unfold connect_head_end in Hmin. rewrite Hmin; [done|].
    rewrite !length_app. destruct l2; [done|]. cbn [length]. lia.
  - intros st. cbn [app]. unfold status_step. unfold connect_head_end in He. by rewrite He.
Qed.

(** ** Client and server *)

Lemma basic_value_clean user pass : x0d ∉ basic_value user pass /\ x0a ∉ basic_value user pass /\
  utf8_valid (basic_value user pass) = true.
Proof.
  unfold basic_value. pose proof (b64_alphabet (user ++ [x3a] ++ pass)) as Ha.
  assert (forall b, byte_in 0x2b 0x7a b = false -> b ∉ b64_encode (user ++ [x3a] ++ pass)) as Hn.
  { intros b Hb Hin. rewrite Forall_forall in Ha. apply Ha in Hin. congruence. }
  pose proof (Hn x0d eq_refl). pose proof (Hn x0a eq_refl).
  change (str "Basic ") with [x42; x61; x73; x69; x63; x20]. split_and!; [set_solver..|].
  apply utf8_valid_app; [done|]. apply ascii_utf8. eapply Forall_impl; [exact Ha|].
  intros b Hb. unfold byte_in in Hb. bool_to_prop. lia.
Qed.

(** The value of the header for optional credentials. *)
Definition auth_value (auth : option (bytes * bytes)) : option bytes := (fun a => basic_value a.1 a.2) <$> auth.

Section request.
Variables (t : TargetAddr) (auth : option (bytes * bytes)).
Hypothesis host_ok : connect_host (host t).
Hypothesis port_ok : is_u16 (tport t).
Hypothesis auth_ok : match auth with
  | Some (user, pass) => utf8_valid user = true /\ utf8_valid pass = true /\ x3a ∉ user
  | None => True
  end.
Hypothesis text_ok : host_text (host t) <> [].
Hypothesis colon_ok : contains_byte x3a (host_text (host t)) = true ->
  x5d ∉ host_text (host t) /\ is_Some (parse_ip (host_text (host t))).

Abbreviation authority := (render_authority (host_text (host t)) (tport t)).
Abbreviation lines := (connect_lines authority (auth_value auth)).

Lemma authority_clean : x0d ∉ authority /\ x0a ∉ authority.
Proof using host_ok.
  destruct (authority_ok (host t) (tport t) host_ok) as [Hs _].
  split; apply (solid_clean _ _ Hs); by apply (bool_decide_unpack _).
Qed.

Lemma lines_ok : Forall (fun l => x0d ∉ l /\ l <> []) lines.
Proof using host_ok HLaws.
  clear -HLaws host_ok.
  destruct authority_clean as [Ha _].
  unfold connect_lines. change (str "CONNECT") with [x43; x4f; x4e; x4e; x45; x43; x54].
  change (str "HTTP/1.1") with [x48; x54; x54; x50; x2f; x31; x2e; x31]. change (str "Host: ") with [x48; x6f; x73; x74; x3a; x20].
  change (str "Proxy-Authorization: ") with (x50 :: str "roxy-Authorization: ").
  assert (x0d ∉ str "roxy-Authorization: ") by (by apply (bool_decide_unpack _)).
  destruct auth as [[user pass]|]; cbn [auth_value fmap option_fmap option_map]; [destruct (basic_value_clean user pass) as [Hb _]|];
  repeat (apply List.Forall_cons; [split; [set_solver|done]|]); apply List.Forall_nil.
Qed.

Lemma lines_count : count_byte x0a (head_text lines) <= 4.
Proof using host_ok HLaws.
  clear -HLaws host_ok.
  destruct authority_clean as [_ Ha].
  assert (x0a ∉ x20 :: authority ++ x20 :: str "HTTP/1.1") as Hr.
  { change (str "HTTP/1.1") with [x48; x54; x54; x50; x2f; x31; x2e; x31]. set_solver. }
  unfold connect_lines. destruct auth as [[user pass]|]; cbn [auth_value fmap option_fmap option_map app];
    rewrite !head_text_cons, !count_byte_app; change (count_byte x0a (head_text [])) with 1;
    change (count_byte x0a CRLF) with 1; rewrite (proj2 (count_byte_0 _ _) Hr), (proj2 (count_byte_0 x0a authority)) by done.
  - destruct (basic_value_clean user pass) as (_ & Hb & _).
    rewrite (proj2 (count_byte_0 x0a (basic_value user pass))) by done. by apply Nat.leb_le.
  - by apply Nat.leb_le.
Qed.

Lemma head_utf8 : utf8_valid (head_text lines) = true.
Proof using host_ok HLaws.
  clear -HLaws host_ok.
  destruct (authority_ok (host t) (tport t) host_ok) as [_ Ha].
  unfold connect_lines. destruct auth as [[user pass]|]; cbn [auth_value fmap option_fmap option_map app]; rewrite !head_text_cons;
    [destruct (basic_value_clean user pass) as (_ & _ & Hb)|]; repeat (apply utf8_valid_app; try done).
Qed.

Lemma parse_lines : parse_connect_head (head_text lines) =
  Ok {| target := normalized t; proxy_auth := auth |}.
Proof using All.
  unfold parse_connect_head. rewrite from_utf8_lossy_valid by apply head_utf8.
  rewrite split_crlf_lines by (eapply Forall_impl; [apply lines_ok|by intros l []]).
  unfold connect_lines. cbn [app].
  destruct (authority_ok (host t) (tport t) host_ok) as [Hs _].
  assert (solid (str "CONNECT") /\ solid (str "HTTP/1.1")) as [Hm Hv].
  { split; apply solid_of_plain; repeat constructor; by apply plain_printable. }
  assert (authority <> []) as Hne by (unfold render_authority; by destruct (contains_byte _ _), (host_text (host t))).
  pose proof (split_whitespace_3 (str "CONNECT") authority (str "HTTP/1.1") Hm ltac:(done) Hs Hne Hv ltac:(done)) as Hsp.
  cbn [app] in Hsp. rewrite Hsp.
  rewrite !bool_decide_true by done. cbn [negb andb].
  rewrite parse_rendered; [|by apply host_text_ok|done|done|done]. cbn [obind]. f_equal. f_equal.
  - unfold normalized. destruct t as [[ip|d] p]; cbn [host tport host_text] in *; [|done]. by rewrite parse_fmt_ip.
  - destruct (host_line authority) as [v Hhl].
    destruct auth as [[user pass]|]; cbn [auth_value fmap option_fmap option_map app connect_auth]; rewrite Hhl; [|done].
    destruct auth_ok as (Hu & Hp & Hc). rewrite auth_line by done.
    change (eq_ignore_ascii_case (str "Host") (str "Proxy-Authorization")) with false.
    change (eq_ignore_ascii_case (str "Proxy-Authorization") (str "Proxy-Authorization")) with true.
    rewrite parse_basic_value by done. done.
Qed.
End request.
End exchange.

(** The answers on the wire. *)
Definition ESTABLISHED_LINES : list bytes := [str "HTTP/1.1 200 Connection Established"].
Definition REFUSED_LINES : list bytes :=
  [str "HTTP/1.1 407 Proxy Authentication Required"; str "Content-Length: 0"; str "Connection: close"].

Lemma answer_lines_ok ls : ls = ESTABLISHED_LINES \/ ls = REFUSED_LINES ->
  Forall (fun l => x0d ∉ l /\ l <> []) ls /\ ls <> [].
Proof.
  intros [->| ->]; (split; [|done]);
    repeat (apply List.Forall_cons; [split; [by apply (bool_decide_unpack _)|done]|]); apply List.Forall_nil.
Qed.

Section client_server.
Context {HL : ConnectLib} {HLaws : ConnectLaws}.

Lemma http_connect_answer t ct auth req ls status down e o :
  connect_target t = Ok ct -> build_connect_request ct auth = Ok req ->
  ls = ESTABLISHED_LINES \/ ls = REFUSED_LINES ->
  parse_response_status HttpConnectLimits_default (head_text ls) = Ok status ->
  http_connect t auth HttpConnectLimits_default (Conn (head_text ls ++ down) e o None) =
  (connect_outcome status, Conn down e (o ++ req) None).
Proof using Type.
  intros Ht Hb Hls Hp. unfold http_connect. rewrite Ht. erewrite mbind_fwd by reflexivity.
  rewrite Hb. erewrite mbind_fwd by reflexivity. erewrite mbind_fwd by reflexivity.
  erewrite mbind_fwd by reflexivity. destruct (answer_lines_ok ls Hls) as [Hok Hne].
  erewrite mbind_fwd; [reflexivity|]. apply read_status_lines; [done|done| |done].
  destruct Hls as [->| ->]; apply Nat.leb_le; by vm_compute.
Qed.

Lemma refuse_connect_fwd i e o :
  refuse_connect (Conn i e o None) = (Err AuthRequired, Conn i e (o ++ head_text REFUSED_LINES) None).
Proof using Type. reflexivity. Qed.

(** With credentials or without, the server reads back what the client wrote. *)
Lemma read_client_request t auth ct req :
  connect_host (host t) -> is_u16 (tport t) ->
  match auth with
  | Some (user, pass) => utf8_valid user = true /\ utf8_valid pass = true /\ x3a ∉ user
  | None => True
  end ->
  connect_target t = Ok ct -> build_connect_request ct auth = Ok req -> length req <= CONNECT_MAX_HEAD_SIZE ->
  forall tail e o, read_connect_request (Conn (req ++ tail) e o None) =
    (Ok {| target := normalized t; proxy_auth := auth |}, Conn tail e o None).
Proof.
  intros Hh Hp Hauth Ht Hb Hl tail e o. pose proof (connect_target_ok t ct Ht Hh) as (Ha & Hne & Hcol).
  assert (req = head_text (connect_lines (ct_authority ct) (auth_value auth))) as Hreq.
  { unfold build_connect_request in Hb. apply obind_ok in Hb as (_ & _ & Hb). cbv zeta in Hb.
    destruct (encode_connect_request ct _ _) eqn:E; [|done|done]. injection Hb as <-. by apply encode_form in E. }
  rewrite Ha in Hreq. subst req. rewrite read_connect_lines, (parse_lines t auth); try done.
  - by apply lines_ok.
  - pose proof (lines_count t auth Hh). unfold CONNECT_MAX_HEADER_LINES. lia.
Qed.

(** The CONNECT client and the CONNECT server understand each other.  For every
    target the client accepts, without credentials or with any that have no colon in
    the user name, the server reads the client's request as this target (a domain
    that is an IP literal becomes the address) with these credentials, takes nothing
    of what follows, and answers 200 when it asks for none or they are the configured
    ones, which opens the tunnel at the client, and 407 otherwise, which the client
    reports as a refused authentication. *)
Theorem connect_client_server t auth ct req :
  connect_host (host t) -> is_u16 (tport t) ->
  match auth with
  | Some (user, pass) => utf8_valid user = true /\ utf8_valid pass = true /\ x3a ∉ user
  | None => True
  end ->
  connect_target t = Ok ct -> build_connect_request ct auth = Ok req ->
  length req <= CONNECT_MAX_HEAD_SIZE ->
  (forall require valid tail e o, require = false \/ is_Some auth /\ valid = auth ->
     handle_connect require valid (Conn (req ++ tail) e o None) =
     (Ok {| target := normalized t; proxy_auth := auth |}, Conn tail e (o ++ ESTABLISHED) None)) /\
  (forall down e o, http_connect t auth HttpConnectLimits_default (Conn (ESTABLISHED ++ down) e o None) =
     (Ok tt, Conn down e (o ++ req) None)) /\
  (forall valid tail e o, auth = None \/ valid <> auth ->
     handle_connect true valid (Conn (req ++ tail) e o None) =
     (Err AuthRequired, Conn tail e (o ++ head_text REFUSED_LINES) None)) /\
  (forall down e o, http_connect t auth HttpConnectLimits_default
       (Conn (head_text REFUSED_LINES ++ down) e o None) = (Err AuthRequired, Conn down e (o ++ req) None)).
Proof.
  intros Hh Hp Hauth Ht Hb Hl. pose proof (read_client_request t auth ct req Hh Hp Hauth Ht Hb Hl) as Hread.
  split_and!.
  - intros require valid tail e o Hr. unfold handle_connect. erewrite mbind_fwd by apply Hread. cbn [proxy_auth].
    destruct require; [|reflexivity]. destruct Hr as [?|[[a ->] ->]]; [done|].
    rewrite (proj2 (credentials_match_spec _ _)) by done. reflexivity.
  - intros down e o. apply (http_connect_answer t ct _ req ESTABLISHED_LINES 200); [done|done|by left|by vm_compute].
  - intros valid tail e o Hv. unfold handle_connect. erewrite mbind_fwd by apply Hread. cbn [proxy_auth].
    destruct auth as [a|]; [|by erewrite mbind_fwd_err by apply refuse_connect_fwd].
    destruct valid as [v|]; [|by erewrite mbind_fwd_err by apply refuse_connect_fwd].
    destruct (credentials_match a v) eqn:Em; [apply credentials_match_spec in Em as <-; by destruct Hv|].
    cbn [negb]. by erewrite mbind_fwd_err by apply refuse_connect_fwd.
  - intros down e o. apply (http_connect_answer t ct _ req REFUSED_LINES 407); [done|done|by right|by vm_compute].
Qed.
End client_server.

(** ** A sample of the third-party code *)

Module SampleConnect.
(** Two characters of the alphabet for a byte, which is enough for the laws. *)
Fixpoint enc (s : bytes) : bytes :=
  match s with [] => [] | b :: r => Z2b (0x41 + b2Z b / 16) :: Z2b (0x41 + b2Z b mod 16) :: enc r end.
Fixpoint dec (s : bytes) : option bytes :=
  match s with
  | [] => Some []
  | a :: b :: r => (fun t => Z2b ((b2Z a - 0x41) * 16 + (b2Z b - 0x41)) :: t) <$> dec r
  | _ => None
  end.

#[export] Instance lib : ConnectLib := {
  b64_encode := enc;
  b64_decode := dec;
  ConnectTarget := bytes * Z;
  ct_new h p := Some (h, p);
  ct_authority t := render_authority t.1 t.2;
  encode_connect_request t auth max := Ok (head_text (connect_lines (render_authority t.1 t.2) auth))
}.

#[export] Instance laws : ConnectLaws.
Proof.
  assert (forall b, byte_in 0x2b 0x7a (Z2b (0x41 + b2Z b / 16)) = true /\
    byte_in 0x2b 0x7a (Z2b (0x41 + b2Z b mod 16)) = true /\
    Z2b ((b2Z (Z2b (0x41 + b2Z b / 16)) - 0x41) * 16 + (b2Z (Z2b (0x41 + b2Z b mod 16)) - 0x41)) = b) as Hb
    by (intros []; by vm_compute).
  split.
  - intros s. cbn [b64_encode b64_decode lib]. induction s as [|b s IH]; [done|]. destruct (Hb b) as (_ & _ & Hd).
    cbn [enc dec]. rewrite IH. cbn [fmap option_fmap option_map]. by rewrite Hd.
  - intros [|b s] Hs; [done|]. done.
  - intros s. cbn [b64_encode lib]. induction s as [|b s IH]; [constructor|]. destruct (Hb b) as (H1 & H2 & _).
    cbn [enc]. by repeat constructor.
  - intros h p t [= <-]. done.
  - intros t auth max req [= <-]. done.
Qed.
End SampleConnect.
Import SampleConnect.

Definition demo_connect_target : TargetAddr := {| host := DomainName (str "example.com"); tport := 443 |}.

Definition demo_ct : ConnectTarget := (str "example.com", 443%Z).

Lemma connect_client_server_witness : exists req,
  build_connect_request demo_ct (Some (str "u", str "p")) = Ok req /\
  forall tail e o, handle_connect true (Some (str "u", str "p")) (Conn (req ++ tail) e o None) =
    (Ok {| target := demo_connect_target; proxy_auth := Some (str "u", str "p") |}, Conn tail e (o ++ ESTABLISHED) None).
Proof.
  destruct (build_connect_request demo_ct (Some (str "u", str "p"))) as [req| |] eqn:E;
    [|by vm_compute in E|by vm_compute in E].
  exists req. split; [done|].
  destruct (connect_client_server demo_connect_target (Some (str "u", str "p")) demo_ct req) as (H & _);
    [| | | |done| |intros; apply H; right; by split].
  - split; [done|]. split; [|done]. apply solid_of_plain. repeat constructor; by apply plain_printable.
  - by split.
  - split; [done|]. split; [done|]. by apply (bool_decide_unpack _).
  - done.
  - apply Nat.leb_le. vm_compute in E. injection E as <-. by vm_compute.
Defined.

Definition demo_connect : bytes := head_text
  [str "CONNECT [2001:db8::1]:8443 HTTP/1.1"; str "Proxy-Authorization: Basic HFDKHA"].

Lemma connect_auth_sound_witness : exists r c',
  handle_connect true (Some (str "u", str "p")) (Conn (demo_connect ++ str "data") None [] None) = (Ok r, c') /\
  c_in c' = str "data" /\ proxy_auth r = Some (str "u", str "p").
Proof.
  destruct (handle_connect true (Some (str "u", str "p")) (Conn (demo_connect ++ str "data") None [] None)) as [[r| |] c'] eqn:E;
    [|by vm_compute in E|by vm_compute in E].
  exists r, c'. split; [done|]. split.
  - clear -E. vm_compute in E. by injection E as <- <-.
  - destruct (connect_auth_sound _ _ _ _ E) as (head & creds & Hv & Hp & _). congruence.
Defined.

(** ** The limit on header lines *)

(** 127 header lines are accepted, 128 are not, although [MAX_HEADER_LINES] is 128
    and the forward proxy accepts 128. *)
Example connect_header_limit :
  let req n := head_text (str "CONNECT a:1 HTTP/1.1" :: repeat (str "X: y") n) in
  is_ok (read_connect_request (Conn (req 127) None [] None)).1 = true /\
  (read_connect_request (Conn (req 128) None [] None)).1 = Err TooManyHeaders.
Proof. split; by vm_compute. Qed.
