(* ===== verification/WebSocket.v ===== *)
(** * The WebSocket tunnel

    Models [crates/eggress-protocol-websocket/src/lib.rs]: the adapter that carries a
    byte stream in binary messages, and the authentication of an upgrade.  The
    WebSocket protocol itself (tungstenite) is third-party: what its stream yields
    and how its sink answers are scripts of the model, over which the theorems
    quantify. *)

From S2P Require Import Prelude Bytes Decimal Stream NetAddr HttpText.

(** ** The third-party stream and sink *)

Inductive Message :=
| Binary (data : bytes) | Text (data : bytes) | Ping (payload : bytes) | Pong (payload : bytes) | Close | Frame.

(** [poll_next] of the stream half. *)
Inductive next_answer := NextMsg (m : Message) | NextErr | NextEnd | NextPending.

(** [poll_flush] and [poll_close] of the sink half. *)
Inductive sink_answer := SinkReady | SinkErr | SinkPending.

Inductive WebSocketError :=
| WsHandshake | WsConnect | WsProtocol | MessageTooLarge (size max : nat) | WsIo (e : IoError).

(** A result of a poll: [Ok None] is [Poll::Pending]. *)
Abbreviation poll_result A := (outcome WebSocketError (option A)).

Record adapter := {
  incoming : list next_answer;      (* what the stream half still yields *)
  queued : list Message;            (* messages the sink half took, oldest first *)
  sends : list bool;                (* does the next [start_send] succeed; [true] when exhausted *)
  read_buf : bytes;
  max_message_size : nat;
  write_flush_outstanding : bool
}.

Definition DEFAULT_MAX_MESSAGE_SIZE : nat := Z.to_nat 8388608.

Definition adapter_new (l : list next_answer) (sends : list bool) (max : nat) : adapter :=
  {| incoming := l; queued := []; sends := sends; read_buf := []; max_message_size := max;
     write_flush_outstanding := false |}.

Definition set_incoming (l : list next_answer) (s : adapter) : adapter :=
  {| incoming := l; queued := queued s; sends := sends s; read_buf := read_buf s;
     max_message_size := max_message_size s; write_flush_outstanding := write_flush_outstanding s |}.
Definition set_read_buf (b : bytes) (s : adapter) : adapter :=
  {| incoming := incoming s; queued := queued s; sends := sends s; read_buf := b;
     max_message_size := max_message_size s; write_flush_outstanding := write_flush_outstanding s |}.
Definition set_outstanding (b : bool) (s : adapter) : adapter :=
  {| incoming := incoming s; queued := queued s; sends := sends s; read_buf := read_buf s;
     max_message_size := max_message_size s; write_flush_outstanding := b |}.

(** [write_half.start_send(m)]. *)
Definition start_send (m : Message) (s : adapter) : bool * adapter :=
  let ok := default true (head (sends s)) in
  (ok, {| incoming := incoming s; queued := if ok then queued s ++ [m] else queued s; sends := tail (sends s);
          read_buf := read_buf s; max_message_size := max_message_size s;
          write_flush_outstanding := write_flush_outstanding s |}).

(** ** Reading *)

(** The loop of [poll_read]: every turn takes one answer of the stream half. *)
Fixpoint next_loop (l : list next_answer) (cap : nat) (s : adapter) : poll_result bytes * adapter :=
  match l with
  | [] => (Ok None, set_incoming [] s)
  | a :: r =>
      match a with
      | NextMsg (Binary data) =>
          let s := set_incoming r s in
          if max_message_size s <? length data then (Err (MessageTooLarge (length data) (max_message_size s)), s)
          else if length data <=? cap then (Ok (Some data), s)
          else (Ok (Some (take cap data)), set_read_buf (read_buf s ++ drop cap data) s)
      | NextMsg Close => (Ok (Some []), set_incoming r s)
      | NextMsg (Ping payload) => next_loop r cap (start_send (Pong payload) s).2
      | NextMsg (Pong _) | NextMsg (Text _) | NextMsg Frame => next_loop r cap s
      | NextErr => (Err WsProtocol, set_incoming r s)
      | NextEnd => (Ok (Some []), set_incoming r s)
      | NextPending => (Ok None, set_incoming r s)
      end
  end.

(** [poll_read] into a buffer with room for [cap] bytes. *)
Definition ws_poll_read (cap : nat) (s : adapter) : poll_result bytes * adapter :=
  if negb (bool_decide (read_buf s = [])) then
    let to_copy := Nat.min (length (read_buf s)) cap in
    (Ok (Some (take to_copy (read_buf s))), set_read_buf (drop to_copy (read_buf s)) s)
  else next_loop (incoming s) cap s.

(** ** Writing *)

(** [gate] and [flush] are the answers of the two flushes of a call. *)
Definition ws_poll_write (gate flush : sink_answer) (buf : bytes) (s : adapter) : poll_result nat * adapter :=
  let send (s : adapter) :=
    let '(ok, s) := start_send (Binary buf) s in
    if negb ok then (Err WsProtocol, s) else
    let s := set_outstanding true s in
    match flush with
    | SinkReady => (Ok (Some (length buf)), set_outstanding false s)
    | SinkErr => (Err WsProtocol, s)
    | SinkPending => (Ok (Some (length buf)), s)
    end in
  if write_flush_outstanding s then
    match gate with
    | SinkReady => send (set_outstanding false s)
    | SinkErr => (Err WsProtocol, s)
    | SinkPending => (Ok None, s)
    end
  else send s.

Definition ws_poll_flush (a : sink_answer) (s : adapter) : poll_result unit * adapter :=
  match a with
  | SinkReady => (Ok (Some tt), set_outstanding false s)
  | SinkErr => (Err WsProtocol, s)
  | SinkPending => (Ok None, s)
  end.

(** [poll_close] of the sink. *)
Definition ws_poll_shutdown (a : sink_answer) (s : adapter) : poll_result unit * adapter :=
  match a with
  | SinkReady => (Ok (Some tt), set_outstanding false s)
  | SinkErr => (Err WsProtocol, s)
  | SinkPending => (Ok None, s)
  end.

(** ** Authentication of an upgrade *)

Section auth.
Variable b64_decode : bytes -> option bytes.

Definition has_forbidden (s : bytes) : bool :=
  existsb (fun b => (b =b x0d) || (b =b x0a) || (b =b x00) || (b =b x7f)) s.

Definition ws_basic_auth (value : bytes) : option (bytes * bytes) :=
  encoded ← strip_prefix (str "Basic ") (trim value);
  let encoded := trim encoded in
  if bool_decide (encoded = []) || (Z.to_nat 12288 <? length encoded) then None else
  decoded ← b64_decode encoded;
  if negb (utf8_valid decoded) then None else
  i ← find_byte x3a decoded;
  let user := take i decoded in
  let password := drop (S i) decoded in
  if has_forbidden user || has_forbidden password then None else
  if (Z.to_nat 4096 <? length user) || (Z.to_nat 4096 <? length password) then None else
  Some (user, password).

(** The callback of the handshake: the header value as text, when there is one.
    [None] refuses the upgrade; otherwise the user to report. *)
Definition upgrade_callback (expected : option (bytes * bytes)) (header : option bytes) : option (option bytes) :=
  match expected with
  | None => Some None
  | Some (expected_user, expected_password) =>
      match header with
      | None => None
      | Some header =>
          match ws_basic_auth header with
          | None => None
          | Some (user, password) =>
              if bool_decide (user = expected_user) && bool_decide (password = expected_password)
              then Some (Some user) else None
          end
      end
  end.

(** [handshake] is what tungstenite makes of the request when the callback lets it
    pass: the messages that follow, or a failure. *)
Definition accept_upgrade_with_auth_and_limit (handshake : option (list next_answer * list bool))
    (header : option bytes) (credentials : option (bytes * bytes)) (max : nat)
    : outcome WebSocketError (adapter * option bytes) :=
  match upgrade_callback credentials header, handshake with
  | Some user, Some (l, sends) => Ok (adapter_new l sends max, user)
  | _, _ => Err WsHandshake
  end.
End auth.

(** ** What a run of the adapter does *)

(** The bytes of the binary messages, the payloads of the pings. *)
Fixpoint payloads (l : list next_answer) : bytes :=
  match l with
  | [] => []
  | NextMsg (Binary d) :: r => d ++ payloads r
  | _ :: r => payloads r
  end.

Fixpoint pings (l : list next_answer) : list bytes :=
  match l with
  | [] => []
  | NextMsg (Ping p) :: r => p :: pings r
  | _ :: r => pings r
  end.

Definition data_of (m : Message) : option bytes := match m with Binary d => Some d | _ => None end.
Definition pong_of (m : Message) : option bytes := match m with Pong p => Some p | _ => None end.

(** A sequence of calls, none of them failing: [rd] was read, [wr] are the parts of
    the buffers that were accepted, and [unflushed] data messages were queued since
    the sink last was flushed. *)
Inductive ws_run : adapter -> bytes -> list bytes -> nat -> adapter -> Prop :=
| run_start s : ws_run s [] [] 0 s
| run_read s rd wr u s1 cap d s2 :
    ws_run s rd wr u s1 -> ws_poll_read cap s1 = (Ok d, s2) -> ws_run s (rd ++ default [] d) wr u s2
| run_write s rd wr u s1 gate flush buf n s2 :
    ws_run s rd wr u s1 -> ws_poll_write gate flush buf s1 = (Ok (Some n), s2) ->
    ws_run s rd (wr ++ [take n buf])
      (match flush with SinkReady => 0 | _ => S (if write_flush_outstanding s1 then 0 else u) end) s2
| run_write_pending s rd wr u s1 gate flush buf s2 :
    ws_run s rd wr u s1 -> ws_poll_write gate flush buf s1 = (Ok None, s2) -> ws_run s rd wr u s2
| run_flush s rd wr u s1 a r s2 :
    ws_run s rd wr u s1 -> ws_poll_flush a s1 = (Ok r, s2) ->
    ws_run s rd wr (match a with SinkReady => 0 | _ => u end) s2
| run_shutdown s rd wr u s1 a r s2 :
    ws_run s rd wr u s1 -> ws_poll_shutdown a s1 = (Ok r, s2) ->
    ws_run s rd wr (match a with SinkReady => 0 | _ => u end) s2.

Lemma payloads_app l r : payloads (l ++ r) = payloads l ++ payloads r.
Proof. induction l as [|[[]| | |] l IH]; cbn; [done|by rewrite IH, app_assoc|done..]. Qed.

Lemma pings_app l r : pings (l ++ r) = pings l ++ pings r.
Proof. induction l as [|[[]| | |] l IH]; cbn; [done|done|done|by rewrite IH|done..]. Qed.

(** One call of the read loop: it takes a part of the answers, delivers their
    bytes or keeps them in the buffer, and queues nothing but pongs. *)
Record read_step (s s' : adapter) (l : list next_answer) (out : bytes) : Prop := {
  rs_taken : exists taken, l = taken ++ incoming s' /\ out ++ read_buf s' = read_buf s ++ payloads taken /\
    (sends s = [] -> omap pong_of (queued s') = omap pong_of (queued s) ++ pings taken);
  rs_data : omap data_of (queued s') = omap data_of (queued s);
  rs_flag : write_flush_outstanding s' = write_flush_outstanding s;
  rs_sends : sends s = [] -> sends s' = []
}.

Lemma read_step_skip s s' l out a :
  payloads [a] = [] -> pings [a] = [] -> read_step s s' l out -> read_step s s' (a :: l) out.
Proof.
  intros Ha Hp [(t & -> & Ho & Hq) Hd Hf Hs]. split; [|done..]. exists (a :: t). split; [done|].
  change (a :: t) with ([a] ++ t). by rewrite payloads_app, pings_app, Ha, Hp.
Qed.

Lemma read_step_take s s' a r out :
  queued s' = queued s -> sends s' = sends s -> write_flush_outstanding s' = write_flush_outstanding s ->
  incoming s' = r -> pings [a] = [] -> out ++ read_buf s' = read_buf s ++ payloads [a] -> read_step s s' (a :: r) out.
Proof.
  intros Hq Hs Hf <- Hp Ho. split; [|by rewrite Hq|done|by rewrite Hs].
  exists [a]. split; [done|]. split; [done|]. intros _. by rewrite Hq, Hp, app_nil_r.
Qed.

Lemma next_loop_step l cap : forall s d s', read_buf s = [] ->
  next_loop l cap s = (Ok d, s') -> read_step s s' l (default [] d).
Proof.
  induction l as [|a l IH]; intros s d s' Hb H; cbn [next_loop] in H.
  - injection H as <- <-. split; [|done..]. exists []. cbn. rewrite app_nil_r. by rewrite Hb, app_nil_r.
  - destruct a as [m| | |]; [|done|..].
    2,3: injection H as <- <-; apply read_step_take; try done; cbn; by rewrite Hb.
    destruct m as [data|text|p|p| |]; try (apply read_step_skip; [done|done|by apply IH]).
    + guard_in H; [done|]. guard_in H; injection H as <- <-; apply read_step_take; try done; cbn; rewrite Hb, ?app_nil_r; [done|].
      cbn [app]. by rewrite take_drop.
    + apply IH in H as [(t & -> & Ho & Hq) Hd Hf Hs]; [|done]. split.
      * exists (NextMsg (Ping p) :: t). split; [done|]. split; [done|]. intros Hn. rewrite Hq by (cbn; by rewrite Hn).
        cbn [start_send snd queued]. rewrite Hn. cbn [head default pings]. rewrite omap_app. cbn [omap list_omap pong_of].
        by rewrite <- app_assoc.
      * rewrite Hd. cbn. destruct (default true (head (sends s))); [|done]. rewrite omap_app. cbn. by rewrite app_nil_r.
      * by rewrite Hf.
      * intros Hn. apply Hs. cbn. by rewrite Hn.
    + injection H as <- <-. apply read_step_take; try done. cbn. by rewrite Hb.
Qed.

Lemma ws_poll_read_step cap s d s' : ws_poll_read cap s = (Ok d, s') -> read_step s s' (incoming s) (default [] d).
Proof.
  unfold ws_poll_read. case_bool_decide as Hb; cbn [negb]; [by apply next_loop_step|].
  intros [= <- <-]. split; [|done..]. exists []. split; [done|]. cbn. rewrite take_drop, !app_nil_r. done.
Qed.

Record ws_inv (l : list next_answer) (sc : list bool) (rd : bytes) (wr : list bytes) (u : nat) (s : adapter) : Prop := {
  wi_taken : exists taken, l = taken ++ incoming s /\ rd ++ read_buf s = payloads taken /\
    (sc = [] -> omap pong_of (queued s) = pings taken);
  wi_data : omap data_of (queued s) = wr;
  wi_flag : u = if write_flush_outstanding s then 1 else 0;
  wi_sends : sc = [] -> sends s = []
}.

Lemma ws_inv_flag l sc rd wr u s b : ws_inv l sc rd wr u s -> ws_inv l sc rd wr (if b : bool then 1 else 0) (set_outstanding b s).
Proof. intros [Ht Hd Hf Hs]. by split. Qed.

Lemma ws_inv_read l sc rd wr u s s' out :
  ws_inv l sc rd wr u s -> read_step s s' (incoming s) out -> ws_inv l sc (rd ++ out) wr u s'.
Proof.
  intros [(t & Hl & Hb & Hp) Hd Hf Hs] [(t' & Hi & Ho & Hq) Hd' Hf' Hs']. split.
  - exists (t ++ t'). rewrite <- app_assoc, <- Hi. split; [done|].
    rewrite payloads_app, pings_app, <- app_assoc, Ho, app_assoc, Hb. split; [done|]. intros Hn. by rewrite Hq, Hp by auto.
  - congruence.
  - by rewrite Hf'.
  - auto.
Qed.

Lemma ws_inv_send l sc rd wr u s buf s' :
  ws_inv l sc rd wr u s -> start_send (Binary buf) s = (true, s') ->
  ws_inv l sc rd (wr ++ [buf]) (if write_flush_outstanding s' then 1 else 0) s'.
Proof.
  intros [(t & Hl & Hb & Hp) Hd Hf Hs]. unfold start_send. intros [= Hok <-]. rewrite Hok. split; cbn.
  - exists t. split; [done|]. split; [done|]. intros Hn. rewrite omap_app. cbn. by rewrite app_nil_r, Hp.
  - rewrite omap_app. cbn. by rewrite Hd.
  - done.
  - intros Hn. by rewrite Hs.
Qed.

Lemma ws_inv_write l sc rd wr u s gate flush buf r s' :
  ws_inv l sc rd wr u s -> ws_poll_write gate flush buf s = (Ok r, s') ->
  match r with
  | Some n => ws_inv l sc rd (wr ++ [take n buf])
      (match flush with SinkReady => 0 | _ => S (if write_flush_outstanding s then 0 else u) end) s'
  | None => ws_inv l sc rd wr u s'
  end.
Proof.
  intros Hinv. unfold ws_poll_write. cbv zeta.
  assert (forall s1, ws_inv l sc rd wr 0 s1 ->
    (let '(ok, s) := start_send (Binary buf) s1 in
     if negb ok then (Err WsProtocol, s)
     else match flush with
       | SinkReady => (Ok (Some (length buf)), set_outstanding false (set_outstanding true s))
       | SinkErr => (Err WsProtocol, set_outstanding true s)
       | SinkPending => (Ok (Some (length buf)), set_outstanding true s)
       end) = (Ok r, s') ->
    exists n, r = Some n /\ ws_inv l sc rd (wr ++ [take n buf]) (match flush with SinkReady => 0 | _ => 1 end) s') as Hsend.
  { intros s1 H1. destruct (start_send (Binary buf) s1) as [ok s2] eqn:E. destruct ok; [|done]. cbn [negb].
    pose proof (ws_inv_send _ _ _ _ _ _ _ _ H1 E) as H2. destruct flush; intros H; [|done|]; injection H as <- <-;
      exists (length buf); (split; [done|]); rewrite firstn_all.
    - exact (ws_inv_flag _ _ _ _ _ _ false (ws_inv_flag _ _ _ _ _ _ true H2)).
    - exact (ws_inv_flag _ _ _ _ _ _ true H2). }
  destruct (write_flush_outstanding s) eqn:Ef.
  - destruct gate; [|done|by intros [= <- <-]].
    intros (n & -> & H)%Hsend; [done|]. exact (ws_inv_flag _ _ _ _ _ _ false Hinv).
  - assert (u = 0) as ->. { destruct Hinv as [_ _ Hf _]. by rewrite Ef in Hf. }
    by intros (n & -> & H)%Hsend.
Qed.

Lemma ws_run_inv s rd wr u s' l sc max :
  ws_run s rd wr u s' -> s = adapter_new l sc max -> ws_inv l sc rd wr u s'.
Proof.
  induction 1 as [s|s rd wr u s1 cap d s2 _ IH H|s rd wr u s1 gate flush buf n s2 _ IH H
    |s rd wr u s1 gate flush buf s2 _ IH H|s rd wr u s1 a r s2 _ IH H|s rd wr u s1 a r s2 _ IH H]; intros ->.
  - split; [|done..]. by exists [].
  - specialize (IH eq_refl). by eapply ws_inv_read, ws_poll_read_step.
  - exact (ws_inv_write _ _ _ _ _ _ _ _ _ _ _ (IH eq_refl) H).
  - exact (ws_inv_write _ _ _ _ _ _ _ _ _ _ _ (IH eq_refl) H).
  - specialize (IH eq_refl). destruct a; [|done|]; injection H as <- <-; [|done]. exact (ws_inv_flag _ _ _ _ _ _ false IH).
  - specialize (IH eq_refl). destruct a; [|done|]; injection H as <- <-; [|done]. exact (ws_inv_flag _ _ _ _ _ _ false IH).
Qed.

(** ** Properties *)

(** The WebSocket tunnel is a faithful byte stream both ways, whatever messages
    arrive in whatever order, whatever the sizes of the read buffers and however
    the sink answers: the bytes read so far and still buffered are exactly the
    payloads of the binary messages taken from the peer, in order; the data
    messages handed to the sink are exactly the accepted writes, each in one message
    and never twice; at most one of them was not flushed when the next is accepted;
    and every ping was answered with its payload, when the sink takes messages. *)
Theorem ws_stream_faithful l sc max rd wr u s :
  ws_run (adapter_new l sc max) rd wr u s ->
  (exists taken, l = taken ++ incoming s /\ rd ++ read_buf s = payloads taken /\
     (sc = [] -> omap pong_of (queued s) = pings taken)) /\
  omap data_of (queued s) = wr /\ u <= 1.
Proof.
  intros H. destruct (ws_run_inv _ _ _ _ _ l sc max H eq_refl) as [Ht Hd Hf _]. split; [done|]. split; [done|].
  rewrite Hf. destruct (write_flush_outstanding s); lia.
Qed.

Definition demo_messages : list next_answer :=
  [NextMsg (Binary (str "hello")); NextMsg (Ping (str "x")); NextMsg (Text (str "skip")); NextMsg (Binary (str "!"))].
Definition demo_ws : adapter := adapter_new demo_messages [] 100.
Definition demo_ws1 : adapter := Eval vm_compute in (ws_poll_read 3 demo_ws).2.
Definition demo_ws2 : adapter := Eval vm_compute in (ws_poll_read 3 demo_ws1).2.
Definition demo_ws3 : adapter := Eval vm_compute in (ws_poll_read 3 demo_ws2).2.
Definition demo_ws4 : adapter := Eval vm_compute in (ws_poll_write SinkReady SinkPending (str "bye") demo_ws3).2.

Lemma ws_stream_faithful_witness :
  ws_run demo_ws (str "hello!") [str "bye"] 1 demo_ws4 /\ omap data_of (queued demo_ws4) = [str "bye"].
Proof.
  assert (ws_run demo_ws (str "hello!") [str "bye"] 1 demo_ws4) as H.
  { apply (run_write demo_ws (str "hello!") [] 0 demo_ws3 SinkReady SinkPending (str "bye") 3); [|done].
    apply (run_read demo_ws (str "hello") [] 0 demo_ws2 3 (Some (str "!"))); [|done].
    apply (run_read demo_ws (str "hel") [] 0 demo_ws1 3 (Some (str "lo"))); [|done].
    by apply (run_read demo_ws [] [] 0 demo_ws 3 (Some (str "hel"))); [constructor|]. }
  split; [exact H|]. apply (ws_stream_faithful _ _ _ _ _ _ _ H).
Defined.

(** An upgrade with credentials passes for exactly these, and reports the user. *)
Lemma upgrade_auth_exact b64_decode user pass header u :
  upgrade_callback b64_decode (Some (user, pass)) header = Some u <->
  u = Some user /\ exists h, header = Some h /\ ws_basic_auth b64_decode h = Some (user, pass).
Proof.
  cbn [upgrade_callback]. destruct header as [h|]; [|naive_solver].
  destruct (ws_basic_auth b64_decode h) as [[us pw]|] eqn:E; [|naive_solver].
  do 2 case_bool_decide; cbn; naive_solver.
Qed.

(** An empty binary message reads like the end of the stream. *)
Lemma empty_message_is_eof cap r s : read_buf s = [] -> incoming s = NextMsg (Binary []) :: r ->
  (ws_poll_read cap s).1 = Ok (Some []) /\ (ws_poll_read cap (set_incoming (NextEnd :: r) s)).1 = Ok (Some []).
Proof.
  intros Hb Hi. unfold ws_poll_read. cbn [read_buf set_incoming incoming]. rewrite Hb, Hi. done.
Qed.
