(* ===== verification/AuthCache.v ===== *)
(** * The authentication reuse cache

    Models [AuthReuseCache] of [crates/eggress-server/src/accept/mod.rs]: the bounded
    table of recently authenticated source addresses of the compatibility runtime.
    An [Instant] is a number of nanoseconds; [duration_since] saturates at zero.  The
    iteration order of the hash map is a parameter: any permutation of its entries. *)

From S2P Require Import Prelude Bytes NetAddr Dispatch Matcher.
Local Open Scope Z_scope.

#[export] Instance IpAddr_countable : Countable IpAddr.
Proof.
  apply (inj_countable' (fun ip => match ip with V4 o => inl o | V6 o => inr o end)
    (fun x => match x with inl o => V4 o | inr o => V6 o end)). by intros [].
Defined.

(** The order in which [HashMap::iter] visits the entries. *)
Class HashIter := {
  hash_iter : forall {A}, gmap IpAddr A -> list (IpAddr * A);
  hash_iter_perm : forall A (m : gmap IpAddr A), hash_iter m ≡ₚ map_to_list m
}.

Record AuthReuseEntry := { ae_identity : ClientIdentity; last_authenticated : Z }.

Record AuthReuseCache := {
  timeout : Z;
  entries : gmap IpAddr AuthReuseEntry;
  max_entries : nat;
  last_sweep_nanos : Z
}.

Definition DEFAULT_MAX_ENTRIES : nat := Z.to_nat 4096.
Definition SWEEP_INTERVAL : Z := 30 * 1000000000.
Definition U64_MAX : Z := 2 ^ 64 - 1.

Definition cache_new (t : Z) : AuthReuseCache :=
  {| timeout := t; entries := ∅; max_entries := DEFAULT_MAX_ENTRIES; last_sweep_nanos := 0 |}.

Definition duration_since (now earlier : Z) : Z := Z.max 0 (now - earlier).

Definition set_entries (es : gmap IpAddr AuthReuseEntry) (c : AuthReuseCache) : AuthReuseCache :=
  {| timeout := timeout c; entries := es; max_entries := max_entries c; last_sweep_nanos := last_sweep_nanos c |}.

Definition expired (now : Z) (c : AuthReuseCache) (e : AuthReuseEntry) : bool :=
  timeout c <? duration_since now (last_authenticated e).

Definition cache_lookup (now : Z) (peer_ip : IpAddr) (c : AuthReuseCache) : option ClientIdentity * AuthReuseCache :=
  match entries c !! peer_ip with
  | None => (None, c)
  | Some entry =>
      if expired now c entry then (None, set_entries (delete peer_ip (entries c)) c)
      else (Some (ae_identity entry), c)
  end.

(** [min_by_key]: the first of the minimal elements. *)
Fixpoint oldest (l : list (IpAddr * AuthReuseEntry)) : option (IpAddr * AuthReuseEntry) :=
  match l with
  | [] => None
  | x :: r =>
      match oldest r with
      | Some y => if last_authenticated y.2 <? last_authenticated x.2 then Some y else Some x
      | None => Some x
      end
  end.

Section cache.
Context {HI : HashIter}.
(** [AUTH_CACHE_EPOCH]. *)
Variable epoch : Z.

Definition sweep (now : Z) (c : AuthReuseCache) : AuthReuseCache :=
  let now_nanos := Z.min U64_MAX (duration_since now epoch) in
  if SWEEP_INTERVAL <=? Z.max 0 (now_nanos - last_sweep_nanos c)
  then {| timeout := timeout c; entries := filter (fun x => expired now c x.2 = false) (entries c);
          max_entries := max_entries c; last_sweep_nanos := now_nanos |}
  else c.

Definition evict_oldest (c : AuthReuseCache) : AuthReuseCache :=
  match oldest (hash_iter (entries c)) with
  | Some (ip, _) => set_entries (delete ip (entries c)) c
  | None => c
  end.

Definition cache_record (now : Z) (peer_ip : IpAddr) (identity : ClientIdentity) (c : AuthReuseCache) : AuthReuseCache :=
  let c := if (max_entries c <=? size (entries c))%nat then sweep now c else c in
  let c := if (max_entries c <=? size (entries c))%nat && negb (bool_decide (is_Some (entries c !! peer_ip)))
           then evict_oldest c else c in
  set_entries (<[peer_ip := {| ae_identity := identity; last_authenticated := now |}]> (entries c)) c.

(** ** The reference: an unbounded table *)

(** For each address its latest authentication, never dropped. *)
Abbreviation table := (gmap IpAddr AuthReuseEntry).

Definition spec_lookup (t : Z) (now : Z) (ip : IpAddr) (m : table) : option ClientIdentity :=
  match m !! ip with
  | Some e => if t <? duration_since now (last_authenticated e) then None else Some (ae_identity e)
  | None => None
  end.

(** The other addresses that authenticated at the same time or later. *)
Definition newer (ip : IpAddr) (t : Z) (m : table) : gset IpAddr :=
  dom (filter (fun x : IpAddr * AuthReuseEntry => x.1 <> ip /\ t <= last_authenticated x.2) m).

(** The cache, the reference and the clock, under lookups and recordings at
    arbitrary, never decreasing times. *)
Inductive cache_run (t : Z) : Z -> AuthReuseCache -> table -> Prop :=
| run_start now : cache_run t now (cache_new t) ∅
| run_time now now' c m : cache_run t now c m -> now <= now' -> cache_run t now' c m
| run_lookup now c m ip : cache_run t now c m -> cache_run t now (cache_lookup now ip c).2 m
| run_record now c m ip id : cache_run t now c m ->
    cache_run t now (cache_record now ip id c) (<[ip := {| ae_identity := id; last_authenticated := now |}]> m).

(** ** The invariant *)

Record cache_inv (t now : Z) (c : AuthReuseCache) (m : table) : Prop := {
  ci_timeout : timeout c = t;
  ci_max : max_entries c = DEFAULT_MAX_ENTRIES;
  ci_size : (size (entries c) <= max_entries c)%nat;
  ci_sub : entries c ⊆ m;
  ci_past : map_Forall (fun _ e => last_authenticated e <= now) m;
  ci_full : forall ip e, m !! ip = Some e -> entries c !! ip = Some e \/
    t < duration_since now (last_authenticated e) \/
    (DEFAULT_MAX_ENTRIES <= size (newer ip (last_authenticated e) m))%nat
}.

Lemma oldest_min l x : oldest l = Some x -> x ∈ l /\ forall y, y ∈ l -> last_authenticated x.2 <= last_authenticated y.2.
Proof using Type.
  revert x. induction l as [|z l IH]; intros x H; cbn [oldest] in H; [done|]. destruct (oldest l) as [y|] eqn:E.
  - destruct (IH y eq_refl) as [Hy Hm]. destruct (Z.ltb_spec (last_authenticated y.2) (last_authenticated z.2)).
    + injection H as <-. split; [set_solver|]. intros w [->|Hw]%elem_of_cons; [lia|by apply Hm].
    + injection H as <-. split; [set_solver|]. intros w [->|Hw]%elem_of_cons; [done|]. specialize (Hm w Hw). lia.
  - injection H as <-. assert (l = []) as ->.
    { destruct l as [|w l]; [done|]. cbn [oldest] in E. destruct (oldest l); [|done]. by destruct (_ <? _). }
    split; [set_solver|]. intros y Hy. assert (y = z) as -> by set_solver. done.
Qed.

Lemma newer_elem ip t m x : x ∈ newer ip t m <-> x <> ip /\ exists e, m !! x = Some e /\ t <= last_authenticated e.
Proof using Type.
  unfold newer. rewrite elem_of_dom. split.
  - intros [e [He [Hx Ht]]%map_lookup_filter_Some]. eauto.
  - intros (Hx & e & He & Ht). exists e. by apply map_lookup_filter_Some.
Qed.

(** Recording is monotone in the reference: no newer address becomes older. *)
Lemma newer_record ip t m x id now : map_Forall (fun _ e => last_authenticated e <= now) m -> x <> ip ->
  newer ip t m ⊆ newer ip t (<[x := {| ae_identity := id; last_authenticated := now |}]> m).
Proof using Type.
  intros Hp Hx y (Hy & e & He & Ht)%newer_elem. apply newer_elem. split; [done|].
  destruct (decide (y = x)) as [->|Hne].
  - rewrite lookup_insert_eq. eexists. split; [done|]. cbn. specialize (Hp x e He). cbn in Hp. lia.
  - rewrite lookup_insert_ne by done. eauto.
Qed.

Lemma set_entries_inv t now c m es : cache_inv t now c m ->
  (size es <= max_entries c)%nat -> es ⊆ entries c ->
  (forall ip e, entries c !! ip = Some e -> es !! ip = Some e \/ t < duration_since now (last_authenticated e)) ->
  cache_inv t now (set_entries es c) m.
Proof using Type.
  intros [Ht Hm Hs Hsub Hp Hf] Hsz Hes Hx. split; cbn; try done; [by etransitivity|].
  intros ip e He. destruct (Hf ip e He) as [H|[H|H]]; [|by eauto..]. destruct (Hx ip e H); eauto.
Qed.

Lemma lookup_inv t now c m ip : cache_inv t now c m -> cache_inv t now (cache_lookup now ip c).2 m.
Proof using Type.
  intros H. unfold cache_lookup. destruct (entries c !! ip) as [e|] eqn:E; [|done].
  destruct (expired now c e) eqn:Hx; [|done]. cbn [snd]. apply set_entries_inv; [done| |apply delete_subseteq|].
  - pose proof (ci_size _ _ _ _ H). rewrite map_size_delete_Some by eauto. lia.
  - intros ip' e' He'. destruct (decide (ip' = ip)) as [->|Hne].
    + right. assert (e' = e) as -> by congruence. unfold expired in Hx. rewrite (ci_timeout _ _ _ _ H) in Hx. lia.
    + left. by rewrite lookup_delete_ne.
Qed.

Lemma sweep_inv t now c m : cache_inv t now c m -> cache_inv t now (sweep now c) m.
Proof using Type.
  intros H. unfold sweep. destruct (_ <=? _) eqn:E; [|done]. clear E.
  assert (cache_inv t now (set_entries (filter (fun x => expired now c x.2 = false) (entries c)) c) m) as H'.
  { apply set_entries_inv; [done| |apply map_filter_subseteq|].
    - etransitivity; [apply map_size_filter|]. apply (ci_size _ _ _ _ H).
    - intros ip e He. destruct (expired now c e) eqn:Hx.
      + right. unfold expired in Hx. rewrite (ci_timeout _ _ _ _ H) in Hx. lia.
      + left. by apply map_lookup_filter_Some. }
  destruct H'. by split.
Qed.

(** The eviction keeps the invariant up to one address, which the recording makes
    older than [max_entries] others. *)
Lemma insert_inv t now c m ip id es : cache_inv t now c m ->
  es ⊆ entries c -> (size (<[ip := id]> es) <= max_entries c)%nat -> last_authenticated id = now ->
  (forall x e, entries c !! x = Some e -> es !! x = Some e \/ x = ip \/
     (DEFAULT_MAX_ENTRIES <= size (newer x (last_authenticated e) (<[ip := id]> m)))%nat) ->
  cache_inv t now (set_entries (<[ip := id]> es) c) (<[ip := id]> m).
Proof using Type.
  intros [Ht Hm Hs Hsub Hp Hf] Hes Hsz Hid Hx. split; cbn [set_entries timeout max_entries entries]; try done.
  - apply insert_mono. by etransitivity.
  - apply map_Forall_insert_2; [lia|done].
  - intros x e He. destruct (decide (x = ip)) as [->|Hne].
    + rewrite lookup_insert_eq in He. injection He as <-. left. apply lookup_insert_eq.
    + rewrite lookup_insert_ne in He by done. rewrite lookup_insert_ne by done.
      destruct (Hf x e He) as [H|[H|H]]; [|by eauto|].
      * destruct (Hx x e H) as [|[|]]; [by left|done|by right; right].
      * right; right. etransitivity; [exact H|]. apply subseteq_size. destruct id as [id l]. cbn in Hid. subst l.
        by apply newer_record.
Qed.

(** Evicting the oldest leaves it behind [max_entries] newer addresses. *)
Lemma evicted_newer c m ip id x e : entries c ⊆ m -> size (entries c) = DEFAULT_MAX_ENTRIES ->
  entries c !! ip = None -> entries c !! x = Some e ->
  (forall y e', entries c !! y = Some e' -> last_authenticated e <= last_authenticated e') ->
  map_Forall (fun _ e => last_authenticated e <= last_authenticated id) m ->
  (DEFAULT_MAX_ENTRIES <= size (newer x (last_authenticated e) (<[ip := id]> m)))%nat.
Proof using Type.
  intros Hsub Hsz Hip Hx Hmin Hp. transitivity (size ({[ip]} ∪ dom (delete x (entries c)))).
  - rewrite size_union.
    + rewrite size_singleton, size_dom, (map_size_delete_Some x (entries c)) by eauto.
      rewrite Hsz. unfold DEFAULT_MAX_ENTRIES. lia.
    + apply disjoint_singleton_l. intros [? [_ ?]%lookup_delete_Some]%elem_of_dom. congruence.
  - apply subseteq_size. intros y [->%elem_of_singleton|[e' [Hne Hy]%lookup_delete_Some]%elem_of_dom]%elem_of_union; apply newer_elem.
    + split; [congruence|]. rewrite lookup_insert_eq. eexists. split; [done|].
      exact (Hp x e (lookup_weaken _ _ _ _ Hx Hsub)).
    + split; [done|]. destruct (decide (y = ip)) as [->|Hyip]; [congruence|].
      rewrite lookup_insert_ne by done. exists e'. split; [by eapply lookup_weaken|by eapply Hmin].
Qed.

Lemma oldest_entry c : (0 < size (entries c))%nat ->
  exists x e, oldest (hash_iter (entries c)) = Some (x, e) /\ entries c !! x = Some e /\
    forall y e', entries c !! y = Some e' -> last_authenticated e <= last_authenticated e'.
Proof using Type.
  intros Hs. destruct (oldest (hash_iter (entries c))) as [[x e]|] eqn:E.
  - apply oldest_min in E as [Hin Hmin]. rewrite hash_iter_perm in Hin. apply elem_of_map_to_list in Hin.
    exists x, e. split_and!; [done|done|]. intros y e' Hy. apply (Hmin (y, e')).
    rewrite hash_iter_perm. by apply elem_of_map_to_list.
  - exfalso. assert (hash_iter (entries c) = []) as Hnil.
    { destruct (hash_iter (entries c)) as [|w l]; [done|]. cbn [oldest] in E. destruct (oldest l); [|done]. by destruct (_ <? _). }
    pose proof (hash_iter_perm _ (entries c)) as Hp. rewrite Hnil in Hp. apply Permutation_nil_l in Hp.
    symmetry in Hp. apply map_to_list_empty_iff in Hp. rewrite Hp, map_size_empty in Hs. lia.
Qed.

Lemma record_inv t now c m ip id : cache_inv t now c m ->
  cache_inv t now (cache_record now ip id c) (<[ip := {| ae_identity := id; last_authenticated := now |}]> m).
Proof using Type.
  intros H. unfold cache_record.
  set (c1 := if (max_entries c <=? size (entries c))%nat then sweep now c else c).
  assert (cache_inv t now c1 m) as H1 by (unfold c1; destruct (_ <=? _)%nat; [by apply sweep_inv|done]).
  clearbody c1. clear H c. cbv zeta. pose proof (ci_size _ _ _ _ H1) as Hs. pose proof (ci_max _ _ _ _ H1) as Hmax.
  destruct ((max_entries c1 <=? size (entries c1))%nat) eqn:Hfull; [|].
  - apply Nat.leb_le in Hfull. case_bool_decide as Hin; cbn [negb andb].
    + apply insert_inv; [done|done| |done|by eauto]. destruct Hin as [e He]. by erewrite map_size_insert_Some.
    + apply eq_None_not_Some in Hin. destruct (oldest_entry c1) as (x & e & Ho & Hx & Hmin); [rewrite Hmax in Hfull; unfold DEFAULT_MAX_ENTRIES in *; lia|].
      unfold evict_oldest. rewrite Ho. cbn [set_entries entries].
      apply (insert_inv t now c1 m ip _ (delete x (entries c1)) H1); [apply delete_subseteq| |done|].
      * rewrite map_size_insert_None, map_size_delete_Some by (first [by eauto|rewrite lookup_delete_None; by right]).
        rewrite Hmax in *. unfold DEFAULT_MAX_ENTRIES in *. lia.
      * intros y e' Hy. destruct (decide (y = x)) as [->|Hne]; [|left; by rewrite lookup_delete_ne].
        right; right. assert (e' = e) as -> by congruence.
        eapply (evicted_newer c1); [exact (ci_sub _ _ _ _ H1)|lia|done|done|done|exact (ci_past _ _ _ _ H1)].
  - apply Nat.leb_gt in Hfull. cbn [andb]. apply insert_inv; [done|done| |done|by eauto].
    rewrite map_size_insert. destruct (entries c1 !! ip); cbn; lia.
Qed.

Lemma cache_run_inv t now c m : cache_run t now c m -> cache_inv t now c m.
Proof using Type.
  induction 1 as [now|now now' c m _ IH Hn|now c m ip _ IH|now c m ip id _ IH].
  - split; cbn; [done|done|rewrite map_size_empty; lia|done|apply map_Forall_empty|by intros ip e ?%lookup_empty_Some].
  - destruct IH as [Ht Hm Hs Hsub Hp Hf]. split; try done.
    + intros ip e He. specialize (Hp ip e He). cbn in Hp. lia.
    + intros ip e He. destruct (Hf ip e He) as [H|[H|H]]; [by left| |by right; right].
      right; left. unfold duration_since in *. lia.
  - by apply lookup_inv.
  - by apply record_inv.
Qed.

(** The bounded cache against the unbounded table of latest authentications,
    for every history of lookups and recordings: it never holds more than the
    maximum number of entries; an address it admits did authenticate, with the
    identity it returns, within the timeout; and an address whose latest
    authentication is within the timeout is admitted with its latest identity,
    unless at least the maximum number of other addresses authenticated since. *)
Theorem auth_cache_exact t now c m ip :
  cache_run t now c m ->
  (size (entries c) <= DEFAULT_MAX_ENTRIES)%nat /\
  (forall id, (cache_lookup now ip c).1 = Some id -> spec_lookup t now ip m = Some id) /\
  (forall id, spec_lookup t now ip m = Some id ->
     (cache_lookup now ip c).1 = Some id \/
     exists e, m !! ip = Some e /\ (DEFAULT_MAX_ENTRIES <= size (newer ip (last_authenticated e) m))%nat).
Proof using Type.
  intros H%cache_run_inv. destruct H as [Ht Hm Hs Hsub Hp Hf]. split; [by rewrite <- Hm|].
  unfold cache_lookup, spec_lookup, expired. rewrite Ht. split.
  - intros id. destruct (entries c !! ip) as [e|] eqn:E; [|done]. rewrite (lookup_weaken _ _ _ _ E Hsub).
    by destruct (t <? _).
  - intros id. destruct (m !! ip) as [e|] eqn:E; [|done]. destruct (Z.ltb_spec t (duration_since now (last_authenticated e))) as [|Hle]; [done|].
    intros [= <-]. destruct (Hf ip e E) as [H|[H|H]]; [|lia|right; by eauto]. left. rewrite H.
    rewrite (proj2 (Z.ltb_ge _ _)) by lia. done.
Qed.
End cache.

(** One iteration order. *)
Module SampleHash.
#[export] Instance list_iter : HashIter := {| hash_iter := fun A m => map_to_list m; hash_iter_perm := fun A m => reflexivity _ |}.
End SampleHash.
Import SampleHash.

Definition demo_peer : IpAddr := V4 [x7f; x00; x00; x01].

Lemma auth_cache_exact_witness :
  cache_run 0 10 60 (cache_record 0 50 demo_peer (Username (str "ann")) (cache_new 10))
    (<[demo_peer := {| ae_identity := Username (str "ann"); last_authenticated := 50 |}]> ∅) /\
  spec_lookup 10 60 demo_peer (<[demo_peer := {| ae_identity := Username (str "ann"); last_authenticated := 50 |}]> ∅) =
    Some (Username (str "ann")) /\
  (cache_lookup 60 demo_peer (cache_record 0 50 demo_peer (Username (str "ann")) (cache_new 10))).1 = Some (Username (str "ann")).
Proof.
  assert (cache_run 0 10 60 (cache_record 0 50 demo_peer (Username (str "ann")) (cache_new 10))
    (<[demo_peer := {| ae_identity := Username (str "ann"); last_authenticated := 50 |}]> ∅)) as H.
  { apply (run_time _ _ 50); [apply run_record, run_start|lia]. }
  split; [exact H|]. assert (spec_lookup 10 60 demo_peer (<[demo_peer := {| ae_identity := Username (str "ann"); last_authenticated := 50 |}]> ∅) =
    Some (Username (str "ann"))) as Hs by reflexivity. split; [exact Hs|].
  destruct (auth_cache_exact 0 10 60 _ _ demo_peer H) as (_ & _ & Hc). destruct (Hc _ Hs) as [Hok|(e & He & Hn)]; [exact Hok|].
  exfalso. cbn in He. injection He as <-. revert Hn. vm_compute. lia.
Defined.
