(* ===== verification/Accept.v ===== *)
(** * Accepting an inbound connection

    Models [crates/eggress-server/src/accept/] ([mod.rs], [handlers.rs],
    [forward.rs], [detect.rs], [prefixed.rs]) and [auth.rs], in the default feature
    set (with [extended], without [pproxy-legacy] and [legacy-crypto]).

    A connection task runs between three kinds of operations on state it shares with
    other connections: a look-up in the authentication cache, a recording in it, and
    the Shadowsocks salt check.  [act] is a task as a tree of these operations, each
    atomic under its lock; what lies between them works on the connection alone. *)

From S2P Require Import Prelude Bytes Decimal Stream NetAddr Connector Dispatch Matcher Socks5 Socks5Handshake Socks4 Shadowsocks ShadowsocksStream ShadowsocksTcp Relay Trojan HttpText HttpForward HttpBody HttpConnect AuthCache.

(** ** Tasks *)

(** The boxed source of [AcceptError::Protocol]. *)
Inductive accept_cause :=
| CSocks5 (e : Socks5Error) | CSocks4 (e : Socks4Error) | CHttp (e : HttpError)
| CShadowsocks (e : ShadowsocksError) | CTrojan (e : TrojanError) | CIo (e : IoError) | CText (s : string).

Inductive AcceptError := AProtocol (cause : accept_cause) | AuthenticationFailed.

#[export] Instance accept_from_io : FromIo AcceptError := fun e => AProtocol (CIo e).

Inductive act (A : Type) :=
| Done (r : outcome AcceptError A) (c : conn)
| Lookup (ip : IpAddr) (k : option ClientIdentity -> act A)
| Record_ (ip : IpAddr) (id : ClientIdentity) (k : act A)
| CheckSalt (salt : bytes) (k : bool -> act A).
Arguments Done {A}.
Arguments Lookup {A}.
Arguments Record_ {A}.
Arguments CheckSalt {A}.

Definition AM (A : Type) : Type := conn -> act A.

Fixpoint act_bind {A B} (t : act A) (k : A -> AM B) : act B :=
  match t with
  | Done (Ok a) c => k a c
  | Done (Err e) c => Done (Err e) c
  | Done Panic c => Done Panic c
  | Lookup ip f => Lookup ip (fun r => act_bind (f r) k)
  | Record_ ip id f => Record_ ip id (act_bind f k)
  | CheckSalt salt f => CheckSalt salt (fun r => act_bind (f r) k)
  end.

Definition abind {A B} (m : AM A) (k : A -> AM B) : AM B := fun c => act_bind (m c) k.
Definition aret {A} (a : A) : AM A := fun c => Done (Ok a) c.
Definition athrow {A} (e : AcceptError) : AM A := fun c => Done (Err e) c.

(** A computation on the connection, its error wrapped. *)
Definition arun {E A} (wrap : E -> AcceptError) (m : M E A) : AM A := fun c =>
  let '(r, c') := m c in Done (map_err wrap r) c'.

Abbreviation socks5_err := (fun e => AProtocol (CSocks5 e)).
Abbreviation socks4_err := (fun e => AProtocol (CSocks4 e)).
Abbreviation http_err := (fun e => AProtocol (CHttp e)).
Abbreviation text_err s := (AProtocol (CText s)).

Declare Scope accept_scope.
Delimit Scope accept_scope with accept.
Notation "'let@' x ':=' m 'in' k" := (abind m (fun x => k))
  (at level 10, x pattern, m at level 100, k at level 200) : accept_scope.
Notation "m ;;@ k" := (abind m (fun _ => k))
  (at level 100, k at level 200, right associativity) : accept_scope.
Open Scope accept_scope.

(** ** The prefixed stream *)

(** [PrefixedStream]: the sniffed bytes are read again before the connection. *)
Record PrefixedStream := { ps_prefix : bytes; ps_pos : nat; ps_inner : conn }.

Definition prefixed_new (prefix : bytes) (inner : conn) : PrefixedStream :=
  {| ps_prefix := prefix; ps_pos := 0; ps_inner := inner |}.

(** [poll_read] with room for [cap] bytes, the inner read being [read_some]. *)
Definition prefixed_read (ready : nat -> nat) (cap : nat) (s : PrefixedStream) : outcome HttpError bytes * PrefixedStream :=
  let pos := ps_pos s in
  let len := length (ps_prefix s) in
  if pos <? len then
    let remaining := drop pos (ps_prefix s) in
    let to_copy := Nat.min (length remaining) cap in
    (Ok (take to_copy remaining), {| ps_prefix := ps_prefix s; ps_pos := pos + to_copy; ps_inner := ps_inner s |})
  else
    let '(r, inner) := read_some ready cap (ps_inner s) in
    (r, {| ps_prefix := ps_prefix s; ps_pos := pos; ps_inner := inner |}).

(** As a byte stream: the unread part of the prefix, then the connection. *)
Definition prefixed_conn (s : PrefixedStream) : conn :=
  set_in (ps_inner s) (drop (ps_pos s) (ps_prefix s) ++ c_in (ps_inner s)).

Definition unread (prefix : bytes) : AM unit := fun c => Done (Ok tt) (prefixed_conn (prefixed_new prefix c)).

(** ** Authentication *)

(** The third form shares the reuse cache. *)
Inductive InboundAuthentication :=
| NoAuth
| UsernamePassword (username password : bytes)
| UsernamePasswordWithReuse (username password : bytes).

Definition auth_credentials (auth : InboundAuthentication) : option (bytes * bytes * bool) :=
  match auth with
  | NoAuth => None
  | UsernamePassword username password => Some (username, password, false)
  | UsernamePasswordWithReuse username password => Some (username, password, true)
  end.

Definition cached_identity (auth : InboundAuthentication) (peer_ip : option IpAddr) : AM (option ClientIdentity) :=
  match auth_credentials auth with
  | None => aret None
  | Some (_, reuse) =>
      match peer_ip with
      | Some ip => if (reuse : bool) then fun c => Lookup ip (fun r => Done (Ok r) c) else aret None
      | None => aret None
      end
  end.

Definition record_authenticated (auth : InboundAuthentication) (peer_ip : option IpAddr) (id : ClientIdentity) : AM unit :=
  match auth_credentials auth with
  | Some (_, true) =>
      match peer_ip with
      | Some ip => fun c => Record_ ip id (Done (Ok tt) c)
      | None => aret tt
      end
  | _ => aret tt
  end.

(** ** Sessions *)

Inductive TunnelProtocol :=
| TpHttpConnect | TpHttp2 | TpHttp3 | TpWebSocket | TpSocks4 | TpSocks5 | TpShadowsocks | TpShadowsocksR | TpTrojan | TpRaw.

Inductive ReplyContext := RcHttp | RcHttp2 | RcHttp3 | RcWebSocket | RcSocks4 | RcSocks5 | RcShadowsocks | RcTrojan | RcRaw.

(** The stream a session goes on with: the connection itself, or an encrypted
    stream on top of it. *)
Inductive client_stream := Plain | Encrypted (s : ss_stream).

Record PendingTunnel := {
  pt_target : TargetAddr; pt_client : client_stream; pt_protocol : TunnelProtocol;
  pt_reply_context : ReplyContext; pt_identity : ClientIdentity
}.

Record PendingHttpForward := { pf_target : TargetAddr; pf_request : ForwardRequest; pf_identity : ClientIdentity }.

Record PendingUdpAssociate := { pu_protocol : TunnelProtocol; pu_identity : ClientIdentity; pu_client_hint : option TargetAddr }.

Inductive AcceptedSession :=
| Tunnel (p : PendingTunnel)
| HttpForward (p : PendingHttpForward)
| UdpAssociate_ (p : PendingUdpAssociate)
| Echo.

(** ** SOCKS *)

Definition socks_addr_to_target (addr : SocksAddr) : TargetAddr :=
  match addr with
  | IPv4 octets port => {| host := Ip (V4 octets); tport := port |}
  | IPv6 octets port => {| host := Ip (V6 octets); tport := port |}
  | Domain domain port => {| host := DomainName domain; tport := port |}
  end.

Definition accept_method (has_credentials cached : bool) (methods : bytes) : byte :=
  if (negb has_credentials || cached) && contains_byte AUTH_NONE methods then AUTH_NONE
  else if has_credentials && contains_byte AUTH_USERNAME_PASSWORD methods then AUTH_USERNAME_PASSWORD
  else AUTH_NO_ACCEPTABLE.

Definition accept_socks5 (auth : InboundAuthentication) (peer_ip : option IpAddr) : AM AcceptedSession :=
  let@ methods := arun socks5_err read_method_negotiation in
  let@ cached := cached_identity auth peer_ip in
  let selected_method := accept_method (bool_decide (is_Some (auth_credentials auth))) (bool_decide (is_Some cached)) methods in
  arun id (write_all [x05; selected_method]) ;;@
  arun id flush ;;@
  if selected_method =b AUTH_NO_ACCEPTABLE then athrow (socks5_err MethodNegotiationFailed) else
  let@ identity :=
    if selected_method =b AUTH_USERNAME_PASSWORD then
      match auth_credentials auth with
      | None => athrow AuthenticationFailed
      | Some (username, password, _) => fun c =>
          match read_auth_request username password c with
          | (Ok client_username, c) =>
              (let identity := Username client_username in
               record_authenticated auth peer_ip identity ;;@
               arun socks5_err (send_auth_response true) ;;@
               aret identity) c
          | (Err _, c) => (arun socks5_err (mignore (send_auth_response false)) ;;@ athrow AuthenticationFailed) c
          | (Panic, c) => Done Panic c
          end
      end
    else aret (default Anonymous cached) in
  let@ (command, socks_addr) := arun socks5_err read_socks5_request in
  match command with
  | Connect =>
      aret (Tunnel {| pt_target := socks_addr_to_target socks_addr; pt_client := Plain; pt_protocol := TpSocks5;
                      pt_reply_context := RcSocks5; pt_identity := identity |})
  | UdpAssociate =>
      aret (UdpAssociate_ {| pu_protocol := TpSocks5; pu_identity := identity;
                             pu_client_hint := Some (socks_addr_to_target socks_addr) |})
  | Bind =>
      arun socks5_err (mignore (send_connect_reply REP_COMMAND_NOT_SUPPORTED socks_addr)) ;;@
      athrow (socks5_err (UnsupportedCommand CMD_BIND))
  end.

Definition socks4_target (request : Socks4Request) : TargetAddr :=
  match s4_domain request with
  | Some domain => {| host := DomainName domain; tport := s4_port request |}
  | None => {| host := Ip (sa_ip (s4_addr request)); tport := sa_port (s4_addr request) |}
  end.

Definition accept_socks4 (auth : InboundAuthentication) (peer_ip : option IpAddr) : AM AcceptedSession :=
  let@ request := arun socks4_err read_socks4_request in
  let target := socks4_target request in
  let@ cached := cached_identity auth peer_ip in
  (if negb (bool_decide (is_Some cached)) then
     match auth_credentials auth with
     | Some (username, _, _) =>
         if negb (ct_eq (s4_user_id request) username) then athrow AuthenticationFailed else aret tt
     | None => aret tt
     end
   else aret tt) ;;@
  let identity := default (if bool_decide (s4_user_id request = []) then Anonymous else Opaque (s4_user_id request)) cached in
  (match identity with
   | Opaque _ | Username _ => record_authenticated auth peer_ip identity
   | Anonymous => aret tt
   end) ;;@
  aret (Tunnel {| pt_target := target; pt_client := Plain; pt_protocol := TpSocks4;
                  pt_reply_context := RcSocks4; pt_identity := identity |}).

(** ** HTTP *)

Definition ACCEPT_MAX_HEAD_SIZE : nat := Z.to_nat 32768.
Definition ACCEPT_MAX_HEADER_LINES : nat := 128.

(** [reader.take(limit).read_until(b'\n', &mut line)]. *)
Definition read_until_newline (limit : nat) : M AcceptError bytes := fun c =>
  let line := take limit (c_in c) in
  match find_byte x0a line with
  | Some i => (Ok (take (i + 1) line), set_in c (drop (i + 1) (c_in c)))
  | None =>
      if limit <=? length (c_in c) then (Ok line, set_in c (drop limit (c_in c)))
      else match c_end c with
           | None => (Ok line, set_in c [])
           | Some e => (Err (from_io e), set_in c [])
           end
  end.

Section http_head.
Variables (max_head max_lines : nat).

Fixpoint http_head_loop (fuel : nat) (head_buf : bytes) (header_count : nat) : M AcceptError bytes :=
  match fuel with
  | O => fun c => (Panic, c)
  | S f =>
      if max_head <=? length head_buf then mthrow (http_err HeaderTooLarge) else
      let! line := read_until_newline (max_head - length head_buf + 1) in
      if bool_decide (line = []) then mthrow (http_err (MalformedRequest "unexpected EOF reading request")) else
      if max_head <? length head_buf + length line then mthrow (http_err HeaderTooLarge) else
      let head_buf := head_buf ++ line in
      let header_count := if ends_with CRLF line then header_count + 1 else header_count in
      if ends_with CRLF line && (max_lines <? header_count) then mthrow (http_err TooManyHeaders) else
      if ends_with CRLF2 head_buf then mret head_buf else http_head_loop f head_buf header_count
  end.
End http_head.

(** Every turn but the last adds a byte to the head. *)
Definition read_http_head : M AcceptError bytes :=
  http_head_loop ACCEPT_MAX_HEAD_SIZE ACCEPT_MAX_HEADER_LINES (ACCEPT_MAX_HEAD_SIZE + 1) [] 0.

(** [accept::forward::parse_authority]: here a port is required. *)
Definition accept_authority (authority : bytes) : outcome HttpError TargetAddr :=
  if starts_with [x5b] authority then
    let? bracket_end := ok_or (TargetParseError "unclosed bracket in IPv6 address") (find_byte x5d authority) in
    let? ip_str := slice authority 1 bracket_end in
    let? ip := ok_or (TargetParseError "invalid IPv6 address") (parse_ip ip_str) in
    let? port_str := ok_or (TargetParseError "missing port") (str_from authority (bracket_end + 2)) in
    if match authority !! (bracket_end + 1) with Some b => negb (b =b x3a) | None => true end
    then Err (TargetParseError "expected ':' between IPv6 address and port") else
    let? port := authority_port port_str in
    Ok {| host := Ip ip; tport := port |}
  else
    let? colon_pos := ok_or (TargetParseError "missing port in authority") (rfind_byte x3a authority) in
    let? port := authority_port (drop (colon_pos + 1) authority) in
    match parse_ip (take colon_pos authority) with
    | Some ip => Ok {| host := Ip ip; tport := port |}
    | None =>
        if bool_decide (take colon_pos authority = []) then Err (TargetParseError "empty host")
        else Ok {| host := DomainName (take colon_pos authority); tport := port |}
    end.

(** [auth::parse_basic_auth]: the encoded part is trimmed. *)
Definition server_basic_auth {HL : ConnectLib} (value : bytes) : option (bytes * bytes) :=
  let value := trim value in
  if negb (starts_with (str "Basic ") value) then None else
  match b64_decode (trim (drop 6 value)) with
  | None => None
  | Some decoded =>
      if negb (utf8_valid decoded) then None else
      (fun colon_pos => (take colon_pos decoded, drop (colon_pos + 1) decoded)) <$> find_byte x3a decoded
  end.

Definition PROXY_AUTH_REQUIRED : bytes :=
  str "HTTP/1.1 407 Proxy Authentication Required" ++ CRLF ++
  str "Proxy-Authenticate: Basic realm=" ++ [x22] ++ str "eggress" ++ [x22] ++ CRLF ++
  str "Content-Length: 0" ++ CRLF ++ str "Connection: close" ++ CRLF2.

Definition write_proxy_auth_required : M AcceptError unit := write_all PROXY_AUTH_REQUIRED ;; flush.

Definition refuse_http {A} : AM A := arun id (mignore write_proxy_auth_required) ;;@ athrow AuthenticationFailed.

Section http.
Context {HL : ConnectLib}.

(** The header loop of [parse_connect_request]: the last Proxy-Authorization, and
    the last user name that could be decoded. *)
Fixpoint connect_headers (lines : list bytes) (auth : option (bytes * bytes)) (user : option bytes)
    : option (bytes * bytes) * option bytes :=
  match lines with
  | [] => (auth, user)
  | line :: r =>
      if bool_decide (line = []) then (auth, user)
      else match connect_header_line line with
      | Some (name, value) =>
          if eq_ignore_ascii_case name (str "Proxy-Authorization") then
            let auth := server_basic_auth value in
            connect_headers r auth (match auth with Some (u, _) => Some u | None => user end)
          else connect_headers r auth user
      | None => connect_headers r auth user
      end
  end.

(** The check the two HTTP paths make of the credentials they found. *)
Definition check_http_auth (username password : bytes) (found : option (bytes * bytes)) : AM unit :=
  match found with
  | Some given => if negb (credentials_match given (username, password)) then refuse_http else aret tt
  | None => refuse_http
  end.

Definition parse_connect_request (head_buf : bytes) (auth : InboundAuthentication) (peer_ip : option IpAddr)
    : AM (TargetAddr * ClientIdentity) :=
  match split_crlf (from_utf8_lossy head_buf) with
  | [] => athrow (http_err (MalformedRequest "empty request"))
  | request_line :: lines =>
      match split_whitespace request_line with
      | [_; authority; _] =>
          let@ target := arun http_err (mlift (accept_authority authority)) in
          let '(proxy_auth, parsed_username) := connect_headers lines None None in
          let@ cached := cached_identity auth peer_ip in
          (if negb (bool_decide (is_Some cached)) then
             match auth_credentials auth with
             | Some (username, password, _) => check_http_auth username password proxy_auth
             | None => aret tt
             end
           else aret tt) ;;@
          let identity := default (match parsed_username with Some user => Username user | None => Anonymous end) cached in
          (match identity with Username _ => record_authenticated auth peer_ip identity | _ => aret tt end) ;;@
          aret (target, identity)
      | _ => athrow (http_err (MalformedRequest "expected 3 parts in request line"))
      end
  end.

(** The first Proxy-Authorization header of a forward request, any line of the head. *)
Fixpoint first_proxy_auth (lines : list bytes) : option (bytes * bytes) :=
  match lines with
  | [] => None
  | line :: r =>
      match connect_header_line line with
      | Some (name, value) =>
          if eq_ignore_ascii_case name (str "Proxy-Authorization") then server_basic_auth value else first_proxy_auth r
      | None => first_proxy_auth r
      end
  end.

Definition accept_http (auth : InboundAuthentication) (peer_ip : option IpAddr) : AM AcceptedSession :=
  let@ head_buf := arun id read_http_head in
  let head_str := from_utf8_lossy head_buf in
  let method := to_ascii_lowercase (default [] (head (split_whitespace head_str))) in
  if bool_decide (method = str "connect") then
    let@ (target, identity) := parse_connect_request head_buf auth peer_ip in
    aret (Tunnel {| pt_target := target; pt_client := Plain; pt_protocol := TpHttpConnect;
                    pt_reply_context := RcHttp; pt_identity := identity |})
  else
    let@ cached := cached_identity auth peer_ip in
    let@ proxy_auth :=
      if bool_decide (is_Some cached) then aret None else
      match auth_credentials auth with
      | Some (username, password, _) =>
          let found_auth := first_proxy_auth (split_crlf head_str) in
          check_http_auth username password found_auth ;;@ aret found_auth
      | None => aret None
      end in
    let identity := default (match proxy_auth with Some (user, _) => Username user | None => Anonymous end) cached in
    (match identity with Username _ => record_authenticated auth peer_ip identity | _ => aret tt end) ;;@
    unread head_buf ;;@
    let@ request := arun http_err read_forward_request in
    aret (HttpForward {| pf_target := fr_target request; pf_request := request; pf_identity := identity |}).
End http.

(** ** Detection *)

Inductive DetectResult := Match_ | NeedMore | NoMatch.

Definition method_byte (b : byte) : bool := (0x41 <=? b2Z b)%Z && (b2Z b <=? 0x5a)%Z || (b =b x2d) || (0x61 <=? b2Z b)%Z && (b2Z b <=? 0x7a)%Z.

Definition detect_http_method (prefix : bytes) : DetectResult :=
  match find_byte x20 prefix with
  | Some space_pos =>
      let method_token := take space_pos prefix in
      if bool_decide (method_token = []) || (16 <? length method_token) then NoMatch
      else if forallb method_byte method_token then Match_ else NoMatch
  | None =>
      if 16 <? length prefix then NoMatch
      else if forallb method_byte prefix then NeedMore else NoMatch
  end.

Section accept.
Context {HCr : Crypto} {HL : ConnectLib}.
Variable sha224 : bytes -> bytes.
(** How many bytes the reads of the sniffing loop find, and the poll-level transport
    an encrypted stream goes on with. *)
Variables (ready : nat -> nat) (transport : Relay.stream).

Record InboundShadowsocksConfig := { ss_method : bytes; ss_password : bytes }.
Record InboundTrojanConfig := { tj_password : bytes; tj_fallback : option bytes }.

Definition no_protocol : AcceptError := text_err "no matching protocol for listener".

Fixpoint sniff_http (fuel : nat) (prefix : bytes) : AM bytes :=
  match fuel with
  | O => fun c => Done Panic c
  | S f =>
      match detect_http_method prefix with
      | Match_ => aret prefix
      | NoMatch => athrow no_protocol
      | NeedMore =>
          if 512 <=? length prefix then athrow no_protocol else
          let@ buf := arun (fun e => match e with HttpIo io => AProtocol (CIo io) | e => AProtocol (CHttp e) end)
                        (read_some ready 32) in
          if bool_decide (buf = []) then athrow no_protocol else
          let prefix := prefix ++ buf in
          sniff_http f (if 512 <? length prefix then take 512 prefix else prefix)
      end
  end.

Definition only (protocols : list ProtocolId) (p : ProtocolId) : bool :=
  (length protocols =? 1)%nat && bool_decide (p ∈ protocols).

Definition accept_shadowsocks (cfg : InboundShadowsocksConfig) : AM AcceptedSession :=
  match parse_method (ss_method cfg) with
  | Ok method => fun c =>
      match read_exact (E:=ShadowsocksError) (salt_size method) c with
      | (Ok salt, c) => CheckSalt salt (fun replayed =>
          (let@ (ss, target_addr) :=
             if (replayed : bool) then athrow (AProtocol (CShadowsocks (DecryptionFailed "replayed salt")))
             else arun (fun e => AProtocol (CShadowsocks e)) (accept_body transport (ss_password cfg) method salt) in
           aret (Tunnel {| pt_target := target_addr; pt_client := Encrypted ss; pt_protocol := TpShadowsocks;
                           pt_reply_context := RcShadowsocks; pt_identity := Anonymous |})) c)
      | (Err e, c) => Done (Err (AProtocol (CShadowsocks e))) c
      | (Panic, c) => Done Panic c
      end
  | Err e => athrow (AProtocol (CShadowsocks e))
  | Panic => fun c => Done Panic c
  end.

Definition trojan_tunnel (target : TargetAddr) : AcceptedSession :=
  Tunnel {| pt_target := target; pt_client := Plain; pt_protocol := TpTrojan;
            pt_reply_context := RcTrojan; pt_identity := Anonymous |}.

(** The Trojan path; the first byte of the hash was already read. *)
Definition accept_trojan (cfg : InboundTrojanConfig) (first_byte : byte) : AM AcceptedSession :=
  let@ rest := arun id (read_exact 55) in
  let hash_prefix := first_byte :: rest in
  if trojan_check_password sha224 hash_prefix (tj_password cfg) then
    unread hash_prefix ;;@
    let@ target := arun (fun e => AProtocol (CTrojan e)) (trojan_accept sha224 (tj_password cfg)) in
    aret (trojan_tunnel target)
  else
    match tj_fallback cfg with
    | Some fallback_target =>
        let@ _ := arun id (read_exact 2) in
        let@ target := arun (fun _ => text_err "invalid trojan fallback address") (mlift (parse_target_addr fallback_target)) in
        aret (trojan_tunnel target)
    | None => athrow AuthenticationFailed
    end.

Definition accept_with_fixed_target_for_peer (protocols : list ProtocolId) (auth : InboundAuthentication)
    (shadowsocks_config : option InboundShadowsocksConfig) (trojan_config : option InboundTrojanConfig)
    (fixed_target : option TargetAddr) (peer_ip : option IpAddr) : AM AcceptedSession :=
  if only protocols PEcho then aret Echo else
  if only protocols PRaw then
    match fixed_target with
    | Some target => aret (Tunnel {| pt_target := target; pt_client := Plain; pt_protocol := TpRaw;
                                     pt_reply_context := RcRaw; pt_identity := Anonymous |})
    | None => athrow (text_err "raw listener requires fixed_target")
    end else
  let@ first_byte := arun id read_u8 in
  let has p := bool_decide (p ∈ protocols) in
  if (first_byte =b x05) && has PSocks5 then unread [first_byte] ;;@ accept_socks5 auth peer_ip else
  if (first_byte =b x04) && has PSocks4 then unread [first_byte] ;;@ accept_socks4 auth peer_ip else
  if has PHttp then
    let@ prefix := sniff_http 18 [first_byte] in
    unread prefix ;;@ accept_http auth peer_ip
  else if only protocols PShadowsocks then
    match shadowsocks_config with
    | Some cfg => unread [first_byte] ;;@ accept_shadowsocks cfg
    | None => athrow (text_err "shadowsocks listener requires shadowsocks config")
    end
  else if only protocols PShadowsocksR then
    athrow (text_err "SSR compatibility support is not included in this build")
  else if only protocols PTrojan then
    match trojan_config with
    | Some cfg => accept_trojan cfg first_byte
    | None => athrow (text_err "trojan listener requires trojan config")
    end
  else athrow no_protocol.

Definition accept_with_fixed_target (protocols : list ProtocolId) (auth : InboundAuthentication)
    (shadowsocks_config : option InboundShadowsocksConfig) (trojan_config : option InboundTrojanConfig)
    (fixed_target : option TargetAddr) : AM AcceptedSession :=
  accept_with_fixed_target_for_peer protocols auth shadowsocks_config trojan_config fixed_target None.

Definition accept (protocols : list ProtocolId) (auth : InboundAuthentication)
    (shadowsocks_config : option InboundShadowsocksConfig) (trojan_config : option InboundTrojanConfig) : AM AcceptedSession :=
  accept_with_fixed_target protocols auth shadowsocks_config trojan_config None.
End accept.

(** Reading a prefixed stream is reading the connection with the prefix put back:
    bytes come in order, and only an exhausted prefix leads on to the connection. *)
Lemma prefixed_read_replays ready cap s l s' :
  0 < cap -> ps_pos s <= length (ps_prefix s) -> prefixed_read ready cap s = (Ok l, s') ->
  io l [] (prefixed_conn s) (prefixed_conn s') /\ ps_pos s' <= length (ps_prefix s') /\
  (l = [] -> c_in (prefixed_conn s) = []).
Proof.
  intros Hcap Hpos. unfold prefixed_read, prefixed_conn, io. destruct (ps_pos s <? length (ps_prefix s)) eqn:E; bool_to_prop.
  - intros [= <- <-]. cbn [ps_pos ps_prefix ps_inner set_in c_in c_out c_end]. rewrite length_drop.
    assert (Hk : length (ps_prefix s) - ps_pos s > 0) by lia. split_and!; [|by rewrite app_nil_r|done|lia|].
    + rewrite <- (take_drop (Nat.min (length (ps_prefix s) - ps_pos s) cap) (drop (ps_pos s) (ps_prefix s))) at 1.
      by rewrite <- app_assoc, drop_drop.
    + intros H%(f_equal length). rewrite length_take, length_drop in H. cbn in H. lia.
  - destruct (read_some ready cap (ps_inner s)) as [r inner] eqn:Er. intros [= -> <-]. apply read_some_ok in Er as (Hio & _ & He); [|done].
    cbn [ps_pos ps_prefix ps_inner set_in c_in c_out c_end]. rewrite drop_ge by lia. destruct Hio as (-> & -> & ->).
    split_and!; [done|done|done|done|]. intros ->. destruct (He eq_refl) as [Hin ->]. by rewrite Hin.
Qed.
