(* ===== verification/AcceptAuth.v ===== *)
(** * Who gets a session

    Properties of [Accept]: a weakest-precondition calculus for connection tasks, the
    authentication of every path, and the system of connections that share the reuse
    cache, whose operations interleave in any order. *)

From S2P Require Import Prelude Bytes Decimal Stream NetAddr Connector Dispatch Matcher Socks5 Socks5Handshake Socks4 Shadowsocks ShadowsocksStream ShadowsocksTcp Relay Trojan HttpText HttpForward HttpBody HttpConnect AuthCache Accept.

(** ** A calculus for tasks *)

Section awp.
(** The address the task works for, and what it may record given the last look-up. *)
Variable ip : option IpAddr.
Variable may_record : option ClientIdentity -> ClientIdentity -> Prop.

(** The task never panics, asks and records only for its own address, records only
    what it may, and ends in [Q]; [hit] is the answer of the last look-up. *)
Fixpoint awp {A} (hit : option ClientIdentity) (t : act A) (Q : option ClientIdentity -> A -> conn -> Prop) : Prop :=
  match t with
  | Done (Ok a) c => Q hit a c
  | Done (Err _) _ => True
  | Done Panic _ => False
  | Lookup ip' k => ip = Some ip' /\ forall r, awp r (k r) Q
  | Record_ ip' id k => ip = Some ip' /\ may_record hit id /\ awp hit k Q
  | CheckSalt _ k => forall r, awp hit (k r) Q
  end.

Lemma awp_mono {A} (t : act A) : forall hit (Q Q' : option ClientIdentity -> A -> conn -> Prop),
  awp hit t Q -> (forall h a c, Q h a c -> Q' h a c) -> awp hit t Q'.
Proof.
  induction t as [[a|e|] c|ip' k IH|ip' id k IH|salt k IH]; intros hit Q Q' H HQ; cbn [awp] in *; auto.
  - destruct H as [He H]. split; [done|]. intros r. by eapply IH.
  - destruct H as (He & Hr & H). split; [done|]. split; [done|]. by eapply IH.
  - intros r. by eapply IH.
Qed.

Lemma awp_bind {A B} (m : AM A) (k : A -> AM B) hit c Q :
  awp hit (m c) (fun h a c' => awp h (k a c') Q) -> awp hit (abind m k c) Q.
Proof.
  unfold abind. generalize (m c) as t. intros t. revert hit.
  induction t as [[a|e|] c'|ip' f IH|ip' id f IH|salt f IH]; intros hit H; cbn [awp act_bind] in *; auto.
  - destruct H as [He H]. split; [done|]. intros r. by apply IH.
  - destruct H as (He & Hr & H). split; [done|]. split; [done|]. by apply IH.
Qed.

Lemma awp_ret {A} (a : A) hit c (Q : option ClientIdentity -> A -> conn -> Prop) : Q hit a c -> awp hit (aret a c) Q.
Proof. done. Qed.

Lemma awp_throw {A} e hit c (Q : option ClientIdentity -> A -> conn -> Prop) : awp hit (athrow e c) Q.
Proof. done. Qed.

Lemma awp_run {E A} (w : E -> AcceptError) (m : M E A) hit c (Q : option ClientIdentity -> A -> conn -> Prop) :
  (m c).1 <> Panic -> (forall a c', m c = (Ok a, c') -> Q hit a c') -> awp hit (arun w m c) Q.
Proof. unfold arun. destruct (m c) as [[a|e|] c']; cbn; auto. Qed.

(** A run followed by the rest of the task. *)
Lemma awp_run_bind {E A B} (w : E -> AcceptError) (m : M E A) (k : A -> AM B) hit c Q :
  (m c).1 <> Panic -> (forall a c', m c = (Ok a, c') -> awp hit (k a c') Q) -> awp hit (abind (arun w m) k c) Q.
Proof. intros H1 H2. apply awp_bind, awp_run; auto. Qed.
End awp.

(** ** Absence of panics in the readers *)

Create HintDb nopanic discriminated.

Lemma read_exact_no_panic {E} `{!FromIo E} n c : (read_exact (E:=E) n c).1 <> Panic.
Proof. unfold read_exact. by destruct (_ <=? _). Qed.

Lemma read_u8_no_panic {E} `{!FromIo E} c : (read_u8 (E:=E) c).1 <> Panic.
Proof.
  unfold read_u8. apply mbind_no_panic; [apply read_exact_no_panic|]. intros l c1 [Hl _]%read_exact_io.
  destruct l as [|b [|]]; cbn in Hl; done.
Qed.

Lemma read_u16_no_panic {E} `{!FromIo E} c : (read_u16 (E:=E) c).1 <> Panic.
Proof.
  unfold read_u16. apply mbind_no_panic; [apply read_exact_no_panic|]. intros l c1 [Hl _]%read_exact_io.
  destruct l as [|b [|b' [|]]]; cbn in Hl; done.
Qed.

Lemma mret_no_panic {E A} (a : A) c : (mret (E:=E) a c).1 <> Panic.
Proof. done. Qed.

Lemma mthrow_no_panic {E A} (e : E) c : (mthrow (A:=A) e c).1 <> Panic.
Proof. done. Qed.

Lemma mlift_no_panic {E A} (m : outcome E A) c : m <> Panic -> (mlift m c).1 <> Panic.
Proof. done. Qed.

Lemma mignore_no_panic {E A} (m : M E A) c : (m c).1 <> Panic -> (mignore m c).1 <> Panic.
Proof. unfold mignore. by destruct (m c) as [[]]. Qed.

#[export] Hint Resolve read_exact_no_panic read_u8_no_panic read_u16_no_panic mret_no_panic mthrow_no_panic mlift_no_panic mignore_no_panic write_all_no_panic from_utf8_no_panic parse_command_no_panic : nopanic.

(** Sequences, conditionals and the readers above. *)
Ltac no_panic :=
  repeat first
    [ solve [eauto 3 with nopanic]
    | apply mbind_no_panic; [|intros ? ? _]
    | guard_goal
    | progress cbv zeta ].

Lemma read_addr_no_panic atyp c : (read_addr atyp c).1 <> Panic.
Proof. unfold read_addr. no_panic. Qed.
#[export] Hint Resolve read_addr_no_panic : nopanic.

Lemma negotiation_no_panic c : (read_method_negotiation c).1 <> Panic.
Proof. unfold read_method_negotiation. no_panic. Qed.

Lemma auth_request_no_panic u p c : (read_auth_request u p c).1 <> Panic.
Proof. unfold read_auth_request. no_panic. Qed.

Lemma auth_response_no_panic b c : (send_auth_response b c).1 <> Panic.
Proof. unfold send_auth_response, flush. no_panic. Qed.

Lemma socks5_request_no_panic c : (read_socks5_request c).1 <> Panic.
Proof. unfold read_socks5_request. no_panic. Qed.

Lemma connect_reply_no_panic rep a c : (send_connect_reply rep a c).1 <> Panic.
Proof.
  unfold send_connect_reply, flush. apply mbind_no_panic; [|intros; no_panic]. apply mlift_no_panic.
  destruct a; cbn [encode_reply]; [done| |done]. cbv zeta. by guard_goal.
Qed.

#[export] Hint Resolve negotiation_no_panic auth_request_no_panic auth_response_no_panic socks5_request_no_panic connect_reply_no_panic read_socks4_no_panic : nopanic.

(** ** The head of an HTTP request *)

Lemma not_elem_of_take (x : byte) i k l : x ∉ take i l -> k <= i -> x ∉ take k l.
Proof.
  intros H Hk Hin. apply H. rewrite <- (Nat.min_l k i), <- take_take in Hin by done.
  rewrite <- (take_drop k (take i l)). apply elem_of_app. by left.
Qed.

Lemma read_until_newline_ok limit c line c' : read_until_newline limit c = (Ok line, c') ->
  io line [] c c' /\ length line <= limit /\ forall k, k < length line -> x0a ∉ take k line.
Proof.
  unfold read_until_newline. destruct (find_byte x0a _) as [i|] eqn:E.
  - apply find_byte_Some in E as [Hs Hn]. intros [= <- <-].
    assert (i < length (take limit (c_in c))) as Hi.
    { apply (f_equal length) in Hs. rewrite length_app in Hs. cbn [length] in Hs. rewrite length_drop, (length_take (take limit (c_in c)) i) in Hs. lia. }
    rewrite length_take in Hi. rewrite !length_take, take_take. split_and!.
    + unfold io. cbn. rewrite app_nil_r. split; [|done]. rewrite Nat.min_l by lia. by rewrite take_drop.
    + lia.
    + intros k Hk. rewrite Nat.min_l in Hk |- * by lia. rewrite take_take in Hn |- *. rewrite Nat.min_l in Hn by lia.
      rewrite Nat.min_l by lia. by eapply not_elem_of_take; [exact Hn|lia].
  - intros H. apply find_byte_None in E. assert (line = take limit (c_in c) /\ io line [] c c') as [-> Hio].
    { unfold io. destruct (limit <=? _) eqn:G; [|destruct (c_end c) eqn:Ec; [done|]]; injection H as <- <-; cbn; rewrite app_nil_r.
      - by rewrite take_drop.
      - bool_to_prop. rewrite app_nil_r. split; [done|]. by rewrite take_ge by lia. }
    split; [done|]. rewrite length_take. split; [lia|]. intros k Hk.
    rewrite <- (take_ge (take limit (c_in c)) (length (c_in c))) in E by (rewrite length_take; lia).
    eapply not_elem_of_take; [exact E|]. lia.
Qed.

Lemma ends_crlf2_newline h : ends_with CRLF2 h = true -> exists r, h = r ++ [x0a].
Proof. intros [r ->]%ends_with_spec. exists (r ++ [x0d; x0a; x0d]). by rewrite <- app_assoc. Qed.

(** A proper part of a line does not end the head. *)
Lemma inside_line head line k : (forall k, k < length line -> x0a ∉ take k line) -> 0 < k < length line ->
  ends_with CRLF2 (head ++ take k line) = false.
Proof.
  intros Hn Hk. apply not_true_is_false. intros [r Hr]%ends_crlf2_newline. apply (Hn k); [lia|].
  destruct (take k line) as [|b l] eqn:E using rev_ind.
  - apply (f_equal length) in E. rewrite length_take in E. cbn in E. lia.
  - rewrite app_assoc in Hr. apply app_inj_tail in Hr as [_ ->]. set_solver.
Qed.

Lemma http_head_loop_ok max ml fuel : forall head n c h c',
  http_head_loop max ml fuel head n c = (Ok h, c') ->
  exists l, h = head ++ l /\ l <> [] /\ io l [] c c' /\ length h <= max /\ ends_with CRLF2 h = true /\
    forall k, length head < k < length h -> ends_with CRLF2 (take k h) = false.
Proof.
  induction fuel as [|f IH]; intros head n c h c' H; cbn [http_head_loop] in H; [done|].
  guard_in H; [done|]. apply mbind_ok in H as (line & c1 & Hl & H).
  apply read_until_newline_ok in Hl as (Hio & _ & Hn). case_bool_decide as Hne; [done|].
  guard_in H; [done|]. cbv zeta in H. guard_in H; [done|]. bool_to_prop. guard_in H.
  - injection H as <- <-. exists line. split_and!; [done|done|done|rewrite length_app; lia|done|].
    intros k Hk. rewrite length_app in Hk. rewrite take_app_ge by lia. apply inside_line; [done|lia].
  - apply IH in H as (l & -> & Hl & Hio' & Hmax & He & Hmin). exists (line ++ l). rewrite app_assoc. split_and!; try done.
    + by intros [? ?]%app_eq_nil.
    + pose proof (io_trans _ _ _ _ _ _ _ Hio Hio') as Ht. exact Ht.
    + intros k Hk. destruct (decide (k <= length (head ++ line))) as [Hle|]; [|apply Hmin; lia].
      rewrite take_app_le by done. rewrite length_app in Hle. destruct (decide (k = length head + length line)) as [->|].
      * rewrite <- length_app, take_ge by done. done.
      * rewrite take_app_ge by lia. apply inside_line; [done|lia].
Qed.

Lemma http_head_loop_no_panic max ml fuel : forall head n c, 0 < fuel -> max < fuel + length head ->
  (http_head_loop max ml fuel head n c).1 <> Panic.
Proof.
  induction fuel as [|f IH]; intros head n c Hp Hf; [lia|]. cbn [http_head_loop]. guard_goal; [done|]. bool_to_prop.
  apply mbind_no_panic.
  { unfold read_until_newline. destruct (find_byte _ _); [done|]. destruct (_ <=? _); [done|]. by destruct (c_end c). }
  intros line c1 _. case_bool_decide as Hne; [done|]. guard_goal; [done|]. cbv zeta. guard_goal; [done|]. guard_goal; [done|].
  assert (0 < length line) by (destruct line; [done|cbn; lia]). apply IH; [lia|]. rewrite length_app. lia.
Qed.

(** The head is read up to its first empty line and no further. *)
Lemma read_http_head_ok c head c' : read_http_head c = (Ok head, c') -> io head [] c c' /\ first_head head.
Proof.
  unfold read_http_head. intros (l & -> & _ & Hio & _ & He & Hmin)%http_head_loop_ok. cbn [app] in *.
  split; [done|]. unfold first_head, connect_head_end. split.
  - rewrite He. apply ends_with_spec in He as [r ->]. rewrite length_app. cbn [length CRLF2]. 
    rewrite (proj2 (Nat.leb_le _ _)) by (cbn; lia). done.
  - intros [|k] Hk; [done|]. rewrite Hmin by (cbn [length] in *; lia). apply andb_false_r.
Qed.

Lemma read_http_head_no_panic c : (read_http_head c).1 <> Panic.
Proof. apply http_head_loop_no_panic; cbn [length]; lia. Qed.
#[export] Hint Resolve read_http_head_no_panic : nopanic.

Lemma read_until_newline_quota limit c line c' : read_until_newline limit c = (Ok line, c') -> c_quota c' = c_quota c.
Proof.
  unfold read_until_newline. destruct (find_byte _ _); [by intros [= _ <-]|]. destruct (_ <=? _); [by intros [= _ <-]|].
  destruct (c_end c); [done|]. by intros [= _ <-].
Qed.

Lemma http_head_loop_quota max ml fuel : forall head n c h c',
  http_head_loop max ml fuel head n c = (Ok h, c') -> c_quota c' = c_quota c.
Proof.
  induction fuel as [|f IH]; intros head n c h c' H; cbn [http_head_loop] in H; [done|].
  guard_in H; [done|]. apply mbind_ok in H as (line & c1 & Hl%read_until_newline_quota & H). rewrite <- Hl.
  case_bool_decide; [done|]. guard_in H; [done|]. cbv zeta in H. guard_in H; [done|]. guard_in H; [by injection H as _ <-|by eapply IH].
Qed.

Lemma read_http_head_quota c h c' : read_http_head c = (Ok h, c') -> c_quota c' = c_quota c.
Proof. apply http_head_loop_quota. Qed.

Lemma bracket_slice_no_panic {E} s i : starts_with [x5b] s = true -> find_byte x5d s = Some i ->
  slice (E:=E) s 1 i <> Panic.
Proof.
  intros [r ->]%starts_with_spec H. cbn [app] in *. apply find_byte_Some in H as [H _]. apply slice_no_panic.
  - destruct i; [by cbn in H|lia].
  - apply (f_equal length) in H. rewrite length_app, length_take in H. cbn [length] in *. rewrite length_drop in H. cbn [length] in H. lia.
Qed.

Lemma obind_no_panic {E A B} (m : outcome E A) (k : A -> outcome E B) :
  m <> Panic -> (forall a, m = Ok a -> k a <> Panic) -> obind m k <> Panic.
Proof. intros. by apply obind_panic. Qed.

Lemma ok_or_no_panic {E A} (e : E) (o : option A) : ok_or e o <> Panic.
Proof. by destruct o. Qed.

Lemma accept_authority_no_panic s : accept_authority s <> Panic.
Proof.
  unfold accept_authority, authority_port. destruct (starts_with [x5b] s) eqn:Hs.
  - apply obind_no_panic; [apply ok_or_no_panic|]. intros i Hi. destruct (find_byte x5d s) as [j|] eqn:E; [|done].
    injection Hi as <-. apply obind_no_panic; [by apply bracket_slice_no_panic|]. intros.
    do 2 (apply obind_no_panic; [apply ok_or_no_panic|]; intros). guard_goal; [done|].
    by apply obind_no_panic; [apply ok_or_no_panic|].
  - do 2 (apply obind_no_panic; [apply ok_or_no_panic|]; intros). destruct (parse_ip _); [done|]. by case_bool_decide.
Qed.

Lemma collect_framing_no_panic hs : forall ls cs, collect_framing hs ls cs <> Panic.
Proof.
  induction hs as [|[name value] hs IH]; intros ls cs; cbn [collect_framing]; [done|]. guard_goal.
  - apply obind_no_panic; [apply ok_or_no_panic|]. intros; apply IH.
  - guard_goal; apply IH.
Qed.

Lemma body_kind_no_panic hs : determine_request_body_kind hs <> Panic.
Proof.
  unfold determine_request_body_kind. apply obind_no_panic; [apply collect_framing_no_panic|]. intros [ls cs] _.
  apply obind_no_panic; [destruct ls; [done|by guard_goal]|]. intros _ _. destruct cs; [by destruct ls|].
  guard_goal; [done|]. guard_goal; [done|]. by destruct (List.find _ _).
Qed.

Lemma absolute_uri_no_panic s : parse_absolute_uri s <> Panic.
Proof.
  unfold parse_absolute_uri. apply obind_no_panic.
  { destruct (strip_prefix _ s); [done|]. by destruct (strip_prefix _ s). }
  intros [rest port] _. cbv zeta. apply obind_no_panic; [|by intros].
  generalize (take (default (length rest) (find_byte x2f rest)) rest) as a. intros a. unfold parse_authority_with_default, parse_port.
  assert (forall o : outcome HttpError (bytes * Z), o <> Panic ->
    (let? (host_str, port) := o in
     match parse_ip host_str with
     | Some ip => Ok {| host := Ip ip; tport := port |}
     | None => if bool_decide (host_str = []) then Err (TargetParseError "empty host")
               else Ok {| host := DomainName host_str; tport := port |}
     end) <> Panic) as Hplain.
  { intros o Ho. apply obind_no_panic; [done|]. intros [h p] _. destruct (parse_ip h); [done|]. by case_bool_decide. }
  assert (match rfind_byte x3a a with
    | Some i => let? port := ok_or (TargetParseError "invalid port") (parse_u16 (drop (i + 1) a)) in Ok (take i a, port)
    | None => Ok (a, port) end <> Panic) as Hr.
  { destruct (rfind_byte x3a a); [|done]. by apply obind_no_panic; [apply ok_or_no_panic|]. }
  destruct a as [|b a]; [by apply Hplain|]. destruct (decide (b = x5b)) as [->|Hb].
  - apply obind_no_panic; [apply ok_or_no_panic|]. intros i Hi. destruct (find_byte x5d (x5b :: a)) as [j|] eqn:E; [|done].
    injection Hi as <-. apply obind_no_panic; [by apply bracket_slice_no_panic|]. intros.
    apply obind_no_panic; [apply ok_or_no_panic|]. intros. apply obind_no_panic; [|by intros].
    destruct (_ !! _); [|done]. guard_goal; [|done]. apply obind_no_panic; [apply ok_or_no_panic|]. intros; apply ok_or_no_panic.
  - specialize (Hplain _ Hr). by destruct b.
Qed.

Lemma read_forward_no_panic c : (read_forward_request c).1 <> Panic.
Proof.
  unfold read_forward_request, read_head. apply mbind_no_panic.
  - apply head_loop_no_panic; [|lia|cbn [length]; lia]. intros h st. unfold request_step.
    destruct (4 <=? _); [|done]. destruct (ends_with _ _); [done|]. destruct (ends_with _ _); [|done].
    destruct st. by destruct (_ <? _).
  - intros head c1 _. apply mlift_no_panic. unfold parse_forward_head. destruct (split_crlf _) as [|rl lines]; [done|].
    destruct (split_whitespace rl) as [|? [|? [|? [|]]]]; try done. guard_goal; [done|].
    apply obind_no_panic; [apply absolute_uri_no_panic|]. intros [t p] _. cbv zeta.
    apply obind_no_panic; [apply body_kind_no_panic|]. intros k _. by destruct k.
Qed.
#[export] Hint Resolve read_forward_no_panic : nopanic.

(** ** Detection *)

Lemma need_more_short p : detect_http_method p = NeedMore -> length p <= 16.
Proof.
  unfold detect_http_method. destruct (find_byte x20 p).
  - cbv zeta. guard_goal; [done|]. by guard_goal.
  - guard_goal; [done|]. bool_to_prop. lia.
Qed.

Lemma read_some_back ready n l0 c l c' : read_some ready n c = (Ok l, c') ->
  prefixed_conn (prefixed_new (l0 ++ l) c') = prefixed_conn (prefixed_new l0 c).
Proof.
  unfold read_some, prefixed_conn, prefixed_new, set_in. cbn. destruct (c_in c) as [|b r] eqn:E.
  - destruct (c_end c) eqn:Ee; [done|]. intros [= <- <-]. by rewrite E, Ee, !app_nil_r, ?drop_0.
  - intros [= <- <-]. cbn [c_in c_end c_out c_quota]. by rewrite !drop_0, <- app_assoc, take_drop.
Qed.

(** The bytes sniffed are put back without loss: what is read afterwards is the
    original connection. *)
Lemma sniff_awp ip may ready fuel : forall prefix hit c (Q : option ClientIdentity -> bytes -> conn -> Prop),
  0 < fuel -> 17 < fuel + length prefix ->
  (forall p c', detect_http_method p = Match_ ->
     prefixed_conn (prefixed_new p c') = prefixed_conn (prefixed_new prefix c) -> Q hit p c') ->
  awp ip may hit (sniff_http ready fuel prefix c) Q.
Proof.
  induction fuel as [|f IH]; intros prefix hit c Q Hp Hf HQ; [lia|]. cbn [sniff_http].
  destruct (detect_http_method prefix) eqn:E; [by apply awp_ret, HQ| |apply awp_throw].
  apply need_more_short in E. guard_goal; [apply awp_throw|]. apply awp_run_bind.
  { unfold read_some. destruct (c_in c); [by destruct (c_end c)|done]. }
  intros buf c1 Hr. case_bool_decide as Hne; [apply awp_throw|]. cbv zeta.
  pose proof (read_some_back _ _ prefix _ _ _ Hr) as Hback. apply read_some_ok in Hr as (_ & Hl & _); [|lia].
  assert (0 < length buf) by (destruct buf; [done|cbn; lia]).
  assert (length (prefix ++ buf) <= 48) as Hlen by (rewrite length_app; lia).
  rewrite (proj2 (Nat.ltb_ge 512 _)) by lia. apply IH; [lia|rewrite length_app; lia|].
  intros p c' Hm He. apply HQ; [done|]. by rewrite He.
Qed.

(** ** Presenting the credentials *)

Section credentials.
Context {HL : ConnectLib}.
Variables (username password : bytes).

(** A line of a request head that authenticates as the user. *)
Definition auth_line (line : bytes) : Prop :=
  exists name value, connect_header_line line = Some (name, value) /\
    eq_ignore_ascii_case name (str "Proxy-Authorization") = true /\ server_basic_auth value = Some (username, password).

(** What the client sent begins with the listener's credentials, in the way of one
    of the protocols: the RFC 1929 message behind the SOCKS5 greeting; the user
    name of a SOCKS4 request (SOCKS4 has no password); a Proxy-Authorization header
    of an HTTP request. *)
Inductive presents (l : bytes) : Prop :=
| presents_socks5 n methods ul pl rest :
    b2n n = length methods -> b2n ul = length username -> b2n pl = length password ->
    l = [x05; n] ++ methods ++ [AUTH_VERSION; ul] ++ username ++ [pl] ++ password ++ rest -> presents l
| presents_socks4 r rest : s4_wf r -> s4_user_id r = username -> l = s4_wire r ++ rest -> presents l
| presents_http head rest line : first_head head -> l = head ++ rest ->
    line ∈ split_crlf (from_utf8_lossy head) -> auth_line line -> presents l.

Definition user_identity (id : ClientIdentity) : Prop :=
  id = Username username \/ username <> [] /\ id = Opaque username \/ username = [] /\ id = Anonymous.

(** Backed by a look-up or by the client's own input. *)
Definition backed (l : bytes) (hit : option ClientIdentity) (id : ClientIdentity) : Prop :=
  hit = Some id \/ presents l /\ user_identity id.

Definition session_identity (s : AcceptedSession) : option ClientIdentity :=
  match s with
  | Tunnel p => Some (pt_identity p)
  | HttpForward p => Some (pf_identity p)
  | UdpAssociate_ p => Some (pu_identity p)
  | Echo => None
  end.

(** A session with a backed identity, and the stream behind the handshake. *)
Definition admitted (c0 : conn) (hit : option ClientIdentity) (s : AcceptedSession) (c : conn) : Prop :=
  (exists id, session_identity s = Some id /\ backed (c_in c0) hit id) /\ exists l o, io l o c0 c.

Variables (auth : InboundAuthentication) (reuse : bool) (ip : option IpAddr).
Hypothesis Hauth : auth_credentials auth = Some (username, password, reuse).

Lemma awp_cached may c (Q : option ClientIdentity -> option ClientIdentity -> conn -> Prop) :
  (forall r, Q r r c) -> awp ip may None (cached_identity auth ip c) Q.
Proof using Hauth.
  intros HQ. unfold cached_identity. rewrite Hauth. destruct ip as [a|]; [|apply HQ].
  destruct reuse; [|apply HQ]. cbn. split; [done|]. apply HQ.
Qed.

Lemma awp_record (may : option ClientIdentity -> ClientIdentity -> Prop) hit id c (Q : option ClientIdentity -> unit -> conn -> Prop) :
  may hit id -> Q hit tt c -> awp ip may hit (record_authenticated auth ip id c) Q.
Proof using Hauth.
  intros Hm HQ. unfold record_authenticated. rewrite Hauth. destruct reuse; [|done]. by destruct ip.
Qed.

(** The three outcomes of the method selection of a listener with credentials. *)
Lemma accept_method_cases cached methods :
  accept_method true cached methods = AUTH_NO_ACCEPTABLE \/
  accept_method true cached methods = AUTH_USERNAME_PASSWORD \/
  accept_method true cached methods = AUTH_NONE /\ cached = true.
Proof using Type.
  unfold accept_method. cbn [negb orb andb]. destruct cached; cbn [andb].
  - destruct (contains_byte AUTH_NONE methods); [by auto|]. destruct (contains_byte _ _); auto.
  - destruct (contains_byte _ _); auto.
Qed.

Lemma io_more l1 o1 c c1 : io l1 o1 c c1 -> forall l2 o2 c2, io l2 o2 c1 c2 -> exists l o, io l o c c2.
Proof using Type. intros H1 l2 o2 c2 H2. eexists _, _. by eapply io_trans. Qed.

(** After the greeting: the identity the client is given. *)
Lemma socks5_identity_awp c c2 n methods r :
  b2n n = length methods -> c_in c = [x05; n] ++ methods ++ c_in c2 -> (exists l o, io l o c c2) ->
  awp ip (backed (c_in c)) r
    (match auth_credentials auth with
     | None => athrow AuthenticationFailed
     | Some (username, password, _) => fun c =>
         match read_auth_request username password c with
         | (Ok client_username, c) =>
             (let identity := Username client_username in
              record_authenticated auth ip identity ;;@
              arun socks5_err (send_auth_response true) ;;@
              aret identity) c
         | (Err _, c) => (arun socks5_err (mignore (send_auth_response false)) ;;@ athrow AuthenticationFailed) c
         | (Panic, c) => Done Panic c
         end
     end c2)
    (fun h id c' => h = r /\ backed (c_in c) h id /\ exists l o, io l o c c').
Proof using Hauth.
  intros Hn Hin (l1 & o1 & Hio1). rewrite Hauth. destruct (read_auth_request _ _ c2) as [[u|e|] c3] eqn:E.
  - apply read_auth_request_io in E as (ul & pl & Hul & Hpl & -> & Hio). pose proof (proj1 Hio) as Hin'.
    assert (backed (c_in c) r (Username username)) as Hb.
    { right. split; [|by left]. eapply (presents_socks5 _ n methods ul pl (c_in c3)); [done..|].
      rewrite Hin, Hin'. by rewrite <- !app_assoc. }
    cbv zeta. apply awp_bind, awp_record; [exact Hb|]. apply awp_run_bind; [auto with nopanic|].
    intros [] c4 Hw%send_auth_response_io. apply awp_ret. split; [done|]. split; [exact Hb|].
    eapply io_more; [eapply io_trans; [exact Hio1|exact Hio]|exact Hw].
  - apply awp_run_bind; [auto with nopanic|]. intros; apply awp_throw.
  - pose proof (auth_request_no_panic username password c2) as Hnp. by rewrite E in Hnp.
Qed.

Lemma accept_socks5_awp c : awp ip (backed (c_in c)) None (accept_socks5 auth ip c) (admitted c).
Proof using Hauth.
  unfold accept_socks5. apply awp_run_bind; [auto with nopanic|].
  intros methods c1 (n & Hn & Hio1)%read_method_negotiation_io. apply awp_bind, awp_cached. intros r. cbv zeta.
  rewrite (bool_decide_eq_true_2 (is_Some (auth_credentials auth))) by (rewrite Hauth; eauto).
  apply awp_run_bind; [auto with nopanic|]. intros [] c2 Hw%write_all_io. apply awp_run_bind; [done|].
  intros [] c3 [= <-]. guard_goal; [apply awp_throw|]. apply byte_eqb_false in G.
  pose proof (io_trans _ _ _ _ _ _ _ Hio1 Hw) as Hio2. rewrite app_nil_r in Hio2.
  apply awp_bind. eapply (awp_mono _ _ _ _ (fun h id c' => h = r /\ backed (c_in c) h id /\ exists l o, io l o c c')).
  { guard_goal.
    - eapply socks5_identity_awp; [exact Hn| |by eauto]. by rewrite (proj1 Hio2), <- app_assoc.
    - apply byte_eqb_false in G0. apply awp_ret. split; [done|]. split; [|by eauto].
      destruct (accept_method_cases (bool_decide (is_Some r)) methods) as [?|[?|[_ [id ->]%bool_decide_eq_true]]]; [done..|]. by left. }
  intros h id c' (-> & Hb & (l & o & Hio)). apply awp_run_bind; [auto with nopanic|].
  intros [cmd a] c4 (atyp & enc & _ & Hreq)%read_socks5_request_io. pose proof (io_more _ _ _ _ Hio _ _ _ Hreq) as Hall.
  destruct cmd; [apply awp_ret; split; [by eexists|done]| |apply awp_ret; split; [by eexists|done]].
  apply awp_run_bind; [auto with nopanic|]. intros; apply awp_throw.
Qed.

(** The check made when no cached identity was found. *)
Lemma uncached_awp may r (check : AM unit) (P : Prop) c1 :
  (r = None -> awp ip may None (check c1) (fun h _ c' => h = None /\ c' = c1 /\ P)) ->
  awp ip may r ((if negb (bool_decide (is_Some r)) then check else aret tt) c1)
    (fun h _ c' => h = r /\ c' = c1 /\ (r = None -> P)).
Proof using Type.
  intros H. destruct r as [id|]; cbn [negb].
  - rewrite bool_decide_eq_true_2 by eauto. by apply awp_ret.
  - rewrite bool_decide_eq_false_2 by (by intros []). cbn [negb]. eapply awp_mono; [by apply H|]. naive_solver.
Qed.

Lemma accept_socks4_awp c : awp ip (backed (c_in c)) None (accept_socks4 auth ip c) (admitted c).
Proof using Hauth.
  unfold accept_socks4. apply awp_run_bind; [auto with nopanic|]. intros req c1 (Hwf & Hio & _)%read_socks4_io. cbv zeta.
  apply awp_bind, awp_cached. intros r. apply awp_bind.
  assert (forall id, id = default (if bool_decide (s4_user_id req = []) then Anonymous else Opaque (s4_user_id req)) r ->
    (r = None -> s4_user_id req = username) -> backed (c_in c) r id) as Hb.
  { intros id -> Hu. destruct r as [id|]; [by left|]. cbn [default from_option id]. specialize (Hu eq_refl). right. split.
    - exact (presents_socks4 _ req (c_in c1) Hwf Hu (proj1 Hio)).
    - rewrite Hu. unfold user_identity. case_bool_decide; auto. }
  eapply (awp_mono _ _ _ _ (fun h _ c' => h = r /\ c' = c1 /\ (r = None -> s4_user_id req = username))).
  { apply uncached_awp. intros ->. rewrite Hauth. unfold ct_eq. destruct (bool_decide (s4_user_id req = username)) eqn:Hu; cbn [negb]; [|apply awp_throw].
    apply bool_decide_eq_true in Hu. by apply awp_ret. }
  intros h [] c' (-> & -> & Hu). specialize (Hb _ eq_refl Hu). apply awp_bind.
  eapply (awp_mono _ _ _ _ (fun h _ c' => h = r /\ c' = c1)).
  { destruct (default _ r); [by apply awp_ret|by apply awp_record..]. }
  intros h [] c' [-> ->]. apply awp_ret. split; [eexists; by split|by eauto].
Qed.

(** The credentials counted are those of a header line, and the user name kept is
    theirs. *)
Lemma connect_headers_auth lines : forall a u user,
  (forall x y, a = Some (x, y) -> u = Some x) ->
  connect_headers lines a u = (Some (username, password), user) ->
  user = Some username /\ (a = Some (username, password) \/ exists line, line ∈ lines /\ auth_line line).
Proof using Type.
  clear Hauth. induction lines as [|line lines IH]; intros a u user Hc H; cbn [connect_headers] in H.
  { injection H as -> ->. split; [by eapply Hc|by left]. }
  case_bool_decide as Hl; [injection H as -> ->; split; [by eapply Hc|by left]|].
  destruct (connect_header_line line) as [[name value]|] eqn:E.
  2:{ destruct (IH _ _ _ Hc H) as [? [?|(x & ? & ?)]]; split; eauto. right. exists x. set_solver. }
  destruct (eq_ignore_ascii_case name _) eqn:En.
  - apply IH in H; [|by intros x y ->]. destruct H as [-> [H|(x & ? & ?)]]; (split; [done|]); right.
    + exists line. split; [set_solver|]. by exists name, value.
    + exists x. set_solver.
  - destruct (IH _ _ _ Hc H) as [? [?|(x & ? & ?)]]; split; eauto. right. exists x. set_solver.
Qed.

Lemma first_proxy_auth_line lines :
  first_proxy_auth lines = Some (username, password) -> exists line, line ∈ lines /\ auth_line line.
Proof using Type.
  clear Hauth. induction lines as [|line lines IH]; cbn [first_proxy_auth]; [done|].
  assert (first_proxy_auth lines = Some (username, password) -> exists x, x ∈ line :: lines /\ auth_line x) as Hgo.
  { intros (x & ? & ?)%IH. exists x. set_solver. }
  destruct (connect_header_line line) as [[name value]|] eqn:E; [|done]. destruct (eq_ignore_ascii_case name _) eqn:En; [|done].
  intros H. exists line. split; [set_solver|]. by exists name, value.
Qed.

Lemma check_http_awp may found c1 :
  awp ip may None (check_http_auth username password found c1)
    (fun h _ c' => h = None /\ c' = c1 /\ found = Some (username, password)).
Proof using Type.
  clear Hauth. assert (forall A (Q : option ClientIdentity -> A -> conn -> Prop), awp ip may None (refuse_http c1) Q) as Hr.
  { intros A Q. apply awp_run_bind; [apply mignore_no_panic; unfold write_proxy_auth_required, flush; no_panic|].
    intros; apply awp_throw. }
  unfold check_http_auth. destruct found as [given|]; [|apply Hr].
  destruct (credentials_match given (username, password)) eqn:Hm; cbn [negb]; [|apply Hr].
  apply credentials_match_spec in Hm as ->. by apply awp_ret.
Qed.

(** The recording made for a user name. *)
Lemma record_username_awp l r id c1 : backed l r id ->
  awp ip (backed l) r ((match id with Username _ => record_authenticated auth ip id | _ => aret tt end) c1)
    (fun h _ c' => h = r /\ c' = c1).
Proof using Hauth. intros Hb. destruct id; [by apply awp_ret|by apply awp_record|by apply awp_ret]. Qed.

Lemma parse_connect_request_awp c c1 head :
  io head [] c c1 -> first_head head ->
  awp ip (backed (c_in c)) None (parse_connect_request head auth ip c1)
    (fun h r c' => backed (c_in c) h r.2 /\ c' = c1).
Proof using Hauth.
  intros Hio Hh. unfold parse_connect_request.
  destruct (split_crlf (from_utf8_lossy head)) as [|rl lines] eqn:El; [apply awp_throw|].
  destruct (split_whitespace rl) as [|? [|authority [|? [|]]]]; try apply awp_throw.
  apply awp_run_bind; [apply mlift_no_panic, accept_authority_no_panic|]. intros t c2 [= _ <-].
  destruct (connect_headers lines None None) as [proxy_auth parsed] eqn:Ec.
  apply awp_bind, awp_cached. intros r. apply awp_bind.
  eapply (awp_mono _ _ _ _ (fun h _ c' => h = r /\ c' = c1 /\ (r = None -> proxy_auth = Some (username, password)))).
  { apply uncached_awp. intros ->. rewrite Hauth. apply check_http_awp. }
  intros h [] c' (-> & -> & Hp). cbv zeta.
  assert (backed (c_in c) r (default (match parsed with Some user => Username user | None => Anonymous end) r)) as Hb.
  { destruct r as [id|]; [by left|]. specialize (Hp eq_refl) as ->.
    apply connect_headers_auth in Ec as [-> [|(line & Hin & Hl)]]; [done| |done]. right. split; [|by left].
    eapply (presents_http _ head (c_in c1) line); [done|exact (proj1 Hio)|rewrite El; set_solver|done]. }
  apply awp_bind. eapply awp_mono; [by apply record_username_awp|]. intros h [] c' [-> ->]. by apply awp_ret.
Qed.

Lemma prefixed_after head c c1 : io head [] c c1 -> c_quota c1 = c_quota c -> prefixed_conn (prefixed_new head c1) = c.
Proof using Type.
  clear Hauth. intros (Hin & Ho & He) Hq. unfold prefixed_conn, prefixed_new, set_in. cbn. rewrite drop_0, <- Hin, Ho, app_nil_r, He, Hq.
  by destruct c.
Qed.

Lemma accept_http_awp c : awp ip (backed (c_in c)) None (accept_http auth ip c) (admitted c).
Proof using Hauth.
  unfold accept_http. apply awp_run_bind; [auto with nopanic|]. intros head c1 Hrd.
  pose proof (read_http_head_quota _ _ _ Hrd) as Hq. apply read_http_head_ok in Hrd as [Hio Hh]. cbv zeta.
  case_bool_decide as Hm.
  { apply awp_bind. eapply awp_mono; [by apply parse_connect_request_awp|]. intros h [t id] c' [Hb ->]. apply awp_ret.
    split; [by eexists|by eauto]. }
  apply awp_bind, awp_cached. intros r. apply awp_bind.
  eapply (awp_mono _ _ _ _ (fun h pa c' => h = r /\ c' = c1 /\
    (r = None -> pa = Some (username, password) /\ presents (c_in c)))).
  { destruct r as [id|].
    - rewrite bool_decide_eq_true_2 by eauto. by apply awp_ret.
    - rewrite bool_decide_eq_false_2 by (by intros []). rewrite Hauth. cbv zeta. apply awp_bind.
      eapply awp_mono; [apply check_http_awp|]. intros h [] c' (-> & -> & Hf). apply awp_ret. split_and!; [done..|].
      intros _. split; [done|]. apply first_proxy_auth_line in Hf as (line & Hin & Hl).
      by eapply (presents_http _ head (c_in c1) line); [done|exact (proj1 Hio)| |]. }
  intros h pa c' (-> & -> & Hp).
  assert (backed (c_in c) r (default (match pa with Some (user, _) => Username user | None => Anonymous end) r)) as Hb.
  { destruct r as [id|]; [by left|]. destruct (Hp eq_refl) as [-> Hpr]. right. split; [done|by left]. }
  apply awp_bind. eapply awp_mono; [by apply record_username_awp|]. intros h [] c' [-> ->].
  apply awp_bind. cbn [unread awp]. rewrite (prefixed_after head c c1) by done.
  apply awp_run_bind; [auto with nopanic|]. intros req c2 (hd & Hio2 & _)%read_forward_request_ok. apply awp_ret.
  split; [by eexists|by eauto].
Qed.

(** A listener whose protocols are sniffed: none of the single-protocol forms. *)
Definition sniffed (protocols : list ProtocolId) : bool :=
  negb (only protocols PEcho || only protocols PRaw || only protocols PShadowsocks || only protocols PTrojan).

Context {HCr : Crypto}.
Variables (sha224 : bytes -> bytes) (ready : nat -> nat) (transport : Relay.stream).

Lemma accept_awp protocols ss tj fixed c :
  sniffed protocols = true ->
  awp ip (backed (c_in c)) None
    (accept_with_fixed_target_for_peer sha224 ready transport protocols auth ss tj fixed ip c) (admitted c).
Proof using Hauth.
  unfold sniffed. intros Hs. apply negb_true_iff, orb_false_iff in Hs as [[[He Hr]%orb_false_iff Hss]%orb_false_iff Ht].
  unfold accept_with_fixed_target_for_peer. rewrite He, Hr, Hss, Ht. apply awp_run_bind; [auto with nopanic|].
  intros b c1 Hb. cbv zeta.
  assert (prefixed_conn (prefixed_new [b] c1) = c) as Hback.
  { unfold read_u8 in Hb. apply mbind_ok in Hb as (l & c2 & Hl & Hb). unfold read_exact in Hl.
    destruct c as [[|x i] e o q]; cbn in Hl; [done|]. injection Hl as <- <-. rewrite take_0 in Hb. by injection Hb as <- <-. }
  guard_goal; [|guard_goal; [|guard_goal]].
  - apply awp_bind. cbn [unread awp]. rewrite Hback. apply accept_socks5_awp.
  - apply awp_bind. cbn [unread awp]. rewrite Hback. apply accept_socks4_awp.
  - apply awp_bind, sniff_awp; [lia|cbn; lia|]. intros p c' _ Hp. apply awp_bind. cbn [unread awp].
    rewrite Hp, Hback. apply accept_http_awp.
  - guard_goal; apply awp_throw.
Qed.
End credentials.

(** ** The server: connections that share the cache *)

Record task := {
  tk_ip : option IpAddr;                  (* the peer *)
  tk_input : bytes;                       (* what it sends *)
  tk_hit : option ClientIdentity;         (* the answer of its look-up *)
  tk_when : Z;                            (* and its time *)
  tk_tree : act AcceptedSession           (* what is left to do *)
}.

Record server := {
  sv_now : Z;
  sv_cache : AuthReuseCache;
  sv_window : SaltReplayWindow;
  sv_tasks : list task;
  sv_log : list (Z * IpAddr * ClientIdentity)   (* the recordings, newest first *)
}.

Section server.
Context {HI : HashIter} {HL : ConnectLib} {HCr : Crypto}.
Variables (sha224 : bytes -> bytes) (ready : nat -> nat) (transport : Relay.stream).
Variables (epoch reuse_timeout : Z) (username password : bytes).

Definition server_start (now : Z) : server :=
  {| sv_now := now; sv_cache := cache_new reuse_timeout; sv_window := window_init; sv_tasks := []; sv_log := [] |}.

Definition set_tree (tk : task) (t : act AcceptedSession) : task :=
  {| tk_ip := tk_ip tk; tk_input := tk_input tk; tk_hit := tk_hit tk; tk_when := tk_when tk; tk_tree := t |}.

(** A connection arrives at a listener. *)
Definition connect_task (protocols : list ProtocolId) (auth : InboundAuthentication)
    (ss : option InboundShadowsocksConfig) (tj : option InboundTrojanConfig) (fixed : option TargetAddr)
    (ip : option IpAddr) (c : conn) (s : server) : server :=
  {| sv_now := sv_now s; sv_cache := sv_cache s; sv_window := sv_window s;
     sv_tasks := sv_tasks s ++
       [{| tk_ip := ip; tk_input := c_in c; tk_hit := None; tk_when := sv_now s;
           tk_tree := accept_with_fixed_target_for_peer sha224 ready transport protocols auth ss tj fixed ip c |}];
     sv_log := sv_log s |}.

(** Task [i] does its next operation on the shared state. *)
Definition task_step (i : nat) (s : server) : option server :=
  tk ← sv_tasks s !! i;
  match tk_tree tk with
  | Done _ _ => None
  | Lookup ip k =>
      let '(r, cache) := cache_lookup (sv_now s) ip (sv_cache s) in
      Some {| sv_now := sv_now s; sv_cache := cache; sv_window := sv_window s;
              sv_tasks := <[i := {| tk_ip := tk_ip tk; tk_input := tk_input tk; tk_hit := r; tk_when := sv_now s; tk_tree := k r |}]> (sv_tasks s);
              sv_log := sv_log s |}
  | Record_ ip id k =>
      Some {| sv_now := sv_now s; sv_cache := cache_record epoch (sv_now s) ip id (sv_cache s); sv_window := sv_window s;
              sv_tasks := <[i := set_tree tk k]> (sv_tasks s); sv_log := (sv_now s, ip, id) :: sv_log s |}
  | CheckSalt salt k =>
      let '(replayed, w) := check_tcp_salt_replay (sv_window s) salt in
      Some {| sv_now := sv_now s; sv_cache := sv_cache s; sv_window := w;
              sv_tasks := <[i := set_tree tk (k replayed)]> (sv_tasks s); sv_log := sv_log s |}
  end.

Definition set_now (now : Z) (s : server) : server :=
  {| sv_now := now; sv_cache := sv_cache s; sv_window := sv_window s; sv_tasks := sv_tasks s; sv_log := sv_log s |}.

Inductive server_step (s : server) : server -> Prop :=
| step_time now' : (sv_now s <= now')%Z -> server_step s (set_now now' s)
| step_connect protocols auth reuse ss tj fixed ip c :
    auth_credentials auth = Some (username, password, reuse) -> sniffed protocols = true ->
    server_step s (connect_task protocols auth ss tj fixed ip c s)
| step_shared i s' : task_step i s = Some s' -> server_step s s'.

Definition server_reachable (s : server) : Prop := exists now, rtc server_step (server_start now) s.

(** *** The invariant *)

Definition peer_of (tk : task) : option IpAddr * bytes := (tk_ip tk, tk_input tk).
Abbreviation peers s := (peer_of <$> sv_tasks s).

(** A recording within the timeout before the task's look-up. *)
Definition vouched (log : list (Z * IpAddr * ClientIdentity)) (tk : task) (id : ClientIdentity) : Prop :=
  exists ip t, tk_ip tk = Some ip /\ (t, ip, id) ∈ log /\ (t <= tk_when tk <= t + reuse_timeout)%Z.

Definition task_ok (log : list (Z * IpAddr * ClientIdentity)) (tk : task) : Prop :=
  awp (tk_ip tk) (backed username password (tk_input tk)) (tk_hit tk) (tk_tree tk)
    (fun hit s _ => exists id, session_identity s = Some id /\ backed username password (tk_input tk) hit id) /\
  forall id, tk_hit tk = Some id -> vouched log tk id.

Record server_inv (s : server) : Prop := {
  si_cache : exists m, cache_run epoch reuse_timeout (sv_now s) (sv_cache s) m /\
    forall ip e, m !! ip = Some e -> (last_authenticated e, ip, ae_identity e) ∈ sv_log s;
  si_log : forall t ip id, (t, ip, id) ∈ sv_log s ->
    user_identity username id /\ exists l, (Some ip, l) ∈ peers s /\ presents username password l;
  si_tasks : Forall (task_ok (sv_log s)) (sv_tasks s)
}.

Lemma vouched_mono log e tk id : vouched log tk id -> vouched (e :: log) tk id.
Proof using Type. intros (ip & t & Hip & Hin & Ht). exists ip, t. split; [done|]. split; [by right|done]. Qed.

Lemma task_ok_mono log e tk : task_ok log tk -> task_ok (e :: log) tk.
Proof using Type. intros [Ha Hv]. split; [done|]. intros id Hid. by apply vouched_mono, Hv. Qed.

Lemma peers_insert s i tk tk' : sv_tasks s !! i = Some tk -> peer_of tk' = peer_of tk ->
  peer_of <$> <[i := tk']> (sv_tasks s) = peers s.
Proof using Type.
  intros Hi He. rewrite list_fmap_insert, He. apply list_insert_id. by rewrite list_lookup_fmap, Hi.
Qed.

(** A hit of the look-up is vouched for. *)
Lemma lookup_vouched now c m (log : list (Z * IpAddr * ClientIdentity)) ip id : cache_run epoch reuse_timeout now c m ->
  (forall ip e, m !! ip = Some e -> (last_authenticated e, ip, ae_identity e) ∈ log) ->
  (cache_lookup now ip c).1 = Some id ->
  exists t, (t, ip, id) ∈ log /\ (t <= now <= t + reuse_timeout)%Z.
Proof using Type.
  intros Hrun Hlog Hl. apply cache_run_inv in Hrun as [Ht _ _ Hsub Hp _]. unfold cache_lookup in Hl.
  destruct (entries c !! ip) as [e|] eqn:E; [|done]. destruct (expired now c e) eqn:Hx; [done|]. injection Hl as <-.
  pose proof (lookup_weaken _ _ _ _ E Hsub) as Hm. exists (last_authenticated e). split; [by apply Hlog|].
  specialize (Hp ip e Hm). cbn in Hp. unfold expired, duration_since in Hx. rewrite Ht in Hx. lia.
Qed.

Lemma shared_inv i s s' : server_inv s -> task_step i s = Some s' -> server_inv s'.
Proof using Type.
  intros [(m & Hrun & Hm) Hlog Htk] H. unfold task_step in H. apply bind_Some in H as (tk & Hi & H).
  pose proof (proj1 (Forall_lookup _ _) Htk i tk Hi) as [Hw Hv]. destruct (tk_tree tk) as [|ip k|ip id k|salt k]; [done|..].
  - destruct Hw as [Hip Hk]. destruct (cache_lookup (sv_now s) ip (sv_cache s)) as [r cache] eqn:E. injection H as <-.
    assert (cache = (cache_lookup (sv_now s) ip (sv_cache s)).2) as -> by (by rewrite E).
    split; cbn [sv_now sv_cache sv_log sv_tasks].
    + exists m. split; [|done]. by apply run_lookup.
    + rewrite (peers_insert s i tk) by done. done.
    + apply Forall_insert; [done|]. split; cbn [tk_ip tk_input tk_hit tk_tree]; [apply Hk|].
      intros id ->. destruct (lookup_vouched (sv_now s) (sv_cache s) m (sv_log s) ip id) as (t & Hin & Hle); [done..|by rewrite E|].
      by exists ip, t.
  - destruct Hw as (Hip & Hb & Hk). injection H as <-. split; cbn [sv_now sv_cache sv_log sv_tasks].
    + eexists. split; [by apply run_record|]. intros ip' e. destruct (decide (ip' = ip)) as [->|Hne].
      * rewrite lookup_insert_eq. intros [= <-]. by left.
      * rewrite lookup_insert_ne by done. intros He. right. by apply Hm.
    + rewrite (peers_insert s i tk) by done. intros t ip' id' [[= -> -> ->]|Hin]%elem_of_cons; [|by eapply Hlog].
      destruct Hb as [Hhit|[Hpr Hu]].
      * destruct (Hv id Hhit) as (ip0 & t0 & Hip0 & Hin & _). assert (ip0 = ip) as -> by congruence. by eapply Hlog.
      * split; [done|]. exists (tk_input tk). split; [|done]. apply list_elem_of_lookup. exists i.
        rewrite list_lookup_fmap, Hi. cbn. unfold peer_of. by rewrite Hip.
    + apply Forall_insert; [eapply Forall_impl; [exact Htk|]; intros; by apply task_ok_mono|].
      apply task_ok_mono. by split.
  - destruct (check_tcp_salt_replay (sv_window s) salt) as [replayed w]. injection H as <-.
    split; cbn [sv_now sv_cache sv_log sv_tasks]; [by eauto|by rewrite (peers_insert s i tk)|].
    apply Forall_insert; [done|]. split; [apply Hw|done].
Qed.

Lemma step_inv s s' : server_inv s -> server_step s s' -> server_inv s'.
Proof using Type.
  intros [(m & Hrun & Hm) Hlog Htk] H. destruct H as [now' Hn|protocols auth reuse ss tj fixed ip c Ha Hs|i s' H].
  - split; [|done|done]. exists m. split; [|done]. by eapply run_time.
  - split; cbn [connect_task sv_now sv_cache sv_log sv_tasks]; [by eauto| |].
    + intros t ip' id Hin. destruct (Hlog t ip' id Hin) as (Hu & l & Hl & Hpr). split; [done|]. exists l.
      rewrite fmap_app. split; [|done]. apply elem_of_app. by left.
    + apply Forall_app_2; [done|]. apply Forall_singleton. split; [|done]. cbn [tk_ip tk_input tk_hit tk_tree].
      eapply awp_mono; [by eapply accept_awp|]. intros h x c' [(id & Hid & Hb) _]. eauto.
  - eapply shared_inv; [|exact H]. split; [by eauto|done|done].
Qed.

Lemma steps_inv s s' : rtc server_step s s' -> server_inv s -> server_inv s'.
Proof using Type. induction 1 as [|s1 s2 s3 Hst _ IH]; [done|]. intros H. apply IH. by eapply step_inv. Qed.

Lemma reachable_inv s : server_reachable s -> server_inv s.
Proof using Type.
  intros [now H]. apply (steps_inv _ _ H). split; cbn; [|by intros ? ? ? ?%not_elem_of_nil|constructor].
  exists ∅. split; [apply run_start|]. by intros ip e ?%lookup_empty_Some.
Qed.

End server.

(** ** A run with one login and one reuse *)

Module SampleServer.
Import SampleHash SampleConnect SampleCrypto.

Definition sample_ready (n : nat) : nat := n.
Definition sample_auth : InboundAuthentication := UsernamePasswordWithReuse (str "ann") (str "pw").
Definition sample_request : bytes := [x05; x01; x00; x01; x0a; x00; x00; x01; x00; x50].

(** The first client logs in; the second offers no authentication. *)
Definition login : bytes := [x05; x01; x02] ++ [x01; x03] ++ str "ann" ++ [x02] ++ str "pw" ++ sample_request.
Definition reuse : bytes := [x05; x01; x00] ++ sample_request.

Definition reachable : server -> Prop := server_reachable sample_digest sample_ready (demo_stream []) 0 10 (str "ann") (str "pw").

Definition accepted (l : bytes) (written : bytes) : act AcceptedSession :=
  Done (Ok (Tunnel {| pt_target := {| host := Ip (V4 [x0a; x00; x00; x01]); tport := 80 |}; pt_client := Plain;
    pt_protocol := TpSocks5; pt_reply_context := RcSocks5; pt_identity := Username (str "ann") |})) (Conn [] None written None).

Definition sample_connect (l : bytes) (s : server) : server :=
  connect_task sample_digest sample_ready (demo_stream []) [PSocks5; PHttp] sample_auth None None None
    (Some demo_peer) (Conn l None [] None) s.

Definition after_login : option server :=
  s ← task_step 0 0 (sample_connect login (server_start 10 0)); task_step 0 0 s.

Definition after_reuse : option server := s ← after_login; task_step 0 1 (sample_connect reuse (set_now 7 s)).

Lemma two_connections : exists s tk, reachable s /\ tk ∈ sv_tasks s /\ tk_input tk = reuse /\ tk_tree tk = accepted reuse [x05; x00].
Proof.
  assert (sv_now <$> after_login = Some 0%Z) as Hn by by vm_compute.
  assert ((fun s => (fun tk => (tk_input tk, tk_tree tk)) <$> sv_tasks s !! 1) <$> after_reuse =
    Some (Some (reuse, accepted reuse [x05; x00]))) as Ht by by vm_compute.
  destruct after_reuse as [s3|] eqn:E; [|done]. injection Ht as Ht. apply fmap_Some in Ht as (tk & Hi & [= Hin Htr]).
  unfold after_reuse in E. apply bind_Some in E as (s2 & E2 & E3). rewrite E2 in Hn. injection Hn as Hn.
  apply bind_Some in E2 as (s1 & E1 & E2). exists s3, tk. split; [exists 0%Z|split; [by eapply list_elem_of_lookup_2|done]].
  eapply rtc_l; [apply (step_connect _ _ _ _ _ _ _ [PSocks5; PHttp] sample_auth true None None None (Some demo_peer) (Conn login None [] None)); reflexivity|].
  eapply rtc_l; [exact (step_shared _ _ _ _ _ _ _ 0 s1 E1)|].
  eapply rtc_l; [exact (step_shared _ _ _ _ _ _ _ 0 s2 E2)|].
  eapply rtc_l; [apply (step_time _ _ _ _ _ _ _ 7%Z); lia|].
  eapply rtc_l; [apply (step_connect _ _ _ _ _ _ _ [PSocks5; PHttp] sample_auth true None None None (Some demo_peer) (Conn reuse None [] None)); reflexivity|].
  eapply rtc_l; [exact (step_shared _ _ _ _ _ _ _ 1 s3 E3)|]. apply rtc_refl.
Qed.
End SampleServer.


(** ** Single-protocol listeners *)

(** A task run without interference. *)
Fixpoint run_act {HI : HashIter} {A} (epoch now : Z) (cache : AuthReuseCache) (w : SaltReplayWindow) (t : act A)
    : outcome AcceptError A * conn * AuthReuseCache * SaltReplayWindow :=
  match t with
  | Done r c => (r, c, cache, w)
  | Lookup ip k => let '(r, cache) := cache_lookup now ip cache in run_act epoch now cache w (k r)
  | Record_ ip id k => run_act epoch now (cache_record epoch now ip id cache) w k
  | CheckSalt salt k => let '(r, w) := check_tcp_salt_replay w salt in run_act epoch now cache w (k r)
  end.

Section single.
Context {HI : HashIter} {HL : ConnectLib} {HCr : Crypto}.
Variables (sha224 : bytes -> bytes) (ready : nat -> nat) (transport : Relay.stream).

Lemma only_spec protocols p : only protocols p = bool_decide (protocols = [p]).
Proof using Type.
  unfold only. destruct protocols as [|x [|y l]]; cbn [length Nat.eqb andb].
  - by rewrite bool_decide_eq_false_2.
  - apply bool_decide_ext. set_solver.
  - by rewrite bool_decide_eq_false_2.
Qed.

(** The Shadowsocks listener is [shadowsocks_accept] under the configured method. *)
Lemma accept_shadowsocks_run epoch now cache w cfg m c :
  parse_method (ss_method cfg) = Ok m ->
  run_act epoch now cache w (accept_shadowsocks transport cfg c) =
  (let '(r, c', w') := shadowsocks_accept w transport (ss_password cfg) m c in
   (map_err (fun e => AProtocol (CShadowsocks e))
      (let? (ss, t) := r in
       Ok (Tunnel {| pt_target := t; pt_client := Encrypted ss; pt_protocol := TpShadowsocks;
                     pt_reply_context := RcShadowsocks; pt_identity := Anonymous |})), c', cache, w')).
Proof using Type.
  intros Hm. unfold accept_shadowsocks, shadowsocks_accept. rewrite Hm.
  destruct (read_exact _ c) as [[salt|e|] c1]; [|done|done]. cbn [run_act].
  destruct (check_tcp_salt_replay w salt) as [[] w']; [done|]. unfold abind, arun.
  by destruct (accept_body _ _ _ _ _) as [[[ss t]|e|] c2].
Qed.

Lemma trojan_dispatch auth ss cfg fixed ip b l e o q :
  accept_with_fixed_target_for_peer sha224 ready transport [PTrojan] auth ss (Some cfg) fixed ip (Conn (b :: l) e o q) =
  accept_trojan sha224 cfg b (Conn l e o q).
Proof using Type.
  unfold accept_with_fixed_target_for_peer. rewrite !only_spec, !(bool_decide_eq_false_2 (_ = _)) by done.
  unfold abind at 1, arun at 1. rewrite read_u8_fwd. cbn [map_err act_bind]. cbv zeta.
  rewrite !(bool_decide_eq_false_2 (_ ∈ [PTrojan])), !andb_false_r by set_solver.
  by rewrite (bool_decide_eq_true_2 ([PTrojan] = [PTrojan])).
Qed.

Lemma trojan_after_hash cfg b hash rest e o q : length hash = 55 ->
  accept_trojan sha224 cfg b (Conn (hash ++ rest) e o q) =
  (if trojan_check_password sha224 (b :: hash) (tj_password cfg) then
     unread (b :: hash) ;;@
     let@ target := arun (fun e => AProtocol (CTrojan e)) (trojan_accept sha224 (tj_password cfg)) in
     aret (trojan_tunnel target)
   else
     match tj_fallback cfg with
     | Some fallback_target =>
         let@ _ := arun id (read_exact 2) in
         let@ target := arun (fun _ => text_err "invalid trojan fallback address") (mlift (parse_target_addr fallback_target)) in
         aret (trojan_tunnel target)
     | None => athrow AuthenticationFailed
     end) (Conn rest e o q).
Proof using Type.
  intros Hl. unfold accept_trojan. unfold abind at 1, arun at 1. rewrite read_exact_fwd by done. reflexivity.
Qed.

(** What a Trojan listener does, on every branch.  A client that sends the hash
    of the password gets the tunnel its Trojan request asks for, read on the
    unaltered stream; any other client is refused or, when a fallback is configured,
    gets a tunnel to the fallback address and nothing else, its stream beginning
    behind the hash and the two bytes that follow it.  The bytes the client sends
    never choose the target without the password. *)
Theorem trojan_listener_exact auth ss cfg fixed ip b hash rest e o q :
  length hash = 55 ->
  let c := Conn (b :: hash ++ rest) e o q in
  let session := accept_with_fixed_target_for_peer sha224 ready transport [PTrojan] auth ss (Some cfg) fixed ip c in
  if trojan_check_password sha224 (b :: hash) (tj_password cfg) then
    session = arun (fun e => AProtocol (CTrojan e)) (let! t := trojan_accept sha224 (tj_password cfg) in mret (trojan_tunnel t)) c
  else
    match tj_fallback cfg with
    | None => session = Done (Err AuthenticationFailed) (Conn rest e o q)
    | Some fallback =>
        match rest with
        | d0 :: d1 :: rest => session =
            Done (map_err (fun _ => text_err "invalid trojan fallback address") (let? t := parse_target_addr fallback in Ok (trojan_tunnel t)))
              (Conn rest e o q)
        | _ => exists err, session = Done (Err err) (Conn [] e o q)
        end
    end.
Proof using Type.
  intros Hl c session. subst session c. rewrite trojan_dispatch, trojan_after_hash by done.
  destruct (trojan_check_password _ _ _).
  - unfold abind, arun, unread, prefixed_conn, prefixed_new, set_in. cbn [act_bind ps_pos ps_prefix ps_inner c_in c_end c_out c_quota drop].
    rewrite <- app_comm_cons. unfold mbind. by destruct (trojan_accept _ _ _) as [[t|er|] c'].
  - destruct (tj_fallback cfg) as [fallback|]; [|done].
    destruct rest as [|d0 [|d1 rest]]; [by eexists|by eexists|]. unfold abind, arun.
    change (d0 :: d1 :: rest) with ([d0; d1] ++ rest). rewrite read_exact_fwd by done.
    cbn [map_err act_bind]. unfold mlift. by destruct (parse_target_addr fallback).
Qed.
End single.

Definition demo_trojan : InboundTrojanConfig := {| tj_password := str "secret"; tj_fallback := Some (str "127.0.0.1:80") |}.

Lemma trojan_listener_exact_witness :
  length (replicate 55 x30) = 55 /\
  accept_with_fixed_target_for_peer (HL:=SampleConnect.lib) (HCr:=SampleCrypto.sample) sample_digest (fun n => n) (demo_stream [])
    [PTrojan] NoAuth None (Some demo_trojan) None None (Conn (x30 :: replicate 55 x30 ++ CRLF ++ str "GET /") None [] None) =
  Done (Ok (trojan_tunnel {| host := Ip demo_peer; tport := 80 |})) (Conn (str "GET /") None [] None).
Proof.
  split; [reflexivity|].
  etransitivity; [exact (trojan_listener_exact (HL:=SampleConnect.lib) (HCr:=SampleCrypto.sample) sample_digest (fun n => n) (demo_stream [])
    NoAuth None demo_trojan None None x30 (replicate 55 x30) (CRLF ++ str "GET /") None [] None eq_refl)|]. vm_compute. reflexivity.
Defined.
