(* ===== verification/Reply.v ===== *)
(** * Session errors and replies

    Models [crates/eggress-outbound/src/classify.rs], [eggress-server/src/error.rs]
    and [eggress-server/src/reply.rs]: how a failure to open a route is classified
    and what the client of each protocol is told. *)

From S2P Require Import Prelude Bytes Decimal Stream NetAddr Connector Dispatch Matcher Socks5 Socks5Handshake Socks4 Shadowsocks Trojan HttpText HttpConnect WebSocket Uri Capability Chain Accept.

(** ** Classification *)

(** The kinds of [std::io::ErrorKind] the classifier tells apart. *)
Inductive ErrorKind := KConnectionRefused | KTimedOut | KNetworkUnreachable | KHostUnreachable | KOther.

Inductive ClassifiedKind :=
| CkTimeout | CkDns | CkRefused | CkNetworkUnreachable | CkHostUnreachable | CkAuth | CkTls | CkProtocol | CkPolicy | CkOther.

Definition classify_io_kind (k : ErrorKind) : ClassifiedKind :=
  match k with
  | KConnectionRefused => CkRefused
  | KTimedOut => CkTimeout
  | KNetworkUnreachable => CkNetworkUnreachable
  | KHostUnreachable => CkHostUnreachable
  | KOther => CkOther
  end.

Inductive HandshakeError := HsIo (kind : ErrorKind) | HsConnectionRefused | HsAuthFailed | HsProtocol | HsOther.
Inductive H2ConnectError := H2Io (kind : ErrorKind) | H2H2 | H2Http (e : HttpError) | H2PoolExhausted | H2DnsRebinding.

(** The concrete types a boxed handshake error is tried against, in this order. *)
Inductive handshake_source :=
| SrcIo (kind : ErrorKind) | SrcConnect (e : Connector.ConnectError) | SrcHandshake (e : HandshakeError)
| SrcHttp (e : HttpError) | SrcH2 (e : H2ConnectError) | SrcSocks5 (e : Socks5Error) | SrcSocks4 (e : Socks4Error)
| SrcTls | SrcTrojan (e : TrojanError) | SrcShadowsocks (e : ShadowsocksError) | SrcWebSocket (e : WebSocketError)
| SrcUnknown.

Section classify.
(** The kind of the error with this code of the operating system, and the concrete
    type behind a boxed handshake error. *)
Variables (io_kind : Z -> ErrorKind) (source_of : Z -> handshake_source).

Definition io_error_kind (e : IoError) : ErrorKind :=
  match e with IoUnexpectedEof => KOther | IoOther code => io_kind code end.

Definition classify_connect_error (e : Connector.ConnectError) : ClassifiedKind :=
  match e with
  | CeConnectionRefused => CkRefused
  | CeTimeout => CkTimeout
  | CeDnsNoAddresses | CeDnsResolution _ => CkDns
  | CeTlsHandshake _ => CkTls
  | CeReservedTarget _ => CkPolicy
  | CeBindIncompatible _ _ => classify_io_kind KOther
  | CeIo code => classify_io_kind (io_kind code)
  end.

Definition classify_http (e : HttpError) : ClassifiedKind :=
  match e with
  | HttpText.AuthRequired | HttpText.AuthFailed => CkAuth
  | HttpText.ConnectionRefused => CkRefused
  | GatewayTimeout => CkTimeout
  | BadGateway => CkProtocol
  | HttpIo io => classify_io_kind (io_error_kind io)
  | UnexpectedStatus _ => CkProtocol
  | _ => CkProtocol
  end.

Definition classify_handshake_source (s : handshake_source) : ClassifiedKind :=
  match s with
  | SrcIo k => classify_io_kind k
  | SrcConnect e => classify_connect_error e
  | SrcHandshake e =>
      match e with
      | HsIo k => classify_io_kind k
      | HsConnectionRefused => CkRefused
      | HsAuthFailed => CkAuth
      | HsProtocol => CkProtocol
      | HsOther => CkOther
      end
  | SrcHttp e => classify_http e
  | SrcH2 e =>
      match e with
      | H2Io k => classify_io_kind k
      | H2Http inner => classify_http inner
      | H2DnsRebinding => CkPolicy
      | H2H2 => CkProtocol
      | H2PoolExhausted => CkOther
      end
  | SrcSocks5 e =>
      match e with
      | Socks5.AuthFailed => CkAuth
      | Socks5.ConnectionRefused => CkRefused
      | Socks5.Io io => classify_io_kind (io_error_kind io)
      | Socks5.ConnectionFailed _ => CkProtocol
      | _ => CkProtocol
      end
  | SrcSocks4 e =>
      match e with
      | S4ConnectionRefused => CkRefused
      | S4ConnectionFailed => CkProtocol
      | S4FailedNoIdent | S4FailedDifferentUser => CkAuth
      | S4Io io => classify_io_kind (io_error_kind io)
      | _ => CkProtocol
      end
  | SrcTls => CkTls
  | SrcTrojan e =>
      match e with
      | TrojanAuthFailed => CkAuth
      | TrojanConnectionRefused => CkRefused
      | TrojanTls _ => CkTls
      | TrojanIo io => classify_io_kind (io_error_kind io)
      | TrojanProtocol _ => CkProtocol
      end
  | SrcShadowsocks e => match e with SSIo io => classify_io_kind (io_error_kind io) | _ => CkProtocol end
  | SrcWebSocket e => match e with WsIo io => classify_io_kind (io_error_kind io) | _ => CkProtocol end
  | SrcUnknown => CkOther
  end.

(** ** Errors of opening a route ([error.rs]) *)

(** The texts of [Other] are not modelled. *)
Inductive SessionOpenError :=
| SoTimeout | SoRefused | SoNetworkUnreachable | SoHostUnreachable | SoDns | SoUpstreamAuthentication
| SoPolicyDenied | SoUpstreamUnavailable | SoHop (hop : nat) (source : SessionOpenError) | SoOther.

Definition session_io (k : ClassifiedKind) : SessionOpenError :=
  match k with
  | CkRefused => SoRefused
  | CkTimeout => SoTimeout
  | CkNetworkUnreachable => SoNetworkUnreachable
  | CkHostUnreachable => SoHostUnreachable
  | _ => SoOther
  end.

Definition from_connect_error (e : Connector.ConnectError) : SessionOpenError :=
  match e with
  | CeConnectionRefused => SoRefused
  | CeTimeout => SoTimeout
  | CeDnsNoAddresses | CeDnsResolution _ => SoDns
  | CeTlsHandshake _ => SoOther
  | CeBindIncompatible _ _ => session_io (classify_io_kind KOther)
  | CeIo code => session_io (classify_io_kind (io_kind code))
  | CeReservedTarget _ => SoOther
  end.

Definition from_handshake_kind (k : ClassifiedKind) : SessionOpenError :=
  match k with
  | CkAuth => SoUpstreamAuthentication
  | CkRefused => SoRefused
  | CkTimeout => SoTimeout
  | CkDns => SoDns
  | CkNetworkUnreachable => SoNetworkUnreachable
  | CkHostUnreachable => SoHostUnreachable
  | CkPolicy => SoPolicyDenied
  | CkTls | CkProtocol | CkOther => SoOther
  end.

Definition from_chain_error (e : ChainError) : SessionOpenError :=
  match e with
  | ConnectFailed hop_index _ source => SoHop hop_index (from_connect_error source)
  | HandshakeFailed hop_index _ source => SoHop hop_index (from_handshake_kind (classify_handshake_source (source_of source)))
  | EmptyChain => SoOther
  | InvalidChain _ => SoOther
  end.
End classify.

Definition from_http_error (e : HttpError) : SessionOpenError :=
  match e with
  | HttpText.AuthRequired | HttpText.AuthFailed => SoUpstreamAuthentication
  | HttpText.ConnectionRefused => SoRefused
  | GatewayTimeout => SoTimeout
  | _ => SoOther
  end.

Definition from_socks5_error (e : Socks5Error) : SessionOpenError :=
  match e with
  | Socks5.ConnectionRefused => SoRefused
  | Socks5.AuthFailed => SoUpstreamAuthentication
  | _ => SoOther
  end.

(** ** Replies ([reply.rs]) *)

Inductive ReplyError := ReIo (e : IoError) | ReSocks4 (e : Socks4Error) | ReSocks5 (e : Socks5Error) | ReMismatch.

#[export] Instance reply_from_io : FromIo ReplyError := ReIo.

(** A computation of another component, its error boxed. *)
Definition boxed {E A} (wrap : E -> ReplyError) (m : M E A) : M ReplyError A := fun c =>
  let '(r, c') := m c in (map_err wrap r, c').

(** Whether the reply left the client's stream open or shut it down. *)
Inductive reply_end := LeftOpen | ShutDown.

Definition unspecified_ipv4 : SocketAddr := {| sa_ip := V4 [x00; x00; x00; x00]; sa_port := 0 |}.
Definition unspecified_socks : SocksAddr := IPv4 [x00; x00; x00; x00] 0.

Definition send_tunnel_success (p : TunnelProtocol) (ctx : ReplyContext) : M ReplyError unit :=
  match p, ctx with
  | TpHttpConnect, RcHttp => write_all (str "HTTP/1.1 200 Connection Established" ++ CRLF2)
  | TpHttp2, RcHttp2 | TpHttp3, RcHttp3 | TpWebSocket, RcWebSocket => mret tt
  | TpSocks4, RcSocks4 => boxed ReSocks4 (write_socks4_reply Granted unspecified_ipv4)
  | TpSocks5, RcSocks5 => boxed ReSocks5 (send_connect_reply x00 unspecified_socks)
  | TpShadowsocks, RcShadowsocks | TpTrojan, RcTrojan | TpRaw, RcRaw => mret tt
  | _, _ => mthrow ReMismatch
  end.

Definition http_status (line : string) : bytes := str line ++ CRLF ++ str "Connection: close" ++ CRLF2.

Definition http_failure_status (e : SessionOpenError) : bytes :=
  match e with
  | SoTimeout => http_status "HTTP/1.1 504 Gateway Timeout"
  | SoPolicyDenied => http_status "HTTP/1.1 403 Forbidden"
  | _ => http_status "HTTP/1.1 502 Bad Gateway"
  end.

Definition socks5_failure_rep (e : SessionOpenError) : byte :=
  match e with
  | SoTimeout => x06
  | SoPolicyDenied => x02
  | SoNetworkUnreachable => x03
  | SoHostUnreachable | SoDns => x04
  | SoRefused => x05
  | _ => x01
  end.

Definition send_tunnel_failure (p : TunnelProtocol) (ctx : ReplyContext) (e : SessionOpenError) : M ReplyError reply_end :=
  match p, ctx with
  | TpHttpConnect, RcHttp => write_all (http_failure_status e) ;; mret LeftOpen
  | TpHttp2, RcHttp2 | TpHttp3, RcHttp3 | TpWebSocket, RcWebSocket => mret ShutDown
  | TpSocks4, RcSocks4 => boxed ReSocks4 (write_socks4_reply Failed unspecified_ipv4) ;; mret LeftOpen
  | TpSocks5, RcSocks5 => boxed ReSocks5 (send_connect_reply (socks5_failure_rep e) unspecified_socks) ;; mret LeftOpen
  | TpShadowsocks, RcShadowsocks | TpTrojan, RcTrojan | TpRaw, RcRaw => mret ShutDown
  | _, _ => mthrow ReMismatch
  end.

Definition send_http_forward_failure (e : SessionOpenError) : M ReplyError unit := write_all (http_failure_status e).

Definition send_http_expectation_failed : M ReplyError reply_end :=
  write_all (http_status "HTTP/1.1 417 Expectation Failed") ;; mret ShutDown.

Definition send_http_upgrade_unsupported : M ReplyError reply_end :=
  write_all (http_status "HTTP/1.1 501 Not Implemented") ;; mret ShutDown.

(** ** What the clients of this repository make of the replies *)

(** What a failure means to the [http_connect] client. *)
Definition http_client_error (e : SessionOpenError) : HttpError :=
  match e with
  | SoTimeout => GatewayTimeout
  | SoPolicyDenied => HttpText.AuthFailed
  | _ => BadGateway
  end.

Lemma http_status_read line code i en o q :
  str line <> [] -> bool_decide (x0d ∉ str line) = true ->
  parse_response_status HttpConnectLimits_default (http_status line) = Ok code ->
  (length (http_status line) <=? max_headers_bytes HttpConnectLimits_default) = true ->
  (let! status := read_response_status HttpConnectLimits_default in mlift (connect_outcome status))
    (Conn (http_status line ++ i) en o q) = (connect_outcome code, Conn i en o q).
Proof.
  assert (http_status line = head_text [str line; str "Connection: close"]) as ->.
  { unfold http_status, head_text. cbn [map mjoin list_join foldr]. by rewrite <- !app_assoc. }
  intros Hne Hr%bool_decide_eq_true Hp Hl%Nat.leb_le. erewrite mbind_fwd; [reflexivity|].
  apply read_status_lines; [|done|done|done].
  apply List.Forall_cons; [by split|]. apply List.Forall_cons; [|apply List.Forall_nil]. split; [by apply (bool_decide_unpack _)|done].
Qed.

Lemma http_failure_read e i en o q :
  (let! status := read_response_status HttpConnectLimits_default in mlift (connect_outcome status))
    (Conn (http_failure_status e ++ i) en o q) = (Err (http_client_error e), Conn i en o q).
Proof.
  assert (forall e, http_failure_status e = http_status "HTTP/1.1 502 Bad Gateway" -> http_client_error e = BadGateway ->
    (let! status := read_response_status HttpConnectLimits_default in mlift (connect_outcome status))
      (Conn (http_failure_status e ++ i) en o q) = (Err (http_client_error e), Conn i en o q)) as H502.
  { intros e' -> ->. apply (http_status_read _ 502); by vm_compute. }
  destruct e; try (apply H502; reflexivity).
  - apply (http_status_read "HTTP/1.1 504 Gateway Timeout" 504); by vm_compute.
  - apply (http_status_read "HTTP/1.1 403 Forbidden" 403); by vm_compute.
Qed.

(** The replies mean what they should to the clients of the same protocols.  The
    reply to an opened route is a success to the HTTP CONNECT and the SOCKS5 client,
    every reply to a failure is an error to them, and a refused connection, a
    timeout and a rejection by policy keep their meaning as far as the protocol has
    one for them.  The reply is written completely and nothing of what follows it is
    taken by the client. *)
Theorem reply_understood e en o :
  (exists wire, (forall i, send_tunnel_success TpSocks5 RcSocks5 (Conn i en o None) = (Ok tt, Conn i en (o ++ wire) None)) /\
     forall i en' o' q, exists a, read_connect_reply (Conn (wire ++ i) en' o' q) = (Ok a, Conn i en' o' q)) /\
  (exists wire, (forall i, send_tunnel_failure TpSocks5 RcSocks5 e (Conn i en o None) = (Ok LeftOpen, Conn i en (o ++ wire) None)) /\
     forall i en' o' q, read_connect_reply (Conn (wire ++ i) en' o' q) =
       (Err (match e with SoRefused => Socks5.ConnectionRefused | _ => Socks5.ConnectionFailed (socks5_failure_rep e) end), Conn i en' o' q)) /\
  (exists wire, (forall i, send_tunnel_success TpHttpConnect RcHttp (Conn i en o None) = (Ok tt, Conn i en (o ++ wire) None)) /\
     forall i en' o' q, (let! status := read_response_status HttpConnectLimits_default in mlift (connect_outcome status))
       (Conn (wire ++ i) en' o' q) = (Ok tt, Conn i en' o' q)) /\
  (exists wire, (forall i, send_tunnel_failure TpHttpConnect RcHttp e (Conn i en o None) = (Ok LeftOpen, Conn i en (o ++ wire) None)) /\
     forall i en' o' q, (let! status := read_response_status HttpConnectLimits_default in mlift (connect_outcome status))
       (Conn (wire ++ i) en' o' q) = (Err (http_client_error e), Conn i en' o' q)).
Proof.
  split; [|split; [|split]].
  - exists [x05; x00; x00; x01; x00; x00; x00; x00; x00; x00]. split; [reflexivity|]. intros. eexists. reflexivity.
  - exists [x05; socks5_failure_rep e; x00; x01; x00; x00; x00; x00; x00; x00]. split; [reflexivity|].
    intros. by destruct e.
  - exists (head_text ESTABLISHED_LINES). split; [reflexivity|]. intros.
    rewrite (mbind_fwd _ _ _ 200%Z (Conn i en' o' q)); [reflexivity|]. apply read_status_lines; [by apply answer_lines_ok; left|done|apply Nat.leb_le; by vm_compute|by vm_compute].
  - exists (http_failure_status e). split; [reflexivity|]. intros. apply http_failure_read.
Qed.
