(* ===== verification/Session.v ===== *)
(** * Sessions

    Models [crates/eggress-server/src/execute/mod.rs] (routes, tunnels, echo) and the
    relay facade [crates/eggress-core/src/relay.rs]: an accepted tunnel is routed,
    the route is opened under the connect timeout, the client is told, the bytes are
    relayed, and the lease on the upstream is given back.

    The network answers as in [Connector] and [Chain]; whether the connect timeout
    fires first is a parameter.  Metrics and logging are not modelled. *)

From S2P Require Import Prelude Bytes Decimal Stream NetAddr Connector Dispatch Uri Capability Chain Health Upstream Relay Scheduler Matcher Router HttpText HttpBody Accept Reply.

(** ** The relay facade ([eggress-core/src/relay.rs]) *)

Definition LEGACY_BUFFER_SIZE : nat := Z.to_nat 65536.
Definition LEGACY_HALF_CLOSE_DRAIN : Z := 1000000000.

Inductive TerminationReason := TrClientClosed | TrServerClosed | TrBothClosed | TrError.

Record RelayResult := { rr_upstream : Z; rr_downstream : Z; termination_reason : TerminationReason }.

Definition legacy_options : RelayOptions :=
  {| buffer_size := LEGACY_BUFFER_SIZE; half_close := DrainFor LEGACY_HALF_CLOSE_DRAIN |}.

Definition map_termination (t : RelayTermination) : TerminationReason :=
  match t with
  | ClientClosed => TrClientClosed
  | ServerClosed => TrServerClosed
  | DrainTimedOut Client => TrClientClosed
  | DrainTimedOut Server => TrServerClosed
  end.

(** The relay polled at these instants: [None] while it goes on. *)
Definition relay (instants : list Z) (client server : Relay.stream) : outcome unit (option RelayResult) :=
  match (run_relay instants (relay_new client server legacy_options)).1 with
  | Ok None => Ok None
  | Ok (Some report) => Ok (Some {| rr_upstream := bytes_upstream report; rr_downstream := bytes_downstream report;
                                    termination_reason := map_termination (termination report) |})
  | Err failure => Ok (Some {| rr_upstream := f_bytes_upstream failure; rr_downstream := f_bytes_downstream failure;
                               termination_reason := TrError |})
  | Panic => Panic
  end.

(** ** Reports *)

Inductive SessionOutcome :=
| SoCompleted | SoClientProtocolError | SoAuthenticationFailed | SoHandshakeTimedOut | SoRouteFailed | SoRelayFailed | SoCancelled.

Inductive FailureCategory :=
| FcProtocol | FcAuthentication | FcHandshakeTimeout | FcDns | FcConnectionRefused | FcNetworkUnreachable
| FcHostUnreachable | FcRouteTimeout | FcRouteHop | FcUpstreamAuthentication | FcPolicyDenied | FcUpstreamUnavailable
| FcRelay | FcCancelled | FcInternal.

Record SessionReport := {
  sr_protocol : option bytes; sr_target : option bytes; sr_route : bytes; sr_upstream : Z; sr_downstream : Z;
  sr_outcome : SessionOutcome; sr_failure : option FailureCategory; sr_rule : option bytes;
  sr_group : option bytes; sr_upstream_id : option bytes; sr_reason : option SelectionReason
}.

Definition failure_category (e : SessionOpenError) : FailureCategory :=
  match e with
  | SoDns => FcDns
  | SoRefused => FcConnectionRefused
  | SoNetworkUnreachable => FcNetworkUnreachable
  | SoHostUnreachable => FcHostUnreachable
  | SoTimeout => FcRouteTimeout
  | SoUpstreamAuthentication => FcUpstreamAuthentication
  | SoHop _ _ => FcRouteHop
  | SoPolicyDenied => FcPolicyDenied
  | SoUpstreamUnavailable => FcUpstreamUnavailable
  | SoOther => FcRelay
  end.

Definition open_failed (e : SessionOpenError) (protocol target : option bytes) (route : bytes) : SessionReport :=
  {| sr_protocol := protocol; sr_target := target; sr_route := route; sr_upstream := 0; sr_downstream := 0;
     sr_outcome := SoRouteFailed; sr_failure := Some (failure_category e); sr_rule := None; sr_group := None;
     sr_upstream_id := None; sr_reason := None |}.

Definition completed (protocol target : option bytes) (route : bytes) (up down : Z) : SessionReport :=
  {| sr_protocol := protocol; sr_target := target; sr_route := route; sr_upstream := up; sr_downstream := down;
     sr_outcome := SoCompleted; sr_failure := None; sr_rule := None; sr_group := None; sr_upstream_id := None; sr_reason := None |}.

Definition rejected (protocol target : option bytes) (rule : bytes) : SessionReport :=
  {| sr_protocol := protocol; sr_target := target; sr_route := str "reject"; sr_upstream := 0; sr_downstream := 0;
     sr_outcome := SoRouteFailed; sr_failure := Some FcPolicyDenied; sr_rule := Some rule; sr_group := None;
     sr_upstream_id := None; sr_reason := None |}.

(** ** Echo *)

(** [execute_echo], reading up to 16384 bytes at a time; the bytes count as read even
    when the write fails. *)
Fixpoint echo_loop (ready : nat -> nat) (fuel : nat) (n : Z) (c : conn) : outcome HttpText.HttpError Z * conn :=
  match fuel with
  | O => (Panic, c)
  | S f =>
      match HttpBody.read_some ready (Z.to_nat 16384) c with
      | (Ok [], c) => (Ok n, c)
      | (Ok buf, c) =>
          match write_all (E:=HttpText.HttpError) buf c with
          | (Ok _, c) => echo_loop ready f (n + Z.of_nat (length buf)) c
          | (_, c) => (Ok (n + Z.of_nat (length buf))%Z, c)
          end
      | (_, c) => (Ok n, c)
      end
  end.

Definition execute_echo (ready : nat -> nat) (c : conn) : outcome HttpText.HttpError SessionReport * conn :=
  let '(r, c) := echo_loop ready (length (c_in c) + 1) 0 c in
  (obind r (fun n => Ok (completed (Some (str "echo")) None (str "echo") n n)), c).

(** ** Opening a route *)

Definition route_description (s : SelectedRoute) : bytes :=
  match s with
  | SelDirect _ DirectFallback => str "direct(fallback)"
  | SelDirect _ _ => str "direct"
  | SelUpstream _ group upstream _ _ _ => str "upstream(" ++ group ++ [x2f] ++ upstream ++ str ")"
  end.

Definition decision_rule (d : RouteDecision) : bytes :=
  match d with DecDirect rule | DecUpstreamGroup rule _ | DecReject rule _ => rule end.

Definition route_metadata (s : SelectedRoute) : option bytes * option bytes * option bytes * option SelectionReason :=
  match s with
  | SelDirect d reason => (Some (decision_rule d), None, None, Some reason)
  | SelUpstream d group upstream _ _ reason => (Some (decision_rule d), Some group, Some upstream, Some reason)
  end.

Record OpenedRoute := {
  or_lease : option ActiveLease; or_description : bytes; or_rule : option bytes; or_group : option bytes;
  or_upstream : option bytes; or_reason : option SelectionReason
}.

(** What a session asked the network for. *)
Inductive attempt :=
| AttemptDirect (target : TargetAddr) (options : ConnectOptions)
| AttemptChain (chain : list ProxyHopSpec) (target : TargetAddr).

Definition map_route_error (e : RouteError) : SessionOpenError :=
  match e with
  | Rejected _ _ => SoPolicyDenied
  | NoEligibleUpstream _ => SoUpstreamUnavailable
  | UnknownGroup _ => SoUpstreamUnavailable
  end.

Definition bind_option (v : option bytes) : outcome SessionOpenError (option SocketAddr) :=
  match v with
  | None => Ok None
  | Some v =>
      match parse_socket_addr v with
      | Some (ip, p) => Ok (Some {| sa_ip := ip; sa_port := p |})
      | None => Err SoOther
      end
  end.

Lemma boxed_no_panic {E A} (w : E -> ReplyError) (m : M E A) c : (m c).1 <> Panic -> (boxed w m c).1 <> Panic.
Proof. unfold boxed. by destruct (m c) as [[]]. Qed.

Lemma success_no_panic p ctx c : (send_tunnel_success p ctx c).1 <> Panic.
Proof.
  destruct p, ctx; cbn [send_tunnel_success]; first [done|apply write_all_no_panic|apply boxed_no_panic].
  - unfold Socks4.write_socks4_reply. apply mbind_no_panic; [apply write_all_no_panic|done].
  - unfold Socks5Handshake.send_connect_reply. apply mbind_no_panic; [done|]. intros.
    apply mbind_no_panic; [apply write_all_no_panic|done].
Qed.

Section session.
Context {Regex IpNet R : Type} `{Hok : RandomIndexOk R}.
Context (is_match : Regex -> bytes -> bool) (cidr_contains : IpNet -> IpAddr -> bool).
Context (lookup_host : bytes -> timed (list SocketAddr)).
Context (new_socket : bool -> option Z).
Context (bind_socket : bool -> SocketAddr -> option Z).
Context (tcp_connect : option (bool * SocketAddr) -> SocketAddr -> timed ConnectionMetadata).
Context (answer : list effect -> effect -> option Z).
Context (io_kind : Z -> ErrorKind) (source_of : Z -> handshake_source).
Context (executor : ChainExecutor).

(** The shared routing state: the router (its schedulers) and the upstreams. *)
Record net := { n_router : Router Regex IpNet R; n_heap : heap }.

Record SessionConfig := { cf_source : option SocketAddr; cf_listener : bytes; cf_local_bind : option bytes }.

(** The network part, once a route is selected. *)
Definition dial_route (cfg : SessionConfig) (target : TargetAddr) (selected : SelectedRoute)
    : outcome SessionOpenError unit * list attempt :=
  match selected with
  | SelDirect _ _ =>
      match bind_option (cf_local_bind cfg) with
      | Ok bind =>
          let options := {| local_bind := bind;
                            enforce_dns_rebinding_check := enforce_dns_rebinding_check ConnectOptions_default;
                            enforce_literal_ip_check := enforce_literal_ip_check ConnectOptions_default |} in
          (map_err (from_connect_error io_kind)
             (let? _ := connect_with_options_and_metadata lookup_host new_socket bind_socket tcp_connect target options in Ok tt),
           [AttemptDirect target options])
      | Err e => (Err e, [])
      | Panic => (Panic, [])
      end
  | SelUpstream _ _ _ chain _ _ =>
      (map_err (from_chain_error io_kind source_of)
         (execute lookup_host new_socket bind_socket tcp_connect answer executor (hops chain) target).1,
       [AttemptChain (hops chain) target])
  end.

(** [elapsed]: the connect timeout fires before the network part is done; the
    pending lease is dropped with the future. *)
Definition open_route (elapsed : bool) (cfg : SessionConfig) (request : RouteRequest) (s : net)
    : outcome SessionOpenError OpenedRoute * net * list attempt :=
  let '(res, router, h) := route is_match cidr_contains (n_router s) (n_heap s) request in
  let keep h := {| n_router := router; n_heap := h |} in
  match res with
  | Err e => (Err (map_route_error e), keep h, [])
  | Panic => (Panic, keep h, [])
  | Ok selected =>
      let '(rule, group, upstream, reason) := route_metadata selected in
      let opened lease := {| or_lease := lease; or_description := route_description selected; or_rule := rule;
                             or_group := group; or_upstream := upstream; or_reason := reason |} in
      let drop_lease h := match selected with SelUpstream _ _ _ _ lease _ => pending_drop lease h | SelDirect _ _ => h end in
      let '(dialled, tried) := dial_route cfg (rq_target request) selected in
      match dialled with
      | Panic => (Panic, keep (drop_lease h), tried)
      | Err e => (Err (if elapsed && negb (bool_decide (tried = [])) then SoTimeout else e), keep (drop_lease h), tried)
      | Ok _ =>
          if elapsed then (Err SoTimeout, keep (drop_lease h), tried)
          else match selected with
          | SelDirect _ _ => (Ok (opened None), keep h, tried)
          | SelUpstream _ _ _ _ lease _ =>
              let '(active, h) := established lease h in
              (Ok (opened (Some active)), keep h, tried)
          end
      end
  end.

(** ** Tunnels *)

Definition inbound_protocol (p : TunnelProtocol) : ProtocolId :=
  match p with
  | TpHttpConnect => PHttp | TpHttp2 => PHttp2 | TpHttp3 => PHttp3 | TpWebSocket => PWebSocket | TpSocks4 => PSocks4
  | TpSocks5 => PSocks5 | TpShadowsocks => PShadowsocks | TpShadowsocksR => PShadowsocksR | TpTrojan => PTrojan | TpRaw => PRaw
  end.

Definition protocol_label (p : TunnelProtocol) : bytes :=
  match p with
  | TpHttpConnect => str "http" | TpHttp2 => str "h2" | TpHttp3 => str "h3" | TpWebSocket => str "websocket" | TpSocks4 => str "socks4"
  | TpSocks5 => str "socks5" | TpShadowsocks => str "shadowsocks" | TpShadowsocksR => str "ssr" | TpTrojan => str "trojan" | TpRaw => str "raw"
  end.

Definition tunnel_request (cfg : SessionConfig) (p : PendingTunnel) : RouteRequest :=
  {| rq_target := pt_target p; rq_source := cf_source cfg; rq_listener := cf_listener cfg;
     rq_protocol := inbound_protocol (pt_protocol p); rq_identity := pt_identity p; rq_transport := Tcp |}.

(** The active lease goes out of scope. *)
Definition release (o : OpenedRoute) (s : net) : net :=
  {| n_router := n_router s; n_heap := match or_lease o with Some l => active_drop l (n_heap s) | None => n_heap s end |}.

Definition tunnel_report (p : PendingTunnel) (o : OpenedRoute) (up down : Z) (out : SessionOutcome) (fail : option FailureCategory)
    : SessionReport :=
  {| sr_protocol := Some (protocol_label (pt_protocol p)); sr_target := Some (fmt_target_addr (pt_target p));
     sr_route := or_description o; sr_upstream := up; sr_downstream := down; sr_outcome := out; sr_failure := fail;
     sr_rule := or_rule o; sr_group := or_group o; sr_upstream_id := or_upstream o; sr_reason := or_reason o |}.

(** The reply goes to the connection [c]; afterwards the relay runs between the two
    streams and is polled at the given instants.  No report: it is still running. *)
Definition execute_tunnel (elapsed : bool) (cfg : SessionConfig) (p : PendingTunnel)
    (client server : Relay.stream) (instants : list Z) (c : conn) (s : net)
    : outcome unit (option SessionReport) * conn * net * list attempt :=
  let protocol := Some (protocol_label (pt_protocol p)) in
  let target := Some (fmt_target_addr (pt_target p)) in
  let '(r, s, tried) := open_route elapsed cfg (tunnel_request cfg p) s in
  match r with
  | Panic => (Panic, c, s, tried)
  | Ok opened =>
      match send_tunnel_success (pt_protocol p) (pt_reply_context p) c with
      | (Panic, c) => (Panic, c, s, tried)
      | (Err _, c) => (Ok (Some (tunnel_report p opened 0 0 SoClientProtocolError (Some FcProtocol))), c, release opened s, tried)
      | (Ok _, c) =>
          match relay instants client server with
          | Panic | Err _ => (Panic, c, s, tried)
          | Ok None => (Ok None, c, s, tried)
          | Ok (Some result) =>
              let '(out, fail) := match termination_reason result with
                                  | TrError => (SoRelayFailed, Some FcRelay)
                                  | _ => (SoCompleted, None)
                                  end in
              (Ok (Some (tunnel_report p opened (rr_upstream result) (rr_downstream result) out fail)), c, release opened s, tried)
          end
      end
  | Err SoPolicyDenied =>
      let '(_, c) := send_tunnel_failure (pt_protocol p) (pt_reply_context p) SoPolicyDenied c in
      (Ok (Some (rejected protocol target (str "reject"))), c, s, tried)
  | Err e =>
      let '(_, c) := send_tunnel_failure (pt_protocol p) (pt_reply_context p) e c in
      (Ok (Some (open_failed e protocol target (str "error"))), c, s, tried)
  end.

(** ** Leases *)

Lemma dial_route_no_panic cfg t sel : (dial_route cfg t sel).1 <> Panic.
Proof using Type.
  unfold dial_route. destruct sel as [d reason|d g u ch l reason].
  - destruct (bind_option (cf_local_bind cfg)) as [b|e|] eqn:E; cbn [fst]; [|done|].
    + pose proof (connect_no_panic lookup_host new_socket bind_socket tcp_connect t
        {| local_bind := b; enforce_dns_rebinding_check := true; enforce_literal_ip_check := false |}) as Hn.
      cbv zeta. cbn [fst ConnectOptions_default enforce_dns_rebinding_check enforce_literal_ip_check].
      by destruct (connect_with_options_and_metadata _ _ _ _ _ _).
    + unfold bind_option in E. destruct (cf_local_bind cfg) as [v|]; [|done]. by destruct (parse_socket_addr v) as [[]|].
  - cbn [fst]. pose proof (chain_trace lookup_host new_socket bind_socket tcp_connect answer executor (hops ch) t) as Hc.
    unfold execute. destruct (execute_with_metadata _ _ _ _ _ _ _ _ _) as [r tr].
    destruct (Hc r tr eq_refl) as [Hn _]. by destruct r.
Qed.

(** The leases a session holds while its route is open. *)
Definition held (o : OpenedRoute) : list (nat * phase) :=
  match or_lease o with Some l => [(al_upstream l, PhActive)] | None => [] end.

Abbreviation leases_are h ls := {| heap_of := h; leases := ls |}.

Lemma open_route_leases elapsed cfg q s :
  router_wf (n_heap s) (n_router s) ->
  let '(r, s', _) := open_route elapsed cfg q s in
  router_wf (n_heap s') (n_router s') /\ r <> Panic /\
  (forall o, r = Ok o -> is_Some (or_lease o) <-> is_Some (or_upstream o)) /\
  forall ls, rtc step (leases_are (n_heap s) ls)
    (leases_are (n_heap s') (match r with Ok o => held o | _ => [] end ++ ls)).
Proof using Hok.
  intros Hr. unfold open_route. pose proof (route_lease is_match cidr_contains (n_router s) (n_heap s) q Hr) as Hl.
  destruct (route is_match cidr_contains (n_router s) (n_heap s) q) as [[res router] h]. destruct Hl as (Hwf & Hnp & Hh).
  destruct res as [sel|e|]; [|subst h; split_and!; [done..|]; intros; apply rtc_refl|done].
  pose proof (dial_route_no_panic cfg (rq_target q) sel) as Hd.
  destruct sel as [d reason|d gr up ch lease reason]; cbn [route_metadata].
  - subst h. destruct (dial_route _ _ _) as [[[]|e|] tried]; [| |done].
    + destruct elapsed; (split; [done|]; split; [done|]; split; [|intros; apply rtc_refl]); intros o [= <-]. cbn. by split; intros [].
    + split; [done|]. split; [done|]. split; [done|]. intros. apply rtc_refl.
  - destruct Hh as (i & u & Hu & -> & _ & _ & ->). apply lookup_lt_Some in Hu as Hi. set (h := alter (fetch_add_in_flight 1) i (n_heap s)) in *.
    assert (forall ls, step (leases_are (n_heap s) ls) (leases_are h ((i, PhPending) :: ls))) as Hnew.
    { intros ls. exact (step_new i (n_heap s) ls Hi). }
    assert (forall e : SessionOpenError, router_wf (pending_drop {| pl_upstream := i; pl_state := Pending |} h) router /\
      Err (A:=OpenedRoute) e <> Panic /\ (forall o, Err (A:=OpenedRoute) e = Ok o -> is_Some (or_lease o) <-> is_Some (or_upstream o)) /\
      forall ls, rtc step (leases_are (n_heap s) ls)
        (leases_are (pending_drop {| pl_upstream := i; pl_state := Pending |} h) ls)) as Hdrop.
    { intros e. split; [by apply router_wf_alter|]. split; [done|]. split; [done|]. intros ls. eapply rtc_l; [apply Hnew|].
      eapply rtc_l; [exact (step_drop_pending i h [] ls)|]. apply rtc_refl. }
    destruct (dial_route _ _ _) as [[[]|e|] tried]; [|apply (Hdrop _)|done].
    destruct elapsed; [apply (Hdrop SoTimeout)|]. cbn [established]. cbn [n_heap n_router].
    split; [cbn; by apply router_wf_alter, router_wf_alter|]. split; [done|].
    split; [intros o [= <-]; cbn; split; eauto|]. intros ls.
    eapply rtc_l; [apply Hnew|]. exact (established_steps i h [] ls).
Qed.

Lemma release_leases o s ls : rtc step (leases_are (n_heap s) (held o ++ ls)) (leases_are (n_heap (release o s)) ls).
Proof using Type.
  unfold release, held. cbn [n_heap]. destruct (or_lease o) as [[i]|]; cbn [app]; [|apply rtc_refl].
  eapply rtc_l; [|apply rtc_refl]. exact (step_drop_active i (n_heap s) [] ls).
Qed.

Lemma release_wf o s : router_wf (n_heap s) (n_router s) -> router_wf (n_heap (release o s)) (n_router (release o s)).
Proof using Type. unfold release. cbn. destruct (or_lease o); [|done]. by apply router_wf_alter. Qed.

(** What the report of a session that ended says: which protocol and target; a
    route that did not open, with the reason and no bytes; a reply the client did
    not take, with no bytes; or, once the relay ran, exactly the numbers of bytes
    the two streams were given, on the route that was opened. *)
Definition report_exact (elapsed : bool) (cfg : SessionConfig) (p : PendingTunnel) (client server : Relay.stream)
    (instants : list Z) (c : conn) (s : net) (report : SessionReport) : Prop :=
  sr_protocol report = Some (protocol_label (pt_protocol p)) /\
  sr_target report = Some (fmt_target_addr (pt_target p)) /\
  match (open_route elapsed cfg (tunnel_request cfg p) s).1.1 with
  | Err e => (sr_upstream report, sr_downstream report) = (0, 0)%Z /\
      sr_outcome report = SoRouteFailed /\ sr_failure report = Some (failure_category e)
  | Ok o =>
      (sr_route report, sr_rule report, sr_group report, sr_upstream_id report, sr_reason report) =
        (or_description o, or_rule o, or_group o, or_upstream o, or_reason o) /\
      match (send_tunnel_success (pt_protocol p) (pt_reply_context p) c).1 with
      | Ok _ =>
          let '(res, f) := run_relay instants (relay_new client server legacy_options) in
          sr_upstream report = wrap64 (Z.of_nat (length (s_given (Relay.server f)))) /\
          sr_downstream report = wrap64 (Z.of_nat (length (s_given (Relay.client f)))) /\
          match res with
          | Ok (Some _) => sr_outcome report = SoCompleted /\ sr_failure report = None
          | Err _ => sr_outcome report = SoRelayFailed /\ sr_failure report = Some FcRelay
          | _ => False
          end
      | _ => (sr_upstream report, sr_downstream report) = (0, 0)%Z /\
          sr_outcome report = SoClientProtocolError /\ sr_failure report = Some FcProtocol
      end
  | Panic => False
  end.

(** C10. A tunnel session gives back what it took.  Whatever the route, the network,
    the reply and the relay do, the session does not panic; when it ends (and
    already when the connect timeout fires or the route cannot be opened), its lease
    operations are a run of the lease system that leaves the leases of all other
    sessions as they were; while it is relaying it holds one active lease exactly
    when its route goes through an upstream.  The report is exact: where the relay
    ran its counts are those of the bytes given to either side, and otherwise they
    are zero with the stage that failed. *)
Theorem tunnel_accounting elapsed cfg p client server instants c s r c' s' tried :
  router_wf (n_heap s) (n_router s) -> fresh_stream client -> fresh_stream server ->
  execute_tunnel elapsed cfg p client server instants c s = (r, c', s', tried) ->
  router_wf (n_heap s') (n_router s') /\
  match r with
  | Ok (Some report) =>
      (forall ls, rtc step (leases_are (n_heap s) ls) (leases_are (n_heap s') ls)) /\
      report_exact elapsed cfg p client server instants c s report
  | Ok None => exists o, (open_route elapsed cfg (tunnel_request cfg p) s).1.1 = Ok o /\
      (is_Some (or_lease o) <-> is_Some (or_upstream o)) /\ forall ls, rtc step (leases_are (n_heap s) ls) (leases_are (n_heap s') (held o ++ ls))
  | _ => False
  end.
Proof using Hok.
  intros Hwf Hc Hs He. unfold execute_tunnel in He. unfold report_exact.
  pose proof (open_route_leases elapsed cfg (tunnel_request cfg p) s Hwf) as Ho.
  destruct (open_route elapsed cfg (tunnel_request cfg p) s) as [[ro so] tr] eqn:Eo. destruct Ho as (Hwf' & Hnp & Hl & Hsteps).
  cbn [fst]. destruct ro as [o|e|]; [| |done].
  - pose proof (success_no_panic (pt_protocol p) (pt_reply_context p) c) as Hsn.
    assert (forall ls, rtc step (leases_are (n_heap s) ls) (leases_are (n_heap (release o so)) ls)) as Hrel.
    { intros ls. etransitivity; [apply Hsteps|apply release_leases]. }
    pose proof (release_wf o so Hwf') as Hrw.
    destruct (send_tunnel_success _ _ c) as [[[]|e|] c1]; [|injection He as <- _ <- _; by auto 10|done].
    unfold relay in He. destruct (run_relay instants (relay_new client server legacy_options)) as [rr f] eqn:Er.
    apply run_relay_inv in Er as [_ Hok']; [|apply relay_new_inv; [done|done|cbn [buffer_size legacy_options]; unfold LEGACY_BUFFER_SIZE; lia]].
    cbn [fst snd] in *. destruct rr as [[rep|]|fl|]; [| | |done].
    + destruct Hok' as (Hu & Hd & _). destruct (termination rep) as [| |[]]; injection He as <- _ <- _; by split_and!.
    + injection He as <- _ <- _. split; [done|]. exists o. split; [done|]. split; [by apply Hl|done].
    + destruct Hok' as (Hu & Hd). injection He as <- _ <- _. by split_and!.
  - destruct e; destruct (send_tunnel_failure _ _ _ c) as [? c1]; injection He as <- _ <- _; by split_and!.
Qed.
End session.

(** ** Echo *)

Lemma read_some_quota ready n c r c' : HttpBody.read_some ready n c = (r, c') -> c_quota c' = c_quota c /\ r <> Panic.
Proof.
  unfold HttpBody.read_some. destruct (c_in c); [destruct (c_end c)|]; intros [= <- <-]; done.
Qed.

Lemma write_all_prefix {E} `{!FromIo E} (l : bytes) c r c' : write_all (E:=E) l c = (r, c') ->
  r <> Panic /\ exists o, o `prefix_of` l /\ io [] o c c' /\ (is_ok r = true -> o = l) /\
    (c_quota c = None -> c_quota c' = None /\ is_ok r = true).
Proof.
  unfold write_all, io. destruct (c_quota c) as [[n e]|]; [destruct (length l <=? n)|]; intros [= <- <-]; cbn; (split; [done|]).
  - by exists l.
  - exists (take n l). split_and!; [apply prefix_take|done..].
  - by exists l.
Qed.

(** What is written is a prefix of what is read, all of it unless the client stops
    taking bytes; the count is that of the bytes read. *)
Lemma echo_loop_spec ready fuel : forall n c, length (c_in c) < fuel ->
  exists m c' l o, echo_loop ready fuel n c = (Ok m, c') /\ io l o c c' /\ o `prefix_of` l /\
    (m = n + Z.of_nat (length l))%Z /\ (c_quota c = None -> o = l /\ c_in c' = []).
Proof.
  induction fuel as [|f IH]; intros n c Hf; [lia|]. cbn [echo_loop].
  destruct (HttpBody.read_some ready (Z.to_nat 16384) c) as [r c1] eqn:Er.
  destruct (read_some_quota _ _ _ _ _ Er) as [Hq Hn]. destruct r as [buf|e|]; [| |done].
  - apply read_some_ok in Er as (Hio & _ & He); [|lia]. destruct buf as [|b buf].
    { destruct (He eq_refl) as [Hin ->]. exists n, c, [], []. split_and!; [done|apply io_refl|done|cbn; lia|done]. }
    destruct (write_all (b :: buf) c1) as [w c2] eqn:Ew. apply write_all_prefix in Ew as (Hw & o & Ho & Hio2 & Hok & Hnq).
    rewrite Hq in Hnq. pose proof (io_trans _ _ _ _ _ _ _ Hio Hio2) as Ht. rewrite app_nil_r in Ht. destruct w as [[]|e|]; [| |done].
    + rewrite (Hok eq_refl) in Ht. destruct (IH (n + Z.of_nat (length (b :: buf)))%Z c2) as (m & c3 & l & o' & -> & Hio3 & Hp & -> & Hfull).
      { apply io_length in Ht. cbn [length] in Ht. lia. }
      exists (n + Z.of_nat (length (b :: buf)) + Z.of_nat (length l))%Z, c3, ((b :: buf) ++ l), ((b :: buf) ++ o').
      split_and!; [done|exact (io_trans _ _ _ _ _ _ _ Ht Hio3)|by apply prefix_app|rewrite length_app; lia|].
      intros Hc. destruct (Hnq Hc) as [Hc2 _]. by destruct (Hfull Hc2) as [-> ->].
    + eexists _, c2, (b :: buf), o. split_and!; [done|done|done|done|]. intros Hc. by destruct (Hnq Hc).
  - unfold HttpBody.read_some in Er. destruct (c_in c) eqn:Ein; [|done]. destruct (c_end c); [|done]. injection Er as _ <-.
    exists n, c, [], []. split_and!; [done|apply io_refl|done|cbn; lia|by rewrite Ein].
Qed.

Lemma echo_faithful ready c : exists report c' l o, execute_echo ready c = (Ok report, c') /\ io l o c c' /\ o `prefix_of` l /\
  sr_upstream report = Z.of_nat (length l) /\ (c_quota c = None -> o = l /\ c_in c' = []).
Proof.
  unfold execute_echo. destruct (echo_loop_spec ready (length (c_in c) + 1) 0 c) as (m & c' & l & o & -> & Hio & Hp & -> & Hf); [lia|].
  eexists _, c', l, o. split_and!; [done|done|done|done|exact Hf].
Qed.

(** ** What a session asks of the network *)

Section policy.
Context {Regex IpNet R : Type} `{RandomIndexOk R}.
Context (is_match : Regex -> bytes -> bool) (cidr_contains : IpNet -> IpAddr -> bool).
Context (lookup_host : bytes -> timed (list SocketAddr)).
Context (new_socket : bool -> option Z).
Context (bind_socket : bool -> SocketAddr -> option Z).
Context (answer : list effect -> effect -> option Z).
Context (io_kind : Z -> ErrorKind) (source_of : Z -> handshake_source).
Context (executor : ChainExecutor).

Abbreviation tunnel_with tcp :=
  (execute_tunnel (R:=R) is_match cidr_contains lookup_host new_socket bind_socket tcp answer io_kind source_of executor).
Abbreviation open_with tcp :=
  (open_route (R:=R) is_match cidr_contains lookup_host new_socket bind_socket tcp answer io_kind source_of executor).

(** A direct dial for a domain name, under the options every session uses. *)
Lemma direct_dial_agree tcp1 tcp2 cfg t d reason name :
  host t = DomainName name ->
  (forall a s, is_reserved_or_private_ip (sa_ip a) = false -> tcp1 s a = tcp2 s a) ->
  dial_route lookup_host new_socket bind_socket tcp1 answer io_kind source_of executor cfg t (SelDirect d reason) =
  dial_route lookup_host new_socket bind_socket tcp2 answer io_kind source_of executor cfg t (SelDirect d reason).
Proof using Type.
  intros Hd Ht. cbn [dial_route]. destruct (bind_option (cf_local_bind cfg)) as [b|e|]; [|done|done].
  cbn [ConnectOptions_default enforce_dns_rebinding_check enforce_literal_ip_check].
  unfold connect_with_options_and_metadata. cbn [enforce_dns_rebinding_check enforce_literal_ip_check].
  destruct (resolve_target _ _ _ _) as [addrs|e|] eqn:E; cbn [obind]; [|done|done].
  unfold connect_to_addrs. rewrite (connect_loop_agree new_socket bind_socket tcp1 tcp2); [done|].
  intros a Ha s. apply Ht. eapply resolve_guarded; [exact E|exact Ha|by rewrite Hd].
Qed.

(** C11. Policy comes before the network.  A request the rules reject is refused
    without touching the network, the upstreams or the schedulers, and the client is
    told so in its own protocol.  A request the rules send direct to a domain name
    has an outcome that does not depend on how any reserved or private address
    answers: the rebinding guard is on for every session. *)
Theorem session_policy elapsed cfg p client server instants c s :
  match router_decide is_match cidr_contains (n_router s) (tunnel_request cfg p) with
  | DecReject _ _ => forall tcp,
      tunnel_with tcp elapsed cfg p client server instants c s =
      (Ok (Some (rejected (Some (protocol_label (pt_protocol p))) (Some (fmt_target_addr (pt_target p))) (str "reject"))),
       (send_tunnel_failure (pt_protocol p) (pt_reply_context p) SoPolicyDenied c).2, s, [])
  | DecDirect _ => forall name tcp1 tcp2, host (pt_target p) = DomainName name ->
      (forall a l, is_reserved_or_private_ip (sa_ip a) = false -> tcp1 l a = tcp2 l a) ->
      tunnel_with tcp1 elapsed cfg p client server instants c s = tunnel_with tcp2 elapsed cfg p client server instants c s
  | DecUpstreamGroup _ _ => True
  end.
Proof using Type.
  destruct (router_decide _ _ _ _) as [rule|rule group|rule reason] eqn:E; [|done|].
  - intros name tcp1 tcp2 Hd Ht. unfold execute_tunnel, open_route, route. rewrite E. cbn [router_select].
    by rewrite (direct_dial_agree tcp1 tcp2 cfg (rq_target (tunnel_request cfg p)) _ _ name).
  - intros tcp. unfold execute_tunnel, open_route, route. rewrite E. cbn [router_select map_route_error].
    destruct (send_tunnel_failure _ _ _ c) as [r c']. by destruct s.
Qed.
End policy.

(** ** Witness: a SOCKS5 tunnel through a chain of two proxies, closed by both ends *)

Definition demo_net : net (Regex:=unit) (IpNet:=unit) (R:=DeterministicRandom) :=
  {| n_router := demo_router; n_heap := replicate 3 (upstream_new (str "up1") {| hops := [demo_first; demo_last] |}) |}.
Definition demo_config : SessionConfig := {| cf_source := None; cf_listener := str "in"; cf_local_bind := None |}.
Definition demo_tunnel : PendingTunnel :=
  {| pt_target := demo_dest; pt_client := Plain; pt_protocol := TpSocks5; pt_reply_context := RcSocks5; pt_identity := Anonymous |}.
Definition demo_execute (instants : list Z) :=
  execute_tunnel no_regex no_cidr demo_lookup (fun _ => None) (fun _ _ => None) demo_connect (fun _ _ => None)
    (fun _ => KOther) (fun _ => SrcUnknown) demo_executor false demo_config demo_tunnel
    (demo_stream []) (demo_stream []) instants (Conn [] None [] None) demo_net.

Lemma tunnel_accounting_witness :
  exists report c s tried, demo_execute [0]%Z = (Ok (Some report), c, s, tried) /\
    sr_outcome report = SoCompleted /\ sr_upstream_id report = Some (str "up1") /\
    tried = [AttemptChain [demo_first; demo_last] demo_dest] /\
    forall ls, rtc step {| heap_of := n_heap demo_net; leases := ls |} {| heap_of := n_heap s; leases := ls |}.
Proof.
  destruct (demo_execute [0]%Z) as [[[r c] s] tried] eqn:E.
  pose proof (f_equal (fun x => match x.1.1.1 with Ok (Some rep) => Some (sr_outcome rep, sr_upstream_id rep, x.2) | _ => None end) E) as Hr.
  unfold demo_execute in E. apply tunnel_accounting in E as [_ Hl]; [|by intros k g Hg; apply (demo_router_wf k g Hg)|done|done].
  assert (match r with Ok (Some rep) => Some (sr_outcome rep, sr_upstream_id rep, tried) | _ => None end =
          Some (SoCompleted, Some (str "up1"), [AttemptChain [demo_first; demo_last] demo_dest])) as Hr'.
  { etransitivity; [symmetry; exact Hr|vm_compute; reflexivity]. }
  destruct r as [[rep|]|e|]; [|done..]. injection Hr' as Ho Hu Ht. destruct Hl as [Hl _]. by exists rep, c, s, tried.
Defined.

(** Port 443 is rejected by the default action: nobody is dialled. *)
Lemma session_policy_witness :
  let p := {| pt_target := {| host := DomainName (str "example.org"); tport := 443 |}; pt_client := Plain;
              pt_protocol := TpSocks5; pt_reply_context := RcSocks5; pt_identity := Anonymous |} in
  exists r c, execute_tunnel no_regex no_cidr demo_lookup (fun _ => None) (fun _ _ => None) demo_connect (fun _ _ => None)
    (fun _ => KOther) (fun _ => SrcUnknown) demo_executor false demo_config p (demo_stream []) (demo_stream []) []
    (Conn [] None [] None) demo_net = (Ok (Some r), c, demo_net, []) /\ sr_failure r = Some FcPolicyDenied.
Proof.
  intros p. eexists _, _. split.
  - apply (session_policy no_regex no_cidr demo_lookup (fun _ => None) (fun _ _ => None) (fun _ _ => None)
      (fun _ => KOther) (fun _ => SrcUnknown) demo_executor false demo_config p (demo_stream []) (demo_stream []) []
      (Conn [] None [] None) demo_net).
  - reflexivity.
Defined.
