(* ===== verification/ForwardSession.v ===== *)
(** * HTTP forward sessions

    Models [execute_http_forward] of [crates/eggress-server/src/execute/mod.rs]: the
    requests of one client connection are forwarded one after another, each over a
    route of its own, until the client or an upstream closes.

    The client is one [conn] for the whole session; the [k]-th route that is opened
    leads to the [conn] [upstream k].  Flushing succeeds once the bytes were
    accepted, so the two branches for a failed flush have no counterpart. *)

From S2P Require Import Prelude Bytes Decimal Stream NetAddr Connector Dispatch Uri Capability Chain Health Upstream Relay Scheduler Matcher Router HttpText HttpForward HttpBody HttpResponse Accept AcceptAuth Reply Session.

(** ** Copying from one connection to another *)

(** [m] reads from [src] and writes to [dst]. *)
Definition splice {E A} (m : M E A) (src dst : conn) : outcome E A * conn * conn :=
  let '(r, c) := m (Conn (c_in src) (c_end src) (c_out dst) (c_quota dst)) in
  (r, Conn (c_in c) (c_end c) (c_out src) (c_quota src), Conn (c_in dst) (c_end dst) (c_out c) (c_quota c)).

(** ** One request *)

Definition MAX_REQUESTS_PER_CONNECTION : nat := 100.

(** How serving a request went; with the bytes sent upstream. *)
Inductive served := Failed_ (o : SessionOutcome) (f : FailureCategory) (sent : Z) | Served (res : ForwardResult) (sent : Z).

(** The client's and the upstream's stream are shut down when the body or the
    response fails; the session ends with them. *)
Definition serve (ready : nat -> nat) (r : ForwardRequest) (client up : conn) : outcome unit served * conn * conn :=
  let origin_req := build_origin_request r in
  let head_bytes := Z.of_nat (length origin_req) in
  match write_all (E:=HttpError) origin_req up with
  | (Panic, up) => (Panic, client, up)
  | (Err _, up) =>
      let '(_, client) := send_http_forward_failure SoOther client in
      (Ok (Failed_ SoRelayFailed FcRelay 0), client, up)
  | (Ok _, up) =>
      match splice (copy_request_body ready default_limits (body_kind r)) client up with
      | (Panic, client, up) => (Panic, client, up)
      | (Err _, client, up) => (Ok (Failed_ SoClientProtocolError FcProtocol head_bytes), client, up)
      | (Ok body_report, client, up) =>
          let sent := (head_bytes + wire_bytes body_report)%Z in
          match splice (forward_response ready) up client with
          | (Panic, up, client) => (Panic, client, up)
          | (Err UpgradeUnsupported, up, client) =>
              let '(_, client) := send_http_upgrade_unsupported client in
              (Ok (Failed_ SoRelayFailed FcProtocol sent), client, up)
          | (Err _, up, client) => (Ok (Failed_ SoRelayFailed FcRelay sent), client, up)
          | (Ok res, up, client) => (Ok (Served res sent), client, up)
          end
      end
  end.

(** ** The session *)

Section forward.
Context {Regex IpNet R : Type} `{Hok : RandomIndexOk R}.
Context (is_match : Regex -> bytes -> bool) (cidr_contains : IpNet -> IpAddr -> bool).
Context (lookup_host : bytes -> timed (list SocketAddr)).
Context (new_socket : bool -> option Z).
Context (bind_socket : bool -> SocketAddr -> option Z).
Context (tcp_connect : option (bool * SocketAddr) -> SocketAddr -> timed ConnectionMetadata).
Context (answer : list effect -> effect -> option Z).
Context (io_kind : Z -> ErrorKind) (source_of : Z -> handshake_source).
Context (executor : ChainExecutor).
Context (ready : nat -> nat).

(** Does the connect timeout fire for the [k]-th request, and does the client stay
    silent for the handshake timeout after it?  The stream behind the [k]-th route. *)
Context (elapsed idle : nat -> bool) (upstream : nat -> conn).
Context (cfg : SessionConfig) (identity : ClientIdentity).

Record forward_state := {
  fw_client : conn; fw_net : net (Regex:=Regex) (IpNet:=IpNet) (R:=R);
  fw_upstreams : list conn;          (* the upstream connections as the session left them *)
  fw_sent : Z; fw_received : Z;      (* total_bytes_upstream, total_bytes_downstream *)
  fw_last : OpenedRoute              (* last_route, last_rule_id, ... *)
}.

Definition no_route : OpenedRoute :=
  {| or_lease := None; or_description := []; or_rule := None; or_group := None; or_upstream := None; or_reason := None |}.

Definition forward_request (target : TargetAddr) : RouteRequest :=
  {| rq_target := target; rq_source := cf_source cfg; rq_listener := cf_listener cfg;
     rq_protocol := PHttp; rq_identity := identity; rq_transport := Tcp |}.

Definition forward_report (target : TargetAddr) (st : forward_state) (out : SessionOutcome) (fail : option FailureCategory) : SessionReport :=
  {| sr_protocol := None; sr_target := Some (fmt_target_addr target); sr_route := or_description (fw_last st);
     sr_upstream := fw_sent st; sr_downstream := fw_received st; sr_outcome := out; sr_failure := fail;
     sr_rule := or_rule (fw_last st); sr_group := or_group (fw_last st); sr_upstream_id := or_upstream (fw_last st);
     sr_reason := or_reason (fw_last st) |}.

Definition with_client (c : conn) (st : forward_state) : forward_state :=
  {| fw_client := c; fw_net := fw_net st; fw_upstreams := fw_upstreams st; fw_sent := fw_sent st;
     fw_received := fw_received st; fw_last := fw_last st |}.

(** The lease of the route goes out of scope at the end of a turn. *)
Definition end_turn (opened : OpenedRoute) (st : forward_state) : forward_state :=
  {| fw_client := fw_client st; fw_net := release opened (fw_net st); fw_upstreams := fw_upstreams st;
     fw_sent := fw_sent st; fw_received := fw_received st; fw_last := fw_last st |}.

Fixpoint forward_loop (fuel request_count : nat) (request : ForwardRequest) (client_close : bool) (st : forward_state)
    : outcome unit SessionReport * forward_state :=
  match fuel with
  | O => (Panic, st)
  | S f =>
      let target := fr_target request in
      if has_unsupported_expectation (fr_headers request) then
        let '(_, client) := send_http_expectation_failed (fw_client st) in
        let st := with_client client st in
        (Ok (forward_report target st SoClientProtocolError (Some FcProtocol)), st)
      else
        let '(route, s, _) := open_route is_match cidr_contains lookup_host new_socket bind_socket tcp_connect answer
                                io_kind source_of executor (elapsed request_count) cfg (forward_request target) (fw_net st) in
        let refuse e report :=
          let '(_, client) := send_http_forward_failure e (fw_client st) in
          (Ok report, {| fw_client := client; fw_net := s; fw_upstreams := fw_upstreams st; fw_sent := fw_sent st;
                         fw_received := fw_received st; fw_last := fw_last st |}) in
        match route with
        | Panic => (Panic, st)
        | Err SoPolicyDenied => refuse SoPolicyDenied (rejected None (Some (fmt_target_addr target)) (str "reject"))
        | Err e => refuse e (open_failed e None (Some (fmt_target_addr target)) (str "error"))
        | Ok opened =>
            let '(r, client, up) := serve ready request (fw_client st) (upstream (length (fw_upstreams st))) in
            let upstreams := fw_upstreams st ++ [up] in
            let add sent received :=
              {| fw_client := client; fw_net := s; fw_upstreams := upstreams; fw_sent := wrap64 (fw_sent st + sent);
                 fw_received := wrap64 (fw_received st + received); fw_last := opened |} in
            match r with
            | Panic | Err _ => (Panic, st)
            | Ok (Failed_ out fail sent) =>
                let st := add sent 0%Z in
                (Ok (forward_report target st out (Some fail)), end_turn opened st)
            | Ok (Served res sent) =>
                let st := add sent (bytes_forwarded res) in
                let finish st := (Ok (forward_report target st SoCompleted None), end_turn opened st) in
                if client_close || client_should_close res || negb (upstream_alive res) then finish st else
                if MAX_REQUESTS_PER_CONNECTION <=? request_count then finish st else
                if idle request_count then finish st else
                match read_forward_request (fw_client st) with
                | (Ok next_request, client) =>
                    forward_loop f (request_count + 1) next_request (fr_connection_close next_request)
                      (end_turn opened (with_client client st))
                | (Err _, client) => finish (with_client client st)
                | (Panic, _) => (Panic, st)
                end
            end
        end
  end.

(** The first request was read when the connection was accepted. *)
Definition execute_http_forward (p : PendingHttpForward) (client : conn) (s : net (Regex:=Regex) (IpNet:=IpNet) (R:=R))
    : outcome unit SessionReport * forward_state :=
  forward_loop (MAX_REQUESTS_PER_CONNECTION + 1) 1 (pf_request p) (fr_connection_close (pf_request p))
    {| fw_client := client; fw_net := s; fw_upstreams := []; fw_sent := 0; fw_received := 0; fw_last := no_route |}.
End forward.

(** ** Streams only move forward *)

(** Whatever the result, input was consumed from its front and output appended. *)
Class Advances {E A} (m : M E A) : Prop := advances c : exists l o, io l o c (m c).2.

#[export] Instance advances_ret {E A} (a : A) : Advances (E:=E) (mret a).
Proof. intros c. exists [], []. apply io_refl. Qed.
#[export] Instance advances_throw {E A} (e : E) : Advances (A:=A) (mthrow e).
Proof. intros c. exists [], []. apply io_refl. Qed.
#[export] Instance advances_lift {E A} (o : outcome E A) : Advances (mlift o).
Proof. intros c. exists [], []. apply io_refl. Qed.
#[export] Instance advances_panic {E A} : Advances (fun c => (@Panic E A, c)).
Proof. intros c. exists [], []. apply io_refl. Qed.
#[export] Instance advances_bind {E A B} (m : M E A) (k : A -> M E B) :
  Advances m -> (forall a, Advances (k a)) -> Advances (mbind m k).
Proof.
  intros Hm Hk c. unfold mbind. destruct (Hm c) as (l & o & Hio). destruct (m c) as [[a|e|] c1]; cbn [snd] in *; [|by eauto..].
  destruct (Hk a c1) as (l' & o' & Hio'). exists (l ++ l'), (o ++ o'). by eapply io_trans.
Qed.
#[export] Instance advances_write {E} `{!FromIo E} l : Advances (write_all (E:=E) l).
Proof.
  intros c. exists []. unfold write_all, io. destruct (c_quota c) as [[n e]|]; [destruct (length l <=? n)|]; cbn; by eexists.
Qed.
#[export] Instance advances_read {E} `{!FromIo E} n : Advances (read_exact (E:=E) n).
Proof.
  intros c. unfold read_exact, io. destruct (n <=? _); cbn; [exists (take n (c_in c)), []|exists (c_in c), []].
  - by rewrite take_drop, app_nil_r.
  - by rewrite !app_nil_r.
Qed.
#[export] Instance advances_some ready n : Advances (read_some ready n).
Proof.
  intros c. unfold read_some, io. destruct (c_in c) as [|b r] eqn:Ein; [|cbn [snd set_in c_in c_out c_end]].
  - exists [], []. destruct (c_end c) eqn:Ee; cbn; by rewrite ?Ein, ?Ee, app_nil_r.
  - eexists _, []. by rewrite take_drop, app_nil_r.
Qed.
#[export] Instance advances_opt {E} `{!FromIo E} : Advances (read_byte_opt (E:=E)).
Proof.
  intros c. unfold read_byte_opt, io. destruct (c_in c) as [|b r] eqn:Ein; cbn.
  - exists [], []. destruct (c_end c) eqn:Ee; cbn; by rewrite ?Ein, ?Ee, app_nil_r.
  - exists [b], []. by rewrite app_nil_r.
Qed.


#[export] Hint Extern 2 (Advances (if ?b then _ else _)) => destruct b : typeclass_instances.
#[export] Hint Extern 2 (Advances (match ?x with _ => _ end)) => destruct x : typeclass_instances.

#[export] Instance advances_head {St} max long eof (step : bytes -> St -> outcome HttpError (option St)) fuel : forall head st, Advances (head_loop max long eof step fuel head st).
Proof. induction fuel as [|f IH]; intros; cbn [head_loop]; apply _. Qed.
#[export] Instance advances_copy_loop ready fuel : forall n, Advances (copy_loop ready fuel n).
Proof. induction fuel as [|f IH]; intros; cbn [copy_loop]; apply _. Qed.
#[export] Instance advances_copy ready n : Advances (copy_bytes ready n).
Proof. intros c. apply advances_copy_loop. Qed.
#[export] Instance advances_line err max : Advances (bounded_line err max).
Proof. unfold bounded_line, read_head. apply _. Qed.
#[export] Instance advances_trailers limits fuel : forall n, Advances (copy_trailers limits fuel n).
Proof. induction fuel as [|f IH]; intros; cbn [copy_trailers]; unfold read_bounded_line; apply _. Qed.
#[export] Instance advances_chunks ready limits fuel : forall w d, Advances (copy_chunks ready limits fuel w d).
Proof.
  induction fuel as [|f IH]; intros; cbn [copy_chunks]; unfold read_bounded_line; [apply _|].
  assert (Advances (fun c => copy_trailers limits (length (c_in c) + 1) 0 c)) by (intros c; apply advances_trailers).
  apply _.
Qed.
#[export] Instance advances_body ready limits kind : Advances (copy_request_body ready limits kind).
Proof.
  unfold copy_request_body, copy_content_length_body. destruct kind; [apply _..|]. intros c. apply advances_chunks.
Qed.
#[export] Instance advances_request : Advances read_forward_request.
Proof. unfold read_forward_request, read_head. apply _. Qed.
#[export] Instance advances_response_head : Advances read_response_head.
Proof. unfold read_response_head, read_head. apply _. Qed.
#[export] Instance advances_final fuel : forall k n, Advances (final_response fuel k n).
Proof. induction fuel as [|f IH]; intros; cbn [final_response]; apply _. Qed.
#[export] Instance advances_response_trailers m fuel : forall n, Advances (response_trailers m fuel n).
Proof. induction fuel as [|f IH]; intros; cbn [response_trailers]; unfold read_bounded_line_into; apply _. Qed.
#[export] Instance advances_response_chunks ready fuel : forall n, Advances (response_chunks ready fuel n).
Proof.
  induction fuel as [|f IH]; intros; cbn [response_chunks]; unfold read_bounded_line_into; [apply _|].
  assert (Advances (fun c => response_trailers RESPONSE_TRAILER_LINE (length (c_in c) + 1) 0 c))
    by (intros c; apply advances_response_trailers).
  apply _.
Qed.
#[export] Instance advances_to_end ready b fuel : forall n, Advances (copy_to_end ready b fuel n).
Proof. induction fuel as [|f IH]; intros; cbn [copy_to_end]; apply _. Qed.
#[export] Instance advances_response ready : Advances (forward_response ready).
Proof.
  unfold forward_response. assert (forall n, Advances (fun c => response_chunks ready (length (c_in c) + 1) n c)) by (intros n c; apply advances_response_chunks).
  assert (forall n, Advances (fun c => copy_to_end ready COPY_BUFFER (length (c_in c) + 2) n c)) by (intros n c; apply advances_to_end).
  apply advances_bind; [apply _|]. intros [r n]. cbv zeta. apply _.
Qed.

(** Reading a head writes nothing, even when it fails. *)
Lemma head_loop_reads {St} max long eof (step : bytes -> St -> outcome HttpError (option St)) fuel : forall head st c,
  exists l, io l [] c (head_loop max long eof step fuel head st c).2.
Proof.
  induction fuel as [|f IH]; intros head st c; cbn [head_loop]; [exists []; apply io_refl|].
  destruct (max <=? length head); [exists []; apply io_refl|]. unfold mbind at 1.
  destruct (advances (m:=read_byte_opt (E:=HttpError)) c) as (l & o & Hio).
  assert (c_out (read_byte_opt (E:=HttpError) c).2 = c_out c) as Ho.
  { unfold read_byte_opt. destruct (c_in c); [by destruct (c_end c)|done]. }
  assert (io l [] c (read_byte_opt (E:=HttpError) c).2) as Hr.
  { destruct Hio as (H1 & _ & H3). split; [done|]. split; [by rewrite app_nil_r|done]. }
  destruct (read_byte_opt c) as [[[b|]|e|] c1]; cbn [snd] in Hr; [|by exists l..].
  unfold mbind, mlift. destruct (step (head ++ [b]) st) as [[st'|]|e|]; [|by exists l..].
  destruct (IH (head ++ [b]) st' c1) as [l' Hl']. exists (l ++ l'). exact (io_trans _ _ _ _ _ _ _ Hr Hl').
Qed.

Lemma forward_request_reads c : exists l, io l [] c (read_forward_request c).2.
Proof.
  unfold read_forward_request, mbind, mlift. pose proof (head_loop_reads MAX_HEAD_SIZE HeaderTooLarge
    (fun _ => MalformedRequest "unexpected EOF reading request") (request_step (fun n => MAX_HEADER_LINES <? n)) (MAX_HEAD_SIZE + 1) [] (false, 0) c) as H.
  unfold read_head. by destruct (head_loop _ _ _ _ _ _ _ c) as [[]].
Qed.

(** ** One exchange *)

Lemma splice_ok {E A} (m : M E A) src dst r src' dst' :
  splice m src dst = (r, src', dst') ->
  exists c, m (Conn (c_in src) (c_end src) (c_out dst) (c_quota dst)) = (r, c) /\
    src' = Conn (c_in c) (c_end c) (c_out src) (c_quota src) /\ dst' = Conn (c_in dst) (c_end dst) (c_out c) (c_quota c).
Proof. unfold splice. destruct (m _) as [r0 c]. intros [= <- <- <-]. by exists c. Qed.

Lemma splice_io l o src dst c :
  io l o (Conn (c_in src) (c_end src) (c_out dst) (c_quota dst)) c ->
  io l [] src (Conn (c_in c) (c_end c) (c_out src) (c_quota src)) /\ io [] o dst (Conn (c_in dst) (c_end dst) (c_out c) (c_quota c)).
Proof. unfold io. cbn. intros (-> & -> & ->). by rewrite app_nil_r. Qed.

Lemma splice_no_panic {E A} (m : M E A) src dst : (forall c, (m c).1 <> Panic) -> (splice m src dst).1.1 <> Panic.
Proof. intros H. unfold splice. specialize (H (Conn (c_in src) (c_end src) (c_out dst) (c_quota dst))). by destruct (m _) as [[]]. Qed.

Lemma splice_advances {E A} (m : M E A) `{!Advances m} src dst r src' dst' :
  splice m src dst = (r, src', dst') -> (exists l, io l [] src src') /\ exists o, io [] o dst dst'.
Proof.
  intros (c & Hm & -> & ->)%splice_ok. pose proof (advances (m:=m) (Conn (c_in src) (c_end src) (c_out dst) (c_quota dst))) as (l & o & Hio).
  rewrite Hm in Hio. apply splice_io in Hio as [? ?]. split; eauto.
Qed.

Lemma collect_framing_nonneg hs : forall lens codings lens' codings',
  Forall (fun z => 0 <= z)%Z lens -> collect_framing hs lens codings = Ok (lens', codings') -> Forall (fun z => 0 <= z)%Z lens'.
Proof.
  induction hs as [|[n v] hs IH]; intros lens codings lens' codings' Hl H; cbn [collect_framing] in H; [by injection H as <- _|].
  guard_in H; [|guard_in H; by eapply IH]. apply obind_ok in H as (z & Hz & H). eapply IH; [|exact H].
  apply Forall_app_2; [done|]. constructor; [|constructor]. destruct (parse_u64 (trim v)) as [z'|] eqn:Ez; [|done]. injection Hz as ->.
  by apply parse_uint_range in Ez as [? _].
Qed.

(** The announced length of a parsed request is not negative. *)
Lemma body_kind_length head r : parse_forward_head head = Ok r -> forall len, body_kind r = ContentLength len -> (0 <= len)%Z.
Proof.
  intros Hr%parse_forward_head_ok len Hl. pose proof (ro_kind _ Hr) as Hk. rewrite Hl in Hk. unfold determine_request_body_kind in Hk.
  apply obind_ok in Hk as ([lens codings] & Hc & Hk). apply collect_framing_nonneg in Hc; [|constructor].
  apply obind_ok in Hk as (u & _ & Hk). destruct codings as [|x codings].
  - destruct lens as [|z lens]; [done|]. injection Hk as <-. by apply Forall_cons in Hc as [? _].
  - guard_in Hk; [done|]. guard_in Hk; [done|]. by destruct (List.find _ _).
Qed.

(** The bytes on the two connections when a request was served. *)
Lemma serve_ok ready head r client up res sent client' up' :
  parse_forward_head head = Ok r -> serve ready r client up = (Ok (Served res sent), client', up') ->
  exists body data taken given drained,
    body_wire default_limits (body_kind r) body data /\ io body given client client' /\
    io taken (build_origin_request r ++ body) up up' /\ response_passed taken given drained res /\
    sent = Z.of_nat (length (build_origin_request r ++ body)) /\ bytes_forwarded res = Z.of_nat (length given).
Proof.
  intros Hp. unfold serve. destruct (write_all (build_origin_request r) up) as [[[]|e|] up1] eqn:Ew; [| |done].
  2: { by destruct (send_http_forward_failure SoOther client). }
  apply write_all_io in Ew. destruct (splice _ client up1) as [[[rep|e|] cl2] up2] eqn:Eb; [|done|done].
  apply splice_ok in Eb as (cb & Hb & -> & ->). apply copy_request_body_ok in Hb as (body & data & Hbw & Hio & ->); [|by eapply body_kind_length].
  apply splice_io in Hio as [Hin Hup]. set (cl := Conn (c_in cb) (c_end cb) (c_out client) (c_quota client)) in *.
  set (u2 := Conn (c_in up1) (c_end up1) (c_out cb) (c_quota cb)) in *.
  destruct (splice (forward_response ready) u2 cl) as [[[rs|e|] up3] cl3] eqn:Ef; [|destruct e; try done; by destruct (send_http_upgrade_unsupported cl3)|done].
  intros [= <- <- <- <-]. apply splice_ok in Ef as (cf & Hf & -> & ->).
  apply forward_response_ok in Hf as (taken & given & Hrp & Hio2 & Hc). apply splice_io in Hio2 as [Htk Hgv].
  exists body, data, taken, given, (bool_decide (c_in cf = [])). split_and!; [done| | |done| |done].
  - pose proof (io_trans _ _ _ _ _ _ _ Hin Hgv) as Ht. rewrite app_nil_r in Ht. exact Ht.
  - pose proof (io_trans _ _ _ _ _ _ _ (io_trans _ _ _ _ _ _ _ Ew Hup) Htk) as Ht. cbn [app] in Ht. rewrite app_nil_r in Ht. exact Ht.
  - cbn [wire_bytes body_report]. rewrite length_app. lia.
Qed.

(** Otherwise the session ends; the client saw at most an addition to its answers. *)
Lemma serve_outcome ready r client up :
  let '(o, client', _) := serve ready r client up in
  (exists l g, io l g client client') /\
  match o with Ok (Failed_ out _ _) => out <> SoCompleted | Ok (Served _ _) => True | _ => False end.
Proof.
  unfold serve. destruct (write_all (build_origin_request r) up) as [[[]|e|] up1] eqn:Ew.
  - destruct (splice (copy_request_body ready default_limits (body_kind r)) client up1) as [[rb cl2] up2] eqn:Eb.
    pose proof (splice_no_panic (copy_request_body ready default_limits (body_kind r)) client up1
      ltac:(intros; apply copy_request_body_no_panic)) as Hnp. rewrite Eb in Hnp.
    apply splice_advances in Eb as [[l Hl] _]; [|apply _]. destruct rb as [rep|e|]; [|by eauto|done].
    destruct (splice (forward_response ready) up2 cl2) as [[rf up3] cl3] eqn:Ef.
    pose proof (splice_no_panic (forward_response ready) up2 cl2 ltac:(intros; apply forward_response_no_panic)) as Hnf.
    rewrite Ef in Hnf. apply splice_advances in Ef as [_ [g Hg]]; [|apply _].
    pose proof (io_trans _ _ _ _ _ _ _ Hl Hg) as Ht. destruct rf as [res|e|]; [by eauto| |done].
    destruct e; eauto. destruct (advances (m:=send_http_upgrade_unsupported) cl3) as (l' & g' & Hio').
    destruct (send_http_upgrade_unsupported cl3) as [? cl4]. split; [|done]. eexists _, _. by eapply io_trans.
  - destruct (advances (m:=send_http_forward_failure SoOther) client) as (l' & g' & Hio').
    destruct (send_http_forward_failure SoOther client) as [? cl4]. split; [by eauto|done].
  - exfalso. pose proof (write_all_no_panic (E:=HttpError) (build_origin_request r) up) as Hn. by rewrite Ew in Hn.
Qed.

(** ** The session *)

(** A request that was answered: its head and body as the client sent them, the
    answer the client got, and the upstream connection afterwards. *)
Record exchange := { ex_head : bytes; ex_request : ForwardRequest; ex_body : bytes; ex_answer : bytes; ex_up : conn }.

(** The body is one body of the framing the head announces. *)
Definition framed_request (x : exchange) : Prop :=
  parse_forward_head (ex_head x) = Ok (ex_request x) /\
  exists data, body_wire default_limits (body_kind (ex_request x)) (ex_body x) data.

Definition to_origin (x : exchange) : bytes := build_origin_request (ex_request x) ++ ex_body x.
Definition from_client (x : exchange) : bytes := ex_head x ++ ex_body x.

(** The upstream got the request of this exchange and nothing else, and the client
    the formatted form of what the upstream answered. *)
Definition answered (up : conn) (x : exchange) : Prop :=
  exists taken drained res, io taken (to_origin x) up (ex_up x) /\ response_passed taken (ex_answer x) drained res.

Section proofs.
Context {Regex IpNet R : Type} `{Hok : RandomIndexOk R}.
Context (is_match : Regex -> bytes -> bool) (cidr_contains : IpNet -> IpAddr -> bool).
Context (lookup_host : bytes -> timed (list SocketAddr)).
Context (new_socket : bool -> option Z).
Context (bind_socket : bool -> SocketAddr -> option Z).
Context (tcp_connect : option (bool * SocketAddr) -> SocketAddr -> timed ConnectionMetadata).
Context (answer : list effect -> effect -> option Z).
Context (io_kind : Z -> ErrorKind) (source_of : Z -> handshake_source).
Context (executor : ChainExecutor).
Context (ready : nat -> nat) (elapsed idle : nat -> bool) (upstream : nat -> conn).
Context (cfg : SessionConfig) (identity : ClientIdentity).

Abbreviation state := (forward_state (Regex:=Regex) (IpNet:=IpNet) (R:=R)).
Abbreviation loop := (forward_loop is_match cidr_contains lookup_host new_socket bind_socket tcp_connect answer
  io_kind source_of executor ready elapsed idle upstream cfg identity).
Abbreviation wf st := (router_wf (n_heap (fw_net st)) (n_router (fw_net st))).
Abbreviation leases_are h ls := {| heap_of := h; leases := ls |}.
Abbreviation balanced st st' := (forall ls, rtc step (leases_are (n_heap (fw_net st)) ls) (leases_are (n_heap (fw_net st')) ls)).

Definition sent_bytes (xs : list exchange) : Z := Z.of_nat (length (mjoin (map to_origin xs))).
Definition answer_bytes (xs : list exchange) : Z := Z.of_nat (length (mjoin (map ex_answer xs))).

(** What a run of the loop, begun with the request of this head, did. *)
Record loop_done (k : nat) (head : bytes) (st : state) (report : SessionReport) (st' : state) (xs : list exchange) : Prop := {
  ld_wf : wf st';
  ld_leases : balanced st st';
  ld_framed : Forall framed_request xs;
  ld_first : match xs with x :: _ => ex_head x = head | [] => True end;
  ld_in : exists rest, head ++ c_in (fw_client st) = mjoin (map from_client xs) ++ rest;
  ld_out : exists last, c_out (fw_client st') = c_out (fw_client st) ++ mjoin (map ex_answer xs) ++ last /\
             (sr_outcome report = SoCompleted -> last = []);
  ld_ups : exists extra, fw_upstreams st' = fw_upstreams st ++ map ex_up xs ++ extra /\ length extra <= 1 /\
             (sr_outcome report = SoCompleted -> extra = []);
  ld_answered : forall i x, xs !! i = Some x -> answered (upstream (length (fw_upstreams st) + i)) x;
  ld_count : length xs + k <= MAX_REQUESTS_PER_CONNECTION + 1;
  ld_bytes : sr_outcome report = SoCompleted ->
             sr_upstream report = wrap64 (fw_sent st + sent_bytes xs) /\
             sr_downstream report = wrap64 (fw_received st + answer_bytes xs)
}.

(** A session that ends without serving the request. *)
Lemma loop_done_refused k head st report st' l g extra :
  k <= MAX_REQUESTS_PER_CONNECTION + 1 -> wf st' -> balanced st st' -> io l g (fw_client st) (fw_client st') ->
  fw_upstreams st' = fw_upstreams st ++ extra -> length extra <= 1 -> sr_outcome report <> SoCompleted ->
  loop_done k head st report st' [].
Proof using Type.
  intros Hk Hwf Hb Hio Hu He Ho. split; try done.
  - by exists (head ++ c_in (fw_client st)).
  - exists g. split; [|done]. cbn. apply Hio.
  - by exists extra.
Qed.

Lemma mjoin_cons {A} (x : list A) l : mjoin (x :: l) = x ++ mjoin l.
Proof using Type. done. Qed.

(** One served request, then what the rest of the session did. *)
Lemma loop_done_next k head r st client' st1 report st' xs body data given :
  parse_forward_head head = Ok r -> body_wire default_limits (body_kind r) body data ->
  io body given (fw_client st) client' ->
  forall up res taken drained rest, io taken (build_origin_request r ++ body) (upstream (length (fw_upstreams st))) up ->
  response_passed taken given drained res ->
  fw_upstreams st1 = fw_upstreams st ++ [up] ->
  fw_sent st1 = wrap64 (fw_sent st + Z.of_nat (length (build_origin_request r ++ body))) ->
  fw_received st1 = wrap64 (fw_received st + Z.of_nat (length given)) ->
  io rest [] client' (fw_client st1) -> balanced st st1 ->
  loop_done (k + 1) rest st1 report st' xs ->
  loop_done k head st report st'
    ({| ex_head := head; ex_request := r; ex_body := body; ex_answer := given; ex_up := up |} :: xs).
Proof using Type.
  intros Hp Hbw Hio up res taken drained rest Hup Hrp Hu Hs Hr Hrest Hbal [Hwf Hl Hf Hx (rs & Hin) (last & Hout & Hlast) (extra & Hups & Hex & Hexc) Hans Hk Hb].
  split; [exact Hwf|intros ls; transitivity (leases_are (n_heap (fw_net st1)) ls); [apply Hbal|apply Hl]|..].
  - constructor; [|done]. split; [done|]. by exists data.
  - done.
  - exists rs. cbn [map]. rewrite mjoin_cons. unfold from_client at 1. cbn [ex_head ex_body].
    destruct Hio as (-> & _ & _), Hrest as (-> & _ & _). rewrite <- !app_assoc. do 2 f_equal. done.
  - exists last. split; [|done]. rewrite Hout. destruct Hrest as (_ & -> & _), Hio as (_ & -> & _).
    cbn [map ex_answer]. by rewrite mjoin_cons, app_nil_r, <- !app_assoc.
  - exists extra. rewrite Hups, Hu. cbn [map ex_up]. by rewrite <- !app_assoc.
  - intros [|i] x Hi.
    + injection Hi as <-. rewrite Nat.add_0_r. by exists taken, drained, res.
    + specialize (Hans i x Hi). rewrite Hu, length_app in Hans. cbn [length] in Hans. by rewrite Nat.add_succ_r, <- Nat.add_succ_l, <- Nat.add_1_r.
  - cbn [length]. lia.
  - intros Hc. destruct (Hb Hc) as (Hb1 & Hb2). rewrite Hb1, Hb2, Hs, Hr. unfold sent_bytes, answer_bytes, wrap64. cbn [map].
    rewrite !mjoin_cons, !Zplus_mod_idemp_l, !(length_app _ (mjoin _)).
    unfold to_origin at 2. cbn [ex_request ex_body ex_answer]. split; f_equal; lia.
Qed.

Lemma wrap64_add_0 z : wrap64 (wrap64 z + 0) = wrap64 z.
Proof using Type. unfold wrap64. by rewrite Z.add_0_r, Zmod_mod. Qed.

(** The session ends after an answer; the client may have been read a little further. *)
Lemma loop_done_finish k target st1 opened client sent received :
  k < MAX_REQUESTS_PER_CONNECTION + 1 -> wf st1 ->
  (exists l, io l [] (fw_client st1) client) -> fw_sent st1 = wrap64 sent -> fw_received st1 = wrap64 received ->
  (forall ls, rtc step (leases_are (n_heap (fw_net st1)) (held opened ++ ls)) (leases_are (n_heap (fw_net (end_turn opened st1))) ls)) ->
  exists l st2, fw_upstreams st2 = fw_upstreams st1 /\ fw_sent st2 = fw_sent st1 /\ fw_received st2 = fw_received st1 /\
    fw_net st2 = release opened (fw_net st1) /\ io l [] (fw_client st1) (fw_client st2) /\
    loop_done (k + 1) l st2 (forward_report target (with_client client st1) SoCompleted None) (end_turn opened (with_client client st1)) [].
Proof using Type.
  intros Hk Hwf [l Hl] Hs Hr Hrel. exists l, (end_turn opened (with_client client st1)). split_and!; try done.
  split; try done.
  - cbn. by apply release_wf.
  - by eexists.
  - exists []. cbn. by rewrite app_nil_r.
  - exists []. cbn. rewrite app_nil_r. split; [done|split; [lia|done]].
  - cbn [length]. lia.
  - intros _. cbn [forward_report sr_upstream sr_downstream fw_sent fw_received with_client end_turn]. unfold sent_bytes, answer_bytes.
    cbn [map mjoin length list_join]. by rewrite Hs, Hr, !wrap64_add_0.
Qed.

Lemma forward_loop_done fuel : forall k r close st head,
  k + fuel = MAX_REQUESTS_PER_CONNECTION + 2 -> k <= MAX_REQUESTS_PER_CONNECTION ->
  parse_forward_head head = Ok r -> wf st ->
  exists report st' xs, loop fuel k r close st = (Ok report, st') /\ loop_done k head st report st' xs.
Proof using Hok.
  induction fuel as [|f IH]; intros k r close st head Hf Hk Hp Hwf; [lia|]. cbn [forward_loop].
  destruct (has_unsupported_expectation _).
  { destruct (advances (m:=send_http_expectation_failed) (fw_client st)) as (l & g & Hio).
    destruct (send_http_expectation_failed (fw_client st)) as [? c]. eexists _, _, []. split; [done|].
    eapply loop_done_refused; [lia|done|done|exact Hio|cbn; by rewrite app_nil_r|cbn; lia|done]. }
  pose proof (open_route_leases is_match cidr_contains lookup_host new_socket bind_socket tcp_connect answer io_kind source_of executor
    (elapsed k) cfg (forward_request cfg identity (fr_target r)) (fw_net st) Hwf) as Ho.
  destruct (open_route _ _ _ _ _ _ _ _ _ _ _ _ _ _) as [[ro s] tr]. destruct Ho as (Hwf' & Hnp & _ & Hsteps).
  destruct ro as [opened|e|]; [| |done].
  2: { destruct (advances (m:=send_http_forward_failure e) (fw_client st)) as (l & g & Hio).
    assert (Hfin : forall rep, sr_outcome rep <> SoCompleted -> exists report st' xs,
      (let '(_, client) := send_http_forward_failure e (fw_client st) in
       (Ok (E:=unit) rep, {| fw_client := client; fw_net := s; fw_upstreams := fw_upstreams st; fw_sent := fw_sent st;
                  fw_received := fw_received st; fw_last := fw_last st |})) = (Ok report, st') /\ loop_done k head st report st' xs).
    { intros rep Hrep. destruct (send_http_forward_failure e (fw_client st)) as [? c]. eexists _, _, []. split; [done|].
      eapply loop_done_refused; [lia|exact Hwf'|exact Hsteps|exact Hio|cbn; by rewrite app_nil_r|cbn; lia|done]. }
    destruct e; by apply Hfin. }
  pose proof (serve_outcome ready r (fw_client st) (upstream (length (fw_upstreams st)))) as Hso.
  destruct (serve ready r (fw_client st) _) as [[sv client] up] eqn:Es. destruct Hso as [(l & g & Hio) Hso].
  assert (Hrel : forall ls, rtc step (leases_are (n_heap (fw_net st)) ls) (leases_are (n_heap (release opened s)) ls)).
  { intros ls. etransitivity; [apply Hsteps|apply release_leases]. }
  destruct sv as [[out fail sent|res sent]|e|]; [| |done|done].
  { eexists _, _, []. split; [done|]. eapply loop_done_refused; [lia|by apply release_wf|exact Hrel|exact Hio|done|cbn; lia|done]. }
  eapply serve_ok in Es as (body & data & taken & given & drained & Hbw & Hio1 & Hup & Hrp & -> & Hcnt); [|exact Hp].
  set (st1 := {| fw_client := client; fw_net := s; fw_upstreams := fw_upstreams st ++ [up]; fw_last := opened |}).
  assert (Hfin : forall c, (exists l, io l [] client c) -> exists report st' xs,
    (Ok (E:=unit) (forward_report (fr_target r) (with_client c st1) SoCompleted None), end_turn opened (with_client c st1)) = (Ok report, st') /\
    loop_done k head st report st' xs).
  { intros c Hc. destruct (loop_done_finish k (fr_target r) st1 opened c _ _ ltac:(lia) Hwf' Hc eq_refl eq_refl ltac:(intros; apply release_leases))
      as (l' & st2 & H1 & H2 & H3 & H4 & H5 & Hd).
    eexists _, _, _. split; [done|]. eapply (loop_done_next k head r st client st2); [done|exact Hbw|exact Hio1|exact Hup|exact Hrp|exact H1| | |exact H5| |exact Hd].
    - by rewrite H2.
    - rewrite H3. unfold st1. cbn [fw_received]. by rewrite Hcnt.
    - rewrite H4. exact Hrel. }
  assert (Hst : with_client client st1 = st1) by done.
  destruct (_ || _ || _); [rewrite <- Hst; apply Hfin; exists []; apply io_refl|].
  destruct (MAX_REQUESTS_PER_CONNECTION <=? k) eqn:Emax; [rewrite <- Hst; apply Hfin; exists []; apply io_refl|].
  destruct (idle k); [rewrite <- Hst; apply Hfin; exists []; apply io_refl|].
  apply Nat.leb_gt in Emax. cbn [fw_client st1]. fold st1.
  pose proof (forward_request_reads client) as Hadv.
  destruct (read_forward_request client) as [[next|e|] c] eqn:Er.
  - apply read_forward_request_ok in Er as (hd & Hhd & Hpn & _).
    destruct (IH (k + 1) next (fr_connection_close next) (end_turn opened (with_client c st1)) hd ltac:(lia) ltac:(lia) Hpn)
      as (report & st' & xs & -> & Hd); [by apply release_wf|].
    eexists _, _, _. split; [done|]. eapply (loop_done_next k head r st client (end_turn opened (with_client c st1)));
      [done|exact Hbw|exact Hio1|exact Hup|exact Hrp|done|done| |exact Hhd|exact Hrel|exact Hd].
    cbn. by rewrite Hcnt.
  - by apply Hfin.
  - exfalso. pose proof (read_forward_no_panic client) as Hn. by rewrite Er in Hn.
Qed.

(** C19. A forward session keeps the messages of a connection apart.  Whatever the
    client sends, whatever the upstreams answer and whichever timeouts fire, the
    session ends with a report and without panic, after at most a hundred requests.
    The bytes of the client divide into the requests that were answered, each a head
    followed by exactly one body of the framing the head announces: no byte of one
    request is taken for another.  The upstream of each request got the rewritten
    head and that body and nothing else; the client got, in the order of its
    requests, the formatted answers and nothing between them; a completed session
    ends there and its report counts these bytes.  Every lease was given back. *)
Theorem forward_session_exact p head client s :
  parse_forward_head head = Ok (pf_request p) -> router_wf (n_heap s) (n_router s) ->
  exists report st xs,
    execute_http_forward is_match cidr_contains lookup_host new_socket bind_socket tcp_connect answer io_kind source_of executor
      ready elapsed idle upstream cfg identity p client s = (Ok report, st) /\
    length xs <= MAX_REQUESTS_PER_CONNECTION /\ Forall framed_request xs /\
    (exists rest, head ++ c_in client = mjoin (map from_client xs) ++ rest) /\
    (forall i x, xs !! i = Some x -> answered (upstream i) x) /\
    (exists last, c_out (fw_client st) = c_out client ++ mjoin (map ex_answer xs) ++ last /\ (sr_outcome report = SoCompleted -> last = [])) /\
    (exists extra, fw_upstreams st = map ex_up xs ++ extra /\ length extra <= 1 /\ (sr_outcome report = SoCompleted -> extra = [])) /\
    (sr_outcome report = SoCompleted -> sr_upstream report = wrap64 (sent_bytes xs) /\ sr_downstream report = wrap64 (answer_bytes xs)) /\
    forall ls, rtc step (leases_are (n_heap s) ls) (leases_are (n_heap (fw_net st)) ls).
Proof using Hok.
  intros Hp Hwf. unfold execute_http_forward.
  edestruct (forward_loop_done (MAX_REQUESTS_PER_CONNECTION + 1) 1 (pf_request p) (fr_connection_close (pf_request p))
    {| fw_client := client; fw_net := s; fw_upstreams := []; fw_sent := 0; fw_received := 0; fw_last := no_route |} head)
    as (report & st & xs & He & [_ Hl Hf _ Hin Hout Hups Ha Hk Hb]); [lia|unfold MAX_REQUESTS_PER_CONNECTION; lia|done|done|].
  exists report, st, xs. split_and!; try done. lia.
Qed.
End proofs.

(** ** Witness: two requests on one connection *)

Definition demo_get (uri : string) : bytes := str "GET " ++ str uri ++ str " HTTP/1.1" ++ CRLF ++ str "Host: example.org" ++ CRLF ++ CRLF.
Definition demo_post : bytes :=
  str "POST http://example.org/up HTTP/1.1" ++ CRLF ++ str "Content-Length: 3" ++ CRLF ++ str "Connection: close" ++ CRLF ++ CRLF ++ str "abc".
Definition demo_answering (_ : nat) : conn :=
  Conn (str "HTTP/1.1 200 OK" ++ CRLF ++ str "Content-Length: 2" ++ CRLF ++ CRLF ++ str "ok") None [] None.
Definition demo_pending : option PendingHttpForward :=
  match parse_forward_head (demo_get "http://example.org/") with
  | Ok r => Some {| pf_target := fr_target r; pf_request := r; pf_identity := Anonymous |}
  | _ => None
  end.
Definition demo_forward_session (p : PendingHttpForward) (input : bytes) :=
  execute_http_forward no_regex no_cidr demo_lookup (fun _ => None) (fun _ _ => None) demo_connect (fun _ _ => None)
    (fun _ => KOther) (fun _ => SrcUnknown) demo_executor (fun _ => 2) (fun _ => false) (fun _ => false) demo_answering
    demo_config Anonymous p (Conn input None [] None) demo_net.

Lemma forward_session_exact_witness : exists p report st xs,
  demo_pending = Some p /\ demo_forward_session p demo_post = (Ok report, st) /\ sr_outcome report = SoCompleted /\
  map (fun u => ends_with (str "abc") (c_out u)) (fw_upstreams st) = [false; true] /\ fw_upstreams st = map ex_up xs /\ Forall framed_request xs.
Proof.
  destruct demo_pending as [p|] eqn:Ep; [|by vm_compute in Ep]. exists p.
  assert (parse_forward_head (demo_get "http://example.org/") = Ok (pf_request p)) as Hp.
  { unfold demo_pending in Ep. destruct (parse_forward_head _) as [r|e|]; [|done..]. by injection Ep as <-. }
  destruct (forward_session_exact no_regex no_cidr demo_lookup (fun _ => None) (fun _ _ => None) demo_connect (fun _ _ => None)
    (fun _ => KOther) (fun _ => SrcUnknown) demo_executor (fun _ => 2) (fun _ => false) (fun _ => false) demo_answering
    demo_config Anonymous p (demo_get "http://example.org/") (Conn demo_post None [] None) demo_net Hp
    ltac:(intros k g Hg; apply (demo_router_wf k g Hg))) as (report & st & xs & He & _ & Hf & _ & _ & _ & (extra & Hu & _ & Hx) & _).
  exists report, st, xs. unfold demo_forward_session. rewrite He.
  pose proof (f_equal (fun x => match x.1 with Ok rep => Some (sr_outcome rep, map (fun u => ends_with (str "abc") (c_out u)) (fw_upstreams x.2)) | _ => None end) He) as Hr.
  cbv beta iota in Hr. cbn [fst snd] in Hr.
  assert (Some (SoCompleted, [false; true]) = Some (sr_outcome report, map (fun u => ends_with (str "abc") (c_out u)) (fw_upstreams st))) as Hr'.
  { etransitivity; [|exact Hr]. clear -Ep. vm_compute in Ep. injection Ep as <-. vm_compute. reflexivity. }
  injection Hr' as Ho Hm. rewrite (Hx (eq_sym Ho)), app_nil_r in Hu. split; [reflexivity|]. split; [reflexivity|]. split; [exact (eq_sym Ho)|].
  split; [exact (eq_sym Hm)|]. split; [exact Hu|exact Hf].
Defined.

(** A second request that is rejected makes the report forget the first: the bytes
    forwarded for it are not counted. *)
Lemma rejected_report_forgets : exists p report st u,
  demo_pending = Some p /\ demo_forward_session p (demo_get "http://example.org:443/") = (Ok report, st) /\
  fw_upstreams st = [u] /\ c_out u <> [] /\ sr_upstream report = 0%Z /\ sr_downstream report = 0%Z.
Proof.
  destruct demo_pending as [p|] eqn:Ep; [|by vm_compute in Ep]. exists p. vm_compute in Ep. injection Ep as <-.
  eexists _, _, _. split; [done|]. split; [by vm_compute|]. by vm_compute.
Qed.
