(* ===== verification/UdpUpstream.v ===== *)
(** * SOCKS5 UDP upstreams

    Models [crates/eggress-udp/src/upstream_socks5.rs]: opening a UDP association at
    a SOCKS5 proxy (method negotiation, authentication, UDP ASSOCIATE, the address
    of the relay and the local socket to reach it), and the encoders and decoders on
    buffers.  Name resolution, the TCP connection and the local socket are
    parameters; the conversation runs on the byte stream model. *)

From S2P Require Import Prelude Bytes Stream Socks5 Socks5Handshake NetAddr Connector Uri.

(** ** Errors *)

Inductive UdpUpstreamError :=
| UuUnsupportedProtocol
| UuUnsupportedMultiHop
| UuTcpConnect (e : IoError)
| SocksMethodRejected
| SocksAuthFailed
| SocksAssociateRejected (rep : byte)
| MalformedSocksReply
| UdpRelayAddressInvalid
| UuTimeout
| CredentialTooLong
| UuDomainTooLong
| UuIo (e : IoError).

#[export] Instance uu_from_io : FromIo UdpUpstreamError := UuIo.

Definition reason_label (e : UdpUpstreamError) : string :=
  match e with
  | UuUnsupportedProtocol => "unsupported_protocol"
  | UuUnsupportedMultiHop => "unsupported_multi_hop"
  | UuTcpConnect _ => "tcp_connect"
  | SocksMethodRejected => "method_rejected"
  | SocksAuthFailed => "auth_failed"
  | SocksAssociateRejected _ => "associate_rejected"
  | MalformedSocksReply => "malformed_reply"
  | UdpRelayAddressInvalid => "bad_relay_addr"
  | UuTimeout => "timeout"
  | CredentialTooLong => "credential_too_long"
  | UuDomainTooLong => "domain_too_long"
  | UuIo _ => "io"
  end.

(** ** The local socket *)

Definition v4_any : IpAddr := V4 [x00; x00; x00; x00].

Definition wildcard_udp_bind_for_relay (relay : SocketAddr) : SocketAddr :=
  {| sa_ip := if is_ipv4 relay then v4_any else v6_unspecified; sa_port := 0 |}.

Definition effective_udp_bind (requested relay : SocketAddr) : SocketAddr :=
  if Bool.eqb (is_ipv4 requested) (is_ipv4 relay) then requested else wildcard_udp_bind_for_relay relay.

Definition is_unspecified (a : SocketAddr) : bool :=
  bool_decide (sa_ip a = v4_any) || bool_decide (sa_ip a = v6_unspecified).

Definition substitute_unspecified (a : SocketAddr) (peer_ip : IpAddr) : SocketAddr :=
  if is_unspecified a then {| sa_ip := peer_ip; sa_port := sa_port a |} else a.

(** ** Encoders *)

Inductive len_field := FieldCredential | FieldDomain.

Definition checked_u8_len (value : bytes) (field : len_field) : outcome UdpUpstreamError byte :=
  if 255 <? length value then
    Err (match field with FieldCredential => CredentialTooLong | FieldDomain => UuDomainTooLong end)
  else Ok (Z2b (Z.of_nat (length value))).

Definition encode_socks_addr (a : SocksAddr) : outcome UdpUpstreamError bytes :=
  match a with
  | IPv4 addr port => Ok ([ATYP_IPV4] ++ addr ++ u16_to_be port)
  | Domain domain port =>
      let? n := checked_u8_len domain FieldDomain in
      Ok ([ATYP_DOMAIN; n] ++ domain ++ u16_to_be port)
  | IPv6 addr port => Ok ([ATYP_IPV6] ++ addr ++ u16_to_be port)
  end.

Definition encode_method_negotiation (methods : bytes) : bytes :=
  [x05; Z2b (Z.of_nat (length methods))] ++ methods.

Definition encode_auth_request (username password : bytes) : outcome UdpUpstreamError bytes :=
  let? u_len := checked_u8_len username FieldCredential in
  let? p_len := checked_u8_len password FieldCredential in
  Ok ([AUTH_VERSION; u_len] ++ username ++ [p_len] ++ password).

Definition encode_udp_associate_request (target : SocksAddr) : outcome UdpUpstreamError bytes :=
  let? enc := encode_socks_addr target in
  Ok ([x05; CMD_UDP_ASSOCIATE; x00] ++ enc).

(** ** The conversation *)

Abbreviation UM := (M UdpUpstreamError).

Definition socks5_method_negotiate (auth : option (bytes * bytes)) : UM unit :=
  let methods := AUTH_NONE :: match auth with Some _ => [AUTH_USERNAME_PASSWORD] | None => [] end in
  write_all (encode_method_negotiation methods) ;;
  flush ;;
  let! version := read_u8 in
  if negb (version =b x05) then mthrow SocksMethodRejected else
  let! selected := read_u8 in
  if selected =b AUTH_NONE then mret tt
  else if (selected =b AUTH_USERNAME_PASSWORD) && bool_decide (is_Some auth) then mret tt
  else mthrow SocksMethodRejected.

Definition socks5_auth (username password : bytes) : UM unit :=
  let! buf := mlift (encode_auth_request username password) in
  write_all buf ;;
  flush ;;
  let! version := read_u8 in
  if negb (version =b AUTH_VERSION) then mthrow SocksAuthFailed else
  let! status := read_u8 in
  if negb (status =b x00) then mthrow SocksAuthFailed else mret tt.

Section upstream.
(** [tokio::net::lookup_host((host, port))]. *)
Variable lookup_host : bytes -> Z -> outcome IoError (list SocketAddr).

Definition resolve_domain_relay (domain : bytes) (port : Z) : outcome UdpUpstreamError SocketAddr :=
  let? l := map_err UuIo (lookup_host domain port) in
  ok_or UdpRelayAddressInvalid (head l).

(** The match on the address type of the reply. *)
Definition read_relay_addr (atyp : byte) : UM SocketAddr :=
  if atyp =b ATYP_IPV4 then
    let! addr := read_exact 4 in
    let! p := read_u16 in
    mret {| sa_ip := V4 addr; sa_port := p |}
  else if atyp =b ATYP_IPV6 then
    let! addr := read_exact 16 in
    let! p := read_u16 in
    mret {| sa_ip := V6 addr; sa_port := p |}
  else if atyp =b ATYP_DOMAIN then
    let! len := read_u8 in
    if b2n len =? 0 then mthrow UdpRelayAddressInvalid else
    let! domain := read_exact (b2n len) in
    let! p := read_u16 in
    let! domain := mlift (from_utf8 UdpRelayAddressInvalid domain) in
    mlift (resolve_domain_relay domain p)
  else mthrow UdpRelayAddressInvalid.

(** The reply, as [socks5_udp_associate] reads it. *)
Definition read_associate_reply : UM SocketAddr :=
  let! version := read_u8 in
  if negb (version =b x05) then mthrow MalformedSocksReply else
  let! rep := read_u8 in
  if negb (rep =b x00) then mthrow (SocksAssociateRejected rep) else
  let! _rsv := read_u8 in
  let! atyp := read_u8 in
  read_relay_addr atyp.

Definition socks5_udp_associate (target : SocksAddr) : UM SocketAddr :=
  let! buf := mlift (encode_udp_associate_request target) in
  write_all buf ;;
  flush ;;
  read_associate_reply.

Definition resolve_endpoint (ep : EndpointSpec) : outcome IoError SocketAddr :=
  let host := if bool_decide (ep_host ep = []) then str "127.0.0.1" else ep_host ep in
  let? l := lookup_host host (ep_port ep) in
  ok_or (IoOther 2) (head l).

(** ** Opening an association *)

Record Socks5UdpUpstreamConfig := {
  uc_upstream_id : bytes; uc_hop : ProxyHopSpec; uc_connect_timeout : Z; uc_udp_bind : SocketAddr; uc_control_timeout : option Z
}.

(** The local socket is named by the address it is bound to. *)
Record Socks5UdpUpstreamAssociation := {
  ua_upstream_id : bytes; ua_relay_addr : SocketAddr; ua_bind : SocketAddr; ua_control_timeout : Z
}.

Definition DEFAULT_CONTROL_TIMEOUT : Z := 300 * NANOS.

(** The TCP connection (and its options), the address of its peer, the UDP socket. *)
Variable tcp_connect : SocketAddr -> outcome IoError unit.
Variable set_nodelay : outcome IoError unit.
Variable peer_addr : outcome IoError IpAddr.
Variable udp_bind : SocketAddr -> outcome IoError unit.

Definition open_socks5_udp_upstream_inner (config : Socks5UdpUpstreamConfig) (target_hint : option SocksAddr)
    : UM Socks5UdpUpstreamAssociation :=
  let hop := uc_hop config in
  if 1 <? length (protocols hop) then mthrow UuUnsupportedMultiHop else
  if negb (bool_decide (SSocks5 ∈ protocols hop)) then mthrow UuUnsupportedProtocol else
  let! connect_addr := mlift (map_err UuTcpConnect (resolve_endpoint (endpoint hop))) in
  let! _ := mlift (map_err UuTcpConnect (tcp_connect connect_addr)) in
  let! _ := mlift (map_err UuIo set_nodelay) in
  let auth := (fun c => (username c, password c)) <$> credentials hop in
  socks5_method_negotiate auth ;;
  match auth with Some (u, p) => socks5_auth u p | None => mret tt end ;;
  let hint := default (IPv4 [x00; x00; x00; x00] 0) target_hint in
  let! relay_addr := socks5_udp_associate hint in
  let! relay_addr :=
    if is_unspecified relay_addr then
      let! peer_ip := mlift (map_err UuIo peer_addr) in
      mret {| sa_ip := peer_ip; sa_port := sa_port relay_addr |}
    else mret relay_addr in
  let effective_bind := effective_udp_bind (uc_udp_bind config) relay_addr in
  let! _ := mlift (map_err UuIo (udp_bind effective_bind)) in
  mret {| ua_upstream_id := uc_upstream_id config; ua_relay_addr := relay_addr; ua_bind := effective_bind;
          ua_control_timeout := default DEFAULT_CONTROL_TIMEOUT (uc_control_timeout config) |}.

(** [took]: how long the conversation takes; at the connect timeout it is abandoned. *)
Definition open_socks5_udp_upstream (took : Z) (config : Socks5UdpUpstreamConfig) (target_hint : option SocksAddr)
    : UM Socks5UdpUpstreamAssociation := fun c =>
  let '(r, c) := open_socks5_udp_upstream_inner config target_hint c in
  (if (uc_connect_timeout config <=? took)%Z then Err UuTimeout else r, c).

(** ** Decoders *)

Definition decode_method_selection (buf : bytes) : outcome UdpUpstreamError byte :=
  if length buf <? 2 then Err MalformedSocksReply else
  let? v := buf.[0] in
  if negb (v =b x05) then Err MalformedSocksReply else buf.[1].

Definition decode_auth_response (buf : bytes) : outcome UdpUpstreamError unit :=
  if length buf <? 2 then Err MalformedSocksReply else
  let? v := buf.[0] in
  if negb (v =b AUTH_VERSION) then Err MalformedSocksReply else
  let? s := buf.[1] in
  if negb (s =b x00) then Err SocksAuthFailed else Ok tt.

Definition decode_udp_associate_reply (buf : bytes) : outcome UdpUpstreamError SocketAddr :=
  if length buf <? 4 then Err MalformedSocksReply else
  let? v := buf.[0] in
  if negb (v =b x05) then Err MalformedSocksReply else
  let? rep := buf.[1] in
  if negb (rep =b x00) then Err (SocksAssociateRejected rep) else
  let? atyp := buf.[3] in
  if atyp =b ATYP_IPV4 then
    if length buf <? 10 then Err MalformedSocksReply else
    let? addr := slice buf 4 8 in
    let? hi := buf.[8] in
    let? lo := buf.[9] in
    Ok {| sa_ip := V4 addr; sa_port := u16_from_be hi lo |}
  else if atyp =b ATYP_IPV6 then
    if length buf <? 22 then Err MalformedSocksReply else
    let? addr := slice buf 4 20 in
    let? hi := buf.[20] in
    let? lo := buf.[21] in
    Ok {| sa_ip := V6 addr; sa_port := u16_from_be hi lo |}
  else if atyp =b ATYP_DOMAIN then
    if length buf <? 5 then Err MalformedSocksReply else
    let? n := buf.[4] in
    let len := b2n n in
    if (len =? 0) || (length buf <? 5 + len + 2) then Err MalformedSocksReply else
    let? domain_bytes := slice buf 5 (5 + len) in
    let? domain := from_utf8 UdpRelayAddressInvalid domain_bytes in
    let? hi := buf.[5 + len] in
    let? lo := buf.[6 + len] in
    let? addrs := map_err UuIo (lookup_host domain (u16_from_be hi lo)) in
    ok_or UdpRelayAddressInvalid (head addrs)
  else Err UdpRelayAddressInvalid.
End upstream.

(** ** Replies *)

(** The socket address a reply address stands for. *)
Definition denotes lookup_host (a : SocksAddr) (relay : SocketAddr) : Prop :=
  match a with
  | IPv4 addr p => relay = {| sa_ip := V4 addr; sa_port := p |}
  | IPv6 addr p => relay = {| sa_ip := V6 addr; sa_port := p |}
  | Domain d p => d <> [] /\ resolve_domain_relay lookup_host d p = Ok relay
  end.

(** The wire form of an accepted reply. *)
Definition reply_wire lookup_host (wire : bytes) (relay : SocketAddr) : Prop :=
  exists rsv a atyp enc, wire = [x05; x00; rsv; atyp] ++ enc /\ addr_wire a atyp enc /\ denotes lookup_host a relay.

Section replies.
Variable lookup_host : bytes -> Z -> outcome IoError (list SocketAddr).

Lemma read_relay_io atyp c relay c' : read_relay_addr lookup_host atyp c = (Ok relay, c') ->
  exists a enc, addr_wire a atyp enc /\ denotes lookup_host a relay /\ io enc [] c c'.
Proof.
  unfold read_relay_addr. intros H.
  destruct (byte_eqb atyp ATYP_IPV4) eqn:E1; [apply byte_eqb_true in E1 as ->|].
  { inv_io. eexists (IPv4 _ _), _. split; [by apply addr_wire_ipv4|]. split; [done|]. io_done. }
  destruct (byte_eqb atyp ATYP_IPV6) eqn:E3; [apply byte_eqb_true in E3 as ->|].
  { inv_io. eexists (IPv6 _ _), _. split; [by apply addr_wire_ipv6|]. split; [done|]. io_done. }
  destruct (byte_eqb atyp ATYP_DOMAIN) eqn:E2; [apply byte_eqb_true in E2 as ->|done].
  inv_io_guards. match goal with H : from_utf8 _ _ = Ok _ |- _ => apply from_utf8_ok in H as [? ->] end.
  apply Nat.eqb_neq in G. eexists (Domain _ _), _. split; [by eapply addr_wire_domain|]. split.
  - split; [|done]. intros ->. cbn in *. lia.
  - io_done.
Qed.

Lemma read_relay_fwd a atyp enc relay r e o q : addr_wire a atyp enc -> denotes lookup_host a relay ->
  read_relay_addr lookup_host atyp (Conn (enc ++ r) e o q) = (Ok relay, Conn r e o q).
Proof.
  intros H Hd. unfold read_relay_addr. apply addr_wire_inv in H as [H|[H|H]].
  - destruct H as (o4 & p & -> & -> & -> & Hl & Hp). rewrite <- app_assoc. simpl.
    erewrite mbind_fwd by by apply read_exact_fwd. erewrite mbind_fwd by by apply read_u16_fwd. by rewrite Hd.
  - destruct H as (d & p & lb & -> & -> & -> & Hl & Hu & Hp). destruct Hd as [Hne Hd]. simpl. rewrite <- app_assoc.
    erewrite mbind_fwd by apply read_u8_fwd. rewrite (proj2 (Nat.eqb_neq _ _)) by (destruct d; [done|]; cbn in *; lia).
    erewrite mbind_fwd by by apply read_exact_fwd. erewrite mbind_fwd by by apply read_u16_fwd.
    unfold from_utf8. rewrite Hu. erewrite mbind_fwd by done. unfold mlift. by rewrite Hd.
  - destruct H as (o4 & p & -> & -> & -> & Hl & Hp). rewrite <- app_assoc. simpl.
    erewrite mbind_fwd by by apply read_exact_fwd. erewrite mbind_fwd by by apply read_u16_fwd. by rewrite Hd.
Qed.

Lemma read_reply_io c relay c' : read_associate_reply lookup_host c = (Ok relay, c') ->
  exists wire, reply_wire lookup_host wire relay /\ io wire [] c c'.
Proof.
  unfold read_associate_reply. intros H. inv_io_guards. byte_guards. apply read_relay_io in H as (a & enc & Hw & Hd & ?).
  eexists. split; [by eexists _, a, _, enc|]. io_done.
Qed.

Lemma read_reply_fwd wire relay r e o q : reply_wire lookup_host wire relay ->
  read_associate_reply lookup_host (Conn (wire ++ r) e o q) = (Ok relay, Conn r e o q).
Proof.
  intros (rsv & a & atyp & enc & -> & Hw & Hd). simpl. by apply (read_relay_fwd a).
Qed.

(** A field of [n] bytes at offset [off] and the port behind it. *)
Lemma field_port_ok {E B} (k : bytes -> Z -> outcome E B) (buf : bytes) off n b :
  (let? o := slice (E:=E) buf off (off + n) in
   let? hi := buf.[off + n] in
   let? lo := buf.[off + n + 1] in
   k o (u16_from_be hi lo)) = Ok b <->
  exists addr p rest, length addr = n /\ is_u16 p /\ drop off buf = addr ++ u16_to_be p ++ rest /\ k addr p = Ok b.
Proof.
  split.
  - intros H. apply obind_ok in H as (o & Ho & H). apply obind_ok in H as (hi & Hhi & H). apply obind_ok in H as (lo & Hlo & Hk).
    assert (slice_from (E:=E) buf (off + n + 2) = Ok (drop (off + n + 2) buf)) as Hs.
    { unfold slice_from. rewrite (proj2 (Nat.leb_le _ _)); [done|]. unfold index in Hlo.
      destruct (buf !! (off + n + 1)) eqn:E1; [|done]. apply lookup_lt_Some in E1. lia. }
    pose proof (proj1 (fixed_field_ok (E:=E) pair buf off n (o, u16_from_be hi lo) (drop (off + n + 2) buf))) as Hf.
    rewrite Ho, Hhi, Hlo, Hs in Hf. destruct (Hf eq_refl) as (addr & p & [= <- <-] & Hl & Hp & Hd). eauto 10.
  - intros (addr & p & rest & Hl & Hp & Hd & Hk).
    pose proof (proj2 (fixed_field_ok (E:=E) pair buf off n (addr, p) rest) ltac:(eauto 10)) as Hf.
    apply obind_ok in Hf as (o & Ho & Hf). apply obind_ok in Hf as (hi & Hhi & Hf). apply obind_ok in Hf as (lo & Hlo & Hf).
    apply obind_ok in Hf as (r & _ & Hf). injection Hf as -> <- <-. by rewrite Ho, Hhi, Hlo.
Qed.

Lemma fixed_reply_ok n (mk : bytes -> IpAddr) b relay :
  (if length b <? 4 + n + 2 then Err MalformedSocksReply else
   let? addr := slice b 4 (4 + n) in
   let? hi := b.[4 + n] in
   let? lo := b.[4 + n + 1] in
   Ok {| sa_ip := mk addr; sa_port := u16_from_be hi lo |}) = Ok relay <->
  exists addr p rest, length addr = n /\ is_u16 p /\ drop 4 b = addr ++ u16_to_be p ++ rest /\ relay = {| sa_ip := mk addr; sa_port := p |}.
Proof.
  destruct (Nat.ltb_spec (length b) (4 + n + 2)) as [Hs|Hs].
  - split; [done|]. intros (addr & p & rest & Hl & _ & Hd & _). apply (f_equal length) in Hd.
    rewrite length_drop, !length_app, u16_to_be_length in Hd. lia.
  - rewrite (field_port_ok (fun addr p => Ok {| sa_ip := mk addr; sa_port := p |}) b 4 n). naive_solver.
Qed.

Lemma domain_reply_ok b relay :
  (if length b <? 5 then Err MalformedSocksReply else
   let? n := b.[4] in
   let len := b2n n in
   if (len =? 0) || (length b <? 5 + len + 2) then Err MalformedSocksReply else
   let? domain_bytes := slice b 5 (5 + len) in
   let? domain := from_utf8 UdpRelayAddressInvalid domain_bytes in
   let? hi := b.[5 + len] in
   let? lo := b.[6 + len] in
   let? addrs := map_err UuIo (lookup_host domain (u16_from_be hi lo)) in
   ok_or UdpRelayAddressInvalid (head addrs)) = Ok relay <->
  exists lb d p rest, length d = b2n lb /\ is_u16 p /\ utf8_valid d = true /\ d <> [] /\
    drop 4 b = lb :: d ++ u16_to_be p ++ rest /\ resolve_domain_relay lookup_host d p = Ok relay.
Proof.
  destruct (Nat.ltb_spec (length b) 5) as [Hs|Hs].
  { split; [done|]. intros (lb & d & p & rest & _ & _ & _ & _ & Hd & _). apply (f_equal length) in Hd. rewrite length_drop in Hd. cbn [length] in Hd. lia. }
  destruct (index_lt (E:=UdpUpstreamError) b 4) as (lb & -> & Hi); [lia|]. cbn [obind]. cbv zeta. rewrite (drop_S _ _ _ Hi).
  assert (forall x y, 6 + x = y -> y = 5 + x + 1) as H6 by lia. rewrite (H6 _ _ eq_refl).
  destruct (b2n lb =? 0) eqn:E0; cbn [orb]; bool_to_prop.
  { split; [done|]. intros (lb' & d & p & rest & Hl & _ & _ & Hne & [= <- _] & _). destruct d; [done|]. cbn in Hl. lia. }
  destruct (Nat.ltb_spec (length b) (5 + b2n lb + 2)) as [Hs'|Hs'].
  { split; [done|]. intros (lb' & d & p & rest & Hl & _ & _ & Hne & Hd & _). injection Hd as <- Hd. apply (f_equal length) in Hd.
    rewrite length_drop, length_app in Hd. cbn [length] in Hd. lia. }
  assert (Hswap : forall A B (m : outcome UdpUpstreamError A) (hi lo : outcome UdpUpstreamError byte) (k : A -> byte -> byte -> outcome UdpUpstreamError B) r,
    (let? d := m in let? h := hi in let? l := lo in k d h l) = Ok r <-> (let? h := hi in let? l := lo in let? d := m in k d h l) = Ok r).
  { intros. destruct m, hi, lo; cbn; naive_solver. }
  transitivity ((let? o := slice (E:=UdpUpstreamError) b 5 (5 + b2n lb) in let? hi := b.[5 + b2n lb] in let? lo := b.[5 + b2n lb + 1] in
    (fun o p => let? d := from_utf8 UdpRelayAddressInvalid o in resolve_domain_relay lookup_host d p) o (u16_from_be hi lo)) = Ok relay).
  { destruct (slice b 5 (5 + b2n lb)) as [o|e|]; cbn [obind]; [|done..].
    apply (Hswap _ _ (from_utf8 UdpRelayAddressInvalid o) _ _ (fun d hi lo => resolve_domain_relay lookup_host d (u16_from_be hi lo))). }
  rewrite (field_port_ok (fun o p => let? d := from_utf8 UdpRelayAddressInvalid o in resolve_domain_relay lookup_host d p) b 5 (b2n lb)). split.
  - intros (d & p & rest & Hl & Hp & Hd & Hk). apply obind_ok in Hk as (d' & Hu & Hr). apply from_utf8_ok in Hu as [Hu ->].
    exists lb, d, p, rest. rewrite Hd. split_and!; try done. intros ->. cbn in Hl. lia.
  - intros (lb' & d & p & rest & Hl & Hp & Hu & Hne & Hd & Hr). injection Hd as <- Hd. exists d, p, rest.
    split_and!; try done. unfold from_utf8. by rewrite Hu.
Qed.

(** The decoder of buffered replies accepts exactly the wire forms. *)
Lemma decode_reply_ok buf relay :
  decode_udp_associate_reply lookup_host buf = Ok relay <-> exists wire rest, reply_wire lookup_host wire relay /\ buf = wire ++ rest.
Proof.
  unfold decode_udp_associate_reply, reply_wire. destruct (Nat.ltb_spec (length buf) 4) as [Hs|Hs].
  { split; [done|]. intros (wire & rest & (rsv & a & atyp & enc & -> & _) & ->). cbn in Hs. lia. }
  destruct buf as [|v [|rep [|rsv [|atyp t]]]]; try (cbn in Hs; lia). cbn [index lookup list_lookup obind].
  destruct (negb (v =b x05)) eqn:Ev.
  { split; [done|]. intros (wire & rest & (? & a & atyp' & enc & -> & _) & [= -> _]). done. }
  destruct (negb (rep =b x00)) eqn:Er.
  { split; [done|]. intros (wire & rest & (? & a & atyp' & enc & -> & _) & [= _ -> _]). done. }
  byte_guards.
  assert (Hshape : forall P : Prop, (P <-> exists a enc rest, addr_wire a atyp enc /\ denotes lookup_host a relay /\ t = enc ++ rest) ->
    (P <-> exists wire rest, (exists rsv' a atyp' enc, wire = [x05; x00; rsv'; atyp'] ++ enc /\ addr_wire a atyp' enc /\ denotes lookup_host a relay) /\
       x05 :: x00 :: rsv :: atyp :: t = wire ++ rest)).
  { intros P ->. split.
    - intros (a & enc & rest & Hw & Hd & ->). by exists ([x05; x00; rsv; atyp] ++ enc), rest; split; [eauto 10|].
    - intros (wire & rest & (rsv' & a & atyp' & enc & -> & Hw & Hd) & [= <- <- Ht]). eauto 10. }
  apply Hshape. set (buf := x05 :: x00 :: rsv :: atyp :: t). assert (t = drop 4 buf) as Ht by done. rewrite Ht. clearbody buf.
  destruct (atyp =b ATYP_IPV4) eqn:E1; [apply byte_eqb_true in E1 as ->; etransitivity; [apply (fixed_reply_ok 4 V4)|]|].
  { setoid_rewrite addr_wire_ipv4_iff. split.
    - intros (addr & p & rest & Hl & Hp & Hd & ->). exists (IPv4 addr p), (addr ++ u16_to_be p), rest. rewrite <- app_assoc. naive_solver.
    - intros (? & ? & rest & (addr & p & -> & Hl & Hp & ->) & -> & Hd). rewrite <- app_assoc in Hd. eauto 10. }
  destruct (atyp =b ATYP_IPV6) eqn:E2; [apply byte_eqb_true in E2 as ->; etransitivity; [apply (fixed_reply_ok 16 V6)|]|].
  { setoid_rewrite addr_wire_ipv6_iff. split.
    - intros (addr & p & rest & Hl & Hp & Hd & ->). exists (IPv6 addr p), (addr ++ u16_to_be p), rest. rewrite <- app_assoc. naive_solver.
    - intros (? & ? & rest & (addr & p & -> & Hl & Hp & ->) & -> & Hd). rewrite <- app_assoc in Hd. eauto 10. }
  destruct (atyp =b ATYP_DOMAIN) eqn:E3; [apply byte_eqb_true in E3 as ->; etransitivity; [apply domain_reply_ok|]|].
  { setoid_rewrite addr_wire_domain_iff. split.
    - intros (lb & d & p & rest & Hl & Hp & Hu & Hne & Hd & Hr). exists (Domain d p), (lb :: d ++ u16_to_be p), rest.
      cbn [app]. rewrite <- app_assoc. split; [by exists lb, d, p|]. done.
    - intros (? & ? & rest & (lb & d & p & -> & Hl & Hp & Hu & ->) & [Hne Hr] & Hd). cbn [app] in Hd. rewrite <- app_assoc in Hd. by exists lb, d, p, rest. }
  split; [done|]. intros (a & enc & rest & Hw & _). apply addr_wire_unknown in Hw as [->|[->| ->]]; done.
Qed.
End replies.

(** ** Properties *)

Lemma lift_io_ok {A} (m : outcome IoError A) (f : IoError -> UdpUpstreamError) c a c' :
  mlift (map_err f m) c = (Ok a, c') -> m = Ok a /\ c' = c.
Proof. unfold mlift. destruct m; cbn; intros [=]; subst; done. Qed.

Definition hop_auth (hop : ProxyHopSpec) : option (bytes * bytes) := (fun c => (username c, password c)) <$> credentials hop.

(** What the client offers, and the authentication that follows: it depends on the
    credentials only, not on the method the proxy selects. *)
Definition offered (auth : option (bytes * bytes)) : bytes :=
  AUTH_NONE :: match auth with Some _ => [AUTH_USERNAME_PASSWORD] | None => [] end.
Definition auth_wire (auth : option (bytes * bytes)) (sent received : bytes) : Prop :=
  match auth with
  | None => sent = [] /\ received = []
  | Some (u, p) => encode_auth_request u p = Ok sent /\ received = [AUTH_VERSION; x00]
  end.

Lemma negotiate_io auth c u c' : socks5_method_negotiate auth c = (Ok u, c') ->
  exists m, m ∈ offered auth /\ io [x05; m] (encode_method_negotiation (offered auth)) c c'.
Proof.
  unfold socks5_method_negotiate. intros H. inv_io_guards; byte_guards.
  - exists AUTH_NONE. split; [apply list_elem_of_here|]. io_done.
  - apply andb_true_iff in G1 as [G1 G2]. byte_guards. apply bool_decide_eq_true in G2 as [[] ->].
    exists AUTH_USERNAME_PASSWORD. split; [cbn; set_solver|]. io_done.
Qed.

Lemma negotiate_fwd auth m r e o : m ∈ offered auth ->
  socks5_method_negotiate auth (Conn ([x05; m] ++ r) e o None) = (Ok tt, Conn r e (o ++ encode_method_negotiation (offered auth)) None).
Proof.
  intros Hm. unfold socks5_method_negotiate, offered in *. destruct auth as [[u p]|]; cbn.
  - apply elem_of_cons in Hm as [-> | ->%list_elem_of_singleton]; done.
  - apply list_elem_of_singleton in Hm as ->. done.
Qed.

Lemma udp_auth_io auth c u c' :
  (match auth with Some (u, p) => socks5_auth u p | None => mret tt end) c = (Ok u, c') ->
  exists sent received, auth_wire auth sent received /\ io received sent c c'.
Proof.
  destruct auth as [[us pw]|]; intros H.
  - unfold socks5_auth in H. inv_io_guards. byte_guards. eexists _, _. split; [by split|]. io_done.
  - injection H as _ <-. exists [], []. split; [done|apply io_refl].
Qed.

Lemma udp_auth_fwd auth sent received r e o : auth_wire auth sent received ->
  (match auth with Some (u, p) => socks5_auth u p | None => mret tt end) (Conn (received ++ r) e o None) = (Ok tt, Conn r e (o ++ sent) None).
Proof.
  destruct auth as [[us pw]|].
  - intros [Hs ->]. unfold socks5_auth. rewrite Hs. done.
  - intros [-> ->]. by rewrite app_nil_r.
Qed.

Section exact.
Variable lookup_host : bytes -> Z -> outcome IoError (list SocketAddr).
Variable tcp_connect : SocketAddr -> outcome IoError unit.
Variable set_nodelay : outcome IoError unit.
Variable peer_addr : outcome IoError IpAddr.
Variable udp_bind : SocketAddr -> outcome IoError unit.

(** The decoder for a reply in a buffer and the reader of a reply from the
    connection accept the same replies and read the same relay address from them;
    both ignore what follows. *)
Theorem udp_reply_decoders_agree buf relay :
  decode_udp_associate_reply lookup_host buf = Ok relay <->
  exists c, read_associate_reply lookup_host (Conn buf None [] None) = (Ok relay, c).
Proof using Type.
  rewrite decode_reply_ok. split.
  - intros (wire & rest & Hw & ->). eexists. by apply read_reply_fwd.
  - intros (c & (wire & Hw & (Hin & _ & _))%read_reply_io). by exists wire, (c_in c).
Qed.

(** The relay address a flow uses: the peer's for an unspecified one. *)
Definition relay_used (relay used : SocketAddr) : Prop :=
  if is_unspecified relay then exists ip, peer_addr = Ok ip /\ used = substitute_unspecified relay ip else used = relay.

Definition hop_reachable (hop : ProxyHopSpec) : Prop :=
  exists a, resolve_endpoint lookup_host (endpoint hop) = Ok a /\ tcp_connect a = Ok tt /\ set_nodelay = Ok tt.

Lemma effective_bind_family requested relay : is_ipv4 (effective_udp_bind requested relay) = is_ipv4 relay.
Proof using Type.
  unfold effective_udp_bind. destruct (Bool.eqb _ _) eqn:E; [by apply Bool.eqb_prop|]. unfold wildcard_udp_bind_for_relay.
  unfold is_ipv4 at 1. cbn. by destruct (is_ipv4 relay).
Qed.

Abbreviation open_inner := (open_socks5_udp_upstream_inner lookup_host tcp_connect set_nodelay peer_addr udp_bind).

(** The association a configuration and a relay address give. *)
Definition association (config : Socks5UdpUpstreamConfig) (used : SocketAddr) : Socks5UdpUpstreamAssociation :=
  {| ua_upstream_id := uc_upstream_id config; ua_relay_addr := used; ua_bind := effective_udp_bind (uc_udp_bind config) used;
     ua_control_timeout := default DEFAULT_CONTROL_TIMEOUT (uc_control_timeout config) |}.

Lemma udp_upstream_fwd config hint m received sent wire request relay used rest e o :
  protocols (uc_hop config) = [SSocks5] -> hop_reachable (uc_hop config) ->
  m ∈ offered (hop_auth (uc_hop config)) -> auth_wire (hop_auth (uc_hop config)) sent received ->
  encode_udp_associate_request (default (IPv4 [x00; x00; x00; x00] 0) hint) = Ok request ->
  reply_wire lookup_host wire relay -> relay_used relay used ->
  udp_bind (effective_udp_bind (uc_udp_bind config) used) = Ok tt ->
  open_inner config hint (Conn ([x05; m] ++ received ++ wire ++ rest) e o None) =
  (Ok (association config used), Conn rest e (o ++ encode_method_negotiation (offered (hop_auth (uc_hop config))) ++ sent ++ request) None).
Proof using Type.
  intros Hp (a & Ha & Ht & Hn) Hm Hauth Hreq Hw Hu Hb. unfold open_socks5_udp_upstream_inner. rewrite Hp. cbn [length Nat.ltb Nat.leb].
  rewrite bool_decide_true by apply list_elem_of_here. cbn [negb]. rewrite Ha, Hn. cbn [map_err].
  erewrite mbind_fwd by reflexivity. rewrite Ht. do 2 (erewrite mbind_fwd by reflexivity). fold (hop_auth (uc_hop config)).
  erewrite mbind_fwd by by apply negotiate_fwd. erewrite mbind_fwd by by apply udp_auth_fwd.
  unfold socks5_udp_associate. rewrite Hreq.
  erewrite mbind_fwd by (erewrite mbind_fwd by reflexivity; erewrite mbind_fwd by reflexivity; erewrite mbind_fwd by reflexivity; by apply read_reply_fwd).
  unfold relay_used, substitute_unspecified in Hu. destruct (is_unspecified relay).
  - destruct Hu as (ip & Hip & ->). rewrite Hip. erewrite mbind_fwd by reflexivity. cbv zeta. rewrite Hb. cbn [map_err]. erewrite mbind_fwd by reflexivity.
    unfold mret, association. cbn [c_end c_out]. by rewrite <- !app_assoc.
  - subst used. erewrite mbind_fwd by reflexivity. cbv zeta. rewrite Hb. cbn [map_err]. erewrite mbind_fwd by reflexivity.
    unfold mret, association. cbn [c_end c_out]. by rewrite <- !app_assoc.
Qed.

Lemma udp_upstream_io config hint c assoc c' : open_inner config hint c = (Ok assoc, c') ->
  exists m received sent wire request relay used,
    protocols (uc_hop config) = [SSocks5] /\ hop_reachable (uc_hop config) /\
    m ∈ offered (hop_auth (uc_hop config)) /\ auth_wire (hop_auth (uc_hop config)) sent received /\
    encode_udp_associate_request (default (IPv4 [x00; x00; x00; x00] 0) hint) = Ok request /\
    reply_wire lookup_host wire relay /\ relay_used relay used /\
    udp_bind (effective_udp_bind (uc_udp_bind config) used) = Ok tt /\ assoc = association config used /\
    io ([x05; m] ++ received ++ wire) (encode_method_negotiation (offered (hop_auth (uc_hop config))) ++ sent ++ request) c c'.
Proof using Type.
  unfold open_socks5_udp_upstream_inner. intros H. guard_in H; [done|]. guard_in H; [done|]. bool_to_prop.
  assert (protocols (uc_hop config) = [SSocks5]) as Hp.
  { apply bool_decide_eq_true in G0. destruct (protocols (uc_hop config)) as [|x [|y l]]; [by apply not_elem_of_nil in G0| |cbn in G; lia].
    apply list_elem_of_singleton in G0 as ->. done. }
  apply mbind_ok in H as (a & ? & [Ha1 ->]%lift_io_ok & H). apply mbind_ok in H as (u1 & ? & [Hc1 ->]%lift_io_ok & H).
  apply mbind_ok in H as (u2 & ? & [Hn1 ->]%lift_io_ok & H). fold (hop_auth (uc_hop config)) in H.
  apply mbind_ok in H as (? & c1 & Hn & H). apply negotiate_io in Hn as (m & Hm & Hn).
  apply mbind_ok in H as (? & c2 & Ha & H). apply udp_auth_io in Ha as (sent & received & Hauth & Ha).
  apply mbind_ok in H as (relay & c3 & Hr & H). unfold socks5_udp_associate in Hr.
  apply mbind_ok in Hr as (req & c4 & Hq & Hr). injection Hq as Hq <-.
  apply mbind_ok in Hr as (? & c5 & Hw & Hr). apply write_all_io in Hw. apply mbind_ok in Hr as (? & c6 & Hf & Hr). injection Hf as _ <-.
  apply read_reply_io in Hr as (wire & Hwire & Hr). cbv zeta in H. apply mbind_ok in H as (used & c7 & Hu & H).
  assert (relay_used relay used /\ c7 = c3) as [Hused ->].
  { unfold relay_used, substitute_unspecified. destruct (is_unspecified relay).
    - apply mbind_ok in Hu as (ip & ? & [Hip ->]%lift_io_ok & Hu). injection Hu as <- <-. eauto.
    - by injection Hu as <- <-. }
  apply mbind_ok in H as (u & ? & [Hb ->]%lift_io_ok & H). injection H as <- <-. destruct u.
  exists m, received, sent, wire, req, relay, used. split_and!; try done.
  - destruct u1, u2. by exists a.
  - io_compose. io_done.
Qed.

(** Opening a UDP association is exactly this conversation: offer the methods,
    authenticate when there are credentials, ask for an association, read the
    relay's address.  It succeeds precisely when the hop is one SOCKS5 proxy that can
    be reached, every answer is well formed and positive, and the socket can be
    bound; then the flow uses the relay's address, with the proxy's own address in
    place of an unspecified one, and a local socket of the same address family, and
    exactly the bytes of the conversation were exchanged. *)
Theorem udp_upstream_exact config hint i e o assoc c' :
  open_inner config hint (Conn i e o None) = (Ok assoc, c') <->
  exists m received sent wire request relay used rest,
    protocols (uc_hop config) = [SSocks5] /\ hop_reachable (uc_hop config) /\
    m ∈ offered (hop_auth (uc_hop config)) /\ auth_wire (hop_auth (uc_hop config)) sent received /\
    encode_udp_associate_request (default (IPv4 [x00; x00; x00; x00] 0) hint) = Ok request /\
    reply_wire lookup_host wire relay /\ relay_used relay used /\
    udp_bind (ua_bind assoc) = Ok tt /\ is_ipv4 (ua_bind assoc) = is_ipv4 used /\ assoc = association config used /\
    i = [x05; m] ++ received ++ wire ++ rest /\
    c' = Conn rest e (o ++ encode_method_negotiation (offered (hop_auth (uc_hop config))) ++ sent ++ request) None.
Proof using Type.
  split.
  - intros H. pose proof H as (m & received & sent & wire & request & relay & used & Hp & Hr & Hm & Ha & Hq & Hw & Hu & Hb & -> & (Hin & _))%udp_upstream_io.
    cbn [c_in] in Hin. rewrite <- !app_assoc in Hin. subst i.
    rewrite (udp_upstream_fwd config hint m received sent wire request relay used (c_in c')) in H by done. injection H as <-.
    exists m, received, sent, wire, request, relay, used, (c_in c'). split_and!; try done. apply effective_bind_family.
  - intros (m & received & sent & wire & request & relay & used & rest & Hp & Hr & Hm & Ha & Hq & Hw & Hu & Hb & _ & -> & -> & ->).
    by eapply udp_upstream_fwd.
Qed.
End exact.

(** The authentication request follows whenever the hop has credentials, also when
    the proxy selected no authentication: a proxy that then expects a request, such
    as this one, refuses it by its version. *)
Lemma udp_auth_desync u p m sent r e o r' e' o' :
  m ∈ offered (Some (u, p)) -> encode_auth_request u p = Ok sent ->
  (exists c, (socks5_method_negotiate (Some (u, p)) ;; socks5_auth u p) (Conn ([x05; m; AUTH_VERSION; x00] ++ r) e o None) = (Ok tt, c) /\
             c_out c = o ++ encode_method_negotiation (offered (Some (u, p))) ++ sent) /\
  fst (read_socks5_request (Conn (sent ++ r') e' o' None)) = Err (UnsupportedVersion AUTH_VERSION).
Proof.
  intros Hm Hs. split.
  - exists (Conn r e (o ++ encode_method_negotiation (offered (Some (u, p))) ++ sent) None). split; [|done].
    change ([x05; m; AUTH_VERSION; x00] ++ r) with ([x05; m] ++ [AUTH_VERSION; x00] ++ r). erewrite mbind_fwd by by apply negotiate_fwd. rewrite (udp_auth_fwd (Some (u, p)) sent [AUTH_VERSION; x00]) by done. by rewrite <- app_assoc.
  - unfold encode_auth_request in Hs. apply obind_ok in Hs as (ul & _ & Hs). apply obind_ok in Hs as (pl & _ & Hs). by injection Hs as <-.
Qed.
