(* ===== verification/UdpCapability.v ===== *)
(** * Which upstream chains a UDP flow can use

    Models [crates/eggress-udp/src/udp_capability.rs], in the feature set with
    Shadowsocks: the kind of flow the UDP relays open through a chain, and the second
    classification derived from the transport capabilities of [eggress-core]. *)

From S2P Require Import Prelude Bytes Decimal NetAddr Connector Matcher UdpSecurity Dispatch Uri Capability Chain UdpRegistry Shadowsocks UdpHop.

Inductive UdpRelayCapability :=
| SupportedSocks5
| SupportedComposed
| SupportedShadowsocks (method : CipherMethod) (password : bytes)
| CapUnsupportedProtocol (protocol : bytes)
| UnsupportedMultiHop.

(** The derived [Debug] of a vector of protocols. *)
Definition debug_list (ps : list ProtocolSpec) : bytes :=
  str "[" ++ join_str (str ", ") (map debug_name ps) ++ str "]".

Definition extract_shadowsocks_creds (hop : ProxyHopSpec) : option (CipherMethod * bytes) :=
  match protocols hop with
  | [SShadowsocks] =>
      match credentials hop with
      | Some creds =>
          match parse_method (username creds) with
          | Ok method => Some (method, password creds)
          | _ => None
          end
      | None => None
      end
  | _ => None
  end.

(** The Shadowsocks arm of both functions. *)
Definition shadowsocks_capability (hop : ProxyHopSpec) : UdpRelayCapability :=
  match extract_shadowsocks_creds hop with
  | Some (method, password) => SupportedShadowsocks method password
  | None => CapUnsupportedProtocol (str "Shadowsocks (missing credentials)")
  end.

(** The closure of the test on all hops. *)
Definition composable_hop (hop : ProxyHopSpec) : bool :=
  match protocols hop with
  | [SSocks5] => true
  | [SShadowsocks] => bool_decide (is_Some (extract_shadowsocks_creds hop))
  | _ => false
  end.

Definition udp_capability (chain : ProxyChainSpec) : UdpRelayCapability :=
  match hops chain with
  | [] => CapUnsupportedProtocol (str "direct")
  | [hop] =>
      match protocols hop with
      | [p] =>
          match p with
          | SSocks5 => SupportedSocks5
          | SShadowsocks => shadowsocks_capability hop
          | SShadowsocksR => CapUnsupportedProtocol (str "ShadowsocksR")
          | other => CapUnsupportedProtocol (debug_name other)
          end
      | ps => CapUnsupportedProtocol (debug_list ps)
      end
  | l => if forallb composable_hop l then SupportedComposed else UnsupportedMultiHop
  end.

Definition udp_capability_from_chain (chain : ProxyChainSpec) : UdpRelayCapability :=
  match udp_associate (classify_upstream_chain chain) with
  | Supported =>
      match hops chain with
      | [hop] =>
          match protocols hop with
          | [p] =>
              match p with
              | SSocks5 => SupportedSocks5
              | SShadowsocks => shadowsocks_capability hop
              | SShadowsocksR => CapUnsupportedProtocol (str "ShadowsocksR")
              | _ => SupportedSocks5
              end
          | _ => UnsupportedMultiHop
          end
      | l => if forallb (fun hop => bool_decide (protocols hop = [SSocks5])) l then SupportedComposed else UnsupportedMultiHop
      end
  | UnsupportedProtocolCap protocol => CapUnsupportedProtocol protocol
  | UnsupportedChain reason =>
      if starts_with (str "multi-hop") reason then UnsupportedMultiHop
      else if bool_decide (reason = str "multi-protocol") then
        match hops chain with
        | [hop] => CapUnsupportedProtocol (debug_list (protocols hop))
        | _ => CapUnsupportedProtocol reason
        end
      else CapUnsupportedProtocol reason
  end.

(** ** Properties *)

Definition supported (c : UdpRelayCapability) : bool :=
  match c with SupportedSocks5 | SupportedComposed | SupportedShadowsocks _ _ => true | _ => false end.

Section capability.
Context `{HCr : !Crypto}.

Lemma composable_hop_spec hop : composable_hop hop = is_ok (from_spec hop).
Proof.
  unfold composable_hop, from_spec, extract_shadowsocks_creds. destruct (protocols hop) as [|p [|q l]]; [done| |by destruct p].
  destruct p; try done. destruct (credentials hop) as [cr|]; [|done]. cbn [ok_or obind]. by destruct (parse_method (username cr)).
Qed.

Lemma single_hop_capability hop : supported (udp_capability {| hops := [hop] |}) = composable_hop hop.
Proof.
  unfold udp_capability, composable_hop. cbn [hops]. destruct (protocols hop) as [|p [|q l]] eqn:E; [done| |by destruct p].
  destruct p; try done. unfold shadowsocks_capability. by destruct (extract_shadowsocks_creds hop) as [[]|].
Qed.

(** A flow is opened through a chain exactly when a hop stack can be built for it:
    the relays never classify a chain as usable whose hops they cannot speak to. *)
Lemma udp_capability_builds chain :
  supported (udp_capability chain) = true <-> hops chain <> [] /\ is_ok (from_chain chain) = true.
Proof.
  assert (is_ok (from_chain chain) = true <-> Forall (fun hop => composable_hop hop = true) (hops chain)) as ->.
  { setoid_rewrite composable_hop_spec. rewrite <- (from_chain_loop_ok (hops chain) []). unfold from_chain. by destruct (from_chain_loop _ _). }
  destruct chain as [[|h [|h2 l]]]; cbn [hops].
  - split; [done|by intros []].
  - rewrite single_hop_capability, Forall_singleton. naive_solver.
  - unfold udp_capability. cbn [hops]. destruct (forallb composable_hop (h :: h2 :: l)) eqn:E.
    + split; [|done]. intros _. split; [done|]. apply Forall_forall. intros x Hx. rewrite forallb_forall in E. by apply E, list_elem_of_In.
    + split; [done|]. intros [_ HF]. assert (forallb composable_hop (h :: h2 :: l) = true); [|congruence].
      apply forallb_forall. intros x Hx. rewrite Forall_forall in HF. by apply HF, list_elem_of_In.
Qed.

(** The two classifications differ on every chain of several usable hops one of
    which is a Shadowsocks hop. *)
Lemma capabilities_differ chain hop :
  1 < length (hops chain) -> supported (udp_capability chain) = true -> hop ∈ hops chain -> protocols hop = [SShadowsocks] ->
  udp_capability chain = SupportedComposed /\ udp_capability_from_chain chain = UnsupportedMultiHop.
Proof.
  intros Hl Hs Hin Hp. pose proof (proj1 (udp_capability_builds chain) Hs) as [Hne Hc].
  pose proof (proj1 (from_chain_matches_capability chain Hne) Hc) as [Hu _]. unfold is_udp_supported in Hu. apply bool_decide_eq_true in Hu.
  unfold udp_capability_from_chain. rewrite Hu. unfold udp_capability in *. destruct (hops chain) as [|h [|h2 l]]; [done|cbn in Hl; lia|].
  destruct (forallb composable_hop _); [|done]. split; [done|].
  destruct (forallb (fun hop => bool_decide (protocols hop = [SSocks5])) (h :: h2 :: l)) eqn:E; [|done].
  rewrite forallb_forall in E. apply list_elem_of_In, E, bool_decide_eq_true in Hin. congruence.
Qed.
End capability.

Definition ss_hop (user : string) : ProxyHopSpec :=
  {| protocols := [SShadowsocks]; endpoint := {| ep_host := str "proxy.example"; ep_port := 8388 |};
     credentials := Some {| username := str user; password := str "secret" |}; rule := None; local_bind_spec := None; tls := false;
     server_name := None; insecure := false; plugins := []; auth_prefix := None |}.
Example two_ss_hops : exists c, udp_capability {| hops := [ss_hop "aes-256-gcm"; ss_hop "aes-256-gcm"] |} = c /\ supported c = true.
Proof. eexists. split; vm_compute; reflexivity. Qed.
Example unknown_method : supported (udp_capability {| hops := [ss_hop "rc4"] |}) = false.
Proof. vm_compute. reflexivity. Qed.
