(* ===== verification/UdpFlow.v ===== *)
(** * UDP flows and flow tables

    [eggress-udp/src/flow.rs] and [direct.rs]: the flows of the UDP relays, how they
    send and what their receive tasks make of a datagram, the tables of the
    standalone relays with their limits, and reaping.  A hash map is the list of its
    entries in some iteration order.  A socket is named by the address it sends to;
    a spawned task and a cancellation token by a number. *)

From S2P Require Import Prelude Bytes Decimal Stream Socks5 Socks5Udp NetAddr Connector Matcher Upstream UdpSecurity Uri UdpRegistry Shadowsocks UdpHop.
Local Open Scope Z_scope.

Inductive UdpFlowKey :=
| KDirect (target : SocksAddr)
| KSocks5Upstream (target : SocksAddr) (upstream_id : bytes)
| KShadowsocksUpstream (target : SocksAddr) (upstream_id : bytes)
| KComposed (target : SocksAddr) (upstream_id : bytes).

#[export] Instance UdpFlowKey_eq_dec : EqDecision UdpFlowKey.
Proof. solve_decision. Defined.

Definition key_target (k : UdpFlowKey) : SocksAddr :=
  match k with
  | KDirect t => t
  | KSocks5Upstream t _ => t
  | KShadowsocksUpstream t _ => t
  | KComposed t _ => t
  end.

(** ** Flows *)

Record UdpTargetFlow := {
  tf_target : SocksAddr; tf_peer : SocketAddr; tf_last_activity : Z;
  packets_up : Z; packets_down : Z; bytes_up : Z; bytes_down : Z
}.

Record Socks5UdpTargetFlow := {
  sf_target : SocksAddr; sf_upstream_id : bytes; sf_relay_addr : SocketAddr;
  sf_control_cancel : nat; sf_control_task : nat; sf_lease : ActiveLease; sf_last_activity : Z
}.

Record ShadowsocksUdpTargetFlow := {
  xf_target : SocksAddr; xf_upstream_id : bytes; xf_upstream_addr : SocketAddr; xf_method : CipherMethod;
  xf_password : bytes; xf_password_ikm : bytes; xf_lease : ActiveLease; xf_last_activity : Z
}.

(** The socket, the outer relay, the hop stack, the relay targets and the control
    channels are those of the opened upstream. *)
Record ComposedUdpTargetFlow := {
  mf_target : option SocksAddr; mf_upstream_id : bytes; mf_flow : ComposedFlow; mf_lease : ActiveLease; mf_last_activity : Z
}.

Inductive UdpFlowKind :=
| Direct (f : UdpTargetFlow)
| Socks5Upstream (f : Socks5UdpTargetFlow)
| ShadowsocksUpstream (f : ShadowsocksUdpTargetFlow)
| Composed (f : ComposedUdpTargetFlow).

Record TargetFlowEntry := { fe_flow : UdpFlowKind; recv_task : nat }.

Definition fe_last_activity (e : TargetFlowEntry) : Z :=
  match fe_flow e with
  | Direct f => tf_last_activity f
  | Socks5Upstream f => sf_last_activity f
  | ShadowsocksUpstream f => xf_last_activity f
  | Composed f => mf_last_activity f
  end.

Definition tf_touch (now : Z) (f : UdpTargetFlow) : UdpTargetFlow :=
  {| tf_target := tf_target f; tf_peer := tf_peer f; tf_last_activity := now; packets_up := packets_up f;
     packets_down := packets_down f; bytes_up := bytes_up f; bytes_down := bytes_down f |}.
Definition sf_touch (now : Z) (f : Socks5UdpTargetFlow) : Socks5UdpTargetFlow :=
  {| sf_target := sf_target f; sf_upstream_id := sf_upstream_id f; sf_relay_addr := sf_relay_addr f;
     sf_control_cancel := sf_control_cancel f; sf_control_task := sf_control_task f; sf_lease := sf_lease f; sf_last_activity := now |}.
Definition xf_touch (now : Z) (f : ShadowsocksUdpTargetFlow) : ShadowsocksUdpTargetFlow :=
  {| xf_target := xf_target f; xf_upstream_id := xf_upstream_id f; xf_upstream_addr := xf_upstream_addr f; xf_method := xf_method f;
     xf_password := xf_password f; xf_password_ikm := xf_password_ikm f; xf_lease := xf_lease f; xf_last_activity := now |}.
Definition mf_touch (now : Z) (f : ComposedUdpTargetFlow) : ComposedUdpTargetFlow :=
  {| mf_target := mf_target f; mf_upstream_id := mf_upstream_id f; mf_flow := mf_flow f; mf_lease := mf_lease f; mf_last_activity := now |}.

(** [TargetFlowEntry::touch]. *)
Definition fe_touch (now : Z) (e : TargetFlowEntry) : TargetFlowEntry :=
  {| fe_flow := match fe_flow e with
                | Direct f => Direct (tf_touch now f)
                | Socks5Upstream f => Socks5Upstream (sf_touch now f)
                | ShadowsocksUpstream f => ShadowsocksUpstream (xf_touch now f)
                | Composed f => Composed (mf_touch now f)
                end;
     recv_task := recv_task e |}.

(** ** Opening a direct flow and sending ([direct.rs], [flow.rs]) *)

(** A datagram handed to the network: destination and content. *)
Record datagram := { dg_to : SocketAddr; dg_data : bytes }.

(** [SocksAddr::host_str]: a domain as it is, IPv4 dotted, IPv6 in brackets with all
    digits of its eight groups. *)
Definition hex2 (b : byte) : bytes := [digit_char (Z.shiftr (b2Z b) 4); digit_char (Z.land (b2Z b) 15)].
Fixpoint hex_groups (l : bytes) : list bytes :=
  match l with
  | a :: b :: r => (hex2 a ++ hex2 b) :: hex_groups r
  | [a] => [hex2 a]
  | [] => []
  end.
Definition host_str (a : SocksAddr) : bytes :=
  match a with
  | IPv4 o _ => join_str (str ".") (map (fun b => to_dec (b2Z b)) o)
  | Domain d _ => d
  | IPv6 o _ => str "[" ++ join_str (str ":") (hex_groups o) ++ str "]"
  end.

Definition local_udp_bind_addr : SocketAddr := {| sa_ip := V4 [x7f; x00; x00; x01]; sa_port := 0 |}.

Section network.
(** Resolving the text of an address, binding and connecting a UDP socket. *)
Variable lookup_text : bytes -> outcome IoError (list SocketAddr).
Variable udp_bind : SocketAddr -> outcome IoError unit.
Variable udp_connect : SocketAddr -> outcome IoError unit.

Definition resolve_flow_target (target : SocksAddr) : outcome UdpError SocketAddr :=
  let addr_str := host_str target ++ str ":" ++ to_dec (port target) in
  let? addrs := map_err UdpIo (lookup_text addr_str) in
  ok_or UnresolvedTarget (head addrs).

(** [UdpTargetFlow::new]. *)
Definition target_flow_new (now : Z) (target : SocksAddr) (local_bind : SocketAddr) : outcome UdpError UdpTargetFlow :=
  let? _ := map_err UdpIo (udp_bind local_bind) in
  let? resolved := resolve_flow_target target in
  let? _ := map_err UdpIo (udp_connect resolved) in
  Ok {| tf_target := target; tf_peer := resolved; tf_last_activity := now; packets_up := 0; packets_down := 0; bytes_up := 0; bytes_down := 0 |}.

(** [flow.rs]: [resolve_endpoint]. *)
Definition flow_resolve_endpoint (lookup_host : bytes -> Z -> outcome IoError (list SocketAddr)) (ep : EndpointSpec) : outcome UdpError SocketAddr :=
  let? addrs := map_err UdpIo (lookup_host (ep_host ep) (ep_port ep)) in
  ok_or UnresolvedTarget (head addrs).
End network.

(** [direct.rs]: [encode_response]. *)
Definition encode_response (target : SocksAddr) (payload : bytes) : outcome UdpError bytes :=
  map_err UdpCodec (encode_socks5_udp_datagram target payload).

Inductive SendError := SendIo (e : IoError) | SendCodec (e : UdpCodecError) | SendShadowsocks (e : ShadowsocksError) | SendHop (e : UdpHopError).

(** What the socket answers to a datagram; a refused one does not leave. *)
Definition socket_send (sent : outcome IoError unit) (to : SocketAddr) (data : bytes) : outcome SendError unit * list datagram :=
  match sent with
  | Ok _ => (Ok tt, [{| dg_to := to; dg_data := data |}])
  | Err e => (Err (SendIo e), [])
  | Panic => (Panic, [])
  end.

(** [UdpTargetFlow::send] and [recv]. *)
Definition tf_send (sent : outcome IoError unit) (payload : bytes) (f : UdpTargetFlow) : outcome SendError unit * UdpTargetFlow * list datagram :=
  let '(r, out) := socket_send sent (tf_peer f) payload in
  (r, if is_ok r then
        {| tf_target := tf_target f; tf_peer := tf_peer f; tf_last_activity := tf_last_activity f; packets_up := wrap64 (packets_up f + 1);
           packets_down := packets_down f; bytes_up := wrap64 (bytes_up f + Z.of_nat (length payload)); bytes_down := bytes_down f |}
      else f, out).
Definition tf_recv (data : bytes) (f : UdpTargetFlow) : UdpTargetFlow :=
  {| tf_target := tf_target f; tf_peer := tf_peer f; tf_last_activity := tf_last_activity f; packets_up := packets_up f;
     packets_down := wrap64 (packets_down f + 1); bytes_up := bytes_up f; bytes_down := wrap64 (bytes_down f + Z.of_nat (length data)) |}.

(** [Socks5UdpTargetFlow::send]. *)
Definition sf_send (sent : outcome IoError unit) (target : SocksAddr) (payload : bytes) (f : Socks5UdpTargetFlow)
    : outcome SendError unit * list datagram :=
  match encode_socks5_udp_datagram target payload with
  | Ok out => socket_send sent (sf_relay_addr f) out
  | Err e => (Err (SendCodec e), [])
  | Panic => (Panic, [])
  end.

Definition sock (a : SockAddr) : SocketAddr := {| sa_ip := a.1; sa_port := a.2 |}.

Section sending.
Context `{HCr : !Crypto}.

(** [ShadowsocksUdpTargetFlow::send], with the salt drawn. *)
Definition xf_send (sent : outcome IoError unit) (salt : bytes) (target : SocksAddr) (payload : bytes) (f : ShadowsocksUdpTargetFlow)
    : outcome SendError unit * list datagram :=
  match encode_udp_packet_with_ikm (xf_method f) (xf_password_ikm f) (socks_to_target_addr target) payload salt with
  | Ok packet => socket_send sent (xf_upstream_addr f) packet
  | Err e => (Err (SendShadowsocks e), [])
  | Panic => (Panic, [])
  end.

(** [ComposedUdpTargetFlow::send] and [decode_response]. *)
Definition mf_send (sent : outcome IoError unit) (salts : nat -> bytes) (target : SocksAddr) (payload : bytes) (f : ComposedUdpTargetFlow)
    : outcome SendError unit * ComposedUdpTargetFlow * list datagram :=
  match encode_request_with_next_targets (cf_stack (mf_flow f)) salts (socks_to_target_addr target) payload (cf_relay_targets (mf_flow f)) with
  | Ok packet =>
      let '(r, out) := socket_send sent (sock (cf_outer_relay (mf_flow f))) packet in
      (r, if is_ok r then
            {| mf_target := Some target; mf_upstream_id := mf_upstream_id f; mf_flow := mf_flow f; mf_lease := mf_lease f;
               mf_last_activity := mf_last_activity f |}
          else f, out)
  | Err e => (Err (SendHop e), f, [])
  | Panic => (Panic, f, [])
  end.
Definition mf_decode_response (packet : bytes) (f : ComposedUdpTargetFlow) : outcome UdpHopError (SocksAddr * bytes) :=
  let? (target, payload) := decode_response (cf_stack (mf_flow f)) packet in
  Ok (target_to_socks_addr target, payload).

(** What the receive task of a flow makes of a datagram from [peer]: the response it
    queues for the client, if any.  A connected socket only receives from its peer. *)
Definition recv_response (k : UdpFlowKind) (peer : SocketAddr) (data : bytes) : option (SocksAddr * bytes) :=
  match k with
  | Direct f => if bool_decide (peer = tf_peer f) then Some (tf_target f, data) else None
  | Socks5Upstream f =>
      if negb (bool_decide (peer = sf_relay_addr f)) then None else
      match decode_socks5_udp_datagram data with
      | Ok r => if socks_addr_equivalent (ur_target r) (sf_target f) then Some (ur_target r, ur_payload r) else None
      | _ => None
      end
  | ShadowsocksUpstream f =>
      match decode_udp_packet_with_ikm (xf_method f) (xf_password_ikm f) data with
      | Ok (resp_target, resp_payload) =>
          let resp_socks_addr := target_to_socks_addr resp_target in
          if socks_addr_equivalent resp_socks_addr (xf_target f) then Some (resp_socks_addr, resp_payload) else None
      | _ => None
      end
  | Composed f =>
      match mf_decode_response data f with
      | Ok (target, payload) => Some (target, payload)
      | _ => None
      end
  end.
End sending.

(** ** Tables *)

Inductive teardown := AbortTask (t : nat) | CancelToken (c : nat).

(** What [shutdown_flow] (and the entry's [Drop]) stops, in order. *)
Definition shutdown_flow (e : TargetFlowEntry) : list teardown :=
  AbortTask (recv_task e) ::
  match fe_flow e with
  | Socks5Upstream f => [CancelToken (sf_control_cancel f); AbortTask (sf_control_task f)]
  | Composed f => map CancelToken (cf_control_cancels (mf_flow f)) ++ map AbortTask (cf_control_tasks (mf_flow f))
  | _ => []
  end.

Abbreviation flows := (list (UdpFlowKey * TargetFlowEntry)).
Record ClientFlowState := { cf_last_activity : Z; target_flows : flows }.
Abbreviation clients := (list (SocketAddr * ClientFlowState)).

Definition client_new (now : Z) : ClientFlowState := {| cf_last_activity := now; target_flows := [] |}.

Definition max_standalone_flows (l : UdpLimits) : nat :=
  if (0 <? max_standalone_flows_cfg l)%nat then max_standalone_flows_cfg l
  else max_associations_global l.

Definition contains_key (k : UdpFlowKey) (f : flows) : bool :=
  existsb (fun e => bool_decide (e.1 = k)) f.

Definition can_use_flow (state : ClientFlowState) (key : UdpFlowKey) (total_flows : nat) (l : UdpLimits) : bool :=
  contains_key key (target_flows state)
  || ((length (target_flows state) <? max_targets_per_association l)%nat
      && (total_flows <? max_standalone_flows l)%nat).

(** [Instant::duration_since] saturates at zero. *)
Definition duration_since (now t : Z) : Z := Z.max 0 (now - t).

(** The result of a pass: the remaining table, the entries shut down, in order,
    the counter that is returned and the number of reaps recorded in the metrics. *)
Record reaped := { rp_clients : clients; rp_shutdown : list TargetFlowEntry; rp_removed : nat; rp_metric : nat }.

Definition fresh_flow (now : Z) (l : UdpLimits) (e : UdpFlowKey * TargetFlowEntry) : bool :=
  duration_since now (fe_last_activity e.2) <? target_idle_timeout l.
Definition fresh_client (now : Z) (l : UdpLimits) (c : SocketAddr * ClientFlowState) : bool :=
  duration_since now (cf_last_activity c.2) <? idle_timeout l.

(** First loop: [retain] on the flows of every client. *)
Fixpoint reap_flows (now : Z) (l : UdpLimits) (cs : clients) : reaped :=
  match cs with
  | [] => {| rp_clients := []; rp_shutdown := []; rp_removed := 0; rp_metric := 0 |}
  | (a, s) :: r =>
      let rest := reap_flows now l r in
      let kept := filter (fun e => fresh_flow now l e = true) (target_flows s) in
      let gone := filter (fun e => fresh_flow now l e = false) (target_flows s) in
      {| rp_clients := (a, {| cf_last_activity := cf_last_activity s; target_flows := kept |}) :: rp_clients rest;
         rp_shutdown := map snd gone ++ rp_shutdown rest;
         rp_removed := (length gone + rp_removed rest)%nat;
         rp_metric := (length gone + rp_metric rest)%nat |}
  end.

(** Second loop: [retain] on the clients, draining the flows of those dropped. *)
Fixpoint reap_clients (now : Z) (l : UdpLimits) (cs : clients) : reaped :=
  match cs with
  | [] => {| rp_clients := []; rp_shutdown := []; rp_removed := 0; rp_metric := 0 |}
  | c :: r =>
      let rest := reap_clients now l r in
      if fresh_client now l c then
        {| rp_clients := c :: rp_clients rest; rp_shutdown := rp_shutdown rest;
           rp_removed := rp_removed rest; rp_metric := rp_metric rest |}
      else
        {| rp_clients := rp_clients rest;
           rp_shutdown := map snd (target_flows c.2) ++ rp_shutdown rest;
           rp_removed := (length (target_flows c.2) + rp_removed rest)%nat;
           rp_metric := rp_metric rest |}
  end.

Definition reap_idle_flows (now : Z) (l : UdpLimits) (cs : clients) : reaped :=
  let r1 := reap_flows now l cs in
  let r2 := reap_clients now l (rp_clients r1) in
  {| rp_clients := rp_clients r2; rp_shutdown := rp_shutdown r1 ++ rp_shutdown r2;
     rp_removed := (rp_removed r1 + rp_removed r2)%nat; rp_metric := (rp_metric r1 + rp_metric r2)%nat |}.

Fixpoint close_all_flows (cs : clients) : reaped :=
  match cs with
  | [] => {| rp_clients := []; rp_shutdown := []; rp_removed := 0; rp_metric := 0 |}
  | (a, s) :: r =>
      let rest := close_all_flows r in
      {| rp_clients := (a, {| cf_last_activity := cf_last_activity s; target_flows := [] |}) :: rp_clients rest;
         rp_shutdown := map snd (target_flows s) ++ rp_shutdown rest;
         rp_removed := (length (target_flows s) + rp_removed rest)%nat;
         rp_metric := (length (target_flows s) + rp_metric rest)%nat |}
  end.

(** ** Properties *)

(** All entries of a table. *)
Definition entries (cs : clients) : list TargetFlowEntry :=
  mjoin (map (fun c => map snd (target_flows c.2)) cs).

Lemma entries_cons c cs : entries (c :: cs) = map snd (target_flows c.2) ++ entries cs.
Proof. done. Qed.

Lemma filter_partition {A} (p : A -> bool) (l : list A) :
  filter (fun x => p x = true) l ++ filter (fun x => p x = false) l ≡ₚ l.
Proof.
  induction l as [|x l IH]; [done|]. rewrite !filter_cons. destruct (p x) eqn:E; simpl.
  - by rewrite IH.
  - rewrite <- Permutation_middle. by rewrite IH.
Qed.

Ltac rp_cbn :=
  cbn [rp_clients rp_shutdown rp_removed rp_metric fst snd target_flows cf_last_activity map].

Lemma reap_flows_spec now l cs :
  let r := reap_flows now l cs in
  entries (rp_clients r) ++ rp_shutdown r ≡ₚ entries cs /\
  rp_removed r = length (rp_shutdown r) /\
  Forall (fun c => Forall (fun e => fresh_flow now l e = true) (target_flows c.2)) (rp_clients r) /\
  map (fun c => (c.1, cf_last_activity c.2)) (rp_clients r) = map (fun c => (c.1, cf_last_activity c.2)) cs.
Proof.
  induction cs as [|[a s] cs (H1 & H2 & H3 & H4)]; [done|]. cbn [reap_flows].
  set (rest := reap_flows now l cs) in *. rp_cbn. rewrite !entries_cons. rp_cbn.
  set (kept := filter (fun e => fresh_flow now l e = true) (target_flows s)).
  set (gone := filter (fun e => fresh_flow now l e = false) (target_flows s)).
  split_and!.
  - rewrite <- H1, <- (filter_partition (fresh_flow now l) (target_flows s)). fold kept gone.
    rewrite map_app. rewrite <- !app_assoc. apply Permutation_app_head, Permutation_app_swap_app.
  - rewrite length_app, length_map, H2. done.
  - constructor; [|done]. apply Forall_forall. intros e He.
    by apply list_elem_of_filter in He as [? _].
  - by rewrite H4.
Qed.

Lemma reap_clients_spec now l cs :
  let r := reap_clients now l cs in
  entries (rp_clients r) ++ rp_shutdown r ≡ₚ entries cs /\
  rp_removed r = length (rp_shutdown r) /\
  rp_clients r = filter (fun c => fresh_client now l c = true) cs.
Proof.
  induction cs as [|c cs (H1 & H2 & H3)]; [done|]. cbn [reap_clients]. cbv zeta.
  set (rest := reap_clients now l cs) in *. rewrite filter_cons.
  destruct (fresh_client now l c) eqn:E; rp_cbn.
  - rewrite !entries_cons, H3. split_and!; [|done|done].
    rewrite <- H1, H3, <- app_assoc. done.
  - rewrite entries_cons. split_and!; [|rewrite length_app, length_map, H2; done|done].
    rewrite <- H1. apply Permutation_app_swap_app.
Qed.

(** Reaping conserves flows: every flow is afterwards either still in the
    table or was shut down, exactly once, and the returned number is the number
    shut down; what is left are active clients with active flows, and no active
    client is dropped. *)
Theorem reap_conserves now l cs :
  let r := reap_idle_flows now l cs in
  entries (rp_clients r) ++ rp_shutdown r ≡ₚ entries cs /\
  rp_removed r = length (rp_shutdown r) /\
  Forall (fun c => fresh_client now l c = true /\
                   Forall (fun e => fresh_flow now l e = true) (target_flows c.2)) (rp_clients r) /\
  map fst (rp_clients r) = map fst (filter (fun c => fresh_client now l c = true) cs).
Proof.
  pose proof (reap_flows_spec now l cs) as (A1 & A2 & A3 & A4).
  pose proof (reap_clients_spec now l (rp_clients (reap_flows now l cs))) as (B1 & B2 & B3).
  unfold reap_idle_flows. rp_cbn.
  set (r1 := reap_flows now l cs) in *. set (r2 := reap_clients now l (rp_clients r1)) in *.
  split_and!.
  - rewrite <- A1, <- B1, <- !app_assoc.
    apply Permutation_app_head, Permutation_app_comm.
  - rewrite length_app, A2, B2. done.
  - rewrite B3. apply Forall_forall. intros c Hc. apply list_elem_of_filter in Hc as [Hf Hc].
    rewrite Forall_forall in A3. split; [done|by apply A3].
  - rewrite B3. clearbody r2. clearbody r1. clear -A4. revert A4. generalize (rp_clients r1) as xs. intros xs.
    revert cs. induction xs as [|[a s] xs IH]; intros [|[b t] cs] Hm; try done.
    cbn in Hm. injection Hm as -> Hl Hm. rewrite !filter_cons.
    assert (fresh_client now l (b, s) = fresh_client now l (b, t)) as -> by (unfold fresh_client; cbn; by rewrite Hl).
    destruct (decide _); cbn; [f_equal|]; by apply IH.
Qed.

(** Closing everything shuts down every flow. *)
Lemma close_all_flows_spec cs :
  let r := close_all_flows cs in
  rp_shutdown r = entries cs /\ entries (rp_clients r) = [] /\ rp_removed r = length (entries cs).
Proof.
  induction cs as [|[a s] cs (H1 & H2 & H3)]; [done|]. cbn [close_all_flows]. rp_cbn. rewrite entries_cons, H1. rp_cbn.
  rewrite entries_cons, H2, H3. rp_cbn. by rewrite length_app, length_map.
Qed.
