(* ===== verification/UdpOpen.v ===== *)
(** * Opening and using UDP flows

    What the UDP relays ([crates/eggress-udp/src/relay.rs], [standalone.rs] and
    [standalone_shadowsocks.rs]) have in common: a routed datagram is sent on the flow
    of its route and target, which is opened on first use, within the limits of the
    table.  The network answers as a [udp_world]; the lease that routing took becomes
    the lease of the new flow or is given back. *)

From S2P Require Import Prelude Bytes Decimal Stream Socks5 Socks5Udp NetAddr Connector Dispatch Uri Capability Chain Health Upstream Scheduler Matcher Router UdpSecurity UdpRegistry Shadowsocks UdpHop UdpUpstream UdpCapability UdpFlow.
Local Open Scope Z_scope.

(** ** The network as one datagram meets it *)

(** An answer of the operating system. *)
Definition answer (A : Type) : Type := A + IoError.
Definition answered {A} (x : answer A) : outcome IoError A := match x with inl a => Ok a | inr e => Err e end.

Record udp_world := {
  w_lookup_text : bytes -> answer (list SocketAddr);
  w_lookup_host : bytes -> Z -> answer (list SocketAddr);
  w_udp_bind : SocketAddr -> answer unit;
  w_udp_connect : SocketAddr -> answer unit;
  w_tcp_connect : SocketAddr -> answer unit;
  w_set_nodelay : answer unit;
  w_peer_addr : answer IpAddr;
  w_took : Z;                                     (* how long opening an upstream takes *)
  w_control : conn;                               (* the control connection to a SOCKS5 upstream *)
  w_open_hop : nat -> ProxyHopSpec -> option Association;
  w_hop_socket : option nat;
  w_salts : nat -> bytes;
  w_send : answer unit
}.

(** ** Opening the flow of a datagram

    The pending lease becomes an active one when the upstream is open and is dropped
    when it cannot be opened.  [Ok None]: the datagram is dropped. *)

Section opening.
Context `{HCr : !Crypto}.
Variable w : udp_world.
Variable now : Z.

Definition open_direct_flow (bind : SocketAddr) (target : SocksAddr) (task : nat) : outcome UdpError TargetFlowEntry :=
  let? f := target_flow_new (fun t => answered (w_lookup_text w t)) (fun a => answered (w_udp_bind w a))
              (fun a => answered (w_udp_connect w a)) now target bind in
  Ok {| fe_flow := Direct f; recv_task := task |}.

Definition open_upstream (cfg : Socks5UdpUpstreamConfig) : outcome UdpUpstreamError Socks5UdpUpstreamAssociation :=
  (open_socks5_udp_upstream (fun d p => answered (w_lookup_host w d p)) (fun a => answered (w_tcp_connect w a)) (answered (w_set_nodelay w))
     (answered (w_peer_addr w)) (fun a => answered (w_udp_bind w a)) (w_took w) cfg None (w_control w)).1.

Definition open_socks5_flow (cfg : Socks5UdpUpstreamConfig) (target : SocksAddr) (lease : PendingLease) (h : heap) (task : nat)
    : outcome UdpError (option TargetFlowEntry) * heap :=
  match open_upstream cfg with
  | Ok a =>
      let '(active_lease, h) := established lease h in
      (Ok (Some {| fe_flow := Socks5Upstream {| sf_target := target; sf_upstream_id := ua_upstream_id a; sf_relay_addr := ua_relay_addr a;
                                                sf_control_cancel := S task; sf_control_task := S (S task); sf_lease := active_lease;
                                                sf_last_activity := now |};
                   recv_task := task |}), h)
  | Err _ => (Ok None, pending_drop lease h)
  | Panic => (Panic, pending_drop lease h)
  end.

Definition open_shadowsocks_flow (upstream_addr : outcome UdpError SocketAddr) (upstream : bytes) (method : CipherMethod) (password : bytes)
    (target : SocksAddr) (lease : PendingLease) (h : heap) (task : nat) : outcome UdpError (option TargetFlowEntry) * heap :=
  match (let? addr := upstream_addr in
         let? _ := map_err UdpOtherIo (answered (w_udp_bind w local_udp_bind_addr)) in
         Ok addr) with
  | Ok addr =>
      let '(active_lease, h) := established lease h in
      (Ok (Some {| fe_flow := ShadowsocksUpstream {| xf_target := target; xf_upstream_id := upstream; xf_upstream_addr := addr;
                                                     xf_method := method; xf_password := password;
                                                     xf_password_ikm := password_key_material password; xf_lease := active_lease;
                                                     xf_last_activity := now |};
                   recv_task := task |}), h)
  | Err e => (Err e, pending_drop lease h)
  | Panic => (Panic, pending_drop lease h)
  end.

Definition open_composed : ProxyChainSpec -> outcome (ComposedError * list cleanup) ComposedFlow :=
  open_composed_udp_upstream (w_open_hop w)
    (fun d p => match w_lookup_host w d p with inl l => Some (map (fun a => (sa_ip a, sa_port a)) l) | inr _ => None end) (w_hop_socket w).

Definition open_composed_flow (upstream : bytes) (chain : ProxyChainSpec) (active_lease : ActiveLease) (h : heap) (task : nat)
    : outcome UdpError (option TargetFlowEntry) * heap :=
  match open_composed chain with
  | Ok f =>
      (Ok (Some {| fe_flow := Composed {| mf_target := None; mf_upstream_id := upstream; mf_flow := f; mf_lease := active_lease;
                                          mf_last_activity := now |};
                   recv_task := task |}), h)
  | Err _ => (Ok None, active_drop active_lease h)
  | Panic => (Panic, active_drop active_lease h)
  end.

(** Sending on a flow; the kind of the flow is expected to be that of its key. *)
Definition flow_send (key : UdpFlowKey) (payload : bytes) (e : TargetFlowEntry) : outcome SendError unit * TargetFlowEntry * list datagram :=
  let sent := answered (w_send w) in
  match key, fe_flow e with
  | KDirect _, Direct f =>
      let '(r, f, out) := tf_send sent payload f in (r, {| fe_flow := Direct f; recv_task := recv_task e |}, out)
  | KSocks5Upstream target _, Socks5Upstream f => let '(r, out) := sf_send sent target payload f in (r, e, out)
  | KShadowsocksUpstream target _, ShadowsocksUpstream f => let '(r, out) := xf_send sent (w_salts w 0) target payload f in (r, e, out)
  | KComposed target _, Composed f =>
      let '(r, f, out) := mf_send sent (w_salts w) target payload f in (r, {| fe_flow := Composed f; recv_task := recv_task e |}, out)
  | _, _ => (Ok tt, e, [])
  end.
End opening.

(** ** Tables of flows *)

Definition flow_get (key : UdpFlowKey) (l : flows) : option TargetFlowEntry := snd <$> List.find (fun kv => bool_decide (kv.1 = key)) l.
Definition flow_put (key : UdpFlowKey) (e : TargetFlowEntry) (l : flows) : flows :=
  map (fun kv => if bool_decide (kv.1 = key) then (key, e) else kv) l.

(** The lease a flow holds. *)
Definition flow_lease (e : TargetFlowEntry) : option ActiveLease :=
  match fe_flow e with
  | Direct _ => None
  | Socks5Upstream f => Some (sf_lease f)
  | ShadowsocksUpstream f => Some (xf_lease f)
  | Composed f => Some (mf_lease f)
  end.

(** Dropping a flow drops its lease. *)
Definition drop_flow (h : heap) (kv : UdpFlowKey * TargetFlowEntry) : heap :=
  match flow_lease kv.2 with Some l => active_drop l h | None => h end.
Definition drop_flows (l : flows) (h : heap) : heap := fold_left drop_flow l h.

(** ** Using the flow of a route *)

(** How a relay opens flows: where it binds sockets, the configuration of SOCKS5
    upstreams, how the address of a Shadowsocks upstream is found, and whether the
    lease of a composed flow is established before the table is consulted. *)
Record opening := {
  op_bind : SocketAddr;
  op_config : bytes -> ProxyHopSpec -> Socks5UdpUpstreamConfig;
  op_ss_addr : udp_world -> EndpointSpec -> outcome UdpError SocketAddr;
  op_early : bool
}.

(** The flow of a route: its key, what becomes of the lease when the table is full or
    has the flow already, and how the flow is opened. *)
Record plan := {
  pn_key : UdpFlowKey; pn_full : heap -> heap; pn_occupied : heap -> heap;
  pn_build : heap -> nat -> outcome UdpError (option TargetFlowEntry) * heap
}.

(** A failed send drops the datagram: nothing else happens. *)
Definition send_result (r : outcome SendError unit) : outcome UdpError unit := match r with Panic => Panic | _ => Ok tt end.

Section routes.
Context `{HCr : !Crypto}.
Variable op : opening.

Definition flow_plan (w : udp_world) (now : Z) (target : SocksAddr) (selected : SelectedRoute) : option plan :=
  match selected with
  | SelDirect _ _ =>
      Some {| pn_key := KDirect target; pn_full := fun h => h; pn_occupied := fun h => h;
              pn_build h task := (let? e := open_direct_flow w now (op_bind op) target task in Ok (Some e), h) |}
  | SelUpstream _ _ upstream chain lease _ =>
      match udp_capability chain with
      | SupportedSocks5 =>
          Some {| pn_key := KSocks5Upstream target upstream; pn_full := pending_drop lease; pn_occupied := pending_drop lease;
                  pn_build h task :=
                    match (hops chain).[0] with
                    | Ok hop => open_socks5_flow w now (op_config op upstream hop) target lease h task
                    | Err e => (Err e, pending_drop lease h)
                    | Panic => (Panic, pending_drop lease h)
                    end |}
      | SupportedShadowsocks method password =>
          Some {| pn_key := KShadowsocksUpstream target upstream; pn_full := pending_drop lease; pn_occupied := pending_drop lease;
                  pn_build h task :=
                    match (hops chain).[0] with
                    | Ok hop => open_shadowsocks_flow w now (op_ss_addr op w (endpoint hop)) upstream method password target lease h task
                    | Err e => (Err e, pending_drop lease h)
                    | Panic => (Panic, pending_drop lease h)
                    end |}
      | SupportedComposed =>
          Some {| pn_key := KComposed target upstream; pn_full := pending_drop lease;
                  pn_occupied h := if op_early op then let '(active_lease, h) := established lease h in active_drop active_lease h else pending_drop lease h;
                  pn_build h task := let '(active_lease, h) := established lease h in open_composed_flow w now upstream chain active_lease h task |}
      | CapUnsupportedProtocol _ | UnsupportedMultiHop => None
      end
  end.

(** What a datagram changes: the table, the upstreams, the flows created and the
    datagrams sent. *)
Record usage := { us_flows : flows; us_heap : heap; us_new : list TargetFlowEntry; us_out : list datagram }.

Definition use_flow (w : udp_world) (now : Z) (p : plan) (allowed : bool) (payload : bytes) (fl : flows) (h : heap) (task : nat)
    : outcome UdpError unit * usage :=
  if negb allowed then (Ok tt, {| us_flows := fl; us_heap := pn_full p h; us_new := []; us_out := [] |})
  else match flow_get (pn_key p) fl with
  | Some e =>
      let '(r, e, out) := flow_send w (pn_key p) payload (fe_touch now e) in
      (send_result r, {| us_flows := flow_put (pn_key p) e fl; us_heap := pn_occupied p h; us_new := []; us_out := out |})
  | None =>
      match pn_build p h task with
      | (Ok (Some e), h) =>
          let '(r, e, out) := flow_send w (pn_key p) payload e in
          (send_result r, {| us_flows := (pn_key p, e) :: fl; us_heap := h; us_new := [e]; us_out := out |})
      | (Ok None, h) => (Ok tt, {| us_flows := fl; us_heap := h; us_new := []; us_out := [] |})
      | (Err e, h) => (Err e, {| us_flows := fl; us_heap := h; us_new := []; us_out := [] |})
      | (Panic, h) => (Panic, {| us_flows := fl; us_heap := h; us_new := []; us_out := [] |})
      end
  end.

(** [allowed]: whether the table may be used for a key. *)
Definition use_route (w : udp_world) (now : Z) (allowed : UdpFlowKey -> bool) (target : SocksAddr) (payload : bytes) (selected : SelectedRoute)
    (fl : flows) (h : heap) (task : nat) : outcome UdpError unit * usage :=
  match flow_plan w now target selected with
  | Some p => use_flow w now p (allowed (pn_key p)) payload fl h task
  | None =>
      (Ok tt, {| us_flows := fl; us_heap := match selected with SelUpstream _ _ _ _ lease _ => pending_drop lease h | SelDirect _ _ => h end;
                 us_new := []; us_out := [] |})
  end.
End routes.

(** ** Tables and leases *)

Abbreviation leases_are h ls := {| heap_of := h; leases := ls |}.

(** The active leases of a flow and of the flows of a table. *)
Definition held1 (e : TargetFlowEntry) : list (nat * phase) :=
  match flow_lease e with Some a => [(al_upstream a, PhActive)] | None => [] end.
Definition held (l : flows) : list (nat * phase) := mjoin (map (fun kv => held1 kv.2) l).

Lemma held_cons k e l : held ((k, e) :: l) = held1 e ++ held l.
Proof. done. Qed.

Lemma held_put k e l : (forall e', (k, e') ∈ l -> flow_lease e' = flow_lease e) -> held (flow_put k e l) = held l.
Proof.
  induction l as [|[k' e'] l IH]; intros Hl; [done|]. cbn [flow_put map fst]. change (map _ l) with (flow_put k e l).
  case_bool_decide as Hk; rewrite !held_cons, IH by (intros x Hx; apply Hl, elem_of_cons; by right); [|done].
  subst k'. f_equal. unfold held1. by rewrite (Hl e') by apply list_elem_of_here.
Qed.

Lemma flow_get_elem k e l : flow_get k l = Some e -> (k, e) ∈ l.
Proof.
  unfold flow_get. intros ([k' e'] & He & Hf)%fmap_Some. cbn in Hf. subst e'. apply find_some in He as [Hi Hk].
  apply bool_decide_eq_true in Hk. cbn in Hk. subst k'. by apply list_elem_of_In.
Qed.

Lemma flow_get_none k l : flow_get k l = None -> contains_key k l = false.
Proof.
  unfold flow_get, contains_key. destruct (List.find _ l) as [x|] eqn:E; [done|]. intros _. induction l as [|x l IH]; [done|]. cbn in *.
  destruct (bool_decide (x.1 = k)); [done|]. by apply IH.
Qed.

Lemma contains_key_spec k l : contains_key k l = true <-> k ∈ map fst l.
Proof.
  unfold contains_key. rewrite existsb_exists, list_elem_of_fmap. setoid_rewrite bool_decide_eq_true. setoid_rewrite <- list_elem_of_In. naive_solver.
Qed.

Lemma put_keys k e l : map fst (flow_put k e l) = map fst l.
Proof. unfold flow_put. rewrite map_map. apply map_ext. intros x. by case_bool_decide. Qed.

Lemma put_elem k e l x : x ∈ flow_put k e l -> x = (k, e) \/ x ∈ l.
Proof. unfold flow_put. rewrite list_elem_of_fmap. intros (y & -> & Hy). case_bool_decide; auto. Qed.

Lemma put_elem_other k e l x : x ∈ l -> x.1 <> k -> x ∈ flow_put k e l.
Proof. unfold flow_put. rewrite list_elem_of_fmap. intros Hx Hne. exists x. by rewrite bool_decide_false. Qed.

Lemma put_elem_same k e e' l : (k, e') ∈ l -> (k, e) ∈ flow_put k e l.
Proof. unfold flow_put. rewrite list_elem_of_fmap. intros Hx. exists (k, e'). by rewrite bool_decide_true. Qed.

Lemma nodup_key k e e' (l : flows) : NoDup (map fst l) -> (k, e) ∈ l -> (k, e') ∈ l -> e = e'.
Proof.
  intros Hn. induction l as [|[k1 e1] l IH]; [by intros ?%not_elem_of_nil|]. inversion_clear Hn as [|?? Hk Hl].
  rewrite !elem_of_cons. intros [E1|H1] [E2|H2]; [congruence|injection E1 as -> ->|injection E2 as -> ->|].
  - destruct Hk. apply (list_elem_of_fmap_2 fst _ _ H2).
  - destruct Hk. apply (list_elem_of_fmap_2 fst _ _ H1).
  - by apply IH.
Qed.

(** Dropping the flows that satisfy [p] gives back their leases. *)
Lemma drop_held (p : UdpFlowKey * TargetFlowEntry -> bool) ls l : forall h pre,
  rtc step (leases_are h (pre ++ held l ++ ls))
    (leases_are (drop_flows (filter (fun kv => p kv = true) l) h) (pre ++ held (filter (fun kv => p kv = false) l) ++ ls)).
Proof.
  induction l as [|[k e] l IH]; intros h pre; [apply rtc_refl|]. rewrite held_cons, !filter_cons. destruct (p (k, e)); cbn [decide_rel].
  - rewrite decide_True, decide_False by done. unfold drop_flows. cbn [fold_left]. unfold drop_flow at 2. cbn [snd].
    unfold held1. destruct (flow_lease e) as [[i]|]; cbn [app al_upstream]; [|apply IH].
    eapply rtc_l; [exact (step_drop_active i h pre _)|]. apply IH.
  - rewrite decide_False, decide_True by done. rewrite held_cons, <- !(assoc_L app), !(assoc_L app pre). apply IH.
Qed.

Lemma drop_held_all ls l h : rtc step (leases_are h (held l ++ ls)) (leases_are (drop_flows l h) ls).
Proof.
  pose proof (drop_held (fun _ => true) ls l h []) as Hd.
  rewrite (filter_all (fun _ => true = true)) in Hd by done.
  assert (filter (fun _ : UdpFlowKey * TargetFlowEntry => true = false) l = []) as E by (clear; induction l; [done|]; rewrite filter_cons; by rewrite decide_False).
  by rewrite E in Hd.
Qed.

Section flow_facts.
Context `{HCr : !Crypto}.
Context (op : opening) (h0 : heap).

(** ** What flows and datagrams are *)

(** An upstream of the configuration and its chain. *)
Definition configured (u : bytes) (ch : ProxyChainSpec) : Prop := (u, ch) ∈ shape h0.

(** Where the flow of a key leads: to the address the target resolved to, or to the
    relay of a configured upstream; [met] are the worlds the relay has met. *)
Definition flow_ok (met : udp_world -> Prop) (key : UdpFlowKey) (e : TargetFlowEntry) : Prop :=
  match key, fe_flow e with
  | KDirect t, Direct f =>
      tf_target f = t /\ exists w, met w /\ resolve_flow_target (fun x => answered (w_lookup_text w x)) t = Ok (tf_peer f)
  | KSocks5Upstream t u, Socks5Upstream f =>
      sf_target f = t /\ exists w hop a, met w /\ configured u {| hops := [hop] |} /\
        open_upstream w (op_config op u hop) = Ok a /\ sf_relay_addr f = ua_relay_addr a
  | KShadowsocksUpstream t u, ShadowsocksUpstream f =>
      xf_target f = t /\ xf_password_ikm f = password_key_material (xf_password f) /\ exists w hop, met w /\ configured u {| hops := [hop] |} /\
        op_ss_addr op w (endpoint hop) = Ok (xf_upstream_addr f) /\ extract_shadowsocks_creds hop = Some (xf_method f, xf_password f)
  | KComposed t u, Composed f =>
      exists w chain, met w /\ configured u chain /\ udp_capability chain = SupportedComposed /\ open_composed w chain = Ok (mf_flow f)
  | _, _ => False
  end.

(** The datagram that carries a payload to the target of the key on a flow. *)
Definition sends (key : UdpFlowKey) (e : TargetFlowEntry) (payload : bytes) (d : datagram) : Prop :=
  match key, fe_flow e with
  | KDirect _, Direct f => d = {| dg_to := tf_peer f; dg_data := payload |}
  | KSocks5Upstream t _, Socks5Upstream f => dg_to d = sf_relay_addr f /\ encode_socks5_udp_datagram t payload = Ok (dg_data d)
  | KShadowsocksUpstream t _, ShadowsocksUpstream f =>
      dg_to d = xf_upstream_addr f /\
      exists salt, encode_udp_packet_with_ikm (xf_method f) (xf_password_ikm f) (socks_to_target_addr t) payload salt = Ok (dg_data d)
  | KComposed t _, Composed f =>
      dg_to d = sock (cf_outer_relay (mf_flow f)) /\
      exists salts, encode_request_with_next_targets (cf_stack (mf_flow f)) salts (socks_to_target_addr t) payload (cf_relay_targets (mf_flow f)) = Ok (dg_data d)
  | _, _ => False
  end.

Lemma flow_ok_mono (met met' : udp_world -> Prop) k e : (forall w, met w -> met' w) -> flow_ok met k e -> flow_ok met' k e.
Proof using Type.
  intros Hm. unfold flow_ok. destruct k, (fe_flow e); try done.
  - intros (Ht & w & Hw & Hr). split; [exact Ht|]. exists w. split; [by apply Hm|exact Hr].
  - intros (Ht & w & hop & a & Hw & Hr). split; [exact Ht|]. exists w, hop, a. split; [by apply Hm|exact Hr].
  - intros (Ht & Hi & w & hop & Hw & Hr). split; [exact Ht|]. split; [exact Hi|]. exists w, hop. split; [by apply Hm|exact Hr].
  - intros (w & ch & Hw & Hr). exists w, ch. split; [by apply Hm|exact Hr].
Qed.

(** Two entries of a flow that differ in what it counts only. *)
Definition same_flow (e e' : TargetFlowEntry) : Prop :=
  flow_lease e' = flow_lease e /\ shutdown_flow e' = shutdown_flow e /\
  (forall met k, flow_ok met k e -> flow_ok met k e') /\ (forall k p d, sends k e' p d -> sends k e p d).

Lemma touch_same now e : same_flow e (fe_touch now e).
Proof using Type.
  destruct e as [[f|f|f|f] t]; (split; [reflexivity|]; split; [reflexivity|]; split; [intros met [] Hk; exact Hk|intros [] p d Hk; exact Hk]).
Qed.

Lemma same_flow_refl e : same_flow e e.
Proof using Type. split; [reflexivity|]. split; [reflexivity|]. split; auto. Qed.

Lemma same_flow_trans e1 e2 e3 : same_flow e1 e2 -> same_flow e2 e3 -> same_flow e1 e3.
Proof using Type.
  intros (A1 & A2 & A3 & A4) (B1 & B2 & B3 & B4). split; [congruence|]. split; [congruence|]. split; [intros; by apply B3, A3|intros; by apply A4, B4].
Qed.

Lemma socket_send_out sent to data r out : socket_send sent to data = (r, out) -> out = [] \/ out = [{| dg_to := to; dg_data := data |}].
Proof using Type. unfold socket_send. destruct sent; intros [= <- <-]; auto. Qed.

Lemma flow_send_spec w key payload e r e' out : flow_send w key payload e = (r, e', out) ->
  same_flow e e' /\ (out = [] \/ exists d, out = [d] /\ sends key e payload d).
Proof using Type.
  pose proof (same_flow_refl e) as Hrefl.
  unfold flow_send. destruct key as [t|t u|t u|t u], (fe_flow e) as [f|f|f|f] eqn:Ef; try (intros [= _ <- <-]; auto).
  - unfold tf_send. destruct (socket_send _ _ payload) as [r1 o] eqn:E. intros [= _ <- <-]. apply socket_send_out in E. destruct e as [k t0]. cbn in Ef. subst k. split.
    + destruct (is_ok r1); [|exact Hrefl]. split; [reflexivity|]. split; [reflexivity|]. split; [intros met [] Hk; exact Hk|intros [] p d Hk; exact Hk].
    + destruct E as [->| ->]; [by left|right]. eexists. split; [reflexivity|]. reflexivity.
  - unfold sf_send. destruct (encode_socks5_udp_datagram t payload) as [data|?|] eqn:Ee; [|intros [= _ <- <-]; auto..].
    destruct (socket_send _ _ data) as [r1 o] eqn:E. intros [= _ <- <-]. apply socket_send_out in E. split; [exact Hrefl|].
    destruct E as [->| ->]; [by left|right]. eexists. split; [reflexivity|]. unfold sends. rewrite Ef. split; [reflexivity|exact Ee].
  - unfold xf_send. destruct (encode_udp_packet_with_ikm _ _ _ _ _) as [data|?|] eqn:Ee; [|intros [= _ <- <-]; auto..].
    destruct (socket_send _ _ data) as [r1 o] eqn:E. intros [= _ <- <-]. apply socket_send_out in E. split; [exact Hrefl|].
    destruct E as [->| ->]; [by left|right]. eexists. split; [reflexivity|]. unfold sends. rewrite Ef. split; [reflexivity|]. eexists. exact Ee.
  - destruct e as [k t0]. cbn in Ef. subst k. unfold mf_send.
    destruct (encode_request_with_next_targets _ _ _ _ _) as [data|?|] eqn:Ee; [|intros [= _ <- <-]; auto..].
    destruct (socket_send _ _ data) as [r1 o] eqn:E. intros [= _ <- <-]. apply socket_send_out in E. split.
    + destruct (is_ok r1); [|exact Hrefl]. split; [reflexivity|]. split; [reflexivity|]. split; [intros met [] Hk; exact Hk|intros [] p d Hk; exact Hk].
    + destruct E as [->| ->]; [by left|right]. eexists. split; [reflexivity|]. split; [reflexivity|]. eexists. exact Ee.
Qed.

(** ** Opening flows *)

(** The flow a routed datagram uses. *)
Definition route_key (target : SocksAddr) (sel : SelectedRoute) : option UdpFlowKey :=
  match sel with
  | SelDirect _ _ => Some (KDirect target)
  | SelUpstream _ _ u ch _ _ =>
      match udp_capability ch with
      | SupportedSocks5 => Some (KSocks5Upstream target u)
      | SupportedShadowsocks _ _ => Some (KShadowsocksUpstream target u)
      | SupportedComposed => Some (KComposed target u)
      | _ => None
      end
  end.

Lemma pending_dropped i h ls : rtc step (leases_are h ([(i, PhPending)] ++ ls)) (leases_are (pending_drop {| pl_upstream := i; pl_state := Pending |} h) ls).
Proof using Type. eapply rtc_l; [exact (step_drop_pending i h [] ls)|apply rtc_refl]. Qed.

Lemma active_dropped i h ls : rtc step (leases_are h ([(i, PhActive)] ++ ls)) (leases_are (active_drop {| al_upstream := i |} h) ls).
Proof using Type. eapply rtc_l; [exact (step_drop_active i h [] ls)|apply rtc_refl]. Qed.

Lemma capability_socks5 ch : udp_capability ch = SupportedSocks5 -> exists hop, ch = {| hops := [hop] |}.
Proof using Type.
  destruct ch as [[|hop [|h2 l]]]; unfold udp_capability; cbn [hops]; [done|by exists hop|]. by destruct (forallb _ _).
Qed.

Lemma capability_shadowsocks ch m pw : udp_capability ch = SupportedShadowsocks m pw ->
  exists hop, ch = {| hops := [hop] |} /\ extract_shadowsocks_creds hop = Some (m, pw).
Proof using Type.
  destruct ch as [[|hop [|h2 l]]]; unfold udp_capability; cbn [hops]; [done| |by destruct (forallb _ _)].
  destruct (protocols hop) as [|p [|q r]]; [done| |done]. destruct p; try done. unfold shadowsocks_capability.
  destruct (extract_shadowsocks_creds hop) as [[m' pw']|] eqn:E; [|done]. intros [= -> ->]. by exists hop.
Qed.

Section builders.
Variable met : udp_world -> Prop.
Variable w : udp_world.
Variable now : Z.
Hypothesis Hmet : met w.

Lemma direct_builds target h task :
  match (let? e := open_direct_flow w now (op_bind op) target task in Ok (Some e), h) with
  | (Ok (Some e), h') => flow_ok met (KDirect target) e /\ forall ls, rtc step (leases_are h ([] ++ ls)) (leases_are h' (held1 e ++ ls))
  | (_, h') => forall ls, rtc step (leases_are h ([] ++ ls)) (leases_are h' ls)
  end.
Proof using Hmet.
  unfold open_direct_flow, target_flow_new. destruct (map_err _ _) as [[]|?|]; cbn [obind]; [|intros; apply rtc_refl..].
  destruct (resolve_flow_target _ target) as [a|?|] eqn:Ea; cbn [obind]; [|intros; apply rtc_refl..].
  destruct (map_err _ _) as [[]|?|]; cbn [obind]; [|intros; apply rtc_refl..].
  split; [|intros; apply rtc_refl]. split; [reflexivity|]. exists w. split; [exact Hmet|exact Ea].
Qed.

Variable i : nat.
Abbreviation lease := {| pl_upstream := i; pl_state := Pending |}.

Lemma socks5_builds target u hop h task : configured u {| hops := [hop] |} ->
  match open_socks5_flow w now (op_config op u hop) target lease h task with
  | (Ok (Some e), h') => flow_ok met (KSocks5Upstream target u) e /\ forall ls, rtc step (leases_are h ([(i, PhPending)] ++ ls)) (leases_are h' (held1 e ++ ls))
  | (_, h') => forall ls, rtc step (leases_are h ([(i, PhPending)] ++ ls)) (leases_are h' ls)
  end.
Proof using Hmet.
  intros Hc. unfold open_socks5_flow. destruct (open_upstream w (op_config op u hop)) as [a|e|] eqn:Ea; [|intros; apply pending_dropped..].
  cbn [established]. split.
  - split; [reflexivity|]. exists w, hop, a. split; [exact Hmet|]. split; [exact Hc|]. split; [exact Ea|reflexivity].
  - intros ls. exact (established_steps i h [] ls).
Qed.

Lemma shadowsocks_builds target u hop m pw h task : configured u {| hops := [hop] |} -> extract_shadowsocks_creds hop = Some (m, pw) ->
  match open_shadowsocks_flow w now (op_ss_addr op w (endpoint hop)) u m pw target lease h task with
  | (Ok (Some e), h') => flow_ok met (KShadowsocksUpstream target u) e /\ forall ls, rtc step (leases_are h ([(i, PhPending)] ++ ls)) (leases_are h' (held1 e ++ ls))
  | (_, h') => forall ls, rtc step (leases_are h ([(i, PhPending)] ++ ls)) (leases_are h' ls)
  end.
Proof using Hmet.
  intros Hc He. unfold open_shadowsocks_flow. destruct (op_ss_addr op w (endpoint hop)) as [a|e|] eqn:Ea; cbn [obind]; [|intros; apply pending_dropped..].
  destruct (map_err _ _) as [[]|e|]; cbn [obind]; [|intros; apply pending_dropped..]. cbn [established]. split.
  - split; [reflexivity|]. split; [reflexivity|]. exists w, hop. split; [exact Hmet|]. split; [exact Hc|]. split; [exact Ea|exact He].
  - intros ls. exact (established_steps i h [] ls).
Qed.

Lemma composed_builds target u ch h task : configured u ch -> udp_capability ch = SupportedComposed ->
  match (let '(active_lease, h) := established lease h in open_composed_flow w now u ch active_lease h task) with
  | (Ok (Some e), h') => flow_ok met (KComposed target u) e /\ forall ls, rtc step (leases_are h ([(i, PhPending)] ++ ls)) (leases_are h' (held1 e ++ ls))
  | (_, h') => forall ls, rtc step (leases_are h ([(i, PhPending)] ++ ls)) (leases_are h' ls)
  end.
Proof using Hmet.
  intros Hc Hcap. destruct (established lease h) as [al h1] eqn:Ee.
  assert (al = {| al_upstream := i |}) as -> by by injection Ee as <- _.
  assert (forall ls, rtc step (leases_are h ([(i, PhPending)] ++ ls)) (leases_are h1 ([(i, PhActive)] ++ ls))) as Hst.
  { intros ls. pose proof (established_steps i h [] ls) as Hs. by rewrite Ee in Hs. }
  clear Ee. unfold open_composed_flow. destruct (open_composed w ch) as [f|e|] eqn:Ef.
  - split; [|exact Hst]. exists w, ch. split; [exact Hmet|]. split; [exact Hc|]. split; [exact Hcap|exact Ef].
  - intros ls. etransitivity; [apply Hst|apply active_dropped].
  - intros ls. etransitivity; [apply Hst|apply active_dropped].
Qed.
End builders.

(** ** Using flows *)

Definition shutdowns (l : flows) : list (list teardown) := map (fun kv => shutdown_flow kv.2) l.

Lemma shutdowns_put k e e' l : NoDup (map fst l) -> (k, e) ∈ l -> shutdown_flow e' = shutdown_flow e -> shutdowns (flow_put k e' l) = shutdowns l.
Proof using Type.
  intros Hn Hin He. unfold shutdowns, flow_put. rewrite map_map. apply map_ext_in. intros [k' x] Hx%list_elem_of_In. case_bool_decide as Hk; [|done].
  cbn in *. subst k'. rewrite He. by rewrite (nodup_key k e x l).
Qed.

(** The lease routing took. *)
Definition taken (sel : SelectedRoute) : list (nat * phase) :=
  match sel with SelUpstream _ _ _ _ l _ => [(pl_upstream l, PhPending)] | SelDirect _ _ => [] end.

(** What a selected route is: an upstream of the configuration with a fresh lease. *)
Definition selected_ok (sel : SelectedRoute) : Prop :=
  match sel with
  | SelUpstream _ _ u ch l _ => configured u ch /\ l = {| pl_upstream := pl_upstream l; pl_state := Pending |}
  | SelDirect _ _ => True
  end.

(** What using a route does to a table of flows.  The table grows by at most the one
    flow of the route, where that is allowed; leases follow the flows; at most one
    datagram is sent, on the flow of the route. *)
Record used (met : udp_world -> Prop) (target : SocksAddr) (sel : SelectedRoute) (payload : bytes) (allowed : UdpFlowKey -> bool)
    (fl : flows) (h : heap) (u : usage) : Prop := {
  ud_nodup : NoDup (map fst (us_flows u));
  ud_ok : forall k e, (k, e) ∈ us_flows u -> flow_ok met k e;
  ud_leases : forall ls, rtc step (leases_are h (taken sel ++ held fl ++ ls)) (leases_are (us_heap u) (held (us_flows u) ++ ls));
  ud_table :
    us_new u = [] /\ map fst (us_flows u) = map fst fl /\ shutdowns (us_flows u) = shutdowns fl \/
    exists key e, us_new u = [e] /\ us_flows u = (key, e) :: fl /\ contains_key key fl = false /\ allowed key = true;
  ud_out :
    us_out u = [] \/
    exists key e d, route_key target sel = Some key /\ us_out u = [d] /\ flow_ok met key e /\ sends key e payload d
}.

(** The plan of a route opens its flow with the lease of the route, or gives it back. *)
Record plan_ok (met : udp_world -> Prop) (target : SocksAddr) (sel : SelectedRoute) (p : plan) : Prop := {
  po_key : route_key target sel = Some (pn_key p);
  po_full : forall h ls, rtc step (leases_are h (taken sel ++ ls)) (leases_are (pn_full p h) ls);
  po_occupied : forall h ls, rtc step (leases_are h (taken sel ++ ls)) (leases_are (pn_occupied p h) ls);
  po_build : forall h task,
    match pn_build p h task with
    | (Ok (Some e), h') => flow_ok met (pn_key p) e /\ forall ls, rtc step (leases_are h (taken sel ++ ls)) (leases_are h' (held1 e ++ ls))
    | (_, h') => forall ls, rtc step (leases_are h (taken sel ++ ls)) (leases_are h' ls)
    end
}.

Lemma flow_plan_ok (met : udp_world -> Prop) w now target sel p : met w -> selected_ok sel -> flow_plan op w now target sel = Some p -> plan_ok met target sel p.
Proof using Type.
  intros Hm Hs. unfold flow_plan. destruct sel as [d reason|d gr u ch lease reason].
  - intros [= <-]. split; cbn [pn_key pn_full pn_occupied pn_build taken]; [done|intros; apply rtc_refl..|]. intros h task. by apply direct_builds.
  - destruct Hs as [Hc ->]. set (i := pl_upstream lease). destruct (udp_capability ch) eqn:Ecap; [| | |done..]; intros [= <-].
    + destruct (capability_socks5 _ Ecap) as [hop Hch].
      split; cbn [pn_key pn_full pn_occupied pn_build taken route_key pl_upstream]; [by rewrite Ecap|intros; apply pending_dropped..|].
      intros h task. rewrite Hch in Hc |- *. cbn [hops index lookup list_lookup]. by apply socks5_builds.
    + split; cbn [pn_key pn_full pn_occupied pn_build taken route_key pl_upstream]; [by rewrite Ecap|intros; apply pending_dropped| |intros h task; by apply composed_builds].
      intros h ls. destruct (op_early op); [|apply pending_dropped]. etransitivity; [exact (established_steps i h [] ls)|]. apply active_dropped.
    + destruct (capability_shadowsocks _ _ _ Ecap) as (hop & Hch & Hcr).
      split; cbn [pn_key pn_full pn_occupied pn_build taken route_key pl_upstream]; [by rewrite Ecap|intros; apply pending_dropped..|].
      intros h task. rewrite Hch in Hc |- *. cbn [hops index lookup list_lookup]. by apply shadowsocks_builds.
Qed.

Lemma use_flow_used met w now target sel p allowed payload fl h task :
  plan_ok met target sel p -> NoDup (map fst fl) -> (forall k e, (k, e) ∈ fl -> flow_ok met k e) ->
  used met target sel payload allowed fl h (use_flow w now p (allowed (pn_key p)) payload fl h task).2.
Proof using Type.
  intros [Hk Hfull Hocc Hb] Hn Hf.
  assert (forall h', (forall ls, rtc step (leases_are h (taken sel ++ ls)) (leases_are h' ls)) ->
    used met target sel payload allowed fl h {| us_flows := fl; us_heap := h'; us_new := []; us_out := [] |}) as Hsame.
  { intros h' Hh. split; cbn [us_flows us_heap us_new us_out]; [done..|intros; apply Hh|by left|by left]. }
  unfold use_flow. destruct (allowed (pn_key p)) eqn:Eal; cbn [negb]; [|by apply Hsame].
  destruct (flow_get (pn_key p) fl) as [e|] eqn:Eg.
  - pose proof (flow_get_elem _ _ _ Eg) as He. destruct (flow_send w (pn_key p) payload (fe_touch now e)) as [[r e'] out] eqn:Es.
    apply flow_send_spec in Es as [Hs Hout]. pose proof (same_flow_trans _ _ _ (touch_same now e) Hs) as Hs'.
    split; cbn [us_flows us_heap us_new us_out snd].
    + by rewrite put_keys.
    + intros k x [[= -> ->]|Hx]%put_elem; [by apply Hs', Hf|by apply Hf].
    + intros ls. rewrite held_put; [apply Hocc|]. intros x Hx. rewrite (nodup_key (pn_key p) x e fl) by done. symmetry. apply Hs'.
    + left. split; [done|]. split; [apply put_keys|]. eapply shutdowns_put; [done|done|]. apply Hs'.
    + destruct Hout as [->|(d & -> & Hd)]; [by left|right]. exists (pn_key p), e, d. split; [done|]. split; [done|]. split; [by apply Hf|]. by apply (touch_same now e).
  - specialize (Hb h task). destruct (pn_build p h task) as [[[e|]|err|] h'] eqn:Ebuild; try (by apply Hsame).
    destruct Hb as [He Hh]. destruct (flow_send w (pn_key p) payload e) as [[r e'] out] eqn:Es. apply flow_send_spec in Es as [Hs' Hout].
    assert (flow_ok met (pn_key p) e') as He' by by apply Hs'. pose proof (flow_get_none _ _ Eg) as Hc. split; cbn [us_flows us_heap us_new us_out snd].
    + cbn [map fst]. constructor; [|done]. rewrite <- contains_key_spec. by rewrite Hc.
    + intros k x [[= -> ->]|Hx]%elem_of_cons; [done|by apply Hf].
    + intros ls. rewrite held_cons. unfold held1 at 1. destruct Hs' as (-> & _). rewrite <- app_assoc. apply Hh.
    + right. by exists (pn_key p), e'.
    + destruct Hout as [->|(d & -> & Hd)]; [by left|right]. by exists (pn_key p), e, d.
Qed.

Lemma use_route_used (met : udp_world -> Prop) w now target sel allowed payload fl h task :
  met w -> selected_ok sel -> NoDup (map fst fl) -> (forall k e, (k, e) ∈ fl -> flow_ok met k e) ->
  used met target sel payload allowed fl h (use_route op w now allowed target payload sel fl h task).2.
Proof using Type.
  intros Hm Hs Hn Hf. unfold use_route. destruct (flow_plan op w now target sel) as [p|] eqn:Ep.
  - apply use_flow_used; [|done|done]. by eapply flow_plan_ok.
  - split; cbn [us_flows us_heap us_new us_out snd]; [done|done| |by left|by left].
    intros ls. destruct sel as [d reason|d gr u ch lease reason]; [apply rtc_refl|]. destruct Hs as [_ ->]. apply pending_dropped.
Qed.
(** Responses of flows other than composed ones are for the target of the flow, those
    of a direct or SOCKS5 flow come from its peer. *)
Lemma flow_response_for met key e peer data t p : flow_ok met key e -> recv_response (fe_flow e) peer data = Some (t, p) ->
  match key, fe_flow e with
  | KComposed _ _, _ => True
  | KDirect target, Direct f => t = target /\ p = data /\ peer = tf_peer f
  | _, k => socks_addr_equivalent t (key_target key) = true /\ match k with Socks5Upstream f => peer = sf_relay_addr f | _ => True end
  end.
Proof using Type.
  unfold flow_ok, recv_response. destruct key as [x|x u|x u|x u], (fe_flow e) as [f|f|f|f]; try done.
  - intros [Ht _] Hr. case_bool_decide; [|done]. injection Hr as <- <-. done.
  - intros [Ht _] Hr. case_bool_decide; [|done]. cbn in Hr. destruct (decode_socks5_udp_datagram data) as [rq|?|]; [|done..].
    destruct (socks_addr_equivalent _ _) eqn:E; [|done]. injection Hr as <- <-. cbn [key_target]. rewrite <- Ht. done.
  - intros [Ht _] Hr. destruct (decode_udp_packet_with_ikm _ _ _) as [[rt rp]|?|]; [|done..]. cbv zeta in Hr.
    destruct (socks_addr_equivalent _ _) eqn:E; [|done]. injection Hr as <- <-. cbn [key_target]. rewrite <- Ht. done.
Qed.

(** Where a response comes from, by kind of flow: a direct one from the peer as it is, a
    single SOCKS5 one from the relay of the flow, for an equivalent target; a
    Shadowsocks one is an authentic packet under the key of the flow, for an equivalent
    target, from anywhere; a composed one is what the layers of the flow decode. *)
Definition response_from (key : UdpFlowKey) (k : UdpFlowKind) (peer : SocketAddr) (data : bytes) (t : SocksAddr) (p : bytes) : Prop :=
  match key, k with
  | KDirect target, Direct f => t = target /\ p = data /\ peer = tf_peer f
  | KSocks5Upstream target _, Socks5Upstream f => peer = sf_relay_addr f /\ socks_addr_equivalent t target = true /\
      exists r, decode_socks5_udp_datagram data = Ok r /\ t = ur_target r /\ p = ur_payload r
  | KShadowsocksUpstream target _, ShadowsocksUpstream f => socks_addr_equivalent t target = true /\
      exists rt, decode_udp_packet_with_ikm (xf_method f) (xf_password_ikm f) data = Ok (rt, p) /\ t = target_to_socks_addr rt
  | KComposed _ _, Composed f => mf_decode_response data f = Ok (t, p)
  | _, _ => False
  end.

Lemma flow_response_from met key e peer data t p :
  flow_ok met key e -> recv_response (fe_flow e) peer data = Some (t, p) -> response_from key (fe_flow e) peer data t p.
Proof using Type.
  unfold flow_ok, recv_response. destruct key as [x|x u|x u|x u], (fe_flow e) as [f|f|f|f]; try done.
  - intros [Ht _] Hr. case_bool_decide; [|done]. injection Hr as <- <-. done.
  - intros [Ht _] Hr. case_bool_decide; [|done]. cbn in Hr. destruct (decode_socks5_udp_datagram data) as [rq|?|] eqn:Ed; [|done..].
    destruct (socks_addr_equivalent _ _) eqn:E; [|done]. injection Hr as <- <-. rewrite Ht in E. cbn. rewrite Ed. eauto 6.
  - intros [Ht _] Hr. destruct (decode_udp_packet_with_ikm _ _ _) as [[rt rp]|?|] eqn:Ed; [|done..]. cbv zeta in Hr.
    destruct (socks_addr_equivalent _ _) eqn:E; [|done]. injection Hr as <- <-. rewrite Ht in E. cbn. rewrite Ed. eauto 6.
  - intros _ Hr. cbn. destruct (mf_decode_response data f) as [[a b]|?|]; [|done..]. by injection Hr as <- <-.
Qed.
End flow_facts.

Lemma steps_wf {Regex IpNet R} `{RandomIndexOk R} (r : Router Regex IpNet R) h h' l l' :
  rtc step (leases_are h l) (leases_are h' l') -> router_wf h r -> router_wf h' r.
Proof.
  intros Hs. apply router_wf_length. apply steps_shape in Hs. cbn [heap_of] in Hs. apply (f_equal length) in Hs. unfold shape in Hs.
  by rewrite !length_map in Hs.
Qed.

(** Routing as the relays see it. *)
Lemma route_selected {Regex IpNet R} `{RandomIndexOk R} (is_match : Regex -> bytes -> bool) (cidr_contains : IpNet -> IpAddr -> bool)
    (r : Router Regex IpNet R) h0 h q :
  router_wf h r -> shape h = shape h0 ->
  let '(res, r', h') := route is_match cidr_contains r h q in
  router_wf h' r' /\ res <> Panic /\
  match res with
  | Ok sel => selected_ok h0 sel /\ forall ls, rtc step (leases_are h ls) (leases_are h' (taken sel ++ ls))
  | _ => h' = h
  end.
Proof.
  intros Hwf Hsh. pose proof (route_lease is_match cidr_contains r h q Hwf) as Hl.
  destruct (route is_match cidr_contains r h q) as [[res r'] h']. destruct Hl as (Hwf' & Hnp & Hh). split; [done|]. split; [done|].
  destruct res as [[d reason|d gr up ch lease reason]|e|]; [|..|done|done].
  - subst h'. split; [done|]. intros. apply rtc_refl.
  - destruct Hh as (i & u & Hi & -> & -> & -> & ->). split.
    + split; [|done]. unfold configured. rewrite <- Hsh. apply list_elem_of_fmap. exists u. split; [done|]. by eapply list_elem_of_lookup_2.
    + intros ls. eapply rtc_l; [|apply rtc_refl]. apply lookup_lt_Some in Hi. exact (step_new i h ls Hi).
Qed.
