(* ===== verification/UdpRelay.v ===== *)
(** * The UDP relay of an association

    Models [crates/eggress-udp/src/relay.rs]: the task that serves a SOCKS5 UDP
    association.  A datagram of the client is decoded, validated, routed and sent on
    the flow of its target, which is opened on first use; responses of the flows are
    queued and sent to the client; idle flows are reaped; at the end everything is
    torn down.  The task is a state machine over events: what the sockets, the clock
    and other tasks do is part of the event.  Metrics are not modelled. *)

From S2P Require Import Prelude Bytes Decimal Stream Socks5 Socks5Udp NetAddr Connector Dispatch Uri Capability Chain Health Upstream Scheduler Matcher Router UdpSecurity UdpRegistry Shadowsocks UdpHop UdpUpstream UdpCapability UdpFlow UdpOpen.

Local Open Scope Z_scope.

(** ** The relay task *)

Record RelayConfig := {
  rc_limits : UdpLimits; rc_listener : bytes; rc_generation : Z; rc_identity : ClientIdentity; rc_client_tcp_peer : option SocketAddr;
  rc_allow_private_egress : bool; rc_upstream_connect_timeout : Z; rc_upstream_udp_bind : SocketAddr
}.

Record ResponseMsg := { rm_target : SocksAddr; rm_payload : bytes }.

Definition RESPONSE_CHANNEL_CAPACITY : nat := 256.

(** What became of the slot of a task that was aborted or panicked: its removal was
    spawned, or has run since; it was tried at once, outside of a runtime, while the
    lock was free or held elsewhere; or the guard was already disarmed. *)
Inductive guard_drop := RemovalSpawned | RemovalRan | RemovalTried (contended : bool) | GuardDisarmed.

(** [Removing]: everything is torn down, the guard is disarmed, and the task waits for
    the lock of the registry, to remove its association. *)
Inductive relay_phase := Running | Removing (result : outcome UdpError unit) | Ended (result : outcome UdpError unit) | Aborted (how : guard_drop).

Section relay.
Context {Regex IpNet R : Type} `{Hok : RandomIndexOk R}.
Context `{HCr : !Crypto}.
Context (is_match : Regex -> bytes -> bool) (cidr_contains : IpNet -> IpAddr -> bool).

(** Router, upstreams and registry are shared with other tasks; the association is
    the object of the registry's store at the identifier of the task.  The datagrams
    handed to the network and to clients, the flows created and what was torn down
    are recorded. *)
Record relay_state := {
  rs_router : Router Regex IpNet R; rs_heap : heap; rs_registry : Registry; rs_flows : flows; rs_queue : list ResponseMsg;
  rs_next_task : nat; rs_spawned : list TargetFlowEntry; rs_sent : list datagram; rs_answers : list datagram; rs_stopped : list teardown; rs_phase : relay_phase
}.

Definition with_net (router : Router Regex IpNet R) (h : heap) (s : relay_state) : relay_state :=
  {| rs_router := router; rs_heap := h; rs_registry := rs_registry s; rs_flows := rs_flows s; rs_queue := rs_queue s;
     rs_next_task := rs_next_task s; rs_spawned := rs_spawned s; rs_sent := rs_sent s; rs_answers := rs_answers s; rs_stopped := rs_stopped s; rs_phase := rs_phase s |}.
Definition with_registry (r : Registry) (s : relay_state) : relay_state :=
  {| rs_router := rs_router s; rs_heap := rs_heap s; rs_registry := r; rs_flows := rs_flows s; rs_queue := rs_queue s;
     rs_next_task := rs_next_task s; rs_spawned := rs_spawned s; rs_sent := rs_sent s; rs_answers := rs_answers s; rs_stopped := rs_stopped s; rs_phase := rs_phase s |}.
Definition with_flows (l : flows) (spawned : list TargetFlowEntry) (h : heap) (sent : list datagram) (s : relay_state) : relay_state :=
  {| rs_router := rs_router s; rs_heap := h; rs_registry := rs_registry s; rs_flows := l; rs_queue := rs_queue s;
     rs_next_task := (rs_next_task s + 3 * length spawned)%nat; rs_spawned := rs_spawned s ++ spawned; rs_sent := rs_sent s ++ sent; rs_answers := rs_answers s; rs_stopped := rs_stopped s; rs_phase := rs_phase s |}.
Definition with_queue (q : list ResponseMsg) (answers : list datagram) (s : relay_state) : relay_state :=
  {| rs_router := rs_router s; rs_heap := rs_heap s; rs_registry := rs_registry s; rs_flows := rs_flows s; rs_queue := q;
     rs_next_task := rs_next_task s; rs_spawned := rs_spawned s; rs_sent := rs_sent s; rs_answers := rs_answers s ++ answers; rs_stopped := rs_stopped s; rs_phase := rs_phase s |}.

Definition udp_request (cfg : RelayConfig) (client_addr : SocketAddr) (target : SocksAddr) : RouteRequest :=
  {| rq_target := socks_to_target_addr target; rq_source := Some client_addr; rq_listener := rc_listener cfg; rq_protocol := PSocks5;
     rq_identity := rc_identity cfg; rq_transport := Udp |}.

(** The configuration of a SOCKS5 upstream of the relay. *)
Definition upstream_config (cfg : RelayConfig) (upstream : bytes) (hop : ProxyHopSpec) : Socks5UdpUpstreamConfig :=
  {| uc_upstream_id := upstream; uc_hop := hop; uc_connect_timeout := rc_upstream_connect_timeout cfg;
     uc_udp_bind := rc_upstream_udp_bind cfg; uc_control_timeout := Some (target_idle_timeout (rc_limits cfg)) |}.

(** [format!("{}:{}", host, port).parse()]. *)
Definition parse_endpoint (ep : EndpointSpec) : outcome UdpError SocketAddr :=
  match parse_socket_addr (ep_host ep ++ str ":" ++ to_dec (ep_port ep)) with
  | Some (ip, p) => Ok {| sa_ip := ip; sa_port := p |}
  | None => Err InvalidShadowsocksUpstream
  end.

(** How this relay opens flows. *)
Definition relay_opening (cfg : RelayConfig) : opening :=
  {| op_bind := rc_upstream_udp_bind cfg; op_config := upstream_config cfg; op_ss_addr _ := parse_endpoint; op_early := false |}.

(** [flows.len() >= max && !flows.contains_key(&key)], negated. *)
Definition has_room (cfg : RelayConfig) (fl : flows) (key : UdpFlowKey) : bool :=
  negb ((max_targets_per_association (rc_limits cfg) <=? length fl)%nat && negb (contains_key key fl)).

Definition handle_client_datagram (cfg : RelayConfig) (w : udp_world) (now : Z) (packet : bytes) (client_addr : SocketAddr) (s : relay_state)
    : outcome UdpError unit * relay_state :=
  match decode_packet packet (rc_limits cfg) with
  | Panic => (Panic, s)
  | Err _ => (Ok tt, s)
  | Ok request =>
      let target := ur_target request in
      match validate_standalone_target target (rc_allow_private_egress cfg) with
      | Panic => (Panic, s)
      | Err _ => (Ok tt, s)
      | Ok _ =>
          let '(selected, router, h) := route is_match cidr_contains (rs_router s) (rs_heap s) (udp_request cfg client_addr target) in
          let s := with_net router h s in
          match selected with
          | Panic => (Panic, s)
          | Err _ => (Ok tt, s)
          | Ok selected =>
              let '(r, u) := use_route (relay_opening cfg) w now (has_room cfg (rs_flows s)) target (ur_payload request) selected
                               (rs_flows s) (rs_heap s) (rs_next_task s) in
              (r, with_flows (us_flows u) (us_new u) (us_heap u) (us_out u) s)
          end
      end
  end.

(** ** Reaping and the end *)

Definition stale_flow (now timeout : Z) (kv : UdpFlowKey * TargetFlowEntry) : bool :=
  negb (duration_since now (fe_last_activity kv.2) <? timeout).

(** [reap_idle_flows] of relay.rs. *)
Definition relay_reap (now timeout : Z) (s : relay_state) : relay_state :=
  let gone := filter (fun kv => stale_flow now timeout kv = true) (rs_flows s) in
  {| rs_router := rs_router s; rs_heap := drop_flows gone (rs_heap s); rs_registry := rs_registry s;
     rs_flows := filter (fun kv => stale_flow now timeout kv = false) (rs_flows s); rs_queue := rs_queue s; rs_next_task := rs_next_task s; rs_spawned := rs_spawned s;
     rs_sent := rs_sent s; rs_answers := rs_answers s; rs_stopped := rs_stopped s ++ mjoin (map (fun kv => shutdown_flow kv.2) gone);
     rs_phase := rs_phase s |}.

(** The flows go out of scope, each with its [Drop]. *)
Definition drop_all_flows (phase : relay_phase) (r : Registry) (s : relay_state) : relay_state :=
  {| rs_router := rs_router s; rs_heap := drop_flows (rs_flows s) (rs_heap s); rs_registry := r; rs_flows := []; rs_queue := [];
     rs_next_task := rs_next_task s; rs_spawned := rs_spawned s; rs_sent := rs_sent s; rs_answers := rs_answers s;
     rs_stopped := rs_stopped s ++ mjoin (map (fun kv => shutdown_flow kv.2) (rs_flows s)); rs_phase := phase |}.

(** Behind the loop, up to the first await: stop the tasks of the flows, close the
    association, disarm the guard.  The flows are still there, with their leases. *)
Definition relay_cleanup (id : Z) (result : outcome UdpError unit) (s : relay_state) : relay_state :=
  {| rs_router := rs_router s; rs_heap := rs_heap s; rs_registry := update id close (rs_registry s); rs_flows := rs_flows s; rs_queue := rs_queue s;
     rs_next_task := rs_next_task s; rs_spawned := rs_spawned s; rs_sent := rs_sent s; rs_answers := rs_answers s;
     rs_stopped := rs_stopped s ++ mjoin (map (fun kv => shutdown_flow kv.2) (rs_flows s)); rs_phase := Removing result |}.

(** [registry.remove(assoc_id).await] has the lock; the task returns. *)
Definition relay_removed (id : Z) (result : outcome UdpError unit) (s : relay_state) : relay_state :=
  drop_all_flows (Ended result) (remove id (rs_registry s)) s.

(** [RelayCleanupGuard::drop], when the task is aborted or panics before the guard is
    disarmed.  Within a runtime the removal is spawned; otherwise it is tried at once. *)
Definition relay_abort (id : Z) (runtime contended : bool) (s : relay_state) : relay_state :=
  let r := update id close (rs_registry s) in
  if runtime then drop_all_flows (Aborted RemovalSpawned) r s
  else drop_all_flows (Aborted (RemovalTried contended)) (try_remove_now contended id r).2 s.

(** The removal that the guard spawned has the lock; no flow is left to drop. *)
Definition spawned_removal (id : Z) (s : relay_state) : relay_state := drop_all_flows (Aborted RemovalRan) (remove id (rs_registry s)) s.

(** The task is aborted while it waits for the lock: the guard does nothing. *)
Definition relay_abort_disarmed (s : relay_state) : relay_state := drop_all_flows (Aborted GuardDisarmed) (rs_registry s) s.

(** ** Events *)

Inductive relay_event :=
| IdleTick (now : Z)
| CleanupTick (now : Z)
| ClientDatagram (now : Z) (w : udp_world) (data : bytes) (from : SocketAddr)
| RecvFailed (e : IoError)
| Respond (sent : answer unit)
| FlowDatagram (key : UdpFlowKey) (peer : SocketAddr) (data : bytes)
| Cancelled
| RegistryLocked
| Abort (runtime contended : bool).

(** A datagram longer than the receive buffer is cut. *)
Definition received (l : UdpLimits) (data : bytes) : bytes := take (max_datagram_size l) data.

Definition client_event (cfg : RelayConfig) (id : Z) (now : Z) (w : udp_world) (data : bytes) (from : SocketAddr) (s : relay_state) : relay_state :=
  let '(pinned, s) :=
    if client_pin (rc_limits cfg) then
      match store (rs_registry s) !! id with
      | Some a => ((pin_client_addr from a).1, with_registry (update id (fun a => (pin_client_addr from a).2) (rs_registry s)) s)
      | None => (Ok tt, s)
      end
    else (Ok tt, s) in
  match pinned with
  | Ok _ =>
      match handle_client_datagram cfg w now (received (rc_limits cfg) data) from s with
      | (Ok _, s) => with_registry (update id (touch now) (rs_registry s)) s
      | (Err _, s) => s
      | (Panic, s) => relay_abort id true false s
      end
  | _ => s
  end.

(** The next response goes to the client's address, when there is one. *)
Definition respond (id : Z) (sent : answer unit) (s : relay_state) : relay_state :=
  match rs_queue s with
  | [] => s
  | msg :: q =>
      match store (rs_registry s) !! id ≫= client_udp_addr with
      | Some client_addr =>
          match encode_socks5_udp_datagram (rm_target msg) (rm_payload msg), sent with
          | Ok response_buf, inl _ => with_queue q [{| dg_to := client_addr; dg_data := response_buf |}] s
          | _, _ => with_queue q [] s
          end
      | None => with_queue q [] s
      end
  end.

(** A receive task got a datagram on the socket of its flow. *)
Definition flow_event (key : UdpFlowKey) (peer : SocketAddr) (data : bytes) (s : relay_state) : relay_state :=
  match flow_get key (rs_flows s) with
  | Some e =>
      match recv_response (fe_flow e) peer data with
      | Some (t, p) =>
          if (length (rs_queue s) <? RESPONSE_CHANNEL_CAPACITY)%nat
          then with_queue (rs_queue s ++ [{| rm_target := t; rm_payload := p |}]) [] s else s
      | None => s
      end
  | None => s
  end.

Definition relay_step (cfg : RelayConfig) (id : Z) (s : relay_state) (ev : relay_event) : relay_state :=
  match rs_phase s with
  | Running =>
      match ev with
      | IdleTick now =>
          match store (rs_registry s) !! id with
          | Some a => if idle_timeout (rc_limits cfg) <=? duration_since now (last_activity a) then relay_cleanup id (Ok tt) s else s
          | None => s
          end
      | CleanupTick now => relay_reap now (target_idle_timeout (rc_limits cfg)) s
      | ClientDatagram now w data from => client_event cfg id now w data from s
      | RecvFailed e => relay_cleanup id (Err (UdpIo e)) s
      | Respond sent => respond id sent s
      | FlowDatagram key peer data => flow_event key peer data s
      | Cancelled => relay_cleanup id (Ok tt) s
      | RegistryLocked => s
      | Abort runtime contended => relay_abort id runtime contended s
      end
  | Removing result =>
      match ev with
      | RegistryLocked => relay_removed id result s
      | Abort _ _ => relay_abort_disarmed s
      | _ => s
      end
  | Aborted RemovalSpawned => match ev with RegistryLocked => spawned_removal id s | _ => s end
  | Ended _ | Aborted _ => s
  end.

Definition udp_relay_loop (cfg : RelayConfig) (id : Z) (evs : list relay_event) (s : relay_state) : relay_state :=
  fold_left (relay_step cfg id) evs s.

Definition relay_start (router : Router Regex IpNet R) (h : heap) (r : Registry) : relay_state :=
  {| rs_router := router; rs_heap := h; rs_registry := r; rs_flows := []; rs_queue := []; rs_next_task := 0; rs_spawned := []; rs_sent := [];
     rs_answers := []; rs_stopped := []; rs_phase := Running |}.
End relay.

Section relay_proofs.
Context {Regex IpNet R : Type} `{Hok : RandomIndexOk R}.
Context `{HCr : !Crypto}.
Context (is_match : Regex -> bytes -> bool) (cidr_contains : IpNet -> IpAddr -> bool).
Context (cfg : RelayConfig) (id : Z) (h0 : heap).
Abbreviation state := (relay_state (Regex:=Regex) (IpNet:=IpNet) (R:=R)).

(** The network answered as [w] at a datagram of the client. *)
Definition met (evs : list relay_event) (w : udp_world) : Prop := exists now data from, ClientDatagram now w data from ∈ evs.

(** The flows of this relay: opened at datagrams of the client. *)
Definition relay_flow (evs : list relay_event) (key : UdpFlowKey) (e : TargetFlowEntry) : Prop := flow_ok (relay_opening cfg) h0 (met evs) key e.

Lemma relay_flow_mono evs ev k e : relay_flow evs k e -> relay_flow (evs ++ [ev]) k e.
Proof using Type.
  apply flow_ok_mono. intros w (now & data & from & Hin). exists now, data, from. apply elem_of_app. by left.
Qed.

(** ** The table of flows *)

Record table_inv (evs : list relay_event) (s : state) : Prop := {
  tv_nodup : NoDup (map fst (rs_flows s));
  tv_limit : (length (rs_flows s) <= max_targets_per_association (rc_limits cfg))%nat;
  tv_flows : forall k e, (k, e) ∈ rs_flows s -> relay_flow evs k e;
  tv_spawned : forall e, e ∈ rs_spawned s ->
    (forall t, t ∈ shutdown_flow e -> t ∈ rs_stopped s) \/ exists k e', (k, e') ∈ rs_flows s /\ shutdown_flow e' = shutdown_flow e
}.

(** Nothing but flows, upstreams and what was sent may change in handling a datagram. *)
Definition rest_same (s s' : state) : Prop :=
  rs_registry s' = rs_registry s /\ rs_queue s' = rs_queue s /\ rs_answers s' = rs_answers s /\ rs_stopped s' = rs_stopped s /\ rs_phase s' = rs_phase s.

Lemma table_same evs s s' : table_inv evs s -> rs_flows s' = rs_flows s -> rs_spawned s' = rs_spawned s -> rs_stopped s' = rs_stopped s -> table_inv evs s'.
Proof using Type. intros [] E1 E2 E3. split; rewrite ?E1, ?E2, ?E3; auto. Qed.


(** ** Handling a datagram of the client *)

(** The datagrams [l] are justified by a packet of the client: there is at most one,
    and it carries the payload of the packet, whose target is valid and was routed,
    on the flow of that route. *)
Definition justified (evs : list relay_event) (from : SocketAddr) (packet : bytes) (s : state) (l : list datagram) : Prop :=
  l = [] \/ exists request sel key e d,
    decode_packet packet (rc_limits cfg) = Ok request /\
    validate_standalone_target (ur_target request) (rc_allow_private_egress cfg) = Ok tt /\
    (route is_match cidr_contains (rs_router s) (rs_heap s) (udp_request cfg from (ur_target request))).1.1 = Ok sel /\
    route_key (ur_target request) sel = Some key /\ l = [d] /\ relay_flow evs key e /\ sends key e (ur_payload request) d.

(** What a change of the flows leaves intact: the table, the router and, up to the
    leases of the flows, the upstreams. *)
Definition moved (evs : list relay_event) (s s' : state) : Prop :=
  table_inv evs s' /\ rest_same s s' /\ router_wf (rs_heap s') (rs_router s') /\
  forall ls, rtc step (leases_are (rs_heap s) (held (rs_flows s) ++ ls)) (leases_are (rs_heap s') (held (rs_flows s') ++ ls)).

Lemma moved_refl evs s : table_inv evs s -> router_wf (rs_heap s) (rs_router s) -> moved evs s s.
Proof using Type. intros Ht Hw. split; [done|]. split; [done|]. split; [done|]. intros. apply rtc_refl. Qed.

Lemma table_used evs s (u : usage) sel target payload router h :
  table_inv evs s -> used (relay_opening cfg) h0 (met evs) target sel payload (has_room cfg (rs_flows s)) (rs_flows s) h u ->
  table_inv evs (with_flows (us_flows u) (us_new u) (us_heap u) (us_out u) (with_net router h s)).
Proof using Type.
  intros [Hn Hl Hf Hs] [Un Uf _ Ut _]. split; cbn [rs_flows with_flows with_net rs_spawned rs_stopped]; [done| |done|].
  - destruct Ut as [(_ & Hk & _)|(key & e & _ & -> & Hc & Ha)].
    + assert (length (us_flows u) = length (rs_flows s)) as -> by (by rewrite <- (length_map fst), Hk, length_map). done.
    + unfold has_room in Ha. rewrite Hc in Ha. cbn [negb andb length] in *. rewrite andb_true_r in Ha. apply negb_true_iff, Nat.leb_gt in Ha. lia.
  - intros e He. apply elem_of_app in He as [He|He].
    + destruct (Hs e He) as [Hst|(k & x & Hx & Hxe)]; [by left|right]. destruct Ut as [(_ & _ & Hsd)|(key & y & _ & -> & _)].
      * assert (shutdown_flow e ∈ shutdowns (us_flows u)) as Hin by (rewrite Hsd, <- Hxe; apply list_elem_of_fmap; by exists (k, x)).
        apply list_elem_of_fmap in Hin as ([k' x'] & Hx' & Hin). by exists k', x'.
      * exists k, x. split; [|done]. apply elem_of_cons. by right.
    + destruct Ut as [(Hnew & _)|(key & y & Hnew & -> & _)]; rewrite Hnew in He; [by apply not_elem_of_nil in He|].
      apply list_elem_of_singleton in He as ->. right. exists key, y. split; [apply list_elem_of_here|done].
Qed.

Lemma handle_spec evs w now packet from (s : state) :
  table_inv evs s -> router_wf (rs_heap s) (rs_router s) -> shape (rs_heap s) = shape h0 -> met evs w ->
  let '(r, s') := handle_client_datagram is_match cidr_contains cfg w now packet from s in
  moved evs s s' /\ exists l, rs_sent s' = rs_sent s ++ l /\ justified evs from packet s l.
Proof using Hok.
  intros Ht Hwf Hsh Hmet. pose proof (moved_refl evs s Ht Hwf) as Hid.
  assert (exists l, rs_sent s = rs_sent s ++ l /\ justified evs from packet s l) as Hnone.
  { exists []. split; [by rewrite app_nil_r|by left]. }
  unfold handle_client_datagram. destruct (decode_packet packet (rc_limits cfg)) as [rq|e|] eqn:Ed; [|done..]. cbv zeta.
  destruct (validate_standalone_target _ _) as [[]|e|] eqn:Ev; [|done..].
  pose proof (route_selected is_match cidr_contains (rs_router s) h0 (rs_heap s) (udp_request cfg from (ur_target rq)) Hwf Hsh) as Hl.
  destruct (route is_match cidr_contains (rs_router s) (rs_heap s) (udp_request cfg from (ur_target rq))) as [[sel router] h] eqn:Er.
  destruct Hl as (Hwf' & Hnp & Hh). destruct sel as [sel|e|]; [| |done].
  - destruct Hh as [Hsel Hst].
    pose proof (use_route_used (relay_opening cfg) h0 (met evs) w now (ur_target rq) sel (has_room cfg (rs_flows s)) (ur_payload rq) (rs_flows s) h
      (rs_next_task s) Hmet Hsel (tv_nodup _ _ Ht) (tv_flows _ _ Ht)) as Hu. cbn [with_net rs_flows rs_heap rs_next_task].
    destruct (use_route _ _ _ _ _ _ _ _ _ _) as [r u]. cbn [snd] in Hu. split.
    + split; [by eapply table_used|]. split; [done|]. pose proof (ud_leases _ _ _ _ _ _ _ _ _ _ Hu) as Hls. split.
      * cbn [with_flows with_net rs_heap rs_router]. by eapply steps_wf; [apply (Hls [])|].
      * intros ls. cbn [with_flows with_net rs_heap rs_flows]. etransitivity; [apply Hst|apply Hls].
    + exists (us_out u). split; [done|]. destruct (ud_out _ _ _ _ _ _ _ _ _ _ Hu) as [Ho|(key & e & d & Hk & Ho & Hf & Hsd)]; [by left|right].
      exists rq, sel, key, e, d. rewrite Er. auto 10.
  - subst h. split; [|exact Hnone]. split; [by apply (table_same evs s)|]. split; [done|]. split; [exact Hwf'|]. intros. apply rtc_refl.
Qed.

(** ** The relay in every state it reaches *)

(** A queued response is what a receive task made of a datagram on its flow. *)
Definition response_ok (evs : list relay_event) (m : ResponseMsg) : Prop :=
  exists key e peer data, FlowDatagram key peer data ∈ evs /\ relay_flow evs key e /\ recv_response (fe_flow e) peer data = Some (rm_target m, rm_payload m).

(** A datagram to the client goes to its address and carries such a response. *)
Definition answer_ok (evs : list relay_event) (s : state) (d : datagram) : Prop :=
  exists a m, store (rs_registry s) !! id = Some a /\ client_udp_addr a = Some (dg_to d) /\
    encode_socks5_udp_datagram (rm_target m) (rm_payload m) = Ok (dg_data d) /\ response_ok evs m.

(** A task behind its loop: its association is closed and all the tasks it ever
    spawned are stopped. *)
Definition torn_down (s : state) : Prop :=
  (exists a, store (rs_registry s) !! id = Some a /\ is_open a = false) /\
  (forall e t, e ∈ rs_spawned s -> t ∈ shutdown_flow e -> t ∈ rs_stopped s).

(** In which phases the association may still be registered. *)
Definition may_be_registered (ph : relay_phase) : bool :=
  match ph with
  | Running | Removing _ | Aborted (RemovalSpawned | RemovalTried true | GuardDisarmed) => true
  | Ended _ | Aborted (RemovalRan | RemovalTried false) => false
  end.

(** The task runs, or waits for the lock. *)
Definition alive (ph : relay_phase) : bool := match ph with Running | Removing _ => true | _ => false end.

Record over (s : state) : Prop := {
  ov_down : rs_phase s <> Running -> torn_down s;
  ov_flows : alive (rs_phase s) = false -> rs_flows s = [];
  ov_slot : id ∈ registered (rs_registry s) -> may_be_registered (rs_phase s) = true
}.

Record relay_inv (evs : list relay_event) (s : state) : Prop := {
  vi_table : table_inv evs s;
  vi_wf : router_wf (rs_heap s) (rs_router s);
  vi_leases : forall ls, rtc step (leases_are h0 ls) (leases_are (rs_heap s) (held (rs_flows s) ++ ls));
  vi_capacity : (length (rs_queue s) <= RESPONSE_CHANNEL_CAPACITY)%nat;
  vi_queue : forall m, m ∈ rs_queue s -> response_ok evs m;
  vi_assoc : is_Some (store (rs_registry s) !! id);
  vi_answers : forall d, d ∈ rs_answers s -> answer_ok evs s d;
  vi_over : over s
}.

Lemma over_running s : rs_phase s = Running -> over s.
Proof using Type. intros E. split; rewrite E; done. Qed.

Lemma response_mono evs ev m : response_ok evs m -> response_ok (evs ++ [ev]) m.
Proof using Type.
  intros (key & e & peer & data & Hin & Hf & Hr). exists key, e, peer, data. split; [apply elem_of_app; by left|]. split; [by apply relay_flow_mono|done].
Qed.

Lemma relay_inv_mono evs ev s : relay_inv evs s -> relay_inv (evs ++ [ev]) s.
Proof using Type.
  intros [[] Hwf Hl Hc Hq Ha Hd Ho]. split; try done.
  - split; try done. intros k e Hin. by apply relay_flow_mono, tv_flows0.
  - intros m Hm. by apply response_mono, Hq.
  - intros d Hin. destruct (Hd d Hin) as (a & m & H1 & H2 & H3 & H4). exists a, m. split; [done|]. split; [done|]. split; [done|]. by apply response_mono.
Qed.

(** The association keeps what no step can undo. *)
Definition evolves (r r' : Registry) : Prop :=
  forall a, store r !! id = Some a -> exists b, store r' !! id = Some b /\ settled a b.

Lemma evolves_update f r : (forall a, settled a (f a)) -> evolves r (update id f r).
Proof using Type. intros Hf a Ha. by apply update_settled. Qed.

Lemma answer_evolves evs (s s' : state) d : evolves (rs_registry s) (rs_registry s') -> answer_ok evs s d -> answer_ok evs s' d.
Proof using Type.
  intros He (a & m & Ha & Hc & Hr). destruct (He a Ha) as (b & Hb & (Hs & _)). exists b, m. split; [exact Hb|]. split; [by apply Hs|exact Hr].
Qed.

Lemma inv_registry evs s r : relay_inv evs s -> rs_phase s = Running -> evolves (rs_registry s) r -> relay_inv evs (with_registry r s).
Proof using Type.
  intros [Ht Hwf Hl Hc Hq [a Ha] Hd Ho] Hp He. split; cbn [with_registry rs_router rs_heap rs_registry rs_flows rs_queue rs_answers rs_phase]; try done.
  - by apply (table_same evs s).
  - destruct (He a Ha) as (b & -> & _). by eexists.
  - intros d Hin. by apply (answer_evolves evs s); [|apply Hd].
  - by apply over_running.
Qed.

Lemma inv_moved evs s s' : relay_inv evs s -> rs_phase s = Running -> moved evs s s' -> relay_inv evs s'.
Proof using Type.
  intros [Ht Hwf Hl Hc Hq Ha Hd Ho] Hp (Ht' & (E1 & E2 & E3 & E4 & E5) & Hwf' & Hm). split; rewrite ?E1, ?E2, ?E3, ?E5; try done.
  - intros ls. etransitivity; [apply Hl|apply Hm].
  - intros d Hin. destruct (Hd d Hin) as (a & m & H1 & H2). exists a, m. rewrite E1. by split.
  - apply over_running. congruence.
Qed.

Lemma shutdown_in (l : flows) k e t : (k, e) ∈ l -> t ∈ shutdown_flow e -> t ∈ mjoin (map (fun kv => shutdown_flow kv.2) l).
Proof using Type. intros Hin Ht. apply list_elem_of_join. exists (shutdown_flow e). split; [done|]. apply list_elem_of_fmap. by exists (k, e). Qed.

Lemma inv_reap evs s now t : relay_inv evs s -> rs_phase s = Running -> relay_inv evs (relay_reap now t s).
Proof using Type.
  intros [[] Hwf Hl Hc Hq Ha Hd Ho] Hp.
  assert (forall ls, rtc step (leases_are (rs_heap s) (held (rs_flows s) ++ ls))
    (leases_are (rs_heap (relay_reap now t s)) (held (rs_flows (relay_reap now t s)) ++ ls))) as Hst.
  { intros ls. exact (drop_held (stale_flow now t) ls (rs_flows s) (rs_heap s) []). }
  split; cbn [relay_reap rs_router rs_registry rs_queue rs_answers rs_phase]; try done.
  - split; cbn [relay_reap rs_flows rs_spawned rs_stopped].
    + eapply sublist_NoDup; [exact tv_nodup0|]. apply (fmap_sublist fst), sublist_filter.
    + etransitivity; [apply length_filter|done].
    + intros k e [_ Hin]%list_elem_of_filter. by apply tv_flows0.
    + intros e He. destruct (tv_spawned0 e He) as [Hs|(k & e' & Hin & Hs)]; [left; intros; apply elem_of_app; auto|].
      destruct (stale_flow now t (k, e')) eqn:E; [left|right].
      * intros x Hx. apply elem_of_app. right. apply (shutdown_in _ k e'); [by apply list_elem_of_filter|by rewrite Hs].
      * exists k, e'. split; [by apply list_elem_of_filter|done].
  - eapply steps_wf; [apply (Hst [])|done].
  - intros ls. etransitivity; [apply Hl|apply Hst].
  - by apply over_running.
Qed.

(** Tearing down the flows of the table stops every task that still ran. *)
Lemma stops_all evs s : table_inv evs s -> forall e t, e ∈ rs_spawned s -> t ∈ shutdown_flow e ->
  t ∈ rs_stopped s ++ mjoin (map (fun kv => shutdown_flow kv.2) (rs_flows s)).
Proof using Type.
  intros [] e x Hin Hx. apply elem_of_app. destruct (tv_spawned0 e Hin) as [Hs|(k & e' & Hin' & Hs)]; [auto|right].
  apply (shutdown_in _ k e'); [done|by rewrite Hs].
Qed.

Lemma inv_drop_all evs s ph r : relay_inv evs s -> evolves (rs_registry s) r -> alive ph = false ->
  (exists a, store r !! id = Some a /\ is_open a = false) -> (id ∈ registered r -> may_be_registered ph = true) ->
  relay_inv evs (drop_all_flows ph r s).
Proof using Type.
  intros [Ht Hwf Hl Hc Hq Ha Hd Ho] He Hal Hcl Hreg. pose proof (stops_all evs s Ht) as Hall. destruct Ht.
  assert (forall ls, rtc step (leases_are (rs_heap s) (held (rs_flows s) ++ ls)) (leases_are (drop_flows (rs_flows s) (rs_heap s)) ls)) as Hst
    by (intros ls; apply drop_held_all).
  split; cbn [drop_all_flows rs_router rs_registry rs_queue rs_answers rs_phase rs_heap rs_flows held map mjoin list_join]; try done.
  - split; cbn [drop_all_flows rs_flows rs_spawned rs_stopped map length]; [constructor|lia|by intros ?? ?%not_elem_of_nil|].
    intros e Hin. left. intros x. by apply Hall.
  - eapply steps_wf; [apply (Hst [])|done].
  - intros ls. etransitivity; [apply Hl|apply Hst].
  - apply Nat.le_0_l.
  - by intros ? ?%not_elem_of_nil.
  - destruct Hcl as (a & -> & _). by eexists.
  - intros d Hin. by apply (answer_evolves evs s); [|apply Hd].
Qed.

Lemma close_closes r : is_Some (store r !! id) -> exists a, store (update id close r) !! id = Some a /\ is_open a = false.
Proof using Type.
  intros [a Ha]. exists (close a). cbn [update store]. rewrite lookup_alter_eq, Ha. split; [done|]. unfold close, is_open. by destruct (UdpRegistry.open a) eqn:E.
Qed.

Lemma inv_cleanup evs s res : relay_inv evs s -> relay_inv evs (relay_cleanup id res s).
Proof using Type.
  intros [Ht Hwf Hl Hc Hq Ha Hd Ho]. pose proof (stops_all evs s Ht) as Hall.
  assert (evolves (rs_registry s) (update id close (rs_registry s))) as He by (apply evolves_update, settled_close).
  split; cbn [relay_cleanup rs_router rs_registry rs_queue rs_answers rs_phase rs_heap rs_flows]; try done.
  - destruct Ht. split; cbn [relay_cleanup rs_flows rs_spawned rs_stopped]; [done..|]. intros e Hin. left. intros x. by apply Hall.
  - destruct (close_closes _ Ha) as (a & -> & _). by eexists.
  - intros d Hin. by apply (answer_evolves evs s); [|apply Hd].
  - split; cbn [relay_cleanup rs_phase alive]; [|done..]. intros _. split; [by apply (close_closes (rs_registry s))|done].
Qed.

Lemma evolves_refl r : evolves r r.
Proof using Type. intros a Ha. by exists a. Qed.

Lemma inv_removed evs s res : relay_inv evs s -> rs_phase s = Removing res -> relay_inv evs (relay_removed id res s).
Proof using Type.
  intros Hi Hp. destruct (ov_down s (vi_over evs s Hi)) as [Hcl _]; [by rewrite Hp|].
  apply inv_drop_all; [done|apply (evolves_refl (rs_registry s))|done|exact Hcl|cbn; set_solver].
Qed.

Lemma inv_spawned_removal evs s : relay_inv evs s -> rs_phase s = Aborted RemovalSpawned -> relay_inv evs (spawned_removal id s).
Proof using Type.
  intros Hi Hp. destruct (ov_down s (vi_over evs s Hi)) as [Hcl _]; [by rewrite Hp|].
  apply inv_drop_all; [done|apply (evolves_refl (rs_registry s))|done|exact Hcl|cbn; set_solver].
Qed.

Lemma inv_abort_disarmed evs s res : relay_inv evs s -> rs_phase s = Removing res -> relay_inv evs (relay_abort_disarmed s).
Proof using Type.
  intros Hi Hp. destruct (ov_down s (vi_over evs s Hi)) as [Hcl _]; [by rewrite Hp|]. apply inv_drop_all; [done|apply evolves_refl|done|exact Hcl|done].
Qed.

Lemma inv_abort evs s rt ct : relay_inv evs s -> relay_inv evs (relay_abort id rt ct s).
Proof using Type.
  intros Hi. unfold relay_abort. cbv zeta.
  assert (store (try_remove_now ct id (update id close (rs_registry s))).2 = store (update id close (rs_registry s))) as Hst by (destruct ct; reflexivity).
  pose proof (close_closes (rs_registry s) (vi_assoc evs s Hi)) as Hcl. pose proof (evolves_update close (rs_registry s) settled_close) as He.
  destruct rt; apply inv_drop_all; try done.
  - intros a Ha. rewrite Hst. by apply He.
  - by rewrite Hst.
  - destruct ct; [done|cbn; set_solver].
Qed.

Lemma inv_respond evs s sent : relay_inv evs s -> rs_phase s = Running -> relay_inv evs (respond id sent s).
Proof using Type.
  intros Hi Hp. unfold respond. destruct (rs_queue s) as [|m q] eqn:Eq; [done|].
  assert (forall l, (forall d, d ∈ l -> answer_ok evs s d) -> relay_inv evs (with_queue q l s)) as Hl.
  { destruct Hi as [Ht Hwf Hl Hc Hq Ha Hd Ho]. rewrite Eq in Hc, Hq.
    intros l Hl'. split; cbn [with_queue rs_router rs_heap rs_registry rs_flows rs_queue rs_answers rs_phase]; try done.
    - by apply (table_same evs s).
    - cbn [length] in Hc. lia.
    - intros x Hx. apply Hq, elem_of_cons. by right.
    - intros d [Hin|Hin]%elem_of_app; [by apply Hd|by apply Hl'].
    - by apply over_running. }
  assert (relay_inv evs (with_queue q [] s)) as H0 by (apply Hl; by intros ? ?%not_elem_of_nil).
  destruct (store (rs_registry s) !! id ≫= client_udp_addr) as [addr|] eqn:Ec; [|done]. apply bind_Some in Ec as (a & Ea & Ec).
  destruct (encode_socks5_udp_datagram _ _) as [buf|?|] eqn:Ee; [|done..]. destruct sent; [|done].
  apply Hl. intros d ->%list_elem_of_singleton. exists a, m. split; [done|]. split; [done|]. split; [done|].
  apply (vi_queue evs s Hi). rewrite Eq. apply list_elem_of_here.
Qed.

Lemma inv_flow_event evs s key peer data : relay_inv evs s -> rs_phase s = Running -> FlowDatagram key peer data ∈ evs ->
  relay_inv evs (flow_event key peer data s).
Proof using Type.
  intros Hi Hp Hin. unfold flow_event. destruct (flow_get key (rs_flows s)) as [e|] eqn:Eg; [|done].
  destruct (recv_response (fe_flow e) peer data) as [[t p]|] eqn:Er; [|done]. destruct (Nat.ltb_spec (length (rs_queue s)) RESPONSE_CHANNEL_CAPACITY); [|done].
  pose proof (tv_flows evs s (vi_table evs s Hi) key e (flow_get_elem _ _ _ Eg)) as Hf.
  destruct Hi as [Ht Hwf Hl Hc Hq Ha Hd Ho]. split; cbn [with_queue rs_router rs_heap rs_registry rs_flows rs_queue rs_answers rs_phase]; try done.
  - by apply (table_same evs s).
  - rewrite length_app. cbn [length]. lia.
  - intros m [Hm|Hm%list_elem_of_singleton]%elem_of_app; [by apply Hq|]. subst m. by exists key, e, peer, data.
  - intros d Hd'. rewrite app_nil_r in Hd'. by apply Hd.
  - by apply over_running.
Qed.

(** Handling a datagram of the client: the invariant, what was sent, and who sent it. *)
Lemma client_event_spec evs now w data from s : relay_inv evs s -> rs_phase s = Running -> met evs w ->
  let s' := client_event is_match cidr_contains cfg id now w data from s in
  relay_inv evs s' /\ exists l, rs_sent s' = rs_sent s ++ l /\ justified evs from (received (rc_limits cfg) data) s l /\
    (client_pin (rc_limits cfg) = true -> l <> [] -> exists a, store (rs_registry s') !! id = Some a /\ client_udp_addr a = Some from).
Proof using Hok.
  intros Hi Hp Hm. unfold client_event. cbv zeta.
  set (pin := if client_pin (rc_limits cfg) then _ else _).
  assert (exists res r', pin = (res, with_registry r' s) /\ evolves (rs_registry s) r' /\
    (client_pin (rc_limits cfg) = true -> res = Ok tt -> exists a, store r' !! id = Some a /\ client_udp_addr a = Some from)) as (res & r' & -> & Hev & Hpin).
  { subst pin. destruct (client_pin (rc_limits cfg)); [|exists (Ok tt), (rs_registry s); split; [by destruct s|]; split; [|done]; intros a Ha; by exists a].
    destruct (vi_assoc evs s Hi) as [a Ha]. rewrite Ha. eexists _, _. split; [reflexivity|]. split; [apply evolves_update; apply settled_pin|].
    intros _ Hres. exists (pin_client_addr from a).2. cbn [update store]. rewrite lookup_alter_eq, Ha. split; [done|].
    unfold pin_client_addr in *. destruct (client_udp_addr a) as [x|] eqn:Ex; [|done]. destruct (bool_decide (x = from)) eqn:Hx; cbn in *; [apply bool_decide_eq_true in Hx; congruence|done]. }
  assert (relay_inv evs (with_registry r' s)) as Hi1 by by apply inv_registry.
  destruct res as [[]|e|]; [|split; [done|]; exists []; cbn; rewrite app_nil_r; split; [done|]; split; [by left|done]..].
  pose proof (handle_spec evs w now (received (rc_limits cfg) data) from (with_registry r' s) (vi_table _ _ Hi1) (vi_wf _ _ Hi1)) as Hh.
  destruct (handle_client_datagram _ _ _ _ _ _ _ _) as [res s1]. destruct Hh as (Hmv & l & Hs & Hj); [|done|].
  { pose proof (steps_shape _ _ (vi_leases _ _ Hi1 [])) as Hsh. exact Hsh. }
  assert (relay_inv evs s1) as Hi2 by (eapply (inv_moved evs (with_registry r' s)); done).
  assert (rs_registry s1 = r') as Hreg by apply Hmv. assert (rs_phase s1 = Running) as Hp1 by (destruct Hmv as (_ & (_ & _ & _ & _ & E) & _); by rewrite E).
  assert (forall r2, evolves (rs_registry s1) r2 -> client_pin (rc_limits cfg) = true -> l <> [] -> exists a, store r2 !! id = Some a /\ client_udp_addr a = Some from) as Hkeep.
  { intros r2 Hr2 Hc _. destruct (Hpin Hc eq_refl) as (a & Ha & Hca). rewrite Hreg in Hr2. destruct (Hr2 a Ha) as (b & Hb & (Hsb & _)). exists b. split; [done|]. by apply Hsb. }
  destruct res as [[]|e|].
  - split; [apply inv_registry; [done|done|by apply evolves_update]|]. exists l. split; [exact Hs|]. split; [exact Hj|]. apply Hkeep. by apply evolves_update.
  - split; [done|]. exists l. split; [exact Hs|]. split; [exact Hj|]. apply Hkeep. intros a Ha. by exists a.
  - split; [by apply inv_abort|]. exists l. split; [exact Hs|]. split; [exact Hj|]. apply Hkeep. apply (evolves_update close), settled_close.
Qed.

Lemma relay_step_inv evs s ev : relay_inv evs s -> relay_inv (evs ++ [ev]) (relay_step is_match cidr_contains cfg id s ev).
Proof using Hok.
  intros Hi%(relay_inv_mono evs ev). assert (ev ∈ evs ++ [ev]) as Hin by (apply elem_of_app; right; apply list_elem_of_here).
  unfold relay_step. destruct (rs_phase s) as [|res|res|[]] eqn:Hp; [destruct ev|destruct ev; try done|done|destruct ev; try done|done..].
  - destruct (store (rs_registry s) !! id); [|done]. case_match; [by apply inv_cleanup|done].
  - by apply inv_reap.
  - apply client_event_spec; [done|done|]. by exists now, data, from.
  - by apply inv_cleanup.
  - by apply inv_respond.
  - by apply inv_flow_event.
  - by apply inv_cleanup.
  - done.
  - by apply inv_abort.
  - by apply inv_removed.
  - by apply (inv_abort_disarmed _ _ res).
  - by apply inv_spawned_removal.
Qed.

Lemma relay_start_inv router r : router_wf h0 router -> is_Some (store r !! id) -> relay_inv [] (relay_start router h0 r).
Proof using Type.
  intros Hwf Ha. split; cbn [relay_start rs_router rs_heap rs_registry rs_flows rs_queue rs_answers rs_phase]; try done.
  - split; cbn; [constructor|lia|by intros ?? ?%not_elem_of_nil|by intros ? ?%not_elem_of_nil].
  - apply Nat.le_0_l.
  - by intros ? ?%not_elem_of_nil.
  - by intros ? ?%not_elem_of_nil.
Qed.

Lemma relay_loop_inv evs0 evs : forall s, relay_inv evs0 s -> relay_inv (evs0 ++ evs) (udp_relay_loop is_match cidr_contains cfg id evs s).
Proof using Hok.
  revert evs0. induction evs as [|ev evs IH]; intros evs0 s Hi; [by rewrite app_nil_r|].
  cbn [udp_relay_loop fold_left]. replace (evs0 ++ ev :: evs) with ((evs0 ++ [ev]) ++ evs) by by rewrite <- app_assoc.
  apply IH. by apply relay_step_inv.
Qed.

(** ** Properties *)

Abbreviation run router r evs := (udp_relay_loop is_match cidr_contains cfg id evs (relay_start router h0 r)).

(** C27. The relay of an association contacts nobody on its own account.  Whatever
    happened before, only a datagram of the client makes it send, at most one
    datagram, and, where clients are pinned, only for the client address the
    association is pinned to.  What it sends carries exactly the client's payload for
    a target that passed the target policy and was routed; it goes out on the flow of
    that route and target: directly to the address the target resolved to, or to the
    relay of the configured upstream in its encoding. *)
Theorem udp_relay_forwards router r evs ev :
  router_wf h0 router -> is_Some (store r !! id) ->
  let s := run router r evs in
  let s' := run router r (evs ++ [ev]) in
  exists l, rs_sent s' = rs_sent s ++ l /\
  match ev with
  | ClientDatagram now w data from =>
      justified (evs ++ [ev]) from (received (rc_limits cfg) data) s l /\
      (client_pin (rc_limits cfg) = true -> l <> [] -> exists a, store (rs_registry s') !! id = Some a /\ client_udp_addr a = Some from)
  | _ => l = []
  end.
Proof using Hok.
  intros Hwf Ha. cbv zeta. unfold udp_relay_loop at 1. rewrite fold_left_app. fold (run router r evs). cbn [fold_left].
  pose proof (relay_loop_inv [] evs (relay_start router h0 r) (relay_start_inv router r Hwf Ha)) as Hi. cbn [app] in Hi.
  assert (run router r (evs ++ [ev]) = relay_step is_match cidr_contains cfg id (run router r evs) ev) as Hrun
    by (unfold udp_relay_loop; by rewrite fold_left_app). rewrite Hrun. clear Hrun. set (s := run router r evs) in *. clearbody s.
  assert (rs_sent s = rs_sent s ++ []) as Hnil by by rewrite app_nil_r.
  unfold relay_step. destruct (rs_phase s) as [|res|res|[]] eqn:Hp; [|exists []; destruct ev; split; try done; (split; [by left|done])..].
  destruct ev as [now|now|now w data from|e|sent|key peer data| | |rt ct].
  - exists []. split; [|done]. destruct (store (rs_registry s) !! id); [|done]. by destruct (_ <=? _).
  - by exists [].
  - destruct (client_event_spec (evs ++ [ClientDatagram now w data from]) now w data from s) as (_ & l & Hs & Hj & Hk).
    + by apply relay_inv_mono.
    + done.
    + exists now, data, from. apply elem_of_app. right. apply list_elem_of_here.
    + exists l. split; [exact Hs|]. split; [exact Hj|exact Hk].
  - by exists [].
  - exists []. split; [|done]. unfold respond. destruct (rs_queue s); [done|]. destruct (_ ≫= _); [|done].
    destruct (encode_socks5_udp_datagram _ _); [|done..]. by destruct sent.
  - exists []. split; [|done]. unfold flow_event. destruct (flow_get key _); [|done]. destruct (recv_response _ _ _) as [[]|]; [|done]. by destruct (_ <? _)%nat.
  - by exists [].
  - by exists [].
  - exists []. by destruct rt.
Qed.

(** A task that is over has no flow, and no lease. *)
Definition given_back (s : state) : Prop := rs_flows s = [] /\ forall ls, rtc step (leases_are h0 ls) (leases_are (rs_heap s) ls).

Lemma relay_run_snoc router r evs ev : run router r (evs ++ [ev]) = relay_step is_match cidr_contains cfg id (run router r evs) ev.
Proof using Type. unfold udp_relay_loop. by rewrite fold_left_app. Qed.

Lemma handle_phase w now packet from (s : state) : rs_phase (handle_client_datagram is_match cidr_contains cfg w now packet from s).2 = rs_phase s.
Proof using Type.
  unfold handle_client_datagram. destruct (decode_packet _ _) as [rq|?|]; [|done..]. cbv zeta. destruct (validate_standalone_target _ _); [|done..].
  destruct (route _ _ _ _ _) as [[sel router] h]. destruct sel as [sel|?|]; [|done..]. by destruct (use_route _ _ _ _ _ _ _ _ _ _).
Qed.

Lemma client_event_phase now w data from (s : state) :
  let ph := rs_phase (client_event is_match cidr_contains cfg id now w data from s) in ph = rs_phase s \/ ph = Aborted RemovalSpawned.
Proof using Type.
  unfold client_event. cbv zeta. set (pin := if client_pin (rc_limits cfg) then _ else _).
  assert (rs_phase pin.2 = rs_phase s) as <- by (subst pin; destruct (client_pin _); [|done]; by destruct (store _ !! id)).
  destruct pin as [res s1]. cbn [snd]. destruct res; [|by left..]. pose proof (handle_phase w now (received (rc_limits cfg) data) from s1) as Hh.
  destruct (handle_client_datagram _ _ _ _ _ _ _ _) as [[u|e|] s2]; cbn [snd] in Hh; [by left|by left|by right].
Qed.

(** How the association comes to stay registered for good. *)
Lemma step_leaves (s : state) ev :
  let s' := relay_step is_match cidr_contains cfg id s ev in
  match rs_phase s' with
  | Aborted (RemovalTried true) => rs_phase s = rs_phase s' \/ ev = Abort false true
  | Aborted GuardDisarmed => rs_phase s = rs_phase s' \/ exists rt ct res, ev = Abort rt ct /\ rs_phase s = Removing res
  | _ => True
  end.
Proof using Type.
  cbv zeta. unfold relay_step. destruct (rs_phase s) as [|res|res|[]] eqn:Hp.
  - destruct ev as [now|now|now w data from|e|sent|key peer data| | |rt ct]; cbn [relay_reap relay_cleanup rs_phase]; rewrite ?Hp; try done.
    + destruct (store _ !! id); [destruct (_ <=? _)|]; cbn [relay_cleanup rs_phase]; by rewrite ?Hp.
    + destruct (client_event_phase now w data from s) as [-> | ->]; by rewrite ?Hp.
    + unfold respond. destruct (rs_queue s); [by rewrite Hp|]. destruct (_ ≫= _); [|by cbn; rewrite Hp].
      destruct (encode_socks5_udp_datagram _ _); [destruct sent|..]; cbn; by rewrite Hp.
    + unfold flow_event. destruct (flow_get key _); [|by rewrite Hp]. destruct (recv_response _ _ _) as [[]|]; [|by rewrite Hp].
      destruct (_ <? _)%nat; cbn; by rewrite Hp.
    + destruct rt, ct; cbn; auto.
  - destruct ev; cbn; rewrite ?Hp; try done. right. eauto.
  - by rewrite Hp.
  - destruct ev; cbn; by rewrite ?Hp.
  - by rewrite Hp.
  - rewrite Hp. destruct contended; auto.
  - rewrite Hp. auto.
Qed.

Lemma slot_left router r evs :
  (rs_phase (run router r evs) = Aborted (RemovalTried true) -> Abort false true ∈ evs) /\
  (rs_phase (run router r evs) = Aborted GuardDisarmed ->
     exists pre rt ct post res, evs = pre ++ Abort rt ct :: post /\ rs_phase (run router r pre) = Removing res).
Proof using Type.
  induction evs as [|ev evs IH] using rev_ind; [done|]. rewrite relay_run_snoc. destruct IH as [IH1 IH2]. pose proof (step_leaves (run router r evs) ev) as Hs.
  cbv zeta in Hs. split; intros E; rewrite E in Hs; rewrite ?elem_of_app.
  - destruct Hs as [Hs| ->]; [left; by apply IH1|right; apply list_elem_of_here].
  - destruct Hs as [Hs|(rt & ct & res & -> & Hs)]; [|by exists evs, rt, ct, [], res].
    destruct (IH2 Hs) as (pre & rt & ct & post & res & -> & Hr). exists pre, rt, ct, (post ++ [ev]), res. by rewrite <- app_assoc.
Qed.

(** C29. The relay holds no more than it may and gives everything back.  In every state
    it reaches, it has at most the configured number of flows and of queued
    responses, and its active leases are exactly those of its flows to upstreams;
    the receive and control tasks of every flow it ever created are running for a flow
    of the table or have been aborted.  Once it has left its loop, for whatever reason,
    all these tasks have been aborted and the association is closed; once it is over it
    has no flow and holds no lease.  The association is removed from the registry as
    soon as the task, or the removal that its abort spawned, gets the lock, with two
    exceptions: the task was aborted outside of a runtime while the lock was held
    elsewhere; or it was aborted while it waited for the lock itself, its guard
    disarmed. *)
Theorem udp_relay_accounting router r evs :
  router_wf h0 router -> is_Some (store r !! id) ->
  let s := run router r evs in
  (length (rs_flows s) <= max_targets_per_association (rc_limits cfg))%nat /\ NoDup (map fst (rs_flows s)) /\
  (length (rs_queue s) <= RESPONSE_CHANNEL_CAPACITY)%nat /\
  (forall ls, rtc step (leases_are h0 ls) (leases_are (rs_heap s) (held (rs_flows s) ++ ls))) /\
  (forall e, e ∈ rs_spawned s -> (forall t, t ∈ shutdown_flow e -> t ∈ rs_stopped s) \/ exists k e', (k, e') ∈ rs_flows s /\ shutdown_flow e' = shutdown_flow e) /\
  (rs_phase s <> Running ->
     (exists a, store (rs_registry s) !! id = Some a /\ is_open a = false) /\
     (forall e t, e ∈ rs_spawned s -> t ∈ shutdown_flow e -> t ∈ rs_stopped s)) /\
  match rs_phase s with
  | Running => True
  | Removing result =>
      rs_phase (run router r (evs ++ [RegistryLocked])) = Ended result /\ id ∉ registered (rs_registry (run router r (evs ++ [RegistryLocked])))
  | Ended _ => given_back s /\ id ∉ registered (rs_registry s)
  | Aborted how =>
      given_back s /\
      match how with
      | RemovalSpawned => id ∉ registered (rs_registry (run router r (evs ++ [RegistryLocked])))
      | RemovalRan | RemovalTried false => id ∉ registered (rs_registry s)
      | RemovalTried true => Abort false true ∈ evs
      | GuardDisarmed => exists pre rt ct post result, evs = pre ++ Abort rt ct :: post /\ rs_phase (run router r pre) = Removing result
      end
  end.
Proof using Hok.
  intros Hwf Ha. cbv zeta. rewrite !relay_run_snoc. destruct (slot_left router r evs) as [Hl1 Hl2].
  destruct (relay_loop_inv [] evs (relay_start router h0 r) (relay_start_inv router r Hwf Ha)) as [[Hn Hlim Hf Hs] _ Hl Hc _ _ _ [Hd Hfl Hreg]]. cbn [app] in *.
  set (s := run router r evs) in *. clearbody s. do 5 (split; [done|]). split; [exact Hd|].
  assert (alive (rs_phase s) = false -> given_back s) as Hg by (intros Hal; split; [by apply Hfl|]; by rewrite (Hfl Hal) in Hl).
  unfold relay_step. destruct (rs_phase s) as [|res|res|[]] eqn:Hp; [done| |..].
  - split; [done|]. cbn. set_solver.
  - split; [by apply Hg|]. by intros Hr%Hreg.
  - split; [by apply Hg|]. cbn. set_solver.
  - split; [by apply Hg|]. by intros Hr%Hreg.
  - split; [by apply Hg|]. destruct contended; [by apply Hl1|]. by intros Hr%Hreg.
  - split; [by apply Hg|by apply Hl2].
Qed.

(** C28. What the client gets.  Every datagram the relay ever sent to a client went to
    the client address of the association, and is the SOCKS5 encoding of a response
    that arrived on a flow of the relay: for a direct flow the payload as received from
    the address the flow sends to; for a flow through one SOCKS5 upstream what its relay
    sent, for an equivalent target; for a Shadowsocks flow an authentic packet under the
    key of the flow, for an equivalent target, whoever sent it; and for a composed flow
    what its layers decode, with neither target nor sender checked. *)
Theorem udp_relay_answers router r evs d :
  router_wf h0 router -> is_Some (store r !! id) ->
  let s := run router r evs in
  d ∈ rs_answers s ->
  exists a t p key e peer data,
    store (rs_registry s) !! id = Some a /\ client_udp_addr a = Some (dg_to d) /\ encode_socks5_udp_datagram t p = Ok (dg_data d) /\
    FlowDatagram key peer data ∈ evs /\ relay_flow evs key e /\ recv_response (fe_flow e) peer data = Some (t, p) /\
    response_from key (fe_flow e) peer data t p.
Proof using Hok.
  intros Hwf Ha s Hd. pose proof (relay_loop_inv [] evs (relay_start router h0 r) (relay_start_inv router r Hwf Ha)) as Hi.
  destruct (vi_answers _ _ Hi d Hd) as (a & m & H1 & H2 & H3 & (key & e & peer & data & H4 & H5 & H6)).
  exists a, (rm_target m), (rm_payload m), key, e, peer, data. split; [exact H1|]. split; [exact H2|]. split; [exact H3|]. split; [exact H4|].
  split; [exact H5|]. split; [exact H6|]. by eapply flow_response_from.
Qed.
End relay_proofs.

(** ** Boundary behaviours *)

(** The receive buffer has the maximal size, so a longer datagram is cut to it: the
    size check of [decode_packet] never fires, and what is forwarded is the cut one. *)
Lemma oversized_is_cut l data :
  decode_packet (received l data) l = map_err UdpCodec (decode_socks5_udp_datagram (take (max_datagram_size l) data)).
Proof.
  unfold decode_packet, received. rewrite (proj2 (Nat.ltb_ge _ _)); [done|]. rewrite length_take. lia.
Qed.

Section unpinned.
Context {Regex IpNet R : Type} `{Hok : RandomIndexOk R}.
Context `{HCr : !Crypto}.
Context (is_match : Regex -> bytes -> bool) (cidr_contains : IpNet -> IpAddr -> bool).
Context (cfg : RelayConfig) (id : Z).
Hypothesis Hpin : client_pin (rc_limits cfg) = false.
Abbreviation state := (relay_state (Regex:=Regex) (IpNet:=IpNet) (R:=R)).

(** No client address is known, and nothing was answered. *)
Definition silent (s : state) : Prop := store (rs_registry s) !! id ≫= client_udp_addr = None /\ rs_answers s = [].

Lemma update_client_addr f r : (forall a, client_udp_addr (f a) = client_udp_addr a) ->
  store (update id f r) !! id ≫= client_udp_addr = store r !! id ≫= client_udp_addr.
Proof using Type. intros Hf. cbn [update store]. rewrite lookup_alter_eq. destruct (store r !! id); cbn; [apply Hf|done]. Qed.

Lemma close_client_addr a : client_udp_addr (close a) = client_udp_addr a.
Proof using Type. unfold close. by destruct (UdpRegistry.open a). Qed.

Lemma handle_keeps w now packet from (s : state) : let s' := (handle_client_datagram is_match cidr_contains cfg w now packet from s).2 in
  rs_registry s' = rs_registry s /\ rs_answers s' = rs_answers s.
Proof using Type.
  unfold handle_client_datagram. destruct (decode_packet _ _) as [rq|?|]; [|done..]. cbv zeta. destruct (validate_standalone_target _ _); [|done..].
  destruct (route _ _ _ _ _) as [[sel router] h]. destruct sel as [sel|?|]; [|done..]. by destruct (use_route _ _ _ _ _ _ _ _ _ _).
Qed.

Lemma relay_step_silent (s : state) ev : silent s -> silent (relay_step is_match cidr_contains cfg id s ev).
Proof using Hpin.
  intros [Hr Ha]. unfold relay_step. destruct (rs_phase s) as [|res|res|[]]; [|by destruct ev..].
  assert (store (update id close (rs_registry s)) !! id ≫= client_udp_addr = None) as Hc by (rewrite update_client_addr; [done|apply close_client_addr]).
  destruct ev as [now|now|now w data from|e|sent|key peer data| | |rt ct]; try done.
  - destruct (store (rs_registry s) !! id) as [a|] eqn:Ea; [|by split; [rewrite Ea|]]. destruct (_ <=? _); [done|]. by split; [rewrite Ea|].
  - unfold client_event. rewrite Hpin. pose proof (handle_keeps w now (received (rc_limits cfg) data) from s) as [E1 E2].
    destruct (handle_client_datagram _ _ _ _ _ _ _ _) as [[u|e|] s1]; cbn [snd] in E1, E2.
    + split; cbn [with_registry rs_registry rs_answers]; [|congruence]. rewrite update_client_addr by done. congruence.
    + split; congruence.
    + split; cbn [relay_abort drop_all_flows rs_registry rs_answers]; rewrite ?E1, ?E2; done.
  - unfold respond. destruct (rs_queue s) as [|m q]; [done|]. rewrite Hr. split; [exact Hr|]. cbn. by rewrite app_nil_r.
  - unfold flow_event. destruct (flow_get key _); [|done]. destruct (recv_response _ _ _) as [[]|]; [|done]. destruct (_ <? _)%nat; [|done].
    split; [exact Hr|]. cbn. by rewrite app_nil_r.
  - by destruct rt, ct.
Qed.

(** Without pinning the association never learns where its client is: every response
    is dropped. *)
Lemma unpinned_never_answers router h r evs :
  store r !! id ≫= client_udp_addr = None -> rs_answers (udp_relay_loop is_match cidr_contains cfg id evs (relay_start router h r)) = [].
Proof using Hpin.
  intros Hr. assert (silent (relay_start router h r)) as Hs by by split. revert Hs. generalize (relay_start router h r) as s.
  induction evs as [|ev evs IH]; intros s Hs; [apply Hs|]. cbn [udp_relay_loop fold_left]. by apply IH, relay_step_silent.
Qed.
End unpinned.

(** ** Witnesses: a query to a name server and its answer *)

Import SampleCrypto.

Definition direct_router : Router unit unit DeterministicRandom := with_groups [] ActDirect [].
Definition demo_relay_config : RelayConfig :=
  {| rc_limits := UdpLimits_default; rc_listener := str "in"; rc_generation := 1; rc_identity := Anonymous; rc_client_tcp_peer := None;
     rc_allow_private_egress := false; rc_upstream_connect_timeout := 10 * NANOS; rc_upstream_udp_bind := local_udp_bind_addr |}.
Definition demo_client : SocketAddr := {| sa_ip := V4 [xc0; x00; x02; x07]; sa_port := 4000 |}.
Definition demo_server : SocketAddr := {| sa_ip := V4 [x08; x08; x08; x08]; sa_port := 53 |}.
Definition demo_world : udp_world :=
  {| w_lookup_text _ := inl [demo_server]; w_lookup_host _ _ := inr (IoOther 1); w_udp_bind _ := inl tt; w_udp_connect _ := inl tt;
     w_tcp_connect _ := inr (IoOther 1); w_set_nodelay := inl tt; w_peer_addr := inr (IoOther 1); w_took := 0;
     w_control := Conn [] None [] None; w_open_hop _ _ := None; w_hop_socket := None; w_salts _ := []; w_send := inl tt |}.
Definition demo_query : bytes := [x00; x00; x00; x01; x08; x08; x08; x08; x00; x35] ++ str "query".
Definition demo_registry : Registry := (create_association (str "in") None Anonymous 1 0 (registry_new UdpLimits_default)).2.
Definition demo_events : list relay_event :=
  [ClientDatagram 1 demo_world demo_query demo_client; FlowDatagram (KDirect (IPv4 [x08; x08; x08; x08] 53)) demo_server (str "reply"); Respond (inl tt)].
Abbreviation demo_run evs := (udp_relay_loop no_regex no_cidr demo_relay_config 1 evs (relay_start direct_router [] demo_registry)).

Lemma direct_router_wf : router_wf [] direct_router.
Proof. intros k g Hg. cbn in Hg. by apply lookup_empty_Some in Hg. Qed.

(* projections first: the limits are large numbers *)
Lemma demo_forwarded : rs_sent (demo_run demo_events) = [{| dg_to := demo_server; dg_data := str "query" |}].
Proof. vm_compute. reflexivity. Qed.

Lemma udp_relay_forwards_witness :
  exists l, rs_sent (demo_run ([] ++ take 1 demo_events)) = rs_sent (demo_run []) ++ l /\ l <> [] /\
    justified no_regex no_cidr demo_relay_config [] ([] ++ take 1 demo_events) demo_client (received UdpLimits_default demo_query) (demo_run []) l.
Proof.
  destruct (udp_relay_forwards no_regex no_cidr demo_relay_config 1 [] direct_router demo_registry [] (ClientDatagram 1 demo_world demo_query demo_client))
    as (l & Hs & Hj & _); [apply direct_router_wf|vm_compute; by eexists|].
  exists l. split; [exact Hs|]. split; [|exact Hj]. intros ->. vm_compute in Hs. discriminate.
Defined.

Lemma udp_relay_answers_witness :
  exists a, store (rs_registry (demo_run demo_events)) !! 1 = Some a /\ client_udp_addr a = Some demo_client.
Proof.
  assert (exists data, {| dg_to := demo_client; dg_data := data |} ∈ rs_answers (demo_run demo_events)) as [data Hd].
  { eexists. assert (rs_answers (demo_run demo_events) = [{| dg_to := demo_client; dg_data := [x00; x00; x00; x01; x08; x08; x08; x08; x00; x35] ++ str "reply" |}])
      as -> by (vm_compute; reflexivity). apply list_elem_of_here. }
  destruct (udp_relay_answers no_regex no_cidr demo_relay_config 1 [] direct_router demo_registry demo_events _ direct_router_wf
    ltac:(vm_compute; by eexists) Hd) as (a & t & p & key & e & peer & d & Ha & Hc & _).
  exists a. split; [exact Ha|exact Hc].
Defined.

(** An abort while the task waits for the lock: the association stays registered, and
    no later event removes it. *)
Lemma disarmed_abort_leaks : bool_decide (1 ∈ registered (rs_registry (demo_run [Cancelled; Abort true false; RegistryLocked]))) = true.
Proof. vm_compute. reflexivity. Qed.

Lemma udp_relay_accounting_witness :
  rs_spawned (demo_run (demo_events ++ [Cancelled])) <> [] /\
  (forall e t, e ∈ rs_spawned (demo_run (demo_events ++ [Cancelled])) -> t ∈ shutdown_flow e -> t ∈ rs_stopped (demo_run (demo_events ++ [Cancelled]))).
Proof.
  split; [vm_compute; discriminate|].
  apply (udp_relay_accounting no_regex no_cidr demo_relay_config 1 [] direct_router demo_registry (demo_events ++ [Cancelled]) direct_router_wf).
  - vm_compute. by eexists.
  - vm_compute. discriminate.
Defined.
