(* ===== verification/UdpStandalone.v ===== *)
(** * The standalone UDP relays

    Models [crates/eggress-udp/src/standalone.rs] and [standalone_shadowsocks.rs]: a
    UDP socket that serves many clients, each with a table of flows.  The two relays
    differ in the packets they exchange with clients, an interface with two
    implementations here.  As in UdpRelay.v the relay is a state machine over
    events, in which the sockets and the clock answer.  Metrics are not modelled. *)

From S2P Require Import Prelude Bytes Decimal Stream Socks5 Socks5Udp NetAddr Connector Dispatch Uri Capability Chain Health Upstream Scheduler Matcher Router UdpSecurity UdpRegistry Shadowsocks UdpHop UdpUpstream UdpCapability UdpFlow UdpOpen.
Local Open Scope Z_scope.

(** ** Packets of clients *)

(** What a relay reads in a packet of a client (the target as it is routed and as it
    is keyed, and the payload), the protocol it routes for, and how it encodes a
    response. *)
Class Front := {
  front_protocol : ProtocolId;
  front_decode : bytes -> outcome unit (TargetAddr * SocksAddr * bytes);
  front_encode : bytes -> SocksAddr -> bytes -> outcome unit bytes
}.

(** The target that is validated is the target that is routed. *)
Class FrontOk `{Front} : Prop :=
  front_consistent : forall packet t a payload, front_decode packet = Ok (t, a, payload) -> t = socks_to_target_addr a.

Definition hide {E A} (m : outcome E A) : outcome unit A := map_err (fun _ => tt) m.

Definition socks5_front (limits : UdpLimits) : Front := {|
  front_protocol := PSocks5;
  front_decode packet :=
    let? r := hide (decode_packet packet limits) in
    Ok (socks_to_target_addr (ur_target r), ur_target r, ur_payload r);
  front_encode _ target payload := hide (encode_socks5_udp_datagram target payload)
|}.

Section shadowsocks_front.
Context `{HCr : !Crypto}.
Definition shadowsocks_front (method : CipherMethod) (password : bytes) : Front := {|
  front_protocol := PShadowsocks;
  front_decode packet :=
    let? (target_addr, payload) := hide (decode_pproxy_udp_packet_with_ikm method (password_key_material password) packet) in
    Ok (target_addr, target_to_socks_addr target_addr, payload);
  front_encode salt target payload :=
    hide (encode_pproxy_udp_packet_with_ikm method (password_key_material password) (socks_to_target_addr target) payload salt)
|}.

#[global] Instance shadowsocks_front_ok method password : FrontOk (H:=shadowsocks_front method password).
Proof.
  intros packet t a payload. unfold front_decode, shadowsocks_front. generalize (hide (E:=ShadowsocksError) (A:=TargetAddr * bytes)
    (decode_pproxy_udp_packet_with_ikm method (password_key_material password) packet)) as m.
  intros [[ta p]|e|] Hd; [|done..]. injection Hd as <- <- <-. symmetry. apply socks_target_roundtrip.
Qed.
End shadowsocks_front.

#[global] Instance socks5_front_ok limits : FrontOk (H:=socks5_front limits).
Proof. intros packet t a payload. unfold front_decode, socks5_front. destruct (hide _) as [r|e|]; cbn [obind]; [|done..]. by intros [= <- <- <-]. Qed.

(** ** Clients *)

Definition client_get (a : SocketAddr) (cs : clients) : option ClientFlowState := snd <$> List.find (fun c => bool_decide (c.1 = a)) cs.
Definition without (a : SocketAddr) (cs : clients) : clients := filter (fun c => bool_decide (c.1 = a) = false) cs.
Definition client_put (a : SocketAddr) (st : ClientFlowState) (cs : clients) : clients := (a, st) :: without a cs.

(** [clients.entry(addr).or_default()]. *)
Definition state_of (now : Z) (a : SocketAddr) (cs : clients) : ClientFlowState := default (client_new now) (client_get a cs).

(** Dropping flows drops their leases. *)
Definition drop_entry (h : heap) (e : TargetFlowEntry) : heap := match flow_lease e with Some l => active_drop l h | None => h end.
Definition drop_entries (l : list TargetFlowEntry) (h : heap) : heap := fold_left drop_entry l h.

(** ** The relay *)

Record StandaloneUdpConfig := { su_limits : UdpLimits; su_listener : bytes; su_generation : Z; su_allow_private_egress : bool }.

Record StandaloneMsg := { sm_client : SocketAddr; sm_target : SocksAddr; sm_payload : bytes }.

Definition STANDALONE_CHANNEL_CAPACITY : nat := 256.

Inductive standalone_phase := SRunning | SEnded (result : outcome UdpError unit).

Inductive standalone_event :=
| SClient (now : Z) (w : udp_world) (data : bytes) (from : SocketAddr)
| SRecvFailed (e : IoError)
| SReap (now : Z)
| SRespond (sent : answer unit) (salt : bytes)
| SFlow (client : SocketAddr) (key : UdpFlowKey) (peer : SocketAddr) (data : bytes)
| SCancelled.

Definition standalone_config (limits : UdpLimits) (upstream : bytes) (hop : ProxyHopSpec) : Socks5UdpUpstreamConfig :=
  {| uc_upstream_id := upstream; uc_hop := hop; uc_connect_timeout := 10 * NANOS; uc_udp_bind := local_udp_bind_addr;
     uc_control_timeout := Some (target_idle_timeout limits) |}.

Definition standalone_opening (cfg : StandaloneUdpConfig) : opening :=
  {| op_bind := local_udp_bind_addr; op_config := standalone_config (su_limits cfg);
     op_ss_addr w := flow_resolve_endpoint (fun d p => answered (w_lookup_host w d p)); op_early := true |}.

Section standalone.
Context {Regex IpNet R : Type} `{Hok : RandomIndexOk R}.
Context `{HCr : !Crypto}.
Context `{HF : Front}.
Context (is_match : Regex -> bytes -> bool) (cidr_contains : IpNet -> IpAddr -> bool).
Context (cfg : StandaloneUdpConfig).

Record standalone_state := {
  sa_router : Router Regex IpNet R; sa_heap : heap; sa_clients : clients; sa_total : nat; sa_queue : list StandaloneMsg; sa_next_task : nat;
  sa_spawned : list TargetFlowEntry; sa_sent : list datagram; sa_answers : list datagram; sa_stopped : list teardown; sa_phase : standalone_phase
}.

Definition sa_net (router : Router Regex IpNet R) (h : heap) (s : standalone_state) : standalone_state :=
  {| sa_router := router; sa_heap := h; sa_clients := sa_clients s; sa_total := sa_total s; sa_queue := sa_queue s; sa_next_task := sa_next_task s;
     sa_spawned := sa_spawned s; sa_sent := sa_sent s; sa_answers := sa_answers s; sa_stopped := sa_stopped s; sa_phase := sa_phase s |}.
Definition sa_used (a : SocketAddr) (now : Z) (u : usage) (s : standalone_state) : standalone_state :=
  {| sa_router := sa_router s; sa_heap := us_heap u;
     sa_clients := client_put a {| cf_last_activity := now; target_flows := us_flows u |} (sa_clients s);
     sa_total := (sa_total s + length (us_new u))%nat; sa_queue := sa_queue s; sa_next_task := (sa_next_task s + 3 * length (us_new u))%nat;
     sa_spawned := sa_spawned s ++ us_new u; sa_sent := sa_sent s ++ us_out u; sa_answers := sa_answers s; sa_stopped := sa_stopped s;
     sa_phase := sa_phase s |}.
Definition sa_messages (q : list StandaloneMsg) (answers : list datagram) (s : standalone_state) : standalone_state :=
  {| sa_router := sa_router s; sa_heap := sa_heap s; sa_clients := sa_clients s; sa_total := sa_total s; sa_queue := q; sa_next_task := sa_next_task s;
     sa_spawned := sa_spawned s; sa_sent := sa_sent s; sa_answers := sa_answers s ++ answers; sa_stopped := sa_stopped s; sa_phase := sa_phase s |}.
(** Flows leave the table and are shut down. *)
Definition sa_dropped (cs : clients) (gone : list TargetFlowEntry) (total : nat) (phase : standalone_phase) (s : standalone_state) : standalone_state :=
  {| sa_router := sa_router s; sa_heap := drop_entries gone (sa_heap s); sa_clients := cs; sa_total := total; sa_queue := sa_queue s;
     sa_next_task := sa_next_task s; sa_spawned := sa_spawned s; sa_sent := sa_sent s; sa_answers := sa_answers s;
     sa_stopped := sa_stopped s ++ mjoin (map shutdown_flow gone); sa_phase := phase |}.

Definition standalone_request (from : SocketAddr) (target : TargetAddr) : RouteRequest :=
  {| rq_target := target; rq_source := Some from; rq_listener := su_listener cfg; rq_protocol := front_protocol; rq_identity := Anonymous;
     rq_transport := Udp |}.

(** The task panics: the tables are dropped. *)
Definition sa_panic (s : standalone_state) : standalone_state := sa_dropped [] (entries (sa_clients s)) (sa_total s) (SEnded Panic) s.

(** A packet of a client. *)
Definition standalone_client (now : Z) (w : udp_world) (data : bytes) (from : SocketAddr) (s : standalone_state) : standalone_state :=
  match front_decode (take (max_datagram_size (su_limits cfg)) data) with
  | Panic => sa_panic s
  | Err _ => s
  | Ok (target_addr, target, payload) =>
      match validate_standalone_target target (su_allow_private_egress cfg) with
      | Panic => sa_panic s
      | Err _ => s
      | Ok _ =>
          let '(selected, router, h) := route is_match cidr_contains (sa_router s) (sa_heap s) (standalone_request from target_addr) in
          let s := sa_net router h s in
          match selected with
          | Panic => sa_panic s
          | Err _ => s
          | Ok selected =>
              if negb (bool_decide (is_Some (client_get from (sa_clients s))))
                 && (max_standalone_flows (su_limits cfg) <=? length (sa_clients s))%nat then
                sa_net router (match selected with SelUpstream _ _ _ _ lease _ => pending_drop lease h | SelDirect _ _ => h end) s
              else
                let state := state_of now from (sa_clients s) in
                let '(r, u) := use_route (standalone_opening cfg) w now (fun key => can_use_flow state key (sa_total s) (su_limits cfg))
                                 target payload selected (target_flows state) (sa_heap s) (sa_next_task s) in
                let s := sa_used from now u s in
                match r with Panic => sa_panic s | _ => s end
          end
      end
  end.

(** The response task; once the relay is over it may still send what is queued. *)
Definition standalone_respond (sent : answer unit) (salt : bytes) (s : standalone_state) : standalone_state :=
  match sa_queue s with
  | [] => s
  | msg :: q =>
      match front_encode salt (sm_target msg) (sm_payload msg), sent with
      | Ok out, inl _ => sa_messages q [{| dg_to := sm_client msg; dg_data := out |}] s
      | _, _ => sa_messages q [] s
      end
  end.

Definition standalone_flow (client : SocketAddr) (key : UdpFlowKey) (peer : SocketAddr) (data : bytes) (s : standalone_state) : standalone_state :=
  match client_get client (sa_clients s) ≫= (fun st => flow_get key (target_flows st)) with
  | Some e =>
      match recv_response (fe_flow e) peer data with
      | Some (t, p) =>
          if (length (sa_queue s) <? STANDALONE_CHANNEL_CAPACITY)%nat
          then sa_messages (sa_queue s ++ [{| sm_client := client; sm_target := t; sm_payload := p |}]) [] s else s
      | None => s
      end
  | None => s
  end.

(** The end of the loop: close all flows; the counter must be zero then. *)
Definition standalone_close (s : standalone_state) : standalone_state :=
  let r := close_all_flows (sa_clients s) in
  let total := (sa_total s - rp_removed r)%nat in
  sa_dropped [] (rp_shutdown r) total (SEnded (if (total =? 0)%nat then Ok tt else Panic)) s.

Definition standalone_step (s : standalone_state) (ev : standalone_event) : standalone_state :=
  match sa_phase s, ev with
  | _, SRespond sent salt => standalone_respond sent salt s
  | SRunning, SClient now w data from => standalone_client now w data from s
  | SRunning, SRecvFailed e => sa_dropped [] (entries (sa_clients s)) (sa_total s) (SEnded (Err (UdpIo e))) s
  | SRunning, SReap now =>
      let r := reap_idle_flows now (su_limits cfg) (sa_clients s) in
      sa_dropped (rp_clients r) (rp_shutdown r) (sa_total s - rp_removed r) SRunning s
  | SRunning, SFlow client key peer data => standalone_flow client key peer data s
  | SRunning, SCancelled => standalone_close s
  | SEnded _, _ => s
  end.

Definition standalone_udp_relay (evs : list standalone_event) (s : standalone_state) : standalone_state := fold_left standalone_step evs s.

Definition standalone_start (router : Router Regex IpNet R) (h : heap) : standalone_state :=
  {| sa_router := router; sa_heap := h; sa_clients := []; sa_total := 0; sa_queue := []; sa_next_task := 0; sa_spawned := []; sa_sent := [];
     sa_answers := []; sa_stopped := []; sa_phase := SRunning |}.
End standalone.

(** The Shadowsocks relay. *)
Record ShadowsocksStandaloneUdpConfig := { ssu_common : StandaloneUdpConfig; ssu_method : CipherMethod; ssu_password : bytes }.

Definition shadowsocks_standalone_udp_relay {Regex IpNet R : Type} `{Hok : RandomIndexOk R} `{HCr : !Crypto} is_match cidr_contains
    (cfg : ShadowsocksStandaloneUdpConfig) (evs : list standalone_event) (s : standalone_state (Regex:=Regex) (IpNet:=IpNet) (R:=R)) : standalone_state :=
  standalone_udp_relay (HF:=shadowsocks_front (ssu_method cfg) (ssu_password cfg)) is_match cidr_contains (ssu_common cfg) evs s.

(** ** Clients and their flows *)

Definition held_entries (l : list TargetFlowEntry) : list (nat * phase) := mjoin (map held1 l).

Lemma held_entries_app l r : held_entries (l ++ r) = held_entries l ++ held_entries r.
Proof. unfold held_entries. by rewrite map_app, join_app. Qed.

Lemma held_entries_flows fl : held_entries (map snd fl) = held fl.
Proof. unfold held_entries, held. by rewrite map_map. Qed.

Lemma held_entries_perm l r : l ≡ₚ r -> held_entries l ≡ₚ held_entries r.
Proof. intros Hp. unfold held_entries. by rewrite Hp. Qed.

Lemma drop_entries_held ls l : forall h, rtc step (leases_are h (held_entries l ++ ls)) (leases_are (drop_entries l h) ls).
Proof.
  induction l as [|e l IH]; intros h; [apply rtc_refl|]. unfold held_entries, drop_entries. cbn [map mjoin list_join fold_left].
  unfold held1 at 1, drop_entry at 2. destruct (flow_lease e) as [[i]|]; cbn [app al_upstream]; [|apply IH].
  eapply rtc_l; [exact (step_drop_active i h [] _)|]. apply IH.
Qed.

Lemma without_absent a cs : client_get a cs = None -> without a cs = cs.
Proof.
  unfold client_get, without. induction cs as [|[b st] cs IH]; [done|]. cbn [List.find fst]. rewrite filter_cons. cbn [fst].
  destruct (bool_decide (b = a)); [done|]. intros Hn. rewrite decide_True by done. f_equal. by apply IH.
Qed.

Lemma client_get_elem a cs st : client_get a cs = Some st -> (a, st) ∈ cs.
Proof.
  unfold client_get. intros ([b st'] & He & Hf)%fmap_Some. cbn in Hf. subst st'. apply find_some in He as [Hi Hb].
  apply bool_decide_eq_true in Hb. cbn in Hb. subst b. by apply list_elem_of_In.
Qed.

Lemma without_notin a cs : ~ a ∈ map fst cs -> without a cs = cs.
Proof.
  intros Hn. apply without_absent. destruct (client_get a cs) as [st|] eqn:E; [|done]. apply client_get_elem in E.
  destruct Hn. apply list_elem_of_fmap. by exists (a, st).
Qed.

(** A table of clients is the client with an address and the others. *)
Lemma client_split a cs st : NoDup (map fst cs) -> client_get a cs = Some st -> cs ≡ₚ (a, st) :: without a cs.
Proof.
  induction cs as [|[b st'] cs IH]; [done|]. intros Hn Hg. inversion_clear Hn as [|?? Hb Hn']. unfold client_get, without in *. cbn [List.find fst] in *.
  rewrite filter_cons. cbn [fst]. destruct (bool_decide (b = a)) eqn:E.
  - apply bool_decide_eq_true in E. subst b. injection Hg as ->. rewrite decide_False by done. f_equiv. symmetry.
    pose proof (without_notin a cs Hb) as Hw. unfold without in Hw. by rewrite Hw.
  - rewrite decide_True by done. rewrite (IH Hn' Hg) at 1. apply Permutation_swap.
Qed.

#[export] Instance entries_perm : Proper (Permutation ==> Permutation) entries.
Proof. intros l r Hp. unfold entries. by rewrite Hp. Qed.

Lemma entries_split now a cs : NoDup (map fst cs) -> entries cs ≡ₚ map snd (target_flows (state_of now a cs)) ++ entries (without a cs).
Proof.
  intros Hn. unfold state_of. destruct (client_get a cs) as [st|] eqn:E; cbn [default].
  - transitivity (entries ((a, st) :: without a cs)); [by apply entries_perm, client_split|done].
  - cbn [client_new target_flows map app]. by rewrite without_absent.
Qed.

Lemma without_elem a cs x : x ∈ without a cs <-> x ∈ cs /\ x.1 <> a.
Proof. unfold without. rewrite list_elem_of_filter, bool_decide_eq_false. tauto. Qed.

Lemma put_nodup a st cs : NoDup (map fst cs) -> NoDup (map fst (client_put a st cs)).
Proof.
  intros Hn. unfold client_put. cbn [map fst]. constructor.
  - intros (x & Hx & Hin)%list_elem_of_fmap. apply without_elem in Hin as [_ Hne]. congruence.
  - eapply sublist_NoDup; [exact Hn|]. apply (fmap_sublist fst), sublist_filter.
Qed.

Lemma put_length a st cs : NoDup (map fst cs) ->
  length (client_put a st cs) = if bool_decide (is_Some (client_get a cs)) then length cs else S (length cs).
Proof.
  intros Hn. unfold client_put. cbn [length]. destruct (client_get a cs) as [st'|] eqn:E.
  - rewrite bool_decide_true by eauto. rewrite (Permutation_length (client_split a cs st' Hn E)). done.
  - rewrite bool_decide_false by by intros []. by rewrite without_absent.
Qed.

Lemma entries_elem cs e : e ∈ entries cs <-> exists a st k, (a, st) ∈ cs /\ (k, e) ∈ target_flows st.
Proof.
  unfold entries. rewrite list_elem_of_join. split.
  - intros (l & He & ([a st] & -> & Hin)%list_elem_of_fmap). apply list_elem_of_fmap in He as ([k e'] & -> & Hke). by exists a, st, k.
  - intros (a & st & k & Hin & Hke). exists (map snd (target_flows st)). split; apply list_elem_of_fmap; [by exists (k, e)|by exists (a, st)].
Qed.

Section standalone_proofs.
Context {Regex IpNet R : Type} `{Hok : RandomIndexOk R}.
Context `{HCr : !Crypto}.
Context `{HF : Front} `{HFo : !FrontOk}.
Context (is_match : Regex -> bytes -> bool) (cidr_contains : IpNet -> IpAddr -> bool).
Context (cfg : StandaloneUdpConfig) (h0 : heap).
Abbreviation state := (standalone_state (Regex:=Regex) (IpNet:=IpNet) (R:=R)).

(** The network answered as [w] at a packet of the client [a]. *)
Definition client_met (evs : list standalone_event) (a : SocketAddr) (w : udp_world) : Prop := exists now data, SClient now w data a ∈ evs.

(** A flow of the client [a]: opened at one of its own packets. *)
Definition client_flow (evs : list standalone_event) (a : SocketAddr) (key : UdpFlowKey) (e : TargetFlowEntry) : Prop :=
  flow_ok (standalone_opening cfg) h0 (client_met evs a) key e.

(** A queued response is what a receive task of the client's flows made of a datagram. *)
Definition msg_ok (evs : list standalone_event) (m : StandaloneMsg) : Prop :=
  exists key e peer data, SFlow (sm_client m) key peer data ∈ evs /\ client_flow evs (sm_client m) key e /\
    recv_response (fe_flow e) peer data = Some (sm_target m, sm_payload m).

Definition reply_ok (evs : list standalone_event) (d : datagram) : Prop :=
  exists m salt, dg_to d = sm_client m /\ front_encode salt (sm_target m) (sm_payload m) = Ok (dg_data d) /\ msg_ok evs m.

(** The clients and their tables. *)
Record clients_inv (evs : list standalone_event) (cs : clients) : Prop := {
  cv_nodup : NoDup (map fst cs);
  cv_count : (length cs <= max_standalone_flows (su_limits cfg))%nat;
  cv_tables : forall a st, (a, st) ∈ cs ->
    NoDup (map fst (target_flows st)) /\ (length (target_flows st) <= max_targets_per_association (su_limits cfg))%nat /\
    forall k e, (k, e) ∈ target_flows st -> client_flow evs a k e
}.

(** The leases are those of the flows, in some order. *)
Definition leases_ok (h : heap) (es : list TargetFlowEntry) : Prop :=
  forall ls, exists l, l ≡ₚ held_entries es ++ ls /\ rtc step (leases_are h0 ls) (leases_are h l).

Definition tasks_ok (spawned : list TargetFlowEntry) (stopped : list teardown) (es : list TargetFlowEntry) : Prop :=
  forall e, e ∈ spawned -> (forall t, t ∈ shutdown_flow e -> t ∈ stopped) \/ exists e', e' ∈ es /\ shutdown_flow e' = shutdown_flow e.

Record standalone_inv (evs : list standalone_event) (s : state) : Prop := {
  sv_clients : clients_inv evs (sa_clients s);
  sv_total : sa_phase s = SRunning -> sa_total s = length (entries (sa_clients s));
  sv_bound : (length (entries (sa_clients s)) <= max_standalone_flows (su_limits cfg))%nat;
  sv_leases : leases_ok (sa_heap s) (entries (sa_clients s));
  sv_wf : router_wf (sa_heap s) (sa_router s);
  sv_tasks : tasks_ok (sa_spawned s) (sa_stopped s) (entries (sa_clients s));
  sv_capacity : (length (sa_queue s) <= STANDALONE_CHANNEL_CAPACITY)%nat;
  sv_queue : forall m, m ∈ sa_queue s -> msg_ok evs m;
  sv_answers : forall d, d ∈ sa_answers s -> reply_ok evs d;
  sv_over : sa_phase s <> SRunning -> sa_clients s = []
}.

Lemma client_flow_mono evs ev a k e : client_flow evs a k e -> client_flow (evs ++ [ev]) a k e.
Proof using Type. apply flow_ok_mono. intros w (now & data & Hin). exists now, data. apply elem_of_app. by left. Qed.

Lemma msg_mono evs ev m : msg_ok evs m -> msg_ok (evs ++ [ev]) m.
Proof using Type.
  intros (key & e & peer & data & Hin & Hf & Hr). exists key, e, peer, data. split; [apply elem_of_app; by left|]. split; [by apply client_flow_mono|done].
Qed.

Lemma standalone_inv_mono evs ev s : standalone_inv evs s -> standalone_inv (evs ++ [ev]) s.
Proof using Type.
  intros [[] Ht Hb Hl Hw Hk Hc Hq Ha Ho]. split; try done.
  - split; try done. intros a st Hin. destruct (cv_tables0 a st Hin) as (H1 & H2 & H3). split; [done|]. split; [done|]. intros k e Hke. by apply client_flow_mono, H3.
  - intros m Hm. by apply msg_mono, Hq.
  - intros d Hd. destruct (Ha d Hd) as (m & salt & H1 & H2 & H3). exists m, salt. split; [done|]. split; [done|]. by apply msg_mono.
Qed.

Lemma leases_wf h es (r : Router Regex IpNet R) : leases_ok h es -> router_wf h0 r -> router_wf h r.
Proof using Hok. intros Hl. destruct (Hl []) as (l & _ & Hs). by eapply steps_wf. Qed.

Lemma leases_shape h es : leases_ok h es -> shape h = shape h0.
Proof using Type. intros Hl. destruct (Hl []) as (l & _ & Hs). by apply steps_shape in Hs. Qed.

(** The leases follow a run that is stated for any listing. *)
Lemma leases_step h h' es es' :
  leases_ok h es -> (forall ls, exists l l', l ≡ₚ held_entries es ++ ls /\ l' ≡ₚ held_entries es' ++ ls /\ rtc step (leases_are h l) (leases_are h' l')) -> leases_ok h' es'.
Proof using Type.
  intros Hl Hs ls. destruct (Hl ls) as (l & Hp & H1). destruct (Hs ls) as (m & m' & Hm & Hm' & H2).
  assert (m ≡ₚ l) as Hml by by rewrite Hm, Hp.
  destruct (steps_perm _ _ l H2) as (l' & H3 & Hp3); [done|]. cbn [heap_of leases] in *. exists l'. split; [by rewrite <- Hp3|]. by etransitivity.
Qed.

(** ** Dropping flows *)

Lemma inv_dropped evs s cs gone total ph :
  standalone_inv evs s -> clients_inv evs cs -> entries cs ++ gone ≡ₚ entries (sa_clients s) ->
  (ph = SRunning -> total = length (entries cs)) -> (ph <> SRunning -> cs = []) ->
  standalone_inv evs (sa_dropped cs gone total ph s).
Proof using Hok.
  intros [Hc Ht Hb Hl Hw Hk Hq1 Hq Ha Ho] Hcs Hp Htot Hph.
  assert (leases_ok (drop_entries gone (sa_heap s)) (entries cs)) as Hl'.
  { apply (leases_step _ _ _ _ Hl). intros ls. exists (held_entries gone ++ held_entries (entries cs) ++ ls), (held_entries (entries cs) ++ ls).
    split; [|split; [done|apply drop_entries_held]]. rewrite <- (held_entries_perm _ _ Hp), held_entries_app, !app_assoc. f_equiv. apply Permutation_app_comm. }
  split; cbn [sa_dropped sa_router sa_heap sa_clients sa_total sa_queue sa_spawned sa_stopped sa_answers sa_phase]; try done.
  - apply Permutation_length in Hp. rewrite length_app in Hp. lia.
  - destruct (Hl []) as (l1 & _ & H1). destruct (Hl' []) as (l2 & _ & H2). apply steps_shape in H1, H2. cbn [heap_of] in *.
    eapply router_wf_length; [|exact Hw]. rewrite <- H1 in H2. apply (f_equal length) in H2. unfold shape in H2. by rewrite !length_map in H2.
  - intros e He. destruct (Hk e He) as [Hs|(e' & Hin & Hs)]; [left; intros; apply elem_of_app; auto|].
    rewrite <- Hp in Hin. apply elem_of_app in Hin as [Hin|Hin]; [right; by exists e'|left]. intros t Ht'. apply elem_of_app. right.
    apply list_elem_of_join. exists (shutdown_flow e'). split; [by rewrite Hs|]. apply list_elem_of_fmap. by exists e'.
Qed.

Lemma clients_nil evs : clients_inv evs [].
Proof using Type. split; [constructor|apply Nat.le_0_l|by intros ?? ?%not_elem_of_nil]. Qed.

Lemma inv_over evs s total ph : standalone_inv evs s -> ph <> SRunning -> standalone_inv evs (sa_dropped [] (entries (sa_clients s)) total ph s).
Proof using Hok. intros Hi Hp. apply inv_dropped; [done|apply clients_nil|done|done|done]. Qed.

Lemma reap_clients_inv evs now cs : clients_inv evs cs -> clients_inv evs (rp_clients (reap_idle_flows now (su_limits cfg) cs)).
Proof using Type.
  intros [Hn Hc Ht]. unfold reap_idle_flows. cbn [rp_clients].
  pose proof (reap_clients_spec now (su_limits cfg) (rp_clients (reap_flows now (su_limits cfg) cs))) as (_ & _ & ->).
  assert (forall l, NoDup (map fst l) -> (forall a st, (a, st) ∈ l -> NoDup (map fst (target_flows st)) /\
      (length (target_flows st) <= max_targets_per_association (su_limits cfg))%nat /\ forall k e, (k, e) ∈ target_flows st -> client_flow evs a k e) ->
    map fst (rp_clients (reap_flows now (su_limits cfg) l)) = map fst l /\
    forall a st, (a, st) ∈ rp_clients (reap_flows now (su_limits cfg) l) -> NoDup (map fst (target_flows st)) /\
      (length (target_flows st) <= max_targets_per_association (su_limits cfg))%nat /\ forall k e, (k, e) ∈ target_flows st -> client_flow evs a k e) as Hflows.
  { induction l as [|[b sb] l IH]; intros Hnl Hl; [split; [done|by intros ?? ?%not_elem_of_nil]|]. inversion_clear Hnl as [|?? _ Hnl'].
    destruct IH as [IH1 IH2]; [done|intros a st Hin; apply Hl, elem_of_cons; by right|]. cbn [reap_flows rp_clients map fst]. split; [by rewrite IH1|].
    intros a st [[= -> ->]|Hin]%elem_of_cons; [|by apply IH2]. cbn [target_flows].
    destruct (Hl b sb (list_elem_of_here _ _)) as (H1 & H2 & H3). split; [eapply sublist_NoDup; [exact H1|]; apply (fmap_sublist fst), sublist_filter|].
    split; [etransitivity; [apply length_filter|done]|]. intros k e [_ Hin]%list_elem_of_filter. by apply H3. }
  destruct (Hflows cs Hn Ht) as [Hk Hin]. split.
  - eapply sublist_NoDup; [|apply (fmap_sublist fst), sublist_filter]. by rewrite <- Hk in Hn.
  - etransitivity; [apply length_filter|]. by rewrite <- (length_map fst), Hk, length_map.
  - intros a st [_ Hf]%list_elem_of_filter. by apply Hin.
Qed.

(** ** A packet of a client *)

Lemma table_entry evs now a cs : clients_inv evs cs ->
  NoDup (map fst (target_flows (state_of now a cs))) /\
  (length (target_flows (state_of now a cs)) <= max_targets_per_association (su_limits cfg))%nat /\
  forall k e, (k, e) ∈ target_flows (state_of now a cs) -> client_flow evs a k e.
Proof using Type.
  intros Hc. unfold state_of. destruct (client_get a cs) as [st|] eqn:E; cbn [default]; [apply (cv_tables _ _ Hc); by apply client_get_elem|].
  split; [constructor|]. split; [apply Nat.le_0_l|by intros ?? ?%not_elem_of_nil].
Qed.

Abbreviation room now a s := (fun key => can_use_flow (state_of now a (sa_clients s)) key (sa_total s) (su_limits cfg)).
Abbreviation used_by evs a target sel payload now s h u :=
  (used (standalone_opening cfg) h0 (client_met evs a) target sel payload (room now a s) (target_flows (state_of now a (sa_clients s))) h u).

Lemma clients_used evs a target sel payload now (s : state) h u :
  clients_inv evs (sa_clients s) -> used_by evs a target sel payload now s h u ->
  (is_Some (client_get a (sa_clients s)) \/ (length (sa_clients s) < max_standalone_flows (su_limits cfg))%nat) ->
  clients_inv evs (client_put a {| cf_last_activity := now; target_flows := us_flows u |} (sa_clients s)).
Proof using Type.
  intros Hc [Un Uf _ Ut _] Hroom. destruct (table_entry evs now a _ Hc) as (Hn & Hl & Hf). split.
  - apply put_nodup, Hc.
  - rewrite put_length by apply Hc. pose proof (cv_count _ _ Hc). case_bool_decide as Hs; [done|]. destruct Hroom as [Hr|Hr]; [done|lia].
  - intros b st [[= -> ->]|[Hin _]%without_elem]%elem_of_cons; [|by apply (cv_tables _ _ Hc)]. cbn [target_flows]. split; [done|]. split; [|done].
    destruct Ut as [(_ & Hk & _)|(key & e & _ & -> & Hck & Hal)].
    + apply (f_equal length) in Hk. rewrite !length_map in Hk. lia.
    + unfold can_use_flow in Hal. rewrite Hck in Hal. cbn [orb] in Hal. apply andb_true_iff in Hal as [Hal _]. apply Nat.ltb_lt in Hal. cbn [length]. lia.
Qed.

Lemma inv_used evs a target sel payload now (s : state) (router : Router Regex IpNet R) h u :
  standalone_inv evs s -> sa_phase s = SRunning -> router_wf h router ->
  (forall ls, rtc step (leases_are (sa_heap s) ls) (leases_are h (taken sel ++ ls))) ->
  used_by evs a target sel payload now s h u ->
  (is_Some (client_get a (sa_clients s)) \/ (length (sa_clients s) < max_standalone_flows (su_limits cfg))%nat) ->
  standalone_inv evs (sa_used a now u (sa_net router h s)).
Proof using Hok.
  intros Hi Hp Hwf Hr Hu Hroom. pose proof (clients_used _ _ _ _ _ _ _ _ _ (sv_clients _ _ Hi) Hu Hroom) as Hc'.
  pose proof (entries_split now a (sa_clients s) (cv_nodup _ _ (sv_clients _ _ Hi))) as Hsplit.
  set (st := state_of now a (sa_clients s)) in *. set (others := entries (without a (sa_clients s))) in *.
  assert (entries (client_put a {| cf_last_activity := now; target_flows := us_flows u |} (sa_clients s)) = map snd (us_flows u) ++ others) as Hent by done.
  pose proof Hi as [_ Ht Hb Hl Hw Hk Hq1 Hq Ha Ho]. pose proof Hu as [_ _ Ul Ut _]. specialize (Ht Hp).
  assert (length (map snd (us_flows u) ++ others) = (sa_total s + length (us_new u))%nat /\
    (length (map snd (us_flows u) ++ others) <= max_standalone_flows (su_limits cfg))%nat) as [Htot Hbound].
  { apply Permutation_length in Hsplit. rewrite length_app, length_map in Hsplit |- *.
    destruct Ut as [(-> & Hm & _)|(key & e & -> & -> & Hck & Hal)].
    - apply (f_equal length) in Hm. rewrite !length_map in Hm. cbn [length]. lia.
    - unfold can_use_flow in Hal. rewrite Hck in Hal. cbn [orb] in Hal. apply andb_true_iff in Hal as [_ Hal]. apply Nat.ltb_lt in Hal. cbn [length] in *. lia. }
  assert (leases_ok (us_heap u) (map snd (us_flows u) ++ others)) as Hl'.
  { apply (leases_step _ _ _ _ Hl). intros ls. exists (held (target_flows st) ++ held_entries others ++ ls), (held (us_flows u) ++ held_entries others ++ ls).
    split; [|split].
    - by rewrite (held_entries_perm _ _ Hsplit), held_entries_app, held_entries_flows, app_assoc.
    - by rewrite held_entries_app, held_entries_flows, app_assoc.
    - etransitivity; [apply Hr|apply Ul]. }
  split; cbn [sa_used sa_net sa_router sa_heap sa_clients sa_total sa_queue sa_spawned sa_stopped sa_answers sa_phase]; rewrite ?Hent; try done.
  - by eapply steps_wf; [apply (Ul [])|].
  - intros e [He|He]%elem_of_app.
    + destruct (Hk e He) as [Hs|(e' & Hin & Hs)]; [by left|right]. rewrite Hsplit in Hin. apply elem_of_app in Hin as [Hin|Hin]; [|exists e'; split; [apply elem_of_app; by right|done]].
      destruct Ut as [(_ & _ & Hsd)|(key & y & _ & -> & _)]; [|exists e'; split; [apply elem_of_app; left; apply elem_of_cons; by right|done]].
      assert (shutdown_flow e ∈ shutdowns (us_flows u)) as Hx.
      { rewrite Hsd, <- Hs. unfold shutdowns. apply list_elem_of_fmap in Hin as (kv & -> & Hkv). apply list_elem_of_fmap. by exists kv. }
      apply list_elem_of_fmap in Hx as ([k x] & Hx & Hkx). exists x. split; [|done]. apply elem_of_app. left. apply list_elem_of_fmap. by exists (k, x).
    + destruct Ut as [(Hnew & _)|(key & y & Hnew & -> & _)]; rewrite Hnew in He; [by apply not_elem_of_nil in He|].
      apply list_elem_of_singleton in He as ->. right. exists y. split; [|done]. apply elem_of_app. left. apply list_elem_of_here.
Qed.

Lemma inv_net evs (s : state) (router : Router Regex IpNet R) h : standalone_inv evs s -> router_wf h router ->
  (forall ls, rtc step (leases_are (sa_heap s) ls) (leases_are h ls)) -> standalone_inv evs (sa_net router h s).
Proof using Type.
  intros [Hc Ht Hb Hl Hw Hk Hq1 Hq Ha Ho] Hwf Hs. split; cbn [sa_net sa_router sa_heap sa_clients sa_total sa_queue sa_spawned sa_stopped sa_answers sa_phase]; try done.
  apply (leases_step _ _ _ _ Hl). intros ls. exists (held_entries (entries (sa_clients s)) ++ ls), (held_entries (entries (sa_clients s)) ++ ls).
  split; [done|]. split; [done|]. apply Hs.
Qed.

(** What a packet of a client can have caused: at most one datagram, with its payload,
    for its target, which is valid and was routed, on a flow of this client. *)
Definition justified_by (evs : list standalone_event) (from : SocketAddr) (packet : bytes) (s : state) (l : list datagram) : Prop :=
  l = [] \/ exists t target payload sel key e d,
    front_decode packet = Ok (t, target, payload) /\ t = socks_to_target_addr target /\ validate_standalone_target target (su_allow_private_egress cfg) = Ok tt /\
    (route is_match cidr_contains (sa_router s) (sa_heap s) (standalone_request cfg from t)).1.1 = Ok sel /\
    route_key target sel = Some key /\ l = [d] /\ client_flow evs from key e /\ sends key e payload d.

Lemma standalone_client_spec evs now w data from (s : state) :
  standalone_inv evs s -> sa_phase s = SRunning -> client_met evs from w ->
  let s' := standalone_client is_match cidr_contains cfg now w data from s in
  standalone_inv evs s' /\ exists l, sa_sent s' = sa_sent s ++ l /\ justified_by evs from (take (max_datagram_size (su_limits cfg)) data) s l.
Proof using Hok HFo.
  intros Hi Hp Hm. cbv zeta.
  assert (forall s1 : state, standalone_inv evs s1 -> sa_sent s1 = sa_sent s -> standalone_inv evs s1 /\
    exists l, sa_sent s1 = sa_sent s ++ l /\ justified_by evs from (take (max_datagram_size (su_limits cfg)) data) s l) as Hnone.
  { intros s1 H1 H2. split; [done|]. exists []. split; [by rewrite app_nil_r|by left]. }
  assert (forall s1 : state, standalone_inv evs s1 -> standalone_inv evs (sa_panic s1)) as Hpanic by (intros s1 H1; by apply inv_over).
  unfold standalone_client. destruct (front_decode _) as [[[t target] payload]|e|] eqn:Ed; [|by apply Hnone|by apply Hnone; [apply Hpanic|]].
  destruct (validate_standalone_target _ _) as [[]|e|] eqn:Ev; [|by apply Hnone|by apply Hnone; [apply Hpanic|]].
  pose proof (route_selected is_match cidr_contains (sa_router s) h0 (sa_heap s) (standalone_request cfg from t) (sv_wf _ _ Hi)
    (leases_shape _ _ (sv_leases _ _ Hi))) as Hl.
  destruct (route is_match cidr_contains (sa_router s) (sa_heap s) (standalone_request cfg from t)) as [[res router] h] eqn:Er.
  destruct Hl as (Hwf & Hnp & Hh). cbv zeta. destruct res as [sel|e|]; [| |done].
  - destruct Hh as [Hsel Hst]. cbn [sa_net sa_clients sa_heap sa_total sa_next_task]. destruct (negb _ && _) eqn:Eroom.
    { apply Hnone; [|done]. assert (forall ls, rtc step (leases_are (sa_heap s) ls)
        (leases_are (match sel with SelUpstream _ _ _ _ lease _ => pending_drop lease h | SelDirect _ _ => h end) ls)) as Hd.
      { intros ls. etransitivity; [apply Hst|]. destruct sel as [d reason|d gr u ch lease reason]; [apply rtc_refl|].
        destruct Hsel as [_ ->]. apply pending_dropped. }
      apply (inv_net evs s); [done| |exact Hd]. eapply steps_wf; [apply (Hd [])|]. eapply router_wf_length; [|exact Hwf].
      pose proof (steps_shape _ _ (Hst [])) as Hsh. cbn [heap_of] in Hsh. apply (f_equal length) in Hsh. unfold shape in Hsh. by rewrite !length_map in Hsh. }
    destruct (table_entry evs now from _ (sv_clients _ _ Hi)) as (Hn & _ & Hf).
    pose proof (use_route_used (standalone_opening cfg) h0 (client_met evs from) w now target sel (room now from s) payload
      (target_flows (state_of now from (sa_clients s))) h (sa_next_task s) Hm Hsel Hn Hf) as Hu.
    destruct (use_route _ _ _ _ _ _ _ _ _ _) as [r u]. cbn [snd] in Hu.
    assert (standalone_inv evs (sa_used from now u (sa_net router h s))) as Hi'.
    { eapply inv_used; [done|done|done|exact Hst|exact Hu|]. apply andb_false_iff in Eroom as [E|E]; [left|right; by apply Nat.leb_gt].
      by apply negb_false_iff, bool_decide_eq_true in E. }
    assert (exists l, sa_sent (sa_used from now u (sa_net router h s)) = sa_sent s ++ l /\
      justified_by evs from (take (max_datagram_size (su_limits cfg)) data) s l) as Hj.
    { exists (us_out u). split; [done|]. destruct (ud_out _ _ _ _ _ _ _ _ _ _ Hu) as [Ho|(key & e & d & Hk & Ho & Hfl & Hsd)]; [by left|right].
      exists t, target, payload, sel, key, e, d. rewrite Er. pose proof (front_consistent _ _ _ _ Ed). auto 12. }
    destruct r; [by split|by split|]. split; [by apply Hpanic|exact Hj].
  - subst h. apply Hnone; [|done]. apply inv_net; [done|done|]. intros. apply rtc_refl.
Qed.

(** ** The relay in every state it reaches *)

Lemma inv_messages evs (s : state) q l :
  standalone_inv evs s -> (length q <= STANDALONE_CHANNEL_CAPACITY)%nat -> (forall m, m ∈ q -> msg_ok evs m) -> (forall d, d ∈ l -> reply_ok evs d) ->
  standalone_inv evs (sa_messages q l s).
Proof using Type.
  intros [Hc Ht Hb Hl Hw Hk Hq1 Hq Ha Ho] H1 H2 H3.
  split; cbn [sa_messages sa_router sa_heap sa_clients sa_total sa_queue sa_spawned sa_stopped sa_answers sa_phase]; try done.
  intros d [Hd|Hd]%elem_of_app; [by apply Ha|by apply H3].
Qed.

Lemma inv_standalone_respond evs (s : state) sent salt : standalone_inv evs s -> standalone_inv evs (standalone_respond sent salt s).
Proof using Type.
  intros Hi. pose proof (sv_capacity _ _ Hi) as Hc. pose proof (sv_queue _ _ Hi) as Hq. unfold standalone_respond. destruct (sa_queue s) as [|m q] eqn:E; [done|].
  assert (forall l, (forall d, d ∈ l -> reply_ok evs d) -> standalone_inv evs (sa_messages q l s)) as Hm.
  { intros l Hl. apply inv_messages; [done|cbn [length] in Hc; lia| |done]. intros x Hx. apply Hq, elem_of_cons. by right. }
  assert (standalone_inv evs (sa_messages q [] s)) as H0 by (apply Hm; by intros ? ?%not_elem_of_nil).
  destruct (front_encode salt _ _) as [out|?|] eqn:Ee; [|done..]. destruct sent; [|done]. apply Hm. intros d ->%list_elem_of_singleton.
  exists m, salt. split; [done|]. split; [done|]. apply Hq, list_elem_of_here.
Qed.

Lemma inv_standalone_flow evs (s : state) client key peer data : standalone_inv evs s -> SFlow client key peer data ∈ evs ->
  standalone_inv evs (standalone_flow client key peer data s).
Proof using Type.
  intros Hi Hin. unfold standalone_flow. destruct (_ ≫= _) as [e|] eqn:Eg; [|done]. apply bind_Some in Eg as (st & Hst & Hg).
  destruct (recv_response _ _ _) as [[t p]|] eqn:Er; [|done]. destruct (Nat.ltb_spec (length (sa_queue s)) STANDALONE_CHANNEL_CAPACITY); [|done].
  apply inv_messages; [done|rewrite length_app; cbn [length]; lia| |by intros ? ?%not_elem_of_nil].
  intros m [Hm|Hm%list_elem_of_singleton]%elem_of_app; [by apply (sv_queue _ _ Hi)|]. subst m. exists key, e, peer, data. split; [done|]. split; [|done].
  apply (cv_tables _ _ (sv_clients _ _ Hi) client st); [by apply client_get_elem|by apply flow_get_elem].
Qed.

Lemma inv_reaped evs (s : state) now : standalone_inv evs s -> sa_phase s = SRunning ->
  let r := reap_idle_flows now (su_limits cfg) (sa_clients s) in
  standalone_inv evs (sa_dropped (rp_clients r) (rp_shutdown r) (sa_total s - rp_removed r) SRunning s).
Proof using Hok HFo.
  intros Hi Hp r. destruct (reap_conserves now (su_limits cfg) (sa_clients s)) as (Hperm & Hrem & _). fold r in Hperm, Hrem.
  apply inv_dropped; [done|by apply reap_clients_inv, Hi|done| |done]. intros _. rewrite (sv_total _ _ Hi Hp), Hrem.
  apply Permutation_length in Hperm. rewrite length_app in Hperm. lia.
Qed.

Lemma closed (s : state) : standalone_close s = sa_dropped [] (entries (sa_clients s)) (sa_total s - length (entries (sa_clients s)))
  (SEnded (if (sa_total s - length (entries (sa_clients s)) =? 0)%nat then Ok tt else Panic)) s.
Proof using Type. unfold standalone_close. destruct (close_all_flows_spec (sa_clients s)) as (H1 & _ & H3). cbv zeta. by rewrite H1, H3. Qed.

Lemma standalone_step_inv evs s ev : standalone_inv evs s -> standalone_inv (evs ++ [ev]) (standalone_step is_match cidr_contains cfg s ev).
Proof using Hok HFo.
  intros Hi%(standalone_inv_mono evs ev). assert (ev ∈ evs ++ [ev]) as Hin by (apply elem_of_app; right; apply list_elem_of_here).
  unfold standalone_step. destruct (sa_phase s) eqn:Hp, ev; try done; try (by apply inv_standalone_respond).
  - apply standalone_client_spec; [done|done|]. by exists now, data.
  - by apply inv_over.
  - by apply inv_reaped.
  - by apply inv_standalone_flow.
  - rewrite closed. by apply inv_over.
Qed.

Lemma standalone_start_inv router : router_wf h0 router -> standalone_inv [] (standalone_start router h0).
Proof using Type.
  intros Hwf. split; cbn [standalone_start sa_router sa_heap sa_clients sa_total sa_queue sa_spawned sa_stopped sa_answers sa_phase]; try done.
  - apply clients_nil.
  - apply Nat.le_0_l.
  - intros ls. exists ls. split; [done|apply rtc_refl].
  - by intros ? ?%not_elem_of_nil.
  - apply Nat.le_0_l.
  - by intros ? ?%not_elem_of_nil.
  - by intros ? ?%not_elem_of_nil.
Qed.

Lemma standalone_run_inv evs0 evs : forall s, standalone_inv evs0 s -> standalone_inv (evs0 ++ evs) (standalone_udp_relay is_match cidr_contains cfg evs s).
Proof using Hok HFo.
  revert evs0. induction evs as [|ev evs IH]; intros evs0 s Hi; [by rewrite app_nil_r|].
  cbn [standalone_udp_relay fold_left]. replace (evs0 ++ ev :: evs) with ((evs0 ++ [ev]) ++ evs) by by rewrite <- app_assoc.
  apply IH. by apply standalone_step_inv.
Qed.

(** ** Properties *)

Abbreviation serve router evs := (standalone_udp_relay is_match cidr_contains cfg evs (standalone_start router h0)).

(** The standalone relay keeps its books.  In every state it reaches, its flow
    counter is the number of flows there are, over all clients; that number and the
    number of clients are at most the configured one, each client has at most its
    share, each target and route at most one flow; the active leases are exactly those
    of the flows, and the tasks of every flow it ever created run for a flow of a
    table or have been aborted.  So when it is cancelled it ends without tripping its
    assertion that no flow is left; and whenever it is over, it holds no lease and
    every task was aborted. *)
Theorem standalone_accounting router evs :
  router_wf h0 router ->
  let s := serve router evs in
  let n := max_standalone_flows (su_limits cfg) in
  (sa_phase s = SRunning -> sa_total s = length (entries (sa_clients s)) /\ sa_phase (standalone_step is_match cidr_contains cfg s SCancelled) = SEnded (Ok tt)) /\
  (length (entries (sa_clients s)) <= n)%nat /\ (length (sa_clients s) <= n)%nat /\ NoDup (map fst (sa_clients s)) /\
  (forall a st, (a, st) ∈ sa_clients s -> NoDup (map fst (target_flows st)) /\ (length (target_flows st) <= max_targets_per_association (su_limits cfg))%nat) /\
  (forall ls, exists l, l ≡ₚ held_entries (entries (sa_clients s)) ++ ls /\ rtc step (leases_are h0 ls) (leases_are (sa_heap s) l)) /\
  (forall e, e ∈ sa_spawned s -> (forall t, t ∈ shutdown_flow e -> t ∈ sa_stopped s) \/ exists e', e' ∈ entries (sa_clients s) /\ shutdown_flow e' = shutdown_flow e) /\
  (sa_phase s <> SRunning -> sa_clients s = []).
Proof using Hok HFo.
  intros Hwf. cbv zeta.
  destruct (standalone_run_inv [] evs (standalone_start router h0) (standalone_start_inv router Hwf)) as [[Hn Hc Ht] Htot Hb Hl _ Hk _ _ _ Ho].
  set (s := serve router evs) in *. clearbody s. split; [|do 3 (split; [done|]); split; [|by split]].
  - intros Hp. split; [by apply Htot|]. unfold standalone_step. rewrite Hp, closed. cbn [sa_dropped sa_phase]. by rewrite (Htot Hp), Nat.sub_diag.
  - intros a st Hin. destruct (Ht a st Hin) as (H1 & H2 & _). by split.
Qed.

(** C30. Clients are kept apart.  Only a packet of a client makes the relay send to the
    network, at most one datagram: the payload of the packet for a target that passed
    the policy and was routed, on a flow that a packet of this same client opened.
    And every datagram sent to a client encodes a response that arrived on a flow of
    this client, for an equivalent target and from the expected peer (a composed flow
    checks neither). *)
Theorem standalone_isolation router evs ev :
  router_wf h0 router ->
  let s := serve router evs in
  let s' := serve router (evs ++ [ev]) in
  (exists l, sa_sent s' = sa_sent s ++ l /\
     match ev with
     | SClient now w data from => justified_by (evs ++ [ev]) from (take (max_datagram_size (su_limits cfg)) data) s l
     | _ => l = []
     end) /\
  (forall d, d ∈ sa_answers s -> exists t p salt key e peer data,
     SFlow (dg_to d) key peer data ∈ evs /\ client_flow evs (dg_to d) key e /\ recv_response (fe_flow e) peer data = Some (t, p) /\
     front_encode salt t p = Ok (dg_data d) /\
     match key, fe_flow e with
     | KComposed _ _, _ => True
     | KDirect target, Direct f => t = target /\ p = data /\ peer = tf_peer f
     | _, k => socks_addr_equivalent t (key_target key) = true /\ match k with Socks5Upstream f => peer = sf_relay_addr f | _ => True end
     end).
Proof using Hok HFo.
  intros Hwf. cbv zeta. pose proof (standalone_run_inv [] evs (standalone_start router h0) (standalone_start_inv router Hwf)) as Hi. cbn [app] in Hi.
  assert (serve router (evs ++ [ev]) = standalone_step is_match cidr_contains cfg (serve router evs) ev) as ->
    by (unfold standalone_udp_relay; by rewrite fold_left_app).
  set (s := serve router evs) in *. clearbody s. split.
  - assert (sa_sent s = sa_sent s ++ []) as Hnil by by rewrite app_nil_r.
    assert (exists l, sa_sent (match ev with SRespond sent salt => standalone_respond sent salt s | _ => s end) = sa_sent s ++ l /\ l = []) as (l0 & Hl0 & ->).
    { exists []. split; [|done]. destruct ev; try done. unfold standalone_respond. destruct (sa_queue s); [done|].
      destruct (front_encode _ _ _); [|done..]. by destruct sent. }
    unfold standalone_step. destruct (sa_phase s) eqn:Hp; destruct ev as [now w data from|e|now|sent salt|client key peer data|]; try (by exists []); try (exists []; split; [exact Hl0|done]); try (exists []; split; [exact Hnil|by left]).
    + apply standalone_client_spec; [by apply standalone_inv_mono|done|]. exists now, data. apply elem_of_app. right. apply list_elem_of_here.
    + exists []. split; [|done]. unfold standalone_flow. destruct (_ ≫= _); [|done]. destruct (recv_response _ _ _) as [[]|]; [|done]. by destruct (_ <? _)%nat.
  - intros d Hd. destruct (sv_answers _ _ Hi d Hd) as (m & salt & Hto & He & (key & e & peer & data & H1 & H2 & H3)). rewrite Hto.
    exists (sm_target m), (sm_payload m), salt, key, e, peer, data. split; [exact H1|]. split; [exact H2|]. split; [exact H3|]. split; [exact He|].
    by eapply flow_response_for.
Qed.
End standalone_proofs.

(** ** Witnesses: two clients, one of them behind a Shadowsocks front *)

Import SampleCrypto.

Definition demo_standalone : StandaloneUdpConfig :=
  {| su_limits := UdpLimits_default; su_listener := str "udp"; su_generation := 1; su_allow_private_egress := false |}.
Definition sa_direct_router : Router unit unit DeterministicRandom := with_groups [] ActDirect [].
Definition peer_a : SocketAddr := {| sa_ip := V4 [xc0; x00; x02; x07]; sa_port := 4000 |}.
Definition peer_b : SocketAddr := {| sa_ip := V4 [xc0; x00; x02; x08]; sa_port := 4000 |}.
Definition dns_server : SocketAddr := {| sa_ip := V4 [x08; x08; x08; x08]; sa_port := 53 |}.
Definition sa_world : udp_world :=
  {| w_lookup_text _ := inl [dns_server]; w_lookup_host _ _ := inr (IoOther 1); w_udp_bind _ := inl tt; w_udp_connect _ := inl tt;
     w_tcp_connect _ := inr (IoOther 1); w_set_nodelay := inl tt; w_peer_addr := inr (IoOther 1); w_took := 0;
     w_control := Conn [] None [] None; w_open_hop _ _ := None; w_hop_socket := None; w_salts _ := []; w_send := inl tt |}.
Definition dns_packet (q : string) : bytes := [x00; x00; x00; x01; x08; x08; x08; x08; x00; x35] ++ str q.
Definition dns_key : UdpFlowKey := KDirect (IPv4 [x08; x08; x08; x08] 53).
Definition two_clients : list standalone_event :=
  [SClient 1 sa_world (dns_packet "a?") peer_a; SClient 2 sa_world (dns_packet "b?") peer_b; SFlow peer_b dns_key dns_server (str "b!"); SRespond (inl tt) []].

#[local] Existing Instance socks5_front_ok.
Abbreviation demo_serve evs :=
  (standalone_udp_relay (HF:=socks5_front UdpLimits_default) no_regex no_cidr demo_standalone evs (standalone_start sa_direct_router [])).

Lemma sa_direct_router_wf : router_wf [] sa_direct_router.
Proof. intros k g Hg. cbn in Hg. by apply lookup_empty_Some in Hg. Qed.

Example demo_serve_answers : sa_answers (demo_serve two_clients) = [{| dg_to := peer_b; dg_data := dns_packet "b!" |}].
Proof. vm_compute. reflexivity. Qed.

Lemma standalone_accounting_witness :
  sa_total (demo_serve two_clients) = 2%nat /\ sa_total (demo_serve two_clients) = length (entries (sa_clients (demo_serve two_clients))).
Proof.
  split; [vm_compute; reflexivity|].
  apply (standalone_accounting (HF:=socks5_front UdpLimits_default) no_regex no_cidr demo_standalone [] sa_direct_router two_clients sa_direct_router_wf).
  vm_compute. reflexivity.
Defined.

Lemma standalone_isolation_witness :
  exists key peer data, SFlow peer_b key peer data ∈ two_clients.
Proof.
  destruct (standalone_isolation (HF:=socks5_front UdpLimits_default) no_regex no_cidr demo_standalone [] sa_direct_router two_clients SCancelled sa_direct_router_wf)
    as [_ Ha]. destruct (Ha {| dg_to := peer_b; dg_data := dns_packet "b!" |}) as (t & p & salt & key & e & peer & data & Hin & _).
  - assert (sa_answers (demo_serve two_clients) = [{| dg_to := peer_b; dg_data := dns_packet "b!" |}]) as -> by (vm_compute; reflexivity).
    apply list_elem_of_here.
  - exists key, peer, data. exact Hin.
Defined.
