(* ===== verification/UdpSession.v ===== *)
(** * UDP ASSOCIATE sessions

    Models [execute_udp_associate] and the dispatcher [execute] of
    [crates/eggress-server/src/execute/mod.rs], and the service behind them,
    [crates/eggress-runtime/src/supervisor/udp_runtime.rs]: an association is
    registered, a socket is bound, the relay of UdpRelay.v is started, the client is
    told its address, and the association lives as long as the control connection.

    The registry is shared by all sessions and relays; a system of steps says how they
    interleave on it.  Whether an operation is overtaken by the connect timeout, and
    the answers of the sockets, are parameters. *)

From S2P Require Import Prelude Bytes Decimal Stream Socks5 Socks5Handshake Socks5Udp NetAddr Connector Dispatch Uri Capability Chain Health Upstream Relay Scheduler Matcher Router HttpText HttpBody Accept Reply Session ForwardSession UdpSecurity UdpRegistry Shadowsocks UdpHop UdpUpstream UdpCapability UdpFlow UdpOpen UdpRelay.
Local Open Scope Z_scope.

(** ** The service of a listener *)

Inductive UdpMode := Socks5UdpAssociate | StandalonePproxyUdp | ShadowsocksUdp | EchoUdp | FixedTarget.
#[export] Instance UdpMode_eq_dec : EqDecision UdpMode.
Proof. solve_decision. Defined.

Record CompiledListenerUdpConfig := {
  lu_mode : UdpMode; lu_enabled : bool; lu_bind : SocketAddr; lu_advertise : option IpAddr; lu_idle_timeout : Z; lu_target_idle_timeout : Z;
  lu_max_associations : nat; lu_max_targets_per_association : nat; lu_max_datagram_size : nat; lu_client_pin : bool;
  lu_allow_private_egress : bool; lu_max_associations_global : nat; lu_fixed_target : option TargetAddr;
  lu_upstream_connect_timeout : Z; lu_upstream_udp_bind : SocketAddr
}.

Definition ip_is_unspecified (ip : IpAddr) : bool := match ip with V4 o => v4_is_unspecified o | V6 o => v6_is_unspecified o end.
Definition ip_is_loopback (ip : IpAddr) : bool := match ip with V4 o => v4_is_loopback o | V6 o => v6_is_loopback o end.
Definition v4_localhost : IpAddr := V4 [x7f; x00; x00; x01].
Definition v6_localhost : IpAddr := V6 (replicate 15 x00 ++ [x01]).

(** A loopback peer, as itself or mapped into IPv6. *)
Definition peer_is_loopback (ip : IpAddr) : bool :=
  ip_is_loopback ip ||
  match ip with
  | V6 o => match to_ipv4_mapped o with Some v4 => v4_is_loopback v4 | None => false end
  | V4 _ => false
  end.

Definition compute_advertise_ip (configured_advertise : option IpAddr) (udp_bind_ip : IpAddr) (tcp_peer : option SocketAddr)
    : outcome UdpError IpAddr :=
  match configured_advertise with
  | Some ip => Ok ip
  | None =>
      if negb (ip_is_unspecified udp_bind_ip) then Ok udp_bind_ip
      else match tcp_peer with
      | Some peer =>
          if peer_is_loopback (sa_ip peer)
          then Ok match udp_bind_ip with V4 _ => v4_localhost | V6 _ => v6_localhost end
          else Err AdvertiseRequired
      | None => Err AdvertiseRequired
      end
  end.

Definition listener_limits (u : CompiledListenerUdpConfig) : UdpLimits :=
  from_listener_config (lu_max_associations_global u) (lu_max_associations u) (lu_max_targets_per_association u) (lu_max_datagram_size u)
    (lu_idle_timeout u) (lu_client_pin u) (lu_target_idle_timeout u).

Definition relay_config (u : CompiledListenerUdpConfig) (listener : bytes) (peer : option SocketAddr) (who : ClientIdentity) (gen : Z) : RelayConfig :=
  {| rc_limits := listener_limits u; rc_listener := listener; rc_generation := gen; rc_identity := who; rc_client_tcp_peer := peer;
     rc_allow_private_egress := lu_allow_private_egress u; rc_upstream_connect_timeout := lu_upstream_connect_timeout u;
     rc_upstream_udp_bind := lu_upstream_udp_bind u |}.

(** What the sockets answer: binding, and the local address. *)
Record service_world := { sw_bind : answer unit; sw_local_addr : answer SocketAddr }.

Record UdpAssociationHandle := { uh_id : Z; uh_relay_addr : SocketAddr }.

(** [RuntimeUdpService::create_association] behind the registration; on success the
    relay is spawned with this configuration. *)
Definition service_setup (u : CompiledListenerUdpConfig) (listener : bytes) (peer : option SocketAddr) (who : ClientIdentity) (gen : Z)
    (w : service_world) (id : Z) : outcome UdpError (UdpAssociationHandle * RelayConfig) :=
  let? _ := map_err UdpIo (answered (sw_bind w)) in
  let? local_addr := map_err UdpIo (answered (sw_local_addr w)) in
  let? advertised_ip := compute_advertise_ip (lu_advertise u) (sa_ip local_addr) peer in
  Ok ({| uh_id := id; uh_relay_addr := {| sa_ip := advertised_ip; sa_port := sa_port local_addr |} |}, relay_config u listener peer who gen).

Definition service_create (u : CompiledListenerUdpConfig) (listener : bytes) (peer : option SocketAddr) (who : ClientIdentity) (gen now : Z)
    (w : service_world) (r : Registry) : outcome UdpError (UdpAssociationHandle * RelayConfig) * Registry :=
  let '(created, r) := create_association listener peer who gen now r in
  (let? id := created in service_setup u listener peer who gen w id, r).

(** Where the connect timeout finds the service, if it fires: waiting for the lock of
    the registry, or binding the socket. *)
Inductive stall := NoStall | StallLock | StallBind.

Definition service_future (s : stall) (u : CompiledListenerUdpConfig) (listener : bytes) (peer : option SocketAddr) (who : ClientIdentity) (gen now : Z)
    (w : service_world) (r : Registry) : option (outcome UdpError (UdpAssociationHandle * RelayConfig)) * Registry :=
  match s with
  | NoStall => let '(res, r) := service_create u listener peer who gen now w r in (Some res, r)
  | StallLock => (None, r)
  | StallBind =>
      match create_association listener peer who gen now r with
      | (Ok _, r) => (None, r)
      | (Err e, r) => (Some (Err e), r)
      | (Panic, r) => (Some Panic, r)
      end
  end.

(** ** The session *)

Definition REP_GENERAL_FAILURE : byte := x01.
Definition REP_NOT_ALLOWED : byte := x02.

Definition udp_report (route : bytes) (out : SessionOutcome) (fail : option FailureCategory) : SessionReport :=
  {| sr_protocol := Some (str "socks5"); sr_target := None; sr_route := route; sr_upstream := 0; sr_downstream := 0; sr_outcome := out;
     sr_failure := fail; sr_rule := None; sr_group := None; sr_upstream_id := None; sr_reason := None |}.

(** The address echoed in a refusal. *)
Definition refusal_addr (p : PendingUdpAssociate) : SocksAddr :=
  target_to_socks_addr (default {| host := Ip (V4 [x00; x00; x00; x00]); tport := 0 |} (pu_client_hint p)).

Definition relay_socks_addr (a : SocketAddr) : SocksAddr :=
  match sa_ip a with V4 o => IPv4 o (sa_port a) | V6 o => IPv6 o (sa_port a) end.

(** [handle.cancel.cancel()]: the token, not the association's state. *)
Definition cancel_token (a : UdpAssociation) : UdpAssociation :=
  {| listener := listener a; client_tcp_peer := client_tcp_peer a; client_udp_addr := client_udp_addr a; identity := identity a;
     created_at := created_at a; last_activity := last_activity a; generation := generation a; UdpRegistry.open := UdpRegistry.open a;
     cancelled := true; notified := notified a |}.

(** Until the control connection yields a byte, fails or ends, or the token is
    cancelled. *)
Definition hold_control (by_token : bool) (c : conn) : conn := if by_token then c else (read_exact (E:=Socks5Error) 1 c).2.

Record associated := { as_report : SessionReport; as_conn : conn; as_registry : Registry; as_spawned : option (UdpAssociationHandle * RelayConfig) }.

Definition udp_refused (rep : byte) (report : SessionReport) (p : PendingUdpAssociate) (c : conn) (r : Registry) : associated :=
  {| as_report := report; as_conn := (send_connect_reply rep (refusal_addr p) c).2; as_registry := r; as_spawned := None |}.

Definition execute_udp_associate (udp : option CompiledListenerUdpConfig) (cfg : SessionConfig) (gen now : Z) (s : stall) (w : service_world)
    (by_token : bool) (p : PendingUdpAssociate) (c : conn) (r : Registry) : outcome unit associated :=
  match udp with
  | Some u =>
      if lu_enabled u then
        let '(res, r) := service_future s u (cf_listener cfg) (cf_source cfg) (pu_identity p) gen now w r in
        match res with
        | Some (Ok (handle, rc)) =>
            match send_udp_associate_reply (relay_socks_addr (uh_relay_addr handle)) c with
            | (Ok _, c) =>
                Ok {| as_report := udp_report (str "udp_associate") SoCompleted None; as_conn := hold_control by_token c;
                      as_registry := update (uh_id handle) cancel_token r; as_spawned := Some (handle, rc) |}
            | (Err _, c) =>
                Ok {| as_report := udp_report (str "udp_associate_reply_failed") SoClientProtocolError (Some FcProtocol); as_conn := c;
                      as_registry := update (uh_id handle) cancel_token r; as_spawned := Some (handle, rc) |}
            | (Panic, _) => Panic
            end
        | Some (Err _) => Ok (udp_refused REP_GENERAL_FAILURE (udp_report (str "udp_associate_failed") SoRouteFailed (Some FcProtocol)) p c r)
        | Some Panic => Panic
        | None => Ok (udp_refused REP_GENERAL_FAILURE (udp_report (str "udp_associate_timeout") SoHandshakeTimedOut (Some FcRouteTimeout)) p c r)
        end
      else Ok (udp_refused REP_NOT_ALLOWED (udp_report (str "udp_associate_disabled") SoRouteFailed (Some FcProtocol)) p c r)
  | None => Ok (udp_refused REP_NOT_ALLOWED (udp_report (str "udp_associate_disabled") SoRouteFailed (Some FcProtocol)) p c r)
  end.

(** ** Dispatch *)

Section dispatch.
Context {Regex IpNet R : Type} `{Hok : RandomIndexOk R}.
Context (is_match : Regex -> bytes -> bool) (cidr_contains : IpNet -> IpAddr -> bool).
Context (lookup_host : bytes -> timed (list SocketAddr)).
Context (new_socket : bool -> option Z).
Context (bind_socket : bool -> SocketAddr -> option Z).
Context (tcp_connect : option (bool * SocketAddr) -> SocketAddr -> timed ConnectionMetadata).
Context (answer : list effect -> effect -> option Z).
Context (io_kind : Z -> ErrorKind) (source_of : Z -> handshake_source).
Context (executor : ChainExecutor).
Context (ready : nat -> nat) (elapsed idle : nat -> bool) (upstream : nat -> conn).
Context (udp : option CompiledListenerUdpConfig) (cfg : SessionConfig) (gen now : Z) (st : stall) (w : service_world) (by_token : bool).

(** The state a session works on: the client connection, the routing state, the UDP
    registry. *)
Record session_state := { se_conn : conn; se_net : net (Regex:=Regex) (IpNet:=IpNet) (R:=R); se_registry : Registry }.

Definition with_conn (c : conn) (s : session_state) : session_state := {| se_conn := c; se_net := se_net s; se_registry := se_registry s |}.

(** The relay of a tunnel runs between the streams [client] and [server]; [None]: it
    is still running. *)
Definition execute_session (session : AcceptedSession) (client server : Relay.stream) (instants : list Z) (s : session_state)
    : outcome unit (option SessionReport) * session_state :=
  match session with
  | Tunnel p =>
      let '(r, c, n, _) := execute_tunnel is_match cidr_contains lookup_host new_socket bind_socket tcp_connect answer io_kind source_of executor
                             (elapsed 0) cfg p client server instants (se_conn s) (se_net s) in
      (r, {| se_conn := c; se_net := n; se_registry := se_registry s |})
  | HttpForward p =>
      let '(r, f) := execute_http_forward is_match cidr_contains lookup_host new_socket bind_socket tcp_connect answer io_kind source_of executor
                       ready elapsed idle upstream cfg (pf_identity p) p (se_conn s) (se_net s) in
      (let? report := r in Ok (Some report), {| se_conn := fw_client f; se_net := fw_net f; se_registry := se_registry s |})
  | UdpAssociate_ p =>
      match execute_udp_associate udp cfg gen now st w by_token p (se_conn s) (se_registry s) with
      | Ok a => (Ok (Some (as_report a)), {| se_conn := as_conn a; se_net := se_net s; se_registry := as_registry a |})
      | Err e => (Err e, s)
      | Panic => (Panic, s)
      end
  | Echo =>
      let '(r, c) := execute_echo ready (se_conn s) in
      (match r with Ok report => Ok (Some report) | Err _ | Panic => Panic end, with_conn c s)
  end.
End dispatch.

(** ** All sessions and relays on one registry *)

(** The identifiers of relays that run or have the removal of their association still
    ahead of them, and of associations that stay registered without one. *)
Record service_state := { sv_registry : Registry; sv_running : gset Z; sv_lost : gset Z }.

Inductive service_event :=
| SvAssociate (u : CompiledListenerUdpConfig) (listener : bytes) (peer : option SocketAddr) (who : ClientIdentity) (gen now : Z) (s : stall) (w : service_world)
| SvTouch (id now : Z)
| SvPin (id : Z) (addr : SocketAddr)
| SvCancel (id : Z)
| SvClose (id : Z)
| SvRelayEnd (id : Z) (removed : bool).

Definition sv_update (id : Z) (f : UdpAssociation -> UdpAssociation) (st : service_state) : service_state :=
  {| sv_registry := update id f (sv_registry st); sv_running := sv_running st; sv_lost := sv_lost st |}.

Definition service_step (st : service_state) (ev : service_event) : service_state :=
  let r := sv_registry st in
  match ev with
  | SvAssociate u l peer who gen now s w =>
      let '(res, r') := service_future s u l peer who gen now w r in
      match res with
      | Some (Ok (h, _)) => {| sv_registry := r'; sv_running := {[uh_id h]} ∪ sv_running st; sv_lost := sv_lost st |}
      | _ => {| sv_registry := r'; sv_running := sv_running st; sv_lost := (registered r' ∖ registered r) ∪ sv_lost st |}
      end
  | SvTouch id now => sv_update id (touch now) st
  | SvPin id addr => sv_update id (fun a => (pin_client_addr addr a).2) st
  | SvCancel id => sv_update id cancel_token st
  | SvClose id => sv_update id close st
  | SvRelayEnd id removed =>
      if bool_decide (id ∈ sv_running st) then
        {| sv_registry := (if removed then remove id else fun r => r) r; sv_running := sv_running st ∖ {[id]};
           sv_lost := if removed then sv_lost st else {[id]} ∪ sv_lost st |}
      else st
  end.

Definition service_run (evs : list service_event) (st : service_state) : service_state := fold_left service_step evs st.
Definition service_new (l : UdpLimits) : service_state := {| sv_registry := registry_new l; sv_running := ∅; sv_lost := ∅ |}.

(** Nothing is lost by these events: a set-up fails only before the association is
    registered, and relays remove their associations. *)
Definition clean_event (ev : service_event) : bool :=
  match ev with
  | SvAssociate u l peer who gen now s w =>
      match s with NoStall => is_ok (service_setup u l peer who gen w 0) | StallLock => true | StallBind => false end
  | SvRelayEnd _ removed => removed
  | _ => true
  end.

Record service_inv (st : service_state) : Prop := {
  sv_reg : reg_inv (sv_registry st);
  sv_parts : registered (sv_registry st) = sv_running st ∪ sv_lost st;
  sv_apart : sv_running st ## sv_lost st
}.

Lemma listener_cancel a : listener (cancel_token a) = listener a.
Proof. done. Qed.

(** ** Registering *)

Lemma create_cases l peer who gen now r : reg_inv r -> next_id r + 1 < U64 ->
  (exists e, create_association l peer who gen now r = (Err e, r) /\
    ((max_associations_global (limits r) <= active_count r)%nat \/ (max_associations_per_listener (limits r) <= active_count_for_listener r l)%nat)) \/
  exists r', create_association l peer who gen now r = (Ok (next_id r), r') /\ reg_inv r' /\ next_id r ∉ registered r /\
    registered r' = {[next_id r]} ∪ registered r /\ store r' = <[next_id r := assoc_new l peer who gen now]> (store r) /\
    limits r' = limits r /\ next_id r' = next_id r + 1 /\ store r !! next_id r = None.
Proof.
  intros Hr Hn. pose proof (reg_inv_create l peer who gen now r Hn Hr) as Hc. unfold create_association in *.
  destruct (Nat.leb_spec (max_associations_global (limits r)) (active_count r)); [left; eauto|].
  destruct (Nat.leb_spec (max_associations_per_listener (limits r)) (active_count_for_listener r l)); [left; eauto|].
  right. eexists. split; [done|]. cbn [snd] in Hc. destruct Hr as [_ _ Hf Hk Hz].
  assert (store r !! next_id r = None) as Hfr.
  { destruct (store r !! next_id r) as [a|] eqn:E; [|done]. specialize (Hf (next_id r) ltac:(eauto)). lia. }
  assert (next_id r ∉ registered r) as Hnot by (intros Hi; apply Hk in Hi; rewrite Hfr in Hi; by destruct Hi).
  split_and!; [done..| |done]. cbn. unfold wrap64. by rewrite Z.mod_small by lia.
Qed.

(** What the service does to the registry: nothing, or one new association. *)
Lemma service_future_cases s u l peer who gen now w r : reg_inv r -> next_id r + 1 < U64 ->
  let '(res, r') := service_future s u l peer who gen now w r in
  res <> Some Panic /\
  ((r' = r /\ (res = None \/ exists e, res = Some (Err e)) /\
    (s <> StallLock -> (max_associations_global (limits r) <= active_count r)%nat \/ (max_associations_per_listener (limits r) <= active_count_for_listener r l)%nat)) \/
   (create_association l peer who gen now r = (Ok (next_id r), r') /\
    match s with NoStall => res = Some (service_setup u l peer who gen w (next_id r)) | StallLock => False | StallBind => res = None end)).
Proof.
  intros Hr Hn. assert (forall i, service_setup u l peer who gen w i <> Panic) as Hp.
  { intros i. unfold service_setup. destruct (sw_bind w); [|done]. destruct (sw_local_addr w) as [a|]; [|done]. cbn [answered map_err obind].
    unfold compute_advertise_ip. destruct (lu_advertise u); [done|]. destruct (negb _); [done|]. destruct peer as [q|]; [|done]. by destruct (peer_is_loopback _). }
  destruct (create_cases l peer who gen now r Hr Hn) as [(e & Hc & Hl)|(r' & Hc & _)]; unfold service_future, service_create; destruct s; rewrite ?Hc.
  - split; [done|]. left. split; [done|]. split; [right; by exists e|done].
  - split; [done|]. left. split; [done|]. split; [by left|done].
  - split; [done|]. left. split; [done|]. split; [right; by exists e|done].
  - cbn [obind]. split; [intros [= E]; by eapply Hp|]. by right.
  - split; [done|]. left. split; [done|]. split; [by left|done].
  - split; [done|]. by right.
Qed.

(** ** Accounting *)

(** What any event keeps: limits, the listeners of known associations, what is lost;
    identifiers are given out one by one. *)
Record service_moves (st st' : service_state) : Prop := {
  sm_limits : limits (sv_registry st') = limits (sv_registry st);
  sm_lost : sv_lost st ⊆ sv_lost st';
  sm_listener : forall i, is_Some (store (sv_registry st) !! i) ->
    listener <$> store (sv_registry st') !! i = listener <$> store (sv_registry st) !! i;
  sm_next : next_id (sv_registry st) <= next_id (sv_registry st') <= next_id (sv_registry st) + 1
}.

Lemma update_listener id f r i : (forall a, listener (f a) = listener a) -> listener <$> store (update id f r) !! i = listener <$> store r !! i.
Proof.
  intros Hf. cbn. destruct (decide (id = i)) as [->|Hne]; [|by rewrite lookup_alter_ne].
  rewrite lookup_alter_eq. destruct (store r !! i); cbn; [by rewrite Hf|done].
Qed.

Lemma sv_update_moves id f st : (forall a, listener (f a) = listener a) -> service_inv st ->
  service_inv (sv_update id f st) /\ service_moves st (sv_update id f st).
Proof.
  intros Hf [Hr Hp Ha]. split; [by split; [apply reg_inv_update|..]|]. split; [done|done| |cbn; lia]. intros i _. by apply update_listener.
Qed.

Lemma end_moves id (removed : bool) st : service_inv st ->
  let st' := service_step st (SvRelayEnd id removed) in service_inv st' /\ service_moves st st'.
Proof.
  intros [Hr Hp Ha]. cbv zeta. cbn [service_step]. case_bool_decide as Hin; [|split; [done|]; split; [done|done|done|lia]].
  split; [|split; [by destruct removed|destruct removed; cbn; set_solver|by destruct removed|destruct removed; cbn; lia]].
  split; cbn [sv_registry sv_running sv_lost].
  - destruct removed; [|exact Hr]. apply (reg_inv_shrink (sv_registry st)); [done..|cbn; set_solver|done].
  - destruct removed; cbn [remove registered]; rewrite Hp; [set_solver|].
    rewrite (union_difference_L {[id]} (sv_running st)) at 1 by set_solver. set_solver.
  - destruct removed; set_solver.
Qed.

Lemma associate_moves u l peer who gen now s w st : service_inv st -> next_id (sv_registry st) + 1 < U64 ->
  let st' := service_step st (SvAssociate u l peer who gen now s w) in service_inv st' /\ service_moves st st'.
Proof.
  intros [Hr Hp Ha] Hn. cbv zeta. cbn [service_step]. pose proof (service_future_cases s u l peer who gen now w _ Hr Hn) as Hc.
  destruct (service_future s u l peer who gen now w (sv_registry st)) as [res r']. destruct Hc as [Hnp [(-> & Hres & _)|(Hc & Hs)]].
  - assert ((registered (sv_registry st) ∖ registered (sv_registry st)) ∪ sv_lost st = sv_lost st) as E by set_solver.
    destruct Hres as [->|[e ->]]; rewrite E; (split; [done|]; split; [done|done|done|cbn; lia]).
  - destruct (create_cases l peer who gen now _ Hr Hn) as [(e & Hc' & _)|(r1 & Hc' & Hi & Hnot & Hreg & Hst & Hl & Hnx & Hfr)]; [congruence|].
    assert (r1 = r') as -> by congruence.
    assert (forall i, is_Some (store (sv_registry st) !! i) -> listener <$> store r' !! i = listener <$> store (sv_registry st) !! i) as Hls.
    { intros i [a Hsa]. rewrite Hst, lookup_insert_ne; [done|]. intros <-. congruence. }
    assert (registered r' ∖ registered (sv_registry st) = {[next_id (sv_registry st)]}) as Hd by (rewrite Hreg; set_solver).
    assert (service_inv {| sv_registry := r'; sv_running := sv_running st; sv_lost := (registered r' ∖ registered (sv_registry st)) ∪ sv_lost st |} /\
      service_moves st {| sv_registry := r'; sv_running := sv_running st; sv_lost := (registered r' ∖ registered (sv_registry st)) ∪ sv_lost st |}) as Hlose.
    { rewrite Hd. split; split; cbn [sv_registry sv_running sv_lost]; [done|set_solver|set_solver|done|set_solver|done|lia]. }
    destruct s; [|done|subst res; exact Hlose]. subst res. unfold service_setup.
    destruct (let? _ := _ in _) as [[h rc]|e|] eqn:Es; [|exact Hlose|exact Hlose].
    assert (uh_id h = next_id (sv_registry st)) as ->.
    { destruct (sw_bind w); [|done]. destruct (sw_local_addr w) as [a|]; [|done]. cbn [answered map_err obind] in Es.
      destruct (compute_advertise_ip _ _ _); [|done..]. cbn [obind] in Es. injection Es as <- _. done. }
    split; split; cbn [sv_registry sv_running sv_lost]; [done|set_solver|set_solver|done|done|done|lia].
Qed.

Lemma service_step_moves st ev : service_inv st -> next_id (sv_registry st) + 1 < U64 ->
  service_inv (service_step st ev) /\ service_moves st (service_step st ev).
Proof.
  intros Hi Hn. destruct ev as [u l peer who gen now s w|id now|id addr|id|id|id removed].
  - by apply associate_moves.
  - by apply sv_update_moves.
  - apply sv_update_moves; [apply listener_pin|done].
  - by apply sv_update_moves.
  - apply sv_update_moves; [apply listener_close|done].
  - by apply end_moves.
Qed.

(** Few enough events for the identifiers not to wrap around. *)
Definition fits (evs : list service_event) (st : service_state) : Prop := next_id (sv_registry st) + Z.of_nat (length evs) < U64.

Lemma service_run_inv evs : forall st, service_inv st -> fits evs st -> service_inv (service_run evs st).
Proof.
  induction evs as [|ev evs IH]; intros st Hi Hf; [done|]. unfold fits in Hf. cbn [length] in Hf.
  destruct (service_step_moves st ev Hi) as [Hi' Hm]; [lia|]. apply (IH _ Hi'). destruct Hm. unfold fits. lia.
Qed.

Lemma service_new_inv l : service_inv (service_new l).
Proof. split; [apply reg_inv_new|cbn; set_solver|cbn; set_solver]. Qed.

Lemma setup_ok_any u l peer who gen w i j : is_ok (service_setup u l peer who gen w i) = true -> is_ok (service_setup u l peer who gen w j) = true.
Proof.
  unfold service_setup. destruct (sw_bind w); [|done]. destruct (sw_local_addr w) as [a|]; [|done]. cbn [answered map_err obind].
  by destruct (compute_advertise_ip _ _ _).
Qed.

(** A clean event loses nothing. *)
Lemma clean_step st ev : service_inv st -> next_id (sv_registry st) + 1 < U64 -> clean_event ev = true -> sv_lost (service_step st ev) = sv_lost st.
Proof.
  intros [Hr _ _] Hn Hc. destruct ev as [u l peer who gen now s w|id now|id addr|id|id|id removed]; try done.
  - cbn [service_step]. pose proof (service_future_cases s u l peer who gen now w _ Hr Hn) as Hf.
    destruct (service_future s u l peer who gen now w (sv_registry st)) as [res r']. destruct Hf as [_ [(-> & Hres & _)|(Hcr & Hs)]].
    + destruct Hres as [->|[e ->]]; cbn [sv_lost]; set_solver.
    + destruct s; [subst res|done..]. apply (setup_ok_any _ _ _ _ _ _ 0 (next_id (sv_registry st))) in Hc.
      by destruct (service_setup u l peer who gen w (next_id (sv_registry st))) as [[h rc]|e|].
  - cbn [clean_event] in Hc. subst removed. cbn [service_step]. by case_bool_decide.
Qed.

(** Along a run. *)
Lemma service_run_keeps evs : forall st, service_inv st -> fits evs st ->
  limits (sv_registry (service_run evs st)) = limits (sv_registry st) /\
  next_id (sv_registry (service_run evs st)) <= next_id (sv_registry st) + Z.of_nat (length evs) /\
  (forallb clean_event evs = true -> sv_lost (service_run evs st) = sv_lost st).
Proof.
  induction evs as [|ev evs IH]; intros st Hi Hf; [split; [done|]; split; [cbn; lia|done]|]. unfold fits in Hf. cbn [length] in Hf |- *.
  destruct (service_step_moves st ev Hi) as [Hi' Hm]; [lia|]. destruct (IH (service_step st ev) Hi') as (H1 & H2 & H3); [destruct Hm; unfold fits; lia|].
  cbn [service_run fold_left forallb]. fold (service_run evs (service_step st ev)).
  split; [rewrite H1; apply Hm|]. split; [destruct Hm; lia|]. intros [Hc Hcs]%andb_true_iff. rewrite (H3 Hcs). by apply clean_step; [|lia|].
Qed.

Lemma service_limits evs st : service_inv st -> fits evs st -> limits (sv_registry (service_run evs st)) = limits (sv_registry st).
Proof. intros Hi Hf. by apply (service_run_keeps evs st Hi Hf). Qed.
Lemma service_next evs st : service_inv st -> fits evs st -> next_id (sv_registry (service_run evs st)) <= next_id (sv_registry st) + Z.of_nat (length evs).
Proof. intros Hi Hf. by apply (service_run_keeps evs st Hi Hf). Qed.
Lemma clean_run evs st : service_inv st -> fits evs st -> forallb clean_event evs = true -> sv_lost (service_run evs st) = sv_lost st.
Proof. intros Hi Hf. by apply (service_run_keeps evs st Hi Hf). Qed.

(** C32. The registry is accounted for.  However requests and relays interleave, the
    associations registered are those of the relays that run, up to the moment each
    removes its own, and those lost to a set-up that failed (or timed out) behind the
    registration or to a relay that could not remove its own; each for one relay only.
    So if no set-up fails there and every relay removes its own, the limits count
    exactly the relays that run, and all capacity comes back. *)
Theorem udp_capacity_accounting lim evs :
  fits evs (service_new lim) ->
  let st := service_run evs (service_new lim) in
  registered (sv_registry st) = sv_running st ∪ sv_lost st /\ sv_running st ## sv_lost st /\
  (active_count (sv_registry st) <= max_associations_global lim)%nat /\
  (forallb clean_event evs = true -> registered (sv_registry st) = sv_running st).
Proof.
  intros Hf. cbv zeta. pose proof (service_run_inv evs _ (service_new_inv lim) Hf) as [Hr Hp Ha].
  split; [done|]. split; [done|]. split.
  - destruct Hr as [Hg _ _ _ _]. by rewrite (service_limits evs _ (service_new_inv lim) Hf) in Hg.
  - intros Hc. rewrite Hp, (clean_run evs _ (service_new_inv lim) Hf Hc). cbn. set_solver.
Qed.

(** ** Exhaustion *)

(** Lost associations alone fill the registry, for this listener. *)
Definition exhausted (l : bytes) (st : service_state) : Prop :=
  (max_associations_global (limits (sv_registry st)) <= size (sv_lost st))%nat \/
  (max_associations_per_listener (limits (sv_registry st)) <= size (filter (listener_is (sv_registry st) l) (sv_lost st)))%nat.

Lemma exhausted_step l st ev : service_inv st -> next_id (sv_registry st) + 1 < U64 -> exhausted l st -> exhausted l (service_step st ev).
Proof.
  intros Hi Hn He. destruct (service_step_moves st ev Hi Hn) as [_ [Hl Hs Hls _]]. unfold exhausted in *. rewrite Hl.
  destruct He as [He|He]; [left|right].
  - pose proof (subseteq_size _ _ Hs). lia.
  - etransitivity; [exact He|]. apply subseteq_size. intros i. rewrite !elem_of_filter. intros [Hli Hin].
    split; [|set_solver]. unfold listener_is in *. rewrite Hls; [done|]. destruct (store (sv_registry st) !! i); [eauto|done].
Qed.

Lemma exhausted_run l evs : forall st, service_inv st -> fits evs st -> exhausted l st -> exhausted l (service_run evs st).
Proof.
  induction evs as [|ev evs IH]; intros st Hi Hf He; [done|]. unfold fits in Hf. cbn [length] in Hf.
  destruct (service_step_moves st ev Hi) as [Hi' Hm]; [lia|]. cbn [service_run fold_left]. apply IH; [done|destruct Hm; unfold fits; lia|].
  apply exhausted_step; [done|lia|done].
Qed.

Lemma exhausted_refuses l st u peer who gen now w : service_inv st -> exhausted l st ->
  exists e, service_create u l peer who gen now w (sv_registry st) = (Err e, sv_registry st).
Proof.
  intros [_ Hp _] He. unfold service_create, create_association. destruct (Nat.leb_spec (max_associations_global (limits (sv_registry st))) (active_count (sv_registry st))) as [|Hg]; [by eexists|].
  destruct (Nat.leb_spec (max_associations_per_listener (limits (sv_registry st))) (active_count_for_listener (sv_registry st) l)) as [|Hpl]; [by eexists|].
  exfalso. unfold active_count, active_count_for_listener in *. rewrite Hp in *. destruct He as [He|He].
  - assert (size (sv_lost st) <= size (sv_running st ∪ sv_lost st))%nat by (apply subseteq_size; set_solver). lia.
  - assert (size (filter (listener_is (sv_registry st) l) (sv_lost st)) <= size (filter (listener_is (sv_registry st) l) (sv_running st ∪ sv_lost st)))%nat
      by (apply subseteq_size; set_solver). lia.
Qed.

(** A failing request on a registry with nothing but lost associations of a listener. *)
Definition all_lost (l : bytes) (st : service_state) : Prop := sv_running st = ∅ /\ forall i, i ∈ sv_lost st -> listener_is (sv_registry st) l i.

Lemma failing_request u l peer who gen now w e st : service_inv st -> next_id (sv_registry st) + 1 < U64 -> all_lost l st ->
  (forall i, service_setup u l peer who gen w i = Err e) ->
  let st' := service_step st (SvAssociate u l peer who gen now NoStall w) in
  all_lost l st' /\ (exhausted l st \/ size (sv_lost st') = S (size (sv_lost st))).
Proof.
  intros Hi Hn [Hrun Hall] Hs. pose proof Hi as [Hr Hp _]. cbv zeta. cbn [service_step]. pose proof (service_future_cases NoStall u l peer who gen now w _ Hr Hn) as Hf.
  destruct (service_future _ _ _ _ _ _ _ _ _) as [res r']. rewrite Hrun in Hp. assert (registered (sv_registry st) = sv_lost st) as Hreg by set_solver.
  destruct Hf as [_ [(-> & Hres & Hlim)|(Hc & ->)]].
  - assert ((registered (sv_registry st) ∖ registered (sv_registry st)) ∪ sv_lost st = sv_lost st) as E by set_solver.
    assert (exhausted l st) as Hex.
    { unfold exhausted. destruct (Hlim ltac:(done)) as [Hg|Hg]; [left|right]; unfold active_count, active_count_for_listener in Hg; by rewrite Hreg in Hg. }
    destruct Hres as [->|[? ->]]; rewrite E; (split; [done|by left]).
  - destruct (create_cases l peer who gen now _ Hr Hn) as [(? & Hc' & _)|(r1 & Hc' & _ & Hnot & Hreg' & Hst & _ & _ & Hfr)]; [congruence|].
    assert (r1 = r') as -> by congruence. rewrite Hs.
    assert (registered r' ∖ registered (sv_registry st) = {[next_id (sv_registry st)]}) as -> by (rewrite Hreg'; set_solver).
    split; [split; [done|]|right; cbn; rewrite size_union by set_solver; by rewrite size_singleton].
    cbn [sv_lost sv_registry]. intros i. unfold listener_is. rewrite Hst. destruct (decide (i = next_id (sv_registry st))) as [->|Hne].
    + intros _. by rewrite lookup_insert_eq.
    + rewrite lookup_insert_ne by done. intros [?%elem_of_singleton|Hin]%elem_of_union; [done|]. by apply Hall.
Qed.

Lemma failing_requests u l peer who gen now w e n : forall st, service_inv st -> fits (replicate n (SvAssociate u l peer who gen now NoStall w)) st -> all_lost l st ->
  (forall i, service_setup u l peer who gen w i = Err e) ->
  let st' := service_run (replicate n (SvAssociate u l peer who gen now NoStall w)) st in
  all_lost l st' /\ (exhausted l st' \/ size (sv_lost st') = (n + size (sv_lost st))%nat).
Proof.
  induction n as [|n IH]; intros st Hi Hf Ha Hs; [by split; [|right]|]. unfold fits in Hf. cbn [replicate length] in Hf.
  set (ev := SvAssociate u l peer who gen now NoStall w) in *. destruct (service_step_moves st ev Hi) as [Hi' Hm]; [lia|].
  destruct (failing_request u l peer who gen now w e st Hi ltac:(lia) Ha Hs) as [Ha' Hor]. fold ev in Ha', Hor.
  assert (fits (replicate n ev) (service_step st ev)) as Hf' by (destruct Hm; unfold fits; lia).
  cbn [replicate service_run fold_left]. destruct (IH _ Hi' Hf' Ha' Hs) as [Ha2 Hor2]. split; [exact Ha2|].
  destruct Hor as [He|Hz]; [left; apply exhausted_run; [done|done|]; apply exhausted_step; [done|lia|done]|].
  destruct Hor2 as [He|Hz2]; [by left|right]. unfold service_run in Hz2. rewrite Hz2. lia.
Qed.

(** C33. A set-up that fails behind the registration is never undone.  On a listener
    with an unspecified bind address and no advertised one, a client that does not
    connect from loopback fails each request, and each leaves its association
    registered: after as many requests as the listener may have associations, nobody
    on this listener can open one any more, whatever happens afterwards. *)
Theorem udp_setup_exhausts lim u l peer who gen now w local evs :
  lu_advertise u = None -> sw_bind w = inl tt -> sw_local_addr w = inl local -> ip_is_unspecified (sa_ip local) = true ->
  peer_is_loopback (sa_ip peer) = false ->
  let attack := replicate (max_associations_per_listener lim) (SvAssociate u l (Some peer) who gen now NoStall w) in
  fits (attack ++ evs) (service_new lim) ->
  let st := service_run (attack ++ evs) (service_new lim) in
  forall u' peer' who' gen' now' w', exists e, service_create u' l peer' who' gen' now' w' (sv_registry st) = (Err e, sv_registry st).
Proof.
  intros Hadv Hb Hl Hun Hpl. cbv zeta. intros Hf u' peer' who' gen' now' w'.
  assert (forall i, service_setup u l (Some peer) who gen w i = Err AdvertiseRequired) as Hs.
  { intros i. unfold service_setup. rewrite Hb, Hl. cbn [answered map_err obind]. unfold compute_advertise_ip. by rewrite Hadv, Hun, Hpl. }
  set (n := max_associations_per_listener lim) in *. set (ev := SvAssociate u l (Some peer) who gen now NoStall w) in *.
  pose proof (service_new_inv lim) as Hi. assert (fits (replicate n ev) (service_new lim)) as Hf1 by (unfold fits in *; rewrite length_app in Hf; lia).
  destruct (failing_requests u l (Some peer) who gen now w AdvertiseRequired n _ Hi Hf1) as [[Hrun Hall] Hor]; [split; [done|cbn; set_solver]|done|].
  fold ev in Hrun, Hall, Hor. pose proof (service_run_inv _ _ Hi Hf1) as Hi1. pose proof (service_limits _ _ Hi Hf1) as Hlim.
  set (st1 := service_run (replicate n ev) (service_new lim)) in *.
  assert (exhausted l st1) as He.
  { destruct Hor as [He|Hz]; [done|right]. rewrite Hlim. cbn [service_new sv_registry limits registry_new]. fold n.
    assert (filter (listener_is (sv_registry st1) l) (sv_lost st1) = sv_lost st1) as -> by set_solver. rewrite Hz. lia. }
  unfold service_run. rewrite fold_left_app. fold (service_run (replicate n ev) (service_new lim)). fold st1. fold (service_run evs st1).
  assert (fits evs st1) as Hf2.
  { pose proof (service_next (replicate n ev) _ Hi Hf1). unfold fits in *. rewrite length_app, length_replicate in *. fold st1 in H. lia. }
  apply exhausted_refuses; [by apply service_run_inv|by apply exhausted_run].
Qed.

(** ** Relays are such steps *)

Section relay_effects.
Context {Regex IpNet R : Type} `{Hok : RandomIndexOk R}.
Context `{HCr : !Crypto}.
Context (is_match : Regex -> bytes -> bool) (cidr_contains : IpNet -> IpAddr -> bool).
Context (rc : RelayConfig) (id : Z).
Abbreviation state := (relay_state (Regex:=Regex) (IpNet:=IpNet) (R:=R)).

Definition relay_service_event (ev : service_event) : Prop :=
  match ev with SvTouch i _ | SvPin i _ | SvClose i | SvRelayEnd i _ => i = id | SvAssociate _ _ _ _ _ _ _ _ | SvCancel _ => False end.

Definition running_of (ph : relay_phase) : gset Z := match ph with Running | Removing _ | Aborted RemovalSpawned => {[id]} | _ => ∅ end.

(** What a relay does to the registry is a run of the service's steps. *)
Lemma relay_step_effects (s : state) ev lost : id ∉ lost ->
  exists evs, Forall relay_service_event evs /\
    let st := {| sv_registry := rs_registry s; sv_running := running_of (rs_phase s); sv_lost := lost |} in
    let s' := relay_step is_match cidr_contains rc id s ev in
    sv_registry (service_run evs st) = rs_registry s' /\ sv_running (service_run evs st) = running_of (rs_phase s').
Proof using Type.
  intros Hid. unfold relay_step. set (st := {| sv_registry := rs_registry s; sv_running := {[id]}; sv_lost := lost |}).
  assert (forall removed, sv_registry (service_run [SvRelayEnd id removed] st) = (if removed then remove id else fun r => r) (rs_registry s) /\
    sv_running (service_run [SvRelayEnd id removed] st) = ∅) as Hend.
  { intros removed. cbn [service_run fold_left service_step]. unfold st. cbn [sv_running sv_registry]. rewrite bool_decide_true by set_solver.
    split; [done|]. cbn [sv_running]. set_solver. }
  assert (forall removed, Forall relay_service_event [SvRelayEnd id removed]) as Hmine by by repeat constructor.
  destruct (rs_phase s) as [|res|res|[]] eqn:Hp; cbn [running_of]; fold st; [| |by exists []; rewrite Hp| |by exists []; rewrite Hp..].
  2: { destruct ev; try by (exists []; rewrite Hp). - exists [SvRelayEnd id true]. split; [done|]. apply (Hend true). - exists [SvRelayEnd id false]. split; [done|]. apply (Hend false). }
  2: { destruct ev; try by (exists []; rewrite Hp). exists [SvRelayEnd id true]. split; [done|]. apply (Hend true). }
  assert (forall res, exists evs, Forall relay_service_event evs /\ sv_registry (service_run evs st) = rs_registry (relay_cleanup id res s) /\
    sv_running (service_run evs st) = {[id]}) as Hclean.
  { intros res. exists [SvClose id]. by split; [repeat constructor|]. }
  assert (forall rt ct pre r, sv_registry (service_run pre st) = r -> sv_running (service_run pre st) = {[id]} -> Forall relay_service_event pre ->
    exists evs, Forall relay_service_event evs /\ sv_registry (service_run evs st) = rs_registry (relay_abort id rt ct (with_registry r s)) /\
    sv_running (service_run evs st) = running_of (rs_phase (relay_abort id rt ct (with_registry r s)))) as Habort.
  { intros rt ct pre r Hr Hrun Hpre. exists (pre ++ SvClose id :: if rt then [] else [SvRelayEnd id (negb ct)]).
    split; [apply Forall_app; split; [done|destruct rt; by repeat constructor]|].
    unfold service_run in *. rewrite fold_left_app. set (s1 := fold_left service_step pre st) in *. cbn [fold_left service_step].
    destruct rt; cbn [fold_left service_step sv_update sv_registry sv_running]; rewrite ?Hr; [done|].
    rewrite bool_decide_true by (cbn; set_solver). split; [by destruct ct|cbn; set_solver]. }
  assert (forall s1 : state, rs_registry s1 = rs_registry s -> rs_phase s1 = Running -> exists evs, Forall relay_service_event evs /\
    sv_registry (service_run evs st) = rs_registry s1 /\ sv_running (service_run evs st) = running_of (rs_phase s1)) as Hkeep.
  { intros s1 Hr H1. exists []. rewrite H1, Hr. done. }
  destruct ev as [now|now|now w data from|e|sent|key peer data| | |rt ct].
  - destruct (store (rs_registry s) !! id) as [a|]; [|by apply Hkeep]. destruct (_ <=? _); [apply (Hclean (Ok tt))|by apply Hkeep].
  - by apply Hkeep.
  - assert (forall pre (s1 : state), sv_registry (service_run pre st) = rs_registry s1 -> sv_running (service_run pre st) = {[id]} ->
      Forall relay_service_event pre -> rs_phase s1 = Running -> exists evs, Forall relay_service_event evs /\
      let s' := match handle_client_datagram is_match cidr_contains rc w now (received (rc_limits rc) data) from s1 with
                | (Ok _, s2) => with_registry (update id (touch now) (rs_registry s2)) s2
                | (Err _, s2) => s2
                | (Panic, s2) => relay_abort id true false s2
                end in
      sv_registry (service_run evs st) = rs_registry s' /\ sv_running (service_run evs st) = running_of (rs_phase s')) as Hhandle.
    { intros pre s1 Hr Hrun Hpre H1. pose proof (handle_keeps is_match cidr_contains rc w now (received (rc_limits rc) data) from s1) as [Hk _].
      pose proof (handle_phase is_match cidr_contains rc w now (received (rc_limits rc) data) from s1) as Hph. rewrite H1 in Hph.
      destruct (handle_client_datagram _ _ _ _ _ _ _ _) as [[u|e|] s2]; cbn [snd] in Hk, Hph; cbv zeta.
      - exists (pre ++ [SvTouch id now]). split; [apply Forall_app; split; [done|by repeat constructor]|]. unfold service_run in *. rewrite fold_left_app.
        cbn [fold_left service_step sv_update sv_registry sv_running with_registry rs_registry rs_phase]. by rewrite Hr, Hk, Hph, Hrun.
      - exists pre. split; [done|]. by rewrite Hk, Hph.
      - destruct (Habort true false pre (rs_registry s1) Hr Hrun Hpre) as (evs & He & Hreg & Hrun'). exists evs. split; [done|].
        rewrite Hreg, Hrun'. cbn [relay_abort drop_all_flows with_registry rs_registry rs_phase]. by rewrite Hk. }
    unfold client_event. destruct (client_pin (rc_limits rc)); [|apply (Hhandle []); [done|done|constructor|done]].
    destruct (store (rs_registry s) !! id) as [a|]; [|apply (Hhandle []); [done|done|constructor|done]].
    destruct (pin_client_addr from a).1; [|(exists [SvPin id from]; split; [by repeat constructor|]; split; [done|]; cbn [with_registry rs_phase]; by rewrite Hp)..].
    apply (Hhandle [SvPin id from]); [done|done|by repeat constructor|done].
  - apply (Hclean (Err (UdpIo e))).
  - unfold respond. destruct (rs_queue s) as [|m q]; [by apply Hkeep|]. destruct (_ ≫= _); [|by apply Hkeep].
    destruct (encode_socks5_udp_datagram _ _); [destruct sent|..]; by apply Hkeep.
  - unfold flow_event. destruct (flow_get _ _); [|by apply Hkeep]. destruct (recv_response _ _ _) as [[]|]; [|by apply Hkeep].
    destruct (_ <? _)%nat; by apply Hkeep.
  - apply (Hclean (Ok tt)).
  - by apply Hkeep.
  - destruct (Habort rt ct [] (rs_registry s)) as (evs & H1 & H2 & H3); [done|done|constructor|]. exists evs. by destruct rt, ct.
Qed.
End relay_effects.

(** ** Sessions *)

(** A reply of which all or a first part was written. *)
Lemma send_reply_io rep a c : exists r o c', send_connect_reply rep a c = (r, c') /\ r <> Panic /\ io [] o c c' /\
  o `prefix_of` ([x05; rep; x00] ++ match encode_reply a with Ok enc => enc | _ => [] end) /\
  (is_ok r = true -> exists enc, encode_reply a = Ok enc /\ o = [x05; rep; x00] ++ enc).
Proof.
  unfold send_connect_reply, mbind, mlift. destruct (encode_reply a) as [enc|e|] eqn:E.
  - destruct (write_all ([x05; rep; x00] ++ enc) c) as [r c'] eqn:Ew. apply write_all_prefix in Ew as (Hn & o & Hp & Hio & Ho & _).
    exists r, o, c'. split; [by destruct r as [[]|e|]|]. split; [done|]. split; [done|]. split; [done|]. intros Hr. exists enc. by split; [|apply Ho].
  - eexists _, [], c. split; [done|]. split; [done|]. split; [apply io_refl|]. split; [apply prefix_nil|done].
  - destruct a as [| |]; cbn [encode_reply] in E; [done| |done]. by destruct (_ <? _)%nat.
Qed.

Lemma hold_control_io by_token c : exists l, io l [] c (hold_control by_token c).
Proof.
  unfold hold_control. destruct by_token; [exists []; apply io_refl|]. unfold read_exact. destruct (_ <=? _)%nat; cbn [snd].
  - exists (take 1 (c_in c)). unfold io. cbn. by rewrite take_drop, app_nil_r.
  - exists (c_in c). unfold io. cbn. by rewrite !app_nil_r.
Qed.

(** The address a client is told, given the local one of the relay's socket: the
    configured IP or else the bound one, if that is a specific one; a client on loopback
    of a socket bound to every address is told loopback.  Whether the client can reach
    it is not asked. *)
Definition told_address (u : CompiledListenerUdpConfig) (peer : option SocketAddr) (local told : SocketAddr) : Prop :=
  sa_port told = sa_port local /\
  match lu_advertise u with
  | Some ip => sa_ip told = ip
  | None =>
      if ip_is_unspecified (sa_ip local)
      then (exists q, peer = Some q /\ peer_is_loopback (sa_ip q) = true) /\ ip_is_loopback (sa_ip told) = true
      else sa_ip told = sa_ip local
  end.

Lemma setup_told u l peer who gen w i h rc : service_setup u l peer who gen w i = Ok (h, rc) ->
  uh_id h = i /\ rc = relay_config u l peer who gen /\ exists local, sw_local_addr w = inl local /\ told_address u peer local (uh_relay_addr h).
Proof.
  unfold service_setup. destruct (sw_bind w); [|done]. destruct (sw_local_addr w) as [a|]; [|done]. cbn [answered map_err obind].
  destruct (compute_advertise_ip _ _ _) as [ip|?|] eqn:E; [|done..]. cbn [obind]. intros [= <- <-]. split; [done|]. split; [done|].
  exists a. split; [done|]. split; [done|]. cbn [uh_relay_addr sa_ip]. unfold compute_advertise_ip in E.
  destruct (lu_advertise u) as [x|]; [by injection E as ->|]. destruct (ip_is_unspecified (sa_ip a)) eqn:Ea; cbn [negb] in E; [|congruence].
  destruct peer as [q|]; [|done]. destruct (peer_is_loopback (sa_ip q)) eqn:Eq; [|done]. injection E as <-. split; [by exists q|by destruct (sa_ip a)].
Qed.

(** No relay: the client was told a failure, as far as it could be. *)
Definition session_refused (r : Registry) (o : bytes) (a : associated) : Prop :=
  sr_outcome (as_report a) <> SoCompleted /\ (exists rep tail, rep <> REP_SUCCESS /\ o `prefix_of` [x05; rep; x00] ++ tail) /\
  (as_registry a = r \/ registered (as_registry a) = {[next_id r]} ∪ registered r).

(** A relay under the configuration [u]. *)
Record session_served (u : CompiledListenerUdpConfig) (cfg : SessionConfig) (gen : Z) (w : service_world) (p : PendingUdpAssociate) (r : Registry) (o : bytes)
    (a : associated) (h : UdpAssociationHandle) (rc : RelayConfig) : Prop := {
  ss_config : rc = relay_config u (cf_listener cfg) (cf_source cfg) (pu_identity p) gen;
  ss_address : exists local, sw_local_addr w = inl local /\ told_address u (cf_source cfg) local (uh_relay_addr h);
  ss_fresh : uh_id h ∉ registered r;
  ss_registered : registered (as_registry a) = {[uh_id h]} ∪ registered r;
  ss_others : forall j, j <> uh_id h -> store (as_registry a) !! j = store r !! j;
  ss_assoc : exists x, store (as_registry a) !! uh_id h = Some x /\ identity x = pu_identity p /\ is_open x = true /\ cancelled x = true;
  ss_told : sr_outcome (as_report a) = SoCompleted ->
    exists enc, encode_reply (relay_socks_addr (uh_relay_addr h)) = Ok enc /\ o = [x05; REP_SUCCESS; x00] ++ enc
}.

Lemma refused_session rep report p c r r' : rep <> REP_SUCCESS -> sr_outcome report <> SoCompleted ->
  r' = r \/ registered r' = {[next_id r]} ∪ registered r ->
  exists l o, io l o c (as_conn (udp_refused rep report p c r')) /\ session_refused r o (udp_refused rep report p c r').
Proof.
  intros Hrep Ho Hreg. destruct (send_reply_io rep (refusal_addr p) c) as (x & o & c' & E & _ & Hio & Hpre & _).
  exists [], o. unfold udp_refused. cbn [as_conn]. rewrite E. split; [done|]. split; [done|]. split; [by eexists rep, _|done].
Qed.

(** Closes the branches that refuse. *)
Ltac refuse :=
  edestruct refused_session as (?l & ?o & ?Hio & ?Href);
  [..|do 3 eexists; split; [reflexivity|]; split; [eassumption|exact Href]]; [done|done|by (left + right)].

Section session_proofs.
Context {Regex IpNet R : Type} `{Hok : RandomIndexOk R}.
Context `{HCr : !Crypto}.
Context (is_match : Regex -> bytes -> bool) (cidr_contains : IpNet -> IpAddr -> bool).

(** A relay that is told to stop removes its association once it has the lock. *)
Lemma cancelled_relay_removes rc id router h (r : Registry) evs : router_wf h router -> is_Some (store r !! id) -> (forall rt ct, Abort rt ct ∉ evs) ->
  id ∉ registered (rs_registry (udp_relay_loop (R:=R) (Regex:=Regex) is_match cidr_contains rc id (evs ++ [Cancelled; RegistryLocked]) (relay_start router h r))).
Proof using Hok.
  intros Hwf Hs Ha. pose proof (relay_loop_inv is_match cidr_contains rc id h [] evs _ (relay_start_inv rc id h router r Hwf Hs)) as Hi. cbn [app] in Hi.
  destruct (slot_left is_match cidr_contains rc id h router r evs) as [Hl1 Hl2]. pose proof (ov_slot _ _ (vi_over _ _ _ _ _ Hi)) as Hslot.
  replace (evs ++ [Cancelled; RegistryLocked]) with ((evs ++ [Cancelled]) ++ [RegistryLocked]) by by rewrite <- app_assoc. rewrite !relay_run_snoc.
  set (s := udp_relay_loop is_match cidr_contains rc id evs (relay_start router h r)) in *. clearbody s. unfold relay_step at 2.
  assert (forall r', id ∉ registered (remove id r')) as Hgone by (intros; cbn; set_solver).
  destruct (rs_phase s) as [|res|res|[]] eqn:Hp; unfold relay_step; rewrite ?Hp; cbn [relay_cleanup rs_phase]; try apply Hgone; try (by intros Hr%Hslot).
  - destruct contended; [|by intros Hr%Hslot]. destruct (Ha false true). by apply Hl1.
  - destruct (Hl2 eq_refl) as (pre & rt & ct & post & res & -> & _). destruct (Ha rt ct). apply elem_of_app. right. apply list_elem_of_here.
Qed.

(** C31. A UDP ASSOCIATE session.  It does not panic.  The client is told success only
    after an association of its own identity was registered (one that nobody else
    has) and its relay started under the listener's configuration.  The address it is
    told has the port of the relay's socket and the configured IP, or else the one the
    socket is bound to, if that is a specific one, or else loopback, and then the client
    came from loopback; nothing says that the client can reach it.  When the session
    ends the token of the association is cancelled, and a relay that sees this and is
    not aborted removes the association when it gets the lock of the registry.  In all
    other cases no relay runs, the reply is a failure, and the registry holds at most
    one association more. *)
Theorem udp_associate_session udp cfg gen now s w by_token p c r :
  reg_inv r -> next_id r + 1 < U64 ->
  exists a l o, execute_udp_associate udp cfg gen now s w by_token p c r = Ok a /\ io l o c (as_conn a) /\
  match as_spawned a with
  | Some (h, rc) =>
      (exists u, udp = Some u /\ lu_enabled u = true /\ session_served u cfg gen w p r o a h rc) /\
      (forall (router : Router Regex IpNet R) heap r' evs, router_wf heap router -> is_Some (store r' !! uh_id h) -> (forall rt ct, Abort rt ct ∉ evs) ->
         uh_id h ∉ registered (rs_registry (udp_relay_loop is_match cidr_contains rc (uh_id h) (evs ++ [Cancelled; RegistryLocked]) (relay_start router heap r'))))
  | None => session_refused r o a
  end.
Proof using Hok.
  intros Hr Hn.
  unfold execute_udp_associate. destruct udp as [u|]; [|refuse].
  destruct (lu_enabled u) eqn:Hen; [|refuse].
  pose proof (service_future_cases s u (cf_listener cfg) (cf_source cfg) (pu_identity p) gen now w r Hr Hn) as Hc.
  destruct (service_future _ _ _ _ _ _ _ _ _) as [res r']. destruct Hc as [Hnp [(-> & Hres & _)|(Hcr & Hs)]].
  { destruct Hres as [->|[e ->]]; refuse. }
  destruct (create_cases (cf_listener cfg) (cf_source cfg) (pu_identity p) gen now r Hr Hn) as [(? & Hc' & _)|(r1 & Hc' & _ & Hnot & Hreg & Hst & _ & _ & _)]; [congruence|].
  assert (r1 = r') as -> by congruence.
  destruct s; [|done|subst res; refuse].
  subst res. destruct (service_setup _ _ _ _ _ _ _) as [[h rc]|e|] eqn:Es; [|refuse|done].
  apply setup_told in Es as (Hid & Hrc & Hadv).
  assert (forall report c1 o, (sr_outcome report = SoCompleted -> exists enc, encode_reply (relay_socks_addr (uh_relay_addr h)) = Ok enc /\ o = [x05; REP_SUCCESS; x00] ++ enc) ->
    session_served u cfg gen w p r o {| as_report := report; as_conn := c1; as_registry := update (uh_id h) cancel_token r'; as_spawned := Some (h, rc) |} h rc) as Hserved.
  { intros report c1 o Ho. rewrite Hid. split; cbn [as_registry as_report update registered store]; rewrite ?Hid; [done..| | |done].
    - intros j Hj. by rewrite lookup_alter_ne, Hst, lookup_insert_ne by done.
    - exists (cancel_token (assoc_new (cf_listener cfg) (cf_source cfg) (pu_identity p) gen now)). by rewrite Hst, lookup_alter_eq, lookup_insert_eq. }
  destruct (send_reply_io REP_SUCCESS (relay_socks_addr (uh_relay_addr h)) c) as (x & o & c' & E & Hx & Hio & _ & Hok').
  unfold send_udp_associate_reply. rewrite E. destruct x as [[]|e|]; [| |done].
  - destruct (hold_control_io by_token c') as [l Hl]. eexists _, l, o. split; [reflexivity|]. cbn [as_spawned as_conn]. split.
    + pose proof (io_trans _ _ _ _ _ _ _ Hio Hl) as Ht. by rewrite app_nil_r in Ht.
    + split; [|intros; by apply cancelled_relay_removes]. exists u. split; [done|]. split; [done|]. apply Hserved. intros _. by apply Hok'.
  - eexists _, [], o. split; [reflexivity|]. cbn [as_spawned as_conn]. split; [done|].
    split; [|intros; by apply cancelled_relay_removes]. exists u. split; [done|]. split; [done|]. by apply Hserved.
Qed.
End session_proofs.

(** ** Examples *)

Import SampleCrypto.

Definition demo_udp : CompiledListenerUdpConfig :=
  {| lu_mode := Socks5UdpAssociate; lu_enabled := true; lu_bind := {| sa_ip := V4 [x00; x00; x00; x00]; sa_port := 0 |}; lu_advertise := None; lu_idle_timeout := 60 * NANOS;
     lu_target_idle_timeout := 30 * NANOS; lu_max_associations := 2; lu_max_targets_per_association := 4; lu_max_datagram_size := 1500; lu_client_pin := true;
     lu_allow_private_egress := false; lu_max_associations_global := 8; lu_fixed_target := None; lu_upstream_connect_timeout := 10 * NANOS;
     lu_upstream_udp_bind := {| sa_ip := V4 [x00; x00; x00; x00]; sa_port := 0 |} |}.
Definition service_demo_world : service_world := {| sw_bind := inl tt; sw_local_addr := inl {| sa_ip := V4 [x00; x00; x00; x00]; sa_port := 4000 |} |}.
Definition loopback_peer : SocketAddr := {| sa_ip := v4_localhost; sa_port := 999 |}.
Definition remote_peer : SocketAddr := {| sa_ip := V4 [x0a; x00; x00; x07]; sa_port := 999 |}.
Definition demo_service : service_state := service_new (listener_limits demo_udp).
Definition good_request : service_event := SvAssociate demo_udp (str "in") (Some loopback_peer) Anonymous 1 0 NoStall service_demo_world.

Lemma udp_capacity_accounting_witness :
  let st := service_run [good_request; good_request; SvRelayEnd 1 true] demo_service in
  registered (sv_registry st) = {[2]} /\ sv_running st = {[2]}.
Proof.
  cbv zeta. destruct (udp_capacity_accounting (listener_limits demo_udp) [good_request; good_request; SvRelayEnd 1 true]) as (_ & _ & _ & Hc); [done|].
  unfold demo_service. rewrite Hc by reflexivity. split; by vm_compute.
Defined.

Lemma udp_setup_exhausts_witness :
  exists e, (service_create demo_udp (str "in") (Some loopback_peer) Anonymous 1 5 service_demo_world
    (sv_registry (service_run (replicate 2 (SvAssociate demo_udp (str "in") (Some remote_peer) Anonymous 1 0 NoStall service_demo_world) ++ [SvRelayEnd 1 true]) demo_service))).1 = Err e.
Proof.
  edestruct (udp_setup_exhausts (listener_limits demo_udp) demo_udp (str "in") remote_peer Anonymous 1 0 service_demo_world
    {| sa_ip := V4 [x00; x00; x00; x00]; sa_port := 4000 |} [SvRelayEnd 1 true]) as [e He]; [reflexivity..| |exists e; exact (f_equal fst He)]. reflexivity.
Defined.

Lemma udp_associate_session_witness :
  exists a, execute_udp_associate (Some demo_udp) {| cf_source := Some loopback_peer; cf_listener := str "in"; cf_local_bind := None |} 1 0 NoStall service_demo_world true
      {| pu_protocol := TpSocks5; pu_identity := Anonymous; pu_client_hint := None |} (Conn [] None [] None) (registry_new (listener_limits demo_udp)) = Ok a /\
    c_out (as_conn a) = [x05; x00; x00; x01; x7f; x00; x00; x01; x0f; xa0] /\ registered (as_registry a) = {[1]}.
Proof.
  edestruct (udp_associate_session (R:=DeterministicRandom) no_regex no_cidr (Some demo_udp) {| cf_source := Some loopback_peer; cf_listener := str "in"; cf_local_bind := None |} 1 0 NoStall service_demo_world true
    {| pu_protocol := TpSocks5; pu_identity := Anonymous; pu_client_hint := None |} (Conn [] None [] None) (registry_new (listener_limits demo_udp)))
    as (a & l & o & He & Hio & _); [apply reg_inv_new|done|].
  exists a. split; [exact He|]. vm_compute in He. injection He as <-. by split.
Defined.
