(* ===== verification/ConfigRules.v ===== *)
(** * Configuration: durations and rules

    Models [crates/eggress-config/src]: durations ([validate/core.rs]), the rule part
    of [model.rs], its validation ([validate/rules.rs]) and its compilation into match
    expressions and actions ([compile/rules.rs]).

    An error keeps its path, as a list of segments; its text is not modelled.  Regular
    expressions and CIDR blocks are parsed by libraries: parameters here.  The [quic]
    feature of the build is a parameter too. *)

From S2P Require Import Prelude Bytes Decimal NetAddr Connector Dispatch Uri Capability Chain Health Upstream Scheduler Matcher Router HttpText.
Local Open Scope Z_scope.

(** ** Errors *)

Inductive seg := Key (k : bytes) | Idx (i : nat).
Definition path := list seg.
Definition key (s : string) : seg := Key (str s).

Inductive ConfigError := ConfigIo | ConfigParse | Validation (p : path) | UnsupportedVersion (v : Z).

(** [collect::<Result<Vec<_>, _>>()]. *)
Fixpoint collect {E A B} (f : A -> outcome E B) (l : list A) : outcome E (list B) :=
  match l with
  | [] => Ok []
  | a :: r => let? b := f a in let? bs := collect f r in Ok (b :: bs)
  end.

(** [if let Some(x) = ..] in a validator. *)
Definition when_some {A} (o : option A) (f : A -> list ConfigError) : list ConfigError := match o with Some a => f a | None => [] end.
Definition fails (p : path) (b : bool) : list ConfigError := if b then [Validation p] else [].

(** The errors of the items of a list, with their positions from [i] on. *)
Section each.
Context {A B : Type}.
Variable f : nat -> A -> list ConfigError.
Fixpoint each (i : nat) (l : list A) : list ConfigError :=
  match l with [] => [] | a :: r => f i a ++ each (S i) r end.

(** Results of a list, with a counter threaded through. *)
Variable g : A -> nat -> outcome ConfigError (B * nat).
Fixpoint thread (l : list A) (n : nat) : outcome ConfigError (list B * nat) :=
  match l with
  | [] => Ok ([], n)
  | a :: r => let? (b, n) := g a n in let? (bs, n) := thread r n in Ok (b :: bs, n)
  end.
End each.

Definition one_of (l : list bytes) (s : bytes) : bool := bool_decide (s ∈ l).

(** ** Durations

    In nanoseconds.  The unit starts at the first alphabetic character.  A character
    beyond ASCII counts as one here: if it is not, the source fails on the number or
    for want of a unit, and the unit read here is unknown. *)

Definition unit_start (b : byte) : bool :=
  let z := b2Z b in ((65 <=? z) && (z <=? 90)) || ((97 <=? z) && (z <=? 122)) || (128 <=? z).

Fixpoint find_where {A} (p : A -> bool) (s : list A) : option nat :=
  match s with [] => None | b :: r => if p b then Some 0%nat else S <$> find_where p r end.

Definition checked_secs (factor value : Z) : outcome unit Z := if value * factor <? U64 then Ok (value * factor * NANOS) else Err tt.

Definition parse_duration (s : bytes) : outcome unit Z :=
  let s := trim s in
  match s with
  | [] => Err tt
  | _ =>
      match find_where unit_start s with
      | None => Err tt
      | Some pos =>
          let u := drop pos s in
          let? value := ok_or tt (parse_u64 (take pos s)) in
          if bool_decide (u = str "ns") then Ok value
          else if bool_decide (u = str "us") || bool_decide (u = [xce; xbc; x73]) then Ok (value * 1000)
          else if bool_decide (u = str "ms") then Ok (value * 1000000)
          else if bool_decide (u = str "s") then Ok (value * NANOS)
          else if bool_decide (u = str "m") then checked_secs 60 value
          else if bool_decide (u = str "h") then checked_secs 3600 value
          else if bool_decide (u = str "d") then checked_secs 86400 value
          else Err tt
      end
  end.

Definition validate_duration (s : bytes) : outcome ConfigError Z := map_err (fun _ => Validation [key "duration"]) (parse_duration s).

(** ** Rules as written *)

Record LeafMatcher := {
  l_host_exact : option bytes; l_host_suffix : option bytes; l_host_regex : option bytes; l_destination_port_regex : option bytes;
  l_destination_port : option Z; l_destination_port_range : option (list Z); l_destination_port_set : option (list Z);
  l_destination_cidr : option bytes; l_source_cidr : option bytes; l_source_port : option Z; l_listener : option bytes;
  l_protocol : option bytes; l_identity : option bytes; l_transport : option bytes; l_reverse_listener : option bytes
}.

Inductive MatchExprConfig :=
| Composite (all any_of : option (list MatchExprConfig)) (not : option MatchExprConfig)
| Leaf (leaf : LeafMatcher).

Record RuleConfig := {
  r_id : bytes; r_host_exact : option bytes; r_host_suffix : option bytes; r_host_regex : option bytes; r_destination_port_regex : option bytes;
  r_destination_port : option Z; r_any : option bool; r_match : option MatchExprConfig; r_direct : option bool;
  r_upstream_group : option bytes; r_reject : option bytes
}.

(** ** Validation *)

Definition MAX_MATCH_EXPR_DEPTH : nat := 10.

Definition VALID_PROTOCOLS : list bytes :=
  map str ["http"; "socks4"; "socks5"; "shadowsocks"; "trojan"; "h2"; "h3"; "quic"; "websocket"; "ws"; "wss"; "raw"; "echo"]%string.
Definition VALID_REJECT_REASONS : list bytes := map str ["unsupported-protocol"; "auth-required"; "access-denied"; "blocked"; "internal-error"]%string.

Definition count_true (l : list bool) : nat := length (filter (fun b => b = true) l).
Definition some {A} (o : option A) : bool := bool_decide (is_Some o).

Section rules.
Context {Regex IpNet : Type}.
Context (regex_new : bytes -> option Regex) (parse_ipnet : bytes -> option IpNet) (quic : bool).

Definition validate_leaf (l : LeafMatcher) (p : path) : list ConfigError :=
  when_some (l_host_regex l) (fun s => fails (p ++ [key "host_regex"]) (negb (some (regex_new s)))) ++
  when_some (l_destination_port_regex l) (fun s => fails (p ++ [key "destination_port_regex"]) (negb (some (regex_new s)))) ++
  when_some (l_destination_cidr l) (fun s => fails (p ++ [key "destination_cidr"]) (negb (some (parse_ipnet s)))) ++
  when_some (l_source_cidr l) (fun s => fails (p ++ [key "source_cidr"]) (negb (some (parse_ipnet s)))) ++
  when_some (l_destination_port_range l) (fun r =>
    match r with
    | [a; b] => fails (p ++ [key "destination_port_range"]) (b <? a)
    | _ => fails (p ++ [key "destination_port_range"]) true
    end) ++
  when_some (l_destination_port_set l) (fun ports => fails (p ++ [key "destination_port_set"]) (bool_decide (ports = []))) ++
  when_some (l_protocol l) (fun s => fails (p ++ [key "protocol"]) (negb (one_of VALID_PROTOCOLS s) && negb (bool_decide (s = str "httponly")))).

Fixpoint validate_match_expr (e : MatchExprConfig) (p : path) (depth : nat) : list ConfigError :=
  if (MAX_MATCH_EXPR_DEPTH <=? depth)%nat then [Validation p]
  else match e with
  | Composite all any_of not =>
      fails (p ++ [key "match"]) (negb (some all) && negb (some any_of) && negb (some not)) ++
      match all with
      | Some l =>
          fails (p ++ [key "match"; key "all"]) (bool_decide (length l = 0%nat)) ++
          each (fun j c => validate_match_expr c (p ++ [key "match"; key "all"; Idx j]) (S depth)) 0 l
      | None => []
      end ++
      match any_of with
      | Some l =>
          fails (p ++ [key "match"; key "any_of"]) (bool_decide (length l = 0%nat)) ++
          each (fun j c => validate_match_expr c (p ++ [key "match"; key "any_of"; Idx j]) (S depth)) 0 l
      | None => []
      end ++
      match not with Some c => validate_match_expr c (p ++ [key "match"; key "not"]) (S depth) | None => [] end
  | Leaf l => validate_leaf l p
  end.

Definition matcher_count (r : RuleConfig) : nat :=
  count_true [some (r_host_exact r); some (r_host_suffix r); some (r_host_regex r); some (r_destination_port r); some (r_destination_port_regex r); default false (r_any r)].
Definition action_count (r : RuleConfig) : nat := count_true [some (r_direct r); some (r_upstream_group r); some (r_reject r)].

Definition validate_rule (group_ids : list bytes) (i : nat) (r : RuleConfig) : list ConfigError :=
  let p := [key "rules"; Idx i] in
  match r_match r with
  | None =>
      fails p (1 <? matcher_count r)%nat ++
      when_some (r_host_regex r) (fun s => fails p (negb (some (regex_new s)))) ++
      when_some (r_destination_port_regex r) (fun s => fails p (negb (some (regex_new s))))
  | Some e => fails p (0 <? matcher_count r)%nat ++ validate_match_expr e p 0
  end ++
  fails p (negb (action_count r =? 1)%nat) ++
  when_some (r_upstream_group r) (fun g => fails p (negb (one_of group_ids g))) ++
  when_some (r_reject r) (fun s => fails p (negb (one_of VALID_REJECT_REASONS s))).

Definition validate_rules (rules : list RuleConfig) (group_ids : list bytes) : list ConfigError := each (validate_rule group_ids) 0 rules.

(** ** Could a rule match UDP traffic? *)

Definition leaf_could_match_udp (l : LeafMatcher) : bool :=
  match l_transport l with Some t => bool_decide (t = str "udp") | None => true end.

Fixpoint matcher_could_match_udp_limited (e : MatchExprConfig) (depth : nat) : bool :=
  if (MAX_MATCH_EXPR_DEPTH <=? depth)%nat then true
  else match e with
  | Leaf l => leaf_could_match_udp l
  | Composite all any_of not =>
      match all with
      | Some l => forallb (fun c => matcher_could_match_udp_limited c (S depth)) l
      | None =>
          match any_of with
          | Some l => existsb (fun c => matcher_could_match_udp_limited c (S depth)) l
          | None => match not with Some c => matcher_could_match_udp_limited c (S depth) | None => true end
          end
      end
  end.
Definition matcher_could_match_udp (e : MatchExprConfig) : bool := matcher_could_match_udp_limited e 0.

Definition rule_upstream_group_could_match_udp (r : RuleConfig) : bool :=
  match r_match r with Some e => matcher_could_match_udp e | None => true end.

(** ** Compilation *)

Definition compile_reject_reason (s : bytes) : outcome ConfigError RejectReason :=
  if bool_decide (s = str "unsupported-protocol") then Ok RrUnsupportedProtocol
  else if bool_decide (s = str "auth-required") then Ok RrAuthRequired
  else if bool_decide (s = str "access-denied") then Ok RrAccessDenied
  else if bool_decide (s = str "blocked") then Ok RrBlocked
  else if bool_decide (s = str "internal-error") then Ok RrInternalError
  else Err (Validation [key "reject"]).

Definition compile_protocol (s : bytes) : outcome ConfigError ProtocolId :=
  if bool_decide (s = str "http") then Ok PHttp
  else if bool_decide (s = str "httponly") then Ok PHttp
  else if bool_decide (s = str "socks4") then Ok PSocks4
  else if bool_decide (s = str "socks5") then Ok PSocks5
  else if bool_decide (s = str "shadowsocks") then Ok PShadowsocks
  else if bool_decide (s = str "ssr") then Ok PShadowsocksR
  else if bool_decide (s = str "trojan") then Ok PTrojan
  else if bool_decide (s = str "h2") then Ok PHttp2
  else if bool_decide (s = str "h3") then if quic then Ok PHttp3 else Err (Validation [key "protocols"])
  else if bool_decide (s = str "quic") then if quic then Ok PQuic else Err (Validation [key "protocols"])
  else if one_of [str "websocket"; str "ws"; str "wss"] s then Ok PWebSocket
  else if one_of [str "raw"; str "tunnel"] s then Ok PRaw
  else if bool_decide (s = str "echo") then Ok PEcho
  else Err (Validation [key "protocols"]).

Definition compile_transport (s : bytes) : outcome ConfigError TransportKind :=
  if bool_decide (s = str "tcp") then Ok Tcp
  else if bool_decide (s = str "udp") then Ok Udp
  else if bool_decide (s = str "reverse_tcp") then Ok ReverseTcp
  else Err (Validation [key "transport"]).

Abbreviation expr := (MatchExpr Regex IpNet).

(** A field that is present pushes one matcher. *)
Definition field {A} (o : option A) (f : A -> outcome ConfigError expr) : outcome ConfigError (list expr) :=
  match o with Some a => let? m := f a in Ok [m] | None => Ok [] end.

Definition regex_at (p : string) (s : bytes) : outcome ConfigError Regex := ok_or (Validation [key p]) (regex_new s).
Definition ipnet_at (p : string) (s : bytes) : outcome ConfigError IpNet := ok_or (Validation [key p]) (parse_ipnet s).

Definition leaf_matchers (l : LeafMatcher) : outcome ConfigError (list expr) :=
  let? m1 := field (l_host_exact l) (fun s => Ok (MHostExact (normalize_host_for_exact s))) in
  let? m2 := field (l_host_suffix l) (fun s => Ok (MHostSuffix (normalize_host_for_exact s))) in
  let? m3 := field (l_host_regex l) (fun s => let? re := regex_at "host_regex" s in Ok (MHostRegex re)) in
  let? m4 := field (l_destination_port_regex l) (fun s => let? re := regex_at "destination_port_regex" s in Ok (MDestinationPortRegex re)) in
  let? m5 := field (l_destination_port l) (fun p => Ok (MDestinationPort (PmExact p))) in
  let? m6 := field (l_destination_port_range l) (fun r =>
    match r with
    | [a; b] => let? m := map_err (fun _ => Validation [key "destination_port_range"]) (new_range a b) in Ok (MDestinationPort m)
    | _ => Err (Validation [key "destination_port_range"])
    end) in
  let? m7 := field (l_destination_port_set l) (fun ports =>
    if bool_decide (ports = []) then Err (Validation [key "destination_port_set"]) else Ok (MDestinationPort (new_set ports))) in
  let? m8 := field (l_destination_cidr l) (fun s => let? net := ipnet_at "destination_cidr" s in Ok (MDestinationCidr net)) in
  let? m9 := field (l_source_cidr l) (fun s => let? net := ipnet_at "source_cidr" s in Ok (MSourceCidr net)) in
  let? m10 := field (l_source_port l) (fun p => Ok (MSourcePort (PmExact p))) in
  let? m11 := field (l_listener l) (fun s => Ok (MListener s)) in
  let? m12 := field (l_protocol l) (fun s => let? p := compile_protocol s in Ok (MProtocol p)) in
  let? m13 := field (l_identity l) (fun s => Ok (MIdentity s)) in
  let? m14 := field (l_transport l) (fun s => let? t := compile_transport s in Ok (MTransport t)) in
  let? m15 := field (l_reverse_listener l) (fun s => Ok (MReverseListener s)) in
  Ok (m1 ++ m2 ++ m3 ++ m4 ++ m5 ++ m6 ++ m7 ++ m8 ++ m9 ++ m10 ++ m11 ++ m12 ++ m13 ++ m14 ++ m15).

Definition compile_leaf_matcher (l : LeafMatcher) : outcome ConfigError expr :=
  let? matchers := leaf_matchers l in
  match matchers with
  | [] => Ok MAny
  | [m] => Ok m
  | _ => Ok (MAll matchers)
  end.

Definition MAX_EXPRESSION_DEPTH : nat := 10.
Definition MAX_NODE_COUNT : nat := 100.

Fixpoint compile_match_config_limited (e : MatchExprConfig) (depth node_count : nat) : outcome ConfigError (expr * nat) :=
  let node_count := S node_count in
  if (MAX_NODE_COUNT <? node_count)%nat then Err (Validation [key "match"])
  else if (MAX_EXPRESSION_DEPTH <=? depth)%nat then Err (Validation [key "match"])
  else
    let go := thread (fun c => compile_match_config_limited c (S depth)) in
    match e with
    | Composite (Some all) _ _ =>
        if bool_decide (length all = 0%nat) then Err (Validation [key "match"; key "all"])
        else let? (ms, n) := go all node_count in Ok (MAll ms, n)
    | Composite None (Some any_of) _ =>
        if bool_decide (length any_of = 0%nat) then Err (Validation [key "match"; key "any_of"])
        else let? (ms, n) := go any_of node_count in Ok (MAnyOf ms, n)
    | Composite None None (Some not) =>
        let? (m, n) := compile_match_config_limited not (S depth) node_count in Ok (MNot m, n)
    | Composite None None None => Err (Validation [key "match"])
    | Leaf l => let? m := compile_leaf_matcher l in Ok (m, node_count)
    end.

Definition compile_match_config (e : MatchExprConfig) : outcome ConfigError expr :=
  let? (m, _) := compile_match_config_limited e 0 0 in Ok m.

Definition compile_matcher (r : RuleConfig) : outcome ConfigError expr :=
  let exact := some (r_host_exact r) in let suffix := some (r_host_suffix r) in let hre := some (r_host_regex r) in
  let port := some (r_destination_port r) in let pre := some (r_destination_port_regex r) in let any := default false (r_any r) in
  match r_match r with
  | Some e => compile_match_config e
  | None =>
      match r_host_exact r, negb suffix && negb hre && negb port && negb pre && negb any with
      | Some s, true => Ok (MHostExact (normalize_host_for_exact s))
      | _, _ =>
      match r_host_suffix r, negb exact && negb hre && negb port && negb pre && negb any with
      | Some s, true => Ok (MHostSuffix (normalize_host_for_exact s))
      | _, _ =>
      match r_host_regex r, negb exact && negb suffix && negb port && negb pre && negb any with
      | Some s, true => let? re := regex_at "host_regex" s in Ok (MHostRegex re)
      | _, _ =>
      let? port_regex := match r_destination_port_regex r with
                         | Some s =>
                             let? re := regex_at "destination_port_regex" s in
                             Ok (if negb exact && negb suffix && negb hre && negb port && negb any then Some re else None)
                         | None => Ok None
                         end in
      match port_regex with
      | Some re => Ok (MDestinationPortRegex re)
      | None =>
      match r_destination_port r, negb exact && negb suffix && negb hre && negb pre && negb any with
      | Some p, true => Ok (MDestinationPort (PmExact p))
      | _, _ =>
          if any || (negb exact && negb suffix && negb hre && negb port) then Ok MAny
          else Err (Validation [Key (r_id r)])
      end end end end end
  end.

Definition compile_action (group_ids : list bytes) (r : RuleConfig) : outcome ConfigError RouteActionSpec :=
  match r_direct r with
  | Some true => Ok ActDirect
  | Some false => Err (Validation [Key (r_id r)])
  | None =>
      match r_upstream_group r with
      | Some g => if one_of group_ids g then Ok (ActUpstreamGroup g) else Err (Validation [Key (r_id r)])
      | None =>
          match r_reject r with
          | Some s => let? reason := compile_reject_reason s in Ok (ActReject reason)
          | None => Err (Validation [Key (r_id r)])
          end
      end
  end.

Definition compile_rule (group_ids : list bytes) (r : RuleConfig) : outcome ConfigError (CompiledRule Regex IpNet) :=
  let? m := compile_matcher r in
  let? a := compile_action group_ids r in
  Ok {| rule_id := r_id r; matcher := m; action := a |}.

(** The rules of the file; those of a rules file go behind them. *)
Definition compile_rules (group_ids : list bytes) (rules : list RuleConfig) : outcome ConfigError (list (CompiledRule Regex IpNet)) :=
  collect (compile_rule group_ids) rules.
End rules.

Definition compile_default_action (dflt : option bytes) : RouteActionSpec :=
  match dflt with
  | Some s =>
      if bool_decide (s = str "direct") then ActDirect
      else if bool_decide (s = str "reject") then ActReject RrBlocked
      else ActUpstreamGroup s
  | None => ActDirect
  end.

(** ** What a rule says *)

Definition present {A} (o : option A) (f : A -> bool) : bool := match o with Some a => f a | None => true end.

Section meaning.
Context {Regex IpNet : Type}.
Context (regex_new : bytes -> option Regex) (parse_ipnet : bytes -> option IpNet) (quic : bool).
Context (is_match : Regex -> bytes -> bool) (cidr_contains : IpNet -> IpAddr -> bool).
Abbreviation sat m q := (matches is_match cidr_contains m q).

Definition regex_says (s text : bytes) : bool := match regex_new s with Some re => is_match re text | None => false end.
Definition cidr_says (s : bytes) (ip : IpAddr) : bool := match parse_ipnet s with Some net => cidr_contains net ip | None => false end.

(** Every condition of a leaf holds of the request. *)
Definition leaf_means (l : LeafMatcher) (q : RouteRequest) : bool :=
  let port := tport (rq_target q) in
  present (l_host_exact l) (fun s => sat (MHostExact (normalize_host_for_exact s)) q) &&
  (present (l_host_suffix l) (fun s => sat (MHostSuffix (normalize_host_for_exact s)) q) &&
  (present (l_host_regex l) (fun s => regex_says s (target_host_str (host (rq_target q)))) &&
  (present (l_destination_port_regex l) (fun s => match fmt_port port with Some p => regex_says s p | None => false end) &&
  (present (l_destination_port l) (fun p => bool_decide (port = p)) &&
  (present (l_destination_port_range l) (fun r => match r with [a; b] => (a <=? port) && (port <=? b) | _ => false end) &&
  (present (l_destination_port_set l) (fun ports => bool_decide (port ∈ ports)) &&
  (present (l_destination_cidr l) (fun s => match host (rq_target q) with Ip ip => cidr_says s ip | DomainName _ => false end) &&
  (present (l_source_cidr l) (fun s => match rq_source q with Some a => cidr_says s (sa_ip a) | None => false end) &&
  (present (l_source_port l) (fun p => match rq_source q with Some a => bool_decide (sa_port a = p) | None => false end) &&
  (present (l_listener l) (fun s => bool_decide (rq_listener q = s)) &&
  (present (l_protocol l) (fun s => match compile_protocol quic s with Ok p => bool_decide (rq_protocol q = p) | _ => false end) &&
  (present (l_identity l) (fun s => match rq_identity q with Anonymous => false | Username u => bool_decide (u = s) | Opaque o => bool_decide (o = s) end) &&
  (present (l_transport l) (fun s => bool_decide (s = fmt_transport (rq_transport q))) &&
   present (l_reverse_listener l) (fun s => bool_decide (rq_transport q = ReverseTcp) && bool_decide (rq_listener q = s))))))))))))))).

(** What an expression says: every part a composite has must hold. *)
Fixpoint expr_means (e : MatchExprConfig) (q : RouteRequest) : bool :=
  match e with
  | Leaf l => leaf_means l q
  | Composite all any_of not =>
      present all (forallb (fun c => expr_means c q)) && present any_of (existsb (fun c => expr_means c q)) &&
      match not with Some c => negb (expr_means c q) | None => true end
  end.

(** Compilation keeps one part of every composite: the first of [all], [any_of] and
    [not] that is there. *)
Fixpoint first_parts (e : MatchExprConfig) : MatchExprConfig :=
  match e with
  | Leaf l => Leaf l
  | Composite (Some l) _ _ => Composite (Some (map first_parts l)) None None
  | Composite None (Some l) _ => Composite None (Some (map first_parts l)) None
  | Composite None None (Some c) => Composite None None (Some (first_parts c))
  | Composite None None None => Composite None None None
  end.

(** Every composite has exactly one part, as the message of validation demands. *)
Fixpoint one_part (e : MatchExprConfig) : bool :=
  match e with
  | Leaf _ => true
  | Composite (Some l) None None | Composite None (Some l) None => forallb one_part l
  | Composite None None (Some c) => one_part c
  | _ => false
  end.

Lemma one_part_kept : forall e, one_part e = true -> first_parts e = e.
Proof using Type.
  fix IH 1. intros e. destruct e as [all any_of not|l]; [|done].
  assert (forall l, forallb one_part l = true -> map first_parts l = l) as Hl.
  { fix IHl 1. intros l. destruct l as [|c l]; [done|]. cbn. intros [Hc Hl]%andb_true_iff. f_equal; [by apply IH|by apply IHl]. }
  destruct all as [l|], any_of as [k|], not as [c|]; try done; cbn; intros H; do 2 f_equal; auto.
Qed.

Definition rule_exact (r : RuleConfig) : bool := match r_match r with Some e => one_part e | None => true end.

Definition rule_means (r : RuleConfig) (q : RouteRequest) : bool :=
  match r_match r with
  | Some e => expr_means e q
  | None =>
      present (r_host_exact r) (fun s => sat (MHostExact (normalize_host_for_exact s)) q) &&
      present (r_host_suffix r) (fun s => sat (MHostSuffix (normalize_host_for_exact s)) q) &&
      present (r_host_regex r) (fun s => regex_says s (target_host_str (host (rq_target q)))) &&
      present (r_destination_port_regex r) (fun s => match fmt_port (tport (rq_target q)) with Some p => regex_says s p | None => false end) &&
      present (r_destination_port r) (fun p => bool_decide (tport (rq_target q) = p))
  end.

Lemma field_means {A} (o : option A) f g ms q :
  field (Regex:=Regex) (IpNet:=IpNet) o f = Ok ms -> (forall a m, f a = Ok m -> sat m q = g a) ->
  forallb (fun m => sat m q) ms = present o g.
Proof using Type.
  unfold field. destruct o as [a|]; cbn [present]; [|by intros [= <-]]. intros (m & Hm & [= <-])%obind_ok Hf. cbn. by rewrite (Hf a m Hm), andb_true_r.
Qed.

Lemma Z_eqb_bool_decide x y : (x =? y) = bool_decide (x = y).
Proof using Type. apply Bool.eq_iff_eq_true. by rewrite Z.eqb_eq, bool_decide_eq_true. Qed.

Lemma compile_transport_says s t q : compile_transport s = Ok t -> bool_decide (rq_transport q = t) = bool_decide (s = fmt_transport (rq_transport q)).
Proof using Type.
  unfold compile_transport. destruct (rq_transport q); cbn [fmt_transport]; repeat case_bool_decide; intros [= <-]; by subst.
Qed.

(** The matchers of a leaf are its conditions. *)
Lemma leaf_matchers_mean l ms q : leaf_matchers regex_new parse_ipnet quic l = Ok ms -> forallb (fun m => sat m q) ms = leaf_means l q.
Proof using Type.
  unfold leaf_matchers. intros H. repeat (apply obind_ok in H as (?ms & ?Hf & H)). injection H as <-. rewrite !forallb_app. unfold leaf_means.
  repeat match goal with Hf : field _ _ = Ok ?ms |- context [forallb _ ?ms] => erewrite (field_means _ _ _ ms q Hf); clear Hf end; [reflexivity|..];
    intros a m Hm; try (injection Hm as <-; reflexivity); try (apply obind_ok in Hm as (x & Hx & [= <-])); cbn [matches].
  - by apply compile_transport_says.
  - by rewrite Hx.
  - injection Hm as <-. cbn. destruct (rq_source q); [|done]. apply Z_eqb_bool_decide.
  - unfold cidr_says. unfold ipnet_at, ok_or in Hx. destruct (parse_ipnet a); [by injection Hx as ->|done].
  - unfold cidr_says. unfold ipnet_at, ok_or in Hx. destruct (parse_ipnet a); [by injection Hx as ->|done].
  - case_bool_decide; [done|]. injection Hm as <-. cbn [matches]. apply Bool.eq_iff_eq_true. rewrite bool_decide_eq_true. apply port_set_exact.
  - destruct a as [|x [|y [|]]]; try done. apply obind_ok in Hm as (m0 & Hr & [= <-]). cbn [matches]. unfold new_range in Hr.
    destruct (y <? x) eqn:E; [done|]. injection Hr as <-. cbn [port_matches]. by rewrite E.
  - injection Hm as <-. cbn. apply Z_eqb_bool_decide.
  - unfold regex_says. unfold regex_at, ok_or in Hx. destruct (regex_new a); [by injection Hx as ->|done].
  - unfold regex_says. unfold regex_at, ok_or in Hx. destruct (regex_new a); [by injection Hx as ->|done].
Qed.

Lemma compile_leaf_means l m q : compile_leaf_matcher regex_new parse_ipnet quic l = Ok m -> sat m q = leaf_means l q.
Proof using Type.
  unfold compile_leaf_matcher. intros (ms & Hms & Hm)%obind_ok. rewrite <- (leaf_matchers_mean l ms q Hms).
  destruct ms as [|m1 [|m2 ms]]; injection Hm as <-; cbn; by rewrite ?andb_true_r.
Qed.

(** A compiled expression matches what the parts say that compilation keeps. *)
Lemma compile_expr_means q : forall e depth n m n',
  compile_match_config_limited regex_new parse_ipnet quic e depth n = Ok (m, n') -> sat m q = expr_means (first_parts e) q.
Proof using Type.
  fix IH 1. intros e depth n m n'. destruct e as [all any_of not|l]; cbn [compile_match_config_limited]; (destruct (_ <? _)%nat; [done|]; destruct (_ <=? _)%nat; [done|]).
  2: { intros (x & Hx & [= <- _])%obind_ok. by apply compile_leaf_means. }
  assert (forall l k ms k', thread (fun c => compile_match_config_limited regex_new parse_ipnet quic c (S depth)) l k = Ok (ms, k') ->
    forallb (fun m => sat m q) ms = forallb (fun c => expr_means c q) (map first_parts l) /\
    existsb (fun m => sat m q) ms = existsb (fun c => expr_means c q) (map first_parts l)) as Hgo.
  { fix IHl 1. intros l k ms k'. destruct l as [|c r]; [by intros [= <- _]|]. cbn. intros ([m1 k1] & H1 & ([ms1 k2] & H2 & [= <- _])%obind_ok)%obind_ok.
    apply IH in H1. apply IHl in H2 as [H2 H3]. cbn. by rewrite H1, H2, H3. }
  destruct all as [l|]; [|destruct any_of as [l|]; [|destruct not as [c|]; [|done]]].
  - case_bool_decide; [done|]. intros ([ms k] & Hms & [= <- _])%obind_ok. cbn [matches expr_means first_parts present andb]. rewrite !andb_true_r. apply (Hgo l _ _ _ Hms).
  - case_bool_decide; [done|]. intros ([ms k] & Hms & [= <- _])%obind_ok. cbn [matches expr_means first_parts present andb]. rewrite andb_true_r. apply (Hgo l _ _ _ Hms).
  - intros ([m1 k] & H1 & [= <- _])%obind_ok. cbn [matches expr_means first_parts present andb]. f_equal. by eapply IH.
Qed.
End meaning.

(** ** What compiles *)

Lemma fails_nil p b : fails p b = [] <-> b = false.
Proof. by destruct b. Qed.
Lemma when_some_nil {A} (o : option A) f : when_some o f = [] <-> forall a, o = Some a -> f a = [].
Proof. destruct o; cbn; naive_solver. Qed.
Lemma some_true {A} (o : option A) : some o = true <-> is_Some o.
Proof. unfold some. by rewrite bool_decide_eq_true. Qed.
Lemma negb_some_false {A} (o : option A) : negb (some o) = false <-> is_Some o.
Proof. by rewrite negb_false_iff, some_true. Qed.
Lemma is_ok_true {E A} (m : outcome E A) : is_ok m = true <-> exists a, m = Ok a.
Proof. destruct m; cbn; naive_solver. Qed.

Lemma field_ok {Regex IpNet A} (o : option A) (f : A -> outcome ConfigError (MatchExpr Regex IpNet)) :
  (forall a, o = Some a -> is_ok (f a) = true) -> exists ms, field o f = Ok ms.
Proof. unfold field. destruct o as [a|]; [|eauto]. intros Hf. specialize (Hf a eq_refl). destruct (f a); [by eexists|done..]. Qed.

(** Steps over a field whose matcher is made. *)
Ltac field_step :=
  match goal with
  | |- context [obind (field ?o ?f) _] =>
      let Hf := fresh in destruct (field_ok o f) as [? Hf]; [intros a Ho|rewrite Hf; cbn [obind]; clear Hf]
  end.

Section ready.
Context {Regex IpNet : Type}.
Context (regex_new : bytes -> option Regex) (parse_ipnet : bytes -> option IpNet) (quic : bool).
Abbreviation compile_limited := (compile_match_config_limited regex_new parse_ipnet quic).

(** What validation does not look at: the transports of leaves, protocols the build
    lacks, and the number of nodes. *)
Definition leaf_ready (l : LeafMatcher) : bool :=
  present (l_protocol l) (fun s => is_ok (compile_protocol quic s)) && present (l_transport l) (fun s => is_ok (compile_transport s)).

Fixpoint expr_ready (e : MatchExprConfig) : bool :=
  match e with
  | Leaf l => leaf_ready l
  | Composite (Some l) _ _ | Composite None (Some l) _ => forallb expr_ready l
  | Composite None None (Some c) => expr_ready c
  | Composite None None None => true
  end.
Fixpoint expr_nodes (e : MatchExprConfig) : nat :=
  match e with
  | Composite (Some l) _ _ | Composite None (Some l) _ => S (sum_list_with expr_nodes l)
  | Composite None None (Some c) => S (expr_nodes c)
  | _ => 1%nat
  end.


Lemma regex_ok p t s (k : Regex -> MatchExpr Regex IpNet) : fails p (negb (some (regex_new s))) = [] -> is_ok (let? re := regex_at regex_new t s in Ok (k re)) = true.
Proof using Type. intros [re Hr]%fails_nil%negb_some_false. unfold regex_at. by rewrite Hr. Qed.
Lemma ipnet_ok p t s (k : IpNet -> MatchExpr Regex IpNet) : fails p (negb (some (parse_ipnet s))) = [] -> is_ok (let? net := ipnet_at parse_ipnet t s in Ok (k net)) = true.
Proof using Type. intros [net Hn]%fails_nil%negb_some_false. unfold ipnet_at. by rewrite Hn. Qed.

(** The last fields: the transport decides. *)
Lemma leaf_tail (t : option bytes) (rl : option bytes) (k : list (MatchExpr Regex IpNet) -> list (MatchExpr Regex IpNet) -> list (MatchExpr Regex IpNet)) :
  is_ok (let? ms := (let? m14 := field t (fun s => let? t := compile_transport s in Ok (MTransport t)) in
                     let? m15 := field rl (fun s => Ok (MReverseListener s)) in Ok (k m14 m15)) in
         match ms with [] => Ok MAny | [m] => Ok m | _ => Ok (MAll ms) end)
  = present t (fun s => is_ok (compile_transport s)).
Proof using Type.
  assert (forall ms : list (MatchExpr Regex IpNet), is_ok (E:=ConfigError) match ms with [] => Ok MAny | [m] => Ok m | _ => Ok (MAll ms) end = true) as Hms by by intros [|m [|]].
  unfold field at 1. destruct t as [s|]; cbn [present obind].
  - destruct (compile_transport s) as [tk|e|]; cbn [obind is_ok]; [|done..]. field_step; [done|]. apply Hms.
  - field_step; [done|]. apply Hms.
Qed.

Lemma leaf_compiles l p : validate_leaf regex_new parse_ipnet l p = [] -> is_ok (compile_leaf_matcher regex_new parse_ipnet quic l) = leaf_ready l.
Proof using Type.
  unfold validate_leaf. intros (V1 & (V2 & (V3 & (V4 & (V5 & (V6 & _)%app_nil)%app_nil)%app_nil)%app_nil)%app_nil)%app_nil. rewrite when_some_nil in V1, V2, V3, V4. rewrite when_some_nil in V5. rewrite when_some_nil in V6.
  unfold compile_leaf_matcher, leaf_matchers.
  do 2 (field_step; [done|]).
  field_step; [apply V1 in Ho; by eapply regex_ok|]. field_step; [apply V2 in Ho; by eapply regex_ok|]. field_step; [done|].
  field_step; [apply V5 in Ho; destruct a as [|lo [|hi [|]]]; try done; apply fails_nil in Ho; unfold new_range; by rewrite Ho|].
  field_step; [apply V6, fails_nil in Ho; by rewrite Ho|].
  field_step; [apply V3 in Ho; by eapply ipnet_ok|]. field_step; [apply V4 in Ho; by eapply ipnet_ok|].
  do 2 (field_step; [done|]). unfold leaf_ready, field at 1. destruct (l_protocol l) as [s|]; cbn [present obind].
  - destruct (compile_protocol quic s) as [pr|e|]; cbn [obind is_ok andb]; [|done..]. field_step; [done|]. by apply leaf_tail.
  - field_step; [done|]. by apply leaf_tail.
Qed.

(** A validated expression compiles exactly when it is ready and small enough. *)
Lemma expr_compiles : forall e p depth n, validate_match_expr regex_new parse_ipnet e p depth = [] ->
  if expr_ready e && (n + expr_nodes e <=? MAX_NODE_COUNT)%nat then exists m, compile_limited e depth n = Ok (m, (n + expr_nodes e)%nat)
  else is_ok (compile_limited e depth n) = false.
Proof using Type.
  fix IH 1. intros e p depth n. destruct e as [all any_of not|l]; cbn [validate_match_expr compile_match_config_limited].
  all: unfold MAX_EXPRESSION_DEPTH, MAX_MATCH_EXPR_DEPTH; destruct (10 <=? depth)%nat; [done|].
  2: { intros Hv. apply leaf_compiles in Hv. cbn [expr_ready expr_nodes]. rewrite <- Hv. destruct (Nat.ltb_spec MAX_NODE_COUNT (S n)) as [Hlt|Hle].
       - rewrite andb_comm. destruct (Nat.leb_spec (n + 1) MAX_NODE_COUNT); [lia|]. done.
       - destruct (Nat.leb_spec (n + 1) MAX_NODE_COUNT); [|lia]. rewrite andb_true_r. destruct (compile_leaf_matcher _ _ _ l); cbn; [|done..].
         eexists. by rewrite Nat.add_1_r. }
  assert (forall w l j k, (k <= MAX_NODE_COUNT)%nat ->
    each (fun j c => validate_match_expr regex_new parse_ipnet c (p ++ [key "match"; w; Idx j]) (S depth)) j l = [] ->
    if forallb expr_ready l && (k + sum_list_with expr_nodes l <=? MAX_NODE_COUNT)%nat
    then exists ms, thread (fun c => compile_limited c (S depth)) l k = Ok (ms, (k + sum_list_with expr_nodes l)%nat)
    else is_ok (thread (fun c => compile_limited c (S depth)) l k) = false) as Hgo.
  { fix IHl 2. intros w l j k Hk. destruct l as [|c r].
    - intros _. cbn. destruct (Nat.leb_spec (k + 0) MAX_NODE_COUNT); [|lia]. exists []. by rewrite Nat.add_0_r.
    - cbn [each thread]. intros (Hc & Hr)%app_nil. specialize (IH c _ _ k Hc). specialize (IHl w r (S j)). cbn [forallb sum_list_with].
      destruct (expr_ready c); cbn [andb] in IH |- *.
      + destruct (Nat.leb_spec (k + expr_nodes c) MAX_NODE_COUNT) as [Hle|Hgt].
        * destruct IH as [m ->]. cbn [obind]. specialize (IHl _ Hle Hr). rewrite Nat.add_assoc. destruct (_ && _).
          -- destruct IHl as [ms ->]. by eexists.
          -- by destruct (thread _ r _) as [[]|e|].
        * rewrite (proj2 (Nat.leb_gt (k + (expr_nodes c + sum_list_with expr_nodes r)) MAX_NODE_COUNT)), andb_false_r by lia. by destruct (compile_limited c (S depth) k) as [[]|e|].
      + by destruct (compile_limited c (S depth) k) as [[]|e|]. }
  assert ((MAX_NODE_COUNT <? S n)%nat = true -> forall z b, b && (n + S z <=? MAX_NODE_COUNT)%nat = false) as Hbig.
  { intros Hlt%Nat.ltb_lt z b. rewrite (proj2 (Nat.leb_gt (n + S z) MAX_NODE_COUNT)) by lia. apply andb_false_r. }
  intros (Hs & (Ha & (Hy & Hn)%app_nil)%app_nil)%app_nil.
  destruct all as [l|]; [|destruct any_of as [l|]; [|destruct not as [c|]]]; cbn [expr_ready expr_nodes].
  - destruct (MAX_NODE_COUNT <? S n)%nat eqn:En; [by rewrite (Hbig eq_refl)|]. apply Nat.ltb_ge in En. apply app_nil in Ha as [Hl%fails_nil Hc]. rewrite Hl.
    specialize (Hgo _ l 0%nat (S n) En Hc). rewrite <- Nat.add_succ_comm. destruct (_ && _).
    + destruct Hgo as [ms Hms]. rewrite Hms. by eexists.
    + by destruct (thread _ l _) as [[]|e|].
  - destruct (MAX_NODE_COUNT <? S n)%nat eqn:En; [by rewrite (Hbig eq_refl)|]. apply Nat.ltb_ge in En. apply app_nil in Hy as [Hl%fails_nil Hc]. rewrite Hl.
    specialize (Hgo _ l 0%nat (S n) En Hc). rewrite <- Nat.add_succ_comm. destruct (_ && _).
    + destruct Hgo as [ms Hms]. rewrite Hms. by eexists.
    + by destruct (thread _ l _) as [[]|e|].
  - destruct (MAX_NODE_COUNT <? S n)%nat eqn:En; [by rewrite (Hbig eq_refl)|]. specialize (IH c _ _ (S n) Hn). rewrite <- Nat.add_succ_comm. destruct (_ && _).
    + destruct IH as [m Hm]. rewrite Hm. by eexists.
    + by destruct (compile_limited c (S depth) (S n)) as [[]|e|].
  - done.
Qed.
End ready.

(** ** Rules *)

Lemma reject_reason_ok s : one_of VALID_REJECT_REASONS s = true -> exists reason, compile_reject_reason s = Ok reason.
Proof.
  unfold one_of. intros Hs%bool_decide_eq_true. unfold compile_reject_reason. repeat (case_bool_decide; [by eexists|]).
  exfalso. unfold VALID_REJECT_REASONS in Hs. cbn [map] in Hs. set_solver.
Qed.


Section rule_proofs.
Context {Regex IpNet : Type}.
Context (regex_new : bytes -> option Regex) (parse_ipnet : bytes -> option IpNet) (quic : bool).
Context (is_match : Regex -> bytes -> bool) (cidr_contains : IpNet -> IpAddr -> bool).
Abbreviation sat m q := (matches is_match cidr_contains m q).
Abbreviation means := (rule_means regex_new parse_ipnet quic is_match cidr_contains).

Definition match_ready (r : RuleConfig) : bool :=
  match r_match r with Some e => expr_ready quic e && (expr_nodes e <=? MAX_NODE_COUNT)%nat | None => true end.
Definition rule_ready (r : RuleConfig) : bool := match_ready r &&
  negb (bool_decide (r_direct r = Some false)).

(** What validation says of a rule without an expression. *)
Lemma legacy_matcher r : r_match r = None -> (1 <? matcher_count r)%nat = false ->
  (forall s, r_host_regex r = Some s -> is_Some (regex_new s)) -> (forall s, r_destination_port_regex r = Some s -> is_Some (regex_new s)) ->
  exists m, compile_matcher regex_new parse_ipnet quic r = Ok m /\ forall q, sat m q = means r q.
Proof using Type.
  intros Hm Hc H1 H2. unfold compile_matcher, rule_means. rewrite Hm. unfold matcher_count in Hc.
  destruct (r_host_exact r) as [x1|], (r_host_suffix r) as [x2|], (r_host_regex r) as [x3|], (r_destination_port r) as [x4|], (r_destination_port_regex r) as [x5|], (default false (r_any r));
    try (cbv in Hc; discriminate Hc); cbn -[matches regex_at].
  - eexists. split; [done|]. intros q. by rewrite !andb_true_r.
  - eexists. split; [done|]. intros q. by rewrite !andb_true_r.
  - destruct (H1 _ eq_refl) as [re Hre]. unfold regex_at, regex_says. rewrite Hre. eexists. split; [done|]. intros q. by rewrite !andb_true_r.
  - eexists. split; [done|]. intros q. apply Z_eqb_bool_decide.
  - destruct (H2 _ eq_refl) as [re Hre]. unfold regex_at, regex_says. rewrite Hre. eexists. split; [done|]. intros q. by rewrite !andb_true_r.
  - by eexists.
  - by eexists.
Qed.

(** The rule with the parts that compilation keeps. *)
Definition kept_rule (r : RuleConfig) : RuleConfig :=
  {| r_id := r_id r; r_host_exact := r_host_exact r; r_host_suffix := r_host_suffix r; r_host_regex := r_host_regex r;
     r_destination_port_regex := r_destination_port_regex r; r_destination_port := r_destination_port r; r_any := r_any r;
     r_match := first_parts <$> r_match r; r_direct := r_direct r; r_upstream_group := r_upstream_group r; r_reject := r_reject r |}.

Lemma kept_rule_exact r : rule_exact r = true -> kept_rule r = r.
Proof using Type. unfold rule_exact. destruct r as [i a b c d e f [m|] g h j]; [|done]. cbn. intros Hm. unfold kept_rule. cbn. by rewrite one_part_kept. Qed.

(** A validated rule compiles exactly when it is ready, and to what the kept parts say. *)
Lemma rule_compiles gs i r : validate_rule regex_new parse_ipnet gs i r = [] ->
  if rule_ready r then exists c, compile_rule regex_new parse_ipnet quic gs r = Ok c /\ rule_id c = r_id r /\
    (forall q, sat (matcher c) q = means (kept_rule r) q) /\
    match action c with
    | ActDirect => r_direct r = Some true
    | ActUpstreamGroup g => r_upstream_group r = Some g /\ g ∈ gs
    | ActReject reason => exists s, r_reject r = Some s /\ compile_reject_reason s = Ok reason
    end
  else is_ok (compile_rule regex_new parse_ipnet quic gs r) = false.
Proof using Type.
  unfold validate_rule. intros (Hm & (Ha%fails_nil & (Hg & Hr)%app_nil)%app_nil)%app_nil. rewrite when_some_nil in Hg, Hr. unfold rule_ready, compile_rule.
  assert (match_ready r = true ->
    exists m, compile_matcher regex_new parse_ipnet quic r = Ok m /\ forall q, sat m q = means (kept_rule r) q) as Hmatch.
  { unfold match_ready. destruct (r_match r) as [e|] eqn:Er.
    - apply app_nil in Hm as [_ Hv]. intros Hready. pose proof (expr_compiles regex_new parse_ipnet quic e _ 0 0 Hv) as He. cbn [Nat.add] in He. rewrite Hready in He.
      destruct He as [m Hm]. unfold compile_matcher, rule_means, compile_match_config. cbn [kept_rule r_match]. rewrite Er, Hm. exists m. split; [done|]. intros q. by eapply compile_expr_means.
    - intros _. rewrite kept_rule_exact by (unfold rule_exact; by rewrite Er). apply app_nil in Hm as [Hc%fails_nil [H1 H2]%app_nil]. rewrite when_some_nil in H1, H2.
      apply legacy_matcher; [done|done|intros s Hs; by apply H1, fails_nil, negb_some_false in Hs|intros s Hs; by apply H2, fails_nil, negb_some_false in Hs]. }
  assert (match_ready r = false ->
    is_ok (compile_matcher regex_new parse_ipnet quic r) = false) as Hno.
  { unfold match_ready. destruct (r_match r) as [e|] eqn:Er; [|done]. apply app_nil in Hm as [_ Hv]. intros Hready.
    pose proof (expr_compiles regex_new parse_ipnet quic e _ 0 0 Hv) as He. cbn [Nat.add] in He. rewrite Hready in He.
    unfold compile_matcher, compile_match_config. rewrite Er. by destruct (compile_match_config_limited _ _ _ e 0 0) as [[]|?|]. }
  destruct (match_ready r) eqn:Hb; cbn [andb].
  2: { specialize (Hno eq_refl). by destruct (compile_matcher _ _ _ r). }
  destruct (Hmatch eq_refl) as (m & -> & Hmeans). cbn [obind]. unfold compile_action, action_count in *.
  destruct (r_direct r) as [[]|].
  - rewrite bool_decide_false by done. cbn [negb]. by eexists.
  - by rewrite bool_decide_true.
  - rewrite bool_decide_false by done. cbn [negb]. destruct (r_upstream_group r) as [g|].
    + specialize (Hg g eq_refl). apply fails_nil, negb_false_iff in Hg. rewrite Hg. unfold one_of in Hg. apply bool_decide_eq_true in Hg. by eexists.
    + destruct (r_reject r) as [s|]; [|done]. specialize (Hr s eq_refl). apply fails_nil, negb_false_iff in Hr.
      destruct (reject_reason_ok s Hr) as [reason Hre]. rewrite Hre. eexists. split; [done|]. split; [done|]. split; [done|]. by exists s.
Qed.
End rule_proofs.

(** ** The rules of a configuration *)

Section rules_proofs.
Context {Regex IpNet : Type}.
Context (regex_new : bytes -> option Regex) (parse_ipnet : bytes -> option IpNet) (quic : bool).
Context (is_match : Regex -> bytes -> bool) (cidr_contains : IpNet -> IpAddr -> bool).
Abbreviation means := (rule_means regex_new parse_ipnet quic is_match cidr_contains).

(** What the rules decide when only the kept parts count. *)
Lemma kept_rules_decide rules gs :
  validate_rules regex_new parse_ipnet rules gs = [] ->
  is_ok (compile_rules regex_new parse_ipnet quic gs rules) = forallb (rule_ready quic) rules /\
  forall cs, compile_rules regex_new parse_ipnet quic gs rules = Ok cs -> forall q,
    match List.find (fun r => means (kept_rule r) q) rules with
    | Some r => exists a, compile_action gs r = Ok a /\ decide_rules is_match cidr_contains cs q = Some (decision_of (r_id r) a)
    | None => decide_rules is_match cidr_contains cs q = None
    end.
Proof using Type.
  unfold validate_rules, compile_rules. generalize 0%nat as i. induction rules as [|r rules IH]; intros i.
  { intros _. split; [done|]. by intros cs [= <-] q. }
  cbn [each collect forallb]. intros (Hr & Hrs)%app_nil. destruct (IH _ Hrs) as [Hok Hdec]. clear IH.
  pose proof (rule_compiles regex_new parse_ipnet quic is_match cidr_contains gs i r Hr) as Hc.
  destruct (rule_ready quic r); cbn [andb].
  - destruct Hc as (c & Hc & Hid & Hm & _). rewrite Hc. cbn [obind]. split; [rewrite <- Hok; by destruct (collect _ rules)|].
    intros cs (bs & Hbs & [= <-])%obind_ok q. cbn [List.find decide_rules]. rewrite (Hm q). destruct (means (kept_rule r) q); [|by apply Hdec].
    unfold compile_rule in Hc. apply obind_ok in Hc as (m & _ & (a & Ha & [= <-])%obind_ok). by exists a.
  - split; [by destruct (compile_rule _ _ _ gs r)|]. intros cs (c & Hc' & _)%obind_ok. by rewrite Hc' in Hc.
Qed.


(** ** UDP *)

Fixpoint negation_free (e : MatchExprConfig) : bool :=
  match e with
  | Leaf _ => true
  | Composite (Some l) _ _ | Composite None (Some l) _ => forallb negation_free l
  | Composite None None (Some _) => false
  | Composite None None None => true
  end.

Lemma udp_expr_sound q : rq_transport q = Udp -> forall e depth, negation_free e = true -> matcher_could_match_udp_limited e depth = false ->
  expr_means regex_new parse_ipnet quic is_match cidr_contains (first_parts e) q = false.
Proof using Type.
  intros Hq. fix IH 1. intros e depth. destruct e as [all any_of not|l]; cbn [negation_free matcher_could_match_udp_limited expr_means]; destruct (_ <=? _)%nat; try done.
  - destruct all as [l|]; [|destruct any_of as [l|]; [|by destruct not]].
    + cbn [first_parts expr_means present andb]. rewrite !andb_true_r. induction l as [|c l IHl]; [done|]. cbn.
      intros [Hc Hl]%andb_true_iff [H|H]%andb_false_iff; [by rewrite (IH c (S depth))|]. rewrite IHl by done. apply andb_false_r.
    + cbn [first_parts expr_means present andb]. rewrite andb_true_r. induction l as [|c l IHl]; [done|]. cbn.
      intros [Hc Hl]%andb_true_iff [H1 H2]%orb_false_iff. rewrite (IH c (S depth)) by done. by apply IHl.
  - intros _. cbn [first_parts expr_means]. unfold leaf_could_match_udp, leaf_means. destruct (l_transport l) as [t|]; [|done]. rewrite Hq. cbn [present fmt_transport]. intros ->.
    cbn [andb]. by rewrite !andb_false_r.
Qed.
End rules_proofs.

Section udp_check.
Context {Regex IpNet : Type}.
Context (regex_new : bytes -> option Regex) (parse_ipnet : bytes -> option IpNet) (quic : bool).
Context (is_match : Regex -> bytes -> bool) (cidr_contains : IpNet -> IpAddr -> bool).

Definition transport_leaf (t : bytes) : MatchExprConfig :=
  Leaf {| l_host_exact := None; l_host_suffix := None; l_host_regex := None; l_destination_port_regex := None; l_destination_port := None;
          l_destination_port_range := None; l_destination_port_set := None; l_destination_cidr := None; l_source_cidr := None; l_source_port := None;
          l_listener := None; l_protocol := None; l_identity := None; l_transport := Some t; l_reverse_listener := None |}.

(** The UDP check of rules.  A validated rule that the check calls impossible for
    UDP traffic matches no UDP request, if its expression has no [not].  A negated
    condition escapes the check: it calls [not] of TCP traffic impossible for UDP,
    but that rule compiles and matches every UDP request. *)
Theorem udp_check_sound :
  (forall gs i r c q, validate_rule regex_new parse_ipnet gs i r = [] -> compile_rule regex_new parse_ipnet quic gs r = Ok c ->
     match r_match r with Some e => negation_free e = true | None => True end ->
     rule_upstream_group_could_match_udp r = false -> rq_transport q = Udp -> matches is_match cidr_contains (matcher c) q = false) /\
  (exists e m, matcher_could_match_udp e = false /\ compile_match_config regex_new parse_ipnet quic e = Ok m /\
     forall q, rq_transport q = Udp -> matches is_match cidr_contains m q = true).
Proof using Type.
  split.
  - intros gs i r c q Hv Hc Hn Hu Hq. pose proof (rule_compiles regex_new parse_ipnet quic is_match cidr_contains gs i r Hv) as Hr.
    destruct (rule_ready quic r); [|by rewrite Hc in Hr]. destruct Hr as (c' & Hc' & _ & Hm & _). assert (c' = c) as -> by congruence.
    rewrite Hm. unfold rule_means, rule_upstream_group_could_match_udp in *. cbn [kept_rule r_match]. destruct (r_match r) as [e|]; [|done]. by eapply udp_expr_sound.
  - exists (Composite None None (Some (transport_leaf (str "tcp")))), (MNot (MTransport Tcp)). split; [done|]. split; [done|]. intros q Hq. cbn. by rewrite Hq.
Qed.
End udp_check.

(** ** Durations *)

(** A duration that parses fits the type of the source: less than 2^64 seconds. *)
Lemma parse_duration_bounds s d : parse_duration s = Ok d -> 0 <= d < U64 * NANOS.
Proof.
  unfold parse_duration. destruct (trim s) as [|b t]; [done|]. destruct (find_where _ _) as [pos|]; [|done]. unfold ok_or.
  destruct (parse_u64 _) as [v|] eqn:Ev; [|done]. cbn [obind]. apply parse_uint_range in Ev; [|lia]. fold U64 in Ev.
  assert (1 < U64) by done. unfold checked_secs, NANOS in *.
  generalize (drop pos (b :: t)) as u. intros u. revert Ev H. generalize U64 as M. intros M Ev H.
  do 4 (destruct (_ : bool); [intros Hd; injection Hd as <-; lia|]).
  do 3 (destruct (bool_decide _); [destruct (_ <? M) eqn:E; [|done]; apply Z.ltb_lt in E; intros Hd; injection Hd as <-; lia|]). done.
Qed.

(** ** Examples *)

Definition empty_rule (i : bytes) (e : option MatchExprConfig) : RuleConfig :=
  {| r_id := i; r_host_exact := None; r_host_suffix := None; r_host_regex := None; r_destination_port_regex := None; r_destination_port := None;
     r_any := None; r_match := e; r_direct := Some true; r_upstream_group := None; r_reject := None |}.
Definition demo_rules : list RuleConfig :=
  [empty_rule (str "udp") (Some (transport_leaf (str "udp"))); empty_rule (str "rest") (Some (Composite None None (Some (transport_leaf (str "udp")))))].


(** A composite with two parts passes validation, and its second part does not count:
    the rule for UDP requests that are not UDP requests matches none, and decides. *)
Definition two_parts : RuleConfig :=
  empty_rule (str "both") (Some (Composite (Some [transport_leaf (str "udp")]) None (Some (transport_leaf (str "udp"))))).
Lemma dropped_part :
  validate_rules (Regex:=unit) (IpNet:=unit) (fun _ => None) (fun _ => None) [two_parts] [] = [] /\
  (forall q, rule_means (Regex:=unit) (IpNet:=unit) (fun _ => None) (fun _ => None) false no_regex no_cidr two_parts q = false) /\
  exists cs q, compile_rules (Regex:=unit) (IpNet:=unit) (fun _ => None) (fun _ => None) false [] [two_parts] = Ok cs /\
    decide_rules no_regex no_cidr cs q = Some (DecDirect (str "both")).
Proof.
  split; [reflexivity|]. split.
  - intros q. cbn [rule_means two_parts empty_rule r_match expr_means present forallb transport_leaf]. destruct (leaf_means _ _ _ _ _ _ q); reflexivity.
  - eexists _, {| rq_target := rq_target demo_request; rq_source := rq_source demo_request; rq_listener := rq_listener demo_request;
                  rq_protocol := rq_protocol demo_request; rq_identity := rq_identity demo_request; rq_transport := Udp |}.
    split; [reflexivity|]. reflexivity.
Qed.

Lemma duration_examples :
  parse_duration (str " 90s ") = Ok (90 * NANOS) /\ parse_duration (str "2h") = Ok (7200 * NANOS) /\ parse_duration (str "5") = Err tt /\
  parse_duration (str "307445734561825861m") = Err tt.
Proof. by vm_compute. Qed.
