(* ===== verification/ConfigUpstreams.v ===== *)
(** * Configuration: upstreams and groups

    Models the upstream part of [crates/eggress-config/src/model.rs], its validation
    ([validate/upstreams.rs]), its compilation ([compile/upstreams.rs]) and the check
    of identifiers of [crates/eggress-routing/src/upstream.rs]. *)

From S2P Require Import Prelude Bytes Decimal NetAddr Connector Dispatch Uri Capability Chain Health Upstream Scheduler Matcher Router HttpText ConfigRules.
Local Open Scope Z_scope.

(** ** As written *)

Record HealthConfigToml := {
  ht_mode : option bytes; ht_interval : option bytes; ht_timeout : option bytes; ht_failures_to_unhealthy : option Z;
  ht_successes_to_healthy : option Z; ht_initial_state : option bytes
}.

Record H2UpstreamConfig := {
  h2_max_concurrent_streams : option Z; h2_pool_size : option Z; h2_idle_timeout : option bytes; h2_keepalive_interval : option bytes;
  h2_keepalive_timeout : option bytes; h2_stream_receive_window : option Z; h2_connection_receive_window : option Z;
  h2_max_frame_size : option Z; h2_max_header_list_size : option Z
}.

Record UpstreamToml := { ut_id : bytes; ut_uri : bytes; ut_health : option HealthConfigToml; ut_h2 : option H2UpstreamConfig }.
Record GroupToml := { gt_id : bytes; gt_scheduler : option bytes; gt_members : list bytes; gt_fallback : option bytes }.

(** ** Validation *)

Definition VALID_SCHEDULERS : list bytes := map str ["first-available"; "round-robin"; "random"; "least-connections"]%string.
Definition VALID_FALLBACKS : list bytes := map str ["reject"; "direct"; "use-unhealthy"]%string.
Definition VALID_HEALTH_MODES : list bytes := map str ["tcp_connect"]%string.
Definition VALID_HEALTH_INITIAL_STATES : list bytes := map str ["unknown"; "healthy"; "unhealthy"; "disabled"]%string.

(** A duration that parses and is not zero. *)
Definition positive_duration (p : path) (s : bytes) : list ConfigError :=
  match parse_duration s with Ok d => fails p (d =? 0) | _ => fails p true end.
Definition any_duration (p : path) (s : bytes) : list ConfigError := fails p (negb (is_ok (parse_duration s))).
Definition positive (p : path) (n : Z) : list ConfigError := fails p (n =? 0).

Definition validate_health_config (h : HealthConfigToml) (parent : path) : list ConfigError :=
  let at_ k := parent ++ [key "health"; key k] in
  when_some (ht_mode h) (fun m => fails (at_ "mode"%string) (negb (one_of VALID_HEALTH_MODES m))) ++
  when_some (ht_interval h) (positive_duration (at_ "interval"%string)) ++
  when_some (ht_timeout h) (positive_duration (at_ "timeout"%string)) ++
  when_some (ht_failures_to_unhealthy h) (positive (at_ "failures_to_unhealthy"%string)) ++
  when_some (ht_successes_to_healthy h) (positive (at_ "successes_to_healthy"%string)) ++
  when_some (ht_initial_state h) (fun s => fails (at_ "initial_state"%string) (negb (one_of VALID_HEALTH_INITIAL_STATES s))).

Definition validate_h2_config (h : H2UpstreamConfig) (parent : path) : list ConfigError :=
  let at_ k := parent ++ [key "h2"; key k] in
  when_some (h2_max_concurrent_streams h) (positive (at_ "max_concurrent_streams"%string)) ++
  when_some (h2_pool_size h) (positive (at_ "pool_size"%string)) ++
  when_some (h2_idle_timeout h) (any_duration (at_ "idle_timeout"%string)) ++
  when_some (h2_keepalive_interval h) (any_duration (at_ "keepalive_interval"%string)) ++
  when_some (h2_keepalive_timeout h) (any_duration (at_ "keepalive_timeout"%string)) ++
  when_some (h2_stream_receive_window h) (positive (at_ "stream_receive_window"%string)) ++
  when_some (h2_connection_receive_window h) (positive (at_ "connection_receive_window"%string)) ++
  when_some (h2_max_frame_size h) (positive (at_ "max_frame_size"%string)) ++
  when_some (h2_max_header_list_size h) (positive (at_ "max_header_list_size"%string)).

(** The items of a list with the set of keys seen before them. *)
Section each_seen.
Context {A : Type}.
Variable key_of : A -> bytes.
Variable f : nat -> bool -> A -> list ConfigError.
Fixpoint each_seen (seen : gset bytes) (i : nat) (l : list A) : list ConfigError :=
  match l with
  | [] => []
  | a :: r => f i (bool_decide (key_of a ∈ seen)) a ++ each_seen ({[key_of a]} ∪ seen) (S i) r
  end.
End each_seen.

Definition validate_upstream (i : nat) (seen : bool) (u : UpstreamToml) : list ConfigError :=
  let p := [key "upstreams"; Idx i] in
  fails p seen ++
  fails p (negb (is_ok (parse_proxy_chain (ut_uri u)))) ++
  when_some (ut_health u) (fun h => validate_health_config h p) ++
  when_some (ut_h2 u) (fun h => validate_h2_config h p).

Definition validate_upstreams (us : list UpstreamToml) : list ConfigError := each_seen ut_id validate_upstream ∅ 0 us.

Definition validate_upstream_group (upstream_ids : list bytes) (i : nat) (seen : bool) (g : GroupToml) : list ConfigError :=
  let p := [key "upstream_groups"; Idx i] in
  fails p seen ++
  when_some (gt_scheduler g) (fun s => fails p (negb (one_of VALID_SCHEDULERS s))) ++
  when_some (gt_fallback g) (fun s => fails p (negb (one_of VALID_FALLBACKS s))) ++
  fails p (bool_decide (gt_members g = [])) ++
  each_seen (fun m => m) (fun _ dup m => fails p dup ++ fails p (negb (one_of upstream_ids m))) ∅ 0 (gt_members g).

Definition validate_upstream_groups (gs : list GroupToml) (us : option (list UpstreamToml)) : list ConfigError :=
  each_seen gt_id (validate_upstream_group (match us with Some us => map ut_id us | None => [] end)) ∅ 0 gs.

(** Groups that no UDP traffic can use must not be where UDP traffic may go. *)
Definition upstream_udp (us : list UpstreamToml) (member : bytes) : bool :=
  (* the last entry of an identifier is the one in the map *)
  match List.find (fun u => bool_decide (ut_id u = member) && is_ok (parse_proxy_chain (ut_uri u))) (rev us) with
  | Some u => match parse_proxy_chain (ut_uri u) with Ok chain => is_udp_supported (classify_upstream_chain chain) | _ => false end
  | None => false
  end.
Definition group_udp_support (us : list UpstreamToml) (gs : list GroupToml) (group : bytes) : bool :=
  match List.find (fun g => bool_decide (gt_id g = group)) (rev gs) with
  | Some g => existsb (upstream_udp us) (gt_members g)
  | None => false
  end.

Definition validate_upstream_transport (us : list UpstreamToml) (gs : list GroupToml) (udp_listener_exists : bool)
    (rules : option (list RuleConfig)) (dflt : option bytes) : list ConfigError :=
  when_some rules (fun rules => mjoin (map (fun r =>
    when_some (r_upstream_group r) (fun g =>
      fails [key "rules"; Key (r_id r); key "upstream_group"]
        (negb (group_udp_support us gs g) && rule_upstream_group_could_match_udp r && udp_listener_exists))) rules)) ++
  when_some dflt (fun d =>
    if negb (bool_decide (d = str "direct")) && negb (bool_decide (d = str "reject"))
    then fails [key "routing"; key "default"] (negb (group_udp_support us gs d) && udp_listener_exists) else []).

(** ** Compilation *)

(** [^[A-Za-z0-9][A-Za-z0-9._-]{0,63}$]. *)
Definition id_first (b : byte) : bool :=
  let z := b2Z b in ((65 <=? z) && (z <=? 90)) || ((97 <=? z) && (z <=? 122)) || ((48 <=? z) && (z <=? 57)).
Definition id_rest (b : byte) : bool := id_first b || (b =b x2e) || (b =b x5f) || (b =b x2d).
Definition validate_upstream_id (i : bytes) : outcome unit unit :=
  match i with
  | b :: r => if id_first b && forallb id_rest r && (length r <=? 63)%nat then Ok tt else Err tt
  | [] => Err tt
  end.

Record CompiledH2Config := {
  ch_max_concurrent_streams : Z; ch_pool_size : Z; ch_idle_timeout : Z; ch_keepalive_interval : Z; ch_keepalive_timeout : Z;
  ch_stream_receive_window : Z; ch_connection_receive_window : Z; ch_max_frame_size : Z; ch_max_header_list_size : Z
}.
Definition CompiledH2Config_default : CompiledH2Config :=
  {| ch_max_concurrent_streams := 100; ch_pool_size := 4; ch_idle_timeout := 60 * NANOS; ch_keepalive_interval := 30 * NANOS;
     ch_keepalive_timeout := 10 * NANOS; ch_stream_receive_window := 65535; ch_connection_receive_window := 65535; ch_max_frame_size := 16384;
     ch_max_header_list_size := 65535 |}.

Record UpstreamConfig := { uc_id : bytes; uc_chain : ProxyChainSpec; uc_health : HealthConfig; uc_h2 : option CompiledH2Config }.
Record UpstreamGroupConfig := { gc_id : bytes; gc_scheduler : SchedulerKind; gc_members : list bytes; gc_fallback : GroupFallback }.

(** [o.map(validate_duration).transpose()?.unwrap_or(d)]. *)
Definition duration_or (o : option bytes) (d : Z) : outcome ConfigError Z :=
  match o with Some s => validate_duration s | None => Ok d end.
Definition non_zero (p : path) (n : Z) : outcome ConfigError Z := if n =? 0 then Err (Validation p) else Ok n.

Definition compile_initial_state (s : option bytes) : outcome ConfigError HealthState :=
  match s with
  | None => Ok (initial_state HealthConfig_default)
  | Some s =>
      if bool_decide (s = str "unknown") then Ok (initial_state HealthConfig_default)
      else if bool_decide (s = str "healthy") then Ok Healthy
      else if bool_decide (s = str "unhealthy") then Ok Unhealthy
      else if bool_decide (s = str "disabled") then Ok Disabled
      else Err (Validation [key "health"; key "initial_state"])
  end.

Definition compile_health_config (h : option HealthConfigToml) : outcome ConfigError HealthConfig :=
  let defaults := HealthConfig_default in
  match h with
  | None => Ok defaults
  | Some h =>
      let? interval := duration_or (ht_interval h) (interval defaults) in
      let? timeout := duration_or (ht_timeout h) (hc_timeout defaults) in
      let? failures := non_zero [key "health"; key "failures_to_unhealthy"] (default (failures_to_unhealthy defaults) (ht_failures_to_unhealthy h)) in
      let? successes := non_zero [key "health"; key "successes_to_healthy"] (default (successes_to_healthy defaults) (ht_successes_to_healthy h)) in
      let? initial := compile_initial_state (ht_initial_state h) in
      Ok {| interval := interval; hc_timeout := timeout; failures_to_unhealthy := failures; successes_to_healthy := successes; initial_state := initial |}
  end.

Definition number_or (p : path) (o : option Z) (d : Z) : outcome ConfigError Z := match o with Some n => non_zero p n | None => Ok d end.
Definition duration_at (p : path) (o : option bytes) (d : Z) : outcome ConfigError Z := map_err (fun _ => Validation p) (duration_or o d).

Definition compile_h2_config (h : H2UpstreamConfig) (prefix : seg) : outcome ConfigError CompiledH2Config :=
  let d := CompiledH2Config_default in
  let at_ k := [prefix; key k] in
  let? streams := number_or (at_ "max_concurrent_streams"%string) (h2_max_concurrent_streams h) (ch_max_concurrent_streams d) in
  let? pool := number_or (at_ "pool_size"%string) (h2_pool_size h) (ch_pool_size d) in
  let? idle := duration_at (at_ "idle_timeout"%string) (h2_idle_timeout h) (ch_idle_timeout d) in
  let? ka_interval := duration_at (at_ "keepalive_interval"%string) (h2_keepalive_interval h) (ch_keepalive_interval d) in
  let? ka_timeout := duration_at (at_ "keepalive_timeout"%string) (h2_keepalive_timeout h) (ch_keepalive_timeout d) in
  let? stream_window := number_or (at_ "stream_receive_window"%string) (h2_stream_receive_window h) (ch_stream_receive_window d) in
  let? conn_window := number_or (at_ "connection_receive_window"%string) (h2_connection_receive_window h) (ch_connection_receive_window d) in
  let? frame := number_or (at_ "max_frame_size"%string) (h2_max_frame_size h) (ch_max_frame_size d) in
  let? headers := number_or (at_ "max_header_list_size"%string) (h2_max_header_list_size h) (ch_max_header_list_size d) in
  Ok {| ch_max_concurrent_streams := streams; ch_pool_size := pool; ch_idle_timeout := idle; ch_keepalive_interval := ka_interval;
        ch_keepalive_timeout := ka_timeout; ch_stream_receive_window := stream_window; ch_connection_receive_window := conn_window;
        ch_max_frame_size := frame; ch_max_header_list_size := headers |}.

(** Certificates cannot be skipped on QUIC. *)
Definition insecure_quic (h : ProxyHopSpec) : bool := insecure h && (contains_proto SQuic (protocols h) || contains_proto SHttp3 (protocols h)).

Definition under (i : bytes) (e : ConfigError) : ConfigError := match e with Validation p => Validation ([key "upstream"; Key i] ++ p) | other => other end.

Definition compile_upstream (u : UpstreamToml) : outcome ConfigError UpstreamConfig :=
  let here := [key "upstream"; Key (ut_id u)] in
  let? _ := map_err (fun _ => Validation here) (validate_upstream_id (ut_id u)) in
  let? chain := map_err (fun _ => Validation here) (parse_proxy_chain (ut_uri u)) in
  let? _ := match find_where insecure_quic (hops chain) with Some i => Err (Validation (here ++ [key "hop"; Idx i])) | None => Ok tt end in
  let? health := map_err (under (ut_id u)) (compile_health_config (ut_health u)) in
  let? h2 := match ut_h2 u with Some h => let? c := compile_h2_config h (Key (str "upstream " ++ ut_id u)) in Ok (Some c) | None => Ok None end in
  Ok {| uc_id := ut_id u; uc_chain := chain; uc_health := health; uc_h2 := h2 |}.

Definition compile_upstreams (us : option (list UpstreamToml)) : outcome ConfigError (list UpstreamConfig) :=
  match us with Some us => collect compile_upstream us | None => Ok [] end.

Definition compile_scheduler (g : bytes) (s : option bytes) : outcome ConfigError SchedulerKind :=
  match s with
  | None => Ok KRoundRobin
  | Some s =>
      if bool_decide (s = str "round-robin") then Ok KRoundRobin
      else if bool_decide (s = str "first-available") then Ok KFirstAvailable
      else if bool_decide (s = str "random") then Ok KRandom
      else if bool_decide (s = str "least-connections") then Ok KLeastConnections
      else Err (Validation [key "group"; Key g])
  end.
Definition compile_fallback (g : bytes) (s : option bytes) : outcome ConfigError GroupFallback :=
  match s with
  | None => Ok FbReject
  | Some s =>
      if bool_decide (s = str "reject") then Ok FbReject
      else if bool_decide (s = str "direct") then Ok FbDirect
      else if bool_decide (s = str "use-unhealthy") then Ok FbUseUnhealthy
      else Err (Validation [key "group"; Key g])
  end.
Definition compile_group (g : GroupToml) : outcome ConfigError UpstreamGroupConfig :=
  let? scheduler := compile_scheduler (gt_id g) (gt_scheduler g) in
  let? fallback := compile_fallback (gt_id g) (gt_fallback g) in
  Ok {| gc_id := gt_id g; gc_scheduler := scheduler; gc_members := gt_members g; gc_fallback := fallback |}.
Definition compile_groups (gs : option (list GroupToml)) : outcome ConfigError (list UpstreamGroupConfig) :=
  match gs with Some gs => collect compile_group gs | None => Ok [] end.

(** ** Lists *)

Lemma collect_ok {E A B} (f : A -> outcome E B) l bs : collect f l = Ok bs -> Forall2 (fun a b => f a = Ok b) l bs.
Proof.
  revert bs. induction l as [|a l IH]; intros bs; cbn; [by intros [= <-]|].
  intros (b & Hb & (r & Hr & [= <-])%obind_ok)%obind_ok. constructor; [done|by apply IH].
Qed.
Lemma collect_is_ok {E A B} (f : A -> outcome E B) l : is_ok (collect f l) = forallb (fun a => is_ok (f a)) l.
Proof. induction l as [|a l IH]; [done|]. cbn. destruct (f a); [|done..]. cbn. rewrite <- IH. by destruct (collect f l). Qed.
Lemma Forall2_map_eq {A B C} (P : A -> B -> Prop) (f : A -> C) (g : B -> C) l k :
  (forall a b, P a b -> g b = f a) -> Forall2 P l k -> map g k = map f l.
Proof. intros Hf. induction 1 as [|a b l k Hab _ IH]; [done|]. cbn. by rewrite (Hf a b Hab), IH. Qed.

(** No errors: the keys are distinct and each item passes. *)
Lemma each_seen_nil {A} (key_of : A -> bytes) f : (forall i a, f i true a <> []) -> forall l seen i, each_seen key_of f seen i l = [] ->
  NoDup (map key_of l) /\ (forall a, a ∈ l -> key_of a ∉ seen) /\ forall j a, l !! j = Some a -> f (i + j)%nat false a = [].
Proof.
  intros Hf. induction l as [|a l IH]; intros seen i; cbn [each_seen map].
  { intros _. split; [constructor|]. split; [intros a Ha; by apply elem_of_nil in Ha|done]. }
  intros (Ha & Hl)%app_nil. destruct (bool_decide (key_of a ∈ seen)) eqn:Es; [by apply Hf in Ha|]. apply bool_decide_eq_false in Es.
  apply IH in Hl as (Hnd & Hout & Hitems). split; [|split].
  - constructor; [|done]. rewrite list_elem_of_fmap. intros (b & Hb & Hin). apply Hout in Hin. set_solver.
  - intros b [->|Hb]%elem_of_cons; [done|]. apply Hout in Hb. set_solver.
  - intros [|j] b; cbn; [intros [= <-]; by rewrite Nat.add_0_r|]. intros Hb%Hitems. by rewrite <- Nat.add_succ_comm.
Qed.

Lemma each_seen_forall {A} (key_of : A -> bytes) f l i : (forall i a, f i true a <> []) -> each_seen key_of f ∅ i l = [] ->
  NoDup (map key_of l) /\ Forall (fun a => exists j, f j false a = []) l.
Proof.
  intros Hf (Hnd & _ & Hl)%each_seen_nil; [|done]. split; [done|]. apply Forall_lookup. intros j a Ha. eexists. by apply Hl.
Qed.

(** ** Upstreams *)

Lemma duration_or_ok o d : (forall s, o = Some s -> is_ok (parse_duration s) = true) -> exists v, duration_or o d = Ok v /\
  (v = d \/ exists s, o = Some s /\ parse_duration s = Ok v).
Proof.
  unfold duration_or, validate_duration. destruct o as [s|]; [|eauto]. intros Hs. specialize (Hs s eq_refl). destruct (parse_duration s) as [v|e|] eqn:E; [|done..].
  cbn. exists v. split; [done|]. right. by exists s.
Qed.
Lemma positive_duration_ok p s : positive_duration p s = [] -> exists d, parse_duration s = Ok d /\ 0 < d.
Proof.
  unfold positive_duration. destruct (parse_duration s) as [d|e|] eqn:E; [|done..]. intros Hd%fails_nil. exists d. split; [done|]. apply parse_duration_bounds in E. lia.
Qed.
Lemma number_or_ok p o d : (forall n, o = Some n -> n <> 0) -> exists v, number_or p o d = Ok v.
Proof. unfold number_or, non_zero. destruct o as [n|]; [|eauto]. intros Hn. specialize (Hn n eq_refl). destruct (Z.eqb_spec n 0); [done|eauto]. Qed.
Lemma positive_ok p n : positive p n = [] -> n <> 0.
Proof. unfold positive. intros H%fails_nil. lia. Qed.
Lemma any_duration_ok p s : any_duration p s = [] -> is_ok (parse_duration s) = true.
Proof. unfold any_duration. by intros ?%fails_nil%negb_false_iff. Qed.

Lemma initial_state_ok o : (forall s, o = Some s -> one_of VALID_HEALTH_INITIAL_STATES s = true) -> exists st, compile_initial_state o = Ok st.
Proof.
  unfold compile_initial_state. destruct o as [s|]; [|eauto]. intros Hs. specialize (Hs s eq_refl). unfold one_of in Hs. apply bool_decide_eq_true in Hs.
  repeat (case_bool_decide; [eauto|]). exfalso. unfold VALID_HEALTH_INITIAL_STATES in Hs. cbn [map] in Hs. set_solver.
Qed.

(** A health configuration that can be probed with. *)
Definition health_sane (h : HealthConfig) : Prop := 0 < interval h /\ 0 < hc_timeout h /\ failures_to_unhealthy h <> 0 /\ successes_to_healthy h <> 0.

Lemma default_health_sane : health_sane HealthConfig_default.
Proof. by vm_compute. Qed.

Lemma health_compiles o p : (forall h, o = Some h -> validate_health_config h p = []) ->
  exists hc, compile_health_config o = Ok hc /\ health_sane hc.
Proof.
  unfold compile_health_config. destruct o as [h|]; [|intros _; exists HealthConfig_default; split; [done|apply default_health_sane]].
  intros Hv. specialize (Hv h eq_refl). unfold validate_health_config in Hv.
  apply app_nil in Hv as (_ & (V2 & (V3 & (V4 & (V5 & V6)%app_nil)%app_nil)%app_nil)%app_nil).
  rewrite when_some_nil in V2, V3, V6. rewrite when_some_nil in V4, V5.
  destruct default_health_sane as (D1 & D2 & D3 & D4). generalize dependent HealthConfig_default. intros dh D1 D2 D3 D4.
  assert (forall (o : option bytes) (d : Z) p, (forall s, o = Some s -> positive_duration p s = []) -> 0 < d -> exists v, duration_or o d = Ok v /\ 0 < v) as Hdur.
  { intros o d p' Ho Hd. destruct (duration_or_ok o d) as (v & Hv & Hs).
    - intros s Hs. apply Ho, positive_duration_ok in Hs as (v & -> & _). done.
    - exists v. split; [done|]. destruct Hs as [->|(s & Hs & E)]; [done|]. apply Ho, positive_duration_ok in Hs as (v' & E' & Hp). congruence. }
  destruct (Hdur _ (interval dh) _ V2 D1) as (v1 & -> & P1). destruct (Hdur _ (hc_timeout dh) _ V3 D2) as (v2 & -> & P2). cbn [obind].
  assert (forall (o : option Z) d p, (forall n, o = Some n -> positive p n = []) -> d <> 0 -> default d o <> 0) as Hnum.
  { intros o d p' Ho Hd. destruct o as [n|]; [by eapply positive_ok, Ho|done]. }
  unfold non_zero. rewrite (proj2 (Z.eqb_neq _ _) (Hnum _ _ _ V4 D3)). cbn [obind]. rewrite (proj2 (Z.eqb_neq _ _) (Hnum _ _ _ V5 D4)). cbn [obind].
  destruct (initial_state_ok (ht_initial_state h)) as [st ->]; [intros s Hs; by apply V6, fails_nil, negb_false_iff in Hs|]. cbn [obind].
  eexists. split; [done|]. split; [done|]. split; [done|]. split; by eapply Hnum.
Qed.

Lemma duration_at_ok p o d : (forall s, o = Some s -> is_ok (parse_duration s) = true) -> exists v, duration_at p o d = Ok v.
Proof. unfold duration_at. intros (v & -> & _)%(duration_or_ok o d). by exists v. Qed.

(** Steps over a setting that is valid. *)
Ltac setting_step :=
  match goal with
  | |- context [number_or ?p ?o ?d] =>
      let Hs := fresh in destruct (number_or_ok p o d) as [? Hs]; [intros n Hn; match goal with V : _ |- _ => apply V in Hn; by eapply positive_ok end|rewrite Hs; cbn [obind]; clear Hs]
  | |- context [duration_at ?p ?o ?d] =>
      let Hs := fresh in destruct (duration_at_ok p o d) as [? Hs]; [intros s Hn; match goal with V : _ |- _ => apply V in Hn; by eapply any_duration_ok end|rewrite Hs; cbn [obind]; clear Hs]
  end.

Lemma h2_compiles h p prefix : validate_h2_config h p = [] -> exists c, compile_h2_config h prefix = Ok c.
Proof.
  unfold validate_h2_config. intros (V1 & (V2 & (V3 & (V4 & (V5 & (V6 & (V7 & (V8 & V9)%app_nil)%app_nil)%app_nil)%app_nil)%app_nil)%app_nil)%app_nil)%app_nil.
  rewrite when_some_nil in V1, V2, V6, V7, V8, V9. rewrite when_some_nil in V3, V4, V5.
  unfold compile_h2_config. cbv zeta. do 9 setting_step. by eexists.
Qed.

(** What validation leaves to compilation: the form of the identifier, and
    certificates skipped on QUIC. *)
Definition upstream_ready (u : UpstreamToml) : bool :=
  is_ok (validate_upstream_id (ut_id u)) && match parse_proxy_chain (ut_uri u) with Ok c => match find_where insecure_quic (hops c) with None => true | Some _ => false end | _ => false end.

Lemma upstream_compiles i u : validate_upstream i false u = [] ->
  if upstream_ready u then exists c, compile_upstream u = Ok c /\ uc_id c = ut_id u /\ parse_proxy_chain (ut_uri u) = Ok (uc_chain c) /\ health_sane (uc_health c)
  else is_ok (compile_upstream u) = false.
Proof.
  unfold validate_upstream. cbn [fails app]. intros (Hc & (Hh & Hh2)%app_nil)%app_nil. rewrite when_some_nil in Hh. rewrite when_some_nil in Hh2.
  apply fails_nil, negb_false_iff in Hc. unfold upstream_ready, compile_upstream.
  destruct (validate_upstream_id (ut_id u)) as [[]|e|]; [|done..]. destruct (parse_proxy_chain (ut_uri u)) as [c|e|]; [|done..]. cbn [map_err obind is_ok andb].
  destruct (find_where insecure_quic (hops c)); [done|]. cbn [obind].
  destruct (health_compiles (ut_health u) [key "upstreams"; Idx i]) as (hc & -> & Hs); [done|]. cbn [map_err obind].
  destruct (ut_h2 u) as [h|].
  - destruct (h2_compiles h _ (Key (str "upstream " ++ ut_id u)) (Hh2 h eq_refl)) as [c2 ->]. cbn [obind]. by eexists.
  - by eexists.
Qed.

(** ** Groups *)

Lemma scheduler_ok g o : (forall s, o = Some s -> one_of VALID_SCHEDULERS s = true) -> exists k, compile_scheduler g o = Ok k.
Proof.
  unfold compile_scheduler. destruct o as [s|]; [|eauto]. intros Hs. specialize (Hs s eq_refl). unfold one_of in Hs. apply bool_decide_eq_true in Hs.
  repeat (case_bool_decide; [eauto|]). exfalso. unfold VALID_SCHEDULERS in Hs. cbn [map] in Hs. set_solver.
Qed.
Lemma fallback_ok g o : (forall s, o = Some s -> one_of VALID_FALLBACKS s = true) -> exists k, compile_fallback g o = Ok k.
Proof.
  unfold compile_fallback. destruct o as [s|]; [|eauto]. intros Hs. specialize (Hs s eq_refl). unfold one_of in Hs. apply bool_decide_eq_true in Hs.
  repeat (case_bool_decide; [eauto|]). exfalso. unfold VALID_FALLBACKS in Hs. cbn [map] in Hs. set_solver.
Qed.

Definition group_sane (ids : list bytes) (g : UpstreamGroupConfig) : Prop := gc_members g <> [] /\ NoDup (gc_members g) /\ Forall (fun m => m ∈ ids) (gc_members g).

Lemma group_compiles ids i g : validate_upstream_group ids i false g = [] ->
  exists c, compile_group g = Ok c /\ gc_id c = gt_id g /\ gc_members c = gt_members g /\ group_sane ids c.
Proof.
  unfold validate_upstream_group. cbn [fails app]. intros (Hs & (Hf & (Hm & Hms)%app_nil)%app_nil)%app_nil. rewrite when_some_nil in Hs, Hf.
  apply fails_nil, bool_decide_eq_false in Hm. apply each_seen_forall in Hms as [Hnd Hin]; [|done]. rewrite map_id in Hnd.
  unfold compile_group. destruct (scheduler_ok (gt_id g) (gt_scheduler g)) as [k ->]; [intros s Ho; by apply Hs, fails_nil, negb_false_iff in Ho|]. cbn [obind].
  destruct (fallback_ok (gt_id g) (gt_fallback g)) as [fb ->]; [intros s Ho; by apply Hf, fails_nil, negb_false_iff in Ho|]. cbn [obind].
  eexists. split; [done|]. split; [done|]. split; [done|]. split; [done|]. split; [done|]. eapply Forall_impl; [exact Hin|]. cbn.
  intros m (_ & Hj). apply fails_nil, negb_false_iff in Hj. unfold one_of in Hj. by apply bool_decide_eq_true in Hj.
Qed.

Lemma validated_groups gs us : validate_upstream_groups gs us = [] -> exists cgs, compile_groups (Some gs) = Ok cgs /\ NoDup (map gc_id cgs) /\
  map gc_id cgs = map gt_id gs /\ Forall (group_sane (map ut_id (default [] us))) cgs.
Proof.
  unfold validate_upstream_groups, compile_groups. replace (match us with Some us0 => map ut_id us0 | None => [] end) with (map ut_id (default [] us)) by by destruct us.
  intros [Hnd Hgs]%each_seen_forall; [|done].
  assert (exists cgs, collect compile_group gs = Ok cgs /\ map gc_id cgs = map gt_id gs /\ Forall (group_sane (map ut_id (default [] us))) cgs) as (cgs & -> & Hids & Hs).
  { clear Hnd. induction Hgs as [|g gs [j Hj] _ (cgs & IH1 & IH2 & IH3)]; [by exists []|]. apply group_compiles in Hj as (c & Hc & Hid & _ & Hsane).
    exists (c :: cgs). cbn. rewrite Hc. cbn. rewrite IH1. cbn. split; [done|]. split; [by rewrite Hid, IH2|by constructor]. }
  exists cgs. by rewrite Hids.
Qed.

Lemma validated_upstreams us cs : validate_upstreams us = [] -> compile_upstreams (Some us) = Ok cs ->
  NoDup (map ut_id us) /\ Forall2 (fun u c => uc_id c = ut_id u /\ parse_proxy_chain (ut_uri u) = Ok (uc_chain c) /\ health_sane (uc_health c)) us cs.
Proof.
  unfold validate_upstreams, compile_upstreams. intros [Hnd Hus]%each_seen_forall Hcs%collect_ok; [|done]. split; [done|]. clear Hnd.
  induction Hcs as [|u c us cs Hc _ IH]; [constructor|]. inversion_clear Hus as [|?? [j Hj] Hr]. constructor; [|by apply IH].
  apply upstream_compiles in Hj. destruct (upstream_ready u); [|by rewrite Hc in Hj]. destruct Hj as (c' & Hc' & Hj).
  by assert (c' = c) as -> by congruence.
Qed.

(** Configured upstreams and groups.  Validated upstreams have distinct names and
    compile exactly when their names have the allowed form and no hop skips
    certificates on QUIC; the chain is the one of the URI, and the health settings
    can be probed with.  Validated groups always compile, have distinct names, and
    each has members, all distinct and all configured upstreams. *)
Theorem configured_upstreams us gs :
  validate_upstreams us = [] -> validate_upstream_groups gs (Some us) = [] ->
  NoDup (map ut_id us) /\ is_ok (compile_upstreams (Some us)) = forallb upstream_ready us /\
  (forall cs, compile_upstreams (Some us) = Ok cs ->
     Forall2 (fun u c => uc_id c = ut_id u /\ parse_proxy_chain (ut_uri u) = Ok (uc_chain c) /\ health_sane (uc_health c)) us cs) /\
  exists cgs, compile_groups (Some gs) = Ok cgs /\ NoDup (map gc_id cgs) /\ map gc_id cgs = map gt_id gs /\ Forall (group_sane (map ut_id us)) cgs.
Proof.
  intros Hu Hg. destruct (validated_groups gs (Some us) Hg) as (cgs & Hcgs & Hnd & Hids & Hsane).
  pose proof Hu as Hu'. unfold validate_upstreams in Hu'. apply each_seen_forall in Hu' as [Hun Hus]; [|done]. split; [exact Hun|]. split; [|split].
  - unfold compile_upstreams. rewrite collect_is_ok. clear - Hus. induction Hus as [|u us [j Hj] _ IH]; [done|]. cbn [forallb]. rewrite IH. f_equal.
    apply upstream_compiles in Hj. destruct (upstream_ready u); [|done]. by destruct Hj as (c & -> & _).
  - intros cs Hcs. by apply validated_upstreams.
  - by exists cgs.
Qed.

(** ** Examples *)

Definition demo_health : HealthConfigToml :=
  {| ht_mode := Some (str "tcp_connect"); ht_interval := Some (str "5s"); ht_timeout := None; ht_failures_to_unhealthy := Some 2; ht_successes_to_healthy := None;
     ht_initial_state := Some (str "healthy") |}.
Definition demo_upstreams : list UpstreamToml :=
  [{| ut_id := str "a"; ut_uri := str "socks5://10.0.0.1:1080"; ut_health := Some demo_health; ut_h2 := None |};
   {| ut_id := str "b"; ut_uri := str "http://proxy.test:8080"; ut_health := None; ut_h2 := None |}].
Definition demo_groups : list GroupToml := [{| gt_id := str "main"; gt_scheduler := Some (str "random"); gt_members := [str "b"; str "a"]; gt_fallback := None |}].

Lemma configured_upstreams_witness :
  exists cs cgs, compile_upstreams (Some demo_upstreams) = Ok cs /\ map uc_id cs = [str "a"; str "b"] /\ compile_groups (Some demo_groups) = Ok cgs /\
    map gc_id cgs = [str "main"].
Proof.
  destruct (configured_upstreams demo_upstreams demo_groups) as (_ & Hok & _ & cgs & Hcgs & _ & Hids & _); [by vm_compute|by vm_compute|].
  eexists _, cgs. split; [by vm_compute|]. split; [by vm_compute|]. split; [exact Hcgs|exact Hids].
Defined.
