(* ===== verification/ConfigListeners.v ===== *)
(** * Configuration: listeners

    Models the listener part of [crates/eggress-config/src/model.rs], its validation
    ([validate/listeners.rs]) and its compilation ([compile/listeners.rs]), with the
    resolution of passwords of [compile/mod.rs].

    The environment, the file system and the PEM parser are parameters. *)

From S2P Require Import Prelude Bytes Decimal Stream NetAddr Connector Dispatch Uri Capability Chain Health Upstream Scheduler Matcher Router HttpText UdpRegistry UdpSession ConfigRules ConfigUpstreams.
Local Open Scope Z_scope.

(** ** As written *)

Record ListenerUdpConfig := {
  un_enabled : option bool; un_mode : option bytes; un_bind : option bytes; un_advertise : option bytes; un_idle_timeout : option bytes;
  un_target_idle_timeout : option bytes; un_max_associations : option nat; un_max_targets_per_association : option nat;
  un_max_datagram_size : option nat; un_client_pin : option bool; un_allow_private_egress : option bool;
  un_max_associations_global : option nat; un_fixed_target : option bytes; un_upstream_connect_timeout : option bytes;
  un_upstream_udp_bind : option bytes
}.

Record TransparentConfig := { tp_enabled : option bool; tp_protocol : option bytes }.
Record UnixListenerConfig := { ux_path : bytes; ux_unlink_existing : option bool; ux_mode : option Z }.
Record ShadowsocksListenerConfig := { sl_method : bytes; sl_password : bytes; sl_auth_prefix : option bytes; sl_plugins : list bytes }.
Record SsrListenerConfig := { sr_auth_prefix : option bytes; sr_plugins : list bytes }.
Record ListenerTrojanConfig := { tr_password : bytes; tr_fallback : option bytes }.
Record ListenerTlsConfig := { lt_cert : bytes; lt_key : bytes; lt_alpn : option (list bytes) }.
Record AuthConfig := { au_type : bytes; au_username : option bytes; au_password : option bytes; au_password_env : option bytes }.

Record ListenerToml := {
  li_name : bytes; li_bind : bytes; li_protocols : list bytes; li_reuse_port : option bool; li_connection_limit : option Z;
  li_auth : option AuthConfig; li_udp_enabled : option bool; li_udp : option ListenerUdpConfig; li_tls : option ListenerTlsConfig;
  li_shadowsocks : option ShadowsocksListenerConfig; li_ssr : option SsrListenerConfig; li_trojan : option ListenerTrojanConfig;
  li_transparent : option TransparentConfig; li_unix : option UnixListenerConfig; li_fixed_target : option bytes; li_local_bind : option bytes
}.

(** ** Validation *)

Definition VALID_AUTH_TYPES : list bytes := map str ["password"]%string.

Definition within (lo hi n : nat) : bool := (lo <=? n)%nat && (n <=? hi)%nat.
Definition MAX_DATAGRAM : nat := Z.to_nat 65535.

Definition validate_listener_udp (udp : ListenerUdpConfig) (parent : path) : list ConfigError :=
  let at_ k := parent ++ [key "udp"; key k] in
  when_some (un_bind udp) (fun s => fails (at_ "bind"%string) (negb (some (parse_socket_addr s)))) ++
  when_some (un_advertise udp) (fun s => fails (at_ "advertise"%string) (negb (some (parse_ip s)))) ++
  when_some (un_idle_timeout udp) (any_duration (at_ "idle_timeout"%string)) ++
  when_some (un_target_idle_timeout udp) (any_duration (at_ "target_idle_timeout"%string)) ++
  when_some (un_max_associations udp) (fun n => fails (at_ "max_associations"%string) (n =? 0)%nat) ++
  when_some (un_max_targets_per_association udp) (fun n => fails (at_ "max_targets_per_association"%string) (n =? 0)%nat) ++
  when_some (un_max_datagram_size udp) (fun n => fails (at_ "max_datagram_size"%string) (negb (within 257 MAX_DATAGRAM n))).


Definition validate_auth (a : AuthConfig) (p : path) : list ConfigError :=
  fails p (negb (one_of VALID_AUTH_TYPES (au_type a))) ++
  fails p (is_empty (default [] (au_username a))) ++
  fails p (negb (some (au_password a)) && negb (some (au_password_env a))) ++
  fails p (bool_decide (au_password a = Some [])).

Definition validate_listener (i : nat) (seen : bool) (l : ListenerToml) : list ConfigError :=
  let p := [key "listeners"; Idx i] in
  let trojan := one_of (li_protocols l) (str "trojan") in
  fails p seen ++
  fails p (bool_decide (li_protocols l = [])) ++
  mjoin (map (fun s => fails p (negb (one_of VALID_PROTOCOLS s))) (li_protocols l)) ++
  when_some (li_auth l) (fun a => validate_auth a p) ++
  fails p (bool_decide (li_connection_limit l = Some 0)) ++
  when_some (li_udp l) (fun u => validate_listener_udp u p) ++
  fails p (trojan && negb (some (li_tls l))) ++
  fails p (trojan && negb (some (li_trojan l))) ++
  when_some (li_trojan l) (fun t =>
    fails (p ++ [key "trojan"; key "password"]) (is_empty (tr_password t)) ++
    when_some (tr_fallback t) (fun f => fails (p ++ [key "trojan"; key "fallback"]) (negb (is_ok (parse_target_addr f))))).

Definition validate_listeners (ls : list ListenerToml) : list ConfigError := each_seen li_name validate_listener ∅ 0 ls.

(** *** Loopback binds *)

Definition loopback_ip (ip : IpAddr) : bool :=
  match ip with
  | V4 o => v4_is_loopback o
  | V6 o => v6_is_loopback o || match to_ipv4_mapped o with Some v4 => v4_is_loopback v4 | None => false end
  end.

(** The host of a bind address that is not a socket address. *)
Definition bind_host (addr : bytes) : bytes :=
  match addr with
  | b :: rest =>
      if b =b x5b then
        match find_byte x5d rest with
        | Some close =>
            match drop (close + 1) rest with
            | [] => take close rest
            | c :: port => if (c =b x3a) && some (parse_u16 port) then take close rest else addr
            end
        | None => addr
        end
      else match rsplit_once x3a addr with
      | Some (host, port) => if some (parse_u16 port) && negb (is_empty host) then host else addr
      | None => addr
      end
  | [] => addr
  end.

Definition is_loopback_bind (addr : bytes) : bool :=
  match parse_socket_addr addr with
  | Some (ip, _) => loopback_ip ip
  | None =>
      match parse_ip addr with
      | Some ip => loopback_ip ip
      | None =>
          let h := bind_host addr in
          eq_ignore_ascii_case h (str "localhost") || match parse_ip h with Some ip => loopback_ip ip | None => false end
      end
  end.

(** ** Compilation *)

Record CompiledTransparentConfig := { ct_enabled : bool; ct_protocol : bytes }.
Record CompiledUnixListenerConfig := { cu_path : bytes; cu_unlink_existing : bool; cu_mode : Z }.
Record CompiledListenerTlsConfig := { cl_cert_pem : bytes; cl_key_pem : bytes; cl_alpn : list bytes }.

Record ListenerConfig := {
  lc_name : bytes; lc_bind : bytes; lc_protocols : list ProtocolId; lc_reuse_port : option bool; lc_connection_limit : option Z;
  lc_auth : option AuthConfig; lc_udp : option CompiledListenerUdpConfig; lc_tls : option CompiledListenerTlsConfig;
  lc_shadowsocks : option ShadowsocksListenerConfig; lc_trojan : option ListenerTrojanConfig;
  lc_transparent : option CompiledTransparentConfig; lc_unix : option CompiledUnixListenerConfig; lc_fixed_target : option TargetAddr;
  lc_local_bind : option bytes
}.

Definition any_loopback : SocketAddr := {| sa_ip := v4_localhost; sa_port := 0 |}.
Definition CompiledListenerUdpConfig_default : CompiledListenerUdpConfig :=
  {| lu_mode := Socks5UdpAssociate; lu_enabled := true; lu_bind := any_loopback; lu_advertise := None; lu_idle_timeout := 60 * NANOS;
     lu_target_idle_timeout := 30 * NANOS; lu_max_associations := 1024; lu_max_targets_per_association := 64; lu_max_datagram_size := MAX_DATAGRAM;
     lu_client_pin := true; lu_allow_private_egress := true; lu_max_associations_global := 1024; lu_fixed_target := None;
     lu_upstream_connect_timeout := 10 * NANOS; lu_upstream_udp_bind := any_loopback |}.

Definition guard (p : path) (bad : bool) : outcome ConfigError unit := if bad then Err (Validation p) else Ok tt.
(** [o.map(f).transpose()?]. *)
Definition transpose {A B} (f : A -> outcome ConfigError B) (o : option A) : outcome ConfigError (option B) :=
  match o with Some a => let? b := f a in Ok (Some b) | None => Ok None end.

Definition compile_socket_addr (p : path) (s : bytes) : outcome ConfigError SocketAddr :=
  match parse_socket_addr s with Some (ip, port) => Ok {| sa_ip := ip; sa_port := port |} | None => Err (Validation p) end.
Definition compile_target (p : path) (s : bytes) : outcome ConfigError TargetAddr := map_err (fun _ => Validation p) (parse_target_addr s).

Definition udp_mode_of (mode : option bytes) : option UdpMode :=
  match mode with
  | None => Some Socks5UdpAssociate
  | Some s =>
      if one_of [str "standalone_pproxy_udp"; str "standalone"] s then Some StandalonePproxyUdp
      else if one_of [str "shadowsocks_udp"; str "shadowsocks"] s then Some ShadowsocksUdp
      else if bool_decide (s = str "echo") then Some EchoUdp
      else if one_of [str "fixed_target"; str "fixed-target"] s then Some FixedTarget
      else if one_of [str "socks5_udp_associate"; str "socks5"] s then Some Socks5UdpAssociate
      else None
  end.

Definition has_protocol (p : ProtocolId) (protocols : list ProtocolId) : bool := bool_decide (p ∈ protocols).

Definition compile_listener_udp_defaults (protocols : list ProtocolId) (p : path) : outcome ConfigError CompiledListenerUdpConfig :=
  let? _ := guard p (negb (has_protocol PSocks5 protocols)) in Ok CompiledListenerUdpConfig_default.

Definition compile_listener_udp_config (udp : ListenerUdpConfig) (protocols : list ProtocolId) (p : path) : outcome ConfigError CompiledListenerUdpConfig :=
  let defaults := CompiledListenerUdpConfig_default in
  let at_ k := p ++ [key "udp"; key k] in
  let? mode := ok_or (Validation (at_ "mode"%string)) (udp_mode_of (un_mode udp)) in
  let? _ := guard p (bool_decide (mode = Socks5UdpAssociate) && negb (has_protocol PSocks5 protocols)) in
  let? _ := guard p (bool_decide (mode = EchoUdp) && negb (has_protocol PEcho protocols)) in
  let? fixed_target := transpose (compile_target (at_ "fixed_target"%string)) (un_fixed_target udp) in
  let? _ := guard (at_ "fixed_target"%string) (bool_decide (mode = FixedTarget) && negb (some fixed_target)) in
  let? _ := guard p (bool_decide (mode = ShadowsocksUdp) && negb (has_protocol PShadowsocks protocols)) in
  let? _ := guard (at_ "client_pin"%string) (bool_decide (mode = ShadowsocksUdp) && negb (default true (un_client_pin udp))) in
  if negb (default (lu_enabled defaults) (un_enabled udp)) then
    Ok {| lu_mode := lu_mode defaults; lu_enabled := false; lu_bind := lu_bind defaults; lu_advertise := lu_advertise defaults;
          lu_idle_timeout := lu_idle_timeout defaults; lu_target_idle_timeout := lu_target_idle_timeout defaults;
          lu_max_associations := lu_max_associations defaults; lu_max_targets_per_association := lu_max_targets_per_association defaults;
          lu_max_datagram_size := lu_max_datagram_size defaults; lu_client_pin := lu_client_pin defaults;
          lu_allow_private_egress := lu_allow_private_egress defaults; lu_max_associations_global := lu_max_associations_global defaults;
          lu_fixed_target := lu_fixed_target defaults; lu_upstream_connect_timeout := lu_upstream_connect_timeout defaults;
          lu_upstream_udp_bind := lu_upstream_udp_bind defaults |}
  else
    let? bind := compile_socket_addr (at_ "bind"%string) (default (str "127.0.0.1:0") (un_bind udp)) in
    let? advertise := transpose (fun s => ok_or (Validation (at_ "advertise"%string)) (parse_ip s)) (un_advertise udp) in
    let? idle_timeout := duration_at (at_ "idle_timeout"%string) (un_idle_timeout udp) (lu_idle_timeout defaults) in
    let? target_idle_timeout := duration_at (at_ "target_idle_timeout"%string) (un_target_idle_timeout udp) (lu_target_idle_timeout defaults) in
    let max_associations := default (lu_max_associations defaults) (un_max_associations udp) in
    let? _ := guard (at_ "max_associations"%string) (max_associations =? 0)%nat in
    let max_targets := default (lu_max_targets_per_association defaults) (un_max_targets_per_association udp) in
    let? _ := guard (at_ "max_targets_per_association"%string) (max_targets =? 0)%nat in
    let max_datagram_size := default (lu_max_datagram_size defaults) (un_max_datagram_size udp) in
    let? _ := guard (at_ "max_datagram_size"%string) (negb (within 257 MAX_DATAGRAM max_datagram_size)) in
    let max_global := default (lu_max_associations_global defaults) (un_max_associations_global udp) in
    let? _ := guard (at_ "max_associations_global"%string) (max_global =? 0)%nat in
    let? connect := duration_at (at_ "upstream_connect_timeout"%string) (un_upstream_connect_timeout udp) (lu_upstream_connect_timeout defaults) in
    let? up_bind := compile_socket_addr (at_ "upstream_udp_bind"%string) (default (str "127.0.0.1:0") (un_upstream_udp_bind udp)) in
    Ok {| lu_mode := mode; lu_enabled := true; lu_bind := bind; lu_advertise := advertise; lu_idle_timeout := idle_timeout;
          lu_target_idle_timeout := target_idle_timeout; lu_max_associations := max_associations; lu_max_targets_per_association := max_targets;
          lu_max_datagram_size := max_datagram_size; lu_client_pin := default (lu_client_pin defaults) (un_client_pin udp);
          lu_allow_private_egress := default (lu_allow_private_egress defaults) (un_allow_private_egress udp);
          lu_max_associations_global := max_global; lu_fixed_target := fixed_target; lu_upstream_connect_timeout := connect;
          lu_upstream_udp_bind := up_bind |}.

Definition compile_transparent_config (c : option TransparentConfig) : outcome ConfigError (option CompiledTransparentConfig) :=
  match c with
  | None => Ok None
  | Some cfg =>
      let protocol := default (str "redir") (tp_protocol cfg) in
      let? _ := guard [key "transparent"; key "protocol"] (negb (one_of [str "redir"; str "pf"] protocol)) in
      Ok (Some {| ct_enabled := default false (tp_enabled cfg); ct_protocol := protocol |})
  end.

(** [Path::parent]: repeated separators and inner [.] components do not count. *)
Definition path_components (s : bytes) : list bytes :=
  let parts := split_on x2f s in
  let lead := match parts with p :: _ => if bool_decide (p = [x2e]) then [p] else [] | [] => [] end in
  lead ++ filter (fun p => p <> [] /\ p <> [x2e]) parts.
Definition no_parent (s : bytes) : bool :=
  match s with
  | b :: _ => if b =b x2f then bool_decide (path_components s = []) else (length (path_components s) <=? 1)%nat
  | [] => true
  end.

Definition compile_unix_listener_config (c : option UnixListenerConfig) : outcome ConfigError (option CompiledUnixListenerConfig) :=
  match c with
  | None => Ok None
  | Some cfg =>
      let? _ := guard [key "unix"; key "path"] (no_parent (ux_path cfg)) in
      Ok (Some {| cu_path := ux_path cfg; cu_unlink_existing := default true (ux_unlink_existing cfg); cu_mode := default 432 (ux_mode cfg) |})
  end.

Definition SSR_PLUGINS : list bytes := map str ["plain"; "origin"; "http_simple"; "tls1.2_ticket_auth"; "verify_simple"; "verify_deflate"]%string.
Fixpoint check_plugins (p : path) (i : nat) (plugins : list bytes) : outcome ConfigError unit :=
  match plugins with
  | [] => Ok tt
  | x :: r => let? _ := guard (p ++ [key "ssr"; key "plugins"; Idx i]) (negb (one_of SSR_PLUGINS x)) in check_plugins p (S i) r
  end.

Section compile.
Context (env : bytes -> option bytes) (read_file : bytes -> option bytes) (cert_ok key_ok : bytes -> bool) (quic : bool).

Definition resolve_password (password password_env : option bytes) (p : path) : outcome ConfigError (option bytes) :=
  match password_env with
  | Some v => match env v with Some s => Ok (Some s) | None => Err (Validation p) end
  | None => Ok password
  end.

Definition read_pem (p : path) (f : bytes) : outcome ConfigError bytes := ok_or (Validation p) (read_file f).

Definition compile_listener_tls (p : path) (t : ListenerTlsConfig) : outcome ConfigError CompiledListenerTlsConfig :=
  let? cert_pem := read_pem (p ++ [key "tls"; key "cert"]) (lt_cert t) in
  let? key_pem := read_pem (p ++ [key "tls"; key "key"]) (lt_key t) in
  let? _ := guard (p ++ [key "tls"]) (negb (cert_ok cert_pem && key_ok key_pem)) in
  Ok {| cl_cert_pem := cert_pem; cl_key_pem := key_pem; cl_alpn := default [] (lt_alpn t) |}.

Definition compile_ssr (l : ListenerToml) (p : path) (protocols : list ProtocolId) : outcome ConfigError unit :=
  if has_protocol PShadowsocksR protocols then
    match li_ssr l with Some s => check_plugins p 0 (sr_plugins s) | None => Err (Validation (p ++ [key "ssr"])) end
  else Ok tt.

Definition compile_listener_udp (l : ListenerToml) (p : path) (protocols : list ProtocolId) : outcome ConfigError (option CompiledListenerUdpConfig) :=
  match li_udp_enabled l, li_udp l with
  | None, None | Some false, None => Ok None
  | None, Some u | Some true, Some u => let? c := compile_listener_udp_config u protocols p in Ok (Some c)
  | Some true, None => let? c := compile_listener_udp_defaults protocols p in Ok (Some c)
  | Some false, Some u =>
      let? _ := guard p (default true (un_enabled u)) in
      let? c := compile_listener_udp_config u protocols p in Ok (Some c)
  end.

Definition check_shadowsocks_udp (l : ListenerToml) (p : path) (udp : option CompiledListenerUdpConfig) : outcome ConfigError unit :=
  match udp with
  | Some u =>
      if bool_decide (lu_mode u = ShadowsocksUdp) then
        match li_shadowsocks l with
        | None => Err (Validation p)
        | Some ss =>
            let? _ := guard (p ++ [key "shadowsocks"; key "method"]) (is_empty (sl_method ss)) in
            guard (p ++ [key "shadowsocks"; key "password"]) (is_empty (sl_password ss))
        end
      else Ok tt
  | None => Ok tt
  end.

Definition is_quic (p : ProtocolId) : bool := match p with PQuic | PHttp3 => true | _ => false end.
Definition check_quic (l : ListenerToml) (p : path) (protocols : list ProtocolId) (udp : option CompiledListenerUdpConfig)
    (tls : option CompiledListenerTlsConfig) : outcome ConfigError unit :=
  if has_protocol PQuic protocols || has_protocol PHttp3 protocols then
    let? _ := guard (p ++ [key "tls"]) (negb (some tls)) in
    let? _ := guard p (some (li_unix l) || match li_transparent l with Some t => default false (tp_enabled t) | None => false end) in
    let application_protocols := length (filter (fun q => is_quic q = false) protocols) in
    let? _ := guard (p ++ [key "protocols"]) (has_protocol PHttp3 protocols && negb (length protocols =? 1)%nat) in
    let? _ := guard (p ++ [key "protocols"]) (has_protocol PQuic protocols && (application_protocols =? 0)%nat) in
    let? _ := guard (p ++ [key "udp"]) (some udp) in
    guard (p ++ [key "fixed_target"]) (some (li_fixed_target l) && has_protocol PHttp3 protocols)
  else Ok tt.

Definition compile_auth (p : path) (a : AuthConfig) : outcome ConfigError AuthConfig :=
  let? password := resolve_password (au_password a) (au_password_env a) p in
  Ok {| au_type := au_type a; au_username := au_username a; au_password := password; au_password_env := None |}.

(** An [ssr] section stands in for a missing [shadowsocks] one. *)
Definition shadowsocks_or_ssr (l : ListenerToml) : option ShadowsocksListenerConfig :=
  match li_shadowsocks l with
  | Some s => Some s
  | None => (fun s => {| sl_method := str "ssr"; sl_password := []; sl_auth_prefix := sr_auth_prefix s; sl_plugins := sr_plugins s |}) <$> li_ssr l
  end.

Definition compile_listener (i : nat) (l : ListenerToml) : outcome ConfigError ListenerConfig :=
  let p := [key "listeners"; Idx i] in
  let? protocols := collect (compile_protocol quic) (li_protocols l) in
  let? _ := guard p (bool_decide (protocols = [])) in
  let? _ := compile_ssr l p protocols in
  let? udp := compile_listener_udp l p protocols in
  let? _ := check_shadowsocks_udp l p udp in
  let? tls := transpose (compile_listener_tls p) (li_tls l) in
  let? _ := check_quic l p protocols udp tls in
  let? transparent := compile_transparent_config (li_transparent l) in
  let? unix := compile_unix_listener_config (li_unix l) in
  let? fixed_target := transpose (compile_target (p ++ [key "fixed_target"])) (li_fixed_target l) in
  let? auth := transpose (compile_auth p) (li_auth l) in
  Ok {| lc_name := li_name l; lc_bind := li_bind l; lc_protocols := protocols; lc_reuse_port := li_reuse_port l;
        lc_connection_limit := li_connection_limit l; lc_auth := auth; lc_udp := udp; lc_tls := tls; lc_shadowsocks := shadowsocks_or_ssr l;
        lc_trojan := li_trojan l; lc_transparent := transparent; lc_unix := unix; lc_fixed_target := fixed_target; lc_local_bind := li_local_bind l |}.

(** [iter().enumerate().map(..).collect()]. *)
Fixpoint collect_from {A B} (f : nat -> A -> outcome ConfigError B) (i : nat) (l : list A) : outcome ConfigError (list B) :=
  match l with
  | [] => Ok []
  | a :: r => let? b := f i a in let? bs := collect_from f (S i) r in Ok (b :: bs)
  end.

Definition compile_listeners (ls : option (list ListenerToml)) : outcome ConfigError (list ListenerConfig) :=
  match ls with Some ls => collect_from compile_listener 0 ls | None => Ok [] end.
End compile.

(** ** What a compiled listener promises *)

Record udp_sane (protocols : list ProtocolId) (u : CompiledListenerUdpConfig) : Prop := {
  us_associations : (0 < lu_max_associations u)%nat; us_targets : (0 < lu_max_targets_per_association u)%nat; us_global : (0 < lu_max_associations_global u)%nat;
  us_datagram : within 257 MAX_DATAGRAM (lu_max_datagram_size u) = true;
  us_socks5 : lu_enabled u = true -> lu_mode u = Socks5UdpAssociate -> PSocks5 ∈ protocols;
  us_echo : lu_mode u = EchoUdp -> PEcho ∈ protocols;
  us_fixed : lu_mode u = FixedTarget -> is_Some (lu_fixed_target u);
  us_shadowsocks : lu_mode u = ShadowsocksUdp -> PShadowsocks ∈ protocols /\ lu_client_pin u = true
}.

Lemma guard_ok p b (x : unit) : guard p b = Ok x -> b = false.
Proof. unfold guard. by destruct b. Qed.

(** Takes apart the steps of a compilation that succeeded. *)
Ltac steps H :=
  lazymatch type of H with
  | obind (guard _ _) _ = Ok _ => apply obind_ok in H as (? & ?Hg%guard_ok & H); steps H
  | obind _ _ = Ok _ => apply obind_ok in H as (? & ? & H); steps H
  | _ => idtac
  end.

Lemma mode_needs (P : Prop) (m k : UdpMode) (b : bool) : bool_decide (m = k) && negb b = false -> (b = true -> P) -> m = k -> P.
Proof. intros Hb HP ->. rewrite bool_decide_true in Hb by done. apply HP. by destruct b. Qed.

Lemma udp_config_sane udp protocols p u : compile_listener_udp_config udp protocols p = Ok u -> udp_sane protocols u.
Proof.
  unfold compile_listener_udp_config. cbv zeta. intros H. steps H.
  destruct (negb (default _ (un_enabled udp))) eqn:En.
  - injection H as <-. split; cbn [lu_mode lu_enabled lu_max_associations lu_max_targets_per_association lu_max_datagram_size lu_max_associations_global]; try done; cbn; lia.
  - steps H. injection H as <-.
    split; cbn [lu_mode lu_enabled lu_max_associations lu_max_targets_per_association lu_max_datagram_size lu_max_associations_global lu_fixed_target lu_client_pin];
      unfold has_protocol in *.
    + apply Nat.neq_0_lt_0. by apply Nat.eqb_neq.
    + apply Nat.neq_0_lt_0. by apply Nat.eqb_neq.
    + apply Nat.neq_0_lt_0. by apply Nat.eqb_neq.
    + by apply negb_false_iff.
    + intros _. eapply mode_needs; [exact Hg|]. by intros ?%bool_decide_eq_true.
    + eapply mode_needs; [exact Hg0|]. by intros ?%bool_decide_eq_true.
    + eapply mode_needs; [exact Hg1|]. by intros ?%some_true.
    + intros Hm. split; revert Hm; [eapply mode_needs; [exact Hg2|by intros ?%bool_decide_eq_true]|by eapply mode_needs; [exact Hg3|]].
Qed.

Lemma default_udp_sane protocols : PSocks5 ∈ protocols -> udp_sane protocols CompiledListenerUdpConfig_default.
Proof. intros Hp. split; cbn; done || lia || by unfold within, MAX_DATAGRAM. Qed.

Lemma compile_trojan quic s : compile_protocol quic s = Ok PTrojan -> s = str "trojan".
Proof.
  unfold compile_protocol. do 6 (case_bool_decide; [done|]). case_bool_decide; [done|].
  repeat match goal with |- context [if ?b then _ else _] => destruct b; try done end.
Qed.

Section sane.
Context (env : bytes -> option bytes) (read_file : bytes -> option bytes) (cert_ok key_ok : bytes -> bool) (quic : bool).

Record listener_sane (l : ListenerConfig) : Prop := {
  ls_protocols : lc_protocols l <> [];
  ls_limit : lc_connection_limit l <> Some 0;
  ls_udp : forall u, lc_udp l = Some u -> udp_sane (lc_protocols l) u /\
    (lu_mode u = ShadowsocksUdp -> exists ss, lc_shadowsocks l = Some ss /\ sl_method ss <> [] /\ sl_password ss <> []);
  ls_quic : (PQuic ∈ lc_protocols l \/ PHttp3 ∈ lc_protocols l) -> is_Some (lc_tls l) /\ lc_udp l = None /\ lc_unix l = None;
  ls_raw_quic : PQuic ∈ lc_protocols l -> exists q, q ∈ lc_protocols l /\ is_quic q = false;
  ls_http3 : PHttp3 ∈ lc_protocols l -> lc_protocols l = [PHttp3] /\ lc_fixed_target l = None;
  ls_tls : forall t, lc_tls l = Some t -> cert_ok (cl_cert_pem t) = true /\ key_ok (cl_key_pem t) = true;
  ls_trojan : PTrojan ∈ lc_protocols l -> is_Some (lc_tls l) /\ exists t, lc_trojan l = Some t /\ tr_password t <> [];
  ls_auth : forall a, lc_auth l = Some a -> au_type a = str "password" /\ (exists user, au_username a = Some user /\ user <> []) /\
    exists pw, au_password a = Some pw /\ (pw = [] -> exists v, env v = Some [])
}.

Lemma udp_listener_sane l p protocols udp u :
  compile_listener_udp l p protocols = Ok udp -> check_shadowsocks_udp l p udp = Ok tt -> udp = Some u ->
  udp_sane protocols u /\ (lu_mode u = ShadowsocksUdp -> exists ss, shadowsocks_or_ssr l = Some ss /\ sl_method ss <> [] /\ sl_password ss <> []).
Proof using Type.
  intros Hc Hs ->. split.
  - unfold compile_listener_udp in Hc. destruct (li_udp_enabled l) as [[]|], (li_udp l) as [c|]; try done; steps Hc; injection Hc as ->; try by eapply udp_config_sane.
    unfold compile_listener_udp_defaults in *. match goal with H : obind _ _ = _ |- _ => steps H; injection H as <- end. apply default_udp_sane.
    apply negb_false_iff in Hg. unfold has_protocol in Hg. by apply bool_decide_eq_true in Hg.
  - intros Hm. unfold check_shadowsocks_udp in Hs. rewrite bool_decide_true in Hs by done. unfold shadowsocks_or_ssr. destruct (li_shadowsocks l) as [ss|]; [|done].
    steps Hs. apply guard_ok in Hs. unfold is_empty in *. apply bool_decide_eq_false in Hg, Hs. by exists ss.
Qed.

Lemma has_protocol_true p l : has_protocol p l = true <-> p ∈ l.
Proof using Type. unfold has_protocol. by rewrite bool_decide_eq_true. Qed.

Lemma quic_listener_sane l p protocols udp tls : check_quic l p protocols udp tls = Ok tt ->
  ((PQuic ∈ protocols \/ PHttp3 ∈ protocols) -> is_Some tls /\ udp = None /\ li_unix l = None) /\
  (PQuic ∈ protocols -> exists q, q ∈ protocols /\ is_quic q = false) /\
  (PHttp3 ∈ protocols -> protocols = [PHttp3] /\ li_fixed_target l = None).
Proof using Type.
  unfold check_quic. destruct (_ || _) eqn:Ho.
  2: { apply orb_false_iff in Ho as [H1 H2]. intros _. rewrite <- !has_protocol_true, H1, H2. split; [naive_solver|done]. }
  intros H. steps H. apply guard_ok in H. apply negb_some_false in Hg.
  assert (udp = None) as -> by by destruct udp. assert (li_unix l = None) as Hu by by destruct (li_unix l).
  split; [done|]. rewrite <- !has_protocol_true. split.
  - intros Hq. rewrite Hq in Hg2. cbn [andb] in Hg2. apply Nat.eqb_neq in Hg2.
    destruct (filter _ protocols) as [|q r] eqn:Ef; [done|]. exists q. assert (q ∈ filter (fun q => is_quic q = false) protocols) as Hin by (rewrite Ef; left).
    apply list_elem_of_filter in Hin. naive_solver.
  - intros Hh. rewrite Hh in Hg1, H. cbn [andb] in Hg1. apply negb_false_iff, Nat.eqb_eq in Hg1. rewrite andb_true_r in H.
    destruct protocols as [|q [|]]; try done. apply has_protocol_true, list_elem_of_singleton in Hh as ->. by destruct (li_fixed_target l).
Qed.

Lemma auth_sane p p' a b : validate_auth a p = [] -> compile_auth env p' a = Ok b ->
  au_type b = str "password" /\ (exists user, au_username b = Some user /\ user <> []) /\
  exists pw, au_password b = Some pw /\ (pw = [] -> exists v, env v = Some []).
Proof using Type.
  unfold validate_auth, compile_auth, resolve_password. intros (Ht & (Hu & (Hp & He)%app_nil)%app_nil)%app_nil. apply fails_nil in Ht, Hu, Hp, He.
  apply negb_false_iff in Ht. unfold one_of in Ht. apply bool_decide_eq_true in Ht. unfold VALID_AUTH_TYPES in Ht. cbn [map] in Ht. apply list_elem_of_singleton in Ht.
  unfold is_empty in Hu. apply bool_decide_eq_false in Hu. apply bool_decide_eq_false in He.
  intros (pw & Hpw & [= <-])%obind_ok. cbn. split; [done|]. split; [destruct (au_username a) as [n|]; [by exists n|done]|].
  destruct (au_password_env a) as [v|].
  - destruct (env v) as [s|] eqn:E; [|done]. injection Hpw as <-. exists s. split; [done|]. intros ->. by exists v.
  - injection Hpw as <-. destruct (au_password a) as [s|]; [|done]. exists s. split; [done|]. by intros ->.
Qed.
End sane.

Section listeners_proofs.
Context (env : bytes -> option bytes) (read_file : bytes -> option bytes) (cert_ok key_ok : bytes -> bool) (quic : bool).

Lemma transpose_some {A B} (f : A -> outcome ConfigError B) o b : transpose f o = Ok (Some b) -> exists a, o = Some a /\ f a = Ok b.
Proof using Type. unfold transpose. destruct o as [a|]; [|done]. intros (b' & Hb & [= ->])%obind_ok. by exists a. Qed.
Lemma transpose_is_some {A B} (f : A -> outcome ConfigError B) o r : transpose f o = Ok r -> is_Some o -> is_Some r.
Proof using Type. unfold transpose. intros H [a ->]. apply obind_ok in H as (b & _ & [= <-]). by exists b. Qed.

Lemma collect_elem {A B} (f : A -> outcome ConfigError B) l bs b : collect f l = Ok bs -> b ∈ bs -> exists a, a ∈ l /\ f a = Ok b.
Proof using Type.
  intros Hc%collect_ok Hb. apply list_elem_of_lookup in Hb as [i Hi]. destruct (Forall2_lookup_r _ _ _ _ _ Hc Hi) as (a & Ha & Hf).
  exists a. split; [by eapply list_elem_of_lookup_2|done].
Qed.

Lemma listener_compiles_sane i j l c : validate_listener i false l = [] -> compile_listener env read_file cert_ok key_ok quic j l = Ok c ->
  listener_sane env cert_ok key_ok c /\ lc_name c = li_name l /\ lc_bind c = li_bind l.
Proof using Type.
  unfold validate_listener. cbv zeta. cbn [fails app]. intros (_ & (_ & (Va & (Vl & (_ & (Vt1 & (Vt2 & Vt3)%app_nil)%app_nil)%app_nil)%app_nil)%app_nil)%app_nil)%app_nil.
  rewrite when_some_nil in Va. rewrite when_some_nil in Vt3. apply fails_nil in Vl, Vt1, Vt2. apply bool_decide_eq_false in Vl.
  unfold compile_listener. cbv zeta. intros H.
  apply obind_ok in H as (protocols & Hp & (? & Hne%guard_ok%bool_decide_eq_false & ([] & _ & (udp & Hudp & ([] & Hss & (tls & Htls & ([] & Hq & H)%obind_ok)%obind_ok)%obind_ok)%obind_ok)%obind_ok)%obind_ok).
  apply obind_ok in H as (tp & _ & (ux & Hux & (ft & Hft & (auth & Hauth & [= <-])%obind_ok)%obind_ok)%obind_ok).
  split; [|done]. apply quic_listener_sane in Hq as (Q1 & Q2 & Q3).
  split; cbn [lc_protocols lc_connection_limit lc_udp lc_shadowsocks lc_tls lc_unix lc_fixed_target lc_trojan lc_auth]; try done.
  - intros u. by eapply udp_listener_sane.
  - intros Hqq. destruct (Q1 Hqq) as (T & -> & Hu). rewrite Hu in Hux. by injection Hux as <-.
  - intros H3. destruct (Q3 H3) as (-> & Hf). rewrite Hf in Hft. by injection Hft as <-.
  - intros t ->. apply transpose_some in Htls as (t0 & _ & Ht). unfold compile_listener_tls in Ht. steps Ht. injection Ht as <-. cbn.
    apply negb_false_iff, andb_true_iff in Hg. done.
  - intros Htr. destruct (collect_elem _ _ _ _ Hp Htr) as (s & Hs & ->%compile_trojan). unfold one_of in *. rewrite bool_decide_true in Vt1, Vt2 by done.
    cbn [andb] in Vt1, Vt2. apply negb_some_false in Vt1, Vt2. split; [by eapply transpose_is_some|]. destruct Vt2 as [t Ht]. exists t. split; [done|].
    apply Vt3, app_nil in Ht as [Ht%fails_nil _]. unfold is_empty in Ht. by apply bool_decide_eq_false in Ht.
  - intros a ->. apply transpose_some in Hauth as (a0 & Ha0 & Hc). apply Va in Ha0. eapply auth_sane; [exact Ha0|exact Hc].
Qed.

Lemma listeners_sane ls cs :
  validate_listeners ls = [] -> compile_listeners env read_file cert_ok key_ok quic (Some ls) = Ok cs ->
  NoDup (map lc_name cs) /\ map lc_name cs = map li_name ls /\ map lc_bind cs = map li_bind ls /\ Forall (listener_sane env cert_ok key_ok) cs.
Proof using Type.
  unfold validate_listeners, compile_listeners. intros [Hnd Hls]%each_seen_forall; [|done]. generalize 0%nat as i. intros i Hc.
  assert (map lc_name cs = map li_name ls /\ map lc_bind cs = map li_bind ls /\ Forall (listener_sane env cert_ok key_ok) cs) as (Hn & Hb & Hs).
  { clear Hnd. revert i cs Hc. induction Hls as [|l ls [j Hj] _ IH]; intros i cs; cbn [collect_from]; [by intros [= <-]|].
    intros (c & Hc & (bs & Hbs & [= <-])%obind_ok)%obind_ok. apply IH in Hbs as (IH1 & IH2 & IH3).
    destruct (listener_compiles_sane _ _ _ _ Hj Hc) as (Hs & Hn & Hb). cbn. rewrite Hn, Hb, IH1, IH2. split; [done|]. split; [done|by constructor]. }
  by rewrite Hn.
Qed.
(** Configured listeners.  When validated listeners compile, their names are
    distinct and kept with their bind addresses, and each keeps what its protocols
    need: some protocol; limits above zero and a datagram size of 257 to 65535 bytes;
    UDP modes only with their protocol, a Shadowsocks one with its secrets and pinned
    to one client; QUIC and HTTP/3 only with TLS material, without UDP mode, and
    HTTP/3 alone; Trojan only with TLS and a password; authentication with a user
    name and a password, which is empty only if an environment variable is. *)
Theorem configured_listeners_sane ls cs :
  validate_listeners ls = [] -> compile_listeners env read_file cert_ok key_ok quic (Some ls) = Ok cs ->
  NoDup (map lc_name cs) /\ map lc_name cs = map li_name ls /\ map lc_bind cs = map li_bind ls /\ Forall (listener_sane env cert_ok key_ok) cs.
Proof using Type. apply listeners_sane. Qed.
End listeners_proofs.

(** ** Examples *)

Definition demo_udp_section : ListenerUdpConfig :=
  {| un_enabled := None; un_mode := Some (str "shadowsocks"); un_bind := Some (str "[::]:8388"); un_advertise := None; un_idle_timeout := Some (str "2m");
     un_target_idle_timeout := None; un_max_associations := Some 3%nat; un_max_targets_per_association := None; un_max_datagram_size := Some 1500%nat;
     un_client_pin := None; un_allow_private_egress := Some false; un_max_associations_global := None; un_fixed_target := None;
     un_upstream_connect_timeout := None; un_upstream_udp_bind := None |}.
Definition demo_listener : ListenerToml :=
  {| li_name := str "in"; li_bind := str "127.0.0.1:8388"; li_protocols := [str "shadowsocks"; str "socks5"]; li_reuse_port := None; li_connection_limit := Some 10;
     li_auth := Some {| au_type := str "password"; au_username := Some (str "u"); au_password := None; au_password_env := Some (str "PW") |};
     li_udp_enabled := None; li_udp := Some demo_udp_section; li_tls := None;
     li_shadowsocks := Some {| sl_method := str "aes-256-gcm"; sl_password := str "secret"; sl_auth_prefix := None; sl_plugins := [] |};
     li_ssr := None; li_trojan := None; li_transparent := None; li_unix := None; li_fixed_target := None; li_local_bind := None |}.
Definition demo_env (v : bytes) : option bytes := if bool_decide (v = str "PW") then Some [] else None.

Lemma configured_listeners_sane_witness :
  exists c, compile_listeners demo_env (fun _ => None) (fun _ => true) (fun _ => true) false (Some [demo_listener]) = Ok [c] /\
    lc_name c = str "in" /\ (lu_max_associations <$> lc_udp c) = Some 3%nat /\ listener_sane demo_env (fun _ => true) (fun _ => true) c.
Proof.
  assert (exists c, compile_listeners demo_env (fun _ => None) (fun _ => true) (fun _ => true) false (Some [demo_listener]) = Ok [c] /\
    lc_name c = str "in" /\ (lu_max_associations <$> lc_udp c) = Some 3%nat) as (c & Hc & Hn & Hu).
  { eexists. split; [vm_compute; reflexivity|]. by vm_compute. }
  exists c. split; [exact Hc|]. split; [exact Hn|]. split; [exact Hu|].
  destruct (configured_listeners_sane demo_env (fun _ => None) (fun _ => true) (fun _ => true) false [demo_listener] [c]) as (_ & _ & _ & Hs);
    [by vm_compute|exact Hc|]. by inversion Hs.
Defined.

(** The password of an environment variable is not checked: it may be empty. *)
Lemma empty_password_from_environment :
  exists c a, compile_listeners demo_env (fun _ => None) (fun _ => true) (fun _ => true) false (Some [demo_listener]) = Ok [c] /\ lc_auth c = Some a /\
    au_password a = Some [].
Proof. eexists _, _. split; [by vm_compute|]. by vm_compute. Qed.

(** A listener for Shadowsocks over TCP without its section, and one for fixed
    destinations without a destination, are accepted. *)
Definition bare_listener (protocol : bytes) : ListenerToml :=
  {| li_name := str "bare"; li_bind := str "127.0.0.1:1"; li_protocols := [protocol]; li_reuse_port := None; li_connection_limit := None;
     li_auth := None; li_udp_enabled := None; li_udp := None; li_tls := None; li_shadowsocks := None;
     li_ssr := None; li_trojan := None; li_transparent := None; li_unix := None; li_fixed_target := None; li_local_bind := None |}.
Lemma bare_listeners_accepted :
  forallb (fun p => (length (validate_listeners [bare_listener (str p)]) =? 0)%nat &&
    is_ok (compile_listeners demo_env (fun _ => None) (fun _ => true) (fun _ => true) false (Some [bare_listener (str p)]))) ["shadowsocks"; "raw"; "ws"]%string = true.
Proof. by vm_compute. Qed.

Lemma loopback_examples :
  map (fun s => is_loopback_bind (str s)) ["127.0.0.1:80"; "[::1]:80"; "[::ffff:127.0.0.1]:80"; "::1"; "LocalHost:8080"; "[::1]"; "0.0.0.0:80"; "[::]:80"; "example.com:80"; ":80"]%string =
  [true; true; true; true; true; true; false; false; false; false].
Proof. by vm_compute. Qed.
