(* ===== verification/ConfigService.v ===== *)
(** * Configuration: process, admin endpoint and reverse proxies

    Models the remaining sections of [crates/eggress-config/src/model.rs], their
    validation ([validate/core.rs]) and their compilation ([compile/process.rs] and
    [compile/reverse.rs]).

    The environment, the file system and the TLS builders are parameters. *)

From S2P Require Import Prelude Bytes Decimal Stream NetAddr Connector Dispatch Uri Capability Chain Health Upstream Scheduler Matcher Router HttpText UdpRegistry UdpSession ConfigRules ConfigUpstreams ConfigListeners.
Local Open Scope Z_scope.

(** ** As written *)

Record ProcessToml := { pt_log_format : option bytes; pt_log_level : option bytes; pt_shutdown_grace : option bytes }.
Record TimeoutToml := { tt_handshake : option bytes; tt_connect : option bytes }.
Record AdminBasicAuthConfig := { ab_user : bytes; ab_password : option bytes; ab_password_env : option bytes }.
Record AdminAuthToml := { aa_bearer_token : option bytes; aa_bearer_token_env : option bytes; aa_basic_auth : option AdminBasicAuthConfig }.
Record PacConfigToml := {
  pa_path : option bytes; pa_proxy : bytes; pa_direct_fallback : option bool; pa_direct_hosts : option (list bytes); pa_direct_suffixes : option (list bytes)
}.
Record StaticContentToml := { sc_path : bytes; sc_content_type : option bytes; sc_body : option bytes }.
Record AdminToml := {
  ad_bind : option bytes; ad_enabled : option bool; ad_metrics : option bool; ad_auth : option AdminAuthToml; ad_pac : option PacConfigToml;
  ad_static_content : option (list StaticContentToml)
}.

Record ReverseServerTlsConfig := { rt_cert : bytes; rt_key : bytes; rt_client_ca : option bytes; rt_require_client_cert : bool }.
Record ReverseClientTlsConfig := { rt_ca : option bytes; rt_server_name : bytes; rt_client_cert : option bytes; rt_client_key : option bytes }.
Record ReverseServerToml := {
  rs_id : bytes; rs_control_bind : bytes; rs_external_bind : bytes; rs_auth_username : option bytes; rs_auth_password : option bytes;
  rs_auth_password_env : option bytes; rs_max_streams : option Z; rs_heartbeat_interval : option bytes; rs_pproxy_compat : bool;
  rs_tls : option ReverseServerTlsConfig
}.
Record ReverseClientToml := {
  rk_id : bytes; rk_server_addr : bytes; rk_server_uri : option bytes; rk_auth_username : option bytes; rk_auth_password : option bytes;
  rk_auth_password_env : option bytes; rk_reconnect_initial : option bytes; rk_reconnect_max : option bytes; rk_heartbeat_interval : option bytes;
  rk_parallel_connections : option Z; rk_default_target_host : option bytes; rk_default_target_port : option Z; rk_pproxy_compat : bool;
  rk_tls : option ReverseClientTlsConfig
}.

(** ** Validation *)

Definition validate_timeouts (t : TimeoutToml) : list ConfigError :=
  when_some (tt_handshake t) (positive_duration [key "timeouts"; key "handshake"]) ++
  when_some (tt_connect t) (positive_duration [key "timeouts"; key "connect"]).

Definition valid_levels : list bytes := map str ["trace"; "debug"; "info"; "warn"; "error"]%string.
Definition validate_process (p : ProcessToml) : list ConfigError :=
  when_some (pt_log_level p) (fun s => fails [key "process"; key "log_level"] (negb (one_of valid_levels s))) ++
  when_some (pt_shutdown_grace p) (any_duration [key "process"; key "shutdown_grace"]).

Definition starts_with_slash (s : bytes) : bool := match s with b :: _ => b =b x2f | [] => false end.
Definition reserved_paths : list bytes :=
  map str ["/-/health"; "/-/ready"; "/-/status"; "/-/routes"; "/-/upstreams"; "/-/config"; "/-/route-explain"; "/metrics"; "/pac"]%string.

Definition is_blank (o : option bytes) : bool := match o with Some s => is_empty s | None => false end.

Definition validate_admin_auth (a : AdminAuthToml) : list ConfigError :=
  fails [key "admin"; key "auth"; key "bearer_token"] (is_blank (aa_bearer_token a)) ++
  fails [key "admin"; key "auth"] (some (aa_bearer_token a) && some (aa_bearer_token_env a)) ++
  when_some (aa_basic_auth a) (fun b =>
    fails [key "admin"; key "auth"; key "basic_auth"; key "user"] (is_empty (ab_user b)) ++
    fails [key "admin"; key "auth"; key "basic_auth"; key "password"] (is_blank (ab_password b)) ++
    fails [key "admin"; key "auth"; key "basic_auth"] (some (ab_password b) && some (ab_password_env b))) ++
  fails [key "admin"; key "auth"] (some (aa_bearer_token a) && some (aa_basic_auth a)).

Definition validate_static (i : nat) (seen : bool) (e : StaticContentToml) : list ConfigError :=
  let p := [key "admin"; key "static_content"; Idx i] in
  fails p (negb (starts_with_slash (sc_path e))) ++
  fails p seen ++
  fails p (one_of reserved_paths (sc_path e)) ++
  fails p (is_blank (sc_body e)).

(** A bind that is a socket address of one family is one of either. *)
Definition validate_admin (a : AdminToml) : list ConfigError :=
  when_some (ad_bind a) (fun s => fails [key "admin"; key "bind"] (negb (some (parse_socket_addr s)))) ++
  fails [key "admin"; key "auth"]
    (default true (ad_enabled a) && match ad_bind a with Some s => negb (is_loopback_bind s) | None => false end && negb (some (ad_auth a))) ++
  when_some (ad_auth a) validate_admin_auth ++
  when_some (ad_pac a) (fun p => when_some (pa_path p) (fun s => fails [key "admin"; key "pac"; key "path"] (negb (starts_with_slash s)))) ++
  when_some (ad_static_content a) (each_seen sc_path validate_static ∅ 0).

(** ** Compiled *)

Record ProcessConfig := { pc_log_format : bytes; pc_log_level : bytes; pc_shutdown_grace : Z }.
Definition ProcessConfig_default : ProcessConfig := {| pc_log_format := str "text"; pc_log_level := str "info"; pc_shutdown_grace := 30 * NANOS |}.
Record TimeoutConfig := { tc_handshake : Z; tc_connect : Z }.
Definition TimeoutConfig_default : TimeoutConfig := {| tc_handshake := 10 * NANOS; tc_connect := 30 * NANOS |}.

Record PacConfig := { pf_path : bytes; pf_proxy_directive : bytes; pf_direct_fallback : bool; pf_direct_hosts : list bytes; pf_direct_suffixes : list bytes }.
Record StaticRoute := { st_path : bytes; st_content_type : bytes; st_body : bytes }.
Record AdminAuthConfig := { ac_bearer_token : option bytes; ac_basic_username : option bytes; ac_basic_password : option bytes }.
Record AdminConfig := {
  am_bind : bytes; am_enabled : bool; am_metrics : bool; am_auth : option AdminAuthConfig; am_pac : option PacConfig; am_static_content : list StaticRoute
}.

Record CompiledReverseServerTls := { rst_cert_pem : bytes; rst_key_pem : bytes; rst_client_ca_pem : option bytes; rst_require_client_cert : bool }.
Record CompiledReverseClientTls := { rct_ca_pem : option bytes; rct_server_name : bytes; rct_client_cert_pem : option bytes; rct_client_key_pem : option bytes }.
Record CompiledReverseServerConfig := {
  crs_id : bytes; crs_control_bind : SocketAddr; crs_external_bind : SocketAddr; crs_auth_username : option bytes; crs_auth_password : option bytes;
  crs_max_control_connections : Z; crs_read_timeout_ms : Z; crs_allow_bind : option (list SocketAddr); crs_max_listeners_per_client : Z;
  crs_max_streams_per_listener : Z; crs_max_pending_external : Z; crs_pproxy_compat : bool; crs_tls : option CompiledReverseServerTls
}.
Record CompiledReverseClientConfig := {
  crc_id : bytes; crc_server_addr : SocketAddr; crc_server_chain : option ProxyChainSpec; crc_auth_username : option bytes; crc_auth_password : option bytes;
  crc_reconnect_initial_ms : Z; crc_reconnect_max_ms : Z; crc_default_target_host : option bytes; crc_default_target_port : option Z;
  crc_read_timeout_ms : Z; crc_drain_grace_ms : Z; crc_parallel_connections : Z; crc_pproxy_compat : bool; crc_tls : option CompiledReverseClientTls
}.

Definition parse_duration_opt (s : bytes) : outcome ConfigError Z := map_err (fun _ => Validation [key "process"; key "shutdown_grace"]) (validate_duration s).

Definition compile_process (p : option ProcessToml) : outcome ConfigError ProcessConfig :=
  let d := ProcessConfig_default in
  let? grace := match p ≫= pt_shutdown_grace with Some s => parse_duration_opt s | None => Ok (pc_shutdown_grace d) end in
  Ok {| pc_log_format := default (pc_log_format d) (p ≫= pt_log_format); pc_log_level := default (pc_log_level d) (p ≫= pt_log_level);
        pc_shutdown_grace := grace |}.

Definition compile_timeouts (t : option TimeoutToml) : outcome ConfigError TimeoutConfig :=
  let d := TimeoutConfig_default in
  let? handshake := duration_or (t ≫= tt_handshake) (tc_handshake d) in
  let? connect := duration_or (t ≫= tt_connect) (tc_connect d) in
  Ok {| tc_handshake := handshake; tc_connect := connect |}.

Section service.
Context (env : bytes -> option bytes) (read_file : bytes -> option bytes).

Definition compile_basic_auth (b : AdminBasicAuthConfig) : outcome ConfigError (bytes * bytes) :=
  let p := [key "admin"; key "auth"; key "basic_auth"] in
  let? password := resolve_password env (ab_password b) (ab_password_env b) p in
  match password with
  | None => Err (Validation p)
  | Some password => let? _ := guard p (is_empty (ab_user b) || is_empty password) in Ok (ab_user b, password)
  end.

Definition compile_admin_auth (a : AdminAuthToml) : outcome ConfigError AdminAuthConfig :=
  let? token := resolve_password env (aa_bearer_token a) (aa_bearer_token_env a) [key "admin"; key "auth"; key "bearer_token"] in
  let? _ := guard [key "admin"; key "auth"; key "bearer_token"] (is_blank token) in
  let? _ := guard [key "admin"; key "auth"] (some token && some (aa_basic_auth a)) in
  let? basic := transpose compile_basic_auth (aa_basic_auth a) in
  let? _ := guard [key "admin"; key "auth"] (negb (some token) && negb (some basic)) in
  Ok {| ac_bearer_token := token; ac_basic_username := fst <$> basic; ac_basic_password := snd <$> basic |}.

Definition compile_pac (p : PacConfigToml) : PacConfig :=
  {| pf_path := default (str "/pac") (pa_path p); pf_proxy_directive := pa_proxy p; pf_direct_fallback := default true (pa_direct_fallback p);
     pf_direct_hosts := default [] (pa_direct_hosts p); pf_direct_suffixes := default [] (pa_direct_suffixes p) |}.
Definition compile_static (e : StaticContentToml) : StaticRoute :=
  {| st_path := sc_path e; st_content_type := default (str "text/plain") (sc_content_type e); st_body := default [] (sc_body e) |}.

Definition compile_admin (a : option AdminToml) : outcome ConfigError (option AdminConfig) :=
  match a with
  | None => Ok None
  | Some a =>
      let? auth := transpose compile_admin_auth (ad_auth a) in
      Ok (Some {| am_bind := default (str "127.0.0.1:9090") (ad_bind a); am_enabled := default true (ad_enabled a); am_metrics := default true (ad_metrics a);
                  am_auth := auth; am_pac := compile_pac <$> ad_pac a; am_static_content := map compile_static (default [] (ad_static_content a)) |})
  end.

(** ** Reverse proxies *)

(** The TLS builders: certificates, keys, CA roots, server names, the roots of the
    system, and the final build of a client. *)
Context (cert_ok key_ok roots_ok server_name_ok : bytes -> bool) (system_roots_ok : bool).
Context (client_build_ok : option bytes -> option (bytes * bytes) -> bool).

(** [d.as_millis() as u64]: cut off at the width. *)
Definition as_millis (d : Z) : Z := (d / 1000000) mod U64.
Definition millis_or (p : path) (o : option bytes) (d : Z) : outcome ConfigError Z :=
  match o with Some s => map_err (fun _ => Validation p) (let? v := validate_duration s in Ok (as_millis v)) | None => Ok d end.

Definition compile_reverse_server_tls (t : ReverseServerTlsConfig) (p : path) : outcome ConfigError CompiledReverseServerTls :=
  let at_ k := p ++ [key "tls"; key k] in
  let? _ := guard (p ++ [key "tls"]) (rt_require_client_cert t && negb (some (rt_client_ca t))) in
  let? cert := read_pem read_file (at_ "cert"%string) (rt_cert t) in
  let? k := read_pem read_file (at_ "key"%string) (rt_key t) in
  let? ca := transpose (read_pem read_file (at_ "client_ca"%string)) (rt_client_ca t) in
  let? _ := guard (p ++ [key "tls"]) (negb (cert_ok cert && key_ok k && match ca with Some c => roots_ok c | None => true end)) in
  Ok {| rst_cert_pem := cert; rst_key_pem := k; rst_client_ca_pem := ca; rst_require_client_cert := rt_require_client_cert t |}.

Definition compile_reverse_server (i : nat) (s : ReverseServerToml) : outcome ConfigError CompiledReverseServerConfig :=
  let p := [key "reverse_servers"; Idx i] in
  let? control_bind := compile_socket_addr (p ++ [key "control_bind"]) (rs_control_bind s) in
  let? external_bind := compile_socket_addr (p ++ [key "external_bind"]) (rs_external_bind s) in
  let? auth_password := resolve_password env (rs_auth_password s) (rs_auth_password_env s) p in
  let? _ := guard p (negb (Bool.eqb (some (rs_auth_username s)) (some auth_password))) in
  let? heartbeat := millis_or (p ++ [key "heartbeat_interval"]) (rs_heartbeat_interval s) 300000 in
  let? _ := guard (p ++ [key "tls"]) (rs_pproxy_compat s && some (rs_tls s)) in
  let? tls := transpose (fun t => compile_reverse_server_tls t p) (rs_tls s) in
  Ok {| crs_id := rs_id s; crs_control_bind := control_bind; crs_external_bind := external_bind; crs_auth_username := rs_auth_username s;
        crs_auth_password := auth_password; crs_max_control_connections := 256; crs_read_timeout_ms := heartbeat; crs_allow_bind := None;
        crs_max_listeners_per_client := 1; crs_max_streams_per_listener := default 1024 (rs_max_streams s); crs_max_pending_external := 1024;
        crs_pproxy_compat := rs_pproxy_compat s; crs_tls := tls |}.

Definition compile_reverse_client_tls (t : ReverseClientTlsConfig) (p : path) : outcome ConfigError CompiledReverseClientTls :=
  let at_ k := p ++ [key "tls"; key k] in
  let? _ := guard (at_ "server_name"%string) (is_empty (rt_server_name t)) in
  let? _ := guard (at_ "server_name"%string) (negb (server_name_ok (rt_server_name t))) in
  let? _ := guard (p ++ [key "tls"]) (negb (Bool.eqb (some (rt_client_cert t)) (some (rt_client_key t)))) in
  let? ca := transpose (read_pem read_file (at_ "ca"%string)) (rt_ca t) in
  let? cert := transpose (read_pem read_file (at_ "client_cert"%string)) (rt_client_cert t) in
  let? k := transpose (read_pem read_file (at_ "client_key"%string)) (rt_client_key t) in
  let? _ := match ca with Some c => guard (at_ "ca"%string) (negb (roots_ok c)) | None => guard (p ++ [key "tls"]) (negb system_roots_ok) end in
  let identity := match cert, k with Some c, Some k => Some (c, k) | _, _ => None end in
  let? _ := guard (p ++ [key "tls"]) (negb (client_build_ok ca identity)) in
  Ok {| rct_ca_pem := ca; rct_server_name := rt_server_name t; rct_client_cert_pem := cert; rct_client_key_pem := k |}.

Definition compile_reverse_client (i : nat) (c : ReverseClientToml) : outcome ConfigError CompiledReverseClientConfig :=
  let p := [key "reverse_clients"; Idx i] in
  let? server_addr := compile_socket_addr (p ++ [key "server_addr"]) (rk_server_addr c) in
  let? server_chain := transpose (fun u => map_err (fun _ => Validation (p ++ [key "server_uri"])) (parse_proxy_chain u)) (rk_server_uri c) in
  let? auth_password := resolve_password env (rk_auth_password c) (rk_auth_password_env c) p in
  let? reconnect_initial := millis_or (p ++ [key "reconnect_initial"]) (rk_reconnect_initial c) 1000 in
  let? reconnect_max := millis_or (p ++ [key "reconnect_max"]) (rk_reconnect_max c) 30000 in
  let? heartbeat := millis_or (p ++ [key "heartbeat_interval"]) (rk_heartbeat_interval c) 60000 in
  let? _ := guard p (negb (some (rk_default_target_host c)) || negb (some (rk_default_target_port c))) in
  let? _ := guard (p ++ [key "tls"]) (rk_pproxy_compat c && some (rk_tls c)) in
  let? tls := transpose (fun t => compile_reverse_client_tls t p) (rk_tls c) in
  Ok {| crc_id := rk_id c; crc_server_addr := server_addr; crc_server_chain := server_chain; crc_auth_username := rk_auth_username c;
        crc_auth_password := auth_password; crc_reconnect_initial_ms := reconnect_initial; crc_reconnect_max_ms := reconnect_max;
        crc_default_target_host := rk_default_target_host c; crc_default_target_port := rk_default_target_port c; crc_read_timeout_ms := heartbeat;
        crc_drain_grace_ms := 5000; crc_parallel_connections := default 1 (rk_parallel_connections c); crc_pproxy_compat := rk_pproxy_compat c;
        crc_tls := tls |}.

Definition compile_reverse_servers (l : option (list ReverseServerToml)) : outcome ConfigError (list CompiledReverseServerConfig) :=
  match l with Some l => collect_from compile_reverse_server 0 l | None => Ok [] end.
Definition compile_reverse_clients (l : option (list ReverseClientToml)) : outcome ConfigError (list CompiledReverseClientConfig) :=
  match l with Some l => collect_from compile_reverse_client 0 l | None => Ok [] end.
End service.

(** ** The admin endpoint *)

Definition credentials (a : AdminAuthConfig) : Prop :=
  (exists token, ac_bearer_token a = Some token /\ token <> [] /\ ac_basic_username a = None /\ ac_basic_password a = None) \/
  (ac_bearer_token a = None /\ exists user password, ac_basic_username a = Some user /\ ac_basic_password a = Some password /\ user <> [] /\ password <> []).

Lemma is_empty_false s : is_empty s = false <-> s <> [].
Proof. unfold is_empty. by rewrite bool_decide_eq_false. Qed.

Lemma admin_auth_credentials env a c : compile_admin_auth env a = Ok c -> credentials c.
Proof.
  unfold compile_admin_auth. intros (token & _ & H)%obind_ok. apply obind_ok in H as (? & Hblank%guard_ok & (? & Hboth%guard_ok & (basic & Hb & (? & Hnone%guard_ok & [= <-])%obind_ok)%obind_ok)%obind_ok).
  unfold credentials. cbn. destruct token as [t|].
  - left. exists t. split; [done|]. split; [by apply is_empty_false|]. destruct (aa_basic_auth a); [done|]. by injection Hb as <-.
  - right. split; [done|]. destruct basic as [[u pw]|]; [|done]. exists u, pw. split; [done|]. split; [done|].
    apply transpose_some in Hb as (b & _ & Hb). unfold compile_basic_auth in Hb. apply obind_ok in Hb as ([p|] & _ & Hb); [|done].
    apply obind_ok in Hb as (? & [H1 H2]%guard_ok%orb_false_iff & [= <- <-]). by rewrite !is_empty_false in *.
Qed.

(** The admin endpoint is not exposed without credentials.  When a validated admin
    section compiles, its bind address is a socket address; if the endpoint is enabled
    and that address is not a loopback one, the compiled section asks for a bearer
    token or for a user and a password, none of them empty, whether they are written
    in the file or come from the environment.  Its static routes have distinct paths,
    none of them one of the endpoint's own. *)
Theorem exposed_admin_authenticated env a c :
  validate_admin a = [] -> compile_admin env (Some a) = Ok (Some c) ->
  (exists ip port, parse_socket_addr (am_bind c) = Some (ip, port) /\
     (am_enabled c = true -> loopback_ip ip = false -> exists auth, am_auth c = Some auth)) /\
  (forall auth, am_auth c = Some auth -> credentials auth) /\
  NoDup (map st_path (am_static_content c)) /\
  Forall (fun r => starts_with_slash (st_path r) = true /\ st_path r ∉ reserved_paths) (am_static_content c).
Proof.
  unfold validate_admin, compile_admin. intros (Vb & (Ve%fails_nil & (_ & (_ & Vs)%app_nil)%app_nil)%app_nil)%app_nil.
  rewrite when_some_nil in Vb. intros (auth & Hauth & [= <-])%obind_ok. cbn [am_bind am_enabled am_auth am_static_content]. split; [|split].
  - destruct (ad_bind a) as [b|]; cbn [default].
    + specialize (Vb b eq_refl). apply fails_nil, negb_some_false in Vb as [[ip port] Hp]. exists ip, port. split; [done|]. intros He Hl.
      rewrite He in Ve. cbn [andb] in Ve. unfold is_loopback_bind in Ve. rewrite Hp, Hl in Ve. cbn [negb andb] in Ve. apply negb_some_false in Ve.
      by destruct (transpose_is_some _ _ _ Hauth Ve) as [x ->]; exists x.
    + exists (V4 [x7f; x00; x00; x01]), 9090. split; [by vm_compute|]. intros _ Hl. by vm_compute in Hl.
  - intros x ->. apply transpose_some in Hauth as (y & _ & Hy). by eapply admin_auth_credentials.
  - destruct (ad_static_content a) as [l|]; cbn [default map]; [|split; constructor]. cbn [when_some] in Vs.
    apply each_seen_forall in Vs as [Hnd Hl].
    2: { intros i e. unfold validate_static. cbv zeta. by intros (_ & (? & _)%app_nil)%app_nil. }
    change (Datatypes.id l) with l.
    rewrite map_map. split; [done|]. rewrite Forall_map. eapply Forall_impl; [exact Hl|]. cbn. intros e (j & Hj). unfold validate_static in Hj. cbn [fails app] in Hj.
    apply app_nil in Hj as (H1%fails_nil%negb_false_iff & (H2%fails_nil & _)%app_nil). split; [done|]. unfold one_of in H2. by apply bool_decide_eq_false in H2.
Qed.

(** ** Process and timeouts *)

Lemma timeouts_compile o : (forall t, o = Some t -> validate_timeouts t = []) -> exists c, compile_timeouts o = Ok c /\ 0 < tc_handshake c /\ 0 < tc_connect c.
Proof.
  intros Hv. unfold compile_timeouts. cbv zeta.
  assert (forall (o : option bytes) d, 0 < d -> (forall s, o = Some s -> exists v, parse_duration s = Ok v /\ 0 < v) -> exists v, duration_or o d = Ok v /\ 0 < v) as Hd.
  { intros o' d Hd Ho. destruct (duration_or_ok o' d) as (v & Hv' & Hs); [intros s (w & -> & _)%Ho; done|]. exists v. split; [done|].
    destruct Hs as [->|(s & Hs & E)]; [done|]. apply Ho in Hs as (w & E' & Hw). congruence. }
  assert (forall s, (o ≫= tt_handshake = Some s \/ o ≫= tt_connect = Some s) -> exists v, parse_duration s = Ok v /\ 0 < v) as Hs.
  { intros s. destruct o as [t|]; [|by intros []]. specialize (Hv t eq_refl). apply app_nil in Hv as [V1 V2]. rewrite when_some_nil in V1, V2.
    intros [E|E]; [apply V1 in E|apply V2 in E]; by apply positive_duration_ok in E. }
  destruct (Hd (o ≫= tt_handshake) (tc_handshake TimeoutConfig_default)) as (v1 & -> & P1); [by vm_compute|by eauto|]. cbn [obind].
  destruct (Hd (o ≫= tt_connect) (tc_connect TimeoutConfig_default)) as (v2 & -> & P2); [by vm_compute|by eauto|]. cbn [obind]. by eexists.
Qed.

Lemma process_compiles o : (forall p, o = Some p -> validate_process p = []) -> exists c, compile_process o = Ok c.
Proof.
  intros Hv. unfold compile_process. cbv zeta. destruct (o ≫= pt_shutdown_grace) as [s|] eqn:E; [|by eexists]. destruct o as [p|]; [|done].
  specialize (Hv p eq_refl). apply app_nil in Hv as [_ V]. rewrite when_some_nil in V. apply V, any_duration_ok in E.
  unfold parse_duration_opt, validate_duration. destruct (parse_duration s); [|done..]. by eexists.
Qed.

(** ** Reverse proxies *)

(** What a compiled reverse proxy promises. *)
Definition reverse_server_sane (s : CompiledReverseServerConfig) : Prop :=
  (is_Some (crs_auth_username s) <-> is_Some (crs_auth_password s)) /\ (crs_pproxy_compat s = true -> crs_tls s = None) /\
  (forall t, crs_tls s = Some t -> rst_require_client_cert t = true -> is_Some (rst_client_ca_pem t)).
Definition reverse_client_sane (c : CompiledReverseClientConfig) : Prop :=
  is_Some (crc_default_target_host c) /\ is_Some (crc_default_target_port c) /\ (crc_pproxy_compat c = true -> crc_tls c = None) /\
  (forall t, crc_tls c = Some t -> rct_server_name t <> [] /\ (is_Some (rct_client_cert_pem t) <-> is_Some (rct_client_key_pem t))).

Section reverse_proofs.
Context (env : bytes -> option bytes) (read_file : bytes -> option bytes) (cert_ok key_ok roots_ok server_name_ok : bytes -> bool) (system_roots_ok : bool).
Context (client_build_ok : option bytes -> option (bytes * bytes) -> bool).

Lemma transpose_some_iff {A B} (f : A -> outcome ConfigError B) o r : transpose f o = Ok r -> (is_Some r <-> is_Some o).
Proof using Type.
  intros H. split; [|by eapply transpose_is_some]. intros [b ->]. apply transpose_some in H as (a & -> & _). by exists a.
Qed.
Lemma same_presence {A B} (a : option A) (b : option B) : negb (Bool.eqb (some a) (some b)) = false -> (is_Some a <-> is_Some b).
Proof using Type. rewrite negb_false_iff, Bool.eqb_true_iff, <- !some_true. intros E. by rewrite E. Qed.
Lemma compat_no_tls {A B} (f : A -> outcome ConfigError B) o r (compat : bool) : compat && some o = false -> transpose f o = Ok r -> compat = true -> r = None.
Proof using Type. intros H Hr ->. destruct o; [done|]. by injection Hr as <-. Qed.

Lemma reverse_server_compiles i s c :
  compile_reverse_server env read_file cert_ok key_ok roots_ok i s = Ok c -> reverse_server_sane c.
Proof using Type.
  unfold compile_reverse_server. cbv zeta. intros H. steps H. injection H as <-. unfold reverse_server_sane. cbn [crs_auth_username crs_auth_password crs_pproxy_compat crs_tls].
  split; [by apply same_presence|]. split; [by eapply compat_no_tls|].
  intros t Ht. match goal with Hp : transpose _ (rs_tls s) = Ok ?r |- _ => assert (r = Some t) as -> by exact Ht; apply transpose_some in Hp as (a & _ & Ha) end.
  unfold compile_reverse_server_tls in Ha. cbv zeta in Ha. steps Ha. injection Ha as <-. cbn. intros Hreq. rewrite Hreq in *. cbn [andb] in *.
  eapply transpose_some_iff; [eassumption|]. by apply negb_some_false.
Qed.

Lemma reverse_client_compiles i s c :
  compile_reverse_client env read_file roots_ok server_name_ok system_roots_ok client_build_ok i s = Ok c -> reverse_client_sane c.
Proof using Type.
  unfold compile_reverse_client. cbv zeta. intros H. steps H. injection H as <-. unfold reverse_client_sane.
  cbn [crc_default_target_host crc_default_target_port crc_pproxy_compat crc_tls].
  match goal with Ho : _ || _ = false |- _ => apply orb_false_iff in Ho as [T1%negb_some_false T2%negb_some_false] end.
  split; [done|]. split; [done|]. split; [by eapply compat_no_tls|].
  intros t Ht. match goal with Hp : transpose _ (rk_tls s) = Ok ?r |- _ => assert (r = Some t) as -> by exact Ht; apply transpose_some in Hp as (a & _ & Ha) end.
  unfold compile_reverse_client_tls in Ha. cbv zeta in Ha. steps Ha. injection Ha as <-. cbn. split; [by apply is_empty_false|].
  repeat match goal with Hp : transpose _ _ = Ok ?r |- context [is_Some ?r] => rewrite (transpose_some_iff _ _ _ Hp); clear Hp end. by apply same_presence.
Qed.
End reverse_proofs.

(** ** Examples *)

Definition demo_admin : AdminToml :=
  {| ad_bind := Some (str "0.0.0.0:9090"); ad_enabled := None; ad_metrics := None;
     ad_auth := Some {| aa_bearer_token := None; aa_bearer_token_env := Some (str "TOKEN"); aa_basic_auth := None |}; ad_pac := None;
     ad_static_content := Some [{| sc_path := str "/robots.txt"; sc_content_type := None; sc_body := Some (str "none") |}] |}.

Lemma exposed_admin_authenticated_witness :
  exists c auth, compile_admin (fun _ => Some (str "t0k3n")) (Some demo_admin) = Ok (Some c) /\ am_auth c = Some auth /\ credentials auth.
Proof.
  destruct (compile_admin (fun _ => Some (str "t0k3n")) (Some demo_admin)) as [[c|]|e|] eqn:E; [|by vm_compute in E..].
  destruct (exposed_admin_authenticated (fun _ => Some (str "t0k3n")) demo_admin c) as (_ & Hcred & _); [by vm_compute|exact E|].
  vm_compute in E. injection E as <-. eexists _, _. split; [reflexivity|]. split; [reflexivity|]. by apply Hcred.
Defined.

(** An interval of more than 2^64 milliseconds is cut off, not rejected. *)
Lemma interval_wraps : millis_or [] (Some (str "18446744073709552s")) 0 = Ok 384.
Proof. by vm_compute. Qed.
