(* ===== verification/Config.v ===== *)
(** * Configuration: the whole file

    Models [crates/eggress-config/src]: the file itself ([model.rs]), its validation
    and compilation as a whole ([validate/mod.rs], [compile/mod.rs]), rules files
    ([compile/rules.rs], [file.rs]), the warnings ([validate/security.rs],
    [validate/composition.rs]) and the entry points ([lib.rs]).

    The TOML parser, regular expressions, CIDR blocks, the environment, the file
    system and the TLS builders are parameters, gathered in [config_world]. *)

From S2P Require Import Prelude Bytes Decimal Stream NetAddr Connector Dispatch Uri Capability Chain Health Upstream Scheduler Matcher Router HttpText UdpRegistry UdpSession ConfigRules ConfigUpstreams ConfigListeners ConfigService.
Local Open Scope Z_scope.

(** ** The file

    The [routing] section holds only the default. *)

Record ConfigFile := {
  cf_version : option Z; cf_process : option ProcessToml; cf_timeouts : option TimeoutToml; cf_listeners : option (list ListenerToml);
  cf_upstreams : option (list UpstreamToml); cf_upstream_groups : option (list GroupToml); cf_rules : option (list RuleConfig);
  cf_rules_file : option bytes; cf_routing_default : option bytes; cf_admin : option AdminToml;
  cf_reverse_servers : option (list ReverseServerToml); cf_reverse_clients : option (list ReverseClientToml)
}.

Definition group_ids (c : ConfigFile) : list bytes := map gt_id (default [] (cf_upstream_groups c)).

(** What the file system says of a text file: its size, and what can be read. *)
Record text_file := { tf_len : option Z; tf_data : option bytes }.

Record config_world (Regex IpNet : Type) := {
  w_toml : bytes -> option ConfigFile;
  w_regex : bytes -> option Regex;
  w_ipnet : bytes -> option IpNet;
  w_quic : bool;
  w_env : bytes -> option bytes;
  w_read : bytes -> option bytes;
  w_open : bytes -> option text_file;
  w_cert_ok : bytes -> bool;
  w_key_ok : bytes -> bool;
  w_roots_ok : bytes -> bool;
  w_server_name_ok : bytes -> bool;
  w_system_roots_ok : bool;
  w_client_build_ok : option bytes -> option (bytes * bytes) -> bool
}.
Arguments w_toml {_ _}. Arguments w_regex {_ _}. Arguments w_ipnet {_ _}. Arguments w_quic {_ _}. Arguments w_env {_ _}. Arguments w_read {_ _}.
Arguments w_open {_ _}. Arguments w_cert_ok {_ _}. Arguments w_key_ok {_ _}. Arguments w_roots_ok {_ _}. Arguments w_server_name_ok {_ _}.
Arguments w_system_roots_ok {_ _}. Arguments w_client_build_ok {_ _}.

(** ** Files *)

Definition MAX_CONFIG_SIZE : Z := 1024 * 1024.

Definition load_bounded_text_file (f : option text_file) : outcome ConfigError bytes :=
  let? f := ok_or ConfigIo f in
  let? len := ok_or ConfigIo (tf_len f) in
  if MAX_CONFIG_SIZE <? len then Err ConfigIo
  else
    let? data := ok_or ConfigIo (tf_data f) in
    let contents := take (Z.to_nat (MAX_CONFIG_SIZE + 1)) data in
    if negb (utf8_valid contents) then Err ConfigIo
    else if MAX_CONFIG_SIZE <? Z.of_nat (length contents) then Err ConfigIo
    else Ok contents.

(** [str::lines]: a last line without its end keeps its carriage return. *)
Definition strip_cr (l : bytes) : bytes := match last l with Some b => if b =b x0d then take (length l - 1) l else l | None => l end.
Fixpoint text_lines_of (parts : list bytes) : list bytes :=
  match parts with
  | [] => []
  | [p] => if bool_decide (p = []) then [] else [p]
  | p :: r => strip_cr p :: text_lines_of r
  end.
Definition text_lines (s : bytes) : list bytes := text_lines_of (split_on x0a s).

Section config.
Context {Regex IpNet : Type} (w : config_world Regex IpNet).

(** [CompatRegexRule::parse_file]. *)
Fixpoint parse_rules (lines : list bytes) : outcome unit (list Regex) :=
  match lines with
  | [] => Ok []
  | line :: r =>
      let trimmed := trim line in
      if is_empty trimmed || match trimmed with b :: _ => b =b x23 | [] => false end then parse_rules r
      else
        let? re := ok_or tt (w_regex w trimmed) in
        let? res := parse_rules r in Ok (re :: res)
  end.
Definition parse_file (content : bytes) : outcome unit (list Regex) := parse_rules (text_lines content).

(** ** Validation *)

Definition validate_default (c : ConfigFile) : list ConfigError :=
  when_some (cf_routing_default c) (fun d =>
    if negb (bool_decide (d = str "direct")) && negb (bool_decide (d = str "reject"))
    then fails [key "routing"; key "default"] (negb (one_of (group_ids c) d)) else []).

Definition udp_listener_exists (c : ConfigFile) : bool :=
  existsb (fun l => bool_decide (li_udp_enabled l = Some true) || match li_udp l with Some u => negb (bool_decide (un_enabled u = Some false)) | None => false end)
    (default [] (cf_listeners c)).

Definition validate_config (c : ConfigFile) : list ConfigError :=
  when_some (cf_version c) (fun v => if v =? 1 then [] else [UnsupportedVersion v]) ++
  when_some (cf_listeners c) validate_listeners ++
  when_some (cf_upstreams c) validate_upstreams ++
  when_some (cf_upstream_groups c) (fun gs => validate_upstream_groups gs (cf_upstreams c)) ++
  when_some (cf_rules c) (fun rs => validate_rules (w_regex w) (w_ipnet w) rs (group_ids c)) ++
  when_some (cf_timeouts c) validate_timeouts ++
  when_some (cf_process c) validate_process ++
  when_some (cf_admin c) validate_admin ++
  validate_default c ++
  match cf_upstreams c, cf_upstream_groups c with
  | Some us, Some gs => validate_upstream_transport us gs (udp_listener_exists c) (cf_rules c) (cf_routing_default c)
  | _, _ => []
  end.

(** ** Compilation *)

Definition rules_file_rule (gs : list bytes) (n : nat) (re : Regex) : CompiledRule Regex IpNet :=
  {| rule_id := str "rules-file-" ++ to_dec (Z.of_nat n); matcher := MHostRegex re;
     action := match gs with g :: _ => ActUpstreamGroup g | [] => ActDirect end |}.
Fixpoint rules_file_rules (gs : list bytes) (n : nat) (l : list Regex) : list (CompiledRule Regex IpNet) :=
  match l with [] => [] | re :: r => rules_file_rule gs n re :: rules_file_rules gs (S n) r end.

Definition compile_rules_file (gs : list bytes) (f : bytes) : outcome ConfigError (list (CompiledRule Regex IpNet)) :=
  let p := [key "rules_file"] in
  let? _ := guard p (1 <? length (remove_dups gs))%nat in
  let? _ := guard p (is_empty f || bool_decide (x00 ∈ f)) in
  let? _ := guard p (one_of (split_on x2f f) (str "..")) in
  let? content := map_err (fun _ => Validation p) (load_bounded_text_file (w_open w f)) in
  let? compat := map_err (fun _ => Validation p) (parse_file content) in
  Ok (rules_file_rules gs 1 compat).

Definition compile_all_rules (c : ConfigFile) : outcome ConfigError (list (CompiledRule Regex IpNet)) :=
  let? rules := compile_rules (w_regex w) (w_ipnet w) (w_quic w) (group_ids c) (default [] (cf_rules c)) in
  match cf_rules_file c with
  | Some f => let? more := compile_rules_file (group_ids c) f in Ok (rules ++ more)
  | None => Ok rules
  end.

Record RuntimeConfig := {
  rt_process : ProcessConfig; rt_timeouts : TimeoutConfig; rt_listeners : list ListenerConfig; rt_upstreams : list UpstreamConfig;
  rt_groups : list UpstreamGroupConfig; rt_rules : list (CompiledRule Regex IpNet); rt_default_action : RouteActionSpec;
  rt_admin : option AdminConfig; rt_reverse_servers : list CompiledReverseServerConfig; rt_reverse_clients : list CompiledReverseClientConfig
}.

Definition compile_config (c : ConfigFile) : outcome ConfigError RuntimeConfig :=
  let? process := compile_process (cf_process c) in
  let? timeouts := compile_timeouts (cf_timeouts c) in
  let? listeners := compile_listeners (w_env w) (w_read w) (w_cert_ok w) (w_key_ok w) (w_quic w) (cf_listeners c) in
  let? upstreams := compile_upstreams (cf_upstreams c) in
  let? groups := compile_groups (cf_upstream_groups c) in
  let? rules := compile_all_rules c in
  let default_action := compile_default_action (cf_routing_default c) in
  let? admin := compile_admin (w_env w) (cf_admin c) in
  let? servers := compile_reverse_servers (w_env w) (w_read w) (w_cert_ok w) (w_key_ok w) (w_roots_ok w) (cf_reverse_servers c) in
  let? clients := compile_reverse_clients (w_env w) (w_read w) (w_roots_ok w) (w_server_name_ok w) (w_system_roots_ok w) (w_client_build_ok w) (cf_reverse_clients c) in
  Ok {| rt_process := process; rt_timeouts := timeouts; rt_listeners := listeners; rt_upstreams := upstreams; rt_groups := groups; rt_rules := rules;
        rt_default_action := default_action; rt_admin := admin; rt_reverse_servers := servers; rt_reverse_clients := clients |}.

(** ** Warnings

    Their paths. *)

Definition warn (p : path) (b : bool) : list path := if b then [p] else [].

Definition listener_warning (i : nat) (l : ListenerToml) : list path :=
  warn [key "listeners"; Idx i; key "bind"]
    (negb (is_loopback_bind (li_bind l)) && negb (some (li_auth l)) && negb (some (li_shadowsocks l)) && negb (some (li_ssr l)) && negb (some (li_trojan l))).
Definition reverse_warning (i : nat) (s : ReverseServerToml) : list path :=
  warn [key "reverse_servers"; Idx i; key "control_bind"]
    (negb (is_loopback_bind (rs_control_bind s)) && negb (some (rs_auth_username s) && (some (rs_auth_password s) || some (rs_auth_password_env s)))).

Section each_path.
Context {A : Type}.
Variable f : nat -> A -> list path.
Fixpoint each_path (i : nat) (l : list A) : list path := match l with [] => [] | a :: r => f i a ++ each_path (S i) r end.
End each_path.

Fixpoint walk_match_expr_for_alias (e : MatchExprConfig) (p : path) (depth : nat) : list path :=
  if (MAX_MATCH_EXPR_DEPTH <=? depth)%nat then []
  else match e with
  | Composite all any_of not =>
      match all with Some l => each_path (fun i c => walk_match_expr_for_alias c (p ++ [key "all"; Idx i]) (S depth)) 0 l | None => [] end ++
      match any_of with Some l => each_path (fun i c => walk_match_expr_for_alias c (p ++ [key "any_of"; Idx i]) (S depth)) 0 l | None => [] end ++
      match not with Some c => walk_match_expr_for_alias c (p ++ [key "not"]) (S depth) | None => [] end
  | Leaf l => warn (p ++ [key "protocol"]) (bool_decide (l_protocol l = Some (str "httponly")))
  end.
Definition warn_protocol_aliases (c : ConfigFile) : list path :=
  each_path (fun i r => match r_match r with Some e => walk_match_expr_for_alias e [key "rules"; Idx i; key "match"] 0 | None => [] end) 0 (default [] (cf_rules c)).

Definition validate_config_security (c : ConfigFile) : list path :=
  each_path listener_warning 0 (default [] (cf_listeners c)) ++
  match cf_admin c with
  | Some a => match ad_bind a with Some b => warn [key "admin"; key "bind"] (negb (is_loopback_bind b) && negb (some (ad_auth a))) | None => [] end
  | None => []
  end ++
  each_path reverse_warning 0 (default [] (cf_reverse_servers c)) ++
  warn_protocol_aliases c.

(** The matrix of protocol combinations that are supported. *)
Record CompositionCell := { cc_protocol : bytes; cc_role : bytes; cc_traffic_kind : bytes; cc_tier : bytes }.
Definition matrix_cell_supported (matrix : list CompositionCell) (protocol role traffic_kind : bytes) : bool :=
  existsb (fun c => bool_decide (cc_protocol c = protocol) && bool_decide (cc_role c = role) && bool_decide (cc_traffic_kind c = traffic_kind) &&
    negb (bool_decide (cc_tier c = str "unsupported"))) matrix.

(** The chain of an identifier: that of the last entry that parses. *)
Definition upstream_chain (us : list UpstreamToml) (i : bytes) : option ProxyChainSpec :=
  match List.find (fun u => bool_decide (ut_id u = i) && is_ok (parse_proxy_chain (ut_uri u))) (rev us) with
  | Some u => match parse_proxy_chain (ut_uri u) with Ok c => Some c | _ => None end
  | None => None
  end.

Definition validate_config_composition (matrix : option (list CompositionCell)) (c : ConfigFile) : list path :=
  match matrix with
  | None => [[key "composition_matrix"]]
  | Some matrix =>
      let listener_protocols := mjoin (map li_protocols (default [] (cf_listeners c))) in
      let lacking kind := filter (fun p => matrix_cell_supported matrix p (str "listener") kind = false) listener_protocols in
      match cf_upstreams c with
      | None => []
      | Some us => mjoin (map (fun u =>
          match upstream_chain us (ut_id u) with
          | Some chain =>
              let caps := classify_upstream_chain chain in
              let here := [key "upstreams"; Key (ut_id u); key "uri"] in
              (if is_tcp_supported caps then map (fun _ => here) (lacking (str "tcp")) else []) ++
              (if is_udp_supported caps then map (fun _ => here) (lacking (str "udp")) else [])
          | None => []
          end) us)
      end
  end.

(** ** Entry points *)

Definition check_version (c : ConfigFile) : outcome ConfigError unit :=
  match cf_version c with Some v => if v =? 1 then Ok tt else Err (UnsupportedVersion v) | None => Ok tt end.

Definition validate_and_compile_toml (toml : bytes) : outcome ConfigError RuntimeConfig :=
  let? c := ok_or ConfigParse (w_toml w toml) in
  let? _ := check_version c in
  let? _ := guard [key "config"] (negb (bool_decide (length (validate_config c) = 0%nat))) in
  compile_config c.

Definition load_and_validate (f : bytes) : outcome ConfigError RuntimeConfig :=
  let? contents := load_bounded_text_file (w_open w f) in validate_and_compile_toml contents.

Definition validate_and_compile_toml_with_warnings (toml : bytes) : outcome ConfigError (RuntimeConfig * list path) :=
  let? c := ok_or ConfigParse (w_toml w toml) in
  let? _ := check_version c in
  let? _ := guard [key "config"] (negb (bool_decide (length (validate_config c) = 0%nat))) in
  let warnings := validate_config_security c ++ warn [key "version"] (negb (some (cf_version c))) in
  let? rt := compile_config c in
  Ok (rt, warnings).

Definition load_and_validate_with_warnings (f : bytes) : outcome ConfigError (RuntimeConfig * list path) :=
  let? contents := load_bounded_text_file (w_open w f) in validate_and_compile_toml_with_warnings contents.
End config.

(** ** What an accepted configuration promises *)

Arguments RuntimeConfig : clear implicits.

Section accepted.
Context {Regex IpNet : Type} (w : config_world Regex IpNet).

Definition action_known (ids : list bytes) (a : RouteActionSpec) : Prop := match a with ActUpstreamGroup g => g ∈ ids | _ => True end.

Record runtime_sane (rt : RuntimeConfig Regex IpNet) : Prop := {
  ra_timeouts : 0 < tc_handshake (rt_timeouts rt) /\ 0 < tc_connect (rt_timeouts rt);
  ra_listeners : NoDup (map lc_name (rt_listeners rt)) /\ Forall (listener_sane (w_env w) (w_cert_ok w) (w_key_ok w)) (rt_listeners rt);
  ra_upstreams : NoDup (map uc_id (rt_upstreams rt)) /\ Forall (fun u => health_sane (uc_health u)) (rt_upstreams rt);
  ra_groups : NoDup (map gc_id (rt_groups rt)) /\ Forall (group_sane (map uc_id (rt_upstreams rt))) (rt_groups rt);
  ra_rules : Forall (fun r => action_known (map gc_id (rt_groups rt)) (action r)) (rt_rules rt);
  ra_default : action_known (map gc_id (rt_groups rt)) (rt_default_action rt);
  ra_admin : forall a auth, rt_admin rt = Some a -> am_auth a = Some auth -> credentials auth;
  ra_reverse : Forall reverse_server_sane (rt_reverse_servers rt) /\ Forall reverse_client_sane (rt_reverse_clients rt)
}.

Lemma collect_from_forall {A B} (f : nat -> A -> outcome ConfigError B) (P : B -> Prop) : (forall i a b, f i a = Ok b -> P b) ->
  forall l i bs, collect_from f i l = Ok bs -> Forall P bs.
Proof using Type.
  intros Hf. induction l as [|a l IH]; intros i bs; cbn; [by intros [= <-]|]. intros (b & Hb & (r & Hr & [= <-])%obind_ok)%obind_ok.
  constructor; [by eapply Hf|by eapply IH].
Qed.

Lemma rules_file_known ids n l : Forall (fun r : CompiledRule Regex IpNet => action_known ids (action r)) (rules_file_rules ids n l).
Proof using Type.
  revert n. induction l as [|re l IH]; intros n; constructor; [|apply IH]. unfold rules_file_rule. cbn. destruct ids; [done|by left].
Qed.

(** Every group named by a compiled rule exists. *)
Lemma compiled_rules_known c rules : compile_all_rules w c = Ok rules -> Forall (fun r => action_known (group_ids c) (action r)) rules.
Proof using Type.
  unfold compile_all_rules. intros (rs & Hrs & H)%obind_ok.
  assert (Forall (fun r => action_known (group_ids c) (action r)) rs) as Hk.
  { unfold compile_rules in Hrs. apply collect_ok in Hrs. clear H. induction Hrs as [|r cr l cs Hr _ IH]; constructor; [|exact IH].
    unfold compile_rule in Hr. apply obind_ok in Hr as (m & _ & (a & Ha & [= <-])%obind_ok). cbn. unfold compile_action in Ha.
    destruct (r_direct r) as [[]|]; [by injection Ha as <-|done|]. destruct (r_upstream_group r) as [g|].
    - destruct (one_of (group_ids c) g) eqn:E; [|done]. injection Ha as <-. unfold one_of in E. by apply bool_decide_eq_true in E.
    - destruct (r_reject r); [|done]. by apply obind_ok in Ha as (x & _ & [= <-]). }
  destruct (cf_rules_file c) as [f|]; [|by injection H as <-]. apply obind_ok in H as (more & Hm & [= <-]). apply Forall_app. split; [exact Hk|].
  unfold compile_rules_file in Hm. steps Hm. injection Hm as <-. apply rules_file_known.
Qed.

Lemma validate_default_known c : validate_default c = [] -> action_known (group_ids c) (compile_default_action (cf_routing_default c)).
Proof using Type.
  unfold validate_default, compile_default_action. destruct (cf_routing_default c) as [d|]; [|done]. cbn [when_some].
  case_bool_decide; [done|]. case_bool_decide; [done|]. cbn [negb andb]. intros H1%fails_nil%negb_false_iff. unfold one_of in H1. by apply bool_decide_eq_true in H1.
Qed.

End accepted.

Section accepted_proofs.
Context {Regex IpNet : Type} (w : config_world Regex IpNet).

Lemma Forall2_Forall_r' {A B} (P : A -> B -> Prop) (Q : B -> Prop) l k : (forall a b, P a b -> Q b) -> Forall2 P l k -> Forall Q k.
Proof using Type. intros HQ. induction 1; constructor; eauto. Qed.

(** Validation and compilation together. *)
Lemma compile_config_sane c rt : validate_config w c = [] -> compile_config w c = Ok rt -> runtime_sane w rt.
Proof using Type.
  unfold validate_config. intros (_ & (Vl & (Vu & (Vg & (_ & (Vt & (_ & (_ & (Vd & _)%app_nil)%app_nil)%app_nil)%app_nil)%app_nil)%app_nil)%app_nil)%app_nil)%app_nil.
  rewrite when_some_nil in Vl. rewrite when_some_nil in Vt. rewrite when_some_nil in Vu. rewrite when_some_nil in Vg.
  unfold compile_config. intros (process & _ & (timeouts & Ht & (listeners & Hl & (upstreams & Hu & (groups & Hg & (rules & Hr & H)%obind_ok)%obind_ok)%obind_ok)%obind_ok)%obind_ok)%obind_ok.
  cbv zeta in H. apply obind_ok in H as (admin & Ha & (servers & Hrs & (clients & Hrc & [= <-])%obind_ok)%obind_ok).
  assert (map gc_id groups = group_ids c /\ NoDup (map gc_id groups) /\ Forall (group_sane (map ut_id (default [] (cf_upstreams c)))) groups) as (Gi & Gn & Gs).
  { unfold group_ids. destruct (cf_upstream_groups c) as [gs|]; [|injection Hg as <-; repeat constructor].
    destruct (validated_groups gs (cf_upstreams c) (Vg gs eq_refl)) as (cgs & Hc & H1 & H2 & H3). assert (cgs = groups) as -> by congruence. done. }
  assert (map uc_id upstreams = map ut_id (default [] (cf_upstreams c)) /\ NoDup (map uc_id upstreams) /\ Forall (fun u => health_sane (uc_health u)) upstreams) as (Ui & Un & Us).
  { destruct (cf_upstreams c) as [us|]; [|injection Hu as <-; repeat constructor].
    destruct (validated_upstreams us upstreams (Vu us eq_refl) Hu) as (H1 & H2). cbn [default].
    assert (map uc_id upstreams = map ut_id us) as E by (eapply Forall2_map_eq; [|exact H2]; by intros ?? (? & _)).
    rewrite E. split; [done|]. split; [exact H1|]. eapply Forall2_Forall_r'; [|exact H2]. by intros ?? (_ & _ & ?). }
  split; cbn [rt_timeouts rt_listeners rt_upstreams rt_groups rt_rules rt_default_action rt_admin rt_reverse_servers rt_reverse_clients].
  - destruct (timeouts_compile (cf_timeouts c) Vt) as (tc & Htc & P). by assert (tc = timeouts) as <- by congruence.
  - destruct (cf_listeners c) as [ls|]; [|injection Hl as <-; repeat constructor].
    destruct (listeners_sane _ _ _ _ _ _ _ (Vl ls eq_refl) Hl) as (H1 & _ & _ & H2). done.
  - done.
  - split; [done|]. by rewrite Ui.
  - rewrite Gi. by apply (compiled_rules_known w).
  - rewrite Gi. by apply validate_default_known.
  - intros a auth -> Hauth. unfold compile_admin in Ha. destruct (cf_admin c) as [x|]; [|done].
    apply obind_ok in Ha as (y & Hy & [= <-]). cbn in Hauth. subst y. apply transpose_some in Hy as (z & _ & Hz). by eapply admin_auth_credentials.
  - split.
    + unfold compile_reverse_servers in Hrs. destruct (cf_reverse_servers c); [|by injection Hrs as <-].
      eapply collect_from_forall; [|exact Hrs]. intros i a b. apply reverse_server_compiles.
    + unfold compile_reverse_clients in Hrc. destruct (cf_reverse_clients c); [|by injection Hrc as <-].
      eapply collect_from_forall; [|exact Hrc]. intros i a b. apply reverse_client_compiles.
Qed.

Lemma load_accepts f rt : load_and_validate w f = Ok rt -> exists contents c,
  load_bounded_text_file (w_open w f) = Ok contents /\ w_toml w contents = Some c /\ validate_config w c = [] /\ compile_config w c = Ok rt.
Proof using Type.
  unfold load_and_validate, validate_and_compile_toml. intros (contents & Hc & (c & Ht & (_ & _ & (? & Hv%guard_ok & Hcc)%obind_ok)%obind_ok)%obind_ok)%obind_ok.
  exists contents, c. split; [done|]. unfold ok_or in Ht. destruct (w_toml w contents); [|done]. injection Ht as ->. split; [done|].
  split; [|done]. apply negb_false_iff, bool_decide_eq_true in Hv. by apply nil_length_inv.
Qed.

Lemma bounded_file_size f contents : load_bounded_text_file f = Ok contents -> Z.of_nat (length contents) <= MAX_CONFIG_SIZE /\ utf8_valid contents = true.
Proof using Type.
  unfold load_bounded_text_file. intros (x & _ & (len & _ & H)%obind_ok)%obind_ok. destruct (_ <? len); [done|]. apply obind_ok in H as (data & _ & H).
  cbv zeta in H. destruct (negb _) eqn:Eu; [done|]. destruct (_ <? Z.of_nat _) eqn:El; [done|]. injection H as <-. split; [lia|by apply negb_false_iff].
Qed.

(** C36. An accepted configuration is sound.  Whatever the file says, when loading
    accepts it, the file was valid text of at most a mebibyte, and what runs has
    positive handshake and connect timeouts; distinct listener, upstream and group
    names; positive health intervals, timeouts and thresholds; groups with distinct
    members that are all configured; rules and a default that name only groups that
    exist; and an admin section whose credentials are not empty.  A listener has a
    protocol and a connection limit other than zero; the UDP section, if any, has
    positive limits and fits its mode (for Shadowsocks a section with method and
    password, for fixed targets a target); QUIC and HTTP/3 come with TLS and neither UDP
    nor Unix; TLS has a certificate and key that parse; Trojan has TLS and a password;
    an authentication section has a user name and a password that is empty only if an
    environment variable is.  (Nothing is required of Shadowsocks over TCP or of the
    protocols for fixed destinations.)  A reverse server has both credentials or none,
    a reverse client a default target, and neither has TLS in its pproxy variant. *)
Theorem accepted_config_sound f rt : load_and_validate w f = Ok rt ->
  (exists contents, load_bounded_text_file (w_open w f) = Ok contents /\ Z.of_nat (length contents) <= MAX_CONFIG_SIZE /\ utf8_valid contents = true) /\
  runtime_sane w rt.
Proof using Type.
  intros (contents & c & Hf & _ & Hv & Hc)%load_accepts. split; [|by eapply compile_config_sane]. exists contents. split; [done|]. by eapply bounded_file_size.
Qed.
End accepted_proofs.

Lemma each_path_elem {A} (f : nat -> A -> list path) l i p : p ∈ each_path f i l <-> exists j a, l !! j = Some a /\ p ∈ f (i + j)%nat a.
Proof.
  revert i. induction l as [|a l IH]; intros i; cbn [each_path].
  - split; [by intros ?%elem_of_nil|]. by intros (j & a & Hj & _).
  - rewrite elem_of_app, IH. split.
    + intros [Hp|(j & b & Hj & Hp)]; [exists 0%nat, a; by rewrite Nat.add_0_r|]. exists (S j), b. by rewrite <- Nat.add_succ_comm.
    + intros ([|j] & b & Hj & Hp); cbn in Hj; [injection Hj as <-; rewrite Nat.add_0_r in Hp; by left|]. right. exists j, b. by rewrite Nat.add_succ_comm.
Qed.

(** A listener is warned about exactly when it is reachable from outside and has no
    means of authentication. *)
Lemma listener_warned c i l : default [] (cf_listeners c) !! i = Some l ->
  [key "listeners"; Idx i; key "bind"] ∈ each_path listener_warning 0 (default [] (cf_listeners c)) <->
  is_loopback_bind (li_bind l) = false /\ li_auth l = None /\ li_shadowsocks l = None /\ li_ssr l = None /\ li_trojan l = None.
Proof.
  intros Hl. rewrite each_path_elem. split.
  - intros (j & l' & Hl' & Hp). unfold listener_warning, warn in Hp. destruct (_ && _) eqn:E; [|by apply elem_of_nil in Hp].
    apply list_elem_of_singleton in Hp. assert (i = (0 + j)%nat) as -> by congruence. cbn in Hl. assert (l' = l) as -> by congruence.
    rewrite !andb_true_iff, !negb_true_iff in E. destruct E as ((((H1 & H2) & H3) & H4) & H5). split; [done|].
    destruct (li_auth l), (li_shadowsocks l), (li_ssr l), (li_trojan l); done.
  - intros (H1 & H2 & H3 & H4 & H5). exists i, l. split; [done|]. unfold listener_warning. rewrite H1, H2, H3, H4, H5. by apply list_elem_of_singleton.
Qed.

(** ** Examples *)

Definition demo_config : ConfigFile :=
  {| cf_version := Some 1; cf_process := None; cf_timeouts := Some {| tt_handshake := Some (str "5s"); tt_connect := None |};
     cf_listeners := Some [demo_listener]; cf_upstreams := Some demo_upstreams; cf_upstream_groups := Some demo_groups; cf_rules := Some demo_rules;
     cf_rules_file := Some (str "extra.rules"); cf_routing_default := Some (str "main"); cf_admin := Some demo_admin;
     cf_reverse_servers := None; cf_reverse_clients := None |}.
Definition demo_world : config_world unit unit :=
  {| w_toml := fun s => if bool_decide (s = str "demo") then Some demo_config else None; w_regex := fun _ => Some tt; w_ipnet := fun _ => None; w_quic := false;
     w_env := fun v => if bool_decide (v = str "PW") then Some (str "pw") else Some (str "t0k3n"); w_read := fun _ => None;
     w_open := fun f => if bool_decide (f = str "demo.toml") then Some {| tf_len := Some 4; tf_data := Some (str "demo") |}
                        else if bool_decide (f = str "extra.rules") then Some {| tf_len := Some 7; tf_data := Some (str "^a.b" ++ [x0a; x23; x78]) |} else None;
     w_cert_ok := fun _ => true; w_key_ok := fun _ => true; w_roots_ok := fun _ => true; w_server_name_ok := fun _ => true; w_system_roots_ok := true;
     w_client_build_ok := fun _ _ => true |}.

Definition demo_runtime : RuntimeConfig unit unit :=
  Eval vm_compute in match load_and_validate demo_world (str "demo.toml") with Ok rt => rt | _ =>
    {| rt_process := ProcessConfig_default; rt_timeouts := TimeoutConfig_default; rt_listeners := []; rt_upstreams := []; rt_groups := []; rt_rules := [];
       rt_default_action := ActDirect; rt_admin := None; rt_reverse_servers := []; rt_reverse_clients := [] |} end.

Lemma accepted_config_sound_witness :
  load_and_validate demo_world (str "demo.toml") = Ok demo_runtime /\ map rule_id (rt_rules demo_runtime) = [str "udp"; str "rest"; str "rules-file-1"] /\
  runtime_sane demo_world demo_runtime.
Proof.
  assert (load_and_validate demo_world (str "demo.toml") = Ok demo_runtime) as Hl by by vm_compute. split; [exact Hl|]. split; [by vm_compute|].
  exact (proj2 (accepted_config_sound demo_world (str "demo.toml") demo_runtime Hl)).
Defined.
