(* ===== verification/Snapshot.v ===== *)
(** * Runtime snapshots and reload

    Models [crates/eggress-runtime/src/snapshot.rs] (a configuration becomes upstream
    runtimes, groups and a router), [supervisor/reload.rs] (which changes a running
    process can take) and the reload of [supervisor/state.rs] and [supervisor.rs].

    An [Arc<UpstreamRuntime>] is an address of the heap of Upstream.v.  A snapshot that
    is replaced stays alive while sessions hold leases of its upstreams, so the heap
    only grows.  Connection pools, metrics and health tasks that a reload restarts are
    not part of the state. *)

From S2P Require Import Prelude Bytes Decimal Stream NetAddr Connector Dispatch Uri Capability Chain Health Upstream Scheduler Matcher Router HttpText UdpRegistry UdpSession ConfigRules ConfigUpstreams ConfigListeners ConfigService Config.
Local Open Scope Z_scope.

(** ** Snapshots *)

Inductive snapshot_error := GroupUnknownUpstream (group member : bytes) | GroupNoMembers (group : bytes) | RuleUnknownGroup (rule group : bytes).

#[export] Instance EndpointSpec_eq_dec : EqDecision EndpointSpec.
Proof. solve_decision. Defined.
#[export] Instance CredentialSpec_eq_dec : EqDecision CredentialSpec.
Proof. solve_decision. Defined.
#[export] Instance ProxyHopSpec_eq_dec : EqDecision ProxyHopSpec.
Proof. solve_decision. Defined.
#[export] Instance ProxyChainSpec_eq_dec : EqDecision ProxyChainSpec.
Proof. solve_decision. Defined.
#[export] Instance HealthConfig_eq_dec : EqDecision HealthConfig.
Proof. solve_decision. Defined.

Definition upstream_runtime_compatible (old : UpstreamRuntime) (new : UpstreamConfig) : bool :=
  bool_decide (chain old = uc_chain new) && bool_decide (health_config old = uc_health new).

(** A probe only for an address: a name is not resolved. *)
Definition build_one_upstream_runtime (u : UpstreamConfig) : UpstreamRuntime :=
  let runtime := with_health_config (upstream_new (uc_id u) (uc_chain u)) (uc_health u) in
  match hops (uc_chain u) with
  | first_hop :: _ =>
      let text := ep_host (endpoint first_hop) ++ x3a :: to_dec (ep_port (endpoint first_hop)) in
      match parse_socket_addr text with
      | Some _ => with_health_probe runtime (text, hc_timeout (uc_health u))
      | None => runtime
      end
  | [] => runtime
  end.

Section snapshot.
Context {Regex IpNet R : Type} `{RandomIndex R}.

Record CompiledRuntimeSnapshot := {
  sn_generation : Z; sn_upstreams : gmap bytes nat; sn_router : Router Regex IpNet R; sn_timeouts : TimeoutConfig; sn_listeners : list ListenerConfig;
  sn_admin : option AdminConfig; sn_reverse_servers : list CompiledReverseServerConfig; sn_reverse_clients : list CompiledReverseClientConfig
}.

(** The runtime of one upstream: the one it had, or a new one. *)
Definition runtime_for (previous : gmap bytes nat) (u : UpstreamConfig) (h : heap) : nat * heap :=
  let fresh := (length h, h ++ [build_one_upstream_runtime u]) in
  match previous !! uc_id u with
  | Some i =>
      match h !! i with
      | Some existing => if upstream_runtime_compatible existing u then (i, h) else fresh
      | None => fresh
      end
  | None => fresh
  end.

Fixpoint build_upstreams (previous : gmap bytes nat) (us : list UpstreamConfig) (m : gmap bytes nat) (h : heap) : gmap bytes nat * heap :=
  match us with
  | [] => (m, h)
  | u :: r => let '(i, h) := runtime_for previous u h in build_upstreams previous r (<[uc_id u := i]> m) h
  end.

Definition build_member (m : gmap bytes nat) (group member : bytes) : outcome snapshot_error nat := ok_or (GroupUnknownUpstream group member) (m !! member).

Definition build_group (rng : R) (m : gmap bytes nat) (g : UpstreamGroupConfig) : outcome snapshot_error (bytes * UpstreamGroup R) :=
  let? members := collect (build_member m (gc_id g)) (gc_members g) in
  match members with
  | [] => Err (GroupNoMembers (gc_id g))
  | _ => Ok (gc_id g, group_new rng (gc_id g) (gc_scheduler g) members (gc_fallback g))
  end.

Definition build_rule (ids : list bytes) (r : CompiledRule Regex IpNet) : outcome snapshot_error (CompiledRule Regex IpNet) :=
  match action r with
  | ActUpstreamGroup g => if one_of ids g then Ok r else Err (RuleUnknownGroup (rule_id r) g)
  | _ => Ok r
  end.

Definition U64_MAX : Z := 2 ^ 64 - 1.

Definition compile_runtime_snapshot (rng : R) (rt : RuntimeConfig Regex IpNet) (previous : option CompiledRuntimeSnapshot) (h : heap)
    : outcome snapshot_error CompiledRuntimeSnapshot * heap :=
  let '(upstreams, h') := build_upstreams (match previous with Some p => sn_upstreams p | None => ∅ end) (rt_upstreams rt) ∅ h in
  (let? groups := collect (build_group rng upstreams) (rt_groups rt) in
   let? rules := collect (build_rule (map gc_id (rt_groups rt))) (rt_rules rt) in
   Ok {| sn_generation := match previous with Some p => Z.min (sn_generation p + 1) U64_MAX | None => 0 end;
         sn_upstreams := upstreams; sn_router := with_groups rules (rt_default_action rt) groups; sn_timeouts := rt_timeouts rt;
         sn_listeners := rt_listeners rt; sn_admin := rt_admin rt; sn_reverse_servers := rt_reverse_servers rt;
         sn_reverse_clients := rt_reverse_clients rt |}, h').
End snapshot.
Arguments CompiledRuntimeSnapshot : clear implicits.

(** ** Classification of a reload *)

Definition changed {A} `{EqDecision A} (old new : A) : bool := negb (bool_decide (old = new)).

#[export] Instance CompiledTransparentConfig_eq_dec : EqDecision CompiledTransparentConfig.
Proof. solve_decision. Defined.

Definition classify_udp (old new : option CompiledListenerUdpConfig) : bool :=
  match old, new with
  | Some o, Some n =>
      negb (changed (lu_bind o) (lu_bind n) || changed (lu_enabled o) (lu_enabled n) || changed (lu_mode o) (lu_mode n) ||
            changed (lu_upstream_udp_bind o) (lu_upstream_udp_bind n)) &&
      negb (changed (lu_max_associations o) (lu_max_associations n) || changed (lu_max_associations_global o) (lu_max_associations_global n) ||
            changed (lu_max_targets_per_association o) (lu_max_targets_per_association n) || changed (lu_max_datagram_size o) (lu_max_datagram_size n)) &&
      negb (changed (lu_idle_timeout o) (lu_idle_timeout n) || changed (lu_target_idle_timeout o) (lu_target_idle_timeout n) ||
            changed (lu_upstream_connect_timeout o) (lu_upstream_connect_timeout n) || changed (lu_client_pin o) (lu_client_pin n) ||
            changed (lu_allow_private_egress o) (lu_allow_private_egress n) || changed (lu_advertise o) (lu_advertise n) ||
            changed (lu_fixed_target o) (lu_fixed_target n))
  | None, None => true
  | _, _ => false
  end.

Definition classify_transparent (old new : option CompiledTransparentConfig) : bool :=
  match old, new with
  | Some o, Some n => negb (changed (ct_enabled o) (ct_enabled n) || changed (ct_protocol o) (ct_protocol n))
  | None, Some n => negb (ct_enabled n)
  | Some o, None => negb (ct_enabled o)
  | None, None => true
  end.

Definition classify_unix (old new : option CompiledUnixListenerConfig) : bool :=
  match old, new with
  | Some o, Some n => negb (changed (cu_path o) (cu_path n) || changed (cu_unlink_existing o) (cu_unlink_existing n) || changed (cu_mode o) (cu_mode n))
  | None, None => true
  | _, _ => false
  end.

Definition classify_auth (old new : option AuthConfig) : bool :=
  match old, new with
  | None, None => true
  | Some o, Some n =>
      negb (changed (au_type o) (au_type n) || changed (au_username o) (au_username n) || changed (au_password o) (au_password n) ||
            changed (au_password_env o) (au_password_env n))
  | _, _ => false
  end.

Definition classify_tls (old new : option CompiledListenerTlsConfig) : bool :=
  match old, new with
  | None, None => true
  | Some o, Some n => negb (changed (cl_cert_pem o) (cl_cert_pem n) || changed (cl_key_pem o) (cl_key_pem n) || changed (cl_alpn o) (cl_alpn n))
  | _, _ => false
  end.

Definition classify_shadowsocks (old new : option ShadowsocksListenerConfig) : bool :=
  match old, new with
  | None, None => true
  | Some o, Some n =>
      negb (changed (sl_method o) (sl_method n) || changed (sl_password o) (sl_password n) || changed (sl_auth_prefix o) (sl_auth_prefix n) ||
            changed (sl_plugins o) (sl_plugins n))
  | _, _ => false
  end.

Definition classify_trojan (old new : option ListenerTrojanConfig) : bool :=
  match old, new with
  | None, None => true
  | Some o, Some n => negb (changed (tr_password o) (tr_password n) || changed (tr_fallback o) (tr_fallback n))
  | _, _ => false
  end.

(** One round of the loop of [classify_listeners]; the first difference decides the
    text of the refusal, which is not modelled. *)
Definition classify_listener (old new : ListenerConfig) : bool :=
  negb (changed (lc_name old) (lc_name new)) && negb (changed (lc_bind old) (lc_bind new)) &&
  classify_udp (lc_udp old) (lc_udp new) && classify_transparent (lc_transparent old) (lc_transparent new) && classify_unix (lc_unix old) (lc_unix new) &&
  negb (changed (lc_reuse_port old) (lc_reuse_port new)) && negb (changed (lc_protocols old) (lc_protocols new)) &&
  classify_auth (lc_auth old) (lc_auth new) && classify_tls (lc_tls old) (lc_tls new) && classify_shadowsocks (lc_shadowsocks old) (lc_shadowsocks new) &&
  classify_trojan (lc_trojan old) (lc_trojan new) &&
  negb (changed (lc_connection_limit old) (lc_connection_limit new) || changed (lc_fixed_target old) (lc_fixed_target new) ||
        changed (lc_local_bind old) (lc_local_bind new)).

Definition classify_listeners (old new : list ListenerConfig) : bool :=
  (length old =? length new)%nat && forallb (fun '(o, n) => classify_listener o n) (zip old new).

#[export] Instance TimeoutConfig_eq_dec : EqDecision TimeoutConfig.
Proof. solve_decision. Defined.

Definition classify_reload_config {Regex IpNet} (old_listeners : list ListenerConfig) (old_timeouts : TimeoutConfig) (old_admin : option AdminConfig)
    (new : RuntimeConfig Regex IpNet) : bool :=
  let admin_endpoint a := (fun a => (am_enabled a, am_bind a)) <$> a in
  classify_listeners old_listeners (rt_listeners new) && negb (changed old_timeouts (rt_timeouts new)) &&
  negb (changed (admin_endpoint old_admin) (admin_endpoint (rt_admin new))).

(** ** The reload *)

Inductive ReloadResult := Applied (generation : Z) (upstreams : nat) | ReloadRejected | ReloadFailed (e : ConfigError + snapshot_error).

Section reload.
Context {Regex IpNet R : Type} `{RandomIndex R} (w : config_world Regex IpNet).

(** What the running process shares: the snapshot, the router requests are decided
    by, and the upstreams. *)
Record RuntimeState := { rs_snapshot : CompiledRuntimeSnapshot Regex IpNet R; rs_routing : SharedRoutingService (Regex:=Regex) (IpNet:=IpNet) (R:=R); rs_heap : heap; rs_udp_limit : nat }.

Definition apply_compiled_config (rng : R) (new_config : RuntimeConfig Regex IpNet) (st : RuntimeState) : ReloadResult * RuntimeState :=
  let prev := rs_snapshot st in
  if negb (classify_reload_config (sn_listeners prev) (sn_timeouts prev) (sn_admin prev) new_config) then (ReloadRejected, st)
  else
    let '(res, h) := compile_runtime_snapshot rng new_config (Some prev) (rs_heap st) in
    match res with
    | Ok snap => (Applied (sn_generation snap) (size (sn_upstreams snap)),
                  {| rs_snapshot := snap; rs_routing := swap (rs_routing st) (sn_router snap); rs_heap := h; rs_udp_limit := rs_udp_limit st |})
    | Err e => (ReloadFailed (inr e), {| rs_snapshot := prev; rs_routing := rs_routing st; rs_heap := h; rs_udp_limit := rs_udp_limit st |})
    | Panic => (ReloadRejected, st)                (* not reached: compilation does not panic *)
    end.

(** [ServiceSupervisor::reload_config]; [None] is a process without a file. *)
Definition reload_config (rng : R) (config_path : option bytes) (st : RuntimeState) : ReloadResult * RuntimeState :=
  match config_path with
  | None => (ReloadRejected, st)
  | Some f =>
      match load_and_validate w f with
      | Ok c => apply_compiled_config rng c st
      | Err e => (ReloadFailed (inl e), st)
      | Panic => (ReloadRejected, st)              (* not reached: loading does not panic *)
      end
  end.

(** The start.  What the build lacks is refused, and so is a bind that is no socket
    address. *)
Inductive start_error := StartUnsupported | StartBind (addr : bytes) | StartConfig (e : snapshot_error).
Context (reverse operations : bool).

Fixpoint check_binds (ls : list ListenerConfig) : outcome start_error unit :=
  match ls with
  | [] => Ok tt
  | l :: r => if negb (some (lc_unix l)) && negb (some (parse_socket_addr (lc_bind l))) then Err (StartBind (lc_bind l)) else check_binds r
  end.
Definition validate_startup_config (c : RuntimeConfig Regex IpNet) : outcome start_error unit :=
  if negb reverse && (negb (bool_decide (length (rt_reverse_servers c) = 0%nat)) || negb (bool_decide (length (rt_reverse_clients c) = 0%nat)))
  then Err StartUnsupported
  else if negb operations && match rt_admin c with Some a => am_enabled a | None => false end then Err StartUnsupported
  else check_binds (rt_listeners c).

(** The first listener that says so decides. *)
Definition resolve_udp_global_limit (c : RuntimeConfig Regex IpNet) : nat :=
  default 1024%nat (head (omap (fun l => lu_max_associations_global <$> lc_udp l) (rt_listeners c))).

Definition init_supervisor (rng : R) (c : RuntimeConfig Regex IpNet) : outcome start_error RuntimeState :=
  let? _ := validate_startup_config c in
  let '(res, h) := compile_runtime_snapshot rng c None [] in
  let? snap := map_err StartConfig res in
  Ok {| rs_snapshot := snap; rs_routing := {| current := sn_router snap |}; rs_heap := h; rs_udp_limit := resolve_udp_global_limit c |}.
End reload.
Arguments RuntimeState : clear implicits.

(** ** What a snapshot holds *)

(** The addresses a snapshot names are upstreams of these names. *)
Definition names_ok (m : gmap bytes nat) (h : heap) : Prop := forall k i, m !! k = Some i -> exists u, h !! i = Some u /\ id u = k.

(** The runtime an upstream keeps over a reload. *)
Definition kept (previous : gmap bytes nat) (h : heap) (u : UpstreamConfig) : option nat :=
  match previous !! uc_id u with
  | Some i => match h !! i with Some e => if upstream_runtime_compatible e u then Some i else None | None => None end
  | None => None
  end.

Definition as_configured (u : UpstreamConfig) (r : UpstreamRuntime) : Prop := id r = uc_id u /\ chain r = uc_chain u /\ health_config r = uc_health u.

Lemma build_one_as_configured u : as_configured u (build_one_upstream_runtime u) /\ active (build_one_upstream_runtime u) = 0 /\ in_flight (build_one_upstream_runtime u) = 0.
Proof. unfold build_one_upstream_runtime, as_configured. destruct (hops _); [done|]. by destruct (parse_socket_addr _). Qed.

Lemma names_ok_prefix m h k : names_ok m h -> names_ok m (h ++ k).
Proof. intros Hm i j (u & Hu & Hid)%Hm. exists u. split; [by apply lookup_app_l_Some|done]. Qed.
Lemma kept_prefix m h k u : names_ok m h -> kept m (h ++ k) u = kept m h u.
Proof.
  intros Hm. unfold kept. destruct (m !! uc_id u) as [i|] eqn:E; [|done]. destruct (Hm _ _ E) as (e & He & _). by rewrite He, (lookup_app_l_Some _ _ _ _ He).
Qed.

Lemma compatible_true e u : upstream_runtime_compatible e u = true <-> chain e = uc_chain u /\ health_config e = uc_health u.
Proof. unfold upstream_runtime_compatible. by rewrite andb_true_iff, !bool_decide_eq_true. Qed.

Lemma runtime_for_spec m u h : names_ok m h -> exists fresh r, runtime_for m u h = (default (length h) (kept m h u), h ++ fresh) /\
  (h ++ fresh) !! default (length h) (kept m h u) = Some r /\ as_configured u r /\ Forall (fun u => active u = 0 /\ in_flight u = 0) fresh /\
  (kept m h u = None -> r = build_one_upstream_runtime u).
Proof.
  intros Hm. unfold runtime_for, kept. destruct (build_one_as_configured u) as [Hb Hz].
  assert (exists fresh r, (length h, h ++ [build_one_upstream_runtime u]) = (length h, h ++ fresh) /\ (h ++ fresh) !! length h = Some r /\ as_configured u r /\
    Forall (fun u => active u = 0 /\ in_flight u = 0) fresh /\ r = build_one_upstream_runtime u) as Hfresh.
  { exists [build_one_upstream_runtime u], (build_one_upstream_runtime u). split; [done|]. rewrite lookup_app_r, Nat.sub_diag by done. split; [done|]. split; [done|]. split; [by constructor|done]. }
  destruct (m !! uc_id u) as [i|] eqn:E; cbn [default]; [|destruct Hfresh as (f & r & H); exists f, r; naive_solver].
  destruct (Hm _ _ E) as (e & He & Hid). rewrite He. destruct (upstream_runtime_compatible e u) eqn:Ec; cbn [default].
  - apply compatible_true in Ec as [E1 E2]. exists [], e. rewrite app_nil_r. by repeat split.
  - destruct Hfresh as (f & r & H). exists f, r. naive_solver.
Qed.

(** All upstreams of a configuration: one runtime each, kept where that is possible. *)
Lemma build_upstreams_spec prev us m h : names_ok prev h -> NoDup (map uc_id us) -> exists fresh m', build_upstreams prev us m h = (m', h ++ fresh) /\
  Forall (fun u => active u = 0 /\ in_flight u = 0) fresh /\
  (forall k, k ∉ map uc_id us -> m' !! k = m !! k) /\
  (forall u, u ∈ us -> exists i r, m' !! uc_id u = Some i /\ (h ++ fresh) !! i = Some r /\ as_configured u r /\
     match kept prev h u with Some j => i = j | None => (length h <= i)%nat /\ r = build_one_upstream_runtime u end).
Proof.
  revert m h. induction us as [|u us IH]; intros m h Hp Hnd; cbn [build_upstreams].
  { exists [], m. rewrite app_nil_r. split; [done|]. split; [constructor|]. split; [done|]. intros u Hu. by apply elem_of_nil in Hu. }
  cbn [map] in Hnd. apply NoDup_cons in Hnd as [Hn Hnd].
  destruct (runtime_for_spec prev u h Hp) as (f1 & r & Hrf & Hr & Hc & Hz1 & Hnew). rewrite Hrf.
  destruct (IH (<[uc_id u := default (length h) (kept prev h u)]> m) (h ++ f1)) as (f2 & m' & Hb & Hz2 & Hout & Hin); [by apply names_ok_prefix|done|].
  exists (f1 ++ f2), m'. rewrite app_assoc. split; [exact Hb|]. split; [by apply Forall_app|]. split.
  - intros k Hk. rewrite map_cons, elem_of_cons in Hk. rewrite Hout by tauto. apply lookup_insert_ne. naive_solver.
  - intros v [->|Hv]%elem_of_cons.
    + exists (default (length h) (kept prev h u)), r. split; [rewrite Hout by done; by rewrite lookup_insert_eq|]. split; [by apply lookup_app_l_Some|]. split; [done|].
      destruct (kept prev h u); cbn [default]; [done|]. split; [done|by apply Hnew].
    + destruct (Hin v Hv) as (i & r' & H1 & H2 & H3 & H4). exists i, r'. do 3 (split; [done|]). rewrite kept_prefix in H4 by done.
      destruct (kept prev h v); [done|]. destruct H4 as [H4 H5]. split; [|done]. rewrite length_app in H4. lia.
Qed.

Section snapshot_proofs.
Context {Regex IpNet R : Type} `{Hok : RandomIndexOk R} (w : config_world Regex IpNet).

Lemma foldl_groups (gs : list (bytes * UpstreamGroup R)) (m : gmap bytes (UpstreamGroup R)) : NoDup (map fst gs) ->
  forall k, foldl (fun (m : gmap bytes (UpstreamGroup R)) '(i, g) => <[i := g]> m) m gs !! k = match List.find (fun x => bool_decide (x.1 = k)) gs with Some x => Some x.2 | None => m !! k end.
Proof using Type.
  revert m. induction gs as [|[i g] gs IH]; intros m Hnd k; [done|]. cbn [foldl map fst] in *. apply NoDup_cons in Hnd as [Hn Hnd]. rewrite IH by done.
  cbn [List.find fst]. destruct (List.find _ gs) as [x|] eqn:E.
  - destruct (find_some _ _ E) as [Hin Hk]. apply bool_decide_eq_true in Hk. rewrite bool_decide_false; [done|]. intros ->. apply Hn. rewrite <- Hk.
    apply list_elem_of_fmap. exists x. split; [done|]. by apply list_elem_of_In.
  - case_bool_decide as Hik; [subst; apply lookup_insert_eq|by rewrite lookup_insert_ne].
Qed.

(** The compiled group of a configured one. *)
Definition group_built (m : gmap bytes nat) (g : UpstreamGroupConfig) (b : UpstreamGroup R) : Prop :=
  group_id b = gc_id g /\ scheduler_kind b = gc_scheduler g /\ fallback b = gc_fallback g /\ Forall2 (fun k i => m !! k = Some i) (gc_members g) (members b).
Definition entry_built (m : gmap bytes nat) (g : UpstreamGroupConfig) (b : bytes * UpstreamGroup R) : Prop :=
  b.1 = gc_id g /\ scheduler_wf (scheduler b.2) /\ group_built m g b.2.

Lemma build_group_ok rng m g : ri_wf rng -> gc_members g <> [] -> Forall (fun k => is_Some (m !! k)) (gc_members g) -> exists b, build_group rng m g = Ok b /\ entry_built m g b.
Proof using Type.
  intros Hrng Hne Hk. unfold build_group.
  assert (exists ms, collect (build_member m (gc_id g)) (gc_members g) = Ok ms) as [ms Hms].
  { apply is_ok_true. rewrite collect_is_ok. apply forallb_forall. intros k Hin%list_elem_of_In. rewrite Forall_forall in Hk. destruct (Hk k Hin) as [i Hi]. unfold build_member. by rewrite Hi. }
  rewrite Hms. cbn [obind]. apply collect_ok in Hms.
  assert (Forall2 (fun k i => m !! k = Some i) (gc_members g) ms) as Hl.
  { eapply Forall2_impl; [exact Hms|]. intros k i. unfold build_member, ok_or. destruct (m !! k); [by intros [= ->]|done]. }
  destruct ms as [|i ms]; [by apply Forall2_nil_inv_r in Hl|]. eexists. split; [done|]. unfold entry_built, group_built, group_new. cbn.
  repeat split; try done. by destruct (gc_scheduler g).
Qed.

Lemma build_groups_ok rng m ids gs : ri_wf rng -> (forall k, k ∈ ids -> is_Some (m !! k)) -> Forall (group_sane ids) gs ->
  exists bs, collect (build_group rng m) gs = Ok bs /\ Forall2 (entry_built m) gs bs.
Proof using Type.
  intros Hrng Hm. induction 1 as [|g gs (Hne & _ & Hk) _ (bs & IH1 & IH2)]; [by exists []|].
  destruct (build_group_ok rng m g Hrng Hne) as (b & Hb & Hg); [eapply Forall_impl; [exact Hk|]; done|].
  exists (b :: bs). cbn. rewrite Hb. cbn. rewrite IH1. cbn. split; [done|by constructor].
Qed.

Lemma build_rules_ok ids (rs : list (CompiledRule Regex IpNet)) : Forall (fun r => action_known ids (action r)) rs -> collect (build_rule ids) rs = Ok rs.
Proof using Type.
  induction 1 as [|r rs Hr _ IH]; [done|]. cbn. unfold build_rule at 1. unfold action_known in Hr. destruct (action r); cbn [obind]; try by rewrite IH.
  unfold one_of. rewrite bool_decide_true by done. cbn. by rewrite IH.
Qed.

(** What a snapshot says of its configuration and its upstreams. *)
Record snapshot_ok (rt : RuntimeConfig Regex IpNet) (s : CompiledRuntimeSnapshot Regex IpNet R) (h : heap) : Prop := {
  so_names : names_ok (sn_upstreams s) h;
  so_dom : forall k, is_Some (sn_upstreams s !! k) <-> k ∈ map uc_id (rt_upstreams rt);
  so_upstreams : forall u, u ∈ rt_upstreams rt -> exists i r, sn_upstreams s !! uc_id u = Some i /\ h !! i = Some r /\ as_configured u r;
  so_router : router_wf h (sn_router s);
  so_rules : rules (sn_router s) = rt_rules rt /\ default_action (sn_router s) = rt_default_action rt;
  so_groups : forall g, g ∈ rt_groups rt -> exists b, groups (sn_router s) !! gc_id g = Some b /\ group_built (sn_upstreams s) g b;
  so_known : Forall (fun r => action_known (map gc_id (rt_groups rt)) (action r)) (rt_rules rt) /\ action_known (map gc_id (rt_groups rt)) (rt_default_action rt)
}.

(** The sections a snapshot takes over from its configuration as they are. *)
Definition sections_of (s : CompiledRuntimeSnapshot Regex IpNet R) := (sn_listeners s, sn_timeouts s, sn_admin s, sn_reverse_servers s, sn_reverse_clients s).
Definition sections (rt : RuntimeConfig Regex IpNet) := (rt_listeners rt, rt_timeouts rt, rt_admin rt, rt_reverse_servers rt, rt_reverse_clients rt).

(** A sound configuration always gives a snapshot. *)
Lemma snapshot_builds rng rt prev h : ri_wf rng -> runtime_sane w rt -> (forall p, prev = Some p -> names_ok (sn_upstreams p) h) ->
  exists s fresh, compile_runtime_snapshot rng rt prev h = (Ok s, h ++ fresh) /\ snapshot_ok rt s (h ++ fresh) /\
    Forall (fun u => active u = 0 /\ in_flight u = 0) fresh /\
    sn_generation s = match prev with Some p => Z.min (sn_generation p + 1) U64_MAX | None => 0 end /\
    sections_of s = sections rt /\
    (forall u, u ∈ rt_upstreams rt -> exists i r, sn_upstreams s !! uc_id u = Some i /\ (h ++ fresh) !! i = Some r /\
       match kept (match prev with Some p => sn_upstreams p | None => ∅ end) h u with
       | Some j => i = j
       | None => (length h <= i)%nat /\ r = build_one_upstream_runtime u
       end).
Proof using Type.
  intros Hrng [_ _ [Und Uh] [Gnd Gs] Hr Hd _ _] Hprev. unfold compile_runtime_snapshot.
  set (p := match prev with Some p => sn_upstreams p | None => ∅ end).
  assert (names_ok p h) as Hp by (subst p; destruct prev as [x|]; [by apply Hprev|intros k i Hk; by rewrite lookup_empty in Hk]).
  destruct (build_upstreams_spec p (rt_upstreams rt) ∅ h Hp Und) as (fresh & m & -> & Hz & Hout & Hin).
  assert (forall k, is_Some (m !! k) <-> k ∈ map uc_id (rt_upstreams rt)) as Hdom.
  { intros k. split.
    - intros [i Hi]. destruct (decide (k ∈ map uc_id (rt_upstreams rt))) as [|Hk]; [done|]. by rewrite (Hout k Hk), lookup_empty in Hi.
    - intros (u & -> & Hu)%list_elem_of_fmap. destruct (Hin u Hu) as (i & _ & -> & _). by exists i. }
  destruct (build_groups_ok rng m (map uc_id (rt_upstreams rt)) (rt_groups rt) Hrng) as (bs & Hbs & Hgb); [intros k; apply Hdom|done|].
  rewrite Hbs, build_rules_ok by done. cbn [obind].
  assert (map fst bs = map gc_id (rt_groups rt)) as Hkeys by (eapply Forall2_map_eq; [|exact Hgb]; by intros ?? (? & _)).
  assert (NoDup (map fst bs)) as Hknd by by rewrite Hkeys.
  assert (names_ok m (h ++ fresh)) as Hnames.
  { intros k i Hi. assert (k ∈ map uc_id (rt_upstreams rt)) as Hk by (apply Hdom; by exists i). apply list_elem_of_fmap in Hk as (u & -> & Hu).
    destruct (Hin u Hu) as (j & r & Hj & Hr' & (Hid & _) & _). assert (j = i) as -> by congruence. by exists r. }
  eexists _, fresh. split; [reflexivity|]. split; [|do 3 (split; [done|])].
  - split; cbn [sn_upstreams sn_router]; try done.
    + intros u Hu. destruct (Hin u Hu) as (i & r & H1 & H2 & H3 & _). by exists i, r.
    + intros k g Hg. cbn [groups with_groups] in Hg. rewrite foldl_groups in Hg by done. destruct (List.find _ bs) as [x|] eqn:E; [|by rewrite lookup_empty in Hg].
      injection Hg as <-. apply find_some in E as [Hx%list_elem_of_In _]. apply list_elem_of_lookup in Hx as [j Hj].
      destruct (Forall2_lookup_r _ _ _ _ _ Hgb Hj) as (gc & _ & _ & Hs & _ & _ & _ & Hms). split; [done|].
      apply Forall_lookup. intros n i Hn. destruct (Forall2_lookup_r _ _ _ _ _ Hms Hn) as (key & _ & Hkey). apply Hnames in Hkey as (u & Hu & _). by eapply lookup_lt_Some.
    + intros g Hg. apply list_elem_of_lookup in Hg as [j Hj]. destruct (Forall2_lookup_l _ _ _ _ _ Hgb Hj) as ([k b] & Hb & Hbuilt).
      exists b. destruct Hbuilt as (Hk & _ & Hbuilt). cbn in Hk, Hbuilt. subst k. split; [|done]. cbn [groups with_groups]. rewrite foldl_groups by done.
      destruct (List.find _ bs) as [x|] eqn:E.
      * apply find_some in E as [Hx%list_elem_of_In Hxk%bool_decide_eq_true]. apply list_elem_of_lookup in Hx as [n Hn].
        assert (n = j) as -> by (eapply (NoDup_lookup (map fst bs)); [done|rewrite list_lookup_fmap, Hn; cbn; by rewrite Hxk|rewrite list_lookup_fmap, Hb; done]).
        rewrite Hb in Hn. by injection Hn as <-.
      * exfalso. eapply find_none in E; [|apply list_elem_of_In; by eapply list_elem_of_lookup_2]. cbn in E. by rewrite bool_decide_true in E.
  - intros u Hu. destruct (Hin u Hu) as (i & r & H1 & H2 & _ & H4). by exists i, r.
Qed.
End snapshot_proofs.

(** ** Which reloads are taken *)

(** What the accept loops of a listener captured when they started. *)
Definition running (l : ListenerConfig) : ListenerConfig :=
  {| lc_name := lc_name l; lc_bind := lc_bind l; lc_protocols := lc_protocols l; lc_reuse_port := lc_reuse_port l; lc_connection_limit := lc_connection_limit l;
     lc_auth := lc_auth l; lc_udp := lc_udp l; lc_tls := lc_tls l; lc_shadowsocks := lc_shadowsocks l; lc_trojan := lc_trojan l;
     lc_transparent := match lc_transparent l with Some t => if ct_enabled t then Some t else None | None => None end; lc_unix := lc_unix l;
     lc_fixed_target := lc_fixed_target l; lc_local_bind := lc_local_bind l |}.

Lemma changed_false {A} `{EqDecision A} (a b : A) : changed a b = false <-> a = b.
Proof. unfold changed. by rewrite negb_false_iff, bool_decide_eq_true. Qed.

(** Takes apart a comparison of records that found no change. *)
Ltac unchanged H := rewrite ?andb_true_iff, ?negb_true_iff, ?orb_false_iff, ?changed_false in H; destruct_and?.

Ltac same_record o n :=
  destruct o as [o|], n as [n|]; [|discriminate|discriminate|reflexivity];
  let H := fresh in intros H; unchanged H; f_equal; destruct o, n; cbn [lu_mode lu_enabled lu_bind lu_advertise lu_idle_timeout lu_target_idle_timeout
    lu_max_associations lu_max_targets_per_association lu_max_datagram_size lu_client_pin lu_allow_private_egress lu_max_associations_global lu_fixed_target
    lu_upstream_connect_timeout lu_upstream_udp_bind cu_path cu_unlink_existing cu_mode au_type au_username au_password au_password_env cl_cert_pem cl_key_pem cl_alpn
    sl_method sl_password sl_auth_prefix sl_plugins tr_password tr_fallback] in *; subst; reflexivity.

Lemma classify_udp_same o n : classify_udp o n = true -> o = n.
Proof. unfold classify_udp. same_record o n. Qed.
Lemma classify_unix_same o n : classify_unix o n = true -> o = n.
Proof. unfold classify_unix. same_record o n. Qed.
Lemma classify_auth_same o n : classify_auth o n = true -> o = n.
Proof. unfold classify_auth. same_record o n. Qed.
Lemma classify_tls_same o n : classify_tls o n = true -> o = n.
Proof. unfold classify_tls. same_record o n. Qed.
Lemma classify_shadowsocks_same o n : classify_shadowsocks o n = true -> o = n.
Proof. unfold classify_shadowsocks. same_record o n. Qed.
Lemma classify_trojan_same o n : classify_trojan o n = true -> o = n.
Proof. unfold classify_trojan. same_record o n. Qed.

Lemma classify_listener_running o n : classify_listener o n = true -> running o = running n.
Proof.
  unfold classify_listener. rewrite !andb_true_iff. intros (((((((((((H1 & H2) & H3%classify_udp_same) & H4) & H5%classify_unix_same) & H6) & H7) & H8%classify_auth_same) &
    H9%classify_tls_same) & H10%classify_shadowsocks_same) & H11%classify_trojan_same) & H12).
  unchanged H1. unchanged H2. unchanged H4. unchanged H6. unchanged H7. unchanged H12.
  destruct o, n. unfold running. cbn in *. subst. f_equal.
  destruct lc_transparent as [[e p]|], lc_transparent0 as [[e' p']|]; cbn in *; unchanged H4; cbn in *; subst; done.
Qed.

(** Everything the accept loops captured is compared: a change of any of it is
    refused, and a configuration that is the same in every field is taken. *)
Lemma classify_listener_refl l : classify_listener l l = true.
Proof.
  assert (forall A (E : EqDecision A) (a : A), changed a a = false) as Hc by (intros; by apply changed_false).
  unfold classify_listener. rewrite !Hc. cbn [negb andb orb].
  unfold classify_udp, classify_transparent, classify_unix, classify_auth, classify_tls, classify_shadowsocks, classify_trojan.
  destruct (lc_udp l), (lc_transparent l), (lc_unix l), (lc_auth l), (lc_tls l), (lc_shadowsocks l), (lc_trojan l); rewrite ?Hc; done.
Qed.

Lemma classify_listeners_running o n : classify_listeners o n = true -> map running o = map running n.
Proof.
  unfold classify_listeners. intros [Hl%Nat.eqb_eq Hz]%andb_true_iff. revert n Hl Hz. induction o as [|a o IH]; intros [|b n]; try done.
  cbn. intros Hl [H1%classify_listener_running H2]%andb_true_iff. f_equal; [done|]. apply IH; [lia|done].
Qed.
Lemma classify_listeners_refl l : classify_listeners l l = true.
Proof. unfold classify_listeners. rewrite Nat.eqb_refl. cbn. induction l as [|a l IH]; [done|]. cbn. by rewrite classify_listener_refl, IH. Qed.

Definition admin_endpoint (a : option AdminConfig) : option (bool * bytes) := (fun a => (am_enabled a, am_bind a)) <$> a.

Lemma classify_reload_running {Regex IpNet} ls t a (c : RuntimeConfig Regex IpNet) : classify_reload_config ls t a c = true ->
  map running ls = map running (rt_listeners c) /\ t = rt_timeouts c /\ admin_endpoint a = admin_endpoint (rt_admin c).
Proof.
  unfold classify_reload_config. cbv zeta. rewrite !andb_true_iff, !negb_true_iff, !changed_false. intros [[H1%classify_listeners_running H2] H3]. done.
Qed.

(** ** What routing and leases leave alone *)

Definition same_identity (u v : UpstreamRuntime) : Prop := id u = id v /\ chain u = chain v /\ health_config u = health_config v.
#[export] Instance same_identity_refl : Reflexive same_identity.
Proof. done. Qed.

Lemma alter_identity f i (h : heap) : (forall u, same_identity u (f u)) -> Forall2 same_identity h (alter f i h).
Proof.
  intros Hf. revert i. induction h as [|u h IH]; intros [|i]; cbn; constructor; done || apply IH.
Qed.
Lemma step_identity s s' : Upstream.step s s' -> Forall2 same_identity (heap_of s) (heap_of s').
Proof. destruct 1; cbn [heap_of pending_new snd pending_drop pl_state pl_upstream active_drop al_upstream]; by apply alter_identity. Qed.

Section keeps.
Context {Regex IpNet R : Type} `{Hok : RandomIndexOk R}.
Context (is_match : Regex -> bytes -> bool) (cidr_contains : IpNet -> IpAddr -> bool).

Definition group_shape (g : UpstreamGroup R) := (group_id g, scheduler_kind g, members g, fallback g).
Definition router_shape (r : Router Regex IpNet R) := (rules r, default_action r, group_shape <$> groups r).

Lemma set_scheduler_shape (r : Router Regex IpNet R) group g s : groups r !! group = Some g -> router_shape (set_scheduler r group g s) = router_shape r.
Proof using Type.
  intros Hg. unfold router_shape, set_scheduler. cbn [rules default_action groups]. f_equal. rewrite fmap_insert. apply insert_id. by rewrite lookup_fmap, Hg.
Qed.

Lemma lease_selected_shape (r : Router Regex IpNet R) h d group i reason : router_shape (lease_selected r h d group i reason).1.2 = router_shape r.
Proof using Type. unfold lease_selected. destruct (pending_new i h). by destruct (h !! i). Qed.

Lemma route_shape (r : Router Regex IpNet R) h q : router_shape (route is_match cidr_contains r h q).1.2 = router_shape r.
Proof using Type.
  unfold route. destruct (router_decide is_match cidr_contains r q) as [rule|rule group|rule reason]; [done| |done]. cbn [router_select].
  destruct (groups r !! group) as [g|] eqn:Hg; [|done]. destruct (eligibles _ _) as [|c cs].
  - destruct (fallback g); [done..|]. destruct (select_enabled _ _ _) as [sel s]. destruct (match sel with Some i => Some i | None => _ end) as [i|].
    + by rewrite lease_selected_shape, set_scheduler_shape.
    + cbn. by apply set_scheduler_shape.
  - destruct (select _ _ _) as [[i|] s].
    + by rewrite lease_selected_shape, set_scheduler_shape.
    + cbn. by apply set_scheduler_shape.
Qed.
End keeps.

(** ** A running process

    Sessions take and give back leases, requests are routed, and the configuration is
    reloaded, in any order. *)

Section process.
Context {Regex IpNet R : Type} `{Hok : RandomIndexOk R} (w : config_world Regex IpNet).
Context (is_match : Regex -> bytes -> bool) (cidr_contains : IpNet -> IpAddr -> bool).

Record process := { ps_state : RuntimeState Regex IpNet R; ps_leases : list (nat * phase) }.

Definition with_heap (st : RuntimeState Regex IpNet R) (h : heap) : RuntimeState Regex IpNet R :=
  {| rs_snapshot := rs_snapshot st; rs_routing := rs_routing st; rs_heap := h; rs_udp_limit := rs_udp_limit st |}.

(** The router of the service is the one of the snapshot: one shared object. *)
Definition with_router (st : RuntimeState Regex IpNet R) (r : Router Regex IpNet R) : RuntimeState Regex IpNet R :=
  let s := rs_snapshot st in
  {| rs_snapshot := {| sn_generation := sn_generation s; sn_upstreams := sn_upstreams s; sn_router := r; sn_timeouts := sn_timeouts s;
                       sn_listeners := sn_listeners s; sn_admin := sn_admin s; sn_reverse_servers := sn_reverse_servers s;
                       sn_reverse_clients := sn_reverse_clients s |};
     rs_routing := {| current := r |}; rs_heap := rs_heap st; rs_udp_limit := rs_udp_limit st |}.

Definition leased (res : outcome RouteError SelectedRoute) (ls : list (nat * phase)) : list (nat * phase) :=
  match res with Ok (SelUpstream _ _ _ _ l _) => (pl_upstream l, PhPending) :: ls | _ => ls end.

Inductive process_step : process -> process -> Prop :=
| p_lease st ls s' : Upstream.step {| heap_of := rs_heap st; leases := ls |} s' ->
    process_step {| ps_state := st; ps_leases := ls |} {| ps_state := with_heap st (heap_of s'); ps_leases := leases s' |}
| p_route st ls q res r h : route is_match cidr_contains (current (rs_routing st)) (rs_heap st) q = (res, r, h) ->
    process_step {| ps_state := st; ps_leases := ls |} {| ps_state := with_heap (with_router st r) h; ps_leases := leased res ls |}
| p_reload st ls rng config_path res st' : ri_wf rng -> reload_config w rng config_path st = (res, st') ->
    process_step {| ps_state := st; ps_leases := ls |} {| ps_state := st'; ps_leases := ls |}.

(** What every reachable state keeps, next to what the accept loops were started with. *)
Record process_ok (c0 : RuntimeConfig Regex IpNet) (p : process) : Prop := {
  po_accounted : accounted {| heap_of := rs_heap (ps_state p); leases := ps_leases p |};
  po_range : Forall (fun l => (l.1 < length (rs_heap (ps_state p)))%nat) (ps_leases p);
  po_shared : current (rs_routing (ps_state p)) = sn_router (rs_snapshot (ps_state p));
  po_snapshot : exists rt, runtime_sane w rt /\ snapshot_ok rt (rs_snapshot (ps_state p)) (rs_heap (ps_state p));
  po_listeners : map running (sn_listeners (rs_snapshot (ps_state p))) = map running (rt_listeners c0);
  po_timeouts : sn_timeouts (rs_snapshot (ps_state p)) = rt_timeouts c0;
  po_admin : admin_endpoint (sn_admin (rs_snapshot (ps_state p))) = admin_endpoint (rt_admin c0)
}.

Lemma snapshot_ok_heap (rt : RuntimeConfig Regex IpNet) (s : CompiledRuntimeSnapshot Regex IpNet R) h h' : Forall2 same_identity h h' -> snapshot_ok rt s h -> snapshot_ok rt s h'.
Proof using Type.
  intros Hh [H1 H2 H3 H4 H5 H6 H7]. pose proof (Forall2_length _ _ _ Hh) as Hl. split; try done.
  - intros k i (u & Hu & Hid)%H1. destruct (Forall2_lookup_l _ _ _ _ _ Hh Hu) as (v & Hv & Hid' & _). exists v. split; [done|congruence].
  - intros u Hu. destruct (H3 u Hu) as (i & r & Hi & Hr & C1 & C2 & C3). destruct (Forall2_lookup_l _ _ _ _ _ Hh Hr) as (v & Hv & I1 & I2 & I3).
    exists i, v. split; [done|]. split; [done|]. unfold as_configured. by rewrite <- I1, <- I2, <- I3.
  - by apply (router_wf_length h).
Qed.

Lemma snapshot_ok_router rt (st : RuntimeState Regex IpNet R) r h : router_shape r = router_shape (sn_router (rs_snapshot st)) -> router_wf h r ->
  snapshot_ok rt (rs_snapshot st) h -> snapshot_ok rt (rs_snapshot (with_router st r)) h.
Proof using Type.
  unfold router_shape. intros [= E1 E2 E3] Hwf [H1 H2 H3 H4 H5 H6 H7]. split; cbn [sn_upstreams sn_router rs_snapshot with_router]; try done.
  - by rewrite E1, E2.
  - intros g Hg. destruct (H6 g Hg) as (b & Hb & Hbuilt). assert ((group_shape <$> groups r) !! gc_id g = Some (group_shape b)) as Hs by by rewrite E3, lookup_fmap, Hb.
    rewrite lookup_fmap in Hs. destruct (groups r !! gc_id g) as [b'|]; [|done]. cbn in Hs. injection Hs as S1 S2 S3 S4. exists b'. split; [done|].
    unfold group_built in *. by rewrite S1, S2, S3, S4.
Qed.

Lemma fresh_accounted_app h fresh ls : Forall (fun l => (l.1 < length h)%nat) ls -> accounted {| heap_of := h; leases := ls |} ->
  Forall (fun u => active u = 0 /\ in_flight u = 0) fresh -> accounted {| heap_of := h ++ fresh; leases := ls |}.
Proof using Type.
  intros Hr Ha Hf i u. cbn [heap_of leases]. intros [Hu|[Hi Hu]]%lookup_app_Some; [by apply Ha|].
  rewrite Forall_lookup in Hf. destruct (Hf _ _ Hu) as [-> ->].
  assert (forall ph, count i ph ls = 0) as Hc; [|by rewrite !Hc].
  intros ph. clear - Hr Hi. induction Hr as [|[j p] ls Hj _ IH]; [done|]. rewrite count_cons, IH. cbn in Hj. rewrite decide_False; [done|].
  intros [= -> _]. lia.
Qed.

(** One reload. *)
Lemma reload_spec rng config_path (st : RuntimeState Regex IpNet R) c0 ls : ri_wf rng -> process_ok c0 {| ps_state := st; ps_leases := ls |} ->
  let '(res, st') := reload_config w rng config_path st in
  exists fresh, rs_heap st' = rs_heap st ++ fresh /\ Forall (fun u => active u = 0 /\ in_flight u = 0) fresh /\
  match res with
  | Applied gen n =>
      exists f rt, config_path = Some f /\ load_and_validate w f = Ok rt /\ runtime_sane w rt /\ snapshot_ok rt (rs_snapshot st') (rs_heap st') /\
        current (rs_routing st') = sn_router (rs_snapshot st') /\ gen = Z.min (sn_generation (rs_snapshot st) + 1) U64_MAX /\
        sn_generation (rs_snapshot st') = gen /\ n = size (sn_upstreams (rs_snapshot st')) /\ sections_of (rs_snapshot st') = sections rt /\
        map running (sn_listeners (rs_snapshot st')) = map running (sn_listeners (rs_snapshot st)) /\
        sn_timeouts (rs_snapshot st') = sn_timeouts (rs_snapshot st) /\ admin_endpoint (sn_admin (rs_snapshot st')) = admin_endpoint (sn_admin (rs_snapshot st)) /\
        (forall u, u ∈ rt_upstreams rt -> exists i r, sn_upstreams (rs_snapshot st') !! uc_id u = Some i /\ rs_heap st' !! i = Some r /\
           match kept (sn_upstreams (rs_snapshot st)) (rs_heap st) u with
           | Some j => i = j
           | None => (length (rs_heap st) <= i)%nat /\ r = build_one_upstream_runtime u
           end)
  | ReloadRejected =>
      st' = st /\ forall f rt, config_path = Some f -> load_and_validate w f = Ok rt ->
        classify_reload_config (sn_listeners (rs_snapshot st)) (sn_timeouts (rs_snapshot st)) (sn_admin (rs_snapshot st)) rt = false
  | ReloadFailed e => st' = st /\ exists f ce, config_path = Some f /\ load_and_validate w f = Err ce /\ e = inl ce
  end.
Proof using Type.
  intros Hrng Hp. pose proof (po_snapshot _ _ Hp) as (rt0 & _ & Hs0). cbn in Hs0.
  assert (exists fresh : heap, rs_heap st = rs_heap st ++ fresh /\ Forall (fun u => active u = 0 /\ in_flight u = 0) fresh) as (f0 & Hf0 & Hz0).
  { exists []. by rewrite app_nil_r. }
  unfold reload_config. destruct config_path as [f|]; [|by exists f0]. destruct (load_and_validate w f) as [rt|e|] eqn:El.
  2: { exists f0. do 2 (split; [done|]). split; [done|]. by exists f, e. }
  2: { exists f0. do 2 (split; [done|]). split; [done|]. intros ?? [= <-]. by rewrite El. }
  unfold apply_compiled_config. destruct (classify_reload_config _ _ _ rt) eqn:Ec; cbn [negb].
  2: { exists f0. do 2 (split; [done|]). split; [done|]. intros ?? [= <-]. rewrite El. by intros [= <-]. }
  destruct (load_accepts w f rt El) as (contents & c & _ & _ & Hv & Hc). pose proof (compile_config_sane w c rt Hv Hc) as Hsane.
  destruct (snapshot_builds w rng rt (Some (rs_snapshot st)) (rs_heap st) Hrng Hsane) as (s & fresh & Hb & Hok' & Hz & Hgen & Hsec & Hk).
  { intros p [= <-]. apply (so_names _ _ _ Hs0). }
  rewrite Hb. cbn [rs_heap rs_snapshot rs_routing swap current]. exists fresh. do 2 (split; [done|]).
  apply classify_reload_running in Ec as (C1 & C2 & C3). pose proof Hsec as [= Hl Ht Ha _ _]. exists f, rt. do 9 (split; [done|]).
  split; [by rewrite Hl|]. split; [by rewrite Ht|]. split; [by rewrite Ha|]. done.
Qed.

Lemma lease_range s s' : Upstream.step s s' -> Forall (fun l => (l.1 < length (heap_of s))%nat) (leases s) -> Forall (fun l => (l.1 < length (heap_of s'))%nat) (leases s').
Proof using Type.
  intros Hs. rewrite <- (Forall2_length _ _ _ (step_identity _ _ Hs)). destruct Hs; cbn [leases heap_of]; rewrite ?Forall_app, ?Forall_cons; naive_solver.
Qed.

Lemma identity_refl (h : heap) : Forall2 same_identity h h.
Proof using Type. induction h; by constructor. Qed.

Lemma process_step_ok c0 p p' : process_step p p' -> process_ok c0 p -> process_ok c0 p'.
Proof using Type.
  destruct 1 as [st ls s' Hs|st ls q res r h Hr|st ls rng config_path res st' Hrng Hr]; intros Hp.
  - pose proof Hp as [P1 P2 P3 (rt & P4 & P5) P6 P7 P8]. cbn in *. split; cbn; try done.
    + destruct s'. by apply (step_accounted _ _ Hs).
    + by apply (lease_range _ _ Hs).
    + exists rt. split; [done|]. eapply snapshot_ok_heap; [|exact P5]. by apply step_identity in Hs.
  - pose proof Hp as [P1 P2 P3 (rt & P4 & P5) P6 P7 P8]. cbn in *.
    pose proof (route_shape is_match cidr_contains (current (rs_routing st)) (rs_heap st) q) as Hsh. rewrite Hr, P3 in Hsh. cbn in Hsh.
    pose proof (route_lease is_match cidr_contains (current (rs_routing st)) (rs_heap st) q) as Hl. rewrite Hr, P3 in Hl.
    destruct (Hl (so_router _ _ _ P5)) as (Hwf & _ & Hres).
    assert (Forall2 same_identity (rs_heap st) h /\ accounted {| heap_of := h; leases := leased res ls |} /\ Forall (fun l => (l.1 < length h)%nat) (leased res ls)) as (I1 & I2 & I3).
    { destruct res as [[d reason|d g up ch lease reason]|e|]; cbn [leased]; try (subst h; split; [apply identity_refl|done]).
      destruct Hres as (i & u & Hi & -> & _ & _ & ->). cbn [pl_upstream].
      assert (Upstream.step {| heap_of := rs_heap st; leases := ls |} {| heap_of := (pending_new i (rs_heap st)).2; leases := (i, PhPending) :: ls |}) as Hst
        by (constructor; by eapply lookup_lt_Some).
      split; [by apply step_identity in Hst|]. split; [by apply (step_accounted _ _ Hst)|]. by apply (lease_range _ _ Hst). }
    split; cbn; try done. exists rt. split; [done|]. apply (snapshot_ok_router rt st r); [done|done|by eapply snapshot_ok_heap].
  - pose proof (reload_spec rng config_path st c0 ls Hrng Hp) as Hs. rewrite Hr in Hs. destruct Hs as (fresh & Hh & Hz & Hres).
    pose proof Hp as [P1 P2 P3 P4 P6 P7 P8]. cbn in *. destruct res as [gen n| |e].
    + destruct Hres as (f & rt & _ & _ & Hsane & Hok' & Hcur & _ & _ & _ & _ & L1 & L2 & L3 & _). split; cbn.
      * rewrite Hh. by apply fresh_accounted_app.
      * rewrite Hh. eapply Forall_impl; [exact P2|]. cbn. intros l Hl. rewrite length_app. lia.
      * done.
      * by exists rt.
      * by rewrite L1.
      * by rewrite L2.
      * by rewrite L3.
    + by destruct Hres as [-> _].
    + by destruct Hres as [-> _].
Qed.

Lemma decide_known ids (rs : list (CompiledRule Regex IpNet)) q rule g : Forall (fun r => action_known ids (action r)) rs ->
  decide_rules is_match cidr_contains rs q = Some (DecUpstreamGroup rule g) -> g ∈ ids.
Proof using Type.
  induction 1 as [|r rs Hr _ IH]; [done|]. cbn. destruct (matches _ _ _ _); [|done]. intros [= Hd]. unfold decision_of in Hd. destruct (action r); try done.
  by injection Hd as _ <-.
Qed.

(** Every group a request is decided for exists. *)
Lemma route_known c0 p q : process_ok c0 p ->
  let '(res, _, _) := route is_match cidr_contains (current (rs_routing (ps_state p))) (rs_heap (ps_state p)) q in res <> Panic /\ forall g, res <> Err (UnknownGroup g).
Proof using Type.
  intros [_ _ P3 (rt & _ & P5) _ _ _]. rewrite P3. pose proof (so_router _ _ _ P5) as Hwf. pose proof (route_cases is_match cidr_contains _ _ q Hwf) as Ho. cbv zeta in Ho.
  destruct (route _ _ _ _ q) as [[res r] h]. destruct Ho as [_ Ho]. destruct (router_decide _ _ _ q) as [rule|rule g|rule reason] eqn:Ed.
  - by destruct Ho as [-> _].
  - assert (exists b, groups (sn_router (rs_snapshot (ps_state p))) !! g = Some b) as [b Hb].
    { destruct (so_rules _ _ _ P5) as [E1 E2]. destruct (so_known _ _ _ P5) as [K1 K2]. assert (g ∈ map gc_id (rt_groups rt)) as Hg.
      { unfold router_decide in Ed. rewrite E1, E2 in Ed. destruct (decide_rules _ _ _ q) as [d|] eqn:E; [subst d; by eapply decide_known|].
        unfold decision_of in Ed. destruct (rt_default_action rt); try done. by injection Ed as _ <-. }
      apply list_elem_of_fmap in Hg as (gc & -> & Hgc). destruct (so_groups _ _ _ P5 gc Hgc) as (b & Hb & _). by exists b. }
    rewrite Hb in Ho. unfold group_outcome in Ho. destruct res as [[]|e|]; [done..|split; [done|]|done]. destruct Ho as [-> _]. done.
  - destruct Ho as [-> _]. done.
Qed.

Context (reverse operations : bool).

Lemma start_ok f rng rt st : load_and_validate w f = Ok rt -> ri_wf rng -> init_supervisor reverse operations rng rt = Ok st ->
  process_ok rt {| ps_state := st; ps_leases := [] |} /\ sn_generation (rs_snapshot st) = 0.
Proof using Type.
  intros Hl Hrng Hi. destruct (load_accepts w f rt Hl) as (contents & c & _ & _ & Hv & Hc). pose proof (compile_config_sane w c rt Hv Hc) as Hsane.
  unfold init_supervisor in Hi. apply obind_ok in Hi as ([] & _ & Hi).
  destruct (snapshot_builds w rng rt None [] Hrng Hsane) as (s & fresh & Hb & Hok' & Hz & Hgen & [= H1 H2 H3 _ _] & _); [done|].
  rewrite Hb in Hi. cbn in Hi. injection Hi as <-. split; [|done]. split; cbn; try done.
  - by apply fresh_accounted.
  - by exists rt.
  - by rewrite H1.
  - by rewrite H3.
Qed.

Lemma process_reachable c0 p p' : rtc process_step p p' -> process_ok c0 p -> process_ok c0 p'.
Proof using Type. induction 1; [done|]. intros Hp. by eapply IHrtc, process_step_ok. Qed.

(** C34. A running process stays sound.  Start it from any configuration that loads,
    and let sessions take and return leases, requests be routed and the configuration
    be reloaded in any order and any number of times.  The counters of every upstream
    stay the number of its pending and of its active leases, of old snapshots too; a
    request is never routed to a group that does not exist; and what the accept loops
    captured at the start (every setting of every listener, the timeouts, the admin
    endpoint) is still what the snapshot says. *)
Theorem running_process_sound f rng rt st p :
  load_and_validate w f = Ok rt -> ri_wf rng -> init_supervisor reverse operations rng rt = Ok st ->
  rtc process_step {| ps_state := st; ps_leases := [] |} p ->
  accounted {| heap_of := rs_heap (ps_state p); leases := ps_leases p |} /\
  (forall q, let '(res, _, _) := route is_match cidr_contains (current (rs_routing (ps_state p))) (rs_heap (ps_state p)) q in
     res <> Panic /\ forall g, res <> Err (UnknownGroup g)) /\
  map running (sn_listeners (rs_snapshot (ps_state p))) = map running (rt_listeners rt) /\
  sn_timeouts (rs_snapshot (ps_state p)) = rt_timeouts rt /\ admin_endpoint (sn_admin (rs_snapshot (ps_state p))) = admin_endpoint (rt_admin rt).
Proof using Type.
  intros Hl Hrng Hi Hr. destruct (start_ok _ _ _ _ Hl Hrng Hi) as [Hok0 _]. pose proof (process_reachable _ _ _ Hr Hok0) as Hp.
  split; [apply (po_accounted _ _ Hp)|]. split; [intros q; by eapply route_known|]. destruct Hp. done.
Qed.

End process.

(** ** Examples *)

Definition demo_start : outcome start_error (RuntimeState unit unit DeterministicRandom) := init_supervisor true true demo_rng demo_runtime.

Lemma demo_loads : load_and_validate demo_world (str "demo.toml") = Ok demo_runtime.
Proof. by vm_compute. Qed.

Lemma demo_rng_wf : ri_wf demo_rng.
Proof. discriminate. Qed.
Lemma demo_starts : is_ok demo_start = true.
Proof. by vm_compute. Qed.
Lemma demo_reloads : match demo_start with Ok st => (reload_config demo_world demo_rng (Some (str "demo.toml")) st).1 | _ => ReloadRejected end = Applied 1 2.
Proof. by vm_compute. Qed.

Lemma running_process_sound_witness :
  exists st, demo_start = Ok st /\ accounted {| heap_of := rs_heap (reload_config demo_world demo_rng (Some (str "demo.toml")) st).2; leases := [] |}.
Proof.
  pose proof demo_starts as Hs. destruct demo_start as [st|e|] eqn:E; [|discriminate Hs..]. exists st. split; [reflexivity|].
  destruct (running_process_sound demo_world no_regex no_cidr true true (str "demo.toml") demo_rng demo_runtime st
    {| ps_state := (reload_config demo_world demo_rng (Some (str "demo.toml")) st).2; ps_leases := [] |}) as (Ha & _);
    [exact demo_loads|exact demo_rng_wf|exact E| |exact Ha].
  apply rtc_once. destruct (reload_config demo_world demo_rng (Some (str "demo.toml")) st) as [res st'] eqn:Er.
  apply (p_reload demo_world no_regex no_cidr st [] demo_rng (Some (str "demo.toml")) res st'); [exact demo_rng_wf|exact Er].
Defined.

