(* ===== verification/Reverse.v ===== *)
(** * Reverse proxies

    Models [crates/eggress-protocol-reverse/src]: the authentication of a control
    channel and the relay ([lib.rs]), the checks of [tls.rs], the server ([server.rs])
    and the client ([client.rs]).

    A server is a state machine: its tasks share counters, a bounded queue of
    authenticated control channels and the accept loop of external clients.  A control
    connection is its number and what its peer sends; the TLS handshake that may come
    first, and the parser of server names, are parameters.  Metrics are not
    modelled. *)

From S2P Require Import Prelude Bytes Decimal Stream NetAddr Connector HttpText Trojan.
Local Open Scope Z_scope.

Inductive ProtocolError :=
| RvAuthFailed | RvAuthRequired | RvConnectionClosed | RvBindDenied (a : SocketAddr) | RvConfigInvalid | RvTls | RvIo (e : IoError).
#[export] Instance ProtocolError_from_io : FromIo ProtocolError := RvIo.

Abbreviation RM := (M ProtocolError).

Definition HANDSHAKE_ACCEPT : byte := x01.
Definition HANDSHAKE_REJECT : byte := x00.
Definition MAX_AUTH_BYTES : nat := Z.to_nat 4096.

(** ** Authentication of a control channel (lib.rs) *)

Definition forbidden (b : byte) : bool := (b =b x3a) || (b2Z b <? 32) || (b2Z b =? 127).

Definition validate_auth_field (value : bytes) : outcome ProtocolError unit := if existsb forbidden value then Err RvConfigInvalid else Ok tt.

Definition write_auth (username password : bytes) : RM unit :=
  mlift (validate_auth_field username) ;;
  mlift (validate_auth_field password) ;;
  write_all (username ++ x3a :: password ++ [x0a]) ;;
  flush.

Definition read_handshake : RM unit :=
  let! buf := read_exact 1 in
  if bool_decide (buf = [HANDSHAKE_REJECT]) then mthrow RvAuthFailed else mret tt.

Definition write_handshake_accept : RM unit := write_all [HANDSHAKE_ACCEPT].
Definition write_handshake_reject : RM unit := write_all [HANDSHAKE_REJECT].

Definition client_auth_handshake (username password : bytes) : RM unit := write_auth username password ;; read_handshake.

Definition parse_auth_str (auth : bytes) : bytes * bytes :=
  match find_byte x3a auth with Some idx => (take idx auth, drop (S idx) auth) | None => (auth, []) end.

Definition redact_auth (auth : bytes) : bytes :=
  let '(user, _) := parse_auth_str auth in
  if is_empty user && is_empty auth then []
  else if negb (contains_byte x3a auth) then str "****"
  else user ++ str ":****".

(** [BufReader::new(stream.take(limit)).read_until(b'\n')]: the reader is dropped with
    what it holds, so [ahead] bytes that arrived together with the line are lost. *)
Definition read_line_buffered (ahead limit : nat) : RM bytes := fun c =>
  let limited := take limit (c_in c) in
  match find_byte x0a limited with
  | Some i => (Ok (take (i + 1) limited), set_in c (drop (i + 1 + Nat.min ahead (length limited - (i + 1))) (c_in c)))
  | None =>
      if (limit <=? length (c_in c))%nat then (Ok limited, set_in c (drop limit (c_in c)))
      else match c_end c with
           | None => (Ok limited, set_in c [])
           | Some e => (Err (from_io e), set_in c [])
           end
  end.

Definition server_auth_handshake (ahead : nat) (expected_user expected_pass : option bytes) : RM bytes :=
  let! auth_buf := read_line_buffered ahead MAX_AUTH_BYTES in
  if is_empty auth_buf then mthrow RvConnectionClosed else
  if (MAX_AUTH_BYTES <? length auth_buf)%nat then mthrow RvConfigInvalid else
  if negb (bool_decide (last auth_buf = Some x0a)) then mthrow RvAuthFailed else
  let auth_str := from_utf8_lossy (take (length auth_buf - 1) auth_buf) in
  (match expected_user, expected_pass with
   | Some exp_user, Some exp_pass =>
       let '(user, pass) := parse_auth_str auth_str in
       if negb (ct_eq user exp_user) || negb (ct_eq pass exp_pass) then write_handshake_reject ;; mthrow RvAuthFailed else mret tt
   | None, None => mret tt
   | _, _ => mthrow RvConfigInvalid
   end) ;;
  write_handshake_accept ;;
  mret (redact_auth auth_str).

(** ** The relay of a session (lib.rs) *)

(** What a read answers: data, end of stream, the idle timeout, an error. *)
Inductive read_answer := RData (b : bytes) | REof | RIdle | RFail.

(** One direction: what the other side was sent, and how it ended ([None]: it has not). *)
Fixpoint relay_direction (quota : option nat) (reads : list read_answer) : bytes * option bool :=
  match reads with
  | [] => ([], None)
  | RData b :: rest =>
      match quota with
      | None => let '(out, e) := relay_direction None rest in (b ++ out, e)
      | Some q =>
          if (length b <=? q)%nat then let '(out, e) := relay_direction (Some (q - length b)%nat) rest in (b ++ out, e)
          else (take q b, Some false)
      end
  | (REof | RIdle) :: _ => ([], Some true)
  | RFail :: _ => ([], Some false)
  end.

(** [relay_bidirectional_boxed]: [Some] once both directions ended. *)
Definition relay_bidirectional_boxed (qa qb : option nat) (from_a from_b : list read_answer) : bytes * bytes * option (outcome ProtocolError unit) :=
  let '(to_b, a_done) := relay_direction qb from_a in
  let '(to_a, b_done) := relay_direction qa from_b in
  (to_a, to_b, match a_done, b_done with Some _, Some _ => Some (Ok tt) | _, _ => None end).

(** ** Configuration of a server (server.rs, tls.rs) *)

Record ReverseServerTlsConfig := { vst_cert_pem : bytes; vst_key_pem : bytes; vst_client_ca_pem : option bytes; vst_require_client_cert : bool }.
Record ReverseClientTlsConfig := { vct_ca_pem : option bytes; vct_server_name : bytes; vct_client_cert_pem : option bytes; vct_client_key_pem : option bytes }.

Definition server_tls_validate (t : ReverseServerTlsConfig) : outcome ProtocolError unit :=
  if is_empty (vst_cert_pem t) then Err RvConfigInvalid
  else if is_empty (vst_key_pem t) then Err RvConfigInvalid
  else if vst_require_client_cert t && negb (bool_decide (is_Some (vst_client_ca_pem t))) then Err RvConfigInvalid
  else Ok tt.

Definition client_tls_validate (server_name_ok : bytes -> bool) (t : ReverseClientTlsConfig) : outcome ProtocolError unit :=
  if is_empty (vct_server_name t) then Err RvConfigInvalid
  else if negb (server_name_ok (vct_server_name t)) then Err RvConfigInvalid
  else if negb (Bool.eqb (bool_decide (is_Some (vct_client_cert_pem t))) (bool_decide (is_Some (vct_client_key_pem t)))) then Err RvConfigInvalid
  else Ok tt.

Record ReverseServerConfig := {
  vs_control_bind : SocketAddr; vs_external_bind : option SocketAddr; vs_auth_username : option bytes; vs_auth_password : option bytes;
  vs_max_control_connections : Z; vs_read_timeout_ms : Z; vs_allow_bind : option (list SocketAddr); vs_max_listeners_per_client : Z;
  vs_max_streams_per_listener : Z; vs_max_pending_external : Z; vs_tls : option ReverseServerTlsConfig
}.

Definition same_bind (a b : SocketAddr) : bool :=
  (sa_port a =? sa_port b) &&
  match sa_ip a, sa_ip b with
  | V4 a4, V4 b4 => bool_decide (a4 = b4)
  | V6 a6, V6 b6 => bool_decide (a6 = b6)
  | _, _ => false
  end.

Definition is_bind_allowed (c : ReverseServerConfig) (addr : SocketAddr) : bool :=
  match vs_allow_bind c with
  | None | Some [] => true
  | Some l => existsb (fun allowed => same_bind allowed addr) l
  end.

Definition is_loopback (addr : SocketAddr) : bool := match sa_ip addr with V4 o => v4_is_loopback o | V6 o => v6_is_loopback o end.

Definition non_empty (o : option bytes) : bool := match o with Some s => negb (is_empty s) | None => false end.

Definition server_validate (c : ReverseServerConfig) : outcome ProtocolError unit :=
  let? _ :=
    match vs_external_bind c with
    | Some external =>
        if negb (is_loopback external) then
          if negb (non_empty (vs_auth_username c) && non_empty (vs_auth_password c)) then Err RvConfigInvalid
          else match vs_allow_bind c with None | Some [] => Err RvConfigInvalid | Some _ => Ok tt end
        else Ok tt
    | None => Ok tt
    end in
  match vs_tls c with Some t => server_tls_validate t | None => Ok tt end.

(** ** The server (server.rs) *)

Definition U32 : Z := 2 ^ 32.
Definition fetch_add32 (n by_ : Z) : Z := (n + by_) mod U32.

Record ReverseServerState := {
  active_control : Z; active_streams : Z; pending_external : Z; denied_bind : Z; dropped_stream_limit : Z; dropped_pending_limit : Z
}.
Definition ReverseServerState_default : ReverseServerState :=
  {| active_control := 0; active_streams := 0; pending_external := 0; denied_bind := 0; dropped_stream_limit := 0; dropped_pending_limit := 0 |}.

Definition add_control (k : Z) (s : ReverseServerState) : ReverseServerState :=
  {| active_control := fetch_add32 (active_control s) k; active_streams := active_streams s; pending_external := pending_external s;
     denied_bind := denied_bind s; dropped_stream_limit := dropped_stream_limit s; dropped_pending_limit := dropped_pending_limit s |}.
Definition add_streams (k : Z) (s : ReverseServerState) : ReverseServerState :=
  {| active_control := active_control s; active_streams := fetch_add32 (active_streams s) k; pending_external := pending_external s;
     denied_bind := denied_bind s; dropped_stream_limit := dropped_stream_limit s; dropped_pending_limit := dropped_pending_limit s |}.
Definition add_pending (k : Z) (s : ReverseServerState) : ReverseServerState :=
  {| active_control := active_control s; active_streams := active_streams s; pending_external := fetch_add32 (pending_external s) k;
     denied_bind := denied_bind s; dropped_stream_limit := dropped_stream_limit s; dropped_pending_limit := dropped_pending_limit s |}.
Definition add_denied (s : ReverseServerState) : ReverseServerState :=
  {| active_control := active_control s; active_streams := active_streams s; pending_external := pending_external s;
     denied_bind := fetch_add32 (denied_bind s) 1; dropped_stream_limit := dropped_stream_limit s; dropped_pending_limit := dropped_pending_limit s |}.
Definition add_dropped_stream (s : ReverseServerState) : ReverseServerState :=
  {| active_control := active_control s; active_streams := active_streams s; pending_external := pending_external s;
     denied_bind := denied_bind s; dropped_stream_limit := fetch_add32 (dropped_stream_limit s) 1; dropped_pending_limit := dropped_pending_limit s |}.
Definition add_dropped_pending (s : ReverseServerState) : ReverseServerState :=
  {| active_control := active_control s; active_streams := active_streams s; pending_external := pending_external s;
     denied_bind := denied_bind s; dropped_stream_limit := dropped_stream_limit s; dropped_pending_limit := fetch_add32 (dropped_pending_limit s) 1 |}.

(** [bind] is what the operating system answers, [tls_ok] whether the TLS material builds. *)
Definition bind_external_listener (bind : SocketAddr -> option IoError) (cfg : ReverseServerConfig) (st : ReverseServerState)
    : outcome ProtocolError (option SocketAddr) * ReverseServerState :=
  match vs_external_bind cfg with
  | None => (Ok None, st)
  | Some external =>
      if negb (is_bind_allowed cfg external) then (Err (RvBindDenied external), add_denied st)
      else match bind external with Some e => (Err (RvIo e), st) | None => (Ok (Some external), st) end
  end.

(** [ReverseServer::run] up to its tasks: the address external clients are accepted on. *)
Definition server_start (bind : SocketAddr -> option IoError) (tls_ok : ReverseServerTlsConfig -> bool) (cfg : ReverseServerConfig) (st : ReverseServerState)
    : outcome ProtocolError (option SocketAddr) * ReverseServerState :=
  match server_validate cfg with
  | Err e => (Err e, st)
  | Panic => (Panic, st)
  | Ok _ =>
      match vs_external_bind cfg with
      | Some external =>
          if negb (is_bind_allowed cfg external) then (Err (RvBindDenied external), add_denied st) else
          match bind (vs_control_bind cfg) with
          | Some e => (Err (RvIo e), st)
          | None =>
              match bind_external_listener bind cfg st with
              | (Ok l, st) => match vs_tls cfg with Some t => if tls_ok t then (Ok l, st) else (Err RvTls, st) | None => (Ok l, st) end
              | other => other
              end
          end
      | None =>
          match bind (vs_control_bind cfg) with
          | Some e => (Err (RvIo e), st)
          | None => match vs_tls cfg with Some t => if tls_ok t then (Ok None, st) else (Err RvTls, st) | None => (Ok None, st) end
          end
      end
  end.

(** A control connection: what its TLS handshake answers, what its peer sends after it,
    and how many bytes arrive together with the credentials. *)
Inductive tls_answer := TlsDone | TlsFailed | TlsCancelled.
Record incoming := { in_id : nat; in_peer : SocketAddr; in_tls : tls_answer; in_conn : conn; in_ahead : nat }.

Record ControlStream := { cs_id : nat; cs_stream : conn; cs_peer_addr : SocketAddr; cs_redacted_auth : option bytes }.

(** [handle_control_connection], up to handing the stream over. *)
Definition control_stream (cfg : ReverseServerConfig) (i : incoming) : outcome ProtocolError ControlStream :=
  let? _ :=
    match vs_tls cfg with
    | Some _ => match in_tls i with TlsDone => Ok tt | TlsFailed => Err RvTls | TlsCancelled => Err RvConnectionClosed end
    | None => Ok tt
    end in
  match vs_auth_username cfg, vs_auth_password cfg with
  | Some user, Some pass =>
      match server_auth_handshake (in_ahead i) (Some user) (Some pass) (in_conn i) with
      | (Ok redacted, c) => Ok {| cs_id := in_id i; cs_stream := c; cs_peer_addr := in_peer i; cs_redacted_auth := Some redacted |}
      | (Err e, _) => Err e
      | (Panic, _) => Panic
      end
  | _, _ =>
      match write_handshake_accept (in_conn i) with
      | (Ok _, c) => Ok {| cs_id := in_id i; cs_stream := c; cs_peer_addr := in_peer i; cs_redacted_auth := None |}
      | (Err e, _) => Err e
      | (Panic, _) => Panic
      end
  end.

Definition CONTROL_CHANNEL : nat := 256.

(** The tasks of a server.  [rv_arrived] is the control connection that the accept loop
    has counted and not yet checked against the limit, with the count before it.
    [rv_next] and [rv_log] number the control connections and record which external
    client was given which of them. *)
Record server := {
  rv_state : ReverseServerState;
  rv_arrived : option (incoming * Z);
  rv_handshaking : list incoming;
  rv_queue : list ControlStream;
  rv_waiting : option nat;
  rv_relays : list (nat * ControlStream);
  rv_cancelled : bool;
  rv_accepting : bool;
  rv_receiving : bool;
  rv_next : nat;
  rv_log : list (nat * nat)
}.

Definition server_new : server :=
  {| rv_state := ReverseServerState_default; rv_arrived := None; rv_handshaking := []; rv_queue := []; rv_waiting := None; rv_relays := [];
     rv_cancelled := false; rv_accepting := true; rv_receiving := true; rv_next := 0; rv_log := [] |}.

Definition with_tasks (s : server) (st : ReverseServerState) (hs : list incoming) (q : list ControlStream) : server :=
  {| rv_state := st; rv_arrived := rv_arrived s; rv_handshaking := hs; rv_queue := q; rv_waiting := rv_waiting s; rv_relays := rv_relays s;
     rv_cancelled := rv_cancelled s; rv_accepting := rv_accepting s; rv_receiving := rv_receiving s; rv_next := rv_next s; rv_log := rv_log s |}.

Definition with_external (s : server) (st : ReverseServerState) (q : list ControlStream) (w : option nat) (rs : list (nat * ControlStream)) (log : list (nat * nat)) : server :=
  {| rv_state := st; rv_arrived := rv_arrived s; rv_handshaking := rv_handshaking s; rv_queue := q; rv_waiting := w; rv_relays := rs;
     rv_cancelled := rv_cancelled s; rv_accepting := rv_accepting s; rv_receiving := rv_receiving s; rv_next := rv_next s; rv_log := log |}.

(** [accept_control_connections]: one connection is accepted and counted, *)
Definition on_control_accept (i : incoming) (s : server) : server :=
  {| rv_state := add_control 1 (rv_state s); rv_arrived := Some (i, active_control (rv_state s)); rv_handshaking := rv_handshaking s; rv_queue := rv_queue s;
     rv_waiting := rv_waiting s; rv_relays := rv_relays s; rv_cancelled := rv_cancelled s; rv_accepting := rv_accepting s; rv_receiving := rv_receiving s;
     rv_next := S (rv_next s); rv_log := rv_log s |}.

(** and then dropped and uncounted, or handed to a task of its own. *)
Definition on_control_checked (cfg : ReverseServerConfig) (i : incoming) (prev : Z) (s : server) : server :=
  let refused := vs_max_control_connections cfg <=? prev in
  {| rv_state := if refused then add_control (-1) (rv_state s) else rv_state s; rv_arrived := None;
     rv_handshaking := if refused then rv_handshaking s else i :: rv_handshaking s; rv_queue := rv_queue s;
     rv_waiting := rv_waiting s; rv_relays := rv_relays s; rv_cancelled := rv_cancelled s; rv_accepting := rv_accepting s; rv_receiving := rv_receiving s;
     rv_next := rv_next s; rv_log := rv_log s |}.

(** The end of [handle_control_connection]; [hs] are the other handshakes. *)
Definition on_control_done (cfg : ReverseServerConfig) (i : incoming) (hs : list incoming) (s : server) : server :=
  match control_stream cfg i with
  | Ok ctrl =>
      if rv_receiving s && (length (rv_queue s) <? CONTROL_CHANNEL)%nat then with_tasks s (rv_state s) hs (rv_queue s ++ [ctrl])
      else with_tasks s (add_control (-1) (rv_state s)) hs (rv_queue s)
  | _ => with_tasks s (add_control (-1) (rv_state s)) hs (rv_queue s)
  end.

(** [accept_external_clients]: one connection. *)
Definition on_external_accept (cfg : ReverseServerConfig) (ext : nat) (s : server) : server :=
  let st := rv_state s in
  if active_streams st <? vs_max_streams_per_listener cfg then
    let st := add_streams 1 st in
    if pending_external st <? vs_max_pending_external cfg then
      with_external s (add_pending 1 st) (rv_queue s) (Some ext) (rv_relays s) (rv_log s)
    else with_external s (add_dropped_pending (add_streams (-1) st)) (rv_queue s) None (rv_relays s) (rv_log s)
  else with_external s (add_dropped_stream st) (rv_queue s) None (rv_relays s) (rv_log s).

(** A control channel is received for the waiting client, and the relay is spawned. *)
Definition on_control_received (ext : nat) (ctrl : ControlStream) (q : list ControlStream) (s : server) : server :=
  with_external s (add_control (-1) (add_pending (-1) (rv_state s))) q None (rv_relays s ++ [(ext, ctrl)]) (rv_log s ++ [(ext, cs_id ctrl)]).

Definition on_relay_end (rs : list (nat * ControlStream)) (s : server) : server :=
  with_external s (add_streams (-1) (rv_state s)) (rv_queue s) (rv_waiting s) rs (rv_log s).

(** Without an external listener the channels are closed as they come. *)
Definition on_control_drained (q : list ControlStream) (s : server) : server := with_tasks s (add_control (-1) (rv_state s)) (rv_handshaking s) q.

(** The external task ends: the waiting client is dropped, the relays are aborted and
    the receiver goes with the channels in it. *)
Definition on_external_stop (s : server) : server :=
  {| rv_state := match rv_waiting s with Some _ => add_streams (-1) (add_pending (-1) (rv_state s)) | None => rv_state s end;
     rv_arrived := rv_arrived s; rv_handshaking := rv_handshaking s; rv_queue := []; rv_waiting := None; rv_relays := [];
     rv_cancelled := rv_cancelled s; rv_accepting := rv_accepting s; rv_receiving := false; rv_next := rv_next s; rv_log := rv_log s |}.

Definition set_flags (cancelled accepting : bool) (s : server) : server :=
  {| rv_state := rv_state s; rv_arrived := rv_arrived s; rv_handshaking := rv_handshaking s; rv_queue := rv_queue s; rv_waiting := rv_waiting s; rv_relays := rv_relays s;
     rv_cancelled := cancelled; rv_accepting := accepting; rv_receiving := rv_receiving s; rv_next := rv_next s; rv_log := rv_log s |}.

Section server_steps.
Context (cfg : ReverseServerConfig).

Inductive server_step (s : server) : server -> Prop :=
| SAcceptControl i : rv_accepting s = true -> rv_arrived s = None -> in_id i = rv_next s -> server_step s (on_control_accept i s)
| SCheckControl i prev : rv_arrived s = Some (i, prev) -> server_step s (on_control_checked cfg i prev s)
| SControlDone l i r : rv_handshaking s = l ++ i :: r -> server_step s (on_control_done cfg i (l ++ r) s)
| SAcceptExternal ext : is_Some (vs_external_bind cfg) -> rv_receiving s = true -> rv_waiting s = None -> server_step s (on_external_accept cfg ext s)
| SPair ext ctrl q : rv_waiting s = Some ext -> rv_queue s = ctrl :: q -> server_step s (on_control_received ext ctrl q s)
| SRelayEnd l x r : rv_relays s = l ++ x :: r -> server_step s (on_relay_end (l ++ r) s)
| SDrain ctrl q : vs_external_bind cfg = None -> rv_receiving s = true -> rv_queue s = ctrl :: q -> server_step s (on_control_drained q s)
| SCancel : server_step s (set_flags true (rv_accepting s) s)
| SControlStop : rv_cancelled s = true -> rv_arrived s = None -> server_step s (set_flags true false s)
| SExternalStop : rv_cancelled s = true -> rv_receiving s = true -> server_step s (on_external_stop s).

End server_steps.

(** ** The client (client.rs) *)

Inductive TargetResolution := TrConnect (host : bytes) (port : Z) | TrReject.
Class TargetResolver (A : Type) := resolve : A -> TargetResolution.

Record DefaultTargetResolver := { dr_host : option bytes; dr_port : option Z }.
#[export] Instance default_resolve : TargetResolver DefaultTargetResolver := fun r =>
  match dr_host r, dr_port r with Some h, Some p => TrConnect h p | _, _ => TrReject end.

Record ReverseClientConfig := {
  vc_server_addr : SocketAddr; vc_auth_username : option bytes; vc_auth_password : option bytes; vc_reconnect_initial_ms : Z; vc_reconnect_max_ms : Z;
  vc_default_target_host : option bytes; vc_default_target_port : option Z; vc_read_timeout_ms : Z; vc_drain_grace_ms : Z;
  vc_target_connect_timeout_ms : Z; vc_tls : option ReverseClientTlsConfig
}.

Definition client_validate (server_name_ok : bytes -> bool) (c : ReverseClientConfig) : outcome ProtocolError unit :=
  match vc_tls c with Some t => client_tls_validate server_name_ok t | None => Ok tt end.

(** What the network answers in one session.  A dial can fail, be cancelled or (to the
    target) time out; the relay ends when both directions do. *)
Inductive dial_answer := Dialled | DialFailed (e : IoError) | DialTimeout | DialCancelled.
Record session_world := { sw_dial : dial_answer; sw_tls : tls_answer; sw_conn : conn; sw_target : bytes -> dial_answer }.

(** What a session does to the outside, in order. *)
Inductive session_effect :=
| EfConnect (a : SocketAddr) | EfTls (server_name : bytes) | EfSent (data : bytes) | EfTarget (addr : bytes) | EfRelay (control : conn).

Definition IoTimedOut : IoError := IoOther 110.

Section client.
Context {A : Type} `{!TargetResolver A}.

(** [ReverseClient::run_session]; every relay that ends ends well. *)
Definition run_session (cfg : ReverseClientConfig) (resolver : A) (w : session_world) : outcome ProtocolError unit * list session_effect :=
  let connecting := [EfConnect (vc_server_addr cfg)] in
  match sw_dial w with
  | DialCancelled => (Err RvConnectionClosed, connecting)
  | DialFailed e => (Err (RvIo e), connecting)
  | DialTimeout => (Err (RvIo IoTimedOut), connecting)
  | Dialled =>
      let wrapping := connecting ++ match vc_tls cfg with Some t => [EfTls (vct_server_name t)] | None => [] end in
      match match vc_tls cfg with Some _ => sw_tls w | None => TlsDone end with
      | TlsFailed => (Err RvTls, wrapping)
      | TlsCancelled => (Err RvConnectionClosed, wrapping)
      | TlsDone =>
          let '(res, c) :=
            match vc_auth_username cfg, vc_auth_password cfg with
            | Some username, Some password => client_auth_handshake username password (sw_conn w)
            | _, _ => read_handshake (sw_conn w)
            end in
          let sent := wrapping ++ [EfSent (drop (length (c_out (sw_conn w))) (c_out c))] in
          match res with
          | Err e => (Err e, sent)
          | Panic => (Panic, sent)
          | Ok _ =>
              match resolve resolver with
              | TrReject => (Err RvAuthFailed, sent)
              | TrConnect host port =>
                  let target_addr := host ++ x3a :: to_dec port in
                  match sw_target w target_addr with
                  | Dialled => (Ok tt, sent ++ [EfTarget target_addr; EfRelay c])
                  | DialFailed e => (Err (RvIo e), sent ++ [EfTarget target_addr])
                  | _ => (Err (RvIo IoTimedOut), sent ++ [EfTarget target_addr])
                  end
              end
          end
      end
  end.

End client.

(** One turn of [ReverseClient::run]: how the session ended, and whether the client was
    shut down before it ended or during the pause that follows a failure. *)
Record turn := { tn_session : outcome ProtocolError unit; tn_cancelled : bool; tn_cancelled_asleep : bool }.
Record client_loop := { cl_backoff_ms : Z; cl_pauses : list Z; cl_running : bool }.

Definition client_turn (cfg : ReverseClientConfig) (t : turn) (s : client_loop) : client_loop :=
  match tn_session t with
  | Ok _ =>
      if tn_cancelled t then {| cl_backoff_ms := cl_backoff_ms s; cl_pauses := cl_pauses s; cl_running := false |}
      else {| cl_backoff_ms := vc_reconnect_initial_ms cfg; cl_pauses := cl_pauses s; cl_running := true |}
  | _ =>
      if tn_cancelled t then {| cl_backoff_ms := cl_backoff_ms s; cl_pauses := cl_pauses s; cl_running := false |}
      else
        let pauses := cl_pauses s ++ [cl_backoff_ms s] in
        if tn_cancelled_asleep t then {| cl_backoff_ms := cl_backoff_ms s; cl_pauses := pauses; cl_running := false |}
        else {| cl_backoff_ms := Z.min (cl_backoff_ms s * 2 mod 2 ^ 64) (vc_reconnect_max_ms cfg); cl_pauses := pauses; cl_running := true |}
  end.

Fixpoint client_run (cfg : ReverseClientConfig) (ts : list turn) (s : client_loop) : client_loop :=
  match ts with
  | [] => s
  | t :: rest => if cl_running s then client_run cfg rest (client_turn cfg t s) else s
  end.

Definition client_start (cfg : ReverseClientConfig) : client_loop := {| cl_backoff_ms := vc_reconnect_initial_ms cfg; cl_pauses := []; cl_running := true |}.

(** ** Properties *)

Lemma contains_byte_false (c : byte) s : contains_byte c s = false <-> c ∉ s.
Proof. unfold contains_byte. by rewrite bool_decide_eq_false. Qed.

Lemma allowed_field f : validate_auth_field f = Ok tt -> x3a ∉ f /\ x0a ∉ f.
Proof.
  unfold validate_auth_field. destruct (existsb forbidden f) eqn:E; [done|]. intros _.
  assert (forall b, b ∈ f -> forbidden b = false) as Hf.
  { intros b Hb. apply not_true_iff_false. intros Ht. apply not_true_iff_false in E. apply E, existsb_exists. exists b. by rewrite <- list_elem_of_In. }
  split; intros Hb; apply Hf in Hb; vm_compute in Hb; discriminate.
Qed.

Lemma not_empty (s : bytes) : s <> [] -> is_empty s = false.
Proof. intros H. by apply bool_decide_eq_false_2. Qed.

Lemma auth_line_split u p : validate_auth_field u = Ok tt -> parse_auth_str (u ++ x3a :: p) = (u, p).
Proof.
  intros [Hc _]%allowed_field. unfold parse_auth_str. rewrite find_byte_app by done.
  rewrite take_app_length. f_equal. change (x3a :: p) with ([x3a] ++ p). rewrite app_assoc. by rewrite drop_app_length' by (rewrite length_app; simpl; lia).
Qed.

Lemma read_line_fwd ahead limit line rest e o q : x0a ∉ line -> (length line < limit)%nat ->
  exists lost, (lost <= ahead)%nat /\
    read_line_buffered ahead limit (Conn (line ++ x0a :: rest) e o q) = (Ok (line ++ [x0a]), Conn (drop lost rest) e o q).
Proof.
  intros Hn Hl. unfold read_line_buffered. cbn [c_in set_in c_end c_out c_quota].
  assert (take limit (line ++ x0a :: rest) = line ++ x0a :: take (limit - length line - 1) rest) as ->.
  { rewrite take_app_ge by lia. destruct (limit - length line)%nat as [|n] eqn:En; [lia|]. cbn [take Nat.sub]. by rewrite Nat.sub_0_r. }
  rewrite find_byte_app by done. eexists. split; [apply (Nat.le_min_l ahead)|]. f_equal.
  - by rewrite take_app_add.
  - unfold set_in. cbn. f_equal. rewrite <- drop_drop. by rewrite drop_app_add.
Qed.

(** A line that was read, whatever was lost behind it. *)
Lemma read_line_ok ahead limit c line c' : read_line_buffered ahead limit c = (Ok line, c') ->
  c_out c' = c_out c /\ ((exists l rest, line = l ++ [x0a] /\ x0a ∉ l /\ c_in c = l ++ x0a :: rest) \/ x0a ∉ line).
Proof.
  unfold read_line_buffered. destruct (find_byte x0a _) as [i|] eqn:Ef.
  - intros [= <- <-]. split; [done|]. left. apply find_byte_Some in Ef as [Ef Hn]. set (t := take limit (c_in c)) in *.
    exists (take i t), (drop (S i) t ++ drop limit (c_in c)). split; [|split; [done|]].
    + rewrite Ef at 1. assert (i < length t)%nat as Hi. { apply (f_equal length) in Ef. rewrite length_app, length_take in Ef. simpl in Ef. lia. }
      replace (i + 1)%nat with (length (take i t) + 1)%nat by (rewrite length_take; lia). by rewrite take_app_add.
    + change (x0a :: ?x ++ ?y) with ((x0a :: x) ++ y). rewrite app_assoc, <- Ef. unfold t. by rewrite take_drop.
  - apply find_byte_None in Ef. destruct (_ <=? _)%nat eqn:El; [|destruct (c_end c)]; intros [= <- <-]; by eauto.
Qed.

Definition auth_line (u p : bytes) : bytes := u ++ x3a :: p ++ [x0a].

Definition same_credentials (u p eu ep : bytes) : bool := bool_decide (u = eu) && bool_decide (p = ep).

Lemma redact_line u p : validate_auth_field u = Ok tt -> redact_auth (u ++ x3a :: p) = u ++ str ":****".
Proof.
  intros Hu. unfold redact_auth. rewrite auth_line_split by done. unfold is_empty.
  rewrite (bool_decide_eq_false_2 (u ++ x3a :: p = [])) by (by destruct u). rewrite andb_false_r.
  unfold contains_byte. rewrite bool_decide_eq_true_2 by set_solver. done.
Qed.

Lemma server_handshake_fwd ahead u p eu ep rest e o :
  validate_auth_field u = Ok tt -> validate_auth_field p = Ok tt -> utf8_valid (u ++ x3a :: p) = true -> (length (u ++ x3a :: p) < MAX_AUTH_BYTES)%nat ->
  exists lost, (lost <= ahead)%nat /\
    server_auth_handshake ahead (Some eu) (Some ep) (Conn (auth_line u p ++ rest) e o None) =
      (if same_credentials u p eu ep then (Ok (u ++ str ":****"), Conn (drop lost rest) e (o ++ [HANDSHAKE_ACCEPT]) None)
       else (Err RvAuthFailed, Conn (drop lost rest) e (o ++ [HANDSHAKE_REJECT]) None)).
Proof.
  intros Hu Hp Hv Hl. assert (x0a ∉ u ++ x3a :: p) as Hn.
  { apply allowed_field in Hu as [_ Hu], Hp as [_ Hp]. rewrite elem_of_app, elem_of_cons. intros [?|[?|?]]; done. }
  destruct (read_line_fwd ahead MAX_AUTH_BYTES _ rest e o None Hn Hl) as (lost & Hlost & Hr). exists lost. split; [done|].
  assert (auth_line u p ++ rest = (u ++ x3a :: p) ++ x0a :: rest) as -> by (unfold auth_line; by rewrite <- !app_assoc; simpl; rewrite <- app_assoc).
  unfold server_auth_handshake. rewrite (mbind_fwd _ _ _ _ _ Hr).
  rewrite (not_empty (_ ++ [x0a])) by (by destruct (u ++ x3a :: p)).
  rewrite (proj2 (Nat.ltb_ge _ _)) by (rewrite length_app; simpl; lia).
  rewrite last_snoc, bool_decide_eq_true_2 by done. cbn [negb].
  rewrite length_app, Nat.add_sub, take_app_length, from_utf8_lossy_valid, auth_line_split by done.
  unfold same_credentials, ct_eq. destruct (bool_decide (u = eu)), (bool_decide (p = ep)); cbn [negb orb andb]; try done.
  unfold mbind, mret, write_handshake_accept. rewrite write_all_fwd. by rewrite redact_line.
Qed.

(** The two ends of a control channel agree.  A client with credentials that can be
    sent (no colon and no control character) and a server that expects some: the client
    sends one line, the server takes it exactly when the credentials are the ones it
    expects and answers with one byte, and the client takes that answer the same way.
    At most the [ahead] bytes that came with the line are lost behind it.  A client with
    other credentials sends nothing. *)
Theorem reverse_handshake_agrees ahead u p eu ep rest e o answer e' o' :
  utf8_valid (u ++ x3a :: p) = true -> (length (u ++ x3a :: p) < MAX_AUTH_BYTES)%nat ->
  let ok := same_credentials u p eu ep in
  let reply := if ok then HANDSHAKE_ACCEPT else HANDSHAKE_REJECT in
  if existsb forbidden u || existsb forbidden p then
    client_auth_handshake u p (Conn answer e' o' None) = (Err RvConfigInvalid, Conn answer e' o' None)
  else
    client_auth_handshake u p (Conn (reply :: answer) e' o' None) =
      (if ok then Ok tt else Err RvAuthFailed, Conn answer e' (o' ++ auth_line u p) None) /\
    exists lost, (lost <= ahead)%nat /\
      server_auth_handshake ahead (Some eu) (Some ep) (Conn (auth_line u p ++ rest) e o None) =
        (if ok then Ok (u ++ str ":****") else Err RvAuthFailed, Conn (drop lost rest) e (o ++ [reply]) None).
Proof.
  intros Hv Hl. cbv zeta. destruct (existsb forbidden u) eqn:Eu, (existsb forbidden p) eqn:Ep; cbn [orb].
  1-3: unfold client_auth_handshake, write_auth, validate_auth_field, mbind, mlift; by rewrite Eu, ?Ep.
  split.
  - unfold client_auth_handshake, write_auth, validate_auth_field, mbind, mlift. rewrite Eu, Ep, write_all_fwd. unfold flush, mret, read_handshake, mbind.
    by destruct (same_credentials u p eu ep).
  - destruct (server_handshake_fwd ahead u p eu ep rest e o) as (lost & Hlost & ->); [unfold validate_auth_field; by rewrite ?Eu, ?Ep..|done|done|].
    exists lost. split; [done|]. by destruct (same_credentials u p eu ep).
Qed.

Lemma reverse_handshake_agrees_witness :
  server_auth_handshake 0 (Some (str "bob")) (Some (str "pw")) (Conn (auth_line (str "bob") (str "pw")) None [] None)
  = (Ok (str "bob:****"), Conn [] None [HANDSHAKE_ACCEPT] None).
Proof.
  destruct (reverse_handshake_agrees 0 (str "bob") (str "pw") (str "bob") (str "pw") [] None [] [] None []) as [_ (lost & _ & H)];
    [by vm_compute|by apply Nat.ltb_lt; vm_compute|].
  rewrite app_nil_r, drop_nil in H. exact H.
Defined.

(** ** Properties of the server *)

Definition presents (user pass : bytes) (c : conn) : Prop :=
  exists line rest, c_in c = line ++ x0a :: rest /\ x0a ∉ line /\ parse_auth_str (from_utf8_lossy line) = (user, pass).

(** What a connection did to become a control channel. *)
Definition admitted (cfg : ReverseServerConfig) (i : incoming) : Prop :=
  (is_Some (vs_tls cfg) -> in_tls i = TlsDone) /\
  forall user pass, vs_auth_username cfg = Some user -> vs_auth_password cfg = Some pass -> presents user pass (in_conn i).

Definition genuine (cfg : ReverseServerConfig) (ctrl : ControlStream) : Prop := exists i, in_id i = cs_id ctrl /\ in_peer i = cs_peer_addr ctrl /\ admitted cfg i.

Lemma server_auth_sound ahead user pass c r c' : server_auth_handshake ahead (Some user) (Some pass) c = (Ok r, c') -> presents user pass c.
Proof.
  unfold server_auth_handshake. intros (buf & c1 & Hr & H)%mbind_ok.
  destruct (is_empty buf); [done|]. destruct (_ <? _)%nat; [done|].
  destruct (bool_decide (last buf = Some x0a)) eqn:El; [|done]. apply bool_decide_eq_true in El. cbn [negb] in H.
  apply read_line_ok in Hr as [_ [(l & rest & -> & Hn & Hc)|Hn]].
  - rewrite length_app, Nat.add_sub, take_app_length in H. apply mbind_ok in H as (? & ? & H & _).
    destruct (parse_auth_str (from_utf8_lossy l)) as [u p] eqn:Ep. unfold ct_eq in H.
    destruct (bool_decide (u = user)) eqn:E1, (bool_decide (p = pass)) eqn:E2; cbn in H.
    2-4: by apply mbind_ok in H as (? & ? & _ & H).
    apply bool_decide_eq_true in E1 as ->, E2 as ->. by exists l, rest.
  - destruct Hn. by apply last_Some_elem_of in El.
Qed.

Lemma control_stream_genuine cfg i ctrl : control_stream cfg i = Ok ctrl -> cs_id ctrl = in_id i /\ genuine cfg ctrl.
Proof.
  unfold control_stream. intros H.
  assert ((is_Some (vs_tls cfg) -> in_tls i = TlsDone) /\
    match vs_auth_username cfg, vs_auth_password cfg with
    | Some user, Some pass =>
        match server_auth_handshake (in_ahead i) (Some user) (Some pass) (in_conn i) with
        | (Ok redacted, c) => Ok {| cs_id := in_id i; cs_stream := c; cs_peer_addr := in_peer i; cs_redacted_auth := Some redacted |}
        | (Err e, _) => Err e
        | (Panic, _) => Panic
        end
    | _, _ =>
        match write_handshake_accept (in_conn i) with
        | (Ok _, c) => Ok {| cs_id := in_id i; cs_stream := c; cs_peer_addr := in_peer i; cs_redacted_auth := None |}
        | (Err e, _) => Err e
        | (Panic, _) => Panic
        end
    end = Ok ctrl) as [Htls Hm].
  { destruct (vs_tls cfg); [|split; [by intros [? ?]|done]]. destruct (in_tls i); [done..]. }
  clear H. unfold genuine, admitted.
  destruct (vs_auth_username cfg) as [u|], (vs_auth_password cfg) as [p|].
  1: destruct (server_auth_handshake _ _ _ _) as [[r|e|] c] eqn:Ea; [|done|done]; apply server_auth_sound in Ea; injection Hm as <-.
  2-4: destruct (write_handshake_accept _) as [[r|e|] c]; [|done|done]; injection Hm as <-.
  all: split; [done|]; exists i; split; [done|]; split; [done|]; split; [done|]; intros ? ? [= <-] [= <-]; done.
Qed.

Lemma fetch_add32_exact n k : 0 <= n + k < U32 -> fetch_add32 n k = n + k.
Proof. apply Z.mod_small. Qed.

Definition waiting_count (s : server) : nat := match rv_waiting s with Some _ => 1 | None => 0 end.

(** The control connections that are not yet authenticated. *)
Definition arrived (s : server) : list incoming := match rv_arrived s with Some (i, _) => [i] | None => [] end.
Definition opening (s : server) : list incoming := arrived s ++ rv_handshaking s.

(** Limits below the range of the counters, by one for the connection under check. *)
Record limits_wf (cfg : ReverseServerConfig) : Prop := {
  lw_control : 0 <= vs_max_control_connections cfg < U32 - 1;
  lw_streams : 0 <= vs_max_streams_per_listener cfg < U32
}.

Record server_ok (cfg : ReverseServerConfig) (s : server) : Prop := {
  so_control : rv_receiving s = true -> active_control (rv_state s) = Z.of_nat (length (opening s) + length (rv_queue s));
  so_control_max : rv_receiving s = true ->
    match rv_arrived s with
    | Some (_, prev) => active_control (rv_state s) <= prev + 1 /\ prev <= vs_max_control_connections cfg
    | None => active_control (rv_state s) <= vs_max_control_connections cfg
    end;
  so_streams : rv_receiving s = true -> active_streams (rv_state s) = Z.of_nat (waiting_count s + length (rv_relays s));
  so_streams_max : rv_receiving s = true -> active_streams (rv_state s) <= vs_max_streams_per_listener cfg;
  so_pending : pending_external (rv_state s) = Z.of_nat (waiting_count s);
  so_never_pending : 1 <= vs_max_pending_external cfg -> dropped_pending_limit (rv_state s) = 0;
  so_queue : (length (rv_queue s) <= CONTROL_CHANNEL)%nat;
  so_genuine : Forall (genuine cfg) (rv_queue s ++ (rv_relays s).*2);
  so_ids : NoDup (map in_id (opening s) ++ map cs_id (rv_queue s) ++ (rv_log s).*2);
  so_next : Forall (fun n => n < rv_next s)%nat (map in_id (opening s) ++ map cs_id (rv_queue s) ++ (rv_log s).*2);
  so_logged : Forall (fun x => (x.1, cs_id x.2) ∈ rv_log s) (rv_relays s);
  so_stopped : rv_receiving s = false -> rv_queue s = [] /\ rv_relays s = [] /\ rv_waiting s = None
}.

Lemma server_new_ok cfg : limits_wf cfg -> server_ok cfg server_new.
Proof. intros [? ?]. split; cbn; intros; first [done|lia|apply Nat.le_0_l|constructor]. Qed.


(** The lists of numbers of an invariant state, seen from its parts. *)
Ltac open_ok H := destruct H as [Hc Hcm Hs Hsm Hp Hd Hq Hg Hi Hn Hl Hx].

(** A connection less is counted. *)
Lemma control_dec cfg s : limits_wf cfg -> server_ok cfg s -> rv_receiving s = true -> 0 < active_control (rv_state s) ->
  fetch_add32 (active_control (rv_state s)) (-1) = active_control (rv_state s) - 1 /\
  match rv_arrived s with
  | Some (_, prev) => active_control (rv_state s) - 1 <= prev + 1 /\ prev <= vs_max_control_connections cfg
  | None => active_control (rv_state s) - 1 <= vs_max_control_connections cfg
  end.
Proof.
  intros [Hwc _] H Hr Hpos. open_ok H. specialize (Hcm Hr). split; [apply fetch_add32_exact|]; destruct (rv_arrived s) as [[? ?]|]; lia.
Qed.

Lemma control_accept_ok cfg i s : limits_wf cfg -> server_ok cfg s -> rv_arrived s = None -> in_id i = rv_next s -> server_ok cfg (on_control_accept i s).
Proof.
  intros [Hwc _] H Ha Hid. open_ok H. unfold opening, arrived in Hc, Hi, Hn. rewrite Ha in *. cbn [app] in *.
  split; unfold opening, arrived; cbn; try done.
  - intros Hr. rewrite fetch_add32_exact, (Hc Hr); [lia|]. specialize (Hc Hr). specialize (Hcm Hr). lia.
  - intros Hr. rewrite fetch_add32_exact; [by split; [|apply Hcm]|]. specialize (Hc Hr). specialize (Hcm Hr). lia.
  - rewrite Hid. apply NoDup_cons. split; [|done]. intros Hin. rewrite Forall_forall in Hn. apply Hn in Hin. lia.
  - rewrite Hid. apply Forall_cons. split; [lia|]. eapply Forall_impl; [exact Hn|]. cbn. lia.
Qed.

Lemma control_checked_ok cfg i prev s : limits_wf cfg -> server_ok cfg s -> rv_arrived s = Some (i, prev) -> server_ok cfg (on_control_checked cfg i prev s).
Proof.
  intros Hw H Ha. pose proof (control_dec cfg s Hw H) as Hdec. open_ok H. unfold opening, arrived in Hc, Hi, Hn. rewrite Ha in *. cbn [app map length Nat.add] in *.
  unfold on_control_checked. destruct (Z.leb_spec (vs_max_control_connections cfg) prev) as [E|E]; split; unfold opening, arrived; cbn; try done.
  - intros Hr. specialize (Hc Hr). destruct (Hdec Hr) as [-> _]; lia.
  - intros Hr. specialize (Hc Hr). destruct (Hcm Hr) as [? ?]. destruct (Hdec Hr) as [-> _]; lia.
  - by apply NoDup_cons in Hi as [_ Hi].
  - by apply Forall_cons in Hn as [_ Hn].
  - intros Hr. destruct (Hcm Hr) as [? ?]. lia.
Qed.

Lemma ids_snoc (a : list nat) q ctrl log : a ++ map cs_id (q ++ [ctrl]) ++ log ≡ₚ cs_id ctrl :: a ++ map cs_id q ++ log.
Proof. rewrite map_app, <- app_assoc. cbn. by rewrite <- !Permutation_middle. Qed.

Lemma control_done_ok cfg l i r s : limits_wf cfg -> server_ok cfg s -> rv_handshaking s = l ++ i :: r -> server_ok cfg (on_control_done cfg i (l ++ r) s).
Proof.
  intros Hw H Eh. pose proof (control_dec cfg s Hw H) as Hdec. open_ok H.
  assert (opening s ≡ₚ i :: arrived s ++ l ++ r) as Hop by (unfold opening; rewrite Eh; by rewrite <- !Permutation_middle).
  assert (length (opening s) = S (length (arrived s ++ l ++ r))) as Hlen by (by rewrite Hop).
  assert (map in_id (opening s) ≡ₚ in_id i :: map in_id (arrived s ++ l ++ r)) as Hperm by by rewrite Hop.
  rewrite Hperm in Hi, Hn. cbn [app] in Hi, Hn. apply NoDup_cons in Hi as [Hfresh Hi]. apply Forall_cons in Hn as [Hlt Hn].
  assert (server_ok cfg (with_tasks s (add_control (-1) (rv_state s)) (l ++ r) (rv_queue s))) as Hdrop.
  { split; cbn; try done; intros Hr; specialize (Hc Hr); destruct (Hdec Hr) as [-> Hb]; unfold opening, arrived in *; cbn in *; try lia; done. }
  unfold on_control_done. destruct (control_stream cfg i) as [ctrl|e|] eqn:Ec; [|done|done].
  destruct (rv_receiving s && _) eqn:Eb; [|done]. apply andb_true_iff in Eb as [Er Eq%Nat.ltb_lt].
  apply control_stream_genuine in Ec as [Eid Hgen]. split; cbn; try done.
  - intros Hr. rewrite (Hc Hr), (length_app (rv_queue s)), Hlen. unfold opening, arrived. cbn. lia.
  - rewrite length_app. cbn. lia.
  - rewrite <- app_assoc. cbn. rewrite <- Permutation_middle. by apply Forall_cons.
  - rewrite ids_snoc, Eid. by apply NoDup_cons.
  - rewrite ids_snoc, Eid. by apply Forall_cons.
  - by rewrite Er.
Qed.

Lemma external_accept_ok cfg ext s : limits_wf cfg -> server_ok cfg s -> rv_receiving s = true -> rv_waiting s = None -> server_ok cfg (on_external_accept cfg ext s).
Proof.
  intros [_ Hws] H Hr Hw. open_ok H. specialize (Hs Hr). unfold waiting_count in *. rewrite Hw in *.
  unfold on_external_accept. destruct (_ <? _) eqn:E; [apply Z.ltb_lt in E; destruct (_ <? vs_max_pending_external cfg) eqn:E2|].
  - split; unfold waiting_count; cbn; try done; try (intros _; rewrite fetch_add32_exact; lia). by rewrite Hp. by rewrite Hr.
  - apply Z.ltb_ge in E2. cbn in E2. split; unfold waiting_count; cbn; rewrite ?Hw; try done.
    1-2: intros _; rewrite (fetch_add32_exact _ 1), fetch_add32_exact; lia.
    lia.
  - split; unfold waiting_count; cbn; rewrite ?Hw; try done.
Qed.

Lemma pair_ok cfg ext ctrl q s : limits_wf cfg -> server_ok cfg s -> rv_waiting s = Some ext -> rv_queue s = ctrl :: q -> server_ok cfg (on_control_received ext ctrl q s).
Proof.
  intros Hwf H Hw Eq. pose proof (control_dec cfg s Hwf H) as Hdec. open_ok H. unfold waiting_count in *. rewrite Hw in *. rewrite Eq in *. cbn in Hc, Hq, Hg, Hi, Hn.
  split; unfold waiting_count; cbn; try done.
  - intros Hr. specialize (Hc Hr). destruct (Hdec Hr) as [-> _]; unfold opening, arrived in *; cbn in *; lia.
  - intros Hr. specialize (Hc Hr). destruct (Hdec Hr) as [-> Hb]; [lia|done].
  - intros Hr. rewrite length_app, (Hs Hr). cbn. lia.
  - by rewrite Hp.
  - lia.
  - rewrite fmap_app. cbn. rewrite app_assoc, <- Permutation_cons_append. done.
  - rewrite fmap_app. cbn. by rewrite !app_assoc, <- Permutation_cons_append, <- app_assoc, Permutation_middle.
  - rewrite fmap_app. cbn. by rewrite !app_assoc, <- Permutation_cons_append, <- app_assoc, Permutation_middle.
  - apply Forall_app. split; [|repeat constructor; set_solver]. eapply Forall_impl; [exact Hl|]. cbn. intros x. rewrite elem_of_app. by left.
  - intros Hr. by destruct (Hx Hr).
Qed.

Lemma relay_end_ok cfg l x r s : limits_wf cfg -> server_ok cfg s -> rv_relays s = l ++ x :: r -> server_ok cfg (on_relay_end (l ++ r) s).
Proof.
  intros [_ Hws] H Er. open_ok H. assert (length (rv_relays s) = S (length (l ++ r))) as Hlen by (rewrite Er, !length_app; cbn; lia).
  rewrite Er in Hg, Hl. rewrite <- Permutation_middle in Hl. apply Forall_cons in Hl as [_ Hl].
  rewrite fmap_app in Hg. cbn in Hg. rewrite app_assoc, <- Permutation_middle, <- app_assoc in Hg. apply Forall_cons in Hg as [_ Hg].
  split; unfold waiting_count in *; cbn; try done; try (intros Hr; specialize (Hs Hr); specialize (Hsm Hr); rewrite fetch_add32_exact; lia).
  - by rewrite fmap_app.
  - intros Hr. destruct (Hx Hr) as (_ & Hnil & _). by destruct l; rewrite Hnil in Er.
Qed.

Lemma drained_ok cfg ctrl q s : limits_wf cfg -> server_ok cfg s -> rv_queue s = ctrl :: q -> server_ok cfg (on_control_drained q s).
Proof.
  intros Hwf H Eq. pose proof (control_dec cfg s Hwf H) as Hdec. open_ok H. rewrite Eq in *. cbn in Hc, Hq, Hg, Hi, Hn. rewrite <- Permutation_middle in Hi, Hn.
  apply NoDup_cons in Hi as [_ Hi]. apply Forall_cons in Hn as [_ Hn], Hg as [_ Hg].
  split; unfold waiting_count in *; cbn; try done; try lia.
  1: intros Hr; specialize (Hc Hr); destruct (Hdec Hr) as [-> _]; unfold opening, arrived in *; cbn in *; lia.
  1: intros Hr; specialize (Hc Hr); destruct (Hdec Hr) as [-> Hb]; [lia|done].
  intros Hr. by destruct (Hx Hr).
Qed.

Lemma stop_ok cfg s : server_ok cfg s -> server_ok cfg (on_external_stop s).
Proof.
  intros H. open_ok H. unfold waiting_count in *. split; unfold waiting_count; cbn; try done; try lia.
  - destruct (rv_waiting s); cbn; [|done]. by rewrite Hp.
  - by destruct (rv_waiting s).
  - eapply NoDup_app in Hi as (H1 & H2 & H3). apply NoDup_app in H3 as (_ & H4 & H5). apply NoDup_app. split; [done|]. split; [|done].
    intros n Hin Hin2. apply (H2 _ Hin). set_solver.
  - rewrite !Forall_app in Hn. apply Forall_app. tauto.
Qed.

Lemma server_step_ok cfg s s' : limits_wf cfg -> server_step cfg s s' -> server_ok cfg s -> server_ok cfg s'.
Proof.
  intros Hw Hstep Hok. destruct Hstep.
  - by apply control_accept_ok.
  - by apply control_checked_ok.
  - by apply control_done_ok.
  - by apply external_accept_ok.
  - by apply pair_ok.
  - by eapply relay_end_ok.
  - by eapply drained_ok.
  - open_ok Hok. by split.
  - open_ok Hok. by split.
  - by apply stop_ok.
Qed.

Lemma server_reachable_ok cfg s : limits_wf cfg -> rtc (server_step cfg) server_new s -> server_ok cfg s.
Proof. intros Hw. apply (rtc_ind_r (server_ok cfg)); [by apply server_new_ok|]. intros ? ? _ Hstep. by apply server_step_ok. Qed.

(** C39. A reverse server in every state its tasks can reach.  While it serves (until its
    external task stops), its counters are exact: the control connections that were
    accepted and are checked, authenticate or are queued, and the external clients that
    wait or are relayed.  The streams are within their limit, and so are the control
    connections past the check; the one under check is counted on top of them for a
    moment.  Control connections that are relayed are not counted any more.  At most one
    client waits at a time, so the limit on waiting clients drops nobody.  A control
    connection is used for one session at most; one that is queued or relayed went
    through the TLS handshake when TLS is configured, and presented the configured
    credentials when both user name and password are configured. *)
Theorem reverse_server_sound cfg s :
  limits_wf cfg -> rtc (server_step cfg) server_new s ->
  (rv_receiving s = true ->
     active_control (rv_state s) = Z.of_nat (length (arrived s) + length (rv_handshaking s) + length (rv_queue s)) /\
     Z.of_nat (length (rv_handshaking s) + length (rv_queue s)) <= vs_max_control_connections cfg /\
     active_streams (rv_state s) = Z.of_nat (waiting_count s + length (rv_relays s)) /\ active_streams (rv_state s) <= vs_max_streams_per_listener cfg) /\
  pending_external (rv_state s) <= 1 /\ (1 <= vs_max_pending_external cfg -> dropped_pending_limit (rv_state s) = 0) /\
  NoDup (rv_log s).*2 /\ (forall i, i ∈ rv_handshaking s -> in_id i ∉ (rv_log s).*2) /\ (forall c, c ∈ rv_queue s -> cs_id c ∉ (rv_log s).*2) /\
  (forall ext c, (ext, c) ∈ rv_relays s -> (ext, cs_id c) ∈ rv_log s) /\
  (forall c, c ∈ rv_queue s ++ (rv_relays s).*2 -> genuine cfg c) /\
  (rv_receiving s = false -> rv_queue s = [] /\ rv_relays s = [] /\ rv_waiting s = None).
Proof.
  intros Hw Hr. pose proof (server_reachable_ok _ _ Hw Hr) as H. open_ok H.
  apply NoDup_app in Hi as (_ & Hih & Hi). apply NoDup_app in Hi as (_ & Hiq & Hi).
  split.
  { intros Hrec. specialize (Hc Hrec). specialize (Hcm Hrec). unfold opening in Hc. rewrite length_app in Hc. split; [done|]. split; [|auto].
    unfold arrived in Hc. destruct (rv_arrived s) as [[i prev]|]; cbn in Hc; lia. }
  split; [rewrite Hp; unfold waiting_count; destruct (rv_waiting s); cbn; lia|]. split; [done|]. split; [done|].
  split; [intros i Hin Hlog; apply (Hih (in_id i)); [apply (list_elem_of_fmap_2 in_id); unfold opening; set_solver|set_solver]|].
  split; [intros c Hin; by apply Hiq, (list_elem_of_fmap_2 cs_id)|].
  rewrite Forall_forall in Hl. rewrite Forall_forall in Hg. split; [intros ext c Hin; exact (Hl (ext, c) Hin)|]. split; [exact Hg|done].
Qed.

Definition example_server : ReverseServerConfig :=
  {| vs_control_bind := {| sa_ip := V4 [x7f; x00; x00; x01]; sa_port := 8000 |}; vs_external_bind := Some {| sa_ip := V4 [x7f; x00; x00; x01]; sa_port := 8001 |};
     vs_auth_username := Some (str "bob"); vs_auth_password := Some (str "pw"); vs_max_control_connections := 2; vs_read_timeout_ms := 0; vs_allow_bind := None;
     vs_max_listeners_per_client := 1; vs_max_streams_per_listener := 4; vs_max_pending_external := 1; vs_tls := None |}.

Definition example_worker : incoming :=
  {| in_id := 0; in_peer := {| sa_ip := V4 [x0a; x00; x00; x02]; sa_port := 50000 |}; in_tls := TlsDone; in_conn := Conn (str "bob:pw" ++ [x0a]) None [] None; in_ahead := 0 |}.

(** A worker connects, a client arrives, and the two are paired. *)
Lemma reverse_server_sound_witness :
  exists s, rtc (server_step example_server) server_new s /\ rv_log s = [(7%nat, 0%nat)] /\ active_streams (rv_state s) = 1 /\
    (forall c, c ∈ rv_queue s ++ (rv_relays s).*2 -> genuine example_server c).
Proof.
  set (s0 := on_control_accept example_worker server_new). set (s1 := on_control_checked example_server example_worker 0 s0). set (s2 := on_control_done example_server example_worker [] s1).
  set (s3 := on_external_accept example_server 7 s2). set (ctrl := {| cs_id := 0; cs_stream := Conn [] None [x01] None; cs_peer_addr := in_peer example_worker; cs_redacted_auth := Some (str "bob:****") |}).
  exists (on_control_received 7 ctrl [] s3).
  assert (rtc (server_step example_server) server_new (on_control_received 7 ctrl [] s3)) as Hr.
  { eapply rtc_l; [by apply (SAcceptControl _ _ example_worker)|]. eapply rtc_l; [by apply (SCheckControl _ s0 example_worker 0)|]. eapply rtc_l; [by apply (SControlDone _ _ [] example_worker [])|].
    eapply rtc_l; [by apply (SAcceptExternal _ _ 7); [eexists| |]|]. apply rtc_once. by apply SPair; vm_compute. }
  split; [done|]. split; [done|]. split; [done|]. apply (reverse_server_sound example_server); [by split; vm_compute|done].
Defined.

(** ** Properties of the client *)

(** The pauses of [n] failures in a row, from the pause [b]. *)
Fixpoint doubling (maximum b : Z) (n : nat) : list Z :=
  match n with O => [] | S n => b :: doubling maximum (Z.min (b * 2) maximum) n end.

Definition failed (t : turn) : Prop := (forall u, tn_session t <> Ok u) /\ tn_cancelled t = false /\ tn_cancelled_asleep t = false.

Lemma client_failures cfg ts s :
  Forall failed ts -> cl_running s = true -> 0 <= cl_backoff_ms s -> 0 <= vc_reconnect_max_ms cfg -> 2 * Z.max (cl_backoff_ms s) (vc_reconnect_max_ms cfg) < 2 ^ 64 ->
  let s' := client_run cfg ts s in
  cl_running s' = true /\ cl_pauses s' = cl_pauses s ++ doubling (vc_reconnect_max_ms cfg) (cl_backoff_ms s) (length ts).
Proof.
  intros Hf. revert s. induction Hf as [|t ts (Hn & Hc & Ha) _ IH]; intros s Hr Hb Hm Hs; cbn [client_run length doubling]; [by rewrite app_nil_r|].
  rewrite Hr. assert (client_turn cfg t s = {| cl_backoff_ms := Z.min (cl_backoff_ms s * 2) (vc_reconnect_max_ms cfg); cl_pauses := cl_pauses s ++ [cl_backoff_ms s]; cl_running := true |}) as ->.
  { unfold client_turn. rewrite Hc, Ha. rewrite Z.mod_small by lia. destruct (tn_session t) as [u| |]; [by destruct (Hn u)|done|done]. }
  match goal with |- context [client_run cfg ts ?x] => destruct (IH x) as [-> ->] end; cbn; [done|lia..|]. split; [done|]. by rewrite <- app_assoc.
Qed.

Lemma doubling_nth maximum b n k : 0 <= b -> 0 <= maximum -> (k < n)%nat ->
  doubling maximum b n !! k = Some (match k with O => b | S _ => Z.min (b * 2 ^ Z.of_nat k) maximum end).
Proof.
  revert b k. induction n as [|n IH]; intros b k Hb Hm Hk; [lia|]. destruct k as [|k]; [done|]. cbn [doubling lookup list_lookup].
  rewrite (IH _ k) by lia. f_equal. destruct k as [|k]; [done|].
  rewrite (Nat2Z.inj_succ (S k)), Z.pow_succ_r by lia. assert (0 < 2 ^ Z.of_nat (S k)) by (apply Z.pow_pos_nonneg; lia).
  generalize dependent (2 ^ Z.of_nat (S k)). intros x Hx. destruct (Z.min_spec (b * 2) maximum) as [[? ->]|[? ->]]; nia.
Qed.

(** Reconnecting: after a session that ended well, or at the start, the client tries again
    at once; the pauses between failures double from the first to the configured
    maximum. *)
Lemma client_backoff cfg ts k :
  Forall failed ts -> 0 <= vc_reconnect_initial_ms cfg -> 0 <= vc_reconnect_max_ms cfg ->
  2 * Z.max (vc_reconnect_initial_ms cfg) (vc_reconnect_max_ms cfg) < 2 ^ 64 -> (k < length ts)%nat ->
  cl_pauses (client_run cfg ts (client_start cfg)) !! k =
    Some (match k with O => vc_reconnect_initial_ms cfg | S _ => Z.min (vc_reconnect_initial_ms cfg * 2 ^ Z.of_nat k) (vc_reconnect_max_ms cfg) end).
Proof.
  intros Hf Hi Hm Hs Hk. destruct (client_failures cfg ts (client_start cfg)) as [_ Hp]; [done..|]. rewrite Hp. cbn. by apply doubling_nth.
Qed.

(** A session that ends well resets the pause, whatever the relay did: a server that
    closes every channel at once is dialled again without a pause. *)
Lemma client_session_resets cfg s t : tn_session t = Ok tt -> tn_cancelled t = false -> cl_running s = true ->
  client_turn cfg t s = {| cl_backoff_ms := vc_reconnect_initial_ms cfg; cl_pauses := cl_pauses s; cl_running := true |}.
Proof. intros Hs Hc _. unfold client_turn. by rewrite Hs, Hc. Qed.

(** Everything a session does: the only server it dials, its credentials only after the
    TLS handshake, and the only target it dials, the one the resolver names, after the
    server accepted. *)
Lemma run_session_effects {A} `{!TargetResolver A} cfg (resolver : A) w :
  let '(res, fx) := run_session cfg resolver w in
  (forall a, EfConnect a ∈ fx -> a = vc_server_addr cfg) /\
  (forall t, EfTarget t ∈ fx -> exists host port, resolve resolver = TrConnect host port /\ t = host ++ x3a :: to_dec port) /\
  (forall d, EfSent d ∈ fx -> forall t, vc_tls cfg = Some t -> EfTls (vct_server_name t) ∈ fx /\ sw_tls w = TlsDone) /\
  (res = Ok tt <-> exists c, EfRelay c ∈ fx) /\ (resolve resolver = TrReject -> forall u, res <> Ok u).
Proof.
  unfold run_session. destruct (sw_dial w); [|split_and!; set_solver..].
  destruct (vc_tls cfg) as [t|] eqn:Et; [destruct (sw_tls w) eqn:Ew|]; [|split_and!; set_solver..|].
  all: destruct (match vc_auth_username cfg, vc_auth_password cfg with Some u, Some p => _ | _, _ => _ end) as [[[]|e|] c]; [|split_and!; set_solver..].
  all: destruct (resolve resolver) as [host port|] eqn:Er; [|split_and!; set_solver].
  all: destruct (sw_target w _); split_and!; set_solver.
Qed.
