(* ===== verification/ReverseCompat.v ===== *)
(** * pproxy backward links

    Models [crates/eggress-protocol-reverse/src/compat_pproxy.rs]: the worker that opens
    a channel to a remote listener, directly or through jumps, and serves it, and the
    listener that pairs channels with external clients.

    A channel is a [conn]: what its peer sends.  What is lost when more bytes arrive with
    the answer of an HTTP jump depends on the sizes of the reads, an argument.  Dials
    and timeouts are answers of the network. *)

From S2P Require Import Prelude Bytes Decimal Stream NetAddr Connector HttpText Uri Trojan Reverse.
Local Open Scope Z_scope.

Inductive PproxyBackwardFraming := FrRaw | FrSocks5.

Record PproxyBackwardClientConfig := {
  bc_server_addr : SocketAddr; bc_server_chain : option ProxyChainSpec; bc_auth : bytes; bc_reconnect_initial_ms : Z; bc_reconnect_max_ms : Z;
  bc_read_timeout_ms : Z; bc_target_connect_timeout_ms : Z; bc_server_framing : PproxyBackwardFraming
}.

Record PproxyBackwardServerConfig := {
  bs_control_bind : SocketAddr; bs_external_bind : SocketAddr; bs_auth : bytes; bs_max_control_connections : nat; bs_max_pending_external : nat;
  bs_read_timeout_ms : Z; bs_socks5_target : option (bytes * Z); bs_client_framing : PproxyBackwardFraming
}.

Definition raw_auth (username password : option bytes) : bytes :=
  match username, password with
  | Some user, Some pass => user ++ x3a :: pass
  | Some user, None => user
  | None, Some pass => pass
  | None, None => []
  end.

(** ** Base64 *)

Definition TABLE : bytes := str "ABCDEFGHIJKLMNOPQRSTUVWXYZabcdefghijklmnopqrstuvwxyz0123456789+/".
Definition sextet (i : Z) : byte := nth (Z.to_nat i) TABLE x00.

Definition sextet_1 (a : byte) : Z := Z.shiftr (b2Z a) 2.
Definition sextet_2 (a b : byte) : Z := Z.land (Z.lor (Z.land (Z.shiftl (b2Z a) 4) 255) (Z.shiftr (b2Z b) 4)) 63.
Definition sextet_3 (b c : byte) : Z := Z.land (Z.lor (Z.land (Z.shiftl (b2Z b) 2) 255) (Z.shiftr (b2Z c) 6)) 63.
Definition sextet_4 (c : byte) : Z := Z.land (b2Z c) 63.

Fixpoint base64_encode (input : bytes) : bytes :=
  match input with
  | [] => []
  | [a] => [sextet (sextet_1 a); sextet (sextet_2 a x00); x3d; x3d]
  | [a; b] => [sextet (sextet_1 a); sextet (sextet_2 a b); sextet (sextet_3 b x00); x3d]
  | a :: b :: c :: rest => sextet (sextet_1 a) :: sextet (sextet_2 a b) :: sextet (sextet_3 b c) :: sextet (sextet_4 c) :: base64_encode rest
  end.

(** ** Jumps *)

Definition encode_socks_address (target : TargetAddr) : outcome ProtocolError bytes :=
  match host target with
  | Ip (V4 o) => Ok (x01 :: o ++ u16_to_be (tport target))
  | Ip (V6 o) => Ok (x04 :: o ++ u16_to_be (tport target))
  | DomainName d => if (255 <? length d)%nat then Err RvConfigInvalid else Ok (x03 :: Z2b (Z.of_nat (length d)) :: d ++ u16_to_be (tport target))
  end.

(** [output.windows(4).position(..)] from [scan_start]. *)
Fixpoint find_head_end (s : bytes) : option nat :=
  match s with
  | [] => None
  | _ :: r => if starts_with [x0d; x0a; x0d; x0a] s then Some 0%nat else S <$> find_head_end r
  end.

Definition JUMP_HEAD_MAX : nat := Z.to_nat 16384.

(** [sizes] are the bytes the reads deliver, at most 1024 each; a read of an open stream
    delivers at least one. *)
Fixpoint read_until_headers (turns : nat) (sizes : list nat) (output : bytes) : RM bytes := fun c =>
  match turns with
  | O => (Err RvConfigInvalid, c)
  | S turns =>
      if (JUMP_HEAD_MAX <=? length output)%nat then (Err RvConfigInvalid, c) else
      match c_in c with
      | [] => match c_end c with None => (Err RvConnectionClosed, c) | Some e => (Err (RvIo e), c) end
      | _ =>
          let n := Nat.max 1 (Nat.min (default 1024%nat (head sizes)) 1024) in
          let chunk := take n (c_in c) in
          let c := set_in c (drop n (c_in c)) in
          let scan_start := (length output - 3)%nat in
          let output := output ++ chunk in
          match find_head_end (drop scan_start output) with
          | Some index => (Ok (take (scan_start + index + 4) output), c)
          | None => read_until_headers turns (tail sizes) output c
          end
      end
  end.

Definition jump_request (credentials : option CredentialSpec) (target : TargetAddr) : bytes :=
  let authority := fmt_target_addr target in
  str "CONNECT " ++ authority ++ str " HTTP/1.1" ++ CRLF ++ str "Host: " ++ authority ++ CRLF ++ str "Connection: keep-alive" ++ CRLF ++
  match credentials with
  | Some c => str "Proxy-Authorization: Basic " ++ base64_encode (username c ++ x3a :: password c) ++ CRLF
  | None => []
  end ++ CRLF.

Definition jump_status (response : bytes) : option Z :=
  match split_on x20 response with
  | _ :: code :: _ => if utf8_valid code then parse_u16 code else None
  | _ => None
  end.

(** The tail of a SOCKS5 reply: the bound address and port. *)
Definition discard_reply (atyp : byte) : RM unit :=
  let! n := (if atyp =b x01 then mret 6%nat else if atyp =b x04 then mret 18%nat
             else if atyp =b x03 then let! l := read_u8 in mret (Z.to_nat (b2Z l) + 2)%nat else mthrow RvConfigInvalid) in
  let! _ := read_exact n in
  mret tt.

Definition jump_socks5 (credentials : option CredentialSpec) (target : TargetAddr) : RM unit :=
  write_all (match credentials with Some _ => [x05; x01; x02] | None => [x05; x01; x00] end) ;;
  let! version := read_u8 in
  let! method := read_u8 in
  if negb (version =b x05) || (method =b xff) then mthrow RvConfigInvalid else
  (if method =b x02 then
     match credentials with
     | None => mthrow RvConfigInvalid
     | Some c =>
         let user := username c in
         let pass := password c in
         if ((255 <? length user) || (255 <? length pass))%nat then mthrow RvConfigInvalid else
         write_all [x01; Z2b (Z.of_nat (length user))] ;;
         write_all user ;;
         write_all [Z2b (Z.of_nat (length pass))] ;;
         write_all pass ;;
         let! auth_reply := read_exact 2 in
         if bool_decide (auth_reply = [x01; x00]) then mret tt else mthrow RvAuthFailed
     end
   else mret tt) ;;
  let! address := mlift (encode_socks_address target) in
  write_all [x05; x01; x00] ;;
  write_all address ;;
  let! reply := read_exact 4 in
  if negb (bool_decide (nth 1 reply x00 = x00)) then mthrow RvConfigInvalid else
  discard_reply (nth 3 reply x00).

Definition connect_jump (sizes : list nat) (hop : ProxyHopSpec) (target : TargetAddr) : RM unit :=
  match protocols hop with
  | [SHttp] | [SHttpOnly] =>
      write_all (jump_request (credentials hop) target) ;;
      let! response := read_until_headers (S JUMP_HEAD_MAX) sizes [] in
      if bool_decide (jump_status response = Some 200) then mret tt else mthrow RvConfigInvalid
  | [SSocks5] => jump_socks5 (credentials hop) target
  | _ => mthrow RvConfigInvalid
  end.

(** The address a jump is asked for. *)
Definition endpoint_target (e : EndpointSpec) : TargetAddr :=
  {| host := match parse_ip (ep_host e) with Some ip => Ip ip | None => DomainName (ep_host e) end; tport := ep_port e |}.

(** The hops from the last, each asked for the one before it. *)
Fixpoint run_jumps (sizes : list nat) (hops_rev : list ProxyHopSpec) : RM unit :=
  match hops_rev with
  | jump :: ((next :: _) as rest) => connect_jump sizes jump (endpoint_target (endpoint next)) ;; run_jumps sizes rest
  | _ => mret tt
  end.

(** Where the worker dials, and the handshakes that follow. *)
Inductive control_path := CpDirect (a : SocketAddr) | CpJumps (e : EndpointSpec) (hops_rev : list ProxyHopSpec).

Definition control_path_of (cfg : PproxyBackwardClientConfig) : outcome ProtocolError control_path :=
  match bc_server_chain cfg with
  | None => Ok (CpDirect (bc_server_addr cfg))
  | Some chain =>
      if (length (hops chain) <=? 1)%nat then Ok (CpDirect (bc_server_addr cfg))
      else if existsb tls (hops chain) then Err RvConfigInvalid
      else match rev (hops chain) with
           | last_hop :: _ => Ok (CpJumps (endpoint last_hop) (rev (hops chain)))
           | [] => Err RvConfigInvalid
           end
  end.

Definition dial_result (a : dial_answer) : outcome ProtocolError unit :=
  match a with Dialled => Ok tt | DialFailed e => Err (RvIo e) | _ => Err (RvIo IoTimedOut) end.

Definition connect_control (sizes : list nat) (cfg : PproxyBackwardClientConfig) (dial : control_path -> dial_answer) : RM unit :=
  let! p := mlift (control_path_of cfg) in
  mlift (dial_result (dial p)) ;;
  match p with CpDirect _ => mret tt | CpJumps _ hops_rev => run_jumps sizes hops_rev end.

(** ** The worker *)

(** The SOCKS5 request the worker takes from the listener. *)
Definition worker_request : RM (bytes * Z) :=
  let! header := read_exact 2 in
  if negb (nth 0 header x00 =b x05) then mthrow RvConfigInvalid else
  let! methods := read_exact (b2n (nth 1 header x00)) in
  if negb (contains_byte x00 methods) then write_all [x05; xff] ;; flush ;; mthrow RvAuthFailed else
  write_all [x05; x00] ;;
  flush ;;
  let! req := read_exact 4 in
  if negb (nth 0 req x00 =b x05) || negb (nth 1 req x00 =b x01) then mthrow RvConfigInvalid else
  if negb (nth 2 req x00 =b x00) then mthrow RvConfigInvalid else
  let atyp := nth 3 req x00 in
  let! h :=
    (if atyp =b x01 then let! addr := read_exact 4 in mret (fmt_ip (V4 addr))
     else if atyp =b x03 then
       let! len := read_u8 in
       if (b2n len =? 0)%nat then mthrow RvConfigInvalid else
       let! domain := read_exact (b2n len) in
       if utf8_valid domain then mret domain else mthrow RvConfigInvalid
     else if atyp =b x04 then let! addr := read_exact 16 in mret (fmt_ip (V6 addr))
     else write_all ([x05; x08; x00; x01] ++ replicate 6 x00) ;; flush ;; mthrow RvConfigInvalid) in
  let! port := read_u16 in
  mret (h, port).

(** What a worker does with a channel: the targets it dials, and whether it relays. *)
Record worker_run := { wr_dialled : option (bytes * Z); wr_relays : bool; wr_result : outcome ProtocolError unit; wr_conn : conn }.

Definition no_run (c : conn) (e : outcome ProtocolError unit) : worker_run := {| wr_dialled := None; wr_relays := false; wr_result := e; wr_conn := c |}.

Definition run_connection_socks5 (dial : bytes * Z -> dial_answer) (c : conn) : worker_run :=
  match worker_request c with
  | (Ok target, c) =>
      match dial target with
      | Dialled =>
          match (write_all ([x05; x00; x00; x01] ++ replicate 6 x00) ;; flush) c with
          | (Ok _, c) => {| wr_dialled := Some target; wr_relays := true; wr_result := Ok tt; wr_conn := c |}
          | (other, c) => {| wr_dialled := Some target; wr_relays := false; wr_result := other; wr_conn := c |}
          end
      | DialFailed e =>
          let '(_, c) := (mignore (write_all (E := ProtocolError) ([x05; x05; x00; x01] ++ replicate 6 x00)) ;; mignore (flush (E := ProtocolError))) c in
          {| wr_dialled := Some target; wr_relays := false; wr_result := Err (RvIo e); wr_conn := c |}
      | _ => {| wr_dialled := Some target; wr_relays := false; wr_result := Err (RvIo IoTimedOut); wr_conn := c |}
      end
  | (Err e, c) => no_run c (Err e)
  | (Panic, c) => no_run c Panic
  end.

Definition run_connection_raw {A} `{!TargetResolver A} (resolver : A) (dial : bytes * Z -> dial_answer) (c : conn) : worker_run :=
  match resolve resolver with
  | TrReject => no_run c (Err RvConfigInvalid)
  | TrConnect h p =>
      let r := dial_result (dial (h, p)) in
      {| wr_dialled := Some (h, p); wr_relays := match r with Ok _ => true | _ => false end; wr_result := r; wr_conn := c |}
  end.

Definition run_connection {A} `{!TargetResolver A} (sizes : list nat) (cfg : PproxyBackwardClientConfig) (resolver : A)
    (dial_control : control_path -> dial_answer) (dial : bytes * Z -> dial_answer) (c : conn) : worker_run :=
  match (connect_control sizes cfg dial_control ;; if bool_decide (bc_auth cfg = []) then mret tt else write_all (bc_auth cfg) ;; flush) c with
  | (Ok _, c) =>
      match bc_server_framing cfg with
      | FrRaw => run_connection_raw resolver dial c
      | FrSocks5 => run_connection_socks5 dial c
      end
  | (Err e, c) => no_run c (Err e)
  | (Panic, c) => no_run c Panic
  end.

(** The pause after a failure, and after a session ([None]). *)
Definition next_backoff (cfg : PproxyBackwardClientConfig) (failed_after : option Z) : Z :=
  match failed_after with
  | None => Z.max (bc_reconnect_initial_ms cfg) 1
  | Some backoff => Z.min (Z.min (backoff * 2) (2 ^ 64 - 1)) (Z.max (bc_reconnect_max_ms cfg) 1)
  end.

(** ** The listener *)

Definition proxy_socks5_setup : RM unit :=
  write_all [x05; x01; x00] ;;
  flush ;;
  let! header := read_exact 2 in
  if negb (nth 0 header x00 =b x05) then mthrow RvConfigInvalid
  else if negb (nth 1 header x00 =b x00) then mthrow RvAuthFailed
  else mret tt.

Definition read_socks5_connect_reply : RM unit :=
  let! header := read_exact 4 in
  if negb (nth 0 header x00 =b x05) then mthrow RvConfigInvalid
  else if negb (nth 1 header x00 =b x00) then mthrow RvConfigInvalid
  else discard_reply (nth 3 header x00).

(** A host that is not an address is replaced by 0.0.0.0, so the branch for domain names
    of the source is never taken. *)
Definition reply_socks5_connect (h : bytes) (port : Z) : RM unit :=
  write_all [x05; x01; x00] ;;
  match default (V4 (replicate 4 x00)) (parse_ip h) with
  | V4 o => write_all [x01] ;; write_all o
  | V6 o => write_all [x04] ;; write_all o
  end ;;
  write_all (u16_to_be port) ;;
  flush.

(** [handle_pproxy_control_channel] up to the queue: the channel, when it is taken.
    [timed_out] is whether the credentials come too late. *)
Definition control_channel (cfg : PproxyBackwardServerConfig) (timed_out : bool) (c : conn) : option conn :=
  let auth := bs_auth cfg in
  let authenticated :=
    if bool_decide (auth = []) then Some c
    else match read_exact (E := ProtocolError) (length auth) c with
         | (Ok received, c') => if negb timed_out && ct_eq received auth then Some c' else None
         | _ => None
         end in
  match authenticated with
  | None => None
  | Some c =>
      match bs_client_framing cfg with
      | FrRaw => Some c
      | FrSocks5 =>
          match (proxy_socks5_setup ;;
                 match bs_socks5_target cfg with
                 | Some (h, port) => reply_socks5_connect h port ;; read_socks5_connect_reply
                 | None => mret tt
                 end) c with
          | (Ok _, c) => Some c
          | _ => None
          end
      end
  end.

(** The tasks of [PproxyBackwardServer::run].  [bl_taken] are the connections past the
    limit that have not handed their channel over yet: they authenticate, or wait for a
    place in the queue. *)
Record channel := { ch_id : nat; ch_timed_out : bool; ch_conn : conn }.
Record listener := {
  bl_active : nat; bl_taken : list channel; bl_queue : list (nat * conn); bl_waiting : option nat; bl_relays : list (nat * (nat * conn)); bl_next : nat
}.
Definition listener_new : listener := {| bl_active := 0; bl_taken := []; bl_queue := []; bl_waiting := None; bl_relays := []; bl_next := 0 |}.

Definition max_channels (cfg : PproxyBackwardServerConfig) : nat := Nat.max (bs_max_control_connections cfg) 1.

Definition accept_channel (cfg : PproxyBackwardServerConfig) (ch : channel) (s : listener) : listener :=
  if (max_channels cfg <=? bl_active s)%nat
  then {| bl_active := bl_active s; bl_taken := bl_taken s; bl_queue := bl_queue s; bl_waiting := bl_waiting s; bl_relays := bl_relays s; bl_next := S (bl_next s) |}
  else {| bl_active := S (bl_active s); bl_taken := bl_taken s ++ [ch]; bl_queue := bl_queue s; bl_waiting := bl_waiting s; bl_relays := bl_relays s; bl_next := S (bl_next s) |}.

(** A connection is refused, or its channel gets a place in the queue. *)
Definition finish_channel (q : list (nat * conn)) (taken : list channel) (s : listener) : listener :=
  {| bl_active := pred (bl_active s); bl_taken := taken; bl_queue := q; bl_waiting := bl_waiting s; bl_relays := bl_relays s; bl_next := bl_next s |}.

Definition set_pairing (q : list (nat * conn)) (w : option nat) (rs : list (nat * (nat * conn))) (s : listener) : listener :=
  {| bl_active := bl_active s; bl_taken := bl_taken s; bl_queue := q; bl_waiting := w; bl_relays := rs; bl_next := bl_next s |}.

Inductive listener_step (cfg : PproxyBackwardServerConfig) (s : listener) : listener -> Prop :=
| LAccept ch : ch_id ch = bl_next s -> listener_step cfg s (accept_channel cfg ch s)
| LRefuse l ch r : bl_taken s = l ++ ch :: r -> control_channel cfg (ch_timed_out ch) (ch_conn ch) = None ->
    listener_step cfg s (finish_channel (bl_queue s) (l ++ r) s)
| LQueue l ch r c : bl_taken s = l ++ ch :: r -> control_channel cfg (ch_timed_out ch) (ch_conn ch) = Some c ->
    (length (bl_queue s) < max_channels cfg)%nat -> listener_step cfg s (finish_channel (bl_queue s ++ [(ch_id ch, c)]) (l ++ r) s)
| LExternal ext : bl_waiting s = None -> listener_step cfg s (set_pairing (bl_queue s) (Some ext) (bl_relays s) s)
| LPair ext x q : bl_waiting s = Some ext -> bl_queue s = x :: q -> listener_step cfg s (set_pairing q None (bl_relays s ++ [(ext, x)]) s)
| LRelayEnd l x r : bl_relays s = l ++ x :: r -> listener_step cfg s (set_pairing (bl_queue s) (bl_waiting s) (l ++ r) s).

(** ** Properties *)

Definition b64_value (b : byte) : option Z := Z.of_nat <$> find_byte b TABLE.

(** A reference decoder. *)
Fixpoint b64_decode_ref (s : bytes) : option bytes :=
  match s with
  | [] => Some []
  | w :: x :: y :: z :: rest =>
      match b64_value w, b64_value x, b64_value y, b64_value z with
      | Some w, Some x, Some y, Some z =>
          app [Z2b (w * 4 + x / 16); Z2b (x mod 16 * 16 + y / 4); Z2b (y mod 4 * 64 + z)] <$> b64_decode_ref rest
      | Some w, Some x, Some y, None => if (z =b x3d) && is_empty rest && (y mod 4 =? 0) then Some [Z2b (w * 4 + x / 16); Z2b (x mod 16 * 16 + y / 4)] else None
      | Some w, Some x, None, None => if (y =b x3d) && (z =b x3d) && is_empty rest && (x mod 16 =? 0) then Some [Z2b (w * 4 + x / 16)] else None
      | _, _, _, _ => None
      end
  | _ => None
  end.

Definition all_bytes : list byte := map (fun n => Z2b (Z.of_nat n)) (seq 0 256).

Lemma all_bytes_complete b : b ∈ all_bytes.
Proof.
  unfold all_bytes. apply list_elem_of_fmap. exists (b2n b). unfold b2n. pose proof (b2Z_range b). rewrite Z2Nat.id by lia. split; [by rewrite Z2b_b2Z|].
  apply elem_of_seq. lia.
Qed.

Lemma forall_byte (p : byte -> bool) : forallb p all_bytes = true -> forall b, p b = true.
Proof. intros H b. rewrite forallb_forall in H. apply H. apply list_elem_of_In, all_bytes_complete. Qed.

Lemma forall_bytes2 (p : byte -> byte -> bool) : forallb (fun a => forallb (p a) all_bytes) all_bytes = true -> forall a b, p a b = true.
Proof. intros H a. apply forall_byte. exact (forall_byte _ H a). Qed.

Lemma sextet_value i : 0 <= i < 64 -> b64_value (sextet i) = Some i.
Proof.
  intros Hi. assert (forallb (fun n => bool_decide (b64_value (sextet (Z.of_nat n)) = Some (Z.of_nat n))) (seq 0 64) = true) as H by by vm_compute.
  rewrite forallb_forall in H. specialize (H (Z.to_nat i) ltac:(apply in_seq; lia)). rewrite Z2Nat.id in H by lia. by apply bool_decide_eq_true in H.
Qed.

Definition in64 (z : Z) : bool := (0 <=? z) && (z <? 64).

Lemma sextet_2_spec a b :
  in64 (sextet_1 a) && in64 (sextet_2 a b) && in64 (sextet_3 a b) && in64 (sextet_4 a) && (sextet_2 a b mod 16 =? b2Z b / 16) &&
  bool_decide (Z2b (sextet_1 a * 4 + sextet_2 a b / 16) = a) && (sextet_3 a b / 4 =? b2Z a mod 16) && (sextet_3 a b mod 4 =? b2Z b / 64) && (sextet_4 a =? b2Z a mod 64) = true.
Proof. revert a b. apply forall_bytes2. by vm_compute. Qed.

Lemma in64_range z : in64 z = true -> 0 <= z < 64.
Proof. unfold in64. lia. Qed.

Lemma sextets a b c :
  let w := sextet_1 a in let x := sextet_2 a b in let y := sextet_3 b c in let z := sextet_4 c in
  b64_value (sextet w) = Some w /\ b64_value (sextet x) = Some x /\ b64_value (sextet y) = Some y /\ b64_value (sextet z) = Some z /\
  Z2b (w * 4 + x / 16) = a /\ Z2b (x mod 16 * 16 + y / 4) = b /\ Z2b (y mod 4 * 64 + z) = c.
Proof.
  cbv zeta. pose proof (sextet_2_spec a b) as Hab. pose proof (sextet_2_spec b c) as Hbc. pose proof (sextet_2_spec c c) as Hcc.
  rewrite !andb_true_iff, !bool_decide_eq_true, !Z.eqb_eq in Hab, Hbc, Hcc.
  destruct Hab as [[[[[[[[A1%in64_range A2%in64_range] _] _] A5] A6] _] _] _]. destruct Hbc as [[[[[[[[_ _] B3%in64_range] _] _] _] B7] B8] _].
  destruct Hcc as [[[[[[[[_ _] _] C4%in64_range] _] _] _] _] C9].
  assert (sextet_2 a b mod 16 * 16 + sextet_3 b c / 4 = b2Z b) as Hb by (rewrite A5, B7; pose proof (Z.div_mod (b2Z b) 16); lia).
  assert (sextet_3 b c mod 4 * 64 + sextet_4 c = b2Z c) as Hc by (rewrite B8, C9; pose proof (Z.div_mod (b2Z c) 64); lia).
  rewrite Hb, Hc, !Z2b_b2Z. split_and!; try done; by apply sextet_value.
Qed.

Lemma pad_value : b64_value x3d = None.
Proof. by vm_compute. Qed.

(** Base64 as the jumps send it: a reference decoder reads back the bytes that were
    encoded. *)
Theorem base64_roundtrip input : b64_decode_ref (base64_encode input) = Some input.
Proof.
  remember (length input) as n eqn:Hn. revert input Hn. induction n as [n IH] using lt_wf_ind. intros [|a [|b [|c rest]]] Hn; [done|..].
  - pose proof (sextets a x00 x00) as (H1 & H2 & _ & _ & H3 & _). cbn [base64_encode b64_decode_ref]. rewrite H1, H2, pad_value, byte_eqb_refl.
    pose proof (sextet_2_spec a x00) as Hs. rewrite !andb_true_iff in Hs. destruct Hs as [[[[[_ Hm] _] _] _] _]. change (b2Z x00 / 16) with 0 in Hm.
    rewrite Hm. cbn. by rewrite H3.
  - pose proof (sextets a b x00) as (H1 & H2 & H4 & _ & H3 & H5 & _). cbn [base64_encode b64_decode_ref]. rewrite H1, H2, H4, pad_value, byte_eqb_refl.
    pose proof (sextet_2_spec b x00) as Hs. rewrite !andb_true_iff in Hs. destruct Hs as [[_ Hm] _]. change (b2Z x00 / 64) with 0 in Hm.
    rewrite Hm. cbn. by rewrite H3, H5.
  - pose proof (sextets a b c) as (H1 & H2 & H3 & H4 & H5 & H6 & H7). cbn [base64_encode b64_decode_ref]. rewrite H1, H2, H3, H4, H5, H6, H7.
    rewrite (IH (length rest)) by (subst n; cbn; lia || done). done.
Qed.

(** What the listener asks for. *)
Definition asked (h : bytes) : IpAddr := default (V4 (replicate 4 x00)) (parse_ip h).

Definition connect_bytes (h : bytes) (port : Z) : bytes :=
  [x05; x01; x00] ++ match asked h with V4 o => x01 :: o | V6 o => x04 :: o end ++ u16_to_be port.

Lemma asked_wf h : ip_wf (asked h).
Proof. unfold asked. destruct (parse_ip h) as [ip|] eqn:E; [by eapply parse_ip_wf|done]. Qed.

Lemma worker_takes h port rest e o : is_u16 port ->
  worker_request (Conn ([x05; x01; x00] ++ connect_bytes h port ++ rest) e o None) = (Ok (fmt_ip (asked h), port), Conn rest e (o ++ [x05; x00]) None).
Proof.
  intros Hp. pose proof (asked_wf h) as Hw. unfold worker_request, connect_bytes. rewrite <- !app_assoc.
  change ([x05; x01; x00] ++ ?x) with ([x05; x01] ++ [x00] ++ x).
  rewrite (mbind_fwd _ _ _ _ _ (read_exact_fwd 2 [x05; x01] _ _ _ _ eq_refl)). cbn [nth]. byte_if.
  rewrite (mbind_fwd _ _ _ _ _ (read_exact_fwd (b2n x01) [x00] _ _ _ _ eq_refl)).
  change (negb (contains_byte x00 [x00])) with false. cbv iota.
  rewrite (mbind_fwd _ _ _ _ _ (write_all_fwd _ _ _ _)), (mbind_fwd flush _ _ tt _ eq_refl).
  destruct (asked h) as [a|a]; cbn in Hw.
  - change ([x05; x01; x00] ++ (x01 :: a) ++ ?x) with ([x05; x01; x00; x01] ++ a ++ x).
    rewrite (mbind_fwd _ _ _ _ _ (read_exact_fwd 4 [x05; x01; x00; x01] _ _ _ _ eq_refl)). cbn [nth]. byte_if. cbn [orb].
    unfold mbind at 1 2. rewrite (read_exact_fwd 4 a) by done. unfold mret at 1. by rewrite (mbind_fwd _ _ _ _ _ (read_u16_fwd port rest e _ _ Hp)).
  - change ([x05; x01; x00] ++ (x04 :: a) ++ ?x) with ([x05; x01; x00; x04] ++ a ++ x).
    rewrite (mbind_fwd _ _ _ _ _ (read_exact_fwd 4 [x05; x01; x00; x04] _ _ _ _ eq_refl)). cbn [nth]. byte_if. cbn [orb].
    unfold mbind at 1 2. rewrite (read_exact_fwd 16 a) by done. unfold mret at 1. by rewrite (mbind_fwd _ _ _ _ _ (read_u16_fwd port rest e _ _ Hp)).
Qed.

Lemma listener_asks h port rest e o :
  (proxy_socks5_setup ;; reply_socks5_connect h port ;; read_socks5_connect_reply)
    (Conn ([x05; x00] ++ ([x05; x00; x00; x01] ++ replicate 6 x00) ++ rest) e o None) =
  (Ok tt, Conn rest e (o ++ [x05; x01; x00] ++ connect_bytes h port) None).
Proof.
  assert (proxy_socks5_setup (Conn ([x05; x00] ++ ([x05; x00; x00; x01] ++ replicate 6 x00) ++ rest) e o None) =
    (Ok tt, Conn (([x05; x00; x00; x01] ++ replicate 6 x00) ++ rest) e (o ++ [x05; x01; x00]) None)) as Hs.
  { unfold proxy_socks5_setup. rewrite (mbind_fwd _ _ _ _ _ (write_all_fwd _ _ _ _)), (mbind_fwd flush _ _ tt _ eq_refl).
    by rewrite (mbind_fwd _ _ _ _ _ (read_exact_fwd 2 [x05; x00] _ _ _ _ eq_refl)). }
  rewrite (mbind_fwd _ _ _ _ _ Hs).
  assert (forall i o', reply_socks5_connect h port (Conn i e o' None) = (Ok tt, Conn i e (o' ++ connect_bytes h port) None)) as Hr.
  { intros i o'. unfold reply_socks5_connect, connect_bytes. fold (asked h). rewrite (mbind_fwd _ _ _ _ _ (write_all_fwd _ _ _ _)).
    destruct (asked h) as [a|a]; unfold mbind at 1 2; rewrite !write_all_fwd; unfold mbind; rewrite write_all_fwd; unfold flush, mret; by rewrite <- !app_assoc. }
  rewrite (mbind_fwd _ _ _ _ _ (Hr _ _)), <- !app_assoc. cbn [app].
  unfold read_socks5_connect_reply. change (?a :: ?b :: ?c :: ?d :: replicate 6 x00 ++ rest) with ([a; b; c; d] ++ replicate 6 x00 ++ rest).
  rewrite (mbind_fwd _ _ _ _ _ (read_exact_fwd 4 [x05; x00; x00; x01] _ _ _ _ eq_refl)). cbn [nth]. byte_if. unfold discard_reply. byte_if.
  rewrite (mbind_fwd (mret 6%nat) _ _ 6%nat _ eq_refl). by rewrite (mbind_fwd _ _ _ _ _ (read_exact_fwd 6 (replicate 6 x00) _ _ _ _ eq_refl)).
Qed.

(** Listener and worker over one channel: the worker dials what the listener asks for, and
    both take the channel over at the same byte.  For a target that is an address that is
    the target; for a host name it is 0.0.0.0. *)
Lemma backward_socks5_agrees h port rest rest' e e' o o' dial : is_u16 port -> dial (fmt_ip (asked h), port) = Dialled ->
  let served := run_connection_socks5 dial (Conn ([x05; x01; x00] ++ connect_bytes h port ++ rest) e o None) in
  wr_dialled served = Some (fmt_ip (asked h), port) /\ wr_relays served = true /\
  wr_conn served = Conn rest e (o ++ [x05; x00] ++ [x05; x00; x00; x01] ++ replicate 6 x00) None /\
  (proxy_socks5_setup ;; reply_socks5_connect h port ;; read_socks5_connect_reply)
    (Conn ([x05; x00] ++ ([x05; x00; x00; x01] ++ replicate 6 x00) ++ rest') e' o' None) =
  (Ok tt, Conn rest' e' (o' ++ [x05; x01; x00] ++ connect_bytes h port) None).
Proof.
  intros Hp Hd. cbv zeta. unfold run_connection_socks5. rewrite worker_takes, Hd by done.
  rewrite (mbind_fwd _ _ _ _ _ (write_all_fwd _ _ _ _)). cbn [flush mret wr_dialled wr_relays wr_conn]. split; [done|]. split; [done|].
  split; [by rewrite <- app_assoc|]. apply listener_asks.
Qed.

Lemma backward_host_name_lost : fmt_ip (asked (str "example.com")) = str "0.0.0.0".
Proof. by vm_compute. Qed.

(** ** The listener's tasks *)

(** The channel of a client that was let in sent the credentials first. *)
Lemma control_channel_authentic cfg timed_out c c' : control_channel cfg timed_out c = Some c' -> exists rest, c_in c = bs_auth cfg ++ rest.
Proof.
  unfold control_channel. case_bool_decide as Ha; [rewrite Ha; by exists (c_in c)|].
  destruct (read_exact _ c) as [[received|e|] c1] eqn:Er; [|done|done]. apply read_exact_io in Er as (_ & Hio & _).
  unfold ct_eq. case_bool_decide as He; [|by rewrite andb_false_r]. intros _. subst received. rewrite Hio. eauto.
Qed.

Record listener_ok (cfg : PproxyBackwardServerConfig) (s : listener) : Prop := {
  lk_active : bl_active s = length (bl_taken s);
  lk_max : (bl_active s <= max_channels cfg)%nat;
  lk_queue : (length (bl_queue s) <= max_channels cfg)%nat;
  lk_ids : NoDup (map ch_id (bl_taken s) ++ (bl_queue s).*1 ++ (map snd (bl_relays s)).*1);
  lk_next : Forall (fun n => n < bl_next s)%nat (map ch_id (bl_taken s) ++ (bl_queue s).*1 ++ (map snd (bl_relays s)).*1);
  lk_authentic : Forall (fun x => exists ch, ch_id ch = x.1 /\ control_channel cfg (ch_timed_out ch) (ch_conn ch) = Some x.2) (bl_queue s ++ map snd (bl_relays s))
}.

Lemma accept_channel_ok cfg ch s : listener_ok cfg s -> ch_id ch = bl_next s -> listener_ok cfg (accept_channel cfg ch s).
Proof.
  intros [Ha Hm Hq Hi Hn Hx] Hid. unfold accept_channel. destruct (_ <=? _)%nat eqn:E.
  - split; cbn; try done. eapply Forall_impl; [exact Hn|]. cbn. lia.
  - apply Nat.leb_gt in E. split; cbn; try done; [rewrite length_app; cbn; lia|..]; rewrite map_app, <- app_assoc; cbn; rewrite <- Permutation_middle, Hid.
    + apply NoDup_cons. split; [|done]. rewrite Forall_forall in Hn. intros Hin%Hn. lia.
    + apply Forall_cons. split; [lia|]. eapply Forall_impl; [exact Hn|]. cbn. lia.
Qed.

Lemma finish_channel_ok cfg l ch r q s : listener_ok cfg s -> bl_taken s = l ++ ch :: r ->
  q = bl_queue s \/ (exists c, control_channel cfg (ch_timed_out ch) (ch_conn ch) = Some c /\ (length (bl_queue s) < max_channels cfg)%nat /\ q = bl_queue s ++ [(ch_id ch, c)]) ->
  listener_ok cfg (finish_channel q (l ++ r) s).
Proof.
  intros [Ha Hm Hq Hi Hn Hx] Et Hc. assert (length (bl_taken s) = S (length (l ++ r))) as Hlen by (rewrite Et, !length_app; cbn; lia).
  assert (map ch_id (bl_taken s) ≡ₚ ch_id ch :: map ch_id (l ++ r)) as Hperm by (rewrite Et, !map_app; cbn; by rewrite <- Permutation_middle).
  rewrite Hperm in Hi, Hn. cbn [app] in Hi, Hn. apply NoDup_cons in Hi as [Hfresh Hi]. apply Forall_cons in Hn as [Hlt Hn].
  destruct Hc as [->|(c & Hc & Hroom & ->)]; split; cbn; try done; try lia.
  - rewrite length_app. cbn. lia.
  - rewrite (fmap_app fst (bl_queue s)), <- app_assoc. cbn. rewrite <- !Permutation_middle. by apply NoDup_cons.
  - rewrite (fmap_app fst (bl_queue s)), <- app_assoc. cbn. rewrite <- !Permutation_middle. by apply Forall_cons.
  - rewrite <- app_assoc. cbn. rewrite <- Permutation_middle. apply Forall_cons. split; [by exists ch|done].
Qed.

Lemma listener_step_ok cfg s s' : listener_step cfg s s' -> listener_ok cfg s -> listener_ok cfg s'.
Proof.
  intros Hs H. destruct Hs as [ch Hid|l ch r Et _|l ch r c Et Hc Hr|ext Hw|ext x q Hw Eq|l x r Er].
  - by apply accept_channel_ok.
  - eapply finish_channel_ok; eauto.
  - eapply finish_channel_ok; eauto 8.
  - destruct H. by split.
  - destruct H as [Ha Hm Hq Hi Hn Hx]. rewrite Eq in *. cbn in Hq, Hi, Hn, Hx. split; cbn; try done; [lia|..]; rewrite map_app; cbn.
    + by rewrite fmap_app; cbn; rewrite !app_assoc, <- Permutation_cons_append, <- app_assoc, Permutation_middle.
    + by rewrite fmap_app; cbn; rewrite !app_assoc, <- Permutation_cons_append, <- app_assoc, Permutation_middle.
    + by rewrite app_assoc, <- Permutation_cons_append.
  - destruct H as [Ha Hm Hq Hi Hn Hx]. rewrite Er in Hi, Hn, Hx. rewrite map_app in Hi, Hn, Hx. cbn in Hi, Hn, Hx. rewrite fmap_app in Hi, Hn. cbn in Hi, Hn.
    rewrite !app_assoc, <- Permutation_middle in Hi, Hn. rewrite !app_assoc, <- Permutation_middle in Hx.
    apply NoDup_cons in Hi as [_ Hi]. apply Forall_cons in Hn as [_ Hn]. apply Forall_cons in Hx as [_ Hx].
    split; cbn; try done; rewrite map_app, ?fmap_app, !app_assoc; done.
Qed.

Lemma listener_reachable cfg s : rtc (listener_step cfg) listener_new s -> listener_ok cfg s.
Proof.
  apply (rtc_ind_r (listener_ok cfg)); [split; cbn; try done; try constructor; apply Nat.le_0_l|]. intros ? ? _ Hs. by apply listener_step_ok.
Qed.

(** The listener pairs every external client with a channel of its own whose peer sent
    the credentials; at most one client waits at a time, whatever the limit on waiting
    clients says, and at most twice the configured number of channels is held. *)
Lemma backward_listener_sound cfg s : rtc (listener_step cfg) listener_new s ->
  (length (bl_taken s) <= max_channels cfg)%nat /\ (length (bl_queue s) <= max_channels cfg)%nat /\ NoDup (map snd (bl_relays s)).*1 /\
  forall ext id c, (ext, (id, c)) ∈ bl_relays s -> exists ch rest, ch_id ch = id /\ c_in (ch_conn ch) = bs_auth cfg ++ rest.
Proof.
  intros [Ha Hm Hq Hi _ Hx]%listener_reachable. rewrite <- Ha. split; [done|]. split; [done|]. apply NoDup_app in Hi as (_ & _ & Hi). apply NoDup_app in Hi as (_ & _ & Hi).
  split; [done|]. intros ext id c Hin. rewrite Forall_forall in Hx. destruct (Hx (id, c)) as (ch & Hid & [rest Hc]%control_channel_authentic); [|by exists ch, rest].
  apply elem_of_app. right. by apply (list_elem_of_fmap_2 snd) in Hin.
Qed.
