(* ===== verification/ReverseRuntime.v ===== *)
(** * Reverse proxies in a process

    Models [crates/eggress-runtime/src/reverse.rs] (the policy gate of a reverse client)
    and [spawn_reverse_services] of [supervisor/services.rs]: which servers and clients
    a process starts from its configuration. *)

From S2P Require Import Prelude Bytes Decimal Stream NetAddr Connector Dispatch Uri Capability Chain Health Upstream Scheduler Matcher Router HttpText UdpRegistry UdpSession ConfigRules ConfigUpstreams ConfigListeners ConfigService Config Reverse ReverseCompat.
Local Open Scope Z_scope.

(** ** The policy gate (reverse.rs) *)

Section resolver.
Context {Regex IpNet R : Type} (is_match : Regex -> bytes -> bool) (cidr_contains : IpNet -> IpAddr -> bool).

Record RouteEngineTargetResolver := {
  rr_router : SharedRoutingService (Regex := Regex) (IpNet := IpNet) (R := R); rr_target : TargetAddr; rr_reverse_listener : bytes; rr_client_addr : option SocketAddr
}.

(** The target is a host name to the router, also when the text is an address. *)
Definition resolver_new (router : SharedRoutingService) (h : bytes) (port : Z) (reverse_listener : bytes) (client_addr : option SocketAddr) : RouteEngineTargetResolver :=
  {| rr_router := router; rr_target := {| host := DomainName h; tport := port |}; rr_reverse_listener := reverse_listener; rr_client_addr := client_addr |}.

Definition gate_request (r : RouteEngineTargetResolver) : RouteRequest :=
  {| rq_target := rr_target r; rq_source := rr_client_addr r; rq_listener := rr_reverse_listener r; rq_protocol := PReverse; rq_identity := Anonymous; rq_transport := ReverseTcp |}.

#[export] Instance engine_resolve : TargetResolver RouteEngineTargetResolver := fun r =>
  match policy_decision is_match cidr_contains (rr_router r) (gate_request r) with
  | DecDirect _ | DecUpstreamGroup _ _ => TrConnect (fmt_host (host (rr_target r))) (tport (rr_target r))
  | DecReject _ _ => TrReject
  end.

End resolver.
Arguments RouteEngineTargetResolver Regex IpNet R : clear implicits.

(** ** Starting the services (services.rs) *)

Section spawn.
Context {Regex IpNet R : Type}.

Inductive reverse_service :=
| SvServer (id : bytes) (cfg : ReverseServerConfig)
| SvBackwardServer (cfg : PproxyBackwardServerConfig)
| SvClient (id : bytes) (cfg : ReverseClientConfig) (resolver : RouteEngineTargetResolver Regex IpNet R)
| SvBackwardClient (id : bytes) (cfg : PproxyBackwardClientConfig) (resolver : RouteEngineTargetResolver Regex IpNet R).

Definition server_tls (t : CompiledReverseServerTls) : Reverse.ReverseServerTlsConfig :=
  {| vst_cert_pem := rst_cert_pem t; vst_key_pem := rst_key_pem t; vst_client_ca_pem := rst_client_ca_pem t; vst_require_client_cert := rst_require_client_cert t |}.

Definition client_tls (t : CompiledReverseClientTls) : Reverse.ReverseClientTlsConfig :=
  {| vct_ca_pem := rct_ca_pem t; vct_server_name := rct_server_name t; vct_client_cert_pem := rct_client_cert_pem t; vct_client_key_pem := rct_client_key_pem t |}.

Definition native_server (c : CompiledReverseServerConfig) : ReverseServerConfig :=
  {| vs_control_bind := crs_control_bind c; vs_external_bind := Some (crs_external_bind c); vs_auth_username := crs_auth_username c; vs_auth_password := crs_auth_password c;
     vs_max_control_connections := crs_max_control_connections c; vs_read_timeout_ms := crs_read_timeout_ms c; vs_allow_bind := crs_allow_bind c;
     vs_max_listeners_per_client := crs_max_listeners_per_client c; vs_max_streams_per_listener := crs_max_streams_per_listener c;
     vs_max_pending_external := crs_max_pending_external c; vs_tls := server_tls <$> crs_tls c |}.

Definition spawn_server (c : CompiledReverseServerConfig) : list reverse_service :=
  if crs_pproxy_compat c then
    [SvBackwardServer {| bs_control_bind := crs_control_bind c; bs_external_bind := crs_external_bind c; bs_auth := raw_auth (crs_auth_username c) (crs_auth_password c);
       bs_max_control_connections := Z.to_nat (crs_max_control_connections c); bs_max_pending_external := Z.to_nat (crs_max_pending_external c);
       bs_read_timeout_ms := crs_read_timeout_ms c; bs_socks5_target := None; bs_client_framing := FrRaw |}]
  else match server_validate (native_server c) with
       | Ok _ => [SvServer (crs_id c) (native_server c)]
       | _ => []
       end.

Definition spawn_client (routing : SharedRoutingService (Regex := Regex) (IpNet := IpNet) (R := R)) (c : CompiledReverseClientConfig) : list reverse_service :=
  let h := default (str "127.0.0.1") (crc_default_target_host c) in
  let port := default 0 (crc_default_target_port c) in
  let resolver := resolver_new routing h port (crc_id c) (Some (crc_server_addr c)) in
  replicate (Z.to_nat (Z.max (crc_parallel_connections c) 1))
    (if crc_pproxy_compat c then
       SvBackwardClient (crc_id c)
         {| bc_server_addr := crc_server_addr c; bc_server_chain := crc_server_chain c; bc_auth := raw_auth (crc_auth_username c) (crc_auth_password c);
            bc_reconnect_initial_ms := crc_reconnect_initial_ms c; bc_reconnect_max_ms := crc_reconnect_max_ms c; bc_read_timeout_ms := crc_read_timeout_ms c;
            bc_target_connect_timeout_ms := 10000; bc_server_framing := FrRaw |} resolver
     else
       SvClient (crc_id c)
         {| vc_server_addr := crc_server_addr c; vc_auth_username := crc_auth_username c; vc_auth_password := crc_auth_password c;
            vc_reconnect_initial_ms := crc_reconnect_initial_ms c; vc_reconnect_max_ms := crc_reconnect_max_ms c;
            vc_default_target_host := crc_default_target_host c; vc_default_target_port := crc_default_target_port c; vc_read_timeout_ms := crc_read_timeout_ms c;
            vc_drain_grace_ms := crc_drain_grace_ms c; vc_target_connect_timeout_ms := 10000; vc_tls := client_tls <$> crc_tls c |} resolver).

Definition spawn_reverse_services (routing : SharedRoutingService) (servers : list CompiledReverseServerConfig) (clients : list CompiledReverseClientConfig) : list reverse_service :=
  concat (map spawn_server servers) ++ concat (map (spawn_client routing) clients).

End spawn.
Arguments reverse_service Regex IpNet R : clear implicits.

(** ** Properties *)

Section properties.
Context {Regex IpNet R : Type} (w : config_world Regex IpNet) (is_match : Regex -> bytes -> bool) (cidr_contains : IpNet -> IpAddr -> bool).
Abbreviation resolver_t := (RouteEngineTargetResolver Regex IpNet R).

(** A rule on destination blocks never decides about a reverse target. *)
Lemma reverse_target_has_no_block router h port l a cidr :
  matches is_match cidr_contains (MDestinationCidr cidr) (gate_request (resolver_new (Regex := Regex) (IpNet := IpNet) (R := R) router h port l a)) = false.
Proof using Type. done. Qed.

Lemma compiled_server_unlisted i s c : compile_reverse_server (w_env w) (w_read w) (w_cert_ok w) (w_key_ok w) (w_roots_ok w) i s = Ok c -> crs_allow_bind c = None.
Proof using Type.
  unfold compile_reverse_server. by intros (cb & _ & (eb & _ & (pw & _ & (? & _ & (hb & _ & (? & _ & (t & _ & [= <-])%obind_ok)%obind_ok)%obind_ok)%obind_ok)%obind_ok)%obind_ok)%obind_ok.
Qed.

Lemma loaded_servers_unlisted f rt : load_and_validate w f = Ok rt -> Forall (fun c => crs_allow_bind c = None) (rt_reverse_servers rt).
Proof using Type.
  intros (contents & cf & _ & _ & _ & Hcc)%load_accepts. unfold compile_config in Hcc.
  apply obind_ok in Hcc as (? & _ & (? & _ & (? & _ & (? & _ & (? & _ & (? & _ & H)%obind_ok)%obind_ok)%obind_ok)%obind_ok)%obind_ok).
  cbv zeta in H. apply obind_ok in H as (? & _ & (servers & Hs & (? & _ & [= <-])%obind_ok)%obind_ok). cbn.
  unfold compile_reverse_servers in Hs. destruct (cf_reverse_servers cf); [|by injection Hs as <-].
  eapply collect_from_forall; [|exact Hs]. intros i a b. apply compiled_server_unlisted.
Qed.

(** A TLS section with a certificate and a key. *)
Definition tls_filled (c : CompiledReverseServerConfig) : bool :=
  match crs_tls c with Some t => negb (is_empty (rst_cert_pem t)) && negb (is_empty (rst_key_pem t)) | None => true end.

(** Without an allow-list, what [ReverseServerConfig::validate] admits is loopback. *)
Lemma unlisted_valid c : crs_allow_bind c = None -> reverse_server_sane c -> is_ok (server_validate (native_server c)) = is_loopback (crs_external_bind c) && tls_filled c.
Proof using Type.
  intros Ha (_ & _ & Hca). unfold server_validate, tls_filled. cbn [native_server vs_external_bind vs_allow_bind vs_tls]. rewrite Ha.
  destruct (is_loopback (crs_external_bind c)); cbn [negb obind andb]; [|by destruct (negb _)].
  destruct (crs_tls c) as [t|]; [|done]. specialize (Hca t eq_refl). cbn [fmap option_fmap option_map]. unfold server_tls_validate, server_tls.
  cbn [vst_cert_pem vst_key_pem vst_require_client_cert vst_client_ca_pem]. destruct (is_empty (rst_cert_pem t)); [done|]. destruct (is_empty (rst_key_pem t)); [done|].
  destruct (rst_require_client_cert t); [|done]. by rewrite bool_decide_eq_true_2 by by apply Hca.
Qed.

Lemma spawned_service (sv : reverse_service Regex IpNet R) routing servers clients : sv ∈ spawn_reverse_services routing servers clients <->
  (exists c, c ∈ servers /\ sv ∈ spawn_server c) \/ (exists c, c ∈ clients /\ sv ∈ spawn_client routing c).
Proof using Type.
  unfold spawn_reverse_services. rewrite elem_of_app, !list_elem_of_In, !in_concat. split.
  - intros [(l & (c & <- & Hc)%in_map_iff & Hs)|(l & (c & <- & Hc)%in_map_iff & Hs)]; [left|right]; exists c; by rewrite !list_elem_of_In.
  - intros [(c & Hc & Hs)|(c & Hc & Hs)]; [left|right]; eexists; (split; [apply in_map_iff; exists c; split; [done|by apply list_elem_of_In]|by apply list_elem_of_In]).
Qed.

Lemma client_not_server routing c id cfg : @SvServer Regex IpNet R id cfg ∉ spawn_client routing c.
Proof using Type. unfold spawn_client. intros [Hs _]%elem_of_replicate. by destruct (crc_pproxy_compat c). Qed.

Lemma server_not_client c id cfg (resolver : resolver_t) : SvClient id cfg resolver ∉ spawn_server c.
Proof using Type.
  unfold spawn_server. destruct (crs_pproxy_compat c); [by intros ?%list_elem_of_singleton|].
  destruct (server_validate (native_server c)); [by intros ?%list_elem_of_singleton|by intros ?%elem_of_nil..].
Qed.

(** What a session of a started client dials. *)
Lemma client_dials routing c id cfg (resolver : resolver_t) : SvClient id cfg resolver ∈ spawn_client routing c ->
  id = crc_id c /\ crc_pproxy_compat c = false /\
  forall sw, let '(_, fx) := @run_session _ (engine_resolve is_match cidr_contains) cfg resolver sw in
    (forall a, EfConnect a ∈ fx -> a = crc_server_addr c) /\
    (forall t, EfTarget t ∈ fx ->
       t = default (str "127.0.0.1") (crc_default_target_host c) ++ x3a :: to_dec (default 0 (crc_default_target_port c)) /\
       forall rule reason, policy_decision is_match cidr_contains routing (gate_request resolver) <> DecReject rule reason).
Proof using Type.
  intros Hs. unfold spawn_client in Hs. apply elem_of_replicate in Hs as [Hs _]. destruct (crc_pproxy_compat c); [done|]. injection Hs as -> -> ->.
  split; [done|]. split; [done|]. intros sw.
  match goal with |- context [@run_session _ _ ?a ?b sw] => pose proof (@run_session_effects _ (engine_resolve is_match cidr_contains) a b sw) as He end.
  destruct (@run_session _ _ _ _ sw) as [res fx]. destruct He as (H1 & H2 & _). split; [exact H1|]. intros t (h & p & Hres & ->)%H2.
  unfold resolve, engine_resolve in Hres. cbn in Hres. destruct (policy_decision _ _ routing _) as [r|r g|r reason] eqn:Ep; [..|done];
    injection Hres as <- <-; split; try done; rewrite Ep; done.
Qed.


End properties.

(** ** Example *)

Definition demo_reverse_server (id external : bytes) : ReverseServerToml :=
  {| rs_id := id; rs_control_bind := str "127.0.0.1:7000"; rs_external_bind := external; rs_auth_username := Some (str "bob"); rs_auth_password := Some (str "pw");
     rs_auth_password_env := None; rs_max_streams := None; rs_heartbeat_interval := None; rs_pproxy_compat := false; rs_tls := None |}.
Definition demo_reverse_client : ReverseClientToml :=
  {| rk_id := str "c"; rk_server_addr := str "192.0.2.1:7000"; rk_server_uri := None; rk_auth_username := None; rk_auth_password := None; rk_auth_password_env := None;
     rk_reconnect_initial := None; rk_reconnect_max := None; rk_heartbeat_interval := None; rk_parallel_connections := None;
     rk_default_target_host := Some (str "127.0.0.1"); rk_default_target_port := Some 22; rk_pproxy_compat := false; rk_tls := None |}.
Definition demo_reverse_config : ConfigFile :=
  {| cf_version := Some 1; cf_process := None; cf_timeouts := None; cf_listeners := None; cf_upstreams := None; cf_upstream_groups := None; cf_rules := None;
     cf_rules_file := None; cf_routing_default := None; cf_admin := None;
     cf_reverse_servers := Some [demo_reverse_server (str "in") (str "127.0.0.1:7001"); demo_reverse_server (str "out") (str "0.0.0.0:7002")];
     cf_reverse_clients := Some [demo_reverse_client] |}.
Definition demo_reverse_world : config_world unit unit :=
  {| w_toml := fun _ => Some demo_reverse_config; w_regex := fun _ => Some tt; w_ipnet := fun _ => None; w_quic := false; w_env := fun _ => None; w_read := fun _ => None;
     w_open := fun _ => Some {| tf_len := Some 4; tf_data := Some (str "demo") |};
     w_cert_ok := fun _ => true; w_key_ok := fun _ => true; w_roots_ok := fun _ => true; w_server_name_ok := fun _ => true; w_system_roots_ok := true;
     w_client_build_ok := fun _ _ => true |}.
Definition demo_reverse_runtime : RuntimeConfig unit unit :=
  Eval vm_compute in match load_and_validate demo_reverse_world (str "r.toml") with Ok rt => rt | _ => demo_runtime end.
Definition demo_routing : SharedRoutingService (Regex := unit) (IpNet := unit) (R := unit) :=
  {| current := {| rules := []; default_action := ActDirect; groups := ∅ |} |}.

