(* ===== verification/Admin.v ===== *)
(** * The admin endpoint

    Models [crates/eggress-admin/src]: who may use the endpoint and the limiter of failed
    attempts ([server.rs]), its routes ([routes.rs]), the proxy auto-configuration file
    ([pac.rs]), static content and the registry of reverse servers ([reverse.rs]).

    The HTTP server, Base64, the JSON serializer and parser, and the text of the metrics
    are third-party or outside the model: arguments here.  An [Instant] is a number of
    nanoseconds. *)

From S2P Require Import Prelude Bytes Decimal Stream NetAddr Connector Dispatch Uri Capability Chain Health Upstream Scheduler Matcher Router HttpText AuthCache UdpRegistry UdpSession ConfigRules ConfigUpstreams ConfigListeners ConfigService Trojan Reverse.
From stdpp Require Import sorting.
Local Open Scope Z_scope.

(** ** The limiter of failed attempts (server.rs) *)

Definition SECOND : Z := 1000000000.
Definition AUTH_FAILURE_LIMIT : Z := 5.
Definition AUTH_FAILURE_WINDOW : Z := 60 * SECOND.
Definition AUTH_FAILURE_BLOCK : Z := 30 * SECOND.
Definition MAX_AUTH_FAILURE_ENTRIES : nat := Z.to_nat 4096.

Record AuthFailure := { window_started : option Z; failures : Z; blocked_until : option Z }.
Definition AuthFailure_default : AuthFailure := {| window_started := None; failures := 0; blocked_until := None |}.
Abbreviation AuthFailureLimiter := (gmap IpAddr AuthFailure).

Definition blocked_for (now : Z) (ip : IpAddr) (entries : AuthFailureLimiter) : option Z :=
  match entries !! ip with
  | Some entry => match blocked_until entry with Some until => if now <=? until then Some (until - now) else None | None => None end
  | None => None
  end.

(** The first of the minimal elements, as [min_by_key]. *)
Fixpoint min_by_key {A} (k : A -> Z) (l : list A) : option A :=
  match l with
  | [] => None
  | x :: r => match min_by_key k r with Some y => if k y <? k x then Some y else Some x | None => Some x end
  end.

Definition in_window (now : Z) (entry : AuthFailure) : bool :=
  match window_started entry with Some started => duration_since now started <? AUTH_FAILURE_WINDOW | None => false end.

Definition fail_entry (now : Z) (entry : AuthFailure) : AuthFailure :=
  let entry := if in_window now entry then entry else {| window_started := Some now; failures := 0; blocked_until := blocked_until entry |} in
  let n := Z.min (failures entry + 1) (U32 - 1) in
  {| window_started := window_started entry; failures := n;
     blocked_until := if AUTH_FAILURE_LIMIT <=? n then Some (now + AUTH_FAILURE_BLOCK) else blocked_until entry |}.

Section limiter.
Context {HI : HashIter}.

Definition make_room (now : Z) (ip : IpAddr) (entries : AuthFailureLimiter) : AuthFailureLimiter :=
  if (MAX_AUTH_FAILURE_ENTRIES <=? size entries)%nat && negb (bool_decide (is_Some (entries !! ip))) then
    let kept := filter (fun x => in_window now x.2 = true) entries in
    if (MAX_AUTH_FAILURE_ENTRIES <=? size kept)%nat then
      match min_by_key (fun x => default now (window_started x.2)) (hash_iter kept) with
      | Some (victim, _) => delete victim kept
      | None => kept
      end
    else kept
  else entries.

Definition record_failure (now : Z) (ip : IpAddr) (entries : AuthFailureLimiter) : AuthFailureLimiter :=
  let entries := make_room now ip entries in
  <[ip := fail_entry now (default AuthFailure_default (entries !! ip))]> entries.

Definition record_success (ip : IpAddr) (entries : AuthFailureLimiter) : AuthFailureLimiter := delete ip entries.
End limiter.

(** ** Requests and responses *)

Inductive body_frame := FData (data : bytes) | FTrailers | FFailed.
Record request := { req_method : bytes; req_path : bytes; req_headers : list (bytes * bytes); req_body : list body_frame }.
Record response := { resp_status : Z; resp_content_type : bytes; resp_challenge : option bytes; resp_retry_after : option bytes; resp_body : bytes }.

(** [HeaderValue::from_str], [HeaderValue::to_str]: visible characters and tab. *)
Definition visible (b : byte) : bool := ((32 <=? b2Z b) && (b2Z b <? 127)) || (b =b x09).
Definition header_text (b : byte) : bool := ((32 <=? b2Z b) && negb (b2Z b =? 127)) || (b =b x09).

Definition build_response (status : Z) (body content_type : bytes) : response :=
  {| resp_status := if (100 <=? status) && (status <=? 599) then status else 500;
     resp_content_type := if forallb header_text content_type then content_type else str "application/octet-stream";
     resp_challenge := None; resp_retry_after := None; resp_body := body |}.
Definition build_json_response (status : Z) (body : bytes) : response := build_response status body (str "application/json").
Definition build_text_response (status : Z) (body : bytes) : response := build_response status body (str "text/plain").
Definition build_not_found : response := build_text_response 404 (str "not found").

(** [headers().get(name)]: the first value. *)
Definition header_get (name : bytes) (hs : list (bytes * bytes)) : option bytes := snd <$> List.find (fun h => eq_ignore_ascii_case h.1 name) hs.

Definition authorization_payload (req : request) (scheme : bytes) : option bytes :=
  match header_get (str "authorization") (req_headers req) with
  | Some value =>
      if negb (forallb visible value) then None else
      match split_once x20 value with
      | Some (actual_scheme, payload) => if eq_ignore_ascii_case actual_scheme scheme then Some payload else None
      | None => None
      end
  | None => None
  end.

(** [decode] is the standard Base64 engine. *)
Definition authorized (decode : bytes -> option bytes) (req : request) (auth : AdminAuthConfig) : bool :=
  match ac_bearer_token auth with
  | Some expected => match authorization_payload req (str "Bearer") with Some token => ct_eq token expected | None => false end
  | None =>
      match ac_basic_username auth, ac_basic_password auth with
      | Some username, Some password =>
          match authorization_payload req (str "Basic") ≫= decode with
          | Some value =>
              match find_byte x3a value with
              | Some separator => ct_eq (take separator value) username && ct_eq (drop (S separator) value) password
              | None => false
              end
          | None => false
          end
      | _, _ => false
      end
  end.

(** ** Proxy auto-configuration (pac.rs) *)

Definition hex4 (b : byte) : bytes := str "\u00" ++ [nth (Z.to_nat (b2Z b / 16)) (str "0123456789abcdef") x00; nth (Z.to_nat (b2Z b mod 16)) (str "0123456789abcdef") x00].

Definition js_char (b : byte) : bytes :=
  if b =b x5c then [x5c; x5c]
  else if b =b x22 then [x5c; x22]
  else if b =b x0a then str "\n"
  else if b =b x0d then str "\r"
  else if b =b x09 then str "\t"
  else if b2Z b <? 32 then hex4 b
  else [b].

(** On the UTF-8 bytes: U+2028 and U+2029 are E2 80 A8 and E2 80 A9. *)
Fixpoint js_escape (s : bytes) : bytes :=
  match s with
  | [] => []
  | b :: r =>
      match r with
      | c :: d :: r' =>
          if (b =b xe2) && (c =b x80) && (d =b xa8) then str "\u2028" ++ js_escape r'
          else if (b =b xe2) && (c =b x80) && (d =b xa9) then str "\u2029" ++ js_escape r'
          else js_char b ++ js_escape r
      | _ => js_char b ++ js_escape r
      end
  end.

Fixpoint bytes_le (a b : bytes) : bool :=
  match a, b with
  | [], _ => true
  | _, [] => false
  | x :: a, y :: b => (b2Z x <? b2Z y) || ((x =b y) && bytes_le a b)
  end.
#[export] Instance bytes_le_dec : RelDecision (fun a b => bytes_le a b = true).
Proof. intros a b. apply bool_eq_dec. Defined.

Definition LF : bytes := [x0a].
Definition quoted (s : bytes) : bytes := [x22] ++ js_escape s ++ [x22].
Fixpoint comma_list (l : list bytes) : bytes :=
  match l with [] => [] | [s] => quoted s | s :: r => quoted s ++ str ", " ++ comma_list r end.
Definition dq : bytes := [x22].

Definition generate_pac (config : PacConfig) : bytes :=
  let sort := merge_sort (fun a b => bytes_le a b = true) in
  let direct_hosts := sort (pf_direct_hosts config) in
  let direct_suffixes := sort (pf_direct_suffixes config) in
  str "function FindProxyForURL(url, host) {" ++ LF ++
  str "  if (isPlainHostName(host)) return " ++ dq ++ str "DIRECT" ++ dq ++ str ";" ++ LF ++
  (if bool_decide (direct_hosts = []) then [] else
     str "  var directHosts = [" ++ comma_list direct_hosts ++ str "];" ++ LF ++
     str "  for (var i = 0; i < directHosts.length; i++) {" ++ LF ++
     str "    if (host == directHosts[i] || shExpMatch(host, " ++ dq ++ str "*." ++ dq ++ str " + directHosts[i]))" ++ LF ++
     str "      return " ++ dq ++ str "DIRECT" ++ dq ++ str ";" ++ LF ++ str "  }" ++ LF) ++
  (if bool_decide (direct_suffixes = []) then [] else
     str "  var directSuffixes = [" ++ comma_list direct_suffixes ++ str "];" ++ LF ++
     str "  for (var i = 0; i < directSuffixes.length; i++) {" ++ LF ++
     str "    if (shExpMatch(host, " ++ dq ++ str "*." ++ dq ++ str " + directSuffixes[i]))" ++ LF ++
     str "      return " ++ dq ++ str "DIRECT" ++ dq ++ str ";" ++ LF ++ str "  }" ++ LF) ++
  str "  return " ++ dq ++ str "PROXY " ++ js_escape (pf_proxy_directive config) ++
  (if pf_direct_fallback config then str "; DIRECT" else []) ++ dq ++ str ";" ++ LF ++
  str "}" ++ LF.

Definition serve_static (route : StaticRoute) : response := build_response 200 (st_body route) (st_content_type route).

(** ** JSON *)

Inductive json := JNull | JBool (b : bool) | JNum (n : Z) | JStr (s : bytes) | JArr (l : list json) | JObj (fields : list (bytes * json)).

Definition jopt (o : option bytes) : json := match o with Some s => JStr s | None => JNull end.
Definition jfield (o : json) (name : bytes) : option json := match o with JObj fs => snd <$> List.find (fun f => bool_decide (f.1 = name)) fs | _ => None end.
Definition as_str (j : json) : option bytes := match j with JStr s => Some s | _ => None end.
Definition get_str (o : json) (name : string) : option bytes := jfield o (str name) ≫= as_str.
Definition obj (fs : list (string * json)) : json := JObj (map (fun f => (str f.1, f.2)) fs).

(** [serde_json] and what [Debug] prints for a string. *)
Class AdminLib := {
  json_to_string : json -> bytes;
  json_from_slice : bytes -> option json;
  debug_str : bytes -> bytes;
  base64_decode : bytes -> option bytes;
  render_prometheus : bytes;
  cargo_pkg_version : bytes
}.

(** ** Debug output *)

Definition debug_health (s : HealthState) : bytes :=
  match s with
  | Unknown => str "Unknown" | Healthy => str "Healthy" | Suspect => str "Suspect" | Unhealthy => str "Unhealthy" | Recovering => str "Recovering" | Disabled => str "Disabled"
  end.

(** [format!("{:?}", p).to_lowercase()]. *)
Definition debug_protocol_lower (p : ProtocolSpec) : bytes :=
  match p with
  | SHttp => str "http" | SHttpOnly => str "httponly" | SSocks4 => str "socks4" | SSocks5 => str "socks5" | SShadowsocks => str "shadowsocks"
  | SShadowsocksR => str "shadowsocksr" | STrojan => str "trojan" | SHttp2 => str "http2" | SHttp3 => str "http3" | SQuic => str "quic"
  | SWebSocket => str "websocket" | SRaw => str "raw" | SSsh => str "ssh" | SUnix => str "unix"
  end.

Definition debug_reason (r : RejectReason) : bytes :=
  match r with
  | RrUnsupportedProtocol => str "UnsupportedProtocol" | RrAuthRequired => str "AuthRequired" | RrAccessDenied => str "AccessDenied"
  | RrBlocked => str "Blocked" | RrInternalError => str "InternalError"
  end.

Definition debug_action `{!AdminLib} (a : RouteActionSpec) : bytes :=
  match a with
  | ActDirect => str "Direct"
  | ActUpstreamGroup g => str "UpstreamGroup(UpstreamGroupId(" ++ debug_str g ++ str "))"
  | ActReject r => str "Reject(" ++ debug_reason r ++ str ")"
  end.

(** ** What the endpoint reads *)

Record ListenerInfo := {
  lf_name : bytes; lf_bind : bytes; lf_local_addr : bytes; lf_protocols : list bytes; lf_udp_enabled : bool; lf_mode : option bytes;
  lf_capability_status : option bytes; lf_original_dst_support : option bool; lf_unix_socket_path : option bytes; lf_unix_socket_unlink_existing : option bool
}.

Record AdminSnapshot {Regex IpNet R} := {
  as_generation : Z; as_router : Router Regex IpNet R; as_pac : option PacConfig; as_static_routes : list StaticRoute; as_listeners : list ListenerInfo
}.
Arguments AdminSnapshot Regex IpNet R : clear implicits.

Record ReverseServerEntry := { rse_id : bytes; rse_control_bind : bytes; rse_state : ReverseServerState }.
Abbreviation ReverseRegistry := (gmap bytes ReverseServerEntry).
Definition register (e : ReverseServerEntry) (reg : ReverseRegistry) : ReverseRegistry := <[rse_id e := e]> reg.
Definition unregister (id : bytes) (reg : ReverseRegistry) : ReverseRegistry := delete id reg.

Record AdminState := {
  ast_uptime_secs : Z; ast_readiness : bool; ast_active_connections : option Z; ast_udp_registry : Registry; ast_reverse_registry : ReverseRegistry;
  ast_metrics_enabled : bool; ast_auth : option AdminAuthConfig; ast_udp_associations : Z; ast_udp_target_flows : Z; ast_udp_upstream_flows : Z
}.

Definition MAX_ADMIN_BODY : nat := Z.to_nat 16384.
Definition MAX_IDENTITY_LEN : nat := 256.

(** [collect_limited]: the body, or the message of the error. *)
Fixpoint collect_limited (result : bytes) (frames : list body_frame) : bytes + bytes :=
  match frames with
  | [] => inl result
  | FData data :: rest => if (MAX_ADMIN_BODY <? length result + length data)%nat then inr (str "request body too large") else collect_limited (result ++ data) rest
  | FTrailers :: rest => collect_limited result rest
  | FFailed :: _ => inr (str "failed to read request body")
  end.

(** ** Routes (routes.rs) *)

Section routes.
Context {Regex IpNet R : Type} `{HR : RandomIndex R} {AL : AdminLib} (is_match : Regex -> bytes -> bool) (cidr_contains : IpNet -> IpAddr -> bool).
(** The iteration orders of the registry of reverse servers and of the groups of a router. *)
Context (reverse_iter : ReverseRegistry -> list ReverseServerEntry) (groups_iter : gmap bytes (UpstreamGroup R) -> list (bytes * UpstreamGroup R)).

Definition optional {A} (name : string) (f : A -> json) (o : option A) : list (string * json) := match o with Some a => [(name, f a)] | None => [] end.

Definition listener_json (l : ListenerInfo) : json :=
  obj (app [("name"%string, JStr (lf_name l)); ("bind"%string, JStr (lf_bind l)); ("protocols"%string, JArr (map JStr (lf_protocols l))); ("udp_enabled"%string, JBool (lf_udp_enabled l))]
        (optional "mode" JStr (lf_mode l) ++ optional "capability_status" JStr (lf_capability_status l) ++
         optional "original_dst_support" JBool (lf_original_dst_support l) ++ optional "unix_socket_path" JStr (lf_unix_socket_path l) ++
         optional "unix_socket_unlink_existing" JBool (lf_unix_socket_unlink_existing l))).

Definition status_json (st : AdminState) (snap : AdminSnapshot Regex IpNet R) : json :=
  obj [("version"%string, JStr cargo_pkg_version); ("generation"%string, JNum (as_generation snap)); ("uptime_seconds"%string, JNum (ast_uptime_secs st));
       ("active_connections"%string, JNum (default 0 (ast_active_connections st))); ("listeners"%string, JArr (map listener_json (as_listeners snap)))].

Definition routes_json (router : Router Regex IpNet R) : json :=
  let rules := map (fun r => obj [("id"%string, JStr (rule_id r)); ("action"%string, JStr (debug_action (action r)))]) (rules router) in
  obj [("rules"%string, JArr rules); ("default_action"%string, JStr (debug_action (default_action router))); ("rule_count"%string, JNum (Z.of_nat (length rules)))].

Definition supported (b : bool) : json := JStr (if b then str "supported" else str "unsupported").

Definition member_json (m : UpstreamRuntime) : json :=
  let caps := classify_upstream_chain (chain m) in
  obj [("id"%string, JStr (id m)); ("protocols"%string, JArr (map (fun p => JStr (debug_protocol_lower p)) (concat (map protocols (hops (chain m))))));
       ("tcp_connect"%string, supported (is_tcp_supported caps)); ("udp_associate"%string, supported (is_udp_supported caps));
       ("health"%string, JStr (debug_health (cell_state (health m)))); ("eligible"%string, JBool (is_eligible m)); ("enabled"%string, JBool (is_enabled m));
       ("active"%string, JNum (active m)); ("in_flight"%string, JNum (in_flight m))].

Definition group_json (h : heap) (g : bytes * UpstreamGroup R) : json :=
  obj [("group_id"%string, JStr g.1); ("scheduler"%string, JStr (scheduler_name (scheduler_kind g.2))); ("member_count"%string, JNum (Z.of_nat (length (members g.2))));
       ("members"%string, JArr (omap (fun i => member_json <$> h !! i) (members g.2)))].

Definition config_json (st : AdminState) (snap : AdminSnapshot Regex IpNet R) : json :=
  obj [("generation"%string, JNum (as_generation snap)); ("uptime_seconds"%string, JNum (ast_uptime_secs st)); ("has_router"%string, JBool true);
       ("rule_count"%string, JNum (Z.of_nat (length (rules (as_router snap))))); ("upstream_group_count"%string, JNum (Z.of_nat (size (groups (as_router snap)))));
       ("default_action"%string, JStr (debug_action (default_action (as_router snap)))); ("static_routes_count"%string, JNum (Z.of_nat (length (as_static_routes snap))));
       ("has_pac"%string, JBool (bool_decide (is_Some (as_pac snap)))); ("listeners"%string, JArr (map (fun l => JStr (lf_name l)) (as_listeners snap)));
       ("active_connections"%string, JNum (default 0 (ast_active_connections st)))].

Definition udp_json (st : AdminState) (snap : AdminSnapshot Regex IpNet R) : json :=
  obj [("associations_active"%string, JNum (ast_udp_associations st)); ("target_flows_active"%string, JNum (ast_udp_target_flows st));
       ("upstream_flows_active"%string, JNum (ast_udp_upstream_flows st));
       ("listeners"%string, JArr (map (fun l => obj [("name"%string, JStr (lf_name l)); ("udp_enabled"%string, JBool (lf_udp_enabled l));
          ("active_associations"%string, JNum (Z.of_nat (active_count_for_listener (ast_udp_registry st) (lf_name l))))]) (as_listeners snap)))].

Definition reverse_json (st : AdminState) : json :=
  let servers := map (fun e => obj [("id"%string, JStr (rse_id e)); ("control_bind"%string, JStr (rse_control_bind e)); ("active_control"%string, JNum (active_control (rse_state e)));
    ("active_streams"%string, JNum (active_streams (rse_state e))); ("pending_external"%string, JNum (pending_external (rse_state e))); ("denied_bind"%string, JNum (denied_bind (rse_state e)));
    ("dropped_stream_limit"%string, JNum (dropped_stream_limit (rse_state e))); ("dropped_pending_limit"%string, JNum (dropped_pending_limit (rse_state e)))])
    (reverse_iter (ast_reverse_registry st)) in
  obj [("totals"%string, obj [("server_count"%string, JNum (Z.of_nat (length servers)))]); ("servers"%string, JArr servers)].

Definition explanation_json (e : RouteExplanation) : json :=
  obj [("target"%string, JStr (re_target e)); ("listener"%string, JStr (re_listener e)); ("protocol"%string, JStr (re_protocol e)); ("transport"%string, JStr (re_transport e));
       ("matched_rule"%string, jopt (re_matched_rule e)); ("action"%string, JStr (re_action e)); ("upstream_group"%string, jopt (re_upstream_group e));
       ("scheduler"%string, jopt (re_scheduler e));
       ("eligible_upstreams"%string, JArr (map (fun u => obj [("id"%string, JStr (ue_id u)); ("health"%string, JStr (debug_health (ue_health u))); ("eligible"%string, JBool (ue_eligible u));
          ("active"%string, JNum (ue_active u)); ("in_flight"%string, JNum (ue_in_flight u))]) (re_eligible_upstreams e)));
       ("selected_upstream"%string, jopt (re_selected_upstream e)); ("chain"%string, jopt (re_chain e)); ("generation"%string, JNum (re_generation e))].

Definition jerror (msg : bytes) : bytes := json_to_string (obj [("error"%string, JStr msg)]).
Definition bad_request (msg : bytes) : response := build_json_response 400 (jerror msg).

(** The identity a route is explained for. *)
Definition explain_identity (raw : option bytes) : response + ClientIdentity :=
  match raw with
  | Some raw =>
      if is_empty raw then inl (bad_request (str "identity must be non-empty"))
      else if (MAX_IDENTITY_LEN <? length raw)%nat then inl (bad_request (str "identity too long"))
      else inr (Username raw)
  | None => inr Anonymous
  end.

(** The request of a body; why a target or a source does not parse is left out of the text. *)
Definition explain_request (body : json) : response + RouteRequest :=
  match get_str body "target", get_str body "listener", get_str body "protocol" with
  | None, _, _ => inl (bad_request (str "missing 'target' field"))
  | _, None, _ => inl (bad_request (str "missing 'listener' field"))
  | _, _, None => inl (bad_request (str "missing 'protocol' field"))
  | Some target_str, Some listener_str, Some protocol_str =>
      match parse_target_addr target_str with
      | Ok target =>
          let protocol :=
            if bool_decide (protocol_str = str "http") then Some PHttp
            else if bool_decide (protocol_str = str "socks4") then Some PSocks4
            else if bool_decide (protocol_str = str "socks5") then Some PSocks5
            else None in
          match protocol with
          | None => inl (bad_request (str "unknown protocol: " ++ protocol_str))
          | Some protocol =>
              let source :=
                match get_str body "source" with
                | Some raw => match parse_socket_addr raw with Some (ip, p) => inr (Some {| sa_ip := ip; sa_port := p |}) | None => inl (bad_request (str "invalid source")) end
                | None => inr None
                end in
              match source with
              | inl r => inl r
              | inr source =>
                  match explain_identity (get_str body "identity") with
                  | inl r => inl r
                  | inr identity =>
                      inr {| rq_target := target; rq_source := source; rq_listener := listener_str; rq_protocol := protocol; rq_identity := identity; rq_transport := Tcp |}
                  end
              end
          end
      | _ => inl (bad_request (str "invalid target"))
      end
  end.

Definition route_explain (h : heap) (snap : AdminSnapshot Regex IpNet R) (req : request) : response * Router Regex IpNet R :=
  let router := as_router snap in
  if negb (bool_decide (req_method req = str "POST")) then (build_text_response 405 (str "method not allowed"), router) else
  match collect_limited [] (req_body req) with
  | inr e => (build_json_response 413 (jerror e), router)
  | inl body =>
      match json_from_slice body with
      | None => (bad_request (str "invalid JSON body"), router)
      | Some body =>
          match explain_request body with
          | inl r => (r, router)
          | inr request =>
              let '(explanation, router) := explain is_match cidr_contains router h request (as_generation snap) in
              (build_json_response 200 (json_to_string (explanation_json explanation)), router)
          end
      end
  end.

(** A path that is none of the endpoint's own. *)
Definition serve_other (snap : AdminSnapshot Regex IpNet R) (path : bytes) : response :=
  let static := match List.find (fun r => bool_decide (st_path r = path)) (as_static_routes snap) with Some route => serve_static route | None => build_not_found end in
  match as_pac snap with
  | Some pac_config => if bool_decide (path = pf_path pac_config) then build_response 200 (generate_pac pac_config) (str "application/x-ns-proxy-autoconfig") else static
  | None => static
  end.

(** [handle_request]: the response, and the router, whose schedulers an explanation moves. *)
Definition handle_request (h : heap) (st : AdminState) (snap : AdminSnapshot Regex IpNet R) (req : request) : response * Router Regex IpNet R :=
  let path := req_path req in
  let is_path s := bool_decide (path = str s) in
  let answer r := (r, as_router snap) in
  let json_ok j := answer (build_json_response 200 (json_to_string j)) in
  if is_path "/-/health"%string then answer (build_text_response 200 (str "ok"))
  else if is_path "/-/ready"%string then answer (if ast_readiness st then build_text_response 200 (str "ready") else build_text_response 503 (str "not ready"))
  else if is_path "/-/status"%string then json_ok (status_json st snap)
  else if is_path "/-/routes"%string then json_ok (routes_json (as_router snap))
  else if is_path "/-/upstreams"%string then json_ok (JArr (map (group_json h) (groups_iter (groups (as_router snap)))))
  else if is_path "/-/config"%string then json_ok (config_json st snap)
  else if is_path "/-/udp"%string then json_ok (udp_json st snap)
  else if is_path "/-/reverse"%string then json_ok (reverse_json st)
  else if is_path "/-/route-explain"%string then route_explain h snap req
  else if is_path "/metrics"%string then answer (if ast_metrics_enabled st then build_response 200 render_prometheus (str "text/plain; version=0.0.4") else build_not_found)
  else answer (serve_other snap path).

(** ** The service of a connection (server.rs) *)

Definition unauthorized (blocked : option Z) : response :=
  {| resp_status := match blocked with Some _ => 429 | None => 401 end; resp_content_type := str "text/plain"; resp_challenge := Some (str "Bearer, Basic");
     resp_retry_after := (fun duration => to_dec (Z.max (Z.min (duration / SECOND + 1) (2 ^ 64 - 1)) 1)) <$> blocked;
     resp_body := match blocked with Some _ => str "too many authentication failures" | None => str "unauthorized" end |}.

(** One request of the peer [ip]; a failure is recorded at [now] and looked up at [later]. *)
Definition serve `{HI : HashIter} (now later : Z) (ip : IpAddr) (h : heap) (st : AdminState) (snap : AdminSnapshot Regex IpNet R) (req : request) (entries : AuthFailureLimiter)
    : response * Router Regex IpNet R * AuthFailureLimiter :=
  let refused := match ast_auth st with Some auth => negb (authorized base64_decode req auth) | None => false end in
  if refused then
    let entries := record_failure now ip entries in
    (unauthorized (blocked_for later ip entries), as_router snap, entries)
  else (handle_request h st snap req, record_success ip entries).

End routes.

(** ** What a runtime publishes (supervisor/operations.rs) *)

(** [check] is the capability of the platform: its text, and whether it is available. *)
Definition listener_info (check : bytes * bool) (local : option bytes) (l : ListenerConfig) : ListenerInfo :=
  let transparent := match lc_transparent l with Some t => ct_enabled t | None => false end in
  let unix_path := cu_path <$> lc_unix l in
  {| lf_name := lc_name l; lf_bind := lc_bind l; lf_local_addr := default [] (match local with Some a => Some a | None => unix_path end);
     lf_protocols := map fmt_protocol_id (lc_protocols l); lf_udp_enabled := match lc_udp l with Some u => lu_enabled u | None => false end;
     lf_mode := Some (if transparent then str "transparent" else if bool_decide (is_Some (lc_unix l)) then str "unix" else str "standard");
     lf_capability_status := if transparent then Some check.1 else None; lf_original_dst_support := if transparent then Some check.2 else None;
     lf_unix_socket_path := unix_path; lf_unix_socket_unlink_existing := cu_unlink_existing <$> lc_unix l |}.

Definition listener_infos (check : bytes * bool) (addrs : list (option bytes)) (ls : list ListenerConfig) : list ListenerInfo :=
  imap (fun i l => listener_info check (mjoin (addrs !! i)) l) ls.

Definition admin_snapshot {Regex IpNet R} (check : bytes * bool) (addrs : list (option bytes)) (generation : Z) (router : Router Regex IpNet R) (listeners : list ListenerConfig) (admin : option AdminConfig)
    : AdminSnapshot Regex IpNet R :=
  {| as_generation := generation; as_router := router; as_pac := admin ≫= am_pac; as_static_routes := default [] (am_static_content <$> admin);
     as_listeners := listener_infos check addrs listeners |}.

(** ** Properties *)

Definition presented (scheme payload : bytes) (req : request) : Prop :=
  exists s, header_get (str "authorization") (req_headers req) = Some (s ++ x20 :: payload) /\ eq_ignore_ascii_case s scheme = true /\ x20 ∉ s /\
    forallb visible (s ++ x20 :: payload) = true.

(** The request carries the credentials of the endpoint. *)
Definition holds (decode : bytes -> option bytes) (auth : AdminAuthConfig) (req : request) : Prop :=
  match ac_bearer_token auth with
  | Some token => presented (str "Bearer") token req
  | None => exists user pass encoded, ac_basic_username auth = Some user /\ ac_basic_password auth = Some pass /\ x3a ∉ user /\
      presented (str "Basic") encoded req /\ decode encoded = Some (user ++ x3a :: pass)
  end.

Lemma authorization_payload_spec req scheme payload : authorization_payload req scheme = Some payload <-> presented scheme payload req.
Proof.
  unfold authorization_payload, presented. destruct (header_get _ _) as [v|]; [|split; [done|by intros (? & ? & _)]]. split.
  - destruct (forallb visible v) eqn:Ev; [|done]. cbn [negb]. unfold split_once. destruct (find_byte x20 v) as [i|] eqn:Ef; [|done]. cbn [fmap option_fmap option_map].
    destruct (eq_ignore_ascii_case (take i v) scheme) eqn:Es; [|done]. intros [= <-]. apply find_byte_Some in Ef as [Hv Hn].
    exists (take i v). rewrite <- Hv. by rewrite Ev.
  - intros (s & [= ->] & Hs & Hn & ->). cbn [negb]. unfold split_once. rewrite find_byte_app by done. cbn.
    rewrite take_app_length, Hs. f_equal. rewrite drop_app_ge by lia. by rewrite Nat.sub_succ_l, Nat.sub_diag.
Qed.

Lemma authorized_spec decode req auth : authorized decode req auth = true <-> holds decode auth req.
Proof.
  unfold authorized, holds, ct_eq. destruct (ac_bearer_token auth) as [token|].
  - rewrite <- authorization_payload_spec. destruct (authorization_payload _ _) as [t|]; [|by split]. rewrite bool_decide_eq_true. split; [by intros ->|by intros [= ->]].
  - destruct (ac_basic_username auth) as [u|]; [|split; [done|by intros (? & ? & ? & ? & _)]].
    destruct (ac_basic_password auth) as [p|]; [|split; [done|by intros (? & ? & ? & _ & ? & _)]]. split.
    + destruct (authorization_payload req (str "Basic")) as [e|] eqn:Ee; [|done]. cbn [mbind option_bind]. apply authorization_payload_spec in Ee.
      destruct (decode e) as [value|] eqn:Ed; [|done]. destruct (find_byte x3a value) as [i|] eqn:Ef; [|done]. apply find_byte_Some in Ef as [Hv Hn].
      rewrite andb_true_iff, !bool_decide_eq_true. intros [Hu Hp]. exists u, p, e. rewrite Hu in Hn. split; [done|]. split; [done|]. split; [done|]. split; [done|].
      by rewrite Ed, <- Hu, <- Hp, <- Hv.
    + intros (user & pass & e & [= <-] & [= <-] & Hn & He%authorization_payload_spec & Hd). rewrite He. cbn [mbind option_bind]. rewrite Hd, find_byte_app by done.
      rewrite take_app_length, drop_app_ge by lia. rewrite Nat.sub_succ_l, Nat.sub_diag by lia. cbn. rewrite !bool_decide_eq_true_2 by done. done.
Qed.

Section limiter_properties.
Context {HI : HashIter}.

Lemma min_by_key_elem {A} (k : A -> Z) l x : min_by_key k l = Some x -> x ∈ l.
Proof using Type.
  revert x. induction l as [|y l IH]; intros x; [done|]. cbn. destruct (min_by_key k l) as [z|]; [|intros [= <-]; left].
  destruct (_ <? _); intros [= <-]; [right; by apply IH|left].
Qed.

Lemma min_by_key_some {A} (k : A -> Z) l : l <> [] -> is_Some (min_by_key k l).
Proof using Type. destruct l as [|y l]; [done|]. intros _. cbn. destruct (min_by_key k l) as [z|]; [destruct (_ <? _)|]; by eexists. Qed.

(** Making room never touches the entry of the address it is made for. *)
Lemma make_room_lookup now ip m : make_room now ip m !! ip = m !! ip.
Proof using Type.
  unfold make_room. destruct (_ <=? _)%nat; [|done]. case_bool_decide as Hi; [done|]. cbn [andb negb]. rewrite <- not_eq_None_Some in Hi.
  destruct (m !! ip) eqn:E; [by destruct Hi|]. clear Hi.
  assert (filter (fun x => in_window now x.2 = true) m !! ip = None) as Hf by (apply map_lookup_filter_None; by left).
  destruct (_ <=? _)%nat; [|done]. destruct (min_by_key _ _) as [[v e]|]; [|done]. apply lookup_delete_None. by right.
Qed.

Lemma record_failure_lookup now ip m : record_failure now ip m !! ip = Some (fail_entry now (default AuthFailure_default (m !! ip))).
Proof using Type. unfold record_failure. by rewrite lookup_insert, make_room_lookup, decide_True. Qed.

Lemma make_room_size now ip m : (size m <= MAX_AUTH_FAILURE_ENTRIES)%nat -> m !! ip = None -> (size (make_room now ip m) < MAX_AUTH_FAILURE_ENTRIES)%nat.
Proof using Type.
  intros Hs Hi. unfold make_room. rewrite Hi, bool_decide_eq_false_2 by (by intros [? ?]). cbn [negb]. rewrite andb_true_r.
  destruct (_ <=? size m)%nat eqn:E1; [|by apply Nat.leb_gt]. set (kept := filter _ m). destruct (_ <=? size kept)%nat eqn:E2; [|by apply Nat.leb_gt].
  apply Nat.leb_le in E1, E2. assert (size kept <= size m)%nat as Hk by apply map_size_filter.
  assert (hash_iter kept <> []) as Hne.
  { intros Hnil. pose proof (hash_iter_perm _ kept) as Hp. rewrite Hnil in Hp. apply Permutation_nil in Hp. apply map_to_list_empty_iff in Hp. rewrite Hp, map_size_empty in E2.
    by apply Nat.leb_le in E2. }
  destruct (min_by_key_some (fun x => default now (window_started x.2)) _ Hne) as [[v e] Hm]. rewrite Hm. apply min_by_key_elem in Hm.
  rewrite hash_iter_perm, elem_of_map_to_list in Hm. rewrite map_size_delete_Some by by eexists. assert (0 < MAX_AUTH_FAILURE_ENTRIES)%nat by (by apply Nat.ltb_lt). lia.
Qed.

(** The table never holds more addresses than its limit. *)
Lemma limiter_bounded now ip m : (size m <= MAX_AUTH_FAILURE_ENTRIES)%nat -> (size (record_failure now ip m) <= MAX_AUTH_FAILURE_ENTRIES)%nat.
Proof using Type.
  intros Hs. unfold record_failure. destruct (m !! ip) as [e|] eqn:E.
  - assert (bool_decide (is_Some (m !! ip)) = true) as Hb by (apply bool_decide_eq_true_2; by exists e).
    assert (make_room now ip m = m) as -> by (unfold make_room; rewrite Hb; by rewrite andb_false_r).
    rewrite map_size_insert_Some; [done|by exists e].
  - pose proof (make_room_size now ip m Hs E). rewrite map_size_insert_None by by rewrite make_room_lookup. lia.
Qed.

(** The window that still runs at [now]: when it started, and its failures. *)
Definition running_window (now : Z) (old : option AuthFailure) : option (Z * Z) :=
  match old with
  | Some e => match window_started e with Some t => if now - t <? AUTH_FAILURE_WINDOW then Some (t, failures e) else None | None => None end
  | None => None
  end.

(** One more failure at [now]: counted in the window that runs or as the first of a new
    one; from the fifth on the address is blocked for half a minute. *)
Definition failure_counted (now : Z) (old : option AuthFailure) (e : AuthFailure) : Prop :=
  match running_window now old with
  | Some (t, n) => window_started e = Some t /\ failures e = Z.min (n + 1) (U32 - 1)
  | None => window_started e = Some now /\ failures e = 1
  end /\
  blocked_until e = if 5 <=? failures e then Some (now + 30 * SECOND) else match old with Some o => blocked_until o | None => None end.

(** The other addresses keep their entries.  Only when the table is full and the address
    is new is room made: entries whose window is over go, and if there are none such, the
    one whose window started first. *)
Record others_kept (now : Z) (ip : IpAddr) (m m' : AuthFailureLimiter) : Prop := {
  ok_new : forall j, j <> ip -> m !! j = None -> m' !! j = None;
  ok_old : forall j e, j <> ip -> m !! j = Some e ->
    m' !! j = Some e \/ m' !! j = None /\ (MAX_AUTH_FAILURE_ENTRIES <= size m)%nat /\ m !! ip = None /\
      (running_window now (Some e) = None \/
       forall k f t n, m !! k = Some f -> running_window now (Some f) = Some (t, n) -> exists t0 n0, running_window now (Some e) = Some (t0, n0) /\ t0 <= t);
  ok_one : forall j k e f, j <> ip -> k <> ip -> m !! j = Some e -> m !! k = Some f -> m' !! j = None -> m' !! k = None ->
    is_Some (running_window now (Some e)) -> is_Some (running_window now (Some f)) -> j = k
}.

Lemma running_in_window now e : in_window now e = bool_decide (is_Some (running_window now (Some e))).
Proof using Type.
  unfold in_window, running_window, duration_since. destruct (window_started e) as [t|]; [|by rewrite bool_decide_eq_false_2 by by intros [? ?]].
  assert (0 < AUTH_FAILURE_WINDOW) by done. destruct (Z.ltb_spec (now - t) AUTH_FAILURE_WINDOW).
  - rewrite bool_decide_eq_true_2 by by eexists. apply Z.ltb_lt. lia.
  - rewrite bool_decide_eq_false_2 by by intros [? ?]. apply Z.ltb_ge. lia.
Qed.

Lemma fail_entry_counts now old : failure_counted now old (fail_entry now (default AuthFailure_default old)).
Proof using Type.
  unfold failure_counted, fail_entry. destruct old as [o|]; [|done]. cbn [default]. change (Datatypes.id o) with o. rewrite running_in_window.
  destruct (running_window now (Some o)) as [[t n]|] eqn:E; cbn [running_window] in E.
  - rewrite bool_decide_eq_true_2 by by eexists. cbn [window_started failures blocked_until].
    destruct (window_started o) as [t'|]; [|done]. destruct (_ <? _); [|done]. injection E as -> <-. done.
  - rewrite bool_decide_eq_false_2 by by intros [? ?]. done.
Qed.

Lemma min_by_key_min {A} (k : A -> Z) l x : min_by_key k l = Some x -> forall y, y ∈ l -> k x <= k y.
Proof using Type.
  revert x. induction l as [|z l IH]; intros x; [done|]. cbn. intros Hx y Hy%elem_of_cons. destruct (min_by_key k l) as [w|] eqn:E.
  - specialize (IH w eq_refl). destruct (Z.ltb_spec (k w) (k z)); injection Hx as <-; destruct Hy as [->|Hy]; try specialize (IH y Hy); lia.
  - injection Hx as <-. destruct Hy as [->|Hy]; [lia|]. destruct l as [|a l]; [by apply elem_of_nil in Hy|].
    destruct (min_by_key_some k (a :: l) ltac:(done)) as [? ?]. congruence.
Qed.

(** Making room: the entries that stay are those whose window runs, but one. *)
Lemma make_room_cases now ip m : make_room now ip m = m \/
  (MAX_AUTH_FAILURE_ENTRIES <= size m)%nat /\ m !! ip = None /\ exists kept, (forall j, kept !! j = (m !! j ≫= fun e => if in_window now e then Some e else None)) /\
    (make_room now ip m = kept \/ exists v e, kept !! v = Some e /\ make_room now ip m = delete v kept /\
       forall k f, kept !! k = Some f -> default now (window_started e) <= default now (window_started f)).
Proof using Type.
  unfold make_room. destruct (Nat.leb_spec MAX_AUTH_FAILURE_ENTRIES (size m)) as [Hs|]; [|by left]. case_bool_decide as Hi; [by left|]. cbn [andb negb].
  right. split; [done|]. split; [by apply eq_None_not_Some|]. set (kept := filter _ m). exists kept. split.
  - intros j. subst kept. rewrite map_lookup_filter. destruct (m !! j) as [e|]; [|done]. cbn. case_guard as Hg; [by rewrite Hg|]. by destruct (in_window now e).
  - destruct (_ <=? size kept)%nat; [|by left]. destruct (min_by_key _ (hash_iter kept)) as [[v e]|] eqn:Em; [right|by left].
    assert (forall k f, (k, f) ∈ hash_iter kept <-> kept !! k = Some f) as Hit by (intros; by rewrite hash_iter_perm, elem_of_map_to_list).
    exists v, e. split; [apply Hit; by eapply min_by_key_elem|]. split; [done|]. intros k f Hk. by apply (min_by_key_min _ _ _ Em (k, f)), Hit.
Qed.

Lemma running_start now e : is_Some (running_window now (Some e)) -> exists t, window_started e = Some t /\ running_window now (Some e) = Some (t, failures e).
Proof using Type. cbn. intros [x Hx]. destruct (window_started e) as [t|]; [|done]. exists t. split; [done|]. by destruct (_ <? _). Qed.

Lemma failure_keeps_others now ip m : others_kept now ip m (record_failure now ip m).
Proof using Type.
  assert (forall j, j <> ip -> record_failure now ip m !! j = make_room now ip m !! j) as Hrf
    by (intros j Hj; unfold record_failure; by rewrite lookup_insert_ne).
  destruct (make_room_cases now ip m) as [E|(Hs & Hip & kept & Hk & Hr)].
  { rewrite E in Hrf. split; [intros j Hj Hm; by rewrite Hrf|intros j e Hj Hm; left; by rewrite Hrf|].
    intros j k e f Hj Hkk He Hf Hn _. rewrite Hrf in Hn by done. congruence. }
  assert (forall j, make_room now ip m !! j = kept !! j \/ make_room now ip m !! j = None /\ exists v e, j = v /\ kept !! v = Some e /\ make_room now ip m = delete v kept /\
    forall k f, kept !! k = Some f -> default now (window_started e) <= default now (window_started f)) as Hcase.
  { intros j. destruct Hr as [-> |(v & e & Hv & -> & Hmin)]; [by left|]. destruct (decide (v = j)) as [->|Hne]; [right|left; by rewrite lookup_delete_ne].
    split; [apply lookup_delete_eq|]. by exists j, e. }
  assert (forall j e, m !! j = Some e -> kept !! j = if in_window now e then Some e else None) as Hke by (intros j e He; by rewrite Hk, He).
  split.
  - intros j Hj Hm. rewrite Hrf by done. destruct (Hcase j) as [->|[-> _]]; [|done]. by rewrite Hk, Hm.
  - intros j e Hj He. rewrite Hrf by done. destruct (Hcase j) as [E|[E (v & e' & <- & Hv & _ & Hmin)]]; rewrite E.
    + rewrite (Hke j e He), running_in_window. case_bool_decide as Hw; [by left|right]. do 3 (split; [done|]). left. by apply eq_None_not_Some.
    + right. do 3 (split; [done|]). right. rewrite (Hke j e He) in Hv. destruct (in_window now e) eqn:Ew; [|done]. injection Hv as <-.
      intros k f t n Hf Hw. assert (kept !! k = Some f) as Hkf by (rewrite (Hke k f Hf), running_in_window, bool_decide_eq_true_2; [done|by eexists]).
      specialize (Hmin k f Hkf). rewrite running_in_window in Ew. apply bool_decide_eq_true in Ew. destruct (running_start now e Ew) as (t0 & Ht0 & ->).
      destruct (running_start now f ltac:(by eexists)) as (t1 & Ht1 & Hw1). rewrite Hw in Hw1. injection Hw1 as -> _. rewrite Ht0, Ht1 in Hmin. by exists t0, (failures e).
  - intros j k e f Hj Hkk He Hf Hnj Hnk Hwj Hwk. rewrite Hrf in Hnj, Hnk by done.
    assert (forall i x, m !! i = Some x -> is_Some (running_window now (Some x)) -> kept !! i = Some x) as Hin
      by (intros i x Hx Hw; by rewrite (Hke i x Hx), running_in_window, bool_decide_eq_true_2).
    destruct (Hcase j) as [E|[_ (v & x & -> & Hv & Ed & _)]]; [by rewrite E, (Hin j e) in Hnj|].
    destruct (decide (v = k)) as [|Hne]; [done|]. by rewrite Ed, lookup_delete_ne, (Hin k f) in Hnk.
Qed.

(** A burst: failures of one address at the times [ts], within one window from the first. *)
Definition burst (ip : IpAddr) (ts : list Z) (m : AuthFailureLimiter) : AuthFailureLimiter := foldl (fun m t => record_failure t ip m) m ts.

Lemma burst_entry ip t0 ts m e : m !! ip = Some e -> window_started e = Some t0 -> 0 <= failures e -> failures e + Z.of_nat (length ts) < U32 ->
  Forall (fun t => t0 <= t < t0 + AUTH_FAILURE_WINDOW) ts ->
  exists e', burst ip ts m !! ip = Some e' /\ window_started e' = Some t0 /\ failures e' = failures e + Z.of_nat (length ts) /\
    (ts = [] -> blocked_until e' = blocked_until e) /\
    (forall t, last ts = Some t -> blocked_until e' = if AUTH_FAILURE_LIMIT <=? failures e' then Some (t + AUTH_FAILURE_BLOCK) else blocked_until e).
Proof using Type.
  revert m e. induction ts as [|t ts IH]; intros m e He Hw Hf Hs Hts; [exists e; cbn; split_and!; try done; lia|].
  apply Forall_cons in Hts as [Ht Hts]. cbn [burst foldl]. cbn [length] in Hs.
  assert (fail_entry t e = {| window_started := Some t0; failures := failures e + 1; blocked_until := if AUTH_FAILURE_LIMIT <=? failures e + 1 then Some (t + AUTH_FAILURE_BLOCK) else blocked_until e |}) as Hfe.
  { unfold fail_entry, in_window. rewrite Hw. unfold duration_since. rewrite Z.max_r by lia. rewrite (proj2 (Z.ltb_lt _ _)) by lia. rewrite Hw. rewrite Z.min_l by lia. done. }
  destruct (IH (record_failure t ip m) (fail_entry t e)) as (e' & He' & Hw' & Hf' & Hn & Hb); [by rewrite record_failure_lookup, He|by rewrite Hfe|rewrite Hfe; cbn; lia|rewrite Hfe; cbn; lia|done|].
  exists e'. split; [done|]. split; [done|]. rewrite Hf', Hfe in *. cbn [failures blocked_until length] in *. split; [lia|]. split; [done|].
  intros t' Hl. destruct ts as [|t2 ts].
  - injection Hl as <-. rewrite Hn by done. cbn [length]. by rewrite Z.add_0_r.
  - rewrite (Hb t') by done. cbn [length].
    destruct (Z.leb_spec AUTH_FAILURE_LIMIT (failures e + 1 + Z.of_nat (S (length ts)))); [done|]. by rewrite (proj2 (Z.leb_gt _ _)) by lia.
Qed.

(** The fifth failure of a burst is refused with 429 and so is every later one; the first
    four are refused with 401. *)
Lemma burst_blocks ip t0 ts m later : m !! ip = None -> Forall (fun t => t0 <= t < t0 + AUTH_FAILURE_WINDOW) (t0 :: ts) -> Z.of_nat (length ts) < U32 - 1 ->
  (forall t, last (t0 :: ts) = Some t -> t <= later <= t + AUTH_FAILURE_BLOCK) ->
  (is_Some (blocked_for later ip (burst ip (t0 :: ts) m)) <-> AUTH_FAILURE_LIMIT <= Z.of_nat (length (t0 :: ts))).
Proof using Type.
  intros Hm Hts Hlen Hl. apply Forall_cons in Hts as [Ht0 Hts]. change (burst ip (t0 :: ts) m) with (burst ip ts (record_failure t0 ip m)).
  destruct (burst_entry ip t0 ts (record_failure t0 ip m) {| window_started := Some t0; failures := 1; blocked_until := None |}) as (e & He & _ & Hf & Hn & Hb);
    [by rewrite record_failure_lookup, Hm|done|done|cbn; lia|done|].
  unfold blocked_for. rewrite He. cbn [failures blocked_until length] in *. destruct ts as [|t ts].
  - rewrite Hn by done. split; [by intros [? ?]|done].
  - destruct (last (t :: ts)) as [tl|] eqn:El; [|by apply last_None in El]. specialize (Hl tl El). rewrite (Hb tl) by done. rewrite Hf.
    replace (1 + Z.of_nat (length (t :: ts))) with (Z.of_nat (S (length (t :: ts)))) by lia.
    destruct (Z.leb_spec AUTH_FAILURE_LIMIT (Z.of_nat (S (length (t :: ts))))) as [H|H].
    + rewrite (proj2 (Z.leb_le _ _)) by lia. split; [done|by eexists].
    + split; [by intros [? ?]|lia].
Qed.

End limiter_properties.

Section service_properties.
Context {Regex IpNet R : Type} `{HR : RandomIndex R} {AL : AdminLib} {HI : HashIter} (is_match : Regex -> bytes -> bool) (cidr_contains : IpNet -> IpAddr -> bool).
Context (reverse_iter : ReverseRegistry -> list ReverseServerEntry) (groups_iter : gmap bytes (UpstreamGroup R) -> list (bytes * UpstreamGroup R)).
Abbreviation handle := (handle_request is_match cidr_contains reverse_iter groups_iter).
Abbreviation served := (serve is_match cidr_contains reverse_iter groups_iter).

(** C38. An exposed admin endpoint answers only to its credentials.  Take any admin section
    that passes validation and compiles, enabled on an address that is not a loopback
    one: it has credentials, none of them empty.  A request that does not carry them
    never gets data of the process, and it changes nothing but the limiter: it is counted
    in the entry of its address, in the running window of a minute or as the first of a
    new one, and from the fifth failure on the address is blocked for half a minute; the
    answer is 429, with the time to wait, exactly while the address is blocked, and 401
    otherwise.  The entries of other addresses stay, unless the limiter is full and the
    address is new: then those whose window is over go, and at most one other, the one
    whose window started first.  The limiter stays within its bound.  A request that
    carries the credentials is handled, whatever the limiter says, and clears the entry
    of its address. *)
Theorem admin_guarded env a c ip port now later peer h st (snap : AdminSnapshot Regex IpNet R) req entries :
  validate_admin a = [] -> compile_admin env (Some a) = Ok (Some c) -> am_enabled c = true ->
  parse_socket_addr (am_bind c) = Some (ip, port) -> loopback_ip ip = false -> ast_auth st = am_auth c -> (size entries <= MAX_AUTH_FAILURE_ENTRIES)%nat ->
  exists auth, am_auth c = Some auth /\ credentials auth /\
    let '(resp, router, entries') := served now later peer h st snap req entries in
    (holds base64_decode auth req -> (resp, router) = handle h st snap req /\ entries' = delete peer entries) /\
    (~ holds base64_decode auth req ->
       router = as_router snap /\ (size entries' <= MAX_AUTH_FAILURE_ENTRIES)%nat /\ others_kept now peer entries entries' /\
       exists e, entries' !! peer = Some e /\ failure_counted now (entries !! peer) e /\
       if match blocked_until e with Some until => later <=? until | None => false end
       then resp_status resp = 429 /\ resp_body resp = str "too many authentication failures" /\ is_Some (resp_retry_after resp)
       else resp_status resp = 401 /\ resp_body resp = str "unauthorized" /\ resp_retry_after resp = None).
Proof using Type.
  intros Hv Hc He Hp Hl Hst Hsize. destruct (exposed_admin_authenticated env a c Hv Hc) as ((ip' & port' & Hp' & Hx) & Hcred & _).
  assert (ip' = ip) as -> by congruence. destruct (Hx He Hl) as [auth Ha]. exists auth. split; [done|]. split; [by apply Hcred|].
  unfold serve. rewrite Hst, Ha. destruct (authorized base64_decode req auth) eqn:E; cbn [negb].
  - apply authorized_spec in E. destruct (handle h st snap req) as [resp router]. split; [done|]. by intros Hn.
  - split; [intros Hh%authorized_spec; congruence|]. intros _. split; [done|]. split; [by apply limiter_bounded|]. split; [apply failure_keeps_others|].
    eexists. split; [apply record_failure_lookup|]. split; [apply fail_entry_counts|]. unfold blocked_for. rewrite record_failure_lookup.
    destruct (blocked_until _) as [u|]; [destruct (_ <=? _)|]; cbn; split_and!; try done; by eexists.
Qed.

Definition served_paths : list bytes :=
  map str ["/-/health"; "/-/ready"; "/-/status"; "/-/routes"; "/-/upstreams"; "/-/config"; "/-/udp"; "/-/reverse"; "/-/route-explain"; "/metrics"]%string.

Lemma handle_other h st snap req : req_path req ∉ served_paths -> handle h st snap req = (serve_other snap (req_path req), as_router snap).
Proof using Type.
  intros Hn. unfold handle_request. repeat (rewrite bool_decide_eq_false_2 by (intros E; apply Hn; rewrite E; unfold served_paths; set_solver)). done.
Qed.

Lemma find_static (l : list StaticRoute) r : NoDup (map st_path l) -> r ∈ l -> List.find (fun x => bool_decide (st_path x = st_path r)) l = Some r.
Proof using Type.
  induction l as [|x l IH]; intros Hnd Hin; [by apply elem_of_nil in Hin|]. cbn in *. apply NoDup_cons in Hnd as [Hx Hnd]. apply elem_of_cons in Hin as [->|Hin].
  - by rewrite bool_decide_eq_true_2.
  - rewrite bool_decide_eq_false_2; [by apply IH|]. intros E. apply Hx. rewrite E. by apply (list_elem_of_fmap_2 st_path).
Qed.

(** A static route of an accepted section is served under its path, unless the path is the
    one of the auto-configuration file or one of the two routes of the endpoint that
    validation does not reserve, [/-/udp] and [/-/reverse]. *)
Lemma static_routes_served env a c check addrs generation router listeners h st req r :
  validate_admin a = [] -> compile_admin env (Some a) = Ok (Some c) -> r ∈ am_static_content c -> req_path req = st_path r ->
  (forall p, am_pac c = Some p -> pf_path p <> st_path r) -> st_path r <> str "/-/udp" -> st_path r <> str "/-/reverse" ->
  handle h st (admin_snapshot check addrs generation router listeners (Some c)) req = (build_response 200 (st_body r) (st_content_type r), router).
Proof using Type.
  intros Hv Hc Hin Hpath Hpac Hu Hr. destruct (exposed_admin_authenticated env a c Hv Hc) as (_ & _ & Hnd & Hres). rewrite Forall_forall in Hres. destruct (Hres r Hin) as [_ Hnot].
  rewrite handle_other.
  - unfold serve_other, admin_snapshot. cbn [as_pac as_static_routes as_router mbind option_bind default fmap option_fmap option_map]. rewrite Hpath, find_static by done. unfold serve_static.
    destruct (am_pac c) as [p|] eqn:Ep; [|done]. rewrite bool_decide_eq_false_2; [done|]. intros E. by apply (Hpac p eq_refl).
  - rewrite Hpath. intros Hs. apply Hnot. unfold served_paths, reserved_paths in *. set_solver.
Qed.

End service_properties.

(** ** The auto-configuration file *)

Definition hex_digit (b : byte) : option Z := Z.of_nat <$> find_byte b (str "0123456789abcdef").

(** The escapes [\uXXXX] of a JavaScript string: one byte, or the two separators. *)
Definition js_code (a b c d : byte) : option bytes :=
  match hex_digit a, hex_digit b, hex_digit c, hex_digit d with
  | Some a, Some b, Some c, Some d =>
      let code := ((a * 16 + b) * 16 + c) * 16 + d in
      if code <? 128 then Some [Z2b code] else if code =? 8232 then Some [xe2; x80; xa8] else if code =? 8233 then Some [xe2; x80; xa9] else None
  | _, _, _, _ => None
  end.

Definition separator (s : bytes) : bool := match s with b :: c :: d :: _ => (b =b xe2) && (c =b x80) && ((d =b xa8) || (d =b xa9)) | _ => false end.

(** A reader of JavaScript string literals, after the opening quote: what the literal
    denotes and what follows it.  Line terminators and other controls are not allowed
    inside. *)
Fixpoint read_js_string (s : bytes) : option (bytes * bytes) :=
  match s with
  | [] => None
  | b :: r =>
      if b =b x22 then Some ([], r)
      else if b =b x5c then
        match r with
        | [] => None
        | e :: r1 =>
            let simple c := (fun '(v, rest) => (c :: v, rest)) <$> read_js_string r1 in
            if e =b x5c then simple x5c else if e =b x22 then simple x22 else if e =b x6e then simple x0a else if e =b x72 then simple x0d else if e =b x74 then simple x09
            else if e =b x75 then
              match r1 with
              | h1 :: h2 :: h3 :: h4 :: r2 => match js_code h1 h2 h3 h4 with Some c => (fun '(v, rest) => (c ++ v, rest)) <$> read_js_string r2 | None => None end
              | _ => None
              end
            else None
        end
      else if (b2Z b <? 32) || separator s then None
      else (fun '(v, rest) => (b :: v, rest)) <$> read_js_string r
  end.

(** The first byte of an escaped text. *)
Lemma js_escape_cons b r : (separator (b :: r) = true /\ exists t d r', r = x80 :: d :: r' /\ b = xe2 /\ (d = xa8 \/ d = xa9) /\ js_escape (b :: r) = x5c :: x75 :: x32 :: x30 :: x32 :: t :: js_escape r' /\
    js_code x32 x30 x32 t = Some [xe2; x80; d]) \/
  (separator (b :: r) = false /\ js_escape (b :: r) = js_char b ++ js_escape r).
Proof.
  cbn [js_escape separator]. destruct r as [|c [|d r']]; [by right..|].
  destruct (b =b xe2) eqn:E1; [|by right]. destruct (c =b x80) eqn:E2; [|by right]. apply byte_eqb_true in E1 as ->, E2 as ->. cbn [andb].
  destruct (d =b xa8) eqn:E3; [apply byte_eqb_true in E3 as ->; left; split; [done|]; exists x38, xa8, r'; split_and!; try done; by left|].
  destruct (d =b xa9) eqn:E4; [|by right]. apply byte_eqb_true in E4 as ->. left. split; [done|]. exists x39, xa9, r'. split_and!; try done; by right.
Qed.

Lemma js_char_cases b : js_char b = [b] /\ b <> x22 /\ b <> x5c /\ 32 <= b2Z b \/
  exists e t, js_char b = x5c :: e :: t /\ forall rest, read_js_string (x5c :: e :: t ++ rest) = (fun '(v, r) => (b :: v, r)) <$> read_js_string rest.
Proof.
  unfold js_char. destruct (b =b x5c) eqn:E1; [apply byte_eqb_true in E1 as ->; right; by exists x5c, []|].
  destruct (b =b x22) eqn:E2; [apply byte_eqb_true in E2 as ->; right; by exists x22, []|].
  destruct (b =b x0a) eqn:E3; [apply byte_eqb_true in E3 as ->; right; by exists x6e, []|].
  destruct (b =b x0d) eqn:E4; [apply byte_eqb_true in E4 as ->; right; by exists x72, []|].
  destruct (b =b x09) eqn:E5; [apply byte_eqb_true in E5 as ->; right; by exists x74, []|].
  apply byte_eqb_false in E1, E2. destruct (b2Z b <? 32) eqn:E6; [|left; split; [done|]; apply Z.ltb_ge in E6; done].
  right. exists x75, (drop 2 (hex4 b)). split; [by unfold hex4|]. intros rest. revert E6. clear. destruct b; intros E6; try (by vm_compute in E6); reflexivity.
Qed.

Lemma js_first b r rest : exists x t, js_escape (b :: r) ++ rest = x :: t /\ (x = b \/ x = x5c).
Proof.
  destruct (js_escape_cons b r) as [(_ & t & d & r' & _ & _ & _ & -> & _)|[_ ->]]; [eexists _, _; split; [reflexivity|by right]|].
  destruct (js_char_cases b) as [[-> _]|(e & t & -> & _)]; (eexists _, _; split; [reflexivity|by auto]).
Qed.

Lemma no_separator b r rest : separator (b :: r) = false -> separator (b :: js_escape r ++ x22 :: rest) = false.
Proof.
  intros Hs. destruct (b =b xe2) eqn:Eb; [|unfold separator; rewrite Eb; by repeat destruct (js_escape r ++ _) as [|? [|? ?]]].
  destruct r as [|c r]; [cbn; rewrite Eb; by destruct rest|]. destruct (c =b x80) eqn:Ec.
  - apply byte_eqb_true in Ec as ->. destruct (js_escape_cons x80 r) as [(_ & ? & ? & ? & _ & ? & _)|[_ ->]]; [done|]. change (js_char x80) with [x80]. cbn [app].
    destruct r as [|d r]; [by cbn; rewrite Eb|]. cbn in Hs. rewrite Eb in Hs. cbn in Hs.
    destruct (js_first d r (x22 :: rest)) as (x & t & -> & [->| ->]); cbn; rewrite Eb; [done|done].
  - destruct (js_first c r (x22 :: rest)) as (x & t & -> & Hx). unfold separator. destruct t as [|y t]; [done|]. rewrite Eb. cbn [andb].
    destruct Hx as [->| ->]; [by rewrite Ec|done].
Qed.

(** Nothing of the configuration escapes its string literal in the auto-configuration
    file: whatever the text of a host, a suffix or the proxy is, a JavaScript reader takes
    its escaped form, up to the closing quote, for exactly that text. *)
Theorem js_escape_roundtrip s rest : read_js_string (js_escape s ++ x22 :: rest) = Some (s, rest).
Proof.
  remember (length s) as n eqn:Hn. revert s Hn. induction n as [n IH] using lt_wf_ind. intros [|b r] ->; [done|].
  destruct (js_escape_cons b r) as [(_ & t & d & r' & -> & -> & _ & -> & Ht)|[Hsep ->]].
  - cbn [app read_js_string]. byte_if. rewrite Ht, (IH (length r')) by (cbn; lia || done). done.
  - destruct (js_char_cases b) as [(-> & H1 & H2 & H3)|(e & t & -> & Hr)].
    + cbn [app read_js_string]. apply byte_eqb_false in H1, H2. rewrite H1, H2, (proj2 (Z.ltb_ge _ _) H3), no_separator by done. cbn [orb].
      rewrite (IH (length r)) by (cbn; lia || done). done.
    + cbn [app]. rewrite <- app_assoc. cbn [app]. rewrite (Hr (js_escape r ++ x22 :: rest)), (IH (length r)) by (cbn; lia || done). done.
Qed.

(** ** Example *)

Definition demo_lib : AdminLib :=
  {| json_to_string := fun _ => []; json_from_slice := fun _ => None; debug_str := fun s => s; base64_decode := fun _ => None; render_prometheus := []; cargo_pkg_version := [] |}.
Definition demo_iter : HashIter := {| hash_iter := fun A (m : gmap IpAddr A) => map_to_list m; hash_iter_perm := fun A m => reflexivity _ |}.
Definition exposed_admin : AdminToml :=
  {| ad_bind := Some (str "192.0.2.7:9090"); ad_enabled := Some true; ad_metrics := None;
     ad_auth := Some {| aa_bearer_token := Some (str "s3cret"); aa_bearer_token_env := None; aa_basic_auth := None |}; ad_pac := None; ad_static_content := None |}.
Definition exposed_compiled : AdminConfig :=
  {| am_bind := str "192.0.2.7:9090"; am_enabled := true; am_metrics := true;
     am_auth := Some {| ac_bearer_token := Some (str "s3cret"); ac_basic_username := None; ac_basic_password := None |}; am_pac := None; am_static_content := [] |}.
Definition demo_state : AdminState :=
  {| ast_uptime_secs := 0; ast_readiness := true; ast_active_connections := None;
     ast_udp_registry := {| next_id := 0; store := ∅; registered := ∅; limits := UdpLimits_default |}; ast_reverse_registry := ∅;
     ast_metrics_enabled := true; ast_auth := am_auth exposed_compiled; ast_udp_associations := 0; ast_udp_target_flows := 0; ast_udp_upstream_flows := 0 |}.
Definition demo_snapshot : AdminSnapshot unit unit unit :=
  {| as_generation := 0; as_router := {| rules := []; default_action := ActDirect; groups := ∅ |}; as_pac := None; as_static_routes := []; as_listeners := [] |}.
Definition stranger : request := {| req_method := str "GET"; req_path := str "/-/config"; req_headers := [(str "Authorization", str "Bearer guess")]; req_body := [] |}.

Lemma stranger_holds_nothing : ~ holds (base64_decode (AdminLib := demo_lib)) {| ac_bearer_token := Some (str "s3cret"); ac_basic_username := None; ac_basic_password := None |} stranger.
Proof. rewrite <- authorized_spec. by vm_compute. Qed.

Definition demo_served (t : Z) (entries : AuthFailureLimiter) :=
  @serve unit unit unit (fun _ _ => (None, tt)) demo_lib (fun _ _ => false) (fun _ _ => false) (fun _ => []) (fun _ => []) demo_iter t t (V4 [xc0; x00; x02; x09]) [] demo_state demo_snapshot stranger entries.

(** A stranger guesses a token five times: four answers with 401, then 429. *)
Lemma admin_guarded_witness :
  validate_admin exposed_admin = [] /\ compile_admin (fun _ => None) (Some exposed_admin) = Ok (Some exposed_compiled) /\
  let '(resp, router, _) := demo_served 0 ∅ in router = as_router demo_snapshot /\ (resp_status resp = 401 \/ resp_status resp = 429).
Proof.
  assert (validate_admin exposed_admin = []) as Hv by by vm_compute.
  assert (compile_admin (fun _ => None) (Some exposed_admin) = Ok (Some exposed_compiled)) as Hc by by vm_compute.
  split; [exact Hv|]. split; [exact Hc|].
  destruct (@admin_guarded unit unit unit (fun _ _ => (None, tt)) demo_lib demo_iter (fun _ _ => false) (fun _ _ => false) (fun _ => []) (fun _ => []) (fun _ => None) exposed_admin exposed_compiled
    (V4 [xc0; x00; x02; x07]) 9090 0 0 (V4 [xc0; x00; x02; x09]) [] demo_state demo_snapshot stranger ∅) as (auth & Ha & _ & H);
    [exact Hv|exact Hc|by vm_compute|by vm_compute|by vm_compute|reflexivity|apply Nat.le_0_l|].
  injection Ha as <-. unfold demo_served. destruct (serve _ _ _ _ _ _ _ _ _ _ _ _) as [[resp router] entries'].
  destruct H as [_ H]. destruct (H stranger_holds_nothing) as (Hr & _ & _ & e & _ & _ & Hs).
  destruct (match blocked_until e with Some until => 0 <=? until | None => false end); destruct Hs as [Hs _]; auto.
Defined.

Lemma guesses_limited :
  (fix run (k : nat) (entries : AuthFailureLimiter) : list Z :=
     match k with O => [] | S k => let '(resp, _, entries) := demo_served (Z.of_nat (5 - k) * SECOND) entries in resp_status resp :: run k entries end) 6%nat ∅ = [401; 401; 401; 401; 429; 429].
Proof. by vm_compute. Qed.
