(* ===== verification/AdminClient.v ===== *)
(** * The admin client

    Models [crates/eggress-admin/src/client.rs]: the URL of an admin endpoint, the request
    that asks it to explain a route, and the reading of its answer. *)

From S2P Require Import Prelude Bytes Decimal Stream NetAddr HttpText ConfigService Config Admin.
Local Open Scope Z_scope.

Inductive AdminClientError := AcInvalidUrl | AcConnect | AcTransport | AcStatus (status : Z) (body : bytes) | AcParse.

Record AdminEndpoint := { ae_host : bytes; ae_port : Z; ae_path : bytes }.

Definition parse_admin_url (url : bytes) : outcome unit AdminEndpoint :=
  if starts_with (str "https://") url then Err tt else
  let without_proto := default url (strip_prefix (str "http://") url) in
  let '(host_port, path) := match find_byte x2f without_proto with Some i => (take i without_proto, drop i without_proto) | None => (without_proto, str "/") end in
  if is_empty host_port then Err tt else
  let? hp :=
    match strip_prefix [x5b] host_port with
    | Some rest =>
        let? close := ok_or tt (find_byte x5d rest) in
        let h := take close rest in
        if is_empty h then Err tt else
        let after := drop (S close) rest in
        match strip_prefix [x3a] after with
        | Some port_str => let? port := ok_or tt (parse_u16 port_str) in Ok (h, port)
        | None => if is_empty after then Ok (h, 9090) else Err tt
        end
    | None =>
        match rfind_byte x3a host_port with
        | Some i =>
            let? port := ok_or tt (parse_u16 (drop (S i) host_port)) in
            let h := take i host_port in
            if is_empty h then Err tt else Ok (h, port)
        | None => Ok (host_port, 9090)
        end
    end in
  Ok {| ae_host := hp.1; ae_port := hp.2; ae_path := path |}.

Definition dial_addr (e : AdminEndpoint) : bytes :=
  if contains_byte x3a (ae_host e) then [x5b] ++ ae_host e ++ [x5d; x3a] ++ to_dec (ae_port e) else ae_host e ++ [x3a] ++ to_dec (ae_port e).

Definition MAX_ADMIN_RESPONSE : nat := Z.to_nat 1048576.

Section client.
Context {AL : AdminLib}.

Definition explain_body (target listener protocol : bytes) : bytes :=
  json_to_string (obj [("target"%string, JStr target); ("listener"%string, JStr listener); ("protocol"%string, JStr protocol)]).

Definition explain_request_text (e : AdminEndpoint) (target listener protocol : bytes) : bytes :=
  let path := if bool_decide (ae_path e = str "/") then str "/-/route-explain" else ae_path e in
  let body := explain_body target listener protocol in
  str "POST " ++ path ++ str " HTTP/1.1" ++ CRLF ++ str "Host: " ++ dial_addr e ++ CRLF ++ str "Content-Type: application/json" ++ CRLF ++
  str "Content-Length: " ++ to_dec (Z.of_nat (length body)) ++ CRLF ++ str "Connection: close" ++ CRLF ++ CRLF ++ body.

(** What the connection delivers: reads of at most 4096 bytes until it is closed, fails or
    stalls. *)
Inductive response_end := RespClosed | RespFailed | RespStalled.
Fixpoint collect_response (response : bytes) (reads : list bytes) (e : response_end) : outcome AdminClientError bytes :=
  match reads with
  | [] => match e with RespClosed => Ok response | _ => Err AcTransport end
  | chunk :: rest => if (MAX_ADMIN_RESPONSE <? length response + length chunk)%nat then Err AcTransport else collect_response (response ++ chunk) rest e
  end.

(** The explanation as JSON. *)
Definition read_explanation (response : bytes) : outcome AdminClientError json :=
  let text := from_utf8_lossy response in
  let body := drop (match find_str CRLF2 text with Some i => i + 4 | None => 0 end)%nat text in
  let status_line := default [] (head (text_lines text)) in
  let? status := ok_or AcParse (match split_whitespace status_line with _ :: s :: _ => parse_u16 s | _ => None end) in
  if negb (status =? 200) then Err (AcStatus status body) else ok_or AcParse (json_from_slice body).

(** [dialled] is whether the connection is made in time. *)
Definition client_route_explain (admin_url target listener protocol : bytes) (dialled : bool) (written : bool) (reads : list bytes) (e : response_end) : outcome AdminClientError json :=
  let? endpoint := map_err (fun _ => AcInvalidUrl) (parse_admin_url admin_url) in
  if negb dialled then Err AcConnect else
  if negb written then Err AcTransport else
  let? response := collect_response [] reads e in
  read_explanation response.

End client.

(** ** Properties *)

Lemma strip_prefix_app p s : strip_prefix p (p ++ s) = Some s.
Proof. unfold strip_prefix. assert (starts_with p (p ++ s) = true) as -> by (induction p as [|b p IH]; [done|]; cbn; by rewrite byte_eqb_refl). by rewrite drop_app_length. Qed.

(** An endpoint whose host is a name or an address. *)
Definition endpoint_wf (e : AdminEndpoint) : Prop :=
  ae_host e <> [] /\ is_u16 (ae_port e) /\ x2f ∉ ae_host e /\ x5d ∉ ae_host e /\ x5b ∉ ae_host e /\ exists p, ae_path e = x2f :: p.

(** The URL the client prints for an endpoint is read back as that endpoint. *)
Lemma admin_url_roundtrip e : endpoint_wf e -> parse_admin_url (str "http://" ++ dial_addr e ++ ae_path e) = Ok e.
Proof.
  destruct e as [h port path]. intros (Hne & Hp & Hs & Hc & Ho & p & Epath). cbn [ae_host ae_port ae_path] in *. subst path.
  assert (x2f ∉ to_dec port) as Hds by by apply to_dec_not_in. unfold parse_admin_url.
  assert (starts_with (str "https://") (str "http://" ++ dial_addr {| ae_host := h; ae_port := port; ae_path := x2f :: p |} ++ x2f :: p) = false) as -> by done.
  rewrite strip_prefix_app. unfold default, Datatypes.id.
  set (d := dial_addr _). assert (x2f ∉ d /\ d <> []) as [Hd Hdn].
  { unfold d, dial_addr. cbn [ae_host ae_port]. destruct (contains_byte x3a h); [split; [set_solver|done]|]. split; [set_solver|]. by destruct h. }
  rewrite find_byte_app, take_app_length by done. rewrite drop_app_length. change (is_empty d) with (bool_decide (d = [])). rewrite (bool_decide_eq_false_2 _ Hdn).
  unfold d, dial_addr. cbn [ae_host ae_port]. destruct (contains_byte x3a h) eqn:Eh.
  - rewrite strip_prefix_app. change ([x5d; x3a] ++ to_dec port) with (x5d :: [x3a] ++ to_dec port). rewrite find_byte_app by done. cbn [ok_or obind].
    rewrite take_app_length. unfold is_empty. rewrite bool_decide_eq_false_2 by done. rewrite drop_app_ge by lia.
    replace (S (length h) - length h)%nat with 1%nat by lia. change (drop 1 (x5d :: ?y)) with y. rewrite strip_prefix_app. by rewrite parse_u16_to_dec.
  - assert (strip_prefix [x5b] (h ++ [x3a] ++ to_dec port) = None) as ->.
    { unfold strip_prefix. destruct h as [|b h]; [done|]. cbn. destruct (x5b =b b) eqn:E; [|done]. apply byte_eqb_true in E as <-. set_solver. }
    pose proof (rsplit_once_app x3a h (to_dec port) ltac:(by apply to_dec_not_in)) as Hr. unfold rsplit_once in Hr.
    change ([x3a] ++ to_dec port) with (x3a :: to_dec port). destruct (rfind_byte x3a (h ++ x3a :: to_dec port)) as [i|]; [|done]. injection Hr as Ht Hd'.
    rewrite Hd', Ht, parse_u16_to_dec by done. cbn [ok_or obind]. unfold is_empty. by rewrite bool_decide_eq_false_2.
Qed.

(** Port 0 is read as a port, although the message of the error asks for 1 to 65535. *)
Lemma admin_port_zero : parse_admin_url (str "http://localhost:0/") = Ok {| ae_host := str "localhost"; ae_port := 0; ae_path := str "/" |}.
Proof. by vm_compute. Qed.

(** The client never sends credentials: its request has no such header, and an endpoint
    with credentials refuses it. *)
Lemma explain_refused {AL : AdminLib} auth path body :
  authorized base64_decode {| req_method := str "POST"; req_path := path;
    req_headers := [(str "host", str "h"); (str "content-type", str "application/json"); (str "connection", str "close")]; req_body := body |} auth = false.
Proof.
  apply not_true_iff_false. rewrite authorized_spec. unfold holds, presented. destruct (ac_bearer_token auth); [by intros (? & ? & _)|by intros (? & ? & ? & _ & _ & _ & (? & ? & _) & _)].
Qed.
