(* ===== verification/OutboundHops.v ===== *)
(** * Outbound hops

    Models [crates/eggress-outbound/src/hops.rs]: what the handler of each protocol
    does with the stream to its proxy, and the stream of an [httponly] hop, which
    rewrites the request head on its way.  The handlers call the clients of the
    protocol files; what they only pass to a third-party transport (SSH, QUIC, HTTP/2,
    WebSocket) is the request they make of it. *)

From S2P Require Import Prelude Bytes Decimal Stream NetAddr Connector Relay Socks5 Socks5Handshake Socks4 Shadowsocks ShadowsocksStream ShadowsocksTcp Tls Trojan HttpText HttpConnect Uri Capability UdpSecurity Chain.

(** ** The stream of an httponly hop *)

Record HttpOnlyStream := {
  ho_inner : stream;
  ho_target : TargetAddr;
  ho_pending : bytes;
  ho_rewritten : bool
}.

Definition HTTPONLY_MAX_BUFFERED : nat := 64 * 1024.

(** [windows(4).position(|w| w == b"\r\n\r\n")]. *)
Definition find_head_end (data : bytes) : option nat := find_str CRLF2 data.

(** The request line of [head] in absolute form, when it can be rewritten. *)
Definition rewrite_line (head : bytes) (target : TargetAddr) : bytes :=
  match find_byte x0a head with
  | Some nl =>
      let raw_first := take nl head in
      let first := if ends_with [x0d] raw_first then take (length raw_first - 1) raw_first else raw_first in
      match find_byte x20 first with
      | Some space =>
          match find_byte x20 (drop (space + 1) first) with
          | Some second =>
              let method := take space first in
              let path := take second (drop (space + 1) first) in
              if starts_with [x2f] path then
                method ++ str " http://" ++ fmt_target_addr target ++ path ++ drop (space + 1 + second) first ++
                (if (length raw_first =? length first)%nat then [] else [x0d]) ++ drop nl head
              else []
          | None => []
          end
      | None => []
      end
  | None => []
  end.

Definition rewrite_request_head (data : bytes) (target : TargetAddr) : bytes :=
  match find_head_end data with
  | None => data
  | Some pos =>
      let head := take (pos + 4) data in
      let rewritten := rewrite_line head target in
      (if is_empty rewritten then head else rewritten) ++ drop (pos + 4) data
  end.

(** What a poll for writing returns. *)
Inductive poll_unit := PollOk | PollErr (e : IoKind) | PollPending.

Definition with_out (s : HttpOnlyStream) (i : stream) (pending : bytes) (rewritten : bool) : HttpOnlyStream :=
  {| ho_inner := i; ho_target := ho_target s; ho_pending := pending; ho_rewritten := rewritten |}.

(** The block before the drain loop. *)
Definition rewrite_pending (s : HttpOnlyStream) : HttpOnlyStream :=
  if negb (ho_rewritten s) && negb (is_empty (ho_pending s)) && bool_decide (is_Some (find_head_end (ho_pending s)))
  then with_out s (ho_inner s) (rewrite_request_head (ho_pending s) (ho_target s)) true
  else s.

(** [inner_flush]: what the flush of the inner stream returns. *)
Definition httponly_flush (inner_flush : poll_unit) (s : HttpOnlyStream) : poll_unit * HttpOnlyStream :=
  let s := rewrite_pending s in
  let '(r, i, pending) := flush_loop (length (ho_pending s)) (ho_inner s) (ho_pending s) in
  let s := with_out s i pending (ho_rewritten s) in
  match r with
  | FlDone => (inner_flush, s)
  | FlZero => (PollErr WriteZero, s)
  | FlErr e => (PollErr e, s)
  | FlPending => (PollPending, s)
  end.

(** [Ok None] is [Poll::Pending]. *)
Definition httponly_write (inner_flush : poll_unit) (data : bytes) (s : HttpOnlyStream) : outcome IoKind (option nat) * HttpOnlyStream :=
  let '(r, s) := if is_empty (ho_pending s) then (PollOk, s) else httponly_flush inner_flush s in
  match r with
  | PollErr e => (Err e, s)
  | PollPending => (Ok None, s)
  | PollOk =>
      let room := HTTPONLY_MAX_BUFFERED - length (ho_pending s) in
      if (room =? 0)%nat && negb (is_empty data) then (Ok None, s)
      else
        let accepted := min (length data) room in
        (Ok (Some accepted), with_out s (ho_inner s) (ho_pending s ++ take accepted data) (ho_rewritten s))
  end.

Definition httponly_shutdown (inner_flush : poll_unit) (s : HttpOnlyStream) : shutdown_answer * HttpOnlyStream :=
  let '(r, s) := httponly_flush inner_flush s in
  match r with
  | PollErr e => (ShutErr e, s)
  | PollPending => (ShutPending, s)
  | PollOk => let '(a, i) := poll_shutdown (ho_inner s) in (a, with_out s i (ho_pending s) (ho_rewritten s))
  end.

Definition httponly_read (cap : nat) (s : HttpOnlyStream) : read_answer * HttpOnlyStream :=
  let '(a, i) := poll_read cap (ho_inner s) in (a, with_out s i (ho_pending s) (ho_rewritten s)).

Definition httponly_hop (inner : stream) (target : TargetAddr) : HttpOnlyStream :=
  {| ho_inner := inner; ho_target := target; ho_pending := []; ho_rewritten := false |}.

(** ** Hop handlers *)

Definition hop_auth (hop : ProxyHopSpec) : option (bytes * bytes) := (fun c => (username c, password c)) <$> credentials hop.

Definition http_hop {CL : ConnectLib} (target : TargetAddr) (hop : ProxyHopSpec) : M HttpError unit :=
  http_connect target (hop_auth hop) HttpConnectLimits_default.

Definition socks5_hop (target : TargetAddr) (hop : ProxyHopSpec) : M Socks5Error unit :=
  socks5_connect (target_to_socks_addr target) (hop_auth hop).

Definition socks4_hop (target : TargetAddr) (hop : ProxyHopSpec) : M Socks4Error unit :=
  socks4_connect target (username <$> credentials hop).

(** The modern methods; the legacy ones are a feature of their own. *)
Definition shadowsocks_hop `{HCr : !Crypto} (i : stream) (salt : bytes) (target : TargetAddr) (hop : ProxyHopSpec) : M ShadowsocksError ss_stream :=
  match credentials hop with
  | None => mthrow (SSOther "shadowsocks requires credentials (method:password)")
  | Some creds =>
      match parse_method (username creds) with
      | Ok method => shadowsocks_connect i target method (password creds) salt
      | Err modern_error => mthrow modern_error
      | Panic => fun c => (Panic, c)
      end
  end.

(** Trojan: the configuration for its own TLS handshake, and the request in it. *)
Record TrojanHopHandler {TL : TlsLib} := {
  th_tls_config : option ClientConfig;
  th_insecure_tls_config : option ClientConfig;
  th_tls_override : option ClientConfig
}.

Inductive trojan_hop_error := TheTrojan (e : TrojanError) | TheOverrideInsecure.

Definition trojan_config {TL : TlsLib} (h : TrojanHopHandler) (hop : ProxyHopSpec) : outcome trojan_hop_error (option ClientConfig) :=
  if insecure hop then
    match th_tls_override h with
    | Some _ => Err TheOverrideInsecure
    | None => Ok (match th_insecure_tls_config h with Some c => Some c | None => th_tls_config h end)
    end
  else Ok (th_tls_config h).

Definition trojan_hop {TL : TlsLib} (sha224 : bytes -> bytes) (build_default : outcome TrojanError ClientConfig) (server_name_ok : bytes -> bool)
    (tls_connect : ClientConfig -> bytes -> option string) (h : TrojanHopHandler) (cache : option ClientConfig)
    (target : TargetAddr) (hop : ProxyHopSpec) (c : conn) : outcome trojan_hop_error unit * conn * option ClientConfig :=
  match credentials hop with
  | None => (Err (TheTrojan (TrojanProtocol "trojan requires credentials (password)")), c, cache)
  | Some creds =>
      match trojan_config h hop with
      | Ok chosen =>
          let '(r, c, cache) := trojan_connect sha224 build_default server_name_ok tls_connect cache chosen target (password creds) (hop_server_name hop) c in
          (map_err TheTrojan r, c, cache)
      | Err e => (Err e, c, cache)
      | Panic => (Panic, c, cache)
      end
  end.

Definition websocket_url (hop : ProxyHopSpec) : bytes :=
  (if tls hop then str "wss" else str "ws") ++ str "://" ++ ep_host (endpoint hop) ++ [x3a] ++ to_dec (ep_port (endpoint hop)).

(** SSH: the channel that is asked for. *)
Inductive SshAuth := SshPrivateKey (path : bytes) | SshPassword (password : bytes).
Inductive SshTransportError := SshMissingUsername | SshEmptyPrivateKeyPath.

Record ssh_channel := {
  ssh_host : bytes; ssh_port : Z; ssh_username : bytes; ssh_auth : SshAuth; ssh_hop_index : nat;
  ssh_unix : bool; ssh_cached : bool; ssh_target_host : bytes; ssh_target_port : Z
}.

Definition ssh_hop (target : TargetAddr) (hop : ProxyHopSpec) (hop_index : nat) : outcome SshTransportError ssh_channel :=
  let? creds := ok_or SshMissingUsername (credentials hop) in
  if is_empty (username creds) then Err SshMissingUsername
  else
    let? auth :=
      match password creds with
      | x3a :: path => if is_empty path then Err SshEmptyPrivateKeyPath else Ok (SshPrivateKey path)
      | p => Ok (SshPassword p)
      end in
    Ok {| ssh_host := ep_host (endpoint hop); ssh_port := ep_port (endpoint hop); ssh_username := username creds; ssh_auth := auth;
          ssh_hop_index := hop_index; ssh_unix := (tport target =? 0)%Z;
          ssh_cached := (hop_index =? 0)%nat && negb (bool_decide (is_Some (local_bind_spec hop)));
          ssh_target_host := fmt_host (host target); ssh_target_port := tport target |}.

(** HTTP/2: a connection of the pool is only used for the first hop, without a bind
    address and with verified TLS. *)
Record h2_request := {
  h2_pooled : bool; h2_host : bytes; h2_port : Z; h2_tls : bool; h2_server_name : option bytes; h2_auth : option (bytes * bytes);
  h2_hop_index : nat; h2_target : TargetAddr
}.

Definition h2_hop (target : TargetAddr) (hop : ProxyHopSpec) (hop_index : nat) : h2_request :=
  {| h2_pooled := (hop_index =? 0)%nat && negb (bool_decide (is_Some (local_bind_spec hop))) && negb (insecure hop);
     h2_host := ep_host (endpoint hop); h2_port := ep_port (endpoint hop); h2_tls := tls hop; h2_server_name := server_name hop;
     h2_auth := hop_auth hop; h2_hop_index := hop_index; h2_target := target |}.

(** QUIC and HTTP/3: the connection that is opened. *)
Record quic_request {TL : TlsLib} := {
  q_host : bytes; q_port : Z; q_server_name : bytes; q_insecure : bool; q_alpn : list bytes; q_tls_override : option ClientConfig;
  q_authorization : option (bytes * bytes)
}.

Definition quic_open {TL : TlsLib} (h3 : bool) (tls_override : option ClientConfig) (endpoint : EndpointSpec) (hop : ProxyHopSpec)
    : outcome trojan_hop_error quic_request :=
  if insecure hop && bool_decide (is_Some tls_override) then Err TheOverrideInsecure
  else Ok {| q_host := ep_host endpoint; q_port := ep_port endpoint; q_server_name := default (ep_host endpoint) (server_name hop);
             q_insecure := insecure hop; q_alpn := if h3 then [str "h3"] else []; q_tls_override := tls_override;
             q_authorization := if h3 then hop_auth hop else None |}.

(** ** Properties of the httponly stream *)

Inductive httponly_op := OpWrite (inner_flush : poll_unit) (data : bytes) | OpFlush (inner_flush : poll_unit) | OpShutdown (inner_flush : poll_unit) | OpRead (cap : nat).

(** One call: the bytes it accepted, and the stream after it. *)
Definition httponly_call (op : httponly_op) (s : HttpOnlyStream) : bytes * HttpOnlyStream :=
  match op with
  | OpWrite fl data => let '(r, s') := httponly_write fl data s in (match r with Ok (Some n) => take n data | _ => [] end, s')
  | OpFlush fl => ([], (httponly_flush fl s).2)
  | OpShutdown fl => ([], (httponly_shutdown fl s).2)
  | OpRead cap => ([], (httponly_read cap s).2)
  end.

Fixpoint httponly_calls (ops : list httponly_op) (s : HttpOnlyStream) : bytes * HttpOnlyStream :=
  match ops with
  | [] => ([], s)
  | op :: ops => let '(l, s') := httponly_call op s in let '(ls, s'') := httponly_calls ops s' in (l ++ ls, s'')
  end.

(** What the inner stream was given or will be given next. *)
Definition ho_sent (s : HttpOnlyStream) : bytes := s_given (ho_inner s) ++ ho_pending s.

Lemma find_str_Some p s i : find_str p s = Some i -> exists r, s = take i s ++ p ++ r.
Proof.
  revert i. induction s as [|b s IH]; intros i; cbn [find_str].
  - destruct (starts_with p []) eqn:E; [|done]. intros [= <-]. apply starts_with_spec in E as [r E]. exists r. by rewrite E.
  - destruct (starts_with p (b :: s)) eqn:E.
    + intros [= <-]. apply starts_with_spec in E as [r E]. exists r. by rewrite E.
    + destruct (find_str p s) as [j|]; [|done]. intros [= <-]. destruct (IH j eq_refl) as [r Hr]. exists r. cbn. by rewrite <- Hr.
Qed.

Lemma rewrite_line_form method path version tl target :
  x20 ∉ method -> x0a ∉ method -> x20 ∉ path -> x0a ∉ path -> x0a ∉ version -> starts_with [x2f] path = true ->
  rewrite_line ((method ++ x20 :: path ++ x20 :: version) ++ [x0d] ++ x0a :: tl) target =
  method ++ str " http://" ++ fmt_target_addr target ++ path ++ (x20 :: version) ++ [x0d] ++ x0a :: tl.
Proof.
  intros Hm1 Hm2 Hp1 Hp2 Hv Hslash. set (line := method ++ x20 :: path ++ x20 :: version).
  assert (x0a ∉ line) as Hl by (unfold line; set_solver).
  assert (find_byte x20 line = Some (length method)) as Hf1 by (unfold line; by rewrite find_byte_app).
  assert (drop (length method + 1) line = path ++ x20 :: version) as Hdm.
  { unfold line. rewrite (drop_app_ge method) by lia. by replace (length method + 1 - length method) with 1 by lia. }
  assert (drop (length method + 1 + length path) line = x20 :: version) as Hdv.
  { rewrite <- drop_drop, Hdm, drop_app_length. done. }
  assert (take (length method) line = method) as Htm by (unfold line; by rewrite take_app_length).
  assert (ends_with [x0d] (line ++ [x0d]) = true) as He by (apply ends_with_spec; by exists line).
  unfold rewrite_line. rewrite app_assoc, find_byte_app by set_solver. rewrite take_app_length, drop_app_length, He.
  rewrite length_app. cbn [length]. rewrite Nat.add_sub, take_app_length, Hf1, Hdm, find_byte_app, take_app_length, Hslash, Htm, Hdv by done.
  by rewrite (proj2 (Nat.eqb_neq (length line + 1) (length line))) by lia.
Qed.

(** Rewriting changes the request line to absolute form and nothing else. *)
Theorem rewrite_request_line method path version rest target :
  x20 ∉ method -> x0a ∉ method -> x20 ∉ path -> x0a ∉ path -> x0a ∉ version -> starts_with [x2f] path = true ->
  is_Some (find_head_end (method ++ x20 :: path ++ x20 :: version ++ [x0d; x0a] ++ rest)) ->
  rewrite_request_head (method ++ x20 :: path ++ x20 :: version ++ [x0d; x0a] ++ rest) target =
  method ++ str " http://" ++ fmt_target_addr target ++ path ++ x20 :: version ++ [x0d; x0a] ++ rest.
Proof.
  intros Hm1 Hm2 Hp1 Hp2 Hv Hslash [pos Hpos]. set (line := method ++ x20 :: path ++ x20 :: version).
  assert (method ++ x20 :: path ++ x20 :: version ++ [x0d; x0a] ++ rest = line ++ [x0d; x0a] ++ rest) as E by (unfold line; app_norm).
  rewrite E in *. assert (x0a ∉ line) as Hl by (unfold line; set_solver).
  assert (length line <= pos) as Hge.
  { unfold find_head_end in Hpos. destruct (find_str_Some _ _ _ Hpos) as [r Hr].
    destruct (le_lt_dec (length line) pos) as [?|Hlt]; [done|exfalso]. apply Hl.
    apply (f_equal (fun l => l !! (pos + 1))) in Hr. rewrite (lookup_app_r (take pos _)) in Hr by (rewrite length_take; lia).
    rewrite length_take, length_app in Hr. replace (pos + 1 - pos `min` _) with 1 in Hr by (cbn [length app]; lia). cbn in Hr.
    destruct (decide (pos + 1 < length line)) as [H1|H1]; [rewrite lookup_app_l in Hr by done; by apply list_elem_of_lookup_2 in Hr|].
    rewrite lookup_app_r in Hr by lia. by replace (pos + 1 - length line) with 0 in Hr by lia. }
  unfold rewrite_request_head. rewrite Hpos. set (k := pos + 4 - length line - 2).
  assert (take (pos + 4) (line ++ [x0d; x0a] ++ rest) = line ++ [x0d] ++ x0a :: take k rest) as ->.
  { rewrite take_app_ge by lia. f_equal. replace (pos + 4 - length line) with (S (S k)) by (unfold k; lia). done. }
  assert (drop (pos + 4) (line ++ [x0d; x0a] ++ rest) = drop k rest) as ->.
  { rewrite drop_app_ge by lia. replace (pos + 4 - length line) with (S (S k)) by (unfold k; lia). done. }
  unfold line. rewrite rewrite_line_form by done. unfold is_empty. rewrite bool_decide_eq_false_2.
  - rewrite <- (take_drop k rest) at 3. rewrite <- !app_assoc. reflexivity.
  - intros Hnil. apply (f_equal length) in Hnil. rewrite !length_app in Hnil. cbn in Hnil. lia.
Qed.

Lemma httponly_flush_sent fl s r s' : httponly_flush fl s = (r, s') ->
  ho_target s' = ho_target s /\ ho_rewritten s' = ho_rewritten (rewrite_pending s) /\ ho_sent s' = ho_sent (rewrite_pending s) /\
  s_given (ho_inner s') ++ ho_pending s' = s_given (ho_inner s) ++ ho_pending (rewrite_pending s) /\ (r = PollOk -> ho_pending s' = []).
Proof.
  unfold httponly_flush. assert (ho_inner (rewrite_pending s) = ho_inner s /\ ho_target (rewrite_pending s) = ho_target s) as [Hi Ht]
    by (unfold rewrite_pending; destruct (_ && _); done).
  destruct (flush_loop _ _ _) as [[fr i] p] eqn:E. apply flush_loop_io in E as (_ & Hg & Hd); [|done]. unfold ho_sent. rewrite Hi in *.
  destruct fr; intros [= <- <-]; cbn; split_and!; try done; auto.
Qed.

(** A call sends on what was pending, rewriting it at most once, and appends what it
    accepts. *)
Lemma httponly_call_cases op s l s' : httponly_call op s = (l, s') ->
  ho_target s' = ho_target s /\
  (ho_rewritten s' = ho_rewritten s /\ ho_sent s' = ho_sent s ++ l /\ (ho_rewritten s = false -> is_Some (find_head_end (ho_pending s)) ->
     l = [] /\ ho_pending s' = ho_pending s /\ s_given (ho_inner s') = s_given (ho_inner s)) \/
   ho_rewritten s = false /\ ho_rewritten s' = true /\ is_Some (find_head_end (ho_pending s)) /\
   ho_sent s' = s_given (ho_inner s) ++ rewrite_request_head (ho_pending s) (ho_target s) ++ l).
Proof.
  assert (forall fl r t, httponly_flush fl s = (r, t) -> ho_target t = ho_target s /\
    (ho_rewritten t = ho_rewritten s /\ ho_sent t = ho_sent s /\ (ho_rewritten s = false -> ~ is_Some (find_head_end (ho_pending s))) \/
     ho_rewritten s = false /\ ho_rewritten t = true /\ is_Some (find_head_end (ho_pending s)) /\
     ho_sent t = s_given (ho_inner s) ++ rewrite_request_head (ho_pending s) (ho_target s)) /\ (r = PollOk -> ho_pending t = [])) as Hflush.
  { intros fl r t H. pose proof (httponly_flush_sent fl s r t H) as (Ht & Hr & Hs & Hg & Hd). split; [done|]. split; [|done].
    unfold rewrite_pending in *. destruct (negb (ho_rewritten s) && negb (is_empty (ho_pending s)) && _) eqn:E.
    - right. apply andb_prop in E as [E E2]. apply andb_prop in E as [E _]. apply negb_true_iff in E. apply bool_decide_eq_true in E2.
      cbn in *. done.
    - left. split; [done|]. split; [done|]. intros Hr' Hh. rewrite Hr', (bool_decide_eq_true_2 _ Hh), andb_true_r in E. cbn in E.
      apply negb_false_iff, bool_decide_eq_true in E. rewrite E in Hh. by destruct Hh. }
  destruct op as [fl data|fl|fl|cap]; cbn [httponly_call].
  - unfold httponly_write. generalize HTTPONLY_MAX_BUFFERED as cap. intros cap. destruct (is_empty (ho_pending s)) eqn:Ee.
    + apply bool_decide_eq_true in Ee. unfold ho_sent. rewrite Ee. generalize (cap - length (@nil byte)) as room. intros room.
      destruct (_ && _); intros [= <- <-]; cbn; (split; [done|]); left; rewrite ?Ee, ?app_nil_r; split_and!; try done; intros _ [? ?]; done.
    + destruct (httponly_flush fl s) as [r t] eqn:E. destruct (Hflush _ _ _ E) as (Ht & Hc & Hd).
      generalize (cap - length (ho_pending t)) as room. intros room. unfold ho_sent in *.
      destruct r; [destruct (_ && _)|..]; intros [= <- <-]; cbn; (split; [done|]); rewrite ?app_assoc, ?app_nil_r;
        (destruct Hc as [(Hr & Hs & Hg)|(H1 & H2 & H3 & H4)]; [left|right]); split_and!; try done; try (by rewrite ?Hs, ?H4); intros Hrw Hh; by destruct (Hg Hrw).
  - destruct (httponly_flush fl s) as [r t] eqn:E. destruct (Hflush _ _ _ E) as (Ht & Hc & _). intros [= <- <-]. rewrite !app_nil_r. split; [done|].
    destruct Hc as [(Hr & Hs & Hg)|?]; [left|by right]. split; [done|]. split; [done|]. intros Hrw Hh. by destruct (Hg Hrw).
  - unfold httponly_shutdown. destruct (httponly_flush fl s) as [r t] eqn:E. destruct (Hflush _ _ _ E) as (Ht & Hc & _).
    assert (ho_rewritten t = ho_rewritten s /\ ho_sent t = ho_sent s /\
      (ho_rewritten s = false -> is_Some (find_head_end (ho_pending s)) -> @nil byte = [] /\ ho_pending t = ho_pending s /\ s_given (ho_inner t) = s_given (ho_inner s)) \/
      ho_rewritten s = false /\ ho_rewritten t = true /\ is_Some (find_head_end (ho_pending s)) /\
      ho_sent t = s_given (ho_inner s) ++ rewrite_request_head (ho_pending s) (ho_target s)) as Hc'.
    { destruct Hc as [(Hr & Hs & Hg)|?]; [left|by right]. split; [done|]. split; [done|]. intros Hrw Hh. by destruct (Hg Hrw). }
    clear Hc. destruct r; [|intros [= <- <-]; by rewrite ?app_nil_r..].
    unfold ho_sent in *. destruct (poll_shutdown (ho_inner t)) as [a i] eqn:Es.
    assert (s_given i = s_given (ho_inner t)) as Hi by (unfold poll_shutdown in Es; by injection Es as _ <-).
    intros [= <- <-]. cbn. rewrite Hi, ?app_nil_r. done.
  - unfold httponly_read. destruct (poll_read cap (ho_inner s)) as [a i] eqn:Er.
    assert (s_given i = s_given (ho_inner s)) as Hi by (unfold poll_read in Er; by injection Er as _ <-).
    intros [= <- <-]. cbn. split; [done|]. left. unfold ho_sent. cbn. rewrite Hi, app_nil_r. done.
Qed.

Lemma httponly_rewritten ops s acc s' : httponly_calls ops s = (acc, s') -> ho_rewritten s = true ->
  ho_target s' = ho_target s /\ ho_rewritten s' = true /\ ho_sent s' = ho_sent s ++ acc.
Proof.
  revert s acc s'. induction ops as [|op ops IH]; intros s acc s'; cbn [httponly_calls]; [intros [= <- <-]; by rewrite app_nil_r|].
  destruct (httponly_call op s) as [l t] eqn:E. destruct (httponly_calls ops t) as [ls u] eqn:Es. intros [= <- <-] Hr.
  apply httponly_call_cases in E as (Ht & [(Hr' & Hs & _)|(? & _)]); [|congruence].
  destruct (IH _ _ _ Es) as (Ht2 & Hr2 & Hs2); [congruence|]. rewrite Hs2, Hs, <- app_assoc. split; [congruence|done].
Qed.

(** What reaches the upstream proxy through an [httponly] hop, for every sequence of
    writes, flushes and shutdowns and every behaviour of the transport: the bytes that
    were accepted, in order and once, except that at most one stretch of them, which
    contains the end of a head, had its request line rewritten. *)
Theorem httponly_bytes ops s acc s' : httponly_calls ops s = (acc, s') -> ho_rewritten s = false ->
  ho_target s' = ho_target s /\
  (ho_rewritten s' = false /\ ho_sent s' = ho_sent s ++ acc \/
   ho_rewritten s' = true /\ exists pre seg post, ho_sent s ++ acc = pre ++ seg ++ post /\ is_Some (find_head_end seg) /\
     ho_sent s' = pre ++ rewrite_request_head seg (ho_target s) ++ post).
Proof.
  revert s acc s'. induction ops as [|op ops IH]; intros s acc s'; cbn [httponly_calls]; [intros [= <- <-] Hr; rewrite app_nil_r; auto|].
  destruct (httponly_call op s) as [l t] eqn:E. destruct (httponly_calls ops t) as [ls u] eqn:Es. intros [= <- <-] Hr.
  apply httponly_call_cases in E as (Ht & [(Hr' & Hs & _)|(_ & Hr' & Hh & Hs)]).
  - destruct (IH _ _ _ Es) as (Ht2 & Hc); [congruence|]. rewrite Ht in Ht2. rewrite Hs, Ht, <- app_assoc in Hc. done.
  - destruct (httponly_rewritten _ _ _ _ Es Hr') as (Ht2 & Hr2 & Hs2). split; [congruence|]. right. split; [done|].
    exists (s_given (ho_inner s)), (ho_pending s), (l ++ ls). unfold ho_sent at 1. rewrite <- app_assoc. split; [done|]. split; [done|].
    rewrite Hs2, Hs, <- !app_assoc. done.
Qed.

(** A request that is written with its whole head in one piece reaches the proxy in
    absolute form, followed by everything that was accepted later. *)
Theorem httponly_whole_head inner target head ops acc s' :
  s_given inner = [] -> is_Some (find_head_end head) ->
  let s := with_out (httponly_hop inner target) inner head false in
  httponly_calls ops s = (acc, s') ->
  ho_rewritten s' = false /\ ho_pending s' = head /\ acc = [] /\ s_given (ho_inner s') = [] \/
  ho_rewritten s' = true /\ ho_sent s' = rewrite_request_head head target ++ acc.
Proof.
  intros Hg Hh. cbv zeta. assert (forall s acc s', httponly_calls ops s = (acc, s') ->
    ho_rewritten s = true \/ ho_pending s = head /\ s_given (ho_inner s) = [] /\ ho_target s = target ->
    ho_rewritten s' = false /\ ho_pending s' = head /\ acc = [] /\ s_given (ho_inner s') = [] \/
    ho_rewritten s' = true /\ ho_sent s' = (if ho_rewritten s then ho_sent s else rewrite_request_head head target) ++ acc) as Hgen.
  2: { intros H. apply (Hgen _ _ _ H). right. done. }
  clear acc s'. induction ops as [|op ops IH]; intros s acc s'; cbn [httponly_calls].
  { intros [= <- <-] Hs. rewrite app_nil_r. destruct (ho_rewritten s); [by right|]. destruct Hs as [?|(? & ? & _)]; [done|by left]. }
  destruct (httponly_call op s) as [l t] eqn:E. destruct (httponly_calls ops t) as [ls u] eqn:Es. intros [= <- <-] Hs.
  pose proof (httponly_call_cases _ _ _ _ E) as (Ht & Hc). destruct (ho_rewritten s) eqn:Er.
  - destruct Hc as [(Hr & Hsent & _)|(? & _)]; [|done]. destruct (httponly_rewritten _ _ _ _ Es Hr) as (_ & Hu & Hsu).
    right. by rewrite Hsu, Hsent, <- app_assoc.
  - destruct Hs as [?|(Hp & Hg2 & Htg)]; [done|]. rewrite Hp in Hc. destruct Hc as [(Hr & Hsent & Hkeep)|(_ & Hr & _ & Hsent)].
    + destruct (Hkeep eq_refl Hh) as (-> & Hp2 & Hg3). destruct (IH _ _ _ Es) as [?|[? Hu]]; [right; split_and!; congruence|by left|].
      right. by rewrite Hr in Hu.
    + destruct (httponly_rewritten _ _ _ _ Es Hr) as (_ & Hu & Hsu). right. split; [done|]. rewrite Hsu, Hsent, Hg2, Htg. cbn [app]. by rewrite <- app_assoc.
Qed.

Lemma flush_loop_given fuel : forall i buf r i' buf', flush_loop fuel i buf = (r, i', buf') -> exists l, s_given i' = s_given i ++ l.
Proof.
  induction fuel as [|f IH]; intros i buf r i' buf' H; cbn [flush_loop] in H;
    (case_bool_decide; [injection H as _ <- _; exists []; by rewrite app_nil_r|]).
  { injection H as _ <- _. exists []. by rewrite app_nil_r. }
  destruct (poll_write buf i) as [a j] eqn:Ep. apply poll_write_io in Ep as (_ & Hg).
  destruct a as [[|n]|e|]; try (injection H as _ <- _; by eexists). apply IH in H as [l Hl]. rewrite Hl, Hg, <- app_assoc. by eexists.
Qed.

Lemma httponly_flush_given fl s r s' : httponly_flush fl s = (r, s') -> exists l, s_given (ho_inner s') = s_given (ho_inner s) ++ l.
Proof.
  unfold httponly_flush. destruct (flush_loop _ _ _) as [[fr i] p] eqn:E. apply flush_loop_given in E as [l Hl].
  assert (ho_inner (rewrite_pending s) = ho_inner s) as Hi by (unfold rewrite_pending; by destruct (_ && _)).
  rewrite Hi in Hl. destruct fr; intros [= <- <-]; by exists l.
Qed.

(** Nothing is taken back, and bytes are only accepted when nothing was pending. *)
Lemma httponly_call_given op s l s' : httponly_call op s = (l, s') ->
  (exists d, s_given (ho_inner s') = s_given (ho_inner s) ++ d) /\ (l = [] \/ ho_pending s' = l).
Proof.
  assert (exists d, s_given (ho_inner s) = s_given (ho_inner s) ++ d) as Hrefl by (exists []; by rewrite app_nil_r).
  destruct op as [fl data|fl|fl|cap]; cbn [httponly_call].
  - unfold httponly_write. generalize HTTPONLY_MAX_BUFFERED as cap. intros cap. destruct (is_empty (ho_pending s)) eqn:Ee.
    + apply bool_decide_eq_true in Ee. rewrite Ee. generalize (cap - length (@nil byte)) as room. intros room.
      destruct (_ && _); intros [= <- <-]; cbn; auto.
    + destruct (httponly_flush fl s) as [r t] eqn:E. pose proof (httponly_flush_sent _ _ _ _ E) as (_ & _ & _ & _ & Hd).
      apply httponly_flush_given in E. generalize (cap - length (ho_pending t)) as room. intros room.
      destruct r; [destruct (_ && _)|..]; intros [= <- <-]; cbn; auto. rewrite Hd by done. auto.
  - destruct (httponly_flush fl s) as [r t] eqn:E. apply httponly_flush_given in E. intros [= <- <-]. auto.
  - unfold httponly_shutdown. destruct (httponly_flush fl s) as [r t] eqn:E. apply httponly_flush_given in E.
    destruct r; [|intros [= <- <-]; auto..]. intros [= <- <-]. cbn. auto.
  - intros [= <- <-]. cbn. auto.
Qed.

Lemma no_head_end_suffix p q : find_head_end (p ++ q) = None -> find_head_end q = None.
Proof.
  unfold find_head_end. induction p as [|b p IH]; [done|]. cbn [app find_str]. destruct (starts_with _ _); [done|].
  destruct (find_str CRLF2 (p ++ q)); [done|]. auto.
Qed.

(** A head that is written in pieces is not rewritten: once a first piece without the
    end of the head was accepted, the upstream proxy gets it as it is. *)
Theorem httponly_split_head inner target first ops acc s' :
  s_given inner = [] -> find_head_end first = None ->
  httponly_calls ops (with_out (httponly_hop inner target) inner first false) = (acc, s') -> exists rest, ho_sent s' = first ++ rest.
Proof.
  intros Hg Hf. assert (forall s acc s', httponly_calls ops s = (acc, s') ->
    (exists r, ho_sent s = first ++ r /\ (r = [] \/ exists r', s_given (ho_inner s) = first ++ r')) -> exists rest, ho_sent s' = first ++ rest) as Hgen.
  2: { intros H. apply (Hgen _ _ _ H). exists []. unfold ho_sent. cbn. rewrite Hg, app_nil_r. auto. }
  clear acc s'. induction ops as [|op ops IH]; intros s acc s'; cbn [httponly_calls]; [intros [= <- <-] (r & ? & _); eauto|].
  destruct (httponly_call op s) as [l t] eqn:E. destruct (httponly_calls ops t) as [ls u] eqn:Es. intros [= <- <-] (r & Hs & Hr).
  apply (IH _ _ _ Es). pose proof (httponly_call_given _ _ _ _ E) as ([d Hd] & Hl).
  apply httponly_call_cases in E as (_ & [(_ & Hsent & _)|(_ & _ & Hh & Hsent)]).
  - exists (r ++ l). rewrite Hsent, Hs, <- app_assoc. split; [done|]. destruct Hr as [->|[r' Hr]]; [|right; rewrite Hd, Hr, <- app_assoc; eauto].
    destruct Hl as [->|Hl]; [by left|]. right. unfold ho_sent in Hsent at 1. rewrite Hl in Hsent. apply app_inv_tail in Hsent.
    rewrite Hsent, Hs. eauto.
  - destruct Hr as [->|[r' Hr]].
    + unfold ho_sent in Hs. rewrite app_nil_r in Hs. rewrite <- Hs in Hf. apply no_head_end_suffix in Hf. rewrite Hf in Hh. by destruct Hh.
    + rewrite Hsent, Hr. eexists. rewrite <- !app_assoc. split; [done|]. right. rewrite Hd, Hr, <- app_assoc. eauto.
Qed.
