(* ===== verification/Outbound.v ===== *)
(** * The outbound connector

    Models [crates/eggress-outbound/src/]: [executor.rs] (the chain executor with its
    handlers, TLS policy and HTTP/2 pools), [connector.rs] and [connect_error.rs] (a
    connection through the configured chain and how its failures are reported) and
    [udp.rs] (listener-free UDP associations).  Chains are executed by [Chain.v]; the
    handlers whose protocol leaves the byte stream as it is answer it through the
    conversations of the protocol files. *)

From S2P Require Import Prelude Upstream ConfigRules ConfigUpstreams ConfigListeners ConfigService Config Bytes Decimal Stream NetAddr Connector Relay Socks5 Socks5Handshake Socks5Udp Socks4 Tls Trojan HttpText HttpConnect Uri Capability UdpSecurity UdpCapability UdpUpstream Chain Accept Reply OutboundHops.

(** ** The executor (executor.rs) *)

(** The cargo features that change it. *)
Record features := { f_extended : bool; f_pproxy_legacy : bool; f_ssh : bool; f_quic : bool; f_insecure_tls : bool }.

Definition plain_handler (p : ProtocolSpec) : HopHandler := {| h_protocol := p; h_opens := fun _ _ _ => false |}.
Definition opening_handler (p : ProtocolSpec) : HopHandler := {| h_protocol := p; h_opens := fun _ _ _ => true |}.

(** In the order of the source.  [ssh_sessions]: a session cache was given. *)
Definition build_handlers (f : features) (ssh_sessions : bool) : list HopHandler :=
  map plain_handler [SHttp; SHttpOnly; SSocks5; SSocks4] ++
  (if f_extended f then map plain_handler [SShadowsocks; STrojan; SWebSocket] else []) ++
  (if f_pproxy_legacy f then [plain_handler SShadowsocksR] else []) ++
  map plain_handler [SRaw; SUnix] ++
  (if f_ssh f && ssh_sessions then [plain_handler SSsh] else []) ++
  [plain_handler SHttp2] ++
  (if f_quic f then map opening_handler [SQuic; SHttp3] else []).

Section tls_policy.
Context {TL : TlsLib}.

(** The process-wide configurations, as each call of the builder finds them. *)
Record tls_caches := {
  tc_default : option ClientConfig * option ClientConfig;
  tc_h2 : option ClientConfig * option ClientConfig;
  tc_insecure : option ClientConfig * option ClientConfig;
  tc_insecure_h2 : option ClientConfig * option ClientConfig
}.

Definition result_ok {E A} (m : outcome E A) : option A := match m with Ok a => Some a | _ => None end.

(** What the TLS wrapper of an executor captures. *)
Record tls_policy := {
  tp_shared : option ClientConfig;
  tp_insecure_shared : option ClientConfig;
  tp_h2 : option ClientConfig;
  tp_insecure_h2 : option ClientConfig;
  tp_override : bool
}.

Definition build_tls_policy (f : features) (tls_override : option ClientConfig) (c : tls_caches) : tls_policy :=
  let get (cell : option ClientConfig * option ClientConfig) build := result_ok (once_cell cell.1 cell.2 build).1 in
  let insecure_shared := if f_insecure_tls f then match tls_override with Some _ => None | None => get (tc_insecure c) build_default_insecure end else None in
  {| tp_shared := match tls_override with Some config => Some config | None => get (tc_default c) build_default end;
     tp_insecure_shared := insecure_shared;
     tp_h2 := match tls_override with None => get (tc_h2 c) build_default_h2 | Some _ => None end;
     tp_insecure_h2 :=
       if f_insecure_tls f then
         match tls_override, insecure_shared with None, Some _ => get (tc_insecure_h2 c) build_default_insecure_h2 | _, _ => None end
       else None;
     tp_override := bool_decide (is_Some tls_override) |}.

Definition build_alpn_config (alpn : option (list bytes)) : outcome TlsError ClientConfig :=
  let? b := with_system_roots client_builder_new in
  client_build false (match alpn with Some protocols => with_alpn b protocols | None => b end).

Definition build_insecure_alpn_config (f : features) (alpn : option (list bytes)) : outcome TlsError ClientConfig :=
  if f_insecure_tls f then
    let? b := with_system_roots client_builder_new in
    let b := with_insecure b in
    client_build true (match alpn with Some protocols => with_alpn b protocols | None => b end)
  else Err (TlsHandshake "insecure TLS requires the insecure-tls feature").

(** The configuration for the protocols of a hop, from a shared one and the one that is
    kept for HTTP/2. *)
Definition adapt_alpn (config : ClientConfig) (h2 : option ClientConfig) (alpn : option (list bytes)) : ClientConfig :=
  match alpn with
  | Some protocols =>
      if bool_decide (cc_alpn config = protocols) then config
      else match h2 with
      | Some h2 => if bool_decide (protocols = H2_ALPN) then h2 else client_config_with_alpn config (Some protocols)
      | None => client_config_with_alpn config (Some protocols)
      end
  | None => config
  end.

(** The configuration the TLS wrapper uses. *)
Definition tls_wrapper_config (f : features) (p : tls_policy) (alpn : option (list bytes)) (insecure : bool) : outcome TlsError ClientConfig :=
  if insecure then
    match tp_insecure_shared p with
    | Some c => Ok (adapt_alpn c (tp_insecure_h2 p) alpn)
    | None =>
        if tp_override p then Err (TlsHandshake "caller-supplied tls_override cannot be combined with per-hop insecure=true")
        else build_insecure_alpn_config f alpn
    end
  else
    match tp_shared p with
    | Some c => Ok (adapt_alpn c (tp_h2 p) alpn)
    | None => build_alpn_config alpn
    end.

Definition trojan_handler (p : tls_policy) (tls_override : option ClientConfig) : TrojanHopHandler :=
  {| th_tls_config := tp_shared p; th_insecure_tls_config := tp_insecure_shared p; th_tls_override := tls_override |}.

Definition build_chain_executor (f : features) (tls_override : option ClientConfig) (c : tls_caches) (ssh_sessions : bool) : ChainExecutor :=
  {| handlers := build_handlers f ssh_sessions; has_tls_wrapper := true;
     has_insecure_config := bool_decide (is_Some (tp_insecure_shared (build_tls_policy f tls_override c)));
     insecure_tls := f_insecure_tls f |}.

(** ** What certificate checks a hop gets *)

(** The caches hold what their builders build. *)
Definition cell_ok (cell : option ClientConfig * option ClientConfig) (build : outcome TlsError ClientConfig) : Prop :=
  (forall c, cell.1 = Some c -> build = Ok c) /\ (forall c, cell.2 = Some c -> build = Ok c).

Definition caches_ok (c : tls_caches) : Prop :=
  cell_ok (tc_default c) build_default /\ cell_ok (tc_h2 c) build_default_h2 /\
  cell_ok (tc_insecure c) build_default_insecure /\ cell_ok (tc_insecure_h2 c) build_default_insecure_h2.

Lemma cached cell build c : cell_ok cell build -> result_ok (once_cell cell.1 cell.2 build).1 = Some c -> build = Ok c.
Proof using Type.
  intros [H1 H2]. destruct (once_cell cell.1 cell.2 build) as [r cache] eqn:E. cbn. destruct r as [c'| |]; [|done|done]. intros [= ->].
  by apply once_cell_ok in E as [? _].
Qed.

Definition verified : Trust := TrustRoots (extend_system no_roots).

Lemma default_built c : build_default = Ok c -> cc_trust c = verified /\ cc_identity c = None /\ cc_alpn c = [].
Proof using Type. by intros [= <-]. Qed.
Lemma default_h2_built c : build_default_h2 = Ok c -> cc_trust c = verified /\ cc_identity c = None /\ cc_alpn c = H2_ALPN.
Proof using Type. by intros [= <-]. Qed.
Lemma insecure_built c : build_default_insecure = Ok c -> cc_trust c = TrustAny /\ cc_identity c = None /\ cc_alpn c = [].
Proof using Type. by intros [= <-]. Qed.
Lemma insecure_h2_built c : build_default_insecure_h2 = Ok c -> cc_trust c = TrustAny /\ cc_identity c = None /\ cc_alpn c = H2_ALPN.
Proof using Type. by intros [= <-]. Qed.

Lemma adapt_policy config h2 alpn :
  (forall c, h2 = Some c -> cc_trust c = cc_trust config /\ cc_identity c = cc_identity config /\ cc_alpn c = H2_ALPN) ->
  cc_trust (adapt_alpn config h2 alpn) = cc_trust config /\ cc_identity (adapt_alpn config h2 alpn) = cc_identity config /\
  cc_alpn (adapt_alpn config h2 alpn) = default (cc_alpn config) alpn.
Proof using Type.
  intros Hh. unfold adapt_alpn. destruct alpn as [protocols|]; [|done]. case_bool_decide as Ha; [done|].
  destruct h2 as [c|]; [|apply (with_alpn_policy config (Some protocols))]. case_bool_decide as Hp; [|apply (with_alpn_policy config (Some protocols))].
  destruct (Hh c eq_refl) as (-> & -> & ->). by subst.
Qed.

(** What a configuration for a hop that does or does not ask for [insecure] trusts. *)
Definition trusts (f : features) (tls_override : option ClientConfig) (insecure : bool) (c : ClientConfig) : Prop :=
  match tls_override with
  | Some o => insecure = false /\ cc_trust c = cc_trust o /\ cc_identity c = cc_identity o
  | None => cc_trust c = (if insecure && f_insecure_tls f then TrustAny else verified) /\ cc_identity c = None
  end.

Lemma once_cell_some cell build c : build = Ok c -> exists c', result_ok (once_cell cell.1 cell.2 build).1 = Some c'.
Proof using Type. intros ->. unfold once_cell. destruct cell.1, cell.2; cbn; eauto. Qed.

Lemma wrapper_policy f tls_override caches alpn insecure c : caches_ok caches ->
  tls_wrapper_config f (build_tls_policy f tls_override caches) alpn insecure = Ok c ->
  trusts f tls_override insecure c /\ cc_alpn c = default (from_option cc_alpn [] tls_override) alpn.
Proof using Type.
  intros (Hd & Hh & Hi & Hih). unfold tls_wrapper_config, build_tls_policy, trusts. destruct tls_override as [o|]; cbn [tp_shared tp_insecure_shared tp_h2 tp_insecure_h2 tp_override].
  - destruct insecure.
    + destruct (f_insecure_tls f); by rewrite bool_decide_eq_true_2.
    + intros [= <-]. destruct (adapt_policy o None alpn) as (-> & -> & ->); [done|]. done.
  - destruct insecure; cbn [andb].
    + destruct (f_insecure_tls f) eqn:Ef.
      * destruct (once_cell_some (tc_insecure caches) build_default_insecure _ eq_refl) as [s Hs]. rewrite Hs. intros [= <-].
        apply (cached _ _ _ Hi), insecure_built in Hs as (Ht & Hid & Hal).
        destruct (adapt_policy s (result_ok (once_cell (tc_insecure_h2 caches).1 (tc_insecure_h2 caches).2 build_default_insecure_h2).1) alpn) as (-> & -> & ->).
        { intros c Hc. apply (cached _ _ _ Hih), insecure_h2_built in Hc as (-> & -> & ->). by rewrite Ht, Hid. }
        by rewrite Ht, Hid, Hal.
      * rewrite bool_decide_eq_false_2 by (by intros [? ?]). unfold build_insecure_alpn_config. by rewrite Ef.
    + destruct (once_cell_some (tc_default caches) build_default _ eq_refl) as [s Hs]. rewrite Hs. intros [= <-].
      apply (cached _ _ _ Hd), default_built in Hs as (Ht & Hid & Hal).
      destruct (adapt_policy s (result_ok (once_cell (tc_h2 caches).1 (tc_h2 caches).2 build_default_h2).1) alpn) as (-> & -> & ->).
      { intros c Hc. apply (cached _ _ _ Hh), default_h2_built in Hc as (-> & -> & ->). by rewrite Ht, Hid. }
      by rewrite Ht, Hid, Hal.
Qed.

Lemma trojan_policy f tls_override caches hop c : caches_ok caches ->
  trojan_config (trojan_handler (build_tls_policy f tls_override caches) tls_override) hop = Ok (Some c) -> trusts f tls_override (insecure hop) c.
Proof using Type.
  intros (Hd & _ & Hi & _). unfold trojan_config, trojan_handler, build_tls_policy, trusts. cbn [th_tls_override th_tls_config th_insecure_tls_config].
  destruct tls_override as [o|], (insecure hop); cbn [tp_shared tp_insecure_shared andb]; [done|intros [= <-]; done| |].
  - destruct (f_insecure_tls f).
    + destruct (once_cell_some (tc_insecure caches) build_default_insecure _ eq_refl) as [s Hs]. rewrite Hs. intros [= <-].
      by apply (cached _ _ _ Hi), insecure_built in Hs as (-> & -> & _).
    + intros [= Hs]. by apply (cached _ _ _ Hd), default_built in Hs as (-> & -> & _).
  - intros [= Hs]. by apply (cached _ _ _ Hd), default_built in Hs as (-> & -> & _).
Qed.

(** C13. The trust policy of a chain.  With a configuration of the caller, every TLS
    handshake, also the one inside a Trojan hop, uses its trust and its identity, and a
    hop that asks for no verification fails.  Without one, no client certificate is
    presented and the certificate of the proxy is verified against the system roots,
    except for a hop that asks for no verification in a build that allows it.  The
    protocols offered are those the hop asks for. *)
Theorem tls_policy_kept f tls_override caches : caches_ok caches ->
  let p := build_tls_policy f tls_override caches in
  (forall alpn insecure c, tls_wrapper_config f p alpn insecure = Ok c ->
     trusts f tls_override insecure c /\ cc_alpn c = default (from_option cc_alpn [] tls_override) alpn) /\
  (forall hop c, trojan_config (trojan_handler p tls_override) hop = Ok (Some c) -> trusts f tls_override (insecure hop) c) /\
  (forall alpn insecure, (insecure = true -> tls_override = None /\ f_insecure_tls f = true) -> is_ok (tls_wrapper_config f p alpn insecure) = true).
Proof using Type.
  intros Hc. cbv zeta. split; [by intros ? ? ?; apply wrapper_policy|]. split; [by intros ? ?; apply trojan_policy|].
  intros alpn insecure Hi. unfold tls_wrapper_config, build_tls_policy. cbn [tp_shared tp_insecure_shared tp_h2 tp_insecure_h2 tp_override].
  destruct insecure.
  - destruct (Hi eq_refl) as [-> ->]. destruct (once_cell_some (tc_insecure caches) build_default_insecure _ eq_refl) as [s ->]. done.
  - destruct tls_override as [o|]; [done|]. destruct (once_cell_some (tc_default caches) build_default _ eq_refl) as [s ->]. done.
Qed.
End tls_policy.

(** ** HTTP/2 pools by TLS policy *)

(** A policy is the identity of its configuration object, which the entry keeps alive; a
    registry is the number of its creation. *)
Record H2PoolScopes := { h2_pools : gmap nat nat; h2_order : list nat; h2_created : nat }.

Definition scopes_new : H2PoolScopes := {| h2_pools := ∅; h2_order := []; h2_created := 0 |}.

Definition h2_pool_registry_for_tls_policy (tls_config : option nat) (s : H2PoolScopes) : nat * H2PoolScopes :=
  match tls_config with
  | None => (h2_created s, {| h2_pools := h2_pools s; h2_order := h2_order s; h2_created := S (h2_created s) |})
  | Some policy_id =>
      match h2_pools s !! policy_id with
      | Some registry => (registry, s)
      | None =>
          let '(pools, order) :=
            if (64 <=? length (h2_order s))%nat then
              match h2_order s with
              | oldest :: rest => (delete oldest (h2_pools s), rest)
              | [] => (h2_pools s, [])
              end
            else (h2_pools s, h2_order s) in
          (h2_created s, {| h2_pools := <[policy_id := h2_created s]> pools; h2_order := order ++ [policy_id]; h2_created := S (h2_created s) |})
      end
  end.

Definition clear_h2_pool_registries (s : H2PoolScopes) : H2PoolScopes := {| h2_pools := ∅; h2_order := []; h2_created := h2_created s |}.

Inductive scope_op := ScopeGet (tls_config : option nat) | ScopeClear.

(** The registries that were handed out, with the policies they were handed out for. *)
Fixpoint scope_ops (ops : list scope_op) (s : H2PoolScopes) : list (option nat * nat) * H2PoolScopes :=
  match ops with
  | [] => ([], s)
  | ScopeGet cfg :: ops => let '(r, s) := h2_pool_registry_for_tls_policy cfg s in let '(l, s) := scope_ops ops s in ((cfg, r) :: l, s)
  | ScopeClear :: ops => scope_ops ops (clear_h2_pool_registries s)
  end.

Definition scopes_ok (s : H2PoolScopes) : Prop :=
  (forall p, p ∈ h2_order s <-> is_Some (h2_pools s !! p)) /\ NoDup (h2_order s) /\ (length (h2_order s) <= 64)%nat /\
  (forall p r, h2_pools s !! p = Some r -> (r < h2_created s)%nat) /\
  (forall p q r, h2_pools s !! p = Some r -> h2_pools s !! q = Some r -> p = q).

Lemma scopes_get_ok cfg s r s' : scopes_ok s -> h2_pool_registry_for_tls_policy cfg s = (r, s') ->
  scopes_ok s' /\ (h2_created s <= h2_created s')%nat /\ (r < h2_created s')%nat /\
  match cfg with
  | Some p => h2_pools s' !! p = Some r /\ (h2_pools s !! p = Some r \/ (h2_created s <= r)%nat)
  | None => (h2_created s <= r)%nat /\ forall p, h2_pools s' !! p = h2_pools s !! p
  end /\ (forall p r', h2_pools s' !! p = Some r' -> h2_pools s !! p = Some r' \/ cfg = Some p /\ r' = r).
Proof.
  intros (Hdom & Hnd & Hlen & Hlt & Hinj). unfold h2_pool_registry_for_tls_policy. destruct cfg as [p|].
  2: { intros [= <- <-]. cbn. split.
    { exact (conj Hdom (conj Hnd (conj Hlen (conj (fun q r Hq => Nat.lt_trans _ _ _ (Hlt q r Hq) (Nat.lt_succ_diag_r _)) Hinj)))). }
    do 2 (split; [lia|]). auto. }
  destruct (h2_pools s !! p) as [r0|] eqn:Ep.
  { intros [= <- <-]. split; [done|]. split; [done|]. split; [by eapply Hlt|]. split; auto. }
  set (po := if (64 <=? length (h2_order s))%nat then match h2_order s with oldest :: rest => (delete oldest (h2_pools s), rest) | [] => (h2_pools s, []) end
    else (h2_pools s, h2_order s)).
  assert ((forall q, q ∈ po.2 <-> is_Some (po.1 !! q)) /\ NoDup po.2 /\ (length po.2 < 64)%nat /\ (forall q r', po.1 !! q = Some r' -> h2_pools s !! q = Some r'))
    as (Hd & Hn & Hl & Hsub).
  { unfold po. destruct (Nat.leb_spec 64 (length (h2_order s))) as [Hge|Hlt']; [|done]. destruct (h2_order s) as [|oldest rest]; [cbn in Hge; lia|].
    cbn [fst snd]. apply NoDup_cons in Hnd as [Hno Hnd]. cbn in Hlen. split_and!; [|done|lia|intros q r'; rewrite lookup_delete_Some; tauto].
    intros q. specialize (Hdom q). destruct (decide (q = oldest)) as [->|Hne].
    - rewrite lookup_delete_eq. split; [by intros ?|by intros [? ?]].
    - rewrite lookup_delete_ne by done. rewrite <- Hdom, elem_of_cons. tauto. }
  clearbody po. destruct po as [pools order]. cbn [fst snd] in *. intros [= <- <-]. cbn.
  assert (p ∉ order) as Hnp by (rewrite Hd; intros [r Hr]; apply Hsub in Hr; congruence).
  split; [unfold scopes_ok; cbn; split_and!|split_and!; try lia].
  - intros q. rewrite elem_of_app, list_elem_of_singleton, Hd. destruct (decide (q = p)) as [->|Hne]; [rewrite lookup_insert_eq|rewrite lookup_insert_ne by done].
    + split; [by eauto|by right].
    + split; [by intros [?|?]|by left].
  - apply NoDup_app. split; [done|]. split; [|apply NoDup_singleton]. intros q Hq ->%list_elem_of_singleton. done.
  - rewrite length_app. cbn. lia.
  - intros q r [[<- <-]|[_ Hr]]%lookup_insert_Some; [lia|]. apply Hsub, Hlt in Hr. lia.
  - intros q1 q2 r [[<- <-]|[Hne1 Hr1]]%lookup_insert_Some [[<- Hr]|[Hne2 Hr2]]%lookup_insert_Some; [done| | |].
    + apply Hsub, Hlt in Hr2. lia.
    + apply Hsub, Hlt in Hr1. lia.
    + apply Hsub in Hr1, Hr2. by eapply Hinj.
  - by rewrite lookup_insert_eq.
  - intros q r' [[<- <-]|[_ Hr]]%lookup_insert_Some; auto.
Qed.

Lemma scope_ops_ok ops s l s' : scopes_ok s -> scope_ops ops s = (l, s') ->
  scopes_ok s' /\ (forall a r, (a, r) ∈ l -> (h2_created s <= r)%nat \/ exists p, a = Some p /\ h2_pools s !! p = Some r) /\
  (forall a b r, (a, r) ∈ l -> (b, r) ∈ l -> a = b).
Proof.
  revert s l s'. induction ops as [|[cfg|] ops IH]; intros s l s' Hs; cbn [scope_ops].
  - intros [= <- <-]. split; [done|]. split; intros; by rewrite elem_of_nil in *.
  - destruct (h2_pool_registry_for_tls_policy cfg s) as [r s1] eqn:E1. destruct (scope_ops ops s1) as [l1 s2] eqn:E2. intros [= <- <-].
    destruct (scopes_get_ok _ _ _ _ Hs E1) as (Hs1 & Hle & Hr & Hcfg & Hold). destruct (IH _ _ _ Hs1 E2) as (Hs2 & Horig & Hsame).
    destruct Hs as (_ & _ & _ & Hlt & _). destruct Hs1 as (_ & _ & _ & _ & Hinj).
    assert (forall a, (a, r) ∈ l1 -> cfg = a) as Hhead.
    { intros a Ha. destruct (Horig _ _ Ha) as [?|(p & -> & Hp)]; [lia|]. destruct cfg as [q|].
      - destruct Hcfg as [Hq _]. f_equal. by eapply Hinj.
      - destruct Hcfg as [Hge Hkeep]. rewrite Hkeep in Hp. apply Hlt in Hp. lia. }
    split; [done|]. split.
    + intros a r' [[= -> ->]|Ha]%elem_of_cons.
      * destruct cfg as [p|]; [destruct Hcfg as (_ & [?|?]); eauto|left; by destruct Hcfg].
      * destruct (Horig _ _ Ha) as [?|(p & -> & Hp)]; [left; lia|]. destruct (Hold _ _ Hp) as [?|[-> ->]]; [eauto|].
        destruct Hcfg as (_ & [?|?]); eauto.
    + intros a b r' [Ea|Ha]%elem_of_cons [Eb|Hb]%elem_of_cons; simplify_eq; [done|by apply Hhead|symmetry; by apply Hhead|by apply (Hsame _ _ _ Ha)].
  - intros H. apply IH in H as (Hs2 & Horig & Hsame).
    + split; [done|]. split; [|done]. intros a r Ha. destruct (Horig _ _ Ha) as [?|(p & _ & Hp)]; [by left|]. cbn in Hp. by rewrite lookup_empty in Hp.
    + unfold scopes_ok. cbn. split_and!; try done; try lia.
      * intros p. rewrite lookup_empty. split; [by intros ?%elem_of_nil|by intros [? ?]].
      * constructor.
Qed.

(** Connections of the HTTP/2 pools are not shared across TLS policies: whatever the
    order of requests and resets, one registry is never handed out for two policies, and
    at most 64 policies are remembered. *)
Theorem h2_scopes_isolated ops l s : scope_ops ops scopes_new = (l, s) ->
  (forall a b r, (a, r) ∈ l -> (b, r) ∈ l -> a = b) /\ (length (h2_order s) <= 64)%nat /\ (size (h2_pools s) <= 64)%nat.
Proof.
  intros H. destruct (scope_ops_ok ops scopes_new l s) as (Hs & _ & Hsame); [|done|].
  - unfold scopes_ok, scopes_new. cbn. split_and!; try done; try lia; try constructor; try (by intros ?%elem_of_nil). intros [? ?]; done.
  - split; [done|]. destruct Hs as (Hdom & _ & Hlen & _). split; [done|]. etrans; [|exact Hlen]. rewrite <- size_dom.
    apply (Nat.le_trans _ (size (list_to_set (h2_order s) : gset nat))).
    + apply subseteq_size. intros p Hp%elem_of_dom. rewrite elem_of_list_to_set. by apply Hdom.
    + clear. induction (h2_order s) as [|x l IH]; cbn; [by rewrite size_empty|]. rewrite size_union_alt, size_singleton.
      assert (size ((list_to_set l : gset nat) ∖ {[x]}) <= size (list_to_set l : gset nat))%nat by (apply subseteq_size; set_solver). lia.
Qed.

(** ** Chains of proxies *)

Section tunnel.
Context {CL : ConnectLib}.

(** The conversation of a handler whose protocol leaves the byte stream as it is. *)
Definition stream_handshake (p : ProtocolSpec) (target : TargetAddr) (hop : ProxyHopSpec) : option (M handshake_source unit) :=
  match p with
  | SHttp => Some (fun c => let '(r, c) := http_hop target hop c in (map_err SrcHttp r, c))
  | SSocks5 => Some (fun c => let '(r, c) := socks5_hop target hop c in (map_err SrcSocks5 r, c))
  | SSocks4 => Some (fun c => let '(r, c) := socks4_hop target hop c in (map_err SrcSocks4 r, c))
  | SRaw | SUnix => Some (mret tt)
  | _ => None
  end.

(** The connection after an effect, and after a sequence of them. *)
Definition after (c : conn) (e : effect) : conn :=
  match e with
  | EHandshake h target hop _ => match stream_handshake (h_protocol h) target hop with Some m => (m c).2 | None => c end
  | _ => c
  end.

Definition replay (c : conn) (t : list effect) : conn := foldl after c t.

(** The answers of these handlers on the connection [c0]; [code] is the code of a boxed
    error, [other] answers what is not such a handshake. *)
Definition stream_answer (code : handshake_source -> Z) (other : list effect -> effect -> option Z) (c0 : conn) (t : list effect) (e : effect) : option Z :=
  match e with
  | EHandshake h target hop _ =>
      match stream_handshake (h_protocol h) target hop with
      | Some m => match (m (replay c0 t)).1 with Ok _ => None | Err s => Some (code s) | Panic => Some (code SrcUnknown) end
      | None => other t e
      end
  | _ => other t e
  end.

(** A proxy that serves the protocol of a hop with its credentials: the target it is
    asked for, and the connection behind its answer, which it relays. *)
Definition bind_target (bind : SocketAddr) : TargetAddr := {| host := Ip (sa_ip bind); tport := sa_port bind |}.

Definition socks5_proxy (bind : SocketAddr) (auth : option (bytes * bytes)) : M Socks5Error TargetAddr :=
  let! addr := handle_socks5_handshake (fst <$> auth) (snd <$> auth) in
  let! _ := send_connect_reply REP_SUCCESS (target_to_socks_addr (bind_target bind)) in
  mret (socks_addr_to_target addr).

Definition socks4_proxy (bind : SocketAddr) : M Socks4Error TargetAddr :=
  let! request := read_socks4_request in
  let! _ := write_socks4_reply Granted bind in
  mret (socks4_target request).

Definition http_proxy (auth : option (bytes * bytes)) : M HttpError TargetAddr :=
  let! request := handle_connect (bool_decide (is_Some auth)) auth in
  mret (HttpConnect.target request).

Definition accepted {E} (m : M E TargetAddr) (c : conn) : option (TargetAddr * conn) :=
  match m c with (Ok t, c') => Some (t, c') | _ => None end.

Definition proxy_of (bind : SocketAddr) (hop : ProxyHopSpec) (c : conn) : option (TargetAddr * conn) :=
  match protocols hop with
  | [SSocks5] => accepted (socks5_proxy bind (hop_auth hop)) c
  | [SSocks4] => accepted (socks4_proxy bind) c
  | [SHttp] => accepted (http_proxy (hop_auth hop)) c
  | _ => None
  end.

(** Proxies in a row: each takes its request from the front of what it receives and
    passes the rest on.  The targets they were asked for, what comes out of the last
    one, and their answers in the order the client sees them. *)
Fixpoint relay_chain (proxies : list (conn -> option (TargetAddr * conn))) (input : bytes) : option (list TargetAddr * bytes * bytes) :=
  match proxies with
  | [] => Some ([], input, [])
  | proxy :: rest =>
      match proxy (Conn input None [] None) with
      | Some (t, c) =>
          match relay_chain rest (c_in c) with
          | Some (ts, out, replies) => Some (t :: ts, out, c_out c ++ replies)
          | None => None
          end
      | None => None
      end
  end.

(** A hop without TLS can be asked for a target: the protocol can express it, and the
    credentials, if it has any. *)
Definition hop_ok (hop : ProxyHopSpec) (t : TargetAddr) : Prop :=
  tls hop = false /\ insecure hop = false /\
  match protocols hop with
  | [SSocks5] => SocksAddr_wf (target_to_socks_addr t) /\ SocksAddr_encodable (target_to_socks_addr t) /\
      match hop_auth hop with Some (u, p) => (length u <= 255 /\ length p <= 255)%nat | None => True end
  | [SSocks4] => s4_wf (s4_request_of t (username <$> credentials hop))
  | [SHttp] =>
      match hop_auth hop with
      | Some (user, pass) => utf8_valid user = true /\ utf8_valid pass = true /\ x3a ∉ user
      | None => True
      end /\
      connect_host (host t) /\ is_u16 (tport t) /\ normalized t = t /\
      exists ct req, connect_target t = Ok ct /\ build_connect_request ct (hop_auth hop) = Ok req /\
        (length req <= CONNECT_MAX_HEAD_SIZE)%nat
  | _ => False
  end.

Fixpoint chain_ok (chain : list ProxyHopSpec) (target : TargetAddr) : Prop :=
  match chain with
  | [] => True
  | hop :: rest => hop_ok hop (next_addr rest target) /\ chain_ok rest target
  end.

(** What each hop is asked for. *)
Fixpoint chain_targets (chain : list ProxyHopSpec) (target : TargetAddr) : list TargetAddr :=
  match chain with
  | [] => []
  | hop :: rest => next_addr rest target :: chain_targets rest target
  end.

Context {HLaws : ConnectLaws} (bind : SocketAddr) (bind_wf : ip_wf (sa_ip bind)) (bind_port : is_u16 (sa_port bind)).

(** Client and proxy understand each other: there are bytes with which the client asks
    for [t], and an answer; each takes exactly its part and leaves the rest alone. *)
Definition speaks (client : M handshake_source unit) (proxy : conn -> option (TargetAddr * conn)) (t : TargetAddr) : Prop :=
  exists sent reply,
    (forall tail e o, proxy (Conn (sent ++ tail) e o None) = Some (t, Conn tail e (o ++ reply) None)) /\
    (forall down e o, client (Conn (reply ++ down) e o None) = (Ok tt, Conn down e (o ++ sent) None)).

Lemma bind_socks_wf : SocksAddr_wf (target_to_socks_addr (bind_target bind)) /\ SocksAddr_encodable (target_to_socks_addr (bind_target bind)).
Proof using All. unfold bind_target. destruct (sa_ip bind); by cbn in *. Qed.

Lemma socks_target_inv t : socks_addr_to_target (target_to_socks_addr t) = t.
Proof using Type. by destruct t as [[[]|] ]. Qed.

Lemma socks5_speaks t hop : SocksAddr_wf (target_to_socks_addr t) -> SocksAddr_encodable (target_to_socks_addr t) ->
  match hop_auth hop with Some (u, p) => (length u <= 255 /\ length p <= 255)%nat | None => True end ->
  speaks (fun c => let '(r, c) := socks5_hop t hop c in (map_err SrcSocks5 r, c)) (accepted (socks5_proxy bind (hop_auth hop))) t.
Proof using All.
  intros Hw He Ha. destruct (addr_wire_intro _ Hw He) as (ta & te & Hwt). destruct bind_socks_wf as [Hbw Hbe].
  destruct (addr_wire_intro _ Hbw Hbe) as (ba & be & Hwb). unfold accepted, socks5_proxy, socks5_hop.
  destruct (hop_auth hop) as [[u p]|]; cbn [fmap option_fmap option_map fst snd].
  - destruct Ha as [Hu Hp].
    exists ([x05; x02] ++ [AUTH_NONE; AUTH_USERNAME_PASSWORD] ++ [AUTH_VERSION; Z2b (Z.of_nat (length u))] ++ u ++ [Z2b (Z.of_nat (length p))] ++ p ++
            [x05; CMD_CONNECT; x00; ta] ++ te), (([] ++ [x05; AUTH_USERNAME_PASSWORD; AUTH_VERSION; x00]) ++ [x05; REP_SUCCESS; x00; ba] ++ be). split.
    + intros tail e o. erewrite mbind_fwd; [erewrite mbind_fwd by (by apply send_connect_reply_fwd)|].
      * unfold mret. rewrite socks_target_inv, <- app_assoc. done.
      * rewrite <- (handshake_auth_fwd x02 [AUTH_NONE; AUTH_USERNAME_PASSWORD] (Z2b (Z.of_nat (length u))) (Z2b (Z.of_nat (length p))) (Some u) p _ ta te tail e o);
          [by app_norm|done|set_solver|simpl; rewrite b2n_Z2b; lia|rewrite b2n_Z2b; lia|done].
    + intros down e o. rewrite <- !app_assoc.
      pose proof (socks5_connect_auth_fwd _ ta te _ ba be u p down e o Hwt Hwb Hu Hp) as H. rewrite <- ?app_assoc in H. by rewrite H.
  - exists ([x05; x01] ++ [AUTH_NONE] ++ [x05; CMD_CONNECT; x00; ta] ++ te), (([] ++ [x05; AUTH_NONE]) ++ [x05; REP_SUCCESS; x00; ba] ++ be). split.
    + intros tail e o. erewrite mbind_fwd; [erewrite mbind_fwd by (by apply send_connect_reply_fwd)|].
      * unfold mret. rewrite socks_target_inv, <- app_assoc. done.
      * rewrite <- (handshake_noauth_fwd x01 [AUTH_NONE] None _ ta te tail e o); [by app_norm|done|set_solver|done].
    + intros down e o. rewrite <- !app_assoc.
      pose proof (socks5_connect_noauth_fwd _ ta te _ ba be down e o Hwt Hwb) as H. rewrite <- ?app_assoc in H. by rewrite H.
Qed.

Lemma socks4_speaks t hop : s4_wf (s4_request_of t (username <$> credentials hop)) ->
  speaks (fun c => let '(r, c) := socks4_hop t hop c in (map_err SrcSocks4 r, c)) (accepted (socks4_proxy bind)) t.
Proof using All.
  intros Hw. exists (s4_wire (s4_request_of t (username <$> credentials hop))), (reply_bytes Granted bind). split.
  - intros tail e o. unfold accepted, socks4_proxy. erewrite mbind_fwd by (by apply read_socks4_fwd).
    destruct Hw as (_ & _ & _ & (ip & Hip & _ & Hd) & _).
    assert (socks4_target (s4_request_of t (username <$> credentials hop)) = t) as Ht.
    { destruct t as [[i|d] p]; done. }
    unfold mbind, mret. rewrite Ht. reflexivity.
  - intros down e o. unfold socks4_hop. rewrite (socks4_connect_fwd t _ Granted bind down e o); [done| | |done].
    + by destruct Hw as (_ & _ & _ & _ & [_ ?] & _).
    + destruct Hw as (_ & _ & _ & (ip & Hip & _ & Hd) & _). unfold s4_request_of in *. cbn in *.
      destruct (host t) as [[|]|d]; [done|done|]. by destruct Hd as (_ & _ & [_ ?] & _).
Qed.

Lemma http_speaks t hop ct req :
  match hop_auth hop with
  | Some (user, pass) => utf8_valid user = true /\ utf8_valid pass = true /\ x3a ∉ user
  | None => True
  end ->
  connect_host (host t) -> is_u16 (tport t) -> normalized t = t ->
  connect_target t = Ok ct -> build_connect_request ct (hop_auth hop) = Ok req -> (length req <= CONNECT_MAX_HEAD_SIZE)%nat ->
  speaks (fun c => let '(r, c) := http_hop t hop c in (map_err SrcHttp r, c)) (accepted (http_proxy (hop_auth hop))) t.
Proof using All.
  intros Ha Hh Hp Hn Ht Hb Hl. destruct (connect_client_server t (hop_auth hop) ct req Hh Hp Ha Ht Hb Hl) as (Hs & Hcl & _).
  exists req, ESTABLISHED. split.
  - intros tail e o. unfold accepted, http_proxy. erewrite mbind_fwd by (apply Hs; case_bool_decide; tauto).
    unfold mret. cbn. by rewrite Hn.
  - intros down e o. unfold http_hop. by rewrite Hcl.
Qed.

Lemma hop_speaks hop t : hop_ok hop t -> exists p client, protocols hop = [p] /\ p ∈ [SHttp; SSocks5; SSocks4] /\
  stream_handshake p t hop = Some client /\ speaks client (proxy_of bind hop) t.
Proof using All.
  intros (_ & _ & H). unfold proxy_of. destruct (protocols hop) as [|p [|]]; [done| |by destruct p].
  destruct p; try done; eexists _, _; (split; [done|]); (split; [set_solver|]); (split; [done|]).
  - destruct H as (Ha & Hh & Hp & Hn & ct & req & Ht & Hb & Hl). by eapply http_speaks.
  - by apply socks4_speaks.
  - destruct H as (? & ? & ?). by apply socks5_speaks.
Qed.

Section chain.
Context (lookup_host : bytes -> timed (list SocketAddr)) (new_socket : bool -> option Z) (bind_socket : bool -> SocketAddr -> option Z).
Context (tcp_connect : option (bool * SocketAddr) -> SocketAddr -> timed ConnectionMetadata).
Context (code : handshake_source -> Z) (other : list effect -> effect -> option Z).
Context (ex : ChainExecutor).
Hypothesis has_handlers : forall p, p ∈ [SHttp; SSocks5; SSocks4] -> find_handler_loop (handlers ex) [p] = Some (plain_handler p).

Lemma replay_app c t e : replay c (t ++ [e]) = after (replay c t) e.
Proof using Type. unfold replay. by rewrite foldl_app. Qed.

Lemma app_protocols_one p : p ∈ [SHttp; SSocks5; SSocks4] -> application_protocols [p] = [p].
Proof using Type. intros H. unfold application_protocols. rewrite !elem_of_cons, elem_of_nil in H. by destruct H as [->|[->|[->|[]]]]. Qed.

(** One hop after another, the handshakes ask every proxy for the next one. *)
Lemma run_hops_through chain target : chain_ok chain target ->
  exists sent replies,
    (forall payload, relay_chain (map (proxy_of bind) chain) (sent ++ payload) = Some (chain_targets chain target, payload, replies)) /\
    (forall i c0 md t down e o, replay c0 t = Conn (replies ++ down) e o None ->
       exists md' t', run_hops (stream_answer code other c0) ex target i chain md t = (Ok md', t') /\ replay c0 t' = Conn down e (o ++ sent) None).
Proof using All.
  induction chain as [|hop rest IH]; intros Hok.
  { exists [], []. split; [done|]. intros i c0 md t down e o Hr. exists md, t. cbn. by rewrite app_nil_r. }
  destruct Hok as [Hhop Hrest]. destruct (IH Hrest) as (sent2 & replies2 & Hrelay2 & Hrun2).
  destruct (hop_speaks hop _ Hhop) as (p & client & Hp & Hin & Hcl & sent1 & reply1 & Hproxy & Hclient). destruct Hhop as (Htls & Hins & _).
  exists (sent1 ++ sent2), (reply1 ++ replies2). split.
  - intros payload. cbn [map relay_chain chain_targets]. rewrite <- app_assoc, Hproxy. cbn [c_in c_out app]. by rewrite Hrelay2.
  - intros i c0 md t down e o Hr. rewrite <- app_assoc in Hr. cbn [run_hops]. unfold wrap_tls. rewrite Htls, Hins, next_target_addr, Hp.
    unfold cbind at 1, cret at 1. unfold cbind at 1, clift at 1. rewrite (app_protocols_one p Hin). unfold find_handler. rewrite (has_handlers p Hin).
    unfold cbind at 1, clift at 1. cbn [ok_or]. unfold cbind at 1, perform. unfold stream_answer at 1. cbn [plain_handler h_protocol].
    rewrite Hcl, Hr, Hclient. cbn [fst].
    destruct (Hrun2 (S i) c0 (if drops_metadata i hop then metadata_default else md) (t ++ [EHandshake (plain_handler p) (next_addr rest target) hop i]) down e (o ++ sent1))
      as (md' & t' & Hrun & Hrep).
    + rewrite replay_app, Hr. cbn [after plain_handler h_protocol]. rewrite Hcl, Hclient. done.
    + exists md', t'. split; [done|]. by rewrite Hrep, app_assoc.
Qed.

Lemma plain_preflight i chain target : chain_ok chain target -> preflight (handlers ex) i chain = Ok tt.
Proof using All.
  revert i. induction chain as [|hop rest IH]; intros i; [done|]. intros [Hhop Hrest]. cbn [preflight].
  destruct (hop_speaks hop _ Hhop) as (p & client & Hp & Hin & _). rewrite Hp, (app_protocols_one p Hin). unfold find_handler. rewrite (has_handlers p Hin).
  cbn. by apply IH.
Qed.

Lemma execute_through first rest target :
  chain_ok (first :: rest) target -> is_ok (validate_chain 0 (first :: rest)) = true ->
  (forall b, parse_bind (local_bind_spec first) = Ok b ->
     is_ok (connect_with_options_and_metadata lookup_host new_socket bind_socket tcp_connect (endpoint_addr (endpoint first)) (bind_options b)) = true) ->
  is_ok (parse_bind (local_bind_spec first)) = true ->
  exists sent replies,
    (forall payload, relay_chain (map (proxy_of bind) (first :: rest)) (sent ++ payload) = Some (chain_targets (first :: rest) target, payload, replies)) /\
    (forall down, exists md, let c0 := Conn (replies ++ down) None [] None in
       execute_with_metadata lookup_host new_socket bind_socket tcp_connect (stream_answer code other c0) ex (first :: rest) target [] =
         (Ok md, chain_events ex (first :: rest) target) /\
       replay c0 (chain_events ex (first :: rest) target) = Conn down None sent None).
Proof using All.
  intros Hok Hv Hconn Hbind. destruct (run_hops_through (first :: rest) target Hok) as (sent & replies & Hrelay & Hrun).
  exists sent, replies. split; [done|]. intros down. cbv zeta. set (c0 := Conn (replies ++ down) None [] None).
  destruct Hok as [Hhop Hrest]. destruct (hop_speaks first _ Hhop) as (p & client & Hp & Hin & _).
  destruct (parse_bind (local_bind_spec first)) as [b|e|] eqn:Eb; [|done|done]. specialize (Hconn b eq_refl).
  destruct (connect_with_options_and_metadata _ _ _ _ _ _) as [[x m]|e|] eqn:Ec in Hconn; [|done|done].
  destruct (Hrun 0%nat c0 m [EConnect (endpoint_addr (endpoint first)) (bind_options b)] down None []) as (md & t & Hr & Hrep); [done|].
  assert (is_quic first = false /\ contains_proto SUnix (protocols first) = false) as [Hq Hu].
  { unfold is_quic. rewrite Hp. rewrite !elem_of_cons, elem_of_nil in Hin. by destruct Hin as [->|[->|[->|[]]]]. }
  assert (execute_with_metadata lookup_host new_socket bind_socket tcp_connect (stream_answer code other c0) ex (first :: rest) target [] = (Ok md, t)) as Hex.
  { unfold execute_with_metadata. destruct (validate_chain 0 (first :: rest)) as [[]| |]; [|done|done].
    rewrite (plain_preflight 0 (first :: rest) target) by done. rewrite next_target_addr. unfold cbind at 1 2 3 4, clift at 1 2 3 4. cbn [endpoint_to_target_addr].
    unfold open_first. rewrite Hq, Hu. unfold cbind at 1 2, clift, connect_first. rewrite Eb. unfold endpoint_addr in Ec. rewrite Ec.
    unfold endpoint_addr in Hr. exact Hr. }
  exists md. pose proof (chain_trace _ _ _ _ _ _ _ _ _ _ Hex) as (_ & _ & Ht & _). rewrite <- (Ht md eq_refl). done.
Qed.
End chain.
End tunnel.

Lemma handlers_found f ssh p : p ∈ [SHttp; SSocks5; SSocks4] -> find_handler_loop (build_handlers f ssh) [p] = Some (plain_handler p).
Proof. rewrite !elem_of_cons, elem_of_nil. by intros [->|[->|[->|[]]]]. Qed.

(** C12. A connection through a chain of proxies, end to end.  For every chain of SOCKS5,
    SOCKS4 and HTTP hops without TLS, with or without credentials, that can express what they are asked for, and whose first hop
    is reachable, there are the bytes the client writes and the answers of proxies that
    serve these protocols with the credentials of the hops, in a row.  The first proxy
    is asked for the second hop and so on, the last one for the destination; what the
    client writes afterwards comes out of the last proxy unchanged.  With these answers,
    and whatever follows them, the executor succeeds; it has then written exactly these
    bytes and read exactly these answers. *)
Theorem chain_through_proxies {CL : ConnectLib} {HLaws : ConnectLaws} {TL : TlsLib} lookup_host new_socket bind_socket tcp_connect code other
    f tls_override caches ssh (bind : SocketAddr) first rest target :
  let ex := build_chain_executor f tls_override caches ssh in
  ip_wf (sa_ip bind) -> is_u16 (sa_port bind) ->
  chain_ok (first :: rest) target -> is_ok (validate_chain 0 (first :: rest)) = true -> is_ok (parse_bind (local_bind_spec first)) = true ->
  (forall b, parse_bind (local_bind_spec first) = Ok b ->
     is_ok (connect_with_options_and_metadata lookup_host new_socket bind_socket tcp_connect (endpoint_addr (endpoint first)) (bind_options b)) = true) ->
  exists sent replies,
    (forall payload, relay_chain (map (proxy_of bind) (first :: rest)) (sent ++ payload) = Some (chain_targets (first :: rest) target, payload, replies)) /\
    (forall down, exists md, let c0 := Conn (replies ++ down) None [] None in
       execute_with_metadata lookup_host new_socket bind_socket tcp_connect (stream_answer code other c0) ex (first :: rest) target [] =
         (Ok md, chain_events ex (first :: rest) target) /\
       replay c0 (chain_events ex (first :: rest) target) = Conn down None sent None).
Proof.
  intros ex Hb Hp Hok Hv Hbind Hconn. apply execute_through; try done. intros p. apply handlers_found.
Qed.

(** ** Failures (connect_error.rs) *)

Inductive OutboundConnectErrorKind :=
| OkTimeout | OkDns | OkConnectionRefused | OkNetworkUnreachable | OkHostUnreachable | OkAuthentication | OkTls | OkProtocol | OkPolicy | OkOther.

Definition kind_label (k : OutboundConnectErrorKind) : bytes :=
  match k with
  | OkTimeout => str "timeout" | OkDns => str "dns" | OkConnectionRefused => str "connection_refused"
  | OkNetworkUnreachable => str "network_unreachable" | OkHostUnreachable => str "host_unreachable"
  | OkAuthentication => str "authentication" | OkTls => str "tls" | OkProtocol => str "protocol" | OkPolicy => str "policy" | OkOther => str "other"
  end.

Inductive OutboundConnectStage := StDirectConnect | StHopConnect | StHopHandshake | StDeadline.

Definition stage_label (s : OutboundConnectStage) : bytes :=
  match s with
  | StDirectConnect => str "direct_connect" | StHopConnect => str "hop_connect" | StHopHandshake => str "hop_handshake" | StDeadline => str "deadline"
  end.

Record OutboundConnectError := {
  oe_kind : OutboundConnectErrorKind; oe_stage : OutboundConnectStage; oe_hop_index : option nat; oe_protocol : option bytes; oe_message : bytes
}.

Definition connect_error_new (kind : OutboundConnectErrorKind) (stage : OutboundConnectStage) (hop_index : option nat) (protocol : option bytes) : OutboundConnectError :=
  let start := str "outbound connection failed: kind=" ++ kind_label kind ++ str " stage=" ++ stage_label stage in
  let message :=
    match hop_index, protocol with
    | Some hop, Some proto => start ++ str " hop=" ++ to_dec (Z.of_nat hop) ++ str " protocol=" ++ proto
    | Some hop, None => start ++ str " hop=" ++ to_dec (Z.of_nat hop)
    | None, Some proto => start ++ str " protocol=" ++ proto
    | None, None => start
    end in
  {| oe_kind := kind; oe_stage := stage; oe_hop_index := hop_index; oe_protocol := protocol; oe_message := message |}.

Definition map_classified_kind (k : ClassifiedKind) : OutboundConnectErrorKind :=
  match k with
  | CkTimeout => OkTimeout | CkDns => OkDns | CkRefused => OkConnectionRefused | CkNetworkUnreachable => OkNetworkUnreachable
  | CkHostUnreachable => OkHostUnreachable | CkAuth => OkAuthentication | CkTls => OkTls | CkProtocol => OkProtocol | CkPolicy => OkPolicy | CkOther => OkOther
  end.

Definition normalize_protocol_label (raw : bytes) : bytes := to_ascii_lowercase raw.

(** The message of the compatibility surface is the text of the error it keeps. *)
Inductive failure_source := FsDirect (e : Connector.ConnectError) | FsChain (e : ChainError).
Record ClassifiedFailure := { cf_error : OutboundConnectError; cf_compat_message : failure_source }.

(** ** Connecting (connector.rs) *)

Inductive OutboundRoute := OrDirect | OrChain (chain : ProxyChainSpec) (upstream_count : nat).
Record OutboundInfo := { oi_local_addr : option SocketAddr; oi_peer_addr : option SocketAddr; oi_hop_count : nat }.

(** [OeRuntime (Some _)]: the text of a failure; [None]: a timeout. *)
Inductive OutboundError :=
| OeConfig (why : string) | OeConfigFile (e : ConfigRules.ConfigError) | OeRuntime (source : option failure_source) | OeUdp (why : string)
| OeUnsupportedFeature (feature : bytes) | OeInternal.

Definition category (e : OutboundError) : string :=
  match e with
  | OeConfig _ | OeConfigFile _ => "config"
  | OeRuntime _ | OeUdp _ => "runtime"
  | OeUnsupportedFeature _ => "unsupported_feature"
  | OeInternal => "internal"
  end.

Definition from_chain (chain : ProxyChainSpec) : outcome OutboundError OutboundRoute :=
  match hops chain with [] => Err (OeConfig "upstream chain is empty") | _ => Ok (OrChain chain 1) end.

Definition direct : OutboundRoute := OrDirect.

Definition from_toml {Regex IpNet} (w : config_world Regex IpNet) (toml : bytes) : outcome OutboundError OutboundRoute :=
  let? rt := map_err OeConfigFile (validate_and_compile_toml w toml) in
  match rt_upstreams rt with
  | [] => Err (OeConfig "no upstreams configured")
  | u :: _ =>
      match hops (uc_chain u) with
      | [] => Err (OeConfig "upstream chain is empty")
      | _ => Ok (OrChain (uc_chain u) (length (rt_upstreams rt)))
      end
  end.

Definition validate_outbound_config {Regex IpNet} (w : config_world Regex IpNet) (toml : bytes) : outcome OutboundError nat :=
  let? rt := map_err OeConfigFile (validate_and_compile_toml w toml) in
  match rt_upstreams rt with
  | [] => Err (OeConfig "no upstreams configured; cannot make outbound connections")
  | u :: _ =>
      match hops (uc_chain u) with
      | [] => Err (OeConfig "upstream chain is empty; cannot make outbound connections")
      | l => Ok (length l)
      end
  end.

Section connector.
Context (lookup_host : bytes -> timed (list SocketAddr)) (new_socket : bool -> option Z) (bind_socket : bool -> SocketAddr -> option Z).
Context (tcp_connect : option (bool * SocketAddr) -> SocketAddr -> timed ConnectionMetadata) (answer : list effect -> effect -> option Z).
Context (io_kind : Z -> ErrorKind) (source_of : Z -> handshake_source) (ex : ChainExecutor).

Definition direct_failure (source : Connector.ConnectError) : ClassifiedFailure :=
  {| cf_error := connect_error_new (map_classified_kind (classify_connect_error io_kind source)) StDirectConnect None None; cf_compat_message := FsDirect source |}.

Definition chain_failure (error : ChainError) : ClassifiedFailure :=
  {| cf_error :=
       match error with
       | ConnectFailed hop_index _ source => connect_error_new (map_classified_kind (classify_connect_error io_kind source)) StHopConnect (Some hop_index) None
       | HandshakeFailed hop_index protocol source =>
           let kind := map_classified_kind (classify_handshake_source io_kind (source_of source)) in
           let kind := if eq_ignore_ascii_case protocol (str "tls") && match kind with OkProtocol | OkOther => true | _ => false end then OkTls else kind in
           connect_error_new kind StHopHandshake (Some hop_index) (Some (normalize_protocol_label protocol))
       | EmptyChain | InvalidChain _ => connect_error_new OkPolicy StDirectConnect None None
       end;
     cf_compat_message := FsChain error |}.

Definition target_of (h : bytes) (port : Z) : TargetAddr :=
  {| host := match parse_ip h with Some ip => Ip ip | None => DomainName h end; tport := port |}.

(** The result, with its effects: those of the chain, or the direct dial. *)
Definition connect_tcp_inner (route : OutboundRoute) (h : bytes) (port : Z) : outcome ClassifiedFailure OutboundInfo * list effect :=
  let target := target_of h port in
  match route with
  | OrDirect =>
      (match connect_with_options_and_metadata lookup_host new_socket bind_socket tcp_connect target ConnectOptions_default with
       | Ok (_, metadata) => Ok {| oi_local_addr := local_addr metadata; oi_peer_addr := peer_addr metadata; oi_hop_count := 0 |}
       | Err e => Err (direct_failure e)
       | Panic => Panic
       end, [EConnect target ConnectOptions_default])
  | OrChain chain _ =>
      let '(r, t) := execute_with_metadata lookup_host new_socket bind_socket tcp_connect answer ex (hops chain) target [] in
      (match r with
       | Ok metadata => Ok {| oi_local_addr := local_addr metadata; oi_peer_addr := peer_addr metadata; oi_hop_count := length (hops chain) |}
       | Err e => Err (chain_failure e)
       | Panic => Panic
       end, t)
  end.

Definition connect_tcp (route : OutboundRoute) (h : bytes) (port : Z) : outcome OutboundError OutboundInfo :=
  map_err (fun f => OeRuntime (Some (cf_compat_message f))) (connect_tcp_inner route h port).1.

Definition connect_tcp_detailed (route : OutboundRoute) (h : bytes) (port : Z) : outcome OutboundConnectError OutboundInfo :=
  map_err cf_error (connect_tcp_inner route h port).1.

(** [elapsed]: the deadline of the caller passed first. *)
Definition connect_tcp_timeout (elapsed : bool) (route : OutboundRoute) (h : bytes) (port : Z) : outcome OutboundError OutboundInfo :=
  if elapsed then Err (OeRuntime None) else map_err (fun f => OeRuntime (Some (cf_compat_message f))) (connect_tcp_inner route h port).1.

Definition connect_tcp_timeout_detailed (elapsed : bool) (route : OutboundRoute) (h : bytes) (port : Z) : outcome OutboundConnectError OutboundInfo :=
  if elapsed then Err (connect_error_new OkTimeout StDeadline None None) else map_err cf_error (connect_tcp_inner route h port).1.

Definition upstream_count (route : OutboundRoute) : nat := match route with OrDirect => 0 | OrChain _ n => n end.
Definition hop_count (route : OutboundRoute) : nat := match route with OrDirect => 0 | OrChain chain _ => length (hops chain) end.

(** The hop a failure names. *)
Definition failed_at (chain : list ProxyHopSpec) (e : ChainError) : Prop :=
  match e with
  | HandshakeFailed i label _ => exists hop, chain !! i = Some hop /\
      (label = str "tls" /\ tls hop = true \/ label = format_protocols (protocols hop) \/ i = 0%nat /\ label = debug_name (transport_protocol hop))
  | ConnectFailed i _ _ => i = 0%nat
  | EmptyChain => chain = []
  | InvalidChain _ => True
  end.

Lemma run_hops_fails target i front chain md t e t' : length front = i ->
  run_hops answer ex target i chain md t = (Err e, t') -> failed_at (front ++ chain) e.
Proof using Type.
  revert i front md t. induction chain as [|hop rest IH]; intros i front md t Hi; [done|]. cbn [run_hops].
  assert ((front ++ hop :: rest) !! i = Some hop) as Hat by (rewrite lookup_app_r by lia; by rewrite Hi, Nat.sub_diag).
  unfold cbind at 1. destruct (wrap_tls answer ex i hop t) as [[[]|e1|] t1] eqn:Ew; [|intros [= <- _]|done].
  2: { unfold wrap_tls in Ew. destruct (tls hop) eqn:Et.
       - destruct (negb (has_tls_wrapper ex)); [by injection Ew as <- _|]. destruct (insecure hop && _ && _); [by injection Ew as <- _|].
         unfold perform in Ew. destruct (answer t _); [|done]. injection Ew as <- _. exists hop. auto.
       - destruct (insecure hop); [by injection Ew as <- _|done]. }
  rewrite next_target_addr. unfold cbind at 1, clift at 1.
  assert (forall md t, run_hops answer ex target (S i) rest md t = (Err e, t') -> failed_at (front ++ hop :: rest) e) as Hrest.
  { intros md2 t2 H. rewrite (cons_middle hop front rest), app_assoc. eapply (IH (S i)); [|exact H]. rewrite length_app. cbn. lia. }
  destruct (application_protocols (protocols hop)) as [|p ps]; [apply Hrest|]. unfold find_handler. unfold cbind at 1, clift at 1.
  destruct (find_handler_loop (handlers ex) (p :: ps)) as [h|]; [|by intros [= <- _]]. cbn [ok_or]. unfold cbind at 1, perform.
  destruct (answer t1 _); [intros [= <- _]|apply Hrest]. exists hop. auto.
Qed.

Lemma validate_fails i chain e : validate_chain i chain = Err e -> exists r, e = InvalidChain r.
Proof using Type.
  revert i. induction chain as [|hop rest IH]; intros i; cbn [validate_chain]; [done|].
  repeat (match goal with |- context [if ?b then _ else _] => destruct b end; [intros [= <-]; eauto|]). apply IH.
Qed.

Lemma preflight_fails hs i chain e : preflight hs i chain = Err e -> exists r, e = InvalidChain r.
Proof using Type.
  revert i. induction chain as [|hop rest IH]; intros i; cbn [preflight]; [done|].
  destruct (application_protocols (protocols hop)) as [|p ps]; [apply IH|]. unfold find_handler.
  destruct (find_handler_loop hs (p :: ps)); cbn; [apply IH|]. intros [= <-]. eauto.
Qed.

Lemma execute_fails chain target e t :
  execute_with_metadata lookup_host new_socket bind_socket tcp_connect answer ex chain target [] = (Err e, t) -> failed_at chain e.
Proof using Type.
  unfold execute_with_metadata. destruct chain as [|first rest]; [by intros [= <- _]|]. set (chain := first :: rest).
  unfold cbind at 1, clift at 1. destruct (validate_chain 0 chain) as [[]|e1|] eqn:Ev; [|intros [= <- _]; by apply validate_fails in Ev as [r ->]|done].
  unfold cbind at 1, clift at 1. destruct (preflight (handlers ex) 0 chain) as [[]|e1|] eqn:Ep; [|intros [= <- _]; by apply preflight_fails in Ep as [r ->]|done].
  rewrite next_target_addr. unfold cbind at 1 2, clift at 1 2. cbn [endpoint_to_target_addr]. unfold cbind at 1.
  destruct (open_first _ _ _ _ _ _ _ _ _ _) as [[md|e1|] t1] eqn:Eo; [|intros [= <- _]|done].
  - intros H. by apply (run_hops_fails target 0 [] chain md t1 e t).
  - unfold open_first in Eo. destruct (is_quic first).
    + unfold find_handler, cbind at 1, clift at 1 in Eo. destruct (find_handler_loop _ _) as [h|]; cbn [ok_or] in Eo; [|by injection Eo as <- _].
      destruct (h_opens h _ _ _); [|by injection Eo as <- _]. unfold cbind, perform in Eo. destruct (answer _ _); [|done]. injection Eo as <- _.
      exists first. auto.
    + destruct (contains_proto _ _).
      * unfold cbind, perform in Eo. destruct (answer _ _); [|done]. by injection Eo as <- _.
      * unfold cbind, clift, connect_first in Eo. destruct (parse_bind _) as [b|e2|] eqn:Eb; [|injection Eo as <- _|done].
        -- destruct (connect_with_options_and_metadata _ _ _ _ _ _) as [[]| |]; [done|by injection Eo as <- _|done].
        -- unfold parse_bind in Eb. destruct (local_bind_spec first) as [v|]; [|done]. destruct (parse_socket_addr v) as [[]|]; [done|]. by injection Eb as <-.
Qed.

Lemma first_connects first ft addr options : EConnect addr options ∈ first_events ex first ft -> addr = endpoint_addr (endpoint first).
Proof using Type.
  unfold first_events. destruct (is_quic first); [destruct (find_handler_loop _ _)|destruct (contains_proto _ _); [|destruct (parse_bind _)]]; set_solver.
Qed.

Lemma hops_connects target i chain addr options : EConnect addr options ∉ hops_events ex target i chain.
Proof using Type.
  revert i. induction chain as [|hop rest IH]; intros i; cbn [hops_events]; [set_solver|]. intros [Hh|Hr]%elem_of_app; [|by eapply IH].
  unfold hop_events in Hh. destruct (tls hop), (find_handler_loop _ _); set_solver.
Qed.

(** What a typed error says, field by field. *)
Definition error_is (e : OutboundConnectError) (kind : OutboundConnectErrorKind) (stage : OutboundConnectStage)
    (hop_index : option nat) (protocol : option bytes) : Prop :=
  (oe_kind e, oe_stage e, oe_hop_index e, oe_protocol e) = (kind, stage, hop_index, protocol).

(** The typed error of a chain error: a refused transport is that of the first hop; a
    refused handshake is that of an existing hop, with its protocol names or the TLS
    step it asked for, and generic causes of a TLS step count as TLS; an invalid chain
    names no hop. *)
Definition failure_named (chain : list ProxyHopSpec) (e : ChainError) (f : OutboundConnectError) : Prop :=
  match e with
  | ConnectFailed i _ src => i = 0%nat /\
      error_is f (map_classified_kind (classify_connect_error io_kind src)) StHopConnect (Some 0%nat) None
  | HandshakeFailed i label src => exists hop, chain !! i = Some hop /\
      (label = str "tls" /\ tls hop = true \/ label = format_protocols (protocols hop) \/ i = 0%nat /\ label = debug_name (transport_protocol hop)) /\
      error_is f
        (match map_classified_kind (classify_handshake_source io_kind (source_of src)) with
         | (OkProtocol | OkOther) as kind => if eq_ignore_ascii_case label (str "tls") then OkTls else kind
         | kind => kind
         end) StHopHandshake (Some i) (Some (to_ascii_lowercase label))
  | EmptyChain => chain = [] /\ error_is f OkPolicy StDirectConnect None None
  | InvalidChain _ => error_is f OkPolicy StDirectConnect None None
  end.

Lemma chain_failure_named chain e : failed_at chain e -> failure_named chain e (cf_error (chain_failure e)).
Proof using Type.
  unfold failed_at, failure_named, chain_failure, error_is. destruct e as [i ep src|i label src| |reason]; cbn [cf_error]; [by intros ->| |done|done].
  intros (hop & Hat & Hl). exists hop. split_and!; [done|done|]. cbn [connect_error_new oe_kind oe_stage oe_hop_index oe_protocol].
  destruct (eq_ignore_ascii_case label (str "tls")), (map_classified_kind _); done.
Qed.

(** C14. No direct fallback, and failures that say where they happened.  A connector
    with a chain does what its executor does and nothing else: it succeeds exactly when
    the chain does, with the metadata of the chain and its number of hops, and its
    effects are an initial part of those of the chain, so that whether it succeeds or
    fails the only address it dials is that of the first hop.  Its typed errors name
    kind, stage, hop and protocol of what failed; an invalid chain is a policy error
    without a hop.  A direct connector dials the target and nothing else, and only ever
    fails in the direct stage.  Neither panics. *)
Theorem outbound_failures route h port r t :
  connect_tcp_inner route h port = (r, t) ->
  match route with
  | OrDirect =>
      t = [EConnect (target_of h port) ConnectOptions_default] /\
      match connect_with_options_and_metadata lookup_host new_socket bind_socket tcp_connect (target_of h port) ConnectOptions_default with
      | Ok (_, md) => r = Ok {| oi_local_addr := local_addr md; oi_peer_addr := peer_addr md; oi_hop_count := 0 |}
      | Err e => exists f, r = Err f /\ error_is (cf_error f) (map_classified_kind (classify_connect_error io_kind e)) StDirectConnect None None
      | Panic => False
      end
  | OrChain chain _ =>
      t `prefix_of` chain_events ex (hops chain) (target_of h port) /\
      (forall addr options, EConnect addr options ∈ t -> exists first rest, hops chain = first :: rest /\ addr = endpoint_addr (endpoint first)) /\
      exists r0, execute_with_metadata lookup_host new_socket bind_socket tcp_connect answer ex (hops chain) (target_of h port) [] = (r0, t) /\
        match r0 with
        | Ok md => t = chain_events ex (hops chain) (target_of h port) /\
            r = Ok {| oi_local_addr := local_addr md; oi_peer_addr := peer_addr md; oi_hop_count := length (hops chain) |}
        | Err e => exists f, r = Err f /\ cf_compat_message f = FsChain e /\ failure_named (hops chain) e (cf_error f)
        | Panic => False
        end
  end.
Proof using Type.
  unfold connect_tcp_inner. destruct route as [|chain n].
  - pose proof (connect_no_panic lookup_host new_socket bind_socket tcp_connect (target_of h port) ConnectOptions_default) as Hn.
    destruct (connect_with_options_and_metadata _ _ _ _ _ _) as [[x m]|e|]; [| |done]; intros [= <- <-]; (split; [done|]); [done|].
    by exists (direct_failure e).
  - destruct (execute_with_metadata _ _ _ _ _ _ _ _ _) as [r0 t0] eqn:E.
    pose proof (chain_trace _ _ _ _ _ _ _ _ _ _ E) as (Hnp & Hpre & Hall & _). intros [= <- <-]. split; [done|]. split.
    + intros addr options Hin. destruct Hpre as [rest' Hpre]. assert (EConnect addr options ∈ chain_events ex (hops chain) (target_of h port)) as Hin2.
      { rewrite Hpre. apply elem_of_app. by left. }
      unfold chain_events in Hin2. destruct (hops chain) as [|first rest]; [by apply elem_of_nil in Hin2|]. exists first, rest. split; [done|].
      apply elem_of_app in Hin2 as [?|Hx]; [by eapply first_connects|]. by apply hops_connects in Hx.
    + exists r0. split; [done|]. destruct r0 as [md|e|]; [split; [by apply (Hall md)|done]| |done].
      exists (chain_failure e). split_and!; [done|done|]. by eapply chain_failure_named, execute_fails.
Qed.
End connector.

(** ** Listener-free UDP (udp.rs) *)

Definition OUTBOUND_MAX_DATAGRAM_SIZE : nat := Z.to_nat 65535.
Definition OUTBOUND_UDP_CONNECT_TIMEOUT : Z := 10 * NANOS.

Definition target_to_socks (h : bytes) (port : Z) : outcome OutboundError SocksAddr :=
  if (port =? 0)%Z then Err (OeConfig "udp target port must be non-zero")
  else if is_empty h then Err (OeConfig "udp target host must not be empty")
  else
    match parse_ip h with
    | Some ip =>
        let socks := match ip with V4 o => IPv4 o port | V6 o => IPv6 o port end in
        let? _ := map_err (fun _ => OeConfig "invalid udp target") (validate_standalone_target socks true) in
        Ok socks
    | None =>
        if (255 <? length h)%nat then Err (OeConfig "udp target domain too long")
        else
          let socks := Domain h port in
          let? _ := map_err (fun _ => OeConfig "invalid udp target") (validate_standalone_target socks true) in
          Ok socks
    end.

(** [lookup]: the addresses of a name, [None] when resolution fails. *)
Definition resolve_udp_target (lookup : bytes -> Z -> option (list SocketAddr)) (target : SocksAddr) (h : bytes) (port : Z) : outcome OutboundError SocketAddr :=
  match target with
  | IPv4 octets _ => Ok {| sa_ip := V4 octets; sa_port := port |}
  | IPv6 octets _ => Ok {| sa_ip := V6 octets; sa_port := port |}
  | Domain _ _ =>
      let? addrs := ok_or (OeUdp "dns resolution failed") (lookup h port) in
      match addrs with a :: _ => Ok a | [] => Err (OeUdp "dns resolution failed: no addresses") end
  end.

Definition wildcard_bind_for_resolved (resolved : SocketAddr) : SocketAddr :=
  match sa_ip resolved with
  | V4 _ => {| sa_ip := V4 (replicate 4 x00); sa_port := 0 |}
  | V6 _ => {| sa_ip := V6 (replicate 16 x00); sa_port := 0 |}
  end.

Definition map_socks5_upstream_error (e : UdpUpstreamError) : OutboundError :=
  match e with
  | UuUnsupportedProtocol => OeUnsupportedFeature (str "socks5")
  | UuUnsupportedMultiHop => OeUnsupportedFeature (str "multi-hop")
  | UuTimeout => OeUdp "udp upstream handshake timed out"
  | CredentialTooLong | UuDomainTooLong => OeConfig "udp upstream"
  | UuTcpConnect _ => OeUdp "udp upstream TCP connect failed"
  | SocksMethodRejected | SocksAuthFailed | SocksAssociateRejected _ => OeUdp "udp upstream SOCKS5 handshake failed"
  | MalformedSocksReply | UdpRelayAddressInvalid | UuIo _ => OeUdp "udp upstream"
  end.

(** [Direct]: the socket is connected to [peer].  [Socks5]: it is bound only;
    [control]: the task that holds the control connection runs. *)
Inductive UdpAssociationKind := UaDirect (peer : SocketAddr) | UaSocks5 (relay_addr : SocketAddr) (control : bool).
Record UdpAssociation := { ud_kind : UdpAssociationKind; ud_target : SocksAddr; ud_closed : bool }.

(** What the world answers while an association is made. *)
Record udp_answers := {
  uw_lookup : bytes -> Z -> option (list SocketAddr);
  uw_bind : SocketAddr -> bool;
  uw_connect : SocketAddr -> bool;
  uw_open : Socks5UdpUpstreamConfig -> option SocksAddr -> outcome UdpUpstreamError Socks5UdpUpstreamAssociation
}.

Definition associate_udp (w : udp_answers) (route : OutboundRoute) (h : bytes) (port : Z) : outcome OutboundError UdpAssociation :=
  let? target := target_to_socks h port in
  match route with
  | OrDirect =>
      let? resolved := resolve_udp_target (uw_lookup w) target h port in
      if negb (uw_bind w (wildcard_bind_for_resolved resolved)) then Err (OeUdp "udp bind failed")
      else if negb (uw_connect w resolved) then Err (OeUdp "udp connect failed")
      else Ok {| ud_kind := UaDirect resolved; ud_target := target; ud_closed := false |}
  | OrChain chain _ =>
      match udp_capability chain with
      | SupportedSocks5 =>
          match hops chain with
          | [] => Err (OeConfig "upstream chain is empty")
          | hop :: _ =>
              let udp_bind := match parse_ip (ep_host (endpoint hop)) with
                              | Some (V6 _) => {| sa_ip := V6 (replicate 16 x00); sa_port := 0 |}
                              | _ => {| sa_ip := V4 (replicate 4 x00); sa_port := 0 |}
                              end in
              let? assoc := map_err map_socks5_upstream_error
                (uw_open w {| uc_upstream_id := str "outbound-upstream-0"; uc_hop := hop; uc_connect_timeout := OUTBOUND_UDP_CONNECT_TIMEOUT;
                              uc_udp_bind := udp_bind; uc_control_timeout := None |} (Some target)) in
              Ok {| ud_kind := UaSocks5 (ua_relay_addr assoc) true; ud_target := target; ud_closed := false |}
          end
      | SupportedComposed => Err (OeUnsupportedFeature (str "composed-udp"))
      | CapUnsupportedProtocol protocol => Err (OeUnsupportedFeature protocol)
      | UnsupportedMultiHop => Err (OeUnsupportedFeature (str "multi-hop"))
      | SupportedShadowsocks _ _ => Err (OeUnsupportedFeature (str "udp-upstream"))
      end
  end.

Definition ensure_open (a : UdpAssociation) : outcome OutboundError unit := if ud_closed a then Err (OeUdp "udp association is closed") else Ok tt.

(** The datagram that is handed to the socket, and where it goes. *)
Definition udp_send (a : UdpAssociation) (payload : bytes) : outcome OutboundError (SocketAddr * bytes) :=
  let? _ := ensure_open a in
  let? _ := map_err (fun _ => OeConfig "datagram too large") (validate_datagram_size (length payload) OUTBOUND_MAX_DATAGRAM_SIZE) in
  match ud_kind a with
  | UaDirect peer => Ok (peer, payload)
  | UaSocks5 relay_addr _ =>
      let? out := map_err (fun _ => OeConfig "udp encode failed") (encode_socks5_udp_datagram (ud_target a) payload) in
      Ok (relay_addr, out)
  end.

(** A datagram arrives from [from]; [buf_len] is the buffer of the caller.  A connected
    socket only delivers datagrams of its peer. *)
Definition udp_recv (a : UdpAssociation) (from : SocketAddr) (datagram : bytes) (buf_len : nat) : outcome OutboundError bytes :=
  let? _ := ensure_open a in
  match ud_kind a with
  | UaDirect _ => Ok (take buf_len datagram)
  | UaSocks5 _ _ =>
      let? req := map_err (fun _ => OeUdp "udp upstream decode failed") (decode_socks5_udp_datagram (take OUTBOUND_MAX_DATAGRAM_SIZE datagram)) in
      if (buf_len <? length (ur_payload req))%nat then Err (OeConfig "udp payload exceeds receive buffer") else Ok (ur_payload req)
  end.

(** [close], also run by [drop]: the association, and what it takes off the live count. *)
Definition udp_close (a : UdpAssociation) : UdpAssociation * Z :=
  if ud_closed a then (a, 0%Z)
  else ({| ud_kind := match ud_kind a with UaSocks5 relay _ => UaSocks5 relay false | k => k end; ud_target := ud_target a; ud_closed := true |}, 1%Z).

(** ** The associations of a connector *)

Record udp_table := { ut_assocs : gmap nat UdpAssociation; ut_live : Z }.

Inductive udp_table_step (w : udp_answers) (route : OutboundRoute) (s : udp_table) : udp_table -> Prop :=
| us_associate id h port a : ut_assocs s !! id = None -> associate_udp w route h port = Ok a ->
    udp_table_step w route s {| ut_assocs := <[id := a]> (ut_assocs s); ut_live := wrap64 (ut_live s + 1) |}
| us_close id a : ut_assocs s !! id = Some a ->
    udp_table_step w route s {| ut_assocs := <[id := (udp_close a).1]> (ut_assocs s); ut_live := wrap64 (ut_live s - (udp_close a).2) |}
| us_drop id a : ut_assocs s !! id = Some a ->
    udp_table_step w route s {| ut_assocs := delete id (ut_assocs s); ut_live := wrap64 (ut_live s - (udp_close a).2) |}.

Definition udp_table_new : udp_table := {| ut_assocs := ∅; ut_live := 0%Z |}.

Definition open_count (m : gmap nat UdpAssociation) : nat := size (filter (fun kv => ud_closed kv.2 = false) m).

Lemma associate_open w route h port a : associate_udp w route h port = Ok a -> ud_closed a = false.
Proof.
  unfold associate_udp. intros H. apply obind_ok in H as (target & _ & H). destruct route as [|chain n].
  - apply obind_ok in H as (r & _ & H). destruct (negb _); [done|]. destruct (negb _); [done|]. by injection H as <-.
  - destruct (udp_capability chain); try done. destruct (hops chain); [done|]. apply obind_ok in H as (assoc & _ & H). by injection H as <-.
Qed.

Lemma open_count_delete m id a : m !! id = Some a -> open_count m = (open_count (delete id m) + if ud_closed a then 0 else 1)%nat.
Proof.
  intros Hm. unfold open_count. rewrite <- (insert_delete_id m id a Hm) at 1. destruct (ud_closed a) eqn:E.
  - rewrite map_filter_insert_False by (cbn; congruence). rewrite delete_delete_eq. lia.
  - rewrite map_filter_insert_True by done. rewrite map_size_insert_None; [lia|]. apply map_lookup_filter_None. left. apply lookup_delete_eq.
Qed.

Lemma open_count_insert m id a : m !! id = None -> open_count (<[id := a]> m) = (open_count m + if ud_closed a then 0 else 1)%nat.
Proof. intros Hm. rewrite (open_count_delete _ id a) by apply lookup_insert_eq. by rewrite delete_insert_id. Qed.

(** The live count of a connector is the number of associations that are neither closed
    nor dropped, however creations, closes and drops interleave (modulo the width of the
    counter); closing twice, or closing before dropping, counts once. *)
Theorem udp_live_exact w route s : rtc (udp_table_step w route) udp_table_new s -> ut_live s = wrap64 (Z.of_nat (open_count (ut_assocs s))).
Proof.
  assert (forall a b, wrap64 (wrap64 a + b) = wrap64 (a + b)) as Hw by (intros; unfold wrap64; by rewrite Zplus_mod_idemp_l).
  apply (rtc_ind_r (fun s => ut_live s = wrap64 (Z.of_nat (open_count (ut_assocs s))))); [done|].
  intros s1 s2 _ Hstep IH. destruct Hstep as [id h port a Hid Ha|id a Hid|id a Hid]; cbn; rewrite IH, Hw || (rewrite IH; rewrite <- Z.add_opp_r, Hw).
  - rewrite open_count_insert, (associate_open _ _ _ _ _ Ha) by done. f_equal. lia.
  - rewrite (open_count_delete _ id a Hid), (open_count_delete (<[id := _]> _) id (udp_close a).1) by apply lookup_insert_eq.
    rewrite delete_insert_eq. unfold udp_close. destruct (ud_closed a) eqn:E; cbn; [rewrite E|]; f_equal; lia.
  - rewrite (open_count_delete _ id a Hid). unfold udp_close. destruct (ud_closed a); cbn; f_equal; lia.
Qed.

(** A flaw: an association over a SOCKS5 proxy delivers a datagram whoever sent it and
    whatever target it names. *)
Theorem udp_recv_anybody a relay control from1 from2 target1 target2 payload d1 d2 buf_len :
  ud_kind a = UaSocks5 relay control ->
  decode_socks5_udp_datagram (take OUTBOUND_MAX_DATAGRAM_SIZE d1) = Ok {| ur_target := target1; ur_payload := payload |} ->
  decode_socks5_udp_datagram (take OUTBOUND_MAX_DATAGRAM_SIZE d2) = Ok {| ur_target := target2; ur_payload := payload |} ->
  udp_recv a from1 d1 buf_len = udp_recv a from2 d2 buf_len.
Proof. intros Hk H1 H2. unfold udp_recv. rewrite Hk, H1, H2. done. Qed.

(** ** Examples *)

Module SampleTls.
(** Root stores are either empty or the system's. *)
#[export] Instance lib : TlsLib := {|
  Cert := unit; Key := unit; RootStore := bool; no_roots := false; extend_system := fun _ => true; add_root := fun r _ => Some r;
  roots_empty := negb; pem_certs := fun _ => []; pem_key := fun _ => Err PemNoItems; identity_ok := fun _ _ => true; verifier_ok := fun _ => true
|}.
End SampleTls.
Import SampleTls SampleConnect.

Definition no_caches : tls_caches := {| tc_default := (None, None); tc_h2 := (None, None); tc_insecure := (None, None); tc_insecure_h2 := (None, None) |}.
Definition default_features : features := {| f_extended := true; f_pproxy_legacy := false; f_ssh := false; f_quic := false; f_insecure_tls := false |}.
Definition own_config : ClientConfig := {| cc_trust := TrustOther 7; cc_identity := None; cc_alpn := [] |}.

Lemma no_caches_ok : caches_ok no_caches.
Proof. repeat split; intros c H; discriminate H. Qed.

Lemma tls_policy_kept_witness : exists c,
  tls_wrapper_config default_features (build_tls_policy default_features (Some own_config) no_caches) (Some H2_ALPN) false = Ok c /\
  cc_trust c = TrustOther 7 /\ cc_alpn c = H2_ALPN.
Proof.
  destruct (tls_policy_kept default_features (Some own_config) no_caches no_caches_ok) as (H & _).
  eexists. split; [reflexivity|]. destruct (H (Some H2_ALPN) false _ eq_refl) as ((_ & -> & _) & ->). by split.
Defined.

Definition sample_hop (p : ProtocolSpec) (name : string) (creds : option CredentialSpec) : ProxyHopSpec :=
  {| protocols := [p]; endpoint := {| ep_host := str name; ep_port := 1080%Z |}; credentials := creds;
     rule := None; local_bind_spec := None; tls := false; server_name := None; insecure := false; plugins := []; auth_prefix := None |}.

Definition sample_chain : list ProxyHopSpec :=
  [sample_hop SSocks5 "hop1.example" None; sample_hop SSocks4 "8.8.8.8" None;
   sample_hop SHttp "8.8.4.4" (Some {| username := str "u"; password := str "p" |})].

Definition sample_dest : TargetAddr := {| host := DomainName (str "example.com"); tport := 443 |}.

Lemma sample_chain_ok : chain_ok sample_chain sample_dest.
Proof.
  split; [|split; [|split; [|exact I]]].
  - split; [reflexivity|]. split; [reflexivity|]. split; [|split; exact I]. split; [reflexivity|]. split; [apply Z.leb_le; reflexivity|reflexivity].
  - split; [reflexivity|]. split; [reflexivity|]. split; [reflexivity|]. split; [split; [apply Z.leb_le; reflexivity|reflexivity]|]. split; [reflexivity|].
    split; [exists [x08; x08; x04; x04]; split; [reflexivity|split; reflexivity]|]. split; [|reflexivity]. split; [set_solver|apply Nat.leb_le; reflexivity].
  - split; [reflexivity|]. split; [reflexivity|].
    destruct (build_connect_request demo_ct (Some (str "u", str "p"))) as [req| |] eqn:E; [|by vm_compute in E|by vm_compute in E].
    split; [split; [reflexivity|]; split; [reflexivity|]; by apply (bool_decide_unpack _)|].
    split; [split; [done|]; split; [|done]; apply solid_of_plain; repeat constructor; by apply plain_printable|].
    split; [split; [apply Z.leb_le; reflexivity|reflexivity]|]. split; [reflexivity|]. exists demo_ct, req.
    split; [reflexivity|]. split; [exact E|].
    apply Nat.leb_le. vm_compute in E. injection E as <-. by vm_compute.
Qed.

Lemma chain_through_proxies_witness : exists sent replies,
  relay_chain (map (proxy_of {| sa_ip := V4 [x0a; x00; x00; x01]; sa_port := 4000 |}) sample_chain) (sent ++ str "hello") =
  Some ([{| host := Ip (V4 [x08; x08; x08; x08]); tport := 1080 |}; {| host := Ip (V4 [x08; x08; x04; x04]); tport := 1080 |}; sample_dest], str "hello", replies).
Proof.
  destruct (chain_through_proxies demo_lookup (fun _ => None) (fun _ _ => None) Connector.demo_connect (fun _ => 0%Z) (fun _ _ => None)
    default_features None no_caches false {| sa_ip := V4 [x0a; x00; x00; x01]; sa_port := 4000 |}
    (sample_hop SSocks5 "hop1.example" None) (tail sample_chain) sample_dest) as (sent & replies & H & _).
  - reflexivity.
  - split; [apply Z.leb_le; reflexivity|reflexivity].
  - exact sample_chain_ok.
  - reflexivity.
  - reflexivity.
  - intros b [= <-]. reflexivity.
  - exists sent, replies. exact (H (str "hello")).
Defined.

Lemma outbound_failures_witness : exists f t,
  connect_tcp_inner demo_lookup (fun _ => None) (fun _ _ => None) Connector.demo_connect (fun _ e => match e with EHandshake _ _ _ 1 => Some 111%Z | _ => None end)
    (fun _ => KOther) (fun _ => SrcSocks4 S4ConnectionFailed) (build_chain_executor default_features None no_caches false)
    (OrChain {| hops := sample_chain |} 1) (str "example.com") 443 = (Err f, t) /\
  oe_hop_index (cf_error f) = Some 1%nat /\ oe_message (cf_error f) = str "outbound connection failed: kind=protocol stage=hop_handshake hop=1 protocol=socks4" /\
  t `prefix_of` chain_events (build_chain_executor default_features None no_caches false) sample_chain sample_dest.
Proof.
  eexists _, _. split; [reflexivity|]. split; [reflexivity|]. split; [reflexivity|].
  destruct (outbound_failures demo_lookup (fun _ => None) (fun _ _ => None) Connector.demo_connect (fun _ e => match e with EHandshake _ _ _ 1 => Some 111%Z | _ => None end)
    (fun _ => KOther) (fun _ => SrcSocks4 S4ConnectionFailed) (build_chain_executor default_features None no_caches false)
    (OrChain {| hops := sample_chain |} 1) (str "example.com") 443 _ _ eq_refl) as (H & _). exact H.
Defined.
