(* ===== verification/Listeners.v ===== *)
(** * Preparing the listeners of a process

    Models [crates/eggress-runtime/src/supervisor/{listeners,connection,services}.rs]
    ([build_listener_auth], [prepare_listener_set], [publish_listener_addresses],
    [prepare_tls_server_config], [build_connection_config], [apply_compatibility_proxy]),
    the binding of a TCP listener ([crates/eggress-core/src/listener.rs]) and of a Unix
    socket ([crates/eggress-server/src/listener/unix.rs]): from the compiled
    configuration to bound sockets and to what a connection on each of them is served
    with.  The operating system answers as parameters. *)

From S2P Require Import Prelude Bytes Decimal Stream NetAddr Connector Dispatch Uri Capability Chain Health Upstream Scheduler Matcher Router Accept UdpRegistry UdpFlow UdpOpen UdpSession ConfigRules ConfigUpstreams ConfigListeners ConfigService Config Tls.
Local Open Scope Z_scope.

(** ** Sockets *)

Record TcpListenerConfig := {
  tl_bind_addr : SocketAddr; tl_protocols : list ProtocolId; tl_auth_required : bool; tl_handshake_timeout : Z; tl_connection_limit : nat
}.

(** What the calls on a new socket answer. *)
Record socket_world := {
  so_socket : answer unit; so_reuse_address : answer unit; so_only_v6 : answer unit; so_reuse_port : answer unit; so_nonblocking : answer unit;
  so_bind : answer unit; so_listen : answer unit; so_register : answer unit; so_local_addr : answer SocketAddr
}.

(** The socket with the semaphore that limits its connections. *)
Record TcpListener := { tc_addr : SocketAddr; tc_dual_stack : bool; tc_reuse_port : bool; tc_permits : nat }.

Definition is_v4 (a : SocketAddr) : bool := match sa_ip a with V4 _ => true | V6 _ => false end.

(** On a platform that has [SO_REUSEPORT]. *)
Definition new_with_reuse_port (config : TcpListenerConfig) (reuse_port : bool) (w : socket_world) : outcome IoError TcpListener :=
  let? _ := answered (so_socket w) in
  let? _ := answered (so_reuse_address w) in
  let dual := negb (is_v4 (tl_bind_addr config)) && match so_only_v6 w with inl _ => true | inr _ => false end in
  let? _ := if reuse_port then answered (so_reuse_port w) else Ok tt in
  let? _ := answered (so_nonblocking w) in
  let? _ := answered (so_bind w) in
  let? _ := answered (so_listen w) in
  let? _ := answered (so_register w) in
  Ok {| tc_addr := tl_bind_addr config; tc_dual_stack := dual; tc_reuse_port := reuse_port; tc_permits := tl_connection_limit config |}.

(** *** Unix sockets *)

Inductive file_kind := FkSocket | FkSymlink | FkOther.

(** The path as the calls find it: [fs_parent] is [None] for a path without parent. *)
Record fs_world := {
  fs_parent : option bool; fs_present : bool; fs_stat : answer file_kind; fs_remove : answer unit; fs_bind : answer unit; fs_chmod : answer unit
}.
Inductive fs_action := FsRemove | FsBind | FsChmod (mode : Z).
Inductive UnixListenerError := UnixIo | UnixInvalidPath.

Definition unix_bind (unlink_existing : bool) (w : fs_world) : outcome UnixListenerError unit * list fs_action :=
  match fs_parent w with
  | Some false => (Err UnixInvalidPath, [])
  | _ =>
      let bind done := (match fs_bind w with inl _ => Ok tt | inr _ => Err UnixIo end, done ++ [FsBind]) in
      if fs_present w then
        match fs_stat w with
        | inr _ => (Err UnixIo, [])
        | inl FkSocket => if unlink_existing then match fs_remove w with inl _ => bind [FsRemove] | inr _ => (Err UnixIo, [FsRemove]) end else (Err UnixIo, [])
        | inl FkSymlink => (Err UnixIo, [])
        | inl FkOther => (Err UnixIo, [])
        end
      else bind []
  end.

Definition create_unix_listener (unlink_existing : bool) (mode : option Z) (w : fs_world) : outcome UnixListenerError unit * list fs_action :=
  match unix_bind unlink_existing w with
  | (Ok _, done) =>
      match mode with
      | Some m => (match fs_chmod w with inl _ => Ok tt | inr _ => Err UnixIo end, done ++ [FsChmod m])
      | None => (Ok tt, done)
      end
  | r => r
  end.

(** [UnixListener::cleanup] of a listener that made its socket: the file goes if there
    still is one. *)
Definition unix_cleanup (present : bool) : list fs_action := if present then [FsRemove] else [].

(** ** Preparation *)

Section prepare.
Context {TL : TlsLib}.

Inductive prepare_error :=
| EmptyCredentials
| ListenerTlsInvalid (name : bytes) (e : TlsError)
| QuicWithoutMaterial (name : bytes)
| ListenerBind (addr : bytes).

Definition build_listener_auth (auth_cfg : option AuthConfig) (reuse : bool) : outcome prepare_error InboundAuthentication :=
  match auth_cfg with
  | Some cfg =>
      if bool_decide (au_type cfg = str "password") then
        let username := default [] (au_username cfg) in
        let password := default [] (au_password cfg) in
        if is_empty username || is_empty password then Err EmptyCredentials
        else Ok (if reuse then UsernamePasswordWithReuse username password else UsernamePassword username password)
      else Ok NoAuth
  | None => Ok NoAuth
  end.

Definition prepare_tls_server_config (tls : option CompiledListenerTlsConfig) : outcome TlsError (option ServerConfig) :=
  match tls with
  | None => Ok None
  | Some cfg =>
      let? b := with_certificate_pem server_builder_new (cl_cert_pem cfg) in
      let? b := with_key_pem b (cl_key_pem cfg) in
      let b := if negb (bool_decide (cl_alpn cfg = [])) then server_with_alpn b (cl_alpn cfg) else b in
      let? c := server_build b in Ok (Some c)
  end.

(** [make_udp_service]: the listener's name and its settings. *)
Definition RuntimeUdpService : Type := bytes * CompiledListenerUdpConfig.
Definition make_udp_service (listener_name : bytes) (udp_config : option CompiledListenerUdpConfig) : option RuntimeUdpService :=
  (fun u => (listener_name, u)) <$> udp_config.

Record PreparedListener := {
  pr_name : bytes; pr_bind : bytes; pr_protocols : list ProtocolId; pr_listener : TcpListener; pr_local_addr : SocketAddr; pr_auth : InboundAuthentication;
  pr_handshake_timeout : Z; pr_udp : option CompiledListenerUdpConfig; pr_udp_service : option RuntimeUdpService; pr_tls : option ServerConfig;
  pr_shadowsocks : option ShadowsocksListenerConfig; pr_trojan : option ListenerTrojanConfig; pr_fixed_target : option TargetAddr; pr_local_bind : option bytes
}.

Record QuicServerConfig := { qs_certificate_pem : bytes; qs_private_key_pem : bytes; qs_idle_timeout : Z; qs_max_concurrent_streams : Z; qs_alpn_protocols : list bytes }.

Record PreparedQuicListener := {
  pq_name : bytes; pq_protocols : list ProtocolId; pq_config : QuicServerConfig; pq_local_addr : SocketAddr; pq_auth : InboundAuthentication;
  pq_handshake_timeout : Z; pq_connection_limit : Z
}.

(** [PreparedUnixListener] and [PreparedTransparentListener] have the same fields, but
    for the socket. *)
Record PreparedSlotListener (L : Type) := {
  ps_name : bytes; ps_listener : L; ps_protocols : list ProtocolId; ps_auth : InboundAuthentication; ps_handshake_timeout : Z; ps_connection_limit : Z;
  ps_tls : option ServerConfig; ps_shadowsocks : option ShadowsocksListenerConfig; ps_trojan : option ListenerTrojanConfig;
  ps_udp : option CompiledListenerUdpConfig; ps_udp_service : option RuntimeUdpService
}.
#[global] Arguments Build_PreparedSlotListener {L}.
#[global] Arguments ps_name {L}.
#[global] Arguments ps_listener {L}.
#[global] Arguments ps_protocols {L}.
#[global] Arguments ps_auth {L}.
#[global] Arguments ps_handshake_timeout {L}.
#[global] Arguments ps_connection_limit {L}.
#[global] Arguments ps_tls {L}.
#[global] Arguments ps_shadowsocks {L}.
#[global] Arguments ps_trojan {L}.
#[global] Arguments ps_udp {L}.
#[global] Arguments ps_udp_service {L}.

Definition PreparedUnixListener : Type := PreparedSlotListener bytes.              (* its path *)
Definition PreparedTransparentListener : Type := PreparedSlotListener (answer SocketAddr). (* its [local_addr] *)

Record PreparedListenerSet := {
  set_prepared : list PreparedListener; set_quic : list PreparedQuicListener; set_unix : list PreparedUnixListener; set_transparent : list PreparedTransparentListener
}.

(** The build ([quic] feature, Unix platform), whether the kernel reports original
    destinations, and the sockets of the listener at each position. *)
Record listen_world := {
  lw_quic : bool; lw_unix : bool; lw_original_dst : bool;
  lw_socket : nat -> socket_world; lw_fs : nat -> fs_world; lw_quic_bind : nat -> QuicServerConfig -> answer unit
}.

Context (w : listen_world) (reuse : bool) (handshake_timeout : Z).

Definition parse_bind (l : ListenerConfig) : outcome prepare_error SocketAddr :=
  match parse_socket_addr (lc_bind l) with
  | Some (ip, port) => Ok {| sa_ip := ip; sa_port := port |}
  | None => Err (ListenerBind (lc_bind l))
  end.

Definition slot_listener {L} (l : ListenerConfig) (auth : InboundAuthentication) (tls : option ServerConfig) (sock : L) : PreparedSlotListener L :=
  {| ps_name := lc_name l; ps_listener := sock; ps_protocols := lc_protocols l; ps_auth := auth; ps_handshake_timeout := handshake_timeout;
     ps_connection_limit := default 1024 (lc_connection_limit l); ps_tls := tls; ps_shadowsocks := lc_shadowsocks l; ps_trojan := lc_trojan l;
     ps_udp := lc_udp l; ps_udp_service := make_udp_service (lc_name l) (lc_udp l) |}.

(** What becomes of one listener of the configuration. *)
Inductive prepared :=
| PrepTcp (p : PreparedListener)
| PrepQuic (p : PreparedQuicListener)
| PrepUnix (p : PreparedUnixListener)
| PrepTransparent (p : PreparedTransparentListener)
| PrepSkipped.

Definition prepare_unix (i : nat) (l : ListenerConfig) (u : CompiledUnixListenerConfig) auth tls : prepared :=
  if lw_unix w then
    match (create_unix_listener (cu_unlink_existing u) (Some (cu_mode u)) (lw_fs w i)).1 with
    | Ok _ => PrepUnix (slot_listener l auth tls (cu_path u))
    | _ => PrepSkipped
    end
  else PrepSkipped.

Definition prepare_transparent (i : nat) (l : ListenerConfig) auth tls : outcome prepare_error prepared :=
  let bad := fun (_ : IoError) => ListenerBind (lc_bind l) in
  let? bind_addr := parse_bind l in
  let? _ := map_err bad (answered (so_bind (lw_socket w i))) in
  let? local_addr := map_err bad (answered (so_local_addr (lw_socket w i))) in
  Ok (PrepTransparent (slot_listener l auth tls (inl local_addr))).

Definition prepare_quic (i : nat) (l : ListenerConfig) auth : outcome prepare_error prepared :=
  let bad := fun (_ : IoError) => ListenerBind (lc_bind l) in
  let? tls := ok_or (QuicWithoutMaterial (lc_name l)) (lc_tls l) in
  let? bind_addr := parse_bind l in
  let limit := default 1024 (lc_connection_limit l) in
  let config :=
    {| qs_certificate_pem := cl_cert_pem tls; qs_private_key_pem := cl_key_pem tls; qs_idle_timeout := 60 * NANOS; qs_max_concurrent_streams := Z.max limit 1;
       qs_alpn_protocols := if has_protocol PHttp3 (lc_protocols l) then [str "h3"] else [] |} in
  let? _ := map_err bad (answered (lw_quic_bind w i config)) in
  let? local_addr := map_err bad (answered (so_local_addr (lw_socket w i))) in
  Ok (PrepQuic {| pq_name := lc_name l; pq_protocols := lc_protocols l; pq_config := config; pq_local_addr := local_addr; pq_auth := auth;
                  pq_handshake_timeout := handshake_timeout; pq_connection_limit := limit |}).

Definition prepare_tcp (i : nat) (l : ListenerConfig) auth tls : outcome prepare_error prepared :=
  let bad := fun (_ : IoError) => ListenerBind (lc_bind l) in
  let? bind_addr := parse_bind l in
  let config :=
    {| tl_bind_addr := bind_addr; tl_protocols := lc_protocols l; tl_auth_required := false; tl_handshake_timeout := handshake_timeout;
       tl_connection_limit := Z.to_nat (default 1024 (lc_connection_limit l)) |} in
  let? listener := map_err bad (new_with_reuse_port config (default false (lc_reuse_port l)) (lw_socket w i)) in
  let? local_addr := map_err bad (answered (so_local_addr (lw_socket w i))) in
  Ok (PrepTcp {| pr_name := lc_name l; pr_bind := lc_bind l; pr_protocols := lc_protocols l; pr_listener := listener; pr_local_addr := local_addr; pr_auth := auth;
                 pr_handshake_timeout := handshake_timeout; pr_udp := lc_udp l; pr_udp_service := make_udp_service (lc_name l) (lc_udp l); pr_tls := tls;
                 pr_shadowsocks := lc_shadowsocks l; pr_trojan := lc_trojan l; pr_fixed_target := lc_fixed_target l; pr_local_bind := lc_local_bind l |}).

(** The body of the loop of [prepare_listener_set]. *)
Definition prepare_listener (i : nat) (l : ListenerConfig) : outcome prepare_error prepared :=
  let? auth := build_listener_auth (lc_auth l) reuse in
  let? tls := map_err (ListenerTlsInvalid (lc_name l)) (prepare_tls_server_config (lc_tls l)) in
  match lc_unix l with
  | Some u => Ok (prepare_unix i l u auth tls)
  | None =>
      if match lc_transparent l with Some t => ct_enabled t | None => false end && lw_original_dst w then prepare_transparent i l auth tls
      else if lw_quic w && (has_protocol PQuic (lc_protocols l) || has_protocol PHttp3 (lc_protocols l)) then prepare_quic i l auth
      else prepare_tcp i l auth tls
  end.

Definition push (s : PreparedListenerSet) (p : prepared) : PreparedListenerSet :=
  match p with
  | PrepTcp x => {| set_prepared := set_prepared s ++ [x]; set_quic := set_quic s; set_unix := set_unix s; set_transparent := set_transparent s |}
  | PrepQuic x => {| set_prepared := set_prepared s; set_quic := set_quic s ++ [x]; set_unix := set_unix s; set_transparent := set_transparent s |}
  | PrepUnix x => {| set_prepared := set_prepared s; set_quic := set_quic s; set_unix := set_unix s ++ [x]; set_transparent := set_transparent s |}
  | PrepTransparent x => {| set_prepared := set_prepared s; set_quic := set_quic s; set_unix := set_unix s; set_transparent := set_transparent s ++ [x] |}
  | PrepSkipped => s
  end.

Fixpoint prepare_loop (i : nat) (ls : list ListenerConfig) (s : PreparedListenerSet) : outcome prepare_error PreparedListenerSet :=
  match ls with
  | [] => Ok s
  | l :: r => let? p := prepare_listener i l in prepare_loop (S i) r (push s p)
  end.

Definition empty_set : PreparedListenerSet := {| set_prepared := []; set_quic := []; set_unix := []; set_transparent := [] |}.
Definition prepare_listener_set (listener_configs : list ListenerConfig) : outcome prepare_error PreparedListenerSet :=
  prepare_loop 0 listener_configs empty_set.

End prepare.

(** ** Addresses *)

Section publish.
Context {TL : TlsLib}.

Definition insert_all {A} (name : A -> bytes) (addr : A -> option SocketAddr) (xs : list A) (m : gmap bytes (option SocketAddr)) : gmap bytes (option SocketAddr) :=
  foldl (fun m x => <[name x := addr x]> m) m xs.

Definition addr_map (s : PreparedListenerSet) : gmap bytes (option SocketAddr) :=
  insert_all ps_name (fun _ => None) (set_unix s)
    (insert_all ps_name (fun p => match ps_listener p with inl a => Some a | inr _ => None end) (set_transparent s)
      (insert_all pq_name (fun p => Some (pq_local_addr p)) (set_quic s)
        (insert_all pr_name (fun p => Some (pr_local_addr p)) (set_prepared s) ∅))).

(** The addresses that are published, by position in the configuration. *)
Definition publish_listener_addresses (listener_configs : list ListenerConfig) (s : PreparedListenerSet) : list (option SocketAddr) :=
  map (fun l => mjoin (addr_map s !! lc_name l)) listener_configs.

(** ** The system proxy of a compatible start ([--sys]) *)

Inductive CompatibilityProxyKind := ProxySocks5 | ProxyHttp.

Definition serves (p : ProtocolId) (l : PreparedListener) : bool := has_protocol p (pr_protocols l) && negb (bool_decide (sa_port (pr_local_addr l) = 0)).
Definition find_serving (p : ProtocolId) (ls : list PreparedListener) : option PreparedListener := snd <$> list_find (fun l => serves p l = true) ls.

Definition select_compatibility_proxy (prepared : list PreparedListener) : option (CompatibilityProxyKind * Z) :=
  match find_serving PSocks5 prepared with
  | Some l => Some (ProxySocks5, sa_port (pr_local_addr l))
  | None => (fun l => (ProxyHttp, sa_port (pr_local_addr l))) <$> find_serving PHttp prepared
  end.

(** What the operating system is asked to use; [None] changes nothing. *)
Definition apply_compatibility_proxy (prepared : list PreparedListener) (system_proxy : bool) : outcome unit (option (CompatibilityProxyKind * SocketAddr)) :=
  if negb system_proxy then Ok None
  else let? selected := ok_or tt (select_compatibility_proxy prepared) in
       Ok (Some (selected.1, {| sa_ip := v4_localhost; sa_port := selected.2 |})).

(** ** What a connection is served with (connection.rs) *)

Record ConnectionContext := { cx_source : option SocketAddr; cx_listener : bytes; cx_generation : Z }.
Record ConnectionConfig := {
  co_context : ConnectionContext; co_handshake_timeout : Z; co_connect_timeout : Z; co_protocols : list ProtocolId; co_authentication : InboundAuthentication;
  co_udp : option RuntimeUdpService; co_tls_client : option ClientConfig; co_shadowsocks : option InboundShadowsocksConfig;
  co_trojan : option InboundTrojanConfig; co_fixed_target : option TargetAddr; co_local_bind : option bytes
}.

Record ConnectionBuildParams := {
  cb_listener : bytes; cb_peer : option SocketAddr; cb_generation : Z; cb_handshake_timeout : Z; cb_connect_timeout : Z; cb_protocols : list ProtocolId;
  cb_authentication : InboundAuthentication; cb_udp : option RuntimeUdpService; cb_tls_client : option ClientConfig;
  cb_shadowsocks : option ShadowsocksListenerConfig; cb_trojan : option ListenerTrojanConfig; cb_fixed_target : option TargetAddr; cb_local_bind : option bytes
}.

Definition build_connection_config (p : ConnectionBuildParams) : ConnectionConfig :=
  {| co_context := {| cx_source := cb_peer p; cx_listener := cb_listener p; cx_generation := cb_generation p |};
     co_handshake_timeout := cb_handshake_timeout p; co_connect_timeout := cb_connect_timeout p; co_protocols := cb_protocols p;
     co_authentication := cb_authentication p; co_udp := cb_udp p; co_tls_client := cb_tls_client p;
     co_shadowsocks := (fun s => {| ss_method := sl_method s; ss_password := sl_password s |}) <$> cb_shadowsocks p;
     co_trojan := (fun t => {| tj_password := tr_password t; tj_fallback := tr_fallback t |}) <$> cb_trojan p;
     co_fixed_target := cb_fixed_target p; co_local_bind := cb_local_bind p |}.

(** The parameters the accept loops of [ServiceSupervisor::run] build, by kind of
    listener, for a peer, a snapshot generation, the connect timeout and the TLS client
    configuration of the process. *)
Section accepted_params.
Context (generation connect_timeout : Z) (tls_client : option ClientConfig).

Definition tcp_params (p : PreparedListener) (peer : SocketAddr) : ConnectionBuildParams :=
  {| cb_listener := pr_name p; cb_peer := Some peer; cb_generation := generation; cb_handshake_timeout := pr_handshake_timeout p;
     cb_connect_timeout := connect_timeout; cb_protocols := pr_protocols p; cb_authentication := pr_auth p; cb_udp := pr_udp_service p;
     cb_tls_client := tls_client; cb_shadowsocks := pr_shadowsocks p; cb_trojan := pr_trojan p; cb_fixed_target := pr_fixed_target p; cb_local_bind := pr_local_bind p |}.

Definition slot_params {L} (p : PreparedSlotListener L) (peer : SocketAddr) : ConnectionBuildParams :=
  {| cb_listener := ps_name p; cb_peer := Some peer; cb_generation := generation; cb_handshake_timeout := ps_handshake_timeout p;
     cb_connect_timeout := connect_timeout; cb_protocols := ps_protocols p; cb_authentication := ps_auth p; cb_udp := ps_udp_service p;
     cb_tls_client := tls_client; cb_shadowsocks := ps_shadowsocks p; cb_trojan := ps_trojan p; cb_fixed_target := None; cb_local_bind := None |}.

(** A connection of a Unix socket counts as one from loopback; a transparent one has
    the address of its peer, or none if that is gone. *)
Definition unix_params (p : PreparedUnixListener) : ConnectionBuildParams := slot_params p {| sa_ip := v4_localhost; sa_port := 0 |}.
Definition transparent_params (p : PreparedTransparentListener) (peer : answer SocketAddr) : ConnectionBuildParams :=
  slot_params p match peer with inl a => a | inr _ => {| sa_ip := V4 [x00; x00; x00; x00]; sa_port := 0 |} end.

(** A stream of a QUIC connection. *)
Definition quic_params (p : PreparedQuicListener) (peer : SocketAddr) : ConnectionBuildParams :=
  {| cb_listener := pq_name p; cb_peer := Some peer; cb_generation := generation; cb_handshake_timeout := pq_handshake_timeout p;
     cb_connect_timeout := connect_timeout;
     cb_protocols := filter (fun q => is_quic q = false) (pq_protocols p); cb_authentication := pq_auth p; cb_udp := None;
     cb_tls_client := tls_client; cb_shadowsocks := None; cb_trojan := None; cb_fixed_target := None; cb_local_bind := None |}.
End accepted_params.

(** [wrap_tls_server]: a connection goes on encrypted, or as it is where the listener
    has no TLS, or not at all.  [handshake] is the answer of the TLS library. *)
Inductive served_stream := StPlain | StTls (config : ServerConfig).
Definition wrap_tls_server (tls : option ServerConfig) (handshake : ServerConfig -> bool) : option served_stream :=
  match tls with
  | None => Some StPlain
  | Some config => if handshake config then Some (StTls config) else None
  end.
End publish.

(** ** Proofs *)

Lemma unix_bind_spec unlink w r done : unix_bind unlink w = (r, done) ->
  (FsRemove ∈ done -> unlink = true /\ fs_stat w = inl FkSocket) /\
  (r = Ok tt -> fs_parent w <> Some false /\ fs_bind w = inl tt /\
    (fs_present w = false /\ done = [FsBind] \/ fs_present w = true /\ unlink = true /\ fs_stat w = inl FkSocket /\ fs_remove w = inl tt /\ done = [FsRemove; FsBind])).
Proof.
  assert (FsRemove ∉ [FsBind]) as Hno by (by intros ?%list_elem_of_singleton). pose proof (not_elem_of_nil FsRemove) as Hnil.
  unfold unix_bind. intros H. assert (fs_parent w = Some false \/ fs_parent w <> Some false) as [Hp|Hp] by (destruct (fs_parent w) as [[]|]; naive_solver).
  { rewrite Hp in H. injection H as <- <-. by split. }
  replace (match fs_parent w with Some false => _ | _ => _ end) with (if fs_present w then
        match fs_stat w with
        | inr _ => (Err UnixIo, [])
        | inl FkSocket => if unlink then match fs_remove w with inl _ => (match fs_bind w with inl _ => Ok tt | inr _ => Err UnixIo end, [FsRemove; FsBind]) | inr _ => (Err UnixIo, [FsRemove]) end else (Err UnixIo, [])
        | inl _ => (Err UnixIo, [])
        end else (match fs_bind w with inl _ => Ok tt | inr _ => Err UnixIo end, [FsBind])) in H by (destruct (fs_parent w) as [[]|]; try done; destruct (fs_present w); try done; destruct (fs_stat w) as [[]|]; done).
  destruct (fs_present w); [|injection H as <- <-; split; [done|]; destruct (fs_bind w) as [[]|]; [|done]; intros _; split; [done|]; split; [done|]; by left].
  destruct (fs_stat w) as [[]|]; try (injection H as <- <-; by split). destruct unlink; [|injection H as <- <-; by split].
  destruct (fs_remove w) as [[]|]; injection H as <- <-; split; try done. destruct (fs_bind w) as [[]|]; [|done]. intros _. do 2 (split; [done|]). by right.
Qed.

(** A Unix socket never replaces anything but a socket, and that only if told to; a
    listener is there when the path was free or has been freed. *)
Lemma unix_socket_only unlink mode w r done : create_unix_listener unlink mode w = (r, done) ->
  (FsRemove ∈ done -> unlink = true /\ fs_stat w = inl FkSocket) /\
  (r = Ok tt -> fs_parent w <> Some false /\ fs_bind w = inl tt /\
    (fs_present w = false \/ unlink = true /\ fs_stat w = inl FkSocket /\ fs_remove w = inl tt) /\
    done = (if fs_present w then [FsRemove; FsBind] else [FsBind]) ++ match mode with Some m => [FsChmod m] | None => [] end).
Proof.
  unfold create_unix_listener. destruct (unix_bind unlink w) as [[[]|e|] d] eqn:E; intros H; destruct (unix_bind_spec _ _ _ _ E) as [H1 H2];
    [|injection H as <- <-; by split|injection H as <- <-; by split].
  destruct (H2 eq_refl) as (Hp & Hb & Hd). destruct mode as [m|]; injection H as <- <-.
  - split; [rewrite elem_of_app; intros [?|?%list_elem_of_singleton]; [by apply H1|done]|]. destruct (fs_chmod w) as [[]|]; [|done]. intros _.
    split; [done|]. split; [done|]. destruct Hd as [[-> ->]|(-> & Hd & Hs & Hr & ->)]; split; [by left|done|by right|done].
  - split; [done|]. intros _. split; [done|]. split; [done|]. destruct Hd as [[-> ->]|(-> & Hd & Hs & Hr & ->)]; split; [by left|done|by right|done].
Qed.

Section prepared_proofs.
Context {TL : TlsLib}.

Definition prepared_name (p : prepared) : option bytes :=
  match p with PrepTcp x => Some (pr_name x) | PrepQuic x => Some (pq_name x) | PrepUnix x => Some (ps_name x) | PrepTransparent x => Some (ps_name x) | PrepSkipped => None end.
Definition prepared_addr (p : prepared) : option SocketAddr :=
  match p with
  | PrepTcp x => Some (pr_local_addr x) | PrepQuic x => Some (pq_local_addr x)
  | PrepTransparent x => match ps_listener x with inl a => Some a | inr _ => None end
  | PrepUnix _ | PrepSkipped => None
  end.

(** The parameters of a connection, from an address, on a prepared listener; HTTP/3
    requests are served by other code. *)
Definition prepared_params (generation connect_timeout : Z) (tls_client : option ClientConfig) (p : prepared) (peer : SocketAddr) : option ConnectionBuildParams :=
  match p with
  | PrepTcp x => Some (tcp_params generation connect_timeout tls_client x peer)
  | PrepQuic x => if has_protocol PHttp3 (pq_protocols x) then None else Some (quic_params generation connect_timeout tls_client x peer)
  | PrepUnix x => Some (unix_params generation connect_timeout tls_client x)
  | PrepTransparent x => Some (transparent_params generation connect_timeout tls_client x (inl peer))
  | PrepSkipped => None
  end.

Definition prepared_tls (p : prepared) : option ServerConfig :=
  match p with PrepTcp x => pr_tls x | PrepUnix x => ps_tls x | PrepTransparent x => ps_tls x | PrepQuic _ | PrepSkipped => None end.
Definition prepared_limit (p : prepared) : option Z :=
  match p with
  | PrepTcp x => Some (Z.of_nat (tc_permits (pr_listener x))) | PrepQuic x => Some (pq_connection_limit x)
  | PrepUnix x => Some (ps_connection_limit x) | PrepTransparent x => Some (ps_connection_limit x) | PrepSkipped => None
  end.

(** The credentials of a section of the configuration. *)
Definition credentials_of (reuse : bool) (auth : option AuthConfig) : option (bytes * bytes * bool) :=
  a ← auth; if bool_decide (au_type a = str "password") then u ← au_username a; p ← au_password a; Some (u, p, reuse) else None.

(** What its TLS section makes of a listener: no client certificates, the certificate
    and the protocols of the section. *)
Definition tls_as_configured (tls : option CompiledListenerTlsConfig) (c : option ServerConfig) : Prop :=
  match tls, c with
  | None, None => True
  | Some t, Some c => sc_client_auth c = NoClientAuth /\ load_cert_chain_pem (cl_cert_pem t) = Ok (sc_chain c) /\ load_private_key_pem (cl_key_pem t) = Ok (sc_key c) /\
      sc_alpn c = cl_alpn t
  | _, _ => False
  end.

Lemma listener_auth_exact reuse auth a : build_listener_auth auth reuse = Ok a ->
  auth_credentials a = credentials_of reuse auth /\ forall u p r, auth_credentials a = Some (u, p, r) -> u <> [] /\ p <> [].
Proof using Type.
  unfold build_listener_auth, credentials_of. destruct auth as [c|]; cbn; [|by intros [= <-]]. case_bool_decide; [|by intros [= <-]].
  unfold is_empty. destruct (au_username c) as [[|b u]|], (au_password c) as [[|b' p]|]; cbn; try done.
  intros [= <-]. destruct reuse; cbn; split; try done; by intros ??? [= <- <- _].
Qed.

Lemma tls_prepared_exact tls c : prepare_tls_server_config tls = Ok c -> tls_as_configured tls c.
Proof using Type.
  destruct tls as [t|]; cbn; [|by intros [= <-]]. intros H. apply obind_ok in H as (b1 & H1 & H). apply obind_ok in H as (b2 & H2 & H). apply obind_ok in H as (sc & Hb & [= <-]).
  unfold with_certificate_pem in H1. apply obind_ok in H1 as (certs & Hc & [= <-]). unfold with_key_pem in H2. apply obind_ok in H2 as (key & Hk & [= <-]).
  assert (sc_alpn sc = cl_alpn t) as Ha.
  { unfold server_build in Hb. apply obind_ok in Hb as (k & _ & Hb). case_bool_decide; [done|]. destruct (_ && _); [done|]. apply obind_ok in Hb as (x & _ & Hb).
    destruct (identity_ok _ _); [|done]. injection Hb as <-. cbn. case_bool_decide as E; cbn; [by rewrite E|done]. }
  apply server_build_auth in Hb as (Hkd & Hch & _ & _ & Hca). case_bool_decide; cbn in *; destruct Hca as [Hca _]; rewrite Hca, Hch, Hc, Hk; injection Hkd as ->; done.
Qed.

(** The protocols a connection is accepted with: a stream of a QUIC connection those
    that are not transports themselves. *)
Definition stream_protocols (p : prepared) (l : ListenerConfig) : list ProtocolId :=
  match p with PrepQuic _ => filter (fun q => is_quic q = false) (lc_protocols l) | _ => lc_protocols l end.

(** A listener as it is served: its name, limit and TLS, and everything a connection of
    it is served with. *)
Record served_as (reuse : bool) (hs : Z) (l : ListenerConfig) (p : prepared) : Prop := {
  sv_name : p <> PrepSkipped -> prepared_name p = Some (lc_name l);
  sv_limit : p <> PrepSkipped -> (forall n, lc_connection_limit l = Some n -> 0 <= n) -> prepared_limit p = Some (default 1024 (lc_connection_limit l));
  sv_tls : tls_as_configured (lc_tls l) (prepared_tls p) \/ (exists q, p = PrepQuic q /\ is_Some (lc_tls l)) \/ p = PrepSkipped;
  sv_params : forall g ct tc peer c, prepared_params g ct tc p peer = Some c ->
    cb_listener c = lc_name l /\ cb_generation c = g /\ cb_handshake_timeout c = hs /\ cb_connect_timeout c = ct /\ cb_tls_client c = tc /\
    cb_peer c = Some match p with PrepUnix _ => {| sa_ip := v4_localhost; sa_port := 0 |} | _ => peer end /\
    auth_credentials (cb_authentication c) = credentials_of reuse (lc_auth l) /\
    (forall u pw r, auth_credentials (cb_authentication c) = Some (u, pw, r) -> u <> [] /\ pw <> []) /\
    cb_protocols c = stream_protocols p l /\
    cb_udp c = match p with PrepQuic _ => None | _ => make_udp_service (lc_name l) (lc_udp l) end /\
    cb_shadowsocks c = match p with PrepQuic _ => None | _ => lc_shadowsocks l end /\
    cb_trojan c = match p with PrepQuic _ => None | _ => lc_trojan l end /\
    cb_fixed_target c = match p with PrepTcp _ => lc_fixed_target l | _ => None end /\
    cb_local_bind c = match p with PrepTcp _ => lc_local_bind l | _ => None end
}.

(** What the listener of position [i] was made as, and on what: a Unix section gives a
    socket at its path, with its mode, or nothing where that cannot be made; otherwise
    an enabled transparent section, QUIC or HTTP/3 among the protocols of a build with
    QUIC, or a TCP socket at the address of the file, with [SO_REUSEPORT] as it says. *)
Definition transparent_enabled (l : ListenerConfig) : bool := match lc_transparent l with Some t => ct_enabled t | None => false end.
Definition quic_enabled (l : ListenerConfig) : bool := has_protocol PQuic (lc_protocols l) || has_protocol PHttp3 (lc_protocols l).

Definition bound_as (w : listen_world) (i : nat) (l : ListenerConfig) (p : prepared) : Prop :=
  let bind := match parse_socket_addr (lc_bind l) with Some (ip, port) => Some {| sa_ip := ip; sa_port := port |} | None => None end in
  match lc_unix l with
  | Some u =>
      let made := create_unix_listener (cu_unlink_existing u) (Some (cu_mode u)) (lw_fs w i) in
      match p with
      | PrepUnix x => ps_listener x = cu_path u /\ lw_unix w = true /\ made.1 = Ok tt /\
          (fs_present (lw_fs w i) = true -> cu_unlink_existing u = true /\ fs_stat (lw_fs w i) = inl FkSocket) /\
          made.2 = (if fs_present (lw_fs w i) then [FsRemove; FsBind] else [FsBind]) ++ [FsChmod (cu_mode u)]
      | PrepSkipped => lw_unix w = false \/ is_ok made.1 = false
      | _ => False
      end
  | None =>
      match p with
      | PrepTransparent x => transparent_enabled l && lw_original_dst w = true /\ is_Some bind /\ ps_listener x = so_local_addr (lw_socket w i)
      | PrepQuic x => transparent_enabled l && lw_original_dst w = false /\ lw_quic w && quic_enabled l = true /\ is_Some bind /\
          so_local_addr (lw_socket w i) = inl (pq_local_addr x) /\ pq_protocols x = lc_protocols l /\
          exists t, lc_tls l = Some t /\ pq_config x =
            {| qs_certificate_pem := cl_cert_pem t; qs_private_key_pem := cl_key_pem t; qs_idle_timeout := 60 * NANOS;
               qs_max_concurrent_streams := Z.max (default 1024 (lc_connection_limit l)) 1;
               qs_alpn_protocols := if has_protocol PHttp3 (lc_protocols l) then [str "h3"] else [] |}
      | PrepTcp x => transparent_enabled l && lw_original_dst w = false /\ lw_quic w && quic_enabled l = false /\
          bind = Some (tc_addr (pr_listener x)) /\ tc_reuse_port (pr_listener x) = default false (lc_reuse_port l) /\
          so_local_addr (lw_socket w i) = inl (pr_local_addr x) /\ pr_bind x = lc_bind l
      | _ => False
      end
  end.

Section one.
Context (w : listen_world) (reuse : bool) (hs : Z).

Lemma prepare_quic_served i l auth p : build_listener_auth (lc_auth l) reuse = Ok auth -> prepare_quic w hs i l auth = Ok p -> served_as reuse hs l p.
Proof using Type.
  intros Ha. unfold prepare_quic. intros (t & Ht & (ba & _ & (? & _ & (la & _ & [= <-])%obind_ok)%obind_ok)%obind_ok)%obind_ok.
  destruct (lc_tls l) as [t0|] eqn:El; [|done]. split; try done.
  - right. left. eexists. split; [done|]. by rewrite El.
  - intros g ct tc peer c. cbn [prepared_params pq_protocols]. destruct (has_protocol _ _); [done|]. intros [= <-].
    destruct (listener_auth_exact _ _ _ Ha) as [H1 H2]. cbn. by split_and!.
Qed.

Lemma prepare_tcp_served i l auth tls p : build_listener_auth (lc_auth l) reuse = Ok auth -> prepare_tls_server_config (lc_tls l) = Ok tls ->
  prepare_tcp w hs i l auth tls = Ok p -> served_as reuse hs l p.
Proof using Type.
  intros Ha Ht. unfold prepare_tcp. intros (ba & _ & (tl & Hn & (la & _ & [= <-])%obind_ok)%obind_ok)%obind_ok. destruct (listener_auth_exact _ _ _ Ha) as [H1 H2]. split; try done.
  - intros _ Hp. cbn. destruct (new_with_reuse_port _ _ _) as [t| |] eqn:E; try done. injection Hn as <-. unfold new_with_reuse_port in E. cbv zeta in E.
    repeat match type of E with obind _ _ = Ok _ => apply obind_ok in E as (? & _ & E) end. injection E as <-. cbn. f_equal.
    destruct (lc_connection_limit l) as [n|]; cbn; [|done]. rewrite Z2Nat.id; [done|by apply Hp].
  - left. by apply tls_prepared_exact.
  - intros g ct tc peer c [= <-]. cbn. by split_and!.
Qed.

Lemma slot_served {L} l auth tls (sock : L) (mk : PreparedSlotListener L -> prepared) : build_listener_auth (lc_auth l) reuse = Ok auth -> prepare_tls_server_config (lc_tls l) = Ok tls ->
  (forall x, prepared_name (mk x) = Some (ps_name x) /\ prepared_limit (mk x) = Some (ps_connection_limit x) /\ prepared_tls (mk x) = ps_tls x /\
    match mk x with PrepTcp _ | PrepQuic _ | PrepSkipped => False | _ => True end /\
    forall g ct tc peer, prepared_params g ct tc (mk x) peer =
      Some (slot_params g ct tc x match mk x with PrepUnix _ => {| sa_ip := v4_localhost; sa_port := 0 |} | _ => peer end)) ->
  served_as reuse hs l (mk (slot_listener hs l auth tls sock)).
Proof using Type.
  intros Ha Ht Hmk. destruct (listener_auth_exact _ _ _ Ha) as [H1 H2]. destruct (Hmk (slot_listener hs l auth tls sock)) as (Hn & Hl & Htl & Hk & Hp). split.
  - by intros _.
  - intros _ _. by rewrite Hl.
  - left. rewrite Htl. by apply tls_prepared_exact.
  - intros g ct tc peer c E. rewrite Hp in E. injection E as <-. cbn. destruct (mk _); try done; by split_and!.
Qed.

Lemma prepare_listener_served i l p : prepare_listener w reuse hs i l = Ok p -> served_as reuse hs l p.
Proof using Type.
  unfold prepare_listener. intros (auth & Ha & (tls & Ht & H)%obind_ok)%obind_ok. destruct (prepare_tls_server_config (lc_tls l)) as [t| |] eqn:Et; try done. injection Ht as ->.
  destruct (lc_unix l) as [u|] eqn:Eu.
  - injection H as <-. unfold prepare_unix. assert (served_as reuse hs l PrepSkipped) as Hsk by (split; try done; right; by right).
    destruct (lw_unix w); [|done]. destruct (_.1); try done. by apply (slot_served l auth tls _ PrepUnix Ha Et).
  - destruct (_ && lw_original_dst w).
    + unfold prepare_transparent in H. apply obind_ok in H as (ba & _ & (bo & _ & (la & _ & [= <-])%obind_ok)%obind_ok).
      by apply (slot_served l auth tls _ PrepTransparent Ha Et).
    + destruct (lw_quic w && _); [by eapply prepare_quic_served|by eapply prepare_tcp_served].
Qed.

Lemma parse_bind_some l a : parse_bind l = Ok a ->
  match parse_socket_addr (lc_bind l) with Some (ip, port) => Some {| sa_ip := ip; sa_port := port |} | None => None end = Some a.
Proof using Type. unfold parse_bind. destruct (parse_socket_addr _) as [[ip port]|]; [by intros [= <-]|done]. Qed.

Lemma answered_ok {A} (bad : IoError -> prepare_error) (x : answer A) a : map_err bad (answered x) = Ok a -> x = inl a.
Proof using Type. destruct x; cbn; [by intros [= ->]|done]. Qed.

Lemma prepare_listener_bound i l p : prepare_listener w reuse hs i l = Ok p -> bound_as w i l p.
Proof using Type.
  unfold prepare_listener, bound_as. intros (auth & _ & (tls & _ & H)%obind_ok)%obind_ok. destruct (lc_unix l) as [u|].
  - injection H as <-. unfold prepare_unix. destruct (lw_unix w); [|by left].
    destruct (create_unix_listener _ _ _) as [[[]|e|] acts] eqn:E; cbn; [|by right|by right].
    apply unix_socket_only in E as [_ H]. destruct (H eq_refl) as (_ & _ & Hp & ->). split_and!; try done.
    intros Hf. destruct Hp as [Hp|(H1 & H2 & _)]; [congruence|done].
  - cbv zeta. fold (transparent_enabled l) in H. fold (quic_enabled l) in H. destruct (transparent_enabled l && lw_original_dst w) eqn:Et.
    + unfold prepare_transparent in H. apply obind_ok in H as (ba & Hb%parse_bind_some & (bo & _ & (la & Hla%answered_ok & [= <-])%obind_ok)%obind_ok).
      rewrite Hb. cbn. split_and!; [done|by eexists|done].
    + destruct (lw_quic w && quic_enabled l) eqn:Eq.
      * unfold prepare_quic in H.
        apply obind_ok in H as (t & Ht & (ba & Hb%parse_bind_some & (? & _ & (la & Hla%answered_ok & [= <-])%obind_ok)%obind_ok)%obind_ok).
        rewrite Hb. destruct (lc_tls l) as [t0|]; [|done]. injection Ht as ->. cbn. split_and!; [done|done|by eexists|done|done|]. by exists t.
      * unfold prepare_tcp in H.
        apply obind_ok in H as (ba & Hb%parse_bind_some & (tl & Hn & (la & Hla%answered_ok & [= <-])%obind_ok)%obind_ok).
        destruct (new_with_reuse_port _ _ _) as [t0| |] eqn:E; try done. injection Hn as <-. unfold new_with_reuse_port in E. cbv zeta in E.
        repeat match type of E with obind _ _ = Ok _ => apply obind_ok in E as (? & _ & E) end. injection E as <-.
        rewrite Hb. cbn. by split_and!.
Qed.

Lemma prepare_loop_served ls : forall i s t, prepare_loop w reuse hs i ls s = Ok t ->
  exists ps, Forall2 (served_as reuse hs) ls ps /\ (forall j l p, ls !! j = Some l -> ps !! j = Some p -> bound_as w (i + j) l p) /\ t = foldl push s ps.
Proof using Type.
  induction ls as [|l ls IH]; intros i s t; cbn; [intros [= <-]; by exists []|]. intros (p & Hp & H)%obind_ok. apply IH in H as (ps & Hps & Hb & ->).
  exists (p :: ps). split; [constructor; [by eapply prepare_listener_served|done]|]. split; [|done]. intros [|j] l' p' Hl' Hp'.
  - injection Hl' as <-. injection Hp' as <-. rewrite Nat.add_0_r. by eapply prepare_listener_bound.
  - replace (i + S j)%nat with (S i + j)%nat by lia. by apply Hb.
Qed.
End one.

(** *** Published addresses *)

Lemma insert_all_none {A} (name : A -> bytes) addr xs m k : (forall x, x ∈ xs -> name x <> k) -> insert_all name addr xs m !! k = m !! k.
Proof using Type.
  revert m. induction xs as [|x xs IH]; intros m Hx; cbn; [done|]. unfold insert_all in IH. rewrite IH by (intros y Hy; apply Hx; by right).
  apply lookup_insert_ne, Hx. left.
Qed.
Lemma insert_all_some {A} (name : A -> bytes) addr xs m k a : (forall x, x ∈ xs -> name x = k -> addr x = a) -> (m !! k = Some a \/ exists x, x ∈ xs /\ name x = k) ->
  insert_all name addr xs m !! k = Some a.
Proof using Type.
  revert m. induction xs as [|x xs IH]; intros m Hx H; cbn; [destruct H as [H|(x & Hin & _)]; [done|by apply elem_of_nil in Hin]|]. apply IH.
  - intros y Hy. apply Hx. by right.
  - destruct (decide (name x = k)) as [E|E]; [left; rewrite E, lookup_insert_eq; f_equal; apply Hx; [left|done]|].
    destruct H as [H|(y & [->|Hy]%elem_of_cons & En)]; [left; by rewrite lookup_insert_ne|done|right; by exists y].
Qed.

Definition as_tcp (p : prepared) := match p with PrepTcp x => Some x | _ => None end.
Definition as_quic (p : prepared) := match p with PrepQuic x => Some x | _ => None end.
Definition as_unix (p : prepared) := match p with PrepUnix x => Some x | _ => None end.
Definition as_transparent (p : prepared) := match p with PrepTransparent x => Some x | _ => None end.

Lemma push_all ps s : foldl push s ps =
  {| set_prepared := set_prepared s ++ omap as_tcp ps; set_quic := set_quic s ++ omap as_quic ps; set_unix := set_unix s ++ omap as_unix ps;
     set_transparent := set_transparent s ++ omap as_transparent ps |}.
Proof using Type.
  revert s. induction ps as [|p ps IH]; intros s; cbn; [rewrite !app_nil_r; by destruct s|]. rewrite IH. destruct p; cbn; by rewrite <- ?app_assoc.
Qed.

Lemma omap_from {B} (f : prepared -> option B) (ps : list prepared) x : x ∈ omap f ps -> exists p, p ∈ ps /\ f p = Some x.
Proof using Type. rewrite list_elem_of_omap. naive_solver. Qed.

(** The one listener of a name gives the address of the name. *)
Lemma addr_map_unique (ps : list prepared) p k : p ∈ ps -> prepared_name p = Some k -> (forall q, q ∈ ps -> prepared_name q = Some k -> q = p) ->
  addr_map (foldl push empty_set ps) !! k = Some (prepared_addr p).
Proof using Type.
  intros Hp Hn Hu. rewrite push_all. unfold addr_map. cbn [set_prepared set_quic set_unix set_transparent empty_set app].
  assert (forall B (f : prepared -> option B) (name : B -> bytes), (forall q x, f q = Some x -> prepared_name q = Some (name x)) ->
    forall x, x ∈ omap f ps -> name x = k -> f p = Some x) as Hone.
  { intros B f name Hf x (q & Hq & Eq)%omap_from Hk. rewrite <- (Hu q Hq); [done|]. by rewrite (Hf _ _ Eq), Hk. }
  pose proof (Hone _ as_tcp pr_name ltac:(intros []; naive_solver)) as H1. pose proof (Hone _ as_quic pq_name ltac:(intros []; naive_solver)) as H2.
  pose proof (Hone _ as_unix ps_name ltac:(intros []; naive_solver)) as H3. pose proof (Hone _ as_transparent ps_name ltac:(intros []; naive_solver)) as H4.
  assert (forall B (f : prepared -> option B) x, f p = Some x -> x ∈ omap f ps) as Hin by (intros B f x Hx; apply list_elem_of_omap; by exists p).
  destruct p as [x|x|x|x|]; cbn in Hn; try done; injection Hn as Hn; cbn [prepared_addr].
  - do 3 (rewrite insert_all_none by (intros y Hy E; naive_solver)). apply insert_all_some; [intros y Hy E; by injection (H1 y Hy E) as ->|].
    right. exists x. split; [by apply Hin|done].
  - do 2 (rewrite insert_all_none by (intros y Hy E; naive_solver)). apply insert_all_some; [intros y Hy E; by injection (H2 y Hy E) as ->|].
    right. exists x. split; [by apply Hin|done].
  - apply insert_all_some; [done|]. right. exists x. split; [by apply Hin|done].
  - rewrite insert_all_none by (intros y Hy E; naive_solver). apply insert_all_some; [intros y Hy E; by injection (H4 y Hy E) as ->|].
    right. exists x. split; [by apply Hin|done].
Qed.

Lemma addr_map_absent (ps : list prepared) k : (forall q, q ∈ ps -> prepared_name q <> Some k) -> addr_map (foldl push empty_set ps) !! k = None.
Proof using Type.
  intros Hu. rewrite push_all. unfold addr_map. cbn [set_prepared set_quic set_unix set_transparent empty_set app].
  rewrite !insert_all_none; [done|..]; intros y (q & Hq & Eq)%omap_from E; apply (Hu q Hq); destruct q; try done; injection Eq as ->; exact (f_equal Some E).
Qed.

Lemma published_exact reuse hs ls ps : NoDup (map lc_name ls) -> Forall2 (served_as reuse hs) ls ps ->
  publish_listener_addresses ls (foldl push empty_set ps) = map prepared_addr ps.
Proof using Type.
  intros Hnd Hs. apply list_eq. intros i. unfold publish_listener_addresses. rewrite !list_lookup_fmap.
  destruct (ls !! i) as [l|] eqn:El; cbn.
  2: { apply lookup_ge_None in El. rewrite (Forall2_length _ _ _ Hs) in El. by rewrite lookup_ge_None_2. }
  destruct (Forall2_lookup_l _ _ _ _ _ Hs El) as (p & Ep & Sp). rewrite Ep. cbn. f_equal.
  assert (forall q, q ∈ ps -> prepared_name q = Some (lc_name l) -> q = p) as Hu.
  { intros q [j Hj]%list_elem_of_lookup Hn. destruct (Forall2_lookup_r _ _ _ _ _ Hs Hj) as (l' & El' & Sq).
    assert (q <> PrepSkipped) as Hsk by (intros ->; done). rewrite (sv_name _ _ _ _ Sq Hsk) in Hn. injection Hn as Hn.
    assert (i = j) as ->; [|congruence]. eapply (NoDup_lookup _ i j (lc_name l) Hnd); rewrite list_lookup_fmap, ?El, ?El'; cbn; congruence. }
  assert (p = PrepSkipped \/ p <> PrepSkipped) as [Hk|Hk] by (destruct p; naive_solver).
  - rewrite addr_map_absent; [by subst|]. intros q Hq Hn. specialize (Hu q Hq Hn) as ->. by subst p.
  - rewrite (addr_map_unique ps p); [done|by eapply list_elem_of_lookup_2|by apply (sv_name _ _ _ _ Sp)|done].
Qed.
End prepared_proofs.

(** ** Properties *)

Section start.
Context {TL : TlsLib}.

(** No listener that asks for a password starts without one: the whole start is
    refused. *)
Lemma empty_credentials_refused w reuse hs i l a : lc_auth l = Some a -> au_type a = str "password" ->
  default [] (au_username a) = [] \/ default [] (au_password a) = [] -> prepare_listener w reuse hs i l = Err EmptyCredentials.
Proof using Type.
  intros Ha Ht He. unfold prepare_listener, build_listener_auth. rewrite Ha, bool_decide_true by done. unfold is_empty.
  destruct He as [-> | ->]; [by rewrite bool_decide_true|]. by rewrite (bool_decide_true ([] = ([] : bytes))), orb_true_r by done.
Qed.

(** What the system is told to use for [--sys] is a port where a listener of the
    kind that is named was bound; SOCKS5 goes first. *)
Lemma system_proxy_bound ls r : apply_compatibility_proxy ls true = Ok r -> exists kind l, l ∈ ls /\
  r = Some (kind, {| sa_ip := v4_localhost; sa_port := sa_port (pr_local_addr l) |}) /\ sa_port (pr_local_addr l) <> 0 /\
  match kind with ProxySocks5 => PSocks5 ∈ pr_protocols l | ProxyHttp => PHttp ∈ pr_protocols l /\ forall x, x ∈ ls -> PSocks5 ∈ pr_protocols x -> sa_port (pr_local_addr x) = 0 end.
Proof using Type.
  assert (forall p l, find_serving p ls = Some l -> l ∈ ls /\ p ∈ pr_protocols l /\ sa_port (pr_local_addr l) <> 0) as Hf.
  { intros p l. unfold find_serving. destruct (list_find _ ls) as [[i x]|] eqn:E; [|done]. intros [= <-]. apply list_find_Some in E as (Hi & Hs & _).
    split; [by eapply list_elem_of_lookup_2|]. unfold serves in Hs. apply andb_true_iff in Hs as [H1%has_protocol_true H2%negb_true_iff%bool_decide_eq_false]. done. }
  unfold apply_compatibility_proxy, select_compatibility_proxy. cbn [negb]. destruct (find_serving PSocks5 ls) as [l|] eqn:E1.
  - intros [= <-]. destruct (Hf _ _ E1) as (H1 & H2 & H3). by exists ProxySocks5, l.
  - destruct (find_serving PHttp ls) as [l|] eqn:E2; [|done]. intros [= <-]. destruct (Hf _ _ E2) as (H1 & H2 & H3). exists ProxyHttp, l. do 4 (split; [done|]).
    intros x Hx Hp. unfold find_serving in E1. destruct (list_find _ ls) as [y|] eqn:E; [done|]. apply list_find_None in E.
    rewrite Forall_forall in E. specialize (E x Hx). unfold serves in E. apply not_true_is_false, andb_false_iff in E as [E|E].
    + by apply (has_protocol_true PSocks5) in Hp; rewrite Hp in E.
    + by apply negb_false_iff, bool_decide_eq_true in E.
Qed.

(** A listener with TLS serves nothing in clear. *)
Lemma tls_listener_encrypts reuse hs l p handshake st : served_as reuse hs l p -> is_Some (lc_tls l) -> (forall q, p <> PrepQuic q) -> p <> PrepSkipped ->
  wrap_tls_server (prepared_tls p) handshake = Some st -> exists c, st = StTls c /\ handshake c = true /\ tls_as_configured (lc_tls l) (Some c).
Proof using Type.
  intros S [t Ht] Hq Hs. destruct (sv_tls _ _ _ _ S) as [T|[(q & -> & _)| ->]]; [|by destruct (Hq q)|done]. rewrite Ht in T |- *. unfold wrap_tls_server.
  destruct (prepared_tls p) as [c|]; [|done]. destruct (handshake c) eqn:E; [|done]. intros [= <-]. by exists c.
Qed.

End start.

(** ** Examples *)

Module SampleListeners.
(** A certificate is any text. *)
#[export] Instance lib : TlsLib := {|
  Cert := unit; Key := unit; RootStore := bool; no_roots := false; extend_system := fun _ => true; add_root := fun r _ => Some r;
  roots_empty := negb; pem_certs := fun _ => [Some tt]; pem_key := fun _ => Ok tt; identity_ok := fun _ _ => true; verifier_ok := fun _ => true
|}.
Definition listener (name bind : bytes) (auth : option AuthConfig) (tls : option ListenerTlsConfig) (unix : option UnixListenerConfig) : ListenerToml :=
  {| li_name := name; li_bind := bind; li_protocols := [str "http"]; li_reuse_port := None; li_connection_limit := Some 2; li_auth := auth; li_udp_enabled := None;
     li_udp := None; li_tls := tls; li_shadowsocks := None; li_ssr := None; li_trojan := None; li_transparent := None; li_unix := unix; li_fixed_target := None;
     li_local_bind := None |}.
Definition ann : AuthConfig := {| au_type := str "password"; au_username := Some (str "ann"); au_password := Some (str "pw"); au_password_env := None |}.
Definition config : ConfigFile :=
  {| cf_version := Some 1; cf_process := None; cf_timeouts := None;
     cf_listeners := Some [listener (str "web") (str "127.0.0.1:0") (Some ann) (Some {| lt_cert := str "c"; lt_key := str "k"; lt_alpn := None |}) None;
                           listener (str "local") (str "unused") None None (Some {| ux_path := str "/run/e.sock"; ux_unlink_existing := None; ux_mode := None |})];
     cf_upstreams := None; cf_upstream_groups := None; cf_rules := None; cf_rules_file := None; cf_routing_default := None; cf_admin := None;
     cf_reverse_servers := None; cf_reverse_clients := None |}.
Definition world : config_world unit unit :=
  {| w_toml := fun _ => Some config; w_regex := fun _ => Some tt; w_ipnet := fun _ => None; w_quic := false; w_env := fun _ => None; w_read := fun _ => Some (str "pem");
     w_open := fun _ => Some {| tf_len := Some 4; tf_data := Some (str "demo") |};
     w_cert_ok := fun _ => true; w_key_ok := fun _ => true; w_roots_ok := fun _ => true; w_server_name_ok := fun _ => true; w_system_roots_ok := true;
     w_client_build_ok := fun _ _ => true |}.
Definition runtime : RuntimeConfig unit unit := Eval vm_compute in match load_and_validate world (str "l.toml") with Ok rt => rt | _ => demo_runtime end.
Definition bound : SocketAddr := {| sa_ip := v4_localhost; sa_port := 4711 |}.
Definition sockets : listen_world :=
  {| lw_quic := false; lw_unix := true; lw_original_dst := false;
     lw_socket := fun _ => {| so_socket := inl tt; so_reuse_address := inl tt; so_only_v6 := inl tt; so_reuse_port := inl tt; so_nonblocking := inl tt;
                              so_bind := inl tt; so_listen := inl tt; so_register := inl tt; so_local_addr := inl bound |};
     lw_fs := fun _ => {| fs_parent := Some true; fs_present := true; fs_stat := inl FkOther; fs_remove := inl tt; fs_bind := inl tt; fs_chmod := inl tt |};
     lw_quic_bind := fun _ _ => inl tt |}.
Definition listeners : PreparedListenerSet :=
  match prepare_listener_set sockets false 5 (rt_listeners runtime) with Ok s => s | _ => empty_set end.
End SampleListeners.

