(* ===== verification/Supervisor.v ===== *)
(** * The running process: accept loops, connections and shutdown

    Models the accept loops of [ServiceSupervisor::run]
    ([crates/eggress-runtime/src/supervisor.rs]) with the listener of
    [crates/eggress-core/src/listener.rs], the counters of [supervisor/accounting.rs],
    the run loop of [supervisor/signals.rs] and the shutdown of [supervisor/shutdown.rs]
    as a system of tasks: one accept loop per listener, one task per connection, the
    services that run beside them, and the task that waits for a signal and then shuts
    the process down.  A step is what one task does between two points where it waits;
    any order of steps is a possible run.

    The listeners are those that Listeners.v prepares.  QUIC and HTTP/3 loops are not
    part of the system. *)

From S2P Require Import Prelude Bytes NetAddr Connector Dispatch UdpFlow UdpOpen ConfigListeners Tls Listeners.
Local Open Scope Z_scope.

(** [AtomicU64] wraps. *)
Definition wrap64 (z : Z) : Z := z mod 2 ^ 64.

(** ** Counters (accounting.rs) *)

(** The slots of a listener; the result is the new value. *)
Definition try_acquire (active limit : Z) : option Z := if active <? limit then Some (active + 1) else None.
Definition slot_drop (active : Z) : Z := wrap64 (active - 1).
Definition guard_new (active : Z) : Z := wrap64 (active + 1).
Definition guard_drop (active : Z) : Z := wrap64 (active - 1).

(** The kinds of accept errors a loop tells apart ([handle_accept_error]): whether it
    retries at once or waits first. *)
Inductive accept_error := WouldBlock | Interrupted | ConnectionAborted | OtherAcceptError.
Definition retries_at_once (e : accept_error) : bool := match e with WouldBlock | Interrupted | ConnectionAborted => true | OtherAcceptError => false end.

(** ** Listeners and connections *)

Inductive listener_kind := KTcp | KTransparent | KUnix.
#[export] Instance listener_kind_eq_dec : EqDecision listener_kind.
Proof. solve_decision. Defined.

(** [LWait]: a TCP loop waits for a permit; [LAccept]: for a connection, a TCP loop
    with a permit in its hand; [LBackoff]: it sleeps after an error. *)
Inductive loop_state := LWait | LAccept | LBackoff | LExited.
#[export] Instance loop_state_eq_dec : EqDecision loop_state.
Proof. solve_decision. Defined.

(** A TCP listener counts down its permits, the others count up their slots. *)
Record listener_state := { lt_kind : listener_kind; lt_tls : bool; lt_limit : Z; lt_permits : nat; lt_slots : Z; lt_loop : loop_state; lt_socket_file : bool }.

(** A connection task: spawned; running, in the TLS handshake of its listener; running,
    serving; ended. *)
Inductive conn_phase := CSpawned | CHandshake | CServing | CEnded.
#[export] Instance conn_phase_eq_dec : EqDecision conn_phase.
Proof. solve_decision. Defined.
Record conn_task := { cn_listener : nat; cn_id : Z; cn_phase : conn_phase }.

Record accepting := {
  ac_listeners : list listener_state; ac_conns : list conn_task; ac_active : Z; ac_counter : Z; ac_transparent_accepted : Z; ac_original_dst_failed : Z
}.

Definition with_loop (l : listener_state) (st : loop_state) : listener_state :=
  {| lt_kind := lt_kind l; lt_tls := lt_tls l; lt_limit := lt_limit l; lt_permits := lt_permits l; lt_slots := lt_slots l; lt_loop := st; lt_socket_file := lt_socket_file l |}.
Definition with_permits (l : listener_state) (p : nat) : listener_state :=
  {| lt_kind := lt_kind l; lt_tls := lt_tls l; lt_limit := lt_limit l; lt_permits := p; lt_slots := lt_slots l; lt_loop := lt_loop l; lt_socket_file := lt_socket_file l |}.
Definition with_slots (l : listener_state) (s : Z) : listener_state :=
  {| lt_kind := lt_kind l; lt_tls := lt_tls l; lt_limit := lt_limit l; lt_permits := lt_permits l; lt_slots := s; lt_loop := lt_loop l; lt_socket_file := lt_socket_file l |}.
Definition without_file (l : listener_state) : listener_state :=
  {| lt_kind := lt_kind l; lt_tls := lt_tls l; lt_limit := lt_limit l; lt_permits := lt_permits l; lt_slots := lt_slots l; lt_loop := lt_loop l; lt_socket_file := false |}.

(** Where a loop begins a round. *)
Definition round (k : listener_kind) : loop_state := match k with KTcp => LWait | KTransparent | KUnix => LAccept end.

(** The drop of a [PermitStream], a permit or a [ListenerConnectionSlot]. *)
Definition release (l : listener_state) : listener_state :=
  match lt_kind l with KTcp => with_permits l (S (lt_permits l)) | KTransparent | KUnix => with_slots l (slot_drop (lt_slots l)) end.

(** The loop of a TCP listener that has a permit gives it back. *)
Definition drop_permit (l : listener_state) : listener_state := match lt_kind l with KTcp => release l | KTransparent | KUnix => l end.

Definition set_listener (n : accepting) (i : nat) (l : listener_state) : accepting :=
  {| ac_listeners := <[i := l]> (ac_listeners n); ac_conns := ac_conns n; ac_active := ac_active n; ac_counter := ac_counter n;
     ac_transparent_accepted := ac_transparent_accepted n; ac_original_dst_failed := ac_original_dst_failed n |}.

(** [conn_tasks.spawn] with the next connection number. *)
Definition spawn_conn (n : accepting) (i : nat) : accepting :=
  {| ac_listeners := ac_listeners n; ac_conns := ac_conns n ++ [{| cn_listener := i; cn_id := ac_counter n; cn_phase := CSpawned |}];
     ac_active := ac_active n; ac_counter := wrap64 (ac_counter n + 1);
     ac_transparent_accepted := ac_transparent_accepted n; ac_original_dst_failed := ac_original_dst_failed n |}.

Definition count_transparent (n : accepting) (failed : bool) : accepting :=
  {| ac_listeners := ac_listeners n; ac_conns := ac_conns n; ac_active := ac_active n; ac_counter := ac_counter n;
     ac_transparent_accepted := wrap64 (ac_transparent_accepted n + 1);
     ac_original_dst_failed := if failed then wrap64 (ac_original_dst_failed n + 1) else ac_original_dst_failed n |}.

Definition set_conn (n : accepting) (c : nat) (t : conn_task) (ph : conn_phase) (active : Z) : accepting :=
  {| ac_listeners := ac_listeners n; ac_conns := <[c := {| cn_listener := cn_listener t; cn_id := cn_id t; cn_phase := ph |}]> (ac_conns n);
     ac_active := active; ac_counter := ac_counter n; ac_transparent_accepted := ac_transparent_accepted n; ac_original_dst_failed := ac_original_dst_failed n |}.

(** A running connection task ends: the guard, the slot or permit, the stream. *)
Definition end_conn (n : accepting) (c : nat) (t : conn_task) : accepting :=
  let m := set_conn n c t CEnded (guard_drop (ac_active n)) in
  match ac_listeners m !! cn_listener t with Some l => set_listener m (cn_listener t) (release l) | None => m end.

(** What happens in the loops and the connection tasks.  [EvAccept]: with the answer
    of the kernel for the original destination. *)
Inductive net_event :=
| EvPermit (i : nat)
| EvAccept (i : nat) (original_dst : bool)
| EvAcceptError (i : nat) (e : accept_error)
| EvWake (i : nat)
| EvStop (i : nat)
| EvStart (c : nat)
| EvTls (c : nat) (ok : bool)
| EvServed (c : nat)
| EvCancelled (c : nat).

(** One round of the accept loop of listener [i] that got a connection. *)
Definition accept_conn (n : accepting) (i : nat) (l : listener_state) (original_dst : bool) : accepting :=
  match lt_kind l with
  | KTcp => spawn_conn (set_listener n i (with_loop l LWait)) i
  | KTransparent =>
      match try_acquire (lt_slots l) (lt_limit l) with
      | None => n
      | Some s =>
          let n := count_transparent n (negb original_dst) in
          if original_dst then spawn_conn (set_listener n i (with_slots l s)) i
          else set_listener n i (release (with_slots l s))
      end
  | KUnix =>
      match try_acquire (lt_slots l) (lt_limit l) with
      | None => n
      | Some s => spawn_conn (set_listener n i (with_slots l s)) i
      end
  end.

Section net_step.
Context (listener_cancel connection_cancel : bool).

Definition net_step (e : net_event) (n : accepting) : option accepting :=
  match e with
  | EvPermit i =>
      l ← ac_listeners n !! i;
      match lt_kind l, lt_loop l, lt_permits l with
      | KTcp, LWait, S p => Some (set_listener n i (with_loop (with_permits l p) LAccept))
      | _, _, _ => None
      end
  | EvAccept i original_dst =>
      l ← ac_listeners n !! i;
      match lt_loop l with LAccept => Some (accept_conn n i l original_dst) | _ => None end
  | EvAcceptError i e =>
      l ← ac_listeners n !! i;
      match lt_loop l with
      | LAccept => Some (set_listener n i (with_loop (drop_permit l) (if retries_at_once e then round (lt_kind l) else LBackoff)))
      | _ => None
      end
  | EvWake i =>
      l ← ac_listeners n !! i;
      match lt_loop l with LBackoff => Some (set_listener n i (with_loop l (round (lt_kind l)))) | _ => None end
  | EvStop i =>
      l ← ac_listeners n !! i;
      if listener_cancel then
        match lt_loop l with
        | LWait => Some (set_listener n i (with_loop l LExited))
        | LAccept => Some (set_listener n i (with_loop match lt_kind l with KUnix => without_file l | _ => drop_permit l end LExited))
        | _ => None
        end
      else None
  | EvStart c =>
      t ← ac_conns n !! c; l ← ac_listeners n !! cn_listener t;
      match cn_phase t with
      | CSpawned => Some (set_conn n c t (if lt_tls l then CHandshake else CServing) (guard_new (ac_active n)))
      | _ => None
      end
  | EvTls c ok =>
      t ← ac_conns n !! c;
      match cn_phase t with
      | CHandshake => Some (if ok then set_conn n c t CServing (ac_active n) else end_conn n c t)
      | _ => None
      end
  | EvServed c =>
      t ← ac_conns n !! c;
      match cn_phase t with CServing => Some (end_conn n c t) | _ => None end
  | EvCancelled c =>
      t ← ac_conns n !! c;
      if connection_cancel then match cn_phase t with CServing => Some (end_conn n c t) | _ => None end else None
  end.
End net_step.

(** ** The supervising task (signals.rs, shutdown.rs) *)

(** Where it stands: starting; in the run loop; and in the shutdown, waiting for the
    UDP tasks, for the loops and services, for the connections to drain, for their
    tasks, for the admin server; done. *)
Inductive stage := SStarting | SRunning | SUdpTasks | STasks | SDrain | SConnTasks | SAdminTasks | SDone.
#[export] Instance stage_eq_dec : EqDecision stage.
Proof. solve_decision. Defined.

(** The tokens, the services (relays and reverse proxies, which watch [cancel]), the
    UDP relay tasks, the admin server. *)
Record main := {
  mn_stage : stage; mn_now : Z; mn_deadline : Z; mn_ready : bool; mn_cancel : bool; mn_listener_cancel : bool; mn_health_cancel : bool;
  mn_connection_cancel : bool; mn_admin_cancel : bool; mn_udp_closed : bool; mn_udp_tasks : nat; mn_services : list bool; mn_admin : bool
}.

Definition at_stage (m : main) (s : stage) : main :=
  {| mn_stage := s; mn_now := mn_now m; mn_deadline := mn_deadline m; mn_ready := mn_ready m; mn_cancel := mn_cancel m; mn_listener_cancel := mn_listener_cancel m;
     mn_health_cancel := mn_health_cancel m; mn_connection_cancel := mn_connection_cancel m; mn_admin_cancel := mn_admin_cancel m; mn_udp_closed := mn_udp_closed m;
     mn_udp_tasks := mn_udp_tasks m; mn_services := mn_services m; mn_admin := mn_admin m |}.
Definition with_ready (m : main) : main :=
  {| mn_stage := mn_stage m; mn_now := mn_now m; mn_deadline := mn_deadline m; mn_ready := true; mn_cancel := mn_cancel m; mn_listener_cancel := mn_listener_cancel m;
     mn_health_cancel := mn_health_cancel m; mn_connection_cancel := mn_connection_cancel m; mn_admin_cancel := mn_admin_cancel m; mn_udp_closed := mn_udp_closed m;
     mn_udp_tasks := mn_udp_tasks m; mn_services := mn_services m; mn_admin := mn_admin m |}.
Definition cancel_connections (m : main) : main :=
  {| mn_stage := mn_stage m; mn_now := mn_now m; mn_deadline := mn_deadline m; mn_ready := mn_ready m; mn_cancel := mn_cancel m; mn_listener_cancel := mn_listener_cancel m;
     mn_health_cancel := mn_health_cancel m; mn_connection_cancel := true; mn_admin_cancel := mn_admin_cancel m; mn_udp_closed := mn_udp_closed m;
     mn_udp_tasks := mn_udp_tasks m; mn_services := mn_services m; mn_admin := mn_admin m |}.
Definition cancel_admin (m : main) : main :=
  {| mn_stage := mn_stage m; mn_now := mn_now m; mn_deadline := mn_deadline m; mn_ready := mn_ready m; mn_cancel := mn_cancel m; mn_listener_cancel := mn_listener_cancel m;
     mn_health_cancel := mn_health_cancel m; mn_connection_cancel := mn_connection_cancel m; mn_admin_cancel := true; mn_udp_closed := mn_udp_closed m;
     mn_udp_tasks := mn_udp_tasks m; mn_services := mn_services m; mn_admin := mn_admin m |}.
(** What the outside does: time, the token of the caller, the tasks. *)
Definition outside (m : main) (now : Z) (cancel : bool) (udp : nat) (services : list bool) (admin : bool) : main :=
  {| mn_stage := mn_stage m; mn_now := now; mn_deadline := mn_deadline m; mn_ready := mn_ready m; mn_cancel := cancel; mn_listener_cancel := mn_listener_cancel m;
     mn_health_cancel := mn_health_cancel m; mn_connection_cancel := mn_connection_cancel m; mn_admin_cancel := mn_admin_cancel m; mn_udp_closed := mn_udp_closed m;
     mn_udp_tasks := udp; mn_services := services; mn_admin := admin |}.

(** The run loop is left: the first steps of [shutdown_ordered], up to its first wait. *)
Definition begin_shutdown (grace : Z) (m : main) : main :=
  {| mn_stage := SUdpTasks; mn_now := mn_now m; mn_deadline := mn_now m + grace; mn_ready := false; mn_cancel := mn_cancel m; mn_listener_cancel := true;
     mn_health_cancel := true; mn_connection_cancel := mn_connection_cancel m; mn_admin_cancel := mn_admin_cancel m; mn_udp_closed := true;
     mn_udp_tasks := mn_udp_tasks m; mn_services := mn_services m; mn_admin := mn_admin m |}.

Definition expired (m : main) : bool := mn_deadline m <=? mn_now m.
Definition loop_exited (l : listener_state) : bool := bool_decide (lt_loop l = LExited).
Definition ended (c : conn_task) : bool := bool_decide (cn_phase c = CEnded).
Definition loops_exited (n : accepting) : bool := forallb loop_exited (ac_listeners n).
Definition conns_ended (n : accepting) : bool := forallb ended (ac_conns n).

(** The supervising task goes on if what it waits for has happened. *)
Definition main_poll (grace : Z) (n : accepting) (m : main) : main :=
  match mn_stage m with
  | SStarting => with_ready (at_stage m SRunning)
  | SRunning => if mn_cancel m then begin_shutdown grace m else m
  | SUdpTasks => if (mn_udp_tasks m =? 0)%nat || expired m then at_stage m STasks else m
  | STasks => if loops_exited n && negb (existsb id (mn_services m)) || expired m then at_stage m SDrain else m
  | SDrain =>
      if ac_active n =? 0 then at_stage m SConnTasks
      else if expired m then at_stage (cancel_connections m) SConnTasks
      else m
  | SConnTasks => if conns_ended n || expired m then at_stage (cancel_admin m) SAdminTasks else m
  | SAdminTasks => if negb (mn_admin m) || expired m then at_stage m SDone else m
  | SDone => m
  end.

(** [EvSignal]: SIGTERM or Ctrl-C; [EvToken]: the caller's token.  A service ends when
    [cancel] is set, or fails by itself. *)
Inductive main_event :=
| EvPoll
| EvSignal
| EvToken
| EvTick (d : Z)
| EvUdpStart
| EvUdpEnd
| EvServiceStop (i : nat)
| EvServiceFail (i : nat)
| EvAdminStop
| EvAdminFail.

Definition main_step (grace : Z) (e : main_event) (n : accepting) (m : main) : option main :=
  match e with
  | EvPoll => Some (main_poll grace n m)
  | EvSignal => match mn_stage m with SRunning => Some (begin_shutdown grace m) | _ => None end
  | EvToken => Some (outside m (mn_now m) true (mn_udp_tasks m) (mn_services m) (mn_admin m))
  | EvTick d => if 0 <=? d then Some (outside m (mn_now m + d) (mn_cancel m) (mn_udp_tasks m) (mn_services m) (mn_admin m)) else None
  | EvUdpStart => Some (outside m (mn_now m) (mn_cancel m) (S (mn_udp_tasks m)) (mn_services m) (mn_admin m))
  | EvUdpEnd => match mn_udp_tasks m with S k => Some (outside m (mn_now m) (mn_cancel m) k (mn_services m) (mn_admin m)) | O => None end
  | EvServiceStop i =>
      match mn_services m !! i with
      | Some true => if mn_cancel m then Some (outside m (mn_now m) (mn_cancel m) (mn_udp_tasks m) (<[i := false]> (mn_services m)) (mn_admin m)) else None
      | _ => None
      end
  | EvServiceFail i =>
      match mn_services m !! i with
      | Some true => Some (outside m (mn_now m) (mn_cancel m) (mn_udp_tasks m) (<[i := false]> (mn_services m)) (mn_admin m))
      | _ => None
      end
  | EvAdminStop => if mn_admin m && mn_admin_cancel m then Some (outside m (mn_now m) (mn_cancel m) (mn_udp_tasks m) (mn_services m) false) else None
  | EvAdminFail => if mn_admin m then Some (outside m (mn_now m) (mn_cancel m) (mn_udp_tasks m) (mn_services m) false) else None
  end.

(** ** The process *)

Record process := { pc_net : accepting; pc_main : main }.

Definition event : Type := net_event + main_event.
Definition step (grace : Z) (e : event) (p : process) : option process :=
  match e with
  | inl e => (fun n => {| pc_net := n; pc_main := pc_main p |}) <$> net_step (mn_listener_cancel (pc_main p)) (mn_connection_cancel (pc_main p)) e (pc_net p)
  | inr e => (fun m => {| pc_net := pc_net p; pc_main := m |}) <$> main_step grace e (pc_net p) (pc_main p)
  end.
Fixpoint run (grace : Z) (es : list event) (p : process) : option process :=
  match es with [] => Some p | e :: r => q ← step grace e p; run grace r q end.

(** The process as [run] spawns it: a loop for each prepared listener. *)
Section start.
Context {TL : TlsLib}.
Definition tcp_loop (p : PreparedListener) : listener_state :=
  {| lt_kind := KTcp; lt_tls := bool_decide (is_Some (pr_tls p)); lt_limit := Z.of_nat (tc_permits (pr_listener p)); lt_permits := tc_permits (pr_listener p); lt_slots := 0;
     lt_loop := LWait; lt_socket_file := false |}.
Definition slot_loop {L} (k : listener_kind) (p : PreparedSlotListener L) : listener_state :=
  {| lt_kind := k; lt_tls := bool_decide (is_Some (ps_tls p)); lt_limit := ps_connection_limit p; lt_permits := 0; lt_slots := 0; lt_loop := LAccept;
     lt_socket_file := match k with KUnix => true | _ => false end |}.
Definition spawn_loops (s : PreparedListenerSet) : list listener_state :=
  map (slot_loop KTransparent) (set_transparent s) ++ map (slot_loop KUnix) (set_unix s) ++ map tcp_loop (set_prepared s).

Definition start_process (s : PreparedListenerSet) (services : nat) (admin : bool) (now : Z) : process :=
  {| pc_net := {| ac_listeners := spawn_loops s; ac_conns := []; ac_active := 0; ac_counter := 1; ac_transparent_accepted := 0; ac_original_dst_failed := 0 |};
     pc_main := {| mn_stage := SStarting; mn_now := now; mn_deadline := now; mn_ready := false; mn_cancel := false; mn_listener_cancel := false; mn_health_cancel := false;
                   mn_connection_cancel := false; mn_admin_cancel := false; mn_udp_closed := false; mn_udp_tasks := 0; mn_services := replicate services true; mn_admin := admin |} |}.
End start.

(** ** Accounting *)

Fixpoint count {A} (P : A -> bool) (l : list A) : nat := match l with [] => 0 | x :: r => (if P x then 1 else 0) + count P r end.

Lemma tasks_app {A} (P : A -> bool) l r : count P (l ++ r) = (count P l + count P r)%nat.
Proof. induction l as [|x l IH]; cbn; [done|]. rewrite IH. lia. Qed.
Lemma count_insert {A} (P : A -> bool) l i x y : l !! i = Some x -> ((if P x then 1 else 0) + count P (<[i := y]> l) = (if P y then 1 else 0) + count P l)%nat.
Proof. revert i. induction l as [|z l IH]; intros [|i] H; try done; [injection H as ->; cbn; destruct (P x), (P y); lia|]. specialize (IH i H). change (<[S i := y]> (z :: l)) with (z :: <[i := y]> l). cbn [count]. destruct (P x), (P y), (P z); lia. Qed.
Lemma count_zero {A} (P : A -> bool) l : count P l = 0%nat <-> forallb (fun x => negb (P x)) l = true.
Proof. induction l as [|x l IH]; cbn; [done|]. rewrite andb_true_iff, <- IH. destruct (P x); cbn; [split; [done|by intros [? _]]|tauto]. Qed.
Lemma count_le {A} (P Q : A -> bool) l : (forall x, P x = true -> Q x = true) -> (count P l <= count Q l)%nat.
Proof. intros H. induction l as [|x l IH]; cbn; [done|]. specialize (H x). destruct (P x), (Q x); try lia; by specialize (H eq_refl). Qed.

(** The connections that are not over; those the global counter counts. *)
Definition live_at (i : nat) (c : conn_task) : bool := negb (ended c) && (cn_listener c =? i)%nat.
Definition running (c : conn_task) : bool := match cn_phase c with CHandshake | CServing => true | CSpawned | CEnded => false end.

(** The books of a listener with [k] connections. *)
Definition listener_ok (l : listener_state) (k : nat) : Prop :=
  0 <= lt_limit l < 2 ^ 64 /\
  match lt_kind l with
  | KTcp => Z.of_nat (lt_permits l + (if bool_decide (lt_loop l = LAccept) then 1 else 0) + k) = lt_limit l
  | KTransparent | KUnix => lt_loop l <> LWait /\ lt_slots l = Z.of_nat k /\ Z.of_nat k <= lt_limit l
  end.
Definition accounts (ls : list listener_state) (cs : list conn_task) : Prop := forall i l, ls !! i = Some l -> listener_ok l (count (live_at i) cs).

Record net_ok (n : accepting) : Prop := {
  no_active : ac_active n = wrap64 (Z.of_nat (count running (ac_conns n)));
  no_range : forall c t, ac_conns n !! c = Some t -> (cn_listener t < length (ac_listeners n))%nat;
  no_accounts : accounts (ac_listeners n) (ac_conns n)
}.

Lemma accounts_set ls cs i l : accounts ls cs -> listener_ok l (count (live_at i) cs) -> accounts (<[i := l]> ls) cs.
Proof. intros Ha Hl j x. rewrite list_lookup_insert_Some. intros [(<- & <- & _)|[_ Hj]]; [done|by apply Ha]. Qed.

Lemma accounts_spawn ls cs i l id : accounts ls cs -> listener_ok l (S (count (live_at i) cs)) ->
  accounts (<[i := l]> ls) (cs ++ [{| cn_listener := i; cn_id := id; cn_phase := CSpawned |}]).
Proof.
  intros Ha Hl j x. rewrite list_lookup_insert_Some, tasks_app. cbn [count].
  replace (live_at j _) with (i =? j)%nat by done. intros [(<- & <- & _)|[Hne Hj]].
  - rewrite Nat.eqb_refl. by replace (_ + (1 + 0))%nat with (S (count (live_at i) cs)) by lia.
  - rewrite (proj2 (Nat.eqb_neq i j)) by done. rewrite !Nat.add_0_r. by apply Ha.
Qed.

Lemma live_insert cs c t ph i : cs !! c = Some t ->
  ((if live_at i t then 1 else 0) + count (live_at i) (<[c := {| cn_listener := cn_listener t; cn_id := cn_id t; cn_phase := ph |}]> cs) =
   (if bool_decide (ph <> CEnded) && (cn_listener t =? i)%nat then 1 else 0) + count (live_at i) cs)%nat.
Proof.
  intros Hc. rewrite (count_insert _ _ _ _ _ Hc). f_equal. unfold live_at, ended. cbn. by destruct ph.
Qed.

Lemma accounts_phase ls cs c t ph : accounts ls cs -> cs !! c = Some t -> cn_phase t <> CEnded -> ph <> CEnded ->
  accounts ls (<[c := {| cn_listener := cn_listener t; cn_id := cn_id t; cn_phase := ph |}]> cs).
Proof.
  intros Ha Hc Ht Hp j l Hj. pose proof (live_insert cs c t ph j Hc) as H. rewrite bool_decide_true in H by done. unfold live_at at 1, ended in H.
  rewrite bool_decide_false in H by done. cbn in H. replace (count (live_at j) _) with (count (live_at j) cs) by (destruct (_ =? _)%nat; lia). by apply Ha.
Qed.

(** Releasing what a connection held. *)
Lemma release_ok l k : listener_ok l (S k) -> listener_ok (release l) k.
Proof.
  intros (Hr & H). unfold release. destruct (lt_kind l) eqn:Ek; split; try done; cbn; rewrite Ek; try (destruct H as (H1 & H2 & H3); split; [done|]; unfold slot_drop, wrap64; rewrite Z.mod_small; lia).
  destruct (bool_decide _); lia.
Qed.

Lemma accounts_end ls cs c t l : accounts ls cs -> cs !! c = Some t -> cn_phase t <> CEnded -> ls !! cn_listener t = Some l ->
  accounts (<[cn_listener t := release l]> ls) (<[c := {| cn_listener := cn_listener t; cn_id := cn_id t; cn_phase := CEnded |}]> cs).
Proof.
  intros Ha Hc Ht Hl. assert (forall j, (if (cn_listener t =? j)%nat then 1 else 0) + count (live_at j) (<[c := {| cn_listener := cn_listener t; cn_id := cn_id t; cn_phase := CEnded |}]> cs) = count (live_at j) cs)%nat as H.
  { intros j. pose proof (live_insert cs c t CEnded j Hc) as E. replace (live_at j t) with (cn_listener t =? j)%nat in E by (unfold live_at, ended; by rewrite bool_decide_false). by rewrite E. }
  intros j x. rewrite list_lookup_insert_Some. intros [(<- & <- & _)|[Hne Hj]].
  - apply release_ok. specialize (H (cn_listener t)). rewrite Nat.eqb_refl in H. cbn in H. rewrite H. by apply Ha.
  - specialize (H j). rewrite (proj2 (Nat.eqb_neq _ j)) in H by done. cbn in H. rewrite H. by apply Ha.
Qed.

Lemma wrap_succ z : wrap64 (wrap64 z + 1) = wrap64 (z + 1).
Proof. unfold wrap64. by rewrite Zplus_mod_idemp_l. Qed.
Lemma wrap_pred z : wrap64 (wrap64 z - 1) = wrap64 (z - 1).
Proof. unfold wrap64. by rewrite Zminus_mod_idemp_l. Qed.

Lemma set_listener_ok n i l : net_ok n -> listener_ok l (count (live_at i) (ac_conns n)) -> net_ok (set_listener n i l).
Proof. intros [H1 H2 H3] Hl. split; cbn; [done| |by apply accounts_set]. intros c t Hc. rewrite length_insert. by eapply H2. Qed.

Lemma spawn_ok n i l : net_ok n -> (i < length (ac_listeners n))%nat -> listener_ok l (S (count (live_at i) (ac_conns n))) -> net_ok (spawn_conn (set_listener n i l) i).
Proof.
  intros [H1 H2 H3] Hi Hl. split; cbn.
  - rewrite tasks_app. cbn. by rewrite Nat.add_0_r.
  - intros c t [Hc|(_ & Hc)]%lookup_app_Some; rewrite length_insert; [by eapply H2|]. apply list_lookup_singleton_Some in Hc as [_ <-]. done.
  - by apply accounts_spawn.
Qed.

Lemma count_transparent_ok n f : net_ok n -> net_ok (count_transparent n f).
Proof. intros [H1 H2 H3]. by split. Qed.

Lemma set_conn_ok n c t ph a : net_ok n -> ac_conns n !! c = Some t -> cn_phase t <> CEnded -> ph <> CEnded ->
  a = wrap64 (Z.of_nat (count running (<[c := {| cn_listener := cn_listener t; cn_id := cn_id t; cn_phase := ph |}]> (ac_conns n)))) -> net_ok (set_conn n c t ph a).
Proof.
  intros [H1 H2 H3] Hc Ht Hp Ha. split; cbn; [done| |by apply accounts_phase]. intros d u. rewrite list_lookup_insert_Some.
  intros [(_ & <- & _)|[_ Hd]]; [by eapply (H2 c t)|by eapply H2].
Qed.

Lemma end_conn_ok n c t : net_ok n -> ac_conns n !! c = Some t -> running t = true -> net_ok (end_conn n c t).
Proof.
  intros [H1 H2 H3] Hc Ht. unfold end_conn. cbn. destruct (lookup_lt_is_Some_2 _ _ (H2 c t Hc)) as [l Hl]. rewrite Hl.
  assert (cn_phase t <> CEnded) as Hp by (intros E; unfold running in Ht; by rewrite E in Ht). split; cbn.
  - pose proof (count_insert running _ _ _ {| cn_listener := cn_listener t; cn_id := cn_id t; cn_phase := CEnded |} Hc) as H. rewrite Ht in H. cbn [running cn_phase] in H.
    unfold guard_drop. rewrite H1, wrap_pred. f_equal. lia.
  - intros d u. rewrite length_insert, list_lookup_insert_Some. intros [(_ & <- & _)|[_ Hd]]; [by eapply (H2 c t)|by eapply H2].
  - by apply accounts_end.
Qed.

Lemma acquire_ok l k s : listener_ok l k -> lt_kind l <> KTcp -> try_acquire (lt_slots l) (lt_limit l) = Some s -> listener_ok (with_slots l s) (S k).
Proof.
  intros (Hr & H) Hk. unfold try_acquire. destruct (_ <? _) eqn:E; [|done]. apply Z.ltb_lt in E. intros [= <-]. split; [done|]. cbn.
  destruct (lt_kind l); [done|..]; destruct H as (H1 & H2 & H3); split; try done; rewrite H2 in *; lia.
Qed.

Lemma accept_conn_ok n i l d : net_ok n -> ac_listeners n !! i = Some l -> lt_loop l = LAccept -> net_ok (accept_conn n i l d).
Proof.
  intros Hn Hi Hl. pose proof (no_accounts _ Hn i l Hi) as Ha. pose proof (lookup_lt_Some _ _ _ Hi) as Hlt. unfold accept_conn. destruct (lt_kind l) eqn:Ek.
  - apply spawn_ok; try done. destruct Ha as (Hr & Ha). split; [done|]. cbn. rewrite Ek in *. rewrite bool_decide_true in Ha by done. rewrite bool_decide_false by done. lia.
  - destruct (try_acquire _ _) as [s|] eqn:E; [|done]. apply (acquire_ok _ _ _ Ha) in E; [|congruence]. apply (count_transparent_ok _ (negb d)) in Hn.
    destruct d; [by apply spawn_ok|]. apply set_listener_ok; [done|]. by apply release_ok.
  - destruct (try_acquire _ _) as [s|] eqn:E; [|done]. apply (acquire_ok _ _ _ Ha) in E; [|congruence]. by apply spawn_ok.
Qed.

(** Leaving [LAccept]. *)
Lemma leave_accept_ok l k st : listener_ok l k -> lt_loop l = LAccept -> st <> LAccept -> (lt_kind l = KTcp \/ st <> LWait) -> listener_ok (with_loop (drop_permit l) st) k.
Proof.
  intros (Hr & H) Hl Hs Hk. unfold drop_permit, release. destruct (lt_kind l) eqn:Ek; split; try done; cbn; rewrite ?Ek.
  - rewrite bool_decide_true in H by done. rewrite bool_decide_false by done. lia.
  - destruct H as (H1 & H2 & H3). destruct Hk; [done|]. done.
  - destruct H as (H1 & H2 & H3). destruct Hk; [done|]. done.
Qed.

Lemma rest_ok l k st : listener_ok l k -> lt_loop l <> LAccept -> st <> LAccept -> (lt_kind l = KTcp \/ st <> LWait) -> listener_ok (with_loop l st) k.
Proof.
  intros (Hr & H) Hl Hs Hk. split; [done|]. cbn. destruct (lt_kind l); [|destruct H as (_ & H); destruct Hk; done..].
  rewrite bool_decide_false in H by done. by rewrite bool_decide_false.
Qed.

Lemma slots_loop_ok l k st : listener_ok l k -> lt_kind l <> KTcp -> st <> LWait -> listener_ok (with_loop l st) k.
Proof. intros (Hr & H) Hk Hs. split; [done|]. cbn. destruct (lt_kind l); [done|..]; by destruct H as (_ & H). Qed.

Lemma without_file_ok l k : listener_ok l k -> listener_ok (without_file l) k.
Proof. done. Qed.

Lemma net_step_ok lc cc e n m : net_ok n -> net_step lc cc e n = Some m -> net_ok m.
Proof.
  intros Hn. destruct e as [i|i d|i e|i|i|c|c b|c|c]; cbn [net_step].
  - destruct (ac_listeners n !! i) as [l|] eqn:Hi; [|done]. pose proof (no_accounts _ Hn i l Hi) as (Hr & Ha). cbn. destruct (lt_kind l) eqn:Ek; [|done..]. destruct (lt_loop l) eqn:El; [|done..].
    destruct (lt_permits l) as [|p] eqn:Ep; [done|]. intros [= <-]. apply set_listener_ok; [done|]. split; [done|]. cbn. rewrite Ek. rewrite bool_decide_false in Ha by done.
    rewrite bool_decide_true by done. lia.
  - destruct (ac_listeners n !! i) as [l|] eqn:Hi; [|done]. cbn. destruct (lt_loop l) eqn:El; [done| |done..]. intros [= <-]. by apply accept_conn_ok.
  - destruct (ac_listeners n !! i) as [l|] eqn:Hi; [|done]. pose proof (no_accounts _ Hn i l Hi) as Ha. cbn. destruct (lt_loop l) eqn:El; [done| |done..]. intros [= <-].
    apply set_listener_ok; [done|]. destruct (lt_kind l) eqn:Ek.
    + apply leave_accept_ok; try done; [by destruct (retries_at_once e)|by left].
    + unfold drop_permit. rewrite Ek. apply slots_loop_ok; [done|congruence|by destruct (retries_at_once e)].
    + unfold drop_permit. rewrite Ek. apply slots_loop_ok; [done|congruence|by destruct (retries_at_once e)].
  - destruct (ac_listeners n !! i) as [l|] eqn:Hi; [|done]. pose proof (no_accounts _ Hn i l Hi) as Ha. cbn. destruct (lt_loop l) eqn:El; [done|done| |done]. intros [= <-].
    apply set_listener_ok; [done|]. destruct (lt_kind l) eqn:Ek; [|by apply slots_loop_ok; [|congruence|]..]. apply rest_ok; try done; [congruence|by left].
  - destruct (ac_listeners n !! i) as [l|] eqn:Hi; [|done]. pose proof (no_accounts _ Hn i l Hi) as Ha. cbn. destruct lc; [|done]. destruct (lt_loop l) eqn:El; [| |done..]; intros [= <-].
    + apply set_listener_ok; [done|]. apply rest_ok; try done; [congruence|by right].
    + apply set_listener_ok; [done|]. destruct (lt_kind l) eqn:Ek.
      * apply leave_accept_ok; try done. by right.
      * apply leave_accept_ok; try done. by right.
      * apply slots_loop_ok; [by apply without_file_ok|cbn; congruence|done].
  - destruct (ac_conns n !! c) as [t|] eqn:Hc; [|done]. cbn. destruct (ac_listeners n !! cn_listener t) as [l|]; [|done]. cbn. destruct (cn_phase t) eqn:Et; [|done..]. intros [= <-].
    set (ph := if lt_tls l then CHandshake else CServing). assert (ph <> CEnded) as Hp by (by unfold ph; destruct (lt_tls l)).
    apply set_conn_ok; try done; [congruence|]. unfold guard_new. rewrite (no_active _ Hn), wrap_succ. f_equal.
    pose proof (count_insert running _ _ _ {| cn_listener := cn_listener t; cn_id := cn_id t; cn_phase := ph |} Hc) as H. unfold running at 1 3 in H. rewrite Et in H. cbn in H. unfold ph in *. destruct (lt_tls l); cbn in *; lia.
  - destruct (ac_conns n !! c) as [t|] eqn:Hc; [|done]. cbn. destruct (cn_phase t) eqn:Et; [done| |done..]. intros [= <-]. destruct b.
    + apply set_conn_ok; try done; [congruence|]. rewrite (no_active _ Hn). do 2 f_equal.
      pose proof (count_insert running _ _ _ {| cn_listener := cn_listener t; cn_id := cn_id t; cn_phase := CServing |} Hc) as H. unfold running at 1 3 in H. rewrite Et in H. cbn in H. lia.
    + apply end_conn_ok; try done. unfold running. by rewrite Et.
  - destruct (ac_conns n !! c) as [t|] eqn:Hc; [|done]. cbn. destruct (cn_phase t) eqn:Et; [done|done| |done]. intros [= <-]. apply end_conn_ok; try done. unfold running. by rewrite Et.
  - destruct (ac_conns n !! c) as [t|] eqn:Hc; [|done]. cbn. destruct cc; [|done]. destruct (cn_phase t) eqn:Et; [done|done| |done]. intros [= <-]. apply end_conn_ok; try done. unfold running. by rewrite Et.
Qed.

(** *** What steps leave alone *)

Definition shape (l : listener_state) : listener_kind * bool * Z := (lt_kind l, lt_tls l, lt_limit l).

Lemma set_listener_shape n i l l' : ac_listeners n !! i = Some l -> shape l' = shape l -> map shape (ac_listeners (set_listener n i l')) = map shape (ac_listeners n).
Proof.
  intros Hi Hs. cbn. change (shape <$> <[i := l']> (ac_listeners n) = shape <$> ac_listeners n). rewrite list_fmap_insert. apply list_insert_id.
  by rewrite list_lookup_fmap, Hi, Hs.
Qed.

Lemma release_shape l : shape (release l) = shape l.
Proof. unfold release. by destruct (lt_kind l) eqn:E; unfold shape; cbn; rewrite ?E. Qed.
Lemma drop_permit_shape l : shape (drop_permit l) = shape l.
Proof. unfold drop_permit. destruct (lt_kind l); [apply release_shape|done..]. Qed.
Lemma with_loop_shape l st : shape (with_loop l st) = shape l.
Proof. done. Qed.

Lemma end_conn_shape n c t : map shape (ac_listeners (end_conn n c t)) = map shape (ac_listeners n).
Proof. unfold end_conn. cbn [ac_listeners set_conn]. destruct (ac_listeners n !! cn_listener t) as [l|] eqn:E; [|done]. apply (set_listener_shape (set_conn n c t CEnded _) _ l); [done|apply release_shape]. Qed.

Lemma accept_conn_shape n i l d : ac_listeners n !! i = Some l -> map shape (ac_listeners (accept_conn n i l d)) = map shape (ac_listeners n).
Proof.
  intros Hi. unfold accept_conn. destruct (lt_kind l); [by apply (set_listener_shape n i l)|..]; destruct (try_acquire _ _) as [s|]; try done.
  - destruct d; [by apply (set_listener_shape (count_transparent n _) i l)|]. apply (set_listener_shape (count_transparent n _) i l); [done|by rewrite release_shape].
  - by apply (set_listener_shape n i l).
Qed.

Lemma net_step_shape lc cc e n m : net_step lc cc e n = Some m -> map shape (ac_listeners m) = map shape (ac_listeners n).
Proof.
  destruct e as [i|i d|i e|i|i|c|c b|c|c]; cbn [net_step];
    try (destruct (ac_listeners n !! i) as [l|] eqn:Hi; [|done]; cbn); try (destruct (ac_conns n !! c) as [t|] eqn:Hc; [|done]; cbn).
  - destruct (lt_kind l), (lt_loop l), (lt_permits l); try done; intros [= <-]; by apply (set_listener_shape n i l).
  - destruct (lt_loop l); try done. intros [= <-]. by apply accept_conn_shape.
  - destruct (lt_loop l); try done. intros [= <-]. apply (set_listener_shape n i l); [done|]. rewrite with_loop_shape. apply drop_permit_shape.
  - destruct (lt_loop l); try done. intros [= <-]. by apply (set_listener_shape n i l).
  - destruct lc; [|done]. destruct (lt_loop l); try done; intros [= <-]; apply (set_listener_shape n i l); try done. rewrite with_loop_shape. destruct (lt_kind l); try done; apply drop_permit_shape.
  - destruct (ac_listeners n !! cn_listener t); [|done]. cbn. destruct (cn_phase t); try done. by intros [= <-].
  - destruct (cn_phase t); try done. intros [= <-]. destruct b; [done|apply end_conn_shape].
  - destruct (cn_phase t); try done. intros [= <-]. apply end_conn_shape.
  - destruct cc; [|done]. destruct (cn_phase t); try done. intros [= <-]. apply end_conn_shape.
Qed.

(** An exited loop stays exited, and nothing is accepted when all are. *)
Lemma loops_exited_spec n : loops_exited n = true <-> forall i l, ac_listeners n !! i = Some l -> lt_loop l = LExited.
Proof.
  unfold loops_exited. rewrite forallb_forall. split.
  - intros H i l Hi. apply (bool_decide_eq_true_1 _), H, list_elem_of_In. by eapply list_elem_of_lookup_2.
  - intros H l [i Hi]%list_elem_of_In%list_elem_of_lookup. apply bool_decide_eq_true_2. by eapply H.
Qed.
Lemma conns_ended_spec n : conns_ended n = true <-> forall c t, ac_conns n !! c = Some t -> cn_phase t = CEnded.
Proof.
  unfold conns_ended. rewrite forallb_forall. split.
  - intros H i l Hi. apply (bool_decide_eq_true_1 _), H, list_elem_of_In. by eapply list_elem_of_lookup_2.
  - intros H l [i Hi]%list_elem_of_In%list_elem_of_lookup. apply bool_decide_eq_true_2. by eapply H.
Qed.

Lemma release_loop l : lt_loop (release l) = lt_loop l.
Proof. unfold release. by destruct (lt_kind l). Qed.

Lemma end_conn_frame n c t : ac_conns (end_conn n c t) = <[c := {| cn_listener := cn_listener t; cn_id := cn_id t; cn_phase := CEnded |}]> (ac_conns n) /\
  (loops_exited n = true -> loops_exited (end_conn n c t) = true).
Proof.
  unfold end_conn. cbn [ac_listeners set_conn]. destruct (ac_listeners n !! cn_listener t) as [l|] eqn:E; [|done]. split; [done|].
  rewrite !loops_exited_spec. cbn. intros H i x. rewrite list_lookup_insert_Some. intros [(_ & <- & _)|[_ Hi]]; [|by eapply H]. rewrite release_loop. by eapply H.
Qed.

Lemma loops_exited_stay lc cc e n m : net_step lc cc e n = Some m -> loops_exited n = true ->
  loops_exited m = true /\ length (ac_conns m) = length (ac_conns n) /\ (conns_ended n = true -> conns_ended m = true).
Proof.
  intros H Hx. pose proof Hx as Hl. rewrite loops_exited_spec in Hl.
  assert (forall c t, length (ac_conns (end_conn n c t)) = length (ac_conns n)) as Hlen by (intros c t; rewrite (proj1 (end_conn_frame n c t)); apply length_insert).
  destruct e as [i|i d|i e|i|i|c|c b|c|c]; cbn [net_step] in H;
    try (destruct (ac_listeners n !! i) as [l|] eqn:Hi; [|done]; cbn in H; rewrite (Hl i l Hi) in H; destruct (lt_kind l), lc; done);
    (destruct (ac_conns n !! c) as [t|] eqn:Hc; [|done]; cbn in H).
  - destruct (ac_listeners n !! cn_listener t); [|done]. cbn in H. destruct (cn_phase t) eqn:Et; try done. injection H as <-. split; [done|]. cbn. rewrite length_insert. split; [done|].
    rewrite conns_ended_spec. intros Hce. by rewrite (Hce c t Hc) in Et.
  - destruct (cn_phase t) eqn:Et; try done. assert (conns_ended n = true -> False) as Hne by (rewrite conns_ended_spec; intros Hce; by rewrite (Hce c t Hc) in Et).
    injection H as <-. destruct b; [split; [done|]; cbn; rewrite length_insert; split; [done|]; intros X; by destruct (Hne X)|].
    split; [by apply end_conn_frame|]. split; [apply Hlen|]. intros X. by destruct (Hne X).
  - destruct (cn_phase t) eqn:Et; try done. injection H as <-. split; [by apply end_conn_frame|]. split; [apply Hlen|].
    rewrite conns_ended_spec. intros Hce. by rewrite (Hce c t Hc) in Et.
  - destruct cc; [|done]. destruct (cn_phase t) eqn:Et; try done. injection H as <-. split; [by apply end_conn_frame|]. split; [apply Hlen|].
    rewrite conns_ended_spec. intros Hce. by rewrite (Hce c t Hc) in Et.
Qed.

(** ** The shutdown *)

Definition before_shutdown (s : stage) : bool := match s with SStarting | SRunning => true | _ => false end.
Definition draining (s : stage) : bool := match s with SDrain | SConnTasks | SAdminTasks | SDone => true | _ => false end.
Definition admin_stage (s : stage) : bool := match s with SAdminTasks | SDone => true | _ => false end.
Definition no_services (m : main) : bool := negb (existsb id (mn_services m)).

Record main_ok (n : accepting) (m : main) : Prop := {
  mo_ready : mn_ready m = bool_decide (mn_stage m = SRunning);
  mo_tokens : mn_listener_cancel m = negb (before_shutdown (mn_stage m)) /\ mn_health_cancel m = negb (before_shutdown (mn_stage m)) /\
    mn_udp_closed m = negb (before_shutdown (mn_stage m));
  mo_forced : mn_connection_cancel m = true -> draining (mn_stage m) = true /\ expired m = true;
  mo_admin : mn_admin_cancel m = admin_stage (mn_stage m);
  mo_stopped : draining (mn_stage m) = true -> expired m = true \/ loops_exited n = true /\ no_services m = true;
  mo_finished : admin_stage (mn_stage m) = true -> expired m = true \/ conns_ended n = true
}.

Lemma main_ok_net lc cc e n n' m : net_step lc cc e n = Some n' -> main_ok n m -> main_ok n' m.
Proof.
  intros H [H1 H2 H3 H4 H5 H6]. split; try done.
  - intros [?|[Hl Hs]]%H5; [by left|]. right. split; [|done]. by eapply loops_exited_stay.
  - intros Ha. destruct (H6 Ha) as [?|Hc]; [by left|]. destruct H5 as [?|[Hl _]]; [by destruct (mn_stage m)|by left|]. right. by eapply loops_exited_stay.
Qed.

Lemma main_poll_ok grace n m : main_ok n m -> main_ok n (main_poll grace n m).
Proof.
  intros Hok. destruct Hok as [H1 (H2 & H2' & H2'') H3 H4 H5 H6]. unfold main_poll.
  assert (mn_stage m <> SStarting -> mn_stage m <> SRunning -> mn_ready m = false) as Hr by (intros ??; rewrite H1; by apply bool_decide_eq_false).
  destruct (mn_stage m) eqn:Es; cbn in *; try (specialize (Hr ltac:(done) ltac:(done)));
    repeat match goal with |- context [if ?b then _ else _] => let E := fresh "E" in destruct b eqn:E end;
    split; cbn; rewrite ?Es; cbn; try done; try (intros X; by destruct (H3 X)).
  all: intros _; first [by left|by apply H5|by destruct (H5 eq_refl) as [X|X]; [discriminate X|right]|idtac].
  - apply orb_true_iff in E as [E|E]; [|by left]. right. apply andb_true_iff in E. done.
  - apply orb_true_iff in E as [E|E]; [by right|by left].
Qed.

Lemma outside_ok n m now cancel udp services admin : main_ok n m -> mn_now m <= now -> (no_services m = true -> existsb id services = false) -> main_ok n (outside m now cancel udp services admin).
Proof.
  intros [H1 H2 H3 H4 H5 H6] Hn Hs. assert (expired m = true -> expired (outside m now cancel udp services admin) = true) as He by (unfold expired; cbn; rewrite !Z.leb_le; lia).
  split; cbn; try done.
  - intros [? ?]%H3. split; [done|by apply He].
  - intros [?|[? ?]]%H5; [left; by apply He|right]. split; [done|]. unfold no_services at 1. cbn. by rewrite Hs.
  - intros [?|?]%H6; [left; by apply He|by right].
Qed.

Lemma service_down services i : existsb id services = false -> existsb id (<[i := false]> services) = false.
Proof.
  rewrite <- !not_true_iff_false, !existsb_exists. intros H (x & Hx%list_elem_of_In & Ex). apply H. apply list_elem_of_lookup in Hx as [j Hj].
  rewrite list_lookup_insert_Some in Hj. destruct Hj as [(_ & <- & _)|[_ Hj]]; [done|]. exists x. split; [|done]. apply list_elem_of_In. by eapply list_elem_of_lookup_2.
Qed.

Lemma begin_shutdown_ok grace n m : main_ok n m -> before_shutdown (mn_stage m) = true -> main_ok n (begin_shutdown grace m).
Proof.
  intros [H1 H2 H3 H4 H5 H6] Hb. split; cbn; try done.
  - intros X. destruct (H3 X) as [Hd _]. by destruct (mn_stage m).
  - rewrite H4. by destruct (mn_stage m).
Qed.

Lemma main_step_ok grace e n m m' : main_ok n m -> main_step grace e n m = Some m' -> main_ok n m'.
Proof.
  intros Hok. destruct e as [| | |d| | |i|i| |]; cbn [main_step].
  - intros [= <-]. by apply main_poll_ok.
  - destruct (mn_stage m) eqn:E; try done. intros [= <-]. apply begin_shutdown_ok; [done|]. by rewrite E.
  - intros [= <-]. apply outside_ok; [done|lia|]. by intros ?%negb_true_iff.
  - destruct (0 <=? d) eqn:E; [|done]. apply Z.leb_le in E. intros [= <-]. apply outside_ok; [done|lia|]. by intros ?%negb_true_iff.
  - intros [= <-]. apply outside_ok; [done|lia|]. by intros ?%negb_true_iff.
  - destruct (mn_udp_tasks m); [done|]. intros [= <-]. apply outside_ok; [done|lia|]. by intros ?%negb_true_iff.
  - destruct (mn_services m !! i) as [[]|]; [|done..]. destruct (mn_cancel m); [|done]. intros [= <-]. apply outside_ok; [done|lia|]. intros ?%negb_true_iff. by apply service_down.
  - destruct (mn_services m !! i) as [[]|]; [|done..]. intros [= <-]. apply outside_ok; [done|lia|]. intros ?%negb_true_iff. by apply service_down.
  - destruct (mn_admin m && mn_admin_cancel m); [|done]. intros [= <-]. apply outside_ok; [done|lia|]. by intros ?%negb_true_iff.
  - destruct (mn_admin m); [|done]. intros [= <-]. apply outside_ok; [done|lia|]. by intros ?%negb_true_iff.
Qed.

(** Runs. *)
Lemma run_ind grace (P : process -> Prop) es : forall p q, (forall e p q, e ∈ es -> P p -> step grace e p = Some q -> P q) -> P p -> run grace es p = Some q -> P q.
Proof.
  induction es as [|e es IH]; intros p q Hs Hp; cbn; [by intros [= <-]|]. destruct (step grace e p) as [r|] eqn:E; [|done]. cbn. apply IH.
  - intros e' p' q' He'. apply Hs. by right.
  - eapply Hs; [left|exact Hp|exact E].
Qed.
Lemma run_app grace es fs p : run grace (es ++ fs) p = q ← run grace es p; run grace fs q.
Proof. revert p. induction es as [|e es IH]; intros p; cbn; [done|]. destruct (step grace e p); cbn; [apply IH|done]. Qed.

Record process_ok (p : process) : Prop := { po_net : net_ok (pc_net p); po_main : main_ok (pc_net p) (pc_main p) }.

Lemma step_ok grace e p q : process_ok p -> step grace e p = Some q -> process_ok q.
Proof.
  intros [Hn Hm]. destruct e as [e|e]; cbn.
  - destruct (net_step _ _ e (pc_net p)) as [n|] eqn:E; [|done]. intros [= <-]. split; cbn; [by eapply net_step_ok|by eapply main_ok_net].
  - destruct (main_step grace e _ _) as [m|] eqn:E; [|done]. intros [= <-]. split; cbn; [done|by eapply main_step_ok].
Qed.

(** *** The start *)

Definition limits_sane {TL : TlsLib} (s : PreparedListenerSet) : Prop := Forall (fun l => 0 <= lt_limit l < 2 ^ 64) (spawn_loops s).

Lemma started_ok {TL : TlsLib} s services admin now : limits_sane s -> process_ok (start_process s services admin now).
Proof.
  intros Hl. split; split; cbn; try done. intros i l Hi. unfold limits_sane in Hl. rewrite Forall_lookup in Hl. split; [by eapply Hl|]. specialize (Hl i l Hi).
  apply list_elem_of_lookup_2, elem_of_app in Hi as [Hi|[Hi|Hi]%elem_of_app]; apply list_elem_of_fmap in Hi as (x & -> & _); cbn in *; try (split; [done|]; split; [done|lia]).
  change (if bool_decide (LWait = LAccept) then 1%nat else 0%nat) with 0%nat. lia.
Qed.

Lemma run_ok grace es p q : process_ok p -> run grace es p = Some q -> process_ok q.
Proof. intros Hp. apply run_ind; [|done]. intros e x y _. apply step_ok. Qed.

Lemma run_shape grace es p q : run grace es p = Some q -> map shape (ac_listeners (pc_net q)) = map shape (ac_listeners (pc_net p)).
Proof.
  apply (run_ind grace (fun x => map shape (ac_listeners (pc_net x)) = map shape (ac_listeners (pc_net p)))); [|done].
  intros [e|e] x y _ Hx; cbn.
  - destruct (net_step _ _ e (pc_net x)) as [n|] eqn:E; [|done]. intros [= <-]. cbn. rewrite (net_step_shape _ _ _ _ _ E). done.
  - destruct (main_step _ _ _ _); [|done]. by intros [= <-].
Qed.

(** *** Connections within their limits *)

Definition total_limit (ls : list listener_state) : Z := foldr (fun l a => lt_limit l + a) 0 ls.
Definition total_live (cs : list conn_task) (a n : nat) : Z := foldr (fun i s => Z.of_nat (count (live_at i) cs) + s) 0 (seq a n).

Lemma total_live_cons c cs a n : total_live (c :: cs) a n = (if negb (ended c) && ((a <=? cn_listener c) && (cn_listener c <? a + n))%nat then 1 else 0) + total_live cs a n.
Proof.
  unfold total_live. revert a. induction n as [|n IH]; intros a; cbn [seq foldr].
  - replace ((a <=? _) && _)%nat with false; [by rewrite andb_false_r|]. symmetry. apply andb_false_iff. destruct (a <=? cn_listener c)%nat eqn:E; [right|by left]. apply Nat.ltb_ge. apply Nat.leb_le in E. lia.
  - rewrite IH. cbn [count]. unfold live_at at 1. destruct (ended c); cbn [negb andb]; [lia|].
    destruct (Nat.eqb_spec (cn_listener c) a), (Nat.leb_spec (S a) (cn_listener c)), (Nat.leb_spec a (cn_listener c)), (Nat.ltb_spec (cn_listener c) (S a + n)), (Nat.ltb_spec (cn_listener c) (a + S n)); cbn [andb]; lia.
Qed.

Lemma live_total cs n : (forall c t, cs !! c = Some t -> (cn_listener t < n)%nat) -> Z.of_nat (count (fun c => negb (ended c)) cs) <= total_live cs 0 n.
Proof.
  induction cs as [|c cs IH]; intros Hr; cbn [count].
  - assert (forall a, total_live [] a n = 0) as ->; [|done]. unfold total_live. clear Hr. induction n as [|n IHn]; intros a; cbn; [done|apply IHn].
  - rewrite total_live_cons. specialize (IH ltac:(intros d t Hd; apply (Hr (S d) t Hd))). specialize (Hr 0%nat c eq_refl).
    destruct (ended c); cbn [negb andb]; [lia|]. rewrite (proj2 (Nat.ltb_lt _ _)) by lia. cbn. lia.
Qed.

Lemma total_live_limit ls cs : forall a, (forall i l, ls !! i = Some l -> Z.of_nat (count (live_at (a + i)) cs) <= lt_limit l) -> total_live cs a (length ls) <= total_limit ls.
Proof.
  induction ls as [|l ls IH]; intros a H; cbn; [done|]. fold (total_live cs (S a) (length ls)). specialize (IH (S a)). specialize (H 0%nat l eq_refl) as H0. rewrite Nat.add_0_r in H0.
  assert (total_live cs (S a) (length ls) <= total_limit ls); [|unfold total_limit in *; lia]. apply IH. intros i x Hi. replace (S a + i)%nat with (a + S i)%nat by lia. by apply (H (S i)).
Qed.

Lemma listener_ok_limit l k : listener_ok l k -> Z.of_nat k <= lt_limit l.
Proof. intros (_ & H). destruct (lt_kind l); [|by destruct H as (_ & _ & H)..]. destruct (bool_decide _); lia. Qed.

Lemma running_bounded n : net_ok n -> Z.of_nat (count running (ac_conns n)) <= total_limit (ac_listeners n).
Proof.
  intros [_ H2 H3]. transitivity (Z.of_nat (count (fun c => negb (ended c)) (ac_conns n))).
  - apply inj_le, count_le. intros c. unfold running, ended. by destruct (cn_phase c).
  - etransitivity; [by apply live_total|]. apply total_live_limit. intros i l Hi. by apply listener_ok_limit, H3.
Qed.

Lemma total_limit_shape ls ks : map shape ls = map shape ks -> total_limit ls = total_limit ks.
Proof. revert ks. induction ls as [|l ls IH]; intros [|k ks]; try done. cbn [map]. intros [= _ _ El H]. change (lt_limit l + total_limit ls = lt_limit k + total_limit ks). by rewrite El, (IH _ H). Qed.

(** C16. Connections are counted and limited.  In whatever order accept loops, connection
    tasks and the supervising task of a process run: no listener ever has more
    connections than its limit, counted from their acceptance to the end of their
    tasks; no permit of a TCP listener is lost, since those that are free, the one its
    loop holds and its connections always add up to the limit, and the slots in use of
    any other listener are its connections; and the number of active connections that is
    published and drained is exactly the number of connection tasks that run. *)
Theorem supervised_connections {TL : TlsLib} grace s services admin now es p :
  limits_sane s -> total_limit (spawn_loops s) < 2 ^ 64 -> run grace es (start_process s services admin now) = Some p ->
  map shape (ac_listeners (pc_net p)) = map shape (spawn_loops s) /\
  ac_active (pc_net p) = Z.of_nat (count running (ac_conns (pc_net p))) /\
  forall i l, ac_listeners (pc_net p) !! i = Some l ->
    let live := Z.of_nat (count (live_at i) (ac_conns (pc_net p))) in
    live <= lt_limit l /\
    match lt_kind l with
    | KTcp => Z.of_nat (lt_permits l) + (if bool_decide (lt_loop l = LAccept) then 1 else 0) + live = lt_limit l
    | KTransparent | KUnix => lt_slots l = live
    end.
Proof.
  intros Hl Ht Hr. destruct (run_ok _ _ _ _ (started_ok s services admin now Hl) Hr) as [Hn _]. apply run_shape in Hr. split; [done|]. split.
  - rewrite (no_active _ Hn). apply Z.mod_small. pose proof (running_bounded _ Hn) as H. rewrite (total_limit_shape _ _ Hr) in H. split; [lia|]. eapply Z.le_lt_trans; [exact H|exact Ht].
  - intros i l Hi. pose proof (no_accounts _ Hn i l Hi) as H. split; [by apply listener_ok_limit|]. destruct H as (_ & H). destruct (lt_kind l); [|by destruct H as (_ & H & _)..].
    destruct (bool_decide _); lia.
Qed.

(** *** Draining *)

(** C17. The shutdown is ordered.  In every state a process reaches: it reports ready
    exactly in its run loop; listeners are told to stop exactly from the beginning of the
    shutdown on, and the admin server exactly at its end; connections are cancelled only
    when the grace period is over; unless it is over, connections are drained only after
    every accept loop and service has ended, so that none is added any more, and the
    admin server stops only after every connection task has ended by itself. *)
Theorem shutdown_ordered_sound {TL : TlsLib} grace s services admin now es p :
  limits_sane s -> run grace es (start_process s services admin now) = Some p ->
  let m := pc_main p in
  (mn_ready m = true <-> mn_stage m = SRunning) /\
  (mn_listener_cancel m = true <-> before_shutdown (mn_stage m) = false) /\
  (mn_admin_cancel m = true <-> admin_stage (mn_stage m) = true) /\
  (mn_connection_cancel m = true -> expired m = true) /\
  (draining (mn_stage m) = true -> expired m = false ->
    loops_exited (pc_net p) = true /\ no_services m = true /\
    forall fs q, run grace fs p = Some q -> length (ac_conns (pc_net q)) = length (ac_conns (pc_net p))) /\
  (admin_stage (mn_stage m) = true -> expired m = false -> conns_ended (pc_net p) = true /\ mn_connection_cancel m = false).
Proof.
  intros Hl Hr. destruct (run_ok _ _ _ _ (started_ok s services admin now Hl) Hr) as [Hn [H1 (H2 & _ & _) H3 H4 H5 H6]]. cbv zeta.
  split; [by rewrite H1, bool_decide_eq_true|]. split; [by rewrite H2, negb_true_iff|]. split; [by rewrite H4|]. split; [intros X; by apply H3|]. split.
  - intros Hd He. destruct (H5 Hd) as [X|[Hx Hs]]; [congruence|]. split; [done|]. split; [done|]. intros fs q Hf.
    apply (run_ind grace (fun x => loops_exited (pc_net x) = true /\ length (ac_conns (pc_net x)) = length (ac_conns (pc_net p))) fs p q) in Hf; [by destruct Hf| |done].
    intros [e|e] x y _ [Hlx Hlen]; cbn.
    + destruct (net_step _ _ e (pc_net x)) as [n|] eqn:E; [|done]. intros [= <-]. cbn. destruct (loops_exited_stay _ _ _ _ _ E Hlx) as (? & -> & _). done.
    + destruct (main_step _ _ _ _); [|done]. by intros [= <-].
  - intros Ha He. destruct (H6 Ha) as [X|Hc]; [congruence|]. split; [done|]. destruct (mn_connection_cancel (pc_main p)); [|done]. destruct H3; [done|congruence].
Qed.

(** The polls of the supervising task and the time that passes in a run. *)
Fixpoint polls (es : list event) : nat := match es with inr EvPoll :: r => S (polls r) | _ :: r => polls r | [] => 0 end.
Fixpoint elapsed (es : list event) : Z := match es with inr (EvTick d) :: r => d + elapsed r | _ :: r => elapsed r | [] => 0 end.
Definition rank (s : stage) : nat := match s with SStarting => 7 | SRunning => 6 | SUdpTasks => 5 | STasks => 4 | SDrain => 3 | SConnTasks => 2 | SAdminTasks => 1 | SDone => 0 end.

(** A step of a process that shuts down. *)
Lemma shutdown_step grace e p q : step grace e p = Some q -> before_shutdown (mn_stage (pc_main p)) = false ->
  before_shutdown (mn_stage (pc_main q)) = false /\ mn_deadline (pc_main q) = mn_deadline (pc_main p) /\
  mn_now (pc_main q) = mn_now (pc_main p) + elapsed [e] /\ 0 <= elapsed [e] /\
  (rank (mn_stage (pc_main q)) <= rank (mn_stage (pc_main p)))%nat /\
  (expired (pc_main p) = true -> e = inr EvPoll -> (rank (mn_stage (pc_main q)) <= rank (mn_stage (pc_main p)) - 1)%nat).
Proof.
  intros H Hb. destruct e as [e|e]; cbn in H.
  { destruct (net_step _ _ e _); [|done]. injection H as <-. cbn. rewrite Z.add_0_r. done. }
  destruct (main_step grace e _ _) as [m|] eqn:E; [|done]. injection H as <-. cbn [pc_main].
  destruct e as [| | |d| | |i|i| |]; cbn [main_step elapsed] in *; rewrite ?Z.add_0_r.
  - injection E as <-. unfold main_poll. destruct (mn_stage (pc_main p)) eqn:Es; try done; cbn;
      repeat match goal with |- context [if ?b then _ else _] => let E := fresh "E" in destruct b eqn:E; cbn end; rewrite ?Es; cbn; repeat split; try done; try lia;
      intros X _; repeat match goal with H : _ || _ = false |- _ => apply orb_false_iff in H as [? ?] end; congruence.
  - destruct (mn_stage (pc_main p)); done.
  - injection E as <-. done.
  - destruct (0 <=? d) eqn:Ed; [|done]. apply Z.leb_le in Ed. injection E as <-. cbn. repeat split; try done; lia.
  - injection E as <-. done.
  - destruct (mn_udp_tasks (pc_main p)); [done|]. injection E as <-. done.
  - destruct (mn_services (pc_main p) !! i) as [[]|]; [|done..]. destruct (mn_cancel (pc_main p)); [|done]. injection E as <-. done.
  - destruct (mn_services (pc_main p) !! i) as [[]|]; [|done..]. injection E as <-. done.
  - destruct (_ && _); [|done]. injection E as <-. done.
  - destruct (mn_admin (pc_main p)); [|done]. injection E as <-. done.
Qed.

Lemma shutdown_time grace es : forall p q, run grace es p = Some q -> before_shutdown (mn_stage (pc_main p)) = false ->
  before_shutdown (mn_stage (pc_main q)) = false /\ mn_deadline (pc_main q) = mn_deadline (pc_main p) /\ mn_now (pc_main q) = mn_now (pc_main p) + elapsed es /\
  0 <= elapsed es /\ (rank (mn_stage (pc_main q)) <= rank (mn_stage (pc_main p)))%nat.
Proof.
  induction es as [|e es IH]; intros p q; cbn [run]; [intros [= <-]; cbn; rewrite Z.add_0_r; done|]. destruct (step grace e p) as [r|] eqn:E; [|done]. cbn [mbind option_bind]. intros H Hb.
  destruct (shutdown_step _ _ _ _ E Hb) as (B1 & D1 & N1 & T1 & R1 & _). destruct (IH r q H B1) as (B2 & D2 & N2 & T2 & R2).
  assert (elapsed (e :: es) = elapsed [e] + elapsed es) as -> by (destruct e as [|[]]; cbn; lia). repeat split; try congruence; lia.
Qed.

Lemma shutdown_polls grace es : forall p q, run grace es p = Some q -> before_shutdown (mn_stage (pc_main p)) = false -> expired (pc_main p) = true ->
  (rank (mn_stage (pc_main q)) <= rank (mn_stage (pc_main p)) - polls es)%nat.
Proof.
  induction es as [|e es IH]; intros p q; cbn [run]; [intros [= <-]; cbn; lia|]. destruct (step grace e p) as [r|] eqn:E; [|done]. cbn [mbind option_bind]. intros H Hb He.
  destruct (shutdown_step _ _ _ _ E Hb) as (B1 & D1 & N1 & T1 & R1 & P1).
  assert (expired (pc_main r) = true) as He' by (unfold expired in *; rewrite Z.leb_le in *; lia). specialize (IH r q H B1 He').
  destruct e as [|[]]; cbn [polls]; try lia. specialize (P1 He eq_refl). lia.
Qed.

(** C18. The shutdown ends.  Whatever listeners, connections and services do after a
    signal: once the grace period has passed, five turns of the supervising task end the
    shutdown, and it can always take its turn. *)
Theorem shutdown_ends grace p es fs q :
  mn_stage (pc_main p) = SRunning -> run grace (inr EvSignal :: es ++ fs) p = Some q -> grace <= elapsed es -> (5 <= polls fs)%nat ->
  mn_stage (pc_main q) = SDone /\ forall r, is_Some (step grace (inr EvPoll) r).
Proof.
  intros Hs H He Hp. cbn [run step main_step] in H. rewrite Hs in H. cbn [fmap option_fmap option_map mbind option_bind] in H. rewrite run_app in H.
  destruct (run grace es _) as [r|] eqn:E; [|done]. cbn [mbind option_bind] in H. destruct (shutdown_time _ _ _ _ E) as (B & D & N & T & R); [done|].
  pose proof (shutdown_polls _ _ _ _ H B) as Hr. cbn in D, N, R. assert (expired (pc_main r) = true) as Hx by (unfold expired; apply Z.leb_le; lia). specialize (Hr Hx).
  assert (rank (mn_stage (pc_main q)) = 0%nat) as Hq by lia. split; [by destruct (mn_stage (pc_main q))|]. intros x. cbn. by eexists.
Qed.

(** *** What a signal does not stop *)

(** The services watch the token of the caller only.  In a process that is stopped by a
    signal they never end by themselves, so that the whole grace period passes before
    connections are drained. *)
Lemma signal_leaves_services {TL : TlsLib} grace s services admin now es p :
  limits_sane s -> (0 < services)%nat -> run grace es (start_process s services admin now) = Some p ->
  inr EvToken ∉ es -> (forall i, inr (EvServiceFail i) ∉ es) ->
  mn_services (pc_main p) = replicate services true /\ (draining (mn_stage (pc_main p)) = true -> expired (pc_main p) = true).
Proof.
  intros Hl Hs Hr Ht Hf.
  assert (mn_services (pc_main p) = replicate services true /\ mn_cancel (pc_main p) = false) as [Hsv _].
  { apply (run_ind grace (fun x => mn_services (pc_main x) = replicate services true /\ mn_cancel (pc_main x) = false) es _ p) in Hr; [done| |done].
    intros [e|e] x y He [Hx Hc]; cbn; [destruct (net_step _ _ _ _); [|done]; by intros [= <-]|].
    destruct (main_step grace e (pc_net x) (pc_main x)) as [m|] eqn:E; [|done]. intros [= <-]. cbn. destruct e as [| | |d| | |i|i| |]; cbn in E.
    - injection E as <-. unfold main_poll. destruct (mn_stage (pc_main x)); cbn; rewrite ?Hc; repeat match goal with |- context [if ?b then _ else _] => destruct b end; done.
    - destruct (mn_stage (pc_main x)); try done. by injection E as <-.
    - done.
    - destruct (0 <=? d); [|done]. by injection E as <-.
    - by injection E as <-.
    - destruct (mn_udp_tasks (pc_main x)); [done|]. by injection E as <-.
    - rewrite Hc in E. by destruct (mn_services (pc_main x) !! i) as [[]|].
    - by destruct (Hf i).
    - destruct (_ && _); [|done]. by injection E as <-.
    - destruct (mn_admin (pc_main x)); [|done]. by injection E as <-. }
  split; [done|]. intros Hd. destruct (run_ok _ _ _ _ (started_ok s services admin now Hl) Hr) as [_ Hm]. destruct (mo_stopped _ _ Hm Hd) as [?|[_ Hn]]; [done|].
  unfold no_services in Hn. rewrite Hsv in Hn. destruct services; [lia|done].
Qed.

(** *** Silent clients of a TLS listener *)

Definition handshaking_at (i : nat) (c : conn_task) : bool := bool_decide (cn_phase c = CHandshake) && (cn_listener c =? i)%nat.

Lemma count_kept {A} (P : A -> bool) l k : (forall i x, l !! i = Some x -> P x = true -> k !! i = Some x) -> (count P l <= count P k)%nat.
Proof.
  revert k. induction l as [|x l IH]; intros k H; cbn; [lia|]. destruct k as [|y k].
  - destruct (P x) eqn:E; [by specialize (H 0%nat x eq_refl E)|]. cbn. specialize (IH []). cbn in IH. apply IH. intros i z Hi. apply (H (S i) z Hi).
  - assert (count P l <= count P k)%nat as Hc by (apply IH; intros i z Hi; apply (H (S i) z Hi)). destruct (P x) eqn:E; [|cbn; destruct (P y); lia].
    specialize (H 0%nat x eq_refl E). injection H as ->. cbn [count]. rewrite E. lia.
Qed.

Lemma accept_conn_conns n i l d : ac_conns n `prefix_of` ac_conns (accept_conn n i l d).
Proof.
  unfold accept_conn. destruct (lt_kind l); [by eexists|destruct (try_acquire _ _); [|done]..]; [|by eexists]. destruct d; [by eexists|done].
Qed.

Lemma net_step_handshake lc cc e n m c t : net_step lc cc e n = Some m -> (forall c b, e <> EvTls c b) -> ac_conns n !! c = Some t -> cn_phase t = CHandshake ->
  ac_conns m !! c = Some t.
Proof.
  intros H He Hc Ht. assert (forall d u ph, ac_conns n !! d = Some u -> cn_phase u <> CHandshake ->
    <[d := {| cn_listener := cn_listener u; cn_id := cn_id u; cn_phase := ph |}]> (ac_conns n) !! c = Some t) as Hd.
  { intros d u ph Hd Hu. rewrite list_lookup_insert_ne; [done|]. intros ->. assert (t = u) as -> by congruence. done. }
  destruct e as [i|i d|i e|i|i|d|d b|d|d]; cbn [net_step] in H;
    try (destruct (ac_listeners n !! i) as [l|] eqn:Hi; [|done]; cbn in H); try (destruct (ac_conns n !! d) as [u|] eqn:Hu; [|done]; cbn in H).
  - by destruct (lt_kind l), (lt_loop l), (lt_permits l); try done; injection H as <-.
  - destruct (lt_loop l); try done. injection H as <-. eapply prefix_lookup_Some; [exact Hc|apply accept_conn_conns].
  - destruct (lt_loop l); try done. by injection H as <-.
  - destruct (lt_loop l); try done. by injection H as <-.
  - destruct lc; [|done]. destruct (lt_loop l); try done; by injection H as <-.
  - destruct (ac_listeners n !! cn_listener u); [|done]. cbn in H. destruct (cn_phase u) eqn:Eu; try done. injection H as <-. apply Hd; [done|congruence].
  - by destruct (He d b).
  - destruct (cn_phase u) eqn:Eu; try done. injection H as <-. rewrite (proj1 (end_conn_frame _ _ _)). apply Hd; [done|congruence].
  - destruct cc; [|done]. destruct (cn_phase u) eqn:Eu; try done. injection H as <-. rewrite (proj1 (end_conn_frame _ _ _)). apply Hd; [done|congruence].
Qed.

(** The TLS handshake of a connection has no time limit and is not cancelled: as many
    clients that connect to a TLS listener and stay silent as it has permits keep
    everybody else out, through any timeout and any shutdown. *)
Lemma silent_clients_block grace p es q i l : process_ok p -> ac_listeners (pc_net p) !! i = Some l -> lt_kind l = KTcp ->
  Z.of_nat (count (handshaking_at i) (ac_conns (pc_net p))) = lt_limit l ->
  run grace es p = Some q -> (forall c b, inl (EvTls c b) ∉ es) -> forall d, step grace (inl (EvAccept i d)) q = None.
Proof.
  intros Hok Hi Hk Hh Hr He d. assert (forall c t, ac_conns (pc_net p) !! c = Some t -> cn_phase t = CHandshake -> ac_conns (pc_net q) !! c = Some t) as Hkeep.
  { intros c t Hc Ht. apply (run_ind grace (fun x => ac_conns (pc_net x) !! c = Some t) es p q) in Hr; [done| |done]. intros [e|e] x y Hin Hx; cbn.
    - destruct (net_step _ _ e (pc_net x)) as [n|] eqn:E; [|done]. intros [= <-]. cbn. eapply net_step_handshake; [exact E| |exact Hx|exact Ht]. intros c' b ->. by apply (He c' b).
    - destruct (main_step _ _ _ _); [|done]. by intros [= <-]. }
  pose proof (run_shape _ _ _ _ Hr) as Hsh. apply (run_ok _ _ _ _ Hok) in Hr as [Hn _]. cbn. destruct (ac_listeners (pc_net q) !! i) as [x|] eqn:Hx; [|done]. cbn.
  assert (shape x = shape l) as [= Ek _ El].
  { apply (f_equal (fun s => s !! i)) in Hsh. change (map shape ?s) with (shape <$> s) in Hsh. rewrite !list_lookup_fmap, Hx, Hi in Hsh. exact (Some_inj _ _ Hsh). }
  assert (count (handshaking_at i) (ac_conns (pc_net p)) <= count (live_at i) (ac_conns (pc_net q)))%nat as Hc.
  { etransitivity; [apply (count_kept (handshaking_at i) _ (ac_conns (pc_net q)))|apply count_le].
    - intros c t Hc Ht. unfold handshaking_at in Ht. apply andb_true_iff in Ht as [Ht%bool_decide_eq_true _]. by apply Hkeep.
    - intros t. unfold handshaking_at, live_at, ended. by destruct (cn_phase t). }
  destruct (no_accounts _ Hn i x Hx) as (_ & H). rewrite Ek, Hk in H. destruct (lt_loop x) eqn:E; try done. rewrite bool_decide_true in H by done. lia.
Qed.

(** ** Examples *)

(** The listener of [SampleListeners] with TLS and a limit of two, and one service: two
    connections, of which one is served; then a signal. *)
Definition sample_start : process := start_process SampleListeners.listeners 1 true 0.
Definition sample_events : list event :=
  [inl (EvPermit 0); inr EvPoll; inl (EvAccept 0 true); inl (EvPermit 0); inl (EvStart 0); inl (EvAccept 0 true); inl (EvTls 0 true); inl (EvStart 1)].
Definition sample_shutdown : list event := [inr EvPoll; inr EvPoll; inl (EvServed 0); inr (EvTick 3); inl (EvStop 0); inr EvPoll; inr (EvTick 7)].

Lemma sample_limits : limits_sane SampleListeners.listeners.
Proof.
  unfold limits_sane. assert (map lt_limit (spawn_loops SampleListeners.listeners) = [2]) as H by (vm_compute; reflexivity).
  apply (Forall_map lt_limit (fun z => 0 <= z < 2 ^ 64)). rewrite H. constructor; [lia|constructor].
Qed.

Lemma supervised_connections_witness : exists p, run 10 sample_events sample_start = Some p /\ ac_active (pc_net p) = 2 /\
  forall i l, ac_listeners (pc_net p) !! i = Some l -> Z.of_nat (count (live_at i) (ac_conns (pc_net p))) <= lt_limit l.
Proof.
  assert (exists p, run 10 sample_events sample_start = Some p /\ ac_active (pc_net p) = 2) as (p & Hp & Ha) by (eexists; split; vm_compute; reflexivity).
  exists p. split; [exact Hp|]. split; [exact Ha|]. intros i l Hi.
  refine (proj1 (proj2 (proj2 (supervised_connections 10 SampleListeners.listeners 1 true 0 sample_events p sample_limits _ Hp)) i l Hi)).
  assert (total_limit (spawn_loops SampleListeners.listeners) = 2) as -> by (vm_compute; reflexivity). lia.
Defined.

(** Here the connection that stays in its handshake is still there when the grace
    period ends. *)
Lemma shutdown_ordered_sound_witness : exists p, run 10 (sample_events ++ inr EvSignal :: sample_shutdown ++ [inr EvPoll; inr EvPoll]) sample_start = Some p /\
  mn_stage (pc_main p) = SConnTasks /\ mn_connection_cancel (pc_main p) = true /\ expired (pc_main p) = true.
Proof.
  assert (exists p, run 10 (sample_events ++ inr EvSignal :: sample_shutdown ++ [inr EvPoll; inr EvPoll]) sample_start = Some p /\ mn_stage (pc_main p) = SConnTasks /\
    mn_connection_cancel (pc_main p) = true) as (p & Hp & Hs & Hc) by (eexists; split; [|split]; vm_compute; reflexivity).
  exists p. split; [exact Hp|]. split; [exact Hs|]. split; [exact Hc|].
  destruct (shutdown_ordered_sound 10 SampleListeners.listeners 1 true 0 _ p sample_limits Hp) as (_ & _ & _ & H & _). exact (H Hc).
Defined.

Lemma shutdown_ends_witness : exists p q, run 10 sample_events sample_start = Some p /\
  run 10 (inr EvSignal :: sample_shutdown ++ replicate 5 (inr EvPoll)) p = Some q /\ mn_stage (pc_main q) = SDone.
Proof.
  assert (exists p, run 10 sample_events sample_start = Some p /\ mn_stage (pc_main p) = SRunning /\
    is_Some (run 10 (inr EvSignal :: sample_shutdown ++ replicate 5 (inr EvPoll)) p)) as (p & Hp & Hs & q & Hq).
  { eexists. split; [vm_compute; reflexivity|]. split; [reflexivity|]. vm_compute. eexists. reflexivity. }
  exists p, q. split; [exact Hp|]. split; [exact Hq|].
  refine (proj1 (shutdown_ends 10 p sample_shutdown (replicate 5 (inr EvPoll)) q Hs Hq _ _)); vm_compute; [discriminate|lia].
Defined.
